(* ===== verification/_CoqProject ===== *)
-Q . S2P
Prelude.v
GoErrors.v
EthTypes.v
Frame.v
Channel.v
ChannelBank.v
Extern.v
L1Info.v
RLP.v
RLPStream.v
Batch.v
BatchQueue.v
Deposits.v
Attributes.v
PayloadsQueue.v
EngineUpdate.v
SyncStart.v
EngineQueue.v
L1Stages.v
ChannelInReader.v
ChannelOut.v
Pipeline.v
Driver.v
SSZ.v
BlockHash.v
LRU.v
Gossip.v
BatchCall.v
EthClient.v
TxMgr.v
RLPTypes.v
SequencerBatch.v
Receipts.v
TrieEncoding.v
Trie.v
TrieNode.v
TrieHash.v
TrieRoot.v
TrieDB.v
TrieStore.v
TrieGC.v
TrieEvents.v
TrieProof.v
TxMeta.v
LegacyTx.v
RollupFee.v
RollupClient.v
SyncService.v
AccessList.v
StateDB.v
StateSpec.v
StateRefines.v
StateCommit.v
SecureTrie.v
StateExamples.v
