(* ===== verification/Prelude.v ===== *)
(** * A verification library for the Titan rollup node

    Titan is an optimistic rollup: an L2 chain whose transactions are published on an
    L1 chain and re-derived from it by every node.  This library models the Go code
    that does this, the derivation pipeline and driver of the rollup node
    (src/op-node/rollup), the clients and the block gossip it gets its data from
    (src/op-node/sources, src/op-node/p2p, src/op-node/eth), the RLP codec
    (src/l2geth/rlp) its batches are encoded with, the transaction managers that publish
    to L1 (src/bss-core, src/op-proposer), the batches of the legacy submitter
    (src/batch-submitter) and, of the legacy node, the Merkle Patricia trie with its node
    database (src/l2geth/trie), the state database on top of it (src/l2geth/core/state),
    the rollup synchronisation service with its client and fees (src/l2geth/rollup) and the
    transactions they handle (src/l2geth/core/types), and proves what makes it correct.

    ** The program

    A batcher turns L2 blocks into batches, compresses them into a channel, cuts the
    channel into frames and sends the frames as calldata of L1 transactions
    ([ChannelOut]).  A verifier walks the L1 chain and reads them back through a chain
    of stages, each pulling from the one before:

    L1 traversal -> L1 retrieval -> channel bank -> channel reader -> batch queue ->
    attributes queue -> engine queue.

    The traversal exposes one L1 block at a time; the retrieval filters the batcher's
    calldata out of its transactions; the bank sorts frames into channels and emits the
    oldest one when it is complete; the reader decompresses and decodes batches; the
    queue orders batches by timestamp, checks them and fills gaps with empty ones; the
    attributes queue adds the L1 information and the deposits of the L1 origin; the
    engine queue compares the attributes with the unsafe chain or has the execution
    engine build them, and tracks unsafe, safe and finalized heads.  The pipeline steps
    and resets the stages; the driver schedules steps and, as a sequencer, produces
    blocks.

    The L1 and L2 data comes from RPC nodes that need not be trusted: the clients
    recompute block hashes and roots, cache what they verified and fetch receipts in
    batches that several goroutines work off.  New L2 blocks also arrive by gossip, SSZ
    encoded, compressed and signed by the sequencer; the validator decides what is
    relayed and handed to the driver as an unsafe payload.  To publish on L1 the
    submitters hand a transaction to a transaction manager, which resubmits it with
    higher fees until one copy is confirmed.  The legacy submitter groups the
    transactions of L2 blocks into contexts and prunes a batch until it fits.

    The legacy node keeps its state in Merkle Patricia tries.  A trie is hashed and
    committed to a node database that counts references, collects what no root needs, and
    writes to disk in an order that leaves no dangling hash.  Above it the state database
    loads accounts and slots lazily into layers of caches, records every change in a
    journal that snapshots revert, and writes what is left to the tries.  Its blocks come from the
    synchronisation service: as a sequencer it takes transactions of users and of the L1
    queue, checks the fee and hands them to the chain; as a verifier it replays what an
    indexer of L1 reports, and both recover their indices from the chain at a restart.

    ** Files

    - [Prelude]: bytes, machine integers (values in [Z], wrap-around written out as
      [u64], [u16] and the operators [⊞ ⊟ ⊠]), big-endian codecs, slices, tactics.
    - [GoErrors]: Go results ([Ok], [Err], [Panic]), error values with their levels
      (derive/error.go), [errors.Is] and [errors.As].
    - [EthTypes]: block references, payloads, configuration (op-node/eth,
      rollup/types.go) and the go-ethereum data the code reads.
    - [Extern]: Keccak-256 and the transaction codec, as classes with the laws relied on.
    - [Frame], [Channel], [ChannelBank]: frame.go, channel.go, channel_bank.go.
    - [L1Info]: l1_block_info.go, deposit_source.go.
    - [RLP], [RLPStream]: l2geth/rlp encode.go, raw.go and decode.go.
    - [Batch], [BatchQueue]: batch.go, batches.go, batch_queue.go.
    - [Deposits]: deposit_log.go, deposits.go.
    - [Attributes]: attributes.go, attributes_queue.go, engine_consolidate.go,
      payload_util.go, progress.go.
    - [PayloadsQueue]: payloads_queue.go and the heap of container/heap it uses.
    - [EngineUpdate]: engine_update.go, eth/status.go.
    - [SyncStart]: sync/start.go.
    - [EngineQueue]: engine_queue.go.
    - [L1Stages]: l1_traversal.go, l1_retrieval.go, calldata_source.go.
    - [ChannelInReader], [ChannelOut]: channel_in_reader.go, channel_out.go.
    - [Pipeline]: pipeline.go, the stages composed.
    - [Driver]: rollup/driver state.go, step.go, conf_depth.go.
    - [SSZ]: eth/ssz.go, with the buffers of its pool and slices of Go arrays.
    - [BlockHash]: the hash check of eth/types.go, sources/types.go and receipts.go.
    - [LRU]: the interface of the LRU cache library, and a cache that satisfies it.
    - [Gossip]: p2p/gossip.go and signer.go.
    - [BatchCall]: sources/batching.go, for one caller and for concurrent ones.
    - [EthClient]: sources/eth_client.go, l1_client.go, l2_client.go, engine_client.go;
      the L1 client is an instance of the interfaces the pipeline stages use.
    - [Receipts]: the receipts part of eth_client.go and receipts.go, with the fetchers
      that callers share through the cache.
    - [TxMgr]: bss-core/txmgr and op-proposer/txmgr, goroutines included.
    - [RLPTypes]: the encoders and decoders l2geth/rlp builds for Go types.
    - [SequencerBatch]: batch-submitter/drivers/sequencer.
    - [TrieEncoding], [Trie], [TrieNode]: l2geth/trie encoding.go, trie.go, node.go.
    - [TrieHash], [TrieRoot]: hasher.go, and the trie as a map with a root hash.
    - [TrieDB]: database.go; [TrieStore], [TrieGC] and [TrieEvents] hold its invariants, its
      reference counting and what holds over every sequence of its operations.
    - [TrieProof]: proof.go.
    - [AccessList], [StateDB]: core/state access_list.go, state_object.go, journal.go and
      statedb.go, over any database ([StateDatabase]).
    - [StateSpec]: what the state promises, as a machine that saves copies of a map of
      accounts; [StateRefines]: the state database implements it; [StateCommit]: what is
      written can be opened again.
    - [SecureTrie]: trie/secure_trie.go and core/state/database.go, with the modelled tries
      and node database as the instance of the interfaces of the three files before.
    - [StateExamples]: the state database on concrete inputs.
    - [TxMeta]: core/types/transaction_meta.go and varbytes.go.
    - [LegacyTx]: core/types/transaction.go and transaction_signing.go.
    - [RollupFee]: rollup/fees/rollup_fee.go, eth/gasprice/rollup_gasprice.go.
    - [RollupClient]: rollup/client.go.
    - [SyncService]: rollup/sync_service.go, rollup/types.go, core/rawdb/rollup_indexes.go.

    A struct is a record with the source's fields, a method a function that returns the
    new record and its result; loops are [Fixpoint]s.  What a stage knows of the stage
    before it is a class ([NextDataProvider], [NextBatchProvider],
    [NextAttributesProvider], [DerivationPipelineI], ...): its theorems hold for every
    implementation, and the stages are instances ([L1Retrieval_provider],
    [ChannelInReader_provider], [Pipeline.attributes_stage], [Driver.pipeline_driver]).
    Remote services (L1 node, L2 node, engine) and libraries outside the repository
    (zlib, Keccak-256, signatures, the transaction codec) are parameters with a state of
    their own, so that two calls may answer differently; a theorem that needs more says
    so in a hypothesis ([numbered_chain], [fetches], [serves], [engine_numbers],
    [ZlibLaws], [RLPReaderLaws], [BatchRLP], the laws of [Snappy], [Signatures],
    [HeaderHasher] and [LRU]), and its witness gives an instance.
    Logging, metrics, contexts and timeouts have no counterpart; the texts of error
    messages are abbreviated.

    ** What the theorems show

    - Codecs: frames, deposits, L1 attributes, RLP values and batches round-trip, and
      the decoders accept exactly the canonical encodings ([ParseFrames_spec],
      [UnmarshalDepositLogEvent_spec], [Split_spec], [DecodeBytes_iff],
      [UnmarshalSSZ_iff]); the encoder that works with separate list headers equals the
      recursive definition ([EncodeToBytes_reference]); the codecs of Go types decode
      into a type exactly the encodings of its values ([EncodeValue_reference],
      [DecodeValue_iff]).
    - Data path: reassembly of a channel does not depend on the order of its frames
      ([channel_reassembly]); the bank keeps its invariant, its memory bound and its
      order ([ChannelBank_NextData_safe], [IngestData_memory],
      [ChannelBank_NextData_emits]); every L1 block is read once and in order
      ([l1_data_stream]); within the limits of the format, what the batcher sends is what
      the verifier reads ([channel_roundtrip]).
    - Derivation: when a batch is accepted and that the decision is stable
      ([CheckBatch_accept], [CheckBatch_stable]); what the queue returns and that it
      makes progress ([NextBatch_good], [deriveNextBatch_progress]); which deposits and
      attributes result ([DeriveDeposits_complete], [PreparePayloadAttributes_spec],
      [derived_block_ref], [derived_payload_sane]).
    - Heads: how the safe head advances ([safe_head_advances]), that it stays below the
      unsafe head, which grows by the first buffered payload ([Step_heads_ordered]), that finality is sound over every run
      ([Finalize_sound]), how rejected attributes are handled ([force_drops_sequenced]),
      where a restarted node resumes and that the search ends ([FindL2Heads_heads],
      [FindL2Heads_terminates]); the unsafe payloads are a bounded priority queue
      ([upq_Push_spec], [upq_drain_sorted]).
    - Sources: what an untrusted RPC returns is used only if it hashes to what was asked
      for, from the cache or not ([untrusted_client_verified], [receipts_verified],
      [ExecutionPayload_verified], [makeReceipts_sound], [BlockIDRange_linked], [L1Client_chain_verified]); iterative
      batch calls complete and keep results in order ([batch_call_correct]), and
      concurrent callers of [Fetch], [Result] and [Reset] never count a request twice, and
      lose none until a [Reset] finds requests counted ([concurrent_fetch_safe]).
    - Gossip: exactly which messages are accepted, with bounded memory
      ([validateBlock_spec], [seen_blocks_bounded]), and that a published block is
      accepted unchanged ([publish_accepted], [SSZ_roundtrip]).
    - Publishing: a receipt is returned only for a transaction that was published, then had this
      receipt and then was deep enough, with the error each copy of the manager gives,
      [Send] gives up only after enough nonce errors with nothing mined, and it returns
      ([Send_receipt], [Send_gives_up], [Send_returns]); legacy batches stand for exactly
      the given elements and are read back, and which blocks a batch takes, how it is
      pruned and when none is made ([GenSequencerBatchParams_expand],
      [batch_params_roundtrip], [CraftBatchTx_spec]).
    - Tries: a trie is a map with a root hash that binds its contents, however it was
      built, hashed, committed and loaded ([trie_refines_map],
      [trie_history_independent], [trie_is_authenticated_map], [Hash_binds]); proofs are
      sound and complete ([VerifyProof_sound], [Prove_verifies]); the node database never
      loses a node that a referenced root needs, also with failing writes ([node_db_safe],
      [referenced_state_opens]).
    - State: a sequence of calls on the state database answers as the machine with
      saved copies ([statedb_refines]), so that reverting restores every query
      ([revert_restores]); a commit succeeds and its root opens as the same accounts
      ([commit_reopens]); the tries and their database satisfy what this needs
      ([caching_reads], [caching_writes]).
    - Legacy transactions: a signed transaction recovers its signer and only the signer
      could have produced it ([Sender_SignTx], [Sender_sound]); metadata round-trips
      ([TxMeta_roundtrip]); what a transaction is charged and when it pays enough
      ([TotalFee_charged], [PaysEnough_spec]).
    - Synchronisation: the invariant of the service over every run with a readable state,
      the indices after a restart, the replication of a verifier, the queue and the acceptance of user
      transactions ([service_invariant], [restart_recovers], [verifier_replicates],
      [queue_synced], [user_transaction_accepted], [sequencer_timestamps]).
    - Composition: the reset protocol and the movement of the L1 origin
      ([pipeline_reset], [pipeline_origin_linked]), scheduling and block production of
      the driver ([eventLoop_awake], [sequencer_block]).
    - Behaviour that differs from what comments or specifications say, stated as the
      code behaves: [reset_behind_never_derives], [undecided_forgets_candidates],
      [CheckBatch_breaks_time_invariant], [stale_batch_stuck],
      [reset_forces_stale_attributes], [FindL2Heads_zero_unsafe],
      [overrun_frame_blocks_channel], [OutputFrame_underflow], [reset_replays_base],
      [reset_stalls], [gossip_chain_independent], [SSZ_zero_offset],
      [failed_result_breaks_reset], [concurrent_double_close], [concurrent_restart_panics],
      [missing_first_receipt_panics], [receipts_of_another_block], [post_merge_not_enforced],
      [reorg_stops_resubmission], [zero_byte_array_diverges], [oversized_tx_empty_batch],
      [compressed_batch_stuck], [truncated_context_accepted], [split_length_misread],
      [pruning_diverges], [empty_update_keeps_key], [empty_value_lost], [code_hides_children], [TxMeta_lost], [mulByFloat_wraps], [mulByFloat_below],
      [threshold_up_added], [GetLastConfirmedEnqueue_panics], [batched_signed],
      [stale_queue_index], [failed_transaction_indices], [cache_failure_misaligns],
      [verifier_uses_clock], [copy_forgets_suicide], [deleted_balance_returns],
      [no_code_error], [error_not_returned], [create_not_written], [suicide_keeps_balance].

    ** Conditions of the theorems

    The comment of a theorem states its conditions.  Those that the code does not enforce:
    a batcher's channel stays within the limits of the format ([channel_roundtrip]); tries
    have no empty value under a key that another key extends ([map_ok], with
    [empty_value_lost] for what happens otherwise), no collision of hashes ([coll_free]),
    and in the node database a hash always has the same references ([guard], with
    [code_hides_children] for a code that is equal to the encoding of a node); [Prepare]
    is called between transactions, and without OVM_ETH no zero amount goes to the RIPEMD
    precompile ([call_ok], with [ripemd_mark_survives]); the synchronisation service can
    read the state ([state_available]) and, where it is to make progress, has an indexer
    that answers and a miner that accepts ([verifier_replicates], [queue_synced],
    [restart_recovers]).

    ** Fuel

    Loops that are not structural take fuel that is proved sufficient: [parse_loop] gets
    the buffer length and every iteration reads a byte ([ParseFrames_total]);
    [decodeInterface] gets a bound from the input length ([DecodeBytes_iff]);
    [CountValues_loop] the input length; [heap_up], [heap_down] and [evict] the queue
    length; [fetchLoop] the number of pending requests; [findLoop] the number of the
    unsafe head ([FindL2Heads_terminates]); [DecodeValue] gets a bound from the input
    length ([DecodeValue_iff]); [pruneLoop] one round per block ([CraftBatchTx_spec]);
    [readTxs] the length of the data ([batch_params_roundtrip]).  In the trie [fuel_for]
    gives two steps per nibble of the key, [decodeNode] gets the length of the buffer,
    [verify_loop] the length of the key, and the loops of the node database the number of
    nodes in memory: the theorems on them ([trie_refines_map], [VerifyProof_sound],
    [node_db_safe]) say that they return.  [GetLastConfirmedEnqueue] gets the latest queue
    index, [forRange] the length of the range, [sort_Search] the number of revisions; the rounds of [syncToTip] are fuel of the
    statement, one being enough when the indexer does not move ([queue_synced]).  [outputFrames], [drain] and [drainBatches]
    are drivers used in statements, with their fuel in the statement.

    ** Not modelled

    Subscriptions and account proofs of the clients, libp2p hosts and discovery, node and
    service glue, the polling loops of op-batcher, op-proposer and bss-core, the gas
    oracle, indexer, proxyd and teleportr, and everything that is not Go.  Of l2geth, the
    virtual machine, the block chain and its downloader, the transaction pool, the node
    iterators of the trie and with them [ForEachStorage], dumps and the synchronisation of
    states, the JSON forms and the price heap of transactions, and metrics.  Locks have no counterpart where the code holds one over
    the whole operation; the trie's [Commit] takes part in the runs of the node database at
    the granularity of the nodes that the hasher stores.  Goroutines appear as the interleaving of the driver's events and, in [BatchCall]
    and [TxMgr], as step relations. *)

From Stdlib Require Export Strings.Byte.
From stdpp Require Export strings countable gmap base numbers list.

(** ** Bytes *)

#[export] Instance byte_eq_dec : EqDecision byte := Byte.byte_eq_dec.

#[export] Program Instance byte_countable : Countable byte :=
  inj_countable Byte.to_N Byte.of_N _.
Next Obligation. intros x. apply Byte.of_to_N. Qed.

(** A Go [[]byte]; fixed-size arrays ([[32]byte], [[20]byte], [[16]byte]) are
    byte lists of that length. *)
Notation bytes := (list byte).

Declare Scope go_scope.
Delimit Scope go_scope with go.
#[global] Open Scope go_scope.
#[global] Open Scope Z_scope.

Definition byte_val (b : byte) : Z := Z.of_N (Byte.to_N b).

Definition byte_of_Z (z : Z) : byte :=
  match Byte.of_N (Z.to_N (z mod 256)) with
  | Some b => b
  | None => x00
  end.

(** Little-endian digits; [encoding/binary]'s big-endian order is their reverse. *)
Fixpoint le_encode (n : nat) (z : Z) : bytes :=
  match n with
  | O => []
  | S n' => byte_of_Z z :: le_encode n' (z / 256)
  end.

Fixpoint le_decode (l : bytes) : Z :=
  match l with
  | [] => 0
  | b :: l' => byte_val b + 256 * le_decode l'
  end.

Definition be_encode (n : nat) (z : Z) : bytes := reverse (le_encode n z).
Definition be_decode (l : bytes) : Z := le_decode (reverse l).

#[global] Arguments be_encode : simpl never.
#[global] Arguments be_decode : simpl never.

(** Go's [data[a:b]] for indices in range. *)
Definition slice {A} (a b : nat) (l : list A) : list A := take (b - a) (drop a l).

Definition zeros (n : nat) : bytes := replicate n x00.

(** Length of a Go slice as a machine integer. *)
Definition len {A} (l : list A) : Z := Z.of_nat (length l).

(** ** Machine integers *)

Definition u16 (z : Z) : Z := z mod 2 ^ 16.
Definition u32 (z : Z) : Z := z mod 2 ^ 32.
Definition u64 (z : Z) : Z := z mod 2 ^ 64.

(** Wrap-around [uint64] arithmetic. *)
Notation "a ⊞ b" := (u64 (a + b)) (at level 50, left associativity) : go_scope.
Notation "a ⊟ b" := (u64 (a - b)) (at level 50, left associativity) : go_scope.
Notation "a ⊠ b" := (u64 (a * b)) (at level 40, left associativity) : go_scope.

Definition is_u64 (z : Z) : Prop := 0 <= z < 2 ^ 64.
Definition is_u32 (z : Z) : Prop := 0 <= z < 2 ^ 32.
Definition is_u16 (z : Z) : Prop := 0 <= z < 2 ^ 16.

#[export] Instance is_u64_dec z : Decision (is_u64 z).
Proof. unfold is_u64. apply _. Defined.
#[export] Instance is_u32_dec z : Decision (is_u32 z).
Proof. unfold is_u32. apply _. Defined.
#[export] Instance is_u16_dec z : Decision (is_u16 z).
Proof. unfold is_u16. apply _. Defined.

(** ** Lemmas on bytes *)

Lemma byte_val_range b : 0 <= byte_val b < 256.
Proof.
  unfold byte_val. pose proof (Byte.to_N_bounded b). lia.
Qed.

Lemma byte_val_of_Z z : byte_val (byte_of_Z z) = z mod 256.
Proof.
  unfold byte_val, byte_of_Z.
  pose proof (Z.mod_pos_bound z 256 eq_refl).
  destruct (Byte.of_N _) as [b|] eqn:E.
  - apply Byte.to_of_N in E. rewrite E. lia.
  - apply Byte.of_N_None_iff in E. lia.
Qed.

Lemma byte_val_inj b1 b2 : byte_val b1 = byte_val b2 → b1 = b2.
Proof.
  unfold byte_val. intros H%N2Z.inj%(f_equal Byte.of_N).
  rewrite !Byte.of_to_N in H. congruence.
Qed.

Lemma byte_of_Z_val b : byte_of_Z (byte_val b) = b.
Proof.
  apply byte_val_inj. rewrite byte_val_of_Z.
  apply Z.mod_small, byte_val_range.
Qed.

Lemma length_le_encode n z : length (le_encode n z) = n.
Proof. revert z; induction n; intros; simpl; auto. Qed.

Lemma length_be_encode n z : length (be_encode n z) = n.
Proof. unfold be_encode. by rewrite length_reverse, length_le_encode. Qed.

Lemma le_decode_encode n z : le_decode (le_encode n z) = z mod 256 ^ Z.of_nat n.
Proof.
  revert z; induction n as [|n IH]; intros z; cbn [le_encode le_decode].
  - by rewrite Z.mod_1_r.
  - rewrite IH, byte_val_of_Z, Nat2Z.inj_succ, Z.pow_succ_r by lia.
    rewrite Z.rem_mul_r; lia.
Qed.

Lemma le_encode_decode l : le_encode (length l) (le_decode l) = l.
Proof.
  induction l as [|b l IH]; cbn [length le_encode le_decode]; [done|].
  pose proof (byte_val_range b).
  assert (Hd : (byte_val b + 256 * le_decode l) / 256 = le_decode l).
  { rewrite (Z.mul_comm 256), Z.div_add by lia.
    rewrite Z.div_small by lia. lia. }
  f_equal.
  - apply byte_val_inj. rewrite byte_val_of_Z, (Z.mul_comm 256).
    rewrite Z.mod_add, Z.mod_small by lia. lia.
  - by rewrite Hd.
Qed.

Lemma be_decode_encode n z : be_decode (be_encode n z) = z mod 256 ^ Z.of_nat n.
Proof. unfold be_decode, be_encode. by rewrite reverse_involutive, le_decode_encode. Qed.

Lemma be_decode_encode_small n z :
  0 <= z < 256 ^ Z.of_nat n → be_decode (be_encode n z) = z.
Proof. intros. rewrite be_decode_encode. by apply Z.mod_small. Qed.

Lemma be_encode_decode l : be_encode (length l) (be_decode l) = l.
Proof.
  unfold be_decode, be_encode.
  rewrite <- (length_reverse l), le_encode_decode. apply reverse_involutive.
Qed.

Lemma le_decode_encode_small n z :
  0 <= z < 256 ^ Z.of_nat n → le_decode (le_encode n z) = z.
Proof. intros. rewrite le_decode_encode. by apply Z.mod_small. Qed.

Lemma le_encode_decode_len n l : length l = n → le_encode n (le_decode l) = l.
Proof. intros <-. apply le_encode_decode. Qed.

Lemma be_encode_decode_len n l : length l = n → be_encode n (be_decode l) = l.
Proof. intros <-. apply be_encode_decode. Qed.

Lemma le_decode_bound l : 0 <= le_decode l < 256 ^ Z.of_nat (length l).
Proof.
  induction l as [|b l IH]; cbn [length le_decode].
  - rewrite Z.pow_0_r. lia.
  - pose proof (byte_val_range b). rewrite Nat2Z.inj_succ, Z.pow_succ_r by lia. lia.
Qed.

Lemma be_decode_bound l : 0 <= be_decode l < 256 ^ Z.of_nat (length l).
Proof. unfold be_decode. rewrite <- length_reverse. apply le_decode_bound. Qed.

Lemma le_decode_app l1 l2 :
  le_decode (l1 ++ l2) = le_decode l1 + 256 ^ Z.of_nat (length l1) * le_decode l2.
Proof.
  induction l1 as [|b l1 IH]; cbn [app length le_decode].
  - rewrite Z.pow_0_r. lia.
  - rewrite IH, Nat2Z.inj_succ, Z.pow_succ_r by lia. lia.
Qed.

Lemma be_decode_app l1 l2 :
  be_decode (l1 ++ l2) = be_decode l1 * 256 ^ Z.of_nat (length l2) + be_decode l2.
Proof.
  unfold be_decode. rewrite reverse_app, le_decode_app, length_reverse. lia.
Qed.

Lemma be_decode_zeros n : be_decode (zeros n) = 0.
Proof.
  unfold be_decode, zeros. rewrite reverse_replicate.
  induction n as [|n IH]; [done|]. cbn [replicate le_decode]. rewrite IH. reflexivity.
Qed.

Lemma be_decode_inj l1 l2 :
  length l1 = length l2 → be_decode l1 = be_decode l2 → l1 = l2.
Proof.
  intros Hl Hd. rewrite <- (be_encode_decode l1), <- (be_encode_decode l2).
  by rewrite Hl, Hd.
Qed.

(** Zero padding on the left, as a 32-byte ABI word holds a shorter integer. *)
Lemma be_encode_pad k n z :
  0 <= z < 256 ^ Z.of_nat n → be_encode (k + n) z = zeros k ++ be_encode n z.
Proof.
  intros Hz. apply be_decode_inj.
  - unfold zeros. by rewrite length_app, length_replicate, !length_be_encode.
  - rewrite be_decode_app, be_decode_zeros, (be_decode_encode_small n) by done.
    rewrite be_decode_encode_small; [lia|].
    split; [lia|]. eapply Z.lt_le_trans; [apply Hz|].
    apply Z.pow_le_mono_r; lia.
Qed.

(** ** Lemmas on machine integers *)

Lemma u64_small z : is_u64 z → u64 z = z.
Proof. unfold is_u64, u64. intros. by apply Z.mod_small. Qed.

Lemma u64_range z : is_u64 (u64 z).
Proof. unfold is_u64, u64. by apply Z.mod_pos_bound. Qed.

Lemma u32_small z : is_u32 z → u32 z = z.
Proof. unfold is_u32, u32. intros. by apply Z.mod_small. Qed.

Lemma u32_range z : is_u32 (u32 z).
Proof. unfold is_u32, u32. by apply Z.mod_pos_bound. Qed.

Lemma u32_le z : 0 <= z → u32 z <= z.
Proof. intros. unfold u32. apply Z.mod_le; lia. Qed.

Lemma u16_range z : is_u16 (u16 z).
Proof. unfold is_u16, u16. by apply Z.mod_pos_bound. Qed.

Lemma u64_add_idemp_l a b : u64 (u64 a + b) = u64 (a + b).
Proof. unfold u64. by rewrite Zplus_mod_idemp_l. Qed.

Lemma u64_add_idemp_r a b : u64 (a + u64 b) = u64 (a + b).
Proof. unfold u64. by rewrite Zplus_mod_idemp_r. Qed.

Lemma u64_sub_idemp_l a b : u64 (u64 a - b) = u64 (a - b).
Proof. unfold u64. by rewrite Zminus_mod_idemp_l. Qed.

(** ** Lemmas on lists and slices *)

Lemma len_nonneg {A} (l : list A) : 0 <= len l.
Proof. unfold len. lia. Qed.

Lemma len_app {A} (l1 l2 : list A) : len (l1 ++ l2) = len l1 + len l2.
Proof. unfold len. rewrite length_app. lia. Qed.

Lemma len_cons {A} (x : A) (l : list A) : len (x :: l) = 1 + len l.
Proof. unfold len. cbn [length]. lia. Qed.

Lemma len_nil {A} : len (@nil A) = 0.
Proof. reflexivity. Qed.

Lemma length_slice {A} a b (l : list A) :
  (a ≤ b)%nat → (b ≤ length l)%nat → length (slice a b l) = (b - a)%nat.
Proof. intros. unfold slice. rewrite length_take, length_drop. lia. Qed.

Lemma slice_app_l {A} a b (l1 l2 : list A) :
  (b ≤ length l1)%nat → slice a b (l1 ++ l2) = slice a b l1.
Proof.
  intros. unfold slice. destruct (decide (a ≤ b)%nat).
  - rewrite drop_app_le by lia. rewrite take_app_le; [done|].
    rewrite length_drop. lia.
  - replace (b - a)%nat with O by lia. done.
Qed.

Lemma slice_app_r {A} a b (l1 l2 : list A) :
  (length l1 ≤ a)%nat →
  slice a b (l1 ++ l2) = slice (a - length l1) (b - length l1) l2.
Proof.
  intros. unfold slice. rewrite drop_app_ge by done. f_equal; lia.
Qed.

Lemma slice_full {A} (l : list A) n : n = length l → slice 0 n l = l.
Proof. intros ->. unfold slice. rewrite drop_0, Nat.sub_0_r. apply take_ge. lia. Qed.

Lemma slice_split {A} a b c (l : list A) :
  (a ≤ b ≤ c)%nat → slice a c l = slice a b l ++ slice b c l.
Proof.
  intros Hab. unfold slice.
  rewrite <- (take_drop (b - a) (take (c - a) (drop a l))).
  rewrite take_take, Nat.min_l by lia. f_equal.
  replace (c - a)%nat with (b - a + (c - b))%nat by lia.
  rewrite <- take_drop_commute, drop_drop. do 2 f_equal. lia.
Qed.

(** Reading the bytes of a block in the middle. *)
Lemma slice_middle {A} (l1 l2 l3 : list A) a b :
  a = length l1 → b = (length l1 + length l2)%nat → slice a b (l1 ++ l2 ++ l3) = l2.
Proof.
  intros -> ->. rewrite slice_app_r, Nat.sub_diag by lia.
  replace (length l1 + length l2 - length l1)%nat with (length l2) by lia.
  rewrite slice_app_l by lia. by apply slice_full.
Qed.

Lemma split_at {A} n (l : list A) :
  (n ≤ length l)%nat → ∃ a b, l = a ++ b ∧ length a = n.
Proof.
  intros Hn. exists (take n l), (drop n l). rewrite take_drop, length_take. split; [done|lia].
Qed.

(** Reading a list back by increasing index. *)
Lemma omap_ext_in {A B} (f g : A → option B) (l : list A) :
  (∀ x, x ∈ l → f x = g x) → omap f l = omap g l.
Proof.
  induction l as [|x l IH]; intros H; [done|]. cbn [omap list_omap].
  rewrite H by set_solver. rewrite IH by set_solver. done.
Qed.

Lemma length_omap_all {A B} (f : A → option B) (l : list A) :
  Forall (λ x, is_Some (f x)) l → length (omap f l) = length l.
Proof. induction 1 as [|x l [y Hy] _ IH]; [done|]. cbn. rewrite Hy. cbn. by rewrite IH. Qed.

Lemma list_lookup_omap_all {A B} (f : A → option B) (l : list A) (i : nat) :
  Forall (λ x, is_Some (f x)) l → omap f l !! i = l !! i ≫= f.
Proof.
  intros H. revert i. induction H as [|x l [y Hy] _ IH]; intros i; [done|].
  cbn [omap list_omap]. rewrite Hy. destruct i; [by simpl; rewrite Hy|]. apply IH.
Qed.

Lemma list_omap_fmap {A B C} (f : A → B) (g : B → option C) (l : list A) :
  omap g (f <$> l) = omap (λ x, g (f x)) l.
Proof. induction l as [|x l IH]; [done|]. cbn. by rewrite <- IH. Qed.

Lemma omap_seq_lookup {A} (l : list A) : omap (λ i : nat, l !! i) (seq 0 (length l)) = l.
Proof.
  induction l as [|x l IH] using rev_ind; [done|].
  rewrite length_app, seq_app, omap_app. cbn [length seq plus].
  rewrite (omap_ext_in _ (λ i : nat, l !! i)).
  - rewrite IH. cbn. by rewrite lookup_app_r, Nat.sub_diag.
  - intros i Hi%elem_of_seq. apply lookup_app_l. lia.
Qed.

Lemma omap_seqZ_lookup {A} (f : Z → option A) (l : list A) :
  (∀ i : nat, (i < length l)%nat → f (Z.of_nat i) = l !! i) →
  omap f (seqZ 0 (len l)) = l.
Proof.
  intros H. unfold seqZ, len. rewrite Nat2Z.id.
  rewrite list_omap_fmap.
  rewrite (omap_ext_in _ (λ i : nat, l !! i)); [apply omap_seq_lookup|].
  intros i Hi%elem_of_seq. simpl. rewrite Z.add_0_r. apply H. lia.
Qed.

(** ** Automation *)

(** Evaluate slices of a concatenation of blocks of known length. *)
Ltac slice_simp :=
  repeat first
    [ rewrite slice_app_r by len_solve_h
    | rewrite slice_app_l by len_solve_h
    | rewrite slice_full by len_solve_h ]
with len_solve_h :=
  unfold zeros; autorewrite with titan_len; cbn [length]; lia.

Create HintDb titan.
Create Rewrite HintDb titan_len.
#[export] Hint Resolve u64_range u32_range u16_range byte_val_range be_decode_bound len_nonneg : titan.
#[export] Hint Rewrite @length_app @length_replicate length_be_encode length_le_encode @length_take
  @length_drop : titan_len.

(** Normalise lengths of concatenated byte strings, then close by arithmetic. *)
Ltac len_solve :=
  unfold zeros in *; autorewrite with titan_len in *; cbn [length] in *; lia.

(** Case analysis on the boolean tests of the modelled code. *)
Ltac bool_cases :=
  repeat match goal with
  | H : context [if ?b then _ else _] |- _ => destruct b eqn:?
  | |- context [if ?b then _ else _] => destruct b eqn:?
  end.

(** Turn boolean comparisons in the context into propositions. *)
Ltac bool_props :=
  repeat match goal with
  | H : (_ <? _) = true |- _ => apply Z.ltb_lt in H
  | H : (_ <? _) = false |- _ => apply Z.ltb_ge in H
  | H : (_ <=? _) = true |- _ => apply Z.leb_le in H
  | H : (_ <=? _) = false |- _ => apply Z.leb_gt in H
  | H : (_ =? _) = true |- _ => apply Z.eqb_eq in H
  | H : (_ =? _) = false |- _ => apply Z.eqb_neq in H
  | H : bool_decide _ = true |- _ => apply bool_decide_eq_true in H
  | H : bool_decide _ = false |- _ => apply bool_decide_eq_false in H
  | H : _ && _ = true |- _ => apply andb_true_iff in H as [? ?]
  | H : _ || _ = false |- _ => apply orb_false_iff in H as [? ?]
  | H : negb _ = true |- _ => apply negb_true_iff in H
  | H : negb _ = false |- _ => apply negb_false_iff in H
  end.
