(* ===== verification/GoErrors.v ===== *)
(** * Go errors and fallible results

    Models the error values the code creates and inspects: the sentinels it
    compares with [==], the wrapping done by [fmt.Errorf("...%w")], the
    severity levels of [op-node/rollup/derive/error.go] and [InputError] of
    [op-node/eth/types.go].  Messages are the constant part of the format
    string; where the code looks for a text in a message (the RPC clients and
    the transaction manager) the test is a predicate of the model. *)

From S2P Require Import Prelude.

(** ** Error values *)

(** [derive.Level] of op-node/rollup/derive/error.go. *)
Inductive Level := LevelTemporary | LevelReset | LevelCritical.
#[export] Instance Level_eq_dec : EqDecision Level.
Proof. solve_decision. Defined.

(** A non-nil Go [error]; a nil error is [None] of [option error]. *)
Inductive error :=
| io_EOF
| io_ErrUnexpectedEOF
| ethereum_NotFound
| ErrorNew (msg : string)                    (* errors.New, fmt.Errorf without %w *)
| Errorf (msg : string) (inner : error)      (* fmt.Errorf with %w *)
| InputError (code : Z) (inner : error)      (* eth.InputError *)
| LevelSentinel (lvl : Level)                (* derive.Error with a nil inner error *)
| LevelError (lvl : Level) (inner : error)   (* derive.Error *)
| RPCError (code : Z) (msg : string)         (* rpc.Error, from a JSON-RPC response *)
| MultiError (prev : error) (e : error)      (* multierror.Append on an existing error *)
| MultiError1 (e : error).                   (* multierror.Append on nil *)

#[export] Instance error_eq_dec : EqDecision error.
Proof. solve_decision. Defined.

(** [derive.NewError] and the three constructors built on it. *)
Definition NewError (err : option error) (level : Level) : error :=
  match err with
  | Some e => LevelError level e
  | None => LevelSentinel level
  end.
Definition NewTemporaryError (err : error) : error := NewError (Some err) LevelTemporary.
Definition NewResetError (err : error) : error := NewError (Some err) LevelReset.
Definition NewCriticalError (err : error) : error := NewError (Some err) LevelCritical.

Definition ErrTemporary : error := NewError None LevelTemporary.
Definition ErrReset : error := NewError None LevelReset.
Definition ErrCritical : error := NewError None LevelCritical.
Definition NotEnoughData : error := ErrorNew "not enough data".

(** [errors.Unwrap]: [Error.Unwrap], [InputError.Unwrap] and the [%w] wrapper. *)
Definition Unwrap (e : error) : option error :=
  match e with
  | Errorf _ i | InputError _ i | LevelError _ i => Some i
  | _ => None
  end.

Definition error_level (e : error) : option Level :=
  match e with
  | LevelSentinel l | LevelError l _ => Some l
  | _ => None
  end.

(** The [Is] methods: [derive.Error.Is] compares levels, [eth.InputError.Is]
    accepts any input error; other errors have none. *)
Definition is_method (e target : error) : bool :=
  match e, target with
  | (LevelSentinel l | LevelError l _), (LevelSentinel l' | LevelError l' _) =>
      bool_decide (l = l')
  | InputError _ _, InputError _ _ => true
  | _, _ => false
  end.

(** [errors.Is]: walk the chain of [Unwrap], testing [==] and the [Is] method. *)
Fixpoint errors_Is (e target : error) : bool :=
  bool_decide (e = target) || is_method e target ||
  match e with
  | Errorf _ i | InputError _ i | LevelError _ i => errors_Is i target
  | MultiError p e' => errors_Is p target || errors_Is e' target
  | MultiError1 e' => errors_Is e' target
  | _ => false
  end.

(** [errors.As(err, &inputErr)]: the code and the inner error of the first
    [InputError] of the chain. *)
Fixpoint as_input_error (e : error) : option (Z * error) :=
  match e with
  | InputError c i => Some (c, i)
  | Errorf _ i | LevelError _ i => as_input_error i
  | _ => None
  end.

Definition multierror_Append (prev : option error) (e : error) : error :=
  match prev with
  | Some p => MultiError p e
  | None => MultiError1 e
  end.

(** ** Results *)

(** What a Go call returns: a value, a non-nil error, or a run-time panic. *)
Inductive result (A : Type) :=
| Ok (a : A)
| Err (e : error)
| Panic (msg : string).
Arguments Ok {A} a.
Arguments Err {A} e.
Arguments Panic {A} msg.

#[export] Instance result_eq_dec `{EqDecision A} : EqDecision (result A).
Proof. solve_decision. Defined.

#[export] Instance result_ret : MRet result := λ A, @Ok A.
#[export] Instance result_bind : MBind result := λ A B k m,
  match m with
  | Ok a => k a
  | Err e => Err e
  | Panic s => Panic s
  end.

Definition map_err {A} (f : error → error) (m : result A) : result A :=
  match m with
  | Err e => Err (f e)
  | _ => m
  end.

(** A method on a state: the state it leaves behind and what it returns. *)
Definition M (S A : Type) : Type := S → S * result A.
#[export] Instance M_ret {St} : MRet (M St) := λ A a s, (s, Ok a).
#[export] Instance M_bind {St} : MBind (M St) := λ A B k m s,
  let '(s, r) := m s in
  match r with
  | Ok a => k a s
  | Err e => (s, Err e)
  | Panic p => (s, Panic p)
  end.
Definition throw {St A} (e : error) : M St A := λ s, (s, Err e).
Definition panic {St A} (p : string) : M St A := λ s, (s, Panic p).
Definition lift {St A} (r : result A) : M St A := λ s, (s, r).
(** Errors wrapped by the caller. *)
Definition wrapped {St A} (msg : string) (m : M St A) : M St A := λ s,
  let '(s, r) := m s in (s, map_err (Errorf msg) r).

(** ** Facts *)

Lemma errors_Is_refl e : errors_Is e e = true.
Proof. by destruct e; cbn [errors_Is]; rewrite bool_decide_eq_true_2. Qed.

Lemma errors_Is_wrap msg e t : errors_Is e t = true → errors_Is (Errorf msg e) t = true.
Proof. intros H. cbn [errors_Is]. rewrite H. apply orb_true_r. Qed.

(** The severity sentinels classify errors of that level. *)
Lemma errors_Is_level lvl e :
  error_level e = Some lvl → errors_Is e (NewError None lvl) = true.
Proof.
  intros H. destruct e; try done; simplify_eq/=; cbn [errors_Is NewError is_method].
  all: rewrite (bool_decide_eq_true_2 (lvl = lvl)) by done.
  all: by rewrite ?orb_true_r.
Qed.

Lemma bind_Ok {A B} (m : result A) (k : A → result B) b :
  m ≫= k = Ok b → ∃ a, m = Ok a ∧ k a = Ok b.
Proof. destruct m; simpl; intros; try done. eauto. Qed.

(** Invert a successful monadic computation. *)
Ltac bind_inv :=
  repeat match goal with
  | H : _ ≫= _ = Ok _ |- _ => apply bind_Ok in H as (? & ? & H)
  | H : Ok _ = Ok _ |- _ => injection H as H
  | H : Err _ = Ok _ |- _ => discriminate H
  | H : Panic _ = Ok _ |- _ => discriminate H
  | H : mret _ = Ok _ |- _ => injection H as H
  end; subst.
