(* ===== verification/EthTypes.v ===== *)
(** * Chain data types and the rollup configuration

    op-node/eth/id.go (block references), op-node/eth/types.go (execution
    payloads, payload attributes, engine statuses), op-node/eth/block_info.go,
    op-node/eth/label.go and op-node/rollup/types.go ([Config] and its [Check]).
    A value of a go-ethereum type the code only reads through its methods (an L1
    transaction, a header) is the record of those methods' results. *)

From S2P Require Import Prelude GoErrors.

(** ** Fixed-size byte arrays *)

Notation Hash := bytes.
Notation Address := bytes.
Notation Bytes32 := bytes.
Definition HashLength : nat := 32.
Definition AddressLength : nat := 20.
Definition zero_hash : Hash := zeros HashLength.
Definition zero_address : Address := zeros AddressLength.

(** ** Block references (eth/id.go) *)

Record BlockID := mkBlockID { id_Hash : Hash; id_Number : Z }.
Record L1BlockRef := mkL1BlockRef {
  l1_Hash : Hash; l1_Number : Z; l1_ParentHash : Hash; l1_Time : Z }.
Record L2BlockRef := mkL2BlockRef {
  l2_Hash : Hash; l2_Number : Z; l2_ParentHash : Hash; l2_Time : Z;
  l2_L1Origin : BlockID; l2_SequenceNumber : Z }.

#[export] Instance BlockID_eq_dec : EqDecision BlockID.
Proof. solve_decision. Defined.
#[export] Instance L1BlockRef_eq_dec : EqDecision L1BlockRef.
Proof. solve_decision. Defined.
#[export] Instance L2BlockRef_eq_dec : EqDecision L2BlockRef.
Proof. solve_decision. Defined.

(** The zero values [eth.BlockID{}], [eth.L1BlockRef{}], [eth.L2BlockRef{}]. *)
Definition BlockID_zero : BlockID := mkBlockID zero_hash 0.
Definition L1BlockRef_zero : L1BlockRef := mkL1BlockRef zero_hash 0 zero_hash 0.
Definition L2BlockRef_zero : L2BlockRef :=
  mkL2BlockRef zero_hash 0 zero_hash 0 BlockID_zero 0.

Definition L1BlockRef_ID (id : L1BlockRef) : BlockID :=
  mkBlockID (l1_Hash id) (l1_Number id).
Definition L2BlockRef_ID (id : L2BlockRef) : BlockID :=
  mkBlockID (l2_Hash id) (l2_Number id).

(** The parent's id; the number saturates at 0. *)
Definition L1BlockRef_ParentID (id : L1BlockRef) : BlockID :=
  let n := id_Number (L1BlockRef_ID id) in
  let n := if 0 <? n then n - 1 else n in
  mkBlockID (l1_ParentHash id) n.
Definition L2BlockRef_ParentID (id : L2BlockRef) : BlockID :=
  let n := id_Number (L2BlockRef_ID id) in
  let n := if 0 <? n then n - 1 else n in
  mkBlockID (l2_ParentHash id) n.

(** ** Headers (eth/block_info.go) *)

(** The [BlockInfo] interface. *)
Record BlockInfo := mkBlockInfo {
  bi_Hash : Hash; bi_ParentHash : Hash; bi_Coinbase : Address; bi_Root : Hash;
  bi_NumberU64 : Z; bi_Time : Z; bi_MixDigest : Hash; bi_BaseFee : option Z;
  bi_ReceiptHash : Hash }.

Definition InfoToL1BlockRef (info : BlockInfo) : L1BlockRef :=
  mkL1BlockRef (bi_Hash info) (bi_NumberU64 info) (bi_ParentHash info) (bi_Time info).

(** ** Block labels (eth/label.go) *)

Inductive BlockLabel := Unsafe | Safe | Finalized.

(** ** Engine API types (eth/types.go) *)

Definition UnknownPayload : Z := -32001.
Definition InvalidForkchoiceState : Z := -38002.
Definition InvalidPayloadAttributes : Z := -38003.

Record ExecutionPayload := mkExecutionPayload {
  ep_ParentHash : Hash; ep_FeeRecipient : Address; ep_StateRoot : Bytes32;
  ep_ReceiptsRoot : Bytes32; ep_LogsBloom : bytes; ep_PrevRandao : Bytes32;
  ep_BlockNumber : Z; ep_GasLimit : Z; ep_GasUsed : Z; ep_Timestamp : Z;
  ep_ExtraData : bytes; ep_BaseFeePerGas : Z; ep_BlockHash : Hash;
  ep_Transactions : list bytes }.

#[export] Instance ExecutionPayload_eq_dec : EqDecision ExecutionPayload.
Proof. solve_decision. Defined.

Definition ExecutionPayload_ID (p : ExecutionPayload) : BlockID :=
  mkBlockID (ep_BlockHash p) (ep_BlockNumber p).
Definition ExecutionPayload_ParentID (p : ExecutionPayload) : BlockID :=
  let n := ep_BlockNumber p in
  let n := if 0 <? n then n - 1 else n in
  mkBlockID (ep_ParentHash p) n.

Record PayloadAttributes := mkPayloadAttributes {
  pa_Timestamp : Z; pa_PrevRandao : Bytes32; pa_SuggestedFeeRecipient : Address;
  pa_Transactions : list bytes; pa_NoTxPool : bool }.

#[export] Instance PayloadAttributes_eq_dec : EqDecision PayloadAttributes.
Proof. solve_decision. Defined.

Inductive ExecutePayloadStatus :=
| ExecutionValid | ExecutionInvalid | ExecutionSyncing | ExecutionAccepted
| ExecutionInvalidBlockHash | ExecutionInvalidTerminalBlock
| ExecutionOther (s : string).

#[export] Instance ExecutePayloadStatus_eq_dec : EqDecision ExecutePayloadStatus.
Proof. solve_decision. Defined.

Record PayloadStatusV1 := mkPayloadStatus {
  ps_Status : ExecutePayloadStatus;
  ps_LatestValidHash : option Hash;
  ps_ValidationError : option string }.

Record ForkchoiceState := mkForkchoiceState {
  fc_HeadBlockHash : Hash; fc_SafeBlockHash : Hash; fc_FinalizedBlockHash : Hash }.

Notation PayloadID := bytes.
Record ForkchoiceUpdatedResult := mkForkchoiceUpdatedResult {
  fcr_PayloadStatus : PayloadStatusV1; fcr_PayloadID : option PayloadID }.

(** ** Transactions, logs and receipts of go-ethereum *)

(** [types.Transaction], by the methods the code calls on it; [tx_Sender] is
    [Signer.Sender] of the signer for the given chain id. *)
Record Transaction := mkTransaction {
  tx_Type : Z; tx_To : option Address; tx_Data : bytes;
  tx_MarshalBinary : result bytes; tx_Sender : option Z → result Address }.

(** [types.DepositTxType], the EIP-2718 type byte of deposits (specs/deposits.md). *)
Definition DepositTxType : byte := "~"%byte.

Record DepositTx := mkDepositTx {
  dep_SourceHash : Hash; dep_From : Address; dep_To : option Address;
  dep_Mint : option Z; dep_Value : Z; dep_Gas : Z;
  dep_IsSystemTransaction : bool; dep_Data : bytes }.

Record Log := mkLog {
  log_Address : Address; log_Topics : list Hash; log_Data : bytes;
  log_BlockNumber : Z; log_TxHash : Hash; log_TxIndex : Z; log_BlockHash : Hash;
  log_Index : Z; log_Removed : bool }.

Record Receipt := mkReceipt { rec_Status : Z; rec_Logs : list Log }.
Definition ReceiptStatusSuccessful : Z := 1.

(** ** Rollup configuration (rollup/types.go) *)

Record Genesis := mkGenesis { gen_L1 : BlockID; gen_L2 : BlockID; gen_L2Time : Z }.

Record Config := mkConfig {
  cfg_Genesis : Genesis;
  cfg_BlockTime : Z;
  cfg_MaxSequencerDrift : Z;
  cfg_SeqWindowSize : Z;
  cfg_ChannelTimeout : Z;
  cfg_L1ChainID : option Z;
  cfg_L2ChainID : option Z;
  cfg_P2PSequencerAddress : Address;
  cfg_FeeRecipientAddress : Address;
  cfg_BatchInboxAddress : Address;
  cfg_BatchSenderAddress : Address;
  cfg_DepositContractAddress : Address }.

(** [Config.Check]: the first violated condition, in the order of the code. *)
Definition Config_Check (cfg : Config) : option error :=
  if cfg_BlockTime cfg =? 0 then Some (ErrorNew "block time cannot be 0") else
  if cfg_ChannelTimeout cfg =? 0 then Some (ErrorNew "channel timeout must be set") else
  if cfg_SeqWindowSize cfg <? 2 then
    Some (ErrorNew "sequencing window size must at least be 2") else
  if bool_decide (id_Hash (gen_L1 (cfg_Genesis cfg)) = zero_hash) then
    Some (ErrorNew "genesis l1 hash cannot be empty") else
  if bool_decide (id_Hash (gen_L2 (cfg_Genesis cfg)) = zero_hash) then
    Some (ErrorNew "genesis l2 hash cannot be empty") else
  if bool_decide (id_Hash (gen_L2 (cfg_Genesis cfg)) = id_Hash (gen_L1 (cfg_Genesis cfg)))
  then Some (ErrorNew "L1 and L2 genesis cannot be the same") else
  if gen_L2Time (cfg_Genesis cfg) =? 0 then
    Some (ErrorNew "missing L2 genesis time") else
  if bool_decide (cfg_P2PSequencerAddress cfg = zero_address) then
    Some (ErrorNew "missing p2p sequencer address") else
  if bool_decide (cfg_FeeRecipientAddress cfg = zero_address) then
    Some (ErrorNew "missing fee recipient address") else
  if bool_decide (cfg_BatchInboxAddress cfg = zero_address) then
    Some (ErrorNew "missing batch inbox address") else
  if bool_decide (cfg_BatchSenderAddress cfg = zero_address) then
    Some (ErrorNew "missing batch sender address") else
  if bool_decide (cfg_DepositContractAddress cfg = zero_address) then
    Some (ErrorNew "missing deposit contract address") else
  match cfg_L1ChainID cfg with
  | None => Some (ErrorNew "l1 chain ID must not be nil")
  | Some l1 =>
      match cfg_L2ChainID cfg with
      | None => Some (ErrorNew "l2 chain ID must not be nil")
      | Some l2 =>
          if l1 =? l2 then Some (ErrorNew "l1 and l2 chain IDs must be different")
          else None
      end
  end.

(** ** Well-formedness: every number is in the range of its Go type. *)

Definition wf_BlockID (b : BlockID) : Prop :=
  length (id_Hash b) = HashLength ∧ is_u64 (id_Number b).
Definition wf_L1BlockRef (b : L1BlockRef) : Prop :=
  length (l1_Hash b) = HashLength ∧ is_u64 (l1_Number b) ∧
  length (l1_ParentHash b) = HashLength ∧ is_u64 (l1_Time b).
Definition wf_Config (cfg : Config) : Prop :=
  wf_BlockID (gen_L1 (cfg_Genesis cfg)) ∧ wf_BlockID (gen_L2 (cfg_Genesis cfg)) ∧
  is_u64 (cfg_BlockTime cfg) ∧ is_u64 (cfg_MaxSequencerDrift cfg) ∧
  is_u64 (cfg_SeqWindowSize cfg) ∧ is_u64 (cfg_ChannelTimeout cfg).

(** ** Values used in examples *)

Definition example_cfg : Config :=
  mkConfig (mkGenesis BlockID_zero BlockID_zero 1) 2 600 10 50 (Some 1) (Some 2)
    [] [] [] [] [].

Definition example_hash (n : Z) : Hash := be_encode 32 n.

(** An L1 chain with a block every twelve seconds and an L2 chain on top of it. *)
Definition example_l1 (n : Z) : L1BlockRef :=
  mkL1BlockRef (example_hash (1000 + n)) n (example_hash (999 + n)) (12 * n).
Definition example_l2 (n : Z) : L2BlockRef :=
  mkL2BlockRef (example_hash (2000 + n)) n (example_hash (1999 + n)) (2 * n)
    (L1BlockRef_ID (example_l1 (n / 6))) (n mod 6).
