(* ===== verification/Frame.v ===== *)
(** * Channel frames

    op-node/rollup/derive/frame.go and params.go: the frame codec and
    [ParseFrames].  The writer is an interface with one instance, the in-memory
    buffer the code passes; a reader is the list of unread bytes. *)

From S2P Require Import Prelude GoErrors EthTypes.

(** ** Parameters (derive/params.go) *)

Definition frameOverhead : Z := 200.
Definition DerivationVersion0 : byte := x00.
Definition MaxChannelBankSize : Z := 100000000.
Definition DuplicateErr : error := ErrorNew "duplicate frame".
Definition ChannelIDLength : nat := 16.
Notation ChannelID := bytes.

(** Frames cannot be larger than 1 MB. *)
Definition MaxFrameLen : Z := 1000000.

Record Frame := mkFrame {
  f_ID : ChannelID; f_FrameNumber : Z; f_Data : bytes; f_IsLast : bool }.

#[export] Instance Frame_eq_dec : EqDecision Frame.
Proof. solve_decision. Defined.

Definition Frame_zero : Frame := mkFrame (zeros ChannelIDLength) 0 [] false.

(** ** Writers and readers *)

(** [io.Writer]: a write changes the writer and may fail. *)
Class Writer (W : Type) := write : W → bytes → W * option error.

(** [bytes.Buffer] as a writer: it appends and does not fail. *)
#[export] Instance buffer_writer : Writer bytes := λ w p, (w ++ p, None).

(** [io.ReadFull(r, buf)] on a buffer: the bytes read, the rest, the error. *)
Definition read_full (n : nat) (r : bytes) : bytes * bytes * option error :=
  (take n r, drop n r,
   if (length r <? n)%nat then
     match r with [] => Some io_EOF | _ => Some io_ErrUnexpectedEOF end
   else None).

(** ** [Frame.MarshalBinary] *)

Definition Frame_MarshalBinary {W} `{Writer W} (f : Frame) (w : W) : W * option error :=
  let '(w, err) := write w (f_ID f) in
  match err with Some e => (w, Some e) | None =>
  let '(w, err) := write w (be_encode 2 (f_FrameNumber f)) in
  match err with Some e => (w, Some e) | None =>
  let '(w, err) := write w (be_encode 4 (u32 (len (f_Data f)))) in
  match err with Some e => (w, Some e) | None =>
  let '(w, err) := write w (f_Data f) in
  match err with Some e => (w, Some e) | None =>
  if f_IsLast f then
    let '(w, err) := write w [x01] in
    match err with Some e => (w, Some e) | None => (w, None) end
  else
    let '(w, err) := write w [x00] in
    match err with Some e => (w, Some e) | None => (w, None) end
  end end end end.

(** ** [Frame.UnmarshalBinary] *)

(** [copy] into a fixed-size array, as a partial read leaves it. *)
Definition overwrite (dst src : bytes) : bytes := src ++ drop (length src) dst.

(** The frame is updated in place and the reader is left where it stopped, also
    on an error.  A missing last byte is reported as [io.EOF] with the frame
    filled in. *)
Definition Frame_UnmarshalBinary (f : Frame) (r : bytes) : Frame * bytes * option error :=
  let '(b, r, err) := read_full ChannelIDLength r in
  let f := mkFrame (overwrite (f_ID f) b) (f_FrameNumber f) (f_Data f) (f_IsLast f) in
  match err with Some e => (f, r, Some (Errorf "error reading ID" e)) | None =>
  let '(b, r, err) := read_full 2 r in
  match err with Some e => (f, r, Some (Errorf "error reading frame number" e)) | None =>
  let f := mkFrame (f_ID f) (be_decode b) (f_Data f) (f_IsLast f) in
  let '(b, r, err) := read_full 4 r in
  match err with Some e => (f, r, Some (Errorf "error reading frame length" e)) | None =>
  let frameLength := be_decode b in
  if MaxFrameLen <? frameLength then (f, r, Some (ErrorNew "frameLength is too large")) else
  let '(b, r, err) := read_full (Z.to_nat frameLength) r in
  let f := mkFrame (f_ID f) (f_FrameNumber f)
             (overwrite (zeros (Z.to_nat frameLength)) b) (f_IsLast f) in
  match err with Some e => (f, r, Some (Errorf "error reading frame data" e)) | None =>
  (* r.ReadByte(): the zero byte and io.EOF on an empty buffer *)
  let '(isLastByte, r, err) :=
    match r with [] => (x00, [], Some io_EOF) | b :: r => (b, r, None) end in
  if bool_decide (isLastByte = x00) then
    (mkFrame (f_ID f) (f_FrameNumber f) (f_Data f) false, r, err)
  else if bool_decide (isLastByte = x01) then
    (mkFrame (f_ID f) (f_FrameNumber f) (f_Data f) true, r, err)
  else (f, r, Some (ErrorNew "invalid byte as is_last"))
  end end end end.

(** ** [ParseFrames] *)

(** [for buf.Len() > 0]: an iteration reads at least one byte, so the length of
    the buffer bounds the number of iterations (see [parse_loop_total]). *)
Fixpoint parse_loop (fuel : nat) (buf : bytes) (frames : list Frame) : result (list Frame) :=
  match buf with
  | [] => Ok frames
  | _ :: _ =>
      match fuel with
      | O => Panic "out of fuel"
      | S fuel =>
          let '(f, buf, err) := Frame_UnmarshalBinary Frame_zero buf in
          match err with
          | Some e =>
              if bool_decide (e = io_EOF) then parse_loop fuel buf (frames ++ [f])
              else Err e
          | None => parse_loop fuel buf (frames ++ [f])
          end
      end
  end.

Definition ParseFrames (data : bytes) : result (list Frame) :=
  match data with
  | [] => Err (ErrorNew "data array must not be empty")
  | v :: buf =>
      if negb (bool_decide (v = DerivationVersion0)) then
        Err (ErrorNew "invalid derivation format byte")
      else
        frames ← parse_loop (length buf) buf [];
        if (length frames =? 0)%nat then Err (ErrorNew "was not able to find any frames")
        else Ok frames
  end.

(** ** Specification *)

Definition wf_Frame (f : Frame) : Prop :=
  length (f_ID f) = ChannelIDLength ∧ is_u16 (f_FrameNumber f) ∧ len (f_Data f) <= MaxFrameLen.

(** The wire format: channel_id ++ frame_number ++ frame_data_length ++ frame_data ++ is_last. *)
Definition frame_body (f : Frame) : bytes :=
  f_ID f ++ be_encode 2 (f_FrameNumber f) ++ be_encode 4 (u32 (len (f_Data f))) ++ f_Data f.
Definition frame_bytes (f : Frame) : bytes :=
  frame_body f ++ [if f_IsLast f then x01 else x00].

(** ** Lemmas on the reader *)

Lemma read_full_app n a b : length a = n → read_full n (a ++ b) = (a, b, None).
Proof.
  intros <-. unfold read_full.
  rewrite take_app_length, drop_app_length.
  destruct (Nat.ltb_spec (length (a ++ b)) (length a)); [len_solve|done].
Qed.

Lemma read_full_inv n r a b :
  read_full n r = (a, b, None) → r = a ++ b ∧ length a = n.
Proof.
  unfold read_full. intros H. simplify_eq/=.
  destruct (Nat.ltb_spec (length r) n); [by destruct r|].
  rewrite take_drop, length_take. split; [done|lia].
Qed.

Lemma read_full_rest n r a b e : read_full n r = (a, b, e) → b = drop n r.
Proof. unfold read_full. intros. by simplify_eq/=. Qed.

Lemma overwrite_full dst src : length src = length dst → overwrite dst src = src.
Proof.
  intros H. unfold overwrite. rewrite H, drop_all. apply app_nil_r.
Qed.

Lemma u32_len_small f : wf_Frame f → u32 (len (f_Data f)) = len (f_Data f).
Proof.
  intros (_ & _ & Hl). pose proof (len_nonneg (f_Data f)). unfold MaxFrameLen in Hl.
  apply Z.mod_small. lia.
Qed.

(** ** Lemmas on the frame codec *)

Lemma Frame_MarshalBinary_buffer (f : Frame) (w : bytes) :
  Frame_MarshalBinary f w = (w ++ frame_bytes f, None).
Proof.
  unfold Frame_MarshalBinary, write, buffer_writer, frame_bytes, frame_body.
  destruct (f_IsLast f); by rewrite <- !app_assoc.
Qed.

(** The five reads of [UnmarshalBinary], on a buffer that holds a frame body. *)
Lemma unmarshal_body f r :
  wf_Frame f →
  Frame_UnmarshalBinary Frame_zero (frame_body f ++ r) =
    match r with
    | [] => (mkFrame (f_ID f) (f_FrameNumber f) (f_Data f) false, [], Some io_EOF)
    | b :: r' =>
        if bool_decide (b = x00) then
          (mkFrame (f_ID f) (f_FrameNumber f) (f_Data f) false, r', None)
        else if bool_decide (b = x01) then
          (mkFrame (f_ID f) (f_FrameNumber f) (f_Data f) true, r', None)
        else (mkFrame (f_ID f) (f_FrameNumber f) (f_Data f) false, r',
              Some (ErrorNew "invalid byte as is_last"))
    end.
Proof.
  intros Hwf. pose proof Hwf as (Hid & Hn & Hl).
  pose proof (len_nonneg (f_Data f)) as Hpos.
  unfold Frame_UnmarshalBinary, frame_body. rewrite <- !app_assoc.
  rewrite read_full_app by done.
  rewrite read_full_app by apply length_be_encode.
  rewrite read_full_app by apply length_be_encode.
  rewrite u32_len_small by done.
  rewrite !be_decode_encode_small
    by (unfold is_u16, MaxFrameLen in *; change (256 ^ Z.of_nat 2) with (2 ^ 16);
        change (256 ^ Z.of_nat 4) with (2 ^ 32); lia).
  destruct (Z.ltb_spec MaxFrameLen (len (f_Data f))); [lia|].
  unfold len. rewrite Nat2Z.id, read_full_app by done.
  cbn [f_ID f_FrameNumber f_Data f_IsLast Frame_zero].
  rewrite !overwrite_full by (unfold zeros; rewrite ?length_replicate; done).
  by destruct r.
Qed.

Lemma unmarshal_marshal f r :
  wf_Frame f → Frame_UnmarshalBinary Frame_zero (frame_bytes f ++ r) = (f, r, None).
Proof.
  intros Hwf. unfold frame_bytes. rewrite <- app_assoc, unmarshal_body by done.
  destruct f as [id n d []]; simpl; done.
Qed.

(** A successful or end-of-input unmarshal read a frame body. *)
Lemma unmarshal_inv r f r' err :
  Frame_UnmarshalBinary Frame_zero r = (f, r', err) →
  match err with
  | None => wf_Frame f ∧ r = frame_bytes f ++ r'
  | Some e => e = io_EOF → wf_Frame f ∧ r = frame_body f ∧ f_IsLast f = false ∧ r' = []
  end.
Proof.
  intros H. unfold Frame_UnmarshalBinary in H.
  destruct (read_full ChannelIDLength r) as [[bid r1] [e1|]] eqn:E1; [by simplify_eq|].
  destruct (read_full 2 r1) as [[bn r2] [e2|]] eqn:E2; [by simplify_eq|].
  destruct (read_full 4 r2) as [[bl r3] [e3|]] eqn:E3; [by simplify_eq|].
  apply read_full_inv in E1 as [-> L1]. apply read_full_inv in E2 as [-> L2].
  apply read_full_inv in E3 as [-> L3].
  pose proof (be_decode_bound bl) as Hbl. rewrite L3 in Hbl.
  pose proof (be_decode_bound bn) as Hbn. rewrite L2 in Hbn.
  destruct (Z.ltb_spec MaxFrameLen (be_decode bl)); [by simplify_eq|].
  destruct (read_full _ r3) as [[bd r4] [e4|]] eqn:E4; [by simplify_eq|].
  apply read_full_inv in E4 as [-> L4].
  cbn [f_ID f_FrameNumber f_Data f_IsLast Frame_zero] in H.
  rewrite !overwrite_full in H by (unfold zeros; rewrite ?length_replicate; done).
  set (fb := λ b, mkFrame bid (be_decode bn) bd b).
  assert (Hwf : ∀ b, wf_Frame (fb b)).
  { intros b. repeat split; simpl; try done; try lia.
    unfold len. rewrite L4. lia. }
  assert (Hbody : ∀ b, frame_body (fb b) = bid ++ bn ++ bl ++ bd).
  { intros b. unfold frame_body. rewrite u32_len_small by done.
    unfold fb; cbn [f_ID f_FrameNumber f_Data].
    unfold len. rewrite L4, Z2Nat.id by lia.
    by rewrite !be_encode_decode_len. }
  unfold frame_bytes. destruct r4 as [|b r4].
  - simpl in H. simplify_eq. intros _. fold (fb false).
    rewrite Hbody, app_nil_r. done.
  - destruct (decide (b = x00)) as [->|Hb0];
      [|destruct (decide (b = x01)) as [->|Hb1]].
    + rewrite bool_decide_eq_true_2 in H by done. simplify_eq. fold (fb false).
      split; [done|]. rewrite Hbody, <- !app_assoc. done.
    + rewrite bool_decide_eq_false_2 in H by done.
      rewrite bool_decide_eq_true_2 in H by done. simplify_eq. fold (fb true).
      split; [done|]. rewrite Hbody, <- !app_assoc. done.
    + rewrite !bool_decide_eq_false_2 in H by done. by simplify_eq.
Qed.

Lemma length_read_full n r a b e :
  read_full n r = (a, b, e) → (length b ≤ length r - n)%nat.
Proof. intros ->%read_full_rest. by rewrite length_drop. Qed.

(** Every call on a non-empty buffer consumes input. *)
Lemma unmarshal_consumes r f r' err :
  r ≠ [] → Frame_UnmarshalBinary Frame_zero r = (f, r', err) →
  (length r' < length r)%nat.
Proof.
  intros Hne H.
  assert (Hr : (0 < length r)%nat) by (destruct r; simpl in *; [done|lia]).
  enough (length r' ≤ length r - 16)%nat by lia.
  unfold Frame_UnmarshalBinary in H.
  destruct (read_full ChannelIDLength r) as [[bid r1] [e1|]] eqn:E1;
    apply length_read_full in E1; unfold ChannelIDLength in E1; [simplify_eq; lia|].
  destruct (read_full 2 r1) as [[bn r2] [e2|]] eqn:E2;
    apply length_read_full in E2; [simplify_eq; lia|].
  destruct (read_full 4 r2) as [[bl r3] [e3|]] eqn:E3;
    apply length_read_full in E3; [simplify_eq; lia|].
  destruct (MaxFrameLen <? be_decode bl); [simplify_eq; lia|].
  destruct (read_full _ r3) as [[bd r4] [e4|]] eqn:E4;
    apply length_read_full in E4; [simplify_eq; lia|].
  destruct r4 as [|b r4]; [simpl in H; simplify_eq; simpl; lia|].
  simpl in E4. repeat case_bool_decide; simplify_eq; lia.
Qed.

(** ** Lemmas on [ParseFrames] *)

(** The loop never runs out of fuel, whatever the input. *)
Lemma parse_loop_total fuel buf acc :
  (length buf ≤ fuel)%nat → ∀ msg, parse_loop fuel buf acc ≠ Panic msg.
Proof.
  revert buf acc; induction fuel as [|fuel IH]; intros [|b buf] acc Hf msg;
    cbn [parse_loop]; try done; simpl in Hf; [lia|].
  destruct (Frame_UnmarshalBinary Frame_zero (b :: buf)) as [[f r] err] eqn:E.
  apply unmarshal_consumes in E; [|done]. simpl in E.
  destruct err as [e|]; [case_bool_decide; [|done]|]; apply IH; lia.
Qed.

Lemma len_frame_body f : wf_Frame f → len (frame_body f) = 22 + len (f_Data f).
Proof.
  intros (Hid & _). unfold frame_body, len. rewrite !length_app, !length_be_encode, Hid.
  unfold ChannelIDLength. lia.
Qed.

Lemma frame_body_nonempty f : wf_Frame f → (16 ≤ length (frame_body f))%nat.
Proof.
  intros (Hid & _). unfold frame_body. rewrite length_app, Hid. unfold ChannelIDLength. lia.
Qed.

(** The last frame of the input may lack its final byte. *)
Lemma parse_loop_last fuel f acc :
  wf_Frame f → f_IsLast f = false → (length (frame_body f) ≤ fuel)%nat →
  parse_loop fuel (frame_body f) acc = Ok (acc ++ [f]).
Proof.
  intros Hwf Hl Hf. pose proof (frame_body_nonempty f Hwf).
  destruct fuel as [|fuel]; [lia|].
  destruct (frame_body f) as [|b buf] eqn:E; [simpl in *; lia|].
  cbn [parse_loop]. rewrite <- E, <- (app_nil_r (frame_body f)), unmarshal_body by done.
  rewrite bool_decide_eq_true_2 by done.
  destruct f as [id n d l]; simpl in *; subst l. by destruct fuel.
Qed.

(** A complete frame at the head of the buffer is parsed and the loop goes on. *)
Lemma parse_loop_cons fuel f buf acc :
  wf_Frame f → (length (frame_bytes f ++ buf) ≤ fuel)%nat →
  ∃ fuel', (length buf ≤ fuel')%nat ∧
    parse_loop fuel (frame_bytes f ++ buf) acc = parse_loop fuel' buf (acc ++ [f]).
Proof.
  intros Hwf Hf. pose proof (frame_body_nonempty f Hwf).
  unfold frame_bytes in Hf. rewrite !length_app in Hf.
  destruct fuel as [|fuel]; [lia|]. exists fuel. split; [lia|].
  destruct (frame_bytes f ++ buf) as [|b l] eqn:E.
  { apply (f_equal length) in E. unfold frame_bytes in E. rewrite !length_app in E.
    simpl in E. lia. }
  cbn [parse_loop]. by rewrite <- E, unmarshal_marshal.
Qed.

Lemma parse_loop_frames fuel fs acc :
  Forall wf_Frame fs → (length (concat (frame_bytes <$> fs)) ≤ fuel)%nat →
  parse_loop fuel (concat (frame_bytes <$> fs)) acc = Ok (acc ++ fs).
Proof.
  revert fuel acc; induction fs as [|f fs IH]; intros fuel acc Hwf Hf.
  - destruct fuel; simpl; by rewrite app_nil_r.
  - apply Forall_cons_1 in Hwf as [Hf0 Hwf]. cbn [fmap list_fmap concat] in *.
    edestruct (parse_loop_cons fuel f) as (fuel' & Hf' & ->); [done..|].
    rewrite IH by done. by rewrite <- app_assoc.
Qed.

Lemma parse_loop_truncated fuel fs f acc :
  Forall wf_Frame (fs ++ [f]) → f_IsLast f = false →
  (length (concat (frame_bytes <$> fs) ++ frame_body f) ≤ fuel)%nat →
  parse_loop fuel (concat (frame_bytes <$> fs) ++ frame_body f) acc = Ok (acc ++ fs ++ [f]).
Proof.
  revert fuel acc; induction fs as [|g fs IH]; intros fuel acc Hwf Hl Hf.
  - apply Forall_cons_1 in Hwf as [Hf0 _]. by apply parse_loop_last.
  - apply Forall_cons_1 in Hwf as [Hg0 Hwf]. cbn [fmap list_fmap concat app] in *.
    rewrite <- app_assoc in *.
    edestruct (parse_loop_cons fuel g) as (fuel' & Hf' & ->); [done..|].
    rewrite IH by done. by rewrite <- app_assoc.
Qed.

(** What an accepted input looks like: the frames' encodings in order, where the
    last byte of the last frame may be missing if it would have been zero. *)
Definition frames_encoding (fs : list Frame) (buf : bytes) : Prop :=
  buf = concat (frame_bytes <$> fs) ∨
  ∃ fs' f, fs = fs' ++ [f] ∧ f_IsLast f = false ∧
           buf = concat (frame_bytes <$> fs') ++ frame_body f.

Lemma parse_loop_inv fuel buf acc fs :
  parse_loop fuel buf acc = Ok fs →
  ∃ fs', fs = acc ++ fs' ∧ Forall wf_Frame fs' ∧ frames_encoding fs' buf.
Proof.
  revert buf acc; induction fuel as [|fuel IH]; intros buf acc H.
  { destruct buf; simplify_eq/=. exists []. rewrite app_nil_r. repeat split; [done|by left]. }
  destruct buf as [|b buf]; cbn [parse_loop] in H.
  { simplify_eq. exists []. rewrite app_nil_r. repeat split; [done|by left]. }
  destruct (Frame_UnmarshalBinary Frame_zero (b :: buf)) as [[f r] err] eqn:E.
  apply unmarshal_inv in E. destruct err as [e|].
  - case_bool_decide as He; [|done]. destruct (E He) as (Hwf & Hb & Hlast & ->).
    assert (parse_loop fuel [] (acc ++ [f]) = Ok (acc ++ [f])) as Hp by by destruct fuel.
    rewrite Hp in H. simplify_eq. exists [f]. split; [done|]. split; [by constructor|].
    right. exists [], f. by rewrite Hb.
  - destruct E as [Hwf Hb]. rewrite Hb. apply IH in H as (fs' & -> & Hwf' & Henc).
    exists (f :: fs'). rewrite <- app_assoc. split; [done|]. split; [by constructor|].
    destruct Henc as [->|(fs1 & f1 & -> & Hl & ->)]; [by left|].
    right. exists (f :: fs1), f1. split; [done|]. split; [done|].
    cbn [fmap list_fmap concat]. by rewrite <- app_assoc.
Qed.

Lemma ParseFrames_inv data fs :
  ParseFrames data = Ok fs →
  fs ≠ [] ∧ Forall wf_Frame fs ∧
  ∃ buf, data = DerivationVersion0 :: buf ∧ frames_encoding fs buf.
Proof.
  intros H. destruct data as [|v buf]; [done|]. cbn [ParseFrames] in H.
  case_bool_decide as Hv; [|done]. simpl in H. subst v.
  destruct (parse_loop (length buf) buf []) as [fs'|e|m] eqn:E; try done.
  simpl in H. destruct fs' as [|f fs']; [done|]. simplify_eq/=.
  apply parse_loop_inv in E as (fs'' & Heq & Hwf & Henc). simpl in Heq. subst fs''.
  split; [done|]. split; [done|]. by exists buf.
Qed.

Lemma ParseFrames_no_panic data s : ParseFrames data ≠ Panic s.
Proof.
  destruct data as [|v buf]; cbn [ParseFrames]; [done|].
  case_bool_decide; simpl; [|done].
  pose proof (parse_loop_total (length buf) buf [] (le_n _)) as Ht.
  destruct (parse_loop (length buf) buf []) as [fs|e|m] eqn:E; simpl; [|done|].
  - by destruct (length fs =? 0)%nat.
  - by destruct (Ht m).
Qed.

(** ** Properties *)

(** Round trip: any non-empty list of well-formed frames, written one after
    the other by [Frame.MarshalBinary] behind the version byte, is parsed back
    by [ParseFrames] to exactly those frames. *)
Theorem ParseFrames_MarshalBinary (fs : list Frame) :
  fs ≠ [] → Forall wf_Frame fs →
  ParseFrames (fold_left (λ w f, fst (Frame_MarshalBinary f w)) fs [DerivationVersion0])
  = Ok fs.
Proof.
  intros Hne Hwf.
  assert (Hfold : ∀ w, fold_left (λ w f, fst (Frame_MarshalBinary f w)) fs w
                       = w ++ concat (frame_bytes <$> fs)).
  { clear. induction fs as [|f fs IH]; intros w; cbn [fold_left].
    - by rewrite app_nil_r.
    - rewrite Frame_MarshalBinary_buffer, IH. cbn [fst fmap list_fmap concat].
      by rewrite <- app_assoc. }
  rewrite Hfold. cbn [app ParseFrames]. rewrite bool_decide_eq_true_2 by done.
  cbn [negb]. rewrite parse_loop_frames by done. by destruct fs.
Qed.

Lemma ParseFrames_MarshalBinary_witness :
  let f := mkFrame (zeros 16) 3 [x01; x02] true in
  let g := mkFrame (zeros 16) 4 [] false in
  ParseFrames (fold_left (λ w f, fst (Frame_MarshalBinary f w)) [f; g] [DerivationVersion0])
  = Ok [f; g].
Proof.
  apply ParseFrames_MarshalBinary; [done|].
  repeat constructor; vm_compute; congruence.
Defined.

(** [ParseFrames] accepts exactly the encodings: it returns the frames [fs]
    if and only if [fs] is a non-empty list of well-formed frames and the data is
    the version byte followed by their encodings, where only the final byte of
    the last frame may be absent, and then that frame is not marked as last. *)
Theorem ParseFrames_spec (data : bytes) (fs : list Frame) :
  ParseFrames data = Ok fs ↔
  fs ≠ [] ∧ Forall wf_Frame fs ∧
  ∃ buf, data = DerivationVersion0 :: buf ∧ frames_encoding fs buf.
Proof.
  split; [apply ParseFrames_inv|].
  intros (Hne & Hwf & buf & -> & Henc). cbn [ParseFrames].
  rewrite bool_decide_eq_true_2 by done. cbn [negb].
  assert (Hp : parse_loop (length buf) buf [] = Ok fs).
  { destruct Henc as [->|(fs1 & f & -> & Hl & ->)]; [by apply parse_loop_frames|].
    by apply (parse_loop_truncated _ _ _ []). }
  rewrite Hp. by destruct fs.
Qed.

(** [ParseFrames] is total: whatever bytes are found on L1, it returns frames
    or an error, it does not panic and its loop terminates within as many
    iterations as there are bytes. *)
Theorem ParseFrames_total (data : bytes) :
  (∃ fs, ParseFrames data = Ok fs) ∨ (∃ e, ParseFrames data = Err e).
Proof.
  pose proof (ParseFrames_no_panic data). destruct (ParseFrames data); naive_solver.
Qed.
