(* ===== verification/Channel.v ===== *)
(** * Channels

    op-node/rollup/derive/channel.go: a channel collects the frames that carry
    its id, in any order, and can be read once every frame up to the closing one
    has arrived.  [BatchReader] is in ChannelInReader.v. *)

From S2P Require Import Prelude GoErrors EthTypes Frame.

(** ** Model *)

Record Channel := mkChannel {
  ch_id : ChannelID;
  ch_openBlock : L1BlockRef;
  ch_size : Z;
  ch_closed : bool;
  ch_endFrameNumber : Z;
  ch_inputs : gmap Z bytes;
  ch_highestL1InclusionBlock : L1BlockRef }.

Definition NewChannel (id : ChannelID) (openBlock : L1BlockRef) : Channel :=
  mkChannel id openBlock 0 false 0 ∅ L1BlockRef_zero.

(** [Channel.AddFrame]: the channel afterwards and the error, if any. *)
Definition AddFrame (ch : Channel) (frame : Frame) (l1InclusionBlock : L1BlockRef)
  : Channel * option error :=
  if negb (bool_decide (f_ID frame = ch_id ch)) then
    (ch, Some (ErrorNew "frame id does not match channel id")) else
  if f_IsLast frame && ch_closed ch then
    (ch, Some (ErrorNew "cannot add ending frame to a closed channel")) else
  match ch_inputs ch !! f_FrameNumber frame with
  | Some _ => (ch, Some DuplicateErr)
  | None =>
      let endFrameNumber := if f_IsLast frame then f_FrameNumber frame
                            else ch_endFrameNumber ch in
      let closed := if f_IsLast frame then true else ch_closed ch in
      let highest :=
        if l1_Number (ch_highestL1InclusionBlock ch) <? l1_Number l1InclusionBlock
        then l1InclusionBlock else ch_highestL1InclusionBlock ch in
      let inputs := <[f_FrameNumber frame := f_Data frame]> (ch_inputs ch) in
      let size := ch_size ch ⊞ (u64 (len (f_Data frame)) + frameOverhead) in
      (mkChannel (ch_id ch) (ch_openBlock ch) size closed endFrameNumber inputs highest,
       None)
  end.

Definition OpenBlockNumber (ch : Channel) : Z := l1_Number (ch_openBlock ch).
Definition Size (ch : Channel) : Z := ch_size ch.

(** The frame numbers [0 .. endFrameNumber], in the order of the loops. *)
Definition frame_range (ch : Channel) : list Z := seqZ 0 (ch_endFrameNumber ch + 1).

Definition IsReady (ch : Channel) : bool :=
  if negb (ch_closed ch) then false else
  if negb (bool_decide (Z.of_nat (size (ch_inputs ch)) = ch_endFrameNumber ch + 1))
  then false else
  forallb (λ i, bool_decide (is_Some (ch_inputs ch !! i))) (frame_range ch).

(** [Channel.Reader]: one buffer per frame number; a missing one panics. *)
Fixpoint read_inputs (m : gmap Z bytes) (idx : list Z) : result (list bytes) :=
  match idx with
  | [] => Ok []
  | i :: idx =>
      match m !! i with
      | None => Panic "dev error in channel.Reader"
      | Some data => ds ← read_inputs m idx; Ok (data :: ds)
      end
  end.

(** The reader, read to its end: [io.MultiReader] concatenates the buffers. *)
Definition Reader (ch : Channel) : result bytes :=
  ds ← read_inputs (ch_inputs ch) (frame_range ch); Ok (concat ds).

(** Adding a list of frames, all included in the same L1 block. *)
Definition AddFrames (ch : Channel) (fs : list Frame) (l1 : L1BlockRef) : Channel :=
  fold_left (λ ch f, fst (AddFrame ch f l1)) fs ch.

(** ** Invariant *)

(** Memory accounted to a set of inputs. *)
Definition inputs_size (m : gmap Z bytes) : Z :=
  map_fold (λ _ d acc, acc + (len d + frameOverhead)) 0 m.

Record channel_inv (ch : Channel) : Prop := {
  ci_keys : ∀ i d, ch_inputs ch !! i = Some d → is_u16 i;
  ci_size : ch_size ch = u64 (inputs_size (ch_inputs ch));
  ci_end : if ch_closed ch then is_Some (ch_inputs ch !! ch_endFrameNumber ch)
           else ch_endFrameNumber ch = 0 }.

(** The channel holds exactly the frames [0 .. endFrameNumber] and is closed. *)
Definition complete (ch : Channel) : Prop :=
  ch_closed ch = true ∧
  ∀ i, is_Some (ch_inputs ch !! i) ↔ 0 <= i <= ch_endFrameNumber ch.

(** ** Lemmas *)

Lemma AddFrame_error ch f l1 ch' e : AddFrame ch f l1 = (ch', Some e) → ch' = ch.
Proof.
  unfold AddFrame. repeat case_match; intros; by simplify_eq.
Qed.

(** The successful branch of [AddFrame], with its guards. *)
Lemma AddFrame_ok ch f l1 ch' :
  AddFrame ch f l1 = (ch', None) →
  f_ID f = ch_id ch ∧ (f_IsLast f = true → ch_closed ch = false) ∧
  ch_inputs ch !! f_FrameNumber f = None ∧
  ch_id ch' = ch_id ch ∧ ch_openBlock ch' = ch_openBlock ch ∧
  ch_inputs ch' = <[f_FrameNumber f := f_Data f]> (ch_inputs ch) ∧
  ch_size ch' = ch_size ch ⊞ (u64 (len (f_Data f)) + frameOverhead) ∧
  ch_closed ch' = (f_IsLast f || ch_closed ch) ∧
  ch_endFrameNumber ch' = (if f_IsLast f then f_FrameNumber f else ch_endFrameNumber ch).
Proof.
  unfold AddFrame. case_bool_decide as Hid; simpl; [|done].
  destruct (f_IsLast f && ch_closed ch) eqn:Hl; [done|].
  destruct (ch_inputs ch !! f_FrameNumber f) eqn:Hk; [done|].
  intros H. simplify_eq/=. apply andb_false_iff in Hl.
  repeat split; try done; destruct (f_IsLast f), (ch_closed ch); intuition congruence.
Qed.

Lemma inputs_size_insert m i d :
  m !! i = None → inputs_size (<[i := d]> m) = inputs_size m + (len d + frameOverhead).
Proof.
  intros Hi. unfold inputs_size. rewrite map_fold_insert_L; [lia| |done].
  intros. lia.
Qed.

Lemma NewChannel_inv id b : channel_inv (NewChannel id b).
Proof. by split. Qed.

Lemma AddFrame_inv ch f l1 :
  is_u16 (f_FrameNumber f) → channel_inv ch → channel_inv (fst (AddFrame ch f l1)).
Proof.
  intros Hn Hinv. destruct (AddFrame ch f l1) as [ch' [e|]] eqn:E.
  { apply AddFrame_error in E. by subst. }
  apply AddFrame_ok in E as (Hid & Hl & Hk & _ & _ & Hin & Hsz & Hcl & Hend).
  destruct Hinv as [Ik Is Ie]. split; simpl; rewrite ?Hin, ?Hcl, ?Hend.
  - intros i d [[<- _]|[_ Hd]]%lookup_insert_Some; eauto.
  - rewrite Hsz, Is, inputs_size_insert by done.
    rewrite u64_add_idemp_l. unfold u64.
    rewrite Z.add_assoc, <- Zplus_mod_idemp_l, Zplus_mod_idemp_r, Zplus_mod_idemp_l.
    f_equal. lia.
  - destruct (f_IsLast f) eqn:El; simpl.
    + rewrite lookup_insert_eq. eauto.
    + destruct (ch_closed ch); [|done].
      destruct (decide (f_FrameNumber f = ch_endFrameNumber ch)) as [->|];
        [rewrite lookup_insert_eq; eauto | by rewrite lookup_insert_ne].
Qed.

Lemma read_inputs_ok m idx :
  Forall (λ i, is_Some (m !! i)) idx →
  read_inputs m idx = Ok (omap (λ i, m !! i) idx).
Proof.
  induction 1 as [|i idx [d Hd] _ IH]; [done|].
  cbn [read_inputs omap list_omap]. by rewrite Hd, IH.
Qed.

Lemma size_frame_range ch :
  0 <= ch_endFrameNumber ch →
  Z.of_nat (size (list_to_set (C:=gset Z) (frame_range ch))) = ch_endFrameNumber ch + 1.
Proof.
  intros. unfold frame_range. rewrite size_list_to_set by apply NoDup_seqZ.
  rewrite length_seqZ. lia.
Qed.

Lemma frame_range_present ch :
  forallb (λ i, bool_decide (is_Some (ch_inputs ch !! i))) (frame_range ch) = true ↔
  list_to_set (C:=gset Z) (frame_range ch) ⊆ dom (ch_inputs ch).
Proof.
  rewrite forallb_forall. split.
  - intros H i Hi%elem_of_list_to_set. apply elem_of_dom.
    eapply bool_decide_eq_true_1, H. by apply list_elem_of_In.
  - intros H i Hi%list_elem_of_In. apply bool_decide_eq_true_2, elem_of_dom, H.
    by apply elem_of_list_to_set.
Qed.

Lemma channel_inv_end ch : channel_inv ch → 0 <= ch_endFrameNumber ch < 2 ^ 16.
Proof.
  intros [Ik _ Ie]. destruct (ch_closed ch); [|lia].
  destruct Ie as [d Hd]. by apply (Ik _ d).
Qed.

Lemma IsReady_complete ch : channel_inv ch → IsReady ch = true ↔ complete ch.
Proof.
  intros Hinv. pose proof (channel_inv_end ch Hinv) as Hend.
  unfold IsReady, complete. destruct (ch_closed ch); simpl; [|naive_solver].
  pose proof (size_frame_range ch ltac:(lia)) as Hsz.
  assert (Hrange : ∀ i, i ∈ list_to_set (C:=gset Z) (frame_range ch) ↔
                        0 <= i <= ch_endFrameNumber ch).
  { intros i. unfold frame_range. rewrite elem_of_list_to_set, elem_of_seqZ. lia. }
  case_bool_decide as Hs; simpl.
  - rewrite frame_range_present. split.
    + intros Hsub. split; [done|]. intros i.
      assert (Heq : list_to_set (C:=gset Z) (frame_range ch) = dom (ch_inputs ch)).
      { apply set_subseteq_size_eq; [done|]. rewrite size_dom. lia. }
      by rewrite <- elem_of_dom, <- Heq.
    + intros [_ H] i Hi. apply elem_of_dom, H. by apply Hrange.
  - split; [done|]. intros [_ H]. destruct Hs. rewrite <- Hsz, <- size_dom.
    f_equal. f_equal. apply set_eq. intros i. rewrite elem_of_dom, H. symmetry. apply Hrange.
Qed.

(** ** Reassembly *)

(** The frames of a channel whose data is split into [datas]. *)
Definition frame_seq (id : ChannelID) (datas : list bytes) : list Frame :=
  imap (λ i d, mkFrame id (Z.of_nat i) d (bool_decide (S i = length datas))) datas.

(** Frames that do not conflict: same channel, distinct numbers, one closing frame. *)
Record compatible (id : ChannelID) (fs : list Frame) : Prop := {
  co_id : ∀ f, f ∈ fs → f_ID f = id;
  co_nums : NoDup (f_FrameNumber <$> fs);
  co_last : ∀ f g, f ∈ fs → g ∈ fs → f_IsLast f = true → f_IsLast g = true → f = g }.

Definition frame_map (fs : list Frame) : gmap Z bytes :=
  list_to_map ((λ f, (f_FrameNumber f, f_Data f)) <$> fs).

Lemma frame_map_keys (fs : list Frame) :
  ((λ f, (f_FrameNumber f, f_Data f)) <$> fs).*1 = f_FrameNumber <$> fs.
Proof. by rewrite <- list_fmap_compose. Qed.

Lemma compatible_prefix id fs f : compatible id (fs ++ [f]) → compatible id fs.
Proof.
  intros [Hid Hn Hl]. split.
  - intros g Hg. apply Hid. set_solver.
  - rewrite fmap_app in Hn. by apply NoDup_app in Hn as [? _].
  - intros g h Hg Hh. apply Hl; set_solver.
Qed.

(** The state of a channel after compatible frames, in whatever order. *)
Lemma AddFrames_compatible id b fs l1 :
  compatible id fs →
  let ch := AddFrames (NewChannel id b) fs l1 in
  ch_id ch = id ∧ ch_inputs ch = frame_map fs ∧
  ch_closed ch = existsb f_IsLast fs ∧
  (∀ f, f ∈ fs → f_IsLast f = true → ch_endFrameNumber ch = f_FrameNumber f).
Proof.
  induction fs as [|f fs IH] using rev_ind; intros Hc.
  { repeat split; try done. intros f Hf. by apply elem_of_nil in Hf. }
  pose proof (compatible_prefix _ _ _ Hc) as Hp. specialize (IH Hp).
  destruct Hc as [Hid Hn Hl].
  unfold AddFrames in *. rewrite fold_left_app. cbn [fold_left] in *.
  set (ch := fold_left _ fs _) in *. destruct IH as (Ii & Iin & Icl & Iend).
  rewrite fmap_app in Hn. apply NoDup_app in Hn as (_ & Hdisj & _).
  assert (Hnone : ch_inputs ch !! f_FrameNumber f = None).
  { rewrite Iin. apply not_elem_of_list_to_map. rewrite frame_map_keys.
    intros Hin. apply (Hdisj _ Hin). simpl. set_solver. }
  assert (Hnl : f_IsLast f && ch_closed ch = false).
  { destruct (f_IsLast f) eqn:El; [|done]. cbn [andb]. rewrite Icl.
    apply not_true_iff_false.
    rewrite existsb_exists. intros (g & Hg%list_elem_of_In & Hgl). simpl.
    assert (g = f) as -> by (apply Hl; set_solver).
    eapply Hdisj; [apply list_elem_of_fmap_2; exact Hg|]. simpl. set_solver. }
  unfold AddFrame. rewrite bool_decide_eq_true_2 by (rewrite Ii; apply Hid; set_solver).
  cbn [negb]. rewrite Hnl, Hnone. cbn [fst ch_id ch_inputs ch_closed ch_endFrameNumber].
  split; [done|]. split; [|split].
  - rewrite Iin. unfold frame_map. rewrite fmap_app. cbn [fmap list_fmap].
    rewrite list_to_map_snoc; [done|]. rewrite frame_map_keys.
    intros Hin. apply (Hdisj _ Hin). simpl. set_solver.
  - rewrite existsb_app, Icl. simpl. by destruct (f_IsLast f), (existsb f_IsLast fs).
  - intros g Hg Hgl. destruct (f_IsLast f) eqn:El.
    + by rewrite (Hl f g) by set_solver.
    + apply elem_of_app in Hg as [Hg|Hg]; [by apply Iend|].
      apply list_elem_of_singleton in Hg. congruence.
Qed.

Lemma AddFrames_inv ch fs l1 :
  Forall (λ f, is_u16 (f_FrameNumber f)) fs → channel_inv ch →
  channel_inv (AddFrames ch fs l1).
Proof.
  revert ch; induction fs as [|f fs IH]; intros ch Hf Hch; [done|].
  apply Forall_cons_1 in Hf as [Hf Hfs]. apply IH; [done|]. by apply AddFrame_inv.
Qed.

Lemma frame_seq_numbers id datas :
  f_FrameNumber <$> frame_seq id datas = seqZ 0 (len datas).
Proof.
  apply list_eq. intros i. unfold frame_seq, seqZ, len. rewrite Nat2Z.id.
  rewrite !list_lookup_fmap, list_lookup_imap.
  destruct (decide (i < length datas)%nat) as [Hi|Hi].
  - rewrite lookup_seq_lt by done. destruct (lookup_lt_is_Some_2 datas i Hi) as [d ->].
    simpl. f_equal. lia.
  - rewrite lookup_seq_ge, (lookup_ge_None_2 datas) by lia. done.
Qed.

Lemma frame_seq_compatible id datas fs :
  fs ≡ₚ frame_seq id datas → compatible id fs.
Proof.
  intros Hp. split.
  - intros f Hf. rewrite Hp in Hf. apply elem_of_lookup_imap in Hf as (i & d & -> & _). done.
  - rewrite Hp, frame_seq_numbers. apply NoDup_seqZ.
  - intros f g Hf Hg. rewrite Hp in Hf, Hg.
    apply elem_of_lookup_imap in Hf as (i & d & -> & Hi).
    apply elem_of_lookup_imap in Hg as (j & d' & -> & Hj). simpl.
    intros H1%bool_decide_eq_true H2%bool_decide_eq_true. assert (i = j) as -> by lia.
    simplify_eq. done.
Qed.

Lemma frame_map_seq id datas fs i :
  fs ≡ₚ frame_seq id datas →
  frame_map fs !! i = if decide (0 <= i < len datas) then datas !! Z.to_nat i else None.
Proof.
  intros Hp. assert (Hn : NoDup ((λ f, (f_FrameNumber f, f_Data f)) <$> fs).*1).
  { rewrite frame_map_keys, Hp, frame_seq_numbers. apply NoDup_seqZ. }
  case_decide as Hi.
  - destruct (lookup_lt_is_Some_2 datas (Z.to_nat i)) as [d Hd]; [unfold len in Hi; lia|].
    rewrite Hd. apply elem_of_list_to_map; [done|]. rewrite Hp.
    apply list_elem_of_fmap. eexists. split; [|apply elem_of_lookup_imap; eauto].
    simpl. rewrite Z2Nat.id by lia. done.
  - apply not_elem_of_list_to_map. rewrite frame_map_keys, Hp, frame_seq_numbers.
    intros Hin%elem_of_seqZ. lia.
Qed.

(** The channels that arise: created, then fed frames from any L1 blocks. *)
Inductive channel_reachable : Channel → Prop :=
| reach_new id b : channel_reachable (NewChannel id b)
| reach_add ch f l1 :
    channel_reachable ch → is_u16 (f_FrameNumber f) →
    channel_reachable (fst (AddFrame ch f l1)).

Lemma reachable_inv ch : channel_reachable ch → channel_inv ch.
Proof. induction 1; [apply NewChannel_inv | by apply AddFrame_inv]. Qed.

Lemma complete_Reader ch :
  channel_inv ch → complete ch →
  Reader ch = Ok (concat (omap (λ i, ch_inputs ch !! i) (frame_range ch))).
Proof.
  intros Hinv [_ H]. unfold Reader. rewrite read_inputs_ok; [done|].
  apply Forall_forall. intros i Hi%elem_of_seqZ. apply H.
  pose proof (channel_inv_end ch Hinv). lia.
Qed.

Lemma incomplete_prefix id datas fs1 fs2 b l1 :
  len datas <= 2 ^ 16 → fs2 ≠ [] → fs1 ++ fs2 ≡ₚ frame_seq id datas →
  IsReady (AddFrames (NewChannel id b) fs1 l1) = false.
Proof.
  intros Hd Hne Hp. apply not_true_iff_false. intros Hr.
  assert (Hu : Forall (λ f, is_u16 (f_FrameNumber f)) (fs1 ++ fs2)).
  { apply Forall_forall. intros f Hf. rewrite Hp in Hf.
    apply elem_of_lookup_imap in Hf as (i & d & -> & Hi). simpl.
    apply lookup_lt_Some in Hi. unfold is_u16, len in *. lia. }
  apply Forall_app in Hu as [Hu1 Hu2].
  pose proof (frame_seq_compatible _ _ _ Hp) as Hc.
  assert (Hc1 : compatible id fs1).
  { clear - Hc. induction fs2 as [|f fs2 IH] using rev_ind; [by rewrite app_nil_r in Hc|].
    rewrite app_assoc in Hc. eauto using compatible_prefix. }
  destruct (AddFrames_compatible id b fs1 l1 Hc1) as (_ & Hin & Hcl & Hend).
  set (ch := AddFrames _ fs1 l1) in *.
  apply IsReady_complete in Hr as [Hc' Hall];
    [|by apply AddFrames_inv, NewChannel_inv].
  rewrite Hcl in Hc'. apply existsb_exists in Hc' as (f & Hf%list_elem_of_In & Hfl).
  rewrite (Hend f Hf Hfl) in Hall.
  assert (Hfp : f ∈ frame_seq id datas) by (rewrite <- Hp; set_solver).
  apply elem_of_lookup_imap in Hfp as (n & d & -> & Hn). simpl in *.
  apply bool_decide_eq_true in Hfl.
  destruct fs2 as [|g fs2]; [done|].
  assert (Hgp : g ∈ frame_seq id datas) by (rewrite <- Hp; set_solver).
  apply elem_of_lookup_imap in Hgp as (m & d' & -> & Hm). simpl in *.
  apply lookup_lt_Some in Hm.
  destruct (proj2 (Hall (Z.of_nat m)) ltac:(lia)) as [x Hx].
  rewrite Hin in Hx. apply elem_of_list_to_map_2 in Hx.
  apply list_elem_of_fmap in Hx as (h & Heq & Hh). injection Heq as Hnum _.
  destruct Hc as [_ Hnd _]. rewrite fmap_app, NoDup_app in Hnd.
  destruct Hnd as (_ & Hdisj & _). eapply (Hdisj (f_FrameNumber h)).
  - by apply list_elem_of_fmap_2.
  - cbn [fmap list_fmap]. simpl. rewrite <- Hnum. set_solver.
Qed.

(** ** Properties *)

(** For every channel that can arise (any frames, in any order, from any L1
    blocks, rejected ones included): [IsReady] holds exactly when the channel is
    closed and holds the frames 0 .. endFrameNumber and no other, and then
    [Reader] does not panic and yields the frames' data in order of number. *)
Theorem IsReady_Reader_spec (ch : Channel) :
  channel_reachable ch →
  (IsReady ch = true ↔ complete ch) ∧
  (IsReady ch = true →
   ∃ datas, len datas = ch_endFrameNumber ch + 1 ∧
     (∀ i : nat, ch_inputs ch !! Z.of_nat i = datas !! i) ∧
     Reader ch = Ok (concat datas)).
Proof.
  intros Hr%reachable_inv. split; [by apply IsReady_complete|].
  intros Hc%IsReady_complete; [|done].
  pose proof (channel_inv_end ch Hr) as Hend. destruct Hc as [Hcl Hall].
  exists (omap (λ i, ch_inputs ch !! i) (frame_range ch)).
  assert (Hlk : ∀ i : nat, omap (λ i, ch_inputs ch !! i) (frame_range ch) !! i
                           = ch_inputs ch !! Z.of_nat i).
  { intros i. rewrite list_lookup_omap_all.
    - unfold frame_range. destruct (decide (Z.of_nat i < ch_endFrameNumber ch + 1)).
      + rewrite lookup_seqZ_lt by lia. simpl. by rewrite Z.add_0_l.
      + rewrite lookup_seqZ_ge by lia. simpl. symmetry. apply eq_None_not_Some.
        rewrite Hall. lia.
    - apply Forall_forall. intros j Hj%elem_of_seqZ. apply Hall. lia. }
  split; [|split; [by intros i; rewrite Hlk | by apply complete_Reader]].
  unfold len. rewrite length_omap_all.
  - unfold frame_range. rewrite length_seqZ. lia.
  - apply Forall_forall. intros j Hj%elem_of_seqZ. apply Hall. lia.
Qed.

Lemma IsReady_Reader_spec_witness :
  let id := zeros 16 in
  let ch := AddFrames (NewChannel id L1BlockRef_zero)
              [mkFrame id 1 [x02] true; mkFrame id 0 [x01] false] L1BlockRef_zero in
  IsReady ch = true ∧ ∃ datas, Reader ch = Ok (concat datas).
Proof.
  intros id ch. assert (Hr : channel_reachable ch) by (repeat constructor; done).
  destruct (IsReady_Reader_spec ch Hr) as [_ H].
  assert (Hready : IsReady ch = true) by (vm_compute; reflexivity).
  split; [done|]. destruct (H Hready) as (ds & _ & _ & Hd). by exists ds.
Defined.

Lemma reassembly (id : ChannelID) (b l1 : L1BlockRef) (datas : list bytes)
    (fs : list Frame) :
  datas ≠ [] → len datas <= 2 ^ 16 → fs ≡ₚ frame_seq id datas →
  let ch := AddFrames (NewChannel id b) fs l1 in
  IsReady ch = true ∧ Reader ch = Ok (concat datas) ∧
  ∀ fs1 fs2, fs = fs1 ++ fs2 → fs2 ≠ [] →
    IsReady (AddFrames (NewChannel id b) fs1 l1) = false.
Proof.
  intros Hne Hlen Hp ch.
  assert (Hn : (0 < length datas)%nat) by (destruct datas; simpl; [done|lia]).
  assert (Hu : Forall (λ f, is_u16 (f_FrameNumber f)) fs).
  { apply Forall_forall. intros f Hf. rewrite Hp in Hf.
    apply elem_of_lookup_imap in Hf as (i & d & -> & Hi). simpl.
    apply lookup_lt_Some in Hi. unfold is_u16, len in *. lia. }
  assert (Hinv : channel_inv ch) by by apply AddFrames_inv, NewChannel_inv.
  destruct (AddFrames_compatible id b fs l1 (frame_seq_compatible _ _ _ Hp))
    as (_ & Hin & Hcl & Hend). fold ch in Hin, Hcl, Hend.
  set (n := (length datas - 1)%nat).
  destruct (lookup_lt_is_Some_2 datas n ltac:(lia)) as [dn Hdn].
  set (fl := mkFrame id (Z.of_nat n) dn true).
  assert (Hfl : fl ∈ fs).
  { rewrite Hp. apply elem_of_lookup_imap. exists n, dn. split; [|done].
    unfold fl. f_equal. rewrite bool_decide_eq_true_2; [done|lia]. }
  assert (He : ch_endFrameNumber ch = len datas - 1).
  { rewrite (Hend fl Hfl eq_refl). simpl. unfold len. lia. }
  assert (Hc : complete ch).
  { split.
    - rewrite Hcl. apply existsb_exists. exists fl. split; [by apply list_elem_of_In|done].
    - intros i. rewrite Hin, (frame_map_seq id datas), He by done.
      case_decide; [|split; [by intros []|lia]].
      split; [lia|]. intros _. apply lookup_lt_is_Some_2. unfold len in *. lia. }
  split; [by apply IsReady_complete|]. split.
  - rewrite complete_Reader by done. do 2 f_equal. unfold frame_range.
    rewrite He, Z.sub_add. apply omap_seqZ_lookup. intros i Hi.
    rewrite Hin, (frame_map_seq id datas) by done.
    rewrite decide_True by (unfold len; lia). by rewrite Nat2Z.id.
  - intros fs1 fs2 -> Hf2. by eapply incomplete_prefix.
Qed.

(** C2. Reassembly is independent of arrival order: split any data into at most
    65536 pieces, frame them, and add the frames in any order; no frame is lost,
    the channel is ready exactly when the last of them has arrived, and reading
    it yields the original data. *)
Theorem channel_reassembly (id : ChannelID) (b l1 : L1BlockRef) (datas : list bytes)
    (fs : list Frame) :
  datas ≠ [] → len datas <= 2 ^ 16 → fs ≡ₚ frame_seq id datas →
  let ch := AddFrames (NewChannel id b) fs l1 in
  IsReady ch = true ∧ Reader ch = Ok (concat datas) ∧
  ∀ fs1 fs2, fs = fs1 ++ fs2 → fs2 ≠ [] →
    IsReady (AddFrames (NewChannel id b) fs1 l1) = false.
Proof. apply reassembly. Qed.

Lemma channel_reassembly_witness :
  let id := zeros 16 in
  let fs := [mkFrame id 2 [x03] true; mkFrame id 0 [x01] false; mkFrame id 1 [x02] false] in
  let ch := AddFrames (NewChannel id L1BlockRef_zero) fs L1BlockRef_zero in
  IsReady ch = true ∧ Reader ch = Ok [x01; x02; x03].
Proof.
  intros id fs ch.
  assert (Hp : fs ≡ₚ frame_seq id [[x01]; [x02]; [x03]]).
  { exact (Permutation_cons_append [mkFrame id 0 [x01] false; mkFrame id 1 [x02] false]
             (mkFrame id 2 [x03] true)). }
  destruct (channel_reassembly id L1BlockRef_zero L1BlockRef_zero
              [[x01]; [x02]; [x03]] fs) as (H1 & H2 & _);
    [done | by vm_compute | exact Hp | by split].
Defined.

(** A closed channel that buffered a frame number above its closing frame's. *)
Definition overrun (ch : Channel) : Prop :=
  ch_closed ch = true ∧ ∃ i d, ch_inputs ch !! i = Some d ∧ ch_endFrameNumber ch < i.

Lemma AddFrame_overrun ch f l1 : overrun ch → overrun (fst (AddFrame ch f l1)).
Proof.
  intros (Hc & i & d & Hi & Hlt).
  destruct (AddFrame ch f l1) as [ch' [e|]] eqn:E.
  { apply AddFrame_error in E. subst. split; eauto. }
  apply AddFrame_ok in E as (_ & Hl & Hk & _ & _ & Hin & _ & Hcl & Hend).
  destruct (f_IsLast f); [naive_solver congruence|].
  unfold overrun. simpl. rewrite Hcl, Hend, Hin, Hc. split; [done|].
  exists i, d. split; [|done]. rewrite lookup_insert_ne; [done|congruence].
Qed.

Lemma overrun_not_ready ch : channel_inv ch → overrun ch → IsReady ch = false.
Proof.
  intros Hinv (Hc & i & d & Hi & Hlt). apply not_true_iff_false.
  intros [_ H]%IsReady_complete; [|done].
  destruct (H i) as [H1 _]. specialize (H1 (ex_intro _ d Hi)). lia.
Qed.

(** A frame numbered above the closing frame of a closed channel is accepted
    by [AddFrame], and from then on the channel can never be read: no further
    frames, in any number and order, make it ready, so it stays in the bank until
    it is timed out or pruned. *)
Theorem overrun_frame_blocks_channel (ch : Channel) (f : Frame) (l1 : L1BlockRef)
    (fs : list (Frame * L1BlockRef)) :
  channel_reachable ch → ch_closed ch = true →
  f_ID f = ch_id ch → f_IsLast f = false → is_u16 (f_FrameNumber f) →
  ch_endFrameNumber ch < f_FrameNumber f → ch_inputs ch !! f_FrameNumber f = None →
  Forall (λ p, is_u16 (f_FrameNumber p.1)) fs →
  snd (AddFrame ch f l1) = None ∧
  IsReady (fold_left (λ c p, fst (AddFrame c p.1 p.2)) fs (fst (AddFrame ch f l1))) = false.
Proof.
  intros Hr Hc Hid Hl Hu Hlt Hnone Hfs.
  assert (Hadd : overrun (fst (AddFrame ch f l1)) ∧ snd (AddFrame ch f l1) = None).
  { unfold AddFrame. rewrite bool_decide_eq_true_2 by done. simpl.
    rewrite Hl, Hnone. simpl. split; [|done]. split; simpl; [done|].
    exists (f_FrameNumber f), (f_Data f). by rewrite lookup_insert_eq. }
  destruct Hadd as [Ho ->]. split; [done|].
  assert (Hinv : channel_inv (fst (AddFrame ch f l1)))
    by by apply AddFrame_inv, reachable_inv.
  revert Ho Hinv. generalize (fst (AddFrame ch f l1)).
  induction Hfs as [|p fs Hp _ IH]; intros c Ho Hinv; [by apply overrun_not_ready|].
  apply IH; [by apply AddFrame_overrun | by apply AddFrame_inv].
Qed.

Lemma overrun_frame_blocks_channel_witness :
  let id := zeros 16 in
  let ch := AddFrames (NewChannel id L1BlockRef_zero) [mkFrame id 1 [] true] L1BlockRef_zero in
  let f := mkFrame id 5 [x07] false in
  snd (AddFrame ch f L1BlockRef_zero) = None ∧
  IsReady (fst (AddFrame (fst (AddFrame ch f L1BlockRef_zero))
                  (mkFrame id 0 [] false) L1BlockRef_zero)) = false.
Proof.
  intros id ch f.
  apply (overrun_frame_blocks_channel ch f L1BlockRef_zero
           [(mkFrame id 0 [] false, L1BlockRef_zero)]);
    try (vm_compute; reflexivity); try (repeat constructor; done).
Defined.
