(* ===== verification/ChannelBank.v ===== *)
(** * The channel bank

    op-node/rollup/derive/channel_bank.go: the pull stage that sorts frames into
    channels, prunes the oldest channels when too much is buffered and emits the
    data of the first channel once it is ready.  The stage before it is known
    only through the [NextDataProvider] interface. *)

From S2P Require Import Prelude GoErrors EthTypes Frame Channel.

(** [NextDataProvider]: pulling changes the provider. *)
Class NextDataProvider (P : Type) := {
  NextData : P → P * result bytes;
  Origin : P → L1BlockRef }.

(** ** State and operations *)

Record ChannelBank (P : Type) := mkChannelBank {
  cb_channels : gmap ChannelID Channel;   (* channels by ID *)
  cb_channelQueue : list ChannelID;       (* channels in FIFO order *)
  cb_prev : P }.
Arguments mkChannelBank {P} _ _ _.
Arguments cb_channels {P} _.
Arguments cb_channelQueue {P} _.
Arguments cb_prev {P} _.

Section ChannelBank.
Context {P : Type} `{NextDataProvider P} (cfg : Config).

Definition NewChannelBank (prev : P) : ChannelBank P := mkChannelBank ∅ [] prev.

Definition ChannelBank_Origin (cb : ChannelBank P) : L1BlockRef := Origin (cb_prev cb).

(** Sum of the channels' sizes in [uint64]. *)
Definition totalSize (m : gmap ChannelID Channel) : Z :=
  map_fold (λ _ ch acc, acc ⊞ ch_size ch) 0 m.

(** [for totalSize > MaxChannelBankSize]: drops channels from the queue's front.
    Indexing an empty queue or reading a channel that is not in the map panics. *)
Fixpoint prune_loop (total : Z) (queue : list ChannelID) (m : gmap ChannelID Channel)
  : result (list ChannelID * gmap ChannelID Channel) :=
  if MaxChannelBankSize <? total then
    match queue with
    | [] => Panic "index out of range"
    | id :: queue =>
        match m !! id with
        | None => Panic "nil pointer dereference"
        | Some ch => prune_loop (total ⊟ ch_size ch) queue (delete id m)
        end
    end
  else Ok (queue, m).

Definition prune (cb : ChannelBank P) : result (ChannelBank P) :=
  '(q, m) ← prune_loop (totalSize (cb_channels cb)) (cb_channelQueue cb) (cb_channels cb);
  Ok (mkChannelBank m q (cb_prev cb)).

(** [ch.OpenBlockNumber()+cb.cfg.ChannelTimeout < origin.Number] *)
Definition timedOut (ch : Channel) (origin : L1BlockRef) : bool :=
  (OpenBlockNumber ch ⊞ cfg_ChannelTimeout cfg) <? l1_Number origin.

(** One iteration of the frame loop of [IngestData]. *)
Definition ingestFrame (origin : L1BlockRef)
    (qm : list ChannelID * gmap ChannelID Channel) (f : Frame)
  : list ChannelID * gmap ChannelID Channel :=
  let '(queue, m) := qm in
  let '(currentCh, queue, m) :=
    match m !! f_ID f with
    | Some ch => (ch, queue, m)
    | None => let ch := NewChannel (f_ID f) origin in
              (ch, queue ++ [f_ID f], <[f_ID f := ch]> m)
    end in
  if timedOut currentCh origin then (queue, m)
  else (queue, <[f_ID f := fst (AddFrame currentCh f origin)]> m).

Definition IngestData (cb : ChannelBank P) (data : bytes) : result (ChannelBank P) :=
  let origin := ChannelBank_Origin cb in
  cb ← prune cb;
  match ParseFrames data with
  | Err _ => Ok cb
  | Panic s => Panic s
  | Ok frames =>
      let '(q, m) := fold_left (ingestFrame origin) frames
                       (cb_channelQueue cb, cb_channels cb) in
      Ok (mkChannelBank m q (cb_prev cb))
  end.

(** [ChannelBank.Read]. *)
Definition Read (cb : ChannelBank P) : ChannelBank P * result bytes :=
  match cb_channelQueue cb with
  | [] => (cb, Err io_EOF)
  | first :: rest =>
      match cb_channels cb !! first with
      | None => (cb, Panic "nil pointer dereference")
      | Some ch =>
          let dropped := mkChannelBank (delete first (cb_channels cb)) rest (cb_prev cb) in
          if timedOut ch (ChannelBank_Origin cb) then (dropped, Err io_EOF)
          else if negb (IsReady ch) then (cb, Err io_EOF)
          else (dropped, Reader ch)
      end
  end.

(** The second half of [NextData]: load data from the previous stage. *)
Definition loadData (cb : ChannelBank P) : ChannelBank P * result bytes :=
  let '(prev, r) := NextData (cb_prev cb) in
  let cb := mkChannelBank (cb_channels cb) (cb_channelQueue cb) prev in
  match r with
  | Err e => (cb, Err e)
  | Panic s => (cb, Panic s)
  | Ok data =>
      match IngestData cb data with
      | Ok cb => (cb, Err NotEnoughData)
      | Err e => (cb, Err e)
      | Panic s => (cb, Panic s)
      end
  end.

(** [ChannelBank.NextData]: read first, then load more data. *)
Definition ChannelBank_NextData (cb : ChannelBank P) : ChannelBank P * result bytes :=
  let '(cb, r) := Read cb in
  match r with
  | Ok data => (cb, Ok data)
  | Panic s => (cb, Panic s)
  | Err e => if bool_decide (e = io_EOF) then loadData cb else (cb, Err e)
  end.

Definition ChannelBank_Reset (cb : ChannelBank P) (base : L1BlockRef)
  : ChannelBank P * result unit :=
  (mkChannelBank ∅ [] (cb_prev cb), Err io_EOF).

(** ** Invariant *)

(** The queue lists the buffered channels, each once; every channel is stored
    under its id and satisfies the channel invariant. *)
Record queue_inv (q : list ChannelID) (m : gmap ChannelID Channel) : Prop := {
  qi_nodup : NoDup q;
  qi_dom : ∀ id, id ∈ q ↔ is_Some (m !! id);
  qi_chan : ∀ id ch, m !! id = Some ch → ch_id ch = id ∧ channel_inv ch }.

Definition bank_inv (cb : ChannelBank P) : Prop :=
  queue_inv (cb_channelQueue cb) (cb_channels cb).

(** Bytes buffered, counted without overflow. *)
Definition bank_memory (m : gmap ChannelID Channel) : Z :=
  map_fold (λ _ ch acc, acc + inputs_size (ch_inputs ch)) 0 m.

(** ** Lemmas *)

Lemma totalSize_delete m id ch :
  m !! id = Some ch → totalSize m ⊟ ch_size ch = totalSize (delete id m).
Proof.
  intros Hid. unfold totalSize.
  rewrite <- (insert_delete_id m id ch) at 1 by done.
  rewrite map_fold_insert_L; [| |apply lookup_delete_eq].
  - rewrite u64_sub_idemp_l, Z.add_simpl_r. apply u64_small.
    apply (map_fold_weak_ind (λ r _, is_u64 r)); [done|]. intros. apply u64_range.
  - intros. rewrite !u64_add_idemp_l. f_equal. lia.
Qed.

Lemma queue_inv_tail q m id :
  queue_inv (id :: q) m → queue_inv q (delete id m).
Proof.
  intros [Hn Hd Hc]. apply NoDup_cons in Hn as [Hni Hn]. split; [done| |].
  - intros j. destruct (decide (j = id)) as [->|Hne].
    + rewrite lookup_delete_eq. split; [done|]. by intros [].
    + rewrite lookup_delete_ne by done. rewrite <- Hd. set_solver.
  - intros j ch [_ ?]%lookup_delete_Some. eauto.
Qed.

(** The loop succeeds, ends below the limit, and dropped a prefix of the queue
    that was needed: before each drop the limit was exceeded. *)
Lemma prune_loop_spec q m :
  queue_inv q m →
  ∃ k, prune_loop (totalSize m) q m = Ok (drop k q, foldr delete m (take k q)) ∧
    queue_inv (drop k q) (foldr delete m (take k q)) ∧
    totalSize (foldr delete m (take k q)) <= MaxChannelBankSize ∧
    (∀ j, (j < k)%nat → MaxChannelBankSize < totalSize (foldr delete m (take j q))).
Proof.
  revert m; induction q as [|id q IH]; intros m Hq; cbn [prune_loop];
    destruct (Z.ltb_spec MaxChannelBankSize (totalSize m)) as [Hlt|Hge].
  - exfalso. assert (m = ∅) as ->.
    { apply map_empty. intros i. apply eq_None_not_Some. rewrite <- (qi_dom _ _ Hq).
      apply not_elem_of_nil. }
    by vm_compute in Hlt.
  - exists O. simpl. split; [done|]. split; [done|]. split; [lia|]. lia.
  - destruct (proj1 (qi_dom _ _ Hq id) ltac:(set_solver)) as [ch Hch]. rewrite Hch.
    rewrite (totalSize_delete m id ch) by done.
    destruct (IH _ (queue_inv_tail _ _ _ Hq)) as (k & Hp & Hi & Hle & Hmin).
    assert (Hcomm : ∀ (l : list ChannelID) (m : gmap ChannelID Channel),
               foldr delete (delete id m) l = delete id (foldr delete m l)).
    { clear. induction l as [|x l IHl]; intros m; [done|]. simpl.
      by rewrite IHl, delete_delete. }
    exists (S k). cbn [drop take foldr]. rewrite <- Hcomm.
    split; [done|]. split; [done|]. split; [done|].
    intros [|j] Hj; cbn [take foldr]; [done|]. rewrite <- Hcomm. apply Hmin. lia.
  - exists O. simpl. split; [done|]. split; [done|]. split; [lia|]. lia.
Qed.

Lemma ingestFrame_inv origin q m f :
  wf_Frame f → queue_inv q m →
  queue_inv (fst (ingestFrame origin (q, m) f)) (snd (ingestFrame origin (q, m) f)).
Proof.
  intros (_ & Hn & _) Hq.
  assert (Hadd : ∀ q m ch, queue_inv q m → m !! f_ID f = Some ch →
            queue_inv q (<[f_ID f := fst (AddFrame ch f origin)]> m)).
  { clear q m Hq. intros q m ch [Hd Hdom Hc] Hch. split; [done| |].
    - intros id. rewrite Hdom. destruct (decide (f_ID f = id)) as [<-|].
      + rewrite lookup_insert_eq, Hch. by split; eauto.
      + by rewrite lookup_insert_ne.
    - intros id ch' [[<- <-]|[_ ?]]%lookup_insert_Some; [|eauto].
      destruct (Hc _ _ Hch) as [Hid Hci]. split; [|by apply AddFrame_inv].
      destruct (AddFrame ch f origin) as [c [e|]] eqn:E; simpl.
      + by apply AddFrame_error in E as ->.
      + apply AddFrame_ok in E as (-> & _ & _ & -> & _). done. }
  unfold ingestFrame. destruct (m !! f_ID f) as [ch|] eqn:Hch.
  - destruct (timedOut _ _); simpl; [done|]. by apply Hadd.
  - assert (Hnew : queue_inv (q ++ [f_ID f]) (<[f_ID f := NewChannel (f_ID f) origin]> m)).
    { destruct Hq as [Hd Hdom Hc]. split.
      - apply NoDup_app. split; [done|]. split; [|apply NoDup_singleton].
        intros x Hx%Hdom. rewrite list_elem_of_singleton. intros ->. destruct Hx. congruence.
      - intros id. rewrite elem_of_app, list_elem_of_singleton, Hdom.
        destruct (decide (f_ID f = id)) as [<-|].
        + rewrite lookup_insert_eq. naive_solver.
        + rewrite lookup_insert_ne by done. naive_solver.
      - intros id ch [[<- <-]|[_ ?]]%lookup_insert_Some; [|eauto].
        split; [done|]. apply NewChannel_inv. }
    destruct (timedOut _ _); simpl; [done|].
    apply Hadd; [done|]. apply lookup_insert_eq.
Qed.

Lemma fold_ingest_inv origin fs q m :
  Forall wf_Frame fs → queue_inv q m →
  queue_inv (fst (fold_left (ingestFrame origin) fs (q, m)))
            (snd (fold_left (ingestFrame origin) fs (q, m))).
Proof.
  intros Hf. revert q m. induction Hf as [|f fs Hf _ IH]; intros q m Hq; [done|].
  cbn [fold_left]. pose proof (ingestFrame_inv origin q m f Hf Hq) as Hq'.
  destruct (ingestFrame origin (q, m) f) as [q' m']. by apply IH.
Qed.

(** *** Memory accounting *)

Lemma bank_memory_insert_None m id ch :
  m !! id = None →
  bank_memory (<[id := ch]> m) = bank_memory m + inputs_size (ch_inputs ch).
Proof.
  intros Hid. unfold bank_memory. rewrite map_fold_insert_L; [done| |done]. intros. lia.
Qed.

Lemma bank_memory_delete m id ch :
  m !! id = Some ch →
  bank_memory m = bank_memory (delete id m) + inputs_size (ch_inputs ch).
Proof.
  intros Hid. rewrite <- (insert_delete_id m id ch) at 1 by done.
  apply bank_memory_insert_None, lookup_delete_eq.
Qed.

Lemma bank_memory_insert m id ch ch' :
  m !! id = Some ch →
  bank_memory (<[id := ch']> m) =
  bank_memory m - inputs_size (ch_inputs ch) + inputs_size (ch_inputs ch').
Proof.
  intros Hid. rewrite (bank_memory_delete m id ch) by done.
  rewrite <- insert_delete_eq, bank_memory_insert_None by apply lookup_delete_eq. lia.
Qed.

Lemma inputs_size_nonneg m : 0 <= inputs_size m.
Proof.
  unfold inputs_size. apply (map_fold_weak_ind (λ r _, 0 <= r)); [done|].
  intros i d m' r _ Hr. pose proof (len_nonneg d). unfold frameOverhead. lia.
Qed.

Lemma bank_memory_nonneg m : 0 <= bank_memory m.
Proof.
  unfold bank_memory. apply (map_fold_weak_ind (λ r _, 0 <= r)); [done|].
  intros i ch m' r _ Hr. pose proof (inputs_size_nonneg (ch_inputs ch)). lia.
Qed.

(** The [uint64] total the code computes is the memory, reduced modulo 2^64. *)
Lemma totalSize_memory m :
  (∀ id ch, m !! id = Some ch → channel_inv ch) → totalSize m = u64 (bank_memory m).
Proof.
  unfold totalSize, bank_memory. induction m as [|id ch m Hid IH] using map_ind.
  { done. }
  intros Hc. rewrite !map_fold_insert_L; try done.
  - rewrite IH by (intros j ch' Hj; apply (Hc j); rewrite lookup_insert_ne; congruence).
    rewrite (ci_size ch) by (apply (Hc id); apply lookup_insert_eq).
    by rewrite u64_add_idemp_l, u64_add_idemp_r.
  - intros. lia.
  - intros. rewrite !u64_add_idemp_l. f_equal. lia.
Qed.

Lemma bank_memory_foldr_delete (l : list ChannelID) m :
  bank_memory (foldr delete m l) <= bank_memory m.
Proof.
  induction l as [|id l IH]; [done|]. simpl.
  destruct (foldr delete m l !! id) as [ch|] eqn:E.
  - rewrite (bank_memory_delete _ id ch) in IH by done.
    pose proof (inputs_size_nonneg (ch_inputs ch)). lia.
  - by rewrite delete_id.
Qed.

Lemma AddFrame_memory ch f origin :
  inputs_size (ch_inputs (fst (AddFrame ch f origin))) <=
  inputs_size (ch_inputs ch) + (len (f_Data f) + frameOverhead).
Proof.
  pose proof (len_nonneg (f_Data f)). unfold frameOverhead in *.
  destruct (AddFrame ch f origin) as [c [e|]] eqn:E; simpl.
  - apply AddFrame_error in E as ->. lia.
  - apply AddFrame_ok in E as (_ & _ & Hn & _ & _ & -> & _).
    rewrite inputs_size_insert by done. unfold frameOverhead. lia.
Qed.

Lemma ingestFrame_memory origin q m f :
  bank_memory (snd (ingestFrame origin (q, m) f)) <=
  bank_memory m + (len (f_Data f) + frameOverhead).
Proof.
  pose proof (len_nonneg (f_Data f)) as Hl. unfold ingestFrame.
  destruct (m !! f_ID f) as [ch|] eqn:Hch.
  - pose proof (AddFrame_memory ch f origin). unfold frameOverhead in *.
    destruct (timedOut _ _); simpl; [lia|].
    rewrite (bank_memory_insert m _ ch) by done. lia.
  - set (nc := NewChannel (f_ID f) origin).
    pose proof (AddFrame_memory nc f origin) as Ha.
    assert (bank_memory (<[f_ID f := nc]> m) = bank_memory m) as Hm.
    { rewrite bank_memory_insert_None by done. change (inputs_size (ch_inputs nc)) with 0. lia. }
    unfold frameOverhead in *. destruct (timedOut _ _); simpl; [lia|].
    rewrite insert_insert_eq, bank_memory_insert_None by done.
    change (inputs_size (ch_inputs nc)) with 0 in Ha. lia.
Qed.

Lemma fold_ingest_memory origin fs q m :
  bank_memory (snd (fold_left (ingestFrame origin) fs (q, m))) <=
  bank_memory m + foldr (λ f acc, len (f_Data f) + frameOverhead + acc) 0 fs.
Proof.
  revert q m; induction fs as [|f fs IH]; intros q m; cbn [fold_left foldr]; [simpl; lia|].
  pose proof (ingestFrame_memory origin q m f).
  destruct (ingestFrame origin (q, m) f) as [q' m']. specialize (IH q' m'). simpl in *. lia.
Qed.

(** Each frame of an accepted input costs at most ten times its encoded size. *)
Lemma frames_memory fs buf :
  Forall wf_Frame fs → frames_encoding fs buf →
  foldr (λ f acc, len (f_Data f) + frameOverhead + acc) 0 fs <= 10 * len buf.
Proof.
  assert (Hf : ∀ f, wf_Frame f → len (f_Data f) + frameOverhead <= 10 * len (frame_body f)).
  { intros f Hf. rewrite len_frame_body by done. pose proof (len_nonneg (f_Data f)).
    unfold frameOverhead. lia. }
  assert (Hall : ∀ fs r, Forall wf_Frame fs →
    foldr (λ f acc, len (f_Data f) + frameOverhead + acc) r fs <=
    10 * len (concat (frame_bytes <$> fs)) + r).
  { clear fs. induction 1 as [|f fs Hwf _ IH]; [simpl; unfold len; simpl; lia|].
    cbn [foldr fmap list_fmap concat]. specialize (Hf f Hwf).
    unfold frame_bytes at 1. unfold len in *. rewrite !length_app. lia. }
  intros Hwf [->|(fs' & f & -> & _ & ->)].
  - specialize (Hall fs 0 Hwf). lia.
  - apply Forall_app in Hwf as [Hwf' Hwff].
    apply (proj1 (Forall_singleton _ _)) in Hwff. rewrite foldr_app. cbn [foldr].
    specialize (Hall fs' (len (f_Data f) + frameOverhead + 0) Hwf'). specialize (Hf f Hwff).
    unfold len in *. rewrite length_app. lia.
Qed.

Lemma prune_spec cb :
  bank_inv cb →
  ∃ k, prune cb = Ok (mkChannelBank (foldr delete (cb_channels cb) (take k (cb_channelQueue cb)))
                        (drop k (cb_channelQueue cb)) (cb_prev cb)) ∧
    queue_inv (drop k (cb_channelQueue cb))
      (foldr delete (cb_channels cb) (take k (cb_channelQueue cb))) ∧
    totalSize (foldr delete (cb_channels cb) (take k (cb_channelQueue cb)))
      <= MaxChannelBankSize.
Proof.
  intros Hi. destruct (prune_loop_spec _ _ Hi) as (k & Hp & Hq & Hs & _).
  exists k. unfold prune. by rewrite Hp.
Qed.

(** [IngestData] cannot panic on an invariant state, keeps the invariant and does
    not touch the previous stage. *)
Lemma IngestData_inv cb data :
  bank_inv cb →
  ∃ cb', IngestData cb data = Ok cb' ∧ bank_inv cb' ∧ cb_prev cb' = cb_prev cb.
Proof.
  intros Hi. unfold IngestData. destruct (prune_spec cb Hi) as (k & -> & Hq & _).
  cbn [mbind result_bind].
  destruct (ParseFrames data) as [fs|e|s] eqn:E.
  - apply ParseFrames_inv in E as (_ & Hwf & _). cbn [cb_channelQueue cb_channels].
    pose proof (fold_ingest_inv (ChannelBank_Origin cb) fs _ _ Hwf Hq) as Hf.
    destruct (fold_left _ fs _) as [q m]. eauto.
  - eauto.
  - by apply ParseFrames_no_panic in E.
Qed.

Lemma Read_inv cb :
  bank_inv cb → bank_inv (fst (Read cb)) ∧ cb_prev (fst (Read cb)) = cb_prev cb ∧
  ∀ s, snd (Read cb) ≠ Panic s.
Proof.
  intros Hi. unfold Read. destruct (cb_channelQueue cb) as [|first rest] eqn:Eq; [done|].
  unfold bank_inv in *. rewrite Eq in Hi.
  destruct (proj1 (qi_dom _ _ Hi first) ltac:(set_solver)) as [ch Hch]. rewrite Hch.
  pose proof (queue_inv_tail _ _ _ Hi) as Ht.
  destruct (timedOut ch _); [done|]. destruct (IsReady ch) eqn:Er; simpl.
  - split; [done|]. split; [done|]. intros s. destruct (qi_chan _ _ Hi _ _ Hch) as [_ Hci].
    rewrite complete_Reader; [done|done|]. by apply IsReady_complete.
  - rewrite Eq. done.
Qed.

Lemma loadData_inv cb :
  bank_inv cb →
  bank_inv (fst (loadData cb)) ∧
  (∀ s, snd (loadData cb) = Panic s → snd (NextData (cb_prev cb)) = Panic s).
Proof.
  intros Hi. unfold loadData. destruct (NextData (cb_prev cb)) as [prev r].
  set (cb2 := mkChannelBank _ _ prev). assert (Hi2 : bank_inv cb2) by done.
  destruct r as [data|e'|s']; simpl; [|done|naive_solver].
  destruct (IngestData_inv cb2 data Hi2) as (cb3 & -> & Hi3 & _). done.
Qed.

Lemma loadData_no_data cb data : snd (loadData cb) ≠ Ok data.
Proof.
  unfold loadData. destruct (NextData (cb_prev cb)) as [prev [d|e|s]]; try done.
  by match goal with |- context [IngestData ?c ?d] => destruct (IngestData c d) end.
Qed.

(** ** Properties *)

Lemma ChannelBank_NextData_inv cb :
  bank_inv cb → bank_inv (fst (ChannelBank_NextData cb)).
Proof.
  intros Hi. unfold ChannelBank_NextData.
  destruct (Read_inv cb Hi) as (Hi' & _). destruct (Read cb) as [cb1 [data|e|s]]; try done.
  case_bool_decide; simpl; [by apply loadData_inv | done].
Qed.

(** C3. Safety of the stage, for every previous stage: from a state that
    satisfies the invariant (queue and map agree, no duplicates, channels are
    well formed) one call of [NextData] re-establishes the invariant, and it
    panics only if pulling from the previous stage panicked; in particular the
    queue's and map's unguarded accesses in [prune] and [Read] never fail. *)
Theorem ChannelBank_NextData_safe (cb : ChannelBank P) :
  bank_inv cb →
  bank_inv (fst (ChannelBank_NextData cb)) ∧
  (∀ s, snd (ChannelBank_NextData cb) = Panic s → snd (NextData (cb_prev cb)) = Panic s).
Proof.
  intros Hi. split; [by apply ChannelBank_NextData_inv|]. unfold ChannelBank_NextData.
  destruct (Read_inv cb Hi) as (Hi' & Hp & Hnp). destruct (Read cb) as [cb1 [data|e|s]];
    [done| |by destruct (Hnp s)].
  case_bool_decide; simpl in *; [|done]. rewrite <- Hp. by apply loadData_inv.
Qed.

(** C4. Memory bound: after [IngestData] the bank holds at most
    MaxChannelBankSize plus ten bytes per byte just ingested, whatever was
    buffered before (as long as it could be counted in 64 bits). *)
Theorem IngestData_memory (cb : ChannelBank P) (data : bytes) :
  bank_inv cb → bank_memory (cb_channels cb) < 2 ^ 64 →
  ∃ cb', IngestData cb data = Ok cb' ∧
    bank_memory (cb_channels cb') <= MaxChannelBankSize + 10 * len data.
Proof.
  intros Hi Hm. unfold IngestData. destruct (prune_spec cb Hi) as (k & -> & Hq & Hs).
  cbn [mbind result_bind cb_channelQueue cb_channels].
  set (m := foldr delete _ _) in *. set (q := drop k _) in *.
  rewrite totalSize_memory in Hs by (intros id ch Hc; by apply (qi_chan _ _ Hq) in Hc as []).
  pose proof (bank_memory_nonneg m). pose proof (len_nonneg data).
  pose proof (bank_memory_foldr_delete (take k (cb_channelQueue cb)) (cb_channels cb)).
  fold m in H2. rewrite u64_small in Hs by (unfold is_u64; lia).
  destruct (ParseFrames data) as [fs|e|s] eqn:E.
  - apply ParseFrames_inv in E as (_ & Hwf & buf & -> & Henc).
    pose proof (fold_ingest_memory (ChannelBank_Origin cb) fs q m) as Hf.
    pose proof (frames_memory fs buf Hwf Henc) as Hfm.
    destruct (fold_left _ fs _) as [q' m']. eexists. split; [done|]. simpl in *.
    unfold len in *. cbn [length]. lia.
  - eexists. split; [done|]. simpl. lia.
  - by apply ParseFrames_no_panic in E.
Qed.

(** First in, first out, and nothing else: [NextData] returns data exactly
    when the oldest channel is complete and not timed out, the data is that
    channel's frames in order, and the only change is that this channel is
    removed; a channel that is ready but not the oldest is never emitted. *)
Theorem ChannelBank_NextData_emits (cb : ChannelBank P) (data : bytes) :
  bank_inv cb →
  snd (ChannelBank_NextData cb) = Ok data ↔
  ∃ first rest ch, cb_channelQueue cb = first :: rest ∧
    cb_channels cb !! first = Some ch ∧ complete ch ∧
    timedOut ch (ChannelBank_Origin cb) = false ∧
    data = concat (omap (λ i, ch_inputs ch !! i) (frame_range ch)) ∧
    fst (ChannelBank_NextData cb) =
      mkChannelBank (delete first (cb_channels cb)) rest (cb_prev cb).
Proof.
  intros Hi. unfold ChannelBank_NextData, Read, bank_inv in *.
  destruct (cb_channelQueue cb) as [|first rest] eqn:Eq.
  { simpl. split; [by intros ?%loadData_no_data | naive_solver]. }
  destruct (proj1 (qi_dom _ _ Hi first) ltac:(set_solver)) as [ch Hch]. rewrite Hch.
  destruct (qi_chan _ _ Hi _ _ Hch) as [_ Hci].
  destruct (timedOut ch _) eqn:Eto; [|destruct (IsReady ch) eqn:Er].
  - split; [by intros ?%loadData_no_data | naive_solver congruence].
  - apply IsReady_complete in Er; [|done]. simpl. rewrite complete_Reader by done.
    split.
    + intros Hd. simplify_eq/=. by exists first, rest, ch.
    + intros (? & ? & ? & ? & ? & ? & ? & -> & _). by simplify_eq.
  - split; [by intros ?%loadData_no_data|].
    intros (? & ? & ? & ? & ? & Hc & _). simplify_eq.
    apply IsReady_complete in Hc; [congruence|done].
Qed.
End ChannelBank.

(** ** A concrete previous stage: a list of results to hand out *)

Record ListProvider := mkListProvider { lp_items : list (result bytes); lp_origin : L1BlockRef }.

#[export] Instance list_provider : NextDataProvider ListProvider := {
  NextData lp := match lp_items lp with
                 | [] => (lp, Err io_EOF)
                 | x :: items => (mkListProvider items (lp_origin lp), x)
                 end;
  Origin := lp_origin }.

Definition example_frame (n : Z) (d : bytes) (last : bool) : Frame :=
  mkFrame (zeros 16) n d last.

Definition example_bank (items : list (result bytes)) : ChannelBank ListProvider :=
  NewChannelBank (mkListProvider items L1BlockRef_zero).

(** A bank that has ingested a complete channel. *)
Definition loaded_bank : ChannelBank ListProvider :=
  fst (ChannelBank_NextData example_cfg
         (example_bank [Ok (x00 :: frame_bytes (example_frame 0 [x05] true))])).

Lemma NewChannelBank_inv {P} `{NextDataProvider P} (p : P) : bank_inv (NewChannelBank p).
Proof.
  split; simpl; [constructor| |done].
  intros id. rewrite lookup_empty. split; [by intros ?%elem_of_nil | by intros []].
Qed.

Lemma ChannelBank_NextData_safe_witness : bank_inv loaded_bank.
Proof. apply ChannelBank_NextData_safe, NewChannelBank_inv. Defined.

Lemma IngestData_memory_witness :
  ∃ cb', IngestData example_cfg loaded_bank [x00] = Ok cb' ∧
    bank_memory (cb_channels cb') <= MaxChannelBankSize + 10.
Proof.
  apply (IngestData_memory example_cfg loaded_bank [x00]);
    [apply ChannelBank_NextData_inv, NewChannelBank_inv | by vm_compute].
Defined.

Lemma ChannelBank_NextData_emits_witness :
  snd (ChannelBank_NextData example_cfg loaded_bank) = Ok [x05].
Proof.
  apply (ChannelBank_NextData_emits example_cfg loaded_bank [x05]);
    [apply ChannelBank_NextData_inv, NewChannelBank_inv |].
  exists (zeros 16), [], (fst (AddFrame (NewChannel (zeros 16) L1BlockRef_zero)
                             (example_frame 0 [x05] true) L1BlockRef_zero)).
  repeat (split; [vm_compute; reflexivity|]). split; [|vm_compute; done].
  apply IsReady_complete; [|vm_compute; reflexivity].
  apply AddFrame_inv; [by vm_compute | apply NewChannel_inv].
Defined.
