(* ===== verification/Extern.v ===== *)
(** * External libraries the derivation code calls

    Code outside the repository is a parameter: the Keccak-256 hash of
    go-ethereum's crypto package and the EIP-2718 transaction codec of op-geth.
    Each class states the documented behaviour the theorems rely on; the
    instances at the end are simple functions with that behaviour, used to
    evaluate the model on concrete inputs. *)

From S2P Require Import Prelude GoErrors EthTypes.

(** [crypto.Keccak256Hash]: a 32-byte digest. *)
Class Keccak := {
  Keccak256 : bytes → Hash;
  Keccak256_length : ∀ b, length (Keccak256 b) = HashLength }.

(** [types.NewTx(dep).MarshalBinary()] and [Transaction.UnmarshalBinary]: a
    deposit is encoded behind its type byte, and decoding an encoded deposit
    gives a transaction of that type with the deposit's calldata. *)
Class TxCodec := {
  MarshalDepositTx : DepositTx → result bytes;
  UnmarshalTx : bytes → result Transaction;
  MarshalDepositTx_type : ∀ dep b,
    MarshalDepositTx dep = Ok b → ∃ rest, b = DepositTxType :: rest;
  MarshalDepositTx_no_panic : ∀ dep s, MarshalDepositTx dep ≠ Panic s;
  UnmarshalTx_no_panic : ∀ b s, UnmarshalTx b ≠ Panic s;
  Unmarshal_MarshalDepositTx : ∀ dep b,
    MarshalDepositTx dep = Ok b →
    ∃ tx, UnmarshalTx b = Ok tx ∧ tx_Type tx = byte_val DepositTxType ∧
          tx_Data tx = dep_Data dep }.

(** ** Concrete instances *)

(** A digest for examples: the input as a number, cut to 32 bytes. *)
#[local] Instance example_keccak : Keccak := {
  Keccak256 b := be_encode 32 (be_decode b);
  Keccak256_length b := length_be_encode 32 (be_decode b) }.

(** A codec for examples: the type byte and the calldata. *)
Definition example_tx (d : bytes) : Transaction :=
  mkTransaction (byte_val DepositTxType) None d (Ok (DepositTxType :: d))
    (λ _, Err (ErrorNew "deposits have no signature")).

Definition example_unmarshal (b : bytes) : result Transaction :=
  match b with
  | [] => Err (ErrorNew "empty typed transaction bytes")
  | t :: d => if bool_decide (t = DepositTxType) then Ok (example_tx d)
              else Err (ErrorNew "transaction type not supported")
  end.

#[local] Program Instance example_codec : TxCodec := {
  MarshalDepositTx dep := Ok (DepositTxType :: dep_Data dep);
  UnmarshalTx := example_unmarshal }.
Next Obligation. intros dep b [= <-]. eauto. Qed.
Next Obligation. done. Qed.
Next Obligation. intros [|t d] s; simpl; [done|]. by case_bool_decide. Qed.
Next Obligation. intros dep b [= <-]. eexists. split; [done|]. done. Qed.
