(* ===== verification/L1Info.v ===== *)
(** * L1 attributes and deposit sources

    op-node/rollup/derive/l1_block_info.go (the calldata of the L1 attributes
    deposit and its decoding) and deposit_source.go (the source hashes that make
    deposits unique). *)

From S2P Require Import Prelude GoErrors EthTypes Extern.

(** ** Byte arrays written in place *)

(** [copy(data[off:], src)] and [PutUint64(data[off:off+8], v)], in range. *)
Definition put (off : nat) (src data : bytes) : bytes :=
  take off data ++ src ++ drop (off + length src) data.

(** [x.FillBytes(buf)] with a buffer of [n] bytes: big-endian absolute value;
    panics on a nil pointer or when the value does not fit. *)
Definition FillBytes (n : nat) (x : option Z) : result bytes :=
  match x with
  | None => Panic "nil pointer dereference"
  | Some z => if Z.abs z <? 256 ^ Z.of_nat n then Ok (be_encode n (Z.abs z))
              else Panic "math/big: buffer too small to fit value"
  end.

(** ** Deposit sources (deposit_source.go) *)

Definition UserDepositSourceDomain : Z := 0.
Definition L1InfoDepositSourceDomain : Z := 1.

Record UserDepositSource := mkUserDepositSource {
  uds_L1BlockHash : Hash; uds_LogIndex : Z }.
Record L1InfoDepositSource := mkL1InfoDepositSource {
  lds_L1BlockHash : Hash; lds_SeqNumber : Z }.

(** ** L1 block info (l1_block_info.go) *)

Definition L1InfoFuncSignature : string :=
  "setL1BlockValues(uint64,uint64,uint256,bytes32,uint64)".
Definition L1InfoDepositerAddress : Address :=
  be_encode 20 0xdeaddeaddeaddeaddeaddeaddeaddeaddead0001.
Definition L1BlockAddress : Address :=
  be_encode 20 0x4200000000000000000000000000000000000015.

Record L1BlockInfo := mkL1BlockInfo {
  li_Number : Z; li_Time : Z; li_BaseFee : option Z; li_BlockHash : Hash;
  li_SequenceNumber : Z }.

Definition L1BlockInfo_zero : L1BlockInfo := mkL1BlockInfo 0 0 None zero_hash 0.
Definition L1InfoLen : nat := 4 + 32 + 32 + 32 + 32 + 32.

Section L1Info.
Context `{Keccak}.

Definition UserDepositSource_SourceHash (dep : UserDepositSource) : Hash :=
  let input := zeros (32 * 2) in
  let input := put 0 (uds_L1BlockHash dep) input in
  let input := put (32 * 2 - 8) (be_encode 8 (uds_LogIndex dep)) input in
  let depositIDHash := Keccak256 input in
  let domainInput := zeros (32 * 2) in
  let domainInput := put (32 - 8) (be_encode 8 UserDepositSourceDomain) domainInput in
  let domainInput := put 32 depositIDHash domainInput in
  Keccak256 domainInput.

Definition L1InfoDepositSource_SourceHash (dep : L1InfoDepositSource) : Hash :=
  let input := zeros (32 * 2) in
  let input := put 0 (lds_L1BlockHash dep) input in
  let input := put (32 * 2 - 8) (be_encode 8 (lds_SeqNumber dep)) input in
  let depositIDHash := Keccak256 input in
  let domainInput := zeros (32 * 2) in
  let domainInput := put (32 - 8) (be_encode 8 L1InfoDepositSourceDomain) domainInput in
  let domainInput := put 32 depositIDHash domainInput in
  Keccak256 domainInput.

Definition L1InfoFuncBytes4 : bytes :=
  take 4 (Keccak256 (String.list_byte_of_string L1InfoFuncSignature)).

Definition L1BlockInfo_MarshalBinary (info : L1BlockInfo) : result bytes :=
  let data := zeros L1InfoLen in
  let offset := 0%nat in
  let data := put offset L1InfoFuncBytes4 data in
  let offset := (offset + 4)%nat in
  let data := put (offset + 24) (be_encode 8 (li_Number info)) data in
  let offset := (offset + 32)%nat in
  let data := put (offset + 24) (be_encode 8 (li_Time info)) data in
  let offset := (offset + 32)%nat in
  fee ← FillBytes 32 (li_BaseFee info);
  let data := put offset fee data in
  let offset := (offset + 32)%nat in
  let data := put offset (li_BlockHash info) data in
  let offset := (offset + 32)%nat in
  let data := put (offset + 24) (be_encode 8 (li_SequenceNumber info)) data in
  Ok data.

(** The receiver is updated field by field, also when a later check fails. *)
Definition L1BlockInfo_UnmarshalBinary (info : L1BlockInfo) (data : bytes)
  : L1BlockInfo * option error :=
  if negb (length data =? L1InfoLen)%nat then
    (info, Some (ErrorNew "data is unexpected length")) else
  let padding := zeros 24 in
  let offset := 4%nat in
  let info := mkL1BlockInfo (be_decode (slice (offset + 24) (offset + 32) data))
                (li_Time info) (li_BaseFee info) (li_BlockHash info)
                (li_SequenceNumber info) in
  if negb (bool_decide (slice offset (offset + 24) data = padding)) then
    (info, Some (ErrorNew "l1 info number exceeds uint64 bounds")) else
  let offset := (offset + 32)%nat in
  let info := mkL1BlockInfo (li_Number info)
                (be_decode (slice (offset + 24) (offset + 32) data))
                (li_BaseFee info) (li_BlockHash info) (li_SequenceNumber info) in
  if negb (bool_decide (slice offset (offset + 24) data = padding)) then
    (info, Some (ErrorNew "l1 info time exceeds uint64 bounds")) else
  let offset := (offset + 32)%nat in
  let info := mkL1BlockInfo (li_Number info) (li_Time info)
                (Some (be_decode (slice offset (offset + 32) data)))
                (li_BlockHash info) (li_SequenceNumber info) in
  let offset := (offset + 32)%nat in
  let info := mkL1BlockInfo (li_Number info) (li_Time info) (li_BaseFee info)
                (slice offset (offset + 32) data) (li_SequenceNumber info) in
  let offset := (offset + 32)%nat in
  let info := mkL1BlockInfo (li_Number info) (li_Time info) (li_BaseFee info)
                (li_BlockHash info)
                (be_decode (slice (offset + 24) (offset + 32) data)) in
  if negb (bool_decide (slice offset (offset + 24) data = padding)) then
    (info, Some (ErrorNew "l1 info sequence number exceeds uint64 bounds")) else
  (info, None).

Definition L1InfoDepositTxData (data : bytes) : result L1BlockInfo :=
  let '(info, err) := L1BlockInfo_UnmarshalBinary L1BlockInfo_zero data in
  match err with Some e => Err e | None => Ok info end.

Definition L1InfoDeposit (seqNumber : Z) (block : BlockInfo) : result DepositTx :=
  let infoDat := mkL1BlockInfo (bi_NumberU64 block) (bi_Time block) (bi_BaseFee block)
                   (bi_Hash block) seqNumber in
  data ← L1BlockInfo_MarshalBinary infoDat;
  let source := mkL1InfoDepositSource (bi_Hash block) seqNumber in
  Ok (mkDepositTx (L1InfoDepositSource_SourceHash source) L1InfoDepositerAddress
        (Some L1BlockAddress) None 0 150000000 true data).

Definition L1InfoDepositBytes `{TxCodec} (seqNumber : Z) (l1Info : BlockInfo) : result bytes :=
  dep ← map_err (Errorf "failed to create L1 info tx") (L1InfoDeposit seqNumber l1Info);
  map_err (Errorf "failed to encode L1 info tx") (MarshalDepositTx dep).

(** ** Specification *)

Definition wf_L1BlockInfo (info : L1BlockInfo) : Prop :=
  is_u64 (li_Number info) ∧ is_u64 (li_Time info) ∧ is_u64 (li_SequenceNumber info) ∧
  length (li_BlockHash info) = 32%nat ∧
  ∃ fee, li_BaseFee info = Some fee ∧ 0 <= fee < 2 ^ 256.

(** The ABI encoding of the call: selector and five 32-byte words. *)
Definition l1info_words (sel : bytes) (number time fee : Z) (hash : Hash) (seq : Z) : bytes :=
  sel ++ be_encode 32 number ++ be_encode 32 time ++ be_encode 32 fee ++ hash ++
  be_encode 32 seq.

(** ** Lemmas *)

(** Writing into the zeroed tail of a buffer. *)
Lemma put_zeros off k r m a src :
  off = (length a + k)%nat → m = (k + length src + r)%nat →
  put off src (a ++ zeros m) = (a ++ zeros k ++ src) ++ zeros r.
Proof.
  intros -> ->. unfold put, zeros.
  rewrite take_app_add, <- (Nat.add_assoc (length a)), drop_app_add, drop_replicate,
    take_replicate.
  rewrite <- !app_assoc, Nat.min_l by lia. do 4 f_equal. lia.
Qed.

Lemma FillBytes_ok n z : 0 <= z < 256 ^ Z.of_nat n → FillBytes n (Some z) = Ok (be_encode n z).
Proof.
  intros Hz. unfold FillBytes. rewrite Z.abs_eq by lia.
  by rewrite (proj2 (Z.ltb_lt z (256 ^ Z.of_nat n))) by lia.
Qed.

Lemma be_encode_word z : is_u64 z → be_encode 32 z = zeros 24 ++ be_encode 8 z.
Proof. intros Hz. by apply (be_encode_pad 24 8). Qed.

Lemma length_L1InfoFuncBytes4 : length L1InfoFuncBytes4 = 4%nat.
Proof.
  unfold L1InfoFuncBytes4. rewrite length_take, Keccak256_length. done.
Qed.

Lemma MarshalBinary_words info :
  wf_L1BlockInfo info →
  L1BlockInfo_MarshalBinary info =
    Ok (l1info_words L1InfoFuncBytes4 (li_Number info) (li_Time info)
          (default 0 (li_BaseFee info)) (li_BlockHash info) (li_SequenceNumber info)).
Proof.
  intros (Hn & Ht & Hs & Hh & fee & Hfee & Hf). unfold L1BlockInfo_MarshalBinary.
  pose proof length_L1InfoFuncBytes4 as Hsel.
  rewrite Hfee, FillBytes_ok by done. cbn [mbind result_bind default Nat.add].
  rewrite <- (app_nil_l (zeros L1InfoLen)).
  rewrite (put_zeros _ 0 160) by (rewrite ?Hsel; done).
  rewrite (put_zeros _ 24 128) by (rewrite ?length_app, ?Hsel, ?length_be_encode; done).
  rewrite (put_zeros _ 24 96)
    by (unfold zeros; rewrite ?length_app, ?length_replicate, ?Hsel, ?length_be_encode; done).
  rewrite (put_zeros _ 0 64)
    by (unfold zeros; rewrite ?length_app, ?length_replicate, ?Hsel, ?length_be_encode; done).
  rewrite (put_zeros _ 0 32)
    by (unfold zeros; rewrite ?length_app, ?length_replicate, ?Hsel, ?length_be_encode, ?Hh; done).
  rewrite (put_zeros _ 24 0)
    by (unfold zeros; rewrite ?length_app, ?length_replicate, ?Hsel, ?length_be_encode, ?Hh; done).
  unfold l1info_words. rewrite (be_encode_word (li_Number info)), (be_encode_word (li_Time info)),
    (be_encode_word (li_SequenceNumber info)) by done.
  cbn [zeros replicate]. rewrite <- !app_assoc. by rewrite app_nil_r.
Qed.

(** Decoding the ABI words of a call with any selector. *)
Lemma UnmarshalBinary_words sel info :
  length sel = 4%nat → wf_L1BlockInfo info →
  L1InfoDepositTxData (l1info_words sel (li_Number info) (li_Time info)
          (default 0 (li_BaseFee info)) (li_BlockHash info) (li_SequenceNumber info)) = Ok info.
Proof.
  intros Hsel (Hn & Ht & Hs & Hh & fee & Hfee & Hf). rewrite Hfee.
  change (default 0 (Some fee)) with fee.
  unfold L1InfoDepositTxData, L1BlockInfo_UnmarshalBinary, l1info_words.
  rewrite (be_encode_word (li_Number info)), (be_encode_word (li_Time info)),
    (be_encode_word (li_SequenceNumber info)) by done.
  set (n8 := be_encode 8 (li_Number info)). set (t8 := be_encode 8 (li_Time info)).
  set (f32 := be_encode 32 fee). set (s8 := be_encode 8 (li_SequenceNumber info)).
  assert (Hl : length n8 = 8%nat ∧ length t8 = 8%nat ∧ length f32 = 32%nat ∧ length s8 = 8%nat)
    by (subst n8 t8 f32 s8; by rewrite !length_be_encode).
  destruct Hl as (L1 & L2 & L3 & L4).
  assert (Hz : length (zeros 24) = 24%nat) by done.
  rewrite !length_app, L1, L2, L3, L4, Hsel, Hh, Hz.
  change ((_ =? L1InfoLen)%nat) with true. cbn [negb li_Number li_Time li_BaseFee
    li_BlockHash li_SequenceNumber Nat.add].
  repeat first
    [ rewrite slice_app_r by (rewrite ?length_app, ?L1, ?L2, ?L3, ?L4, ?Hsel, ?Hh, ?Hz; lia)
    | rewrite slice_app_l by (rewrite ?length_app, ?L1, ?L2, ?L3, ?L4, ?Hsel, ?Hh, ?Hz; lia) ].
  rewrite ?length_app, ?L1, ?L2, ?L3, ?L4, ?Hsel, ?Hh, ?Hz. cbn [Nat.sub Nat.add].
  rewrite !slice_full by (rewrite ?L1, ?L2, ?L3, ?L4, ?Hsel, ?Hh, ?Hz; done).
  rewrite !bool_decide_eq_true_2 by done. cbn [negb]. subst n8 t8 f32 s8.
  rewrite !be_decode_encode_small by done. rewrite <- Hfee. by destruct info.
Qed.

(** A padded 8-byte field, read back as a 32-byte word. *)
Lemma padded_word a data :
  (a + 32 ≤ length data)%nat → slice a (a + 24) data = zeros 24 →
  is_u64 (be_decode (slice (a + 24) (a + 32) data)) ∧
  be_encode 32 (be_decode (slice (a + 24) (a + 32) data)) = slice a (a + 32) data.
Proof.
  intros Hlen Hpad.
  assert (Hl : length (slice (a + 24) (a + 32) data) = 8%nat) by (rewrite length_slice; lia).
  pose proof (be_decode_bound (slice (a + 24) (a + 32) data)) as Hb. rewrite Hl in Hb.
  split; [exact Hb|]. rewrite be_encode_word by exact Hb.
  rewrite be_encode_decode_len by done.
  rewrite (slice_split a (a + 24) (a + 32)) by lia. by rewrite Hpad.
Qed.

Lemma l1info_split (data : bytes) :
  length data = L1InfoLen →
  data = slice 0 4 data ++ slice 4 36 data ++ slice 36 68 data ++ slice 68 100 data ++
         slice 100 132 data ++ slice 132 164 data.
Proof.
  intros Hl. rewrite <- (slice_full data 164) at 1 by (by rewrite Hl).
  rewrite (slice_split 0 4 164), (slice_split 4 36 164), (slice_split 36 68 164),
    (slice_split 68 100 164), (slice_split 100 132 164) by lia. done.
Qed.

Lemma L1InfoDepositTxData_inv data info :
  L1InfoDepositTxData data = Ok info →
  wf_L1BlockInfo info ∧
  ∃ sel, length sel = 4%nat ∧
    data = l1info_words sel (li_Number info) (li_Time info)
             (default 0 (li_BaseFee info)) (li_BlockHash info) (li_SequenceNumber info).
Proof.
  unfold L1InfoDepositTxData, L1BlockInfo_UnmarshalBinary.
  destruct (Nat.eqb_spec (length data) L1InfoLen) as [Hl|]; [|done]. cbn [negb].
  case_bool_decide as P1; cbn [negb]; [|done].
  case_bool_decide as P2; cbn [negb]; [|done].
  case_bool_decide as P3; cbn [negb]; [|done]. intros H0. injection H0 as <-.
  cbn [li_Number li_Time li_BaseFee li_BlockHash li_SequenceNumber Nat.add] in *.
  assert (Hbig : length data = 164%nat) by done.
  destruct (padded_word 4 data ltac:(lia) P1) as [U1 W1].
  destruct (padded_word 36 data ltac:(lia) P2) as [U2 W2].
  destruct (padded_word 132 data ltac:(lia) P3) as [U3 W3].
  assert (Hf : length (slice 68 100 data) = 32%nat) by (rewrite length_slice; lia).
  pose proof (be_decode_bound (slice 68 100 data)) as Hb. rewrite Hf in Hb.
  split.
  - split; [done|]. split; [done|]. split; [done|]. split; [cbn [li_BlockHash]; rewrite length_slice; lia|].
    eexists. split; [done|]. exact Hb.
  - exists (slice 0 4 data). split; [rewrite length_slice; lia|].
    unfold l1info_words. cbn [Nat.add] in W1, W2, W3. rewrite W1, W2, W3.
    cbn [default from_option id].
    rewrite be_encode_decode_len by done. by apply l1info_split.
Qed.

(** ** Properties *)

Lemma L1InfoDeposit_decodes (seqNumber : Z) (block : BlockInfo) (fee : Z) :
  is_u64 (bi_NumberU64 block) → is_u64 (bi_Time block) → is_u64 seqNumber →
  length (bi_Hash block) = HashLength → bi_BaseFee block = Some fee → 0 <= fee < 2 ^ 256 →
  ∃ dep, L1InfoDeposit seqNumber block = Ok dep ∧
    L1InfoDepositTxData (dep_Data dep) =
      Ok (mkL1BlockInfo (bi_NumberU64 block) (bi_Time block) (Some fee) (bi_Hash block)
            seqNumber).
Proof.
  intros Hn Ht Hs Hh Hfee Hf. unfold L1InfoDeposit.
  set (info := mkL1BlockInfo _ _ _ _ _).
  assert (Hwf : wf_L1BlockInfo info) by (unfold wf_L1BlockInfo; split_and!; [done..|by exists fee]).
  rewrite MarshalBinary_words by done. eexists. split; [done|]. cbn [dep_Data].
  rewrite UnmarshalBinary_words; [|apply length_L1InfoFuncBytes4|done].
  subst info. by rewrite Hfee.
Qed.

(** Round trip of the L1 attributes: decoding the calldata of the L1
    attributes deposit created for an L1 block and sequence number gives back
    that block's number, time, base fee and hash and the sequence number. *)
Theorem L1InfoDeposit_roundtrip (seqNumber : Z) (block : BlockInfo) (fee : Z) :
  is_u64 (bi_NumberU64 block) → is_u64 (bi_Time block) → is_u64 seqNumber →
  length (bi_Hash block) = HashLength → bi_BaseFee block = Some fee → 0 <= fee < 2 ^ 256 →
  ∃ dep, L1InfoDeposit seqNumber block = Ok dep ∧
    L1InfoDepositTxData (dep_Data dep) =
      Ok (mkL1BlockInfo (bi_NumberU64 block) (bi_Time block) (Some fee) (bi_Hash block)
            seqNumber).
Proof. apply L1InfoDeposit_decodes. Qed.

(** [L1InfoDepositTxData] accepts exactly the ABI words of a call: it
    returns [info] if and only if every number of [info] is in the range of its
    Go type and the data is some four selector bytes (they are not compared)
    followed by the five 32-byte words of [info]. *)
Theorem L1InfoDepositTxData_spec (data : bytes) (info : L1BlockInfo) :
  L1InfoDepositTxData data = Ok info ↔
  wf_L1BlockInfo info ∧
  ∃ sel, length sel = 4%nat ∧
    data = l1info_words sel (li_Number info) (li_Time info)
             (default 0 (li_BaseFee info)) (li_BlockHash info) (li_SequenceNumber info).
Proof.
  split; [apply L1InfoDepositTxData_inv|].
  intros (Hwf & sel & Hsel & ->). by apply UnmarshalBinary_words.
Qed.

(** The 64-byte preimages of the two kinds of source hashes. *)
Definition source_preimage (domain : Z) (inner : Hash) : bytes :=
  be_encode 32 domain ++ inner.
Definition id_preimage (hash : Hash) (index : Z) : bytes := hash ++ be_encode 32 index.

Lemma put_word32 hash index :
  length hash = 32%nat → is_u64 index →
  put (32 * 2 - 8) (be_encode 8 index) (put 0 hash (zeros (32 * 2))) = id_preimage hash index.
Proof.
  intros Hh Hi. unfold id_preimage. rewrite <- (app_nil_l (zeros (32 * 2))).
  rewrite (put_zeros _ 0 32) by (rewrite ?Hh; done).
  rewrite (put_zeros _ 24 0) by (rewrite ?length_app, ?Hh, ?length_be_encode; done).
  rewrite be_encode_word by done. cbn [zeros replicate]. rewrite <- !app_assoc.
  by rewrite app_nil_r.
Qed.

Lemma put_domain domain inner :
  length inner = 32%nat → is_u64 domain →
  put 32 inner (put (32 - 8) (be_encode 8 domain) (zeros (32 * 2))) =
  source_preimage domain inner.
Proof.
  intros Hh Hi. unfold source_preimage. rewrite <- (app_nil_l (zeros (32 * 2))).
  rewrite (put_zeros _ 24 32) by (rewrite ?length_be_encode; done).
  rewrite (put_zeros _ 0 0)
    by (unfold zeros; rewrite ?length_app, ?length_replicate, ?Hh, ?length_be_encode; done).
  rewrite be_encode_word by done. cbn [zeros replicate]. rewrite <- !app_assoc.
  by rewrite app_nil_r.
Qed.

Definition collision : Prop := ∃ x y, x ≠ y ∧ Keccak256 x = Keccak256 y.

Lemma preimage_inj d d' i i' :
  is_u64 d → is_u64 d' →
  Keccak256 (source_preimage d i) = Keccak256 (source_preimage d' i') →
  (d = d' ∧ i = i') ∨ collision.
Proof.
  intros Hd Hd' Hk.
  destruct (decide (source_preimage d i = source_preimage d' i')) as [Heq|Hne].
  - left. apply app_inj_1 in Heq as [H1 H2]; [|by rewrite !length_be_encode].
    split; [|done]. apply (f_equal be_decode) in H1.
    unfold is_u64 in *. change (2 ^ 64) with (256 ^ Z.of_nat 8) in *.
    assert (256 ^ Z.of_nat 8 <= 256 ^ Z.of_nat 32) by (apply Z.pow_le_mono_r; lia).
    rewrite !be_decode_encode_small in H1 by lia. done.
  - right. by exists (source_preimage d i), (source_preimage d' i').
Qed.

Lemma id_preimage_inj h h' i i' :
  length h = length h' → is_u64 i → is_u64 i' →
  Keccak256 (id_preimage h i) = Keccak256 (id_preimage h' i') →
  (h = h' ∧ i = i') ∨ collision.
Proof.
  intros Hl Hi Hi' Hk.
  destruct (decide (id_preimage h i = id_preimage h' i')) as [Heq|Hne].
  - left. apply app_inj_1 in Heq as [H1 H2]; [|done]. split; [done|].
    apply (f_equal be_decode) in H2.
    unfold is_u64 in *. change (2 ^ 64) with (256 ^ Z.of_nat 8) in *.
    assert (256 ^ Z.of_nat 8 <= 256 ^ Z.of_nat 32) by (apply Z.pow_le_mono_r; lia).
    rewrite !be_decode_encode_small in H2 by lia. done.
  - right. by exists (id_preimage h i), (id_preimage h' i').
Qed.

(** Deposits are unique: the source hash of a user deposit (L1 block hash,
    log index) determines the block and the index, and it never equals the
    source hash of an L1 attributes deposit, unless the two computations exhibit
    a collision of Keccak-256. *)
Theorem SourceHash_unique (u u' : UserDepositSource) (l : L1InfoDepositSource) :
  length (uds_L1BlockHash u) = 32%nat → is_u64 (uds_LogIndex u) →
  length (uds_L1BlockHash u') = 32%nat → is_u64 (uds_LogIndex u') →
  length (lds_L1BlockHash l) = 32%nat → is_u64 (lds_SeqNumber l) →
  (UserDepositSource_SourceHash u = UserDepositSource_SourceHash u' → u = u' ∨ collision) ∧
  (UserDepositSource_SourceHash u = L1InfoDepositSource_SourceHash l → collision).
Proof.
  intros Hu Hi Hu' Hi' Hl Hs.
  unfold UserDepositSource_SourceHash, L1InfoDepositSource_SourceHash.
  rewrite !put_word32 by done. rewrite !put_domain by (rewrite ?Keccak256_length; done).
  split; intros Hk; apply preimage_inj in Hk as [[Hd Hk]|]; try done; eauto.
  apply id_preimage_inj in Hk as [[H1 H2]|]; [|by right|congruence|done..].
  left. destruct u, u'; simpl in *. congruence.
Qed.
End L1Info.

(** ** Witnesses *)

Definition example_block_info : BlockInfo :=
  mkBlockInfo (be_encode 32 7) (be_encode 32 6) zero_address zero_hash 100 1000
    (be_encode 32 9) (Some 30) zero_hash.

#[local] Existing Instance example_keccak.

Lemma L1InfoDeposit_roundtrip_witness :
  ∃ dep, L1InfoDeposit 3 example_block_info = Ok dep ∧
    L1InfoDepositTxData (dep_Data dep) =
      Ok (mkL1BlockInfo 100 1000 (Some 30) (be_encode 32 7) 3).
Proof.
  apply (L1InfoDeposit_roundtrip 3 example_block_info 30); done.
Defined.

Lemma SourceHash_unique_witness :
  let u := mkUserDepositSource (be_encode 32 7) 3 in
  let l := mkL1InfoDepositSource (be_encode 32 7) 3 in
  UserDepositSource_SourceHash u = L1InfoDepositSource_SourceHash l → collision.
Proof.
  intros u l. apply (SourceHash_unique u u l); done.
Defined.
