(* ===== verification/RLP.v ===== *)
(** * RLP: encoding and splitting

    l2geth/rlp/encode.go (the encoder with its buffer of deferred list headers)
    and l2geth/rlp/raw.go (splitting of encoded values).  The encoder is proved
    equal to the textbook recursive encoding, and [Split] is proved to accept
    exactly the canonical encodings. *)

From stdpp Require Import sorting.
From S2P Require Import Prelude GoErrors.

(** ** Kinds and errors (decode.go) *)

Inductive Kind := Byte | String | List.
#[export] Instance Kind_eq_dec : EqDecision Kind.
Proof. solve_decision. Defined.

Definition EOL : error := ErrorNew "rlp: end of list".
Definition ErrExpectedString : error := ErrorNew "rlp: expected String or Byte".
Definition ErrExpectedList : error := ErrorNew "rlp: expected List".
Definition ErrCanonInt : error := ErrorNew "rlp: non-canonical integer format".
Definition ErrCanonSize : error := ErrorNew "rlp: non-canonical size information".
Definition ErrElemTooLarge : error := ErrorNew "rlp: element is larger than containing list".
Definition ErrValueTooLarge : error :=
  ErrorNew "rlp: value size exceeds available input length".
Definition ErrMoreThanOneValue : error :=
  ErrorNew "rlp: input contains more than one value".

(** ** Integers and headers (encode.go) *)

(** [b[0] = byte(i >> 8*(n-1)); ...; b[n-1] = byte(i)] *)
Definition putbytes (n : nat) (i : Z) : bytes :=
  (λ k : nat, byte_of_Z (Z.shiftr i (8 * Z.of_nat k))) <$> reverse (seq 0 n).

(** [putint]: the bytes it writes; the size it returns is their number. *)
Definition putint (i : Z) : bytes :=
  if i <? Z.shiftl 1 8 then putbytes 1 i
  else if i <? Z.shiftl 1 16 then putbytes 2 i
  else if i <? Z.shiftl 1 24 then putbytes 3 i
  else if i <? Z.shiftl 1 32 then putbytes 4 i
  else if i <? Z.shiftl 1 40 then putbytes 5 i
  else if i <? Z.shiftl 1 48 then putbytes 6 i
  else if i <? Z.shiftl 1 56 then putbytes 7 i
  else putbytes 8 i.

(** The loop of [intsize]; a [uint64] is zero after eight shifts. *)
Fixpoint intsize_loop (fuel : nat) (size : Z) (i : Z) : Z :=
  match fuel with
  | O => size
  | S fuel =>
      let i := Z.shiftr i 8 in
      if i =? 0 then size else intsize_loop fuel (size + 1) i
  end.

Definition intsize (i : Z) : Z := intsize_loop 8 1 i.

Definition headsize (size : Z) : Z := if size <? 56 then 1 else 1 + intsize size.

Definition ListSize (contentSize : Z) : Z := headsize contentSize ⊞ contentSize.

(** [puthead]: the header bytes it writes. *)
Definition puthead (smalltag largetag size : Z) : bytes :=
  if size <? 56 then [byte_of_Z (smalltag + size)]
  else let sizebytes := putint size in
       byte_of_Z (largetag + len sizebytes) :: sizebytes.

(** ** The encoding buffer (encode.go) *)

Record listhead := mkListhead { lh_offset : Z; lh_size : Z }.

Definition listhead_encode (head : listhead) : bytes := puthead 0xC0 0xF7 (lh_size head).

(** [encbuf]; [sizebuf] is scratch space. *)
Record encbuf := mkEncbuf { w_str : bytes; w_lheads : list listhead; w_lhsize : Z }.

(** A buffer from the pool after [reset]. *)
Definition encbuf_reset : encbuf := mkEncbuf [] [] 0.

(** [append(w.str, ...)]. *)
Definition append_str (w : encbuf) (b : bytes) : encbuf :=
  mkEncbuf (w_str w ++ b) (w_lheads w) (w_lhsize w).

Definition encbuf_size (w : encbuf) : Z := len (w_str w) + w_lhsize w.

Definition encodeStringHeader (w : encbuf) (size : Z) : encbuf :=
  if size <? 56 then append_str w [byte_of_Z (0x80 + size)]
  else let sizebytes := putint size in
       append_str w (byte_of_Z (0xB7 + len sizebytes) :: sizebytes).

Definition encodeString (w : encbuf) (b : bytes) : encbuf :=
  match b with
  | [b0] => if byte_val b0 <=? 0x7F then append_str w [b0]
            else append_str (encodeStringHeader w (len b)) b
  | _ => append_str (encodeStringHeader w (len b)) b
  end.

(** [list] returns a pointer to the new header: its index. *)
Definition encbuf_list (w : encbuf) : encbuf * nat :=
  (mkEncbuf (w_str w)
     (w_lheads w ++ [mkListhead (len (w_str w)) (w_lhsize w)]) (w_lhsize w),
   length (w_lheads w)).

Definition listEnd (w : encbuf) (lh : nat) : encbuf :=
  match w_lheads w !! lh with
  | None => w
  | Some h =>
      let size := encbuf_size w - lh_offset h - lh_size h in
      mkEncbuf (w_str w) (<[lh := mkListhead (lh_offset h) size]> (w_lheads w))
        (w_lhsize w + if size <? 56 then 1 else 1 + intsize size)
  end.

(** The copy loop of [toBytes]. *)
Fixpoint toBytes_loop (heads : list listhead) (str : bytes) (strpos : nat) : bytes :=
  match heads with
  | [] => drop strpos str
  | h :: heads =>
      let off := Z.to_nat (lh_offset h) in
      slice strpos off str ++ listhead_encode h ++ toBytes_loop heads str off
  end.

Definition toBytes (w : encbuf) : bytes := toBytes_loop (w_lheads w) (w_str w) 0.

(** Values: byte strings and lists, the values an [interface{}] decodes to. *)
#[warnings="-register-all"]
Inductive item := Str (b : bytes) | Lst (l : list item).

(** [writeInterface] on such a value: [writeBytes] or the slice writer. *)
Fixpoint writeItem (it : item) (w : encbuf) : encbuf :=
  match it with
  | Str b => encodeString w b
  | Lst l =>
      let '(w, lh) := encbuf_list w in
      let w := fold_left (λ w x, writeItem x w) l w in
      listEnd w lh
  end.

Definition EncodeToBytes (it : item) : bytes := toBytes (writeItem it encbuf_reset).

(** [writeUint] *)
Definition writeUint (i : Z) (w : encbuf) : encbuf :=
  if i =? 0 then append_str w [byte_of_Z 0x80]
  else if i <? 128 then append_str w [byte_of_Z i]
  else let s := putint i in
       append_str w (byte_of_Z (0x80 + len s) :: s).

(** ** Splitting (raw.go) *)

(** [readSize]: the first [slen] bytes as a big-endian number. *)
Definition readSize (b : bytes) (slen : Z) : result Z :=
  if len b <? slen then Err io_ErrUnexpectedEOF
  else
    let s := be_decode (take (Z.to_nat slen) b) in
    if (s <? 56) || bool_decide (head b = Some x00) then Err ErrCanonSize
    else Ok s.

Definition readKind (buf : bytes) : result (Kind * Z * Z) :=
  match buf with
  | [] => Err io_ErrUnexpectedEOF
  | b0 :: tl =>
      let b := byte_val b0 in
      '(k, tagsize, contentsize) ←
        (if b <? 0x80 then Ok (Byte, 0, 1)
         else if b <? 0xB8 then
           let contentsize := b - 0x80 in
           if (contentsize =? 1) &&
              match tl with b1 :: _ => byte_val b1 <? 128 | [] => false end
           then Err ErrCanonSize else Ok (String, 1, contentsize)
         else if b <? 0xC0 then
           cs ← readSize tl (b - 0xB7); Ok (String, b - 0xB7 + 1, cs)
         else if b <? 0xF8 then Ok (List, 1, b - 0xC0)
         else cs ← readSize tl (b - 0xF7); Ok (List, b - 0xF7 + 1, cs));
      if (len buf ⊟ tagsize) <? contentsize then Err ErrValueTooLarge
      else Ok (k, tagsize, contentsize)
  end.

Definition Split (b : bytes) : result (Kind * bytes * bytes) :=
  '(k, ts, cs) ← readKind b;
  Ok (k, slice (Z.to_nat ts) (Z.to_nat (ts + cs)) b, drop (Z.to_nat (ts + cs)) b).

Definition SplitString (b : bytes) : result (bytes * bytes) :=
  '(k, content, rest) ← Split b;
  if bool_decide (k = List) then Err ErrExpectedString else Ok (content, rest).

Definition SplitList (b : bytes) : result (bytes * bytes) :=
  '(k, content, rest) ← Split b;
  if bool_decide (k = List) then Ok (content, rest) else Err ErrExpectedList.

(** The loop of [CountValues]: every value takes at least one byte, so the
    length of the input bounds the number of iterations. *)
Fixpoint CountValues_loop (fuel : nat) (b : bytes) (i : Z) : result Z :=
  match b, fuel with
  | [], _ => Ok i
  | _, O => Panic "out of fuel"
  | _, S fuel =>
      '(_, tagsize, size) ← readKind b;
      CountValues_loop fuel (drop (Z.to_nat (tagsize + size)) b) (i + 1)
  end.

Definition CountValues (b : bytes) : result Z := CountValues_loop (length b) b 0.

(** ** Reference encoding *)

Definition enc_string (b : bytes) : bytes :=
  match b with
  | [b0] => if byte_val b0 <=? 0x7F then [b0] else puthead 0x80 0xB7 (len b) ++ b
  | _ => puthead 0x80 0xB7 (len b) ++ b
  end.

Definition enc_list (content : bytes) : bytes := puthead 0xC0 0xF7 (len content) ++ content.

Fixpoint rlp_enc (it : item) : bytes :=
  match it with
  | Str b => enc_string b
  | Lst l => enc_list (concat (rlp_enc <$> l))
  end.

(** The integers the encoder handles are lengths: sizes stay below 2^64. *)
Definition enc_ok (it : item) : Prop := len (rlp_enc it) < 2 ^ 64.

(** ** Lemmas on integers and headers *)

Lemma le_encode_shift n z :
  le_encode n z = (λ k : nat, byte_of_Z (Z.shiftr z (8 * Z.of_nat k))) <$> seq 0 n.
Proof.
  revert z. induction n as [|n IH]; intros z; [done|].
  cbn [le_encode seq fmap list_fmap]. f_equal.
  rewrite IH, <- (fmap_S_seq 0 n), <- list_fmap_compose.
  apply list_fmap_ext. intros i k _. unfold compose.
  change 256 with (2 ^ 8). rewrite <- Z.shiftr_div_pow2, Z.shiftr_shiftr by lia.
  do 2 f_equal. lia.
Qed.

Lemma putbytes_be n z : putbytes n z = be_encode n z.
Proof. unfold putbytes, be_encode. by rewrite le_encode_shift, fmap_reverse. Qed.

(** The number of bytes of the shortest big-endian form of [i]. *)
Definition min_bytes (n : nat) (i : Z) : Prop :=
  (1 ≤ n ≤ 8)%nat ∧ (n = 1%nat ∨ 256 ^ (Z.of_nat n - 1) <= i) ∧ 0 <= i < 256 ^ Z.of_nat n.

Lemma putint_min i : is_u64 i → ∃ n, min_bytes n i ∧ putint i = be_encode n i.
Proof.
  unfold is_u64, putint, min_bytes. intros Hi.
  change (Z.shiftl 1 8) with (256 ^ 1). change (Z.shiftl 1 16) with (256 ^ 2).
  change (Z.shiftl 1 24) with (256 ^ 3). change (Z.shiftl 1 32) with (256 ^ 4).
  change (Z.shiftl 1 40) with (256 ^ 5). change (Z.shiftl 1 48) with (256 ^ 6).
  change (Z.shiftl 1 56) with (256 ^ 7). change (2 ^ 64) with (256 ^ 8) in Hi.
  rewrite !putbytes_be.
  repeat case_match; bool_props;
    [exists 1%nat|exists 2%nat|exists 3%nat|exists 4%nat|exists 5%nat|exists 6%nat
    |exists 7%nat|exists 8%nat]; (split; [|done]); lia.
Qed.

Lemma intsize_loop_min fuel n s i :
  (1 ≤ n ≤ fuel)%nat → (n = 1%nat ∨ 256 ^ (Z.of_nat n - 1) <= i) →
  0 <= i < 256 ^ Z.of_nat n → intsize_loop fuel s i = s + Z.of_nat n - 1.
Proof.
  revert n s i. induction fuel as [|fuel IH]; intros n s i Hn Hlo Hi; [lia|].
  cbn [intsize_loop]. rewrite Z.shiftr_div_pow2 by lia. change (2 ^ 8) with 256.
  destruct (i / 256 =? 0) eqn:E; bool_props.
  - apply Z.div_small_iff in E; [|lia]. destruct Hlo as [->|Hlo]; [lia|].
    destruct (decide (n = 1%nat)) as [->|]; [lia|].
    assert (256 ^ 1 <= 256 ^ (Z.of_nat n - 1)) by (apply Z.pow_le_mono_r; lia). lia.
  - destruct (decide (n = 1%nat)) as [->|Hn1].
    { rewrite Z.div_small in E by lia. lia. }
    assert (Hp : 256 ^ Z.of_nat n = 256 * 256 ^ (Z.of_nat n - 1)).
    { rewrite <- Z.pow_succ_r by lia. f_equal. lia. }
    rewrite (IH (n - 1)%nat); [lia|lia| |].
    + destruct (decide (n = 2%nat)) as [->|]; [by left|right].
      destruct Hlo as [?|Hlo]; [lia|]. apply Z.div_le_lower_bound; [lia|].
      rewrite <- Z.pow_succ_r by lia.
      replace (Z.succ (Z.of_nat (n - 1) - 1)) with (Z.of_nat n - 1) by lia. done.
    + split; [apply Z.div_pos; lia|]. apply Z.div_lt_upper_bound; [lia|].
      replace (Z.of_nat (n - 1)) with (Z.of_nat n - 1) by lia. lia.
Qed.

Lemma intsize_min n i : min_bytes n i → intsize i = Z.of_nat n.
Proof.
  intros (Hn & Hlo & Hi). unfold intsize. rewrite (intsize_loop_min 8 n) by done. lia.
Qed.

Lemma min_bytes_inj n m i : min_bytes n i → min_bytes m i → n = m.
Proof. intros Hn%intsize_min Hm%intsize_min. lia. Qed.

Lemma putint_be n i : min_bytes n i → putint i = be_encode n i.
Proof.
  intros H. destruct (putint_min i) as (m & Hm & ->).
  - destruct H as (Hn & _ & Hi). unfold is_u64. split; [lia|].
    eapply Z.lt_le_trans; [apply Hi|]. change (2 ^ 64) with (256 ^ 8).
    apply Z.pow_le_mono_r; lia.
  - by rewrite (min_bytes_inj m n i).
Qed.

(** [intsize] is the number of bytes [putint] writes. *)
Lemma length_putint i : is_u64 i → len (putint i) = intsize i ∧ (1 ≤ length (putint i) ≤ 8)%nat.
Proof.
  intros (n & Hn & ->)%putint_min. rewrite (intsize_min n i Hn). unfold len.
  rewrite length_be_encode. split; [done|]. apply Hn.
Qed.

Lemma length_puthead s l size :
  is_u64 size → len (puthead s l size) = headsize size.
Proof.
  intros H. unfold puthead, headsize. destruct (size <? 56); [done|].
  destruct (length_putint size H) as [<- _]. unfold len. cbn [length]. lia.
Qed.

(** A size written without leading zero is read back, and conversely. *)
Lemma min_bytes_decode l :
  l ≠ [] → (length l ≤ 8)%nat → head l ≠ Some x00 → min_bytes (length l) (be_decode l).
Proof.
  intros Hne Hl Hh. split; [|split; [|apply be_decode_bound]].
  - destruct l; [done|]. cbn [length] in *. lia.
  - destruct l as [|b l]; [done|]. cbn [length].
    destruct (decide (l = [])) as [->|Hl']; [by left|right].
    change (b :: l) with ([b] ++ l). rewrite be_decode_app.
    assert (Hb : be_decode [b] = byte_val b) by (unfold be_decode; cbn; lia).
    rewrite Hb. pose proof (byte_val_range b). pose proof (be_decode_bound l).
    assert (byte_val b ≠ 0).
    { intros Hz. apply Hh. cbn. f_equal. apply byte_val_inj. by rewrite Hz. }
    replace (Z.of_nat (S (length l)) - 1) with (Z.of_nat (length l)) by lia. nia.
Qed.

Lemma min_bytes_head n i : min_bytes n i → 0 < i → head (be_encode n i) ≠ Some x00.
Proof.
  intros (Hn & Hlo & Hi) Hpos Hh.
  destruct (be_encode n i) as [|b l] eqn:E; [done|]. injection Hh as ->.
  assert (Hlen : length l = (n - 1)%nat).
  { pose proof (length_be_encode n i) as Hx. rewrite E in Hx. cbn in Hx. lia. }
  assert (Hd : be_decode (be_encode n i) = i) by (apply be_decode_encode_small; lia).
  rewrite E in Hd. change (x00 :: l) with ([x00] ++ l) in Hd.
  rewrite be_decode_app in Hd. change (be_decode [x00]) with 0 in Hd.
  pose proof (be_decode_bound l) as Hb. rewrite Hlen in Hb.
  replace (Z.of_nat (n - 1)) with (Z.of_nat n - 1) in Hb by lia.
  destruct Hlo as [->|]; [|lia]. cbn in Hb. lia.
Qed.

(** ** The encoder implements the reference encoding *)

Lemma item_rect_nested (P : item → Prop) :
  (∀ b, P (Str b)) → (∀ l, Forall P l → P (Lst l)) → ∀ it, P it.
Proof.
  intros HS HL. fix IH 1. intros [b|l]; [apply HS|]. apply HL.
  induction l as [|x l IHl]; constructor; [apply IH|apply IHl].
Qed.

Lemma encodeString_enc w b : encodeString w b = append_str w (enc_string b).
Proof.
  assert (Hd : append_str (encodeStringHeader w (len b)) b
               = append_str w (puthead 0x80 0xB7 (len b) ++ b)).
  { unfold encodeStringHeader, puthead, append_str.
    destruct (len b <? 56); cbn [w_str w_lheads w_lhsize]; f_equal; by rewrite <- app_assoc. }
  unfold encodeString, enc_string. destruct b as [|b0 [|b1 b]]; try apply Hd.
  destruct (byte_val b0 <=? 127); [done|apply Hd].
Qed.

(** Headers whose position lies in the string data between [lo] and [hi]. *)
Definition heads_in (lo hi : nat) (hs : list listhead) : Prop :=
  Forall (λ h, Z.of_nat lo <= lh_offset h <= Z.of_nat hi) hs.

Lemma heads_in_weaken lo hi lo' hi' hs :
  (lo' ≤ lo)%nat → (hi ≤ hi')%nat → heads_in lo hi hs → heads_in lo' hi' hs.
Proof. intros ?? H. eapply Forall_impl; [exact H|]. intros h ?. simpl in *. lia. Qed.

Lemma toBytes_loop_split h2 s1 s2 p :
  (p ≤ length s1)%nat → heads_in (length s1) (length (s1 ++ s2)) h2 →
  toBytes_loop h2 (s1 ++ s2) p
  = drop p s1 ++ toBytes_loop h2 (s1 ++ s2) (length s1).
Proof.
  intros Hp H. destruct h2 as [|h h2]; cbn [toBytes_loop].
  - rewrite drop_app_le by done. by rewrite drop_app_length.
  - apply Forall_cons_1 in H as [Hh _]. simpl in Hh.
    rewrite (slice_split p (length s1)) by lia.
    rewrite (slice_app_l p) by lia. rewrite <- app_assoc. f_equal.
    unfold slice. rewrite take_ge; [done|]. rewrite length_drop. lia.
Qed.

(** Rendering a buffer whose data and headers come in two consecutive parts. *)
Lemma toBytes_loop_app h1 h2 s1 s2 p :
  (p ≤ length s1)%nat → heads_in p (length s1) h1 →
  StronglySorted (λ a b, lh_offset a <= lh_offset b) h1 →
  heads_in (length s1) (length (s1 ++ s2)) h2 →
  toBytes_loop (h1 ++ h2) (s1 ++ s2) p
  = toBytes_loop h1 s1 p ++ toBytes_loop h2 (s1 ++ s2) (length s1).
Proof.
  revert p. induction h1 as [|h h1 IH]; intros p Hp H1 Hs H2; cbn [app toBytes_loop].
  - by apply toBytes_loop_split.
  - apply Forall_cons_1 in H1 as [Hh H1]. simpl in Hh.
    apply StronglySorted_inv in Hs as [Hs Hle].
    rewrite IH; [|lia| |done|done].
    + rewrite slice_app_l by lia. by rewrite <- !app_assoc.
    + apply Forall_forall. intros x Hx. rewrite Forall_forall in H1, Hle.
      specialize (H1 x Hx). specialize (Hle x Hx). simpl in *. lia.
Qed.

(** What a writer does: it appends data and finished headers that render to [e]. *)
Record appends (w w' : encbuf) (e : bytes) (s : bytes) (hs : list listhead) : Prop := {
  ap_str : w_str w' = w_str w ++ s;
  ap_heads : w_lheads w' = w_lheads w ++ hs;
  ap_size : w_lhsize w' = w_lhsize w + (len e - len s);
  ap_in : heads_in (length (w_str w)) (length (w_str w ++ s)) hs;
  ap_sorted : StronglySorted (λ a b, lh_offset a <= lh_offset b) hs;
  ap_render : toBytes_loop hs (w_str w ++ s) (length (w_str w)) = e }.

Lemma appends_nil w : appends w w [] [] [].
Proof.
  split; rewrite ?app_nil_r; try done; try (constructor; fail).
  - unfold len. cbn. lia.
  - cbn. apply drop_all.
Qed.

Lemma appends_str w b : appends w (append_str w b) b b [].
Proof.
  split; cbn [append_str w_str w_lheads w_lhsize]; rewrite ?app_nil_r; try done;
    try (constructor; fail); try lia.
  cbn. apply drop_app_length.
Qed.

Lemma appends_trans w w1 w2 e1 e2 s1 s2 h1 h2 :
  appends w w1 e1 s1 h1 → appends w1 w2 e2 s2 h2 →
  appends w w2 (e1 ++ e2) (s1 ++ s2) (h1 ++ h2).
Proof.
  intros [S1 H1 Z1 I1 O1 R1] [S2 H2 Z2 I2 O2 R2].
  rewrite S1 in S2, I2, R2. rewrite H1 in H2.
  split.
  - by rewrite S2, app_assoc.
  - by rewrite H2, app_assoc.
  - unfold len in *. rewrite !length_app. lia.
  - rewrite app_assoc. apply Forall_app. split.
    + eapply heads_in_weaken; [| |exact I1]; rewrite ?length_app; lia.
    + eapply heads_in_weaken; [| |exact I2]; rewrite ?length_app; lia.
  - apply StronglySorted_app_2; [|done|done]. intros x1 x2 Hx1 Hx2.
    unfold heads_in in I1, I2. rewrite Forall_forall in I1, I2.
    specialize (I1 _ Hx1). specialize (I2 _ Hx2). simpl in *. lia.
  - rewrite app_assoc, toBytes_loop_app; try done.
    + by rewrite R1, R2.
    + rewrite length_app. lia.
Qed.

(** Wrapping a written sequence into a list header. *)
Lemma appends_list w w1 w2 c s hs :
  encbuf_list w = (w1, length (w_lheads w)) →
  appends w1 w2 c s hs → is_u64 (len c) →
  appends w (listEnd w2 (length (w_lheads w))) (enc_list c) s
    (mkListhead (len (w_str w)) (len c) :: hs).
Proof.
  intros [= <-] [S1 H1 Z1 I1 O1 R1] Hc. cbn [w_str w_lheads w_lhsize] in *.
  unfold listEnd. rewrite H1, <- app_assoc.
  rewrite lookup_app_r, Nat.sub_diag by lia. cbn [lookup list_lookup app lh_offset lh_size].
  set (size := encbuf_size w2 - len (w_str w) - w_lhsize w).
  assert (size = len c) as ->.
  { subst size. unfold encbuf_size. rewrite S1, Z1. unfold len. rewrite length_app. lia. }
  split; cbn [w_str w_lheads w_lhsize].
  - done.
  - rewrite insert_app_r_alt, Nat.sub_diag by lia. done.
  - rewrite Z1. unfold enc_list. rewrite len_app, length_puthead by done.
    unfold headsize. lia.
  - constructor; [|done]. cbn. unfold len. rewrite length_app. lia.
  - constructor; [done|]. unfold heads_in in I1. eapply Forall_impl; [exact I1|].
    intros h ?. cbn in *. unfold len. lia.
  - cbn [toBytes_loop lh_offset].
    replace (Z.to_nat (len (w_str w))) with (length (w_str w)) by (unfold len; lia).
    unfold slice. rewrite Nat.sub_diag, take_0. cbn [app]. rewrite R1. done.
Qed.

Lemma enc_ok_Lst l :
  enc_ok (Lst l) →
  Forall enc_ok l ∧ is_u64 (len (concat (rlp_enc <$> l))).
Proof.
  unfold enc_ok. cbn [rlp_enc]. unfold enc_list, len at 1. rewrite length_app.
  intros H. assert (Hc : len (concat (rlp_enc <$> l)) < 2 ^ 64) by (unfold len; lia).
  clear H. split; [|split; [apply len_nonneg|done]].
  revert Hc. generalize (2 ^ 64) as B.
  induction l as [|x l IH]; intros B Hc; constructor.
  - cbn in Hc. unfold len in *. rewrite length_app in Hc. lia.
  - apply IH. cbn in Hc. unfold len in *. rewrite length_app in Hc. lia.
Qed.

Lemma writeItem_appends it :
  ∀ w, enc_ok it → ∃ s hs, appends w (writeItem it w) (rlp_enc it) s hs.
Proof.
  induction it as [b|l IH] using item_rect_nested; intros w Hok.
  - cbn [writeItem rlp_enc]. rewrite encodeString_enc.
    eexists _, _. apply appends_str.
  - apply enc_ok_Lst in Hok as [Hl Hc]. cbn [writeItem rlp_enc].
    destruct (encbuf_list w) as [w1 lh] eqn:E.
    assert (lh = length (w_lheads w)) as -> by (by injection E).
    assert (Hseq : ∃ s hs,
      appends w1 (fold_left (λ w x, writeItem x w) l w1) (concat (rlp_enc <$> l)) s hs).
    { clear E Hc. revert w1. induction IH as [|x l Hx _ IHl]; intros w1.
      - eexists _, _. apply appends_nil.
      - apply Forall_cons_1 in Hl as [Hxo Hl]. cbn [fold_left fmap list_fmap concat].
        destruct (Hx w1 Hxo) as (s1 & h1 & A1).
        destruct (IHl Hl (writeItem x w1)) as (s2 & h2 & A2).
        eexists _, _. eapply appends_trans; eassumption. }
    destruct Hseq as (s & hs & A). eexists _, _. by eapply appends_list.
Qed.

Lemma EncodeToBytes_enc it : enc_ok it → EncodeToBytes it = rlp_enc it.
Proof.
  intros H. destruct (writeItem_appends it encbuf_reset H) as (s & hs & [S1 H1 _ _ _ R]).
  unfold EncodeToBytes, toBytes. by rewrite S1, H1.
Qed.

(** The encoder, which collects string data and list headers separately and
    merges them at the end, produces the recursive RLP encoding of every value
    whose encoding is shorter than 2^64 bytes. *)
Theorem EncodeToBytes_reference it : enc_ok it → EncodeToBytes it = rlp_enc it.
Proof. apply EncodeToBytes_enc. Qed.

Lemma EncodeToBytes_reference_witness :
  EncodeToBytes (Lst [Str ["a"%byte]; Lst []; Str ["b"; "c"]%byte])
  = rlp_enc (Lst [Str ["a"%byte]; Lst []; Str ["b"; "c"]%byte]).
Proof. apply EncodeToBytes_reference. vm_compute. reflexivity. Defined.

(** ** [Split] accepts exactly the canonical encodings *)

(** The bytes in front of a value's content. *)
Definition value_tag (k : Kind) (n : Z) : bytes :=
  match k with
  | Byte => []
  | String => puthead 0x80 0xB7 n
  | List => puthead 0xC0 0xF7 n
  end.

Definition single_byte (c : bytes) : Prop := ∃ x, c = [x] ∧ byte_val x < 128.

Definition kind_content (k : Kind) (c : bytes) : Prop :=
  match k with
  | Byte => single_byte c
  | String => ¬ single_byte c
  | List => True
  end.

Lemma readSize_ok b slen s :
  1 <= slen <= 8 →
  readSize b slen = Ok s ↔
  ∃ r, b = putint s ++ r ∧ len (putint s) = slen ∧ 56 <= s < 2 ^ 64.
Proof.
  intros Hs. unfold readSize. split.
  - destruct (len b <? slen) eqn:El; [done|]. bool_props.
    set (l := take (Z.to_nat slen) b).
    destruct ((be_decode l <? 56) || bool_decide (head b = Some x00)) eqn:E; [done|].
    intros [= <-]. bool_props.
    assert (Hlen : length l = Z.to_nat slen).
    { unfold l. rewrite length_take. unfold len in El. lia. }
    assert (Hp : putint (be_decode l) = l).
    { rewrite (putint_be (length l)); [apply be_encode_decode|].
      apply min_bytes_decode; [|lia|].
      - intros ->. cbn in Hlen. lia.
      - subst l. destruct b; [by rewrite take_nil|].
        destruct (Z.to_nat slen) eqn:Hz; [lia|]. done. }
    exists (drop (Z.to_nat slen) b). rewrite Hp. repeat split; [|unfold len; lia|lia|].
    + subst l. by rewrite take_drop.
    + eapply Z.lt_le_trans; [apply be_decode_bound|]. change (2 ^ 64) with (256 ^ 8).
      apply Z.pow_le_mono_r; lia.
  - intros (r & -> & Hl & Hr). destruct (putint_min s) as (n & Hn & Hp); [split; lia|].
    rewrite Hp in *. unfold len in Hl. rewrite length_be_encode in Hl.
    rewrite len_app. unfold len at 1. rewrite length_be_encode.
    destruct (Z.ltb_spec (Z.of_nat n + len r) slen) as [|_]; [pose proof (len_nonneg r); lia|].
    rewrite take_app_le by (rewrite length_be_encode; lia).
    rewrite take_ge by (rewrite length_be_encode; lia).
    rewrite be_decode_encode_small by apply Hn.
    destruct (Z.ltb_spec s 56); [lia|]. cbn [orb].
    rewrite bool_decide_eq_false_2; [done|].
    assert (Hh := min_bytes_head n s Hn ltac:(lia)).
    destruct (be_encode n s) eqn:Eb; [|exact Hh].
    pose proof (length_be_encode n s) as Hx. rewrite Eb in Hx. destruct Hn. cbn in Hx. lia.
Qed.

Lemma putint_length_range s : is_u64 s → 1 <= len (putint s) <= 8.
Proof. intros H. destruct (length_putint s H) as [_ ?]. unfold len. lia. Qed.

Lemma split_rest (r : bytes) n : 0 <= n <= len r → ∃ c rest, r = c ++ rest ∧ len c = n.
Proof.
  intros H. exists (take (Z.to_nat n) r), (drop (Z.to_nat n) r).
  rewrite take_drop. split; [done|]. unfold len in *. rewrite length_take. lia.
Qed.

Lemma puthead_short s l b0 :
  byte_val b0 < s + 56 → puthead s l (byte_val b0 - s) = [b0].
Proof.
  intros H. unfold puthead. destruct (Z.ltb_spec (byte_val b0 - s) 56); [|lia].
  by rewrite Zplus_minus, byte_of_Z_val.
Qed.

Lemma puthead_long s l b0 n :
  56 <= n → len (putint n) = byte_val b0 - l → puthead s l n = b0 :: putint n.
Proof.
  intros Hn Hl. unfold puthead. destruct (Z.ltb_spec n 56); [lia|].
  by rewrite Hl, Zplus_minus, byte_of_Z_val.
Qed.

(** A short tag and a tag followed by a size, as [readKind] reads them. *)
Lemma read_short k s l b0 tl n :
  value_tag k n = puthead s l n → n = byte_val b0 - s → 0 <= n < 56 → n <= len tl →
  ∃ c rest, b0 :: tl = value_tag k n ++ c ++ rest ∧ len c = n ∧ 1 = len (value_tag k n).
Proof.
  intros Ht -> Hn Hl. destruct (split_rest tl (byte_val b0 - s)) as (c & rest & -> & Hc);
    [lia|]. exists c, rest. rewrite Ht, puthead_short by lia. done.
Qed.

Lemma read_long k s l b0 tl n :
  value_tag k n = puthead s l n → readSize tl (byte_val b0 - l) = Ok n →
  1 <= byte_val b0 - l <= 8 → n <= len tl - (byte_val b0 - l) →
  ∃ c rest, b0 :: tl = value_tag k n ++ c ++ rest ∧ len c = n ∧ 56 <= n ∧
            byte_val b0 - l + 1 = len (value_tag k n).
Proof.
  intros Ht Hs Hr Hn. apply readSize_ok in Hs as (r & -> & Hl & Hcs); [|lia].
  rewrite len_app in Hn. destruct (split_rest r n) as (c & rest & -> & Hc); [lia|].
  exists c, rest. rewrite Ht, (puthead_long s l b0) by lia.
  rewrite len_cons. repeat split; try done; lia.
Qed.

Lemma readKind_sound b k ts cs :
  len b < 2 ^ 64 → readKind b = Ok (k, ts, cs) →
  ∃ c rest, b = value_tag k cs ++ c ++ rest ∧ len c = cs ∧ kind_content k c ∧
            ts = len (value_tag k cs).
Proof.
  intros Hb H. destruct b as [|b0 tl]; [done|]. cbn [readKind] in H.
  pose proof (byte_val_range b0) as Hr. pose proof (len_nonneg tl) as Htl.
  rewrite len_cons in Hb. apply bind_Ok in H as ([[k' ts'] cs'] & H & H').
  destruct ((len (b0 :: tl) ⊟ ts') <? cs') eqn:Ec; [done|]. injection H' as -> -> ->.
  rewrite len_cons in Ec.
  destruct (byte_val b0 <? 0x80) eqn:E1; [|destruct (byte_val b0 <? 0xB8) eqn:E2;
    [|destruct (byte_val b0 <? 0xC0) eqn:E3; [|destruct (byte_val b0 <? 0xF8) eqn:E4]]];
    bool_props.
  - injection H as <- <- <-. exists [b0], tl. repeat split. exists b0. split; [done|lia].
  - destruct ((byte_val b0 - 0x80 =? 1) && _) eqn:E5; [done|]. injection H as <- <- <-.
    rewrite u64_small in Ec by (unfold is_u64; lia).
    destruct (read_short String 0x80 0xB7 b0 tl (byte_val b0 - 0x80)) as (c & rest & Hs & Hc & Hl);
      [done|done|lia|lia|]. exists c, rest. repeat split; try done. intros (x & -> & Hx).
    cbn [value_tag] in Hs. rewrite puthead_short in Hs by lia. injection Hs as ->.
    change (len [x]) with 1 in Hc. apply andb_false_iff in E5 as [E5|E5]; bool_props; lia.
  - apply bind_Ok in H as (n & Hn & [= <- <- <-]).
    pose proof Hn as Hn'. apply readSize_ok in Hn' as (r & -> & Hl & Hcs); [|lia].
    rewrite len_app in *. pose proof (len_nonneg r).
    rewrite u64_small in Ec by (unfold is_u64; lia).
    destruct (read_long String 0x80 0xB7 b0 _ n eq_refl Hn) as (c & rest & Hs & Hc & H56 & Ht);
      [lia|rewrite len_app; lia|]. exists c, rest. repeat split; try done.
    intros (x & -> & _). change (len [x]) with 1 in Hc. lia.
  - injection H as <- <- <-. rewrite u64_small in Ec by (unfold is_u64; lia).
    destruct (read_short List 0xC0 0xF7 b0 tl (byte_val b0 - 0xC0)) as (c & rest & Hs & Hc & Hl);
      [done|done|lia|lia|]. by exists c, rest.
  - apply bind_Ok in H as (n & Hn & [= <- <- <-]).
    pose proof Hn as Hn'. apply readSize_ok in Hn' as (r & -> & Hl & Hcs); [|lia].
    rewrite len_app in *. pose proof (len_nonneg r).
    rewrite u64_small in Ec by (unfold is_u64; lia).
    destruct (read_long List 0xC0 0xF7 b0 _ n eq_refl Hn) as (c & rest & Hs & Hc & H56 & Ht);
      [lia|rewrite len_app; lia|]. by exists c, rest.
Qed.

Lemma byte_val_tag z : 0 <= z < 256 → byte_val (byte_of_Z z) = z.
Proof. intros. rewrite byte_val_of_Z. by apply Z.mod_small. Qed.

Lemma puthead_cases s l n :
  is_u64 n →
  (0 <= n < 56 ∧ puthead s l n = [byte_of_Z (s + n)]) ∨
  (56 <= n ∧ puthead s l n = byte_of_Z (l + len (putint n)) :: putint n ∧
   1 <= len (putint n) <= 8).
Proof.
  intros Hn. unfold puthead, is_u64 in *. destruct (Z.ltb_spec n 56).
  - left. split; [lia|done].
  - right. split; [lia|]. split; [done|]. by apply putint_length_range.
Qed.

(** Decide the tag comparisons of [readKind] for a tag of known range. *)
Ltac tag_cases :=
  repeat match goal with
  | |- context [?a <? ?b] => destruct (Z.ltb_spec a b); [try lia|try lia]
  end.

Lemma readKind_complete k c rest :
  len (value_tag k (len c) ++ c ++ rest) < 2 ^ 64 → kind_content k c →
  readKind (value_tag k (len c) ++ c ++ rest)
  = Ok (k, len (value_tag k (len c)), len c).
Proof.
  intros Hb Hk. rewrite !len_app in Hb.
  pose proof (len_nonneg rest). pose proof (len_nonneg c).
  pose proof (len_nonneg (value_tag k (len c))).
  assert (Hu : is_u64 (len c)) by (unfold is_u64; lia).
  assert (Hfin : ∀ t : bytes, is_u64 (len (t ++ c ++ rest)) →
            ((len (t ++ c ++ rest) ⊟ len t) <? len c) = false).
  { intros t Ht. rewrite u64_small; rewrite !len_app in *.
    - apply Z.ltb_ge. lia.
    - pose proof (len_nonneg t). unfold is_u64 in *. lia. }
  assert (Hall : is_u64 (len (value_tag k (len c) ++ c ++ rest))).
  { rewrite !len_app. unfold is_u64. lia. }
  specialize (Hfin _ Hall). destruct k; cbn [value_tag] in *.
  - destruct Hk as (x & -> & Hx). pose proof (byte_val_range x). cbn [app readKind].
    tag_cases. cbn [mbind result_bind]. cbn [app] in Hfin.
    change (len []) with 0 in Hfin. change (len [x]) with 1 in Hfin.
    by rewrite Hfin.
  - destruct (puthead_cases 0x80 0xB7 (len c) Hu) as [[Hn E]|(Hn & E & Hl)]; rewrite E in *.
    + cbn [app readKind]. rewrite byte_val_tag by lia. tag_cases.
      rewrite Z.add_simpl_l.
      destruct ((len c =? 1) && _) eqn:E5.
      { exfalso. bool_props. destruct c as [|x [|y c]]; try done.
        - cbn [app] in *. bool_props. apply Hk. by exists x.
        - rewrite !len_cons in *. pose proof (len_nonneg c). lia. }
      cbn [mbind result_bind]. change (len [byte_of_Z (128 + len c)]) with 1 in Hfin.
      cbn [app] in Hfin. by rewrite Hfin.
    + cbn [app readKind]. rewrite byte_val_tag by lia. tag_cases.
      rewrite Z.add_simpl_l.
      rewrite (proj2 (readSize_ok _ _ (len c) Hl)) by (exists (c ++ rest); unfold is_u64 in *; split_and!; try done; lia).
      cbn [mbind result_bind]. rewrite (len_cons _ (putint _)) in *.
      rewrite (Z.add_comm (len (putint _)) 1). cbn [app] in Hfin. by rewrite Hfin.
  - destruct (puthead_cases 0xC0 0xF7 (len c) Hu) as [[Hn E]|(Hn & E & Hl)]; rewrite E in *.
    + cbn [app readKind]. rewrite byte_val_tag by lia. tag_cases.
      rewrite Z.add_simpl_l. cbn [mbind result_bind].
      change (len [byte_of_Z (192 + len c)]) with 1 in Hfin.
      cbn [app] in Hfin. by rewrite Hfin.
    + cbn [app readKind]. rewrite byte_val_tag by lia. tag_cases.
      rewrite Z.add_simpl_l.
      rewrite (proj2 (readSize_ok _ _ (len c) Hl)) by (exists (c ++ rest); unfold is_u64 in *; split_and!; try done; lia).
      cbn [mbind result_bind]. rewrite (len_cons _ (putint _)) in *.
      rewrite (Z.add_comm (len (putint _)) 1). cbn [app] in Hfin. by rewrite Hfin.
Qed.

Lemma slice_value (t c r : bytes) :
  slice (Z.to_nat (len t)) (Z.to_nat (len t + len c)) (t ++ c ++ r) = c.
Proof.
  unfold len. rewrite <- Nat2Z.inj_add, !Nat2Z.id.
  rewrite slice_app_r, slice_app_l, Nat.sub_diag by lia. apply slice_full. lia.
Qed.

Lemma drop_value (t c r : bytes) : drop (Z.to_nat (len t + len c)) (t ++ c ++ r) = r.
Proof.
  rewrite app_assoc, <- len_app. unfold len. rewrite Nat2Z.id. apply drop_app_length.
Qed.

Lemma Split_iff b k c rest :
  len b < 2 ^ 64 →
  Split b = Ok (k, c, rest) ↔ b = value_tag k (len c) ++ c ++ rest ∧ kind_content k c.
Proof.
  intros Hb. unfold Split. split.
  - intros H. apply bind_Ok in H as ([[k' ts] cs] & H & [= -> <- <-]).
    apply readKind_sound in H as (c' & r & -> & <- & Hk & ->); [|done].
    by rewrite slice_value, drop_value.
  - intros [-> Hk]. rewrite readKind_complete by done. cbn [mbind result_bind].
    by rewrite slice_value, drop_value.
Qed.

(** [Split] returns a kind, a content and a rest exactly when the input is
    the canonical header of that content, the content, and the rest: every
    non-canonical header, truncated input or single byte in string form is
    rejected. *)
Theorem Split_spec b k c rest :
  len b < 2 ^ 64 →
  Split b = Ok (k, c, rest) ↔ b = value_tag k (len c) ++ c ++ rest ∧ kind_content k c.
Proof. apply Split_iff. Qed.

Lemma Split_spec_witness :
  Split (x83 :: ["d"; "o"; "g"; "s"]%byte) = Ok (String, ["d"; "o"; "g"]%byte, ["s"%byte]).
Proof.
  apply Split_spec; [reflexivity|]. split; [reflexivity|]. intros (x & E & _). discriminate E.
Defined.

(** The kind [Split] reports for an encoded item, and its content. *)
Definition item_kind (it : item) : Kind :=
  match it with
  | Str [b0] => if byte_val b0 <=? 0x7F then Byte else String
  | Str _ => String
  | Lst _ => List
  end.
Definition item_content (it : item) : bytes :=
  match it with Str b => b | Lst l => concat (rlp_enc <$> l) end.

Lemma rlp_enc_tag it :
  rlp_enc it = value_tag (item_kind it) (len (item_content it)) ++ item_content it ∧
  kind_content (item_kind it) (item_content it).
Proof.
  destruct it as [[|b0 [|b1 b]]|l]; cbn [item_kind item_content rlp_enc].
  - split; [done|]. by intros (x & ? & _).
  - cbn [enc_string]. destruct (byte_val b0 <=? 0x7F) eqn:E; bool_props; (split; [done|]).
    + exists b0. split; [done|lia].
    + intros (x & [= <-] & ?). lia.
  - split; [done|]. by intros (x & ? & _).
  - done.
Qed.

Lemma Split_rlp_enc it rest :
  len (rlp_enc it ++ rest) < 2 ^ 64 →
  Split (rlp_enc it ++ rest) = Ok (item_kind it, item_content it, rest).
Proof.
  intros H. apply Split_iff; [done|]. destruct (rlp_enc_tag it) as [E Hk].
  split; [|done]. by rewrite E at 1; rewrite <- app_assoc.
Qed.

Lemma rlp_enc_nonempty it : rlp_enc it ≠ [].
Proof.
  destruct (rlp_enc_tag it) as [E Hk]. rewrite E. destruct (item_kind it); cbn [value_tag].
  - destruct Hk as (x & -> & _). done.
  - unfold puthead. by destruct (_ <? _).
  - unfold puthead. by destruct (_ <? _).
Qed.

Lemma readKind_rlp_enc it rest :
  len (rlp_enc it ++ rest) < 2 ^ 64 →
  ∃ k ts cs, readKind (rlp_enc it ++ rest) = Ok (k, ts, cs) ∧
             drop (Z.to_nat (ts + cs)) (rlp_enc it ++ rest) = rest.
Proof.
  destruct (rlp_enc_tag it) as [E Hk]. rewrite E, <- app_assoc. intros H.
  rewrite readKind_complete by done. eexists _, _, _. split; [done|]. apply drop_value.
Qed.

Lemma CountValues_loop_enc l fuel i :
  len (concat (rlp_enc <$> l)) < 2 ^ 64 → (length (concat (rlp_enc <$> l)) ≤ fuel)%nat →
  CountValues_loop fuel (concat (rlp_enc <$> l)) i = Ok (i + len l).
Proof.
  revert fuel i. induction l as [|it l IH]; intros fuel i Hl Hf.
  - destruct fuel; cbn; f_equal; unfold len; cbn; lia.
  - cbn [fmap list_fmap concat] in *. pose proof (rlp_enc_nonempty it) as Hne.
    destruct (readKind_rlp_enc it _ Hl) as (k & ts & cs & Hk & Hd).
    destruct (rlp_enc it ++ concat (rlp_enc <$> l)) as [|x r] eqn:E.
    { by apply app_eq_nil in E as [? _]. }
    destruct fuel as [|fuel]; [cbn in Hf; lia|].
    cbn [CountValues_loop]. rewrite Hk. cbn [mbind result_bind]. rewrite Hd.
    rewrite IH; [rewrite len_cons; f_equal; lia| |].
    + rewrite <- E, len_app in Hl. pose proof (len_nonneg (rlp_enc it)). lia.
    + rewrite <- E, length_app in Hf. destruct (rlp_enc it); [done|]. cbn in Hf. lia.
Qed.

(** [CountValues] on the concatenated encodings of any values returns
    their number. *)
Theorem CountValues_enc l :
  len (concat (EncodeToBytes <$> l)) < 2 ^ 64 → Forall enc_ok l →
  CountValues (concat (EncodeToBytes <$> l)) = Ok (len l).
Proof.
  intros H Hl.
  assert (E : EncodeToBytes <$> l = rlp_enc <$> l).
  { apply Forall_fmap_ext_1. eapply Forall_impl; [exact Hl|]. apply EncodeToBytes_enc. }
  rewrite E in *. unfold CountValues. by rewrite CountValues_loop_enc.
Qed.

Lemma CountValues_enc_witness :
  CountValues (concat (EncodeToBytes <$> [Str []; Lst [Str []; Str []]; Str ["a"%byte]])) = Ok 3.
Proof.
  apply (CountValues_enc [Str []; Lst [Str []; Str []]; Str ["a"%byte]]); [reflexivity|].
  repeat constructor.
Defined.
