(* ===== verification/RLPStream.v ===== *)
(** * RLP: the streaming decoder

    The [Stream] type of l2geth/rlp/decode.go, with its input limit, its stack of
    open lists and its cached kind, and [decodeInterface], which decodes an
    arbitrary value.  Decoding inverts the encoder of RLP.v, and decodes nothing
    but canonical encodings. *)

From S2P Require Import Prelude GoErrors RLP.

(** ** State *)

(** The reader is the bytes it still delivers and the error it ends with; the
    stack has the innermost list first, each entry a position and a size. *)
Record Stream := mkStream {
  s_r : bytes; s_rerr : error;
  s_remaining : Z; s_limited : bool;
  s_kind : option Kind;      (* None is the value -1 *)
  s_size : Z; s_byteval : byte; s_kinderr : option error;
  s_stack : list (Z * Z) }.

Definition errNotInList : error := ErrorNew "rlp: call of ListEnd outside of any list".
Definition errNotAtEOL : error := ErrorNew "rlp: call of ListEnd not positioned at EOL".
Definition errUintOverflow : error := ErrorNew "rlp: uint overflow".

(** [NewStream] and [Reset] on a reader that is not a byte slice when
    [inputLimit] is 0, or with an explicit limit. *)
Definition NewStream (r : bytes) (rerr : error) (inputLimit : Z) : Stream :=
  mkStream r rerr inputLimit (0 <? inputLimit) None 0 x00 None [].

(** [Reset] on a [bytes.Reader]: the limit is its length. *)
Definition ResetBytes (r : bytes) : Stream :=
  mkStream r io_EOF (len r) true None 0 x00 None [].

(** Field updates. *)
Definition set_kind (k : option Kind) (s : Stream) : Stream :=
  mkStream (s_r s) (s_rerr s) (s_remaining s) (s_limited s) k (s_size s) (s_byteval s)
    (s_kinderr s) (s_stack s).
Definition set_kindinfo (k : option Kind) (size : Z) (e : option error) (s : Stream) : Stream :=
  mkStream (s_r s) (s_rerr s) (s_remaining s) (s_limited s) k size (s_byteval s) e (s_stack s).
Definition set_byteval (b : byte) (s : Stream) : Stream :=
  mkStream (s_r s) (s_rerr s) (s_remaining s) (s_limited s) (s_kind s) (s_size s) b
    (s_kinderr s) (s_stack s).
Definition set_r (r : bytes) (s : Stream) : Stream :=
  mkStream r (s_rerr s) (s_remaining s) (s_limited s) (s_kind s) (s_size s) (s_byteval s)
    (s_kinderr s) (s_stack s).
Definition set_stack (st : list (Z * Z)) (k : option Kind) (size : Z) (s : Stream) : Stream :=
  mkStream (s_r s) (s_rerr s) (s_remaining s) (s_limited s) k size (s_byteval s)
    (s_kinderr s) st.
Definition set_remaining (n : Z) (s : Stream) : Stream :=
  mkStream (s_r s) (s_rerr s) n (s_limited s) (s_kind s) (s_size s) (s_byteval s)
    (s_kinderr s) (s_stack s).

(** ** Reading *)

Definition willRead (n : Z) (s : Stream) : Stream * option error :=
  let s := set_kind None s in
  let '(s, err) :=
    match s_stack s with
    | (pos, size) :: st =>
        if (size ⊟ pos) <? n then (s, Some ErrElemTooLarge)
        else (set_stack ((pos ⊞ n, size) :: st) (s_kind s) (s_size s) s, None)
    | [] => (s, None)
    end in
  match err with
  | Some e => (s, Some e)
  | None =>
      if s_limited s then
        if s_remaining s <? n then (s, Some ErrValueTooLarge)
        else (set_remaining (s_remaining s ⊟ n) s, None)
      else (s, None)
  end.

(** The underlying reader's end: [io.EOF] becomes [io.ErrUnexpectedEOF]. *)
Definition reader_end (s : Stream) : error :=
  if bool_decide (s_rerr s = io_EOF) then io_ErrUnexpectedEOF else s_rerr s.

Definition readByte (s : Stream) : Stream * result byte :=
  let '(s, err) := willRead 1 s in
  match err with
  | Some e => (s, Err e)
  | None =>
      match s_r s with
      | [] => (s, Err (reader_end s))
      | b :: r => (set_r r s, Ok b)
      end
  end.

(** [readFull] into a buffer of [n] bytes. *)
Definition readFull (n : Z) (s : Stream) : Stream * result bytes :=
  let '(s, err) := willRead n s in
  match err with
  | Some e => (s, Err e)
  | None =>
      if len (s_r s) <? n then (set_r [] s, Err (reader_end s))
      else (set_r (drop (Z.to_nat n) (s_r s)) s, Ok (take (Z.to_nat n) (s_r s)))
  end.

Definition readUint (size : Z) (s : Stream) : Stream * result Z :=
  if size =? 0 then (set_kind None s, Ok 0)
  else if size =? 1 then
    let '(s, r) := readByte s in (s, b ← r; Ok (byte_val b))
  else
    let '(s, r) := readFull size s in
    (s, buf ← r;
        if bool_decide (head buf = Some x00) then Err ErrCanonSize
        else Ok (be_decode buf)).

(** A size behind a tag byte, as the two large forms of [readKind] read it. *)
Definition readLongSize (slen : Z) (s : Stream) : Stream * (Z * option error) :=
  let '(s, r) := readUint slen s in
  (s, match r with
      | Ok size => (size, if size <? 56 then Some ErrCanonSize else None)
      | Err e => (0, Some e)
      | Panic m => (0, Some (ErrorNew m))
      end).

(** [Stream.readKind]: kind, size and error are all returned. *)
Definition Stream_readKind (s : Stream) : Stream * (Kind * Z * option error) :=
  let toplevel := bool_decide (s_stack s = []) in
  let '(s, r) := readByte s in
  match r with
  | Ok b0 =>
      let b := byte_val b0 in
      let s := set_byteval x00 s in
      if b <? 0x80 then (set_byteval b0 s, (Byte, 0, None))
      else if b <? 0xB8 then (s, (String, b - 0x80, None))
      else if b <? 0xC0 then
        let '(s, (size, err)) := readLongSize (b - 0xB7) s in (s, (String, size, err))
      else if b <? 0xF8 then (s, (List, b - 0xC0, None))
      else
        let '(s, (size, err)) := readLongSize (b - 0xF7) s in (s, (List, size, err))
  | Err e =>
      let e := if toplevel &&
                  (bool_decide (e = io_ErrUnexpectedEOF) || bool_decide (e = ErrValueTooLarge))
               then io_EOF else e in
      (s, (Byte, 0, Some e))
  | Panic m => (s, (Byte, 0, Some (ErrorNew m)))
  end.

(** [Stream.Kind] *)
Definition Stream_Kind (s : Stream) : Stream * result (Kind * Z) :=
  let cached s :=
    match s_kinderr s, s_kind s with
    | Some e, _ => (s, Err e)
    | None, Some k => (s, Ok (k, s_size s))
    | None, None => (s, Panic "no kind")
    end in
  match s_kind s with
  | Some _ => cached s
  | None =>
      let s := set_kindinfo None (s_size s) None s in
      match s_stack s with
      | (pos, size) :: _ =>
          if pos =? size then (s, Err EOL)
          else
            let '(s, (k, n, err)) := Stream_readKind s in
            let err :=
              match err, s_stack s with
              | None, (pos, size) :: _ =>
                  if (size ⊟ pos) <? n then Some ErrElemTooLarge else None
              | _, _ => err
              end in
            cached (set_kindinfo (Some k) n err s)
      | [] =>
          let '(s, (k, n, err)) := Stream_readKind s in
          let err :=
            match err with
            | None => if s_limited s && (s_remaining s <? n) then Some ErrValueTooLarge
                      else None
            | _ => err
            end in
          cached (set_kindinfo (Some k) n err s)
      end
  end.

(** ** Operations *)

Definition Stream_Bytes (s : Stream) : Stream * result bytes :=
  let '(s, r) := Stream_Kind s in
  match r with
  | Err e => (s, Err e)
  | Panic m => (s, Panic m)
  | Ok (Byte, _) => (set_kind None s, Ok [s_byteval s])
  | Ok (String, size) =>
      let '(s, r) := readFull size s in
      (s, b ← r;
          if (size =? 1) && match b with [b0] => byte_val b0 <? 128 | _ => false end
          then Err ErrCanonSize else Ok b)
  | Ok (List, _) => (s, Err ErrExpectedString)
  end.

Definition Stream_uint (maxbits : Z) (s : Stream) : Stream * result Z :=
  let '(s, r) := Stream_Kind s in
  match r with
  | Err e => (s, Err e)
  | Panic m => (s, Panic m)
  | Ok (Byte, _) =>
      if bool_decide (s_byteval s = x00) then (s, Err ErrCanonInt)
      else (set_kind None s, Ok (byte_val (s_byteval s)))
  | Ok (String, size) =>
      if maxbits / 8 <? size then (s, Err errUintOverflow)
      else
        let '(s, r) := readUint size s in
        (s, match r with
            | Err e => if bool_decide (e = ErrCanonSize) then Err ErrCanonInt else Err e
            | Panic m => Panic m
            | Ok v => if (0 <? size) && (v <? 128) then Err ErrCanonSize else Ok v
            end)
  | Ok (List, _) => (s, Err ErrExpectedString)
  end.

Definition Stream_Uint (s : Stream) : Stream * result Z := Stream_uint 64 s.

Definition Stream_Bool (s : Stream) : Stream * result bool :=
  let '(s, r) := Stream_uint 8 s in
  (s, num ← r;
      if num =? 0 then Ok false
      else if num =? 1 then Ok true
      else Err (ErrorNew "rlp: invalid boolean value")).

(** [Raw]: the content behind a header written anew. *)
Definition Stream_Raw (s : Stream) : Stream * result bytes :=
  let '(s, r) := Stream_Kind s in
  match r with
  | Err e => (s, Err e)
  | Panic m => (s, Panic m)
  | Ok (Byte, _) => (set_kind None s, Ok [s_byteval s])
  | Ok (k, size) =>
      let '(s, r) := readFull size s in
      (s, b ← r;
          Ok ((if bool_decide (k = String) then puthead 0x80 0xB7 size
               else puthead 0xC0 0xF7 size) ++ b))
  end.

Definition Stream_List (s : Stream) : Stream * result Z :=
  let '(s, r) := Stream_Kind s in
  match r with
  | Err e => (s, Err e)
  | Panic m => (s, Panic m)
  | Ok (List, size) => (set_stack ((0, size) :: s_stack s) None 0 s, Ok size)
  | Ok _ => (s, Err ErrExpectedList)
  end.

Definition ListEnd (s : Stream) : Stream * result unit :=
  match s_stack s with
  | [] => (s, Err errNotInList)
  | (pos, size) :: st =>
      if negb (pos =? size) then (s, Err errNotAtEOL)
      else
        let st := match st with
                  | (pos', size') :: st => (pos' ⊞ size, size') :: st
                  | [] => []
                  end in
        (set_stack st None 0 s, Ok tt)
  end.

(** ** Decoding a value *)

(** [wrapStreamError]; the Go type named in the message is left out. *)
Definition wrapStreamError (err : error) : error :=
  if bool_decide (err = ErrCanonInt) then
    ErrorNew "rlp: non-canonical integer (leading zero bytes)"
  else if bool_decide (err = ErrCanonSize) then
    ErrorNew "rlp: non-canonical size information"
  else if bool_decide (err = ErrExpectedList) then ErrorNew "rlp: expected input list"
  else if bool_decide (err = ErrExpectedString) then
    ErrorNew "rlp: expected input string or byte"
  else if bool_decide (err = errUintOverflow) then ErrorNew "rlp: input string too long"
  else if bool_decide (err = errNotAtEOL) then
    ErrorNew "rlp: input list has too many elements"
  else err.

(** [decodeSliceElems]: decode elements until [EOL]. *)
Fixpoint decodeSliceElems {A} (elemdec : Stream → Stream * result A) (fuel : nat)
    (s : Stream) (acc : list A) : Stream * result (list A) :=
  match fuel with
  | O => (s, Panic "out of fuel")
  | S fuel =>
      let '(s, r) := elemdec s in
      match r with
      | Ok x => decodeSliceElems elemdec fuel s (acc ++ [x])
      | Err e => if bool_decide (e = EOL) then (s, Ok acc) else (s, Err e)
      | Panic m => (s, Panic m)
      end
  end.

Definition ListEnd_with {A} (x : A) (s : Stream) : Stream * result A :=
  let '(s, r) := ListEnd s in (s, _ ← r; Ok x).

Definition decodeListSlice {A} (elemdec : Stream → Stream * result A) (fuel : nat)
    (s : Stream) : Stream * result (list A) :=
  let '(s, r) := Stream_List s in
  match r with
  | Err e => (s, Err (wrapStreamError e))
  | Panic m => (s, Panic m)
  | Ok size =>
      if size =? 0 then ListEnd_with [] s
      else
        let '(s, r) := decodeSliceElems elemdec fuel s [] in
        match r with
        | Err e => (s, Err e)
        | Panic m => (s, Panic m)
        | Ok l => ListEnd_with l s
        end
  end.

Fixpoint decodeInterface (fuel : nat) (s : Stream) : Stream * result item :=
  match fuel with
  | O => (s, Panic "out of fuel")
  | S fuel =>
      let '(s, r) := Stream_Kind s in
      match r with
      | Err e => (s, Err e)
      | Panic m => (s, Panic m)
      | Ok (k, _) =>
          if bool_decide (k = List) then
            let '(s, r) := decodeListSlice (decodeInterface fuel) fuel s in (s, l ← r; Ok (Lst l))
          else let '(s, r) := Stream_Bytes s in (s, b ← r; Ok (Str b))
      end
  end.

(** [DecodeBytes] into an [interface{}].  Every call below the top consumes a
    byte or ends a list, so the input's length bounds the nesting. *)
Definition DecodeBytes (b : bytes) : result item :=
  let '(s, r) := decodeInterface (S (S (length b))) (ResetBytes b) in
  x ← r;
  if 0 <? len (s_r s) then Err ErrMoreThanOneValue else Ok x.

(** ** Positions *)

(** Room for [n] more bytes: in the innermost list and under the input limit. *)
Definition room (n : Z) (s : Stream) : Prop :=
  match s_stack s with (p, z) :: _ => p + n <= z | [] => True end ∧
  (s_limited s = true → n <= s_remaining s).

Definition wf_stream (s : Stream) : Prop :=
  Forall (λ e : Z * Z, 0 <= e.1 <= e.2 ∧ e.2 < 2 ^ 64) (s_stack s) ∧
  is_u64 (s_remaining s) ∧ s_rerr s ≠ EOL.

Definition move_stack (n : Z) (st : list (Z * Z)) : list (Z * Z) :=
  match st with (p, z) :: st => (p + n, z) :: st | [] => [] end.

(** [s'] is [s] after the bytes [c] were read. *)
Record adv (c : bytes) (s s' : Stream) : Prop := {
  adv_r : s_r s = c ++ s_r s';
  adv_rerr : s_rerr s' = s_rerr s;
  adv_limited : s_limited s' = s_limited s;
  adv_remaining : s_remaining s' = if s_limited s then s_remaining s - len c else s_remaining s;
  adv_stack : s_stack s' = move_stack (len c) (s_stack s) }.

Lemma adv_nil s : adv [] s s.
Proof.
  split; try done; rewrite len_nil.
  - destruct (s_limited s); lia.
  - destruct (s_stack s) as [|[p z] st]; cbn; [done|]. by rewrite Z.add_0_r.
Qed.

Lemma adv_trans c1 c2 s s1 s2 : adv c1 s s1 → adv c2 s1 s2 → adv (c1 ++ c2) s s2.
Proof.
  intros [R1 E1 L1 M1 S1] [R2 E2 L2 M2 S2]. split; try congruence.
  - by rewrite R1, R2, app_assoc.
  - rewrite M2, L1, M1, len_app. destruct (s_limited s); lia.
  - rewrite S2, S1, len_app. destruct (s_stack s) as [|[p z] st]; cbn; [done|].
    by rewrite Z.add_assoc.
Qed.

(** Fields that do not belong to the position. *)
Lemma adv_ext c s s1 s2 :
  adv c s s1 → s_r s2 = s_r s1 → s_rerr s2 = s_rerr s1 → s_limited s2 = s_limited s1 →
  s_remaining s2 = s_remaining s1 → s_stack s2 = s_stack s1 → adv c s s2.
Proof. intros [R E L M S] ?????. split; congruence. Qed.

Lemma wf_adv c s s' : wf_stream s → room (len c) s → adv c s s' → wf_stream s'.
Proof.
  intros (Hs & Hr & He) (Hroom & Hlim) [R E L M S]. pose proof (len_nonneg c).
  repeat split; [| | |congruence].
  - rewrite S. destruct (s_stack s) as [|[p z] st]; cbn; [done|].
    apply Forall_cons_1 in Hs as [? Hs]. constructor; [|done]. cbn in *. lia.
  - rewrite M. unfold is_u64 in Hr. destruct (s_limited s); [specialize (Hlim eq_refl)|]; lia.
  - rewrite M. unfold is_u64 in Hr. destruct (s_limited s); lia.
Qed.

Lemma room_adv n c s s' : room (len c + n) s → adv c s s' → room n s'.
Proof.
  intros (H1 & H2) [R E L M S]. split.
  - rewrite S. destruct (s_stack s) as [|[p z] st]; cbn in *; [done|lia].
  - rewrite L, M. intros Hl. specialize (H2 Hl). rewrite Hl. lia.
Qed.

Lemma adv_room n c s s' : room n s' → adv c s s' → room (len c + n) s.
Proof.
  intros (H1 & H2) [R E L M S]. split.
  - rewrite S in H1. destruct (s_stack s) as [|[p z] st]; cbn in *; [done|lia].
  - rewrite L, M in H2. intros Hl. specialize (H2 Hl). rewrite Hl in H2. lia.
Qed.

Lemma room_le n m s : m <= n → room n s → room m s.
Proof.
  intros Hm (H1 & H2). split; [|intros Hl; specialize (H2 Hl); lia].
  destruct (s_stack s) as [|[p z] st]; [done|lia].
Qed.

(** ** Reading bytes *)

(** The state after [n] bytes were accounted for and [r] is left. *)
Definition moved (n : Z) (r : bytes) (s : Stream) : Stream :=
  mkStream r (s_rerr s) (if s_limited s then s_remaining s - n else s_remaining s)
    (s_limited s) None (s_size s) (s_byteval s) (s_kinderr s) (move_stack n (s_stack s)).

Lemma adv_moved c r s : s_r s = c ++ r → adv c s (moved (len c) r s).
Proof. intros. by split. Qed.

Lemma top_room s p z st n :
  wf_stream s → s_stack s = (p, z) :: st → 0 <= n →
  (z ⊟ p <? n) = negb (p + n <=? z) ∧ (p + n <= z → p ⊞ n = p + n).
Proof.
  intros (Hs & _) E Hn. rewrite E in Hs. apply Forall_cons_1 in Hs as [[Hp Hz] _]. cbn in *.
  rewrite u64_small by (unfold is_u64; lia). split.
  - destruct (Z.ltb_spec (z - p) n), (Z.leb_spec (p + n) z); cbn; lia.
  - intros. apply u64_small. unfold is_u64. lia.
Qed.

Lemma willRead_room n s :
  wf_stream s → 0 <= n → room n s → willRead n s = (moved n (s_r s) s, None).
Proof.
  intros Hwf Hn [Ht Hl]. unfold willRead, moved.
  cbn [set_kind s_stack s_limited s_remaining].
  assert (Hrem : s_limited s = true → (s_remaining s <? n) = false ∧
                 s_remaining s ⊟ n = s_remaining s - n).
  { intros E. specialize (Hl E). destruct Hwf as (_ & Hu & _). unfold is_u64 in Hu.
    split; [apply Z.ltb_ge; lia|]. apply u64_small. unfold is_u64. lia. }
  destruct (s_stack s) as [|[p z] st] eqn:E; cbn [move_stack].
  - cbn [set_kind s_limited s_remaining]. destruct (s_limited s) eqn:El.
    + destruct Hrem as [-> ->]; [done|]. unfold set_remaining, set_kind. cbn. by rewrite E, El.
    + unfold set_kind. cbn. by rewrite E, El.
  - destruct (top_room s p z st n Hwf E Hn) as [-> Hp]. rewrite Hp by done.
    destruct (Z.leb_spec (p + n) z); [|lia]. cbn. destruct (s_limited s) eqn:El.
    + destruct Hrem as [-> ->]; [done|]. unfold set_remaining. cbn. by rewrite El.
    + unfold set_stack. cbn. by rewrite El.
Qed.

Lemma willRead_err n s s' e :
  wf_stream s → 0 <= n → willRead n s = (s', Some e) → ¬ room n s ∧ e ≠ EOL.
Proof.
  intros Hwf Hn H. split; [intros Hr; by rewrite willRead_room in H|].
  unfold willRead in H. cbn [set_kind s_stack s_limited s_remaining s_kind s_size] in H.
  repeat case_match; simplify_eq/=; done.
Qed.

Lemma willRead_cases n s :
  wf_stream s → 0 <= n →
  (room n s ∧ willRead n s = (moved n (s_r s) s, None)) ∨
  (¬ room n s ∧ ∃ s' e, willRead n s = (s', Some e) ∧ e ≠ EOL).
Proof.
  intros Hwf Hn. destruct (willRead n s) as [s' [e|]] eqn:E.
  - right. destruct (willRead_err n s s' e) as [? ?]; [done..|]. split; [done|].
    by eexists _, _.
  - left. assert (room n s) as Hr.
    { unfold willRead in E. cbn [set_kind s_stack s_limited s_remaining s_kind s_size] in E.
      unfold room. destruct (s_stack s) as [|[p z] st] eqn:Es.
      - split; [done|]. intros El. cbn in E. rewrite El in E.
        destruct (s_remaining s <? n) eqn:Er; [done|]. bool_props. lia.
      - destruct (top_room s p z st n Hwf Es Hn) as [Ht _]. rewrite Ht in E.
        destruct (p + n <=? z) eqn:Ep; [|done]. bool_props. split; [lia|].
        intros El. cbn in E. rewrite El in E.
        destruct (s_remaining s <? n) eqn:Er; [done|]. bool_props. lia. }
    split; [done|]. rewrite <- E. by apply willRead_room.
Qed.

Lemma reader_end_ne s : s_rerr s ≠ EOL → reader_end s ≠ EOL.
Proof. unfold reader_end. case_bool_decide; [done|auto]. Qed.

(** [readFull] either delivers the next [n] bytes and advances over them, or
    fails with an error other than [EOL]. *)
Lemma readFull_cases n s :
  wf_stream s → 0 <= n →
  (∃ c r, s_r s = c ++ r ∧ len c = n ∧ room n s ∧ readFull n s = (moved n r s, Ok c)) ∨
  ((¬ room n s ∨ len (s_r s) < n) ∧ ∃ s' e, readFull n s = (s', Err e) ∧ e ≠ EOL).
Proof.
  intros Hwf Hn. unfold readFull.
  destruct (willRead_cases n s Hwf Hn) as [[Hr ->]|(Hr & s' & e & -> & He)].
  - cbn [moved s_r]. destruct (len (s_r s) <? n) eqn:El; bool_props.
    + right. split; [by right|]. eexists _, _. split; [done|]. apply reader_end_ne. apply Hwf.
    + left. exists (take (Z.to_nat n) (s_r s)), (drop (Z.to_nat n) (s_r s)).
      rewrite take_drop. split_and!; try done. unfold len in *. rewrite length_take. lia.
  - right. split; [by left|]. by eexists _, _.
Qed.

Lemma readByte_cases s :
  wf_stream s →
  (∃ b r, s_r s = b :: r ∧ room 1 s ∧ readByte s = (moved 1 r s, Ok b)) ∨
  ((¬ room 1 s ∨ s_r s = []) ∧ ∃ s' e, readByte s = (s', Err e) ∧ e ≠ EOL).
Proof.
  intros Hwf. unfold readByte.
  destruct (willRead_cases 1 s Hwf) as [[Hr ->]|(Hr & s' & e & -> & He)]; [done| |].
  - cbn [moved s_r]. destruct (s_r s) as [|b r] eqn:E.
    + right. split; [by right|]. eexists _, _. split; [done|]. apply reader_end_ne. apply Hwf.
    + left. exists b, r. done.
  - right. split; [by left|]. by eexists _, _.
Qed.

(** Sizes behind a tag: exactly the shortest form of a size of at least 56. *)
Lemma readLongSize_cases slen s :
  wf_stream s → 1 <= slen <= 8 →
  (∃ n r, s_r s = putint n ++ r ∧ len (putint n) = slen ∧ 56 <= n < 2 ^ 64 ∧ room slen s ∧
     readLongSize slen s = (moved slen r s, (n, None))) ∨
  (∃ s' n e, readLongSize slen s = (s', (n, Some e)) ∧ e ≠ EOL).
Proof.
  intros Hwf Hs. unfold readLongSize, readUint.
  destruct (Z.eqb_spec slen 0) as [|_]; [lia|].
  destruct (Z.eqb_spec slen 1) as [->|Hs1].
  - destruct (readByte_cases s Hwf) as [(b & r & E & Hr & ->)|(_ & s' & e & -> & He)].
    + cbn. pose proof (byte_val_range b).
      destruct (byte_val b <? 56) eqn:Eb; bool_props.
      * right. eexists _, _, _. split; [done|]. done.
      * left. exists (byte_val b), r.
        assert (Hp : putint (byte_val b) = [b]).
        { rewrite (putint_be 1); [|split; [lia|split; [by left|cbn; lia]]].
          unfold be_encode. cbn. by rewrite byte_of_Z_val. }
        rewrite Hp. split_and!; try done; lia.
    + right. by eexists _, _, _.
  - destruct (readFull_cases slen s Hwf) as [(c & r & E & Hl & Hr & ->)|(_ & s' & e & -> & He)];
      [lia| |right; by eexists _, _, _].
    cbn [mbind result_bind]. case_bool_decide as Hh; [right; by eexists _, _, _|].
    assert (Hm : min_bytes (length c) (be_decode c)).
    { apply min_bytes_decode; [|unfold len in Hl; lia|done]. intros ->. rewrite len_nil in Hl. lia. }
    assert (Hp : putint (be_decode c) = c) by (rewrite (putint_be _ _ Hm); apply be_encode_decode).
    destruct (be_decode c <? 56) eqn:Eb; bool_props; [right; by eexists _, _, _|].
    left. exists (be_decode c), r. rewrite Hp. split_and!; try done.
    eapply Z.lt_le_trans; [apply be_decode_bound|]. change (2 ^ 64) with (256 ^ 8).
    apply Z.pow_le_mono_r; unfold len in Hl; lia.
Qed.

Lemma readLongSize_complete n r s :
  wf_stream s → 56 <= n < 2 ^ 64 → s_r s = putint n ++ r → room (len (putint n)) s →
  readLongSize (len (putint n)) s = (moved (len (putint n)) r s, (n, None)).
Proof.
  intros Hwf Hn Hr Hroom. assert (Hu : is_u64 n) by (unfold is_u64; lia).
  destruct (putint_min n Hu) as (m & Hm & Hp). pose proof (putint_length_range n Hu).
  unfold readLongSize, readUint.
  destruct (Z.eqb_spec (len (putint n)) 0) as [|_]; [lia|].
  destruct (Z.eqb_spec (len (putint n)) 1) as [E1|Hs1].
  - destruct (readByte_cases s Hwf) as [(b & r' & E & _ & ->)|([Hf|Hf] & _)].
    + rewrite E1. rewrite E in Hr. destruct (putint n) as [|b' [|]] eqn:Epn; try done;
        [|rewrite !len_cons in E1; pose proof (len_nonneg l); lia].
      injection Hr as <- <-. cbn. rewrite <- Epn in Hp.
      assert (byte_val b = n) as ->.
      { transitivity (be_decode [b]); [unfold be_decode; cbn; lia|].
        rewrite <- Epn, Hp. apply be_decode_encode_small. apply Hm. }
      destruct (Z.ltb_spec n 56); [lia|done].
    + rewrite E1 in Hroom. contradiction.
    + rewrite Hf in Hr. destruct (putint n); [|done]. by rewrite len_nil in E1.
  - destruct (readFull_cases (len (putint n)) s Hwf) as [(c & r' & E & Hl & _ & ->)|([Hf|Hf] & _)];
      [lia| |contradiction|].
    + rewrite E in Hr. apply app_inj_1 in Hr as [-> ->]; [|unfold len in Hl; lia].
      cbn [mbind result_bind]. rewrite bool_decide_eq_false_2.
      * rewrite Hp, be_decode_encode_small by apply Hm.
        destruct (Z.ltb_spec n 56); [lia|done].
      * rewrite Hp. apply min_bytes_head; [done|lia].
    + rewrite Hr, len_app in Hf. pose proof (len_nonneg r). lia.
Qed.

(** ** Kinds *)

(** The bytes [Kind] consumes; a single byte is its own tag. *)
Definition ktag (k : Kind) (n : Z) (x : byte) : bytes :=
  match k with Byte => [x] | _ => value_tag k n end.

Definition kind_ok (k : Kind) (n : Z) (x : byte) : Prop :=
  is_u64 n ∧ (k = Byte → n = 0 ∧ byte_val x < 128).

(** The stream just behind a tag. *)
Definition behind (k : Kind) (n : Z) (x : byte) (s s' : Stream) : Prop :=
  adv (ktag k n x) s s' ∧ (k = Byte → s_byteval s' = x).

Lemma len_ktag_pos k n x : kind_ok k n x → 1 <= len (ktag k n x).
Proof.
  intros [Hu _]. destruct k; cbn [ktag value_tag]; [done| |];
    (destruct (puthead_cases 0x80 0xB7 n Hu) as [[_ E]|(_ & E & ?)];
     destruct (puthead_cases 0xC0 0xF7 n Hu) as [[_ E']|(_ & E' & ?)];
     rewrite ?E, ?E', len_cons; pose proof (@len_nonneg byte); rewrite ?len_nil; lia).
Qed.

Lemma behind_moved k n x r s s' :
  s_r s = ktag k n x ++ r → s_r s' = r → s_rerr s' = s_rerr s → s_limited s' = s_limited s →
  s_remaining s' = (if s_limited s then s_remaining s - len (ktag k n x) else s_remaining s) →
  s_stack s' = move_stack (len (ktag k n x)) (s_stack s) →
  (k = Byte → s_byteval s' = x) → behind k n x s s'.
Proof. intros. split; [|done]. split; congruence. Qed.

Lemma moved_twice b (l : bytes) r s :
  s_r s = b :: l ++ r → adv (b :: l) s (moved (len l) r (set_byteval x00 (moved 1 (l ++ r) s))).
Proof.
  intros Hr. split; cbn; try done; rewrite len_cons.
  - destruct (s_limited s); lia.
  - destruct (s_stack s) as [|[p z] st]; cbn; [done|]. do 2 f_equal. lia.
Qed.

Lemma adv_moved1 b r s x : s_r s = b :: r → adv [b] s (set_byteval x (moved 1 r s)).
Proof. intros E. eapply adv_ext; [by apply (adv_moved [b] r)|done..]. Qed.

Lemma wf_moved1 b r s :
  wf_stream s → room 1 s → s_r s = b :: r → wf_stream (set_byteval x00 (moved 1 r s)).
Proof. intros Hwf Hr E. eapply (wf_adv [b]); [done..|]. by apply adv_moved1. Qed.

Lemma room_moved1 n b r s :
  room (1 + n) s → s_r s = b :: r → room n (set_byteval x00 (moved 1 r s)).
Proof. intros Hr E. apply (room_adv n [b] s); [done|]. by apply adv_moved1. Qed.

Lemma moved1_room n b r s :
  s_r s = b :: r → room n (set_byteval x00 (moved 1 r s)) → room (1 + n) s.
Proof. intros E Hr. apply (adv_room n [b] s _ Hr). by apply adv_moved1. Qed.

Lemma Stream_readKind_cases s :
  wf_stream s →
  (∃ k n x s', kind_ok k n x ∧ room (len (ktag k n x)) s ∧ behind k n x s s' ∧
     Stream_readKind s = (s', (k, n, None))) ∨
  (∃ s' k n e, Stream_readKind s = (s', (k, n, Some e)) ∧ e ≠ EOL).
Proof.
  intros Hwf. unfold Stream_readKind.
  destruct (readByte_cases s Hwf) as [(b & r & E & Hr & ->)|(_ & s' & e & -> & He)].
  2:{ right. eexists _, _, _, _. split; [done|]. case_match; done. }
  pose proof (byte_val_range b) as Hb.
  pose proof (wf_moved1 b r s Hwf Hr E) as Hwf1.
  destruct (byte_val b <? 0x80) eqn:E1; [|destruct (byte_val b <? 0xB8) eqn:E2;
    [|destruct (byte_val b <? 0xC0) eqn:E3; [|destruct (byte_val b <? 0xF8) eqn:E4]]];
    bool_props.
  - left. exists Byte, 0, b. eexists. split; [|split; [exact Hr|split; [|done]]].
    + split; [done|]. intros _. split; [done|lia].
    + split; [|done]. cbn [ktag]. eapply adv_ext; [by apply (adv_moved1 b r s x00)|done..].
  - left. exists String, (byte_val b - 0x80), b. eexists.
    split_and!; [split; [unfold is_u64; lia|done]| | |done];
      unfold behind; cbn [ktag value_tag]; rewrite puthead_short by lia; [done|].
    split; [by apply (adv_moved1 b r)|done].
  - destruct (readLongSize_cases (byte_val b - 0xB7) _ Hwf1)
      as [(n & r' & En & Hl & Hn & Hr' & ->)|(s' & n & e & -> & He)]; [lia| |right; by eexists _, _, _, _].
    cbn in En. subst r. left. exists String, n, b. eexists.
    split_and!; [split; [unfold is_u64; lia|done]| | |done];
      unfold behind; cbn [ktag value_tag]; rewrite (puthead_long _ _ b) by lia.
    + rewrite len_cons. eapply moved1_room; [done|]. by rewrite Hl.
    + rewrite <- Hl. split; [by apply moved_twice|done].
  - left. exists List, (byte_val b - 0xC0), b. eexists.
    split_and!; [split; [unfold is_u64; lia|done]| | |done];
      unfold behind; cbn [ktag value_tag]; rewrite puthead_short by lia; [done|].
    split; [by apply (adv_moved1 b r)|done].
  - destruct (readLongSize_cases (byte_val b - 0xF7) _ Hwf1)
      as [(n & r' & En & Hl & Hn & Hr' & ->)|(s' & n & e & -> & He)]; [lia| |right; by eexists _, _, _, _].
    cbn in En. subst r. left. exists List, n, b. eexists.
    split_and!; [split; [unfold is_u64; lia|done]| | |done];
      unfold behind; cbn [ktag value_tag]; rewrite (puthead_long _ _ b) by lia.
    + rewrite len_cons. eapply moved1_room; [done|]. by rewrite Hl.
    + rewrite <- Hl. split; [by apply moved_twice|done].
Qed.

(** A tag that is there is read. *)
Lemma Stream_readKind_complete k n x r s :
  wf_stream s → kind_ok k n x → s_r s = ktag k n x ++ r → room (len (ktag k n x)) s →
  ∃ s', Stream_readKind s = (s', (k, n, None)) ∧ behind k n x s s'.
Proof.
  intros Hwf Hk Hr Hroom. pose proof (len_ktag_pos k n x Hk) as Hpos.
  unfold Stream_readKind.
  destruct (readByte_cases s Hwf) as [(b & r0 & E & Hr1 & ->)|([Hf|Hf] & _)].
  2:{ destruct Hf. eapply room_le; [|done]. lia. }
  2:{ rewrite Hf in Hr. destruct (ktag k n x); [by rewrite len_nil in Hpos|done]. }
  pose proof (wf_moved1 b r0 s Hwf Hr1 E) as Hwf1. destruct Hk as [Hu Hbyte].
  unfold is_u64 in Hu. destruct k; cbn [ktag value_tag] in Hr, Hroom.
  - destruct Hbyte as [-> Hx]; [done|]. rewrite E in Hr. injection Hr as -> ->.
    pose proof (byte_val_range x). tag_cases. eexists. split; [done|]. split; [|done].
    cbn [ktag]. eapply adv_ext; [by apply (adv_moved1 x r s x00)|done..].
  - destruct (puthead_cases 0x80 0xB7 n Hu) as [[Hn Et]|(Hn & Et & Hl)];
      rewrite Et in Hr, Hroom; rewrite E in Hr; injection Hr as -> ->;
      rewrite byte_val_tag by lia; tag_cases; rewrite Z.add_simpl_l.
    + eexists. split; [done|]. split; [|done]. cbn [ktag value_tag]. rewrite Et.
      by apply adv_moved1.
    + rewrite len_cons in Hroom. rewrite (readLongSize_complete n r); [|done|lia|done|].
      * eexists. split; [done|]. split; [|done]. cbn [ktag value_tag]. rewrite Et.
        by apply moved_twice.
      * eapply room_moved1; [done|]. done.
  - destruct (puthead_cases 0xC0 0xF7 n Hu) as [[Hn Et]|(Hn & Et & Hl)];
      rewrite Et in Hr, Hroom; rewrite E in Hr; injection Hr as -> ->;
      rewrite byte_val_tag by lia; tag_cases; rewrite Z.add_simpl_l.
    + eexists. split; [done|]. split; [|done]. cbn [ktag value_tag]. rewrite Et.
      by apply adv_moved1.
    + rewrite len_cons in Hroom. rewrite (readLongSize_complete n r); [|done|lia|done|].
      * eexists. split; [done|]. split; [|done]. cbn [ktag value_tag]. rewrite Et.
        by apply moved_twice.
      * eapply room_moved1; [done|]. done.
Qed.

(** Positioned at the end of the innermost list. *)
Definition at_eol (s : Stream) : bool :=
  match s_stack s with (p, z) :: _ => p =? z | [] => false end.

(** The value ahead has been announced by [Kind]. *)
Definition announced (k : Kind) (n : Z) (x : byte) (s s' : Stream) : Prop :=
  behind k n x s s' ∧ s_kind s' = Some k ∧ s_size s' = n ∧ s_kinderr s' = None.

(** The innermost list has room for [n] bytes. *)
Definition fits (n : Z) (s : Stream) : Prop :=
  match s_stack s with (p, z) :: _ => p + n <= z | [] => True end.

Lemma Stream_Kind_cached k s :
  s_kind s = Some k → s_kinderr s = None → Stream_Kind s = (s, Ok (k, s_size s)).
Proof. intros Hk He. unfold Stream_Kind. rewrite Hk, He. done. Qed.

Lemma Stream_Kind_eol s :
  s_kind s = None → at_eol s = true →
  Stream_Kind s = (set_kindinfo None (s_size s) None s, Err EOL).
Proof.
  intros Hk H. unfold Stream_Kind, at_eol in *. rewrite Hk. cbn [set_kindinfo s_stack].
  destruct (s_stack s) as [|[p z] st]; [done|]. by rewrite H.
Qed.

(** [Kind] on a fresh value whose tag was read: it announces the value when it
    fits, and otherwise fails. *)
Lemma Stream_Kind_after s k n x s' :
  wf_stream s → s_kind s = None → at_eol s = false → kind_ok k n x →
  room (len (ktag k n x)) s → behind k n x s s' →
  Stream_readKind (set_kindinfo None (s_size s) None s) = (s', (k, n, None)) →
  (fits n s' ∧ ∃ s1, Stream_Kind s = (s1, Ok (k, n)) ∧ announced k n x s s1) ∨
  (¬ room n s' ∧ ∃ s1 e, Stream_Kind s = (s1, Err e) ∧ e ≠ EOL).
Proof.
  intros Hwf Hk Heol Hko Hroom Hb HR. destruct Hb as [Ha Hby].
  pose proof (wf_adv _ _ _ Hwf Hroom Ha) as Hwf'. destruct Hko as [Hu _]. unfold is_u64 in Hu.
  assert (Hann : announced k n x s (set_kindinfo (Some k) n None s')).
  { split; [|done]. split; [|done]. by eapply adv_ext. }
  pose proof (adv_stack _ _ _ Ha) as Hst.
  unfold Stream_Kind, fits, room. rewrite Hk. unfold at_eol in Heol.
  cbn [set_kindinfo s_stack] in *. rewrite HR. clear HR.
  destruct (s_stack s) as [|[p z] st]; cbn [move_stack] in Hst; rewrite Hst.
  - destruct (s_limited s' && (s_remaining s' <? n)) eqn:El; cbn [set_kindinfo s_kinderr s_kind].
    + right. split; [|by eexists _, _]. bool_props. intros [_ Hx]. specialize (Hx ltac:(done)). lia.
    + left. split; [done|]. by eexists.
  - rewrite Heol. destruct (top_room s' _ _ _ n Hwf' Hst) as [-> _]; [lia|].
    destruct (p + len (ktag k n x) + n <=? z) eqn:Ez; cbn; bool_props.
    + left. split; [done|]. by eexists.
    + right. split; [lia|]. by eexists _, _.
Qed.

Lemma behind_reset k n x s s' m :
  behind k n x (set_kindinfo None m None s) s' → behind k n x s s'.
Proof. intros [[R E L M S] ?]. by split. Qed.

Lemma Stream_Kind_cases s :
  wf_stream s → s_kind s = None → at_eol s = false →
  (∃ k n x s1, kind_ok k n x ∧ room (len (ktag k n x)) s ∧ fits n s1 ∧
     Stream_Kind s = (s1, Ok (k, n)) ∧ announced k n x s s1) ∨
  (∃ s1 e, Stream_Kind s = (s1, Err e) ∧ e ≠ EOL).
Proof.
  intros Hwf Hk Heol.
  destruct (Stream_readKind_cases (set_kindinfo None (s_size s) None s) Hwf)
    as [(k & n & x & s' & Hko & Hr & Hb%behind_reset & HR)|(s' & k & n & e & HR & He)].
  - destruct (Stream_Kind_after s k n x s') as [(Hf & s1 & HK & Ha)|(_ & H)]; try done; [left|by right].
    exists k, n, x, s1. split_and!; try done.
    destruct Ha as [[Ha _] _], Hb as [Hb _]. unfold fits in *.
    by rewrite (adv_stack _ _ _ Ha), <- (adv_stack _ _ _ Hb).
  - right. unfold Stream_Kind. rewrite Hk. unfold at_eol in Heol. cbn [set_kindinfo s_stack] in *.
    rewrite HR. destruct (s_stack s) as [|[p z] st]; [|rewrite Heol];
      eexists _, e; (split; [|done]); cbn; by repeat case_match.
Qed.

(** A value that is there and has room is announced. *)
Lemma Stream_Kind_complete k n x r s :
  wf_stream s → s_kind s = None → kind_ok k n x → s_r s = ktag k n x ++ r →
  room (len (ktag k n x) + n) s →
  ∃ s1, Stream_Kind s = (s1, Ok (k, n)) ∧ announced k n x s s1.
Proof.
  intros Hwf Hk Hko Hr Hroom. pose proof (len_ktag_pos _ _ _ Hko) as Hpos.
  assert (Hn : 0 <= n) by (destruct Hko as [[? ?] _]; lia).
  assert (Hroom1 : room (len (ktag k n x)) s) by (eapply room_le; [|done]; lia).
  destruct (Stream_readKind_complete k n x r (set_kindinfo None (s_size s) None s))
    as (s' & HR & Hb%behind_reset); [done..|].
  assert (Heol : at_eol s = false).
  { unfold at_eol. destruct Hroom as [Ht _]. destruct (s_stack s) as [|[p z] st]; [done|].
    apply Z.eqb_neq. lia. }
  destruct (Stream_Kind_after s k n x s') as [(_ & H)|(Hf & _)]; try done.
  destruct Hf. eapply room_adv; [exact Hroom|apply Hb].
Qed.

(** ** Strings *)

Lemma announced_rearm k n x s s1 : announced k n x s s1 → adv (ktag k n x) s (set_kind None s1).
Proof. intros [[Ha _] _]. by eapply adv_ext. Qed.

(** The operations first ask for the kind, so asking before changes nothing. *)
Lemma Stream_Bytes_cached s s1 k n x :
  Stream_Kind s = (s1, Ok (k, n)) → announced k n x s s1 → Stream_Bytes s1 = Stream_Bytes s.
Proof.
  intros HK (_ & Hk & <- & He). unfold Stream_Bytes. by rewrite HK, (Stream_Kind_cached k).
Qed.

Lemma Stream_List_cached s s1 k n x :
  Stream_Kind s = (s1, Ok (k, n)) → announced k n x s s1 → Stream_List s1 = Stream_List s.
Proof.
  intros HK (_ & Hk & <- & He). unfold Stream_List. by rewrite HK, (Stream_Kind_cached k).
Qed.

Lemma announced_wf k n x s s1 :
  wf_stream s → room (len (ktag k n x)) s → announced k n x s s1 → wf_stream s1.
Proof. intros Hwf Hr [[Ha _] _]. by eapply wf_adv. Qed.

Lemma enc_string_tag b :
  (∃ x, b = [x] ∧ byte_val x < 128 ∧ enc_string b = ktag Byte 0 x) ∨
  (¬ single_byte b ∧ ∀ x, enc_string b = ktag String (len b) x ++ b).
Proof.
  destruct (rlp_enc_tag (Str b)) as [E Hk]. cbn [rlp_enc item_content] in *. rewrite E.
  destruct (item_kind (Str b)) eqn:Ek.
  - left. destruct Hk as (x & -> & Hx). by exists x.
  - right. done.
  - cbn in Ek. repeat case_match; done.
Qed.

Lemma small_head_single (b : bytes) :
  (len b =? 1) && match b with [b0] => byte_val b0 <? 128 | _ => false end = true ↔
  single_byte b.
Proof.
  split.
  - intros H. bool_props. destruct b as [|x [|]]; try done. bool_props. by exists x.
  - intros (x & -> & Hx). cbn. by apply Z.ltb_lt.
Qed.

Lemma Stream_Bytes_complete b r s :
  wf_stream s → s_kind s = None → len b < 2 ^ 64 →
  s_r s = enc_string b ++ r → room (len (enc_string b)) s →
  ∃ s', Stream_Bytes s = (s', Ok b) ∧ adv (enc_string b) s s' ∧ s_kind s' = None.
Proof.
  intros Hwf Hk Hlen Hr Hroom. unfold Stream_Bytes.
  destruct (enc_string_tag b) as [(x & -> & Hx & E)|[Hs E]].
  - rewrite E in *. destruct (Stream_Kind_complete Byte 0 x r s) as (s1 & -> & Ha); try done.
    eexists. split; [|split; [by apply announced_rearm|done]].
    destruct Ha as [[_ Hb] _]. by rewrite Hb.
  - pose proof (len_nonneg b). rewrite (E x00) in *. rewrite <- app_assoc in Hr.
    rewrite len_app in Hroom.
    assert (Hko : kind_ok String (len b) x00) by (split; [unfold is_u64; lia|done]).
    destruct (Stream_Kind_complete String (len b) x00 (b ++ r) s) as (s1 & -> & Ha); try done.
    assert (Hwf1 : wf_stream s1).
    { eapply announced_wf; [done| |exact Ha]. eapply room_le; [|done]. lia. }
    destruct Ha as [[Ha _] _]. pose proof (room_adv _ _ _ _ Hroom Ha) as Hr1.
    assert (Hs1 : s_r s1 = b ++ r).
    { pose proof (adv_r _ _ _ Ha) as Hx. rewrite Hr in Hx. by apply app_inv_head in Hx. }
    destruct (readFull_cases (len b) s1 Hwf1) as [(c & r' & Hc & Hl & _ & ->)|([Hf|Hf] & _)];
      [lia| |done|rewrite Hs1, len_app in Hf; pose proof (len_nonneg r); lia].
    rewrite Hs1 in Hc. apply app_inj_1 in Hc as [<- <-]; [|unfold len in Hl; lia].
    cbn [mbind result_bind].
    destruct ((len b =? 1) && _) eqn:Es; [by apply small_head_single in Es|].
    eexists. split; [done|]. split; [|done]. eapply adv_trans; [exact Ha|]. by apply adv_moved.
Qed.

(** What is read as a string is the encoding of that string; only the end of
    the enclosing list is reported as [EOL]. *)
Lemma Stream_Bytes_sound s s' r :
  wf_stream s → s_kind s = None → Stream_Bytes s = (s', r) →
  match r with
  | Ok b => adv (enc_string b) s s' ∧ room (len (enc_string b)) s ∧ s_kind s' = None ∧
            len b < 2 ^ 64
  | Err e => e = EOL → at_eol s = true
  | Panic _ => False
  end.
Proof.
  intros Hwf Hk H. unfold Stream_Bytes in H. destruct (at_eol s) eqn:Heol.
  { rewrite Stream_Kind_eol in H by done. by injection H as <- <-. }
  destruct (Stream_Kind_cases s Hwf Hk Heol)
    as [(k & n & x & s1 & Hko & Hr & Hf & HK & Ha)|(s1 & e & HK & He)]; rewrite HK in H.
  2:{ injection H as <- <-. intros ->. done. }
  pose proof (announced_wf _ _ _ _ _ Hwf Hr Ha) as Hwf1.
  destruct Hko as [Hu Hbyte]. unfold is_u64 in Hu. destruct k.
  - injection H as <- <-. destruct Hbyte as [-> Hx]; [done|].
    pose proof (announced_rearm _ _ _ _ _ Ha) as Hadv. destruct Ha as [[_ Hb] _]. rewrite Hb by done.
    assert (enc_string [x] = [x]) as ->.
    { cbn. destruct (Z.leb_spec (byte_val x) 0x7F); [done|lia]. }
    done.
  - destruct (readFull_cases n s1 Hwf1) as [(c & r' & Hc & Hl & Hr1 & HF)|(_ & s2 & e & HF & He)];
      [lia| |]; rewrite HF in H; cbn [mbind result_bind] in H; injection H as <- <-;
      [|intros ->; done].
    destruct ((n =? 1) && _) eqn:Es; [done|]. rewrite <- Hl in Es.
    destruct (enc_string_tag c) as [(y & -> & Hy & _)|[_ E]].
    { cbn in Es. apply Z.ltb_ge in Es. lia. }
    rewrite (E x), Hl, len_app, Hl. destruct Ha as [[Ha _] _]. split_and!; [| |done|lia].
    + eapply adv_trans; [exact Ha|]. rewrite <- Hl. by apply adv_moved.
    + by eapply adv_room.
  - injection H as <- <-. done.
Qed.

(** ** Lists *)

(** [s1] is [s0] inside a list of [n] bytes. *)
Record opened (n : Z) (s0 s1 : Stream) : Prop := {
  op_r : s_r s1 = s_r s0;
  op_rerr : s_rerr s1 = s_rerr s0;
  op_limited : s_limited s1 = s_limited s0;
  op_remaining : s_remaining s1 = s_remaining s0;
  op_stack : s_stack s1 = (0, n) :: s_stack s0;
  op_kind : s_kind s1 = None }.

Lemma wf_opened n s0 s1 : wf_stream s0 → is_u64 n → opened n s0 s1 → wf_stream s1.
Proof.
  intros (Hs & Hr & He) Hn [R E L M S K]. unfold is_u64 in *. split_and!.
  - rewrite S. constructor; [cbn; lia|done].
  - by rewrite M.
  - by rewrite E.
Qed.

Lemma room_opened n m s0 s1 : m <= n → room m s0 → opened n s0 s1 → room m s1.
Proof.
  intros Hm [_ Hl] [R E L M S K]. split; [rewrite S; lia|]. by rewrite L, M.
Qed.

Lemma Stream_List_announced n x s s1 :
  Stream_Kind s = (s1, Ok (List, n)) → announced List n x s s1 →
  ∃ s2, Stream_List s = (s2, Ok n) ∧ opened n s1 s2.
Proof.
  intros HK Ha. unfold Stream_List. rewrite HK. eexists. split; [done|]. by split.
Qed.

(** Leaving a list whose content was read. *)
Lemma ListEnd_opened c s0 s1 s2 :
  wf_stream s0 → fits (len c) s0 → opened (len c) s0 s1 → adv c s1 s2 →
  ∃ s3, ListEnd s2 = (s3, Ok tt) ∧ adv c s0 s3 ∧ s_kind s3 = None.
Proof.
  intros (Hs & _) Hf [R E L M S K] [R2 E2 L2 M2 S2]. pose proof (len_nonneg c).
  unfold ListEnd. rewrite S2, S. cbn [move_stack]. rewrite Z.add_0_l, Z.eqb_refl. cbn [negb].
  eexists. split; [done|]. split; [|done].
  split; cbn [set_stack s_r s_rerr s_limited s_remaining s_stack]; try congruence.
  { by rewrite M2, L, M. }
  unfold fits in Hf. destruct (s_stack s0) as [|[p z] st]; cbn [move_stack]; [done|].
  apply Forall_cons_1 in Hs as [? _]. cbn in *. rewrite u64_small; [done|]. unfold is_u64. lia.
Qed.

(** What a decoder promises: it reads back the encoding of a value, reports the end of
    the enclosing list without moving, and reads nothing but encodings of values with
    the property [P]. *)
Section Decoders.
Context {A : Type} (enc : A → bytes) (P : A → Prop).

Definition decodes (dec : Stream → Stream * result A) (x : A) : Prop :=
  ∀ s r, wf_stream s → s_kind s = None → s_r s = enc x ++ r → room (len (enc x)) s →
    ∃ s', dec s = (s', Ok x) ∧ adv (enc x) s s' ∧ s_kind s' = None.
Definition decodes_eol (dec : Stream → Stream * result A) : Prop :=
  ∀ s, s_kind s = None → at_eol s = true →
    ∃ s', dec s = (s', Err EOL) ∧ adv [] s s' ∧ s_kind s' = None.
Definition dec_sound (dec : Stream → Stream * result A) : Prop :=
  ∀ s s' r, wf_stream s → s_kind s = None → dec s = (s', r) →
    match r with
    | Ok x => adv (enc x) s s' ∧ room (len (enc x)) s ∧ s_kind s' = None ∧ P x
    | Err e => e = EOL → at_eol s = true
    | Panic _ => True
    end.

Lemma decodeSliceElems_complete dec l fuel s r acc :
  Forall (decodes dec) l → decodes_eol dec → (length l < fuel)%nat →
  wf_stream s → s_kind s = None → s_r s = concat (enc <$> l) ++ r →
  room (len (concat (enc <$> l))) s →
  (∃ p st, s_stack s = (p, p + len (concat (enc <$> l))) :: st) →
  ∃ s', decodeSliceElems dec fuel s acc = (s', Ok (acc ++ l)) ∧
        adv (concat (enc <$> l)) s s' ∧ s_kind s' = None.
Proof.
  intros Hl Heol. revert fuel s acc. induction Hl as [|x l Hx _ IH];
    intros fuel s acc Hfuel Hwf Hk Hr Hroom (p & st & Hst);
    (destruct fuel as [|fuel]; [cbn in Hfuel; lia|]); cbn [decodeSliceElems].
  - destruct (Heol s Hk) as (s' & -> & Ha & Hk').
    { unfold at_eol. rewrite Hst. cbn. rewrite len_nil, Z.add_0_r. apply Z.eqb_refl. }
    rewrite bool_decide_eq_true_2 by done. exists s'. by rewrite app_nil_r.
  - cbn [fmap list_fmap concat] in *. rewrite <- app_assoc in Hr. rewrite len_app in Hroom.
    pose proof (len_nonneg (concat (enc <$> l))).
    assert (Hroom1 : room (len (enc x)) s) by (eapply room_le; [|done]; lia).
    destruct (Hx s _ Hwf Hk Hr Hroom1) as (s1 & -> & Ha & Hk1).
    destruct (IH fuel s1 (acc ++ [x])) as (s' & HD & Ha' & Hk').
    + cbn in Hfuel. lia.
    + by eapply wf_adv.
    + done.
    + pose proof (adv_r _ _ _ Ha) as E. rewrite Hr in E. by apply app_inv_head in E.
    + by eapply room_adv.
    + exists (p + len (enc x)), st. rewrite (adv_stack _ _ _ Ha), Hst. cbn.
      rewrite len_app. by rewrite Z.add_assoc.
    + exists s'. rewrite HD, <- app_assoc. split; [done|]. split; [|done].
      by eapply adv_trans.
Qed.

(** A decoder fails with [EOL] only at the end of a list, where it does nothing. *)
Lemma decodeSliceElems_sound dec fuel s s' acc l' :
  dec_sound dec → decodes_eol dec → wf_stream s → s_kind s = None →
  decodeSliceElems dec fuel s acc = (s', Ok l') →
  ∃ l, l' = acc ++ l ∧ adv (concat (enc <$> l)) s s' ∧
       room (len (concat (enc <$> l))) s ∧ at_eol s' = true ∧ s_kind s' = None ∧ Forall P l.
Proof.
  intros Hd Heol. revert s acc. induction fuel as [|fuel IH]; intros s acc Hwf Hk H; [done|].
  cbn [decodeSliceElems] in H. destruct (dec s) as [s1 r] eqn:Ed.
  pose proof (Hd s s1 r Hwf Hk Ed) as Hs. destruct r as [x|e|m]; [| |done].
  - destruct Hs as (Ha & Hr & Hk1 & HP).
    destruct (IH s1 (acc ++ [x])) as (l & -> & Ha' & Hr' & He & Hk' & HPl); [by eapply wf_adv|done|done|].
    exists (x :: l). rewrite <- app_assoc. cbn [fmap list_fmap concat]. rewrite len_app.
    split_and!; try done; [by eapply adv_trans|by eapply adv_room|by constructor].
  - case_bool_decide as He; [|done]. subst e. injection H as <- <-.
    destruct (Heol s Hk (Hs eq_refl)) as (s2 & E & Ha & Hk2). rewrite Ed in E.
    injection E as <-. exists []. cbn. rewrite app_nil_r. split_and!; try done.
    + split; [|intros; rewrite len_nil; destruct Hwf as (_ & [? ?] & _); lia].
      specialize (Hs eq_refl). unfold at_eol in Hs. destruct (s_stack s) as [|[p z] st]; [done|].
      bool_props. rewrite len_nil. lia.
    + specialize (Hs eq_refl). unfold at_eol in *. rewrite (adv_stack _ _ _ Ha).
      destruct (s_stack s) as [|[p z] st]; [done|]. cbn. by rewrite len_nil, Z.add_0_r.
Qed.

(** The element loop never passes [EOL] on. *)
Lemma decodeSliceElems_ne (dec : Stream → Stream * result A) fuel s s' acc :
  decodeSliceElems dec fuel s acc ≠ (s', Err EOL).
Proof.
  revert s acc. induction fuel as [|fuel IH]; intros s acc ED; cbn [decodeSliceElems] in ED;
    [done|]. destruct (dec s) as [s1 [?|e|?]]; [by eapply IH| |done].
  case_bool_decide; congruence.
Qed.
Lemma ListEnd_with_opened {B} (x : B) c s0 s1 s2 :
  wf_stream s0 → fits (len c) s0 → opened (len c) s0 s1 → adv c s1 s2 →
  ∃ s3, ListEnd_with x s2 = (s3, Ok x) ∧ adv c s0 s3 ∧ s_kind s3 = None.
Proof.
  intros Hwf Hf Ho Ha. destruct (ListEnd_opened c s0 s1 s2 Hwf Hf Ho Ha) as (s3 & E & H).
  exists s3. unfold ListEnd_with. by rewrite E.
Qed.

Lemma length_concat_ne (l : list A) :
  (∀ x, x ∈ l → enc x ≠ []) → (length l ≤ length (concat (enc <$> l)))%nat.
Proof.
  induction l as [|x l IH]; intros Hne; [done|]. cbn [fmap list_fmap concat length]. rewrite length_app.
  specialize (IH ltac:(intros y Hy; apply Hne; by right)). specialize (Hne x ltac:(left)).
  destruct (enc x); [done|]. cbn [length]. lia.
Qed.

Lemma concat_ne_nil (l : list A) :
  (∀ x, x ∈ l → enc x ≠ []) → len (concat (enc <$> l)) = 0 → l = [].
Proof.
  intros Hne E0. pose proof (length_concat_ne l Hne) as Hx. destruct l; [done|].
  unfold len in E0. cbn [length] in Hx. lia.
Qed.

(** The header of a list that is there is read and the list entered. *)
Lemma Stream_List_complete c r s :
  wf_stream s → s_kind s = None → s_r s = enc_list c ++ r → room (len (enc_list c)) s → len c < 2 ^ 64 →
  ∃ s1 s2, Stream_List s = (s2, Ok (len c)) ∧ adv (ktag List (len c) x00) s s1 ∧
    wf_stream s1 ∧ wf_stream s2 ∧ room (len c) s1 ∧ opened (len c) s1 s2 ∧ s_r s2 = c ++ r ∧ room (len c) s2.
Proof.
  intros Hwf Hk Hr Hroom Hc. change (enc_list c) with (ktag List (len c) x00 ++ c) in *.
  rewrite <- app_assoc in Hr. rewrite len_app in Hroom. pose proof (len_nonneg c).
  assert (Hu : is_u64 (len c)) by (unfold is_u64; lia).
  destruct (Stream_Kind_complete List (len c) x00 (c ++ r) s) as (s1 & HK & Ha); try done.
  destruct (Stream_List_announced _ _ _ _ HK Ha) as (s2 & HL & Hop).
  assert (Hroom0 : room (len (ktag List (len c) x00)) s) by (eapply room_le; [|done]; lia).
  pose proof (announced_wf _ _ _ _ _ Hwf Hroom0 Ha) as Hwf1. destruct Ha as [[Ha _] _].
  pose proof (room_adv _ _ _ _ Hroom Ha) as Hroom1. exists s1, s2. split_and!; try done.
  - by eapply wf_opened.
  - rewrite (op_r _ _ _ Hop). pose proof (adv_r _ _ _ Ha) as E. rewrite Hr in E. by apply app_inv_head in E.
  - by eapply room_opened.
Qed.

(** What the header of a list that was entered looks like. *)
Lemma Stream_List_sound s s2 r :
  wf_stream s → s_kind s = None → Stream_List s = (s2, r) →
  match r with
  | Ok n => ∃ s1, adv (ktag List n x00) s s1 ∧ wf_stream s1 ∧ wf_stream s2 ∧
      room (len (ktag List n x00)) s ∧ fits n s1 ∧ opened n s1 s2 ∧ is_u64 n
  | Err e => e = EOL → at_eol s = true
  | Panic _ => False
  end.
Proof.
  intros Hwf Hk HS. destruct (at_eol s) eqn:Heol.
  { unfold Stream_List in HS. rewrite Stream_Kind_eol in HS by done. by injection HS as <- <-. }
  destruct (Stream_Kind_cases s Hwf Hk Heol)
    as [(k & n & x & s1 & Hko & Hr & Hf & HK & Ha)|(s1 & e & HK & He)].
  2:{ unfold Stream_List in HS. rewrite HK in HS. injection HS as <- <-. intros ->. done. }
  destruct k; [unfold Stream_List in HS; rewrite HK in HS; injection HS as <- <-; done..|].
  destruct (Stream_List_announced _ _ _ _ HK Ha) as (s2' & HL & Hop). rewrite HL in HS.
  injection HS as <- <-. pose proof (announced_wf _ _ _ _ _ Hwf Hr Ha) as Hwf1. destruct Ha as [[Ha _] _].
  assert (Hu : is_u64 n) by apply Hko. exists s1. split_and!; try done. by eapply wf_opened.
Qed.

(** The end of a list behind its content. *)
Lemma list_end_room c s s1 s2 :
  adv (ktag List (len c) x00) s s1 → room (len (ktag List (len c) x00)) s → fits (len c) s1 →
  opened (len c) s1 s2 → room (len c) s2 → room (len (enc_list c)) s.
Proof.
  intros Ha Hr Hf Hop Hroom. change (enc_list c) with (ktag List (len c) x00 ++ c). rewrite len_app.
  eapply adv_room; [|done]. split; [done|]. destruct Hroom as [_ Hl].
  by rewrite (op_limited _ _ _ Hop), (op_remaining _ _ _ Hop) in Hl.
Qed.

Lemma room_zero s : wf_stream s → room 0 s.
Proof.
  intros (Hst & [? ?] & _). split; [|lia]. destruct (s_stack s) as [|[p z] st]; [done|].
  apply Forall_cons_1 in Hst as [[? ?] _]. cbn in *. lia.
Qed.

(** A list of values behind its header. *)
Lemma decodeListSlice_complete dec l fuel s r :
  let c := concat (enc <$> l) in
  Forall (decodes dec) l → decodes_eol dec → (∀ x, x ∈ l → enc x ≠ []) → (length c < fuel)%nat →
  len c < 2 ^ 64 → wf_stream s → s_kind s = None → s_r s = enc_list c ++ r → room (len (enc_list c)) s →
  ∃ s', decodeListSlice dec fuel s = (s', Ok l) ∧ adv (enc_list c) s s' ∧ s_kind s' = None.
Proof.
  intros c Hl Heol Hne Hfuel Hc Hwf Hk Hr Hroom. pose proof (length_concat_ne l Hne) as Hlen. fold c in Hlen.
  destruct (Stream_List_complete c r s) as (s1 & s2 & HL & Ha & Hwf1 & Hwf2 & Hroom1 & Hop & Hr2 & Hroom2); try done.
  unfold decodeListSlice. rewrite HL.
  assert (Hend : ∀ s3, adv c s2 s3 →
    ∃ s', ListEnd_with l s3 = (s', Ok l) ∧ adv (enc_list c) s s' ∧ s_kind s' = None).
  { intros s3 H3. destruct (ListEnd_with_opened l c s1 s2 s3) as (s' & E & Ha' & Hk');
      [done|apply Hroom1|done|done|]. exists s'. split; [done|]. split; [|done].
    by eapply adv_trans. }
  destruct (Z.eqb_spec (len c) 0) as [E0|_].
  - apply concat_ne_nil in E0 as E1; [|done]. subst l. apply Hend, adv_nil.
  - destruct (decodeSliceElems_complete dec l fuel s2 r []) as (s3 & -> & Ha3 & _); try done; try lia.
    + apply Hop.
    + exists 0, (s_stack s1). rewrite (op_stack _ _ _ Hop). done.
    + by apply Hend.
Qed.

Lemma decodeListSlice_sound dec fuel s s' r :
  dec_sound dec → (fuel ≠ 0%nat → decodes_eol dec) → wf_stream s → s_kind s = None →
  decodeListSlice dec fuel s = (s', r) →
  match r with
  | Ok l => let c := concat (enc <$> l) in
      adv (enc_list c) s s' ∧ room (len (enc_list c)) s ∧ s_kind s' = None ∧ Forall P l
  | Err e => e = EOL → at_eol s = true
  | Panic _ => True
  end.
Proof.
  intros Hd Heol Hwf Hk HD. unfold decodeListSlice in HD. destruct (Stream_List s) as [s2 r2] eqn:HL.
  pose proof (Stream_List_sound _ _ _ Hwf Hk HL) as HS. destruct r2 as [n|e|m].
  2:{ injection HD as <- <-. intros He. apply HS. unfold wrapStreamError in He. repeat case_match; done. }
  2:{ by injection HD as <- <-. }
  destruct HS as (s1 & Ha & Hwf1 & Hwf2 & Hr & Hf & Hop & Hu).
  assert (Hend : ∀ l s3 s' r, n = len (concat (enc <$> l)) → adv (concat (enc <$> l)) s2 s3 →
    room (len (concat (enc <$> l))) s2 → ListEnd_with l s3 = (s', r) →
    r = Ok l ∧ adv (enc_list (concat (enc <$> l))) s s' ∧ room (len (enc_list (concat (enc <$> l)))) s ∧
    s_kind s' = None).
  { intros l s3 s0 r0 -> Ha3 Hroom HE.
    destruct (ListEnd_with_opened l _ s1 s2 s3 Hwf1 Hf Hop Ha3) as (s4 & E & Ha' & Hk').
    rewrite E in HE. injection HE as <- <-. split_and!; [done| |by eapply list_end_room|done].
    by eapply adv_trans. }
  destruct (Z.eqb_spec n 0) as [E0|_].
  - apply (Hend [] s2) in HD as (-> & HA & HR & HK); [by split_and!|done|apply adv_nil|by apply room_zero].
  - destruct (decodeSliceElems dec fuel s2 []) as [s3 [l|e|m]] eqn:ED.
    + assert (Hfuel : fuel ≠ 0%nat) by (by intros ->).
      destruct (decodeSliceElems_sound _ _ _ _ _ _ Hd (Heol Hfuel) Hwf2 (op_kind _ _ _ Hop) ED)
        as (l0 & -> & Ha3 & Hr3 & He3 & _ & HP).
      cbn [app] in HD. apply (Hend l0 s3) in HD as (-> & HA & HR & HK); [by split_and!| |done|done].
      unfold at_eol in He3. rewrite (adv_stack _ _ _ Ha3), (op_stack _ _ _ Hop) in He3.
      cbn in He3. bool_props. lia.
    + injection HD as <- <-. intros ->. by apply decodeSliceElems_ne in ED.
    + by injection HD as <- <-.
Qed.
End Decoders.

(** ** [decodeInterface] *)

Lemma decodeInterface_eol fuel : decodes_eol (decodeInterface (S fuel)).
Proof.
  intros s Hk Heol. cbn [decodeInterface]. rewrite Stream_Kind_eol by done.
  eexists. split; [done|]. split; [|done]. eapply adv_ext; [apply adv_nil|done..].
Qed.

Lemma length_concat_enc (l : list item) :
  (length l ≤ length (concat (rlp_enc <$> l)))%nat.
Proof.
  induction l as [|x l IH]; [done|]. cbn [fmap list_fmap concat length]. rewrite length_app.
  pose proof (rlp_enc_nonempty x). destruct (rlp_enc x); [done|]. cbn [length]. lia.
Qed.

Lemma concat_enc_bound (l : list item) x :
  x ∈ l → (length (rlp_enc x) ≤ length (concat (rlp_enc <$> l)))%nat.
Proof.
  induction 1 as [l|y l Hin IH]; cbn [fmap list_fmap concat]; rewrite length_app; lia.
Qed.

Lemma enc_list_tag c x : enc_list c = ktag List (len c) x ++ c.
Proof. done. Qed.

(** The announcement of an encoded string is never a list. *)
Lemma Stream_Kind_string b r s :
  len b < 2 ^ 64 → wf_stream s → s_kind s = None → s_r s = enc_string b ++ r →
  room (len (enc_string b)) s →
  ∃ k n x s1, Stream_Kind s = (s1, Ok (k, n)) ∧ announced k n x s s1 ∧ k ≠ List.
Proof.
  intros Hb Hwf Hk Hr Hroom. destruct (enc_string_tag b) as [(x & -> & Hx & E)|[_ E]].
  - rewrite E in *. destruct (Stream_Kind_complete Byte 0 x r s) as (s1 & ? & ?); try done.
    by exists Byte, 0, x, s1.
  - rewrite (E x00), <- app_assoc in Hr. rewrite (E x00), len_app in Hroom.
    destruct (Stream_Kind_complete String (len b) x00 (b ++ r) s) as (s1 & ? & ?); try done.
    + split; [|done]. split; [apply len_nonneg|done].
    + by exists String, (len b), x00, s1.
Qed.

Lemma enc_ok_Str b : enc_ok (Str b) → len b < 2 ^ 64.
Proof.
  unfold enc_ok. cbn [rlp_enc]. intros Hok.
  destruct (enc_string_tag b) as [(x & -> & _)|[_ E]]; [done|].
  rewrite (E x00), len_app in Hok. pose proof (len_nonneg (ktag String (len b) x00)). lia.
Qed.

Lemma decodeInterface_string b fuel : enc_ok (Str b) → decodes rlp_enc (decodeInterface (S fuel)) (Str b).
Proof.
  intros Hok%enc_ok_Str s r Hwf Hk Hr Hroom. cbn [decodeInterface rlp_enc] in *.
  destruct (Stream_Bytes_complete b r s) as (s' & HB & Ha & Hk'); try done.
  destruct (Stream_Kind_string b r s) as (k & n & x & s1 & HK & Hann & Hne); try done.
  rewrite HK, bool_decide_eq_false_2 by done.
  rewrite (Stream_Bytes_cached s s1 k n x), HB by done. by exists s'.
Qed.

(** Asking for the kind first changes nothing. *)
Lemma decodeListSlice_cached {A} (dec : Stream → Stream * result A) fuel s s1 k n x :
  Stream_Kind s = (s1, Ok (k, n)) → announced k n x s s1 →
  decodeListSlice dec fuel s1 = decodeListSlice dec fuel s.
Proof. intros HK Ha. unfold decodeListSlice. by rewrite (Stream_List_cached s s1 k n x). Qed.

Lemma decodeInterface_list l fuel :
  Forall (λ x, decodes rlp_enc (decodeInterface fuel) x) l → enc_ok (Lst l) →
  (length (concat (rlp_enc <$> l)) < fuel)%nat → decodes rlp_enc (decodeInterface (S fuel)) (Lst l).
Proof.
  intros Hdec Hok Hfuel s r Hwf Hk Hr Hroom. cbn [decodeInterface].
  destruct (enc_ok_Lst l Hok) as [Hl Hu]. cbn [rlp_enc] in *.
  set (c := concat (rlp_enc <$> l)) in *.
  destruct (Stream_Kind_complete List (len c) x00 (c ++ r) s) as (s1 & HK & Ha); try done.
  { by rewrite app_assoc. }
  { by rewrite <- len_app. }
  rewrite HK, bool_decide_eq_true_2 by done. rewrite (decodeListSlice_cached _ _ s s1 List (len c) x00) by done.
  destruct (decodeListSlice_complete rlp_enc (decodeInterface fuel) l fuel s r) as (s' & -> & Ha' & Hk');
    try done; [|intros; apply rlp_enc_nonempty|apply Hu|by exists s'].
  destruct fuel; [lia|]. apply decodeInterface_eol.
Qed.

Lemma decodeInterface_complete it fuel :
  enc_ok it → (length (rlp_enc it) < fuel)%nat → decodes rlp_enc (decodeInterface fuel) it.
Proof.
  revert fuel. induction it as [b|l IH] using item_rect_nested;
    intros [|fuel] Hok Hfuel; try lia; [by apply decodeInterface_string|].
  pose proof (enc_ok_Lst l Hok) as [Hl Hu]. cbn [rlp_enc] in Hfuel.
  rewrite (enc_list_tag _ x00), length_app in Hfuel.
  assert (Hko : kind_ok List (len (concat (rlp_enc <$> l))) x00) by (split; done).
  apply len_ktag_pos in Hko. revert Hko Hfuel. unfold len at 1.
  generalize (length (ktag List (len (concat (rlp_enc <$> l))) x00)). intros n Hn Hfuel.
  assert (Hc : (length (concat (rlp_enc <$> l)) < fuel)%nat) by lia.
  apply decodeInterface_list; [|done|done].
  rewrite Forall_forall in IH, Hl |- *. intros x Hin. apply IH; [done|by apply Hl|].
  pose proof (concat_enc_bound l x Hin). lia.
Qed.

Lemma decodeInterface_sound fuel : dec_sound rlp_enc (λ _, True) (decodeInterface fuel).
Proof.
  induction fuel as [|fuel IH]; intros s s' r Hwf Hk H; cbn [decodeInterface] in H.
  { by injection H as <- <-. }
  destruct (at_eol s) eqn:Heol.
  { rewrite Stream_Kind_eol in H by done. by injection H as <- <-. }
  destruct (Stream_Kind_cases s Hwf Hk Heol)
    as [(k & n & x & s1 & Hko & Hr & Hf & HK & Ha)|(s1 & e & HK & He)]; rewrite HK in H.
  2:{ injection H as <- <-. intros ->. done. }
  case_bool_decide as Hlist.
  - rewrite (decodeListSlice_cached _ _ s s1 k n x) in H by done.
    destruct (decodeListSlice _ fuel s) as [s2 r2] eqn:ED. injection H as <- <-.
    assert (Heols : fuel ≠ 0%nat → decodes_eol (decodeInterface fuel))
      by (destruct fuel; [done|intros _; apply decodeInterface_eol]).
    pose proof (decodeListSlice_sound rlp_enc (λ _, True) _ _ _ _ _ IH Heols Hwf Hk ED) as HS.
    destruct r2 as [l|e|m]; cbn [mbind result_bind]; [|by rewrite Heol in HS|done].
    by destruct HS as (HA & HR & HK' & _).
  - destruct (Stream_Bytes s1) as [s2 r2] eqn:EB. injection H as <- <-.
    rewrite (Stream_Bytes_cached s s1 k n x HK Ha) in EB.
    pose proof (Stream_Bytes_sound s s2 r2 Hwf Hk EB) as Hs.
    destruct r2 as [b|e|m]; cbn [mbind result_bind]; [|by rewrite Heol in Hs|done].
    destruct Hs as (Ha' & Hr' & Hk' & _). done.
Qed.

Lemma DecodeBytes_correct b it :
  len b < 2 ^ 64 → DecodeBytes b = Ok it ↔ b = EncodeToBytes it ∧ enc_ok it.
Proof.
  intros Hb. assert (Hwf : wf_stream (ResetBytes b)).
  { split_and!; [constructor|split; [apply len_nonneg|done]|done]. }
  unfold DecodeBytes. split.
  - intros H. destruct (decodeInterface _ _) as [s r] eqn:E.
    pose proof (decodeInterface_sound _ _ _ _ Hwf eq_refl E) as Hs.
    apply bind_Ok in H as (x & -> & H). destruct (0 <? len (s_r s)) eqn:El; [done|].
    injection H as ->. bool_props. destruct Hs as (Ha & _ & _).
    pose proof (adv_r _ _ _ Ha) as Hr. cbn in Hr.
    assert (s_r s = []) as Hnil by (destruct (s_r s); [done|]; rewrite len_cons in El; pose proof (len_nonneg l); lia).
    rewrite Hnil, app_nil_r in Hr. subst b. split; [|done]. by rewrite EncodeToBytes_enc.
  - intros [-> Hok]. rewrite EncodeToBytes_enc in * by done.
    destruct (decodeInterface_complete it (S (S (length (rlp_enc it)))) Hok ltac:(lia)
                (ResetBytes (rlp_enc it)) []) as (s & -> & Ha & _); [done|done|by rewrite app_nil_r| |].
    + split; [done|]. cbn. lia.
    + cbn [mbind result_bind]. pose proof (adv_r _ _ _ Ha) as Hr. cbn in Hr.
      assert (s_r s = []) as ->; [|done].
      apply (f_equal length) in Hr. rewrite length_app in Hr. destruct (s_r s); [done|].
      cbn in Hr. lia.
Qed.

(** [DecodeBytes] accepts exactly the RLP encodings of single values, and
    returns the encoded value: decoding inverts [EncodeToBytes], and every other
    input, non-canonical, truncated or with trailing data, is rejected. *)
Theorem DecodeBytes_iff b it :
  len b < 2 ^ 64 → DecodeBytes b = Ok it ↔ b = EncodeToBytes it ∧ enc_ok it.
Proof. apply DecodeBytes_correct. Qed.

Lemma DecodeBytes_iff_witness :
  DecodeBytes (EncodeToBytes (Lst [Str ["c"; "a"; "t"]%byte; Lst []]))
  = Ok (Lst [Str ["c"; "a"; "t"]%byte; Lst []]).
Proof. apply DecodeBytes_iff; [reflexivity|]. split; [reflexivity|]. reflexivity. Defined.
