(* ===== verification/Batch.v ===== *)
(** * Batches

    op-node/rollup/derive/batch.go (the batch and its typed encoding) and
    op-node/rollup/derive/batches.go ([CheckBatch]).  The go-ethereum RLP package
    is known through the class [BatchRLP]; the RLP model of RLP.v and RLPStream.v
    is an instance of it. *)

From S2P Require Import Prelude GoErrors EthTypes RLP RLPStream.

(** ** Data *)

Definition BatchV1Type : byte := x00.

Record BatchV1 := mkBatchV1 {
  b_ParentHash : Hash; b_EpochNum : Z; b_EpochHash : Hash; b_Timestamp : Z;
  b_Transactions : list bytes }.

(** [BatchData] embeds [BatchV1] and adds nothing. *)
Notation BatchData := BatchV1.

#[export] Instance BatchV1_eq_dec : EqDecision BatchV1.
Proof. solve_decision. Defined.

Definition Batch_Epoch (b : BatchV1) : BlockID := mkBlockID (b_EpochHash b) (b_EpochNum b).

(** Every field is in the range of its Go type. *)
Definition wf_BatchV1 (b : BatchV1) : Prop :=
  length (b_ParentHash b) = HashLength ∧ is_u64 (b_EpochNum b) ∧
  length (b_EpochHash b) = HashLength ∧ is_u64 (b_Timestamp b).

(** ** Encoding (batch.go) *)

(** [rlp.Encode] and [rlp.DecodeBytes] on a [BatchV1], and [rlp.Encode] on a byte
    string: encoding succeeds and decoding inverts it, for values that fit in memory. *)
Class BatchRLP := {
  rlp_EncodeBatchV1 : BatchV1 → result bytes;
  rlp_DecodeBatchV1 : bytes → result BatchV1;
  rlp_size : BatchV1 → Z;
  rlp_DecodeBatchV1_no_panic : ∀ b s, rlp_DecodeBatchV1 b ≠ Panic s;
  rlp_BatchV1_inverse : ∀ b, wf_BatchV1 b → rlp_size b < 2 ^ 63 →
    ∃ e, rlp_EncodeBatchV1 b = Ok e ∧ rlp_DecodeBatchV1 e = Ok b }.

Section Codec.
Context `{BatchRLP}.

Definition encodeTyped (b : BatchData) : result bytes :=
  e ← rlp_EncodeBatchV1 b; Ok (BatchV1Type :: e).

Definition Batch_MarshalBinary (b : BatchData) : result bytes := encodeTyped b.

Definition decodeTyped (data : bytes) : result BatchData :=
  match data with
  | [] => Err (ErrorNew "batch too short")
  | t :: rest =>
      if bool_decide (t = BatchV1Type) then rlp_DecodeBatchV1 rest
      else Err (ErrorNew "unrecognized batch type")
  end.

Definition Batch_UnmarshalBinary (data : bytes) : result BatchData := decodeTyped data.

End Codec.

(** ** Batch validity (batches.go) *)

Record BatchWithL1InclusionBlock := mkBatchWithL1 {
  L1InclusionBlock : L1BlockRef; bw_Batch : BatchData }.

Inductive BatchValidity := BatchDrop | BatchAccept | BatchUndecided | BatchFuture.
#[export] Instance BatchValidity_eq_dec : EqDecision BatchValidity.
Proof. solve_decision. Defined.

(** The loop over the transactions: an empty transaction or a deposit is found. *)
Fixpoint has_bad_tx (txs : list bytes) : bool :=
  match txs with
  | [] => false
  | [] :: _ => true
  | (t :: _) :: txs => if bool_decide (t = DepositTxType) then true else has_bad_tx txs
  end.

(** The checks after the L1 origin of the batch is known. *)
Definition CheckBatch_origin (cfg : Config) (batchOrigin : L1BlockRef) (b : BatchData)
  : BatchValidity :=
  if negb (bool_decide (b_EpochHash b = l1_Hash batchOrigin)) then BatchDrop
  else if (l1_Time batchOrigin ⊞ cfg_MaxSequencerDrift cfg) <? b_Timestamp b then BatchDrop
  else if has_bad_tx (b_Transactions b) then BatchDrop
  else BatchAccept.

Definition CheckBatch (cfg : Config) (l1Blocks : list L1BlockRef) (l2SafeHead : L2BlockRef)
    (batch : BatchWithL1InclusionBlock) : BatchValidity :=
  let b := bw_Batch batch in
  match l1Blocks with
  | [] => BatchUndecided
  | epoch :: more =>
      if negb (bool_decide (l1_Hash epoch = id_Hash (l2_L1Origin l2SafeHead)))
      then BatchUndecided else
      let nextTimestamp := l2_Time l2SafeHead ⊞ cfg_BlockTime cfg in
      if nextTimestamp <? b_Timestamp b then BatchFuture else
      if b_Timestamp b <? nextTimestamp then BatchDrop else
      if negb (bool_decide (b_ParentHash b = l2_Hash l2SafeHead)) then BatchDrop else
      if (b_EpochNum b ⊞ cfg_SeqWindowSize cfg) <? l1_Number (L1InclusionBlock batch)
      then BatchDrop else
      if b_EpochNum b <? l1_Number epoch then BatchDrop
      else if b_EpochNum b =? l1_Number epoch then CheckBatch_origin cfg epoch b
      else if b_EpochNum b =? (l1_Number epoch ⊞ 1) then
        match more with
        | [] => BatchUndecided
        | next :: _ => CheckBatch_origin cfg next b
        end
      else BatchDrop
  end.

(** ** An RLP instance *)

Definition uint_item (i : Z) : item := Str (if i =? 0 then [] else putint i).

Definition item_uint (it : item) : result Z :=
  match it with
  | Str b => if (8 <? len b) || bool_decide (head b = Some x00) then Err ErrCanonInt
             else Ok (be_decode b)
  | Lst _ => Err ErrExpectedString
  end.

Definition item_hash (it : item) : result Hash :=
  match it with
  | Str b => if len b =? 32 then Ok b else Err (ErrorNew "rlp: input string of wrong size")
  | Lst _ => Err ErrExpectedString
  end.

Fixpoint item_strings (l : list item) : result (list bytes) :=
  match l with
  | [] => Ok []
  | Str b :: l => bs ← item_strings l; Ok (b :: bs)
  | Lst _ :: _ => Err ErrExpectedString
  end.

Definition batch_item (b : BatchV1) : item :=
  Lst [Str (b_ParentHash b); uint_item (b_EpochNum b); Str (b_EpochHash b);
       uint_item (b_Timestamp b); Lst (Str <$> b_Transactions b)].

Definition item_batch (it : item) : result BatchV1 :=
  match it with
  | Lst [p; n; h; t; Lst txs] =>
      p ← item_hash p; n ← item_uint n; h ← item_hash h; t ← item_uint t;
      txs ← item_strings txs; Ok (mkBatchV1 p n h t txs)
  | _ => Err ErrExpectedList
  end.

Definition no_panic {A} (r : result A) : result A :=
  match r with Panic _ => Err (ErrorNew "panic") | _ => r end.

(** ** Lemmas *)

Lemma item_uint_item i : is_u64 i → item_uint (uint_item i) = Ok i.
Proof.
  intros Hi. unfold item_uint, uint_item. destruct (Z.eqb_spec i 0) as [->|Hz]; [done|].
  destruct (putint_min i Hi) as (n & Hn & ->).
  assert (Hl : (8 <? len (be_encode n i)) = false).
  { apply Z.ltb_ge. unfold len. rewrite length_be_encode. destruct Hn. lia. }
  unfold is_u64 in Hi. rewrite Hl, bool_decide_eq_false_2.
  - cbn [orb]. f_equal. apply be_decode_encode_small. apply Hn.
  - apply min_bytes_head; [done|lia].
Qed.

Lemma item_strings_fmap l : item_strings (Str <$> l) = Ok l.
Proof. induction l as [|b l IH]; [done|]. cbn in *. by rewrite IH. Qed.

Lemma item_batch_item b : wf_BatchV1 b → item_batch (batch_item b) = Ok b.
Proof.
  intros (Hp & Hn & Hh & Ht). unfold item_batch, batch_item.
  cbn [item_hash]. unfold len. rewrite Hp, Hh. cbn [mbind result_bind HashLength].
  change (Z.of_nat 32 =? 32) with true. cbn [mbind result_bind].
  rewrite item_uint_item by done. cbn [mbind result_bind].
  rewrite item_uint_item by done. cbn [mbind result_bind].
  rewrite item_strings_fmap. by destruct b.
Qed.

#[local] Program Instance rlp_batch : BatchRLP := {
  rlp_EncodeBatchV1 b := Ok (EncodeToBytes (batch_item b));
  rlp_DecodeBatchV1 e := no_panic (it ← DecodeBytes e; item_batch it);
  rlp_size b := len (rlp_enc (batch_item b)) }.
Next Obligation. intros b s. unfold no_panic. by case_match. Qed.
Next Obligation.
  intros b Hwf Hsz. eexists. split; [done|].
  assert (Hok : enc_ok (batch_item b)) by (unfold enc_ok; lia).
  assert (D : DecodeBytes (EncodeToBytes (batch_item b)) = Ok (batch_item b)).
  { apply DecodeBytes_correct; [by rewrite EncodeToBytes_enc|done]. }
  rewrite D. cbn [mbind result_bind]. by rewrite item_batch_item.
Qed.

Lemma Batch_Unmarshal_Marshal `{BatchRLP} b :
  wf_BatchV1 b → rlp_size b < 2 ^ 63 →
  ∃ e, Batch_MarshalBinary b = Ok e ∧ Batch_UnmarshalBinary e = Ok b.
Proof.
  intros Hwf Hs. destruct (rlp_BatchV1_inverse b Hwf Hs) as (e & He & Hd).
  exists (BatchV1Type :: e). unfold Batch_MarshalBinary, Batch_UnmarshalBinary, encodeTyped.
  by rewrite He.
Qed.

Lemma has_bad_tx_spec txs :
  has_bad_tx txs = false ↔
  Forall (λ tx, ∃ t rest, tx = t :: rest ∧ t ≠ DepositTxType) txs.
Proof.
  induction txs as [|[|t rest] txs IH]; cbn [has_bad_tx].
  - split; [constructor|done].
  - split; [done|]. by intros [(? & ? & ? & _) _]%Forall_cons_1.
  - case_bool_decide as Ht.
    + split; [done|]. by intros [(? & ? & [= <- <-] & ?) _]%Forall_cons_1.
    + rewrite IH. split.
      * intros Hf. constructor; [by exists t, rest|done].
      * by intros [_ Hf]%Forall_cons_1.
Qed.

(** ** What an acceptable batch is *)

(** The L1 block a batch takes as origin: the current epoch or the next one. *)
Definition batch_origin (l1Blocks : list L1BlockRef) (b : BatchData) (o : L1BlockRef) : Prop :=
  ∃ epoch more, l1Blocks = epoch :: more ∧
    ((o = epoch ∧ b_EpochNum b = l1_Number epoch) ∨
     (∃ rest, more = o :: rest ∧ b_EpochNum b = l1_Number epoch + 1)).

(** The batch extends the safe head by one block, on a known origin, in time. *)
Record acceptable (cfg : Config) (l1Blocks : list L1BlockRef) (safe : L2BlockRef)
    (batch : BatchWithL1InclusionBlock) (o : L1BlockRef) : Prop := {
  ac_epoch : ∃ epoch more, l1Blocks = epoch :: more ∧ l1_Hash epoch = id_Hash (l2_L1Origin safe);
  ac_time : b_Timestamp (bw_Batch batch) = l2_Time safe + cfg_BlockTime cfg;
  ac_parent : b_ParentHash (bw_Batch batch) = l2_Hash safe;
  ac_window : l1_Number (L1InclusionBlock batch) <= b_EpochNum (bw_Batch batch) + cfg_SeqWindowSize cfg;
  ac_origin : batch_origin l1Blocks (bw_Batch batch) o;
  ac_hash : b_EpochHash (bw_Batch batch) = l1_Hash o;
  ac_drift : b_Timestamp (bw_Batch batch) <= l1_Time o + cfg_MaxSequencerDrift cfg;
  ac_txs : Forall (λ tx, ∃ t rest, tx = t :: rest ∧ t ≠ DepositTxType)
             (b_Transactions (bw_Batch batch)) }.

(** No sum of the checks leaves the [uint64] range. *)
Record in_range (cfg : Config) (l1Blocks : list L1BlockRef) (safe : L2BlockRef)
    (b : BatchData) : Prop := {
  ir_time : is_u64 (l2_Time safe + cfg_BlockTime cfg);
  ir_window : is_u64 (b_EpochNum b + cfg_SeqWindowSize cfg);
  ir_blocks : Forall (λ o, is_u64 (l1_Number o + 1) ∧ is_u64 (l1_Time o + cfg_MaxSequencerDrift cfg))
                l1Blocks }.

Lemma CheckBatch_origin_accept cfg o b :
  is_u64 (l1_Time o + cfg_MaxSequencerDrift cfg) →
  CheckBatch_origin cfg o b = BatchAccept ↔
  b_EpochHash b = l1_Hash o ∧ b_Timestamp b <= l1_Time o + cfg_MaxSequencerDrift cfg ∧
  Forall (λ tx, ∃ t rest, tx = t :: rest ∧ t ≠ DepositTxType) (b_Transactions b).
Proof.
  intros Hu. unfold CheckBatch_origin. rewrite u64_small by done. rewrite <- has_bad_tx_spec.
  case_bool_decide; cbn [negb]; [|naive_solver].
  destruct (Z.ltb_spec (l1_Time o + cfg_MaxSequencerDrift cfg) (b_Timestamp b)).
  - split; [done|]. intros (_ & ? & _). lia.
  - destruct (has_bad_tx _); naive_solver.
Qed.

(** C5. [CheckBatch] accepts a batch exactly when it extends the safe head by one
    block time, was included within the sequencing window, builds on the current
    or the next known L1 origin with the right hash, respects the sequencer drift
    and contains neither empty transactions nor deposits. *)
Theorem CheckBatch_accept cfg l1Blocks safe batch :
  in_range cfg l1Blocks safe (bw_Batch batch) →
  CheckBatch cfg l1Blocks safe batch = BatchAccept ↔
  ∃ o, acceptable cfg l1Blocks safe batch o.
Proof.
  intros [Ht Hw Hb]. unfold CheckBatch. destruct l1Blocks as [|epoch more].
  { split; [done|]. intros (o & [(? & ? & ? & _) _ _ _ _ _ _ _]). done. }
  rewrite (u64_small (l2_Time _ + _)), (u64_small (b_EpochNum _ + _)) by done.
  apply Forall_cons_1 in Hb as [[He1 Hed] Hmore]. rewrite (u64_small (l1_Number epoch + 1)) by done.
  split.
  - repeat (case_match; bool_props; try done); intros HA; bool_props.
    + apply CheckBatch_origin_accept in HA as (? & ? & ?); [|done].
      exists epoch. split; try done; try lia; [by eexists _, _|].
      eexists _, _. split; [done|]. by left.
    + apply Forall_cons_1 in Hmore as [[_ ?] _].
      apply CheckBatch_origin_accept in HA as (? & ? & ?); [|done].
      eexists. split; try done; try lia; [by eexists _, _|].
      eexists _, _. split; [done|]. right. by eexists.
  - intros (o & [(e & m & [= <- <-] & Hh) Htm Hp Hwn Ho Hhash Hdr Htx]).
    rewrite (bool_decide_eq_true_2 _ Hh), (bool_decide_eq_true_2 _ Hp). cbn [negb].
    rewrite !(proj2 (Z.ltb_ge _ _)) by lia.
    destruct Ho as (e & m & [= <- <-] & [[-> Hn]|(rest & -> & Hn)]).
    + rewrite Hn, Z.ltb_irrefl, Z.eqb_refl. by apply CheckBatch_origin_accept.
    + rewrite Hn. destruct (Z.ltb_spec (l1_Number epoch + 1) (l1_Number epoch)); [lia|].
      destruct (Z.eqb_spec (l1_Number epoch + 1) (l1_Number epoch)); [lia|].
      rewrite Z.eqb_refl. apply Forall_cons_1 in Hmore as [[_ ?] _].
      by apply CheckBatch_origin_accept.
Qed.

(** The eager decision never has to be revised: once [CheckBatch] decides,
    knowing more L1 blocks does not change the decision. *)
Theorem CheckBatch_stable cfg l1Blocks more safe batch :
  CheckBatch cfg l1Blocks safe batch ≠ BatchUndecided →
  CheckBatch cfg (l1Blocks ++ more) safe batch = CheckBatch cfg l1Blocks safe batch.
Proof.
  intros H. destruct l1Blocks as [|epoch l]; [done|]. cbn [app CheckBatch] in *.
  destruct l as [|next l]; [|done]. cbn [app]. repeat case_match; done.
Qed.

(** ** Examples *)

Definition example_batch (n : Z) : BatchData :=
  mkBatchV1 (example_hash (2000 + n)) (n / 6) (example_hash (1000 + n / 6)) (2 * (n + 1))
    [[x01; x02]].

Lemma CheckBatch_accept_witness :
  CheckBatch example_cfg [example_l1 1; example_l1 2] (example_l2 7)
    (mkBatchWithL1 (example_l1 3) (example_batch 7)) = BatchAccept.
Proof.
  apply CheckBatch_accept.
  - split; [vm_compute; intuition congruence..|].
    repeat constructor; vm_compute; intuition congruence.
  - exists (example_l1 1). split; [by eexists _, _|reflexivity..|vm_compute; congruence| | | |].
    + eexists _, _. split; [reflexivity|]. left. split; reflexivity.
    + reflexivity.
    + vm_compute. congruence.
    + repeat constructor. eexists _, _. split; [reflexivity|]. intros E. discriminate E.
Defined.

Lemma CheckBatch_stable_witness :
  CheckBatch example_cfg ([example_l1 1] ++ [example_l1 2]) (example_l2 7)
    (mkBatchWithL1 (example_l1 3) (example_batch 7)) = BatchAccept.
Proof.
  rewrite (CheckBatch_stable example_cfg [example_l1 1]); [reflexivity|].
  intros E. vm_compute in E. discriminate E.
Defined.
