(* ===== verification/BatchQueue.v ===== *)
(** * The batch queue

    op-node/rollup/derive/batch_queue.go: orders batches, filters them with
    [CheckBatch] and forces empty batches once the sequencing window of an epoch
    has passed.  The stage before it is known through [NextBatchProvider]. *)

From S2P Require Import Prelude GoErrors EthTypes Batch.

(** [NextBatchProvider]; pulling a batch does not move the provider's L1 origin
    (only the traversal stage's advance does). *)
Class NextBatchProvider (P : Type) := {
  prov_NextBatch : P → P * result BatchData;
  prov_Origin : P → L1BlockRef;
  prov_NextBatch_Origin : ∀ p, prov_Origin (fst (prov_NextBatch p)) = prov_Origin p }.

(** ** State *)

Record BatchQueue (P : Type) := mkBatchQueue {
  bq_prev : P;
  bq_origin : L1BlockRef;
  bq_l1Blocks : list L1BlockRef;
  bq_batches : gmap Z (list BatchWithL1InclusionBlock) }.
Arguments mkBatchQueue {P} _ _ _ _.
Arguments bq_prev {P} _.
Arguments bq_origin {P} _.
Arguments bq_l1Blocks {P} _.
Arguments bq_batches {P} _.

(** The outcome of the loop over the candidates. *)
Inductive scan_result :=
| ScanErr (e : error)
| ScanAccept (b : BatchWithL1InclusionBlock) (remaining : list BatchWithL1InclusionBlock)
| ScanUndecided (remaining : list BatchWithL1InclusionBlock)
| ScanNone (remaining : list BatchWithL1InclusionBlock).

Section BatchQueue.
Context {P : Type} `{NextBatchProvider P} (cfg : Config).

Definition NewBatchQueue (prev : P) : BatchQueue P :=
  mkBatchQueue prev L1BlockRef_zero [] ∅.

Definition BatchQueue_Origin (bq : BatchQueue P) : L1BlockRef := prov_Origin (bq_prev bq).

Definition set_l1Blocks (l : list L1BlockRef) (bq : BatchQueue P) : BatchQueue P :=
  mkBatchQueue (bq_prev bq) (bq_origin bq) l (bq_batches bq).
Definition set_batches (m : gmap Z (list BatchWithL1InclusionBlock)) (bq : BatchQueue P)
  : BatchQueue P := mkBatchQueue (bq_prev bq) (bq_origin bq) (bq_l1Blocks bq) m.
Definition set_prev (p : P) (bq : BatchQueue P) : BatchQueue P :=
  mkBatchQueue p (bq_origin bq) (bq_l1Blocks bq) (bq_batches bq).

(** [batchLoop]: find the first batch to accept. *)
Fixpoint batchLoop (l1Blocks : list L1BlockRef) (l2SafeHead : L2BlockRef)
    (candidates remaining : list BatchWithL1InclusionBlock) : scan_result :=
  match candidates with
  | [] => ScanNone remaining
  | batch :: rest =>
      match CheckBatch cfg l1Blocks l2SafeHead batch with
      | BatchFuture =>
          ScanErr (NewCriticalError (ErrorNew "found batch marked as future batch"))
      | BatchDrop => batchLoop l1Blocks l2SafeHead rest remaining
      | BatchAccept => ScanAccept batch (remaining ++ rest)
      | BatchUndecided => ScanUndecided (remaining ++ [batch])
      end
  end.

(** [delete] when nothing remains, otherwise store the rest. *)
Definition storeRemaining (t : Z) (remaining : list BatchWithL1InclusionBlock)
    (m : gmap Z (list BatchWithL1InclusionBlock)) :=
  match remaining with
  | [] => delete t m
  | _ => <[t := remaining]> m
  end.

Definition emptyBatch (l2SafeHead : L2BlockRef) (epoch : L1BlockRef) (t : Z) : BatchData :=
  mkBatchV1 (l2_Hash l2SafeHead) (l1_Number epoch) (l1_Hash epoch) t [].

(** The part of [deriveNextBatch] after no buffered batch was accepted. *)
Definition forceEmptyBatch (bq : BatchQueue P) (outOfData : bool) (l2SafeHead : L2BlockRef)
    (epoch : L1BlockRef) (more : list L1BlockRef) : BatchQueue P * result BatchData :=
  let nextTimestamp := l2_Time l2SafeHead ⊞ cfg_BlockTime cfg in
  let expiryEpoch := l1_Number epoch ⊞ cfg_SeqWindowSize cfg in
  let forceNextEpoch :=
    ((expiryEpoch =? l1_Number (bq_origin bq)) && outOfData) ||
    (expiryEpoch <? l1_Number (bq_origin bq)) in
  if negb forceNextEpoch then (bq, Err io_EOF)
  else
    match more with
    | [] => (bq, Err io_EOF)
    | nextEpoch :: _ =>
        if nextTimestamp <? l1_Time nextEpoch
        then (bq, Ok (emptyBatch l2SafeHead epoch nextTimestamp))
        else (set_l1Blocks more bq, Ok (emptyBatch l2SafeHead nextEpoch nextTimestamp))
    end.

Definition deriveNextBatch (bq : BatchQueue P) (outOfData : bool) (l2SafeHead : L2BlockRef)
  : BatchQueue P * result BatchData :=
  match bq_l1Blocks bq with
  | [] => (bq, Err (NewCriticalError (ErrorNew "cannot derive next batch, no origin was prepared")))
  | epoch :: more =>
      if negb (bool_decide (l2_L1Origin l2SafeHead = L1BlockRef_ID epoch)) then
        (bq, Err (NewResetError (ErrorNew
               "buffered L1 chain epoch in batch queue does not match safe head")))
      else
        let nextTimestamp := l2_Time l2SafeHead ⊞ cfg_BlockTime cfg in
        let candidates := default [] (bq_batches bq !! nextTimestamp) in
        match batchLoop (bq_l1Blocks bq) l2SafeHead candidates [] with
        | ScanErr e => (bq, Err e)
        | ScanUndecided remaining =>
            (set_batches (<[nextTimestamp := remaining]> (bq_batches bq)) bq, Err io_EOF)
        | ScanAccept nextBatch remaining =>
            let bq := set_batches (storeRemaining nextTimestamp remaining (bq_batches bq)) bq in
            let bq := if b_EpochNum (bw_Batch nextBatch) =? (l1_Number epoch ⊞ 1)
                      then set_l1Blocks more bq else bq in
            (bq, Ok (bw_Batch nextBatch))
        | ScanNone remaining =>
            let bq := set_batches (storeRemaining nextTimestamp remaining (bq_batches bq)) bq in
            forceEmptyBatch bq outOfData l2SafeHead epoch more
        end
  end.

Definition AddBatch (bq : BatchQueue P) (batch : BatchData) (l2SafeHead : L2BlockRef)
  : result (BatchQueue P) :=
  match bq_l1Blocks bq with
  | [] => Panic "cannot add batch, no origin was prepared"
  | _ =>
      let data := mkBatchWithL1 (bq_origin bq) batch in
      match CheckBatch cfg (bq_l1Blocks bq) l2SafeHead data with
      | BatchDrop => Ok bq
      | _ =>
          let old := default [] (bq_batches bq !! b_Timestamp batch) in
          Ok (set_batches (<[b_Timestamp batch := old ++ [data]]> (bq_batches bq)) bq)
      end
  end.

(** The first part of [NextBatch]: advance the origin if needed. *)
Definition advanceOrigin (bq : BatchQueue P) (originBehind : bool) : BatchQueue P :=
  let o := prov_Origin (bq_prev bq) in
  if bool_decide (bq_origin bq = o) then bq
  else mkBatchQueue (bq_prev bq) o
         (if negb originBehind then bq_l1Blocks bq ++ [o] else []) (bq_batches bq).

(** The end of [NextBatch], after the previous stage has been asked for data. *)
Definition NextBatch_derive (bq : BatchQueue P) (originBehind outOfData : bool)
  (safeL2Head : L2BlockRef) : BatchQueue P * result BatchData :=
  if originBehind then (bq, Err (if outOfData then io_EOF else NotEnoughData))
  else
    let '(bq, r) := deriveNextBatch bq outOfData safeL2Head in
    match r with
    | Err e =>
        if bool_decide (e = io_EOF) then (bq, Err (if outOfData then io_EOF else NotEnoughData))
        else (bq, Err e)
    | r => (bq, r)
    end.

Definition BatchQueue_NextBatch (bq : BatchQueue P) (safeL2Head : L2BlockRef)
  : BatchQueue P * result BatchData :=
  let originBehind := l1_Number (bq_origin bq) <? id_Number (l2_L1Origin safeL2Head) in
  let bq := advanceOrigin bq originBehind in
  let '(prev, r) := prov_NextBatch (bq_prev bq) in
  let bq := set_prev prev bq in
  (* load more data into the batch queue *)
  let loaded : result (BatchQueue P * bool) :=
    match r with
    | Err e => if bool_decide (e = io_EOF) then Ok (bq, true) else Err e
    | Panic s => Panic s
    | Ok batch =>
        if originBehind then Ok (bq, false)
        else bq ← AddBatch bq batch safeL2Head; Ok (bq, false)
    end in
  match loaded with
  | Err e => (bq, Err e)
  | Panic s => (bq, Panic s)
  | Ok (bq, outOfData) => NextBatch_derive bq originBehind outOfData safeL2Head
  end.

Definition BatchQueue_Reset (bq : BatchQueue P) (base : L1BlockRef)
  : BatchQueue P * result unit :=
  (mkBatchQueue (bq_prev bq) base [base] ∅, Err io_EOF).

(** ** Invariant *)

(** Consecutive L1 blocks. *)
Definition contiguous (l : list L1BlockRef) : Prop :=
  ∀ (i : nat) a b, l !! i = Some a → l !! S i = Some b → l1_Number b = l1_Number a + 1.

(** Batches are filed under their timestamps. *)
Definition filed (m : gmap Z (list BatchWithL1InclusionBlock)) : Prop :=
  ∀ t l, m !! t = Some l → Forall (λ b, b_Timestamp (bw_Batch b) = t) l.

(** The tracked L1 blocks are consecutive and end at the queue's origin. *)
Record bq_inv (bq : BatchQueue P) : Prop := {
  bi_contiguous : contiguous (bq_l1Blocks bq);
  bi_last : bq_l1Blocks bq = [] ∨ last (bq_l1Blocks bq) = Some (bq_origin bq);
  bi_filed : filed (bq_batches bq) }.

(** The provider is at the queue's origin or one block further. *)
Definition next_origin (bq : BatchQueue P) : Prop :=
  prov_Origin (bq_prev bq) = bq_origin bq ∨
  l1_Number (prov_Origin (bq_prev bq)) = l1_Number (bq_origin bq) + 1.

(** ** Lemmas *)

Lemma contiguous_tail x l : contiguous (x :: l) → contiguous l.
Proof. intros Hc i a b Ha Hb. by apply (Hc (S i)). Qed.

Lemma contiguous_snoc l o x :
  contiguous l → last l = Some o → l1_Number x = l1_Number o + 1 → contiguous (l ++ [x]).
Proof.
  intros Hc Hl Hx i a b Ha Hb. apply lookup_app_Some in Hb as [Hb|[Hi Hb]].
  - apply (Hc i); [|done]. rewrite lookup_app_l in Ha; [done|].
    apply lookup_lt_Some in Hb. lia.
  - apply list_lookup_singleton_Some in Hb as [Hi' <-].
    rewrite lookup_app_l in Ha by (destruct l; [done|cbn in *; lia]).
    rewrite last_lookup in Hl. replace (pred (length l)) with i in Hl by lia.
    rewrite Hl in Ha. by injection Ha as <-.
Qed.

Lemma contiguous_singleton x : contiguous [x].
Proof. intros [|i] a b Ha Hb; done. Qed.

Lemma filed_insert m t l :
  filed m → Forall (λ b, b_Timestamp (bw_Batch b) = t) l → filed (<[t := l]> m).
Proof.
  intros Hm Hl t' l'. destruct (decide (t' = t)) as [->|Hne].
  - rewrite lookup_insert_eq. by intros [= <-].
  - rewrite lookup_insert_ne by done. apply Hm.
Qed.

Lemma filed_lookup m t : filed m → Forall (λ b, b_Timestamp (bw_Batch b) = t) (default [] (m !! t)).
Proof. intros Hm. destruct (m !! t) as [l|] eqn:E; [by apply (Hm t)|constructor]. Qed.

Lemma filed_store m t l :
  filed m → Forall (λ b, b_Timestamp (bw_Batch b) = t) l → filed (storeRemaining t l m).
Proof.
  intros Hm Hl. destruct l as [|x l]; [|by apply filed_insert].
  cbn [storeRemaining]. intros t' l' [_ ?]%lookup_delete_Some. by apply Hm.
Qed.

(** A batch with the expected timestamp is never one for the future. *)
Lemma CheckBatch_not_future l1Blocks safe b :
  b_Timestamp (bw_Batch b) = l2_Time safe ⊞ cfg_BlockTime cfg →
  CheckBatch cfg l1Blocks safe b ≠ BatchFuture.
Proof.
  intros Ht. unfold CheckBatch, CheckBatch_origin. destruct l1Blocks; [done|].
  rewrite Ht, Z.ltb_irrefl. repeat case_match; done.
Qed.

(** What the loop finds: the first acceptable batch, after dropped ones only. *)
Lemma batchLoop_spec l1Blocks safe cands acc :
  Forall (λ b, b_Timestamp (bw_Batch b) = l2_Time safe ⊞ cfg_BlockTime cfg) cands →
  let dropped := Forall (λ b, CheckBatch cfg l1Blocks safe b = BatchDrop) in
  match batchLoop l1Blocks safe cands acc with
  | ScanErr _ => False
  | ScanAccept b rest => ∃ pre post, cands = pre ++ b :: post ∧ dropped pre ∧ rest = acc ++ post ∧
      CheckBatch cfg l1Blocks safe b = BatchAccept
  | ScanUndecided rest => ∃ pre b post, cands = pre ++ b :: post ∧ dropped pre ∧ rest = acc ++ [b] ∧
      CheckBatch cfg l1Blocks safe b = BatchUndecided
  | ScanNone rest => dropped cands ∧ rest = acc
  end.
Proof.
  intros Hc. cbn zeta. induction Hc as [|b cands Hb Hc IH]; cbn [batchLoop].
  { split; [constructor|done]. }
  destruct (CheckBatch cfg l1Blocks safe b) eqn:E.
  - destruct (batchLoop l1Blocks safe cands acc) as [e|b' rest|rest|rest].
    + done.
    + destruct IH as (pre & post & -> & Hp & -> & Ha). exists (b :: pre), post.
      split; [done|]. split; [by constructor|done].
    + destruct IH as (pre & b' & post & -> & Hp & -> & Ha). exists (b :: pre), b', post.
      split; [done|]. split; [by constructor|done].
    + destruct IH as [Hd ->]. split; [by constructor|done].
  - exists [], cands. split; [done|]. split; [constructor|done].
  - exists [], b, cands. split; [done|]. split; [constructor|done].
  - by destruct (CheckBatch_not_future l1Blocks safe b Hb).
Qed.

(** A batch accepted on a known chain names one of its first two blocks. *)
Lemma accepted_fields l1Blocks epoch more safe b :
  l1Blocks = epoch :: more → CheckBatch cfg l1Blocks safe b = BatchAccept →
  b_ParentHash (bw_Batch b) = l2_Hash safe ∧
  ((b_EpochNum (bw_Batch b) = l1_Number epoch ∧ b_EpochHash (bw_Batch b) = l1_Hash epoch) ∨
   (b_EpochNum (bw_Batch b) = l1_Number epoch ⊞ 1 ∧ b_EpochNum (bw_Batch b) ≠ l1_Number epoch ∧
    ∃ next rest, more = next :: rest ∧ b_EpochHash (bw_Batch b) = l1_Hash next)).
Proof.
  intros -> HA. unfold CheckBatch, CheckBatch_origin in HA.
  repeat (case_match; bool_props; try done); (split; [done|]).
  - by left.
  - right. split_and!; [done|done|]. by eexists _, _.
Qed.

(** What a derived batch looks like, and where the queue's first block is then. *)
Record good_batch (safe : L2BlockRef) (b : BatchData) (o : L1BlockRef) : Prop := {
  gb_parent : b_ParentHash b = l2_Hash safe;
  gb_time : b_Timestamp b = l2_Time safe ⊞ cfg_BlockTime cfg;
  gb_epoch : Batch_Epoch b = L1BlockRef_ID o;
  gb_origin : l1_Number o = id_Number (l2_L1Origin safe) ∨
              l1_Number o = id_Number (l2_L1Origin safe) + 1;
  gb_content : b = emptyBatch safe o (b_Timestamp b) ∨
               ∃ incl l1Blocks,
                 CheckBatch cfg l1Blocks safe (mkBatchWithL1 incl b) = BatchAccept }.

Lemma deriveNextBatch_good bq ood safe bq' b :
  bq_inv bq → Forall (λ o, is_u64 (l1_Number o) ∧ is_u64 (l1_Number o + 1)) (bq_l1Blocks bq) →
  deriveNextBatch bq ood safe = (bq', Ok b) →
  bq_inv bq' ∧ ∃ o, head (bq_l1Blocks bq') = Some o ∧ good_batch safe b o.
Proof.
  intros [Hc Hl Hf] Hr HD. unfold deriveNextBatch in HD.
  destruct (bq_l1Blocks bq) as [|epoch more] eqn:El; [done|].
  case_bool_decide as Hep; cbn [negb] in HD; [|done].
  pose proof (filed_lookup _ (l2_Time safe ⊞ cfg_BlockTime cfg) Hf) as Hcand.
  pose proof (batchLoop_spec (epoch :: more) safe _ [] Hcand) as Hspec. cbn zeta in Hspec.
  destruct (batchLoop (epoch :: more) safe _ []) as [e|nb rest|rest|rest]; try done.
  - destruct Hspec as (pre & post & Hpp & _ & -> & HA). cbn [app] in HD.
    rewrite Hpp in Hcand. apply Forall_app in Hcand as [_ [Hnb Hpost]%Forall_cons_1].
    destruct (accepted_fields _ epoch more safe nb eq_refl HA) as (Hpar & Hcase).
    pose proof (filed_store _ _ _ Hf Hpost) as Hfs.
    injection HD as <- <-. apply Forall_cons_1 in Hr as [[He0 He1] Hr].
    rewrite (u64_small (l1_Number epoch + 1)) in * by done.
    assert (Hcont : ∃ incl l1b, CheckBatch cfg l1b safe (mkBatchWithL1 incl (bw_Batch nb)) = BatchAccept).
    { exists (L1InclusionBlock nb), (epoch :: more). by destruct nb. }
    destruct Hcase as [[Hn Hh]|(Hn & Hne & next & rest' & -> & Hh)].
    + destruct (Z.eqb_spec (b_EpochNum (bw_Batch nb)) (l1_Number epoch + 1)); [lia|].
      split; [split; cbn; rewrite ?El; done|].
      exists epoch. cbn. rewrite El. split; [done|]. split; try done.
      * unfold Batch_Epoch, L1BlockRef_ID. by rewrite Hn, Hh.
      * left. by rewrite Hep.
      * by right.
    + rewrite Hn, Z.eqb_refl. assert (Hnn : l1_Number next = l1_Number epoch + 1) by (by apply (Hc 0%nat)).
      split; [split; cbn; [by eapply contiguous_tail| |done]|].
      { right. destruct Hl as [Hl|Hl]; [done|]. by rewrite last_cons_cons in Hl. }
      exists next. split; [done|]. split; try done.
      * unfold Batch_Epoch, L1BlockRef_ID. by rewrite Hn, Hh, Hnn.
      * right. rewrite Hep. cbn. lia.
      * by right.
  - destruct Hspec as [_ ->]. unfold forceEmptyBatch in HD. cbn [storeRemaining] in HD.
    assert (Hfs : filed (delete (l2_Time safe ⊞ cfg_BlockTime cfg) (bq_batches bq))).
    { apply (filed_store _ _ [] Hf). constructor. }
    case_match; [done|]. destruct more as [|next more]; [done|].
    assert (Hnn : l1_Number next = l1_Number epoch + 1) by (by apply (Hc 0%nat)).
    case_match; injection HD as <- <-.
    + split; [split; cbn; rewrite ?El; done|]. exists epoch. cbn. rewrite El.
      split; [done|]. split; try done; [left; by rewrite Hep|by left].
    + split; [split; cbn; [by eapply contiguous_tail| |done]|].
      { right. destruct Hl as [Hl|Hl]; [done|]. by rewrite last_cons_cons in Hl. }
      exists next. split; [done|]. split; try done; [right; rewrite Hep; cbn; lia|by left].
Qed.

(** ** The stage keeps its invariant *)

Lemma advanceOrigin_inv bq behind :
  bq_inv bq → next_origin bq →
  bq_inv (advanceOrigin bq behind) ∧
  bq_origin (advanceOrigin bq behind) = prov_Origin (bq_prev bq) ∧
  bq_prev (advanceOrigin bq behind) = bq_prev bq.
Proof.
  intros [Hc Hl Hf] Hn. unfold advanceOrigin. case_bool_decide as Ho.
  { split; [by split|]. by split. }
  split; [|done]. destruct Hn as [Hn|Hn]; [congruence|]. split; cbn; [| |done].
  - destruct behind; cbn [negb]; [by intros ?|].
    destruct Hl as [->|Hl]; [apply contiguous_singleton|]. by eapply contiguous_snoc.
  - destruct behind; cbn [negb]; [by left|]. right. by rewrite last_snoc.
Qed.

Lemma AddBatch_inv bq b safe bq' :
  bq_inv bq → AddBatch bq b safe = Ok bq' →
  bq_inv bq' ∧ bq_l1Blocks bq' = bq_l1Blocks bq ∧ bq_origin bq' = bq_origin bq ∧
  bq_prev bq' = bq_prev bq.
Proof.
  intros [Hc Hl Hf] HA. unfold AddBatch in HA.
  assert (Hins : filed (<[b_Timestamp b := default [] (bq_batches bq !! b_Timestamp b) ++
                   [mkBatchWithL1 (bq_origin bq) b]]> (bq_batches bq))).
  { apply filed_insert; [done|]. apply Forall_app. split; [by apply filed_lookup|].
    by repeat constructor. }
  destruct (bq_l1Blocks bq) as [|x l] eqn:El; [done|].
  case_match; injection HA as <-; cbn; rewrite El; (split; [split; cbn; rewrite ?El; done|done]).
Qed.

Lemma set_prev_inv p bq : bq_inv bq → bq_inv (set_prev p bq).
Proof. intros [Hc Hl Hf]. by split. Qed.

Lemma deriveNextBatch_frame bq ood safe bq' r :
  bq_inv bq → Forall (λ o, is_u64 (l1_Number o) ∧ is_u64 (l1_Number o + 1)) (bq_l1Blocks bq) →
  deriveNextBatch bq ood safe = (bq', r) →
  bq_inv bq' ∧ bq_origin bq' = bq_origin bq ∧ bq_prev bq' = bq_prev bq.
Proof.
  intros Hinv Hr HD. assert (Ho : bq_origin bq' = bq_origin bq ∧ bq_prev bq' = bq_prev bq).
  { unfold deriveNextBatch, forceEmptyBatch in HD. by repeat case_match; simplify_eq/=. }
  split; [|done]. destruct r as [b|e|m].
  { by destruct (deriveNextBatch_good _ _ _ _ _ Hinv Hr HD). }
  2:{ unfold deriveNextBatch, forceEmptyBatch in HD. by repeat case_match; simplify_eq/=. }
  destruct Hinv as [Hc Hl Hf]; unfold deriveNextBatch, forceEmptyBatch in HD.
  destruct (bq_l1Blocks bq) as [|epoch more] eqn:El;
    [injection HD as <- <-; split; rewrite ?El; done|].
  pose proof (filed_lookup _ (l2_Time safe ⊞ cfg_BlockTime cfg) Hf) as Hcand.
  pose proof (batchLoop_spec (epoch :: more) safe _ [] Hcand) as Hspec. cbn zeta in Hspec.
  destruct (batchLoop (epoch :: more) safe _ []) as [e'|nb rest|rest|rest];
    repeat case_match; try done; injection HD as <- <-; split; cbn; rewrite ?El; try done.
  - destruct Hspec as (pre & b & post & Hpp & _ & -> & _). apply filed_insert; [done|].
    rewrite Hpp in Hcand. apply Forall_app in Hcand as [_ [? _]%Forall_cons_1]. by repeat constructor.
  - destruct Hspec as [_ ->]. apply filed_store; [done|constructor].
  - destruct Hspec as [_ ->]. apply filed_store; [done|constructor].
Qed.

(** The tracked blocks a call of [NextBatch] works with. *)
Definition tracked_range (bq : BatchQueue P) : Prop :=
  Forall (λ o, is_u64 (l1_Number o) ∧ is_u64 (l1_Number o + 1))
    (prov_Origin (bq_prev bq) :: bq_l1Blocks bq).

Lemma advanceOrigin_range bq behind :
  tracked_range bq →
  Forall (λ o, is_u64 (l1_Number o) ∧ is_u64 (l1_Number o + 1))
    (bq_l1Blocks (advanceOrigin bq behind)).
Proof.
  intros [Hr0 Hr]%Forall_cons_1. unfold advanceOrigin.
  case_bool_decide; [done|]. cbn. destruct behind; cbn; [constructor|].
  apply Forall_app. split; [done|]. by constructor.
Qed.

Lemma NextBatch_derive_good bq behind ood safe bq' r :
  bq_inv bq →
  Forall (λ o, is_u64 (l1_Number o) ∧ is_u64 (l1_Number o + 1)) (bq_l1Blocks bq) →
  NextBatch_derive bq behind ood safe = (bq', r) →
  bq_inv bq' ∧ bq_origin bq' = bq_origin bq ∧ bq_prev bq' = bq_prev bq ∧
  (∀ b, r = Ok b → ∃ o, head (bq_l1Blocks bq') = Some o ∧ good_batch safe b o).
Proof.
  intros Hinv Hr HX. unfold NextBatch_derive in HX. destruct behind.
  { by injection HX as <- <-. }
  destruct (deriveNextBatch bq ood safe) as [bq3 r3] eqn:ED.
  destruct (deriveNextBatch_frame _ _ _ _ _ Hinv Hr ED) as (H3 & Ho3 & Hp3).
  assert (bq3 = bq') as <- by (by repeat case_match; simplify_eq).
  split_and!; try done. intros b ->.
  destruct r3 as [b3|e|]; [|by case_bool_decide|done]. injection HX as ->.
  by destruct (deriveNextBatch_good _ _ _ _ _ Hinv Hr ED).
Qed.

Lemma NextBatch_inv_good bq safe bq' r :
  bq_inv bq → next_origin bq → tracked_range bq →
  BatchQueue_NextBatch bq safe = (bq', r) →
  bq_inv bq' ∧ bq_origin bq' = prov_Origin (bq_prev bq) ∧
  prov_Origin (bq_prev bq') = prov_Origin (bq_prev bq) ∧
  (∀ b, r = Ok b → ∃ o, head (bq_l1Blocks bq') = Some o ∧ good_batch safe b o).
Proof.
  intros Hinv Hn Hr HN. unfold BatchQueue_NextBatch in HN.
  set (behind := l1_Number (bq_origin bq) <? _) in HN.
  destruct (advanceOrigin_inv bq behind Hinv Hn) as (Hinv1 & Ho1 & Hp1).
  pose proof (advanceOrigin_range bq behind Hr) as Hr1.
  set (bq1 := advanceOrigin bq behind) in *. clearbody bq1. rewrite Hp1 in HN.
  pose proof (prov_NextBatch_Origin (bq_prev bq)) as Hpo.
  destruct (prov_NextBatch (bq_prev bq)) as [prev r1]. cbn [fst] in Hpo.
  assert (Hset : bq_inv (set_prev prev bq1)) by (by apply set_prev_inv).
  assert (Hkey : ∀ bq2 ood, bq_inv bq2 → bq_l1Blocks bq2 = bq_l1Blocks bq1 →
    bq_origin bq2 = bq_origin bq1 → bq_prev bq2 = prev →
    NextBatch_derive bq2 behind ood safe = (bq', r) →
    bq_inv bq' ∧ bq_origin bq' = prov_Origin (bq_prev bq) ∧
    prov_Origin (bq_prev bq') = prov_Origin (bq_prev bq) ∧
    (∀ b, r = Ok b → ∃ o, head (bq_l1Blocks bq') = Some o ∧ good_batch safe b o)).
  { intros bq2 ood H2 Hl2 Ho2 Hp2 HX. rewrite <- Hl2 in Hr1.
    destruct (NextBatch_derive_good _ _ _ _ _ _ H2 Hr1 HX) as (H3 & Ho3 & Hp3 & Hg).
    by rewrite Ho3, Hp3, Ho2, Hp2. }
  destruct r1 as [batch|e|m].
  - destruct behind; [by apply Hkey in HN|].
    destruct (AddBatch (set_prev prev bq1) batch safe) as [bq2|e|m] eqn:EA; cbn in HN.
    + destruct (AddBatch_inv _ _ _ _ Hset EA) as (H2 & Hl2 & Ho2 & Hp2). by apply Hkey in HN.
    + injection HN as <- <-. by split.
    + injection HN as <- <-. by split.
  - case_bool_decide; [by apply Hkey in HN|]. injection HN as <- <-. by split.
  - injection HN as <- <-. by split.
Qed.

(** C21. A batch returned by [NextBatch] extends the safe head by one block time on
    the current or the next L1 origin, is either a batch [CheckBatch] accepts or
    the forced empty batch, and leaves its own L1 origin as the first tracked
    block, where the next call expects it; the queue's invariant is kept. *)
Theorem NextBatch_good bq safe bq' b :
  bq_inv bq → next_origin bq → tracked_range bq →
  BatchQueue_NextBatch bq safe = (bq', Ok b) →
  bq_inv bq' ∧ ∃ o, head (bq_l1Blocks bq') = Some o ∧ good_batch safe b o.
Proof.
  intros Hi Hn Hr HN. destruct (NextBatch_inv_good _ _ _ _ Hi Hn Hr HN) as (H1 & _ & _ & H2).
  split; [done|]. by apply H2.
Qed.

(** C22. Liveness: once the sequencing window of the current epoch has expired and
    the next L1 block is known, a batch is derived, whatever was submitted. *)
Theorem deriveNextBatch_progress bq ood safe epoch next more :
  bq_inv bq → bq_l1Blocks bq = epoch :: next :: more →
  l2_L1Origin safe = L1BlockRef_ID epoch → is_u64 (l1_Number epoch + 1) →
  is_u64 (l1_Number epoch + cfg_SeqWindowSize cfg) →
  l1_Number epoch + cfg_SeqWindowSize cfg < l1_Number (bq_origin bq) ∨
  (l1_Number epoch + cfg_SeqWindowSize cfg = l1_Number (bq_origin bq) ∧ ood = true) →
  ∃ bq' b, deriveNextBatch bq ood safe = (bq', Ok b).
Proof.
  intros [Hc Hl Hf] El Hep Hu Hw Hexp. unfold deriveNextBatch. rewrite El.
  rewrite bool_decide_eq_true_2 by done. cbn [negb].
  pose proof (filed_lookup _ (l2_Time safe ⊞ cfg_BlockTime cfg) Hf) as Hcand.
  pose proof (batchLoop_spec (epoch :: next :: more) safe _ [] Hcand) as Hspec. cbn zeta in Hspec.
  destruct (batchLoop _ safe _ []) as [e|nb rest|rest|rest].
  - done.
  - by eexists _, _.
  - exfalso. destruct Hspec as (pre & b & post & _ & _ & _ & HU).
    unfold CheckBatch, CheckBatch_origin in HU. rewrite Hep in HU. cbn [L1BlockRef_ID id_Hash] in HU.
    rewrite bool_decide_eq_true_2 in HU by done. repeat case_match; done.
  - unfold forceEmptyBatch. rewrite (u64_small (l1_Number epoch + _)) by done. cbn [set_batches bq_origin].
    assert (((l1_Number epoch + cfg_SeqWindowSize cfg =? l1_Number (bq_origin bq)) && ood)
            || (l1_Number epoch + cfg_SeqWindowSize cfg <? l1_Number (bq_origin bq)) = true) as ->.
    { destruct Hexp as [Hlt|[-> ->]].
      - apply orb_true_intro. right. by apply Z.ltb_lt.
      - by rewrite Z.eqb_refl. }
    cbn [negb]. case_match; by eexists _, _.
Qed.

(** ** Starting behind the safe head *)

(** The queue is pulled with a fixed safe head, and the L1 origin advances. *)
Inductive bq_step (safe : L2BlockRef) : BatchQueue P → BatchQueue P → Prop :=
| step_pull bq : bq_step safe bq (fst (BatchQueue_NextBatch bq safe))
| step_advance bq p :
    l1_Number (prov_Origin (bq_prev bq)) < l1_Number (prov_Origin p) →
    bq_step safe bq (set_prev p bq).

(** The first tracked L1 block is above the origin of the safe head. *)
Definition blocks_above (safe : L2BlockRef) (l : list L1BlockRef) : Prop :=
  match l with [] => True | e :: _ => id_Number (l2_L1Origin safe) < l1_Number e end.

(** The queue is behind the safe head's origin, or has passed it without
    recording it. *)
Definition stuck (safe : L2BlockRef) (bq : BatchQueue P) : Prop :=
  let n := id_Number (l2_L1Origin safe) in
  (prov_Origin (bq_prev bq) = bq_origin bq ∨
   l1_Number (bq_origin bq) < l1_Number (prov_Origin (bq_prev bq))) ∧
  (l1_Number (bq_origin bq) < n ∨
   (n <= l1_Number (bq_origin bq) ∧ blocks_above safe (bq_l1Blocks bq))).

Lemma NextBatch_derive_stuck bq ood safe :
  blocks_above safe (bq_l1Blocks bq) → ∃ e, NextBatch_derive bq false ood safe = (bq, Err e).
Proof.
  intros Hs. unfold NextBatch_derive.
  assert (∃ e, deriveNextBatch bq ood safe = (bq, Err e)) as [e ->].
  { unfold deriveNextBatch. destruct (bq_l1Blocks bq) as [|e l]; [by eexists|].
    rewrite bool_decide_eq_false_2; [by eexists|]. intros E. unfold blocks_above in Hs. rewrite E in Hs.
    cbn in Hs. lia. }
  case_bool_decide; by eexists.
Qed.

(** Tracking the new origin keeps the queue stuck, whether it is behind or not. *)
Lemma advanceOrigin_stuck bq safe prev :
  stuck safe bq → prov_Origin prev = prov_Origin (bq_prev bq) →
  let behind := l1_Number (bq_origin bq) <? id_Number (l2_L1Origin safe) in
  stuck safe (set_prev prev (advanceOrigin bq behind)) ∧
  (behind = false → blocks_above safe (bq_l1Blocks (advanceOrigin bq behind))).
Proof.
  intros [Hp Hs] Hpo behind. unfold behind, stuck, advanceOrigin.
  destruct (Z.ltb_spec (l1_Number (bq_origin bq)) (id_Number (l2_L1Origin safe))) as [Hlt|Hge].
  - split; [|done]. case_bool_decide as Ho; cbn; rewrite Hpo; (split; [by left|]); [by left|].
    destruct (Z.lt_ge_cases (l1_Number (prov_Origin (bq_prev bq)))
                (id_Number (l2_L1Origin safe))); [by left|by right].
  - destruct Hs as [?|[_ Hs]]; [lia|]. case_bool_decide as Ho; cbn; rewrite Hpo.
    + split; [|done]. split; [by left|by right].
    + destruct Hp as [?|Hp]; [congruence|].
      assert (Hh : blocks_above safe (bq_l1Blocks bq ++ [prov_Origin (bq_prev bq)]))
        by (destruct (bq_l1Blocks bq); cbn in *; lia).
      split; [|done]. split; [by left|right]. split; [lia|done].
Qed.

Lemma AddBatch_l1Blocks bq b safe bq' :
  AddBatch bq b safe = Ok bq' →
  bq_l1Blocks bq' = bq_l1Blocks bq ∧ bq_origin bq' = bq_origin bq ∧ bq_prev bq' = bq_prev bq.
Proof.
  intros HA. unfold AddBatch in HA. destruct (bq_l1Blocks bq) as [|x l] eqn:El; [done|].
  by case_match; injection HA as <-; cbn.
Qed.

(** One pull keeps a stuck queue stuck and returns no batch. *)
Lemma NextBatch_stuck bq safe bq' r :
  stuck safe bq → BatchQueue_NextBatch bq safe = (bq', r) →
  stuck safe bq' ∧ ∀ b, r ≠ Ok b.
Proof.
  intros Hst HN. unfold BatchQueue_NextBatch in HN.
  pose proof (prov_NextBatch_Origin (bq_prev bq)) as Hpo.
  set (behind := l1_Number (bq_origin bq) <? id_Number (l2_L1Origin safe)) in *.
  assert (bq_prev (advanceOrigin bq behind) = bq_prev bq) as Hprev
    by (unfold advanceOrigin; by case_bool_decide).
  rewrite Hprev in HN. destruct (prov_NextBatch (bq_prev bq)) as [prev r1]. cbn [fst] in Hpo.
  destruct (advanceOrigin_stuck bq safe prev Hst Hpo) as [Hst1 Hh]. fold behind in Hst1, Hh.
  set (bq1 := set_prev prev (advanceOrigin bq behind)) in *.
  change (bq_l1Blocks (advanceOrigin bq behind)) with (bq_l1Blocks bq1) in Hh.
  clearbody bq1 behind. destruct behind; [repeat case_match; by simplify_eq/=|].
  specialize (Hh eq_refl).
  assert (Hfin : ∀ bq2 ood, stuck safe bq2 → blocks_above safe (bq_l1Blocks bq2) →
    NextBatch_derive bq2 false ood safe = (bq', r) → stuck safe bq' ∧ ∀ b, r ≠ Ok b).
  { intros bq2 ood H2 Hh2 HX. destruct (NextBatch_derive_stuck bq2 ood safe Hh2) as (e & ED).
    rewrite ED in HX. by injection HX as <- <-. }
  destruct r1 as [batch|e|m]; [| |by injection HN as <- <-].
  - destruct (AddBatch bq1 batch safe) as [bq2|e|m] eqn:EA; cbn in HN; [|by injection HN as <- <-..].
    destruct (AddBatch_l1Blocks _ _ _ _ EA) as (E1 & E2 & E3).
    apply (Hfin bq2 false) in HN; [done| |by rewrite E1].
    unfold stuck in *. by rewrite E1, E2, E3.
  - case_bool_decide; [by apply (Hfin bq1 true) in HN|by injection HN as <- <-].
Qed.

(** A queue that is reset to an L1 block before the safe head's origin never
    returns a batch for that safe head, however the L1 origin advances and
    whatever the provider delivers: the test whether the queue is behind uses
    the old origin, so the safe head's own origin is never recorded. *)
Theorem reset_behind_never_derives bq base safe bq' :
  l1_Number base < id_Number (l2_L1Origin safe) →
  prov_Origin (bq_prev bq) = base →
  rtc (bq_step safe) (fst (BatchQueue_Reset bq base)) bq' →
  ∀ b, snd (BatchQueue_NextBatch bq' safe) ≠ Ok b.
Proof.
  intros Hb Hp Hrun. assert (Hst : stuck safe bq').
  { assert (H0 : stuck safe (fst (BatchQueue_Reset bq base))) by (split; by left).
    revert H0. induction Hrun as [x|x y z Hxy _ IH]; [done|]. intros Hx. apply IH.
    destruct Hxy as [x|x p Hlt].
    - destruct (BatchQueue_NextBatch x safe) as [x' r] eqn:E.
      by destruct (NextBatch_stuck _ _ _ _ Hx E).
    - destruct Hx as [[Ho|Ho] Hs]; (split; [|done]); right; cbn; [|lia].
      rewrite <- Ho. done. }
  destruct (BatchQueue_NextBatch bq' safe) as [x' r] eqn:E.
  by destruct (NextBatch_stuck _ _ _ _ Hst E).
Qed.

End BatchQueue.

(** ** Examples *)

(** A provider with a list of prepared answers. *)
Record ListBatches := mkListBatches { lb_items : list (result BatchData); lb_origin : L1BlockRef }.

#[local] Program Instance ListBatches_provider : NextBatchProvider ListBatches := {
  prov_NextBatch p :=
    match lb_items p with
    | [] => (p, Err io_EOF)
    | x :: l => (mkListBatches l (lb_origin p), x)
    end;
  prov_Origin := lb_origin }.
Next Obligation. by intros [[|x l] o]. Qed.

Definition example_queue (l1Blocks : list L1BlockRef) (origin : L1BlockRef)
    (items : list (result BatchData)) : BatchQueue ListBatches :=
  mkBatchQueue (mkListBatches items origin) origin l1Blocks ∅.

Lemma example_queue_inv l o items :
  contiguous l → (l = [] ∨ last l = Some o) → bq_inv (example_queue l o items).
Proof. intros Hc Hl. split; [done|done|]. by intros t x Hx. Qed.

Lemma example_contiguous a n : contiguous (example_l1 <$> seqZ a n).
Proof.
  intros i x y Hx Hy. rewrite list_lookup_fmap in Hx, Hy.
  destruct (seqZ a n !! i) as [u|] eqn:Eu; [|done]. destruct (seqZ a n !! S i) as [v|] eqn:Ev; [|done].
  apply lookup_seqZ in Eu as [-> _]. apply lookup_seqZ in Ev as [-> _].
  cbn in Hx, Hy. injection Hx as <-. injection Hy as <-. cbn [example_l1 l1_Number]. lia.
Qed.

Lemma NextBatch_good_witness :
  ∃ bq', BatchQueue_NextBatch example_cfg
           (example_queue (example_l1 <$> seqZ 1 2) (example_l1 2) [Ok (example_batch 7)])
           (example_l2 7) = (bq', Ok (example_batch 7)) ∧ bq_inv bq'.
Proof.
  eexists. split; [vm_compute; reflexivity|].
  refine (proj1 (NextBatch_good example_cfg
    (example_queue (example_l1 <$> seqZ 1 2) (example_l1 2) [Ok (example_batch 7)])
    (example_l2 7) _ (example_batch 7) _ _ _ _)).
  - apply example_queue_inv; [apply example_contiguous|by right].
  - left. reflexivity.
  - apply (bool_decide_unpack _). vm_compute. exact I.
  - vm_compute. reflexivity.
Defined.

Lemma deriveNextBatch_progress_witness :
  ∃ bq' b, deriveNextBatch example_cfg
             (example_queue (example_l1 <$> seqZ 1 12) (example_l1 12) []) false (example_l2 7)
           = (bq', Ok b).
Proof.
  apply (deriveNextBatch_progress example_cfg
    (example_queue (example_l1 <$> seqZ 1 12) (example_l1 12) [])
    false (example_l2 7) (example_l1 1) (example_l1 2) (example_l1 <$> seqZ 3 10)).
  - apply example_queue_inv; [apply example_contiguous|by right].
  - reflexivity.
  - reflexivity.
  - by vm_compute.
  - by vm_compute.
  - left. by vm_compute.
Defined.

Lemma reset_behind_never_derives_witness :
  snd (BatchQueue_NextBatch example_cfg
         (fst (BatchQueue_Reset (example_queue [] (example_l1 0) [Ok (example_batch 7)]) (example_l1 0)))
         (example_l2 7)) ≠ Ok (example_batch 7).
Proof.
  apply (reset_behind_never_derives example_cfg
    (example_queue [] (example_l1 0) [Ok (example_batch 7)]) (example_l1 0)).
  - by vm_compute.
  - reflexivity.
  - apply rtc_refl.
Defined.

(** A batch may move to an L1 origin that is younger than the L2 block itself:
    [CheckBatch] accepts a batch whose timestamp is before the time of its L1
    origin, although derivation is meant to keep L2 time at or above L1 time. *)
Theorem CheckBatch_breaks_time_invariant :
  ∃ cfg epoch next safe batch,
    l1_Time epoch <= l2_Time safe ∧ l1_ParentHash next = l1_Hash epoch ∧
    Batch_Epoch (bw_Batch batch) = L1BlockRef_ID next ∧
    CheckBatch cfg [epoch; next] safe batch = BatchAccept ∧
    b_Timestamp (bw_Batch batch) < l1_Time next.
Proof.
  exists example_cfg, (example_l1 1), (example_l1 2), (example_l2 7),
    (mkBatchWithL1 (example_l1 2)
       (mkBatchV1 (example_hash 2007) 2 (example_hash 1002) 16 [])).
  split_and!; by vm_compute.
Qed.

(** The two competing batches of the next theorem: the first names an L1 block
    that turns out not to be canonical, the second stays in the current epoch. *)
Definition wrong_next_batch : BatchData :=
  mkBatchV1 (example_hash 2007) 2 (example_hash 7777) 16 [].
Definition current_batch : BatchData := example_batch 7.

(** The queue that pulls both batches at L1 block 1, and then sees block 2. *)
Definition eager_queue : BatchQueue ListBatches :=
  let q := example_queue [example_l1 1] (example_l1 1) [Ok wrong_next_batch; Ok current_batch] in
  let q := fst (BatchQueue_NextBatch example_cfg q (example_l2 7)) in
  let q := fst (BatchQueue_NextBatch example_cfg q (example_l2 7)) in
  set_prev (mkListBatches [] (example_l1 2)) q.

(** The queue that knew block 2 when the batches were pulled. *)
Definition late_queue : BatchQueue ListBatches :=
  let q := example_queue (example_l1 <$> seqZ 1 2) (example_l1 2)
             [Ok wrong_next_batch; Ok current_batch] in
  fst (BatchQueue_NextBatch example_cfg q (example_l2 7)).

(** Eager and late derivation can differ: when a batch is undecided, the
    candidates behind it are forgotten, so a queue that pulled the same two
    batches before the next L1 block was known finds no batch where a queue that
    knew the block derives one. *)
Theorem undecided_forgets_candidates :
  snd (BatchQueue_NextBatch example_cfg eager_queue (example_l2 7)) = Err io_EOF ∧
  snd (BatchQueue_NextBatch example_cfg late_queue (example_l2 7)) = Ok current_batch.
Proof. split; vm_compute; reflexivity. Qed.
