(* ===== verification/Deposits.v ===== *)
(** * User deposits

    op-node/rollup/derive/deposit_log.go (the [TransactionDeposited] event and its
    codec) and deposits.go (extraction of the deposits of an L1 block). *)

From S2P Require Import Prelude GoErrors EthTypes Extern L1Info.

Definition DepositEventABI : string := "TransactionDeposited(address,address,uint256,bytes)".
Definition DepositEventVersion0 : Hash := zero_hash.

(** [common.BytesToAddress] and [common.BytesToHash]: the last bytes, padded on the
    left. *)
Definition cropPad (n : nat) (b : bytes) : bytes :=
  let b := drop (length b - n) b in zeros (n - length b) ++ b.
Definition BytesToAddress (b : bytes) : Address := cropPad AddressLength b.
Definition Address_Hash (a : Address) : Hash := cropPad HashLength a.

(** ** Decoding *)

(** [unmarshalDepositVersion0]; [dep] is the deposit filled so far. *)
Definition unmarshalDepositVersion0 (dep : DepositTx) (to : Address) (opaqueData : bytes)
  : result DepositTx :=
  if (length opaqueData <? 32 + 32 + 8 + 1)%nat then
    Err (ErrorNew "unexpected opaqueData length")
  else
    let mint := be_decode (slice 0 32 opaqueData) in
    let mint := if mint =? 0 then None else Some mint in
    let value := be_decode (slice 32 64 opaqueData) in
    let gas := be_decode (slice 64 72 opaqueData) in
    if negb (gas <? 2 ^ 64) then Err (ErrorNew "bad gas value")
    else
      let To := if bool_decide (opaqueData !! 72%nat = Some x00) then Some to else dep_To dep in
      Ok (mkDepositTx (dep_SourceHash dep) (dep_From dep) To mint value gas
            (dep_IsSystemTransaction dep) (drop 73 opaqueData)).

Section Deposits.
Context `{Keccak}.

Definition DepositEventABIHash : Hash := Keccak256 (String.list_byte_of_string DepositEventABI).

Definition UnmarshalDepositLogEvent (ev : Log) : result DepositTx :=
  match log_Topics ev with
  | [t0; t1; t2; t3] =>
      if negb (bool_decide (t0 = DepositEventABIHash)) then
        Err (ErrorNew "invalid deposit event selector")
      else if (length (log_Data ev) <? 64)%nat then
        Err (ErrorNew "incomplate opaqueData slice header")
      else if negb (length (log_Data ev) mod 32 =? 0)%nat then
        Err (ErrorNew "expected log data to be multiple of 32 bytes")
      else
        let from := BytesToAddress (drop 12 t1) in
        let to := BytesToAddress (drop 12 t2) in
        let version := t3 in
        let opaqueContentOffset := be_decode (slice 0 32 (log_Data ev)) in
        if negb (opaqueContentOffset <? 2 ^ 64) || negb (u64 opaqueContentOffset =? 32) then
          Err (ErrorNew "invalid opaqueData slice header offset")
        else
          let opaqueContentLength := be_decode (slice 32 64 (log_Data ev)) in
          let dataLen := len (log_Data ev) - 64 in
          if negb (opaqueContentLength <? 2 ^ 64) || (dataLen <? u64 opaqueContentLength)
             || ((u64 opaqueContentLength ⊞ 32) <=? dataLen) then
            Err (ErrorNew "invalid opaqueData slice header length")
          else
            let opaqueData := slice 64 (Z.to_nat (64 + u64 opaqueContentLength)) (log_Data ev) in
            let source := mkUserDepositSource (log_BlockHash ev) (log_Index ev) in
            let dep := mkDepositTx (UserDepositSource_SourceHash source) from None None 0 0
                         false [] in
            if bool_decide (version = DepositEventVersion0) then
              map_err (Errorf "failed to decode deposit") (unmarshalDepositVersion0 dep to opaqueData)
            else Err (ErrorNew "invalid deposit version")
  | _ => Err (ErrorNew "expected 4 event topics")
  end.

(** ** Encoding *)

Definition marshalDepositVersion0 (deposit : DepositTx) : result bytes :=
  let opaqueData := zeros (32 + 32 + 8 + 1) in
  opaqueData ← match dep_Mint deposit with
               | Some m => b ← FillBytes 32 (Some m); Ok (put 0 b opaqueData)
               | None => Ok opaqueData
               end;
  value ← FillBytes 32 (Some (dep_Value deposit));
  let opaqueData := put 32 value opaqueData in
  let opaqueData := put 64 (be_encode 8 (dep_Gas deposit)) opaqueData in
  let opaqueData := match dep_To deposit with
                    | None => put 72 [x01] opaqueData
                    | Some _ => opaqueData
                    end in
  Ok (opaqueData ++ dep_Data deposit).

Definition MarshalDepositLogEvent (depositContractAddr : Address) (deposit : DepositTx)
  : result Log :=
  let toBytes := match dep_To deposit with
                 | Some to => Address_Hash to
                 | None => zero_hash
                 end in
  let topics := [DepositEventABIHash; Address_Hash (dep_From deposit); toBytes;
                 DepositEventVersion0] in
  let data := zeros 64 in
  let data := put (32 - 8) (be_encode 8 32) data in
  opaqueData ← marshalDepositVersion0 deposit;
  let data := put (64 - 8) (be_encode 8 (len opaqueData)) data in
  let data := data ++ opaqueData in
  let data := if negb (length data mod 32 =? 0)%nat
              then data ++ zeros (32 - length data mod 32) else data in
  Ok (mkLog depositContractAddr topics data 0 zero_hash 0 zero_hash 0 false).

(** ** The deposits of a block (deposits.go) *)

Definition isDepositLog (depositContractAddr : Address) (log : Log) : bool :=
  bool_decide (log_Address log = depositContractAddr) &&
  match log_Topics log with t :: _ => bool_decide (t = DepositEventABIHash) | [] => false end.

(** The inner loop over the logs of a receipt; decoding does not panic, see
    [UnmarshalDepositLogEvent_no_panic]. *)
Fixpoint logLoop (addr : Address) (logs : list Log) (acc : list DepositTx * option error)
  : list DepositTx * option error :=
  match logs with
  | [] => acc
  | log :: logs =>
      let acc :=
        if isDepositLog addr log then
          match UnmarshalDepositLogEvent log with
          | Ok dep => (fst acc ++ [dep], snd acc)
          | Err e => (fst acc, Some (multierror_Append (snd acc)
                                       (Errorf "malformatted L1 deposit log" e)))
          | Panic s => acc
          end
        else acc in
      logLoop addr logs acc
  end.

Fixpoint receiptLoop (addr : Address) (receipts : list Receipt)
    (acc : list DepositTx * option error) : list DepositTx * option error :=
  match receipts with
  | [] => acc
  | rec :: receipts =>
      receiptLoop addr receipts
        (if rec_Status rec =? ReceiptStatusSuccessful then logLoop addr (rec_Logs rec) acc
         else acc)
  end.

Definition UserDeposits (receipts : list Receipt) (depositContractAddr : Address)
  : list DepositTx * option error := receiptLoop depositContractAddr receipts ([], None).

Context `{TxCodec}.

Fixpoint encodeLoop (deps : list DepositTx) (acc : list bytes * option error)
  : list bytes * option error :=
  match deps with
  | [] => acc
  | tx :: deps =>
      encodeLoop deps
        match MarshalDepositTx tx with
        | Ok opaqueTx => (fst acc ++ [opaqueTx], snd acc)
        | _ => (fst acc, Some (multierror_Append (snd acc) (ErrorNew "failed to encode user tx")))
        end
  end.

Definition DeriveDeposits (receipts : list Receipt) (depositContractAddr : Address)
  : list bytes * option error :=
  let '(userDeposits, err) := UserDeposits receipts depositContractAddr in
  let result := match err with Some e => Some (multierror_Append None e) | None => None end in
  encodeLoop userDeposits ([], result).

(** ** Specification *)

(** The body of a version 0 deposit event. *)
Definition deposit_body (mint value gas : Z) (isCreation : byte) (data : bytes) : bytes :=
  be_encode 32 mint ++ be_encode 32 value ++ be_encode 8 gas ++ [isCreation] ++ data.

(** The ABI layout of the event data: offset, length, body, padding to a word. *)
Definition deposit_layout (body padding : bytes) : bytes :=
  be_encode 32 32 ++ be_encode 32 (len body) ++ body ++ padding.

(** A log entry whose data has that layout, with any padding bytes and any
    leading bytes of the address topics. *)
Definition deposit_log (ev : Log) (dep : DepositTx) : Prop :=
  ∃ p1 from p2 to mint value gas c data padding,
    log_Topics ev = [DepositEventABIHash; p1 ++ from; p2 ++ to; DepositEventVersion0] ∧
    length p1 = 12%nat ∧ length p2 = 12%nat ∧
    length from = AddressLength ∧ length to = AddressLength ∧
    log_Data ev = deposit_layout (deposit_body mint value gas c data) padding ∧
    (length padding < 32)%nat ∧ (length (log_Data ev) mod 32 = 0)%nat ∧
    0 <= mint < 2 ^ 256 ∧ 0 <= value < 2 ^ 256 ∧ is_u64 gas ∧
    dep = mkDepositTx
      (UserDepositSource_SourceHash (mkUserDepositSource (log_BlockHash ev) (log_Index ev)))
      from (if bool_decide (c = x00) then Some to else None)
      (if mint =? 0 then None else Some mint) value gas false data.

(** ** Lemmas *)

Lemma cropPad_exact n b : length b = n → cropPad n b = b.
Proof. intros <-. unfold cropPad. rewrite Nat.sub_diag, drop_0, Nat.sub_diag. done. Qed.

Lemma cropPad_pad n b : (length b ≤ n)%nat → cropPad n b = zeros (n - length b) ++ b.
Proof. intros Hb. unfold cropPad. replace (length b - n)%nat with 0%nat by lia. done. Qed.

Lemma be_word b : length b = 32%nat → 0 <= be_decode b < 2 ^ 256.
Proof. intros Hb. pose proof (be_decode_bound b) as Hd. rewrite Hb in Hd. done. Qed.

Lemma length_deposit_body mint value gas c data :
  length (deposit_body mint value gas c data) = (73 + length data)%nat.
Proof. unfold deposit_body. len_solve. Qed.

(** The body is decoded field by field. *)
Lemma unmarshalDepositVersion0_body dep to mint value gas c data :
  0 <= mint < 2 ^ 256 → 0 <= value < 2 ^ 256 → is_u64 gas → dep_To dep = None →
  unmarshalDepositVersion0 dep to (deposit_body mint value gas c data) =
  Ok (mkDepositTx (dep_SourceHash dep) (dep_From dep)
        (if bool_decide (c = x00) then Some to else None)
        (if mint =? 0 then None else Some mint) value gas (dep_IsSystemTransaction dep) data).
Proof.
  intros Hm Hv Hg Ht. unfold unmarshalDepositVersion0.
  rewrite length_deposit_body. destruct (Nat.ltb_spec (73 + length data) (32 + 32 + 8 + 1)); [lia|].
  assert (E1 : slice 0 32 (deposit_body mint value gas c data) = be_encode 32 mint).
  { unfold deposit_body. slice_simp. done. }
  assert (E2 : slice 32 64 (deposit_body mint value gas c data) = be_encode 32 value).
  { unfold deposit_body. slice_simp. done. }
  assert (E3 : slice 64 72 (deposit_body mint value gas c data) = be_encode 8 gas).
  { unfold deposit_body. slice_simp. done. }
  assert (E4 : deposit_body mint value gas c data !! 72%nat = Some c).
  { unfold deposit_body. rewrite !lookup_app_r by len_solve.
    rewrite !length_be_encode. done. }
  assert (E5 : drop 73 (deposit_body mint value gas c data) = data).
  { unfold deposit_body. rewrite !app_assoc. rewrite drop_app_ge by len_solve.
    replace (73 - _)%nat with 0%nat by len_solve. done. }
  rewrite E1, E2, E3, E4, E5, !be_decode_encode_small by done.
  destruct (Z.ltb_spec gas (2 ^ 64)); [|unfold is_u64 in Hg; lia]. cbn [negb]. rewrite Ht.
  destruct (bool_decide (c = x00)) eqn:Ec.
  - bool_props. subst c. by rewrite bool_decide_eq_true_2.
  - bool_props. by rewrite bool_decide_eq_false_2 by congruence.
Qed.

(** Every byte string that is long enough is the body of some deposit. *)
Lemma deposit_body_exists o :
  (73 ≤ length o)%nat →
  ∃ mint value gas c data, o = deposit_body mint value gas c data ∧
    0 <= mint < 2 ^ 256 ∧ 0 <= value < 2 ^ 256 ∧ is_u64 gas.
Proof.
  intros Ho. destruct (split_at 32 o) as (a & o1 & -> & Ha); [lia|]. rewrite length_app in Ho.
  destruct (split_at 32 o1) as (b & o2 & -> & Hb); [lia|]. rewrite length_app in Ho.
  destruct (split_at 8 o2) as (g & o3 & -> & Hg); [lia|]. rewrite length_app in Ho.
  destruct o3 as [|c data]; [cbn in Ho; lia|].
  exists (be_decode a), (be_decode b), (be_decode g), c, data.
  split_and!; try (by apply be_word).
  - unfold deposit_body. by rewrite !be_encode_decode_len.
  - pose proof (be_decode_bound g) as Hd. rewrite Hg in Hd. apply Hd.
Qed.

Lemma UnmarshalDepositLogEvent_no_panic ev s : UnmarshalDepositLogEvent ev ≠ Panic s.
Proof.
  unfold UnmarshalDepositLogEvent, unmarshalDepositVersion0, map_err. repeat case_match; done.
Qed.

(** Decoding the header of a laid-out event. *)
Lemma layout_header body padding :
  len body < 2 ^ 64 →
  be_decode (slice 0 32 (deposit_layout body padding)) = 32 ∧
  be_decode (slice 32 64 (deposit_layout body padding)) = len body ∧
  slice 64 (64 + length body) (deposit_layout body padding) = body ∧
  length (deposit_layout body padding) = (64 + length body + length padding)%nat.
Proof.
  intros Hb. pose proof (len_nonneg body).
  assert (0 <= len body < 256 ^ Z.of_nat 32).
  { split; [done|]. eapply Z.lt_trans; [exact Hb|]. done. }
  unfold deposit_layout. split_and!.
  - rewrite slice_app_l by len_solve. rewrite slice_full by len_solve.
    by rewrite be_decode_encode_small.
  - rewrite slice_app_r by len_solve. rewrite slice_app_l by len_solve.
    rewrite length_be_encode, slice_full by len_solve. by rewrite be_decode_encode_small.
  - rewrite !slice_app_r by len_solve. rewrite slice_app_l by len_solve.
    rewrite !length_be_encode. replace (64 - 32 - 32)%nat with 0%nat by lia.
    rewrite slice_full by lia. done.
  - len_solve.
Qed.

Lemma Unmarshal_deposit_log ev dep :
  len (log_Data ev) < 2 ^ 63 → deposit_log ev dep → UnmarshalDepositLogEvent ev = Ok dep.
Proof.
  intros Hlen (p1 & from & p2 & to & mint & value & gas & c & data & padding &
          Ht & Hp1 & Hp2 & Hf & Hto & Hd & Hpad & Hmod & Hm & Hv & Hg & ->).
  unfold UnmarshalDepositLogEvent. rewrite Ht.
  set (body := deposit_body mint value gas c data) in *.
  assert (Hbl : len body < 2 ^ 63).
  { rewrite Hd in Hlen. unfold deposit_layout in Hlen. rewrite !len_app in Hlen.
    pose proof (len_nonneg padding). unfold len in Hlen at 1 2. lia. }
  destruct (layout_header body padding) as (E1 & E2 & E3 & E4); [lia|].
  rewrite (bool_decide_eq_true_2 (DepositEventABIHash = _)) by done. cbn [negb].
  pose proof (length_deposit_body mint value gas c data) as Hb73. fold body in Hb73.
  rewrite Hmod. cbn [Nat.eqb negb]. rewrite Hd in *. rewrite E1, E2.
  assert (Hl : (length (deposit_layout body padding) <? 64)%nat = false)
    by (apply Nat.ltb_ge; lia).
  rewrite Hl. change (32 <? 2 ^ 64) with true. change (u64 32 =? 32) with true. cbn [negb orb].
  pose proof (len_nonneg body). rewrite u64_small by (unfold is_u64; lia).
  rewrite (u64_small (len body + 32)) by (unfold is_u64; lia).
  destruct (Z.ltb_spec (len body) (2 ^ 64)); [|lia]. cbn [negb orb].
  assert (Hlen' : len (deposit_layout body padding) = 64 + len body + len padding).
  { unfold len. lia. }
  rewrite Hlen'. destruct (Z.ltb_spec (64 + len body + len padding - 64) (len body));
    [pose proof (len_nonneg padding); lia|].
  destruct (Z.leb_spec (len body + 32) (64 + len body + len padding - 64));
    [unfold len in *; lia|]. cbn [orb].
  replace (Z.to_nat (64 + len body)) with (64 + length body)%nat by (unfold len; lia).
  rewrite E3, bool_decide_eq_true_2 by done. unfold body. rewrite unmarshalDepositVersion0_body by done.
  cbn [map_err dep_SourceHash dep_From dep_IsSystemTransaction].
  unfold BytesToAddress. rewrite !cropPad_exact; rewrite ?drop_app_length'; done.
Qed.

(** Event data of at least two words is its two header words and a content. *)
Lemma event_data_split (d : bytes) :
  (64 ≤ length d)%nat →
  ∃ r, d = slice 0 32 d ++ slice 32 64 d ++ r ∧
       length (slice 0 32 d) = 32%nat ∧ length (slice 32 64 d) = 32%nat ∧
       len d = 64 + len r ∧
       ∀ o p, r = o ++ p → slice 64 (64 + length o) d = o.
Proof.
  intros Hd64. destruct (split_at 32 d) as (d1 & r1 & -> & Hd1); [lia|].
  rewrite length_app in Hd64. destruct (split_at 32 r1) as (d2 & r & -> & Hd2); [lia|].
  assert (S1 : slice 0 32 (d1 ++ d2 ++ r) = d1) by (rewrite slice_app_l by lia; by rewrite slice_full).
  assert (S2 : slice 32 64 (d1 ++ d2 ++ r) = d2).
  { rewrite slice_app_r, slice_app_l, Hd1 by lia. by rewrite slice_full. }
  rewrite S1, S2. exists r. split_and!; try done.
  - unfold len. rewrite !length_app. lia.
  - intros o p ->. rewrite !slice_app_r, slice_app_l, Hd1, Hd2 by lia.
    replace (64 - 32 - 32)%nat with 0%nat by lia. apply slice_full. lia.
Qed.

Lemma Unmarshal_sound ev dep :
  Forall (λ t : Hash, length t = HashLength) (log_Topics ev) → len (log_Data ev) < 2 ^ 63 →
  UnmarshalDepositLogEvent ev = Ok dep → deposit_log ev dep.
Proof.
  intros Htop Hlen HU. unfold UnmarshalDepositLogEvent in HU.
  destruct (log_Topics ev) as [|t0 [|t1 [|t2 [|t3 [|]]]]] eqn:Et; try done.
  apply Forall_cons_1 in Htop as [_ [H1 [H2 _]%Forall_cons_1]%Forall_cons_1].
  unfold HashLength in H1, H2.
  destruct (bool_decide (t0 = _)) eqn:E0; [|done]. bool_props. subst t0. cbn [negb] in HU.
  destruct (Nat.ltb_spec (length (log_Data ev)) 64) as [|Hd64]; [done|].
  destruct (Nat.eqb_spec (length (log_Data ev) mod 32) 0) as [Hmod|]; [|done]. cbn [negb] in HU.
  destruct (event_data_split _ Hd64) as (r & Ed & Hd1 & Hd2 & Hdl & S3).
  set (d1 := slice 0 32 _) in *. set (d2 := slice 32 64 _) in *. clearbody d1 d2.
  pose proof (be_word d1 Hd1). pose proof (be_word d2 Hd2).
  destruct (Z.ltb_spec (be_decode d1) (2 ^ 64)); [|done]. cbn [negb orb] in HU.
  rewrite u64_small in HU by (unfold is_u64; lia).
  destruct (Z.eqb_spec (be_decode d1) 32) as [Eoff|]; [|done]. cbn [negb orb] in HU.
  destruct (Z.ltb_spec (be_decode d2) (2 ^ 64)); [|done]. cbn [negb orb] in HU.
  rewrite (u64_small (be_decode d2)) in HU by (unfold is_u64; lia).
  destruct (Z.ltb_spec (len (log_Data ev) - 64) (be_decode d2)); [done|].
  rewrite u64_small in HU by (unfold is_u64; lia).
  destruct (Z.leb_spec (be_decode d2 + 32) (len (log_Data ev) - 64)); [done|]. cbn [orb] in HU.
  destruct (bool_decide (t3 = _)) eqn:E3; [|done]. bool_props. subst t3.
  destruct (split_at (Z.to_nat (be_decode d2)) r) as (o & padding & -> & Ho); [unfold len in *; lia|].
  replace (Z.to_nat (64 + be_decode d2)) with (64 + length o)%nat in HU by lia.
  rewrite (S3 o padding eq_refl) in HU. destruct (Nat.ltb_spec (length o) 73) as [|Ho73].
  { unfold unmarshalDepositVersion0 in HU. by rewrite (proj2 (Nat.ltb_lt _ _)) in HU. }
  destruct (deposit_body_exists o Ho73) as (mint & value & gas & c & data & -> & Hm & Hv & Hg).
  rewrite unmarshalDepositVersion0_body in HU by done. cbn [map_err] in HU. injection HU as <-.
  destruct (split_at 12 t1) as (p1 & from & -> & Hp1); [lia|].
  destruct (split_at 12 t2) as (p2 & to & -> & Hp2); [lia|]. rewrite length_app in H1, H2.
  rewrite !drop_app_length' by done.
  assert (Hf : length from = 20%nat) by lia. assert (Hto : length to = 20%nat) by lia.
  exists p1, from, p2, to, mint, value, gas, c, data, padding. rewrite Et.
  split_and!; try done; try (apply Hm || apply Hv).
  - rewrite Ed. unfold deposit_layout.
    assert (Hl : len (deposit_body mint value gas c data) = be_decode d2) by (unfold len; lia).
    by rewrite Hl, <- Eoff, !be_encode_decode_len.
  - rewrite len_app in Hdl. unfold len in *. lia.
  - unfold BytesToAddress, AddressLength. rewrite !cropPad_exact by done. done.
Qed.

(** [UnmarshalDepositLogEvent] accepts exactly the log entries with the ABI
    layout of a version 0 [TransactionDeposited] event with minimal padding, and
    returns the deposit they describe, with the source hash of the log's position
    and a zero mint as no mint. *)
Theorem UnmarshalDepositLogEvent_spec ev dep :
  Forall (λ t : Hash, length t = HashLength) (log_Topics ev) → len (log_Data ev) < 2 ^ 63 →
  UnmarshalDepositLogEvent ev = Ok dep ↔ deposit_log ev dep.
Proof.
  intros Ht Hl. split; [by apply Unmarshal_sound|by apply Unmarshal_deposit_log].
Qed.

(** ** Round trip *)

(** A deposit that an event can carry: a mint of 0 is represented as none. *)
Definition wf_UserDeposit (dep : DepositTx) : Prop :=
  length (dep_From dep) = AddressLength ∧
  match dep_To dep with Some to => length to = AddressLength | None => True end ∧
  match dep_Mint dep with Some m => 0 < m < 2 ^ 256 | None => True end ∧
  0 <= dep_Value dep < 2 ^ 256 ∧ is_u64 (dep_Gas dep) ∧
  dep_IsSystemTransaction dep = false ∧ len (dep_Data dep) < 2 ^ 62.

Definition isCreation_byte (dep : DepositTx) : byte :=
  match dep_To dep with Some _ => x00 | None => x01 end.

Lemma put_zeros0 off r m a src :
  off = length a → m = (length src + r)%nat →
  put off src (a ++ zeros m) = (a ++ src) ++ zeros r.
Proof. intros Ho Hm. rewrite (put_zeros off 0 r); [done|lia|lia]. Qed.

Lemma marshal_body dep :
  wf_UserDeposit dep →
  marshalDepositVersion0 dep =
  Ok (deposit_body (default 0 (dep_Mint dep)) (dep_Value dep) (dep_Gas dep)
        (isCreation_byte dep) (dep_Data dep)).
Proof.
  intros (_ & _ & Hm & Hv & Hg & _). unfold marshalDepositVersion0.
  assert (Hmint : (match dep_Mint dep with
               | Some m => b ← FillBytes 32 (Some m); Ok (put 0 b (zeros 73))
               | None => Ok (zeros 73)
               end) = Ok (be_encode 32 (default 0 (dep_Mint dep)) ++ zeros 41)).
  { destruct (dep_Mint dep) as [m|]; [|reflexivity]. rewrite FillBytes_ok.
    - cbn [mbind result_bind default]. reflexivity.
    - change (256 ^ Z.of_nat 32) with (2 ^ 256). lia. }
  change (32 + 32 + 8 + 1)%nat with 73%nat. rewrite Hmint. cbn [mbind result_bind].
  rewrite FillBytes_ok by done. cbn [mbind result_bind].
  rewrite (put_zeros0 32 9) by len_solve. rewrite (put_zeros0 64 1) by len_solve.
  unfold deposit_body, isCreation_byte. f_equal. destruct (dep_To dep) as [to|].
  - by rewrite <- !app_assoc.
  - rewrite (put_zeros0 72 0) by len_solve. by rewrite app_nil_r, <- !app_assoc.
Qed.

Lemma pad_to_word n :
  ∃ k, (k < 32)%nat ∧ ((n + k) mod 32 = 0)%nat ∧
    k = if negb (n mod 32 =? 0)%nat then (32 - n mod 32)%nat else 0%nat.
Proof.
  eexists. split; [|split; [|reflexivity]]; destruct (Nat.eqb_spec (n mod 32) 0) as [E|E]; cbn [negb].
  - lia.
  - pose proof (Nat.mod_upper_bound n 32). lia.
  - by rewrite Nat.add_0_r.
  - pose proof (Nat.mod_upper_bound n 32). pose proof (Nat.div_mod_eq n 32).
    replace (n + (32 - n mod 32))%nat with ((n / 32 + 1) * 32)%nat by lia. apply Nat.Div0.mod_mul.
Qed.

Lemma marshal_layout addr dep :
  wf_UserDeposit dep →
  ∃ ev padding, MarshalDepositLogEvent addr dep = Ok ev ∧
    log_Address ev = addr ∧
    log_Topics ev = [DepositEventABIHash; zeros 12 ++ dep_From dep;
                     zeros 12 ++ default zero_address (dep_To dep); DepositEventVersion0] ∧
    log_Data ev = deposit_layout
      (deposit_body (default 0 (dep_Mint dep)) (dep_Value dep) (dep_Gas dep)
         (isCreation_byte dep) (dep_Data dep)) padding ∧
    (length padding < 32)%nat ∧ (length (log_Data ev) mod 32 = 0)%nat.
Proof.
  intros Hwf. pose proof Hwf as (Hf & Ht & _ & _ & _ & _ & Hdl). unfold MarshalDepositLogEvent.
  rewrite marshal_body by done. cbn [mbind result_bind].
  set (body := deposit_body _ _ _ _ _).
  assert (Hb : len body < 2 ^ 63).
  { unfold len, body. rewrite length_deposit_body. unfold len in Hdl. lia. }
  pose proof (len_nonneg body).
  assert (Hhdr : put (64 - 8) (be_encode 8 (len body)) (put (32 - 8) (be_encode 8 32) (zeros 64))
                 = be_encode 32 32 ++ be_encode 32 (len body)).
  { rewrite (put_zeros (32 - 8) 24 32 64 []) by len_solve. cbn [app].
    rewrite (put_zeros (64 - 8) 24 0) by len_solve. cbn [zeros replicate]. rewrite app_nil_r.
    change 32%nat with (24 + 8)%nat. rewrite (be_encode_pad 24 8 32) by done.
    rewrite (be_encode_pad 24 8 (len body)); [by rewrite <- !app_assoc|].
    change (256 ^ Z.of_nat 8) with (2 ^ 64). lia. }
  rewrite Hhdr. set (hd := be_encode 32 32 ++ be_encode 32 (len body)).
  destruct (pad_to_word (length (hd ++ body))) as (k & Hk & Hmod & Ek).
  assert (Hdata : (if negb (length (hd ++ body) mod 32 =? 0)%nat
                   then (hd ++ body) ++ zeros (32 - length (hd ++ body) mod 32) else hd ++ body)
                  = (hd ++ body) ++ zeros k).
  { rewrite Ek. destruct (negb _); [done|]. by rewrite app_nil_r. }
  rewrite Hdata. eexists _, (zeros k). split; [reflexivity|]. cbn [log_Address log_Topics log_Data].
  split_and!; [done| | | |].
  - unfold Address_Hash, HashLength, AddressLength in *. rewrite cropPad_pad by lia. rewrite Hf.
    do 2 f_equal. destruct (dep_To dep) as [to|]; [|done]. rewrite cropPad_pad by lia. by rewrite Ht.
  - unfold deposit_layout, hd. by rewrite <- !app_assoc.
  - unfold zeros. by rewrite length_replicate.
  - rewrite length_app. unfold zeros. by rewrite length_replicate.
Qed.

(** The log entry at its position in a block. *)
Definition log_at (ev : Log) (blockHash : Hash) (index : Z) : Log :=
  mkLog (log_Address ev) (log_Topics ev) (log_Data ev) (log_BlockNumber ev) (log_TxHash ev)
    (log_TxIndex ev) blockHash index (log_Removed ev).

(** A deposit survives the event: marshalling it never fails, and decoding the
    log entry at any position of any block gives the deposit back, with the source
    hash of that position. *)
Theorem deposit_roundtrip addr dep blockHash index :
  wf_UserDeposit dep →
  ∃ ev, MarshalDepositLogEvent addr dep = Ok ev ∧
    isDepositLog addr (log_at ev blockHash index) = true ∧
    UnmarshalDepositLogEvent (log_at ev blockHash index) =
    Ok (mkDepositTx (UserDepositSource_SourceHash (mkUserDepositSource blockHash index))
          (dep_From dep) (dep_To dep) (dep_Mint dep) (dep_Value dep) (dep_Gas dep) false
          (dep_Data dep)).
Proof.
  intros Hwf. destruct (marshal_layout addr dep Hwf) as (ev & padding & HM & Ha & Ht & Hd & Hp & Hmod).
  exists ev. split; [done|]. split.
  { unfold isDepositLog, log_at. cbn [log_Address log_Topics]. rewrite Ha, Ht.
    by rewrite !bool_decide_eq_true_2. }
  pose proof Hwf as (Hf & Hto & Hm & Hv & Hg & _ & Hdl).
  apply Unmarshal_deposit_log.
  { cbn [log_at log_Data]. rewrite Hd. unfold deposit_layout, len.
    rewrite !length_app, !length_be_encode, length_deposit_body. unfold len in Hdl. lia. }
  exists (zeros 12), (dep_From dep), (zeros 12), (default zero_address (dep_To dep)),
    (default 0 (dep_Mint dep)), (dep_Value dep), (dep_Gas dep), (isCreation_byte dep),
    (dep_Data dep), padding.
  cbn [log_at log_Topics log_Data log_BlockHash log_Index].
  split_and!; try done.
  - by destruct (dep_To dep).
  - destruct (dep_Mint dep); cbn; lia.
  - destruct (dep_Mint dep); cbn; lia.
  - apply Hv.
  - apply Hv.
  - assert (E1 : (if bool_decide (isCreation_byte dep = x00)
                  then Some (default zero_address (dep_To dep)) else None) = dep_To dep).
    { unfold isCreation_byte. destruct (dep_To dep); reflexivity. }
    assert (E2 : (if default 0 (dep_Mint dep) =? 0 then None
                  else Some (default 0 (dep_Mint dep))) = dep_Mint dep).
    { destruct (dep_Mint dep) as [m|]; cbn; [|done]. destruct (Z.eqb_spec m 0); [lia|done]. }
    by rewrite E1, E2.
Qed.

(** ** No deposit is lost *)

(** The deposit logs of a block: of successful receipts, in order. *)
Definition deposit_logs (receipts : list Receipt) (addr : Address) : list Log :=
  concat ((λ rec, if rec_Status rec =? ReceiptStatusSuccessful
                  then filter (λ log, isDepositLog addr log = true) (rec_Logs rec) else [])
          <$> receipts).

(** The deposits decoded from a list of logs, and whether one was malformed. *)
Definition decoded (logs : list Log) (out : list DepositTx) (err : option error) : Prop :=
  out = omap (λ log, match UnmarshalDepositLogEvent log with Ok d => Some d | _ => None end) logs ∧
  (err = None ↔ Forall (λ log, ∃ d, UnmarshalDepositLogEvent log = Ok d) logs).

Lemma decoded_snoc logs out err log :
  decoded logs out err →
  let acc := match UnmarshalDepositLogEvent log with
             | Ok dep => (out ++ [dep], err)
             | Err e => (out, Some (multierror_Append err (Errorf "malformatted L1 deposit log" e)))
             | Panic s => (out, err)
             end in
  decoded (logs ++ [log]) (fst acc) (snd acc).
Proof.
  intros [Ho He]. cbn zeta. pose proof (UnmarshalDepositLogEvent_no_panic log) as Hnp.
  unfold decoded. rewrite omap_app, <- Ho, Forall_app. cbn [omap list_omap].
  destruct (UnmarshalDepositLogEvent log) as [d|e|m] eqn:E; cbn [fst snd].
  - split; [done|]. rewrite He. split; [|by intros [? _]]. intros Hl. split; [done|].
    repeat constructor. by exists d.
  - rewrite app_nil_r. split; [done|]. split; [done|].
    intros [_ [[d Hd] _]%Forall_cons_1]. congruence.
  - by destruct (Hnp m).
Qed.

Lemma logLoop_decoded addr logs : ∀ done_ acc,
  decoded done_ (fst acc) (snd acc) →
  let acc' := logLoop addr logs acc in
  decoded (done_ ++ filter (λ log, isDepositLog addr log = true) logs) (fst acc') (snd acc').
Proof.
  induction logs as [|log logs IH]; intros done_ acc Hd; cbn zeta in *; cbn [logLoop].
  { rewrite filter_nil, app_nil_r. exact Hd. }
  rewrite filter_cons. destruct (isDepositLog addr log) eqn:E.
  - rewrite decide_True by done. rewrite (cons_middle log), app_assoc.
    apply IH. pose proof (decoded_snoc _ _ _ log Hd) as Hs. cbn zeta in Hs.
    destruct acc as [out err]. cbn [fst snd] in *. exact Hs.
  - rewrite decide_False by done. by apply IH.
Qed.

Lemma receiptLoop_decoded addr receipts : ∀ done_ acc,
  decoded done_ (fst acc) (snd acc) →
  let acc' := receiptLoop addr receipts acc in
  decoded (done_ ++ deposit_logs receipts addr) (fst acc') (snd acc').
Proof.
  induction receipts as [|rec receipts IH]; intros done_ acc Hd; cbn zeta in *; cbn [receiptLoop].
  { by rewrite app_nil_r. }
  unfold deposit_logs. cbn [fmap list_fmap concat]. rewrite app_assoc. apply IH.
  destruct (rec_Status rec =? ReceiptStatusSuccessful); [|by rewrite app_nil_r].
  by apply logLoop_decoded.
Qed.

Lemma UserDeposits_decoded receipts addr :
  decoded (deposit_logs receipts addr) (fst (UserDeposits receipts addr))
    (snd (UserDeposits receipts addr)).
Proof.
  apply (receiptLoop_decoded addr receipts [] ([], None)). split; [done|].
  split; [constructor|done].
Qed.

Lemma encodeLoop_spec deps : ∀ txs err txs',
  encodeLoop deps (txs, err) = (txs', None) ↔
  err = None ∧ ∃ new, txs' = txs ++ new ∧ Forall2 (λ d tx, MarshalDepositTx d = Ok tx) deps new.
Proof.
  induction deps as [|d deps IH]; intros txs err txs'; cbn [encodeLoop].
  - split.
    + intros [= -> ->]. split; [done|]. exists []. by rewrite app_nil_r.
    + intros (-> & new & -> & Hf). apply Forall2_nil_inv_l in Hf as ->. by rewrite app_nil_r.
  - cbn [fst snd]. destruct (MarshalDepositTx d) as [tx|e|m] eqn:E.
    + rewrite IH. split; intros (-> & new & -> & Hf); (split; [done|]).
      * exists (tx :: new). rewrite <- app_assoc. split; [done|]. by constructor.
      * apply Forall2_cons_inv_l in Hf as (y & new' & Hy & Hf & ->). exists new'.
        rewrite E in Hy. injection Hy as ->. by rewrite <- app_assoc.
    + rewrite IH. split; [by intros [? _]|]. intros (_ & new & _ & Hf).
      apply Forall2_cons_inv_l in Hf as (y & new' & Hy & _). congruence.
    + rewrite IH. split; [by intros [? _]|]. intros (_ & new & _ & Hf).
      apply Forall2_cons_inv_l in Hf as (y & new' & Hy & _). congruence.
Qed.

(** C23. [DeriveDeposits] succeeds exactly when every deposit log of the block's
    successful receipts decodes and encodes, and its result then has exactly one
    transaction per deposit log, in the order of the logs: deposits are neither
    lost, reordered nor invented. *)
Theorem DeriveDeposits_complete receipts addr txs :
  DeriveDeposits receipts addr = (txs, None) ↔
  Forall2 (λ log tx, ∃ d, UnmarshalDepositLogEvent log = Ok d ∧ MarshalDepositTx d = Ok tx)
    (deposit_logs receipts addr) txs.
Proof.
  unfold DeriveDeposits. pose proof (UserDeposits_decoded receipts addr) as [Ho He].
  destruct (UserDeposits receipts addr) as [deps err]. cbn [fst snd] in *.
  rewrite encodeLoop_spec. generalize dependent (deposit_logs receipts addr). intros logs Ho He.
  split.
  - intros (Herr & new & -> & Hf). cbn [app].
    assert (Herr' : err = None) by (by destruct err). apply He in Herr'. clear He Herr.
    subst deps. revert new Hf.
    induction Herr' as [|log logs [d Hd] _ IH]; intros new Hf; cbn [omap list_omap] in Hf.
    + apply Forall2_nil_inv_l in Hf as ->. constructor.
    + rewrite Hd in Hf. apply Forall2_cons_inv_l in Hf as (tx & new' & Hy & Hf & ->).
      constructor; [by exists d|]. by apply IH.
  - intros Hf. assert (Hall : Forall (λ log, ∃ d, UnmarshalDepositLogEvent log = Ok d) logs).
    { clear -Hf. induction Hf as [|log tx logs txs (d & Hd & _) _ IH]; constructor; [by exists d|done]. }
    apply He in Hall. split; [by rewrite Hall|]. exists txs. split; [done|]. subst deps. clear He Hall.
    induction Hf as [|log tx logs txs (d & Hd & Hm) _ IH]; cbn [omap list_omap]; [constructor|].
    rewrite Hd. by constructor.
Qed.

End Deposits.

(** ** Examples *)

#[local] Existing Instance example_keccak.
#[local] Existing Instance example_codec.

Definition example_deposit : DepositTx :=
  mkDepositTx zero_hash (be_encode 20 7) (Some (be_encode 20 8)) (Some 5) 5 21000 false
    [x01; x02; x03].

Lemma example_deposit_wf : wf_UserDeposit example_deposit.
Proof. repeat split; by vm_compute. Qed.

Lemma UnmarshalDepositLogEvent_spec_witness :
  ∃ ev dep, MarshalDepositLogEvent (zeros 20) example_deposit = Ok ev ∧ deposit_log ev dep.
Proof.
  eexists _, _. split; [vm_compute; reflexivity|]. apply UnmarshalDepositLogEvent_spec.
  - repeat constructor.
  - by vm_compute.
  - vm_compute. reflexivity.
Defined.

Lemma deposit_roundtrip_witness :
  ∃ ev, MarshalDepositLogEvent (zeros 20) example_deposit = Ok ev ∧
    isDepositLog (zeros 20) (log_at ev (example_hash 3) 2) = true.
Proof.
  destruct (deposit_roundtrip (zeros 20) example_deposit (example_hash 3) 2 example_deposit_wf)
    as (ev & HM & Hi & _).
  exists ev. split; assumption.
Defined.
