(* ===== verification/Attributes.v ===== *)
(** * Payload attributes

    op-node/rollup/derive/attributes.go (template attributes for a block),
    attributes_queue.go (the stage that turns batches into attributes),
    engine_consolidate.go (comparison of attributes with an existing block),
    payload_util.go (block reference of a payload) and progress.go. *)

From S2P Require Import Prelude GoErrors EthTypes Extern L1Info Batch BatchQueue Deposits.

(** ** Services *)

(** [L1ReceiptsFetcher] and [eth.ReceiptsFetcher]: every call may change the
    service's state.  [rf_pending] bounds the number of further successful
    [Fetch] calls, as each of them completes at least one outstanding request. *)
Class L1ReceiptsFetcher (W : Type) := {
  ReceiptsFetcher : Type;
  dl_InfoByHash : W → Hash → W * result BlockInfo;
  dl_Fetch : W → Hash → W * result (BlockInfo * list Transaction * ReceiptsFetcher);
  rf_Fetch : ReceiptsFetcher → ReceiptsFetcher * option error;
  rf_Result : ReceiptsFetcher → result (list Receipt);
  rf_pending : ReceiptsFetcher → nat;
  rf_Fetch_pending : ∀ rf rf', rf_Fetch rf = (rf', None) → (rf_pending rf' < rf_pending rf)%nat }.

(** ** Progress (progress.go) *)

Record Progress := mkProgress { pr_Origin : L1BlockRef; pr_Closed : bool }.

(** [Progress.Update]: the new progress, whether it changed, and the error. *)
Definition Progress_Update (pr outer : Progress) : Progress * bool * option error :=
  if l1_Number (pr_Origin outer) <? l1_Number (pr_Origin pr) then (pr, false, None)
  else if pr_Closed pr then
    if pr_Closed outer then
      if negb (bool_decide (L1BlockRef_ID (pr_Origin pr) = L1BlockRef_ID (pr_Origin outer))) then
        (pr, true, Some (NewResetError (ErrorNew "outer stage changed origin without opening it")))
      else (pr, false, None)
    else if negb (bool_decide (l1_Hash (pr_Origin pr) = l1_ParentHash (pr_Origin outer))) then
      (pr, true, Some (NewResetError (ErrorNew "detected internal pipeline reorg of L1 origin data")))
    else (mkProgress (pr_Origin outer) false, true, None)
  else
    if negb (bool_decide (L1BlockRef_ID (pr_Origin pr) = L1BlockRef_ID (pr_Origin outer))) then
      (pr, true, Some (NewResetError (ErrorNew "outer stage changed origin before closing it")))
    else if pr_Closed outer then (mkProgress (pr_Origin pr) true, true, None)
    else (pr, false, None).

(** ** Attributes and blocks (engine_consolidate.go) *)

Fixpoint txs_match (attrs block : list bytes) : bool :=
  match attrs, block with
  | a :: attrs, b :: block => if bool_decide (a = b) then txs_match attrs block else false
  | _, _ => true
  end.

Definition AttributesMatchBlock (attrs : PayloadAttributes) (parentHash : Hash)
    (block : ExecutionPayload) : option error :=
  if negb (bool_decide (parentHash = ep_ParentHash block)) then
    Some (ErrorNew "parent hash field does not match")
  else if negb (pa_Timestamp attrs =? ep_Timestamp block) then
    Some (ErrorNew "timestamp field does not match")
  else if negb (bool_decide (pa_PrevRandao attrs = ep_PrevRandao block)) then
    Some (ErrorNew "random field does not match")
  else if negb (length (pa_Transactions attrs) =? length (ep_Transactions block))%nat then
    Some (ErrorNew "transaction count does not match")
  else if negb (txs_match (pa_Transactions attrs) (ep_Transactions block)) then
    Some (ErrorNew "transaction does not match")
  else None.

(** ** Block reference of a payload (payload_util.go) *)

Definition PayloadToBlockRef `{TxCodec} (payload : ExecutionPayload) (genesis : Genesis)
  : result L2BlockRef :=
  '(l1Origin, sequenceNumber) ←
    (if ep_BlockNumber payload =? id_Number (gen_L2 genesis) then
       if negb (bool_decide (ep_BlockHash payload = id_Hash (gen_L2 genesis))) then
         Err (ErrorNew "expected L2 genesis hash to match L2 block at genesis block number")
       else Ok (gen_L1 genesis, 0)
     else
       match ep_Transactions payload with
       | [] => Err (ErrorNew "l2 block is missing L1 info deposit tx")
       | tx0 :: _ =>
           tx ← map_err (Errorf "failed to decode first tx to read l1 info from") (UnmarshalTx tx0);
           if negb (tx_Type tx =? byte_val DepositTxType) then
             Err (ErrorNew "first payload tx has unexpected tx type")
           else
             info ← map_err (Errorf "failed to parse L1 info deposit tx from L2 block")
                      (L1InfoDepositTxData (tx_Data tx));
             Ok (mkBlockID (li_BlockHash info) (li_Number info), li_SequenceNumber info)
       end);
  Ok (mkL2BlockRef (ep_BlockHash payload) (ep_BlockNumber payload) (ep_ParentHash payload)
        (ep_Timestamp payload) l1Origin sequenceNumber).

(** ** Preparing attributes (attributes.go) *)

Section Attributes.
Context {W : Type} `{L1ReceiptsFetcher W} `{Keccak} `{TxCodec} (cfg : Config).

(** [for { if err := receiptsFetcher.Fetch(ctx); err == io.EOF { break } ... }] *)
Fixpoint fetchLoop (fuel : nat) (rf : ReceiptsFetcher) : ReceiptsFetcher * option error :=
  match rf_Fetch rf with
  | (rf, None) => match fuel with
                  | O => (rf, Some (ErrorNew "out of fuel"))
                  | S fuel => fetchLoop fuel rf
                  end
  | (rf, Some e) =>
      if bool_decide (e = io_EOF) then (rf, None)
      else (rf, Some (NewTemporaryError (Errorf "failed to fetch more receipts" e)))
  end.

(** The case of a new epoch: the L1 block's info and the deposits of its receipts. *)
Definition fetchDeposits (dl : W) (l2Parent : L2BlockRef) (epoch : BlockID)
  : W * result (BlockInfo * list bytes) :=
  let '(dl, r) := dl_Fetch dl (id_Hash epoch) in
  match r with
  | Err e => (dl, Err (NewTemporaryError (Errorf "failed to fetch L1 block info and receipts" e)))
  | Panic s => (dl, Panic s)
  | Ok (info, _, rf) =>
      if negb (bool_decide (id_Hash (l2_L1Origin l2Parent) = bi_ParentHash info)) then
        (dl, Err (NewResetError (ErrorNew "cannot create new block with L1 origin on top of L1 origin")))
      else
        let '(rf, err) := fetchLoop (rf_pending rf) rf in
        match err with
        | Some e => (dl, Err e)
        | None =>
            match rf_Result rf with
            | Err e => (dl, Err (NewResetError (Errorf "fetched bad receipt data" e)))
            | Panic s => (dl, Panic s)
            | Ok receipts =>
                match DeriveDeposits receipts (cfg_DepositContractAddress cfg) with
                | (_, Some e) => (dl, Err (NewCriticalError (Errorf "failed to derive some deposits" e)))
                | (deposits, None) => (dl, Ok (info, deposits))
                end
            end
        end
  end.

(** L1 info, deposits and sequence number of the block to build. *)
Definition epochInputs (dl : W) (l2Parent : L2BlockRef) (epoch : BlockID)
  : W * result (BlockInfo * list bytes * Z) :=
  if negb (id_Number (l2_L1Origin l2Parent) =? id_Number epoch) then
    let '(dl, r) := fetchDeposits dl l2Parent epoch in
    (dl, '(info, deposits) ← r; Ok (info, deposits, 0))
  else if negb (bool_decide (id_Hash (l2_L1Origin l2Parent) = id_Hash epoch)) then
    (dl, Err (NewResetError (ErrorNew "cannot create new block with L1 origin in conflict with L1 origin")))
  else
    let '(dl, r) := dl_InfoByHash dl (id_Hash epoch) in
    (dl, info ← map_err (λ e, NewTemporaryError (Errorf "failed to fetch L1 block info" e)) r;
         Ok (info, [], l2_SequenceNumber l2Parent ⊞ 1)).

Definition PreparePayloadAttributes (dl : W) (l2Parent : L2BlockRef) (timestamp : Z)
    (epoch : BlockID) : W * result PayloadAttributes :=
  let '(dl, r) := epochInputs dl l2Parent epoch in
  (dl,
   '(l1Info, depositTxs, seqNumber) ← r;
   l1InfoTx ← map_err (λ e, NewCriticalError (Errorf "failed to create l1InfoTx" e))
                (L1InfoDepositBytes seqNumber l1Info);
   Ok (mkPayloadAttributes timestamp (bi_MixDigest l1Info) (cfg_FeeRecipientAddress cfg)
         (l1InfoTx :: depositTxs) true)).

(** ** The attributes queue (attributes_queue.go) *)

Context {P : Type} `{NextBatchProvider P}.

Record AttributesQueue := mkAttributesQueue {
  aq_dl : W; aq_prev : BatchQueue P; aq_batch : option BatchData }.

Definition NewAttributesQueue (l1Fetcher : W) (prev : BatchQueue P) : AttributesQueue :=
  mkAttributesQueue l1Fetcher prev None.

Definition AttributesQueue_Origin (aq : AttributesQueue) : L1BlockRef :=
  BatchQueue_Origin (aq_prev aq).

Definition createNextAttributes (dl : W) (batch : BatchData) (l2SafeHead : L2BlockRef)
  : W * result PayloadAttributes :=
  if negb (bool_decide (b_ParentHash batch = l2_Hash l2SafeHead)) then
    (dl, Err (NewResetError (ErrorNew "valid batch has bad parent hash")))
  else
    let '(dl, r) := PreparePayloadAttributes dl l2SafeHead (b_Timestamp batch) (Batch_Epoch batch) in
    (dl, attrs ← r;
         Ok (mkPayloadAttributes (pa_Timestamp attrs) (pa_PrevRandao attrs)
               (pa_SuggestedFeeRecipient attrs)
               (pa_Transactions attrs ++ b_Transactions batch) true)).

(** The second part of [NextAttributes], with a batch at hand. *)
Definition attributesFromBatch (aq : AttributesQueue) (batch : BatchData) (l2SafeHead : L2BlockRef)
  : AttributesQueue * result PayloadAttributes :=
  let '(dl, r) := createNextAttributes (aq_dl aq) batch l2SafeHead in
  match r with
  | Ok attrs => (mkAttributesQueue dl (aq_prev aq) None, Ok attrs)
  | r => (mkAttributesQueue dl (aq_prev aq) (Some batch), r)
  end.

Definition NextAttributes (aq : AttributesQueue) (l2SafeHead : L2BlockRef)
  : AttributesQueue * result PayloadAttributes :=
  match aq_batch aq with
  | Some batch => attributesFromBatch aq batch l2SafeHead
  | None =>
      let '(prev, r) := BatchQueue_NextBatch cfg (aq_prev aq) l2SafeHead in
      let aq := mkAttributesQueue (aq_dl aq) prev None in
      match r with
      | Err e => (aq, Err e)
      | Panic s => (aq, Panic s)
      | Ok batch => attributesFromBatch aq batch l2SafeHead
      end
  end.

Definition AttributesQueue_Reset (aq : AttributesQueue) (base : L1BlockRef)
  : AttributesQueue * result unit := (aq, Err io_EOF).

(** ** Lemmas *)

Definition is_deposit (tx : bytes) : Prop := ∃ rest, tx = DepositTxType :: rest.
Definition is_sequenced (tx : bytes) : Prop := ∃ t rest, tx = t :: rest ∧ t ≠ DepositTxType.

(** The number of pending requests is enough fuel for the fetch loop. *)
Lemma fetchLoop_fuel fuel rf :
  (rf_pending rf ≤ fuel)%nat → snd (fetchLoop fuel rf) ≠ Some (ErrorNew "out of fuel").
Proof.
  revert rf. induction fuel as [|fuel IH]; intros rf Hp; cbn [fetchLoop];
    destruct (rf_Fetch rf) as [rf' [e|]] eqn:E; try (by case_bool_decide);
    apply rf_Fetch_pending in E; [lia|]. apply IH. lia.
Qed.

Lemma L1InfoDepositBytes_deposit seq info tx :
  L1InfoDepositBytes seq info = Ok tx →
  is_deposit tx ∧ ∃ dep, L1InfoDeposit seq info = Ok dep ∧ MarshalDepositTx dep = Ok tx.
Proof.
  unfold L1InfoDepositBytes. intros HL. apply bind_Ok in HL as (dep & HD & HM).
  destruct (L1InfoDeposit seq info) as [d|e|m]; try done. cbn in HD. injection HD as ->.
  destruct (MarshalDepositTx dep) as [b|e|m] eqn:EM; try done. cbn in HM. injection HM as ->.
  split; [by eapply MarshalDepositTx_type|]. by exists dep.
Qed.

Lemma DeriveDeposits_deposits receipts addr txs :
  DeriveDeposits receipts addr = (txs, None) → Forall is_deposit txs.
Proof.
  unfold DeriveDeposits. destruct (UserDeposits receipts addr) as [deps err].
  intros (_ & new & -> & Hf)%encodeLoop_spec. cbn [app].
  induction Hf as [|d tx deps new Hm _ IH]; constructor; [by eapply MarshalDepositTx_type|done].
Qed.

(** What the inputs of a block say about its parent. *)
Definition inputs_ok (l2Parent : L2BlockRef) (epoch : BlockID) (info : BlockInfo)
    (deposits : list bytes) (seq : Z) : Prop :=
  (id_Number (l2_L1Origin l2Parent) ≠ id_Number epoch ∧
   bi_ParentHash info = id_Hash (l2_L1Origin l2Parent) ∧ seq = 0 ∧
   ∃ receipts, DeriveDeposits receipts (cfg_DepositContractAddress cfg) = (deposits, None)) ∨
  (l2_L1Origin l2Parent = epoch ∧ deposits = [] ∧ seq = l2_SequenceNumber l2Parent ⊞ 1).

Lemma epochInputs_ok dl l2Parent epoch dl' info deposits seq :
  epochInputs dl l2Parent epoch = (dl', Ok (info, deposits, seq)) →
  inputs_ok l2Parent epoch info deposits seq ∧ Forall is_deposit deposits.
Proof.
  unfold epochInputs, inputs_ok. destruct (Z.eqb_spec (id_Number (l2_L1Origin l2Parent)) (id_Number epoch))
    as [En|Hn]; cbn [negb].
  - case_bool_decide as Eh; cbn [negb]; [|done].
    destruct (dl_InfoByHash dl (id_Hash epoch)) as [dl1 [i|e|m]]; cbn; try done.
    intros [= <- <- <- <-]. split; [|constructor]. right. split; [|done].
    destruct (l2_L1Origin l2Parent), epoch; cbn in *; congruence.
  - unfold fetchDeposits. destruct (dl_Fetch dl (id_Hash epoch)) as [dl1 [[[i txs] rf]|e|m]];
      cbn; try done. case_bool_decide as Ep; cbn [negb]; [|done].
    destruct (fetchLoop (rf_pending rf) rf) as [rf1 [e|]]; [done|].
    destruct (rf_Result rf1) as [receipts|e|m]; cbn; try done.
    destruct (DeriveDeposits receipts _) as [deps [e|]] eqn:ED; cbn; [done|].
    intros [= <- <- <- <-]. split; [|by eapply DeriveDeposits_deposits].
    left. split_and!; try done. by exists receipts.
Qed.

(** The shape of prepared attributes. *)
Lemma PreparePayloadAttributes_inv dl l2Parent timestamp epoch dl' attrs :
  PreparePayloadAttributes dl l2Parent timestamp epoch = (dl', Ok attrs) →
  ∃ info deposits seq tx,
    epochInputs dl l2Parent epoch = (dl', Ok (info, deposits, seq)) ∧
    L1InfoDepositBytes seq info = Ok tx ∧
    attrs = mkPayloadAttributes timestamp (bi_MixDigest info) (cfg_FeeRecipientAddress cfg)
              (tx :: deposits) true.
Proof.
  unfold PreparePayloadAttributes. destruct (epochInputs dl l2Parent epoch) as [dl1 r].
  intros HP. injection HP as <- HP. apply bind_Ok in HP as ([[info deps] seq] & -> & HP).
  apply bind_Ok in HP as (tx & HT & HP). injection HP as <-.
  exists info, deps, seq, tx. split; [done|]. split; [|done].
  by destruct (L1InfoDepositBytes seq info).
Qed.

(** Prepared attributes carry the given time, the configured fee recipient,
    the randomness of their L1 origin and no pool transactions; they consist of
    the L1 info deposit followed by exactly the user deposits of the L1 origin
    when the epoch starts, and of the L1 info deposit alone within an epoch,
    where the sequence number continues. *)
Theorem PreparePayloadAttributes_spec dl l2Parent timestamp epoch dl' attrs :
  PreparePayloadAttributes dl l2Parent timestamp epoch = (dl', Ok attrs) →
  pa_Timestamp attrs = timestamp ∧ pa_NoTxPool attrs = true ∧
  pa_SuggestedFeeRecipient attrs = cfg_FeeRecipientAddress cfg ∧
  Forall is_deposit (pa_Transactions attrs) ∧
  ∃ info deposits seq dep tx,
    pa_PrevRandao attrs = bi_MixDigest info ∧ inputs_ok l2Parent epoch info deposits seq ∧
    L1InfoDeposit seq info = Ok dep ∧ MarshalDepositTx dep = Ok tx ∧
    pa_Transactions attrs = tx :: deposits.
Proof.
  intros (info & deps & seq & tx & HE & HT & ->)%PreparePayloadAttributes_inv.
  apply epochInputs_ok in HE as [Hi Hd].
  apply L1InfoDepositBytes_deposit in HT as (Ht & dep & HD & HM).
  split_and!; [done..|by constructor|]. by exists info, deps, seq, dep, tx.
Qed.

Lemma txs_match_eq a b : length a = length b → txs_match a b = true → a = b.
Proof.
  revert b. induction a as [|x a IH]; intros [|y b] Hl Hm; try done. cbn in Hm.
  case_bool_decide; [|done]. subst y. f_equal. apply IH; [by injection Hl|done].
Qed.

Lemma AttributesMatchBlock_inv attrs parent block :
  AttributesMatchBlock attrs parent block = None →
  ep_ParentHash block = parent ∧ ep_Timestamp block = pa_Timestamp attrs ∧
  ep_PrevRandao block = pa_PrevRandao attrs ∧ ep_Transactions block = pa_Transactions attrs.
Proof.
  unfold AttributesMatchBlock. intros HM.
  destruct (bool_decide (parent = _)) eqn:E1; [|done].
  destruct (pa_Timestamp attrs =? _) eqn:E2; [|done].
  destruct (bool_decide (pa_PrevRandao attrs = _)) eqn:E3; [|done].
  destruct (Nat.eqb_spec (length (pa_Transactions attrs)) (length (ep_Transactions block))) as [El|]; [|done].
  destruct (txs_match _ _) eqn:Et; [|done]. bool_props. split_and!; try done.
  symmetry. by apply txs_match_eq.
Qed.

(** The L1 block a fetched header belongs to, with values in range. *)
Record info_of (epoch : BlockID) (info : BlockInfo) : Prop := {
  io_hash : bi_Hash info = id_Hash epoch;
  io_len : length (bi_Hash info) = HashLength;
  io_number : bi_NumberU64 info = id_Number epoch;
  io_range : is_u64 (bi_NumberU64 info) ∧ is_u64 (bi_Time info);
  io_fee : ∃ fee, bi_BaseFee info = Some fee ∧ 0 <= fee < 2 ^ 256 }.

(** Derivation closes the loop: when an L2 block matches the attributes made
    from a batch, the block reference decoded from it has the safe head as parent,
    the batch's timestamp and epoch, and sequence number 0 at the start of an
    epoch or one more than its parent's. *)
Theorem derived_block_ref dl batch safe dl' attrs info deposits seq payload genesis :
  createNextAttributes dl batch safe = (dl', Ok attrs) →
  epochInputs dl safe (Batch_Epoch batch) = (dl', Ok (info, deposits, seq)) →
  info_of (Batch_Epoch batch) info →
  AttributesMatchBlock attrs (l2_Hash safe) payload = None →
  ep_BlockNumber payload ≠ id_Number (gen_L2 genesis) → is_u64 seq →
  PayloadToBlockRef payload genesis =
  Ok (mkL2BlockRef (ep_BlockHash payload) (ep_BlockNumber payload) (l2_Hash safe)
        (b_Timestamp batch) (Batch_Epoch batch)
        (if id_Number (l2_L1Origin safe) =? b_EpochNum batch
         then l2_SequenceNumber safe ⊞ 1 else 0)).
Proof.
  intros HC HE [Hh Hlen Hn [Hu1 Hu2] (fee & Hfee & Hf)] HM Hgen Hseq.
  unfold createNextAttributes in HC. case_bool_decide as Hp; cbn [negb] in HC; [|done].
  destruct (PreparePayloadAttributes dl safe (b_Timestamp batch) (Batch_Epoch batch))
    as [dl1 r] eqn:EP. injection HC as -> HC. apply bind_Ok in HC as (attrs0 & -> & HC).
  injection HC as <-.
  apply PreparePayloadAttributes_inv in EP as (i & d & sq & tx & HE' & HT & ->).
  rewrite HE in HE'. injection HE' as <- <- <-.
  apply AttributesMatchBlock_inv in HM as (Hpar & Htime & _ & Htxs).
  cbn [pa_Timestamp pa_Transactions app] in Htime, Htxs.
  apply L1InfoDepositBytes_deposit in HT as (_ & dep & HD & HMd).
  destruct (L1InfoDeposit_decodes seq info fee Hu1 Hu2 Hseq Hlen Hfee Hf) as (dep' & HD' & Hdec).
  rewrite HD in HD'. injection HD' as <-.
  destruct (Unmarshal_MarshalDepositTx dep tx HMd) as (t & HU & Hty & Hdata).
  unfold PayloadToBlockRef. destruct (Z.eqb_spec (ep_BlockNumber payload) (id_Number (gen_L2 genesis))); [done|].
  rewrite Htxs, HU. cbn [map_err mbind result_bind]. rewrite Hty, Z.eqb_refl. cbn [negb].
  rewrite Hdata, Hdec. cbn [map_err mbind result_bind li_BlockHash li_Number li_SequenceNumber].
  rewrite Hpar, Htime, Hh, Hn. do 2 f_equal.
  apply epochInputs_ok in HE as [Hi _]. cbn [Batch_Epoch id_Number] in Hi.
  destruct Hi as [(Hne & _ & -> & _)|(Heq & _ & ->)].
  - cbn [Batch_Epoch id_Number] in Hne. by rewrite (proj2 (Z.eqb_neq _ _) Hne).
  - rewrite Heq. cbn [Batch_Epoch id_Number]. by rewrite Z.eqb_refl.
Qed.

(** Attributes made from an acceptable batch: deposits first, then sequencer
    transactions. *)
Lemma createNextAttributes_deposits_first dl batch safe dl' attrs :
  createNextAttributes dl batch safe = (dl', Ok attrs) →
  Forall is_sequenced (b_Transactions batch) →
  ∃ tx deps, pa_Transactions attrs = (tx :: deps) ++ b_Transactions batch ∧
    Forall is_deposit (tx :: deps).
Proof.
  intros HC Hs. unfold createNextAttributes in HC. case_bool_decide; cbn [negb] in HC; [|done].
  destruct (PreparePayloadAttributes dl safe (b_Timestamp batch) (Batch_Epoch batch))
    as [dl1 r] eqn:EP. injection HC as -> HC. apply bind_Ok in HC as (attrs0 & -> & HC).
  injection HC as <-.
  apply PreparePayloadAttributes_inv in EP as (i & d & sq & tx & HE & HT & ->).
  apply epochInputs_ok in HE as [_ Hd]. apply L1InfoDepositBytes_deposit in HT as (Ht & _).
  exists tx, d. split; [done|]. by constructor.
Qed.

(** A batch left in the attributes queue survives a reset, and as long as
    the safe head is not its parent every call fails with a reset error without
    any effect: resetting does not resolve the error. *)
Theorem stale_batch_stuck aq batch base safe :
  aq_batch aq = Some batch → b_ParentHash batch ≠ l2_Hash safe →
  let aq' := fst (AttributesQueue_Reset aq base) in
  ∃ e, NextAttributes aq' safe = (aq', Err e) ∧ errors_Is e ErrReset = true.
Proof.
  intros Hb Hp. cbn [AttributesQueue_Reset fst]. unfold NextAttributes, attributesFromBatch.
  rewrite Hb. unfold createNextAttributes. rewrite bool_decide_eq_false_2 by done. cbn [negb].
  exists (NewResetError (ErrorNew "valid batch has bad parent hash")).
  split; [|by apply (errors_Is_level LevelReset)].
  destruct aq. cbn in *. by rewrite Hb.
Qed.

End Attributes.

(** ** Examples *)

#[local] Existing Instance example_keccak.
#[local] Existing Instance example_codec.
#[local] Existing Instance ListBatches_provider.

(** A receipts service that knows one block with no receipts. *)
#[local] Program Instance example_fetcher : L1ReceiptsFetcher BlockInfo := {
  ReceiptsFetcher := unit;
  dl_InfoByHash w _ := (w, Ok w);
  dl_Fetch w _ := (w, Ok (w, [], tt));
  rf_Fetch _ := (tt, Some io_EOF);
  rf_Result _ := Ok [];
  rf_pending _ := 0%nat }.
Next Obligation. done. Qed.

Definition example_info (n : Z) : BlockInfo :=
  mkBlockInfo (example_hash (1000 + n)) (example_hash (999 + n)) zero_address zero_hash n (12 * n)
    (example_hash 5) (Some 7) zero_hash.

Lemma PreparePayloadAttributes_spec_witness :
  ∃ attrs, PreparePayloadAttributes example_cfg (example_info 1) (example_l2 7) 16
             (L1BlockRef_ID (example_l1 1)) = (example_info 1, Ok attrs) ∧
           pa_NoTxPool attrs = true.
Proof.
  eexists. split; [vm_compute; reflexivity|].
  eapply (PreparePayloadAttributes_spec example_cfg (example_info 1) (example_l2 7) 16
    (L1BlockRef_ID (example_l1 1)) (example_info 1)).
  vm_compute. reflexivity.
Defined.

Definition example_attrs : PayloadAttributes :=
  match snd (createNextAttributes example_cfg (example_info 1) (example_batch 7) (example_l2 7)) with
  | Ok attrs => attrs
  | _ => mkPayloadAttributes 0 [] [] [] false
  end.

Definition example_payload : ExecutionPayload :=
  mkExecutionPayload (example_hash 2007) zero_address zero_hash zero_hash [] (example_hash 5)
    8 0 0 16 [] 7 (example_hash 2008) (pa_Transactions example_attrs).

Lemma derived_block_ref_witness :
  PayloadToBlockRef example_payload (mkGenesis BlockID_zero BlockID_zero 1) =
  Ok (mkL2BlockRef (example_hash 2008) 8 (example_hash 2007) 16 (Batch_Epoch (example_batch 7)) 2).
Proof.
  rewrite (derived_block_ref example_cfg (example_info 1) (example_batch 7) (example_l2 7)
             (example_info 1) example_attrs (example_info 1) [] 2).
  - reflexivity.
  - vm_compute. reflexivity.
  - vm_compute. reflexivity.
  - split; [reflexivity|reflexivity|reflexivity|split; by vm_compute|].
    exists 7. split; [reflexivity|]. by vm_compute.
  - vm_compute. reflexivity.
  - by vm_compute.
  - by vm_compute.
Defined.

Lemma stale_batch_stuck_witness :
  ∃ e, snd (NextAttributes example_cfg
         (mkAttributesQueue (example_info 1) (example_queue [] (example_l1 1) []) (Some (example_batch 7)))
         (example_l2 9)) = Err e ∧ errors_Is e ErrReset = true.
Proof.
  destruct (stale_batch_stuck example_cfg
    (mkAttributesQueue (example_info 1) (example_queue [] (example_l1 1) []) (Some (example_batch 7)))
    (example_batch 7) (example_l1 0) (example_l2 9)) as (e & E & He).
  - reflexivity.
  - by vm_compute.
  - exists e. split; [|exact He]. cbn [AttributesQueue_Reset fst] in E. rewrite E. reflexivity.
Defined.
