(* ===== verification/PayloadsQueue.v ===== *)
(** * The queue of unsafe payloads

    op-node/rollup/derive/payloads_queue.go: payloads ordered by block number in a
    binary heap, with a bound on the memory they use.  The heap operations are
    those of Go's container/heap. *)

From stdpp Require Import sorting.
From S2P Require Import Prelude GoErrors EthTypes.

(** ** Heaps (container/heap) *)

Section Heap.
Context {A : Type} (key : A → Z).

(** The key at an index; the code only looks at indices in range. *)
Definition kat (l : list A) (i : nat) : Z :=
  match l !! i with Some x => key x | None => 0 end.

(** [Swap] *)
Definition swap (i j : nat) (l : list A) : list A :=
  match l !! i, l !! j with
  | Some x, Some y => <[i := y]> (<[j := x]> l)
  | _, _ => l
  end.

Definition parent (j : nat) : nat := (j - 1) / 2.

(** [up]: the index decreases, so the index itself is enough fuel. *)
Fixpoint heap_up (fuel : nat) (l : list A) (j : nat) : list A :=
  let i := parent j in
  if (i =? j)%nat || negb (kat l j <? kat l i) then l
  else match fuel with
       | O => l
       | S fuel => heap_up fuel (swap i j l) i
       end.

(** [down] on the first [n] elements: the index increases below [n]. *)
Fixpoint heap_down (fuel : nat) (l : list A) (i n : nat) : list A :=
  let j1 := (2 * i + 1)%nat in
  if (n <=? j1)%nat then l
  else
    let j2 := (j1 + 1)%nat in
    let j := if (j2 <? n)%nat && (kat l j2 <? kat l j1) then j2 else j1 in
    if negb (kat l j <? kat l i) then l
    else match fuel with
         | O => l
         | S fuel => heap_down fuel (swap i j l) j n
         end.

Definition heap_Push (l : list A) (x : A) : list A :=
  let l := l ++ [x] in heap_up (length l) l (length l - 1).

(** [heap.Pop]; nothing on an empty heap, where the code never calls it. *)
Definition heap_Pop (l : list A) : option (A * list A) :=
  match l with
  | [] => None
  | _ =>
      let n := (length l - 1)%nat in
      let l := heap_down n (swap 0 n l) 0 n in
      match l !! n with
      | Some item => Some (item, take n l)
      | None => None
      end
  end.

(** ** Heap order *)

Definition heap_on (n : nat) (l : list A) : Prop :=
  ∀ i, (0 < i < n)%nat → kat l (parent i) <= kat l i.
Definition heap (l : list A) : Prop := heap_on (length l) l.

(** Heap order except between [j] and its parent, or [i] and its children. *)
Definition up_inv (n : nat) (l : list A) (j : nat) : Prop :=
  (∀ i, (0 < i < n)%nat → i ≠ j → kat l (parent i) <= kat l i) ∧
  (∀ c, (0 < c < n)%nat → parent c = j → (0 < j)%nat → kat l (parent j) <= kat l c).
Definition down_inv (n : nat) (l : list A) (i : nat) : Prop :=
  (∀ c, (0 < c < n)%nat → parent c ≠ i → kat l (parent c) <= kat l c) ∧
  (∀ c, (0 < c < n)%nat → parent c = i → (0 < i)%nat → kat l (parent i) <= kat l c).

Lemma parent_bounds c : (0 < c → 2 * parent c + 1 ≤ c ≤ 2 * parent c + 2)%nat.
Proof.
  intros Hc. unfold parent. pose proof (Nat.div_mod_eq (c - 1) 2).
  pose proof (Nat.mod_upper_bound (c - 1) 2). lia.
Qed.

Lemma parent_eq c i : (2 * i + 1 ≤ c ≤ 2 * i + 2)%nat → parent c = i.
Proof. intros Hc. pose proof (parent_bounds c). lia. Qed.

Lemma length_swap i j l : length (swap i j l) = length l.
Proof. unfold swap. repeat case_match; [|done..]. by rewrite !length_insert. Qed.

Lemma lookup_swap i j l m :
  (i < length l)%nat → (j < length l)%nat →
  swap i j l !! m = if decide (m = i) then l !! j else if decide (m = j) then l !! i else l !! m.
Proof.
  intros [x Hx]%lookup_lt_is_Some [y Hy]%lookup_lt_is_Some. unfold swap. rewrite Hx, Hy.
  destruct (decide (m = i)) as [->|Hi].
  - rewrite list_lookup_insert_eq; [done|]. rewrite length_insert. by apply lookup_lt_Some in Hx.
  - rewrite list_lookup_insert_ne by done. destruct (decide (m = j)) as [->|Hj].
    + rewrite list_lookup_insert_eq; [done|]. by apply lookup_lt_Some in Hy.
    + by rewrite list_lookup_insert_ne.
Qed.

Lemma kat_swap i j l m :
  (i < length l)%nat → (j < length l)%nat →
  kat (swap i j l) m = if decide (m = i) then kat l j else if decide (m = j) then kat l i else kat l m.
Proof. intros Hi Hj. unfold kat. rewrite lookup_swap by done. by repeat case_decide. Qed.

Lemma swap_Permutation i j l : (i < length l)%nat → (j < length l)%nat → swap i j l ≡ₚ l.
Proof.
  intros Hi Hj. apply Permutation_inj. split; [apply length_swap|].
  exists (λ m, if decide (m = i) then j else if decide (m = j) then i else m). split.
  - intros a b. repeat case_decide; lia.
  - intros m. rewrite lookup_swap by done. by repeat case_decide.
Qed.

(** Rewrite the keys of a swapped list and decide which index is meant. *)
Ltac kat_cases := rewrite ?kat_swap by lia; repeat case_decide; subst; try lia.

Lemma up_inv_step n l j :
  (j < n)%nat → (n ≤ length l)%nat → up_inv n l j → (0 < j)%nat → kat l j < kat l (parent j) →
  up_inv n (swap (parent j) j l) (parent j).
Proof.
  intros Hj Hn [H1 H2] Hpos Hlt. pose proof (parent_bounds j Hpos) as Hp. split.
  - intros i Hi Hne. pose proof (parent_bounds i ltac:(lia)).
    destruct (decide (i = j)) as [->|Hij]; [kat_cases|].
    pose proof (H1 i Hi Hij). destruct (decide (parent i = j)) as [E|]; [pose proof (H2 i Hi E Hpos)|];
      kat_cases; rewrite ?E in *; try lia.
    match goal with E' : parent i = parent j |- _ => rewrite E' in * end. lia.
  - intros c Hc Hpc Hp0. pose proof (parent_bounds c ltac:(lia)).
    pose proof (parent_bounds (parent j) Hp0). pose proof (H1 (parent j) ltac:(lia) ltac:(lia)).
    destruct (decide (c = j)) as [->|Hcj]; [kat_cases|].
    pose proof (H1 c Hc Hcj). rewrite Hpc in *. kat_cases.
Qed.

Lemma heap_up_spec n fuel l j :
  (j < n)%nat → (n ≤ length l)%nat → (j ≤ fuel)%nat → up_inv n l j →
  heap_on n (heap_up fuel l j) ∧ heap_up fuel l j ≡ₚ l.
Proof.
  revert l j. induction fuel as [|fuel IH]; intros l j Hj Hn Hf Hinv; cbn [heap_up].
  - assert (j = 0)%nat as -> by lia. cbn. split; [|done]. intros i Hi. apply Hinv; lia.
  - destruct (Nat.eqb_spec (parent j) j) as [E|Hne]; cbn [orb].
    { destruct j as [|j]; [|pose proof (parent_bounds (S j)); lia].
      split; [|done]. intros i Hi. apply Hinv; lia. }
    destruct (Z.ltb_spec (kat l j) (kat l (parent j))) as [Hlt|Hge]; cbn [negb].
    + destruct j as [|j]; [done|]. pose proof (parent_bounds (S j)).
      destruct (IH (swap (parent (S j)) (S j) l) (parent (S j))) as [H1 H2];
        [lia|by rewrite length_swap|lia|apply up_inv_step; try done; lia|].
      split; [done|]. rewrite H2. apply swap_Permutation; lia.
    + split; [|done]. intros i Hi. destruct (decide (i = j)) as [->|]; [done|]. by apply Hinv.
Qed.

Lemma down_inv_step n l i j :
  (n ≤ length l)%nat → (i < n)%nat → (j < n)%nat → down_inv n l i → parent j = i → (0 < j)%nat →
  (∀ c, (0 < c < n)%nat → parent c = i → kat l j <= kat l c) → kat l j < kat l i →
  down_inv n (swap i j l) j.
Proof.
  intros Hn Hi Hj [H1 H2] Hpj Hpos Hmin Hlt. pose proof (parent_bounds j Hpos) as Hp. split.
  - intros c Hc Hpc. pose proof (parent_bounds c ltac:(lia)).
    destruct (decide (parent c = i)) as [E|E].
    + pose proof (Hmin c Hc E). rewrite E. destruct (decide (c = j)) as [->|]; kat_cases.
    + pose proof (H1 c Hc E). destruct (decide (c = i)) as [->|].
      * pose proof (H2 j ltac:(lia) Hpj ltac:(lia)). kat_cases.
      * assert (c ≠ j) by congruence. kat_cases.
  - intros c Hc Hpc _. pose proof (parent_bounds c ltac:(lia)). rewrite Hpj.
    assert (parent c ≠ i) by lia. pose proof (H1 c Hc ltac:(done)). rewrite Hpc in *. kat_cases.
Qed.

Lemma lookup_heap_down fuel l i n m :
  (n ≤ length l)%nat → (i < n)%nat → (n ≤ m)%nat → heap_down fuel l i n !! m = l !! m.
Proof.
  revert l i. induction fuel as [|fuel IH]; intros l i Hn Hi Hm; cbn [heap_down];
    destruct (Nat.leb_spec n (2 * i + 1)); try done;
    set (j := if (_ <? n)%nat && _ then _ else _); destruct (negb _); try done.
  assert (j < n)%nat.
  { unfold j. destruct (Nat.ltb_spec (2 * i + 1 + 1) n); cbn; [case_match|]; lia. }
  rewrite IH by (rewrite ?length_swap; lia). rewrite lookup_swap by lia. repeat case_decide; [lia..|done].
Qed.

Lemma heap_down_spec n fuel l i :
  (i < n)%nat → (n ≤ length l)%nat → (n - i ≤ fuel)%nat → down_inv n l i →
  heap_on n (heap_down fuel l i n) ∧ heap_down fuel l i n ≡ₚ l.
Proof.
  revert l i. induction fuel as [|fuel IH]; intros l i Hi Hn Hf Hinv; [lia|]. cbn [heap_down].
  destruct (Nat.leb_spec n (2 * i + 1)) as [Hleaf|Hj1].
  { split; [|done]. intros c Hc. apply Hinv; [done|]. pose proof (parent_bounds c ltac:(lia)). lia. }
  set (j := if (_ <? n)%nat && _ then _ else _).
  assert (Hj : (j < n)%nat ∧ parent j = i ∧ (0 < j)%nat ∧
    (∀ c, (0 < c < n)%nat → parent c = i → kat l j <= kat l c)).
  { unfold j. destruct (Nat.ltb_spec (2 * i + 1 + 1) n) as [H2|H2]; cbn [andb].
    - destruct (Z.ltb_spec (kat l (2 * i + 1 + 1)) (kat l (2 * i + 1)));
        (split_and!; [lia|apply parent_eq; lia|lia|]);
        intros c Hc E; pose proof (parent_bounds c ltac:(lia)); rewrite E in *;
        (assert (c = 2 * i + 1 ∨ c = 2 * i + 1 + 1)%nat as [->| ->] by lia); lia.
    - split_and!; [lia|apply parent_eq; lia|lia|]. intros c Hc E.
      pose proof (parent_bounds c ltac:(lia)). rewrite E in *.
      assert (c = 2 * i + 1)%nat as -> by lia. lia. }
  destruct Hj as (Hjn & Hpj & Hpos & Hmin). pose proof (parent_bounds j Hpos).
  destruct (Z.ltb_spec (kat l j) (kat l i)) as [Hlt|Hge]; cbn [negb].
  - destruct (IH (swap i j l) j) as [H1 H2];
      [done|by rewrite length_swap|lia|by apply down_inv_step|].
    split; [done|]. rewrite H2. apply swap_Permutation; lia.
  - split; [|done]. intros c Hc. destruct (decide (parent c = i)) as [E|E].
    + rewrite E. pose proof (Hmin c Hc E). lia.
    + by apply Hinv.
Qed.

(** The root is a minimum. *)
Lemma heap_min n l i : heap_on n l → (i < n)%nat → kat l 0 <= kat l i.
Proof.
  intros Hh. induction (lt_wf i) as [i _ IH]. intros Hi. destruct i as [|i]; [lia|].
  pose proof (parent_bounds (S i) ltac:(lia)). pose proof (Hh (S i) ltac:(lia)).
  pose proof (IH (parent (S i)) ltac:(lia) ltac:(lia)). lia.
Qed.

Lemma heap_nil : heap [].
Proof. intros i Hi. cbn in Hi. lia. Qed.

Lemma heap_Push_spec l x : heap l → heap (heap_Push l x) ∧ heap_Push l x ≡ₚ x :: l.
Proof.
  intros Hh. unfold heap_Push.
  assert (Hlen : length (l ++ [x]) = S (length l)) by (rewrite length_app; cbn; lia).
  destruct (heap_up_spec (length (l ++ [x])) (length (l ++ [x])) (l ++ [x]) (length (l ++ [x]) - 1))
    as [H1 H2]; [lia|lia|lia| |].
  - rewrite Hlen. replace (S (length l) - 1)%nat with (length l) by lia. split.
    + intros i Hi Hne. pose proof (parent_bounds i ltac:(lia)). unfold kat.
      rewrite !lookup_app_l by lia. apply Hh. lia.
    + intros c Hc E Hp. pose proof (parent_bounds c ltac:(lia)). lia.
  - split; [|rewrite H2; symmetry; apply Permutation_cons_append].
    unfold heap. by rewrite (Permutation_length H2).
Qed.

Lemma heap_Pop_spec l :
  heap l → l ≠ [] →
  ∃ x l', heap_Pop l = Some (x, l') ∧ head l = Some x ∧ heap l' ∧ l ≡ₚ x :: l' ∧
    ∀ y, y ∈ l → key x <= key y.
Proof.
  intros Hh Hne. destruct l as [|x tl] eqn:El; [done|]. rewrite <- El in *. unfold heap_Pop.
  assert (Hn : (0 < length l)%nat) by (subst l; cbn; lia).
  assert (Hx : l !! 0%nat = Some x) by (by subst l).
  set (n := (length l - 1)%nat).
  assert (Hsw : swap 0 n l !! n = Some x).
  { rewrite lookup_swap by lia. case_decide as E0; [rewrite E0|rewrite decide_True by done]; done. }
  assert (Hd : heap_on n (heap_down n (swap 0 n l) 0 n) ∧ heap_down n (swap 0 n l) 0 n ≡ₚ l ∧
               heap_down n (swap 0 n l) 0 n !! n = Some x).
  { destruct (decide (n = 0)%nat) as [E0|Hn0].
    - rewrite E0 in *. cbn [heap_down]. cbn. split; [intros i Hi; lia|]. split; [|done].
      apply swap_Permutation; lia.
    - destruct (heap_down_spec n n (swap 0 n l) 0) as [H1 H2]; [lia|rewrite length_swap; lia|lia| |].
      { split; [|intros; lia]. intros c Hc Hpc. pose proof (parent_bounds c ltac:(lia)).
        rewrite !kat_swap by lia. repeat case_decide; try lia. apply Hh. lia. }
      split; [done|]. split; [rewrite H2; apply swap_Permutation; lia|].
      rewrite lookup_heap_down by (rewrite ?length_swap; lia). done. }
  destruct Hd as (H1 & H2 & H3). subst l. cbn [length] in *. rewrite H3.
  set (d := heap_down n (swap 0 n (x :: tl)) 0 n) in *.
  assert (Hld : length d = S n) by (rewrite (Permutation_length H2); cbn; lia).
  assert (Hsplit : d = take n d ++ [x]).
  { rewrite <- (take_drop n d) at 1. f_equal. rewrite (drop_S _ x) by done.
    rewrite drop_ge by lia. done. }
  exists x, (take n d). split; [done|]. split; [done|]. split_and!.
  - unfold heap. rewrite length_take, Nat.min_l by lia. intros i Hi. unfold kat.
    pose proof (parent_bounds i ltac:(lia)). rewrite !lookup_take_lt by lia. by apply H1.
  - rewrite <- H2, Hsplit at 1. symmetry. apply Permutation_cons_append.
  - intros y [i Hi]%list_elem_of_lookup. pose proof (lookup_lt_Some _ _ _ Hi).
    pose proof (heap_min _ _ i Hh H). unfold kat in *. cbn in H0. by rewrite Hi in H0.
Qed.

End Heap.

(** ** The payloads queue *)

Record payloadAndSize := mkPayloadAndSize { ps_payload : ExecutionPayload; ps_size : Z }.

Definition ps_number (x : payloadAndSize) : Z := ep_BlockNumber (ps_payload x).

Definition payloadMemFixedCost : Z := 600.
Definition payloadTxMemOverhead : Z := 24.

(** [payloadMemSize]; a nil payload costs the fixed amount. *)
Definition payloadMemSize (p : option ExecutionPayload) : Z :=
  match p with
  | None => payloadMemFixedCost
  | Some p => fold_left (λ out tx, out ⊞ (len tx ⊞ payloadTxMemOverhead)) (ep_Transactions p)
                payloadMemFixedCost
  end.

Record PayloadsQueue := mkPayloadsQueue {
  upq_pq : list payloadAndSize; upq_currentSize : Z; upq_MaxSize : Z }.

Definition upq_Len (q : PayloadsQueue) : Z := len (upq_pq q).
Definition upq_MemSize (q : PayloadsQueue) : Z := upq_currentSize q.

Definition upq_Peek (q : PayloadsQueue) : option ExecutionPayload :=
  match upq_pq q with [] => None | x :: _ => Some (ps_payload x) end.

Definition upq_Pop (q : PayloadsQueue) : PayloadsQueue * option ExecutionPayload :=
  match heap_Pop ps_number (upq_pq q) with
  | None => (q, None)
  | Some (ps, pq) =>
      (mkPayloadsQueue pq (upq_currentSize q ⊟ ps_size ps) (upq_MaxSize q), Some (ps_payload ps))
  end.

(** [for upq.currentSize > upq.MaxSize { upq.Pop() }]: [None] when the loop does
    not end. *)
Fixpoint evict (fuel : nat) (q : PayloadsQueue) : option PayloadsQueue :=
  if upq_MaxSize q <? upq_currentSize q then
    match fuel with
    | O => None
    | S fuel => evict fuel (fst (upq_Pop q))
    end
  else Some q.

Section Queue.
Context (SizeFn : ExecutionPayload → Z).

Definition upq_Push (q : PayloadsQueue) (p : option ExecutionPayload)
  : PayloadsQueue * result unit :=
  match p with
  | None => (q, Err (ErrorNew "cannot add nil payload"))
  | Some p =>
      let size := SizeFn p in
      if upq_MaxSize q <? size then (q, Err (ErrorNew "cannot add payload, larger than max queue size"))
      else
        let pq := heap_Push ps_number (upq_pq q) (mkPayloadAndSize p size) in
        let q' := mkPayloadsQueue pq (upq_currentSize q ⊞ size) (upq_MaxSize q) in
        match evict (length pq) q' with
        | Some q' => (q', Ok tt)
        | None => (q', Panic "endless loop")
        end
  end.

(** ** Invariant *)

Definition total_size (l : list payloadAndSize) : Z :=
  foldr (λ x acc, ps_size x + acc) 0 l.

(** Heap order, and exact accounting of the sizes. *)
Record upq_inv (q : PayloadsQueue) : Prop := {
  ui_heap : heap ps_number (upq_pq q);
  ui_sizes : Forall (λ x, ps_size x = SizeFn (ps_payload x) ∧ 0 <= ps_size x) (upq_pq q);
  ui_total : upq_currentSize q = total_size (upq_pq q);
  ui_max : 0 <= upq_MaxSize q < 2 ^ 63 }.

Lemma total_size_cons x l : total_size (x :: l) = ps_size x + total_size l.
Proof. done. Qed.

Lemma total_size_perm l1 l2 : l1 ≡ₚ l2 → total_size l1 = total_size l2.
Proof. induction 1; rewrite ?total_size_cons in *; lia. Qed.

Lemma total_size_nonneg l : Forall (λ x, ps_size x = SizeFn (ps_payload x) ∧ 0 <= ps_size x) l →
  0 <= total_size l.
Proof. induction 1; [done|]. rewrite total_size_cons. lia. Qed.

(** Popping takes a lowest block number and keeps the accounts. *)
Lemma upq_Pop_inv q :
  upq_inv q → upq_currentSize q < 2 ^ 64 → upq_pq q ≠ [] →
  ∃ x, upq_Peek q = Some (ps_payload x) ∧ snd (upq_Pop q) = Some (ps_payload x) ∧
    upq_inv (fst (upq_Pop q)) ∧ upq_pq q ≡ₚ x :: upq_pq (fst (upq_Pop q)) ∧
    upq_MaxSize (fst (upq_Pop q)) = upq_MaxSize q ∧
    ∀ y, y ∈ upq_pq q → ps_number x <= ps_number y.
Proof.
  intros [Hh Hs Ht Hm] Hlt Hne.
  destruct (heap_Pop_spec ps_number (upq_pq q) Hh Hne) as (x & l' & HP & Hhd & Hh' & Hp & Hmin).
  exists x. unfold upq_Pop, upq_Peek. rewrite HP.
  rewrite Hp in Hs. apply Forall_cons_1 in Hs as [[Hx Hx0] Hs].
  pose proof (total_size_perm _ _ Hp) as Htp. rewrite total_size_cons in Htp.
  pose proof (total_size_nonneg _ Hs).
  split; [by destruct (upq_pq q); [|injection Hhd as ->]|]. split; [done|].
  split; [|done].
  split; cbn [fst upq_pq upq_currentSize upq_MaxSize]; try done. rewrite u64_small; [lia|]. unfold is_u64. lia.
Qed.

(** The eviction loop ends, within the limit, having dropped lowest block numbers. *)
Lemma evict_spec fuel q :
  upq_inv q → upq_currentSize q < 2 ^ 64 → (length (upq_pq q) ≤ fuel)%nat →
  ∃ q' dropped, evict fuel q = Some q' ∧ upq_inv q' ∧ upq_MaxSize q' = upq_MaxSize q ∧
    upq_currentSize q' <= upq_MaxSize q ∧ upq_pq q ≡ₚ dropped ++ upq_pq q' ∧
    (∀ d k, d ∈ dropped → k ∈ upq_pq q' → ps_number d <= ps_number k) ∧
    (dropped ≠ [] → upq_MaxSize q < total_size (upq_pq q)).
Proof.
  revert q. induction fuel as [|fuel IH]; intros q Hinv Hlt Hf; cbn [evict];
    destruct (Z.ltb_spec (upq_MaxSize q) (upq_currentSize q)) as [Hgt|Hle].
  1,3: destruct Hinv as [Hh Hs Ht Hm].
  - destruct (upq_pq q) eqn:E; [|cbn in Hf; lia]. cbn in Ht. lia.
  - assert (Hne : upq_pq q ≠ []) by (intros E; rewrite E in Ht; cbn in Ht; lia).
    destruct (upq_Pop_inv q) as (x & _ & _ & Hi' & Hp & Hm' & Hmin); [by split|done|done|].
    assert (Hsz : upq_currentSize (fst (upq_Pop q)) <= upq_currentSize q).
    { rewrite (ui_total _ Hi'), Ht, (total_size_perm _ _ Hp), total_size_cons.
      rewrite Hp in Hs. apply Forall_cons_1 in Hs as [[_ ?] _]. lia. }
    destruct (IH (fst (upq_Pop q))) as (q' & dr & HE & Hq' & HM & Hc & Hperm & Hord & _); [done|lia| |].
    { apply Permutation_length in Hp. cbn in Hp. lia. }
    exists q', (x :: dr). rewrite HE, HM, Hm'. split_and!; try done; [lia| | |].
    + rewrite Hp, Hperm. done.
    + intros d k [->|Hd]%elem_of_cons Hk.
      * apply Hmin. rewrite Hp, Hperm. set_solver.
      * by apply Hord.
    + intros _. by rewrite <- Ht.
  - exists q, []. split_and!; try done. by intros d k ?%elem_of_nil.
  - exists q, []. split_and!; try done. by intros d k ?%elem_of_nil.
Qed.

(** [Push] of a payload that fits always ends with the payload considered:
    the queue then holds the old payloads and the new one except the ones that
    were evicted, the evicted ones have the lowest block numbers, nothing is
    evicted unless the limit was exceeded, and the memory accounting is exact and
    within the limit.  A payload above the limit is refused without effect. *)
Theorem upq_Push_spec q p :
  upq_inv q → upq_currentSize q <= upq_MaxSize q → 0 <= SizeFn p →
  if upq_MaxSize q <? SizeFn p then
    ∃ e, upq_Push q (Some p) = (q, Err e)
  else
    ∃ q' dropped, upq_Push q (Some p) = (q', Ok tt) ∧ upq_inv q' ∧
      upq_MaxSize q' = upq_MaxSize q ∧ upq_currentSize q' <= upq_MaxSize q ∧
      mkPayloadAndSize p (SizeFn p) :: upq_pq q ≡ₚ dropped ++ upq_pq q' ∧
      (∀ d k, d ∈ dropped → k ∈ upq_pq q' → ps_number d <= ps_number k) ∧
      (dropped ≠ [] → upq_MaxSize q < upq_currentSize q + SizeFn p).
Proof.
  intros Hinv Hle H0. unfold upq_Push. destruct (Z.ltb_spec (upq_MaxSize q) (SizeFn p)) as [|Hfit].
  { by eexists. }
  pose proof Hinv as [Hh Hs Ht Hm].
  set (x := mkPayloadAndSize p (SizeFn p)).
  destruct (heap_Push_spec ps_number (upq_pq q) x Hh) as [Hh' Hp].
  set (pq := heap_Push ps_number (upq_pq q) x) in *.
  pose proof (total_size_nonneg _ Hs) as Hnn. pose proof (total_size_perm _ _ Hp) as Htp.
  rewrite total_size_cons in Htp. cbn [x ps_size] in Htp.
  assert (Hsum : upq_currentSize q ⊞ SizeFn p = upq_currentSize q + SizeFn p).
  { apply u64_small. unfold is_u64. lia. }
  rewrite Hsum. set (q1 := mkPayloadsQueue pq (upq_currentSize q + SizeFn p) (upq_MaxSize q)).
  assert (Hi1 : upq_inv q1).
  { split; cbn [q1 upq_pq upq_currentSize upq_MaxSize]; try done; [|lia]. rewrite Hp. by constructor. }
  destruct (evict_spec (length pq) q1 Hi1) as (q' & dr & -> & Hq' & HM & Hc & Hperm & Hord & Hd);
    [cbn; lia|done|].
  exists q', dr. split_and!; try done.
  - rewrite <- Hp. done.
  - intros Hdr. specialize (Hd Hdr). cbn [q1 upq_pq upq_MaxSize] in Hd. rewrite Htp in Hd. lia.
Qed.

(** Popping everything. *)
Fixpoint drain (fuel : nat) (q : PayloadsQueue) : list ExecutionPayload :=
  match fuel with
  | O => []
  | S fuel =>
      match upq_Pop q with
      | (_, None) => []
      | (q, Some p) => p :: drain fuel q
      end
  end.

(** Popping until the queue is empty returns all payloads, in ascending order
    of their block numbers. *)
Theorem upq_drain_sorted q :
  upq_inv q → upq_currentSize q <= upq_MaxSize q →
  let out := drain (length (upq_pq q)) q in
  out ≡ₚ ps_payload <$> upq_pq q ∧
  StronglySorted (λ a b, ep_BlockNumber a <= ep_BlockNumber b) out.
Proof.
  intros Hinv Hle. cbn zeta. remember (length (upq_pq q)) as n eqn:En.
  revert q En Hinv Hle. induction n as [|n IH]; intros q En Hinv Hle.
  { destruct (upq_pq q); [|done]. split; [done|constructor]. }
  assert (Hne : upq_pq q ≠ []) by (by intros E; rewrite E in En).
  pose proof (ui_max _ Hinv) as Hm.
  destruct (upq_Pop_inv q Hinv ltac:(lia) Hne) as (x & _ & Hsnd & Hi' & Hp & HM & Hmin).
  cbn [drain]. destruct (upq_Pop q) as [q' r]. cbn [fst snd] in *. subst r.
  destruct (IH q') as [Hperm Hsort]; [apply Permutation_length in Hp; cbn in Hp; lia|done| |].
  { rewrite HM, (ui_total _ Hi'). pose proof (ui_total _ Hinv) as Ht.
    rewrite (total_size_perm _ _ Hp), total_size_cons in Ht.
    pose proof (ui_sizes _ Hinv) as Hs. rewrite Hp in Hs. apply Forall_cons_1 in Hs as [[_ ?] _]. lia. }
  split; [rewrite Hperm, Hp; done|]. constructor; [done|].
  apply Forall_forall. intros b Hb. rewrite Hperm in Hb.
  apply list_elem_of_fmap in Hb as (y & -> & Hy). apply Hmin. rewrite Hp. set_solver.
Qed.

End Queue.

(** ** Examples *)

Definition numbered_payload (n : Z) : ExecutionPayload :=
  mkExecutionPayload [] [] [] [] [] [] n 0 0 0 [] 0 [] [].

Definition empty_queue : PayloadsQueue := mkPayloadsQueue [] 0 2000.

Lemma empty_queue_inv f : upq_inv f empty_queue.
Proof. split; [apply heap_nil|constructor|done|done]. Qed.

Definition size_of (p : ExecutionPayload) : Z := payloadMemSize (Some p).

Lemma upq_Push_spec_witness :
  ∃ q', upq_Push size_of empty_queue (Some (numbered_payload 4)) = (q', Ok tt) ∧ upq_inv size_of q'.
Proof.
  destruct (upq_Push_spec size_of empty_queue (numbered_payload 4)) as (q' & dr & E & Hi & _).
  - apply empty_queue_inv.
  - by vm_compute.
  - by vm_compute.
  - exists q'. split; assumption.
Defined.

Lemma upq_drain_sorted_witness :
  drain (length (upq_pq empty_queue)) empty_queue ≡ₚ [].
Proof.
  refine (proj1 (upq_drain_sorted size_of empty_queue _ _)).
  - apply empty_queue_inv.
  - by vm_compute.
Defined.

(** Three payloads pushed out of order are popped in order; a fourth evicts the
    lowest. *)
Example push_order :
  let push n q := fst (upq_Push size_of q (Some (numbered_payload n))) in
  ep_BlockNumber <$> drain 3 (push 3 (push 9 (push 5 empty_queue))) = [3; 5; 9] ∧
  ep_BlockNumber <$> drain 4 (push 7 (push 3 (push 9 (push 5 empty_queue)))) = [5; 7; 9].
Proof. split; vm_compute; reflexivity. Qed.
