(* ===== verification/EngineUpdate.v ===== *)
(** * Inserting blocks into the execution engine

    op-node/rollup/derive/engine_update.go (checks on built payloads and
    [InsertHeadBlock]), op-node/eth/status.go (errors of engine statuses) and the
    [Engine] interface of engine_queue.go. *)

From S2P Require Import Prelude GoErrors EthTypes Extern L1Info Batch BatchQueue Deposits Attributes.

(** [Engine]: the execution engine and the L2 chain it stores. *)
Class Engine (E : Type) := {
  eng_GetPayload : E → PayloadID → E * result ExecutionPayload;
  eng_ForkchoiceUpdate : E → ForkchoiceState → option PayloadAttributes →
                         E * result ForkchoiceUpdatedResult;
  eng_NewPayload : E → ExecutionPayload → E * result PayloadStatusV1;
  eng_PayloadByHash : E → Hash → E * result ExecutionPayload;
  eng_PayloadByNumber : E → Z → E * result ExecutionPayload;
  eng_L2BlockRefByLabel : E → BlockLabel → E * result L2BlockRef;
  eng_L2BlockRefByHash : E → Hash → E * result L2BlockRef }.

(** ** Status errors (eth/status.go) *)

Definition ForkchoiceUpdateErr (payloadStatus : PayloadStatusV1) : option error :=
  match ps_Status payloadStatus with
  | ExecutionSyncing => Some (ErrorNew "updated forkchoice, but node is syncing")
  | ExecutionAccepted | ExecutionInvalidTerminalBlock | ExecutionInvalidBlockHash =>
      Some (ErrorNew "unexpected status from forkchoice-updated response")
  | ExecutionInvalid => Some (ErrorNew "cannot update forkchoice, block is invalid")
  | ExecutionValid => None
  | ExecutionOther _ => Some (ErrorNew "unknown forkchoice status")
  end.

Definition NewPayloadErr (payloadStatus : PayloadStatusV1) : option error :=
  match ps_Status payloadStatus with
  | ExecutionValid => None
  | ExecutionSyncing => Some (ErrorNew "failed to execute payload, node is syncing")
  | ExecutionInvalid => Some (ErrorNew "execution payload was invalid")
  | ExecutionInvalidBlockHash => Some (ErrorNew "execution payload has an invalid block hash")
  | ExecutionInvalidTerminalBlock => Some (ErrorNew "invalid terminal block")
  | ExecutionAccepted => Some (ErrorNew "execution payload cannot be validated yet")
  | ExecutionOther _ => Some (ErrorNew "unknown execution status")
  end.

(** ** Checks on payloads (engine_update.go) *)

Definition isDepositTx (opaqueTx : bytes) : result bool :=
  match opaqueTx with
  | [] => Err (ErrorNew "empty transaction")
  | t :: _ => Ok (bool_decide (t = DepositTxType))
  end.

(** The loop of [lastDeposit] from index [i]. *)
Fixpoint lastDeposit_loop (txns : list bytes) (i last : nat) : result nat :=
  match txns with
  | [] => Ok last
  | tx :: txns =>
      match isDepositTx tx with
      | Ok true => lastDeposit_loop txns (S i) i
      | Ok false => Ok last
      | Err _ => Err (ErrorNew "invalid transaction")
      | Panic s => Panic s
      end
  end.

Definition lastDeposit (txns : list bytes) : result nat := lastDeposit_loop txns 0 0.

(** The loop over the transactions behind the last deposit. *)
Fixpoint noDeposits_loop (txns : list bytes) : option error :=
  match txns with
  | [] => None
  | tx :: txns =>
      match isDepositTx tx with
      | Ok true => Some (ErrorNew "deposit tx after other tx in l2 block")
      | Ok false => noDeposits_loop txns
      | Err e => Some (Errorf "failed to decode transaction" e)
      | Panic s => Some (ErrorNew s)
      end
  end.

(** [sanityCheckPayload]: [payload.Transactions[0][0]] panics on an empty first
    transaction. *)
Definition sanityCheckPayload (payload : ExecutionPayload) : result unit :=
  match ep_Transactions payload with
  | [] => Err (ErrorNew "no transactions in returned payload")
  | [] :: _ => Panic "index out of range"
  | (t :: _) :: _ =>
      if negb (bool_decide (t = DepositTxType)) then
        Err (ErrorNew "first transaction was not deposit tx")
      else
        match lastDeposit (ep_Transactions payload) with
        | Err e => Err (Errorf "failed to find last deposit" e)
        | Panic s => Panic s
        | Ok last =>
            match noDeposits_loop (drop (last + 1) (ep_Transactions payload)) with
            | Some e => Err e
            | None => Ok tt
            end
        end
  end.

(** ** [InsertHeadBlock] *)

Inductive BlockInsertionErrType :=
  BlockInsertOK | BlockInsertTemporaryErr | BlockInsertPrestateErr | BlockInsertPayloadErr.
#[export] Instance BlockInsertionErrType_eq_dec : EqDecision BlockInsertionErrType.
Proof. solve_decision. Defined.

(** What it returns: the block, or an error with its type, or a panic. *)
Inductive insertion :=
| Inserted (payload : ExecutionPayload)
| NotInserted (typ : BlockInsertionErrType) (err : option error)
| InsertPanic (msg : string).

Section Insert.
Context {E : Type} `{Engine E}.

(** Classification of an error of the first forkchoice update. *)
Definition preForkchoiceErr (err : error) : insertion :=
  match as_input_error err with
  | Some (code, inner) =>
      if code =? InvalidForkchoiceState then
        NotInserted BlockInsertPrestateErr (Some (Errorf
          "pre-block-creation forkchoice update was inconsistent with engine, need reset to resolve" inner))
      else if code =? InvalidPayloadAttributes then
        NotInserted BlockInsertPayloadErr (Some (Errorf
          "payload attributes are not valid, cannot build block" inner))
      else NotInserted BlockInsertPrestateErr (Some (Errorf
             "unexpected error code in forkchoice-updated response" err))
  | None => NotInserted BlockInsertTemporaryErr (Some (Errorf
              "failed to create new block via forkchoice" err))
  end.

(** Classification of an error of the second forkchoice update. *)
Definition postForkchoiceErr (err : error) : insertion :=
  match as_input_error err with
  | Some (code, inner) =>
      if code =? InvalidForkchoiceState then
        NotInserted BlockInsertPayloadErr (Some (Errorf
          "post-block-creation forkchoice update was inconsistent with engine, need reset to resolve" inner))
      else NotInserted BlockInsertPrestateErr (Some (Errorf
             "unexpected error code in forkchoice-updated response" err))
  | None => NotInserted BlockInsertTemporaryErr (Some (Errorf
              "failed to make the new L2 block canonical via forkchoice" err))
  end.

(** The last step: make the executed payload canonical. *)
Definition canonicalize (eng : E) (fc : ForkchoiceState) (payload : ExecutionPayload)
    (updateSafe : bool) : E * insertion :=
  let fc := mkForkchoiceState (ep_BlockHash payload)
              (if updateSafe then ep_BlockHash payload else fc_SafeBlockHash fc)
              (fc_FinalizedBlockHash fc) in
  let '(eng, r) := eng_ForkchoiceUpdate eng fc None in
  match r with
  | Err e => (eng, postForkchoiceErr e)
  | Panic s => (eng, InsertPanic s)
  | Ok fcRes =>
      if negb (bool_decide (ps_Status (fcr_PayloadStatus fcRes) = ExecutionValid)) then
        (eng, NotInserted BlockInsertPayloadErr (ForkchoiceUpdateErr (fcr_PayloadStatus fcRes)))
      else (eng, Inserted payload)
  end.

(** Execute a payload, then make it canonical. *)
Definition executePayload (eng : E) (fc : ForkchoiceState) (payload : ExecutionPayload)
    (updateSafe : bool) : E * insertion :=
  match sanityCheckPayload payload with
  | Err e => (eng, NotInserted BlockInsertPayloadErr (Some e))
  | Panic s => (eng, InsertPanic s)
  | Ok _ =>
      let '(eng, r) := eng_NewPayload eng payload in
      match r with
      | Err e => (eng, NotInserted BlockInsertTemporaryErr
                         (Some (Errorf "failed to insert execution payload" e)))
      | Panic s => (eng, InsertPanic s)
      | Ok status =>
          match ps_Status status with
          | ExecutionInvalid | ExecutionInvalidBlockHash =>
              (eng, NotInserted BlockInsertPayloadErr (NewPayloadErr status))
          | ExecutionValid => canonicalize eng fc payload updateSafe
          | _ => (eng, NotInserted BlockInsertTemporaryErr (NewPayloadErr status))
          end
      end
  end.

Definition InsertHeadBlock (eng : E) (fc : ForkchoiceState) (attrs : PayloadAttributes)
    (updateSafe : bool) : E * insertion :=
  let '(eng, r) := eng_ForkchoiceUpdate eng fc (Some attrs) in
  match r with
  | Err e => (eng, preForkchoiceErr e)
  | Panic s => (eng, InsertPanic s)
  | Ok fcRes =>
      match ps_Status (fcr_PayloadStatus fcRes) with
      | ExecutionInvalid | ExecutionInvalidBlockHash =>
          (eng, NotInserted BlockInsertPayloadErr (ForkchoiceUpdateErr (fcr_PayloadStatus fcRes)))
      | ExecutionValid =>
          match fcr_PayloadID fcRes with
          | None => (eng, NotInserted BlockInsertTemporaryErr
                            (Some (ErrorNew "nil id in forkchoice result when expecting a valid ID")))
          | Some id =>
              let '(eng, r) := eng_GetPayload eng id in
              match r with
              | Err e => (eng, NotInserted BlockInsertTemporaryErr
                                 (Some (Errorf "failed to get execution payload" e)))
              | Panic s => (eng, InsertPanic s)
              | Ok payload => executePayload eng fc payload updateSafe
              end
          end
      | _ => (eng, NotInserted BlockInsertTemporaryErr (ForkchoiceUpdateErr (fcr_PayloadStatus fcRes)))
      end
  end.

(** ** Lemmas *)

Lemma isDepositTx_deposit tx : is_deposit tx → isDepositTx tx = Ok true.
Proof. intros (r & ->). cbn. by rewrite bool_decide_eq_true_2. Qed.

Lemma isDepositTx_cases tx :
  (is_deposit tx ∧ isDepositTx tx = Ok true) ∨ (is_sequenced tx ∧ isDepositTx tx = Ok false) ∨
  (tx = [] ∧ ∃ e, isDepositTx tx = Err e).
Proof.
  destruct tx as [|t r]; [right; right; split; [done|by eexists]|]. cbn.
  destruct (decide (t = DepositTxType)) as [->|Hne].
  - left. split; [by exists r|]. by rewrite bool_decide_eq_true_2.
  - right; left. split; [by exists t, r|]. by rewrite bool_decide_eq_false_2.
Qed.

Lemma lastDeposit_loop_app deps rest i last :
  Forall is_deposit deps → deps ≠ [] →
  lastDeposit_loop (deps ++ rest) i last = lastDeposit_loop rest (i + length deps) (i + length deps - 1).
Proof.
  intros Hd. revert i last. induction Hd as [|tx deps Ht Hd IH]; intros i last Hne; [done|].
  cbn [app lastDeposit_loop]. rewrite isDepositTx_deposit by done. cbn [length].
  destruct deps as [|tx' deps].
  - cbn [app length]. f_equal; lia.
  - rewrite IH by done. cbn [length]. f_equal; lia.
Qed.

Lemma noDeposits_loop_spec txs : noDeposits_loop txs = None ↔ Forall is_sequenced txs.
Proof.
  induction txs as [|tx txs IH]; cbn [noDeposits_loop]; [split; [constructor|done]|].
  destruct (isDepositTx_cases tx) as [[(r & ->) ->]|[[Hs ->]|[-> [e ->]]]].
  - split; [done|]. by intros [(? & ? & [= <- <-] & ?) _]%Forall_cons_1.
  - rewrite IH. split; [by constructor|]. by intros [_ ?]%Forall_cons_1.
  - split; [done|]. by intros [(? & ? & ? & _) _]%Forall_cons_1.
Qed.

(** The leading deposits of a list of transactions. *)
Lemma split_deposits txs :
  ∃ deps rest, txs = deps ++ rest ∧ Forall is_deposit deps ∧
    match rest with [] => True | tx :: _ => ¬ is_deposit tx end.
Proof.
  induction txs as [|tx txs (deps & rest & -> & Hd & Hr)]; [by exists [], []|].
  destruct (isDepositTx_cases tx) as [[Ht _]|[[(t & r & -> & Hne) _]|[-> _]]].
  - exists (tx :: deps), rest. split; [done|]. split; [by constructor|done].
  - exists [], ((t :: r) :: deps ++ rest). split; [done|]. split; [constructor|].
    intros (r' & [= ? ?]). done.
  - exists [], ([] :: deps ++ rest). split; [done|]. split; [constructor|]. by intros (r' & ?).
Qed.

Lemma sanityCheckPayload_ok payload :
  sanityCheckPayload payload = Ok tt ↔
  ∃ deps rest, ep_Transactions payload = deps ++ rest ∧ deps ≠ [] ∧
    Forall is_deposit deps ∧ Forall is_sequenced rest.
Proof.
  unfold sanityCheckPayload. generalize (ep_Transactions payload) as txs. intros txs. split.
  - intros HS. destruct (split_deposits txs) as (deps & rest & -> & Hd & Hr).
    destruct deps as [|d deps].
    { exfalso. cbn [app] in HS. destruct rest as [|[|t r] rest]; try done.
      case_bool_decide; cbn [negb] in HS; [|done]. subst t. apply Hr. by exists r. }
    exists (d :: deps), rest. split; [done|]. split; [done|]. split; [done|].
    pose proof Hd as [(r & ->) _]%Forall_cons_1. cbn [app] in HS.
    rewrite bool_decide_eq_true_2 in HS by done. cbn [negb] in HS.
    rewrite app_comm_cons in HS. unfold lastDeposit in HS. rewrite lastDeposit_loop_app in HS by done.
    destruct rest as [|tx rest]; [constructor|]. cbn [lastDeposit_loop] in HS.
    destruct (isDepositTx_cases tx) as [[Ht _]|[[Hs Eq]|[-> [e Eq]]]]; [done| |by rewrite Eq in HS].
    rewrite Eq in HS. cbn [length] in HS.
    rewrite drop_app_ge in HS by (cbn [length]; lia). cbn [length] in HS.
    replace (0 + S (length deps) - 1 + 1 - S (length deps))%nat with 0%nat in HS by lia.
    rewrite drop_0 in HS. destruct (noDeposits_loop (tx :: rest)) eqn:En; [done|].
    by apply noDeposits_loop_spec.
  - intros (deps & rest & -> & Hne & Hd & Hs). destruct deps as [|d deps]; [done|].
    pose proof Hd as [(r & ->) _]%Forall_cons_1. cbn [app].
    rewrite bool_decide_eq_true_2 by done. cbn [negb]. rewrite app_comm_cons.
    unfold lastDeposit. rewrite lastDeposit_loop_app by done.
    assert (HL : lastDeposit_loop rest (0 + length ((DepositTxType :: r) :: deps))
                   (0 + length ((DepositTxType :: r) :: deps) - 1) = Ok (length deps)).
    { cbn [length]. destruct rest as [|tx rest]; cbn [lastDeposit_loop]; [f_equal; lia|].
      apply Forall_cons_1 in Hs as [(t & r' & -> & Ht) _]. cbn.
      rewrite bool_decide_eq_false_2 by done. f_equal. lia. }
    rewrite HL. rewrite drop_app_ge by (cbn [length]; lia). cbn [length].
    replace (length deps + 1 - S (length deps))%nat with 0%nat by lia. rewrite drop_0.
    by rewrite (proj2 (noDeposits_loop_spec rest) Hs).
Qed.

(** A built payload passes the check exactly when it starts with at least one
    deposit and has no deposit and no empty transaction after its leading
    deposits. *)
Theorem sanityCheckPayload_spec payload :
  sanityCheckPayload payload = Ok tt ↔
  ∃ deps rest, ep_Transactions payload = deps ++ rest ∧ deps ≠ [] ∧
    Forall is_deposit deps ∧ Forall is_sequenced rest.
Proof. apply sanityCheckPayload_ok. Qed.

(** When [InsertHeadBlock] reports success, the engine accepted the
    forkchoice with the attributes, built the returned payload, executed it as
    valid, and then accepted it as head (and as safe head when asked to) over
    the unchanged finalized block. *)
Theorem InsertHeadBlock_inserted eng fc attrs updateSafe eng' payload :
  InsertHeadBlock eng fc attrs updateSafe = (eng', Inserted payload) →
  ∃ eng1 eng2 eng3 fcRes id status fcRes',
    eng_ForkchoiceUpdate eng fc (Some attrs) = (eng1, Ok fcRes) ∧
    ps_Status (fcr_PayloadStatus fcRes) = ExecutionValid ∧ fcr_PayloadID fcRes = Some id ∧
    eng_GetPayload eng1 id = (eng2, Ok payload) ∧ sanityCheckPayload payload = Ok tt ∧
    eng_NewPayload eng2 payload = (eng3, Ok status) ∧ ps_Status status = ExecutionValid ∧
    eng_ForkchoiceUpdate eng3
      (mkForkchoiceState (ep_BlockHash payload)
         (if updateSafe then ep_BlockHash payload else fc_SafeBlockHash fc)
         (fc_FinalizedBlockHash fc)) None = (eng', Ok fcRes') ∧
    ps_Status (fcr_PayloadStatus fcRes') = ExecutionValid.
Proof.
  unfold InsertHeadBlock, executePayload, canonicalize, preForkchoiceErr, postForkchoiceErr.
  intros HI.
  destruct (eng_ForkchoiceUpdate eng fc (Some attrs)) as [eng1 [fcRes|e|m]] eqn:E1;
    [|by repeat case_match; simplify_eq|done].
  destruct (ps_Status (fcr_PayloadStatus fcRes)) eqn:E2; try done.
  destruct (fcr_PayloadID fcRes) as [id|] eqn:E3; [|done].
  destruct (eng_GetPayload eng1 id) as [eng2 [p|e|m]] eqn:E4; try done.
  destruct (sanityCheckPayload p) as [[]|e|m] eqn:E5; try done.
  destruct (eng_NewPayload eng2 p) as [eng3 [status|e|m]] eqn:E6; try done.
  destruct (ps_Status status) eqn:E7; try done.
  destruct (eng_ForkchoiceUpdate eng3 _ None) as [eng4 [fcRes'|e|m]] eqn:E8;
    [|by repeat case_match; simplify_eq|done].
  case_bool_decide as E9; [|done]. injection HI as <- <-.
  exists eng1, eng2, eng3, fcRes, id, status, fcRes'. done.
Qed.

End Insert.

Section Attributes.
Context {W : Type} `{L1ReceiptsFetcher W} `{Keccak} `{TxCodec} (cfg : Config).

(** Attributes derived from a batch that [CheckBatch] accepted never fail the
    engine-side ordering check: a payload with exactly their transactions has its
    deposits first. *)
Theorem derived_payload_sane dl batch l1Blocks safe dl' attrs payload :
  CheckBatch cfg l1Blocks safe batch = BatchAccept →
  createNextAttributes cfg dl (bw_Batch batch) safe = (dl', Ok attrs) →
  ep_Transactions payload = pa_Transactions attrs →
  sanityCheckPayload payload = Ok tt.
Proof.
  intros HA HC HP. apply sanityCheckPayload_ok.
  assert (Hs : Forall is_sequenced (b_Transactions (bw_Batch batch))).
  { apply has_bad_tx_spec. unfold CheckBatch, CheckBatch_origin in HA.
    by repeat (case_match; try done). }
  destruct (createNextAttributes_deposits_first cfg dl _ safe dl' attrs HC Hs)
    as (tx & deps & Ht & Hd).
  exists (tx :: deps), (b_Transactions (bw_Batch batch)). by rewrite HP.
Qed.

End Attributes.

(** ** Examples *)

#[local] Existing Instance example_keccak.
#[local] Existing Instance example_codec.
#[local] Existing Instance example_fetcher.

(** An engine that builds the example payload and accepts everything. *)
#[local] Instance example_engine : Engine unit := {
  eng_GetPayload e _ := (e, Ok example_payload);
  eng_ForkchoiceUpdate e _ attrs :=
    (e, Ok (mkForkchoiceUpdatedResult (mkPayloadStatus ExecutionValid None None)
              (match attrs with Some _ => Some [x01] | None => None end)));
  eng_NewPayload e _ := (e, Ok (mkPayloadStatus ExecutionValid None None));
  eng_PayloadByHash e _ := (e, Ok example_payload);
  eng_PayloadByNumber e _ := (e, Ok example_payload);
  eng_L2BlockRefByLabel e _ := (e, Ok (example_l2 0));
  eng_L2BlockRefByHash e _ := (e, Ok (example_l2 0)) }.

Lemma InsertHeadBlock_inserted_witness :
  ∃ status, eng_NewPayload tt example_payload = (tt, Ok status) ∧ ps_Status status = ExecutionValid.
Proof.
  destruct (InsertHeadBlock_inserted tt (mkForkchoiceState (example_hash 2007) (example_hash 2007) zero_hash)
    example_attrs true tt example_payload) as (e1 & e2 & e3 & r & id & st & r' & _ & _ & _ & _ & _ & HN & HV & _).
  - vm_compute. reflexivity.
  - destruct e2, e3. exists st. split; assumption.
Defined.

Lemma derived_payload_sane_witness : sanityCheckPayload example_payload = Ok tt.
Proof.
  apply (derived_payload_sane example_cfg (example_info 1)
           (mkBatchWithL1 (example_l1 2) (example_batch 7)) [example_l1 1] (example_l2 7)
           (example_info 1) example_attrs).
  - vm_compute. reflexivity.
  - vm_compute. reflexivity.
  - reflexivity.
Defined.
