(* ===== verification/SyncStart.v ===== *)
(** * Finding the heads to sync from

    op-node/rollup/sync/start.go: [currentHeads] and [FindL2Heads], which walks the
    L2 chain back from the unsafe head until it finds blocks whose L1 origins are
    canonical. *)

From S2P Require Import Prelude GoErrors EthTypes.

(** [L1Chain] and [L2Chain]. *)
Class L1Chain (W : Type) := {
  l1_ByLabel : W → BlockLabel → W * result L1BlockRef;
  l1_ByNumber : W → Z → W * result L1BlockRef;
  l1_ByHash : W → Hash → W * result L1BlockRef }.
Class L2Chain (E : Type) := {
  l2_ByHash : E → Hash → E * result L2BlockRef;
  l2_ByLabel : E → BlockLabel → E * result L2BlockRef }.

Definition ReorgFinalizedErr : error := ErrorNew "cannot reorg finalized block".
Definition WrongChainErr : error := ErrorNew "wrong chain".
Definition TooDeepReorgErr : error := ErrorNew "reorg is too deep".
Definition MaxReorgSeqWindows : Z := 5.

Record FindHeadsResult := mkHeads {
  fh_Unsafe : L2BlockRef; fh_Safe : L2BlockRef; fh_Finalized : L2BlockRef }.

(** The variables of the loop of [FindL2Heads]. *)
Record walk := mkWalk {
  wk_n : L2BlockRef;                (* current L2 block *)
  wk_result : FindHeadsResult;
  wk_highest : L2BlockRef;          (* highestL2WithCanonicalL1Origin *)
  wk_l1Block : L1BlockRef;
  wk_ahead : bool }.

(** One iteration returns, fails, or goes on with the parent. *)
Inductive walk_step :=
| Found (r : FindHeadsResult)
| Failed (e : error)
| Next (w : walk)
| Crashed (msg : string).

Section FindHeads.
Context {W E : Type} `{L1Chain W} `{L2Chain E} (cfg : Config).

Definition isNotFound {A} (r : result A) : bool :=
  match r with Err e => errors_Is e ethereum_NotFound | _ => false end.

Definition currentHeads (l2 : E) : E * result FindHeadsResult :=
  let '(l2, fin) := l2_ByLabel l2 Finalized in
  let '(l2, fin) := if isNotFound fin then l2_ByHash l2 (id_Hash (gen_L2 (cfg_Genesis cfg)))
                    else (l2, fin) in
  match fin with
  | Err e => (l2, Err (Errorf "failed to find the finalized L2 block" e))
  | Panic s => (l2, Panic s)
  | Ok finalized =>
      let '(l2, sf) := l2_ByLabel l2 Safe in
      match (if isNotFound sf then Ok finalized else sf) with
      | Err e => (l2, Err (Errorf "failed to find the safe L2 block" e))
      | Panic s => (l2, Panic s)
      | Ok safe =>
          let '(l2, us) := l2_ByLabel l2 Unsafe in
          match us with
          | Err e => (l2, Err (Errorf "failed to find the L2 head block" e))
          | Panic s => (l2, Panic s)
          | Ok unsafe => (l2, Ok (mkHeads unsafe safe finalized))
          end
      end
  end.

(** Fetch L1 information for the current block if it is not at hand. *)
Definition fetchOrigin (l1 : W) (n : L2BlockRef) (l1Block : L1BlockRef) (ahead : bool)
  : W * result (L1BlockRef * bool) :=
  if bool_decide (l1Block = L1BlockRef_zero) ||
     negb (bool_decide (id_Hash (l2_L1Origin n) = l1_Hash l1Block)) then
    let '(l1, r) := l1_ByNumber l1 (id_Number (l2_L1Origin n)) in
    match r with
    | Ok b => (l1, Ok (b, false))
    | Panic s => (l1, Panic s)
    | Err e => if errors_Is e ethereum_NotFound then (l1, Ok (L1BlockRef_zero, true))
               else (l1, Err (Errorf "failed to retrieve block from L1 for comparison" e))
    end
  else (l1, Ok (l1Block, ahead)).

(** The consistency checks of the current block. *)
Definition checkBlock (n prevUnsafe finalized : L2BlockRef) (l1Block : L1BlockRef) (ahead : bool)
  : option error :=
  let gen := cfg_Genesis cfg in
  if (l2_Number n =? id_Number (gen_L2 gen)) &&
     negb (bool_decide (l2_Hash n = id_Hash (gen_L2 gen))) then
    Some (Errorf "L2: genesis mismatch" WrongChainErr)
  else if (l2_Number n =? id_Number (gen_L2 gen)) &&
          (negb ahead && negb (bool_decide (l1_Hash l1Block = id_Hash (gen_L1 gen)))) then
    Some (Errorf "L1: genesis mismatch" WrongChainErr)
  else if (l2_Number n =? l2_Number finalized) &&
          negb (bool_decide (l2_Hash n = l2_Hash finalized)) then
    Some (Errorf "finalized mismatch" ReorgFinalizedErr)
  else if (id_Number (l2_L1Origin n) ⊞ (MaxReorgSeqWindows ⊠ cfg_SeqWindowSize cfg))
          <? id_Number (l2_L1Origin prevUnsafe) then
    Some (Errorf "traversed back too deep" TooDeepReorgErr)
  else None.

(** Keep or discard the candidates for the unsafe head and the highest block with
    a canonical origin. *)
Definition judgeOrigin (n unsafe highest : L2BlockRef) (l1Block : L1BlockRef) (ahead : bool)
  : L2BlockRef * L2BlockRef :=
  let unsafe := if bool_decide (unsafe = L2BlockRef_zero) then n else unsafe in
  if ahead then (unsafe, highest)
  else if bool_decide (l1_Hash l1Block = id_Hash (l2_L1Origin n)) then
    (unsafe, if bool_decide (highest = L2BlockRef_zero) then n else highest)
  else (L2BlockRef_zero, L2BlockRef_zero).

(** The relation of the current block to its parent. *)
Definition checkParent (n parent : L2BlockRef) (l1Block : L1BlockRef) : option error :=
  if negb (bool_decide (l2_L1Origin parent = l2_L1Origin n)) then
    if negb ((id_Number (l2_L1Origin parent) ⊞ 1) =? id_Number (l2_L1Origin n)) then
      Some (ErrorNew "l2 parent has L1 origin that is not before")
    else if negb (l2_SequenceNumber n =? 0) then
      Some (ErrorNew "l2 block has parent with different L1 origin, but non-zero sequence number")
    else if bool_decide (l1_Hash l1Block = id_Hash (l2_L1Origin n)) &&
            negb (bool_decide (l1_ParentHash l1Block = id_Hash (l2_L1Origin parent))) then
      Some (ErrorNew "parent L2 block has unexpected origin")
    else None
  else if negb ((l2_SequenceNumber parent ⊞ 1) =? l2_SequenceNumber n) then
    Some (ErrorNew "sequence number inconsistency")
  else None.

(** One iteration of the loop. *)
Definition findStep (prevUnsafe : L2BlockRef) (l1 : W) (l2 : E) (w : walk) : W * E * walk_step :=
  let n := wk_n w in
  let '(l1, r) := fetchOrigin l1 n (wk_l1Block w) (wk_ahead w) in
  match r with
  | Err e => (l1, l2, Failed e)
  | Panic s => (l1, l2, Crashed s)
  | Ok (l1Block, ahead) =>
      let res := wk_result w in
      match checkBlock n prevUnsafe (fh_Finalized res) l1Block ahead with
      | Some e => (l1, l2, Failed e)
      | None =>
          let '(unsafe, highest) := judgeOrigin n (fh_Unsafe res) (wk_highest w) l1Block ahead in
          let ready :=
            (l2_Number n <=? l2_Number (fh_Safe res)) &&
            ((id_Number (l2_L1Origin n) ⊞ cfg_SeqWindowSize cfg) <? id_Number (l2_L1Origin highest)) &&
            (l2_SequenceNumber n =? 0) in
          if l2_Number n =? l2_Number (fh_Finalized res) then
            (l1, l2, Found (mkHeads unsafe n (fh_Finalized res)))
          else
            let '(l2, p) := l2_ByHash l2 (l2_ParentHash n) in
            match p with
            | Err e => (l1, l2, Failed (Errorf "failed to fetch L2 block by hash" e))
            | Panic s => (l1, l2, Crashed s)
            | Ok parent =>
                match checkParent n parent l1Block with
                | Some e => (l1, l2, Failed e)
                | None =>
                    if ready then (l1, l2, Found (mkHeads unsafe parent (fh_Finalized res)))
                    else (l1, l2, Next (mkWalk parent (mkHeads unsafe (fh_Safe res) (fh_Finalized res))
                                          highest l1Block ahead))
                end
            end
      end
  end.

(** The loop; the number of the unsafe head bounds the blocks below it. *)
Fixpoint findLoop (fuel : nat) (prevUnsafe : L2BlockRef) (l1 : W) (l2 : E) (w : walk)
  : W * E * result FindHeadsResult :=
  match findStep prevUnsafe l1 l2 w with
  | (l1, l2, Found r) => (l1, l2, Ok r)
  | (l1, l2, Failed e) => (l1, l2, Err e)
  | (l1, l2, Crashed s) => (l1, l2, Panic s)
  | (l1, l2, Next w) =>
      match fuel with
      | O => (l1, l2, Panic "out of fuel")
      | S fuel => findLoop fuel prevUnsafe l1 l2 w
      end
  end.

Definition FindL2Heads (l1 : W) (l2 : E) : W * E * result FindHeadsResult :=
  let '(l2, r) := currentHeads l2 in
  match r with
  | Err e => (l1, l2, Err (Errorf "failed to fetch current L2 forkchoice state" e))
  | Panic s => (l1, l2, Panic s)
  | Ok res =>
      let n := fh_Unsafe res in
      findLoop (Z.to_nat (l2_Number n)) n l1 l2
        (mkWalk n res L2BlockRef_zero L1BlockRef_zero false)
  end.

(** ** Termination *)

(** What the walk relies on: the chains answer or fail, and the parent of a block
    of the L2 chain has the number before it. *)
Record numbered_chain (known : L2BlockRef → Prop) : Prop := {
  nc_l1 : ∀ w k s, snd (l1_ByNumber w k) ≠ Panic s;
  nc_l2 : ∀ e h s, snd (l2_ByHash e h) ≠ Panic s;
  nc_l2_label : ∀ e l s, snd (l2_ByLabel e l) ≠ Panic s;
  nc_hash : ∀ e e' h b, l2_ByHash e h = (e', Ok b) → known b;
  nc_label : ∀ e e' l b, l2_ByLabel e l = (e', Ok b) → known b;
  nc_number : ∀ b, known b → 0 <= l2_Number b;
  nc_parent : ∀ e e' b p, known b → l2_ByHash e (l2_ParentHash b) = (e', Ok p) →
    l2_Number b = l2_Number p + 1 }.

Lemma findStep_next known prev l1 l2 w l1' l2' w' :
  numbered_chain known → known (wk_n w) →
  findStep prev l1 l2 w = (l1', l2', Next w') →
  known (wk_n w') ∧ l2_Number (wk_n w) = l2_Number (wk_n w') + 1.
Proof.
  intros Hc Hk HS. unfold findStep in HS.
  destruct (fetchOrigin l1 (wk_n w) _ _) as [l1a [[l1b ah]|e|m]]; try done.
  destruct (checkBlock _ _ _ _ _); [done|]. destruct (judgeOrigin _ _ _ _ _) as [u h].
  destruct (l2_Number (wk_n w) =? _); [done|].
  destruct (l2_ByHash l2 (l2_ParentHash (wk_n w))) as [l2a [p|e|m]] eqn:EP; try done.
  destruct (checkParent _ _ _); [done|]. destruct (_ && _); [done|]. injection HS as _ _ <-.
  cbn [wk_n]. split; [by eapply nc_hash|by eapply nc_parent].
Qed.

Lemma findStep_no_crash known prev l1 l2 w l1' l2' s :
  numbered_chain known → findStep prev l1 l2 w ≠ (l1', l2', Crashed s).
Proof.
  intros Hc HS. unfold findStep, fetchOrigin in HS.
  assert (H1 := nc_l1 _ Hc l1 (id_Number (l2_L1Origin (wk_n w)))).
  assert (H2 := nc_l2 _ Hc l2 (l2_ParentHash (wk_n w))).
  destruct (l1_ByNumber l1 _) as [l1a r1], (l2_ByHash l2 _) as [l2a r2]. cbn [snd] in *.
  repeat case_match; simplify_eq; try (by eapply H1); try (by eapply H2); done.
Qed.

Lemma findLoop_total known fuel prev l1 l2 w :
  numbered_chain known → known (wk_n w) → l2_Number (wk_n w) <= Z.of_nat fuel →
  ∀ s, snd (findLoop fuel prev l1 l2 w) ≠ Panic s.
Proof.
  intros Hc. revert l1 l2 w. induction fuel as [|fuel IH]; intros l1 l2 w Hk Hf s; cbn [findLoop];
    destruct (findStep prev l1 l2 w) as [[l1' l2'] [r|e|w'|m]] eqn:ES; try done.
  2,4: by destruct (findStep_no_crash _ _ _ _ _ _ _ _ Hc ES).
  - destruct (findStep_next _ _ _ _ _ _ _ _ Hc Hk ES) as [Hk' Hn].
    pose proof (nc_number _ Hc _ Hk'). lia.
  - destruct (findStep_next _ _ _ _ _ _ _ _ Hc Hk ES) as [Hk' Hn]. apply IH; [done|lia].
Qed.

Lemma currentHeads_known known l2 l2' r :
  numbered_chain known → currentHeads l2 = (l2', r) →
  match r with
  | Ok res => known (fh_Unsafe res) ∧ known (fh_Safe res) ∧ known (fh_Finalized res)
  | Err _ => True
  | Panic _ => False
  end.
Proof.
  intros Hc HC. unfold currentHeads in HC.
  destruct (l2_ByLabel l2 Finalized) as [l2a rf] eqn:EF.
  pose proof (nc_l2_label _ Hc l2 Finalized) as P1. rewrite EF in P1. cbn [snd] in P1.
  assert (Hfin : ∀ l2b rb, (if isNotFound rf then l2_ByHash l2a (id_Hash (gen_L2 (cfg_Genesis cfg)))
             else (l2a, rf)) = (l2b, rb) → match rb with Ok b => known b | Err _ => True | Panic _ => False end).
  { intros l2b rb Hb. destruct (isNotFound rf).
    - destruct rb as [b|e|m]; [by eapply nc_hash|done|].
      apply (nc_l2 _ Hc l2a (id_Hash (gen_L2 (cfg_Genesis cfg))) m). by rewrite Hb.
    - injection Hb as <- <-. destruct rf as [b|e|m]; [by eapply nc_label|done|by apply (P1 m)]. }
  destruct (if isNotFound rf then _ else _) as [l2b rb]. specialize (Hfin _ _ eq_refl).
  destruct rb as [fin|e|m]; [|by injection HC as <- <-|done].
  destruct (l2_ByLabel l2b Safe) as [l2c rs] eqn:ES.
  pose proof (nc_l2_label _ Hc l2b Safe) as P2. rewrite ES in P2. cbn [snd] in P2.
  assert (Hsafe : match (if isNotFound rs then Ok fin else rs) with
                  | Ok b => known b | Err _ => True | Panic _ => False end).
  { destruct (isNotFound rs); [done|]. destruct rs as [b|e|m]; [by eapply nc_label|done|by apply (P2 m)]. }
  destruct (if isNotFound rs then _ else _) as [safe|e|m]; [|by injection HC as <- <-|done].
  destruct (l2_ByLabel l2c Unsafe) as [l2d ru] eqn:EU.
  pose proof (nc_l2_label _ Hc l2c Unsafe) as P3. rewrite EU in P3. cbn [snd] in P3.
  destruct ru as [us|e|m]; injection HC as <- <-; [|done|by apply (P3 m)].
  split_and!; [by eapply nc_label|done|done].
Qed.

(** C28. On an L2 chain whose blocks are numbered consecutively [FindL2Heads]
    always ends, with heads or with an error: the walk back from the unsafe head
    cannot run forever. *)
Theorem FindL2Heads_terminates known l1 l2 :
  numbered_chain known → ∀ s, snd (FindL2Heads l1 l2) ≠ Panic s.
Proof.
  intros Hc s. unfold FindL2Heads. destruct (currentHeads l2) as [l2' r] eqn:EC.
  pose proof (currentHeads_known _ _ _ _ Hc EC) as Hk.
  destruct r as [res|e|m]; [|done|done]. destruct Hk as (Hu & _).
  apply (findLoop_total known); [done|done|]. pose proof (nc_number _ Hc _ Hu). cbn. lia.
Qed.

(** ** What the heads mean *)

(** A fixed view of both chains during the walk. *)
Context (l1_at : Z → result L1BlockRef) (l2_at : Hash → result L2BlockRef).

Record fixed_view : Prop := {
  fv_l1 : ∀ w k, snd (l1_ByNumber w k) = l1_at k;
  fv_l2 : ∀ e h, snd (l2_ByHash e h) = l2_at h }.

(** The L1 origin of a block is on the canonical L1 chain, or ahead of it. *)
Definition canonical (n : L2BlockRef) : Prop :=
  ∃ k b, l1_at k = Ok b ∧ l1_Hash b = id_Hash (l2_L1Origin n).
Definition plausible (n : L2BlockRef) : Prop :=
  canonical n ∨ isNotFound (l1_at (id_Number (l2_L1Origin n))) = true.

(** [y] is [x] or an ancestor of it, and every block from [x] to [y] is plausible. *)
Definition plausible_chain (x y : L2BlockRef) : Prop :=
  plausible x ∧ rtc (λ a b, l2_at (l2_ParentHash a) = Ok b ∧ plausible b) x y.

(** The fetched L1 block belongs to the view. *)
Definition l1_info_ok (n : L2BlockRef) (l1Block : L1BlockRef) (ahead : bool) : Prop :=
  if ahead then isNotFound (l1_at (id_Number (l2_L1Origin n))) = true
  else ∃ k, l1_at k = Ok l1Block.

(** Before an iteration: the candidate's chain leads to the current block. *)
Definition walk_inv (w : walk) : Prop :=
  (wk_l1Block w = L1BlockRef_zero ∨ (wk_ahead w = false ∧ ∃ k, l1_at k = Ok (wk_l1Block w))) ∧
  (fh_Unsafe (wk_result w) = L2BlockRef_zero → wk_highest w = L2BlockRef_zero) ∧
  (fh_Unsafe (wk_result w) = L2BlockRef_zero ∨ fh_Unsafe (wk_result w) = wk_n w ∨
   ∃ m, plausible_chain (fh_Unsafe (wk_result w)) m ∧ l2_at (l2_ParentHash m) = Ok (wk_n w)) ∧
  (wk_highest w = L2BlockRef_zero ∨ canonical (wk_highest w)).

Lemma fetchOrigin_ok l1 n lb ah l1' lb' ah' :
  fixed_view → (lb = L1BlockRef_zero ∨ (ah = false ∧ ∃ k, l1_at k = Ok lb)) →
  fetchOrigin l1 n lb ah = (l1', Ok (lb', ah')) →
  l1_info_ok n lb' ah' ∧
  (lb' = L1BlockRef_zero ∨ (ah' = false ∧ ∃ k, l1_at k = Ok lb')).
Proof.
  intros Hv Hl HF. unfold fetchOrigin in HF.
  destruct (bool_decide (lb = L1BlockRef_zero) || _) eqn:Ec.
  - pose proof (fv_l1 Hv l1 (id_Number (l2_L1Origin n))) as Hf.
    destruct (l1_ByNumber l1 _) as [l1a r]. cbn [snd] in Hf.
    destruct r as [b|e|m]; [|destruct (errors_Is e ethereum_NotFound) eqn:Ee|]; try done.
    + injection HF as <- <- <-. split; [by eexists|]. right. split; [done|by eexists].
    + injection HF as <- <- <-. split; [|by left]. unfold l1_info_ok. by rewrite <- Hf.
  - bool_props. injection HF as <- <- <-. destruct Hl as [?|[-> Hk]]; [done|].
    split; [done|by right].
Qed.

Lemma judgeOrigin_ok n u h lb ah u' h' :
  l1_info_ok n lb ah → judgeOrigin n u h lb ah = (u', h') →
  (u = L2BlockRef_zero ∨ u = n ∨ ∃ m, plausible_chain u m ∧ l2_at (l2_ParentHash m) = Ok n) →
  (u = L2BlockRef_zero → h = L2BlockRef_zero) → (h = L2BlockRef_zero ∨ canonical h) →
  (u' = L2BlockRef_zero ∨ plausible_chain u' n) ∧
  (u' = L2BlockRef_zero → h' = L2BlockRef_zero) ∧ (h' = L2BlockRef_zero ∨ canonical h').
Proof.
  intros Hi HJ Hu Huh Hh. unfold judgeOrigin in HJ.
  set (u0 := if bool_decide (u = L2BlockRef_zero) then n else u) in HJ.
  assert (Hu0 : plausible n → u0 = L2BlockRef_zero ∨ plausible_chain u0 n).
  { intros Hp. subst u0. case_bool_decide as Ez; [right; by split; [|apply rtc_refl]|].
    destruct Hu as [?|[->|(m & [Hpu Hm] & Hpar)]]; [done|right; by split; [|apply rtc_refl]|].
    right. split; [done|]. eapply rtc_r; [exact Hm|done]. }
  assert (Hz : u0 = L2BlockRef_zero → h = L2BlockRef_zero ∧ n = L2BlockRef_zero ∨ u = L2BlockRef_zero).
  { subst u0. case_bool_decide; [by right|]. done. }
  destruct ah; cbn [l1_info_ok] in Hi.
  - injection HJ as <- <-. split; [apply Hu0; by right|]. split; [|done].
    intros Ez0. destruct (Hz Ez0) as [[? _]|?]; [done|by apply Huh].
  - destruct Hi as (k & Hk). case_bool_decide as Eh; injection HJ as <- <-; [|split; [by left|split; [done|by left]]].
    assert (Hcan : canonical n) by (by exists k, lb).
    split; [apply Hu0; by left|]. case_bool_decide as Ehz; [|split; [|done]].
    + split; [|by right]. intros Ez0. subst u0. case_bool_decide; [done|]. done.
    + intros Ez0. destruct (Hz Ez0) as [[? _]|?]; [done|by apply Huh].
Qed.

(** What the returned heads satisfy: the finalized head is the engine's; the safe
    head is the finalized block itself, or the parent of a block at sequence
    number 0 below the old safe head whose whole sequencing window is confirmed by
    a canonical block; and the chain from the unsafe head down to there is
    plausible throughout. *)
Definition heads_ok (cur res : FindHeadsResult) : Prop :=
  fh_Finalized res = fh_Finalized cur ∧
  ((l2_Number (fh_Safe res) = l2_Number (fh_Finalized cur) ∧
    l2_Hash (fh_Safe res) = l2_Hash (fh_Finalized cur) ∧
    (fh_Unsafe res = L2BlockRef_zero ∨ plausible_chain (fh_Unsafe res) (fh_Safe res))) ∨
   (∃ n hi, l2_at (l2_ParentHash n) = Ok (fh_Safe res) ∧ l2_SequenceNumber n = 0 ∧
      l2_Number n <= l2_Number (fh_Safe cur) ∧ canonical hi ∧
      id_Number (l2_L1Origin n) ⊞ cfg_SeqWindowSize cfg < id_Number (l2_L1Origin hi) ∧
      fh_Unsafe res ≠ L2BlockRef_zero ∧ plausible_chain (fh_Unsafe res) n)).

Lemma findStep_ok cur prev l1 l2 w l1' l2' st :
  fixed_view → walk_inv w → fh_Finalized (wk_result w) = fh_Finalized cur →
  fh_Safe (wk_result w) = fh_Safe cur → findStep prev l1 l2 w = (l1', l2', st) →
  match st with
  | Found r => heads_ok cur r
  | Next w' => walk_inv w' ∧ fh_Finalized (wk_result w') = fh_Finalized cur ∧
               fh_Safe (wk_result w') = fh_Safe cur
  | _ => True
  end.
Proof.
  intros Hv (Hl & Huh & Hu & Hh) Hfin Hsafe HS. unfold findStep in HS.
  destruct (fetchOrigin l1 (wk_n w) _ _) as [l1a [[lb ah]|e|m]] eqn:EF;
    [|by injection HS as _ _ <-|by injection HS as _ _ <-].
  destruct (fetchOrigin_ok _ _ _ _ _ _ _ Hv Hl EF) as [Hi Hl'].
  destruct (checkBlock _ _ _ _ _) as [e|] eqn:EC; [by injection HS as _ _ <-|].
  destruct (judgeOrigin _ _ _ _ _) as [u h] eqn:EJ.
  destruct (judgeOrigin_ok _ _ _ _ _ _ _ Hi EJ Hu Huh Hh) as (Hu' & Huh' & Hh').
  rewrite Hfin, Hsafe in *.
  destruct (Z.eqb_spec (l2_Number (wk_n w)) (l2_Number (fh_Finalized cur))) as [En|Hn].
  { injection HS as _ _ <-. split; [done|]. left. split; [done|]. split; [|done].
    unfold checkBlock in EC. rewrite En, Z.eqb_refl in EC. cbn [andb] in EC.
    destruct (bool_decide (l2_Hash (wk_n w) = l2_Hash (fh_Finalized cur))) eqn:Eh; [by bool_props|].
    cbn [negb] in EC. repeat (case_match; [done|]). done. }
  pose proof (fv_l2 Hv l2 (l2_ParentHash (wk_n w))) as HP.
  destruct (l2_ByHash l2 _) as [l2a [p|e|m]]; [|by injection HS as _ _ <-|by injection HS as _ _ <-].
  cbn [snd] in HP. destruct (checkParent _ _ _); [by injection HS as _ _ <-|].
  destruct (_ && _ && _) eqn:Er; injection HS as _ _ <-.
  - bool_props. split; [done|]. right. exists (wk_n w), h.
    assert (Hhz : h ≠ L2BlockRef_zero).
    { intros ->. cbn in *. pose proof (u64_range (id_Number (l2_L1Origin (wk_n w)) + cfg_SeqWindowSize cfg)) as [? _].
      lia. }
    assert (Huz : u ≠ L2BlockRef_zero) by auto.
    cbn [fh_Safe fh_Unsafe]. split_and!; try done.
    + by destruct Hh'.
    + by destruct Hu'.
  - split; [|done]. split_and!; [exact Hl'|exact Huh'| |exact Hh'].
    destruct Hu' as [->|Hu']; [by left|]. right. right. by exists (wk_n w).
Qed.

Lemma findLoop_ok cur fuel prev l1 l2 w l1' l2' res :
  fixed_view → walk_inv w → fh_Finalized (wk_result w) = fh_Finalized cur →
  fh_Safe (wk_result w) = fh_Safe cur → findLoop fuel prev l1 l2 w = (l1', l2', Ok res) →
  heads_ok cur res.
Proof.
  intros Hv. revert l1 l2 w. induction fuel as [|fuel IH]; intros l1 l2 w Hi Hf Hs HL;
    cbn [findLoop] in HL; destruct (findStep prev l1 l2 w) as [[l1a l2a] st] eqn:ES;
    pose proof (findStep_ok cur _ _ _ _ _ _ _ Hv Hi Hf Hs ES) as Hst;
    destruct st as [r|e|w'|m]; try done; try (by injection HL as _ _ <-).
  destruct Hst as (Hi' & Hf' & Hs'). by eapply IH.
Qed.

(** The heads [FindL2Heads] returns: the finalized head is kept, the safe head
    is either the finalized block or a block whose sequencing window is
    completely confirmed by the canonical L1 chain, and unless the walk discarded
    every candidate, every block from the unsafe head down to there has an L1
    origin that is canonical or not yet known to L1. *)
Theorem FindL2Heads_heads l1 l2 l1' l2' l2a cur res :
  fixed_view → currentHeads l2 = (l2a, Ok cur) →
  FindL2Heads l1 l2 = (l1', l2', Ok res) → heads_ok cur res.
Proof.
  intros Hv HC HF. unfold FindL2Heads in HF. rewrite HC in HF.
  eapply findLoop_ok; [done| | | |exact HF]; [|done|done].
  split; [by left|]. split; [done|]. split; [right; by left|by left].
Qed.

End FindHeads.

(** ** Examples *)

(** The example L2 chain up to block 20, with block 14 safe and block 3 finalized;
    the state is not used. *)
Definition example_l2_at (h : Hash) : result L2BlockRef :=
  let n := be_decode h - 2000 in
  if (0 <=? n) && (n <=? 20) then Ok (example_l2 n) else Err ethereum_NotFound.

Definition example_label (l : BlockLabel) : L2BlockRef :=
  match l with Unsafe => example_l2 20 | Safe => example_l2 14 | Finalized => example_l2 3 end.

#[local] Instance example_l2_chain : L2Chain unit := {
  l2_ByHash e h := (e, example_l2_at h);
  l2_ByLabel e l := (e, Ok (example_label l)) }.

(** An L1 chain up to block 2; [off] distinguishes two forks of it. *)
Definition example_l1_at (off k : Z) : result L1BlockRef :=
  if k <=? 2 then
    Ok (mkL1BlockRef (example_hash (off + k)) k (example_hash (off + k - 1)) (12 * k))
  else Err ethereum_NotFound.

#[local] Instance example_l1_chain : L1Chain Z := {
  l1_ByLabel w _ := (w, example_l1_at w 2);
  l1_ByNumber w k := (w, example_l1_at w k);
  l1_ByHash w h := (w, Err ethereum_NotFound) }.

Definition example_known (b : L2BlockRef) : Prop := ∃ n, 0 <= n <= 20 ∧ b = example_l2 n.

Lemma example_l2_at_known h b : example_l2_at h = Ok b → example_known b.
Proof.
  unfold example_l2_at. intros HB. destruct (_ && _) eqn:Ec; [|done]. bool_props.
  injection HB as <-. eexists. split; [|done]. lia.
Qed.

Lemma example_numbered : @numbered_chain Z unit _ _ example_known.
Proof.
  split.
  - intros w k s. cbn. unfold example_l1_at. by case_match.
  - intros e h s. cbn. unfold example_l2_at. by case_match.
  - intros e l s. done.
  - intros e e' h b [= _ HB]. by apply example_l2_at_known in HB.
  - intros e e' l b [= _ <-]. destruct l; eexists; (split; [|reflexivity]); lia.
  - intros b (n & Hn & ->). cbn. lia.
  - intros e e' b p (n & Hn & ->) [= _ HP]. unfold example_l2_at in HP.
    cbn [l2_ParentHash example_l2] in HP. unfold example_hash in HP.
    rewrite be_decode_encode_small in HP by (change (256 ^ Z.of_nat 32) with (2 ^ 256); lia).
    destruct (_ && _) eqn:Ec; [|done]. injection HP as <-. cbn [example_l2 l2_Number]. lia.
Qed.

Lemma FindL2Heads_terminates_witness :
  snd (FindL2Heads example_cfg 1000 tt) ≠ Panic "out of fuel".
Proof. apply (FindL2Heads_terminates example_cfg example_known). apply example_numbered. Defined.

#[local] Instance fixed_l1_chain : L1Chain unit := {
  l1_ByLabel w _ := (w, example_l1_at 1000 2);
  l1_ByNumber w k := (w, example_l1_at 1000 k);
  l1_ByHash w h := (w, Err ethereum_NotFound) }.

Lemma FindL2Heads_heads_witness :
  heads_ok example_cfg (example_l1_at 1000) example_l2_at
    (mkHeads (example_l2 20) (example_l2 14) (example_l2 3))
    (mkHeads (example_l2 20) (example_l2 3) (example_l2 3)).
Proof.
  apply (FindL2Heads_heads (W := unit) (E := unit) example_cfg (example_l1_at 1000) example_l2_at
           tt tt tt tt tt).
  - split; reflexivity.
  - vm_compute. reflexivity.
  - vm_compute. reflexivity.
Defined.

(** When the L1 origin of the finalized block itself is not canonical, the walk
    ends there after discarding its last candidate: [FindL2Heads] then succeeds
    with the zero block as unsafe head, so that the unsafe head it hands to the
    engine queue is below the safe head. *)
Theorem FindL2Heads_zero_unsafe :
  snd (FindL2Heads example_cfg 5000 tt) = Ok (mkHeads L2BlockRef_zero (example_l2 3) (example_l2 3)).
Proof. vm_compute. reflexivity. Qed.
