(* ===== verification/EngineQueue.v ===== *)
(** * The engine queue

    op-node/rollup/derive/engine_queue.go: the last stage of the pipeline.  It
    buffers derived attributes and unsafe payloads, applies them to the execution
    engine, and tracks the unsafe, safe and finalized L2 heads. *)

From Stdlib Require Import Sorted.
From S2P Require Import Prelude GoErrors EthTypes Extern L1Info Batch BatchQueue Deposits.
From S2P Require Import Attributes PayloadsQueue EngineUpdate SyncStart.

(** [NextAttributesProvider] *)
Class NextAttributesProvider (A : Type) := {
  ap_NextAttributes : A → L2BlockRef → A * result PayloadAttributes;
  ap_Origin : A → L1BlockRef }.

Definition maxUnsafePayloadsMemory : Z := 500 * 1024 * 1024.
Definition finalityLookback : nat := 4 * 32 + 1.

Record FinalityData := mkFinalityData { fd_L2Block : L2BlockRef; fd_L1Block : BlockID }.

(** ** State *)

Record EngineQueue (E A : Type) := mkEngineQueue {
  eq_finalized : L2BlockRef;
  eq_safeHead : L2BlockRef;
  eq_unsafeHead : L2BlockRef;
  eq_finalizedL1 : BlockID;
  eq_safeAttributes : list PayloadAttributes;
  eq_unsafePayloads : PayloadsQueue;
  eq_finalityData : list FinalityData;
  eq_engine : E;
  eq_prev : A;
  eq_progress : Progress }.
Arguments mkEngineQueue {E A} _ _ _ _ _ _ _ _ _ _.
Arguments eq_finalized {E A} _.
Arguments eq_safeHead {E A} _.
Arguments eq_unsafeHead {E A} _.
Arguments eq_finalizedL1 {E A} _.
Arguments eq_safeAttributes {E A} _.
Arguments eq_unsafePayloads {E A} _.
Arguments eq_finalityData {E A} _.
Arguments eq_engine {E A} _.
Arguments eq_prev {E A} _.
Arguments eq_progress {E A} _.

Section EngineQueue.
Context {E A : Type} `{Engine E} `{NextAttributesProvider A} `{TxCodec} (cfg : Config).

Notation EQ := (EngineQueue E A).

Definition NewEngineQueue (engine : E) (prev : A) : EQ :=
  mkEngineQueue L2BlockRef_zero L2BlockRef_zero L2BlockRef_zero BlockID_zero []
    (mkPayloadsQueue [] 0 maxUnsafePayloadsMemory) [] engine prev
    (mkProgress L1BlockRef_zero false).

(** Field updates. *)
Definition set_heads (fin safe unsafe : L2BlockRef) (eq : EQ) : EQ :=
  mkEngineQueue fin safe unsafe (eq_finalizedL1 eq) (eq_safeAttributes eq) (eq_unsafePayloads eq)
    (eq_finalityData eq) (eq_engine eq) (eq_prev eq) (eq_progress eq).
Definition set_safeAttributes (l : list PayloadAttributes) (eq : EQ) : EQ :=
  mkEngineQueue (eq_finalized eq) (eq_safeHead eq) (eq_unsafeHead eq) (eq_finalizedL1 eq) l
    (eq_unsafePayloads eq) (eq_finalityData eq) (eq_engine eq) (eq_prev eq) (eq_progress eq).
Definition set_unsafePayloads (q : PayloadsQueue) (eq : EQ) : EQ :=
  mkEngineQueue (eq_finalized eq) (eq_safeHead eq) (eq_unsafeHead eq) (eq_finalizedL1 eq)
    (eq_safeAttributes eq) q (eq_finalityData eq) (eq_engine eq) (eq_prev eq) (eq_progress eq).
Definition set_finalityData (l : list FinalityData) (eq : EQ) : EQ :=
  mkEngineQueue (eq_finalized eq) (eq_safeHead eq) (eq_unsafeHead eq) (eq_finalizedL1 eq)
    (eq_safeAttributes eq) (eq_unsafePayloads eq) l (eq_engine eq) (eq_prev eq) (eq_progress eq).
Definition set_engine (e : E) (eq : EQ) : EQ :=
  mkEngineQueue (eq_finalized eq) (eq_safeHead eq) (eq_unsafeHead eq) (eq_finalizedL1 eq)
    (eq_safeAttributes eq) (eq_unsafePayloads eq) (eq_finalityData eq) e (eq_prev eq) (eq_progress eq).
Definition set_eqprev (p : A) (eq : EQ) : EQ :=
  mkEngineQueue (eq_finalized eq) (eq_safeHead eq) (eq_unsafeHead eq) (eq_finalizedL1 eq)
    (eq_safeAttributes eq) (eq_unsafePayloads eq) (eq_finalityData eq) (eq_engine eq) p (eq_progress eq).
Definition set_finalizedL1 (b : BlockID) (eq : EQ) : EQ :=
  mkEngineQueue (eq_finalized eq) (eq_safeHead eq) (eq_unsafeHead eq) b
    (eq_safeAttributes eq) (eq_unsafePayloads eq) (eq_finalityData eq) (eq_engine eq) (eq_prev eq)
    (eq_progress eq).
Definition set_progress (p : Progress) (eq : EQ) : EQ :=
  mkEngineQueue (eq_finalized eq) (eq_safeHead eq) (eq_unsafeHead eq) (eq_finalizedL1 eq)
    (eq_safeAttributes eq) (eq_unsafePayloads eq) (eq_finalityData eq) (eq_engine eq) (eq_prev eq) p.

(** ** Inputs from outside *)

Definition SetUnsafeHead (head : L2BlockRef) (eq : EQ) : EQ :=
  set_heads (eq_finalized eq) (eq_safeHead eq) head eq.

(** The error of [Push] is only logged; so is the payload peeked at. *)
Definition AddUnsafePayload (payload : option ExecutionPayload) (eq : EQ) : EQ :=
  match payload with
  | None => eq
  | Some p => set_unsafePayloads (fst (upq_Push size_of (eq_unsafePayloads eq) (Some p))) eq
  end.

Definition AddSafeAttributes (attributes : PayloadAttributes) (eq : EQ) : EQ :=
  set_safeAttributes (eq_safeAttributes eq ++ [attributes]) eq.

(** ** Finality *)

Definition tryFinalizeL2 (eq : EQ) : EQ :=
  if bool_decide (eq_finalizedL1 eq = BlockID_zero) then eq
  else
    let finalizedL2 :=
      fold_left (λ fin fd,
        if (l2_Number fin <? l2_Number (fd_L2Block fd)) &&
           (id_Number (fd_L1Block fd) <=? id_Number (eq_finalizedL1 eq))
        then fd_L2Block fd else fin) (eq_finalityData eq) (eq_finalized eq) in
    set_heads finalizedL2 (eq_safeHead eq) (eq_unsafeHead eq) eq.

Definition Finalize (l1Origin : BlockID) (eq : EQ) : EQ :=
  tryFinalizeL2 (set_finalizedL1 l1Origin eq).

Definition postProcessSafeL2 (eq : EQ) : EQ :=
  let data := eq_finalityData eq in
  let data := if (finalityLookback <=? length data)%nat then slice 1 finalityLookback data else data in
  let data :=
    match last data with
    | Some fd =>
        if id_Number (fd_L1Block fd) <? l1_Number (ap_Origin (eq_prev eq)) then
          data ++ [mkFinalityData (eq_safeHead eq) (L1BlockRef_ID (ap_Origin (eq_prev eq)))]
        else <[(length data - 1)%nat := mkFinalityData (eq_safeHead eq) (fd_L1Block fd)]> data
    | None => data ++ [mkFinalityData (eq_safeHead eq) (L1BlockRef_ID (ap_Origin (eq_prev eq)))]
    end in
  set_finalityData data eq.

Definition LastL2Time (eq : EQ) : Z :=
  match last (eq_safeAttributes eq) with
  | None => l2_Time (eq_safeHead eq)
  | Some a => pa_Timestamp a
  end.

(** ** Unsafe payloads *)

Definition popUnsafe (eq : EQ) : EQ :=
  set_unsafePayloads (fst (upq_Pop (eq_unsafePayloads eq))) eq.

Definition status_error (e : option error) : error := default (ErrorNew "no error") e.

(** The engine part of [tryNextUnsafePayload]. *)
Definition applyUnsafePayload (first : ExecutionPayload) (ref : L2BlockRef) (eq : EQ)
  : EQ * result unit :=
  let '(eng, r) := eng_NewPayload (eq_engine eq) first in
  let eq := set_engine eng eq in
  match r with
  | Err e => (eq, Err (NewTemporaryError (Errorf "failed to update insert payload" e)))
  | Panic s => (eq, Panic s)
  | Ok status =>
      if negb (bool_decide (ps_Status status = ExecutionValid)) then
        (popUnsafe eq, Err (NewTemporaryError (Errorf "cannot process unsafe payload"
                              (status_error (NewPayloadErr status)))))
      else
        let fc := mkForkchoiceState (ep_BlockHash first) (l2_Hash (eq_safeHead eq))
                    (l2_Hash (eq_finalized eq)) in
        let '(eng, r) := eng_ForkchoiceUpdate (eq_engine eq) fc None in
        let eq := set_engine eng eq in
        match r with
        | Err e =>
            (eq, Err (match as_input_error e with
                      | Some (code, inner) =>
                          if code =? InvalidForkchoiceState then
                            NewResetError (Errorf "pre-unsafe-block forkchoice update was inconsistent with engine" inner)
                          else NewTemporaryError (Errorf "unexpected error code in forkchoice-updated response" e)
                      | None => NewTemporaryError (Errorf "failed to update forkchoice to prepare for new unsafe payload" e)
                      end))
        | Panic s => (eq, Panic s)
        | Ok fcRes =>
            if negb (bool_decide (ps_Status (fcr_PayloadStatus fcRes) = ExecutionValid)) then
              (popUnsafe eq, Err (NewTemporaryError (Errorf "cannot prepare unsafe chain for new payload"
                 (status_error (ForkchoiceUpdateErr (fcr_PayloadStatus fcRes))))))
            else (popUnsafe (set_heads (eq_finalized eq) (eq_safeHead eq) ref eq), Ok tt)
        end
  end.

Definition tryNextUnsafePayload (eq : EQ) : EQ * result unit :=
  match upq_Peek (eq_unsafePayloads eq) with
  | None => (eq, Panic "nil pointer dereference")
  | Some first =>
      if ep_BlockNumber first <=? l2_Number (eq_safeHead eq) then (popUnsafe eq, Ok tt)
      else if negb (bool_decide (ep_ParentHash first = l2_Hash (eq_unsafeHead eq))) then
        (if ep_BlockNumber first =? (l2_Number (eq_unsafeHead eq) ⊞ 1) then popUnsafe eq else eq,
         Err io_EOF)
      else
        match PayloadToBlockRef first (cfg_Genesis cfg) with
        | Err _ => (popUnsafe eq, Ok tt)
        | Panic s => (eq, Panic s)
        | Ok ref => applyUnsafePayload first ref eq
        end
  end.

(** ** Safe attributes *)

(** What happens when inserting the attributes failed. *)
Definition insertionFailed (typ : BlockInsertionErrType) (err : error) (attrs : PayloadAttributes)
    (rest : list PayloadAttributes) (eq : EQ) : EQ * result unit :=
  match typ with
  | BlockInsertTemporaryErr =>
      (eq, Err (NewTemporaryError (Errorf "temporarily cannot insert new safe block" err)))
  | BlockInsertPrestateErr =>
      (eq, Err (NewResetError (Errorf "need reset to resolve pre-state problem" err)))
  | BlockInsertPayloadErr =>
      let deposits := filter (λ tx : bytes, head tx = Some DepositTxType) (pa_Transactions attrs) in
      if (length deposits <? length (pa_Transactions attrs))%nat then
        (set_safeAttributes
           (mkPayloadAttributes (pa_Timestamp attrs) (pa_PrevRandao attrs)
              (pa_SuggestedFeeRecipient attrs) deposits (pa_NoTxPool attrs) :: rest) eq, Ok tt)
      else (eq, Err (NewCriticalError (Errorf "failed to process block with only deposit transactions" err)))
  | BlockInsertOK => (eq, Err (NewCriticalError (Errorf "unknown InsertHeadBlock error type" err)))
  end.

Definition forceNextSafeAttributes (eq : EQ) : EQ * result unit :=
  match eq_safeAttributes eq with
  | [] => (eq, Ok tt)
  | attrs :: rest =>
      let fc := mkForkchoiceState (l2_Hash (eq_safeHead eq)) (l2_Hash (eq_safeHead eq))
                  (l2_Hash (eq_finalized eq)) in
      let '(eng, r) := InsertHeadBlock (eq_engine eq) fc attrs true in
      let eq := set_engine eng eq in
      match r with
      | InsertPanic s => (eq, Panic s)
      | NotInserted typ err => insertionFailed typ (status_error err) attrs rest eq
      | Inserted payload =>
          match PayloadToBlockRef payload (cfg_Genesis cfg) with
          | Err e => (eq, Err (NewTemporaryError (Errorf "failed to decode L2 block ref from payload" e)))
          | Panic s => (eq, Panic s)
          | Ok ref =>
              (postProcessSafeL2 (set_safeAttributes rest (set_heads (eq_finalized eq) ref ref eq)), Ok tt)
          end
      end
  end.

Definition consolidateNextSafeAttributes (eq : EQ) : EQ * result unit :=
  let '(eng, r) := eng_PayloadByNumber (eq_engine eq) (l2_Number (eq_safeHead eq) ⊞ 1) in
  let eq := set_engine eng eq in
  match r with
  | Panic s => (eq, Panic s)
  | Err e =>
      (eq, Err (if errors_Is e ethereum_NotFound
                then NewResetError (Errorf "expected engine was synced and had unsafe block to reconcile" e)
                else NewTemporaryError (Errorf "failed to get existing unsafe payload" e)))
  | Ok payload =>
      match eq_safeAttributes eq with
      | [] => (eq, Panic "index out of range")
      | attrs :: rest =>
          match AttributesMatchBlock attrs (l2_Hash (eq_safeHead eq)) payload with
          | Some _ => forceNextSafeAttributes eq
          | None =>
              match PayloadToBlockRef payload (cfg_Genesis cfg) with
              | Err e => (eq, Err (NewResetError (Errorf "failed to decode L2 block ref from payload" e)))
              | Panic s => (eq, Panic s)
              | Ok ref =>
                  (postProcessSafeL2 (set_safeAttributes rest
                     (set_heads (eq_finalized eq) ref (eq_unsafeHead eq) eq)), Ok tt)
              end
          end
      end
  end.

Definition tryNextSafeAttributes (eq : EQ) : EQ * result unit :=
  if l2_Number (eq_safeHead eq) <? l2_Number (eq_unsafeHead eq) then consolidateNextSafeAttributes eq
  else if l2_Number (eq_safeHead eq) =? l2_Number (eq_unsafeHead eq) then forceNextSafeAttributes eq
  else (set_heads (eq_finalized eq) (eq_safeHead eq) (eq_safeHead eq) eq, Ok tt).

(** ** [Step] *)

Definition EngineQueue_Step (eq : EQ) : EQ * result unit :=
  match eq_safeAttributes eq with
  | _ :: _ => tryNextSafeAttributes eq
  | [] =>
      let '(prev, r) := ap_NextAttributes (eq_prev eq) (eq_safeHead eq) in
      let eq := set_eqprev prev eq in
      match r with
      | Ok next => (set_safeAttributes [next] eq, Err NotEnoughData)
      | Panic s => (eq, Panic s)
      | Err e =>
          if bool_decide (e = io_EOF) then
            if 0 <? upq_Len (eq_unsafePayloads eq) then tryNextUnsafePayload eq
            else (eq, Err io_EOF)
          else (eq, Err e)
      end
  end.

(** ** [ResetStep] *)

Context {W : Type} `{L1Chain W} `{L2Chain E}.

Definition ResetStep (l1 : W) (eq : EQ) : W * EQ * result unit :=
  let '(l1, eng, r) := FindL2Heads cfg l1 (eq_engine eq) in
  let eq := set_engine eng eq in
  match r with
  | Panic s => (l1, eq, Panic s)
  | Err e => (l1, eq, Err (NewTemporaryError (Errorf "failed to find the L2 Heads to start from" e)))
  | Ok heads =>
      let safe := fh_Safe heads in
      let '(l1, r) := l1_ByHash l1 (id_Hash (l2_L1Origin safe)) in
      match r with
      | Panic s => (l1, eq, Panic s)
      | Err e => (l1, eq, Err (NewTemporaryError (Errorf "failed to fetch the new L1 progress" e)))
      | Ok l1Origin =>
          if l2_Time safe <? l1_Time l1Origin then
            (l1, eq, Err (NewResetError (ErrorNew
               "cannot reset block derivation to start at L2 block older than its L1 origin")))
          else
            let pipelineNumber :=
              if l1_Number l1Origin <? cfg_ChannelTimeout cfg then 0
              else l1_Number l1Origin ⊟ cfg_ChannelTimeout cfg in
            let '(l1, r) := l1_ByNumber l1 pipelineNumber in
            match r with
            | Panic s => (l1, eq, Panic s)
            | Err e => (l1, eq, Err (NewTemporaryError (Errorf "failed to fetch the new L1 progress" e)))
            | Ok pipelineOrigin =>
                (l1,
                 set_progress (mkProgress pipelineOrigin false)
                   (set_finalityData []
                      (set_heads (fh_Finalized heads) safe (fh_Unsafe heads) eq)),
                 Err io_EOF)
            end
      end
  end.

(** ** How a step moves the heads *)

Ltac step_cases :=
  repeat match goal with
         | H : context [match ?x with _ => _ end] |- _ =>
             lazymatch x with context [match _ with _ => _ end] => fail | _ => idtac end;
             destruct x eqn:?; try done
         end.

Ltac kept := simplify_eq; split; [by split|by left].

(** The forkchoice the forced insertion starts from: the safe head is the head. *)
Definition safe_forkchoice (eq : EQ) : ForkchoiceState :=
  mkForkchoiceState (l2_Hash (eq_safeHead eq)) (l2_Hash (eq_safeHead eq)) (l2_Hash (eq_finalized eq)).

(** [eq'] is [eq] with the safe head moved to the block of [payload], which was
    either found in the unsafe chain or inserted by the engine on top of the old
    safe head. *)
Definition advanced (eq eq' : EQ) (attrs : PayloadAttributes) (payload : ExecutionPayload) : Prop :=
  eq_safeAttributes eq = attrs :: eq_safeAttributes eq' ∧
  PayloadToBlockRef payload (cfg_Genesis cfg) = Ok (eq_safeHead eq') ∧
  eq_finalityData eq' = eq_finalityData (postProcessSafeL2 (set_finalityData (eq_finalityData eq) eq')) ∧
  ((l2_Number (eq_safeHead eq) < l2_Number (eq_unsafeHead eq) ∧
    eng_PayloadByNumber (eq_engine eq) (l2_Number (eq_safeHead eq) ⊞ 1) = (eq_engine eq', Ok payload) ∧
    AttributesMatchBlock attrs (l2_Hash (eq_safeHead eq)) payload = None ∧
    eq_unsafeHead eq' = eq_unsafeHead eq) ∨
   (∃ eng, InsertHeadBlock eng (safe_forkchoice eq) attrs true = (eq_engine eq', Inserted payload)) ∧
   eq_unsafeHead eq' = eq_safeHead eq').

Definition safe_kept (eq eq' : EQ) : Prop :=
  eq_safeHead eq' = eq_safeHead eq ∧ eq_finalityData eq' = eq_finalityData eq.

Lemma forceNextSafeAttributes_cases eq eq' r :
  forceNextSafeAttributes eq = (eq', r) →
  (safe_kept eq eq' ∧ eq_unsafeHead eq' = eq_unsafeHead eq) ∨
  (r = Ok tt ∧ ∃ attrs payload, eq_safeAttributes eq = attrs :: eq_safeAttributes eq' ∧
    PayloadToBlockRef payload (cfg_Genesis cfg) = Ok (eq_safeHead eq') ∧
    eq_finalityData eq' = eq_finalityData (postProcessSafeL2 (set_finalityData (eq_finalityData eq) eq')) ∧
    InsertHeadBlock (eq_engine eq) (safe_forkchoice eq) attrs true = (eq_engine eq', Inserted payload) ∧
    eq_unsafeHead eq' = eq_safeHead eq').
Proof.
  unfold forceNextSafeAttributes, insertionFailed. fold (safe_forkchoice eq). intros HF.
  destruct (eq_safeAttributes eq) as [|attrs rest] eqn:Ea; [by left; simplify_eq|].
  destruct (InsertHeadBlock _ _ attrs true) as [eng [payload|typ err|s]] eqn:Ei; [|left|left].
  - destruct (PayloadToBlockRef _ _) as [ref| |] eqn:Er; [right|left|left]; simplify_eq; [|done..].
    split; [done|]. exists attrs, payload. done.
  - step_cases; by simplify_eq.
  - by simplify_eq.
Qed.

(** The unsafe head moves to the block of the first buffered payload, a child of the old
    unsafe head above the safe head that the engine found valid; the payload leaves the
    buffer. *)
Definition extends_unsafe (eq eq' : EQ) (p : ExecutionPayload) : Prop :=
  upq_Peek (eq_unsafePayloads eq) = Some p ∧ l2_Number (eq_safeHead eq) < ep_BlockNumber p ∧
  ep_ParentHash p = l2_Hash (eq_unsafeHead eq) ∧
  PayloadToBlockRef p (cfg_Genesis cfg) = Ok (eq_unsafeHead eq') ∧
  (∃ eng status, eng_NewPayload (eq_engine eq) p = (eng, Ok status) ∧ ps_Status status = ExecutionValid) ∧
  eq_unsafePayloads eq' = fst (upq_Pop (eq_unsafePayloads eq)).

Lemma tryNextUnsafePayload_cases eq eq' r :
  tryNextUnsafePayload eq = (eq', r) →
  safe_kept eq eq' ∧ (eq_unsafeHead eq' = eq_unsafeHead eq ∨ ∃ p, extends_unsafe eq eq' p).
Proof.
  unfold tryNextUnsafePayload, applyUnsafePayload. intros HU.
  destruct (upq_Peek _) as [p|] eqn:Ep; [|kept].
  destruct (ep_BlockNumber p <=? _) eqn:En; [kept|]. bool_props.
  case_bool_decide as Eh; cbn [negb] in HU; [|destruct (_ =? _); kept].
  destruct (PayloadToBlockRef p _) as [ref| |] eqn:Er; [|kept..].
  destruct (eng_NewPayload _ p) as [eng [status|e|s]] eqn:EN; [|kept..].
  case_bool_decide as Hv; cbn [negb] in HU; [|kept].
  step_cases; simplify_eq; try (by split; [done|left]).
  split; [done|]. right. exists p. split_and!; [done..|by eexists _, _|done].
Qed.

Lemma consolidate_cases eq eq' r :
  l2_Number (eq_safeHead eq) < l2_Number (eq_unsafeHead eq) →
  consolidateNextSafeAttributes eq = (eq', r) →
  (safe_kept eq eq' ∧ eq_unsafeHead eq' = eq_unsafeHead eq) ∨
  (r = Ok tt ∧ ∃ attrs payload, advanced eq eq' attrs payload).
Proof.
  intros Hlt. unfold consolidateNextSafeAttributes. intros HC.
  destruct (eng_PayloadByNumber _ _) as [eng [payload|e|s]] eqn:Ep; [|by simplify_eq; left..].
  cbn [set_engine eq_safeAttributes] in HC.
  destruct (eq_safeAttributes eq) as [|attrs rest] eqn:Ea; [by simplify_eq; left|].
  destruct (AttributesMatchBlock _ _ _) as [e|] eqn:Em.
  - destruct (forceNextSafeAttributes_cases _ _ _ HC) as [?|[-> (attrs' & p & HA & HP & HF & HI & HU)]];
      [by left|right]. split; [done|]. exists attrs', p.
    repeat split; [done..|]. right. split; [by exists eng|done].
  - destruct (PayloadToBlockRef _ _) as [ref| |] eqn:Er; simplify_eq; [right|by left..].
    split; [done|]. exists attrs, payload. repeat split; [done..|]. left. done.
Qed.

Lemma Step_cases eq eq' r :
  EngineQueue_Step eq = (eq', r) →
  (safe_kept eq eq' ∧
   (eq_unsafeHead eq' = eq_unsafeHead eq ∨
    (eq_unsafeHead eq' = eq_safeHead eq ∧ l2_Number (eq_unsafeHead eq) < l2_Number (eq_safeHead eq)) ∨
    ∃ p, extends_unsafe eq eq' p)) ∨
  (r = Ok tt ∧ ∃ attrs payload, advanced eq eq' attrs payload).
Proof.
  unfold EngineQueue_Step, tryNextSafeAttributes. intros HS.
  destruct (eq_safeAttributes eq) as [|attrs rest] eqn:Ea.
  - left. destruct (ap_NextAttributes _ _) as [prev [next|e|s]]; [kept| |kept].
    case_bool_decide; [|kept]. destruct (0 <? _); [|kept].
    apply tryNextUnsafePayload_cases in HS as [? [?|?]]; (split; [done|]); eauto.
  - destruct (_ <? _) eqn:E1; bool_props.
    + destruct (consolidate_cases _ _ _ ltac:(eassumption) HS) as [[? ?]|?]; eauto.
    + destruct (_ =? _) eqn:E2; bool_props.
      * destruct (forceNextSafeAttributes_cases _ _ _ HS) as [[? ?]|[-> (a & p & HA & HP & HF & HI & HU)]];
          [by eauto|right]. split; [done|]. exists a, p. repeat split; [done..|].
        right. split; [by exists (eq_engine eq)|done].
      * simplify_eq. left. split; [done|]. right. left. split; [done|]. cbn. lia.
Qed.

(** The attributes queue is only asked when there are no attributes at hand. *)
Lemma tryNextUnsafePayload_prev eq eq' r :
  tryNextUnsafePayload eq = (eq', r) → eq_prev eq' = eq_prev eq.
Proof.
  unfold tryNextUnsafePayload, applyUnsafePayload. intros HS. step_cases; by simplify_eq.
Qed.

Lemma Step_attributes_prev eq eq' r :
  eq_safeAttributes eq ≠ [] → EngineQueue_Step eq = (eq', r) → eq_prev eq' = eq_prev eq.
Proof.
  unfold EngineQueue_Step, tryNextSafeAttributes, consolidateNextSafeAttributes,
    forceNextSafeAttributes, insertionFailed.
  intros Hn HS. step_cases; by simplify_eq.
Qed.

(** Safe head, unsafe head and finality data do not depend on the finalized head;
    a step never touches it. *)
Lemma Step_finalized eq eq' r :
  EngineQueue_Step eq = (eq', r) →
  eq_finalized eq' = eq_finalized eq ∧ eq_finalizedL1 eq' = eq_finalizedL1 eq.
Proof.
  unfold EngineQueue_Step, tryNextSafeAttributes, consolidateNextSafeAttributes,
    forceNextSafeAttributes, insertionFailed, tryNextUnsafePayload, applyUnsafePayload.
  intros HS. step_cases; by simplify_eq.
Qed.

(** C24. The safe head only moves, and is only recorded for finalization, when the
    step consumes the first queued attributes and returns no error: the new safe
    head is the block of a payload that either is the next block of the unsafe
    chain, matching those attributes on top of the old safe head (the unsafe head
    then stays), or was inserted by the engine from those attributes with the old
    safe head as forkchoice head (the unsafe head is then reset to it).  In every
    other case safe head and finality data are untouched, and a step never touches
    the finalized head. *)
Theorem safe_head_advances eq eq' r :
  EngineQueue_Step eq = (eq', r) →
  eq_finalized eq' = eq_finalized eq ∧
  (safe_kept eq eq' ∨ (r = Ok tt ∧ ∃ attrs payload, advanced eq eq' attrs payload)).
Proof.
  intros HS. split; [by apply Step_finalized in HS as [? ?]|].
  destruct (Step_cases _ _ _ HS) as [[? _]|?]; eauto.
Qed.

(** What a step relies on about the engine: asked for a block by number, it answers
    with a block of that number. *)
Definition engine_numbers : Prop := ∀ (e e' : E) n p,
  eng_PayloadByNumber e n = (e', Ok p) → ep_BlockNumber p = n.

Lemma PayloadToBlockRef_number p g ref :
  PayloadToBlockRef p g = Ok ref →
  l2_Number ref = ep_BlockNumber p ∧ l2_ParentHash ref = ep_ParentHash p ∧ l2_Hash ref = ep_BlockHash p.
Proof.
  unfold PayloadToBlockRef. intros HP. apply bind_Ok in HP as ([o s] & _ & HP).
  by injection HP as <-.
Qed.

(** C25. With an engine that answers block numbers truthfully, a step keeps the safe
    head at or below the unsafe head. A step that moves the unsafe head away from both
    heads extends it by the first payload of the buffer of unsafe payloads: the engine
    finds this payload valid, it is a child of the old unsafe head with a number above
    the safe head, the new unsafe head is the reference to its block, and the payload is
    taken out of the buffer. *)
Theorem Step_heads_ordered eq eq' r :
  engine_numbers → 0 <= l2_Number (eq_safeHead eq) → l2_Number (eq_unsafeHead eq) < 2 ^ 64 →
  EngineQueue_Step eq = (eq', r) →
  (l2_Number (eq_safeHead eq) <= l2_Number (eq_unsafeHead eq) →
   l2_Number (eq_safeHead eq') <= l2_Number (eq_unsafeHead eq')) ∧
  (eq_unsafeHead eq' = eq_unsafeHead eq ∨ eq_unsafeHead eq' = eq_safeHead eq' ∨
   ∃ p, extends_unsafe eq eq' p).
Proof.
  intros HN Hnn Hu HS.
  destruct (Step_cases _ _ _ HS) as [[[Hs _] Hc]|[_ (attrs & p & _ & HP & _ & Hc)]].
  - rewrite Hs. destruct Hc as [->|[[-> Hlt]|[p Hp]]]; [auto|split; auto; lia|].
    split; [|by eauto]. destruct Hp as (_ & Hlt & _ & HP & _).
    apply PayloadToBlockRef_number in HP as (Hn & _). rewrite Hn. lia.
  - apply PayloadToBlockRef_number in HP as (Hn & _).
    destruct Hc as [(Hlt & Hb & _ & ->)|[_ ->]]; [|split; [lia|auto]].
    apply HN in Hb. rewrite Hn, Hb, u64_small by (unfold is_u64; lia). split; [lia|auto].
Qed.

(** ** Finality *)

Definition ascending : list FinalityData → Prop :=
  StronglySorted (λ a b, id_Number (fd_L1Block a) < id_Number (fd_L1Block b)).

(** Entries are justified by the history [h] of (safe head, L1 origin) pairs the
    queue went through. *)
Definition justified (h : list (L2BlockRef * L1BlockRef)) (fd : FinalityData) : Prop :=
  ∃ origin, (fd_L2Block fd, origin) ∈ h ∧ l1_Number origin <= id_Number (fd_L1Block fd).

Definition finality_ok (h : list (L2BlockRef * L1BlockRef)) (data : list FinalityData) : Prop :=
  (length data <= finalityLookback)%nat ∧ ascending data ∧ Forall (justified h) data.

Lemma ascending_snoc l fd :
  ascending (l ++ [fd]) ↔
  ascending l ∧ Forall (λ a, id_Number (fd_L1Block a) < id_Number (fd_L1Block fd)) l.
Proof.
  unfold ascending. induction l as [|a l IH]; cbn.
  - split; intros _; repeat constructor.
  - split.
    + intros [HS HF]%StronglySorted_inv. apply IH in HS as [? ?].
      apply Forall_app in HF as [? HF]. apply Forall_cons_1 in HF as [? _].
      split; constructor; done.
    + intros [[? ?]%StronglySorted_inv [? ?]%Forall_cons_1]. constructor; [by apply IH|].
      apply Forall_app. split; [done|by constructor].
Qed.

Lemma finality_ok_grow h x data : finality_ok h data → finality_ok (h ++ [x]) data.
Proof.
  intros (? & ? & HJ). split_and!; [done..|]. eapply Forall_impl; [exact HJ|].
  intros fd (o & Hin & ?). exists o. split; [|done]. apply elem_of_app. by left.
Qed.

Lemma finality_ok_prune h data :
  finality_ok h data →
  finality_ok h (if (finalityLookback <=? length data)%nat then slice 1 finalityLookback data else data) ∧
  (length (if (finalityLookback <=? length data)%nat then slice 1 finalityLookback data else data)
     < finalityLookback)%nat.
Proof.
  intros (Hl & Hs & HJ). destruct (Nat.leb_spec finalityLookback (length data)) as [El|El].
  - unfold slice. destruct data as [|d data]; [cbn in *; unfold finalityLookback in *; lia|].
    cbn [length] in *. cbn [drop]; rewrite drop_0, take_ge by lia.
    apply StronglySorted_inv in Hs as [Hs _]. apply Forall_cons_1 in HJ as [_ HJ].
    repeat split; [lia|done..|lia].
  - repeat split; [done..|lia].
Qed.

Lemma postProcessSafeL2_ok h eq :
  finality_ok h (eq_finalityData eq) →
  finality_ok (h ++ [(eq_safeHead eq, ap_Origin (eq_prev eq))])
    (eq_finalityData (postProcessSafeL2 eq)).
Proof.
  intros [HF Hl]%finality_ok_prune. unfold postProcessSafeL2. cbn [eq_finalityData set_finalityData].
  set (data := if (_ <=? _)%nat then _ else _) in *.
  apply (finality_ok_grow _ (eq_safeHead eq, ap_Origin (eq_prev eq))) in HF.
  destruct HF as (_ & Hs & HJ).
  set (h' := h ++ _) in *.
  assert (Hin : (eq_safeHead eq, ap_Origin (eq_prev eq)) ∈ h')
    by (apply elem_of_app; right; constructor).
  destruct data as [|fd l _] using rev_ind.
  - cbn. split_and!; [cbn; unfold finalityLookback; lia|repeat constructor|].
    constructor; [|done]. exists (ap_Origin (eq_prev eq)). by split; [|cbn; lia].
  - rewrite last_snoc. rewrite length_app in Hl |- *. cbn [length] in *.
    pose proof Hs as [Hs' Hlt]%ascending_snoc.
    destruct (_ <? _) eqn:Eo; bool_props.
    + split_and!; [rewrite !length_app; cbn [length]; lia| |].
      * apply ascending_snoc. split; [done|]. apply Forall_app. split; [|by repeat constructor].
        eapply Forall_impl; [exact Hlt|]. cbn. intros a Ha. lia.
      * apply Forall_app. split; [done|]. repeat constructor.
        exists (ap_Origin (eq_prev eq)). by split; [|cbn; lia].
    + replace (length l + 1 - 1)%nat with (length l + 0)%nat by lia.
      rewrite insert_app_r. cbn. apply Forall_app in HJ as [HJ _].
      split_and!; [rewrite length_app; cbn [length]; lia|by apply ascending_snoc|].
      apply Forall_app. split; [done|]. repeat constructor.
      exists (ap_Origin (eq_prev eq)). by split; [|cbn; lia].
Qed.

(** Runs of the queue: the operations its owner may call, in any order.  [h] records
    the safe head and the L1 origin after every step. *)
Inductive eq_run : list (L2BlockRef * L1BlockRef) → EQ → Prop :=
| run_new eng prev : eq_run [] (NewEngineQueue eng prev)
| run_SetUnsafeHead h eq b : eq_run h eq → eq_run h (SetUnsafeHead b eq)
| run_AddUnsafePayload h eq p : eq_run h eq → eq_run h (AddUnsafePayload p eq)
| run_AddSafeAttributes h eq a : eq_run h eq → eq_run h (AddSafeAttributes a eq)
| run_Finalize h eq b : eq_run h eq → eq_run h (Finalize b eq)
| run_Step h eq eq' r : eq_run h eq → EngineQueue_Step eq = (eq', r) →
    eq_run (h ++ [(eq_safeHead eq', ap_Origin (eq_prev eq'))]) eq'
| run_ResetStep h eq l1 l1' eq' r : eq_run h eq → ResetStep l1 eq = (l1', eq', r) → eq_run h eq'.

Lemma ResetStep_frame l1 eq l1' eq' r :
  ResetStep l1 eq = (l1', eq', r) →
  (eq_finalityData eq' = [] ∨ eq_finalityData eq' = eq_finalityData eq) ∧
  eq_safeAttributes eq' = eq_safeAttributes eq ∧ eq_unsafePayloads eq' = eq_unsafePayloads eq ∧
  eq_prev eq' = eq_prev eq.
Proof.
  unfold ResetStep. intros HR. destruct (FindL2Heads _ _ _) as [[w eng] [heads|e|s]];
    [|simplify_eq; by auto..].
  destruct (l1_ByHash _ _) as [w2 [o|e|s]]; [|simplify_eq; by auto..].
  destruct (_ <? _); [simplify_eq; by auto|].
  destruct (l1_ByNumber _ _) as [w3 [o2|e|s]]; simplify_eq; by auto.
Qed.

Lemma eq_run_finality h eq : eq_run h eq → finality_ok h (eq_finalityData eq).
Proof.
  assert (Hnil : ∀ h, finality_ok h []) by (intros ?; split_and!; [cbn; lia|constructor..]).
  induction 1 as [eng prev|h eq b _ IH|h eq p _ IH|h eq a _ IH|h eq b _ IH|h eq eq' r _ IH HS
                 |h eq l1 l1' eq' r _ IH HR]; cbn; [done|done| |done| | |].
  - by destruct p.
  - unfold Finalize, tryFinalizeL2. by case_match.
  - destruct (Step_cases _ _ _ HS) as [[[_ ->] _]|[_ (a & p & _ & _ & -> & _)]].
    + by apply finality_ok_grow.
    + apply (postProcessSafeL2_ok h (set_finalityData (eq_finalityData eq) eq')). done.
  - destruct (ResetStep_frame _ _ _ _ _ HR) as ([->| ->] & _); done.
Qed.

(** The loop of [tryFinalizeL2] selects the highest eligible entry. *)
Definition finalize_loop (n : Z) : list FinalityData → L2BlockRef → L2BlockRef :=
  fold_left (λ fin fd,
    if (l2_Number fin <? l2_Number (fd_L2Block fd)) && (id_Number (fd_L1Block fd) <=? n)
    then fd_L2Block fd else fin).

Lemma finalize_loop_spec n data fin :
  let fin' := finalize_loop n data fin in
  l2_Number fin <= l2_Number fin' ∧
  (fin' = fin ∨ ∃ fd, fd ∈ data ∧ fin' = fd_L2Block fd ∧ id_Number (fd_L1Block fd) <= n) ∧
  (∀ fd, fd ∈ data → id_Number (fd_L1Block fd) <= n → l2_Number (fd_L2Block fd) <= l2_Number fin').
Proof.
  revert fin. unfold finalize_loop. induction data as [|d data IH]; intros fin; cbn.
  - split_and!; [lia|by left|]. by intros fd ?%elem_of_nil.
  - destruct (_ && _) eqn:Ec.
    + bool_props. destruct (IH (fd_L2Block d)) as (Hle & Hin & Hmax). split_and!; [lia| |].
      * right. destruct Hin as [-> |(fd & ? & ? & ?)]; [exists d|exists fd];
          split_and!; try done; [constructor|by constructor].
      * intros fd [->|?]%elem_of_cons ?; auto.
    + destruct (IH fin) as (Hle & Hin & Hmax). split_and!; [lia| |].
      * destruct Hin as [-> |(fd & ? & ? & ?)]; [by left|right]. exists fd. split_and!; try done. by constructor.
      * intros fd [->|?]%elem_of_cons Hn; [|auto]. apply andb_false_iff in Ec as [Ec|Ec]; bool_props; lia.
Qed.

(** C26. Finality is sound and complete over every run of the queue.  The finality
    data never holds more than [finalityLookback] entries, in strictly ascending L1
    order.  After a finality signal for a non-zero L1 block, the finalized head never
    moves back; if it moved, it is a block that was the safe head at some step of the
    run while the pipeline was at an L1 origin no higher than the finalized L1 block;
    and it is at least as high as every recorded entry the signal covers. *)
Theorem Finalize_sound h eq l1 :
  eq_run h eq → l1 ≠ BlockID_zero →
  let eq' := Finalize l1 eq in
  (length (eq_finalityData eq') <= finalityLookback)%nat ∧ ascending (eq_finalityData eq') ∧
  l2_Number (eq_finalized eq) <= l2_Number (eq_finalized eq') ∧
  (eq_finalized eq' = eq_finalized eq ∨
   ∃ origin, (eq_finalized eq', origin) ∈ h ∧ l1_Number origin <= id_Number l1) ∧
  (∀ fd, fd ∈ eq_finalityData eq → id_Number (fd_L1Block fd) <= id_Number l1 →
     l2_Number (fd_L2Block fd) <= l2_Number (eq_finalized eq')).
Proof.
  intros (Hl & Hs & HJ)%eq_run_finality Hz. unfold Finalize, tryFinalizeL2. cbn.
  rewrite bool_decide_eq_false_2 by done. cbn.
  fold (finalize_loop (id_Number l1)).
  destruct (finalize_loop_spec (id_Number l1) (eq_finalityData eq) (eq_finalized eq)) as (? & Hin & ?).
  split_and!; [done..| |done].
  destruct Hin as [?|(fd & Hin & -> & Hle)]; [by left|right].
  rewrite Forall_forall in HJ. destruct (HJ fd Hin) as (o & ? & ?). exists o. split; [done|lia].
Qed.

(** ** Failing attributes *)

Lemma head_deposit (tx : bytes) : head tx = Some DepositTxType ↔ is_deposit tx.
Proof.
  unfold is_deposit. destruct tx as [|t tx]; cbn; [split; [done|by intros [? ?]]|].
  split; [intros [= ->]; by exists tx|by intros [? [= -> _]]].
Qed.

(** C27. Attributes whose payload the engine rejects are retried at most once with
    fewer transactions.  If they hold anything but deposits, only their deposits are
    kept, the heads stay and the step reports no error; if they hold only deposits
    (as they do after that), the step fails with a critical error and the queue
    stays as it is. *)
Theorem force_drops_sequenced eq eng err attrs rest :
  eq_safeAttributes eq = attrs :: rest →
  InsertHeadBlock (eq_engine eq) (safe_forkchoice eq) attrs true =
    (eng, NotInserted BlockInsertPayloadErr err) →
  (¬ Forall is_deposit (pa_Transactions attrs) →
   ∃ deposits, Forall is_deposit deposits ∧
     (∀ tx, tx ∈ deposits ↔ tx ∈ pa_Transactions attrs ∧ is_deposit tx) ∧
     forceNextSafeAttributes eq =
       (set_safeAttributes
          (mkPayloadAttributes (pa_Timestamp attrs) (pa_PrevRandao attrs)
             (pa_SuggestedFeeRecipient attrs) deposits (pa_NoTxPool attrs) :: rest)
          (set_engine eng eq), Ok tt)) ∧
  (Forall is_deposit (pa_Transactions attrs) →
   ∃ e, forceNextSafeAttributes eq = (set_engine eng eq, Err e) ∧ errors_Is e ErrCritical = true).
Proof.
  intros Ha HI. unfold forceNextSafeAttributes. rewrite Ha. fold (safe_forkchoice eq).
  rewrite HI. cbn [insertionFailed].
  set (deps := filter _ (pa_Transactions attrs)).
  assert (Hd : ∀ tx, tx ∈ deps ↔ tx ∈ pa_Transactions attrs ∧ is_deposit tx)
    by (intros tx; unfold deps; rewrite list_elem_of_filter, head_deposit; naive_solver).
  split; intros Hf.
  - exists deps. split_and!; [apply Forall_forall; intros tx ?%Hd; naive_solver|done|].
    apply not_Forall_Exists in Hf; [|intros tx; destruct (decide (head tx = Some DepositTxType)) as [?|Hn];
      [left; by apply head_deposit|right; by intros ?%head_deposit]].
    apply Exists_exists in Hf as (tx & Hin & Hn). cbn in Hn. rewrite <- head_deposit in Hn.
    pose proof (length_filter_lt (λ tx : bytes, head tx = Some DepositTxType) _ tx Hin Hn) as Hlt.
    fold deps in Hlt. by rewrite (proj2 (Nat.ltb_lt _ _) Hlt).
  - assert (Hall : deps = pa_Transactions attrs).
    { unfold deps. clear -Hf. induction Hf as [|tx l Htx _ IH]; [done|].
      rewrite filter_cons_True by (by apply head_deposit). by rewrite IH. }
    rewrite Hall, Nat.ltb_irrefl. eexists. split; [done|]. by apply errors_Is_level.
Qed.

(** ** Resets *)

(** [ResetStep] moves the heads but keeps the queued attributes: when the new safe
    and unsafe heads have the same number, the next step forces the attributes that
    were derived before the reset on top of the new safe head, without asking the
    attributes queue for new ones. *)
Theorem reset_forces_stale_attributes l1 eq l1' eq' attrs rest :
  ResetStep l1 eq = (l1', eq', Err io_EOF) →
  eq_safeAttributes eq = attrs :: rest →
  l2_Number (eq_safeHead eq') = l2_Number (eq_unsafeHead eq') →
  EngineQueue_Step eq' = forceNextSafeAttributes eq' ∧ eq_safeAttributes eq' = attrs :: rest ∧
  eq_finalityData eq' = [].
Proof.
  intros HR Ha Hn. pose proof (ResetStep_frame _ _ _ _ _ HR) as (_ & Hk & _).
  rewrite Ha in Hk. split_and!; [|done|].
  - unfold EngineQueue_Step, tryNextSafeAttributes. rewrite Hk, Hn, Z.ltb_irrefl, Z.eqb_refl. done.
  - unfold ResetStep in HR. step_cases; by simplify_eq.
Qed.

End EngineQueue.

(** ** Examples *)

#[local] Existing Instance example_keccak.
#[local] Existing Instance example_codec.
#[local] Existing Instance example_fetcher.

#[local] Instance example_attributes_provider : NextAttributesProvider unit := {
  ap_NextAttributes a _ := (a, Err io_EOF);
  ap_Origin _ := example_l1 1 }.

(** An engine that knows and builds block 8 only; [b] says whether it accepts it. *)
#[local] Instance example_engine_8 : Engine bool := {
  eng_GetPayload e _ := (e, Ok example_payload);
  eng_ForkchoiceUpdate e _ attrs :=
    (e, Ok (mkForkchoiceUpdatedResult (mkPayloadStatus ExecutionValid None None)
              (match attrs with Some _ => Some [x01] | None => None end)));
  eng_NewPayload e _ :=
    (e, Ok (mkPayloadStatus (if e : bool then ExecutionValid else ExecutionInvalid) None None));
  eng_PayloadByHash e _ := (e, Ok example_payload);
  eng_PayloadByNumber e n := (e, if n =? 8 then Ok example_payload else Err ethereum_NotFound);
  eng_L2BlockRefByLabel e _ := (e, Ok (example_l2 0));
  eng_L2BlockRefByHash e _ := (e, Ok (example_l2 0)) }.

Definition example_ref_8 : L2BlockRef :=
  mkL2BlockRef (example_hash 2008) 8 (example_hash 2007) 16 (Batch_Epoch (example_batch 7)) 2.

(** Block 7 is safe and [unsafe] the unsafe head; the attributes of block 8 are
    queued, with [extra] transactions. *)
Definition example_queue (valid : bool) (unsafe : L2BlockRef) (extra : list bytes)
  : EngineQueue bool unit :=
  set_safeAttributes
    [mkPayloadAttributes (pa_Timestamp example_attrs) (pa_PrevRandao example_attrs)
       (pa_SuggestedFeeRecipient example_attrs) (pa_Transactions example_attrs ++ extra) true]
    (set_heads (example_l2 3) (example_l2 7) unsafe (NewEngineQueue valid tt)).

Lemma safe_head_advances_witness :
  eq_safeHead (fst (EngineQueue_Step example_cfg (example_queue true (example_l2 7) []))) = example_ref_8 ∧
  eq_finalized (fst (EngineQueue_Step example_cfg (example_queue true (example_l2 7) []))) = example_l2 3.
Proof.
  split; [vm_compute; reflexivity|].
  exact (proj1 (safe_head_advances example_cfg (example_queue true (example_l2 7) []) _ _
                  (surjective_pairing _))).
Defined.

(** Block 7 is safe and unsafe and the payload of block 8 is buffered: the step makes it
    the unsafe head. *)
Lemma Step_heads_ordered_witness :
  let eq := AddUnsafePayload (Some example_payload)
              (set_heads (example_l2 3) (example_l2 7) (example_l2 7) (NewEngineQueue true tt)) in
  let eq' := fst (EngineQueue_Step example_cfg eq) in
  eq_unsafeHead eq' = example_ref_8 ∧ l2_Number (eq_safeHead eq') <= l2_Number (eq_unsafeHead eq') ∧
  extends_unsafe example_cfg eq eq' example_payload.
Proof.
  intros eq eq'.
  assert (HN : engine_numbers (E := bool)).
  { intros e e' n p. cbn. destruct (Z.eqb_spec n 8) as [->|]; [|discriminate]. intros [= _ <-]. reflexivity. }
  destruct (Step_heads_ordered example_cfg eq eq' (snd (EngineQueue_Step example_cfg eq)) HN
              ltac:(cbn; lia) ltac:(cbn; lia) (surjective_pairing _)) as [Hle HE].
  assert (H8 : eq_unsafeHead eq' = example_ref_8) by (vm_compute; reflexivity).
  assert (H7 : eq_safeHead eq' = example_l2 7) by (vm_compute; reflexivity).
  split; [exact H8|]. split; [apply Hle; cbn; lia|].
  destruct HE as [HE|[HE|(p & Hp)]].
  - apply (f_equal l2_Number) in HE. rewrite H8 in HE. discriminate HE.
  - apply (f_equal l2_Number) in HE. rewrite H8, H7 in HE. discriminate HE.
  - pose proof (proj1 Hp) as HP. cbn in HP. injection HP as <-. exact Hp.
Defined.

#[local] Instance example_chain_3 : L2Chain bool := {
  l2_ByHash e h := (e, example_l2_at h);
  l2_ByLabel e l := (e, Ok (example_l2 3)) }.

#[local] Instance example_l1_chain_2 : L1Chain unit := {
  l1_ByLabel w _ := (w, example_l1_at 1000 2);
  l1_ByNumber w k := (w, example_l1_at 1000 k);
  l1_ByHash w h := (w, example_l1_at 1000 (be_decode h - 1000)) }.

(** The queue after its first step, from the zero heads. *)
Definition example_stepped : EngineQueue bool unit :=
  fst (EngineQueue_Step example_cfg (AddSafeAttributes example_attrs (NewEngineQueue true tt))).

Lemma Finalize_sound_witness :
  eq_finalized (Finalize (L1BlockRef_ID (example_l1 1)) example_stepped) = example_ref_8 ∧
  ∃ origin, (example_ref_8, origin) ∈ [(eq_safeHead example_stepped, ap_Origin (eq_prev example_stepped))] ∧
            l1_Number origin <= 1.
Proof.
  assert (H8 : eq_finalized (Finalize (L1BlockRef_ID (example_l1 1)) example_stepped) = example_ref_8)
    by (vm_compute; reflexivity).
  split; [exact H8|].
  destruct (Finalize_sound example_cfg
    [(eq_safeHead example_stepped, ap_Origin (eq_prev example_stepped))]
    example_stepped (L1BlockRef_ID (example_l1 1))) as (_ & _ & _ & [Hx|Hx] & _).
  - refine (run_Step example_cfg [] (AddSafeAttributes example_attrs (NewEngineQueue true tt)) _ _ _
              (surjective_pairing _)).
    apply run_AddSafeAttributes, run_new.
  - intros Hz. apply (f_equal id_Number) in Hz. vm_compute in Hz. discriminate.
  - exfalso. rewrite H8 in Hx. apply (f_equal l2_Number) in Hx. vm_compute in Hx. discriminate.
  - rewrite H8 in Hx. exact Hx.
Defined.

Lemma force_drops_sequenced_witness :
  ∃ deposits, Forall is_deposit deposits ∧
    eq_safeAttributes (fst (forceNextSafeAttributes example_cfg
                              (example_queue false (example_l2 7) [[x02]]))) =
    [mkPayloadAttributes (pa_Timestamp example_attrs) (pa_PrevRandao example_attrs)
       (pa_SuggestedFeeRecipient example_attrs) deposits true].
Proof.
  destruct (force_drops_sequenced example_cfg (example_queue false (example_l2 7) [[x02]]) false
              (Some (ErrorNew "execution payload was invalid"))
              (mkPayloadAttributes (pa_Timestamp example_attrs) (pa_PrevRandao example_attrs)
                 (pa_SuggestedFeeRecipient example_attrs) (pa_Transactions example_attrs ++ [[x02]]) true) [])
    as [Hx _].
  - reflexivity.
  - vm_compute. reflexivity.
  - destruct Hx as (deposits & Hd & _ & Hx).
    + cbn [pa_Transactions]. intros [_ Hf]%Forall_app. apply Forall_cons_1 in Hf as [(r & Hr) _].
      discriminate.
    + exists deposits. split; [exact Hd|]. rewrite Hx. reflexivity.
Defined.

Lemma reset_forces_stale_attributes_witness :
  let '(_, eq', _) := ResetStep example_cfg tt (example_queue true (example_l2 9) []) in
  eq_safeHead eq' = example_l2 3 ∧ EngineQueue_Step example_cfg eq' = forceNextSafeAttributes example_cfg eq'.
Proof.
  assert (HR : ∃ eq', ResetStep example_cfg tt (example_queue true (example_l2 9) []) = (tt, eq', Err io_EOF) ∧
                      eq_safeHead eq' = example_l2 3 ∧ eq_unsafeHead eq' = example_l2 3)
    by (eexists; split; [vm_compute; reflexivity|split; vm_compute; reflexivity]).
  destruct HR as (eq' & HR & Hs & Hu). rewrite HR. split; [exact Hs|].
  refine (proj1 (reset_forces_stale_attributes example_cfg tt _ tt eq' _ [] HR _ _)).
  - reflexivity.
  - rewrite Hs, Hu. reflexivity.
Defined.
