(* ===== verification/L1Stages.v ===== *)
(** * The first stages of the pipeline

    op-node/rollup/derive/l1_traversal.go (walks the L1 chain),
    l1_retrieval.go (opens the data of each L1 block) and calldata_source.go (picks
    the batcher's calldata out of a block's transactions). *)

From S2P Require Import Prelude GoErrors EthTypes Extern ChannelBank SyncStart.

(** ** The calldata source (calldata_source.go) *)

(** [L1TransactionFetcher] *)
Class L1TransactionFetcher (W : Type) := {
  tf_InfoAndTxsByHash : W → Hash → W * result (BlockInfo * list Transaction) }.

(** [DataFromEVMTransactions]; [config.L1Signer()] is the signer of the L1 chain id. *)
Fixpoint DataFromEVMTransactions (config : Config) (txs : list Transaction) : list bytes :=
  match txs with
  | [] => []
  | tx :: txs =>
      let out := DataFromEVMTransactions config txs in
      match tx_To tx with
      | Some to =>
          if bool_decide (to = cfg_BatchInboxAddress config) then
            match tx_Sender tx (cfg_L1ChainID config) with
            | Ok seqDataSubmitter =>
                if negb (bool_decide (seqDataSubmitter = cfg_BatchSenderAddress config)) then out
                else tx_Data tx :: out
            | _ => out
            end
          else out
      | None => out
      end
  end.

(** [DataSource]: the fetched data, or the block still to be fetched. *)
Record DataSource := mkDataSource { ds_open : bool; ds_data : list bytes; ds_id : BlockID }.

Section CalldataSource.
Context {W : Type} `{L1TransactionFetcher W} (cfg : Config).

Definition NewDataSource (fetcher : W) (block : BlockID) : W * DataSource :=
  let '(fetcher, r) := tf_InfoAndTxsByHash fetcher (id_Hash block) in
  match r with
  | Ok (_, txs) => (fetcher, mkDataSource true (DataFromEVMTransactions cfg txs) BlockID_zero)
  | _ => (fetcher, mkDataSource false [] block)
  end.

(** [DataSourceFactory.OpenData] *)
Definition OpenData (fetcher : W) (id : BlockID) : W * DataSource := NewDataSource fetcher id.

(** The part of [Next] after the source is open. *)
Definition popData (ds : DataSource) : DataSource * result bytes :=
  match ds_data ds with
  | [] => (ds, Err io_EOF)
  | data :: rest => (mkDataSource (ds_open ds) rest (ds_id ds), Ok data)
  end.

Definition DataSource_Next (fetcher : W) (ds : DataSource) : W * DataSource * result bytes :=
  if negb (ds_open ds) then
    let '(fetcher, r) := tf_InfoAndTxsByHash fetcher (id_Hash (ds_id ds)) in
    match r with
    | Ok (_, txs) =>
        let '(ds, r) := popData (mkDataSource true (DataFromEVMTransactions cfg txs) (ds_id ds)) in
        (fetcher, ds, r)
    | Err e =>
        (fetcher, ds,
         if errors_Is e ethereum_NotFound
         then Err (NewResetError (Errorf "failed to open calldata source" e))
         else Err (NewTemporaryError (Errorf "failed to open calldata source" e)))
    | Panic s => (fetcher, ds, Panic s)
    end
  else let '(ds, r) := popData ds in (fetcher, ds, r).

End CalldataSource.

(** ** The traversal (l1_traversal.go) *)

Record L1Traversal (W : Type) := mkL1Traversal {
  l1t_block : L1BlockRef; l1t_done : bool; l1t_l1Blocks : W }.
Arguments mkL1Traversal {W} _ _ _.
Arguments l1t_block {W} _.
Arguments l1t_done {W} _.
Arguments l1t_l1Blocks {W} _.

Section L1Traversal.
Context {W : Type} `{L1Chain W}.

Definition NewL1Traversal (l1Blocks : W) : L1Traversal W :=
  mkL1Traversal L1BlockRef_zero false l1Blocks.

Definition L1Traversal_Origin (l1t : L1Traversal W) : L1BlockRef := l1t_block l1t.

Definition NextL1Block (l1t : L1Traversal W) : L1Traversal W * result L1BlockRef :=
  if negb (l1t_done l1t) then
    (mkL1Traversal (l1t_block l1t) true (l1t_l1Blocks l1t), Ok (l1t_block l1t))
  else (l1t, Err io_EOF).

Definition AdvanceL1Block (l1t : L1Traversal W) : L1Traversal W * result unit :=
  let origin := l1t_block l1t in
  let '(l1, r) := l1_ByNumber (l1t_l1Blocks l1t) (l1_Number origin ⊞ 1) in
  let l1t := mkL1Traversal (l1t_block l1t) (l1t_done l1t) l1 in
  match r with
  | Err e =>
      if errors_Is e ethereum_NotFound then (l1t, Err io_EOF)
      else (l1t, Err (NewTemporaryError (Errorf "failed to find L1 block info by number" e)))
  | Panic s => (l1t, Panic s)
  | Ok nextL1Origin =>
      if negb (bool_decide (l1_Hash (l1t_block l1t) = l1_ParentHash nextL1Origin)) then
        (l1t, Err (NewResetError (ErrorNew "detected L1 reorg with conflicting parent")))
      else (mkL1Traversal nextL1Origin false l1, Ok tt)
  end.

Definition L1Traversal_Reset (l1t : L1Traversal W) (base : L1BlockRef) : L1Traversal W * result unit :=
  (mkL1Traversal base false (l1t_l1Blocks l1t), Err io_EOF).

Lemma AdvanceL1Block_cases (l1t l1t' : L1Traversal W) r :
  AdvanceL1Block l1t = (l1t', r) →
  l1t_block l1t' = l1t_block l1t ∨
  (r = Ok tt ∧ l1_ParentHash (l1t_block l1t') = l1_Hash (l1t_block l1t)).
Proof.
  unfold AdvanceL1Block. intros HA. destruct (l1_ByNumber _ _) as [l1 [next|e|s]].
  - case_bool_decide as Eh; cbn [negb] in HA; simplify_eq; [right|by left]. by split.
  - destruct (errors_Is _ _); simplify_eq; by left.
  - simplify_eq. by left.
Qed.

End L1Traversal.

(** ** The retrieval (l1_retrieval.go) *)

(** [NextBlockProvider] *)
Class NextBlockProvider (B : Type) := {
  nb_NextL1Block : B → B * result L1BlockRef;
  nb_Origin : B → L1BlockRef;
  nb_NextL1Block_Origin : ∀ b, nb_Origin (fst (nb_NextL1Block b)) = nb_Origin b }.

#[export] Program Instance L1Traversal_provider {W} : NextBlockProvider (L1Traversal W) := {
  nb_NextL1Block := NextL1Block;
  nb_Origin := L1Traversal_Origin }.
Next Obligation. intros W [block [] l1]; done. Qed.

Record L1Retrieval (W B : Type) := mkL1Retrieval {
  l1r_dataSrc : W; l1r_prev : B; l1r_datas : option DataSource }.
Arguments mkL1Retrieval {W B} _ _ _.
Arguments l1r_dataSrc {W B} _.
Arguments l1r_prev {W B} _.
Arguments l1r_datas {W B} _.

Section L1Retrieval.
Context {W B : Type} `{L1TransactionFetcher W} `{NextBlockProvider B} (cfg : Config).

Definition NewL1Retrieval (dataSrc : W) (prev : B) : L1Retrieval W B :=
  mkL1Retrieval dataSrc prev None.

Definition L1Retrieval_Origin (l1r : L1Retrieval W B) : L1BlockRef := nb_Origin (l1r_prev l1r).

(** The second half of [NextData], with [datas] open. *)
Definition nextOfDatas (fetcher : W) (prev : B) (datas : DataSource)
  : L1Retrieval W B * result bytes :=
  let '(fetcher, datas, r) := DataSource_Next cfg fetcher datas in
  match r with
  | Err e => if bool_decide (e = io_EOF) then (mkL1Retrieval fetcher prev None, Err io_EOF)
             else (mkL1Retrieval fetcher prev (Some datas), Err e)
  | _ => (mkL1Retrieval fetcher prev (Some datas), r)
  end.

Definition L1Retrieval_NextData (l1r : L1Retrieval W B) : L1Retrieval W B * result bytes :=
  match l1r_datas l1r with
  | Some datas => nextOfDatas (l1r_dataSrc l1r) (l1r_prev l1r) datas
  | None =>
      let '(prev, r) := nb_NextL1Block (l1r_prev l1r) in
      match r with
      | Ok next =>
          let '(fetcher, datas) := OpenData cfg (l1r_dataSrc l1r) (L1BlockRef_ID next) in
          nextOfDatas fetcher prev datas
      | Err e => (mkL1Retrieval (l1r_dataSrc l1r) prev None, Err e)
      | Panic s => (mkL1Retrieval (l1r_dataSrc l1r) prev None, Panic s)
      end
  end.

Definition L1Retrieval_Reset (l1r : L1Retrieval W B) (base : L1BlockRef)
  : L1Retrieval W B * result unit :=
  let '(fetcher, datas) := OpenData cfg (l1r_dataSrc l1r) (L1BlockRef_ID base) in
  (mkL1Retrieval fetcher (l1r_prev l1r) (Some datas), Err io_EOF).

Definition L1Retrieval_provider : NextDataProvider (L1Retrieval W B) := {|
  NextData := L1Retrieval_NextData;
  Origin := L1Retrieval_Origin |}.

Lemma L1Retrieval_NextData_origin (l1r : L1Retrieval W B) :
  L1Retrieval_Origin (fst (L1Retrieval_NextData l1r)) = L1Retrieval_Origin l1r.
Proof.
  assert (HN : ∀ w b d, nb_Origin (l1r_prev (fst (nextOfDatas w b d))) = nb_Origin b).
  { intros w b d. unfold nextOfDatas. destruct (DataSource_Next cfg w d) as [[w' d'] [x|e|s]]; [done| |done].
    by case_bool_decide. }
  unfold L1Retrieval_NextData, L1Retrieval_Origin. destruct (l1r_datas l1r); [apply HN|].
  pose proof (nb_NextL1Block_Origin (l1r_prev l1r)) as HO.
  destruct (nb_NextL1Block (l1r_prev l1r)) as [b [next|e|s]]; [|done..].
  destruct (OpenData _ _ _). by rewrite HN.
Qed.

End L1Retrieval.

(** ** The batcher's data *)

Definition from_batcher (cfg : Config) (tx : Transaction) : Prop :=
  tx_To tx = Some (cfg_BatchInboxAddress cfg) ∧
  tx_Sender tx (cfg_L1ChainID cfg) = Ok (cfg_BatchSenderAddress cfg).

Lemma DataFromEVMTransactions_elem cfg txs d :
  d ∈ DataFromEVMTransactions cfg txs ↔ ∃ tx, tx ∈ txs ∧ from_batcher cfg tx ∧ tx_Data tx = d.
Proof.
  induction txs as [|tx txs IH]; cbn; [split; [by intros ?%elem_of_nil|by intros (? & ?%elem_of_nil & _)]|].
  assert (Hskip : ¬ from_batcher cfg tx →
    (d ∈ DataFromEVMTransactions cfg txs ↔
     ∃ tx', tx' ∈ tx :: txs ∧ from_batcher cfg tx' ∧ tx_Data tx' = d)).
  { intros Hn. rewrite IH. split; intros (t & Hin & Hb & Hd).
    - exists t. split; [by constructor|done].
    - apply elem_of_cons in Hin as [->|Hin]; [done|]. by exists t. }
  unfold from_batcher at 1 in Hskip.
  destruct (tx_To tx) as [to|] eqn:Et; [|by apply Hskip; intros [? _]].
  case_bool_decide as Eto; [|apply Hskip; by intros [[= ->] _]].
  destruct (tx_Sender tx _) as [s|e|m] eqn:Es; [|by apply Hskip; intros [_ ?]..].
  case_bool_decide as Esd; cbn [negb]; [|apply Hskip; by intros [_ [= ->]]].
  clear Hskip. subst. rewrite elem_of_cons, IH. split.
  - intros [->|(t & Hin & Hb)]; [exists tx; split; [constructor|done]|exists t; split; [by constructor|done]].
  - intros (t & [->|Hin]%elem_of_cons & Hb & Hd); [by left|right; by exists t].
Qed.

(** ** Reading the data of the L1 chain *)

Section Stream.
Context {W L : Type} `{L1TransactionFetcher W} `{L1Chain L} (cfg : Config).
Notation R := (L1Retrieval W (L1Traversal L)).

(** The fetcher answers for every block. *)
Definition fetches (txs_of : Hash → list Transaction) : Prop :=
  ∀ (w : W) h, ∃ w' info, tf_InfoAndTxsByHash w h = (w', Ok (info, txs_of h)).

(** [NextData] until it has no data. *)
Fixpoint drain (fuel : nat) (l1r : R) : R * list bytes * result bytes :=
  match fuel with
  | O => (l1r, [], Panic "out of fuel")
  | S fuel =>
      match L1Retrieval_NextData cfg l1r with
      | (l1r, Ok d) => let '(l1r, ds, r) := drain fuel l1r in (l1r, d :: ds, r)
      | (l1r, r) => (l1r, [], r)
      end
  end.

(** As the pipeline does when no stage can progress. *)
Definition advance (l1r : R) : R * result unit :=
  let '(l1t, r) := AdvanceL1Block (l1r_prev l1r) in
  (mkL1Retrieval (l1r_dataSrc l1r) l1t (l1r_datas l1r), r).

(** [n] rounds: drain the open block, then move to the next one. *)
Fixpoint rounds (fuel n : nat) (l1r : R) : R * list bytes * result unit :=
  match n with
  | O => (l1r, [], Ok tt)
  | S n =>
      match drain fuel l1r with
      | (l1r, ds, Err e) =>
          if bool_decide (e = io_EOF) then
            match advance l1r with
            | (l1r, Ok _) => let '(l1r, ds', r) := rounds fuel n l1r in (l1r, ds ++ ds', r)
            | (l1r, r) => (l1r, ds, r)
            end
          else (l1r, ds, Err e)
      | (l1r, ds, Panic s) => (l1r, ds, Panic s)
      | (l1r, ds, Ok _) => (l1r, ds, Ok tt)
      end
  end.

(** Both stages reset to [base], in the order of the pipeline. *)
Definition reset_both (l1r : R) (base : L1BlockRef) : R :=
  let l1r := fst (L1Retrieval_Reset cfg l1r base) in
  mkL1Retrieval (l1r_dataSrc l1r) (fst (L1Traversal_Reset (l1r_prev l1r) base)) (l1r_datas l1r).

Variable txs_of : Hash → list Transaction.

Definition data_of (b : L1BlockRef) : list bytes := DataFromEVMTransactions cfg (txs_of (l1_Hash b)).

Lemma drain_open fuel w prev id data :
  (length data < fuel)%nat →
  drain fuel (mkL1Retrieval w prev (Some (mkDataSource true data id))) =
  (mkL1Retrieval w prev None, data, Err io_EOF).
Proof.
  revert fuel. induction data as [|d data IH]; intros [|fuel] Hf; cbn in Hf; try lia; cbn.
  - done.
  - unfold nextOfDatas. cbn. by rewrite IH by lia.
Qed.

Lemma OpenData_fetches w id :
  fetches txs_of →
  ∃ w', OpenData cfg w id = (w', mkDataSource true (DataFromEVMTransactions cfg (txs_of (id_Hash id))) BlockID_zero).
Proof.
  intros HF. unfold OpenData, NewDataSource. destruct (HF w (id_Hash id)) as (w' & info & ->). eauto.
Qed.

(** Pulling a closed retrieval behind a fresh traversal block reads that block. *)
Lemma drain_closed fuel w b l1 :
  fetches txs_of → (length (data_of b) < fuel)%nat →
  ∃ w', drain fuel (mkL1Retrieval w (mkL1Traversal b false l1) None) =
        (mkL1Retrieval w' (mkL1Traversal b true l1) None, data_of b, Err io_EOF).
Proof.
  intros HF Hf. destruct (OpenData_fetches w (L1BlockRef_ID b) HF) as (w' & HO). exists w'.
  rewrite <- (drain_open fuel w' _ BlockID_zero (data_of b) Hf).
  destruct fuel; [lia|]. cbn. by rewrite HO.
Qed.

Lemma reset_both_open w prev datas base :
  fetches txs_of →
  ∃ w', reset_both (mkL1Retrieval w prev datas) base =
        mkL1Retrieval w' (mkL1Traversal base false (l1t_l1Blocks prev))
          (Some (mkDataSource true (data_of base) BlockID_zero)).
Proof.
  intros HF. destruct (OpenData_fetches w (L1BlockRef_ID base) HF) as (w' & HO). exists w'.
  unfold reset_both, L1Retrieval_Reset. cbn. by rewrite HO.
Qed.

(** [blocks] is a chain the L1 node serves by number, linked by parent hashes. *)
Definition serves (blocks : list L1BlockRef) : Prop :=
  ∀ (i : nat) a b, blocks !! i = Some a → blocks !! S i = Some b →
    l1_Hash a = l1_ParentHash b ∧
    ∀ l : L, ∃ l', l1_ByNumber l (l1_Number a ⊞ 1) = (l', Ok b).

Lemma serves_tail a blocks : serves (a :: blocks) → serves blocks.
Proof. intros HS i x y Hx Hy. apply (HS (S i)); done. Qed.

Lemma advance_serves a b blocks w done l1 datas :
  serves (a :: b :: blocks) →
  ∃ l1', advance (mkL1Retrieval w (mkL1Traversal a done l1) datas) =
         (mkL1Retrieval w (mkL1Traversal b false l1') datas, Ok tt).
Proof.
  intros HS. destruct (HS 0%nat a b) as [Hp HN]; [done..|]. destruct (HN l1) as (l1' & Hl).
  exists l1'. unfold advance, AdvanceL1Block. cbn. rewrite Hl.
  by rewrite (bool_decide_eq_true_2 _ Hp).
Qed.

(** [rounds] from a state whose drain reads the block the traversal is at. *)
Lemma rounds_serves fuel blocks : ∀ a w done l1 datas,
  fetches txs_of → serves (a :: blocks) →
  (∀ b, b ∈ a :: blocks → (length (data_of b) < fuel)%nat) →
  (∃ w' done', drain fuel (mkL1Retrieval w (mkL1Traversal a done l1) datas) =
         (mkL1Retrieval w' (mkL1Traversal a done' l1) None, data_of a, Err io_EOF)) →
  ∃ w' l1', rounds fuel (length blocks) (mkL1Retrieval w (mkL1Traversal a done l1) datas) =
    (mkL1Retrieval w' (mkL1Traversal (default a (last blocks)) (match blocks with [] => done | _ => false end) l1')
       (match blocks with [] => datas | _ => None end),
     concat (data_of <$> removelast (a :: blocks)), Ok tt).
Proof.
  induction blocks as [|b blocks IH]; intros a w done l1 datas HF HS Hf HD; [by exists w, l1|].
  destruct HD as (w' & done' & HD). destruct (advance_serves a b blocks w' done' l1 None HS) as (l1' & HA).
  destruct (drain_closed fuel w' b l1') as (w2 & HD2); [done|apply Hf; set_solver|].
  destruct (IH b w' false l1' None) as (w3 & l1'' & HR);
    [done|by eapply serves_tail|intros; apply Hf; set_solver|eauto|].
  exists w3, l1''. cbn [length rounds]. rewrite HD, bool_decide_eq_true_2 by done. rewrite HA, HR.
  rewrite last_cons. destruct (last blocks) eqn:Hl; destruct blocks; try done.
Qed.

(** C29. Starting from a reset to [base], pulling the retrieval dry and then advancing the
    traversal delivers the batcher data of [base] and of each following L1 block up to
    the one the traversal then stands at (whose data comes next) exactly once and in
    chain order, for any chain the L1 node serves. *)
Theorem l1_data_stream fuel w prev datas base blocks :
  fetches txs_of → serves (base :: blocks) →
  (∀ b, b ∈ base :: blocks → (length (data_of b) < fuel)%nat) →
  let '(l1r, ds, r) := rounds fuel (length blocks) (reset_both (mkL1Retrieval w prev datas) base) in
  r = Ok tt ∧ ds = concat (data_of <$> removelast (base :: blocks)) ∧
  L1Retrieval_Origin l1r = default base (last blocks).
Proof.
  intros HF HS Hf. destruct (reset_both_open w prev datas base HF) as (w1 & ->).
  edestruct (rounds_serves fuel blocks base w1 false (l1t_l1Blocks prev)) as (w2 & l1 & ->);
    [exact HF|exact HS|exact Hf| |done].
  exists w1, false. apply drain_open. apply Hf. set_solver.
Qed.

(** The traversal is left un-pulled by a reset while the retrieval has the base
    block open: if the retrieval is pulled again after its first io.EOF and before
    the traversal advances, it delivers the data of [base] a second time. *)
Theorem reset_replays_base fuel w prev datas base :
  fetches txs_of → (length (data_of base) < fuel)%nat →
  let '(l1r, ds, r) := drain fuel (reset_both (mkL1Retrieval w prev datas) base) in
  let '(l1r', ds', r') := drain fuel l1r in
  r = Err io_EOF ∧ ds = data_of base ∧ r' = Err io_EOF ∧ ds' = data_of base ∧
  L1Retrieval_NextData cfg l1r' = (l1r', Err io_EOF).
Proof.
  intros HF Hf. destruct (reset_both_open w prev datas base HF) as (w1 & ->).
  rewrite drain_open by done.
  destruct (drain_closed fuel w1 base (l1t_l1Blocks prev) HF Hf) as (w2 & ->). done.
Qed.

End Stream.

(** ** Examples *)

#[local] Instance example_tx_fetcher : L1TransactionFetcher unit := {
  tf_InfoAndTxsByHash w h :=
    (w, Ok (mkBlockInfo h zero_hash zero_address zero_hash 0 0 zero_hash None zero_hash,
            [mkTransaction 2 (Some (cfg_BatchInboxAddress example_cfg)) h (Ok [])
               (λ _, Ok (cfg_BatchSenderAddress example_cfg))])) }.

#[local] Instance example_l1_node : L1Chain unit := {
  l1_ByLabel w _ := (w, Ok (example_l1 3));
  l1_ByNumber w k := (w, Ok (example_l1 k));
  l1_ByHash w h := (w, Err ethereum_NotFound) }.

Definition example_txs (h : Hash) : list Transaction :=
  [mkTransaction 2 (Some (cfg_BatchInboxAddress example_cfg)) h (Ok [])
     (λ _, Ok (cfg_BatchSenderAddress example_cfg))].

Lemma l1_data_stream_witness :
  snd (fst (rounds example_cfg 3 2 (reset_both example_cfg
    (mkL1Retrieval tt (NewL1Traversal tt) None) (example_l1 1)))) = [example_hash 1001; example_hash 1002].
Proof.
  pose proof (l1_data_stream example_cfg example_txs 3 tt (NewL1Traversal tt) None (example_l1 1)
                [example_l1 2; example_l1 3]) as HT.
  cbn [length] in HT. destruct (rounds _ _ _ _) as [[l1r ds] r]. cbn [fst snd].
  destruct HT as (_ & -> & _).
  - intros w h. eexists _, _. reflexivity.
  - intros i a b Ha Hb. destruct i as [|[|[|i]]]; cbn in Ha, Hb; simplify_eq.
    all: split; [reflexivity|]; intros l; exists l; reflexivity.
  - intros b _. cbn. repeat case_bool_decide; cbn; lia.
  - reflexivity.
Defined.

Lemma reset_replays_base_witness :
  let '(l1r, ds, r) := drain example_cfg 3 (reset_both example_cfg
    (mkL1Retrieval tt (NewL1Traversal tt) None) (example_l1 1)) in
  let '(l1r', ds', r') := drain example_cfg 3 l1r in
  ds = [example_hash 1001] ∧ ds' = ds.
Proof.
  pose proof (reset_replays_base example_cfg example_txs 3 tt (NewL1Traversal tt) None (example_l1 1)) as HT.
  destruct (drain _ _ _) as [[l1r ds] r]. destruct (drain _ _ l1r) as [[l1r' ds'] r'].
  destruct HT as (_ & -> & _ & -> & _).
  - intros w h. eexists _, _. reflexivity.
  - vm_compute. lia.
  - split; vm_compute; reflexivity.
Defined.
