(* ===== verification/ChannelInReader.v ===== *)
(** * Reading batches out of channels

    op-node/rollup/derive/channel_in_reader.go, [BatchReader] of channel.go and the
    RLP hooks of batch.go.  compress/zlib and the RLP stream of go-ethereum are
    parameters; the model of the stream in RLPStream.v is an instance of the
    latter. *)

From S2P Require Import Prelude GoErrors EthTypes Frame Channel ChannelBank RLP RLPStream.
From S2P Require Import Batch BatchQueue.

(** ** Libraries *)

(** [zlib.NewReader] on a buffer: the bytes the reader will deliver and the error it
    ends with. *)
Class ZlibReader := { zlib_NewReader : bytes → result (bytes * error) }.

(** [rlp.NewStream] on such a reader with an input limit, [Stream.Bytes], and the
    encoding of a byte string. *)
Class RLPReader := {
  RS : Type;
  rs_New : bytes * error → Z → RS;
  rs_Bytes : RS → RS * result bytes;
  rlp_EncodeString : bytes → bytes }.

(** The stream delivers [cs] and then ends. *)
Fixpoint reads `{RLPReader} (s : RS) (cs : list bytes) : Prop :=
  match cs with
  | [] => ∃ s', rs_Bytes s = (s', Err io_EOF)
  | c :: cs => ∃ s', rs_Bytes s = (s', Ok c) ∧ reads s' cs
  end.

(** A stream over the encodings of byte strings delivers them, as long as they stay
    within the limit. *)
Class RLPReaderLaws `{RLPReader} := {
  rs_reads : ∀ cs limit, 0 < limit < 2 ^ 63 → len (concat (rlp_EncodeString <$> cs)) <= limit →
    reads (rs_New (concat (rlp_EncodeString <$> cs), io_EOF) limit) cs }.

Section Reader.
Context `{ZlibReader} `{RLPReader} `{BatchRLP}.

(** ** RLP of a batch (batch.go) *)

Definition Batch_EncodeRLP (b : BatchData) : result bytes :=
  buf ← encodeTyped b; Ok (rlp_EncodeString buf).

Definition Batch_DecodeRLP (s : RS) : RS * result BatchData :=
  let '(s, v) := rs_Bytes s in
  match v with
  | Ok v => (s, decodeTyped v)
  | Err e => (s, Err e)
  | Panic m => (s, Panic m)
  end.

(** ** [BatchReader] (channel.go) *)

(** The closure [BatchReader] returns: the inclusion block and the stream it captures. *)
Definition batch_fn : Type := L1BlockRef * RS.

Definition BatchReader (r : bytes) (l1InclusionBlock : L1BlockRef) : result batch_fn :=
  zr ← zlib_NewReader r;
  Ok (l1InclusionBlock, rs_New zr 10000000).

Definition call_batch_fn (f : batch_fn) : batch_fn * result BatchWithL1InclusionBlock :=
  let '(l1, s) := f in
  let '(s, r) := Batch_DecodeRLP s in
  ((l1, s), b ← r; Ok (mkBatchWithL1 l1 b)).

(** ** [ChannelInReader] *)

Context {P : Type} `{NextDataProvider P} (cfg : Config).

Record ChannelInReader := mkChannelInReader {
  cr_nextBatchFn : option batch_fn; cr_prev : ChannelBank P }.

Definition NewChannelInReader (prev : ChannelBank P) : ChannelInReader := mkChannelInReader None prev.

Definition ChannelInReader_Origin (cr : ChannelInReader) : L1BlockRef := ChannelBank_Origin (cr_prev cr).

Definition WriteChannel (cr : ChannelInReader) (data : bytes) : ChannelInReader * result unit :=
  match BatchReader data (ChannelInReader_Origin cr) with
  | Ok f => (mkChannelInReader (Some f) (cr_prev cr), Ok tt)
  | Err e => (cr, Err e)
  | Panic m => (cr, Panic m)
  end.

Definition NextChannel (cr : ChannelInReader) : ChannelInReader := mkChannelInReader None (cr_prev cr).

(** The part of [NextBatch] that calls [nextBatchFn]. *)
Definition readBatch (cr : ChannelInReader) (f : batch_fn) : ChannelInReader * result BatchData :=
  let '(f, r) := call_batch_fn f in
  let cr := mkChannelInReader (Some f) (cr_prev cr) in
  match r with
  | Ok batch => (cr, Ok (bw_Batch batch))
  | Err _ => (NextChannel cr, Err NotEnoughData)
  | Panic m => (cr, Panic m)
  end.

Definition ChannelInReader_NextBatch (cr : ChannelInReader) : ChannelInReader * result BatchData :=
  match cr_nextBatchFn cr with
  | Some f => readBatch cr f
  | None =>
      let '(prev, r) := ChannelBank_NextData cfg (cr_prev cr) in
      let cr := mkChannelInReader None prev in
      match r with
      | Err e => (cr, Err e)
      | Panic m => (cr, Panic m)
      | Ok data =>
          let '(cr, r) := WriteChannel cr data in
          match r, cr_nextBatchFn cr with
          | Ok _, Some f => readBatch cr f
          | Ok _, None => (cr, Panic "nil function")
          | Err e, _ => (cr, Err (NewTemporaryError e))
          | Panic m, _ => (cr, Panic m)
          end
      end
  end.

Definition ChannelInReader_Reset (cr : ChannelInReader) (base : L1BlockRef)
  : ChannelInReader * result unit := (mkChannelInReader None (cr_prev cr), Err io_EOF).

(** ** Reading a whole channel *)

(** [NextBatch] until it has no batch. *)
Fixpoint drainBatches (fuel : nat) (cr : ChannelInReader) : ChannelInReader * list BatchData * result BatchData :=
  match fuel with
  | O => (cr, [], Panic "out of fuel")
  | S fuel =>
      match ChannelInReader_NextBatch cr with
      | (cr, Ok b) => let '(cr, bs, r) := drainBatches fuel cr in (cr, b :: bs, r)
      | (cr, r) => (cr, [], r)
      end
  end.

(** The channel data of [bs]: the compressed concatenation of their RLP encodings. *)
Definition channel_of (bs : list BatchData) (data : bytes) : Prop :=
  ∃ typed, Forall2 (λ b t, encodeTyped b = Ok t) bs typed ∧
    len (concat (rlp_EncodeString <$> typed)) <= 10000000 ∧
    zlib_NewReader data = Ok (concat (rlp_EncodeString <$> typed), io_EOF).

Definition sendable (b : BatchData) : Prop := wf_BatchV1 b ∧ rlp_size b < 2 ^ 63.

Lemma decodeTyped_encodeTyped b t : sendable b → encodeTyped b = Ok t → decodeTyped t = Ok b.
Proof.
  intros [Hwf Hs] He. destruct (Batch_Unmarshal_Marshal b Hwf Hs) as (e & HM & HU).
  unfold Batch_MarshalBinary in HM. rewrite He in HM. by injection HM as ->.
Qed.

Lemma drainBatches_S fuel cr :
  drainBatches (S fuel) cr =
  match ChannelInReader_NextBatch cr with
  | (cr, Ok b) => let '(cr, bs, r) := drainBatches fuel cr in (cr, b :: bs, r)
  | (cr, r) => (cr, [], r)
  end.
Proof. done. Qed.

Lemma drain_reads bs typed : ∀ cr l1 s,
  Forall sendable bs → Forall2 (λ b t, encodeTyped b = Ok t) bs typed → reads s typed →
  cr_nextBatchFn cr = Some (l1, s) →
  drainBatches (S (length bs)) cr = (mkChannelInReader None (cr_prev cr), bs, Err NotEnoughData).
Proof.
  revert typed. induction bs as [|b bs IH]; intros typed cr l1 s Hsd HF HR Hfn;
    cbn [length]; rewrite drainBatches_S; unfold ChannelInReader_NextBatch; rewrite Hfn;
    unfold readBatch, call_batch_fn, Batch_DecodeRLP; inversion HF; subst; cbn in HR.
  - destruct HR as (s' & ->). done.
  - destruct HR as (s' & -> & HR). apply Forall_cons_1 in Hsd as [Hb Hsd].
    erewrite decodeTyped_encodeTyped by eassumption. cbn [mbind result_bind].
    by erewrite IH by done.
Qed.

Context `{!RLPReaderLaws}.

Lemma drain_channel cr prev bs data :
  cr_nextBatchFn cr = None → ChannelBank_NextData cfg (cr_prev cr) = (prev, Ok data) →
  Forall sendable bs → channel_of bs data →
  drainBatches (S (length bs)) cr = (mkChannelInReader None prev, bs, Err NotEnoughData).
Proof.
  intros Hfn HN Hsd (typed & HF & Hl & HZ).
  assert (HR : reads (rs_New (concat (rlp_EncodeString <$> typed), io_EOF) 10000000) typed)
    by (apply rs_reads; [lia|done]).
  rewrite <- (drain_reads bs typed
    (mkChannelInReader (Some (Origin (cb_prev prev), rs_New (concat (rlp_EncodeString <$> typed), io_EOF) 10000000)) prev)
    _ _ Hsd HF HR eq_refl).
  rewrite !drainBatches_S. unfold ChannelInReader_NextBatch. rewrite Hfn, HN.
  unfold WriteChannel, BatchReader. rewrite HZ. done.
Qed.

(** A channel with data the reader cannot decode is abandoned: whatever the stream
    reports, the reader goes back to asking the bank for the next channel. *)
Lemma NextBatch_error cr cr' f e :
  cr_nextBatchFn cr = Some f → ChannelInReader_NextBatch cr = (cr', Err e) →
  e = NotEnoughData ∧ cr_nextBatchFn cr' = None ∧ cr_prev cr' = cr_prev cr.
Proof.
  unfold ChannelInReader_NextBatch, readBatch. intros -> HN.
  destruct (call_batch_fn f) as [f' [b|e'|m]]; by simplify_eq.
Qed.

(** ** The stage as a batch provider *)

Context (Hstable : ∀ p : P, Origin (fst (NextData p)) = Origin p).

Lemma IngestData_prev (cb cb' : ChannelBank P) data :
  IngestData cfg cb data = Ok cb' → cb_prev cb' = cb_prev cb.
Proof.
  unfold IngestData, prune. intros HI. apply bind_Ok in HI as (c & HP & HI).
  apply bind_Ok in HP as ([q m] & _ & [= <-]).
  destruct (ParseFrames data) as [fs|e|s]; [|by simplify_eq..].
  destruct (fold_left _ fs _). by simplify_eq.
Qed.

Lemma ChannelBank_NextData_origin (cb : ChannelBank P) :
  ChannelBank_Origin (fst (ChannelBank_NextData cfg cb)) = ChannelBank_Origin cb.
Proof.
  assert (HL : ∀ c, ChannelBank_Origin (fst (loadData cfg c)) = ChannelBank_Origin c).
  { intros c. unfold loadData, ChannelBank_Origin. specialize (Hstable (cb_prev c)).
    destruct (NextData (cb_prev c)) as [prev [d|e|s]]; [|done..].
    destruct (IngestData _ _ _) as [c'|e|s] eqn:HI; [|done..].
    apply IngestData_prev in HI. cbn in *. by rewrite HI. }
  unfold ChannelBank_NextData, Read.
  destruct (cb_channelQueue cb) as [|first rest]; [apply HL|].
  destruct (_ !! _) as [ch|]; [|done]. destruct (timedOut _ _ _); [by rewrite bool_decide_eq_true_2, HL by done|].
  destruct (negb _); [apply HL|]. destruct (Reader ch) as [d|e|s]; [done| |done].
  case_bool_decide; [by rewrite HL|done].
Qed.

Lemma ChannelInReader_NextBatch_origin (cr : ChannelInReader) :
  ChannelInReader_Origin (fst (ChannelInReader_NextBatch cr)) = ChannelInReader_Origin cr.
Proof.
  assert (HR : ∀ c f, cr_prev (fst (readBatch c f)) = cr_prev c).
  { intros c f. unfold readBatch. by destruct (call_batch_fn f) as [f' [b|e|m]]. }
  unfold ChannelInReader_NextBatch, ChannelInReader_Origin.
  destruct (cr_nextBatchFn cr) as [f|]; [by rewrite HR|].
  pose proof (ChannelBank_NextData_origin (cr_prev cr)) as HO.
  destruct (ChannelBank_NextData _ _) as [prev [d|e|m]]; [|done..].
  unfold WriteChannel. destruct (BatchReader _ _) as [f|e|m]; [|done..].
  cbn. by rewrite HR.
Qed.

Definition ChannelInReader_provider : NextBatchProvider ChannelInReader := {|
  prov_NextBatch := ChannelInReader_NextBatch;
  prov_Origin := ChannelInReader_Origin;
  prov_NextBatch_Origin := ChannelInReader_NextBatch_origin |}.

End Reader.

(** ** The RLP stream as an instance *)

#[export] Instance stream_reader : RLPReader := {
  RS := Stream;
  rs_New zr limit := NewStream (fst zr) (snd zr) limit;
  rs_Bytes := Stream_Bytes;
  rlp_EncodeString := enc_string }.

Lemma Stream_Bytes_end s :
  s_stack s = [] → s_kind s = None → s_r s = [] → s_rerr s = io_EOF → is_u64 (s_remaining s) →
  ∃ s', Stream_Bytes s = (s', Err io_EOF).
Proof.
  intros Hst Hk Hr He Hu. unfold Stream_Bytes, Stream_Kind. rewrite Hk.
  unfold Stream_readKind, readByte, willRead, reader_end. cbn. rewrite Hst. cbn.
  destruct (s_limited s); cbn; [destruct (_ <? 1); cbn|].
  all: rewrite ?Hr; cbn; rewrite ?He; cbn; eauto.
Qed.

Lemma len_enc_string c : len c <= len (enc_string c).
Proof.
  assert (HP : len c <= len (puthead 0x80 0xB7 (len c) ++ c)).
  { rewrite len_app. pose proof (len_nonneg (puthead 0x80 0xB7 (len c))). lia. }
  unfold enc_string. destruct c as [|b [|? ?]]; [done| |done]. by case_match.
Qed.

Lemma stream_reads cs : ∀ s,
  wf_stream s → s_stack s = [] → s_kind s = None → s_rerr s = io_EOF →
  s_limited s = true → s_remaining s < 2 ^ 63 →
  s_r s = concat (enc_string <$> cs) → len (concat (enc_string <$> cs)) <= s_remaining s →
  reads s cs.
Proof.
  induction cs as [|c cs IH]; intros s Hwf Hst Hk He Hlim Hmax Hr Hl; cbn [reads].
  - apply Stream_Bytes_end; try done. apply Hwf.
  - cbn in Hr, Hl. rewrite len_app in Hl.
    pose proof (len_nonneg (concat (enc_string <$> cs))).
    pose proof (len_enc_string c) as Hc.
    assert (Hroom : room (len (enc_string c)) s) by (split; [by rewrite Hst|lia]).
    destruct (Stream_Bytes_complete c _ s Hwf Hk ltac:(lia) Hr Hroom) as (s' & HB & HA & Hk').
    exists s'. split; [exact HB|]. destruct HA as [Har Hae Hal Harem Hast].
    apply IH; try congruence.
    + by eapply wf_adv; [exact Hwf|exact Hroom|split].
    + by rewrite Hast, Hst.
    + rewrite Harem, Hlim. pose proof (len_nonneg (enc_string c)). lia.
    + rewrite Hr in Har. by apply app_inv_head in Har.
    + rewrite Harem, Hlim. lia.
Qed.

#[export] Program Instance stream_reader_laws : RLPReaderLaws.
Next Obligation.
  intros cs limit Hlim Hl. apply stream_reads; cbn; try done; try lia.
  repeat split; cbn; [constructor|lia..|done].
Qed.
