(* ===== verification/ChannelOut.v ===== *)
(** * Writing channels

    op-node/rollup/derive/channel_out.go: the sending side, used by the batcher.  It
    turns L2 blocks into batches, compresses them and cuts the result into frames.
    compress/zlib is a parameter, as in ChannelInReader.v. *)

From S2P Require Import Prelude GoErrors EthTypes Extern L1Info Frame Channel ChannelBank.
From S2P Require Import RLP RLPStream Batch BatchQueue Deposits Attributes ChannelInReader.

(** ** Libraries *)

(** [zlib.Writer]: each operation gives the bytes it appends to the underlying
    buffer and its error. *)
Class ZlibWriter := {
  ZW : Type;
  zw_New : ZW;
  zw_Write : ZW → bytes → ZW * bytes * option error;
  zw_Flush : ZW → ZW * bytes * option error;
  zw_Close : ZW → ZW * bytes * option error }.

(** What is done to a writer before it is closed. *)
Inductive zop := ZWrite (b : bytes) | ZFlush.

Definition zstep `{ZlibWriter} (z : ZW) (op : zop) : ZW * bytes * option error :=
  match op with ZWrite b => zw_Write z b | ZFlush => zw_Flush z end.

(** The session [ops] leaves the writer in state [z] with output [out] and no error. *)
Inductive zsession `{ZlibWriter} : list zop → ZW → bytes → Prop :=
| zsession_nil : zsession [] zw_New []
| zsession_snoc ops z out op z' o : zsession ops z out → zstep z op = (z', o, None) →
    zsession (ops ++ [op]) z' (out ++ o).

Fixpoint zwritten (ops : list zop) : bytes :=
  match ops with
  | [] => []
  | ZWrite b :: ops => b ++ zwritten ops
  | ZFlush :: ops => zwritten ops
  end.

(** Writing to a buffer does not fail before the writer is closed, and decompressing
    the output of a closed session gives what was written. *)
Class ZlibLaws `{ZlibReader} `{ZlibWriter} := {
  zstep_ok : ∀ ops z out op, zsession ops z out → ∃ z' o, zstep z op = (z', o, None);
  zclose_ok : ∀ ops z out, zsession ops z out →
    ∃ z' o, zw_Close z = (z', o, None) ∧
            zlib_NewReader (out ++ o) = Ok (zwritten ops, io_EOF) }.

(** The part of [types.Block] that is used. *)
Record Block := mkBlock {
  bl_ParentHash : Hash; bl_Time : Z; bl_Transactions : list Transaction }.

Definition ErrNotDepositTx : error := ErrorNew "first transaction in block is not a deposit tx".

Section ChannelOut.
Context `{ZlibWriter} `{RLPReader} `{BatchRLP}.

(** ** [blockToBatch] *)

(** The loop that collects the opaque transactions. *)
Fixpoint opaqueTxs (txs : list Transaction) : result (list bytes) :=
  match txs with
  | [] => Ok []
  | tx :: txs =>
      if tx_Type tx =? byte_val DepositTxType then opaqueTxs txs
      else otx ← tx_MarshalBinary tx; rest ← opaqueTxs txs; Ok (otx :: rest)
  end.

(** The batch of a block. *)
Definition batchOf (block : Block) : result BatchData :=
  txs ← opaqueTxs (bl_Transactions block);
  match bl_Transactions block with
  | [] => Panic "index out of range"
  | l1InfoTx :: _ =>
      if negb (tx_Type l1InfoTx =? byte_val DepositTxType) then Err ErrNotDepositTx
      else
        l1Info ← L1InfoDepositTxData (tx_Data l1InfoTx);
        Ok (mkBatchV1 (bl_ParentHash block) (li_Number l1Info) (li_BlockHash l1Info)
              (bl_Time block) txs)
  end.

(** The bytes written to the writer. *)
Definition blockToBatch (block : Block) : result bytes :=
  batch ← batchOf block; Batch_EncodeRLP batch.

(** ** [ChannelOut] *)

Record ChannelOut := mkChannelOut {
  co_id : ChannelID; co_frame : Z; co_compress : ZW; co_buf : bytes; co_closed : bool }.

(** [rand.Read] into the id: the random bytes, or an error. *)
Definition NewChannelOut (rand : result ChannelID) : result ChannelOut :=
  id ← rand; Ok (mkChannelOut id 0 zw_New [] false).

Definition ChannelOut_Reset (co : ChannelOut) (rand : result ChannelID) : ChannelOut * result unit :=
  match rand with
  | Ok id => (mkChannelOut id 0 zw_New [] false, Ok tt)
  | Err e => (mkChannelOut (co_id co) 0 zw_New [] false, Err e)
  | Panic s => (mkChannelOut (co_id co) 0 zw_New [] false, Panic s)
  end.

(** Result of a writer operation on the compressor. *)
Definition compressed (co : ChannelOut) (closed : bool) (r : ZW * bytes * option error)
  : ChannelOut * result unit :=
  let '(z, out, err) := r in
  (mkChannelOut (co_id co) (co_frame co) z (co_buf co ++ out) closed,
   match err with None => Ok tt | Some e => Err e end).

Definition AddBlock (co : ChannelOut) (block : Block) : ChannelOut * result unit :=
  if co_closed co then (co, Err (ErrorNew "already closed"))
  else
    match blockToBatch block with
    | Ok b => compressed co (co_closed co) (zw_Write (co_compress co) b)
    | Err e => (co, Err e)
    | Panic s => (co, Panic s)
    end.

Definition ReadyBytes (co : ChannelOut) : Z := len (co_buf co).

Definition Flush (co : ChannelOut) : ChannelOut * result unit :=
  compressed co (co_closed co) (zw_Flush (co_compress co)).

Definition Close (co : ChannelOut) : ChannelOut * result unit :=
  if co_closed co then (co, Err (ErrorNew "already closed"))
  else compressed co true (zw_Close (co_compress co)).

Definition OutputFrame (co : ChannelOut) (w : bytes) (maxSize : Z) : ChannelOut * bytes * option error :=
  let maxDataSize := maxSize ⊟ 47 ⊟ 1 in
  let '(maxDataSize, isLast) :=
    if len (co_buf co) <? maxDataSize then (len (co_buf co), co_closed co) else (maxDataSize, false) in
  let '(data, buf, err) := read_full (Z.to_nat maxDataSize) (co_buf co) in
  let co := mkChannelOut (co_id co) (co_frame co) (co_compress co) buf (co_closed co) in
  match err with
  | Some e => (co, w, Some e)
  | None =>
      let '(w, err) := Frame_MarshalBinary (mkFrame (co_id co) (u16 (co_frame co)) data isLast) w in
      match err with
      | Some e => (co, w, Some e)
      | None =>
          (mkChannelOut (co_id co) (co_frame co ⊞ 1) (co_compress co) (co_buf co) (co_closed co), w,
           if isLast then Some io_EOF else None)
      end
  end.

(** ** Cutting the buffer into frames *)

(** [OutputFrame] until it reports an error or [io.EOF], one buffer per frame. *)
Fixpoint outputFrames (fuel : nat) (co : ChannelOut) (maxSize : Z) : ChannelOut * list bytes * option error :=
  match fuel with
  | O => (co, [], Some (ErrorNew "out of fuel"))
  | S fuel =>
      let '(co, w, err) := OutputFrame co [] maxSize in
      match err with
      | Some e => (co, [w], Some e)
      | None => let '(co, ws, err) := outputFrames fuel co maxSize in (co, w :: ws, err)
      end
  end.

(** Pieces of [k] bytes and a last, shorter one. *)
Fixpoint pieces (fuel k : nat) (buf : bytes) : list bytes :=
  match fuel with
  | O => [buf]
  | S fuel => if (length buf <? k)%nat then [buf] else take k buf :: pieces fuel k (drop k buf)
  end.

Fixpoint frames_from (n : Z) (id : ChannelID) (datas : list bytes) : list Frame :=
  match datas with
  | [] => []
  | [d] => [mkFrame id n d true]
  | d :: datas => mkFrame id n d false :: frames_from (n + 1) id datas
  end.

Lemma frames_from_cons n id d d' ds :
  frames_from n id (d :: d' :: ds) = mkFrame id n d false :: frames_from (n + 1) id (d' :: ds).
Proof. done. Qed.

Lemma frames_from_imap id datas : ∀ n,
  frames_from n id datas =
  imap (λ i d, mkFrame id (n + Z.of_nat i) d (bool_decide (S i = length datas))) datas.
Proof.
  induction datas as [|d [|d' ds] IH]; intros n; [done|cbn; by rewrite Z.add_0_r|].
  rewrite frames_from_cons, IH, (imap_cons _ d (d' :: ds)). apply (f_equal2 cons).
  - by rewrite Z.add_0_r, bool_decide_eq_false_2.
  - apply imap_ext. intros i x _. cbn [compose length]. f_equal; [lia|].
    apply bool_decide_ext. lia.
Qed.

Lemma frames_from_seq id datas : frames_from 0 id datas = frame_seq id datas.
Proof. apply frames_from_imap. Qed.

Lemma pieces_ne fuel k buf : pieces fuel k buf ≠ [].
Proof. destruct fuel; cbn; [done|]. by case_match. Qed.

Lemma concat_pieces k fuel : ∀ buf, concat (pieces fuel k buf) = buf.
Proof.
  induction fuel as [|fuel IH]; intros buf; cbn; [by rewrite app_nil_r|].
  case_match; cbn; [by rewrite app_nil_r|]. by rewrite IH, take_drop.
Qed.

Lemma length_pieces k fuel buf :
  (0 < k)%nat → (length buf / k <= fuel)%nat → length (pieces fuel k buf) = S (length buf / k).
Proof.
  intros Hk. revert buf. induction fuel as [|fuel IH]; intros buf Hf; cbn [pieces]; [cbn [length]; lia|].
  destruct (Nat.ltb_spec (length buf) k) as [Hl|Hl]; [by rewrite Nat.div_small by done|].
  assert (HD : (length buf / k = S (length (drop k buf) / k))%nat).
  { rewrite length_drop. replace (length buf) with (length buf - k + 1 * k)%nat at 1 by lia.
    rewrite Nat.div_add by lia. lia. }
  cbn [length]. rewrite IH by lia. lia.
Qed.

Lemma pieces_size k fuel buf :
  (0 < k)%nat → (length buf / k <= fuel)%nat → Forall (λ d, (length d <= k)%nat) (pieces fuel k buf).
Proof.
  intros Hk. revert buf. induction fuel as [|fuel IH]; intros buf Hf; cbn [pieces].
  - repeat constructor. apply Nat.lt_le_incl, Nat.div_small_iff; lia.
  - destruct (Nat.ltb_spec (length buf) k) as [Hl|Hl]; [by repeat constructor; lia|].
    constructor; [rewrite length_take; lia|]. apply IH. rewrite length_drop.
    replace (length buf) with (length buf - k + 1 * k)%nat in Hf by lia.
    rewrite Nat.div_add in Hf by lia. lia.
Qed.

(** One call, with the frame it writes. *)
Lemma OutputFrame_step co w maxSize :
  48 <= maxSize < 2 ^ 63 → is_u16 (co_frame co) →
  let k := Z.to_nat (maxSize - 48) in
  OutputFrame co w maxSize =
  if (length (co_buf co) <? k)%nat
  then (mkChannelOut (co_id co) (co_frame co + 1) (co_compress co) [] (co_closed co),
        w ++ frame_bytes (mkFrame (co_id co) (co_frame co) (co_buf co) (co_closed co)),
        if co_closed co then Some io_EOF else None)
  else (mkChannelOut (co_id co) (co_frame co + 1) (co_compress co) (drop k (co_buf co)) (co_closed co),
        w ++ frame_bytes (mkFrame (co_id co) (co_frame co) (take k (co_buf co)) false), None).
Proof.
  intros Hm Hf k. unfold OutputFrame, is_u16 in *.
  rewrite !u64_small by (unfold is_u64; rewrite ?u64_small; unfold is_u64; lia).
  replace (maxSize - 47 - 1) with (maxSize - 48) by lia.
  assert (Hu : u16 (co_frame co) = co_frame co) by (apply Z.mod_small; lia).
  assert (Hcmp : (len (co_buf co) <? maxSize - 48) = (length (co_buf co) <? k)%nat).
  { apply eq_bool_prop_intro. split; intros Hx%Is_true_true; apply Is_true_true;
      [apply Z.ltb_lt in Hx; apply Nat.ltb_lt|apply Nat.ltb_lt in Hx; apply Z.ltb_lt];
      unfold len, k in *; lia. }
  assert (Hn : co_frame co ⊞ 1 = co_frame co + 1) by (apply u64_small; unfold is_u64; lia).
  rewrite Hcmp. destruct (Nat.ltb_spec (length (co_buf co)) k) as [Hl|Hl]; unfold read_full;
    cbn [co_id co_frame co_compress co_buf co_closed].
  - unfold len. rewrite Nat2Z.id, Nat.ltb_irrefl, take_ge, drop_ge by lia.
    by rewrite Frame_MarshalBinary_buffer, Hu, Hn.
  - fold k. destruct (Nat.ltb_spec (length (co_buf co)) k); [lia|].
    by rewrite Frame_MarshalBinary_buffer, Hu, Hn.
Qed.

Lemma outputFrames_pieces maxSize fuel : ∀ co,
  48 < maxSize < 2 ^ 63 → co_closed co = true → 0 <= co_frame co →
  let k := Z.to_nat (maxSize - 48) in
  (length (co_buf co) / k < fuel)%nat → co_frame co + Z.of_nat (length (co_buf co) / k) < 2 ^ 16 →
  ∃ co', outputFrames fuel co maxSize =
    (co', frame_bytes <$> frames_from (co_frame co) (co_id co) (pieces (length (co_buf co) / k) k (co_buf co)),
     Some io_EOF) ∧ co_buf co' = [].
Proof.
  induction fuel as [|fuel IH]; intros co Hm Hc Hn k Hf Hmax; [lia|].
  cbn [outputFrames]. rewrite OutputFrame_step by (unfold is_u16; lia). fold k. rewrite Hc.
  destruct (Nat.ltb_spec (length (co_buf co)) k) as [Hl|Hl].
  - rewrite Nat.div_small by done. cbn. eauto.
  - assert (HD : (length (co_buf co) / k = S (length (drop k (co_buf co)) / k))%nat).
    { rewrite length_drop. replace (length (co_buf co)) with (length (co_buf co) - k + 1 * k)%nat at 1 by lia.
      rewrite Nat.div_add by (unfold k; lia). lia. }
    edestruct (IH (mkChannelOut (co_id co) (co_frame co + 1) (co_compress co) (drop k (co_buf co)) true))
      as (co' & HO & Hb); cbn [co_frame co_buf co_closed co_id] in *; fold k; try done; try lia.
    fold k in HO.
    rewrite HO. exists co'. split; [|done].
    rewrite HD. cbn [pieces]. destruct (Nat.ltb_spec (length (co_buf co)) k); [lia|].
    pose proof (pieces_ne (length (drop k (co_buf co)) / k) k (drop k (co_buf co))).
    destruct (pieces _ k (drop k (co_buf co))) as [|d ds]; [done|]. rewrite frames_from_cons. done.
Qed.

(** ** The sending side as a whole *)

Context `{ZlibReader} `{!ZlibLaws} `{!RLPReaderLaws}.

(** What a batcher may have done with a channel so far: the batches it added, the
    frames it has already output (one buffer each), the channel's state. *)
Inductive sending (id : ChannelID) : list BatchData → list bytes → ChannelOut → Prop :=
| send_new : sending id [] [] (mkChannelOut id 0 zw_New [] false)
| send_AddBlock bs outs co block b co' :
    sending id bs outs co → batchOf block = Ok b → AddBlock co block = (co', Ok tt) →
    sending id (bs ++ [b]) outs co'
| send_Flush bs outs co co' :
    sending id bs outs co → Flush co = (co', Ok tt) → sending id bs outs co'
| send_OutputFrame bs outs co maxSize co' w :
    sending id bs outs co → 48 <= maxSize <= MaxFrameLen →
    OutputFrame co [] maxSize = (co', w, None) → sending id bs (outs ++ [w]) co'.

Definition open_frames (id : ChannelID) (n : Z) (ds : list bytes) : list Frame :=
  imap (λ i d, mkFrame id (n + Z.of_nat i) d false) ds.

Lemma open_frames_app id ps ds : ∀ n,
  ps ≠ [] → open_frames id n ds ++ frames_from (n + len ds) id ps = frames_from n id (ds ++ ps).
Proof.
  intros n Hne. revert n. induction ds as [|d ds IH]; intros n; [by rewrite len_nil, Z.add_0_r|].
  assert (HO : open_frames id n (d :: ds) = mkFrame id n d false :: open_frames id (n + 1) ds).
  { unfold open_frames. rewrite imap_cons, Z.add_0_r. f_equal.
    apply imap_ext. intros i x _. cbn [compose]. f_equal. lia. }
  rewrite HO, len_cons. cbn [app]. replace (n + (1 + len ds)) with (n + 1 + len ds) by lia.
  rewrite IH. destruct ds as [|d' ds]; [by destruct ps|done].
Qed.

(** The channel has output [outs], which hold the pieces [ds] of the compressed data of
    [bs]; the rest of that data is in its buffer. *)
Definition sent (id : ChannelID) (bs : list BatchData) (outs : list bytes) (co : ChannelOut) : Prop :=
  ∃ ops typed ds,
    zsession ops (co_compress co) (concat ds ++ co_buf co) ∧
    Forall2 (λ b t, encodeTyped b = Ok t) bs typed ∧
    zwritten ops = concat (rlp_EncodeString <$> typed) ∧
    outs = frame_bytes <$> open_frames id 0 ds ∧ Forall (λ d, len d <= MaxFrameLen) ds ∧
    co_id co = id ∧ co_frame co = len ds ∧ co_closed co = false.

Lemma zwritten_snoc ops op :
  zwritten (ops ++ [op]) = zwritten ops ++ match op with ZWrite b => b | ZFlush => [] end.
Proof.
  induction ops as [|[b|] ops IH]; cbn; [by destruct op; rewrite ?app_nil_r|by rewrite IH, app_assoc|done].
Qed.

(** A compressor operation extends the session. *)
Lemma sent_compressed id bs bs' outs co co' op typed' :
  sent id bs outs co →
  compressed co (co_closed co) (zstep (co_compress co) op) = (co', Ok tt) →
  Forall2 (λ b t, encodeTyped b = Ok t) bs' typed' →
  match op with ZWrite b => b | ZFlush => [] end = concat (rlp_EncodeString <$> typed') →
  sent id (bs ++ bs') outs co'.
Proof.
  intros (ops & typed & ds & HZ & HF & HW & HO & Hd & Hid & Hn & Hc) HC HF' Hop.
  destruct (zstep_ok ops _ _ op HZ) as (z' & o & Hz). unfold compressed in HC. rewrite Hz in HC.
  injection HC as <-. exists (ops ++ [op]), (typed ++ typed'), ds.
  split_and!; cbn; try done.
  - rewrite app_assoc. by eapply zsession_snoc.
  - by apply Forall2_app.
  - by rewrite zwritten_snoc, HW, Hop, fmap_app, concat_app.
Qed.

Lemma open_frames_snoc id n ds d :
  open_frames id n (ds ++ [d]) = open_frames id n ds ++ [mkFrame id (n + len ds) d false].
Proof. unfold open_frames. rewrite imap_app. cbn. unfold len. by rewrite Nat.add_0_r. Qed.

Lemma length_frames_of_outs id n ds : length (frame_bytes <$> open_frames id n ds) = length ds.
Proof. unfold open_frames. by rewrite length_fmap, length_imap. Qed.

Lemma sending_sent id bs outs co : sending id bs outs co → len outs <= 2 ^ 16 → sent id bs outs co.
Proof.
  induction 1 as [|bs outs co block b co' _ IH HB HA|bs outs co co' _ IH HF
                 |bs outs co maxSize co' w _ IH Hm HO]; intros Hlen.
  - exists [], [], []. split_and!; try done. apply zsession_nil.
  - specialize (IH Hlen). pose proof IH as (_ & _ & _ & _ & _ & _ & _ & _ & _ & _ & Hc).
    unfold AddBlock in HA. rewrite Hc in HA. unfold blockToBatch in HA. rewrite HB in HA.
    cbn [mbind result_bind] in HA. unfold Batch_EncodeRLP in HA.
    destruct (encodeTyped b) as [t|e|s] eqn:Et; [|done..].
    apply (sent_compressed id bs [b] outs co co' (ZWrite (rlp_EncodeString t)) [t] IH).
    + by rewrite Hc.
    + by repeat constructor.
    + cbn. by rewrite app_nil_r.
  - specialize (IH Hlen). rewrite <- (app_nil_r bs).
    apply (sent_compressed id bs [] outs co co' ZFlush [] IH); [done|constructor|done].
  - rewrite len_app, len_cons, len_nil in Hlen. specialize (IH ltac:(lia)).
    destruct IH as (ops & typed & ds & HZ & HF & HW & Ho & Hd & Hid & Hn & Hc).
    assert (Hl : len outs = len ds) by (rewrite Ho; unfold len; by rewrite length_frames_of_outs).
    pose proof (len_nonneg ds). unfold MaxFrameLen in *.
    rewrite OutputFrame_step, Hc in HO by (unfold is_u16; lia).
    set (k := Z.to_nat (maxSize - 48)) in *.
    exists ops, typed.
    destruct (Nat.ltb_spec (length (co_buf co)) k) as [Hlt|Hlt]; simplify_eq.
    + exists (ds ++ [co_buf co]). split_and!; cbn; try done.
      * rewrite concat_app. cbn. by rewrite !app_nil_r.
      * rewrite open_frames_snoc, fmap_app. by rewrite Hn.
      * apply Forall_app. split; [done|]. constructor; [|constructor]. unfold MaxFrameLen, len, k in *. lia.
      * rewrite len_app, len_cons, len_nil. lia.
    + exists (ds ++ [take k (co_buf co)]). split_and!; cbn; try done.
      * rewrite concat_app. cbn. by rewrite app_nil_r, <- app_assoc, take_drop.
      * rewrite open_frames_snoc, fmap_app. by rewrite Hn.
      * apply Forall_app. split; [done|]. constructor; [|constructor]. unfold MaxFrameLen, len, k in *. rewrite length_take. lia.
      * rewrite len_app, len_cons, len_nil. lia.
Qed.

Lemma ParseFrames_one f : wf_Frame f → ParseFrames (DerivationVersion0 :: frame_bytes f) = Ok [f].
Proof.
  intros Hf. cbn [ParseFrames]. rewrite bool_decide_eq_true_2 by done. cbn [negb].
  rewrite <- (app_nil_r (frame_bytes f)). change (frame_bytes f ++ []) with (concat (frame_bytes <$> [f])).
  rewrite parse_loop_frames; [done|by apply Forall_singleton|done].
Qed.

Lemma frame_seq_wf id datas :
  length id = ChannelIDLength → len datas <= 2 ^ 16 → Forall (λ d, len d <= MaxFrameLen) datas →
  Forall wf_Frame (frame_seq id datas).
Proof.
  intros Hid Hl Hd. apply Forall_forall. intros f Hf.
  apply elem_of_lookup_imap in Hf as (i & d & -> & Hi).
  split; [done|]. split; [|by eapply Forall_lookup_1 in Hd].
  apply lookup_lt_Some in Hi. unfold len in Hl. unfold is_u16. cbn. lia.
Qed.

Lemma Close_sent id bs outs co :
  sent id bs outs co →
  ∃ typed ds co', Close co = (co', Ok tt) ∧ co_closed co' = true ∧ co_id co' = id ∧ co_frame co' = len ds ∧
    Forall2 (λ b t, encodeTyped b = Ok t) bs typed ∧
    zlib_NewReader (concat ds ++ co_buf co') = Ok (concat (rlp_EncodeString <$> typed), io_EOF) ∧
    outs = frame_bytes <$> open_frames id 0 ds ∧ Forall (λ d, len d <= MaxFrameLen) ds.
Proof.
  intros (ops & typed & ds & HZ & HF & HW & HO & Hd & Hid & Hn & Hc).
  destruct (zclose_ok _ _ _ HZ) as (z' & o & HC & HR).
  unfold Close. rewrite Hc, HC. exists typed, ds. eexists. split; [done|].
  cbn [co_closed co_id co_frame co_buf]. rewrite HW, <- app_assoc in HR. done.
Qed.

Lemma frames_from_data id datas : ∀ n f, f ∈ frames_from n id datas → f_Data f ∈ datas.
Proof.
  induction datas as [|d [|d' ds] IH]; intros n f Hf; [by apply elem_of_nil in Hf| |].
  - apply list_elem_of_singleton in Hf as ->. by constructor.
  - rewrite frames_from_cons in Hf. apply elem_of_cons in Hf as [->|Hf]; [by constructor|].
    constructor. by eapply IH.
Qed.

Lemma len_frame_bytes f : wf_Frame f → len (frame_bytes f) = 23 + len (f_Data f).
Proof.
  intros Hf. unfold frame_bytes. rewrite len_app, len_frame_body by done.
  rewrite len_cons, len_nil. lia.
Qed.

(** The frames of a closed channel that already output the pieces [ds]. *)
Lemma outputFrames_seq id ds co maxSize :
  let k := Z.to_nat (maxSize - 48) in
  let n := (length (co_buf co) / k)%nat in
  co_closed co = true → co_id co = id → co_frame co = len ds → length id = ChannelIDLength →
  Forall (λ d, len d <= MaxFrameLen) ds → 48 < maxSize <= MaxFrameLen → len ds + Z.of_nat n < 2 ^ 16 →
  ∃ co' outs datas, outputFrames (S n) co maxSize = (co', outs, Some io_EOF) ∧
    datas ≠ [] ∧ len datas <= 2 ^ 16 ∧ concat datas = concat ds ++ co_buf co ∧
    Forall (λ w, 1 + len w <= maxSize) outs ∧ Forall wf_Frame (frame_seq id datas) ∧
    (frame_bytes <$> open_frames id 0 ds) ++ outs = frame_bytes <$> frame_seq id datas.
Proof.
  intros k n Hcl Hci Hcf Hid Hd Hm Hn. pose proof (len_nonneg ds) as Hds. unfold MaxFrameLen in Hm.
  destruct (outputFrames_pieces maxSize (S n) co) as (co2 & HO & _);
    [lia|done|lia|unfold n; fold k; lia|fold k n; lia|].
  fold k n in HO. set (ps := pieces n k (co_buf co)) in *.
  assert (Hps : ps ≠ []) by apply pieces_ne.
  assert (Hk : (0 < k)%nat) by (unfold k; lia).
  assert (Hpl : Forall (λ d, (length d <= k)%nat) ps) by (by apply pieces_size).
  assert (Hpn : length ps = S n) by (by apply length_pieces).
  assert (Hlen : len (ds ++ ps) <= 2 ^ 16) by (rewrite len_app; unfold len in *; lia).
  assert (Hall : Forall (λ d, len d <= MaxFrameLen) (ds ++ ps)).
  { apply Forall_app. split; [done|]. eapply Forall_impl; [exact Hpl|]. cbn. intros d Hld.
    unfold len, MaxFrameLen, k in *. lia. }
  pose proof (frame_seq_wf id (ds ++ ps) Hid Hlen Hall) as Hwf.
  assert (Hfs : open_frames id 0 ds ++ frames_from (co_frame co) (co_id co) ps = frame_seq id (ds ++ ps)).
  { by rewrite <- frames_from_seq, <- (open_frames_app id ps ds 0 Hps), Hci, Hcf, Z.add_0_l. }
  exists co2. eexists. exists (ds ++ ps). split_and!; [exact HO|by destruct ds|done| | |done|].
  - unfold ps. by rewrite concat_app, concat_pieces.
  - rewrite <- Hfs in Hwf. apply Forall_app in Hwf as [_ Hwf]. apply Forall_fmap, Forall_forall.
    intros f Hf. pose proof (proj1 (Forall_forall _ _) Hwf f Hf) as Hwff. cbn. rewrite len_frame_bytes by done.
    apply frames_from_data, (proj1 (Forall_forall _ _) Hpl) in Hf. unfold len, k in *. lia.
  - by rewrite <- fmap_app, Hfs.
Qed.

Context {P : Type} `{NextDataProvider P} (cfg : Config).

(** C1. What a batcher sends is what a verifier reads, within the limits of the format.
    Take any history of [AddBlock], [Flush] and [OutputFrame] on a new channel with a
    16-byte id, close the channel and output frames of at most [maxSize] bytes until
    [io.EOF].  If [maxSize] is more than 48 and at most the maximal frame length of
    1,000,000 bytes, the batches of the added blocks are well formed (32-byte hashes,
    64-bit numbers) and encoded take at most 10,000,000 bytes, and there are fewer than
    2^16 frames, then this terminates; the buffers written since closing fit in [maxSize]
    with the version byte; every buffer parses back to a single frame; and delivered in
    any order, the frames make the channel ready, its content reads as exactly the batches
    of the added blocks in order, and a [ChannelInReader] whose bank emits that content
    returns those batches one by one and then moves on to the next channel. *)
Theorem channel_roundtrip id bs outs co maxSize :
  sending id bs outs co → length id = ChannelIDLength → 48 < maxSize <= MaxFrameLen →
  Forall sendable bs →
  (∀ typed, Forall2 (λ b t, encodeTyped b = Ok t) bs typed →
     len (concat (rlp_EncodeString <$> typed)) <= 10000000) →
  let '(co1, r) := Close co in
  let n := (length (co_buf co1) / Z.to_nat (maxSize - 48))%nat in
  len outs + Z.of_nat n < 2 ^ 16 →
  ∃ co2 outs' fs, r = Ok tt ∧ outputFrames (S n) co1 maxSize = (co2, outs', Some io_EOF) ∧
    Forall (λ w, 1 + len w <= maxSize) outs' ∧
    Forall2 (λ w f, ParseFrames (DerivationVersion0 :: w) = Ok [f]) (outs ++ outs') fs ∧
    ∀ fs' b l1, fs' ≡ₚ fs →
      let ch := AddFrames (NewChannel id b) fs' l1 in
      IsReady ch = true ∧ ∃ data, Reader ch = Ok data ∧ channel_of bs data ∧
      ∀ (cr : ChannelInReader (P := P)) prev,
        cr_nextBatchFn cr = None → ChannelBank_NextData cfg (cr_prev cr) = (prev, Ok data) →
        drainBatches cfg (S (length bs)) cr = (mkChannelInReader None prev, bs, Err NotEnoughData).
Proof.
  intros HS Hid Hm Hsd Hsz. destruct (Close co) as [co1 r] eqn:HC. intros n Hn.
  assert (Hlo : len outs <= 2 ^ 16) by lia.
  destruct (Close_sent id bs outs co (sending_sent _ _ _ _ HS Hlo))
    as (typed & ds & co' & HC' & Hcl & Hci & Hcf & HF & HZ & Ho & Hd).
  rewrite HC in HC'. injection HC' as <- ->.
  assert (Hl : len outs = len ds) by (rewrite Ho; unfold len; by rewrite length_frames_of_outs).
  destruct (outputFrames_seq id ds co1 maxSize) as (co2 & outs' & datas & HO & Hne & Hlen & Hcat & Hfit & Hwf & Hfs);
    [done..|fold n; lia|].
  exists co2, outs', (frame_seq id datas). split_and!; [done..| |].
  - rewrite Ho, Hfs. apply Forall2_fmap_l, Forall_Forall2_diag. eapply Forall_impl; [exact Hwf|].
    intros f Hf. by apply ParseFrames_one.
  - intros fs' b l1 Hp ch. destruct (reassembly id b l1 datas fs') as (Hready & HR & _); [done..|].
    split; [done|]. exists (concat datas). split; [done|].
    assert (Hch : channel_of bs (concat datas))
      by (exists typed; split_and!; [done|by apply Hsz|by rewrite Hcat]).
    split; [done|]. intros cr prev Hfn HN. by eapply drain_channel.
Qed.

(** [OutputFrame] does not guard against a [maxSize] below its overhead: the data
    size wraps around, and the frame takes the whole buffer, however large. *)
Theorem OutputFrame_underflow co w maxSize :
  0 <= maxSize < 48 → len (co_buf co) < 2 ^ 63 →
  ∃ co', OutputFrame co w maxSize =
    (co', w ++ frame_bytes (mkFrame (co_id co) (u16 (co_frame co)) (co_buf co) (co_closed co)),
     if co_closed co then Some io_EOF else None) ∧ co_buf co' = [].
Proof.
  intros Hm Hl. unfold OutputFrame.
  assert (Hw : maxSize ⊟ 47 ⊟ 1 = maxSize - 48 + 2 ^ 64).
  { unfold u64. rewrite Zminus_mod_idemp_l.
    replace (maxSize - 47 - 1) with (maxSize - 48 + 2 ^ 64 + (-1) * 2 ^ 64) by lia.
    rewrite Z_mod_plus_full. apply Z.mod_small. lia. }
  rewrite Hw, (proj2 (Z.ltb_lt _ _)) by lia. unfold read_full, len.
  rewrite Nat2Z.id, Nat.ltb_irrefl, take_ge, drop_ge by lia.
  cbn [co_id co_frame co_compress co_buf co_closed]. rewrite Frame_MarshalBinary_buffer. eauto.
Qed.

End ChannelOut.

(** ** Examples *)

(** A stored (uncompressed) stream. *)
#[local] Instance stored_writer : ZlibWriter := {
  ZW := unit;
  zw_New := tt;
  zw_Write z b := (z, b, None);
  zw_Flush z := (z, [], None);
  zw_Close z := (z, [], None) }.

#[local] Instance stored_reader : ZlibReader := { zlib_NewReader b := Ok (b, io_EOF) }.

#[local] Program Instance stored_laws : ZlibLaws.
Next Obligation. intros ops [] out [b|] _; eexists tt, _; done. Qed.
Next Obligation.
  intros ops z out HZ. exists tt, []. destruct z. split; [done|]. rewrite app_nil_r. cbn. do 2 f_equal.
  induction HZ as [|ops z out op z' o _ IH Hs]; [done|]. rewrite zwritten_snoc, IH. f_equal.
  destruct op; cbn in Hs; by simplify_eq.
Qed.

#[local] Existing Instance rlp_batch.
#[local] Existing Instance example_keccak.
#[local] Existing Instance example_codec.

#[local] Instance example_data : NextDataProvider unit := {
  NextData p := (p, Err io_EOF); Origin _ := example_l1 1 }.

Definition example_block : Block :=
  mkBlock (example_hash 2007) 16
    [example_tx (tail (default [] (head (pa_Transactions example_attrs))));
     mkTransaction 2 None [] (Ok [x02; x03]) (λ _, Err (ErrorNew "no signature"))].

Definition example_out_batch : BatchData :=
  match batchOf example_block with Ok b => b | _ => mkBatchV1 [] 0 [] 0 [] end.

Definition example_out : ChannelOut :=
  fst (AddBlock (mkChannelOut (zeros 16) 0 zw_New [] false) example_block).

Lemma channel_roundtrip_witness :
  ∃ fs, Forall2 (λ w f, ParseFrames (DerivationVersion0 :: w) = Ok [f])
          (snd (fst (outputFrames 2 (fst (Close example_out)) 99))) fs ∧
        IsReady (AddFrames (NewChannel (zeros 16) L1BlockRef_zero) (rev fs) L1BlockRef_zero) = true.
Proof.
  pose proof (channel_roundtrip (P := unit) example_cfg (zeros 16) [example_out_batch] [] example_out 99) as HT.
  destruct (Close example_out) as [co1 r] eqn:HC.
  assert (Hlen : length (co_buf co1) = 77%nat) by (vm_compute in HC; injection HC as <- <-; reflexivity).
  rewrite Hlen in HT.
  destruct HT as (co2 & outs' & fs & _ & HO & _ & HP & HR).
  - eapply (send_AddBlock (zeros 16) [] [] _ example_block); [apply send_new|vm_compute; reflexivity..].
  - reflexivity.
  - vm_compute. split; congruence.
  - constructor; [|constructor]. split; [|vm_compute; reflexivity].
    vm_compute. repeat split; congruence.
  - intros typed HF. inversion HF as [|? t ? ? Ht HF']; subst. inversion HF'; subst.
    vm_compute in Ht. injection Ht as <-. vm_compute. congruence.
  - reflexivity.
  - change (S (77 / Z.to_nat (99 - 48))) with 2%nat in HO. cbn [fst]. rewrite HO.
    exists fs. split; [exact HP|]. apply (HR (rev fs)). symmetry. apply Permutation_rev.
Defined.

Lemma OutputFrame_underflow_witness :
  ∃ co', OutputFrame (fst (Close example_out)) [] 47 =
         (co', frame_bytes (mkFrame (zeros 16) 0 (co_buf example_out) true), Some io_EOF).
Proof.
  destruct (OutputFrame_underflow (fst (Close example_out)) [] 47) as (co' & HO & _).
  - lia.
  - vm_compute. reflexivity.
  - exists co'. rewrite HO. vm_compute. reflexivity.
Defined.
