(* ===== verification/Pipeline.v ===== *)
(** * The derivation pipeline

    op-node/rollup/derive/pipeline.go: the stages composed into one pipeline, with its
    reset protocol.  The stages are the ones of the previous files, each instance
    discharging the interface the next one was verified against. *)

From S2P Require Import Prelude GoErrors EthTypes Extern L1Info Frame Channel ChannelBank.
From S2P Require Import Batch BatchQueue Deposits Attributes PayloadsQueue EngineUpdate SyncStart EngineQueue.
From S2P Require Import L1Stages ChannelInReader.

Section Pipeline.
Context {W L E : Type} `{L1TransactionFetcher W} `{L1ReceiptsFetcher W} `{L1Chain L}
  `{Engine E} `{L2Chain E} `{Keccak} `{TxCodec} `{ZlibReader} `{RLPReader} `{BatchRLP} (cfg : Config).

(** ** The stages *)

Notation Trav := (L1Traversal L).
Notation Retr := (L1Retrieval W Trav).

#[local] Instance retrieval_stage : NextDataProvider Retr := L1Retrieval_provider cfg.
#[local] Instance reader_stage : NextBatchProvider (ChannelInReader (P := Retr)) :=
  ChannelInReader_provider cfg (L1Retrieval_NextData_origin cfg).

Notation Rdr := (ChannelInReader (P := Retr)).
Notation BQ := (BatchQueue Rdr).
Notation AQ := (AttributesQueue (W := W) (P := Rdr)).

#[local] Instance attributes_stage : NextAttributesProvider AQ := {
  ap_NextAttributes := NextAttributes cfg;
  ap_Origin := AttributesQueue_Origin }.

Notation EQ := (EngineQueue E AQ).

(** ** State *)

Record DerivationPipeline := mkPipeline {
  dp_l1Fetcher : L; dp_resetting : nat; dp_pullResetIdx : nat; dp_eng : EQ }.

Definition NewDerivationPipeline (l1Fetcher : W) (l1Blocks : L) (engine : E) : DerivationPipeline :=
  let l1Traversal := NewL1Traversal l1Blocks in
  let l1Src := NewL1Retrieval l1Fetcher l1Traversal in
  let bank := NewChannelBank l1Src in
  let chInReader := NewChannelInReader bank in
  let batchQueue := NewBatchQueue chInReader in
  let attributesQueue := NewAttributesQueue l1Fetcher batchQueue in
  mkPipeline l1Blocks 0 0 (NewEngineQueue engine attributesQueue).

Definition Pipeline_Reset (dp : DerivationPipeline) : DerivationPipeline :=
  mkPipeline (dp_l1Fetcher dp) 0 0 (dp_eng dp).

Definition Pipeline_Progress (dp : DerivationPipeline) : Progress := eq_progress (dp_eng dp).

(** ** Access to the inner stages *)

Definition with_eng (f : EQ → EQ) (dp : DerivationPipeline) : DerivationPipeline :=
  mkPipeline (dp_l1Fetcher dp) (dp_resetting dp) (dp_pullResetIdx dp) (f (dp_eng dp)).

Definition Pipeline_Finalize (l1Origin : BlockID) : DerivationPipeline → DerivationPipeline :=
  with_eng (Finalize l1Origin).
Definition Pipeline_SetUnsafeHead (head : L2BlockRef) : DerivationPipeline → DerivationPipeline :=
  with_eng (SetUnsafeHead head).
Definition Pipeline_AddUnsafePayload (p : option ExecutionPayload) : DerivationPipeline → DerivationPipeline :=
  with_eng (AddUnsafePayload p).

(** Apply an operation of an inner stage in place. *)
Definition on_bq (f : BQ → BQ * result unit) (aq : AQ) : AQ * result unit :=
  let '(bq, r) := f (aq_prev aq) in (mkAttributesQueue (aq_dl aq) bq (aq_batch aq), r).
Definition on_reader (f : Rdr → Rdr * result unit) (bq : BQ) : BQ * result unit :=
  let '(cr, r) := f (bq_prev bq) in
  (mkBatchQueue cr (bq_origin bq) (bq_l1Blocks bq) (bq_batches bq), r).
Definition on_bank (f : ChannelBank Retr → ChannelBank Retr * result unit) (cr : Rdr) : Rdr * result unit :=
  let '(cb, r) := f (cr_prev cr) in (mkChannelInReader (cr_nextBatchFn cr) cb, r).
Definition on_retrieval (f : Retr → Retr * result unit) (cb : ChannelBank Retr)
  : ChannelBank Retr * result unit :=
  let '(l1r, r) := f (cb_prev cb) in (mkChannelBank (cb_channels cb) (cb_channelQueue cb) l1r, r).
Definition on_traversal (f : Trav → Trav * result unit) (l1r : Retr) : Retr * result unit :=
  let '(l1t, r) := f (l1r_prev l1r) in (mkL1Retrieval (l1r_dataSrc l1r) l1t (l1r_datas l1r), r).

Definition traversal_of (eq : EQ) : Trav :=
  l1r_prev (cb_prev (cr_prev (bq_prev (aq_prev (eq_prev eq))))).

Definition on_stages (f : AQ → AQ * result unit) (eq : EQ) : EQ * result unit :=
  let '(aq, r) := f (eq_prev eq) in (set_eqprev aq eq, r).

(** [dp.pullStages[i].Reset(base)], in the order
    [attributesQueue, batchQueue, chInReader, bank, l1Src, l1Traversal]. *)
Definition resetPullStage (i : nat) (base : L1BlockRef) : AQ → AQ * result unit :=
  match i with
  | 0 => λ aq, AttributesQueue_Reset aq base
  | 1 => on_bq (λ bq, BatchQueue_Reset bq base)
  | 2 => on_bq (on_reader (λ cr, ChannelInReader_Reset cr base))
  | 3 => on_bq (on_reader (on_bank (λ cb, ChannelBank_Reset cb base)))
  | 4 => on_bq (on_reader (on_bank (on_retrieval (λ l1r, L1Retrieval_Reset cfg l1r base))))
  | _ => on_bq (on_reader (on_bank (on_retrieval (on_traversal (λ l1t, L1Traversal_Reset l1t base)))))
  end%nat.

Definition advanceTraversal : AQ → AQ * result unit :=
  on_bq (on_reader (on_bank (on_retrieval (on_traversal AdvanceL1Block)))).

(** ** [Step] *)

Definition numStages : nat := 1.
Definition numPullStages : nat := 6.

Definition stage_error (r : result unit) : result unit :=
  match r with Err e => Err (Errorf "stage failed" e) | r => r end.

Definition Pipeline_Step (dp : DerivationPipeline) : DerivationPipeline * result unit :=
  if (dp_resetting dp <? numStages)%nat then
    let '(l1, eng, r) := ResetStep cfg (dp_l1Fetcher dp) (dp_eng dp) in
    match r with
    | Err e =>
        if bool_decide (e = io_EOF)
        then (mkPipeline l1 (S (dp_resetting dp)) (dp_pullResetIdx dp) eng, Ok tt)
        else (mkPipeline l1 (dp_resetting dp) (dp_pullResetIdx dp) eng, stage_error r)
    | _ => (mkPipeline l1 (dp_resetting dp) (dp_pullResetIdx dp) eng, r)
    end
  else if (dp_pullResetIdx dp <? numPullStages)%nat then
    let base := pr_Origin (Pipeline_Progress dp) in
    let '(eng, r) := on_stages (resetPullStage (dp_pullResetIdx dp) base) (dp_eng dp) in
    match r with
    | Err e =>
        if bool_decide (e = io_EOF)
        then (mkPipeline (dp_l1Fetcher dp) (dp_resetting dp) (S (dp_pullResetIdx dp)) eng, Ok tt)
        else (mkPipeline (dp_l1Fetcher dp) (dp_resetting dp) (dp_pullResetIdx dp) eng, stage_error r)
    | _ => (mkPipeline (dp_l1Fetcher dp) (dp_resetting dp) (dp_pullResetIdx dp) eng, r)
    end
  else
    let '(eng, r) := EngineQueue_Step cfg (dp_eng dp) in
    match r with
    | Err e =>
        if bool_decide (e = io_EOF) then
          let '(eng, r) := on_stages advanceTraversal eng in
          (mkPipeline (dp_l1Fetcher dp) (dp_resetting dp) (dp_pullResetIdx dp) eng, r)
        else (mkPipeline (dp_l1Fetcher dp) (dp_resetting dp) (dp_pullResetIdx dp) eng, stage_error r)
    | _ => (mkPipeline (dp_l1Fetcher dp) (dp_resetting dp) (dp_pullResetIdx dp) eng, r)
    end.

Fixpoint steps (n : nat) (dp : DerivationPipeline) : DerivationPipeline * result unit :=
  match n with
  | O => (dp, Ok tt)
  | S n => match Pipeline_Step dp with
           | (dp, Ok _) => steps n dp
           | (dp, r) => (dp, r)
           end
  end.

(** ** Resetting *)

Definition settled (dp : DerivationPipeline) : Prop :=
  (numStages <= dp_resetting dp)%nat ∧ (numPullStages <= dp_pullResetIdx dp)%nat.

(** The L1 block the stages are at. *)
Definition pipeline_origin (dp : DerivationPipeline) : L1BlockRef := ap_Origin (eq_prev (dp_eng dp)).

(** Every buffer of the pull stages is empty and every stage is at [base], with the data
    of [base] open in the retrieval. *)
Definition fresh_at (base : L1BlockRef) (aq : AQ) : Prop :=
  let bq := aq_prev aq in
  let cr := bq_prev bq in
  let cb := cr_prev cr in
  let l1r := cb_prev cb in
  bq_origin bq = base ∧ bq_l1Blocks bq = [base] ∧ bq_batches bq = ∅ ∧
  cr_nextBatchFn cr = None ∧ cb_channels cb = ∅ ∧ cb_channelQueue cb = [] ∧
  (∃ w datas, OpenData cfg w (L1BlockRef_ID base) = (l1r_dataSrc l1r, datas) ∧ l1r_datas l1r = Some datas) ∧
  l1t_block (l1r_prev l1r) = base ∧ l1t_done (l1r_prev l1r) = false.

Lemma steps_S n dp :
  steps (S n) dp = match Pipeline_Step dp with (dp, Ok _) => steps n dp | (dp, r) => (dp, r) end.
Proof. done. Qed.

Lemma pull_reset l1 i eng aq n :
  (i < numPullStages)%nat →
  resetPullStage i (pr_Origin (eq_progress eng)) (eq_prev eng) = (aq, Err io_EOF) →
  steps (S n) (mkPipeline l1 1 i eng) = steps n (mkPipeline l1 1 (S i) (set_eqprev aq eng)).
Proof.
  intros Hi HR. rewrite steps_S. unfold Pipeline_Step, Pipeline_Progress, on_stages.
  cbn [dp_resetting dp_pullResetIdx dp_eng dp_l1Fetcher]. change (1 <? numStages)%nat with false.
  rewrite (proj2 (Nat.ltb_lt _ _) Hi), HR. by rewrite bool_decide_eq_true_2.
Qed.

(** The six pull stages are reset one after the other. *)
Lemma pull_resets l1 eng :
  ∃ aq, steps 6 (mkPipeline l1 1 0 eng) = (mkPipeline l1 1 6 (set_eqprev aq eng), Ok tt) ∧
    fresh_at (pr_Origin (eq_progress eng)) aq ∧ aq_batch aq = aq_batch (eq_prev eng).
Proof.
  set (base := pr_Origin (eq_progress eng)).
  destruct (eq_prev eng) as [dl [[f [m q [w t d]]] o l bs] b] eqn:He.
  destruct (OpenData cfg w (L1BlockRef_ID base)) as [w' datas] eqn:HO.
  eexists. split.
  - erewrite pull_reset; [|unfold numPullStages; lia|rewrite He; reflexivity].
    erewrite pull_reset; [|unfold numPullStages; lia|reflexivity].
    erewrite pull_reset; [|unfold numPullStages; lia|reflexivity].
    erewrite pull_reset; [|unfold numPullStages; lia|reflexivity].
    erewrite pull_reset; [|unfold numPullStages; lia|].
    2: { cbn -[OpenData L1Retrieval_Reset]. fold base.
         unfold on_bq, on_reader, on_bank, on_retrieval, L1Retrieval_Reset. cbn -[OpenData].
         rewrite HO. reflexivity. }
    erewrite pull_reset; [|unfold numPullStages; lia|reflexivity].
    reflexivity.
  - unfold fresh_at. cbn -[OpenData]. split_and!; try done. by eexists _, _.
Qed.

(** C30. The reset protocol: after [Reset], when the engine queue finds its heads, seven
    steps (one for the engine queue, six for the pull stages) all succeed and leave the
    pipeline settled with every stage restarted at the origin the engine queue chose and
    all channels, frames and batches forgotten.  Two buffers survive: the batch
    held by the attributes queue and the attributes held by the engine queue. *)
Theorem pipeline_reset dp l1 eng :
  ResetStep cfg (dp_l1Fetcher dp) (dp_eng dp) = (l1, eng, Err io_EOF) →
  let base := pr_Origin (eq_progress eng) in
  let '(dp', r) := steps 7 (Pipeline_Reset dp) in
  r = Ok tt ∧ settled dp' ∧ fresh_at base (eq_prev (dp_eng dp')) ∧ pipeline_origin dp' = base ∧
  eq_safeHead (dp_eng dp') = eq_safeHead eng ∧ eq_unsafeHead (dp_eng dp') = eq_unsafeHead eng ∧
  eq_finalized (dp_eng dp') = eq_finalized eng ∧
  aq_batch (eq_prev (dp_eng dp')) = aq_batch (eq_prev (dp_eng dp)) ∧
  eq_safeAttributes (dp_eng dp') = eq_safeAttributes (dp_eng dp).
Proof.
  intros HR base. pose proof (ResetStep_frame cfg _ _ _ _ _ HR) as (_ & Ha & _ & Hp).
  assert (Hs1 : Pipeline_Step (Pipeline_Reset dp) = (mkPipeline l1 1 0 eng, Ok tt)).
  { unfold Pipeline_Step, Pipeline_Reset. cbn [dp_resetting numStages Nat.ltb Nat.leb dp_l1Fetcher dp_eng].
    rewrite HR. by rewrite bool_decide_eq_true_2. }
  rewrite steps_S, Hs1. destruct (pull_resets l1 eng) as (aq & -> & HF & Hb). fold base in HF.
  split; [done|]. split; [split; [apply Nat.le_refl..]|].
  cbn [dp_eng eq_prev set_eqprev eq_safeHead eq_unsafeHead eq_finalized eq_safeAttributes].
  split_and!; [done|apply HF|done..|by rewrite Hb, Hp|done].
Qed.

(** ** Stepping *)

Lemma deriveNextBatch_prev {P} `{NextBatchProvider P} (bq : BatchQueue P) ood safe :
  bq_prev (fst (deriveNextBatch cfg bq ood safe)) = bq_prev bq.
Proof. unfold deriveNextBatch, forceEmptyBatch. repeat case_match; done. Qed.

Lemma BatchQueue_NextBatch_origin {P} `{NextBatchProvider P} (bq : BatchQueue P) safe :
  BatchQueue_Origin (fst (BatchQueue_NextBatch cfg bq safe)) = BatchQueue_Origin bq.
Proof.
  unfold BatchQueue_NextBatch, BatchQueue_Origin.
  set (behind := l1_Number (bq_origin bq) <? _). clearbody behind.
  assert (Hp : bq_prev (advanceOrigin bq behind) = bq_prev bq)
    by (unfold advanceOrigin; by case_bool_decide).
  pose proof (prov_NextBatch_Origin (bq_prev bq)) as HO. rewrite Hp.
  destruct (prov_NextBatch (bq_prev bq)) as [prev r]. cbn [fst] in HO. rewrite <- HO.
  set (bq1 := set_prev prev _). assert (Hp1 : bq_prev bq1 = prev) by done. clearbody bq1.
  assert (HA : ∀ b x, AddBatch cfg bq1 b safe = Ok x → bq_prev x = prev).
  { intros b x. unfold AddBatch. repeat case_match; naive_solver. }
  assert (HD : ∀ (x : BatchQueue P) (ood : bool), bq_prev x = prev →
    prov_Origin (bq_prev (fst (NextBatch_derive cfg x behind ood safe))) = prov_Origin prev).
  { intros x ood Hx. unfold NextBatch_derive. destruct behind; [by rewrite <- Hx|].
    pose proof (deriveNextBatch_prev x ood safe) as Hd.
    destruct (deriveNextBatch _ _ _ _) as [bq' [b|e|m]]; cbn [fst] in *; [congruence| |congruence].
    case_bool_decide; cbn [fst]; congruence. }
  destruct r as [b|e|m]; [|case_bool_decide; [exact (HD bq1 true Hp1)|]; cbn; congruence|cbn; congruence].
  destruct behind; [exact (HD bq1 false Hp1)|].
  destruct (AddBatch cfg bq1 b safe) as [x|e|m] eqn:Ea; cbn [mbind result_bind]; [|cbn; congruence..].
  apply (HD x false). by eapply HA.
Qed.

Lemma NextAttributes_origin (aq : AQ) safe :
  AttributesQueue_Origin (fst (NextAttributes cfg aq safe)) = AttributesQueue_Origin aq.
Proof.
  assert (HF : ∀ (a : AQ) b, aq_prev (fst (attributesFromBatch cfg a b safe)) = aq_prev a).
  { intros a b. unfold attributesFromBatch. destruct (createNextAttributes _ _ _ _) as [dl [x|e|m]]; done. }
  unfold NextAttributes, AttributesQueue_Origin. destruct (aq_batch aq); [by rewrite HF|].
  pose proof (BatchQueue_NextBatch_origin (aq_prev aq) safe) as HO.
  destruct (BatchQueue_NextBatch _ _ _) as [prev [b|e|m]]; [by rewrite HF|done..].
Qed.

(** A step of the engine queue leaves the stages at their origin. *)
Lemma EngineQueue_Step_origin (eng eng' : EQ) r :
  EngineQueue_Step cfg eng = (eng', r) → ap_Origin (eq_prev eng') = ap_Origin (eq_prev eng).
Proof.
  intros HS. destruct (decide (eq_safeAttributes eng = [])) as [Hn|Hn].
  - unfold EngineQueue_Step in HS. rewrite Hn in HS.
    pose proof (NextAttributes_origin (eq_prev eng) (eq_safeHead eng)) as HO.
    cbn [ap_NextAttributes attributes_stage] in HS.
    destruct (NextAttributes _ _ _) as [prev [x|e|m]]; [by simplify_eq| |by simplify_eq].
    case_bool_decide; [|by simplify_eq]. destruct (0 <? _); [|by simplify_eq].
    apply tryNextUnsafePayload_prev in HS. cbn [eq_prev set_eqprev] in HS. by rewrite HS.
  - rewrite (Step_attributes_prev cfg eng eng' r Hn HS). done.
Qed.

(** C31. Once settled, a step moves the pipeline to another L1 block only when no stage
    can progress, and then only to a child (by parent hash) of the L1 block it was at;
    it stays settled. *)
Theorem pipeline_origin_linked dp dp' r :
  settled dp → Pipeline_Step dp = (dp', r) →
  settled dp' ∧
  (pipeline_origin dp' = pipeline_origin dp ∨
   (r = Ok tt ∧ l1_ParentHash (pipeline_origin dp') = l1_Hash (pipeline_origin dp) ∧
    ∃ eng, EngineQueue_Step cfg (dp_eng dp) = (eng, Err io_EOF))).
Proof.
  intros [Hr Hp] HS. unfold Pipeline_Step in HS.
  rewrite (proj2 (Nat.ltb_ge _ _) Hr), (proj2 (Nat.ltb_ge _ _) Hp) in HS.
  destruct (EngineQueue_Step cfg (dp_eng dp)) as [eng re] eqn:HE.
  pose proof (EngineQueue_Step_origin _ _ _ HE) as HO. unfold pipeline_origin.
  destruct re as [u|e|m]; [by simplify_eq; split; [|left]| |by simplify_eq; split; [|left]].
  case_bool_decide as He; [|by simplify_eq; split; [|left]]. subst e.
  unfold on_stages, advanceTraversal, on_bq, on_reader, on_bank, on_retrieval, on_traversal in HS.
  unfold ap_Origin, attributes_stage, AttributesQueue_Origin in *.
  destruct (AdvanceL1Block _) as [l1t ra] eqn:HA.
  injection HS as <- <-. split; [done|].
  destruct (AdvanceL1Block_cases _ _ _ HA) as [Hk|[-> Hk]]; [left|right].
  - rewrite <- HO. exact Hk.
  - rewrite <- HO. split; [done|]. split; [exact Hk|by exists eng].
Qed.

End Pipeline.

(** ** Examples *)

#[local] Existing Instance example_keccak.
#[local] Existing Instance example_codec.
#[local] Existing Instance example_fetcher.
#[local] Existing Instance example_engine_8.
#[local] Existing Instance example_chain_3.
#[local] Existing Instance example_l1_chain_2.
#[local] Existing Instance rlp_batch.

#[local] Instance example_txs_of_info : L1TransactionFetcher BlockInfo := {
  tf_InfoAndTxsByHash w h := (w, Ok (w, [])) }.
#[local] Instance example_zlib : ZlibReader := { zlib_NewReader b := Ok (b, io_EOF) }.

Definition example_pipeline : DerivationPipeline (W := BlockInfo) (L := unit) (E := bool) :=
  NewDerivationPipeline (example_info 1) tt true.

Lemma pipeline_reset_witness :
  snd (steps example_cfg 7 (Pipeline_Reset example_pipeline)) = Ok tt ∧
  pipeline_origin example_cfg (fst (steps example_cfg 7 (Pipeline_Reset example_pipeline))) = example_l1 0.
Proof.
  assert (Hr : snd (ResetStep example_cfg tt (dp_eng example_pipeline)) = Err io_EOF)
    by (vm_compute; reflexivity).
  assert (HB : pr_Origin (eq_progress (snd (fst (ResetStep example_cfg tt (dp_eng example_pipeline)))))
               = example_l1 0) by (vm_compute; reflexivity).
  destruct (ResetStep example_cfg tt (dp_eng example_pipeline)) as [[[] eng] r] eqn:HR.
  cbn [fst snd] in Hr, HB. rewrite Hr in HR.
  pose proof (pipeline_reset example_cfg example_pipeline tt eng HR) as HT.
  destruct (steps _ _ _) as [dp' r']. destruct HT as (-> & _ & _ & HO & _).
  split; [reflexivity|]. rewrite HB in HO. exact HO.
Defined.

(** The example pipeline after its reset, at L1 block 0. *)
Definition example_settled : DerivationPipeline (W := BlockInfo) (L := unit) (E := bool) :=
  fst (steps example_cfg 7 (Pipeline_Reset example_pipeline)).

Lemma pipeline_origin_linked_witness :
  settled (fst (Pipeline_Step example_cfg example_settled)) ∧
  pipeline_origin example_cfg (fst (Pipeline_Step example_cfg example_settled)) = example_l1 1.
Proof.
  split; [|vm_compute; reflexivity].
  refine (proj1 (pipeline_origin_linked example_cfg example_settled _ _ _ (surjective_pairing _))).
  split; apply Nat.leb_le; vm_compute; reflexivity.
Defined.
