(* ===== verification/Driver.v ===== *)
(** * The driver

    op-node/rollup/driver: the confirmation-depth wrapper (conf_depth.go), the
    sequencer's block production (step.go, state.go) and the event loop of state.go
    that schedules derivation steps.  The derivation pipeline is known through the
    interface of driver.go. *)

From S2P Require Import Prelude GoErrors EthTypes Extern L1Info Batch BatchQueue Deposits.
From S2P Require Import Attributes PayloadsQueue EngineUpdate SyncStart EngineQueue L1Stages ChannelInReader Pipeline.

(** ** Confirmation depth (conf_depth.go) *)

Record confDepth (W : Type) := mkConfDepth {
  cd_L1Fetcher : W; cd_l1Head : L1BlockRef; cd_depth : Z }.
Arguments mkConfDepth {W} _ _ _.
Arguments cd_L1Fetcher {W} _.
Arguments cd_l1Head {W} _.
Arguments cd_depth {W} _.

Section ConfDepth.
Context {W : Type} `{L1Chain W}.

Definition with_fetcher (c : confDepth W) {A} (r : W * A) : confDepth W * A :=
  (mkConfDepth (fst r) (cd_l1Head c) (cd_depth c), snd r).

Definition confDepth_L1BlockRefByNumber (c : confDepth W) (num : Z) : confDepth W * result L1BlockRef :=
  if (num =? 0) || (cd_depth c =? 0) || ((num ⊞ cd_depth c) <=? l1_Number (cd_l1Head c)) then
    with_fetcher c (l1_ByNumber (cd_L1Fetcher c) num)
  else (c, Err ethereum_NotFound).

(** Everything else is the embedded fetcher. *)
#[export] Instance confDepth_chain : L1Chain (confDepth W) := {
  l1_ByLabel c label := with_fetcher c (l1_ByLabel (cd_L1Fetcher c) label);
  l1_ByNumber := confDepth_L1BlockRefByNumber;
  l1_ByHash c h := with_fetcher c (l1_ByHash (cd_L1Fetcher c) h) }.

End ConfDepth.

(** ** Interfaces (driver.go) *)

Class DerivationPipelineI (D : Type) := {
  dpi_Reset : D → D;
  dpi_Step : D → D * result unit;
  dpi_SetUnsafeHead : D → L2BlockRef → D;
  dpi_AddUnsafePayload : D → option ExecutionPayload → D;
  dpi_Finalize : D → BlockID → D;
  dpi_Finalized : D → L2BlockRef;
  dpi_SafeL2Head : D → L2BlockRef;
  dpi_UnsafeL2Head : D → L2BlockRef;
  dpi_Progress : D → Progress }.

(** [Network.PublishL2Payload]; its error is only logged. *)
Class Network (N : Type) := { PublishL2Payload : N → ExecutionPayload → N * option error }.

(** The driver configuration (config.go). *)
Record DriverConfig := mkDriverConfig {
  dc_VerifierConfDepth : Z; dc_SequencerConfDepth : Z; dc_SequencerEnabled : bool }.

Section Driver.
Context {W L E D N : Type} `{L1ReceiptsFetcher W} `{L1Chain L} `{Engine E} `{Keccak} `{TxCodec}
  `{DerivationPipelineI D} `{Network N} (cfg : Config) (dcfg : DriverConfig).

(** ** Creating a block (step.go) *)

Definition createNewBlock (dl : W) (l2 : E) (l2Head : L2BlockRef) (l2SafeHead l2Finalized : BlockID)
    (l1Origin : L1BlockRef) : W * E * result (L2BlockRef * ExecutionPayload) :=
  let '(dl, r) := PreparePayloadAttributes cfg dl l2Head (l2_Time l2Head ⊞ cfg_BlockTime cfg)
                    (L1BlockRef_ID l1Origin) in
  match r with
  | Err e => (dl, l2, Err e)
  | Panic s => (dl, l2, Panic s)
  | Ok attrs =>
      let attrs := mkPayloadAttributes (pa_Timestamp attrs) (pa_PrevRandao attrs)
                     (pa_SuggestedFeeRecipient attrs) (pa_Transactions attrs)
                     ((l1_Time l1Origin ⊞ cfg_MaxSequencerDrift cfg) <=? pa_Timestamp attrs) in
      let fc := mkForkchoiceState (l2_Hash l2Head) (id_Hash l2SafeHead) (id_Hash l2Finalized) in
      let '(l2, r) := InsertHeadBlock l2 fc attrs false in
      match r with
      | InsertPanic s => (dl, l2, Panic s)
      | NotInserted _ err => (dl, l2, Err (Errorf "failed to extend L2 chain" (status_error err)))
      | Inserted payload =>
          (dl, l2, ref ← PayloadToBlockRef payload (cfg_Genesis cfg); Ok (ref, payload))
      end
  end.

(** ** Driver state (state.go) *)

Record state := mkState {
  st_l1Head : L1BlockRef; st_l1Safe : L1BlockRef; st_l1Finalized : L1BlockRef;
  st_derivation : D; st_idleDerivation : bool;
  st_l1 : L; st_dl : W; st_l2 : E; st_network : option N }.

Definition set_derivation (d : D) (s : state) : state :=
  mkState (st_l1Head s) (st_l1Safe s) (st_l1Finalized s) d (st_idleDerivation s)
    (st_l1 s) (st_dl s) (st_l2 s) (st_network s).
Definition set_idle (b : bool) (s : state) : state :=
  mkState (st_l1Head s) (st_l1Safe s) (st_l1Finalized s) (st_derivation s) b
    (st_l1 s) (st_dl s) (st_l2 s) (st_network s).
Definition set_l1 (l1 : L) (s : state) : state :=
  mkState (st_l1Head s) (st_l1Safe s) (st_l1Finalized s) (st_derivation s) (st_idleDerivation s)
    l1 (st_dl s) (st_l2 s) (st_network s).
Definition set_output (dl : W) (l2 : E) (s : state) : state :=
  mkState (st_l1Head s) (st_l1Safe s) (st_l1Finalized s) (st_derivation s) (st_idleDerivation s)
    (st_l1 s) dl l2 (st_network s).
Definition set_network (n : option N) (s : state) : state :=
  mkState (st_l1Head s) (st_l1Safe s) (st_l1Finalized s) (st_derivation s) (st_idleDerivation s)
    (st_l1 s) (st_dl s) (st_l2 s) n.

Definition handleNewL1HeadBlock (head : L1BlockRef) (s : state) : state :=
  mkState head (st_l1Safe s) (st_l1Finalized s) (st_derivation s) (st_idleDerivation s)
    (st_l1 s) (st_dl s) (st_l2 s) (st_network s).

Definition handleNewL1SafeBlock (safe : L1BlockRef) (s : state) : state :=
  mkState (st_l1Head s) safe (st_l1Finalized s) (st_derivation s) (st_idleDerivation s)
    (st_l1 s) (st_dl s) (st_l2 s) (st_network s).

Definition handleNewL1FinalizedBlock (finalized : L1BlockRef) (s : state) : state :=
  mkState (st_l1Head s) (st_l1Safe s) finalized
    (dpi_Finalize (st_derivation s) (L1BlockRef_ID finalized)) (st_idleDerivation s)
    (st_l1 s) (st_dl s) (st_l2 s) (st_network s).

Definition findL1Origin (s : state) : state * result L1BlockRef :=
  let l2Head := dpi_UnsafeL2Head (st_derivation s) in
  if bool_decide (id_Hash (l2_L1Origin l2Head) = l1_Hash (st_l1Head s)) then (s, Ok (st_l1Head s))
  else
    let '(l1, r) := l1_ByHash (st_l1 s) (id_Hash (l2_L1Origin l2Head)) in
    let s := set_l1 l1 s in
    match r with
    | Err e => (s, Err e)
    | Panic m => (s, Panic m)
    | Ok currentOrigin =>
        if l1_Number (st_l1Head s) <? (l1_Number currentOrigin ⊞ 1 ⊞ dc_SequencerConfDepth dcfg)
        then (s, Ok currentOrigin)
        else
          let '(l1, r) := l1_ByNumber (st_l1 s) (l1_Number currentOrigin ⊞ 1) in
          let s := set_l1 l1 s in
          match r with
          | Err _ => (s, Ok currentOrigin)
          | Panic m => (s, Panic m)
          | Ok nextOrigin =>
              if l1_Time nextOrigin <=? (l2_Time l2Head ⊞ cfg_BlockTime cfg) then (s, Ok nextOrigin)
              else (s, Ok currentOrigin)
          end
    end.

Definition publish (payload : ExecutionPayload) (s : state) : state :=
  match st_network s with
  | Some n => set_network (Some (fst (PublishL2Payload n payload))) s
  | None => s
  end.

Definition createNewL2Block (s : state) : state * result unit :=
  let '(s, r) := findL1Origin s in
  match r with
  | Err e => (s, Err e)
  | Panic m => (s, Panic m)
  | Ok l1Origin =>
      if l1_Number l1Origin <? id_Number (gen_L1 (cfg_Genesis cfg)) then (s, Ok tt)
      else
        let l2Head := dpi_UnsafeL2Head (st_derivation s) in
        let l2Safe := dpi_SafeL2Head (st_derivation s) in
        let l2Finalized := dpi_Finalized (st_derivation s) in
        if (l2_Time l2Head ⊞ cfg_BlockTime cfg) <? l1_Time l1Origin then
          (s, Err (ErrorNew "cannot build L2 block for time before L1 origin"))
        else
          let '(dl, l2, r) := createNewBlock (st_dl s) (st_l2 s) l2Head (L2BlockRef_ID l2Safe)
                                (L2BlockRef_ID l2Finalized) l1Origin in
          let s := set_output dl l2 s in
          match r with
          | Err e => (s, Err e)
          | Panic m => (s, Panic m)
          | Ok (newUnsafeL2Head, payload) =>
              (publish payload (set_derivation (dpi_SetUnsafeHead (st_derivation s) newUnsafeL2Head) s), Ok tt)
          end
  end.

(** ** The event loop (state.go) *)

(** The loop's variables: the state, the two request channels of capacity one, whether a
    delayed step is scheduled, the attempt counter, the number of scheduled
    [time.AfterFunc] calls, and whether the loop still runs. *)
Record loop := mkLoop {
  lp_s : state; lp_stepReq : bool; lp_creationReq : bool; lp_delayedStep : bool;
  lp_stepAttempts : Z; lp_timers : nat; lp_running : bool }.

Inductive event :=
| EvTicker                                     (* l2BlockCreationTickerCh *)
| EvTimer                                      (* a time.AfterFunc fires *)
| EvBlockCreation                              (* l2BlockCreationReqCh *)
| EvUnsafePayload (p : ExecutionPayload)
| EvL1Head (b : L1BlockRef)
| EvL1Safe (b : L1BlockRef)
| EvL1Finalized (b : L1BlockRef)
| EvDelayedStep                                (* delayedStepReq *)
| EvStep                                       (* stepReqCh *)
| EvSyncStatus
| EvForceReset
| EvDone.

Definition on_state (f : state → state) (l : loop) : loop :=
  mkLoop (f (lp_s l)) (lp_stepReq l) (lp_creationReq l) (lp_delayedStep l) (lp_stepAttempts l)
    (lp_timers l) (lp_running l).

(** [reqL2BlockCreation] and [step]: sends that do not block on a full channel. *)
Definition reqL2BlockCreation (l : loop) : loop :=
  mkLoop (lp_s l) (lp_stepReq l) true (lp_delayedStep l) (lp_stepAttempts l) (lp_timers l) (lp_running l).
Definition step (l : loop) : loop :=
  mkLoop (lp_s l) true (lp_creationReq l) (lp_delayedStep l) (lp_stepAttempts l) (lp_timers l) (lp_running l).

Definition reqStep (l : loop) : loop :=
  if 0 <? lp_stepAttempts l then
    mkLoop (lp_s l) (lp_stepReq l) (lp_creationReq l) true (lp_stepAttempts l) (lp_timers l) (lp_running l)
  else step l.

Definition set_attempts (n : Z) (l : loop) : loop :=
  mkLoop (lp_s l) (lp_stepReq l) (lp_creationReq l) (lp_delayedStep l) n (lp_timers l) (lp_running l).
Definition halt (l : loop) : loop :=
  mkLoop (lp_s l) (lp_stepReq l) (lp_creationReq l) (lp_delayedStep l) (lp_stepAttempts l) (lp_timers l) false.

Definition Start (s : state) : loop :=
  reqStep (mkLoop (set_derivation (dpi_Reset (st_derivation s)) s) false false false 0 0 true).

(** Which events can fire. *)
Definition enabled (l : loop) (e : event) : bool :=
  lp_running l &&
  match e with
  | EvTicker => dc_SequencerEnabled dcfg
  | EvTimer => (0 <? lp_timers l)%nat
  | EvBlockCreation => lp_creationReq l
  | EvDelayedStep => lp_delayedStep l
  | EvStep => lp_stepReq l
  | _ => true
  end.

(** [case <-l2BlockCreationReqCh]; a panic of the block creation ends the loop. *)
Definition onBlockCreation (l : loop) : loop :=
  let l := mkLoop (lp_s l) (lp_stepReq l) false (lp_delayedStep l) (lp_stepAttempts l) (lp_timers l)
             (lp_running l) in
  if negb (st_idleDerivation (lp_s l)) then l
  else
    let '(s, r) := createNewL2Block (lp_s l) in
    let l := on_state (λ _, s) l in
    match r with
    | Err _ => l
    | Panic _ => halt l
    | Ok _ =>
        let l2Head := dpi_UnsafeL2Head (st_derivation s) in
        if (id_Number (l2_L1Origin l2Head) ⊞ dc_SequencerConfDepth dcfg) <? l1_Number (st_l1Head s) then
          mkLoop (lp_s l) (lp_stepReq l) (lp_creationReq l) (lp_delayedStep l) (lp_stepAttempts l)
            (S (lp_timers l)) (lp_running l)
        else l
    end.

(** [case <-stepReqCh] *)
Definition onStep (l : loop) : loop :=
  let '(d, r) := dpi_Step (st_derivation (lp_s l)) in
  let l := mkLoop (set_derivation d (set_idle false (lp_s l))) false (lp_creationReq l) (lp_delayedStep l)
             (lp_stepAttempts l + 1) (lp_timers l) (lp_running l) in
  match r with
  | Ok _ => reqStep (set_attempts 0 l)
  | Panic _ => halt l
  | Err e =>
      if bool_decide (e = io_EOF) then set_attempts 0 (on_state (set_idle true) l)
      else if errors_Is e ErrReset then on_state (λ s, set_derivation (dpi_Reset (st_derivation s)) s) l
      else if errors_Is e ErrTemporary then reqStep l
      else if errors_Is e ErrCritical then halt l
      else if errors_Is e NotEnoughData then reqStep (set_attempts 0 l)
      else reqStep l
  end.

Definition handle (l : loop) (e : event) : loop :=
  match e with
  | EvTicker => reqL2BlockCreation l
  | EvTimer => reqL2BlockCreation
                 (mkLoop (lp_s l) (lp_stepReq l) (lp_creationReq l) (lp_delayedStep l) (lp_stepAttempts l)
                    (lp_timers l - 1) (lp_running l))
  | EvBlockCreation => onBlockCreation l
  | EvUnsafePayload p =>
      reqStep (on_state (λ s, set_derivation (dpi_AddUnsafePayload (st_derivation s) (Some p)) s) l)
  | EvL1Head b => reqStep (on_state (handleNewL1HeadBlock b) l)
  | EvL1Safe b => on_state (handleNewL1SafeBlock b) l
  | EvL1Finalized b => reqStep (on_state (handleNewL1FinalizedBlock b) l)
  | EvDelayedStep =>
      step (mkLoop (lp_s l) (lp_stepReq l) (lp_creationReq l) false (lp_stepAttempts l) (lp_timers l)
              (lp_running l))
  | EvStep => onStep l
  | EvSyncStatus => l
  | EvForceReset => on_state (λ s, set_derivation (dpi_Reset (st_derivation s)) s) l
  | EvDone => halt l
  end.

(** What [SyncStatus] answers. *)
Record SyncStatus := mkSyncStatus {
  ss_CurrentL1 : L1BlockRef; ss_HeadL1 : L1BlockRef; ss_SafeL1 : L1BlockRef; ss_FinalizedL1 : L1BlockRef;
  ss_UnsafeL2 : L2BlockRef; ss_SafeL2 : L2BlockRef; ss_FinalizedL2 : L2BlockRef }.

Definition syncStatus (s : state) : SyncStatus :=
  mkSyncStatus (pr_Origin (dpi_Progress (st_derivation s))) (st_l1Head s) (st_l1Safe s) (st_l1Finalized s)
    (dpi_UnsafeL2Head (st_derivation s)) (dpi_SafeL2Head (st_derivation s)) (dpi_Finalized (st_derivation s)).

(** ** Scheduling *)

Definition pending (l : loop) : bool := lp_stepReq l || lp_delayedStep l.

(** The step at [l] ends with a reset error. *)
Definition resets (l : loop) : bool :=
  match snd (dpi_Step (st_derivation (lp_s l))) with
  | Err e => negb (bool_decide (e = io_EOF)) && errors_Is e ErrReset
  | _ => false
  end.

(** Runs of the loop; the flag says that the last event that concerns stepping was a
    step that ended with a reset error. *)
Inductive running (s0 : state) : bool → loop → Prop :=
| running_start : running s0 false (Start s0)
| running_event flag l e : running s0 flag l → enabled l e = true →
    running s0 (match e with
                | EvStep => resets l
                | EvUnsafePayload _ | EvL1Head _ | EvL1Finalized _ | EvDelayedStep => false
                | _ => flag
                end) (handle l e).

Definition awake (l : loop) : bool := negb (lp_running l) || pending l || st_idleDerivation (lp_s l).

Lemma reqStep_pending l : pending (reqStep l) = true.
Proof. unfold reqStep, pending. destruct (0 <? _); [apply orb_true_r|done]. Qed.

Lemma reqStep_awake l : awake (reqStep l) = true.
Proof. unfold awake. by rewrite reqStep_pending, orb_true_r. Qed.

Lemma createNewL2Block_idle s : st_idleDerivation (fst (createNewL2Block s)) = st_idleDerivation s.
Proof.
  assert (HF : st_idleDerivation (fst (findL1Origin s)) = st_idleDerivation s).
  { unfold findL1Origin. case_bool_decide; [done|].
    destruct (l1_ByHash _ _) as [l1 [o|e|m]]; [|done..].
    destruct (_ <? _); [done|]. destruct (l1_ByNumber _ _) as [l1' [o'|e|m]]; [|done..].
    by destruct (_ <=? _). }
  unfold createNewL2Block. destruct (findL1Origin s) as [s1 [o|e|m]]; [|done..]. cbn [fst] in HF.
  destruct (_ <? _); [done|]. destruct (_ <? _); [done|].
  destruct (createNewBlock _ _ _ _ _ _) as [[dl l2] [[ref p]|e|m]]; [|done..].
  unfold publish. cbn. by destruct (st_network s1).
Qed.

Lemma onBlockCreation_frame l :
  pending (onBlockCreation l) = pending l ∧
  st_idleDerivation (lp_s (onBlockCreation l)) = st_idleDerivation (lp_s l) ∧
  (lp_running (onBlockCreation l) = lp_running l ∨ lp_running (onBlockCreation l) = false).
Proof.
  unfold onBlockCreation. destruct (negb _); [by auto|].
  pose proof (createNewL2Block_idle (lp_s l)) as HI.
  destruct (createNewL2Block _) as [s [u|e|m]]; cbn [fst] in HI;
    [destruct (_ <? _)|..]; (split; [done|split; [done|]]); [by left..|by right].
Qed.

(** C32. The event loop does not lose its derivation work: in every run, whenever the
    loop is running and the last step did not end with a reset error, the pipeline is
    idle or another step is requested or scheduled. *)
Theorem eventLoop_awake s0 l : running s0 false l → awake l = true.
Proof.
  intros HR. remember false as flag. assert (HG : flag = false → awake l = true); [|auto]. clear Heqflag.
  induction HR as [|flag l e HR IH Hen]; intros Hf.
  - apply reqStep_awake.
  - destruct e; cbn [handle]; try apply reqStep_awake; try (exact (IH Hf)).
    + destruct (onBlockCreation_frame l) as (HP & HI & HR'). specialize (IH Hf).
      unfold awake in *. rewrite HP, HI. destruct HR' as [-> | ->]; done.
    + unfold awake, pending. by rewrite orb_true_r.
    + unfold onStep, resets in *. destruct (dpi_Step _) as [d r]. cbn [snd] in Hf.
      destruct r as [u|e|m]; [apply reqStep_awake| |done].
      case_bool_decide; [unfold awake; by rewrite orb_true_r|].
      cbn [negb andb] in Hf. rewrite Hf.
      destruct (errors_Is e ErrTemporary); [apply reqStep_awake|].
      destruct (errors_Is e ErrCritical); [done|].
      destruct (errors_Is e NotEnoughData); apply reqStep_awake.
    + done.
Qed.

(** Events that do not come from new L1 or L2 data. *)
Definition quiet (e : event) : bool :=
  match e with
  | EvTicker | EvTimer | EvBlockCreation | EvL1Safe _ | EvSyncStatus | EvForceReset => true
  | _ => false
  end.

Definition stalled (l : loop) : Prop :=
  lp_running l = true ∧ pending l = false ∧ st_idleDerivation (lp_s l) = false.

Lemma quiet_stalled l e :
  stalled l → quiet e = true →
  stalled (handle l e) ∧
  (st_derivation (lp_s (handle l e)) = st_derivation (lp_s l) ∨
   st_derivation (lp_s (handle l e)) = dpi_Reset (st_derivation (lp_s l))) ∧
  st_l2 (lp_s (handle l e)) = st_l2 (lp_s l).
Proof.
  intros (Hr & Hp & Hi) Hq. destruct e; try done; unfold stalled; cbn [handle]; try by split_and!; auto.
  unfold onBlockCreation. cbn. rewrite Hi. cbn. by split_and!; auto.
Qed.

(** A reset error stops the derivation until new data arrives: after a step that
    ended with a reset error (with no delayed step scheduled) the loop runs, but no step is requested or
    scheduled and the pipeline does not count as idle.  Then no tick, block creation
    request, L1 safe signal, status request or manual reset changes that: the pipeline
    is not stepped, and a sequencer builds no block. *)
Theorem reset_stalls l es :
  lp_running l = true → lp_delayedStep l = false → resets l = true →
  forallb quiet es = true →
  let l' := fold_left handle es (handle l EvStep) in
  stalled l' ∧ st_l2 (lp_s l') = st_l2 (lp_s l) ∧
  ∃ n, st_derivation (lp_s l') = Nat.iter (S n) dpi_Reset (fst (dpi_Step (st_derivation (lp_s l)))).
Proof.
  intros Hr Hd Hre Hq.
  assert (HS : stalled (handle l EvStep) ∧ st_l2 (lp_s (handle l EvStep)) = st_l2 (lp_s l) ∧
    st_derivation (lp_s (handle l EvStep)) = dpi_Reset (fst (dpi_Step (st_derivation (lp_s l))))).
  { cbn [handle]. unfold resets, onStep in *. destruct (dpi_Step _) as [d r]. cbn [snd fst] in *.
    destruct r as [u|e|m]; [done| |done]. apply andb_true_iff in Hre as [He Hre].
    apply negb_true_iff in He. rewrite He, Hre. unfold stalled, pending. cbn. by rewrite Hd. }
  cbn zeta. destruct HS as (HS & He & HD). set (l1 := handle l EvStep) in *. clearbody l1.
  assert (HG : ∃ n, st_derivation (lp_s l1) =
            Nat.iter (S n) dpi_Reset (fst (dpi_Step (st_derivation (lp_s l))))) by (by exists 0%nat).
  clear HD. revert l1 HS He HG. induction es as [|e es IH]; intros l1 HS He HG; [done|].
  cbn in Hq |- *. apply andb_true_iff in Hq as [Hqe Hq].
  destruct (quiet_stalled l1 e HS Hqe) as (HS' & HD' & He').
  apply IH; [done..|by rewrite He'|]. destruct HG as (n & HG).
  destruct HD' as [-> | ->]; [by exists n|]. exists (S n). by rewrite HG.
Qed.

(** ** Sequencing *)

(** What the sequencer may build on: the L1 origin of the unsafe head, or the next L1
    block when it is deep enough and not ahead of the new block's time. *)
Definition allowed_origin (s : state) (o : L1BlockRef) : Prop :=
  let l2Head := dpi_UnsafeL2Head (st_derivation s) in
  (o = st_l1Head s ∧ l1_Hash o = id_Hash (l2_L1Origin l2Head)) ∨
  ∃ l1 l1' cur, l1_ByHash l1 (id_Hash (l2_L1Origin l2Head)) = (l1', Ok cur) ∧
    (o = cur ∨
     ((l1_Number cur ⊞ 1 ⊞ dc_SequencerConfDepth dcfg) <= l1_Number (st_l1Head s) ∧
      l1_Time o <= (l2_Time l2Head ⊞ cfg_BlockTime cfg) ∧
      ∃ l2 l2', l1_ByNumber l2 (l1_Number cur ⊞ 1) = (l2', Ok o))).

Lemma findL1Origin_allowed s s' o :
  findL1Origin s = (s', Ok o) → allowed_origin s o ∧ ∃ l1, s' = set_l1 l1 s.
Proof.
  unfold findL1Origin, allowed_origin. intros HF.
  case_bool_decide as Eh; [simplify_eq; split; [by left|exists (st_l1 s'); by destruct s']|].
  destruct (l1_ByHash _ _) as [l1 [cur|e|m]] eqn:EH; [|done..].
  cbn [st_l1Head st_l1 set_l1] in HF. destruct (_ <? _) eqn:Ed.
  { simplify_eq. split; [|by exists l1]. right. eexists _, _, o. split; [exact EH|by left]. }
  bool_props. destruct (l1_ByNumber l1 _) as [l1' [nxt|e|m]] eqn:EN; [|simplify_eq|done].
  - destruct (_ <=? _) eqn:Et; simplify_eq; bool_props; (split; [|by exists l1']); right;
      eexists _, _, _; (split; [exact EH|]); [right|by left].
    split_and!; [done..|by eexists _, _].
  - split; [|by exists l1']. right. eexists _, _, o. split; [exact EH|by left].
Qed.

Lemma PreparePayloadAttributes_timestamp dl l2 t epoch dl' attrs :
  PreparePayloadAttributes cfg dl l2 t epoch = (dl', Ok attrs) → pa_Timestamp attrs = t.
Proof.
  unfold PreparePayloadAttributes. destruct (epochInputs _ _ _ _) as [w r]. intros [= <- HP].
  apply bind_Ok in HP as ([[info deps] seq] & _ & HP). apply bind_Ok in HP as (tx & _ & HP).
  by injection HP as <-.
Qed.

(** A block the sequencer adds builds on an allowed L1 origin: the origin of the
    unsafe head, or the next L1 block once it has the configured confirmation depth.
    Its attributes have the next block time, which is not before the origin's time,
    leave the transaction pool out exactly when that time is past the sequencer drift,
    and are inserted on top of the unsafe head without moving safe and finalized
    heads; the new unsafe head is the reference of the inserted payload. *)
Theorem sequencer_block s s' :
  createNewL2Block s = (s', Ok tt) →
  let d := st_derivation s in
  st_derivation s' = d ∨
  ∃ o attrs payload ref l2 l2',
    allowed_origin s o ∧ st_derivation s' = dpi_SetUnsafeHead d ref ∧
    InsertHeadBlock l2
      (mkForkchoiceState (l2_Hash (dpi_UnsafeL2Head d)) (l2_Hash (dpi_SafeL2Head d)) (l2_Hash (dpi_Finalized d)))
      attrs false = (l2', Inserted payload) ∧
    PayloadToBlockRef payload (cfg_Genesis cfg) = Ok ref ∧
    pa_Timestamp attrs = (l2_Time (dpi_UnsafeL2Head d) ⊞ cfg_BlockTime cfg) ∧
    l1_Time o <= pa_Timestamp attrs ∧
    pa_NoTxPool attrs = ((l1_Time o ⊞ cfg_MaxSequencerDrift cfg) <=? pa_Timestamp attrs).
Proof.
  cbn zeta. unfold createNewL2Block. intros HC.
  destruct (findL1Origin s) as [s1 [o|e|m]] eqn:HF; [|done..].
  apply findL1Origin_allowed in HF as (Ho & l1 & ->). cbn [st_derivation set_l1 st_dl st_l2] in HC.
  destruct (_ <? _); [simplify_eq; by left|].
  destruct (_ <? l1_Time o) eqn:Et; [done|]. bool_props.
  unfold createNewBlock in HC.
  destruct (PreparePayloadAttributes _ _ _ _ _) as [dl [attrs|e|m]] eqn:HP; [|done..].
  apply PreparePayloadAttributes_timestamp in HP.
  destruct (InsertHeadBlock _ _ _ _) as [l2' [payload|typ err|m]] eqn:HI; [|done..].
  destruct (PayloadToBlockRef payload _) as [ref|e|m] eqn:HR; [|done..].
  cbn [mbind result_bind] in HC. injection HC as <-. right.
  exists o. eexists. exists payload, ref, (st_l2 s), l2'.
  split; [done|]. split; [unfold publish; cbn; by destruct (st_network s)|].
  split; [exact HI|]. cbn [pa_Timestamp pa_NoTxPool]. rewrite HP. done.
Qed.

End Driver.

(** The derivation pipeline behind the driver's interface; its L1 source is the
    confirmation-depth wrapper (NewDriver). *)
Section Compose.
Context {W L E : Type} `{L1TransactionFetcher W} `{L1ReceiptsFetcher W} `{L1Chain L}
  `{Engine E} `{L2Chain E} `{Keccak} `{TxCodec} `{ZlibReader} `{RLPReader} `{BatchRLP} (cfg : Config).

Definition pipeline_driver : DerivationPipelineI (DerivationPipeline (W := W) (L := confDepth L) (E := E)) := {|
  dpi_Reset := Pipeline_Reset;
  dpi_Step := Pipeline_Step cfg;
  dpi_SetUnsafeHead d head := Pipeline_SetUnsafeHead head d;
  dpi_AddUnsafePayload d p := Pipeline_AddUnsafePayload p d;
  dpi_Finalize d b := Pipeline_Finalize b d;
  dpi_Finalized d := eq_finalized (dp_eng d);
  dpi_SafeL2Head d := eq_safeHead (dp_eng d);
  dpi_UnsafeL2Head d := eq_unsafeHead (dp_eng d);
  dpi_Progress := Pipeline_Progress |}.

End Compose.

(** ** Examples *)

#[local] Existing Instance example_keccak.
#[local] Existing Instance example_codec.
#[local] Existing Instance example_fetcher.
#[local] Existing Instance example_engine_8.
#[local] Existing Instance example_l1_chain_2.

(** A pipeline with a fixed step result. *)
#[local] Instance example_derivation : DerivationPipelineI (L2BlockRef * result unit) := {
  dpi_Reset d := d;
  dpi_Step d := (d, snd d);
  dpi_SetUnsafeHead d head := (head, snd d);
  dpi_AddUnsafePayload d _ := d;
  dpi_Finalize d _ := d;
  dpi_Finalized _ := example_l2 3;
  dpi_SafeL2Head _ := example_l2 5;
  dpi_UnsafeL2Head d := fst d;
  dpi_Progress _ := mkProgress (example_l1 1) false }.

#[local] Instance example_network : Network (list ExecutionPayload) := {
  PublishL2Payload n p := (n ++ [p], None) }.

Definition example_state (r : result unit)
  : state (W := BlockInfo) (L := unit) (E := bool) (D := L2BlockRef * result unit) (N := list ExecutionPayload) :=
  mkState (example_l1 1) (example_l1 1) (example_l1 0) (example_l2 7, r) true tt (example_info 1) true (Some []).

Definition example_dcfg : DriverConfig := mkDriverConfig 2 2 true.

Lemma eventLoop_awake_witness :
  awake (handle example_cfg example_dcfg (Start (example_state (Err NotEnoughData))) EvStep) = true.
Proof.
  apply (eventLoop_awake example_cfg example_dcfg (example_state (Err NotEnoughData))).
  refine (running_event example_cfg example_dcfg _ false (Start (example_state (Err NotEnoughData))) EvStep _ _);
    [apply running_start|reflexivity].
Defined.

Lemma reset_stalls_witness :
  stalled (fold_left (handle example_cfg example_dcfg) [EvTicker; EvBlockCreation]
    (handle example_cfg example_dcfg (Start (example_state (Err ErrReset))) EvStep)).
Proof.
  apply (reset_stalls example_cfg example_dcfg (Start (example_state (Err ErrReset))) [EvTicker; EvBlockCreation]);
    vm_compute; reflexivity.
Defined.

Lemma sequencer_block_witness :
  dpi_UnsafeL2Head (st_derivation (fst (createNewL2Block example_cfg example_dcfg (example_state (Ok tt)))))
    = example_ref_8 ∧
  ∃ o, allowed_origin example_cfg example_dcfg (example_state (Ok tt)) o ∧ l1_Time o <= 16.
Proof.
  assert (HU : dpi_UnsafeL2Head (st_derivation (fst (createNewL2Block example_cfg example_dcfg (example_state (Ok tt)))))
    = example_ref_8) by (vm_compute; reflexivity).
  split; [exact HU|].
  assert (Hr : snd (createNewL2Block example_cfg example_dcfg (example_state (Ok tt))) = Ok tt)
    by (vm_compute; reflexivity).
  destruct (createNewL2Block _ _ _) as [s' r] eqn:HC. cbn [fst snd] in *. rewrite Hr in HC.
  destruct (sequencer_block example_cfg example_dcfg _ s' HC)
    as [HD|(o & attrs & payload & ref & l2 & l2' & Ho & _ & _ & _ & Ht & Hle & _)].
  - exfalso. rewrite HD in HU. apply (f_equal l2_Number) in HU. vm_compute in HU. discriminate.
  - exists o. split; [exact Ho|]. rewrite Ht in Hle. exact Hle.
Defined.
