(* ===== verification/SSZ.v ===== *)
(** * The SSZ codec of execution payloads

    op-node/eth/ssz.go: [SizeSSZ], [MarshalSSZ], [UnmarshalSSZ] and their helpers.
    Both directions work in a buffer taken from a pool, so the model passes the
    backing array of that buffer, with whatever earlier uses left in it; slicing is
    checked against the capacity as Go does.  A payload is marshalled to exactly the
    bytes of the SSZ layout whatever the buffer held, decoding inverts this, and
    decoding accepts nothing else except data whose first transaction offset is zero. *)

From S2P Require Import Prelude GoErrors EthTypes.

(** ** Slices of a backing array *)

(** [arr[lo:hi]]: the bound is the capacity of the array. *)
Definition go_slice (arr : bytes) (lo hi : Z) : result bytes :=
  if (0 <=? lo) && (lo <=? hi) && (hi <=? len arr)
  then Ok (slice (Z.to_nat lo) (Z.to_nat hi) arr)
  else Panic "slice bounds out of range".

(** [copy(arr[lo:hi], src)]: the array afterwards. *)
Definition go_copy (arr : bytes) (lo hi : Z) (src : bytes) : result bytes :=
  if (0 <=? lo) && (lo <=? hi) && (hi <=? len arr)
  then
    let src := take (Z.to_nat (hi - lo)) src in
    Ok (take (Z.to_nat lo) arr ++ src ++ drop (Z.to_nat lo + length src) arr)
  else Panic "slice bounds out of range".

(** A buffer of the pool, replaced when its capacity is below [scope]. *)
Definition pool_buffer (pool : bytes) (scope : Z) : bytes :=
  if u32 (len pool) <? scope then zeros (Z.to_nat scope) else pool.

(** ** Encoding *)

Definition executionPayloadFixedPart : Z :=
  32 + 20 + 32 + 32 + 256 + 32 + 8 + 8 + 8 + 8 + 4 + 32 + 32 + 4.
Definition maxTransactionsPerPayload : Z := Z.shiftl 1 20.
Definition MaxUint32 : Z := 2 ^ 32 - 1.
Definition ErrExtraDataTooLarge : error := ErrorNew "extra data too large".
Definition ErrBadTransactionOffset : error :=
  ErrorNew "transactions offset is smaller than extra data offset, aborting".

Definition SizeSSZ (payload : ExecutionPayload) : Z :=
  let full := u32 (executionPayloadFixedPart + u32 (len (ep_ExtraData payload))) in
  let full := u32 (full + u32 (u32 (len (ep_Transactions payload)) * 4)) in
  foldl (λ full tx, u32 (full + u32 (len tx))) full (ep_Transactions payload).

(** [z[i]] of a [Uint256Quantity], four 64-bit limbs, the least significant first. *)
Definition limb (z : Z) (i : Z) : Z := Z.land (Z.shiftr z (64 * i)) (2 ^ 64 - 1).

Definition marshalBytes32LE (z : Z) : bytes :=
  le_encode 8 (limb z 0) ++ le_encode 8 (limb z 1) ++
  le_encode 8 (limb z 2) ++ le_encode 8 (limb z 3).

Definition unmarshalBytes32LE (b : bytes) : Z :=
  le_decode (slice 0 8 b) + 2 ^ 64 * le_decode (slice 8 16 b) +
  2 ^ 128 * le_decode (slice 16 24 b) + 2 ^ 192 * le_decode (slice 24 32 b).

(** The fixed-size part: the width of each field and the bytes put there. *)
Definition fixed_fields (p : ExecutionPayload) : list (Z * bytes) :=
  [ (32, ep_ParentHash p); (20, ep_FeeRecipient p); (32, ep_StateRoot p);
    (32, ep_ReceiptsRoot p); (256, ep_LogsBloom p); (32, ep_PrevRandao p);
    (8, le_encode 8 (ep_BlockNumber p)); (8, le_encode 8 (ep_GasLimit p));
    (8, le_encode 8 (ep_GasUsed p)); (8, le_encode 8 (ep_Timestamp p));
    (* offset to ExtraData *)
    (4, le_encode 4 executionPayloadFixedPart);
    (32, marshalBytes32LE (ep_BaseFeePerGas p)); (32, ep_BlockHash p);
    (* offset to Transactions *)
    (4, le_encode 4 (u32 (executionPayloadFixedPart + u32 (len (ep_ExtraData p))))) ].

(** [copy(buf[offset:offset+n], src); offset += n] for each field in turn. *)
Fixpoint put_fields (fields : list (Z * bytes)) (offset : Z) (buf : bytes)
  : result (Z * bytes) :=
  match fields with
  | [] => Ok (offset, buf)
  | (n, src) :: fields =>
      buf ← go_copy buf offset (u32 (offset + n)) src;
      put_fields fields (u32 (offset + n)) buf
  end.

(** The loop of [marshalTransactions]. *)
Fixpoint marshalTransactions_loop (out : bytes) (offset txOffset : Z) (txs : list bytes)
  : result bytes :=
  match txs with
  | [] => Ok out
  | tx :: txs =>
      out ← go_copy out offset (u32 (offset + 4)) (le_encode 4 txOffset);
      let nextTxOffset := u32 (txOffset + u32 (len tx)) in
      out ← go_copy out txOffset nextTxOffset tx;
      marshalTransactions_loop out (u32 (offset + 4)) nextTxOffset txs
  end.

Definition marshalTransactions (out : bytes) (txs : list bytes) : result bytes :=
  marshalTransactions_loop out 0 (u32 (u32 (len txs) * 4)) txs.

(** The bytes [MarshalSSZ] hands to the writer. *)
Definition MarshalSSZ (pool : bytes) (payload : ExecutionPayload) : result bytes :=
  if MaxUint32 - executionPayloadFixedPart <? len (ep_ExtraData payload)
  then Err ErrExtraDataTooLarge
  else
    let scope := SizeSSZ payload in
    let buf := pool_buffer pool scope in
    '(offset, buf) ← put_fields (fixed_fields payload) 0 buf;
    if negb (offset =? executionPayloadFixedPart)
    then Panic "fixed part size is inconsistent"
    else
      let extraEnd := u32 (offset + u32 (len (ep_ExtraData payload))) in
      (* dynamic value 1: ExtraData *)
      buf ← go_copy buf offset extraEnd (ep_ExtraData payload);
      (* dynamic value 2: Transactions, in [buf[offset:]] *)
      if scope <? extraEnd then Panic "slice bounds out of range"
      else
        out ← marshalTransactions (drop (Z.to_nat extraEnd) buf) (ep_Transactions payload);
        Ok (take (Z.to_nat scope) (take (Z.to_nat extraEnd) buf ++ out)).

(** ** Decoding *)

(** [buf[offset:offset+n]; offset += n]. *)
Definition get_field (buf : bytes) (offset n : Z) : result (bytes * Z) :=
  b ← go_slice buf offset (u32 (offset + n)); Ok (b, u32 (offset + n)).

(** The loop of [unmarshalTransactions]: [n] transactions are left; all but the last
    end where the next one starts. *)
Fixpoint unmarshalTransactions_loop (inb : bytes) (scope : Z) (n : nat)
  (offset currentTxOffset : Z) : result (list bytes) :=
  match n with
  | O => Ok []
  | S n' =>
      '(nextTxOffset, offset) ← match n' with
        | O => Ok (scope, offset)
        | S _ => '(b, offset) ← get_field inb offset 4; Ok (le_decode b, offset)
        end;
      if (nextTxOffset <? currentTxOffset) || (scope <? nextTxOffset)
      then Err (ErrorNew "tx has bad next offset")
      else
        tx ← go_slice inb currentTxOffset nextTxOffset;
        txs ← unmarshalTransactions_loop inb scope n' offset nextTxOffset;
        Ok (tx :: txs)
  end.

(** [scope] is [len(in)]; [inb] may hold more, up to the capacity. *)
Definition unmarshalTransactions (inb : bytes) (scope : Z) : result (list bytes) :=
  if scope =? 0 then Ok []
  else if scope <? 4 then Err (ErrorNew "not enough scope to read first tx offset")
  else
    '(b, offset) ← get_field inb 0 4;
    let firstTxOffset := le_decode b in
    if negb (firstTxOffset mod 4 =? 0) then
      Err (ErrorNew "invalid first tx offset, not a multiple of offset size")
    else if scope <? firstTxOffset then
      Err (ErrorNew "invalid first tx offset, out of scope")
    else
      let txCount := firstTxOffset / 4 in
      if maxTransactionsPerPayload <? txCount then Err (ErrorNew "too many transactions")
      else unmarshalTransactions_loop inb scope (Z.to_nat txCount) offset firstTxOffset.

(** [io.ReadFull(r, buf)] for a buffer of [scope] bytes, where [r] delivers the
    given bytes and then ends. *)
Definition io_ReadFull (r buf : bytes) (scope : Z) : result bytes :=
  if len r <? scope
  then Err (match r with [] => io_EOF | _ => io_ErrUnexpectedEOF end)
  else Ok (take (Z.to_nat scope) r ++ drop (Z.to_nat scope) buf).

(** The decoded payload (a failing call leaves its receiver partly filled, which no
    caller looks at). *)
Definition UnmarshalSSZ (pool : bytes) (scope : Z) (r : bytes) : result ExecutionPayload :=
  if scope <? executionPayloadFixedPart
  then Err (ErrorNew "scope too small to decode execution payload")
  else
    buf ← map_err (Errorf "failed to read fixed-size part of ExecutionPayload")
            (io_ReadFull r (pool_buffer pool scope) scope);
    '(parentHash, offset) ← get_field buf 0 32;
    '(feeRecipient, offset) ← get_field buf offset 20;
    '(stateRoot, offset) ← get_field buf offset 32;
    '(receiptsRoot, offset) ← get_field buf offset 32;
    '(logsBloom, offset) ← get_field buf offset 256;
    '(prevRandao, offset) ← get_field buf offset 32;
    '(blockNumber, offset) ← get_field buf offset 8;
    '(gasLimit, offset) ← get_field buf offset 8;
    '(gasUsed, offset) ← get_field buf offset 8;
    '(timestamp, offset) ← get_field buf offset 8;
    '(b, offset) ← get_field buf offset 4;
    let extraDataOffset := le_decode b in
    if negb (extraDataOffset =? executionPayloadFixedPart)
    then Err (ErrorNew "unexpected extra data offset")
    else
      '(baseFee, offset) ← get_field buf offset 32;
      '(blockHash, offset) ← get_field buf offset 32;
      '(b, offset) ← get_field buf offset 4;
      let transactionsOffset := le_decode b in
      if transactionsOffset <? extraDataOffset then Err ErrBadTransactionOffset
      else if negb (offset =? executionPayloadFixedPart)
      then Panic "fixed part size is inconsistent"
      else if (u32 (extraDataOffset + 32) <? transactionsOffset)
              || (scope <? transactionsOffset)
      then Err (ErrorNew "extra-data is too large")
      else
        extraData ← go_slice buf extraDataOffset transactionsOffset;
        txs ← map_err (Errorf "failed to unmarshal transactions list")
                (unmarshalTransactions (drop (Z.to_nat transactionsOffset) buf)
                   (u32 (scope - transactionsOffset)));
        Ok (mkExecutionPayload parentHash feeRecipient stateRoot receiptsRoot logsBloom
              prevRandao (le_decode blockNumber) (le_decode gasLimit) (le_decode gasUsed)
              (le_decode timestamp) extraData (unmarshalBytes32LE baseFee) blockHash txs).

(** ** The layout *)

(** The offset table of the transactions, the first one at [o]. *)
Fixpoint tx_table (o : Z) (txs : list bytes) : bytes :=
  match txs with
  | [] => []
  | tx :: txs => le_encode 4 o ++ tx_table (o + len tx) txs
  end.

Definition ssz_txs (txs : list bytes) : bytes := tx_table (4 * len txs) txs ++ concat txs.
Definition ssz_fixed (p : ExecutionPayload) : bytes := concat (snd <$> fixed_fields p).
Definition ssz_bytes (p : ExecutionPayload) : bytes :=
  ssz_fixed p ++ ep_ExtraData p ++ ssz_txs (ep_Transactions p).

(** The fields have the widths of their Go types. *)
Definition wf_payload (p : ExecutionPayload) : Prop :=
  length (ep_ParentHash p) = 32%nat ∧ length (ep_FeeRecipient p) = 20%nat ∧
  length (ep_StateRoot p) = 32%nat ∧ length (ep_ReceiptsRoot p) = 32%nat ∧
  length (ep_LogsBloom p) = 256%nat ∧ length (ep_PrevRandao p) = 32%nat ∧
  length (ep_BlockHash p) = 32%nat ∧
  is_u64 (ep_BlockNumber p) ∧ is_u64 (ep_GasLimit p) ∧ is_u64 (ep_GasUsed p) ∧
  is_u64 (ep_Timestamp p) ∧ 0 <= ep_BaseFeePerGas p < 2 ^ 256.

#[export] Instance wf_payload_dec p : Decision (wf_payload p).
Proof. unfold wf_payload. apply _. Defined.

(** ** Lemmas: slices and copies *)

Lemma go_slice_ok arr lo hi :
  0 <= lo <= hi → hi <= len arr →
  go_slice arr lo hi = Ok (slice (Z.to_nat lo) (Z.to_nat hi) arr).
Proof.
  intros [? ?] ?. unfold go_slice.
  rewrite !(proj2 (Z.leb_le _ _)) by done. done.
Qed.

Lemma go_slice_inv arr lo hi b :
  go_slice arr lo hi = Ok b →
  0 <= lo <= hi ∧ hi <= len arr ∧ b = slice (Z.to_nat lo) (Z.to_nat hi) arr.
Proof.
  unfold go_slice. destruct (_ && _) eqn:E; [|done]. intros [= <-].
  bool_props. split_and!; done.
Qed.

(** Copying a block of the right size replaces what was there. *)
Lemma go_copy_block pre old post src lo hi :
  lo = len pre → hi = len pre + len src → length old = length src →
  go_copy (pre ++ old ++ post) lo hi src = Ok (pre ++ src ++ post).
Proof.
  intros -> -> Ho. unfold go_copy, len in *.
  rewrite !(proj2 (Z.leb_le _ _)) by (rewrite ?length_app; lia).
  cbn [andb]. do 2 f_equal.
  - rewrite Nat2Z.id. by rewrite take_app_length.
  - rewrite (take_ge src) by lia. f_equal.
    rewrite Nat2Z.id, drop_app_ge by lia.
    replace (length pre + length src - length pre)%nat with (length old) by lia.
    by rewrite drop_app_length.
Qed.

Lemma length_pool_buffer pool scope :
  0 <= scope → scope <= len (pool_buffer pool scope).
Proof.
  intros Hs. unfold pool_buffer. destruct (Z.ltb_spec (u32 (len pool)) scope).
  - unfold zeros, len. rewrite length_replicate. lia.
  - pose proof (u32_le (len pool) (len_nonneg pool)). lia.
Qed.

(** ** Encoding *)

Lemma len_le_encode n z : len (le_encode n z) = Z.of_nat n.
Proof. unfold len. by rewrite length_le_encode. Qed.

Lemma length_tx_table o txs : length (tx_table o txs) = (4 * length txs)%nat.
Proof.
  revert o. induction txs as [|tx txs IH]; intros o; [done|]. cbn [tx_table length].
  rewrite length_app, length_le_encode, IH. lia.
Qed.

Lemma len_concat_cons (tx : bytes) txs : len (concat (tx :: txs)) = len tx + len (concat txs).
Proof. cbn [concat]. apply len_app. Qed.

Lemma len_ssz_txs txs : len (ssz_txs txs) = 4 * len txs + len (concat txs).
Proof. unfold ssz_txs. rewrite len_app. unfold len. rewrite length_tx_table. lia. Qed.

Lemma SizeSSZ_loop (txs : list bytes) full :
  0 <= full → full + len (concat txs) < 2 ^ 32 →
  foldl (λ full tx, u32 (full + u32 (len tx))) full txs = full + len (concat txs).
Proof.
  revert full. induction txs as [|tx txs IH]; intros full H0 Hb.
  - cbn. rewrite len_nil. lia.
  - rewrite len_concat_cons in *. cbn [foldl].
    pose proof (len_nonneg tx). pose proof (len_nonneg (concat txs)).
    rewrite (u32_small (len tx)), (u32_small (full + len tx)) by (unfold is_u32; lia).
    rewrite IH; lia.
Qed.

Lemma put_fields_ok fields pre old post :
  Forall (λ f, len f.2 = f.1) fields →
  length old = length (concat (snd <$> fields)) →
  len pre + len (concat (snd <$> fields)) < 2 ^ 32 →
  put_fields fields (len pre) (pre ++ old ++ post) =
    Ok (len pre + len (concat (snd <$> fields)), pre ++ concat (snd <$> fields) ++ post).
Proof.
  intros Hf. revert pre old. induction Hf as [|[n src] fields Hn _ IH]; intros pre old Ho Hb;
    cbn [put_fields fmap list_fmap concat snd] in *.
  - destruct old; [|done]. rewrite len_nil, Z.add_0_r. done.
  - cbn [fst] in Hn. subst n. rewrite len_app in *. rewrite length_app in Ho.
    destruct (split_at (length src) old) as (o1 & o2 & -> & Hl); [lia|].
    rewrite length_app in Ho.
    pose proof (len_nonneg pre). pose proof (len_nonneg src).
    pose proof (len_nonneg (concat (snd <$> fields))).
    rewrite u32_small by (unfold is_u32; lia). rewrite <- app_assoc.
    rewrite go_copy_block by done. cbn [mbind result_bind].
    rewrite <- len_app, (app_assoc pre src), IH by (rewrite ?len_app; lia).
    rewrite len_app, <- !app_assoc. do 2 f_equal. lia.
Qed.

Lemma len_fields p : wf_payload p → Forall (λ f, len f.2 = f.1) (fixed_fields p).
Proof.
  intros (? & ? & ? & ? & ? & ? & ? & _). unfold fixed_fields, len.
  repeat constructor; cbn [fst snd]; rewrite ?length_le_encode; lia.
Qed.

Lemma len_ssz_fixed p : wf_payload p → len (ssz_fixed p) = executionPayloadFixedPart.
Proof.
  intros Hwf%len_fields. unfold ssz_fixed, fixed_fields in *.
  repeat match goal with H : Forall _ (_ :: _) |- _ => apply Forall_cons in H as [? H] end.
  cbn [fmap list_fmap concat snd fst] in *. rewrite !len_app, len_nil.
  unfold executionPayloadFixedPart in *. lia.
Qed.

(** The table grows at the front while the transactions are appended at the back. *)
Lemma marshalTransactions_loop_ok txs pre gap mid old post :
  length gap = (4 * length txs)%nat → length old = length (concat txs) →
  len pre + len gap + len mid + len (concat txs) < 2 ^ 32 →
  marshalTransactions_loop (pre ++ gap ++ mid ++ old ++ post) (len pre)
      (len pre + len gap + len mid) txs =
    Ok (pre ++ tx_table (len pre + len gap + len mid) txs ++ mid ++ concat txs ++ post).
Proof.
  revert pre gap mid old. induction txs as [|tx txs IH]; intros pre gap mid old Hg Ho Hb;
    cbn [marshalTransactions_loop tx_table].
  - destruct gap; [|done]. by destruct old.
  - rewrite len_concat_cons in Hb. cbn [concat length] in *. rewrite length_app in Ho.
    destruct (split_at 4 gap) as (g1 & g2 & -> & Hg1); [lia|].
    destruct (split_at (length tx) old) as (o1 & o2 & -> & Ho1); [lia|].
    rewrite length_app in Hg, Ho. rewrite len_app in *.
    pose proof (len_nonneg pre). pose proof (len_nonneg mid). pose proof (len_nonneg tx).
    pose proof (len_nonneg (concat txs)). pose proof (len_nonneg g2).
    assert (len g1 = 4) as E4 by (unfold len; lia). rewrite E4 in *.
    rewrite !u32_small by (unfold is_u32; rewrite ?u32_small; unfold is_u32; lia).
    set (o := len pre + (4 + len g2) + len mid).
    rewrite <- !app_assoc, go_copy_block; [|done|rewrite len_le_encode; lia
      |by rewrite length_le_encode].
    cbn [mbind result_bind].
    replace (pre ++ le_encode 4 o ++ g2 ++ mid ++ o1 ++ o2 ++ post)
      with ((pre ++ le_encode 4 o ++ g2 ++ mid) ++ o1 ++ (o2 ++ post)) by (by rewrite <- !app_assoc).
    rewrite go_copy_block; [|rewrite !len_app, len_le_encode; lia
      |rewrite !len_app, len_le_encode; lia|done].
    cbn [mbind result_bind].
    pose proof (IH (pre ++ le_encode 4 o) g2 (mid ++ tx) o2) as IH'.
    assert (len (pre ++ le_encode 4 o) = len pre + 4) as El
      by (rewrite len_app, len_le_encode; lia).
    rewrite El, len_app in IH'.
    replace (o + len tx) with (len pre + 4 + len g2 + (len mid + len tx)) by (unfold o; lia).
    rewrite <- !app_assoc in *. apply IH'; lia.
Qed.

Lemma marshalTransactions_ok txs old post :
  length old = length (ssz_txs txs) → len (ssz_txs txs) < 2 ^ 32 →
  marshalTransactions (old ++ post) txs = Ok (ssz_txs txs ++ post).
Proof.
  intros Ho Hb. rewrite len_ssz_txs in Hb. unfold marshalTransactions.
  pose proof (len_nonneg txs). pose proof (len_nonneg (concat txs)).
  rewrite !u32_small by (unfold is_u32; rewrite ?u32_small; unfold is_u32; lia).
  unfold ssz_txs in Ho. rewrite length_app, length_tx_table in Ho.
  destruct (split_at (4 * length txs) old) as (gap & old' & -> & Hg); [lia|].
  rewrite length_app in Ho.
  assert (len gap = 4 * len txs) as Eg by (unfold len; lia).
  pose proof (marshalTransactions_loop_ok txs [] gap [] old' post) as E.
  rewrite len_nil, Eg in E. cbn [app] in E.
  replace (0 + 4 * len txs + 0) with (len txs * 4) in E by lia.
  rewrite <- app_assoc, E by lia.
  unfold ssz_txs. by rewrite <- app_assoc, (Z.mul_comm 4).
Qed.

Lemma SizeSSZ_ok p :
  wf_payload p → len (ssz_bytes p) < 2 ^ 32 → SizeSSZ p = len (ssz_bytes p).
Proof.
  intros Hwf. unfold ssz_bytes. rewrite !len_app, len_ssz_txs, len_ssz_fixed by done.
  intros Hb. unfold SizeSSZ, executionPayloadFixedPart in *.
  pose proof (len_nonneg (ep_ExtraData p)). pose proof (len_nonneg (ep_Transactions p)).
  pose proof (len_nonneg (concat (ep_Transactions p))).
  rewrite !u32_small by (unfold is_u32; rewrite ?u32_small; unfold is_u32;
    rewrite ?u32_small; unfold is_u32; lia).
  rewrite SizeSSZ_loop; lia.
Qed.

Lemma MarshalSSZ_layout pool p :
  wf_payload p → len (ssz_bytes p) < 2 ^ 32 → MarshalSSZ pool p = Ok (ssz_bytes p).
Proof.
  intros Hwf Hb. pose proof (SizeSSZ_ok p Hwf Hb) as Hsize. unfold MarshalSSZ.
  pose proof (length_pool_buffer pool (SizeSSZ p)) as Hpool. rewrite Hsize in *.
  pose proof (len_ssz_fixed p Hwf) as Hfix.
  unfold ssz_bytes in *. rewrite !len_app, Hfix in *.
  pose proof (len_nonneg (ep_ExtraData p)). pose proof (len_nonneg (ssz_txs (ep_Transactions p))).
  rewrite (proj2 (Z.ltb_ge _ _)) by (unfold MaxUint32, executionPayloadFixedPart in *; lia).
  set (buf := pool_buffer pool _) in *. clearbody buf.
  assert (Hl : (length (ssz_fixed p) + (length (ep_ExtraData p) + length (ssz_txs (ep_Transactions p)))
    ≤ length buf)%nat) by (unfold len, executionPayloadFixedPart in *; lia).
  destruct (split_at (length (ssz_fixed p)) buf) as (b1 & r & -> & H1); [lia|]. rewrite length_app in Hl.
  destruct (split_at (length (ep_ExtraData p)) r) as (b2 & r' & -> & H2); [lia|]. rewrite length_app in Hl.
  destruct (split_at (length (ssz_txs (ep_Transactions p))) r') as (b3 & r & -> & H3); [lia|].
  clear Hl Hpool.
  pose proof (put_fields_ok (fixed_fields p) [] b1 (b2 ++ b3 ++ r) (len_fields p Hwf) H1) as E.
  fold (ssz_fixed p) in E. rewrite len_nil, Hfix in E. cbn [app] in E.
  rewrite E by (unfold executionPayloadFixedPart in *; lia). clear E. cbn [mbind result_bind].
  cbn [negb Z.eqb]. rewrite Z.add_0_l, Z.eqb_refl. cbn [negb].
  rewrite !u32_small by (unfold is_u32; rewrite ?u32_small; unfold is_u32, executionPayloadFixedPart in *; lia).
  rewrite go_copy_block by (rewrite ?Hfix; done). cbn [mbind result_bind].
  rewrite (proj2 (Z.ltb_ge _ _)) by lia.
  assert (Hn : Z.to_nat (executionPayloadFixedPart + len (ep_ExtraData p)) =
    length (ssz_fixed p ++ ep_ExtraData p))
    by (rewrite <- Hfix, length_app; unfold len; lia).
  rewrite Hn, app_assoc, drop_app_length, take_app_length.
  rewrite marshalTransactions_ok by (try done; unfold executionPayloadFixedPart in *; lia).
  cbn [mbind result_bind]. f_equal. rewrite <- app_assoc, !app_assoc.
  rewrite <- (app_assoc (ssz_fixed p)). apply take_app_length'.
  rewrite !length_app. unfold len in *. lia.
Qed.

(** ** Decoding *)

Lemma go_slice_app T stale lo hi :
  (lo ≤ hi)%nat → (hi ≤ length T)%nat →
  go_slice (T ++ stale) (Z.of_nat lo) (Z.of_nat hi) = Ok (slice lo hi T).
Proof.
  intros. rewrite go_slice_ok by (rewrite ?len_app; unfold len; lia).
  by rewrite !Nat2Z.id, slice_app_l.
Qed.

Lemma get_field_app T stale off n :
  (off + n ≤ length T)%nat → len T < 2 ^ 32 →
  get_field (T ++ stale) (Z.of_nat off) (Z.of_nat n) =
    Ok (slice off (off + n) T, Z.of_nat (off + n)).
Proof.
  intros Hn Hl. unfold get_field. rewrite u32_small by (unfold is_u32, len in *; lia).
  rewrite <- Nat2Z.inj_add, go_slice_app by lia. done.
Qed.

Lemma le_encode4_eq b z :
  length b = 4%nat → is_u32 z → b = le_encode 4 z ↔ le_decode b = z.
Proof.
  intros Hb Hz. split; [intros ->|intros <-].
  - by apply le_decode_encode_small.
  - by rewrite le_encode_decode_len.
Qed.

Lemma unmarshalTransactions_loop_step inb scope n offset cur :
  unmarshalTransactions_loop inb scope (S (S n)) offset cur =
    ('(b, offset) ← get_field inb offset 4;
     if (le_decode b <? cur) || (scope <? le_decode b)
     then Err (ErrorNew "tx has bad next offset")
     else
       tx ← go_slice inb cur (le_decode b);
       txs ← unmarshalTransactions_loop inb scope (S n) offset (le_decode b);
       Ok (tx :: txs)).
Proof.
  cbn [unmarshalTransactions_loop]. by destruct (get_field inb offset 4) as [[b o]|e|m].
Qed.

(** The first entry of a table is the end of the transaction before it. *)
Lemma tx_table_head (T b l : bytes) cur tx tx2 rest :
  length b = 4%nat → len T < 2 ^ 32 → (cur ≤ length T)%nat →
  b ++ l = tx_table (Z.of_nat cur + len tx) (tx2 :: rest) →
  slice cur (length T) T = concat (tx :: tx2 :: rest) →
  le_decode b = Z.of_nat cur + len tx ∧ le_decode b <= len T ∧
  l = tx_table (Z.of_nat cur + len tx + len tx2) rest.
Proof.
  intros Hb HT Hcur Ht Hc. cbn [tx_table] in Ht.
  apply app_inj_1 in Ht as [Ht ->]; [|by rewrite length_le_encode].
  apply (f_equal length) in Hc. rewrite length_slice in Hc by lia. cbn [concat] in Hc.
  rewrite !length_app in Hc. apply le_encode4_eq in Ht; [|done|unfold is_u32, len in *; lia].
  split; [done|]. split; [|done]. unfold len in *. lia.
Qed.

(** What the loop accepts: the rest of the offset table and the rest of the data. *)
Lemma unmarshalTransactions_loop_iff T stale n off cur txs :
  len T < 2 ^ 32 → (off + 4 * n ≤ length T)%nat → (cur ≤ length T)%nat →
  unmarshalTransactions_loop (T ++ stale) (len T) (S n) (Z.of_nat off) (Z.of_nat cur) = Ok txs ↔
  ∃ tx rest, txs = tx :: rest ∧ length rest = n ∧
    slice off (off + 4 * n) T = tx_table (Z.of_nat cur + len tx) rest ∧
    slice cur (length T) T = concat txs.
Proof.
  intros HT. revert off cur txs. induction n as [|n IH]; intros off cur txs Hoff Hcur.
  - cbn [unmarshalTransactions_loop mbind result_bind].
    rewrite (proj2 (Z.ltb_ge _ _)), Z.ltb_irrefl by (unfold len; lia). cbn [orb].
    unfold len. rewrite go_slice_app by lia. cbn [mbind result_bind].
    replace (off + 4 * 0)%nat with off by lia. unfold slice at 2. rewrite Nat.sub_diag.
    split.
    + intros [= <-]. eexists _, []. rewrite concat_cons, app_nil_r. done.
    + intros (tx & [|] & -> & Hn & _ & Hc); [|done]. cbn in Hc. rewrite app_nil_r in Hc. by subst.
  - rewrite unmarshalTransactions_loop_step. change 4 with (Z.of_nat 4).
    rewrite get_field_app by (done || lia). cbn [mbind result_bind].
    set (b := slice off (off + 4) T).
    assert (Hb : length b = 4%nat) by (unfold b; rewrite length_slice; lia).
    pose proof (le_decode_bound b) as Hnext. rewrite Hb in Hnext. cbn in Hnext.
    replace (slice off (off + 4 * S n) T) with (b ++ slice (off + 4) (off + 4 + 4 * n) T)
      by (rewrite (slice_split off (off + 4) (off + 4 * S n)) by lia; do 2 f_equal; lia).
    destruct (_ || _) eqn:Ebad.
    { split; [done|]. intros (tx & [|tx2 rest] & -> & Hn & Ht & Hc); [done|].
      destruct (tx_table_head _ _ _ _ _ _ _ Hb HT Hcur Ht Hc) as (E & Hle & _).
      pose proof (len_nonneg tx). apply orb_true_iff in Ebad as [?|?]; bool_props; lia. }
    bool_props. set (next := Z.to_nat (le_decode b)).
    assert (En : le_decode b = Z.of_nat next) by (unfold next; lia). rewrite En.
    assert (Hn1 : (cur ≤ next ≤ length T)%nat) by (unfold next, len in *; lia).
    rewrite go_slice_app by lia. cbn [mbind result_bind].
    rewrite (slice_split cur next (length T)) by lia. specialize (IH (off + 4)%nat next).
    assert (Ecur : Z.of_nat cur + len (slice cur next T) = Z.of_nat next)
      by (unfold len; rewrite length_slice; lia).
    split.
    + intros (rest & Hrest & [= <-])%bind_Ok.
      apply IH in Hrest as (tx2 & rest' & -> & Hl & Ht & Hc); [|lia..].
      eexists _, _. split; [done|]. split; [cbn [length]; lia|].
      rewrite concat_cons, <- Hc. split; [|done]. cbn [tx_table]. rewrite Ecur, Ht. f_equal.
      apply le_encode4_eq; [done|unfold is_u32, len in *; lia|done].
    + intros (tx & [|tx2 rest] & -> & Hl & Ht & Hc); [done|].
      rewrite <- (slice_split cur next (length T)) in Hc by lia.
      destruct (tx_table_head _ _ _ _ _ _ _ Hb HT Hcur Ht Hc) as (E & _ & Ht').
      rewrite (slice_split cur next (length T)) in Hc by lia. rewrite concat_cons in Hc.
      apply app_inj_1 in Hc as [<- Hc]; [|rewrite length_slice by lia; unfold len in *; lia].
      assert (∀ A, A = Ok (tx2 :: rest) → (A ≫= λ txs, Ok (slice cur next T :: txs)) =
        Ok (slice cur next T :: tx2 :: rest)) as Hbind by (by intros A ->).
      apply Hbind, IH; [lia..|]. eexists _, _. split; [done|]. split; [by injection Hl|].
      by rewrite Ht', Ecur.
Qed.

(** The transaction lists the decoder reads from a block of bytes: the canonical
    encoding, or anything behind a first offset of zero, read as no transactions. *)
Definition ssz_txs_decodes (T : bytes) (txs : list bytes) : Prop :=
  (T = ssz_txs txs ∧ len txs <= maxTransactionsPerPayload) ∨
  (txs = [] ∧ ∃ junk, T = le_encode 4 0 ++ junk).

Lemma ssz_txs_head tx txs :
  ssz_txs (tx :: txs) =
    le_encode 4 (4 * len (tx :: txs)) ++
    tx_table (4 * len (tx :: txs) + len tx) txs ++ concat (tx :: txs).
Proof. unfold ssz_txs. cbn [tx_table]. by rewrite <- app_assoc. Qed.

(** Reading the first offset back out of the two forms. *)
Lemma ssz_txs_first b T' tx rest :
  length b = 4%nat → len (b ++ T') < 2 ^ 32 → b ++ T' = ssz_txs (tx :: rest) →
  le_decode b = 4 * len (tx :: rest) ∧ le_decode b <= len (b ++ T') ∧
  T' = tx_table (4 * len (tx :: rest) + len tx) rest ++ concat (tx :: rest).
Proof.
  intros Hb HT E. pose proof (f_equal len E) as El. rewrite len_ssz_txs in El.
  rewrite ssz_txs_head in E. apply app_inj_1 in E as [E ->]; [|by rewrite length_le_encode].
  pose proof (len_nonneg (tx :: rest)). pose proof (len_nonneg (concat (tx :: rest))).
  apply le_encode4_eq in E; [|done|unfold is_u32; lia]. split; [done|]. split; [lia|done].
Qed.

Lemma zero_first b T' :
  length b = 4%nat → (∃ junk, b ++ T' = le_encode 4 0 ++ junk) ↔ le_decode b = 0.
Proof.
  intros Hb. split.
  - intros [junk [-> _]%app_inj_1]; [done|by rewrite length_le_encode].
  - intros E. exists T'. f_equal. by apply le_encode4_eq.
Qed.

(** The first offset of an accepted block passes the checks in front of the loop. *)
Lemma ssz_txs_checks b T' txs :
  length b = 4%nat → len (b ++ T') < 2 ^ 32 → ssz_txs_decodes (b ++ T') txs →
  le_decode b = 4 * len txs ∧ le_decode b <= len (b ++ T') ∧
  len txs <= maxTransactionsPerPayload.
Proof.
  intros Hb HT [[E Hm]|[-> Hz]].
  - destruct txs as [|tx rest]; [by destruct b|].
    destruct (ssz_txs_first b T' tx rest) as (? & ? & _); done.
  - apply zero_first in Hz; [|done]. pose proof (len_nonneg (b ++ T')).
    change maxTransactionsPerPayload with 1048576. change (len (@nil bytes)) with 0. lia.
Qed.

Lemma unmarshalTransactions_table b T' stale m txs :
  length b = 4%nat → len (b ++ T') < 2 ^ 32 → (4 * S m ≤ length (b ++ T'))%nat →
  le_decode b = Z.of_nat (4 * S m) → Z.of_nat (S m) <= maxTransactionsPerPayload →
  unmarshalTransactions_loop (b ++ T' ++ stale) (len (b ++ T')) (S m) 4 (le_decode b) = Ok txs ↔
  ssz_txs_decodes (b ++ T') txs.
Proof.
  intros Hb HT Hm Hfirst Hmax. rewrite app_assoc, Hfirst.
  rewrite (unmarshalTransactions_loop_iff (b ++ T') stale m 4 (4 * S m))
    by (rewrite ?length_app in *; lia).
  rewrite slice_app_r, Hb, slice_app_r, Hb by lia. rewrite length_app, Hb in Hm |- *.
  replace (4 + length T' - 4)%nat with (length T') by lia.
  replace (4 * S m - 4)%nat with (4 * m)%nat by lia.
  replace (4 + 4 * m - 4)%nat with (4 * m)%nat by lia. rewrite Nat.sub_diag.
  assert (HT' : T' = slice 0 (4 * m) T' ++ slice (4 * m) (length T') T').
  { rewrite <- slice_split by lia. by rewrite slice_full. }
  split.
  - intros (tx & rest & -> & Hl & Ht & Hc). left.
    assert (El : 4 * len (tx :: rest) = Z.of_nat (4 * S m)) by (rewrite len_cons; unfold len; lia).
    split; [|lia]. rewrite ssz_txs_head, El, HT', Hc, Ht. f_equal.
    apply le_encode4_eq; [done|rewrite <- Hfirst; pose proof (le_decode_bound b) as Hx|done].
    rewrite Hb in Hx. exact Hx.
  - intros [[E _]|[-> Hz]]; [|apply zero_first in Hz; [lia|done]]. destruct txs as [|tx rest]; [by destruct b|].
    apply ssz_txs_first in E as (E & _ & ET); [|done..].
    assert (Hl : length rest = m) by (rewrite len_cons in E; unfold len in E; lia).
    exists tx, rest. split; [done|]. split; [done|]. rewrite E in Hfirst. rewrite Hfirst in ET.
    rewrite ET, slice_app_l, slice_full by (rewrite length_tx_table; lia). split; [done|].
    rewrite slice_app_r, length_tx_table, Hl, Nat.sub_diag by (rewrite length_tx_table; lia).
    apply slice_full. rewrite length_app, length_tx_table. lia.
Qed.

Lemma unmarshalTransactions_iff T stale txs :
  len T < 2 ^ 32 →
  unmarshalTransactions (T ++ stale) (len T) = Ok txs ↔ ssz_txs_decodes T txs.
Proof.
  intros HT. unfold unmarshalTransactions.
  destruct (Z.eqb_spec (len T) 0) as [E0|Hne].
  { assert (T = []) as -> by (destruct T; [done|rewrite len_cons in E0; pose proof (len_nonneg T); lia]).
    split; [by intros [= <-]; left|]. intros [[E _]|[-> _]]; [|done]. by destruct txs. }
  destruct (Z.ltb_spec (len T) 4) as [|H4].
  { split; [done|]. intros [[-> _]|[_ [junk ->]]].
    - destruct txs as [|tx txs]; [done|]. rewrite len_ssz_txs, len_cons in *.
      pose proof (len_nonneg (concat (tx :: txs))). pose proof (len_nonneg txs). lia.
    - rewrite len_app, len_le_encode in *. pose proof (len_nonneg junk). lia. }
  change (get_field (T ++ stale) 0 4) with (get_field (T ++ stale) (Z.of_nat 0) (Z.of_nat 4)).
  rewrite get_field_app by (done || (unfold len in *; lia)). cbn [mbind result_bind].
  destruct (split_at 4 T) as (b & T' & -> & Hb); [unfold len in *; lia|].
  rewrite slice_app_l, slice_full by lia.
  pose proof (ssz_txs_checks b T' txs Hb HT) as Hck.
  pose proof (le_decode_bound b) as Hfirst. rewrite Hb in Hfirst. cbn in Hfirst.
  destruct (Z.eqb_spec (le_decode b mod 4) 0) as [Hmod|Hmod]; cbn [negb].
  2:{ split; [done|]. intros (E & _)%Hck. rewrite E, Z.mul_comm, Z.mod_mul in Hmod; lia. }
  destruct (Z.ltb_spec (len (b ++ T')) (le_decode b)) as [|Hle].
  { split; [done|]. intros (_ & ? & _)%Hck. lia. }
  assert (Hdiv : le_decode b = 4 * (le_decode b / 4)) by (apply Z.div_exact; lia).
  set (n := le_decode b / 4) in *.
  destruct (Z.ltb_spec maxTransactionsPerPayload n) as [Hmax|Hmax].
  { split; [done|]. intros (E & _ & ?)%Hck. lia. }
  destruct (Z.to_nat n) as [|m] eqn:Em.
  - cbn [unmarshalTransactions_loop]. assert (E0 : le_decode b = 0) by lia.
    split; [intros [= <-]; right; split; [done|by apply zero_first]|].
    intros (E & _)%Hck. destruct txs; [done|]. rewrite len_cons in E. pose proof (len_nonneg txs). lia.
  - rewrite <- app_assoc. apply unmarshalTransactions_table; unfold len in *; try done; lia.
Qed.

(** *** The base fee *)

Lemma le_encode_app n m z :
  le_encode (n + m) z = le_encode n z ++ le_encode m (z / 256 ^ Z.of_nat n).
Proof.
  revert z. induction n as [|n IH]; intros z.
  - cbn. by rewrite Z.div_1_r.
  - cbn [le_encode plus app]. rewrite IH, Nat2Z.inj_succ, Z.pow_succ_r, Z.div_div by lia. done.
Qed.

Lemma le_encode_mod n z : le_encode n (z mod 256 ^ Z.of_nat n) = le_encode n z.
Proof.
  rewrite <- le_decode_encode. apply le_encode_decode_len. apply length_le_encode.
Qed.

Lemma limb_div z i : 0 <= i → limb z i = (z / 2 ^ (64 * i)) mod 256 ^ Z.of_nat 8.
Proof.
  intros Hi. unfold limb. change (2 ^ 64 - 1) with (Z.ones 64).
  by rewrite Z.land_ones, Z.shiftr_div_pow2 by lia.
Qed.

(** The four limbs are the 32 little-endian bytes of the number. *)
Lemma marshalBytes32LE_le z : marshalBytes32LE z = le_encode 32 z.
Proof.
  unfold marshalBytes32LE. rewrite !limb_div, !le_encode_mod by lia.
  change 32%nat with (8 + (8 + (8 + 8)))%nat. rewrite !le_encode_app, !Z.div_div by lia.
  change (2 ^ (64 * 0)) with 1. by rewrite Z.div_1_r.
Qed.

Lemma unmarshalBytes32LE_le b : length b = 32%nat → unmarshalBytes32LE b = le_decode b.
Proof.
  intros Hb. unfold unmarshalBytes32LE.
  destruct (split_at 8 b) as (a & r & -> & Ha); [lia|]. rewrite length_app in Hb.
  destruct (split_at 8 r) as (c & r' & -> & Hc); [lia|]. rewrite length_app in Hb.
  destruct (split_at 8 r') as (d & e & -> & Hd); [lia|]. rewrite length_app in Hb.
  rewrite !le_decode_app, Ha, Hc, Hd.
  rewrite (slice_app_l 0 8), slice_full by lia.
  rewrite (slice_app_r 8 16), (slice_app_r 16 24), (slice_app_r 24 32), Ha by lia.
  rewrite (slice_app_l 0 8 c), slice_full by lia.
  rewrite (slice_app_r (16 - 8)), (slice_app_r (24 - 8)), Hc by lia.
  rewrite (slice_app_l (16 - 8 - 8)), slice_full by lia.
  rewrite (slice_app_r (24 - 8 - 8)), Hd, slice_full by lia. lia.
Qed.

(** *** The fixed part *)

Lemma get_field_concat blocks (k : nat) b post o n :
  blocks !! k = Some b → o = len (concat (take k blocks)) → n = len b →
  len (concat blocks) < 2 ^ 32 →
  get_field (concat blocks ++ post) o n = Ok (b, o + n).
Proof.
  intros Hk -> -> Hl.
  rewrite <- (take_drop_middle blocks k b Hk) in Hl |- *.
  rewrite concat_app, concat_cons in *. rewrite !len_app in Hl.
  rewrite take_app_length' by (rewrite length_take; apply lookup_lt_Some in Hk; lia).
  pose proof (len_nonneg (concat (take k blocks))). pose proof (len_nonneg b).
  pose proof (len_nonneg (concat (drop (S k) blocks))).
  unfold get_field. rewrite u32_small by (unfold is_u32; lia).
  rewrite go_slice_ok by (rewrite ?len_app; pose proof (len_nonneg post); lia).
  rewrite <- !app_assoc, slice_middle by (unfold len; lia). done.
Qed.

(** The fields of the fixed part, and the payload they are decoded to. *)
Definition payload_of (blocks : list bytes) (extra : bytes) (txs : list bytes)
  : ExecutionPayload :=
  let f i := nth i blocks [] in
  mkExecutionPayload (f 0%nat) (f 1%nat) (f 2%nat) (f 3%nat) (f 4%nat) (f 5%nat)
    (le_decode (f 6%nat)) (le_decode (f 7%nat)) (le_decode (f 8%nat)) (le_decode (f 9%nat))
    extra (unmarshalBytes32LE (f 11%nat)) (f 12%nat) txs.

Definition widths : list nat := [32; 20; 32; 32; 256; 32; 8; 8; 8; 8; 4; 32; 32; 4]%nat.

(** What [UnmarshalSSZ] does after the fixed part has been read. *)
Definition unmarshal_dynamic (blocks : list bytes) (rest stale : bytes) : result ExecutionPayload :=
  let off := le_decode (nth 13 blocks []) in
  if negb (le_decode (nth 10 blocks []) =? executionPayloadFixedPart)
  then Err (ErrorNew "unexpected extra data offset")
  else if off <? executionPayloadFixedPart then Err ErrBadTransactionOffset
  else if (executionPayloadFixedPart + 32 <? off) || (executionPayloadFixedPart + len rest <? off)
  then Err (ErrorNew "extra-data is too large")
  else
    let n := Z.to_nat (off - executionPayloadFixedPart) in
    txs ← map_err (Errorf "failed to unmarshal transactions list")
            (unmarshalTransactions (drop n rest ++ stale) (len (drop n rest)));
    Ok (payload_of blocks (take n rest) txs).

Lemma split_blocks (ws : list nat) (l : bytes) :
  (sum_list ws ≤ length l)%nat →
  ∃ blocks rest, l = concat blocks ++ rest ∧ length <$> blocks = ws.
Proof.
  revert l. induction ws as [|w ws IH]; intros l Hl; [by exists [], l|]. cbn in Hl.
  destruct (split_at w l) as (b & l' & -> & Hb); [lia|]. rewrite length_app in Hl.
  destruct (IH l') as (bs & rest & -> & Hbs); [lia|].
  exists (b :: bs), rest. rewrite concat_cons, <- app_assoc. split; [done|]. cbn. by rewrite Hb, Hbs.
Qed.

Lemma length_concat_blocks (blocks : list bytes) :
  length (concat blocks) = sum_list (length <$> blocks).
Proof. induction blocks as [|b bs IH]; [done|]. cbn. by rewrite length_app, IH. Qed.

Lemma io_ReadFull_prefix data tail buf :
  io_ReadFull (data ++ tail) buf (len data) = Ok (data ++ drop (length data) buf).
Proof.
  unfold io_ReadFull. pose proof (len_nonneg tail).
  rewrite (proj2 (Z.ltb_ge _ _)) by (rewrite len_app; lia).
  unfold len. by rewrite Nat2Z.id, take_app_length.
Qed.

(** The two dynamic parts, cut out of the buffer at the transactions offset. *)
Lemma dynamic_slices (fixed rest stale : bytes) off :
  let n := Z.to_nat (off - len fixed) in
  len fixed <= off <= len fixed + len rest → len fixed + len rest < 2 ^ 32 →
  go_slice (fixed ++ rest ++ stale) (len fixed) off = Ok (take n rest) ∧
  drop (Z.to_nat off) (fixed ++ rest ++ stale) = drop n rest ++ stale ∧
  u32 (len fixed + len rest - off) = len (drop n rest).
Proof.
  intros n Hoff Hlt. pose proof (len_nonneg fixed). pose proof (len_nonneg rest).
  pose proof (len_nonneg stale).
  assert (Hn : (n ≤ length rest)%nat) by (unfold n, len in *; lia).
  assert (Ho : Z.to_nat off = (length fixed + n)%nat) by (unfold n, len in *; lia).
  rewrite go_slice_ok by (rewrite ?len_app; lia). rewrite Ho.
  unfold len at 1. rewrite Nat2Z.id, slice_app_r, Nat.sub_diag by lia.
  replace (length fixed + n - length fixed)%nat with n by lia. split_and!.
  - rewrite slice_app_l by lia. unfold slice. by rewrite drop_0, Nat.sub_0_r.
  - by rewrite <- drop_drop, drop_app_length, drop_app_le by lia.
  - rewrite u32_small by (unfold is_u32; lia). unfold len. rewrite length_drop.
    unfold n, len in *. lia.
Qed.

Ltac read_field Hg k b L :=
  rewrite (Hg k b) by (rewrite ?L; done); cbn [mbind result_bind].

Lemma UnmarshalSSZ_blocks pool blocks rest tail :
  length <$> blocks = widths → executionPayloadFixedPart + len rest < 2 ^ 32 →
  ∃ stale, UnmarshalSSZ pool (executionPayloadFixedPart + len rest)
             (concat blocks ++ rest ++ tail) = unmarshal_dynamic blocks rest stale.
Proof.
  intros Hw Hlt. pose proof (len_nonneg rest) as Hr0.
  assert (Hcl : len (concat blocks) = executionPayloadFixedPart)
    by (unfold len; by rewrite length_concat_blocks, Hw).
  unfold UnmarshalSSZ. rewrite (proj2 (Z.ltb_ge _ _)) by lia.
  assert (executionPayloadFixedPart + len rest = len (concat blocks ++ rest)) as Es
    by (by rewrite len_app, Hcl).
  rewrite Es, app_assoc, io_ReadFull_prefix, <- app_assoc.
  set (stale := drop _ (pool_buffer _ _)). exists stale. clearbody stale. cbn [map_err mbind result_bind].
  destruct blocks as [|b0 [|b1 [|b2 [|b3 [|b4 [|b5 [|b6 [|b7 [|b8 [|b9 [|b10 [|b11 [|b12 [|b13
    [|]]]]]]]]]]]]]]]; try done. injection Hw as L0 L1 L2 L3 L4 L5 L6 L7 L8 L9 L10 L11 L12 L13.
  set (bs := [b0; b1; b2; b3; b4; b5; b6; b7; b8; b9; b10; b11; b12; b13]) in *.
  assert (Hg : ∀ k b o n, bs !! k = Some b → o = Z.of_nat (sum_list (take k widths)) →
    n = Z.of_nat (length b) → get_field (concat bs ++ rest ++ stale) o n = Ok (b, o + n)).
  { intros k b o n Hk -> ->. apply (get_field_concat bs k); [done| |done|rewrite Hcl; done].
    unfold len. rewrite length_concat_blocks, fmap_take. do 3 f_equal.
    unfold bs. cbn. by rewrite L0, L1, L2, L3, L4, L5, L6, L7, L8, L9, L10, L11, L12, L13. }
  read_field Hg 0%nat b0 L0. read_field Hg 1%nat b1 L1. read_field Hg 2%nat b2 L2. read_field Hg 3%nat b3 L3.
  read_field Hg 4%nat b4 L4. read_field Hg 5%nat b5 L5. read_field Hg 6%nat b6 L6. read_field Hg 7%nat b7 L7.
  read_field Hg 8%nat b8 L8. read_field Hg 9%nat b9 L9. read_field Hg 10%nat b10 L10.
  unfold unmarshal_dynamic. change (nth 10 bs []) with b10. change (nth 13 bs []) with b13.
  destruct (Z.eqb_spec (le_decode b10) executionPayloadFixedPart) as [->|]; [|done]. cbn [negb].
  read_field Hg 11%nat b11 L11. read_field Hg 12%nat b12 L12. read_field Hg 13%nat b13 L13.
  destruct (Z.ltb_spec (le_decode b13) executionPayloadFixedPart) as [|Hoff]; [done|].
  change (negb (_ =? _)) with false. cbn match.
  change (u32 (executionPayloadFixedPart + 32)) with (executionPayloadFixedPart + 32).
  rewrite len_app, Hcl. destruct (_ || _) eqn:Ebad; [done|]. bool_props.
  destruct (dynamic_slices (concat bs) rest stale (le_decode b13)) as (Hs & Hd & Hu);
    [rewrite Hcl; lia|by rewrite Hcl|]. rewrite Hcl in Hs, Hd, Hu. by rewrite Hs, Hd, Hu.
Qed.

(** *** Whole payloads *)

(** What a block of bytes is decoded to. *)
Definition ssz_decodes (data : bytes) (p : ExecutionPayload) : Prop :=
  wf_payload p ∧ len (ep_ExtraData p) <= 32 ∧
  ∃ T, data = ssz_fixed p ++ ep_ExtraData p ++ T ∧ ssz_txs_decodes T (ep_Transactions p).

Lemma fields_widths p : wf_payload p → length <$> (snd <$> fixed_fields p) = widths.
Proof.
  intros (? & ? & ? & ? & ? & ? & ? & _). unfold fixed_fields.
  cbn [fmap list_fmap snd]. rewrite !length_le_encode, marshalBytes32LE_le, length_le_encode.
  by repeat f_equal.
Qed.

Lemma payload_of_fields p :
  wf_payload p →
  payload_of (snd <$> fixed_fields p) (ep_ExtraData p) (ep_Transactions p) = p.
Proof.
  intros (_ & _ & _ & _ & _ & _ & _ & Hn & Hl & Hu & Ht & Hf). unfold payload_of, fixed_fields.
  cbn [fmap list_fmap snd nth]. rewrite marshalBytes32LE_le, unmarshalBytes32LE_le
    by apply length_le_encode.
  rewrite !le_decode_encode_small by (done || apply Hn || apply Hl || apply Hu || apply Ht || apply Hf).
  by destruct p.
Qed.

Lemma fields_payload_of blocks extra txs :
  length <$> blocks = widths → len extra <= 32 →
  le_decode (nth 10 blocks []) = executionPayloadFixedPart →
  le_decode (nth 13 blocks []) = executionPayloadFixedPart + len extra →
  wf_payload (payload_of blocks extra txs) ∧ ssz_fixed (payload_of blocks extra txs) = concat blocks.
Proof.
  intros Hw He.
  destruct blocks as [|b0 [|b1 [|b2 [|b3 [|b4 [|b5 [|b6 [|b7 [|b8 [|b9 [|b10 [|b11 [|b12 [|b13
    [|]]]]]]]]]]]]]]]; try done. injection Hw as L0 L1 L2 L3 L4 L5 L6 L7 L8 L9 L10 L11 L12 L13.
  cbn [nth]. intros E10 E13. unfold payload_of. cbn [nth].
  rewrite unmarshalBytes32LE_le by done.
  assert (Hb : ∀ b n, length b = n → 0 <= le_decode b < 256 ^ Z.of_nat n)
    by (intros b n <-; apply le_decode_bound).
  pose proof (len_nonneg extra) as He0. split.
  - unfold wf_payload, is_u64. cbn. split_and!; try done; first
      [apply (Hb _ 8%nat); done | apply (Hb _ 32%nat); done].
  - unfold ssz_fixed, fixed_fields. cbn [fmap list_fmap snd ep_ParentHash ep_FeeRecipient
      ep_StateRoot ep_ReceiptsRoot ep_LogsBloom ep_PrevRandao ep_BlockNumber ep_GasLimit
      ep_GasUsed ep_Timestamp ep_BaseFeePerGas ep_BlockHash ep_ExtraData].
    rewrite marshalBytes32LE_le, !le_encode_decode_len by done.
    rewrite !u32_small by (unfold is_u32, executionPayloadFixedPart in *; rewrite ?u32_small;
      unfold is_u32; lia).
    by rewrite <- E13, <- E10, !le_encode_decode_len.
Qed.

(** Data that reaches the end of the fixed part is decoded by [unmarshal_dynamic]. *)
Lemma UnmarshalSSZ_cases pool scope r :
  is_u32 scope → executionPayloadFixedPart <= scope → scope <= len r →
  ∃ blocks rest stale, length <$> blocks = widths ∧
    take (Z.to_nat scope) r = concat blocks ++ rest ∧
    executionPayloadFixedPart + len rest = scope ∧
    UnmarshalSSZ pool scope r = unmarshal_dynamic blocks rest stale.
Proof.
  intros Hs Hmin Hlen. set (d := take (Z.to_nat scope) r).
  assert (Hd : len d = scope) by (unfold d, len, is_u32 in *; rewrite length_take; lia).
  destruct (split_blocks widths d) as (blocks & rest & Ed & Hw).
  { change (sum_list widths) with (Z.to_nat executionPayloadFixedPart). unfold len in Hd. lia. }
  assert (Hrest : executionPayloadFixedPart + len rest = scope).
  { rewrite <- Hd, Ed, len_app. unfold len at 2. rewrite length_concat_blocks, Hw. done. }
  destruct (UnmarshalSSZ_blocks pool blocks rest (drop (Z.to_nat scope) r) Hw) as [stale E].
  { rewrite Hrest. apply Hs. }
  exists blocks, rest, stale. split_and!; try done.
  rewrite <- E, Hrest, app_assoc, <- Ed. unfold d. by rewrite take_drop.
Qed.

Lemma UnmarshalSSZ_sound pool scope r p :
  is_u32 scope → UnmarshalSSZ pool scope r = Ok p →
  scope <= len r ∧ ssz_decodes (take (Z.to_nat scope) r) p.
Proof.
  intros Hs H. assert (executionPayloadFixedPart <= scope ∧ scope <= len r) as [Hmin Hlen].
  { unfold UnmarshalSSZ, io_ReadFull in H. do 2 (case_match; [done|]). bool_props. done. }
  split; [done|].
  destruct (UnmarshalSSZ_cases pool scope r) as (bs & rest & stale & Hw & Hd & Hr & E); [done..|].
  rewrite Hd. rewrite E in H. clear E Hd. unfold unmarshal_dynamic in H.
  destruct (Z.eqb_spec (le_decode (nth 10 bs [])) executionPayloadFixedPart) as [E10|]; [|done].
  cbn [negb] in H. set (off := le_decode (nth 13 bs [])) in *.
  destruct (Z.ltb_spec off executionPayloadFixedPart) as [|Hoff]; [done|].
  destruct (_ || _) eqn:Ebad; [done|]. bool_props.
  set (n := Z.to_nat (off - executionPayloadFixedPart)) in *.
  apply bind_Ok in H as (txs & Htx & [= <-]).
  destruct (unmarshalTransactions _ _) as [txs'| |] eqn:Eu; [injection Htx as ->|done..].
  apply unmarshalTransactions_iff in Eu.
  2:{ unfold len. rewrite length_drop. unfold len in Hr. destruct Hs. 
      unfold executionPayloadFixedPart in *. lia. }
  assert (Hx : len (take n rest) = off - executionPayloadFixedPart)
    by (unfold len, n in *; rewrite length_take; lia).
  destruct (fields_payload_of bs (take n rest) txs Hw) as [Hwf Hfix]; [lia|done|fold off; lia|].
  split; [done|]. split; [cbn; lia|]. exists (drop n rest). rewrite Hfix. cbn. by rewrite take_drop.
Qed.

Lemma UnmarshalSSZ_complete pool scope r p :
  is_u32 scope → scope <= len r → ssz_decodes (take (Z.to_nat scope) r) p →
  UnmarshalSSZ pool scope r = Ok p.
Proof.
  intros Hs Hlen (Hwf & He & T & Hd & HT).
  pose proof (len_ssz_fixed p Hwf) as Hfix. pose proof (len_nonneg (ep_ExtraData p)).
  assert (Hsc : executionPayloadFixedPart + len (ep_ExtraData p ++ T) = scope).
  { rewrite <- Hfix, <- len_app, <- Hd. unfold len in *. rewrite length_take. destruct Hs. lia. }
  destruct (UnmarshalSSZ_blocks pool (snd <$> fixed_fields p) (ep_ExtraData p ++ T)
    (drop (Z.to_nat scope) r) (fields_widths p Hwf)) as [stale E]; [rewrite Hsc; apply Hs|].
  fold (ssz_fixed p) in E. rewrite Hsc, app_assoc, <- Hd, take_drop in E. rewrite E.
  unfold unmarshal_dynamic. rewrite len_app in Hsc. pose proof (len_nonneg T). destruct Hs as [Hs0 Hs1].
  assert (HTl : len T < 2 ^ 32) by (unfold executionPayloadFixedPart in *; lia).
  change (nth 10 _ _) with (le_encode 4 executionPayloadFixedPart).
  change (nth 13 _ _) with (le_encode 4 (u32 (executionPayloadFixedPart + u32 (len (ep_ExtraData p))))).
  rewrite (u32_small (len _)), u32_small by (unfold is_u32, executionPayloadFixedPart in *; lia).
  rewrite !le_decode_encode_small by (change (256 ^ Z.of_nat 4) with (2 ^ 32); unfold executionPayloadFixedPart in *; lia).
  rewrite Z.eqb_refl. cbn [negb]. rewrite (proj2 (Z.ltb_ge _ _)) by lia.
  rewrite !(proj2 (Z.ltb_ge _ _)) by (rewrite ?len_app; lia). cbn [orb].
  replace (executionPayloadFixedPart + len (ep_ExtraData p) - executionPayloadFixedPart)
    with (len (ep_ExtraData p)) by lia.
  assert (Z.to_nat (len (ep_ExtraData p)) = length (ep_ExtraData p)) as -> by (unfold len; lia).
  rewrite drop_app_length, take_app_length.
  rewrite (proj2 (unmarshalTransactions_iff T stale (ep_Transactions p) HTl) HT).
  cbn [map_err mbind result_bind]. by rewrite payload_of_fields.
Qed.

Lemma UnmarshalSSZ_decodes pool scope r p :
  is_u32 scope →
  UnmarshalSSZ pool scope r = Ok p ↔ scope <= len r ∧ ssz_decodes (take (Z.to_nat scope) r) p.
Proof.
  intros Hs. split; [by apply UnmarshalSSZ_sound|]. intros [? ?]. by apply UnmarshalSSZ_complete.
Qed.

(** *** No input makes the decoder panic *)

Lemma unmarshalTransactions_loop_no_panic T stale n off cur msg :
  len T < 2 ^ 32 → (off + 4 * n ≤ length T)%nat → (cur ≤ length T)%nat →
  unmarshalTransactions_loop (T ++ stale) (len T) (S n) (Z.of_nat off) (Z.of_nat cur) ≠ Panic msg.
Proof.
  intros HT. revert off cur. induction n as [|n IH]; intros off cur Hoff Hcur.
  - cbn [unmarshalTransactions_loop mbind result_bind]. case_match; [done|].
    unfold len. by rewrite go_slice_app by lia.
  - rewrite unmarshalTransactions_loop_step. change 4 with (Z.of_nat 4).
    rewrite get_field_app by (done || lia). cbn [mbind result_bind].
    destruct (_ || _) eqn:Ebad; [done|]. bool_props. set (b := slice _ _ _) in *.
    rewrite <- (Z2Nat.id (le_decode b)) in * by lia.
    set (next := Z.to_nat (le_decode b)) in *. clearbody next.
    rewrite go_slice_app by (unfold len in *; lia). cbn [mbind result_bind].
    pose proof (IH (off + 4)%nat next ltac:(lia) ltac:(unfold len in *; lia)) as Hp.
    by destruct (unmarshalTransactions_loop _ _ _ _ _).
Qed.

Lemma unmarshalTransactions_no_panic T stale msg :
  len T < 2 ^ 32 → unmarshalTransactions (T ++ stale) (len T) ≠ Panic msg.
Proof.
  intros HT. unfold unmarshalTransactions.
  destruct (_ =? 0); [done|]. destruct (Z.ltb_spec (len T) 4) as [|H4]; [done|].
  change (get_field (T ++ stale) 0 4) with (get_field (T ++ stale) (Z.of_nat 0) (Z.of_nat 4)).
  rewrite get_field_app by (done || (unfold len in *; lia)). cbn [mbind result_bind].
  set (b := slice _ _ _). pose proof (le_decode_bound b) as Hb.
  destruct (Z.eqb_spec (le_decode b mod 4) 0) as [Hmod|]; cbn [negb]; [|done].
  destruct (Z.ltb_spec (len T) (le_decode b)); [done|]. case_match; [done|].
  assert (Hdiv : le_decode b = 4 * (le_decode b / 4)) by (apply Z.div_exact; lia).
  destruct (Z.to_nat (le_decode b / 4)) as [|m] eqn:Em; [done|].
  assert (E : le_decode b = Z.of_nat (4 * S m)) by lia. rewrite E.
  apply (unmarshalTransactions_loop_no_panic T stale m 4); unfold len in *; lia.
Qed.

Lemma UnmarshalSSZ_no_panic pool scope r msg : is_u32 scope → UnmarshalSSZ pool scope r ≠ Panic msg.
Proof.
  intros Hs. destruct (Z.ltb_spec scope executionPayloadFixedPart) as [Hlt|Hmin].
  { unfold UnmarshalSSZ. by rewrite (proj2 (Z.ltb_lt _ _)). }
  destruct (Z.ltb_spec (len r) scope) as [Hlt|Hlen].
  { unfold UnmarshalSSZ, io_ReadFull. rewrite (proj2 (Z.ltb_ge _ _)) by done.
    by rewrite (proj2 (Z.ltb_lt _ _)). }
  destruct (UnmarshalSSZ_cases pool scope r) as (bs & rest & stale & Hw & Hd & Hr & ->); [done..|].
  unfold unmarshal_dynamic. do 2 (case_match; [done|]). destruct (_ || _); [done|].
  pose proof (unmarshalTransactions_no_panic
    (drop (Z.to_nat (le_decode (nth 13 bs []) - executionPayloadFixedPart)) rest) stale msg) as Hp.
  destruct (unmarshalTransactions _ _); [done..|]. intros [= ->]. apply Hp; [|done].
  unfold len, is_u32, executionPayloadFixedPart in *. rewrite length_drop. lia.
Qed.

(** ** Theorems *)

(** [MarshalSSZ] writes exactly the SSZ layout of the payload, of the size
    [SizeSSZ] announces, whatever the buffer it took from the pool held before. *)
Theorem MarshalSSZ_spec pool p :
  wf_payload p → len (ssz_bytes p) < 2 ^ 32 →
  MarshalSSZ pool p = Ok (ssz_bytes p) ∧ SizeSSZ p = len (ssz_bytes p).
Proof. intros Hwf Hb. split; [by apply MarshalSSZ_layout|by apply SizeSSZ_ok]. Qed.

(** A payload of valid sizes survives the round trip through the SSZ codec,
    also with pooled buffers that hold stale data and with more data behind it. *)
Theorem SSZ_roundtrip pool pool' p b tail :
  wf_payload p → len (ep_ExtraData p) <= 32 →
  len (ep_Transactions p) <= maxTransactionsPerPayload → len (ssz_bytes p) < 2 ^ 32 →
  MarshalSSZ pool p = Ok b → UnmarshalSSZ pool' (SizeSSZ p) (b ++ tail) = Ok p.
Proof.
  intros Hwf He Ht Hb. rewrite MarshalSSZ_layout, SizeSSZ_ok by done. intros [= <-].
  pose proof (len_nonneg (ssz_bytes p)). pose proof (len_nonneg tail).
  apply UnmarshalSSZ_decodes; [by split|]. rewrite len_app. split; [lia|].
  unfold len at 1. rewrite Nat2Z.id, take_app_length. split; [done|]. split; [done|].
  eexists. split; [done|]. by left.
Qed.

(** C34. Decoding never panics, and it accepts exactly the data that has the layout of
    a payload with at most 32 bytes of extra data and 2^20 transactions, or that has no
    transactions but any data behind a first transaction offset of zero. *)
Theorem UnmarshalSSZ_iff pool scope r p :
  is_u32 scope →
  (UnmarshalSSZ pool scope r = Ok p ↔
     scope <= len r ∧ ssz_decodes (take (Z.to_nat scope) r) p) ∧
  (∀ msg, UnmarshalSSZ pool scope r ≠ Panic msg).
Proof.
  intros Hs. split; [by apply UnmarshalSSZ_decodes|]. intros msg. by apply UnmarshalSSZ_no_panic.
Qed.

(** The encoding is not canonical: a payload without transactions is also decoded
    from its encoding followed by a zero offset and arbitrary data. *)
Theorem SSZ_zero_offset pool p junk :
  wf_payload p → len (ep_ExtraData p) <= 32 → ep_Transactions p = [] →
  let data := ssz_bytes p ++ le_encode 4 0 ++ junk in
  is_u32 (len data) → UnmarshalSSZ pool (len data) data = Ok p.
Proof.
  intros Hwf He Ht data Hu. apply UnmarshalSSZ_decodes; [done|]. split; [done|].
  unfold len at 1. rewrite Nat2Z.id, firstn_all. split; [done|]. split; [done|].
  exists (le_encode 4 0 ++ junk). split.
  - unfold data, ssz_bytes. rewrite Ht. by rewrite <- !app_assoc.
  - rewrite Ht. right. split; [done|]. by exists junk.
Qed.

(** ** Witnesses *)

Definition example_ssz_payload : ExecutionPayload :=
  mkExecutionPayload (example_hash 1) (zeros 20) (example_hash 2) (example_hash 3)
    (zeros 256) (example_hash 4) 5 30000000 21000 1700000000 [x01; x02] 1000000007
    (example_hash 6) [[x7f; x01]; []; [x02; x03; x04]].

Lemma MarshalSSZ_spec_witness :
  MarshalSSZ (replicate 600 xff) example_ssz_payload = Ok (ssz_bytes example_ssz_payload) ∧
  SizeSSZ example_ssz_payload = len (ssz_bytes example_ssz_payload).
Proof. apply MarshalSSZ_spec; [by apply (bool_decide_unpack _)|vm_compute; reflexivity]. Defined.

Lemma SSZ_roundtrip_witness :
  UnmarshalSSZ (replicate 600 xff) (SizeSSZ example_ssz_payload)
    (ssz_bytes example_ssz_payload ++ [x00]) = Ok example_ssz_payload.
Proof.
  apply (SSZ_roundtrip []); [by apply (bool_decide_unpack _)|vm_compute; congruence
    |vm_compute; congruence|vm_compute; reflexivity|vm_compute; reflexivity].
Defined.

Lemma UnmarshalSSZ_iff_witness :
  (UnmarshalSSZ [] 529 (ssz_bytes example_ssz_payload) = Ok example_ssz_payload ↔
     529 <= len (ssz_bytes example_ssz_payload) ∧
     ssz_decodes (take (Z.to_nat 529) (ssz_bytes example_ssz_payload)) example_ssz_payload) ∧
  (∀ msg, UnmarshalSSZ [] 529 (ssz_bytes example_ssz_payload) ≠ Panic msg).
Proof. apply UnmarshalSSZ_iff. split; vm_compute; congruence. Defined.
