(* ===== verification/BlockHash.v ===== *)
(** * Blocks, payloads and the verification of RPC responses

    op-node/eth/types.go ([CheckBlockHash], [BlockAsPayload]),
    op-node/sources/types.go ([rpcHeader], [rpcBlock] and their checks) and the receipt
    checks of op-node/sources/receipts.go.  The hash of a header and the root of a list
    are go-ethereum's, parameters here; the theorems say which data a verified hash
    covers: an untrusted block that passes the checks is turned into a payload whose
    embedded hash is again the hash of its contents, and receipts that pass are the
    consecutive receipts of their block. *)

From S2P Require Import Prelude GoErrors EthTypes Extern.

(** ** go-ethereum data *)

(** [types.Header]; [Bloom] and [Nonce] are byte arrays. *)
Record Header := mkHeader {
  h_ParentHash : Hash; h_UncleHash : Hash; h_Coinbase : Address; h_Root : Hash;
  h_TxHash : Hash; h_ReceiptHash : Hash; h_Bloom : bytes; h_Difficulty : Z;
  h_Number : Z; h_GasLimit : Z; h_GasUsed : Z; h_Time : Z; h_Extra : bytes;
  h_MixDigest : Hash; h_Nonce : bytes; h_BaseFee : option Z }.

#[export] Instance Header_eq_dec : EqDecision Header.
Proof. solve_decision. Defined.

(** [Header.Hash], [types.DeriveSha] on raw items and on transactions (which are
    encoded by [MarshalBinary]), and the two constants of the empty lists. *)
Class HeaderHasher := {
  Header_Hash : Header → Hash;
  DeriveSha : list bytes → Hash;
  DeriveSha_Transactions : list Transaction → Hash;
  DeriveSha_Receipts : list Receipt → Hash;
  EmptyUncleHash : Hash;
  EmptyRootHash : Hash;
  DeriveSha_Transactions_raw : ∀ txs raw,
    tx_MarshalBinary <$> txs = Ok <$> raw → DeriveSha_Transactions txs = DeriveSha raw }.

Definition zero_nonce : bytes := zeros 8.

(** Go's conversion of a [uint64] to [int64]. *)
Definition int64 (z : Z) : Z := (z + 2 ^ 63) mod 2 ^ 64 - 2 ^ 63.

(** [types.Block], by the header and the transactions. *)
Record Block := mkBlock { bl_Header : Header; bl_Transactions : list Transaction }.

Section BlockHash.
Context `{HeaderHasher}.

(** ** op-node/eth/types.go *)

Definition payload_header (payload : ExecutionPayload) : Header :=
  mkHeader (ep_ParentHash payload) EmptyUncleHash (ep_FeeRecipient payload)
    (ep_StateRoot payload) (DeriveSha (ep_Transactions payload)) (ep_ReceiptsRoot payload)
    (ep_LogsBloom payload) 0 (int64 (ep_BlockNumber payload)) (ep_GasLimit payload)
    (ep_GasUsed payload) (ep_Timestamp payload) (ep_ExtraData payload)
    (ep_PrevRandao payload) zero_nonce (Some (ep_BaseFeePerGas payload)).

Definition CheckBlockHash (payload : ExecutionPayload) : Hash * bool :=
  let blockHash := Header_Hash (payload_header payload) in
  (blockHash, bool_decide (blockHash = ep_BlockHash payload)).

(** The loop that encodes the transactions of a block. *)
Fixpoint marshalTxs (msg : string) (txs : list Transaction) : result (list bytes) :=
  match txs with
  | [] => Ok []
  | tx :: txs =>
      otx ← map_err (Errorf msg) (tx_MarshalBinary tx);
      rest ← marshalTxs msg txs;
      Ok (otx :: rest)
  end.

(** [uint256.FromBig] overflows on more than 256 bits; the base fee of a block is not
    negative. *)
Definition BlockAsPayload (bl : Block) : result ExecutionPayload :=
  let h := bl_Header bl in
  match h_BaseFee h with
  | None => Panic "invalid memory address or nil pointer dereference"
  | Some fee =>
      if 2 ^ 256 <=? fee then Err (ErrorNew "invalid base fee in block")
      else
        opaqueTxs ← marshalTxs "tx failed to marshal" (bl_Transactions bl);
        Ok (mkExecutionPayload (h_ParentHash h) (h_Coinbase h) (h_Root h) (h_ReceiptHash h)
              (h_Bloom h) (h_MixDigest h) (u64 (h_Number h)) (h_GasLimit h) (h_GasUsed h)
              (h_Time h) (h_Extra h) fee (Header_Hash h) opaqueTxs)
  end.

(** ** op-node/sources/types.go *)

Record HeaderInfo := mkHeaderInfo {
  hi_hash : Hash; hi_parentHash : Hash; hi_coinbase : Address; hi_root : Hash;
  hi_number : Z; hi_time : Z; hi_mixDigest : Hash; hi_baseFee : option Z;
  hi_txHash : Hash; hi_receiptHash : Hash }.

(** [HeaderInfo] implements [eth.BlockInfo]. *)
Definition HeaderInfo_BlockInfo (info : HeaderInfo) : BlockInfo :=
  mkBlockInfo (hi_hash info) (hi_parentHash info) (hi_coinbase info) (hi_root info)
    (hi_number info) (hi_time info) (hi_mixDigest info) (hi_baseFee info)
    (hi_receiptHash info).
Definition HeaderInfo_ID (info : HeaderInfo) : BlockID :=
  mkBlockID (hi_hash info) (hi_number info).

(** [rpcHeader]: the fields of a header and the hash the RPC claims for it. *)
Record rpcHeader := mkRpcHeader { rh_fields : Header; rh_Hash : Hash }.
Record rpcBlock := mkRpcBlock { rb_header : rpcHeader; rb_Transactions : list Transaction }.

Definition checkPostMerge (hdr : rpcHeader) : option error :=
  let f := rh_fields hdr in
  if negb (h_Number f =? 0) && negb (h_Difficulty f =? 0) then
    Some (ErrorNew "post-merge block header requires zeroed difficulty field")
  else if negb (bool_decide (h_Nonce f = zero_nonce)) then
    Some (ErrorNew "post-merge block header requires zeroed block nonce field")
  else if bool_decide (h_BaseFee f = None) then
    Some (ErrorNew "post-merge block header requires EIP-1559 basefee field")
  else if 32 <? len (h_Extra f) then
    Some (ErrorNew "post-merge block header requires 32 or less bytes of extra data")
  else if negb (bool_decide (h_UncleHash f = EmptyUncleHash)) then
    Some (ErrorNew "post-merge block header requires uncle hash to be of empty uncle list")
  else None.

Definition computeBlockHash (hdr : rpcHeader) : Hash := Header_Hash (rh_fields hdr).

Definition rpcHeader_Info (hdr : rpcHeader) (trustCache mustBePostMerge : bool)
  : result HeaderInfo :=
  match (if mustBePostMerge then checkPostMerge hdr else None) with
  | Some e => Err e
  | None =>
      if negb trustCache && negb (bool_decide (computeBlockHash hdr = rh_Hash hdr)) then
        Err (ErrorNew "failed to verify block hash")
      else
        let f := rh_fields hdr in
        Ok (mkHeaderInfo (rh_Hash hdr) (h_ParentHash f) (h_Coinbase f) (h_Root f) (h_Number f)
              (h_Time f) (h_MixDigest f) (h_BaseFee f) (h_TxHash f) (h_ReceiptHash f))
  end.

Definition rpcBlock_verify (block : rpcBlock) : option error :=
  if negb (bool_decide (computeBlockHash (rb_header block) = rh_Hash (rb_header block))) then
    Some (ErrorNew "failed to verify block hash")
  else if negb (bool_decide (h_TxHash (rh_fields (rb_header block)) =
                             DeriveSha_Transactions (rb_Transactions block))) then
    Some (ErrorNew "failed to verify transactions list")
  else None.

Definition rpcBlock_Info (block : rpcBlock) (trustCache mustBePostMerge : bool)
  : result (HeaderInfo * list Transaction) :=
  match (if mustBePostMerge then checkPostMerge (rb_header block) else None) with
  | Some e => Err e
  | None =>
      match (if trustCache then None else rpcBlock_verify block) with
      | Some e => Err e
      | None =>
          info ← map_err (Errorf "failed to verify block from RPC")
                   (rpcHeader_Info (rb_header block) trustCache mustBePostMerge);
          Ok (info, rb_Transactions block)
      end
  end.

(** [uint256.Int.SetFromBig] keeps the low 256 bits. *)
Definition rpcBlock_ExecutionPayload (block : rpcBlock) (trustCache : bool)
  : result ExecutionPayload :=
  match checkPostMerge (rb_header block) with
  | Some e => Err e
  | None =>
      match (if trustCache then None else rpcBlock_verify block) with
      | Some e => Err e
      | None =>
          let f := rh_fields (rb_header block) in
          let baseFee := default 0 (h_BaseFee f) mod 2 ^ 256 in
          opaqueTxs ← marshalTxs "failed to encode tx from RPC" (rb_Transactions block);
          Ok (mkExecutionPayload (h_ParentHash f) (h_Coinbase f) (h_Root f) (h_ReceiptHash f)
                (h_Bloom f) (h_MixDigest f) (h_Number f) (h_GasLimit f) (h_GasUsed f)
                (h_Time f) (h_Extra f) baseFee (rh_Hash (rb_header block)) opaqueTxs)
      end
  end.

(** ** op-node/sources/receipts.go *)

(** [types.Receipt] with the fields the RPC fills in; the zero value has no block
    number. *)
Record RpcReceipt := mkRpcReceipt {
  rr_Receipt : Receipt; rr_TransactionIndex : Z; rr_BlockNumber : option Z;
  rr_BlockHash : Hash }.

(** The checks on the logs of receipt [i], from log index [logIndex] on. *)
Fixpoint checkLogs (block : BlockID) (txHash : Hash) (i logIndex : Z) (logs : list Log)
  : result Z :=
  match logs with
  | [] => Ok logIndex
  | log :: logs =>
      if negb (log_Index log =? logIndex) then Err (ErrorNew "unexpected log index")
      else if negb (log_TxIndex log =? i) then Err (ErrorNew "unexpected tx index")
      else if negb (bool_decide (log_BlockHash log = id_Hash block)) then
        Err (ErrorNew "unexpected block hash")
      else if negb (log_BlockNumber log =? id_Number block) then
        Err (ErrorNew "unexpected block number")
      else if negb (bool_decide (log_TxHash log = txHash)) then
        Err (ErrorNew "unexpected tx hash")
      else if log_Removed log then
        Err (ErrorNew "canonical log must never be removed due to reorg")
      else checkLogs block txHash i (u64 (logIndex + 1)) logs
  end.

(** The loop over the receipts, from index [i] on; a missing receipt is [None]. *)
Fixpoint checkReceipts (block : BlockID) (i logIndex : Z) (txHashes : list Hash)
  (receipts : list (option RpcReceipt)) {struct receipts} : result unit :=
  match receipts with
  | [] => Ok ()
  | None :: _ => Err (ErrorNew "receipt of tx returns nil on retrieval")
  | Some r :: receipts =>
      if negb (rr_TransactionIndex r =? i) then Err (ErrorNew "unexpected tx index")
      else
        match rr_BlockNumber r with
        | None => Panic "invalid memory address or nil pointer dereference"
        | Some n =>
            if negb (u64 n =? id_Number block) then Err (ErrorNew "unexpected block number")
            else if negb (bool_decide (rr_BlockHash r = id_Hash block)) then
              Err (ErrorNew "unexpected block hash")
            else
              match txHashes with
              | [] => Panic "index out of range"
              | txHash :: txHashes =>
                  logIndex ← checkLogs block txHash i logIndex (rec_Logs (rr_Receipt r));
                  checkReceipts block (i + 1) logIndex txHashes receipts
              end
        end
  end.

Definition makeReceiptsFn (block : BlockID) (receiptHash : Hash) (txHashes : list Hash)
  (receipts : list (option RpcReceipt)) : result (list RpcReceipt) :=
  if negb (len receipts =? len txHashes) then
    Err (ErrorNew "unexpected number of receipts")
  else if (len txHashes =? 0) && negb (bool_decide (receiptHash = EmptyRootHash)) then
    Err (ErrorNew "no transactions, but got non-empty receipt trie root")
  else
    _ ← checkReceipts block 0 0 txHashes receipts;
    let rs := omap id receipts in
    if negb (bool_decide (receiptHash = DeriveSha_Receipts (rr_Receipt <$> rs))) then
      Err (ErrorNew "failed to fetch list of receipts")
    else Ok rs.

(** ** Lemmas *)

Lemma marshalTxs_Ok msg txs raw :
  marshalTxs msg txs = Ok raw ↔ tx_MarshalBinary <$> txs = Ok <$> raw.
Proof.
  revert raw. induction txs as [|tx txs IH]; intros raw; cbn [marshalTxs].
  - split; [by intros [= <-]|]. by destruct raw.
  - split.
    + intros Hm. apply bind_Ok in Hm as (otx & Htx & Hm). apply bind_Ok in Hm as (rest & Hr & [= <-]).
      destruct (tx_MarshalBinary tx) eqn:Et; [|done..]. injection Htx as ->.
      apply IH in Hr. cbn. by rewrite Et, Hr.
    + destruct raw as [|b raw]; [done|]. cbn. intros [= -> Hr].
      cbn [map_err mbind result_bind]. rewrite (proj2 (IH raw) Hr). done.
Qed.

Lemma int64_small z : 0 <= z < 2 ^ 63 → int64 z = z.
Proof. intros. unfold int64. rewrite Z.mod_small; lia. Qed.

Lemma checkPostMerge_None hdr :
  checkPostMerge hdr = None →
  let f := rh_fields hdr in
  (h_Number f = 0 ∨ h_Difficulty f = 0) ∧ h_Nonce f = zero_nonce ∧
  (∃ fee, h_BaseFee f = Some fee) ∧ len (h_Extra f) <= 32 ∧ h_UncleHash f = EmptyUncleHash.
Proof.
  unfold checkPostMerge. intros Hc.
  destruct (negb (h_Number _ =? 0) && _) eqn:E1; [done|].
  destruct (negb (bool_decide (h_Nonce _ = _))) eqn:E2; [done|].
  destruct (bool_decide (h_BaseFee _ = _)) eqn:E3; [done|].
  destruct (32 <? _) eqn:E4; [done|].
  destruct (negb (bool_decide (h_UncleHash _ = _))) eqn:E5; [done|]. bool_props.
  apply andb_false_iff in E1. split_and!; try done.
  - destruct E1; bool_props; auto.
  - destruct (h_BaseFee (rh_fields hdr)); [by eexists|done].
Qed.

Lemma rpcBlock_verify_None block :
  rpcBlock_verify block = None ↔
  computeBlockHash (rb_header block) = rh_Hash (rb_header block) ∧
  h_TxHash (rh_fields (rb_header block)) = DeriveSha_Transactions (rb_Transactions block).
Proof.
  unfold rpcBlock_verify. split.
  - intros Hv. do 2 (destruct (negb _) eqn:? in Hv; [done|]). bool_props. done.
  - intros [? ?]. rewrite !bool_decide_eq_true_2 by done. done.
Qed.

(** The consistency of log [k] of the block, emitted by transaction [i]. *)
Definition log_ok (block : BlockID) (txHash : Hash) (i k : Z) (log : Log) : Prop :=
  log_Index log = k ∧ log_TxIndex log = i ∧ log_BlockHash log = id_Hash block ∧
  log_BlockNumber log = id_Number block ∧ log_TxHash log = txHash ∧ log_Removed log = false.

Definition receipt_ok (block : BlockID) (i : Z) (r : RpcReceipt) : Prop :=
  rr_TransactionIndex r = i ∧ (∃ n, rr_BlockNumber r = Some n ∧ u64 n = id_Number block) ∧
  rr_BlockHash r = id_Hash block.

Lemma checkLogs_cons block txHash i k log logs n :
  checkLogs block txHash i k (log :: logs) = Ok n ↔
  log_ok block txHash i k log ∧ checkLogs block txHash i (u64 (k + 1)) logs = Ok n.
Proof.
  cbn [checkLogs]. split.
  - intros Hc.
    destruct (negb (log_Index log =? k)) eqn:E1; [done|].
    destruct (negb (log_TxIndex log =? i)) eqn:E2; [done|].
    destruct (negb (bool_decide (log_BlockHash log = _))) eqn:E3; [done|].
    destruct (negb (log_BlockNumber log =? _)) eqn:E4; [done|].
    destruct (negb (bool_decide (log_TxHash log = _))) eqn:E5; [done|].
    destruct (log_Removed log) eqn:E6; [done|]. bool_props. by split.
  - intros [(-> & -> & -> & -> & -> & ->) Hc].
    by rewrite !Z.eqb_refl, !bool_decide_eq_true_2 by done.
Qed.

(** All logs of a list, numbered from [k] on. *)
Fixpoint logs_ok (block : BlockID) (txHash : Hash) (i k : Z) (logs : list Log) : Prop :=
  match logs with
  | [] => True
  | log :: logs => log_ok block txHash i k log ∧ logs_ok block txHash i (k + 1) logs
  end.

Lemma checkLogs_Ok block txHash i k logs n :
  0 <= k → k + len logs < 2 ^ 64 →
  checkLogs block txHash i k logs = Ok n ↔ n = k + len logs ∧ logs_ok block txHash i k logs.
Proof.
  revert k. induction logs as [|log logs IH]; intros k H0 Hu.
  - cbn. rewrite len_nil, Z.add_0_r. split; [by intros [= <-]|]. by intros [-> _].
  - rewrite checkLogs_cons. rewrite len_cons in *. pose proof (len_nonneg logs).
    rewrite u64_small by (unfold is_u64; lia). rewrite IH by lia. cbn [logs_ok].
    replace (k + 1 + len logs) with (k + (1 + len logs)) by lia. naive_solver.
Qed.

(** The receipts of a block, from receipt [i] and log [k] on. *)
Fixpoint receipts_ok (block : BlockID) (i k : Z) (txHashes : list Hash) (rs : list RpcReceipt)
  {struct rs} : Prop :=
  match rs, txHashes with
  | [], _ => True
  | r :: rs, txHash :: txHashes =>
      receipt_ok block i r ∧ logs_ok block txHash i k (rec_Logs (rr_Receipt r)) ∧
      receipts_ok block (i + 1) (k + len (rec_Logs (rr_Receipt r))) txHashes rs
  | _, _ => False
  end.

Definition num_logs (rs : list RpcReceipt) : Z :=
  foldr (λ r n, len (rec_Logs (rr_Receipt r)) + n) 0 rs.

Lemma num_logs_cons r rs : num_logs (r :: rs) = len (rec_Logs (rr_Receipt r)) + num_logs rs.
Proof. done. Qed.

Lemma num_logs_nonneg rs : 0 <= num_logs rs.
Proof.
  induction rs as [|r rs IH]; [done|]. rewrite num_logs_cons.
  pose proof (len_nonneg (rec_Logs (rr_Receipt r))). lia.
Qed.

Lemma checkReceipts_present block i k txHashes receipts :
  checkReceipts block i k txHashes receipts = Ok () → ∃ rs, receipts = Some <$> rs.
Proof.
  revert i k txHashes. induction receipts as [|[r|] receipts IH]; intros i k txHashes Hc;
    cbn [checkReceipts] in Hc; [by exists []| |done].
  repeat (case_match; try done). apply bind_Ok in Hc as (k' & _ & [rs ->]%IH).
  by exists (r :: rs).
Qed.

Lemma checkReceipts_Ok block i k txHashes rs :
  length txHashes = length rs → 0 <= k → k + num_logs rs < 2 ^ 64 →
  checkReceipts block i k txHashes (Some <$> rs) = Ok () ↔ receipts_ok block i k txHashes rs.
Proof.
  revert i k txHashes. induction rs as [|r rs IH]; intros i k txHashes Hl H0 Hn; [done|].
  destruct txHashes as [|txHash txHashes]; [done|]. injection Hl as Hl. rewrite num_logs_cons in Hn.
  pose proof (num_logs_nonneg rs). pose proof (len_nonneg (rec_Logs (rr_Receipt r))).
  cbn [checkReceipts fmap list_fmap receipts_ok]. split.
  - intros Hc. destruct (negb (rr_TransactionIndex r =? i)) eqn:E1; [done|].
    destruct (rr_BlockNumber r) as [n|] eqn:En; [|done].
    destruct (negb (u64 n =? id_Number block)) eqn:E2; [done|].
    destruct (negb (bool_decide (rr_BlockHash r = _))) eqn:E3; [done|]. bool_props.
    apply bind_Ok in Hc as (k' & Hlogs & Hc).
    apply checkLogs_Ok in Hlogs as [-> Hlogs]; [|lia..]. apply IH in Hc; [|done|lia..].
    split; [|done]. split; [done|]. split; [|done]. by exists n.
  - intros ((-> & (n & -> & ->) & ->) & Hlogs & Hrest).
    rewrite !Z.eqb_refl, bool_decide_eq_true_2 by done. cbn [negb].
    assert (Hk : k + len (rec_Logs (rr_Receipt r)) < 2 ^ 64) by lia.
    rewrite (proj2 (checkLogs_Ok _ _ _ _ _ _ H0 Hk) (conj eq_refl Hlogs)).
    cbn [mbind result_bind]. apply IH; [done|lia|lia|done].
Qed.

Lemma omap_Some {A} (l : list A) : omap id (Some <$> l) = l.
Proof. induction l as [|x l IH]; [done|]. cbn. by rewrite <- IH at 2. Qed.

(** The payload of a post-merge header has that header again. *)
Definition header_payload (f : Header) (fee : Z) (hash : Hash) (raw : list bytes) : ExecutionPayload :=
  mkExecutionPayload (h_ParentHash f) (h_Coinbase f) (h_Root f) (h_ReceiptHash f) (h_Bloom f)
    (h_MixDigest f) (h_Number f) (h_GasLimit f) (h_GasUsed f) (h_Time f) (h_Extra f) fee hash raw.

Lemma header_payload_hash f fee raw :
  0 <= h_Number f < 2 ^ 63 → h_Difficulty f = 0 → h_Nonce f = zero_nonce →
  h_BaseFee f = Some fee → h_UncleHash f = EmptyUncleHash → h_TxHash f = DeriveSha raw →
  let p := header_payload f fee (Header_Hash f) raw in
  payload_header p = f ∧ CheckBlockHash p = (Header_Hash f, true).
Proof.
  intros Hnum Hd Hnonce Hf Huncle Htx p. assert (E : payload_header p = f).
  { unfold payload_header, p. cbn -[zero_nonce].
    rewrite int64_small, <- Htx, <- Hnonce, <- Huncle, <- Hf, <- Hd by done. by destruct f. }
  split; [done|]. unfold CheckBlockHash. rewrite E. by rewrite bool_decide_eq_true_2.
Qed.

(** ** Theorems *)

(** A block from an untrusted RPC that passes the checks is turned into a payload
    whose embedded block hash is the hash of the payload's own contents, so that it
    passes [CheckBlockHash]: no field of the payload is left outside the hash. *)
Theorem ExecutionPayload_verified block p :
  rpcBlock_ExecutionPayload block false = Ok p →
  let f := rh_fields (rb_header block) in
  0 <= h_Number f < 2 ^ 63 → (∀ fee, h_BaseFee f = Some fee → 0 <= fee < 2 ^ 256) →
  (h_Number f = 0 → h_Difficulty f = 0) →
  payload_header p = f ∧ CheckBlockHash p = (rh_Hash (rb_header block), true).
Proof.
  intros HE f Hnum Hfee Hdiff. unfold rpcBlock_ExecutionPayload in HE.
  destruct (checkPostMerge _) eqn:Ec; [done|]. destruct (rpcBlock_verify _) eqn:Ev; [done|].
  apply bind_Ok in HE as (raw & Hraw & [= <-]). fold f.
  apply checkPostMerge_None in Ec as (Hd & Hnonce & (fee & Hf) & _ & Huncle).
  apply rpcBlock_verify_None in Ev as [<- Htx].
  apply marshalTxs_Ok in Hraw. rewrite (DeriveSha_Transactions_raw _ _ Hraw) in Htx.
  unfold f in *. rewrite Hf. cbn [default]. rewrite Z.mod_small by (by apply Hfee).
  apply header_payload_hash; try done. destruct Hd; auto.
Qed.

(** A block of the local chain with a post-merge header is turned into a payload that
    carries the hash of its contents. *)
Theorem BlockAsPayload_verified bl p :
  BlockAsPayload bl = Ok p →
  let f := bl_Header bl in
  0 <= h_Number f < 2 ^ 63 → h_Difficulty f = 0 → h_Nonce f = zero_nonce →
  h_UncleHash f = EmptyUncleHash → h_TxHash f = DeriveSha_Transactions (bl_Transactions bl) →
  payload_header p = f ∧ CheckBlockHash p = (Header_Hash f, true).
Proof.
  intros HB f Hnum Hd Hnonce Huncle Htx. unfold BlockAsPayload in HB. fold f in HB.
  destruct (h_BaseFee f) as [fee|] eqn:Hf; [|done]. case_match; [done|].
  apply bind_Ok in HB as (raw & Hraw & [= <-]). apply marshalTxs_Ok in Hraw.
  rewrite (DeriveSha_Transactions_raw _ _ Hraw) in Htx.
  rewrite u64_small by (unfold is_u64; lia). by apply header_payload_hash.
Qed.

(** Receipts that pass [makeReceiptsFn] are the receipts of the block: one per
    transaction and in order, with the block's number and hash, logs numbered
    consecutively over the whole block, and the receipt root of the header. *)
Theorem makeReceipts_sound block receiptHash txHashes receipts rs :
  num_logs (omap id receipts) < 2 ^ 64 →
  makeReceiptsFn block receiptHash txHashes receipts = Ok rs →
  receipts = Some <$> rs ∧ length rs = length txHashes ∧
  receipts_ok block 0 0 txHashes rs ∧ receiptHash = DeriveSha_Receipts (rr_Receipt <$> rs).
Proof.
  intros Hn HM. unfold makeReceiptsFn in HM.
  destruct (Z.eqb_spec (len receipts) (len txHashes)) as [Hl|]; [|done]. cbn [negb] in HM.
  destruct (_ && _) eqn:E; [done|]. apply bind_Ok in HM as ([] & Hc & HM).
  destruct (checkReceipts_present _ _ _ _ _ Hc) as [rs' ->]. rewrite omap_Some in *.
  destruct (negb _) eqn:Eh in HM; [done|]. injection HM as ->. bool_props.
  unfold len in Hl. rewrite length_fmap in Hl.
  apply checkReceipts_Ok in Hc; [|lia..]. split_and!; try done. lia.
Qed.

(** A receipt the RPC reports as [null] is decoded into a pointer variable of its own,
    which leaves the receipt allocated with the request in its zero state; for the first
    transaction of a block the checks then read its missing block number. *)
Theorem missing_first_receipt_panics block receiptHash txHash txHashes r rs :
  rr_TransactionIndex r = 0 → rr_BlockNumber r = None → length rs = length txHashes →
  ∃ msg, makeReceiptsFn block receiptHash (txHash :: txHashes) (Some r :: rs) = Panic msg.
Proof.
  intros Hi Hn Hl. unfold makeReceiptsFn. rewrite !len_cons.
  assert (len rs = len txHashes) as -> by (unfold len; lia).
  rewrite Z.eqb_refl. cbn [negb]. pose proof (len_nonneg txHashes).
  rewrite (proj2 (Z.eqb_neq _ _)) by lia. cbn [andb checkReceipts].
  rewrite Hi, Hn. cbn. by eexists.
Qed.
End BlockHash.

(** ** Witnesses *)

Definition marshalled (txs : list Transaction) : list bytes :=
  omap (λ tx, match tx_MarshalBinary tx with Ok b => Some b | _ => None end) txs.

Lemma marshalled_raw txs raw : tx_MarshalBinary <$> txs = Ok <$> raw → marshalled txs = raw.
Proof.
  revert raw. induction txs as [|tx txs IH]; intros raw Hr; destruct raw as [|b raw]; try done.
  injection Hr as Hb Hr. unfold marshalled in *. cbn. rewrite Hb. cbn. by rewrite (IH raw Hr).
Qed.

#[local] Program Instance example_hasher : HeaderHasher := {
  Header_Hash h := example_hash (h_Number h * 1000 + h_Time h);
  DeriveSha raw := example_hash (len (concat raw));
  DeriveSha_Transactions txs := example_hash (len (concat (marshalled txs)));
  DeriveSha_Receipts rs := example_hash (len rs);
  EmptyUncleHash := example_hash 7;
  EmptyRootHash := example_hash 8 }.
Next Obligation. intros txs raw Hr. cbn. by rewrite (marshalled_raw txs raw Hr). Qed.

Definition example_header : Header :=
  mkHeader (example_hash 1) (example_hash 7) (zeros 20) (example_hash 2) (example_hash 3)
    (example_hash 4) (zeros 256) 0 12 30000000 21000 24 [x01] (example_hash 5) zero_nonce
    (Some 1000000007).
Definition example_rpc_block : rpcBlock :=
  mkRpcBlock (mkRpcHeader example_header (example_hash 12024)) [example_tx [x01; x02]].

Lemma ExecutionPayload_verified_witness :
  let p := header_payload example_header 1000000007 (example_hash 12024) [[x7e; x01; x02]] in
  payload_header p = example_header ∧ CheckBlockHash p = (example_hash 12024, true).
Proof.
  apply (ExecutionPayload_verified example_rpc_block).
  - vm_compute. reflexivity.
  - by vm_compute.
  - intros fee [= <-]. by vm_compute.
  - done.
Defined.

Definition example_rpc_receipt : RpcReceipt :=
  mkRpcReceipt (mkReceipt 1 [mkLog (zeros 20) [] [] 12 (example_hash 9) 0 (example_hash 12024) 0 false])
    0 (Some 12) (example_hash 12024).

Lemma makeReceipts_sound_witness :
  [Some example_rpc_receipt] = Some <$> [example_rpc_receipt] ∧ 1%nat = 1%nat ∧
  receipts_ok (mkBlockID (example_hash 12024) 12) 0 0 [example_hash 9] [example_rpc_receipt] ∧
  example_hash 1 = DeriveSha_Receipts (rr_Receipt <$> [example_rpc_receipt]).
Proof.
  apply (makeReceipts_sound (mkBlockID (example_hash 12024) 12) (example_hash 1) [example_hash 9]
    [Some example_rpc_receipt] [example_rpc_receipt]); by vm_compute.
Defined.
