(* ===== verification/LRU.v ===== *)
(** * The LRU cache of hashicorp/golang-lru

    A library outside the repository, used by the gossip validator and the RPC clients
    (op-node/sources/caching wraps it with metrics).  The class states what the code
    relies on: [New] refuses a size that is not positive, [Get] returns what was last
    added under the key unless it has been evicted, and [Add] may evict other entries
    but not the one it adds. *)

From S2P Require Import Prelude GoErrors.

Class LRU (K V : Type) `{Countable K} := {
  lru : Type;
  lru_New : Z → result lru;
  lru_Get : lru → K → lru * option V;
  lru_Add : lru → K → V → lru;
  lru_contents : lru → gmap K V;
  lru_New_empty n c : lru_New n = Ok c → lru_contents c = ∅;
  lru_New_pos n : 0 < n → ∃ c, lru_New n = Ok c;
  lru_Get_value c k : snd (lru_Get c k) = lru_contents c !! k;
  lru_Get_contents c k : lru_contents (fst (lru_Get c k)) = lru_contents c;
  lru_Add_evicts c k v : lru_contents (lru_Add c k v) ⊆ <[k := v]> (lru_contents c);
  lru_Add_value c k v : lru_contents (lru_Add c k v) !! k = Some v }.

Arguments lru K V {_ _ _}.

(** ** An instance: the most recently used entries first *)

Section Instance.
Context {K V : Type} `{Countable K}.

Record recent := mkRecent { rc_room : nat; rc_entries : list (K * V) }.

Definition recent_Get (c : recent) (k : K) : recent * option V :=
  let v := (list_to_map (rc_entries c) : gmap K V) !! k in
  (match v with
   | Some x => mkRecent (rc_room c) ((k, x) :: filter (λ e, e.1 ≠ k) (rc_entries c))
   | None => c
   end, v).

Definition recent_Add (c : recent) (k : K) (v : V) : recent :=
  mkRecent (rc_room c) ((k, v) :: take (rc_room c) (filter (λ e, e.1 ≠ k) (rc_entries c))).

Lemma lookup_filter_ne (k k' : K) (l : list (K * V)) :
  k ≠ k' →
  (list_to_map (filter (λ e, e.1 ≠ k) l) : gmap K V) !! k' = (list_to_map l : gmap K V) !! k'.
Proof.
  intros Hk. induction l as [|[k0 v0] l IH]; [done|]. rewrite filter_cons. cbn [fst].
  destruct (decide (k0 ≠ k)) as [Hne|Heq]; cbn.
  - destruct (decide (k0 = k')) as [->|]; [by rewrite !lookup_insert_eq|].
    by rewrite !lookup_insert_ne.
  - destruct (decide (k0 = k)) as [->|]; [|done]. by rewrite lookup_insert_ne.
Qed.

Lemma list_to_map_take (l : list (K * V)) n :
  (list_to_map (take n l) : gmap K V) ⊆ list_to_map l.
Proof.
  revert n. induction l as [|[k v] l IH]; intros n; [by rewrite take_nil|].
  destruct n; [apply map_empty_subseteq|]. cbn. by apply insert_mono.
Qed.

#[export, refine] Instance recent_LRU : LRU K V := {
  lru := recent;
  lru_New n := if 0 <? n then Ok (mkRecent (Z.to_nat (n - 1)) [])
               else Err (ErrorNew "must provide a positive size");
  lru_Get := recent_Get; lru_Add := recent_Add;
  lru_contents c := list_to_map (rc_entries c) }.
Proof.
  - intros n c. case_match; [|done]. by intros [= <-].
  - intros n Hn. rewrite (proj2 (Z.ltb_lt _ _)) by done. by eexists.
  - done.
  - intros c k. unfold recent_Get. cbn. destruct (_ !! k) as [x|] eqn:E; [|done]. cbn.
    apply map_eq. intros k'. destruct (decide (k = k')) as [<-|Hk].
    + by rewrite lookup_insert_eq.
    + rewrite lookup_insert_ne by done. by apply lookup_filter_ne.
  - intros c k v. cbn. etrans; [apply insert_mono, list_to_map_take|].
    apply map_subseteq_spec. intros k' x. destruct (decide (k = k')) as [<-|Hk].
    + by rewrite !lookup_insert_eq.
    + rewrite !lookup_insert_ne by done. by rewrite lookup_filter_ne.
  - intros c k v. cbn. by rewrite lookup_insert_eq.
Defined.
End Instance.
