(* ===== verification/Gossip.v ===== *)
(** * Gossip of unsafe blocks

    op-node/p2p/signer.go and op-node/p2p/gossip.go: the signing hash, the message id,
    the validator of the blocks topic with its memory of seen blocks, publishing and
    the subscriber's handler.  Snappy, SHA-256, the signature scheme and the LRU cache
    are libraries.  The objects that remember the block hashes of a height are shared
    through pointers held in the cache, so the state has a store of such objects.
    Validations run one after the other here; the pubsub library may run several at
    once. *)

From S2P Require Import Prelude GoErrors EthTypes Extern SSZ BlockHash LRU.

(** ** Libraries *)

(** golang/snappy: the announced length is the length of what is decoded. *)
Class Snappy := {
  snappy_DecodedLen : bytes → result Z;
  snappy_Decode : bytes → result bytes;
  snappy_Encode : bytes → bytes;
  snappy_Encode_Decode b : snappy_Decode (snappy_Encode b) = Ok b;
  snappy_Decode_len m b : snappy_Decode m = Ok b → snappy_DecodedLen m = Ok (len b);
  snappy_no_panic m s : snappy_DecodedLen m ≠ Panic s ∧ snappy_Decode m ≠ Panic s }.

(** go-ethereum's crypto package: [Sign] on a digest, and [SigToPub] followed by
    [PubkeyToAddress].  A signature has 65 bytes and recovers its signer. *)
Class Signatures := {
  PrivateKey : Type;
  key_Address : PrivateKey → Address;
  crypto_Sign : Hash → PrivateKey → result bytes;
  SigToAddress : Hash → bytes → result Address;
  crypto_Sign_length h k sig : crypto_Sign h k = Ok sig → length sig = 65%nat;
  SigToAddress_Sign h k sig : crypto_Sign h k = Ok sig → SigToAddress h sig = Ok (key_Address k);
  SigToAddress_no_panic h sig s : SigToAddress h sig ≠ Panic s }.

Section Gossip.
Context `{Keccak} `{HeaderHasher} `{Snappy} `{Signatures} `{!LRU Z nat}.

(** ** Signing (signer.go) *)

Definition SigningDomainBlocksV1 : bytes := zeros 32.

(** [big.Int.FillBytes] of 32 bytes: the absolute value, if it fits. *)
Definition FillBytes32 (x : option Z) : result bytes :=
  match x with
  | None => Panic "invalid memory address or nil pointer dereference"
  | Some x => if 2 ^ 256 <=? Z.abs x then Panic "math/big: buffer too small to fit value"
              else Ok (be_encode 32 (Z.abs x))
  end.

Definition SigningHash (domain : bytes) (chainID : option Z) (payloadBytes : bytes)
  : result Hash :=
  let msgInput := zeros (32 + 32 + 32) in
  (* domain: first 32 bytes *)
  msgInput ← go_copy msgInput 0 32 domain;
  (* chain_id: second 32 bytes *)
  c ← FillBytes32 chainID;
  msgInput ← go_copy msgInput 32 64 c;
  (* payload_hash: third 32 bytes, hash of encoded payload *)
  msgInput ← go_copy msgInput 32 96 (Keccak256 payloadBytes);
  Ok (Keccak256 msgInput).

Definition BlockSigningHash (cfg : Config) (payloadBytes : bytes) : result Hash :=
  SigningHash SigningDomainBlocksV1 (cfg_L2ChainID cfg) payloadBytes.

(** [LocalSigner]: the key is dropped by [Close]. *)
Definition LocalSigner : Type := option PrivateKey.
Definition LocalSigner_Sign (s : LocalSigner) (domain : bytes) (chainID : option Z)
  (encodedMsg : bytes) : result bytes :=
  match s with
  | None => Err (ErrorNew "signer is closed")
  | Some priv => signingHash ← SigningHash domain chainID encodedMsg; crypto_Sign signingHash priv
  end.
Definition LocalSigner_Close (s : LocalSigner) : LocalSigner := None.

(** ** Message ids *)

Definition maxGossipSize : Z := Z.shiftl 1 20.
Definition minGossipSize : Z := 66.
Definition MessageDomainInvalidSnappy : bytes := [x00; x00; x00; x00].
Definition MessageDomainValidSnappy : bytes := [x01; x00; x00; x00].

(** The decompressed data of a message, when it is valid and not too large. *)
Definition msg_content (data : bytes) : option bytes :=
  match snappy_DecodedLen data with
  | Ok dLen =>
      if dLen <=? maxGossipSize then
        match snappy_Decode data with Ok d => Some d | _ => None end
      else None
  | _ => None
  end.

(** What is hashed into the id of a message. *)
Definition msg_id_input (topic data : bytes) : bytes :=
  let '(domain, data) :=
    match msg_content data with
    | Some d => (MessageDomainValidSnappy, d)
    | None => (MessageDomainInvalidSnappy, data)
    end in
  domain ++ le_encode 8 (len topic) ++ topic ++ data.

Definition BuildMsgIdFn (sha256 : bytes → bytes) (topic data : bytes) : bytes :=
  take 20 (sha256 (msg_id_input topic data)).

(** ** Validation *)

Inductive ValidationResult := ValidationAccept | ValidationIgnore | ValidationReject.
#[export] Instance ValidationResult_eq_dec : EqDecision ValidationResult.
Proof. solve_decision. Defined.

Definition hasSeen (sb : list Hash) (h : Hash) : Z * bool := (len sb, bool_decide (h ∈ sb)).
Definition markSeen (sb : list Hash) (h : Hash) : list Hash := sb ++ [h].

(** The validator's closure: the cache from heights to pointers, and the objects. *)
Record Validator := mkValidator { v_blockHeightLRU : lru Z nat; v_objects : list (list Hash) }.

Definition BuildBlocksValidator : result Validator :=
  match lru_New 100 with
  | Ok c => Ok (mkValidator c [])
  | _ => Panic "failed to set up block height LRU cache"
  end.

(** The stateless checks, up to the block hash: [None] is a rejected message. *)
Definition decodeMessage (cfg : Config) (now : Z) (pool data : bytes)
  : result (option ExecutionPayload) :=
  match snappy_DecodedLen data with
  | Ok outLen =>
      if (maxGossipSize <? outLen) || (outLen <? minGossipSize) then Ok None
      else
        match snappy_Decode data with
        | Ok data =>
            signatureBytes ← go_slice data 0 65;
            payloadBytes ← go_slice data 65 (len data);
            signingHash ← BlockSigningHash cfg payloadBytes;
            match SigToAddress signingHash signatureBytes with
            | Ok addr =>
                if negb (bool_decide (addr = cfg_P2PSequencerAddress cfg)) then Ok None
                else
                  match UnmarshalSSZ pool (u32 (len payloadBytes)) payloadBytes with
                  | Ok payload =>
                      if ep_Timestamp payload <? now ⊟ 60 then Ok None
                      else if now ⊞ 5 <? ep_Timestamp payload then Ok None
                      else if negb (snd (CheckBlockHash payload)) then Ok None
                      else Ok (Some payload)
                  | Err _ => Ok None
                  | Panic s => Panic s
                  end
            | Err _ => Ok None
            | Panic s => Panic s
            end
        | Err _ => Ok None
        | Panic s => Panic s
        end
  | Err _ => Ok None
  | Panic s => Panic s
  end.

(** The lookup of the height's object, creating one on a miss. *)
Definition heightObject (v : Validator) (number : Z) : Validator * nat :=
  let '(c, ptr) := lru_Get (v_blockHeightLRU v) number in
  match ptr with
  | Some ptr => (mkValidator c (v_objects v), ptr)
  | None =>
      let ptr := length (v_objects v) in
      (mkValidator (lru_Add c number ptr) (v_objects v ++ [[]]), ptr)
  end.

(** The memory of seen blocks. *)
Definition checkSeen (v : Validator) (payload : ExecutionPayload) : Validator * ValidationResult :=
  let '(v, ptr) := heightObject v (ep_BlockNumber payload) in
  let seen := default [] (v_objects v !! ptr) in
  let '(count, has) := hasSeen seen (ep_BlockHash payload) in
  if 5 <? count then (v, ValidationReject)
  else if has then (v, ValidationIgnore)
  else (mkValidator (v_blockHeightLRU v)
          (<[ptr := markSeen seen (ep_BlockHash payload)]> (v_objects v)), ValidationAccept).

(** The validator: the verdict and, with an accepted message, its payload. *)
Definition validateBlock (cfg : Config) (now : Z) (pool : bytes) (v : Validator) (data : bytes)
  : Validator * result (ValidationResult * option ExecutionPayload) :=
  match decodeMessage cfg now pool data with
  | Ok (Some payload) =>
      let '(v, r) := checkSeen v payload in
      (v, Ok (r, if bool_decide (r = ValidationAccept) then Some payload else None))
  | Ok None => (v, Ok (ValidationReject, None))
  | Err e => (v, Err e)
  | Panic s => (v, Panic s)
  end.

(** ** Publishing and receiving *)

(** The message [PublishL2Payload] hands to the topic. *)
Definition PublishL2Payload (cfg : Config) (signer : LocalSigner) (pool : bytes)
  (payload : ExecutionPayload) : result bytes :=
  b ← map_err (Errorf "failed to encoded execution payload to publish") (MarshalSSZ pool payload);
  let data := zeros 65 ++ b in
  payloadData ← go_slice data 65 (len data);
  sig ← map_err (Errorf "failed to sign execution payload with signer")
          (LocalSigner_Sign signer SigningDomainBlocksV1 (cfg_L2ChainID cfg) payloadData);
  data ← go_copy data 0 65 sig;
  Ok (snappy_Encode data).

(** [MakeSubscriber] hands the payload the validator attached to the handler. *)
Definition subscriberStep {S} (onBlock : S → ExecutionPayload → S * result unit) (s : S)
  (validatorData : option ExecutionPayload) : S :=
  match validatorData with
  | None => s
  | Some payload => fst (onBlock s payload)
  end.

(** ** Lemmas: the signing hash *)

Definition wf_chain_id (x : option Z) : Prop := ∃ c, x = Some c ∧ Z.abs c < 2 ^ 256.

(** The payload hash is written over the chain id, the last 32 bytes stay zero. *)
Lemma SigningHash_eq domain chainID b :
  length domain = 32%nat → wf_chain_id chainID →
  SigningHash domain chainID b = Ok (Keccak256 (domain ++ Keccak256 b ++ zeros 32)).
Proof.
  intros Hd (c & -> & Hc). unfold SigningHash.
  assert (Hl : ∀ x : bytes, length x = 32%nat → len x = 32) by (unfold len; intros; lia).
  change (zeros (32 + 32 + 32)) with ([] ++ zeros 32 ++ zeros 32 ++ zeros 32).
  rewrite go_copy_block; [|done|by rewrite (Hl domain)|by rewrite Hd]. cbn [mbind result_bind FillBytes32 app].
  rewrite (proj2 (Z.leb_gt _ _)) by done. cbn [mbind result_bind].
  rewrite (go_copy_block domain (zeros 32) (zeros 32) (be_encode 32 (Z.abs c)));
    [|by rewrite (Hl domain)|rewrite !Hl by (done || apply length_be_encode); done
    |by rewrite length_be_encode].
  cbn [mbind result_bind]. unfold go_copy.
  rewrite !len_app, !Hl by (done || apply length_be_encode || apply length_replicate).
  cbn [Z.leb andb]. rewrite (take_ge (Keccak256 b)) by (rewrite Keccak256_length; unfold HashLength; lia).
  rewrite Keccak256_length. change (Z.to_nat 32 + HashLength)%nat with (32 + 32)%nat.
  change (Z.to_nat 32) with 32%nat. rewrite take_app_length' by done.
  rewrite <- drop_drop, drop_app_length' by done. by rewrite drop_app_length' by (by rewrite length_be_encode).
Qed.

Lemma BlockSigningHash_chain cfg1 cfg2 b :
  wf_chain_id (cfg_L2ChainID cfg1) → wf_chain_id (cfg_L2ChainID cfg2) →
  BlockSigningHash cfg1 b = BlockSigningHash cfg2 b.
Proof. intros H1' H2'. unfold BlockSigningHash. by rewrite !SigningHash_eq. Qed.

(** ** Lemmas: the stateless checks *)

(** A message that carries a payload signed by the sequencer. *)
Definition gossip_valid (cfg : Config) (now : Z) (data : bytes) (p : ExecutionPayload) : Prop :=
  ∃ sig b h, snappy_Decode data = Ok (sig ++ b) ∧ length sig = 65%nat ∧
    1 <= len b ∧ 65 + len b <= maxGossipSize ∧
    BlockSigningHash cfg b = Ok h ∧ SigToAddress h sig = Ok (cfg_P2PSequencerAddress cfg) ∧
    ssz_decodes b p ∧ now ⊟ 60 <= ep_Timestamp p <= now ⊞ 5 ∧
    Header_Hash (payload_header p) = ep_BlockHash p.

(** The message cut into signature and payload. *)
Lemma split_message data :
  minGossipSize <= len data →
  ∃ sig b, data = sig ++ b ∧ length sig = 65%nat ∧ 1 <= len b ∧
    go_slice data 0 65 = Ok sig ∧ go_slice data 65 (len data) = Ok b.
Proof.
  unfold minGossipSize. intros Hl. destruct (split_at 65 data) as (sig & b & -> & Hs); [unfold len in Hl; lia|].
  exists sig, b. rewrite len_app in *. assert (len sig = 65) as E by (unfold len; lia).
  split_and!; try done; [lia| |]; rewrite go_slice_ok by (rewrite ?len_app; lia).
  - rewrite slice_app_l by lia. by rewrite slice_full.
  - rewrite slice_app_r, E by (rewrite Hs; lia). rewrite Hs.
    replace (Z.to_nat 65 - 65)%nat with 0%nat by lia. rewrite slice_full; [done|].
    unfold len. lia.
Qed.

Lemma UnmarshalSSZ_message pool b p :
  len b < 2 ^ 32 → UnmarshalSSZ pool (u32 (len b)) b = Ok p ↔ ssz_decodes b p.
Proof.
  intros Hb. pose proof (len_nonneg b). rewrite u32_small by (by split).
  rewrite UnmarshalSSZ_decodes by (by split).
  replace (Z.to_nat (len b)) with (length b) by (unfold len; lia). rewrite firstn_all. naive_solver.
Qed.

Lemma decodeMessage_iff cfg now pool data p :
  wf_chain_id (cfg_L2ChainID cfg) →
  decodeMessage cfg now pool data = Ok (Some p) ↔ gossip_valid cfg now data p.
Proof.
  intros Hc. unfold decodeMessage, gossip_valid. split.
  - intros HD. destruct (snappy_DecodedLen data) as [n|e|m] eqn:El; [|done..].
    destruct (_ || _) eqn:Eb in HD; [done|]. bool_props.
    destruct (snappy_Decode data) as [d|e|m] eqn:Ed; [|done..].
    pose proof (snappy_Decode_len _ _ Ed) as El'. rewrite El in El'. injection El' as ->.
    destruct (split_message d) as (sig & b & -> & Hs & Hb & Es & Eb); [done|].
    rewrite Es, Eb in HD. cbn [mbind result_bind] in HD. clear Es Eb.
    apply bind_Ok in HD as (h & Hh & HD). rewrite len_app in *.
    assert (len sig = 65) as E65 by (unfold len; lia).
    destruct (SigToAddress h sig) as [addr|e|m] eqn:Ea; [|done..].
    destruct (negb (bool_decide (addr = _))) eqn:Eaddr; [done|]. bool_props. subst addr.
    destruct (UnmarshalSSZ _ _ _) as [q|e|m] eqn:Eu; [|done..].
    destruct (ep_Timestamp q <? _) eqn:E1; [done|]. destruct (_ <? ep_Timestamp q) eqn:E2; [done|].
    destruct (negb (snd (CheckBlockHash q))) eqn:E3; [done|]. injection HD as ->. bool_props.
    apply UnmarshalSSZ_message in Eu; [|change maxGossipSize with 1048576 in *; lia].
    cbn in E3. bool_props. exists sig, b, h. split_and!; try done; lia.
  - intros (sig & b & h & Ed & Hs & Hb & Hmax & Hh & Ha & Hdec & [Ht1 Ht2] & Hbh).
    rewrite (snappy_Decode_len _ _ Ed), len_app.
    assert (len sig = 65) as E65 by (unfold len; lia). rewrite E65.
    rewrite !(proj2 (Z.ltb_ge _ _)) by (unfold minGossipSize; lia). cbn [orb]. rewrite Ed.
    destruct (split_message (sig ++ b)) as (sig' & b' & E & Hs' & _ & -> & ->);
      [rewrite len_app; unfold minGossipSize; lia|].
    apply app_inj_1 in E as [<- <-]; [|congruence]. cbn [mbind result_bind]. rewrite Hh. cbn [mbind result_bind].
    rewrite Ha, bool_decide_eq_true_2 by done. cbn [negb].
    rewrite (proj2 (UnmarshalSSZ_message pool b p ltac:(change maxGossipSize with 1048576 in *; lia)) Hdec).
    rewrite !(proj2 (Z.ltb_ge _ _)) by done. unfold CheckBlockHash. cbn [snd].
    rewrite bool_decide_eq_true_2 by done. done.
Qed.

(** The checks always reach a verdict. *)
Lemma decodeMessage_total cfg now pool data :
  wf_chain_id (cfg_L2ChainID cfg) → ∃ o, decodeMessage cfg now pool data = Ok o.
Proof.
  intros Hc. unfold decodeMessage. pose proof (snappy_no_panic data) as Hp.
  destruct (snappy_DecodedLen data) as [n|e|m] eqn:El; [|by eexists|by destruct (Hp m)].
  destruct (_ || _) eqn:Eb; [by eexists|]. bool_props.
  destruct (snappy_Decode data) as [d|e|m] eqn:Ed; [|by eexists|by destruct (Hp m)].
  pose proof (snappy_Decode_len _ _ Ed) as El'. rewrite El in El'. injection El' as ->.
  destruct (split_message d) as (sig & b & -> & Hs & Hb & -> & ->); [done|].
  cbn [mbind result_bind]. unfold BlockSigningHash. rewrite SigningHash_eq by done. cbn [mbind result_bind].
  pose proof (SigToAddress_no_panic (Keccak256 (SigningDomainBlocksV1 ++ Keccak256 b ++ zeros 32)) sig) as Hsig.
  destruct (SigToAddress _ _) as [addr|e|m]; [|by eexists|by destruct (Hsig m)].
  case_match; [by eexists|].
  pose proof (UnmarshalSSZ_no_panic pool (u32 (len b)) b) as Hu.
  destruct (UnmarshalSSZ _ _ _) as [q|e|m]; [|by eexists|by destruct (Hu m (u32_range _))].
  repeat (case_match; [by eexists|]). by eexists.
Qed.

(** ** Lemmas: the memory of seen blocks *)

(** The block hashes remembered for a height. *)
Definition seen_at (v : Validator) (n : Z) : list Hash :=
  match lru_contents (v_blockHeightLRU v) !! n with
  | Some ptr => default [] (v_objects v !! ptr)
  | None => []
  end.

(** Every cached pointer has an object of its own, with at most six different hashes. *)
Definition validator_inv (v : Validator) : Prop :=
  (∀ n ptr, lru_contents (v_blockHeightLRU v) !! n = Some ptr → (ptr < length (v_objects v))%nat) ∧
  (∀ n1 n2 ptr, lru_contents (v_blockHeightLRU v) !! n1 = Some ptr →
     lru_contents (v_blockHeightLRU v) !! n2 = Some ptr → n1 = n2) ∧
  Forall (λ sb, NoDup sb ∧ len sb <= 6) (v_objects v).

Lemma heightObject_spec v n v' ptr :
  validator_inv v → heightObject v n = (v', ptr) →
  validator_inv v' ∧ lru_contents (v_blockHeightLRU v') !! n = Some ptr ∧
  default [] (v_objects v' !! ptr) = seen_at v n ∧
  ∀ n', n' ≠ n → seen_at v' n' = seen_at v n' ∨ seen_at v' n' = [].
Proof.
  intros (Hb & Hinj & Hobj) HO. unfold heightObject in HO.
  pose proof (lru_Get_value (v_blockHeightLRU v) n) as Hv.
  pose proof (lru_Get_contents (v_blockHeightLRU v) n) as Hc.
  destruct (lru_Get (v_blockHeightLRU v) n) as [c [q|]]; cbn [fst snd] in Hv, Hc.
  - injection HO as <- <-. unfold validator_inv, seen_at. cbn. rewrite Hc, <- Hv.
    split_and!; try done. intros n' _. by left.
  - injection HO as <- <-.
    set (ptr := length (v_objects v)).
    pose proof (lru_Add_evicts c n ptr) as Hsub. rewrite Hc, map_subseteq_spec in Hsub.
    pose proof (lru_Add_value c n ptr) as Hadd.
    assert (Hother : ∀ n' q, n' ≠ n → lru_contents (lru_Add c n ptr) !! n' = Some q →
      lru_contents (v_blockHeightLRU v) !! n' = Some q ∧ (q < ptr)%nat).
    { intros n' q Hne Hq. pose proof (Hsub _ _ Hq) as Hq'. rewrite lookup_insert_ne in Hq' by done.
      split; [done|]. by apply (Hb n'). }
    unfold validator_inv, seen_at. cbn [v_blockHeightLRU v_objects]. rewrite Hadd, <- Hv. split_and!.
    + intros n' q Hq. rewrite length_app. cbn. destruct (decide (n' = n)) as [->|Hne].
      * rewrite Hadd in Hq. injection Hq as <-. unfold ptr. lia.
      * apply Hother in Hq as [_ ?]; [|done]. unfold ptr in *. lia.
    + intros n1 n2 q H1' H2'. destruct (decide (n1 = n)) as [->|Hn1], (decide (n2 = n)) as [->|Hn2]; [done| | |].
      * rewrite Hadd in H1'. injection H1' as <-. apply Hother in H2' as [_ ?]; [lia|done].
      * rewrite Hadd in H2'. injection H2' as <-. apply Hother in H1' as [_ ?]; [lia|done].
      * apply Hother in H1' as [H1' _]; [|done]. apply Hother in H2' as [H2' _]; [|done]. by apply (Hinj _ _ q).
    + apply Forall_app. split; [done|]. by repeat constructor.
    + done.
    + unfold ptr. by rewrite lookup_app_r, Nat.sub_diag by lia.
    + intros n' Hne. destruct (lru_contents (lru_Add c n ptr) !! n') as [q|] eqn:Eq; [|by right]. left.
      apply Hother in Eq as [-> Hq]; [|done]. by rewrite lookup_app_l.
Qed.

Lemma checkSeen_spec v p v' r :
  validator_inv v → checkSeen v p = (v', r) →
  let n := ep_BlockNumber p in
  validator_inv v' ∧
  (r = ValidationAccept ↔ len (seen_at v n) <= 5 ∧ ep_BlockHash p ∉ seen_at v n) ∧
  (r = ValidationReject ↔ 5 < len (seen_at v n)) ∧
  seen_at v' n = (if bool_decide (r = ValidationAccept) then seen_at v n ++ [ep_BlockHash p] else seen_at v n) ∧
  ∀ n', n' ≠ n → seen_at v' n' = seen_at v n' ∨ seen_at v' n' = [].
Proof.
  intros Hinv HC n. unfold checkSeen in HC.
  destruct (heightObject v (ep_BlockNumber p)) as [v1 ptr] eqn:EO. fold n in EO.
  destruct (heightObject_spec v n v1 ptr Hinv EO) as ((Hb & Hinj & Hobj) & Hptr & Hseen & Hoth).
  rewrite Hseen in HC. unfold hasSeen in HC.
  assert (H1n : seen_at v1 n = seen_at v n) by (unfold seen_at at 1; by rewrite Hptr).
  destruct (Z.ltb_spec 5 (len (seen_at v n))) as [Hgt|Hle].
  { injection HC as <- <-. rewrite H1n. split_and!; try done; split; try done; lia. }
  destruct (bool_decide (ep_BlockHash p ∈ seen_at v n)) eqn:Ein.
  { injection HC as <- <-. bool_props. rewrite H1n. split_and!; try done; split; try done; try lia. naive_solver. }
  injection HC as <- <-. bool_props.
  assert (Hlt : (ptr < length (v_objects v1))%nat) by (by apply (Hb n)).
  assert (Hobjn : NoDup (seen_at v n) ∧ len (seen_at v n) <= 6).
  { rewrite <- Hseen. apply lookup_lt_is_Some in Hlt as [sb Hsb]. rewrite Hsb. cbn.
    by rewrite Forall_lookup in Hobj; apply (Hobj ptr). }
  split_and!.
  - split_and!; cbn; [|done|].
    + intros n' q Hq. rewrite length_insert. by apply (Hb n').
    + apply Forall_insert; [done|]. unfold markSeen. split.
      * apply NoDup_app. split_and!; [apply Hobjn| |apply NoDup_singleton]. set_solver.
      * rewrite len_app. unfold len at 2. cbn. lia.
  - done.
  - split; [done|lia].
  - unfold seen_at at 1. cbn. rewrite Hptr, list_lookup_insert_eq by done. done.
  - intros n' Hne. destruct (Hoth n' Hne) as [<-|E]; [left|right; rewrite <- E];
      unfold seen_at; cbn; destruct (lru_contents _ !! n') as [q|] eqn:Eq; try done;
      (rewrite list_lookup_insert_ne; [done|]; intros <-; by rewrite (Hinj n' n ptr) in Hne).
Qed.

(** A run of the validator over messages, each with the time and the pooled buffer of
    its validation; the payloads it accepted, in order. *)
Fixpoint validateAll (cfg : Config) (v : Validator) (msgs : list (Z * bytes * bytes))
  : Validator * list ExecutionPayload :=
  match msgs with
  | [] => (v, [])
  | (now, pool, data) :: msgs =>
      let '(v, r) := validateBlock cfg now pool v data in
      let '(v, ps) := validateAll cfg v msgs in
      (v, match r with Ok (_, Some p) => p :: ps | _ => ps end)
  end.

Lemma validateBlock_cases cfg now pool v data v' r :
  wf_chain_id (cfg_L2ChainID cfg) → validateBlock cfg now pool v data = (v', r) →
  (∃ p, gossip_valid cfg now data p ∧ ∃ x, checkSeen v p = (v', x) ∧
        r = Ok (x, if bool_decide (x = ValidationAccept) then Some p else None)) ∨
  (v' = v ∧ r = Ok (ValidationReject, None) ∧ ∀ p, ¬ gossip_valid cfg now data p).
Proof.
  intros Hc HV. unfold validateBlock in HV.
  destruct (decodeMessage_total cfg now pool data Hc) as [[p|] E]; rewrite E in HV.
  - left. apply decodeMessage_iff in E; [|done]. exists p. split; [done|].
    destruct (checkSeen v p) as [v1 x]. injection HV as <- <-. by exists x.
  - right. injection HV as <- <-. split_and!; try done. intros p Hp.
    apply (decodeMessage_iff cfg now pool data p Hc) in Hp. congruence.
Qed.

Lemma validateBlock_inv cfg now pool v data :
  wf_chain_id (cfg_L2ChainID cfg) → validator_inv v →
  validator_inv (fst (validateBlock cfg now pool v data)).
Proof.
  intros Hc Hv. destruct (validateBlock cfg now pool v data) as [v' r] eqn:E.
  destruct (validateBlock_cases _ _ _ _ _ _ _ Hc E) as [(p & _ & x & Ex & _)|[-> _]]; [|done].
  by destruct (checkSeen_spec v p v' x Hv Ex).
Qed.

Lemma validateAll_inv cfg v msgs :
  wf_chain_id (cfg_L2ChainID cfg) → validator_inv v → validator_inv (fst (validateAll cfg v msgs)).
Proof.
  intros Hc. revert v. induction msgs as [|[[now pool] data] msgs IH]; intros v Hv; [done|].
  cbn [validateAll]. pose proof (validateBlock_inv cfg now pool v data Hc Hv) as Hv1.
  destruct (validateBlock cfg now pool v data) as [v1 r]. specialize (IH v1 Hv1).
  by destruct (validateAll cfg v1 msgs) as [v2 ps].
Qed.

Lemma BuildBlocksValidator_inv v : BuildBlocksValidator = Ok v → validator_inv v ∧ ∀ n, seen_at v n = [].
Proof.
  unfold BuildBlocksValidator. destruct (lru_New 100) as [c|e|m] eqn:E; [|done..]. intros [= <-].
  apply lru_New_empty in E. unfold validator_inv, seen_at. cbn. rewrite E. split_and!; done.
Qed.

Lemma publish_valid cfg key pool now payload msg :
  wf_chain_id (cfg_L2ChainID cfg) → key_Address key = cfg_P2PSequencerAddress cfg →
  wf_payload payload → len (ep_ExtraData payload) <= 32 →
  65 + len (ssz_bytes payload) <= maxGossipSize →
  now ⊟ 60 <= ep_Timestamp payload <= now ⊞ 5 → snd (CheckBlockHash payload) = true →
  PublishL2Payload cfg (Some key) pool payload = Ok msg → gossip_valid cfg now msg payload.
Proof.
  intros Hc Hk Hwf He Hsize Ht Hbh HP. change maxGossipSize with 1048576 in Hsize.
  pose proof (len_nonneg (ssz_bytes payload)) as Hn0.
  pose proof (len_ssz_fixed payload Hwf) as Hfix.
  assert (Hpos : 1 <= len (ssz_bytes payload)).
  { unfold ssz_bytes. rewrite !len_app, Hfix. pose proof (len_nonneg (ep_ExtraData payload)).
    pose proof (len_nonneg (ssz_txs (ep_Transactions payload))). unfold executionPayloadFixedPart. lia. }
  unfold PublishL2Payload in HP. rewrite MarshalSSZ_layout in HP by (done || lia).
  cbn [map_err mbind result_bind] in HP.
  destruct (split_message (zeros 65 ++ ssz_bytes payload)) as (z & b & E & Hz & _ & _ & Eb);
    [rewrite len_app; change (len (zeros 65)) with 65; unfold minGossipSize; lia|].
  apply app_inj_1 in E as [<- <-]; [|by rewrite Hz]. rewrite Eb in HP. cbn [mbind result_bind] in HP.
  apply bind_Ok in HP as (sig & Hsig & HP). unfold LocalSigner_Sign in Hsig.
  rewrite SigningHash_eq in Hsig by done. cbn [mbind result_bind] in Hsig.
  destruct (crypto_Sign _ _) as [sig'|e|m] eqn:Es in Hsig; [|done..]. injection Hsig as ->.
  pose proof (crypto_Sign_length _ _ _ Es) as Hlen.
  pose proof (go_copy_block [] (zeros 65) (ssz_bytes payload) sig 0 65) as Hcopy.
  cbn [app] in Hcopy. rewrite Hcopy in HP; [|done|unfold len; rewrite Hlen; done|by rewrite Hlen].
  injection HP as <-.
  exists sig, (ssz_bytes payload), (Keccak256 (SigningDomainBlocksV1 ++ Keccak256 (ssz_bytes payload) ++ zeros 32)).
  split_and!; try done; try lia.
  - by rewrite snappy_Encode_Decode.
  - unfold BlockSigningHash. by rewrite SigningHash_eq.
  - by rewrite (SigToAddress_Sign _ _ _ Es), Hk.
  - split; [done|]. split; [done|]. exists (ssz_txs (ep_Transactions payload)). split; [done|]. left.
    split; [done|]. unfold ssz_bytes in Hsize. rewrite !len_app, len_ssz_txs in Hsize.
    pose proof (len_nonneg (ssz_fixed payload)). pose proof (len_nonneg (ep_ExtraData payload)).
    pose proof (len_nonneg (concat (ep_Transactions payload))).
    change maxTransactionsPerPayload with 1048576. lia.
  - unfold CheckBlockHash in Hbh. cbn in Hbh. by bool_props.
Qed.

(** ** Theorems *)

(** C33. The gossip validator, in every state a run can reach, answers each message: it
    accepts exactly a payload that is signed by the sequencer, well encoded, recent and
    carries its own block hash, if that hash is new among at most five remembered at
    its height; it then attaches this payload and remembers the hash. *)
Theorem validateBlock_spec cfg v0 msgs now pool data :
  wf_chain_id (cfg_L2ChainID cfg) → BuildBlocksValidator = Ok v0 →
  let v := fst (validateAll cfg v0 msgs) in
  ∃ v' x o, validateBlock cfg now pool v data = (v', Ok (x, o)) ∧
    (∀ p, o = Some p ↔ x = ValidationAccept ∧ gossip_valid cfg now data p) ∧
    (x = ValidationAccept ↔ ∃ p, gossip_valid cfg now data p ∧
       len (seen_at v (ep_BlockNumber p)) <= 5 ∧ ep_BlockHash p ∉ seen_at v (ep_BlockNumber p)) ∧
    (∀ p, o = Some p → seen_at v' (ep_BlockNumber p) =
                       seen_at v (ep_BlockNumber p) ++ [ep_BlockHash p]).
Proof.
  intros Hc H0' v. assert (Hv : validator_inv v).
  { apply validateAll_inv; [done|]. by apply BuildBlocksValidator_inv. }
  clearbody v. destruct (validateBlock cfg now pool v data) as [v' r] eqn:E.
  destruct (validateBlock_cases _ _ _ _ _ _ _ Hc E) as [(p & Hp & x & Ex & ->)|(-> & -> & Hno)].
  - destruct (checkSeen_spec v p v' x Hv Ex) as (_ & Hacc & _ & Hs & _).
    assert (Huniq : ∀ q, gossip_valid cfg now data q → q = p).
    { intros q Hq. apply (decodeMessage_iff _ _ pool) in Hp, Hq; [|done..]. congruence. }
    exists v', x, (if bool_decide (x = ValidationAccept) then Some p else None). split; [done|].
    case_bool_decide as Hx; (split; [|split]).
    + intros q. split; [by intros [= <-]|]. intros [_ Hq%Huniq]. by subst.
    + split; [|done]. intros _. exists p. split; [done|]. by apply Hacc.
    + by intros q [= <-].
    + intros q. split; [done|]. by intros [? _].
    + split; [done|]. intros (q & Hq & Hcond). apply Huniq in Hq as ->. by apply Hacc.
    + done.
  - exists v, ValidationReject, None. split_and!; try done.
    + intros p. split; [done|]. by intros [? _].
    + split; [done|]. intros (p & Hp & _). by destruct (Hno p).
Qed.

(** Whatever messages arrive, the blocks remembered at a height are different and
    at most six, and a block that is remembered is not accepted again. *)
Theorem seen_blocks_bounded cfg v0 msgs n :
  wf_chain_id (cfg_L2ChainID cfg) → BuildBlocksValidator = Ok v0 →
  let v := fst (validateAll cfg v0 msgs) in
  NoDup (seen_at v n) ∧ len (seen_at v n) <= 6 ∧
  ∀ now pool data p, ep_BlockNumber p = n → ep_BlockHash p ∈ seen_at v n →
    snd (validateBlock cfg now pool v data) ≠ Ok (ValidationAccept, Some p).
Proof.
  intros Hc H0' v. assert (Hv : validator_inv v).
  { apply validateAll_inv; [done|]. by apply BuildBlocksValidator_inv. }
  clearbody v. assert (Hs : NoDup (seen_at v n) ∧ len (seen_at v n) <= 6).
  { destruct Hv as (Hb & _ & Hobj). unfold seen_at. destruct (lru_contents _ !! n) as [ptr|] eqn:Ep;
      [|split; [constructor|done]].
    apply Hb in Ep as [sb Hsb]%lookup_lt_is_Some. rewrite Hsb. cbn. rewrite Forall_lookup in Hobj. by apply (Hobj ptr). }
  destruct Hs as [Hnd Hlen]. split_and!; [done|done|]. intros now pool data p <- Hin.
  destruct (validateBlock cfg now pool v data) as [v' r] eqn:E. cbn [snd]. intros ->.
  destruct (validateBlock_cases _ _ _ _ _ _ _ Hc E) as [(q & _ & x & Ex & Er)|(_ & ? & _)]; [|done].
  injection Er as <- Er. rewrite bool_decide_eq_true_2 in Er by done. injection Er as ->.
  destruct (checkSeen_spec v q v' _ Hv Ex) as (_ & Hacc & _). by destruct (proj1 Hacc eq_refl).
Qed.

(** What the sequencer publishes, a node that has not seen the block accepts and
    hands on unchanged. *)
Theorem publish_accepted cfg v0 key pool pool' now payload msg :
  wf_chain_id (cfg_L2ChainID cfg) → BuildBlocksValidator = Ok v0 →
  key_Address key = cfg_P2PSequencerAddress cfg →
  wf_payload payload → len (ep_ExtraData payload) <= 32 →
  65 + len (ssz_bytes payload) <= maxGossipSize →
  now ⊟ 60 <= ep_Timestamp payload <= now ⊞ 5 → snd (CheckBlockHash payload) = true →
  PublishL2Payload cfg (Some key) pool payload = Ok msg →
  snd (validateBlock cfg now pool' v0 msg) = Ok (ValidationAccept, Some payload).
Proof.
  intros Hc H0' Hk Hwf He Hsize Ht Hbh HP.
  pose proof (publish_valid _ _ _ _ _ _ Hc Hk Hwf He Hsize Ht Hbh HP) as Hvalid.
  destruct (BuildBlocksValidator_inv v0 H0') as [Hv Hempty].
  destruct (validateBlock cfg now pool' v0 msg) as [v' r] eqn:E.
  destruct (validateBlock_cases _ _ _ _ _ _ _ Hc E) as [(q & Hq & x & Ex & ->)|(_ & _ & Hno)]; [|by destruct (Hno payload)].
  apply (decodeMessage_iff _ _ pool') in Hq, Hvalid; [|done..]. assert (q = payload) as -> by congruence.
  destruct (checkSeen_spec v0 payload v' x Hv Ex) as (_ & Hacc & _). rewrite Hempty in Hacc.
  assert (x = ValidationAccept) as -> by (apply Hacc; split; [done|set_solver]). done.
Qed.

(** The signature of a block does not depend on the chain: a validator with the same
    sequencer address but another L2 chain id takes the same decisions, so that a block
    gossiped on one chain is valid on the other. *)
Theorem gossip_chain_independent cfg1 cfg2 now pool v data :
  wf_chain_id (cfg_L2ChainID cfg1) → wf_chain_id (cfg_L2ChainID cfg2) →
  cfg_P2PSequencerAddress cfg1 = cfg_P2PSequencerAddress cfg2 →
  validateBlock cfg1 now pool v data = validateBlock cfg2 now pool v data.
Proof.
  intros H1' H2' Ha. unfold validateBlock.
  assert (decodeMessage cfg1 now pool data = decodeMessage cfg2 now pool data) as ->; [|done].
  unfold decodeMessage. destruct (snappy_DecodedLen data); [|done..]. case_match; [done|].
  destruct (snappy_Decode data) as [d| |]; [|done..].
  destruct (go_slice d 0 65); [|done..]. destruct (go_slice d 65 (len d)); [|done..].
  cbn [mbind result_bind]. by rewrite (BlockSigningHash_chain cfg1 cfg2), Ha.
Qed.

(** The input of the message id determines topic, validity and content. *)
Theorem msg_id_input_inj topic1 topic2 d1 d2 :
  len topic1 < 2 ^ 64 → len topic2 < 2 ^ 64 →
  msg_id_input topic1 d1 = msg_id_input topic2 d2 →
  topic1 = topic2 ∧
  match msg_content d1, msg_content d2 with
  | Some c1, Some c2 => c1 = c2
  | None, None => d1 = d2
  | _, _ => False
  end.
Proof.
  intros Hl1 Hl2 HE. unfold msg_id_input in HE.
  assert (Hkey : ∀ x1 x2 : bytes, le_encode 8 (len topic1) ++ topic1 ++ x1 = le_encode 8 (len topic2) ++ topic2 ++ x2 →
    topic1 = topic2 ∧ x1 = x2).
  { intros x1 x2 [El Ex]%app_inj_1; [|by rewrite !length_le_encode].
    apply (f_equal le_decode) in El. rewrite !le_decode_encode_small in El by (split; [apply len_nonneg|done]).
    apply app_inj_1 in Ex; [done|]. unfold len in El. lia. }
  destruct (msg_content d1) as [c1|], (msg_content d2) as [c2|]; cbn [app] in HE; try done;
    apply (f_equal (drop 4)) in HE; cbn [drop MessageDomainValidSnappy MessageDomainInvalidSnappy app] in HE;
    by apply Hkey in HE.
Qed.
End Gossip.

(** ** Witnesses *)

#[local] Existing Instance example_keccak.
#[local] Existing Instance example_hasher.

#[local] Program Instance stored_snappy : Snappy := {
  snappy_DecodedLen m := Ok (len m); snappy_Decode m := Ok m; snappy_Encode b := b }.
Next Obligation. done. Qed.
Next Obligation. by intros m b [= ->]. Qed.
Next Obligation. done. Qed.

(** A toy scheme: the signature is the padded digest. *)
Definition padded (h : Hash) : bytes := take 65 (h ++ zeros 65).
#[local] Program Instance example_signatures : Signatures := {
  PrivateKey := unit; key_Address _ := zeros 20;
  crypto_Sign h _ := Ok (padded h);
  SigToAddress h sig := if bool_decide (sig = padded h) then Ok (zeros 20)
                        else Err (ErrorNew "recovery failed") }.
Next Obligation.
  intros h k sig [= <-]. unfold padded, zeros. rewrite length_take, length_app, length_replicate. lia.
Qed.
Next Obligation. intros h k sig [= <-]. cbn. by rewrite bool_decide_eq_true_2. Qed.
Next Obligation. intros h sig s. cbn. by case_bool_decide. Qed.

Definition example_key : @PrivateKey example_signatures := tt.

Definition gossip_cfg (chain : Z) : Config :=
  mkConfig (mkGenesis BlockID_zero BlockID_zero 1) 2 600 10 50 (Some 1) (Some chain)
    (zeros 20) [] [] [] [].

Definition gossip_payload : ExecutionPayload :=
  mkExecutionPayload (example_hash 1) (zeros 20) (example_hash 2) (example_hash 3)
    (zeros 256) (example_hash 4) 5 30000000 21000 1000 [x01] 7 (example_hash 6000) [[x7f]].

Definition gossip_message : bytes :=
  match PublishL2Payload (gossip_cfg 10) (Some example_key) [] gossip_payload with Ok m => m | _ => [] end.

Definition fresh_validator : Validator :=
  match BuildBlocksValidator with Ok v => v | _ => mkValidator (mkRecent 0 []) [] end.

Lemma wf_gossip_cfg : wf_chain_id (cfg_L2ChainID (gossip_cfg 10)).
Proof. by eexists. Qed.

Lemma publish_accepted_witness :
  snd (validateBlock (gossip_cfg 10) 1030 [] fresh_validator gossip_message) =
    Ok (ValidationAccept, Some gossip_payload).
Proof.
  apply (publish_accepted (gossip_cfg 10) fresh_validator example_key [] [] 1030 gossip_payload
           gossip_message).
  - by eexists.
  - reflexivity.
  - reflexivity.
  - by apply (bool_decide_unpack _).
  - by vm_compute.
  - by vm_compute.
  - by vm_compute.
  - vm_compute. reflexivity.
  - vm_compute. reflexivity.
Defined.

Lemma validateBlock_spec_witness :
  ∃ v' x o, validateBlock (gossip_cfg 10) 1030 [] fresh_validator gossip_message = (v', Ok (x, o)).
Proof.
  destruct (validateBlock_spec (gossip_cfg 10) fresh_validator [] 1030 [] gossip_message)
    as (v' & x & o & E & _); [apply wf_gossip_cfg|done|]. by exists v', x, o.
Defined.

Lemma seen_blocks_bounded_witness :
  NoDup (seen_at (fst (validateAll (gossip_cfg 10) fresh_validator [(1030, [], gossip_message)])) 5) ∧
  len (seen_at (fst (validateAll (gossip_cfg 10) fresh_validator [(1030, [], gossip_message)])) 5) <= 6.
Proof.
  destruct (seen_blocks_bounded (gossip_cfg 10) fresh_validator [(1030, [], gossip_message)] 5)
    as (? & ? & _); [apply wf_gossip_cfg|done|]. done.
Defined.

Lemma gossip_chain_independent_witness :
  snd (validateBlock (gossip_cfg 420) 1030 [] fresh_validator gossip_message) =
    Ok (ValidationAccept, Some gossip_payload).
Proof.
  rewrite <- (gossip_chain_independent (gossip_cfg 10) (gossip_cfg 420));
    [by vm_compute|by eexists|by eexists|done].
Defined.
