(* ===== verification/BatchCall.v ===== *)
(** * The iterative batch call

    op-node/sources/batching.go: [IterativeBatchCall], which fetches many RPC requests in
    batches.  Requests wait in a channel; [Fetch] takes a batch of them, calls the RPC,
    puts failed ones back and counts the others; the call is complete when all are
    counted.  The first part models one caller at a time and shows that any sequence of
    [Fetch] calls, with whatever failures, collects every value once; the second part
    models goroutines that call [Fetch], [Result] and [Reset] concurrently, step by step,
    with the lock they share. *)

From stdpp Require Import gmultiset.
From S2P Require Import Prelude GoErrors.

(** How the RPC answers one request of a batch: an error, a value decoded into the
    object allocated with the request, or [null], which leaves that object alone. *)
Inductive reply (V : Type) := ReplyErr (e : error) | ReplyVal (v : V) | ReplyNull.
Arguments ReplyErr {V} e.
Arguments ReplyVal {V} v.
Arguments ReplyNull {V}.

(** What a call to [Fetch] does: it returns, or waits for a request to come back. *)
Inductive outcome := Returned (r : result unit) | Blocked.

Section BatchCall.
Context {K V O W : Type}.
Context (requestsKeys : list K) (makeRequest : K → V).
Context (makeResults : list K → list V → result O).
(** The RPC: the answer to each position of the batch, or a failure of the call. *)
Context (getBatch : W → list K → W * result (nat → reply V)).

Record IterativeBatchCall := mkIBC {
  ibc_completed : Z;             (* atomic uint32 *)
  ibc_requestsValues : list V;
  ibc_scheduled : list nat;      (* channel of requests, by index *)
  ibc_closed : bool;             (* the channel is closed *)
  ibc_results : option O }.

(** The batch size is cut to the number of requests, and at least one. *)
Definition clampBatchSize (batchSize : Z) : Z :=
  let batchSize := if len requestsKeys <? batchSize then len requestsKeys else batchSize in
  if batchSize <? 1 then 1 else batchSize.

Definition Reset (ibc : IterativeBatchCall) : IterativeBatchCall :=
  mkIBC (ibc_completed ibc) (makeRequest <$> requestsKeys) (seq 0 (length requestsKeys))
    (bool_decide (length requestsKeys = 0%nat)) (ibc_results ibc).

Definition NewIterativeBatchCall : IterativeBatchCall := Reset (mkIBC 0 [] [] false None).

Definition set_scheduled (q : list nat) (ibc : IterativeBatchCall) : IterativeBatchCall :=
  mkIBC (ibc_completed ibc) (ibc_requestsValues ibc) q (ibc_closed ibc) (ibc_results ibc).
Definition set_values (vs : list V) (ibc : IterativeBatchCall) : IterativeBatchCall :=
  mkIBC (ibc_completed ibc) vs (ibc_scheduled ibc) (ibc_closed ibc) (ibc_results ibc).

(** [ibc.scheduled <- r]. *)
Definition send (ibc : IterativeBatchCall) (i : nat) : result IterativeBatchCall :=
  if ibc_closed ibc then Panic "send on closed channel"
  else Ok (set_scheduled (ibc_scheduled ibc ++ [i]) ibc).

Fixpoint sendAll (ibc : IterativeBatchCall) (batch : list nat) : result IterativeBatchCall :=
  match batch with
  | [] => Ok ibc
  | i :: batch => ibc ← send ibc i; sendAll ibc batch
  end.

(** The RPC has written the answers into the objects of the requests. *)
Fixpoint storeReplies (vs : list V) (rs : list (nat * reply V)) : list V :=
  match rs with
  | [] => vs
  | (i, ReplyVal v) :: rs => storeReplies (<[i := v]> vs) rs
  | _ :: rs => storeReplies vs rs
  end.

(** The loop over the answered batch. *)
Fixpoint processBatch (ibc : IterativeBatchCall) (res : option error)
  (rs : list (nat * reply V)) : IterativeBatchCall * result unit :=
  match rs with
  | [] => (ibc, match res with Some e => Err e | None => Ok () end)
  | (i, ReplyErr e) :: rs =>
      match send ibc i with
      | Ok ibc => processBatch ibc (Some (multierror_Append res e)) rs
      | Err e => (ibc, Err e)
      | Panic s => (ibc, Panic s)
      end
  | (_, _) :: rs =>
      let c := u32 (ibc_completed ibc + 1) in
      let ibc := mkIBC c (ibc_requestsValues ibc) (ibc_scheduled ibc) (ibc_closed ibc)
                   (ibc_results ibc) in
      if u32 (len requestsKeys) <=? c then
        if ibc_closed ibc then (ibc, Panic "close of closed channel")
        else (mkIBC c (ibc_requestsValues ibc) (ibc_scheduled ibc) true (ibc_results ibc),
              Err io_EOF)
      else processBatch ibc res rs
  end.

(** The keys of a batch and its answers by position. *)
Definition batchKeys (batch : list nat) : list K := omap (λ i, requestsKeys !! i) batch.
Definition batchReplies (batch : list nat) (f : nat → reply V) : list (nat * reply V) :=
  imap (λ j i, (i, f j)) batch.

(** Put the batch back and return the error. *)
Definition requeue (w : W) (ibc : IterativeBatchCall) (batch : list nat) (err : error)
  : W * IterativeBatchCall * outcome :=
  match sendAll ibc batch with
  | Ok ibc => (w, ibc, Returned (Err err))
  | Err e => (w, ibc, Returned (Err e))
  | Panic s => (w, ibc, Returned (Panic s))
  end.

(** [Fetch] once the batch has been collected. *)
Definition callBatch (w : W) (ibc : IterativeBatchCall) (batch : list nat)
  : W * IterativeBatchCall * outcome :=
  let '(w, r) := getBatch w (batchKeys batch) in
  match r with
  | Ok f =>
      let rs := batchReplies batch f in
      let ibc := set_values (storeReplies (ibc_requestsValues ibc) rs) ibc in
      let '(ibc, r) := processBatch ibc None rs in (w, ibc, Returned r)
  | Err e => requeue w ibc batch (Errorf "failed batch-retrieval" e)
  | Panic s => (w, ibc, Returned (Panic s))
  end.

(** [Fetch] by the only caller.  [cancel] is the number of requests collected when the
    context is found to be done, if it is. *)
Definition Fetch (batchSize : Z) (cancel : option nat) (w : W) (ibc : IterativeBatchCall)
  : W * IterativeBatchCall * outcome :=
  let ctxErr := ErrorNew "context canceled" in
  match cancel, ibc_scheduled ibc with
  | Some 0%nat, _ => (w, ibc, Returned (Err ctxErr))
  | _, [] => if ibc_closed ibc then (w, ibc, Returned (Err io_EOF)) else (w, ibc, Blocked)
  | _, scheduled =>
      let n := match cancel with
               | Some c => Nat.min c (Z.to_nat batchSize) | None => Z.to_nat batchSize end in
      let batch := take n scheduled in
      let ibc' := set_scheduled (drop n scheduled) ibc in
      if (length batch <? Z.to_nat batchSize)%nat then
        if negb (bool_decide (cancel = None)) then requeue w ibc' batch ctxErr
        else if ibc_closed ibc then (w, ibc', Returned (Err io_EOF))
        else callBatch w ibc' batch
      else callBatch w ibc' batch
  end.

Definition Complete (ibc : IterativeBatchCall) : bool :=
  u32 (len requestsKeys) <=? ibc_completed ibc.

(** The checked and transformed values; a failed check resets the call. *)
Definition Result (ibc : IterativeBatchCall) : IterativeBatchCall * result O :=
  if ibc_completed ibc <? u32 (len requestsKeys) then
    (ibc, Err (ErrorNew "results not available yet, Fetch more first"))
  else
    match ibc_results ibc with
    | Some out => (ibc, Ok out)
    | None =>
        match makeResults requestsKeys (ibc_requestsValues ibc) with
        | Ok out => (mkIBC (ibc_completed ibc) (ibc_requestsValues ibc) (ibc_scheduled ibc)
                       (ibc_closed ibc) (Some out), Ok out)
        | Err e => (Reset ibc, Err e)
        | Panic s => (ibc, Panic s)
        end
    end.

(** ** One caller: invariant *)

(** The value each key stands for, and an RPC that answers with it or fails. *)
Context (value : K → V).
Definition honest : Prop := ∀ w ks w' r,
  getBatch w ks = (w', r) →
  match r with
  | Ok g => ∀ (j : nat) k, ks !! j = Some k →
      match g j with ReplyErr _ => True | ReplyVal v => v = value k | ReplyNull => False end
  | Err _ => True
  | Panic _ => False
  end.

Definition fetched (vs : list V) (done : list nat) : Prop :=
  ∀ i k, requestsKeys !! i = Some k → i ∈ done → vs !! i = Some (value k).

(** Between calls: every request is either done or scheduled, and the channel is closed
    when nothing is left to do. *)
Definition ibc_inv (done : list nat) (ibc : IterativeBatchCall) : Prop :=
  done ++ ibc_scheduled ibc ≡ₚ seq 0 (length requestsKeys) ∧
  ibc_completed ibc = len done ∧
  ibc_closed ibc = bool_decide (ibc_scheduled ibc = []) ∧
  length (ibc_requestsValues ibc) = length requestsKeys ∧
  fetched (ibc_requestsValues ibc) done ∧ ibc_results ibc = None.

Lemma New_inv : ibc_inv [] NewIterativeBatchCall.
Proof.
  unfold ibc_inv, NewIterativeBatchCall, Reset. cbn. split_and!; try done.
  - apply bool_decide_ext. destruct requestsKeys; done.
  - by rewrite length_fmap.
  - intros i k _ Hi. set_solver.
Qed.

Lemma sendAll_ok batch ibc :
  ibc_closed ibc = false →
  sendAll ibc batch = Ok (set_scheduled (ibc_scheduled ibc ++ batch) ibc).
Proof.
  revert ibc. induction batch as [|i batch IH]; intros ibc Hc.
  - rewrite app_nil_r. by destruct ibc.
  - cbn [sendAll]. unfold send. rewrite Hc. cbn [mbind result_bind]. rewrite IH by done.
    cbn. by rewrite <- app_assoc.
Qed.

(** Which answers of a batch count as done. *)
Definition answered (rs : list (nat * reply V)) : list nat :=
  omap (λ p, match p.2 with ReplyErr _ => None | _ => Some p.1 end) rs.

Lemma processBatch_ok rs ibc done res :
  len requestsKeys < 2 ^ 32 → res ≠ Some io_EOF →
  done ++ ibc_scheduled ibc ++ rs.*1 ≡ₚ seq 0 (length requestsKeys) →
  ibc_completed ibc = len done → ibc_closed ibc = false →
  length (ibc_requestsValues ibc) = length requestsKeys →
  (length done < length requestsKeys)%nat → fetched (ibc_requestsValues ibc) (done ++ answered rs) →
  ibc_results ibc = None →
  ∃ ibc' r, processBatch ibc res rs = (ibc', r) ∧ ibc_inv (done ++ answered rs) ibc' ∧
    (∀ msg, r ≠ Panic msg) ∧ (r = Err io_EOF ↔ ibc_scheduled ibc' = []).
Proof.
  intros Hn. revert ibc done res. induction rs as [|[i rep] rs IH];
    intros ibc done res Hres Hperm Hcomp Hcl Hvs Hlt Hf Hnone.
  - cbn [processBatch answered omap list_omap] in *. rewrite !app_nil_r in *.
    assert (Hs : ibc_scheduled ibc ≠ []).
    { intros E. rewrite E, app_nil_r in Hperm. apply Permutation_length in Hperm.
      rewrite length_seq in Hperm. lia. }
    eexists _, _. split; [done|]. split; [|destruct res; split; naive_solver].
    split_and!; try done. rewrite Hcl. symmetry. by apply bool_decide_eq_false.
  - assert (Hsucc : (∃ e, rep = ReplyErr e) ∨
      answered ((i, rep) :: rs) = i :: answered rs ∧
      processBatch ibc res ((i, rep) :: rs) =
        (let c := u32 (ibc_completed ibc + 1) in
         let ibc := mkIBC c (ibc_requestsValues ibc) (ibc_scheduled ibc) (ibc_closed ibc) (ibc_results ibc) in
         if u32 (len requestsKeys) <=? c then
           if ibc_closed ibc then (ibc, Panic "close of closed channel")
           else (mkIBC c (ibc_requestsValues ibc) (ibc_scheduled ibc) true (ibc_results ibc), Err io_EOF)
         else processBatch ibc res rs)) by (destruct rep; naive_solver).
    destruct Hsucc as [[e ->]|[Ha Hp]].
    + change (answered ((i, ReplyErr _) :: rs)) with (answered rs) in *.
      cbn [processBatch]. unfold send. rewrite Hcl. apply IH; try done.
      * by destruct res.
      * cbn. rewrite <- app_assoc. exact Hperm.
    + rewrite Ha in *. rewrite Hp. clear Hp. cbn [fmap list_fmap fst] in Hperm.
      assert (Hperm' : (done ++ [i]) ++ ibc_scheduled ibc ++ rs.*1 ≡ₚ seq 0 (length requestsKeys)).
      { rewrite <- Hperm, <- app_assoc. f_equiv. cbn. apply Permutation_middle. }
      replace (done ++ i :: answered rs) with ((done ++ [i]) ++ answered rs) in * by (by rewrite <- app_assoc).
      assert (Hlen : ibc_completed ibc + 1 = len (done ++ [i])) by (rewrite len_app, Hcomp; done).
      pose proof (Permutation_length Hperm') as Hl. rewrite length_seq, !length_app in Hl.
      cbn [length] in Hl.
      rewrite Hlen, !u32_small by (unfold is_u32, len in *; rewrite ?length_app; cbn [length]; lia).
      cbn zeta. destruct (Z.leb_spec (len requestsKeys) (len (done ++ [i]))) as [Hge|Hge].
      * unfold len in Hge. rewrite length_app in Hge. cbn [length] in Hge.
        assert (rs = []) as -> by (destruct rs; [done|]; rewrite length_fmap in Hl; cbn [length] in Hl; lia).
        assert (ibc_scheduled ibc = []) as Es by (destruct (ibc_scheduled ibc); [done|]; cbn [length] in Hl; lia).
        cbn [ibc_closed]. rewrite Hcl, Es in *. cbn [answered omap list_omap fmap list_fmap] in *.
        rewrite !app_nil_r in *. eexists _, _. split; [done|]. split; [|split; [done|done]].
        unfold ibc_inv. cbn. rewrite app_nil_r. split_and!; try done.
      * apply IH; try done. unfold len in Hge. rewrite length_app in Hge. rewrite length_app. cbn [length] in *. lia.
Qed.

Lemma batchReplies_fst batch (f : nat → reply V) : (batchReplies batch f).*1 = batch.
Proof.
  unfold batchReplies. rewrite fmap_imap. etrans; [|apply list_fmap_id].
  revert f. induction batch as [|i batch IH]; intros f; [done|]. cbn. f_equal. apply (IH (f ∘ S)).
Qed.

Lemma elem_of_batchReplies batch (f : nat → reply V) i r :
  (i, r) ∈ batchReplies batch f → ∃ j : nat, batch !! j = Some i ∧ r = f j.
Proof.
  unfold batchReplies. intros (j & Hj)%list_elem_of_lookup. rewrite list_lookup_imap in Hj.
  destruct (batch !! j) eqn:E; [|done]. injection Hj as <- <-. eauto.
Qed.

Lemma elem_of_answered rs i :
  i ∈ answered rs ↔ ∃ r, (i, r) ∈ rs ∧ ∀ e, r ≠ ReplyErr e.
Proof.
  unfold answered. rewrite list_elem_of_omap. split.
  - intros ([i' r] & Hin & E). cbn in E. destruct r; [done| |]; injection E as <-; eexists; by split.
  - intros (r & Hin & Hne). exists (i, r). split; [done|]. destruct r; [by destruct (Hne e)|done|done].
Qed.

(** Storing answers keeps the values there and adds the new ones. *)
Lemma storeReplies_lookup rs vs i k :
  requestsKeys !! i = Some k → (∀ v, (i, ReplyVal v) ∈ rs → v = value k) → (i < length vs)%nat →
  vs !! i = Some (value k) ∨ (∃ v, (i, ReplyVal v) ∈ rs) →
  storeReplies vs rs !! i = Some (value k).
Proof.
  intros Hk. revert vs. induction rs as [|[i' r] rs IH]; intros vs Hv Hi Ho; cbn [storeReplies].
  { destruct Ho as [?|[v Hin]]; [done|set_solver]. }
  assert (Hv' : ∀ v, (i, ReplyVal v) ∈ rs → v = value k) by (intros; apply Hv; set_solver).
  destruct r as [e|v|].
  - apply IH; [done..|]. destruct Ho as [?|[v Hin]]; [by left|right]. exists v. set_solver.
  - destruct (decide (i' = i)) as [->|Hne].
    + assert (v = value k) as -> by (apply Hv; set_solver).
      apply IH; [done|by rewrite length_insert|]. left. by rewrite list_lookup_insert_eq.
    + apply IH; [done|by rewrite length_insert|]. rewrite list_lookup_insert_ne by done.
      destruct Ho as [?|[v' Hin]]; [by left|right]. exists v'. set_solver.
  - apply IH; [done..|]. destruct Ho as [?|[v Hin]]; [by left|right]. exists v. set_solver.
Qed.

Lemma length_storeReplies rs vs : length (storeReplies vs rs) = length vs.
Proof.
  revert vs. induction rs as [|[i [e|v|]] rs IH]; intros vs; cbn [storeReplies]; [done|apply IH| |apply IH].
  by rewrite IH, length_insert.
Qed.

Lemma batchKeys_lookup batch (j i : nat) :
  Forall (λ i, (i < length requestsKeys)%nat) batch → batch !! j = Some i →
  batchKeys batch !! j = requestsKeys !! i.
Proof.
  intros Hb Hj. unfold batchKeys. rewrite list_lookup_omap_all, Hj; [done|].
  eapply Forall_impl; [done|]. intros x Hx. by apply lookup_lt_is_Some.
Qed.

Lemma fetched_store batch f vs done :
  Forall (λ i, (i < length requestsKeys)%nat) batch → length vs = length requestsKeys →
  (∀ (j : nat) k, batchKeys batch !! j = Some k →
     match f j with ReplyErr _ => True | ReplyVal v => v = value k | ReplyNull => False end) →
  fetched vs done →
  fetched (storeReplies vs (batchReplies batch f)) (done ++ answered (batchReplies batch f)).
Proof.
  intros Hb Hl Hh Hf i k Hk Hin.
  assert (Hans : ∀ r, (i, r) ∈ batchReplies batch f →
    match r with ReplyErr _ => True | ReplyVal v => v = value k | ReplyNull => False end).
  { intros r (j & Hj & ->)%elem_of_batchReplies. apply Hh. by rewrite (batchKeys_lookup _ _ i). }
  apply storeReplies_lookup; [done| | |].
  - intros v Hv. apply (Hans _ Hv).
  - rewrite Hl. by eapply lookup_lt_Some.
  - apply elem_of_app in Hin as [Hin|(r & Hr & Hne)%elem_of_answered]; [left; by apply Hf|right].
    specialize (Hans _ Hr). destruct r as [e|v|]; [by destruct (Hne e)|by exists v|done].
Qed.

(** The RPC of a call without failures. *)
Definition reliable : Prop := ∀ w ks w' r,
  getBatch w ks = (w', r) → ∃ g, r = Ok g ∧ ∀ j, (j < length ks)%nat → ∃ v, g j = ReplyVal v.

Lemma answered_all batch f :
  (∀ j, (j < length batch)%nat → ∃ v, f j = ReplyVal v) → answered (batchReplies batch f) = batch.
Proof.
  unfold answered, batchReplies. revert f. induction batch as [|i batch IH]; intros f Hf; [done|].
  cbn. destruct (Hf 0%nat ltac:(cbn; lia)) as [v ->]. cbn. f_equal. apply (IH (f ∘ S)).
  intros j Hj. apply Hf. cbn. lia.
Qed.

(** What a call of [Fetch] leaves behind: more requests done, and their number when the
    RPC does not fail. *)
Definition fetch_post (done : list nat) (room : nat) (x : W * IterativeBatchCall * outcome) : Prop :=
  ∃ w' ibc' r more, x = (w', ibc', Returned r) ∧ ibc_inv (done ++ more) ibc' ∧
    (∀ msg, r ≠ Panic msg) ∧ (r = Err io_EOF → ibc_scheduled ibc' = []) ∧
    (reliable → length more = room).

Lemma requeue_ok w ibc done batch rest err :
  ibc_inv done ibc → ibc_scheduled ibc = batch ++ rest → batch ≠ [] → err ≠ io_EOF →
  ∃ ibc', requeue w (set_scheduled rest ibc) batch err = (w, ibc', Returned (Err err)) ∧
    ibc_inv done ibc'.
Proof.
  intros (Hperm & Hcomp & Hcl & Hvs & Hf & Hres) Hq Hb He. rewrite Hq in *.
  assert (Hne : batch ++ rest ≠ []) by (by destruct batch).
  rewrite bool_decide_eq_false_2 in Hcl by done.
  unfold requeue. rewrite sendAll_ok by done. eexists. split; [done|].
  unfold ibc_inv. cbn. rewrite Hcl. split_and!; try done.
  - rewrite <- Hperm. f_equiv. apply Permutation_app_comm.
  - rewrite bool_decide_eq_false_2; [done|]. intros E. apply app_eq_nil in E as [_ ->]. done.
Qed.

Lemma callBatch_ok w ibc done batch rest :
  honest → len requestsKeys < 2 ^ 32 → ibc_inv done ibc →
  ibc_scheduled ibc = batch ++ rest → batch ≠ [] →
  fetch_post done (length batch) (callBatch w (set_scheduled rest ibc) batch).
Proof.
  intros Hh Hn Hinv Hq Hb. pose proof Hinv as (Hperm & Hcomp & Hcl & Hvs & Hf & Hres).
  rewrite Hq in *. rewrite bool_decide_eq_false_2 in Hcl by (by destruct batch).
  unfold callBatch. destruct (getBatch w (batchKeys batch)) as [w' r] eqn:Eg.
  pose proof (Hh _ _ _ _ Eg) as Hg.
  assert (Hrange : Forall (λ i, (i < length requestsKeys)%nat) batch).
  { apply Forall_forall. intros i Hi. assert (i ∈ seq 0 (length requestsKeys)) as Hs%elem_of_seq by
      (rewrite <- Hperm; set_solver). lia. }
  destruct r as [f|e|m]; [|destruct (requeue_ok w' ibc done batch rest (Errorf "failed batch-retrieval" e))
    as (ibc' & E & Hi); [done..|]; exists w', ibc', (Err (Errorf "failed batch-retrieval" e)), []; rewrite app_nil_r;
    split_and!; try done; intros Hr; by destruct (Hr _ _ _ _ Eg) as (? & ? & _)|done].
  assert (Hlt : (length done < length requestsKeys)%nat).
  { apply Permutation_length in Hperm. rewrite !length_app, length_seq in Hperm.
    destruct batch; [done|]. cbn [length] in Hperm. lia. }
  destruct (processBatch_ok (batchReplies batch f)
    (set_values (storeReplies (ibc_requestsValues ibc) (batchReplies batch f)) (set_scheduled rest ibc)) done None)
    as (ibc' & r & E & Hi & Hp & He); try done; cbn.
  - rewrite batchReplies_fst, <- Hperm. f_equiv. apply Permutation_app_comm.
  - by rewrite length_storeReplies.
  - by apply fetched_store.
  - rewrite E. exists w', ibc', r, (answered (batchReplies batch f)). split_and!; try done.
    + by intros ?%He.
    + intros Hr. destruct (Hr _ _ _ _ Eg) as (g & [= <-] & Hall). rewrite answered_all; [done|].
      intros j Hj. apply Hall. unfold batchKeys. rewrite length_omap_all; [done|].
      eapply Forall_impl; [done|]. intros x Hx. by apply lookup_lt_is_Some.
Qed.

Lemma Fetch_ok batchSize cancel w ibc done :
  honest → len requestsKeys < 2 ^ 32 → 1 <= batchSize → ibc_inv done ibc →
  ∃ room, fetch_post done room (Fetch batchSize cancel w ibc) ∧
    (cancel = None → room = Nat.min (Z.to_nat batchSize) (length (ibc_scheduled ibc))).
Proof.
  intros Hh Hn Hbs Hinv. pose proof Hinv as (_ & _ & Hcl & _).
  assert (Hstay : ∀ r, (∀ msg, r ≠ Panic msg) → (r = Err io_EOF → ibc_scheduled ibc = []) →
    fetch_post done 0 (w, ibc, Returned r)).
  { intros r Hp He. exists w, ibc, r, []. by rewrite app_nil_r. }
  unfold Fetch. set (n := match cancel with
    | Some c => Nat.min c (Z.to_nat batchSize) | None => Z.to_nat batchSize end).
  set (ctxErr := ErrorNew "context canceled").
  assert (Hcase : (∃ c, cancel = Some (S c)) ∨ cancel = None ∨ cancel = Some 0%nat)
    by (destruct cancel as [[|c]|]; eauto).
  destruct (ibc_scheduled ibc) as [|i0 q0] eqn:Eq.
  { exists 0%nat. rewrite Hcl. cbn [bool_decide decide_rel length]. rewrite Nat.min_0_r.
    split; [|done]. destruct cancel as [[|c]|]; by apply Hstay. }
  rewrite bool_decide_eq_false_2 in Hcl by done.
  destruct (decide (cancel = Some 0%nat)) as [->|Hc0].
  { exists 0%nat. split; [|done]. by apply Hstay. }
  assert (Hn0 : (0 < n ≤ Z.to_nat batchSize)%nat) by (subst n; destruct cancel as [[|c]|]; [done|lia|lia]).
  rewrite <- Eq. set (batch := take n (ibc_scheduled ibc)). set (rest := drop n (ibc_scheduled ibc)).
  assert (Hq : ibc_scheduled ibc = batch ++ rest) by (unfold batch, rest; by rewrite take_drop).
  assert (Hb : batch ≠ []) by (unfold batch; rewrite Eq; destruct n; [lia|done]).
  assert (Hlen : length batch = Nat.min n (length (ibc_scheduled ibc))) by apply length_take.
  assert (Hgo : ∃ room, fetch_post done room
    (if (length batch <? Z.to_nat batchSize)%nat then
       if negb (bool_decide (cancel = None)) then requeue w (set_scheduled rest ibc) batch ctxErr
       else if ibc_closed ibc then (w, set_scheduled rest ibc, Returned (Err io_EOF))
       else callBatch w (set_scheduled rest ibc) batch
     else callBatch w (set_scheduled rest ibc) batch) ∧
    (cancel = None → room = Nat.min (Z.to_nat batchSize) (length (ibc_scheduled ibc)))).
  { rewrite Hcl. pose proof (callBatch_ok w ibc done batch rest Hh Hn Hinv Hq Hb) as Hcall.
    assert (Hroom : cancel = None → length batch = Nat.min (Z.to_nat batchSize) (length (ibc_scheduled ibc)))
      by (intros ->; done).
    destruct (_ <? _)%nat; [|by eexists]. case_bool_decide as Hcan; cbn [negb]; [by eexists|].
    destruct (requeue_ok w ibc done batch rest ctxErr) as (ibc' & -> & Hi); [done..|].
    exists 0%nat. split; [|done]. exists w, ibc', (Err ctxErr), []. by rewrite app_nil_r. }
  destruct cancel as [[|c]|]; [done| |]; rewrite Eq in Hgo |- *; exact Hgo.
Qed.

(** A sequence of [Fetch] calls by one caller. *)
Fixpoint fetchAll (batchSize : Z) (calls : list (option nat)) (w : W) (ibc : IterativeBatchCall)
  : IterativeBatchCall * list outcome :=
  match calls with
  | [] => (ibc, [])
  | c :: calls =>
      let '(w, ibc, o) := Fetch batchSize c w ibc in
      let '(ibc, os) := fetchAll batchSize calls w ibc in (ibc, o :: os)
  end.

Lemma ibc_inv_length done ibc :
  ibc_inv done ibc → (length done + length (ibc_scheduled ibc) = length requestsKeys)%nat.
Proof.
  intros (Hperm & _). apply Permutation_length in Hperm. by rewrite length_app, length_seq in Hperm.
Qed.

Lemma fetchAll_ok batchSize calls w ibc done :
  honest → len requestsKeys < 2 ^ 32 → 1 <= batchSize → ibc_inv done ibc →
  ∃ more, ibc_inv (done ++ more) (fst (fetchAll batchSize calls w ibc)) ∧
    Forall (λ o, ∃ r, o = Returned r ∧ ∀ msg, r ≠ Panic msg) (snd (fetchAll batchSize calls w ibc)) ∧
    (reliable → Forall (λ c, c = None) calls →
       length more = Nat.min (length calls * Z.to_nat batchSize) (length (ibc_scheduled ibc))).
Proof.
  intros Hh Hn Hbs. revert w ibc done. induction calls as [|c calls IH]; intros w ibc done Hinv.
  { exists []. rewrite app_nil_r. by split_and!. }
  cbn [fetchAll]. destruct (Fetch_ok batchSize c w ibc done Hh Hn Hbs Hinv)
    as (room & (w' & ibc' & r & more & -> & Hi & Hp & _ & Hrel) & Hroom).
  destruct (IH w' ibc' _ Hi) as (more' & Hi' & Hp' & Hrel').
  destruct (fetchAll batchSize calls w' ibc') as [ibc'' os]. exists (more ++ more').
  rewrite app_assoc. split_and!; [done|constructor; eauto|].
  intros Hr [-> Hc]%Forall_cons. rewrite length_app, (Hrel Hr), (Hrel' Hr Hc), Hroom by done.
  pose proof (ibc_inv_length _ _ Hinv) as L1. pose proof (ibc_inv_length _ _ Hi) as L2.
  rewrite length_app, (Hrel Hr), Hroom in L2 by done. cbn [length]. lia.
Qed.

(** All values are there when everything is done. *)
Lemma inv_complete done ibc :
  len requestsKeys < 2 ^ 32 → ibc_inv done ibc →
  (Complete ibc = true ↔ ibc_scheduled ibc = []) ∧
  (Complete ibc = true → ibc_requestsValues ibc = value <$> requestsKeys).
Proof.
  intros Hn Hinv. pose proof (ibc_inv_length _ _ Hinv) as Hl.
  destruct Hinv as (Hperm & Hcomp & Hcl & Hvs & Hf & Hres).
  assert (Hc : Complete ibc = true ↔ ibc_scheduled ibc = []).
  { unfold Complete. rewrite u32_small by (split; [apply len_nonneg|done]).
    rewrite Z.leb_le, Hcomp. unfold len. split.
    - intros Hle. destruct (ibc_scheduled ibc); [done|]. cbn [length] in Hl. lia.
    - intros E. rewrite E in Hl. cbn in Hl. lia. }
  split; [done|]. intros E%Hc. rewrite E, app_nil_r in Hperm.
  apply list_eq_same_length with (length requestsKeys); [by rewrite length_fmap|done|].
  intros i x y Hi Hx Hy. rewrite list_lookup_fmap in Hy.
  destruct (requestsKeys !! i) as [k|] eqn:Ek; [|done]. injection Hy as <-.
  rewrite (Hf i k Ek) in Hx; [by injection Hx|]. rewrite Hperm. apply elem_of_seq. lia.
Qed.

(** A batch of one, answered when the counter has reached the number of requests. *)
Lemma Fetch_last w w' ibc i q g :
  ibc_scheduled ibc = i :: q → getBatch w (batchKeys [i]) = (w', Ok g) →
  (∀ e, g 0%nat ≠ ReplyErr e) →
  u32 (len requestsKeys) <= u32 (ibc_completed ibc + 1) →
  ∃ vs, Fetch 1 None w ibc =
    (w', mkIBC (u32 (ibc_completed ibc + 1)) vs q true (ibc_results ibc),
     Returned (if ibc_closed ibc then Panic "close of closed channel" else Err io_EOF)).
Proof.
  intros Hq G A Hc. unfold Fetch. rewrite Hq. change (Z.to_nat 1) with 1%nat.
  change (take 1 (i :: q)) with [i]. change (drop 1 (i :: q)) with q.
  cbn [length Nat.ltb Nat.leb]. unfold callBatch. rewrite G. unfold batchReplies.
  cbn [imap]. destruct (g 0%nat) as [e|v|]; [by destruct (A e)| |]; eexists;
    cbn [processBatch ibc_completed set_values set_scheduled];
    rewrite (proj2 (Z.leb_le _ _)) by done; cbn; destruct (ibc_closed ibc); reflexivity.
Qed.

(** ** Theorems: one caller *)

(** Any sequence of [Fetch] calls on a new batch call returns without panic and
    without blocking, whatever requests or batches the RPC fails and wherever contexts
    expire; once the call is complete, [Result] checks exactly the values of all keys,
    in the order of the keys.  With an RPC that does not fail, enough calls for the
    batch size complete it. *)
Theorem batch_call_correct batchSize calls w :
  honest → len requestsKeys < 2 ^ 32 →
  let bs := clampBatchSize batchSize in
  let ibc := fst (fetchAll bs calls w NewIterativeBatchCall) in
  Forall (λ o, ∃ r, o = Returned r ∧ ∀ msg, r ≠ Panic msg)
    (snd (fetchAll bs calls w NewIterativeBatchCall)) ∧
  (Complete ibc = true → snd (Result ibc) = makeResults requestsKeys (value <$> requestsKeys)) ∧
  (reliable → Forall (λ c, c = None) calls → len requestsKeys <= len calls * bs →
     Complete ibc = true).
Proof.
  intros Hh Hn bs ibc. assert (Hbs : 1 <= bs) by (unfold bs, clampBatchSize; do 2 case_match; bool_props; lia).
  destruct (fetchAll_ok bs calls w _ _ Hh Hn Hbs New_inv) as (more & Hi & Hp & Hrel).
  fold ibc in Hi. cbn [app] in Hi. destruct (inv_complete _ _ Hn Hi) as [Hcomp Hvals]. split_and!; [done| |].
  - intros Hc. unfold Result. assert ((ibc_completed ibc <? u32 (len requestsKeys)) = false) as ->.
    { unfold Complete in Hc. bool_props. by apply Z.ltb_ge. }
    destruct Hi as (_ & _ & _ & _ & _ & ->). rewrite Hvals by done. by destruct (makeResults _ _).
  - intros Hr Hc Hle. apply Hcomp. pose proof (ibc_inv_length _ _ Hi) as Hl. specialize (Hrel Hr Hc).
    unfold NewIterativeBatchCall, Reset in Hrel. cbn in Hrel. rewrite length_seq in Hrel.
    assert (length more = length requestsKeys) by (unfold len in *; nia).
    destruct (ibc_scheduled ibc); [done|]. cbn [length] in Hl. lia.
Qed.

(** A failed check of the results resets the call without its counter: the call
    still counts as complete although every request is scheduled again, the next [Fetch]
    ends with [io.EOF] after its first answer, and with more requests left the one
    after that panics by closing the channel twice. *)
Theorem failed_result_breaks_reset w1 w2 w3 ibc done g1 g2 e :
  len requestsKeys + 2 < 2 ^ 32 → (2 ≤ length requestsKeys)%nat →
  ibc_inv done ibc → Complete ibc = true →
  makeResults requestsKeys (ibc_requestsValues ibc) = Err e →
  getBatch w1 (batchKeys [0%nat]) = (w2, Ok g1) → (∀ e, g1 0%nat ≠ ReplyErr e) →
  getBatch w2 (batchKeys [1%nat]) = (w3, Ok g2) → (∀ e, g2 0%nat ≠ ReplyErr e) →
  let ibc1 := fst (Result ibc) in
  Complete ibc1 = true ∧ ibc_scheduled ibc1 = seq 0 (length requestsKeys) ∧
  ibc_requestsValues ibc1 = makeRequest <$> requestsKeys ∧
  ∃ ibc2 ibc3, Fetch 1 None w1 ibc1 = (w2, ibc2, Returned (Err io_EOF)) ∧
    Fetch 1 None w2 ibc2 = (w3, ibc3, Returned (Panic "close of closed channel")).
Proof.
  intros Hn Hlen Hinv Hc HM G1 A1 G2 A2. pose proof (len_nonneg requestsKeys) as H0.
  destruct (inv_complete _ _ ltac:(lia) Hinv) as [Hsch _]. pose proof (ibc_inv_length _ _ Hinv) as Hl.
  rewrite (proj1 Hsch Hc) in Hl. destruct Hinv as (_ & Hcomp & _ & _ & _ & Hres).
  assert (Hcn : ibc_completed ibc = len requestsKeys) by (rewrite Hcomp; unfold len; cbn in Hl; lia).
  unfold Result. rewrite Hcn, u32_small, Z.ltb_irrefl, Hres, HM by (split; lia). cbn [fst]. split_and!.
  - unfold Complete. cbn. rewrite Hcn, u32_small by (split; lia). apply Z.leb_refl.
  - done.
  - done.
  - destruct (length requestsKeys) as [|[|m]] eqn:Em; [lia..|].
    assert (Hu : ∀ z, 0 <= z <= len requestsKeys + 2 → u32 z = z) by (intros; apply u32_small; split; lia).
    unfold Reset. rewrite Em, Hcn. cbn [seq]. rewrite bool_decide_eq_false_2 by done.
    edestruct (Fetch_last w1 w2 (mkIBC (len requestsKeys) (makeRequest <$> requestsKeys)
      (0%nat :: 1%nat :: seq 2 m) false (ibc_results ibc))) as [vs1 E1]; [reflexivity|exact G1|exact A1|cbn; rewrite !Hu by lia; lia|].
    cbn [ibc_closed ibc_completed ibc_results] in E1.
    edestruct (Fetch_last w2 w3 (mkIBC (u32 (len requestsKeys + 1)) vs1 (1%nat :: seq 2 m) true
      (ibc_results ibc))) as [vs2 E2]; [reflexivity|exact G2|exact A2
      |cbn; rewrite (Hu (len requestsKeys + 1)), !Hu by lia; lia|].
    eexists _, _. split; [exact E1|exact E2].
Qed.
End BatchCall.

(** ** Concurrent callers *)

(** One goroutine that uses the call, by the point it has reached.  Outside of any
    operation; in [Fetch], with the read lock: before the first receive, collecting,
    about to call the RPC, putting a batch back, in the loop over the answered batch
    (whether each request succeeded), between the atomic increment and the atomic load of
    the counter; in [Result]: checking the values with the read lock, waiting for the
    write lock to cache the result, or to start over with [Reset]; and the two panics of
    [Fetch]. *)
Inductive thread :=
| TIdle
| TStart
| TCollect (batch : list nat)
| TCall (batch : list nat)
| TRequeue (batch : list nat)
| TProcess (rs : list (nat * bool))
| TAdded (rs : list (nat * bool))
| TResult
| TCache
| TReset
| TPanicSend
| TPanicClose.

(** The shared state: the counter, the channel and whether it is closed, whether a result
    is cached.  Two histories are kept beside it: the requests counted since the last
    [Reset], and whether a [Reset] ever found a counter that was not zero. *)
Record shared_call := mkCall {
  c_completed : Z; c_scheduled : list nat; c_closed : bool; c_results : bool;
  c_done : list nat; c_stale : bool }.

Definition set_queue (q : list nat) (c : shared_call) : shared_call :=
  mkCall (c_completed c) q (c_closed c) (c_results c) (c_done c) (c_stale c).
Definition count (i : nat) (c : shared_call) : shared_call :=
  mkCall (u32 (c_completed c + 1)) (c_scheduled c) (c_closed c) (c_results c) (c_done c ++ [i]) (c_stale c).
Definition close_queue (c : shared_call) : shared_call :=
  mkCall (c_completed c) (c_scheduled c) true (c_results c) (c_done c) (c_stale c).
Definition cache_result (c : shared_call) : shared_call :=
  mkCall (c_completed c) (c_scheduled c) (c_closed c) true (c_done c) (c_stale c).

Record fetchers := mkFetchers { f_call : shared_call; f_threads : list thread }.

Section Concurrent.
Context (n : nat) (batchSize : nat).

(** [Reset]: a new channel with all requests; the counter stays. *)
Definition restart (c : shared_call) : shared_call :=
  mkCall (c_completed c) (seq 0 n) (bool_decide (n = 0%nat)) (c_results c) []
    (c_stale c || negb (c_completed c =? 0)).

(** The goroutines that hold the read lock. *)
Definition reading (t : thread) : bool :=
  match t with TIdle | TCache | TReset | TPanicSend | TPanicClose => false | _ => true end.

(** The steps of one goroutine on the shared state; [free] says that no goroutine holds
    the read lock, so that the write lock can be taken.  Whether a context is done, the
    RPC answers and [makeResults] accepts the values is left open. *)
Inductive thread_step (free : bool) : shared_call → thread → shared_call → thread → Prop :=
(* Fetch *)
| st_fetch c : thread_step free c TIdle c TStart
| st_first c i q : c_scheduled c = i :: q → thread_step free c TStart (set_queue q c) (TCollect [i])
| st_first_canceled c : thread_step free c TStart c TIdle
| st_first_closed c : c_scheduled c = [] → c_closed c = true → thread_step free c TStart c TIdle
| st_more c i q b :
    (length b < batchSize)%nat → c_scheduled c = i :: q →
    thread_step free c (TCollect b) (set_queue q c) (TCollect (b ++ [i]))
| st_more_closed c b :
    (length b < batchSize)%nat → c_scheduled c = [] → c_closed c = true →
    thread_step free c (TCollect b) c TIdle
| st_canceled c b : (length b < batchSize)%nat → thread_step free c (TCollect b) c (TRequeue b)
| st_full c b : (batchSize ≤ length b)%nat → thread_step free c (TCollect b) c (TCall b)
| st_default c b :
    (length b < batchSize)%nat → c_scheduled c = [] → c_closed c = false →
    thread_step free c (TCollect b) c (TCall b)
| st_failed c b : thread_step free c (TCall b) c (TRequeue b)
| st_answered c b oks :
    length oks = length b → thread_step free c (TCall b) c (TProcess (zip b oks))
| st_put c i b :
    c_closed c = false →
    thread_step free c (TRequeue (i :: b)) (set_queue (c_scheduled c ++ [i]) c) (TRequeue b)
| st_put_closed c i b : c_closed c = true → thread_step free c (TRequeue (i :: b)) c TPanicSend
| st_requeued c : thread_step free c (TRequeue []) c TIdle
| st_retry c i rs :
    c_closed c = false →
    thread_step free c (TProcess ((i, false) :: rs)) (set_queue (c_scheduled c ++ [i]) c) (TProcess rs)
| st_retry_closed c i rs :
    c_closed c = true → thread_step free c (TProcess ((i, false) :: rs)) c TPanicSend
| st_add c i rs : thread_step free c (TProcess ((i, true) :: rs)) (count i c) (TAdded rs)
| st_not_yet c rs :
    c_completed c < u32 (Z.of_nat n) → thread_step free c (TAdded rs) c (TProcess rs)
| st_close c rs :
    u32 (Z.of_nat n) <= c_completed c → c_closed c = false →
    thread_step free c (TAdded rs) (close_queue c) TIdle
| st_close_closed c rs :
    u32 (Z.of_nat n) <= c_completed c → c_closed c = true →
    thread_step free c (TAdded rs) c TPanicClose
| st_processed c : thread_step free c (TProcess []) c TIdle
(* Result; without enough values, or with a cached result, it only reads *)
| st_result c :
    u32 (Z.of_nat n) <= c_completed c → c_results c = false → thread_step free c TIdle c TResult
| st_accepted c : thread_step free c TResult c TCache
| st_cached c : free = true → thread_step free c TCache (cache_result c) TIdle
| st_rejected c : thread_step free c TResult c TReset
| st_restarted c : free = true → thread_step free c TReset (restart c) TIdle
(* Reset *)
| st_reset c : free = true → thread_step free c TIdle (restart c) TIdle.

Inductive fetchers_step : fetchers → fetchers → Prop :=
| fstep c ts k t c' t' :
    ts !! k = Some t → thread_step (forallb (λ t, negb (reading t)) ts) c t c' t' →
    fetchers_step (mkFetchers c ts) (mkFetchers c' (<[k := t']> ts)).

(** A new batch call with the given number of users. *)
Definition fetchers_init (callers : nat) : fetchers :=
  mkFetchers (restart (mkCall 0 [] false false [] false)) (replicate callers TIdle).

(** The requests a goroutine holds. *)
Definition held (t : thread) : list nat :=
  match t with
  | TCollect b | TCall b | TRequeue b => b
  | TProcess rs | TAdded rs => rs.*1
  | _ => []
  end.

(** The requests counted since the last [Reset], waiting in the channel or held. *)
Definition accounted (c : shared_call) (ts : list thread) : list nat :=
  c_done c ++ c_scheduled c ++ concat (held <$> ts).

(** A goroutine never calls the RPC for nothing, and none has sent to a closed channel. *)
Definition thread_ok (t : thread) : Prop :=
  match t with TCollect b | TCall b => b ≠ [] | TPanicSend => False | _ => True end.

(** What holds until a [Reset] finds requests counted: the counter is right, nothing is
    lost, and the channel is closed only with every request counted. *)
Definition sound (c : shared_call) (ts : list thread) : Prop :=
  c_completed c = Z.of_nat (length (c_done c)) ∧
  accounted c ts ≡ₚ seq 0 n ∧
  (c_closed c = true → length (c_done c) = n) ∧
  Forall thread_ok ts.

Definition fetchers_inv (s : fetchers) : Prop :=
  accounted (f_call s) (f_threads s) ⊆+ seq 0 n ∧
  (c_stale (f_call s) = false → sound (f_call s) (f_threads s)).

Lemma held_insert ts (k : nat) t t' :
  ts !! k = Some t →
  ∃ others, concat (held <$> ts) ≡ₚ held t ++ others ∧
            concat (held <$> <[k := t']> ts) ≡ₚ held t' ++ others.
Proof.
  intros Hk. exists (concat (held <$> (take k ts ++ drop (S k) ts))).
  pose proof (lookup_lt_Some _ _ _ Hk) as Hlt. split.
  - rewrite <- (take_drop_middle ts k t Hk) at 1. rewrite !fmap_app, !concat_app. cbn.
    rewrite !app_assoc. f_equiv. apply Permutation_app_comm.
  - rewrite insert_take_drop by done. rewrite !fmap_app, !concat_app. cbn.
    rewrite !app_assoc. f_equiv. apply Permutation_app_comm.
Qed.

(** Under the write lock no goroutine holds a request. *)
Lemma free_nothing_held ts : forallb (λ t, negb (reading t)) ts = true → concat (held <$> ts) = [].
Proof.
  intros Hf. rewrite forallb_forall in Hf.
  assert (HF : Forall (λ t, held t = []) ts).
  { apply Forall_forall. intros t Ht%list_elem_of_In%Hf. by destruct t. }
  clear Hf. induction HF as [|t ts Ht _ IH]; [done|]. cbn. by rewrite Ht, IH.
Qed.

(** A step other than [Reset] loses requests at most. *)
Lemma thread_step_accounted free c t c' t' others :
  thread_step free c t c' t' →
  (free = true ∧ c' = restart c ∧ t' = TIdle) ∨
  c_done c' ++ c_scheduled c' ++ held t' ++ others ⊆+ c_done c ++ c_scheduled c ++ held t ++ others.
Proof.
  intros Hst. destruct Hst; auto; right; cbn [held set_queue count close_queue cache_result c_done c_scheduled] in *;
    repeat match goal with Hq : c_scheduled ?c = _ |- _ => rewrite Hq; clear Hq end; try done;
    try (apply Permutation_submseteq; cbn [fmap list_fmap fst]; solve_Permutation);
    try (do 2 apply submseteq_skips_l; apply submseteq_inserts_l; done).
  rewrite fst_zip by lia. done.
Qed.

Lemma accounted_insert c c' ts (k : nat) t t' :
  ts !! k = Some t →
  ∃ others, accounted c ts ≡ₚ c_done c ++ c_scheduled c ++ held t ++ others ∧
            accounted c' (<[k := t']> ts) ≡ₚ c_done c' ++ c_scheduled c' ++ held t' ++ others ∧
            (forallb (λ t, negb (reading t)) ts = true → others = []).
Proof.
  intros Hk. destruct (held_insert ts k t t' Hk) as (others & E1 & E2). exists others.
  unfold accounted. rewrite E1, E2. split_and!; [done..|]. intros Hf. rewrite free_nothing_held in E1 by done.
  by apply Permutation_nil_l, eq_sym, app_nil in E1 as [_ ?].
Qed.

Lemma restart_sound c ts others :
  c_stale (restart c) = false → c_completed c = Z.of_nat (length (c_done c)) → others = [] →
  accounted (restart c) ts ≡ₚ c_done (restart c) ++ c_scheduled (restart c) ++ others →
  Forall thread_ok ts → sound (restart c) ts.
Proof.
  intros [_ Hz]%orb_false_iff Hcount -> E Hts. bool_props. unfold sound. rewrite E. cbn. rewrite app_nil_r.
  split_and!; [lia|done| |done]. intros Hc. by bool_props.
Qed.

Lemma thread_step_sound c ts (k : nat) t c' t' :
  Z.of_nat n < 2 ^ 32 → ts !! k = Some t → thread_step (forallb (λ t, negb (reading t)) ts) c t c' t' →
  c_stale c' = false → (c_stale c = false → sound c ts) → sound c' (<[k := t']> ts).
Proof.
  intros Hn Hk Hst Hs' Hsnd.
  assert (Hs : c_stale c = false).
  { destruct Hst; try done; cbn in Hs'; by apply orb_false_iff in Hs' as [? _]. }
  destruct (Hsnd Hs) as (Hcount & Hperm & Hcl & Hts). clear Hsnd.
  destruct (accounted_insert c c' ts k t t' Hk) as (others & E1 & E2 & Hfree).
  rewrite E1 in Hperm.
  pose proof (Permutation_length Hperm) as Hl. rewrite !length_app, length_seq in Hl.
  assert (Hu : u32 (Z.of_nat n) = Z.of_nat n) by (apply u32_small; unfold is_u32; lia).
  assert (Hpre : thread_ok t) by (rewrite Forall_lookup in Hts; by apply (Hts k)).
  assert (Hins : thread_ok t' → Forall thread_ok (<[k := t']> ts)) by (intros; by apply Forall_insert).
  (* nothing is held when the channel is closed, or when every request is counted *)
  assert (Hno : (n ≤ length (c_done c))%nat → held t = []) by (intros; apply nil_length_inv; lia).
  assert (Hcl' : c_closed c = true → held t = []) by (intros Hc; specialize (Hcl Hc); apply Hno; lia).
  destruct Hst; cbn [held set_queue count close_queue cache_result thread_ok
      c_done c_scheduled c_completed c_closed c_stale app] in *; rewrite ?Hu in *;
    try (eapply restart_sound; [done|done|by apply Hfree|done|by apply Hins]);
    repeat match goal with Hq : c_scheduled ?c = _ |- _ => rewrite Hq in * end;
    unfold sound; rewrite E2;
    (split; [|split; [|split]]); try done; try (apply Hins; done);
    try (rewrite <- Hperm; cbn [fmap list_fmap fst]; solve_Permutation);
    try (exfalso; specialize (Hcl' ltac:(done)); done).
  - apply Hins. by destruct b.
  - by rewrite fst_zip by lia.
  - cbn. rewrite Hcount, length_app. cbn [length fmap list_fmap] in *. rewrite u32_small by (unfold is_u32; lia). lia.
  - intros Hc. by specialize (Hcl' Hc).
  - rewrite Hno in Hperm by lia. done.
  - intros _. cbn [length] in Hl. cbn. lia.
  - rewrite Hno in Hperm by lia. done.
Qed.

Lemma fetchers_step_inv s s' :
  Z.of_nat n < 2 ^ 32 → fetchers_inv s → fetchers_step s s' → fetchers_inv s'.
Proof.
  intros Hn [Hsub Hsnd] Hstep. destruct Hstep as [c ts k t c' t' Hk Hst]. cbn [f_call f_threads] in *.
  split; cbn [f_call f_threads]; [|intros Hs'; by eapply thread_step_sound].
  destruct (accounted_insert c c' ts k t t' Hk) as (others & E1 & E2 & Hfree). rewrite E2. rewrite E1 in Hsub.
  destruct (thread_step_accounted _ _ _ _ _ others Hst) as [(Hf & -> & ->)|Hle]; [|by etrans].
  rewrite (Hfree Hf). cbn. by rewrite app_nil_r.
Qed.

Inductive fetchers_reachable (callers : nat) : fetchers → Prop :=
| freach_init : fetchers_reachable callers (fetchers_init callers)
| freach_step s s' : fetchers_reachable callers s → fetchers_step s s' → fetchers_reachable callers s'.

Lemma fetchers_reachable_inv callers s :
  Z.of_nat n < 2 ^ 32 → fetchers_reachable callers s → fetchers_inv s.
Proof.
  intros Hn. induction 1 as [|s s' _ IH Hstep]; [|by eapply fetchers_step_inv].
  assert (Hh : concat (held <$> replicate callers TIdle) = []) by (by induction callers).
  assert (Ha : accounted (f_call (fetchers_init callers)) (f_threads (fetchers_init callers)) = seq 0 n)
    by (unfold accounted; cbn; by rewrite Hh, app_nil_r).
  unfold fetchers_inv, sound. rewrite Ha. split; [done|]. intros _. split_and!; [done|done| |by apply Forall_replicate].
  cbn. intros Hz. by bool_props.
Qed.

(** C36. Goroutines that call [Fetch], [Result] and [Reset] of one batch call (of fewer
    than 2^32 requests) at the same time, interleaved in any way the lock allows: no
    request is ever counted twice since the last [Reset], nor held or scheduled beside
    that. And until a [Reset], which [Result] also runs when its check fails, finds
    requests already counted (it does not set the counter back), the counter is right,
    every request is counted, scheduled or held by exactly one goroutine, the channel is
    closed only when all are counted, and no request is sent to a closed channel. That
    two goroutines close the channel one after the other, which panics, is not excluded. *)
Theorem concurrent_fetch_safe callers s :
  Z.of_nat n < 2 ^ 32 → fetchers_reachable callers s →
  let c := f_call s in let ts := f_threads s in
  NoDup (c_done c ++ c_scheduled c ++ concat (held <$> ts)) ∧
  (c_stale c = false →
   c_completed c = len (c_done c) ∧
   c_done c ++ c_scheduled c ++ concat (held <$> ts) ≡ₚ seq 0 n ∧
   (c_closed c = true → c_done c ≡ₚ seq 0 n ∧ c_scheduled c = [] ∧ concat (held <$> ts) = []) ∧
   TPanicSend ∉ ts).
Proof.
  intros Hn [Hsub Hsnd]%fetchers_reachable_inv; [|done]. split.
  { apply submseteq_Permutation in Hsub as (l & Hl). assert (Hnd : NoDup (seq 0 n)) by apply NoDup_seq.
    rewrite Hl in Hnd. by apply NoDup_app in Hnd as [? _]. }
  intros Hs. destruct (Hsnd Hs) as (Hcount & Hperm & Hcl & Hts). unfold accounted in Hperm.
  split_and!; [done|done| |intros Hin; rewrite Forall_forall in Hts; exact (Hts _ Hin)].
  intros Hc. specialize (Hcl Hc). pose proof (Permutation_length Hperm) as Hl. rewrite !length_app, length_seq in Hl.
  assert (Hq : c_scheduled (f_call s) = []) by (apply nil_length_inv; lia).
  assert (Hh : concat (held <$> f_threads s) = []) by (apply nil_length_inv; lia).
  rewrite Hq, Hh, !app_nil_r in Hperm. done.
Qed.
End Concurrent.

(** One more step of goroutine [k] in a concrete run. *)
Ltac fetcher k H rule :=
  eapply freach_step in H;
  [|eapply (fstep _ _ _ _ k); [reflexivity|eapply rule; cbn; first [reflexivity | lia | done]]];
  cbn [list_insert insert alter list_alter app zip_with zip replicate set_queue count close_queue
    c_completed c_scheduled c_closed c_results c_done c_stale] in H.

Lemma fetchers_start n batchSize callers :
  n ≠ 0%nat →
  fetchers_reachable n batchSize callers
    (mkFetchers (mkCall 0 (seq 0 n) false false [] false) (replicate callers TIdle)).
Proof.
  intros Hn. pose proof (freach_init n batchSize callers) as H0. unfold fetchers_init, restart in H0.
  by rewrite bool_decide_eq_false_2 in H0.
Qed.

(** Two goroutines that finish the last two requests at the same time both see the
    full counter and both close the channel: the second one panics, although [Fetch] is
    documented to be safe to call concurrently. *)
Theorem concurrent_double_close :
  ∃ s, fetchers_reachable 2 1 2 s ∧ TPanicClose ∈ f_threads s.
Proof.
  pose proof (fetchers_start 2 1 2 ltac:(done)) as H0. cbn in H0.
  fetcher 0%nat H0 st_fetch. fetcher 1%nat H0 st_fetch.
  fetcher 0%nat H0 st_first. fetcher 1%nat H0 st_first.
  fetcher 0%nat H0 st_full. fetcher 1%nat H0 st_full.
  fetcher 0%nat H0 (λ n bs f c, st_answered n bs f c [0%nat] [true]).
  fetcher 1%nat H0 (λ n bs f c, st_answered n bs f c [1%nat] [true]).
  fetcher 0%nat H0 st_add. fetcher 1%nat H0 st_add.
  fetcher 0%nat H0 st_close. fetcher 1%nat H0 st_close_closed.
  eexists. split; [exact H0|]. cbn. set_solver.
Qed.

(** Once [Result] has rejected the values and started over, the counter is full from the
    start: the first goroutine that counts a request closes the channel, and the next one
    whose batch fails sends to it and panics. *)
Theorem concurrent_restart_panics :
  ∃ s, fetchers_reachable 2 1 2 s ∧ TPanicSend ∈ f_threads s.
Proof.
  pose proof (fetchers_start 2 1 2 ltac:(done)) as H0. cbn in H0.
  fetcher 0%nat H0 st_fetch. fetcher 0%nat H0 st_first. fetcher 0%nat H0 st_full.
  fetcher 0%nat H0 (λ n bs f c, st_answered n bs f c [0%nat] [true]).
  fetcher 0%nat H0 st_add. fetcher 0%nat H0 st_not_yet. fetcher 0%nat H0 st_processed.
  fetcher 0%nat H0 st_fetch. fetcher 0%nat H0 st_first. fetcher 0%nat H0 st_full.
  fetcher 0%nat H0 (λ n bs f c, st_answered n bs f c [1%nat] [true]).
  fetcher 0%nat H0 st_add. fetcher 0%nat H0 st_close.
  fetcher 0%nat H0 st_result. fetcher 0%nat H0 st_rejected. fetcher 0%nat H0 st_restarted.
  cbn in H0.
  fetcher 0%nat H0 st_fetch. fetcher 1%nat H0 st_fetch.
  fetcher 0%nat H0 st_first. fetcher 1%nat H0 st_first.
  fetcher 0%nat H0 st_full. fetcher 1%nat H0 st_full.
  fetcher 0%nat H0 (λ n bs f c, st_answered n bs f c [0%nat] [true]).
  fetcher 1%nat H0 st_failed. fetcher 0%nat H0 st_add. fetcher 0%nat H0 st_close.
  fetcher 1%nat H0 st_put_closed.
  eexists. split; [exact H0|]. cbn. set_solver.
Qed.

(** ** Witnesses *)

(** The first goroutine has counted request 0 while the second one holds request 1. *)
Lemma concurrent_fetch_safe_witness :
  ∃ s, fetchers_reachable 2 1 2 s ∧ c_done (f_call s) = [0%nat] ∧ concat (held <$> f_threads s) = [1%nat] ∧
    c_completed (f_call s) = 1 ∧ NoDup (c_done (f_call s) ++ c_scheduled (f_call s) ++ concat (held <$> f_threads s)).
Proof.
  pose proof (fetchers_start 2 1 2 ltac:(done)) as H0. cbn in H0.
  fetcher 0%nat H0 st_fetch. fetcher 1%nat H0 st_fetch.
  fetcher 0%nat H0 st_first. fetcher 1%nat H0 st_first.
  fetcher 0%nat H0 st_full. fetcher 1%nat H0 st_full.
  fetcher 0%nat H0 (λ n bs f c, st_answered n bs f c [0%nat] [true]).
  fetcher 0%nat H0 st_add.
  eexists. split; [exact H0|]. split; [reflexivity|]. split; [reflexivity|].
  destruct (concurrent_fetch_safe 2 1 2 _ ltac:(done) H0) as [Hnd Hs].
  split; [exact (proj1 (Hs eq_refl))|exact Hnd].
Defined.

(** An RPC that doubles the key, and whose first batch call fails. *)
Definition doubling_rpc (w : nat) (ks : list Z) : nat * result (nat → reply Z) :=
  (S w, match w with
        | O => Err (ErrorNew "connection refused")
        | _ => Ok (λ j, match ks !! j with Some k => ReplyVal (2 * k) | None => ReplyErr io_EOF end)
        end).

Definition sum_results (ks vs : list Z) : result Z :=
  if bool_decide (vs = (λ k, 2 * k) <$> ks) then Ok (foldr Z.add 0 vs) else Err (ErrorNew "bad values").

Lemma doubling_honest : honest doubling_rpc (λ k, 2 * k).
Proof.
  intros w ks w' r [= <- <-]. destruct w; [done|]. intros j k Hk. by rewrite Hk.
Qed.

Lemma batch_call_correct_witness :
  let ibc := fst (fetchAll [1; 2; 3] doubling_rpc (clampBatchSize [1; 2; 3] 2) [None; Some 1%nat; None; None] 0%nat
               (NewIterativeBatchCall [1; 2; 3] (λ _, 0) (O := Z))) in
  snd (Result [1; 2; 3] (λ _, 0) sum_results ibc) = Ok 12.
Proof.
  intros ibc.
  destruct (batch_call_correct [1; 2; 3] (λ _, 0) sum_results doubling_rpc (λ k, 2 * k) 2
    [None; Some 1%nat; None; None] 0%nat) as (_ & HR & _);
    [apply doubling_honest|by vm_compute|].
  unfold ibc. rewrite HR; [reflexivity|by vm_compute].
Defined.

Lemma failed_result_breaks_reset_witness :
  let keys := [1; 2] in
  let bad (ks vs : list Z) : result Z := Err (ErrorNew "receipt root mismatch") in
  let ibc := fst (fetchAll keys doubling_rpc 2 [None] 1%nat (NewIterativeBatchCall keys (λ _, 0) (O := Z))) in
  let ibc1 := fst (Result keys (λ _, 0) bad ibc) in
  Complete keys ibc1 = true ∧ ibc_scheduled ibc1 = [0; 1]%nat.
Proof.
  intros keys bad ibc ibc1.
  destruct (failed_result_breaks_reset keys (λ _, 0) bad doubling_rpc (λ k, 2 * k) 2%nat 3%nat 4%nat ibc [0; 1]%nat
    (λ j, match [1] !! j with Some k => ReplyVal (2 * k) | None => ReplyErr io_EOF end)
    (λ j, match [2] !! j with Some k => ReplyVal (2 * k) | None => ReplyErr io_EOF end)
    (ErrorNew "receipt root mismatch")) as (H1 & H2 & _); try done; try (by vm_compute).
  - split_and!; try done. intros [|[|i]] k Hk Hi; [by injection Hk as <-|by injection Hk as <-|].
    repeat (apply elem_of_cons in Hi as [Hi|Hi]; [done|]). by apply elem_of_nil in Hi.
Defined.
