(* ===== verification/EthClient.v ===== *)
(** * RPC clients

    op-node/sources/eth_client.go, l1_client.go, l2_client.go and engine_client.go: block
    data fetched over RPC, checked and cached by hash.  The RPC and its state are
    parameters, the caches are LRU caches.  When the RPC is not trusted, everything a
    client caches or returns has been checked against a block hash; the L1 client
    implements the chain interfaces that the derivation and the sync start use. *)

From S2P Require Import Prelude GoErrors EthTypes Extern L1Info Batch BatchQueue Deposits.
From S2P Require Import Attributes SyncStart L1Stages BlockHash LRU.

(** What a block is asked for by. *)
Inductive BlockQuery := QHash (h : Hash) | QNumber (n : Z) | QLabel (l : BlockLabel).

(** The RPC methods the clients call: [eth_getBlockBy...] without and with
    transactions ([None] is a [null] response), a batch of header requests by number,
    and the engine API. *)
Class RPC (W : Type) := {
  rpc_header : W → BlockQuery → W * result (option rpcHeader);
  rpc_block : W → BlockQuery → W * result (option rpcBlock);
  rpc_headers : W → list Z → W * result (list (result (option rpcHeader)));
  rpc_forkchoiceUpdated : W → ForkchoiceState → option PayloadAttributes →
    W * result ForkchoiceUpdatedResult;
  rpc_newPayload : W → ExecutionPayload → W * result PayloadStatusV1;
  rpc_getPayload : W → PayloadID → W * result ExecutionPayload }.

Section EthClient.
Context `{HeaderHasher} `{TxCodec} {W : Type} `{RPC W}.
Context `{!LRU Hash HeaderInfo} `{!LRU Hash (list Transaction)} `{!LRU Hash ExecutionPayload}
  `{!LRU Hash L1BlockRef} `{!LRU Hash L2BlockRef}.

(** ** EthClient *)

Record EthClientConfig := mkEthClientConfig {
  ecc_MaxRequestsPerBatch : Z; ecc_MaxConcurrentRequests : Z;
  ecc_ReceiptsCacheSize : Z; ecc_TransactionsCacheSize : Z;
  ecc_HeadersCacheSize : Z; ecc_PayloadsCacheSize : Z;
  ecc_TrustRPC : bool; ecc_MustBePostMerge : bool }.

Definition EthClientConfig_Check (c : EthClientConfig) : option error :=
  if ecc_ReceiptsCacheSize c <? 0 then Some (ErrorNew "invalid receipts cache size") else
  if ecc_TransactionsCacheSize c <? 0 then Some (ErrorNew "invalid transactions cache size") else
  if ecc_HeadersCacheSize c <? 0 then Some (ErrorNew "invalid headers cache size") else
  if ecc_PayloadsCacheSize c <? 0 then Some (ErrorNew "invalid payloads cache size") else
  if ecc_MaxConcurrentRequests c <? 1 then
    Some (ErrorNew "expected at least 1 concurrent request") else
  if ecc_MaxRequestsPerBatch c <? 1 then
    Some (ErrorNew "expected at least 1 request per batch") else None.

(** The client, with the state of the RPC behind it. *)
Record EthClient := mkEthClient {
  ec_client : W; ec_maxBatchSize : Z; ec_trustRPC : bool; ec_mustBePostMerge : bool;
  ec_headersCache : lru Hash HeaderInfo;
  ec_transactionsCache : lru Hash (list Transaction);
  ec_payloadsCache : lru Hash ExecutionPayload }.

(** [NewLRUCache] ignores the error of [lru.New] for a size of zero, which [Check] lets
    through, and keeps a nil cache; its first use panics, here already its creation. *)
Definition NewLRUCache {V} `{!LRU Hash V} (maxSize : Z) : result (lru Hash V) :=
  match lru_New maxSize with
  | Ok c => Ok c
  | _ => Panic "invalid memory address or nil pointer dereference"
  end.

Definition NewEthClient (w : W) (config : EthClientConfig) : result EthClient :=
  match EthClientConfig_Check config with
  | Some e => Err (Errorf "bad config, cannot create L1 source" e)
  | None =>
      headers ← NewLRUCache (ecc_HeadersCacheSize config);
      txs ← NewLRUCache (ecc_TransactionsCacheSize config);
      payloads ← NewLRUCache (ecc_PayloadsCacheSize config);
      Ok (mkEthClient w (ecc_MaxRequestsPerBatch config) (ecc_TrustRPC config) false
            headers txs payloads)
  end.

Definition set_client (w : W) (s : EthClient) : EthClient :=
  mkEthClient w (ec_maxBatchSize s) (ec_trustRPC s) (ec_mustBePostMerge s)
    (ec_headersCache s) (ec_transactionsCache s) (ec_payloadsCache s).
Definition set_headers (c : lru Hash HeaderInfo) (s : EthClient) : EthClient :=
  mkEthClient (ec_client s) (ec_maxBatchSize s) (ec_trustRPC s) (ec_mustBePostMerge s)
    c (ec_transactionsCache s) (ec_payloadsCache s).
Definition set_txs (c : lru Hash (list Transaction)) (s : EthClient) : EthClient :=
  mkEthClient (ec_client s) (ec_maxBatchSize s) (ec_trustRPC s) (ec_mustBePostMerge s)
    (ec_headersCache s) c (ec_payloadsCache s).
Definition set_payloads (c : lru Hash ExecutionPayload) (s : EthClient) : EthClient :=
  mkEthClient (ec_client s) (ec_maxBatchSize s) (ec_trustRPC s) (ec_mustBePostMerge s)
    (ec_headersCache s) (ec_transactionsCache s) c.

Definition headerCall (s : EthClient) (id : BlockQuery) : EthClient * result HeaderInfo :=
  let '(w, r) := rpc_header (ec_client s) id in
  let s := set_client w s in
  match r with
  | Err e => (s, Err e)
  | Panic m => (s, Panic m)
  | Ok None => (s, Err ethereum_NotFound)
  | Ok (Some header) =>
      match rpcHeader_Info header (ec_trustRPC s) (ec_mustBePostMerge s) with
      | Ok info => (set_headers (lru_Add (ec_headersCache s) (hi_hash info) info) s, Ok info)
      | Err e => (s, Err e)
      | Panic m => (s, Panic m)
      end
  end.

Definition blockCall (s : EthClient) (id : BlockQuery)
  : EthClient * result (HeaderInfo * list Transaction) :=
  let '(w, r) := rpc_block (ec_client s) id in
  let s := set_client w s in
  match r with
  | Err e => (s, Err e)
  | Panic m => (s, Panic m)
  | Ok None => (s, Err ethereum_NotFound)
  | Ok (Some block) =>
      match rpcBlock_Info block (ec_trustRPC s) (ec_mustBePostMerge s) with
      | Ok (info, txs) =>
          let s := set_headers (lru_Add (ec_headersCache s) (hi_hash info) info) s in
          (set_txs (lru_Add (ec_transactionsCache s) (hi_hash info) txs) s, Ok (info, txs))
      | Err e => (s, Err e)
      | Panic m => (s, Panic m)
      end
  end.

Definition payloadCall (s : EthClient) (id : BlockQuery) : EthClient * result ExecutionPayload :=
  let '(w, r) := rpc_block (ec_client s) id in
  let s := set_client w s in
  match r with
  | Err e => (s, Err e)
  | Panic m => (s, Panic m)
  | Ok None => (s, Err ethereum_NotFound)
  | Ok (Some block) =>
      match rpcBlock_ExecutionPayload block (ec_trustRPC s) with
      | Ok payload =>
          (set_payloads (lru_Add (ec_payloadsCache s) (ep_BlockHash payload) payload) s, Ok payload)
      | Err e => (s, Err e)
      | Panic m => (s, Panic m)
      end
  end.

Definition InfoByHash (s : EthClient) (hash : Hash) : EthClient * result HeaderInfo :=
  let '(c, v) := lru_Get (ec_headersCache s) hash in
  let s := set_headers c s in
  match v with
  | Some header => (s, Ok header)
  | None => headerCall s (QHash hash)
  end.
Definition InfoByNumber (s : EthClient) (number : Z) : EthClient * result HeaderInfo :=
  headerCall s (QNumber number).
Definition InfoByLabel (s : EthClient) (label : BlockLabel) : EthClient * result HeaderInfo :=
  headerCall s (QLabel label).

Definition InfoAndTxsByHash (s : EthClient) (hash : Hash)
  : EthClient * result (HeaderInfo * list Transaction) :=
  let '(c, v) := lru_Get (ec_headersCache s) hash in
  let s := set_headers c s in
  match v with
  | Some header =>
      let '(c, v) := lru_Get (ec_transactionsCache s) hash in
      let s := set_txs c s in
      match v with
      | Some txs => (s, Ok (header, txs))
      | None => blockCall s (QHash hash)
      end
  | None => blockCall s (QHash hash)
  end.
Definition InfoAndTxsByNumber (s : EthClient) (number : Z) :
  EthClient * result (HeaderInfo * list Transaction) := blockCall s (QNumber number).
Definition InfoAndTxsByLabel (s : EthClient) (label : BlockLabel) :
  EthClient * result (HeaderInfo * list Transaction) := blockCall s (QLabel label).

Definition PayloadByHash (s : EthClient) (hash : Hash) : EthClient * result ExecutionPayload :=
  let '(c, v) := lru_Get (ec_payloadsCache s) hash in
  let s := set_payloads c s in
  match v with
  | Some payload => (s, Ok payload)
  | None => payloadCall s (QHash hash)
  end.
Definition PayloadByNumber (s : EthClient) (number : Z) : EthClient * result ExecutionPayload :=
  payloadCall s (QNumber number).
Definition PayloadByLabel (s : EthClient) (label : BlockLabel) : EthClient * result ExecutionPayload :=
  payloadCall s (QLabel label).

(** The loop of [BlockIDRange] over the responses; [prev] is the block before. *)
Fixpoint rangeLoop (s : EthClient) (prev : BlockID) (out : list BlockID)
  (responses : list (result (option rpcHeader))) : EthClient * result (list BlockID) :=
  match responses with
  | [] => (s, Ok out)
  | Ok None :: _ => (s, Ok out)
  | Ok (Some header) :: responses =>
      match rpcHeader_Info header (ec_trustRPC s) (ec_mustBePostMerge s) with
      | Ok info =>
          let s := set_headers (lru_Add (ec_headersCache s) (hi_hash info) info) s in
          if negb (bool_decide (id_Hash prev = hi_parentHash info)) then
            (s, Err (ErrorNew "inconsistent results from L1 chain range request"))
          else rangeLoop s (HeaderInfo_ID info) (out ++ [HeaderInfo_ID info]) responses
      | Err e => (s, Err (Errorf "bad header data for block" e))
      | Panic m => (s, Panic m)
      end
  | Err e :: _ => if errors_Is e ethereum_NotFound then (s, Ok out)
                  else (s, Err (Errorf "failed to retrieve block" e))
  | Panic m :: _ => (s, Panic m)
  end.

Definition BlockIDRange (s : EthClient) (begin : BlockID) (max : Z)
  : EthClient * result (list BlockID) :=
  let numbers := (λ i, id_Number begin ⊞ 1 ⊞ i) <$> seqZ 0 max in
  let '(w, r) := rpc_headers (ec_client s) numbers in
  let s := set_client w s in
  match r with
  | Ok responses => rangeLoop s begin [] responses
  | Err e => (s, Err e)
  | Panic m => (s, Panic m)
  end.

(** ** L1Client *)

Record L1Client := mkL1Client { lc_eth : EthClient; lc_l1BlockRefsCache : lru Hash L1BlockRef }.

(** The common end of the three lookups: the reference is derived and cached. *)
Definition cacheL1Ref (s : L1Client) (eth : EthClient) (msg : string) (r : result HeaderInfo)
  : L1Client * result L1BlockRef :=
  match r with
  | Ok info =>
      let ref := InfoToL1BlockRef (HeaderInfo_BlockInfo info) in
      (mkL1Client eth (lru_Add (lc_l1BlockRefsCache s) (l1_Hash ref) ref), Ok ref)
  | Err e => (mkL1Client eth (lc_l1BlockRefsCache s), Err (Errorf msg e))
  | Panic m => (mkL1Client eth (lc_l1BlockRefsCache s), Panic m)
  end.

(** Errors of the RPC whose text says that the block does not exist. *)
Context (blockNotFoundText : error → bool).

Definition L1BlockRefByLabel (s : L1Client) (label : BlockLabel) : L1Client * result L1BlockRef :=
  let '(eth, r) := InfoByLabel (lc_eth s) label in
  cacheL1Ref s eth "failed to fetch head header"
    (map_err (λ e, if blockNotFoundText e then ethereum_NotFound else e) r).
Definition L1BlockRefByNumber (s : L1Client) (num : Z) : L1Client * result L1BlockRef :=
  let '(eth, r) := InfoByNumber (lc_eth s) num in
  cacheL1Ref s eth "failed to fetch header by num" r.
Definition L1BlockRefByHash (s : L1Client) (hash : Hash) : L1Client * result L1BlockRef :=
  let '(c, v) := lru_Get (lc_l1BlockRefsCache s) hash in
  let s := mkL1Client (lc_eth s) c in
  match v with
  | Some ref => (s, Ok ref)
  | None =>
      let '(eth, r) := InfoByHash (lc_eth s) hash in
      cacheL1Ref s eth "failed to fetch header by hash" r
  end.

(** ** L2Client *)

Record L2Client := mkL2Client {
  l2c_eth : EthClient; l2c_genesis : Genesis; l2c_l2BlockRefsCache : lru Hash L2BlockRef }.

Definition cacheL2Ref (s : L2Client) (eth : EthClient) (msg : string) (r : result ExecutionPayload)
  : L2Client * result L2BlockRef :=
  let s := mkL2Client eth (l2c_genesis s) (l2c_l2BlockRefsCache s) in
  match r with
  | Ok payload =>
      match PayloadToBlockRef payload (l2c_genesis s) with
      | Ok ref =>
          (mkL2Client eth (l2c_genesis s) (lru_Add (l2c_l2BlockRefsCache s) (l2_Hash ref) ref), Ok ref)
      | Err e => (s, Err e)
      | Panic m => (s, Panic m)
      end
  | Err e => (s, Err (Errorf msg e))
  | Panic m => (s, Panic m)
  end.

Definition L2BlockRefByLabel (s : L2Client) (label : BlockLabel) : L2Client * result L2BlockRef :=
  let '(eth, r) := PayloadByLabel (l2c_eth s) label in
  cacheL2Ref s eth "failed to determine L2BlockRef of label, could not get payload"
    (map_err (λ e, if blockNotFoundText e then ethereum_NotFound else e) r).
Definition L2BlockRefByNumber (s : L2Client) (num : Z) : L2Client * result L2BlockRef :=
  let '(eth, r) := PayloadByNumber (l2c_eth s) num in
  cacheL2Ref s eth "failed to determine L2BlockRef of height, could not get payload" r.
Definition L2BlockRefByHash (s : L2Client) (hash : Hash) : L2Client * result L2BlockRef :=
  let '(c, v) := lru_Get (l2c_l2BlockRefsCache s) hash in
  let s := mkL2Client (l2c_eth s) (l2c_genesis s) c in
  match v with
  | Some ref => (s, Ok ref)
  | None =>
      let '(eth, r) := PayloadByHash (l2c_eth s) hash in
      cacheL2Ref s eth "failed to determine block-hash of hash, could not get payload" r
  end.

(** ** EngineClient *)

(** How the codes of JSON-RPC errors are turned into input errors. *)
Definition engineError (codes : list Z) (e : error) : error :=
  match e with
  | RPCError code _ => if bool_decide (code ∈ codes) then InputError code e
                       else Errorf "unrecognized rpc error" e
  | _ => e
  end.

Definition EngineClient_ForkchoiceUpdate (w : W) (fc : ForkchoiceState)
  (attributes : option PayloadAttributes) : W * result ForkchoiceUpdatedResult :=
  let '(w, r) := rpc_forkchoiceUpdated w fc attributes in
  (w, map_err (engineError [InvalidForkchoiceState; InvalidPayloadAttributes]) r).
Definition EngineClient_NewPayload (w : W) (payload : ExecutionPayload) : W * result PayloadStatusV1 :=
  let '(w, r) := rpc_newPayload w payload in
  (w, map_err (Errorf "failed to execute payload") r).
Definition EngineClient_GetPayload (w : W) (payloadId : PayloadID) : W * result ExecutionPayload :=
  let '(w, r) := rpc_getPayload w payloadId in
  (w, map_err (engineError [UnknownPayload]) r).

(** ** Invariant: what the caches of an untrusting client hold *)

(** The header data is that of a header with this hash. *)
Definition verified_info (info : HeaderInfo) : Prop :=
  ∃ f : Header, Header_Hash f = hi_hash info ∧
    info = mkHeaderInfo (Header_Hash f) (h_ParentHash f) (h_Coinbase f) (h_Root f) (h_Number f)
             (h_Time f) (h_MixDigest f) (h_BaseFee f) (h_TxHash f) (h_ReceiptHash f).

(** The transactions are those of a header with this hash. *)
Definition verified_txs (hash : Hash) (txs : list Transaction) : Prop :=
  ∃ f : Header, Header_Hash f = hash ∧ h_TxHash f = DeriveSha_Transactions txs.

Definition client_inv (s : EthClient) : Prop :=
  ec_trustRPC s = false ∧
  (∀ h info, lru_contents (ec_headersCache s) !! h = Some info → hi_hash info = h ∧ verified_info info) ∧
  (∀ h txs, lru_contents (ec_transactionsCache s) !! h = Some txs → verified_txs h txs).

Lemma rpcHeader_Info_verified hdr pm info :
  rpcHeader_Info hdr false pm = Ok info → verified_info info.
Proof.
  unfold rpcHeader_Info. destruct (if pm then _ else _); [done|].
  destruct (negb false && _) eqn:E; [done|]. intros [= <-]. cbn in E. bool_props.
  exists (rh_fields hdr). unfold computeBlockHash in E. by rewrite E.
Qed.

Lemma rpcBlock_Info_verified block pm info txs :
  rpcBlock_Info block false pm = Ok (info, txs) → verified_info info ∧ verified_txs (hi_hash info) txs.
Proof.
  unfold rpcBlock_Info. intros HI. destruct (if pm then _ else _); [done|].
  destruct (rpcBlock_verify block) eqn:Ev; [done|]. apply bind_Ok in HI as (i & Hi & [= <- <-]).
  destruct (rpcHeader_Info _ _ _) as [info'|e|m] eqn:Ei; [injection Hi as ->|done..].
  split; [by eapply rpcHeader_Info_verified|].
  apply rpcBlock_verify_None in Ev as [Eh Et]. exists (rh_fields (rb_header block)).
  split; [|done]. unfold computeBlockHash in Eh. rewrite Eh.
  unfold rpcHeader_Info in Ei. destruct (if pm then _ else _); [done|]. case_match; [done|]. by injection Ei as <-.
Qed.

(** Adding to a cache of verified entries. *)
Lemma lru_Add_all {V} `{!LRU Hash V} (P : Hash → V → Prop) (c : lru Hash V) k v :
  (∀ h x, lru_contents c !! h = Some x → P h x) → P k v →
  ∀ h x, lru_contents (lru_Add c k v) !! h = Some x → P h x.
Proof.
  intros Hc Hv h x Hx. pose proof (lru_Add_evicts c k v) as Hs. rewrite map_subseteq_spec in Hs.
  apply Hs, lookup_insert_Some in Hx as [[<- <-]|[_ Hx]]; [done|by apply Hc].
Qed.

Lemma lru_Get_all {V} `{!LRU Hash V} (P : Hash → V → Prop) (c c' : lru Hash V) k v :
  (∀ h x, lru_contents c !! h = Some x → P h x) → lru_Get c k = (c', v) →
  (∀ h x, lru_contents c' !! h = Some x → P h x) ∧ (∀ x, v = Some x → P k x).
Proof.
  intros Hc HG. pose proof (lru_Get_value c k) as Hv. pose proof (lru_Get_contents c k) as Hk.
  rewrite HG in Hv, Hk. cbn in Hv, Hk. rewrite Hk. split; [done|]. intros x ->. by apply Hc.
Qed.

Lemma set_client_inv w s : client_inv s → client_inv (set_client w s).
Proof. done. Qed.

Lemma headerCall_inv s id s' r :
  client_inv s → headerCall s id = (s', r) → client_inv s' ∧ ∀ info, r = Ok info → verified_info info.
Proof.
  intros Hs HC. unfold headerCall in HC. destruct (rpc_header (ec_client s) id) as [w [[hdr|]|e|m]];
    try (injection HC as <- <-; done).
  destruct Hs as (Ht & Hh & Hx). cbn [ec_trustRPC set_client] in HC. rewrite Ht in HC.
  destruct (rpcHeader_Info hdr false _) as [info|e|m] eqn:Ei; injection HC as <- <-; try done.
  pose proof (rpcHeader_Info_verified _ _ _ Ei) as Hv. split; [|by intros ? [= <-]].
  split_and!; [done| |done]. by apply lru_Add_all.
Qed.

Lemma blockCall_inv s id s' r :
  client_inv s → blockCall s id = (s', r) →
  client_inv s' ∧ ∀ info txs, r = Ok (info, txs) → verified_info info ∧ verified_txs (hi_hash info) txs.
Proof.
  intros Hs HC. unfold blockCall in HC. destruct (rpc_block (ec_client s) id) as [w [[blk|]|e|m]];
    try (injection HC as <- <-; done).
  destruct Hs as (Ht & Hh & Hx). cbn [ec_trustRPC set_client] in HC. rewrite Ht in HC.
  destruct (rpcBlock_Info blk false _) as [[info txs]|e|m] eqn:Ei; injection HC as <- <-; try done.
  pose proof (rpcBlock_Info_verified _ _ _ _ Ei) as [Hv Hvt]. split; [|by intros ? ? [= <- <-]].
  split_and!; [done|by apply lru_Add_all|by apply (lru_Add_all verified_txs)].
Qed.

Lemma InfoByHash_inv s hash s' r :
  client_inv s → InfoByHash s hash = (s', r) → client_inv s' ∧ ∀ info, r = Ok info → verified_info info.
Proof.
  intros Hs HC. unfold InfoByHash in HC. destruct (lru_Get (ec_headersCache s) hash) as [c v] eqn:EG.
  pose proof Hs as (Ht & Hh & Hx). destruct (lru_Get_all _ _ _ _ _ Hh EG) as [Hc Hv].
  destruct v as [info|].
  - injection HC as <- <-. split; [done|]. intros ? [= <-]. by apply Hv.
  - by apply headerCall_inv in HC.
Qed.

Lemma InfoAndTxsByHash_inv s hash s' r :
  client_inv s → InfoAndTxsByHash s hash = (s', r) →
  client_inv s' ∧ ∀ info txs, r = Ok (info, txs) → verified_info info ∧ verified_txs (hi_hash info) txs.
Proof.
  intros Hs HC. unfold InfoAndTxsByHash in HC. destruct (lru_Get (ec_headersCache s) hash) as [c v] eqn:EG.
  pose proof Hs as (Ht & Hh & Hx). destruct (lru_Get_all _ _ _ _ _ Hh EG) as [Hc Hv].
  destruct v as [info|]; [|by apply blockCall_inv in HC].
  cbn [ec_transactionsCache set_headers] in HC.
  destruct (lru_Get (ec_transactionsCache s) hash) as [c' v'] eqn:EG'.
  destruct (lru_Get_all _ _ _ _ _ Hx EG') as [Hc' Hv'].
  destruct v' as [txs|]; [|by apply blockCall_inv in HC].
  injection HC as <- <-. split; [done|]. intros ? ? [= <- <-].
  destruct (Hv _ eq_refl) as [-> ?]. split; [done|by apply Hv'].
Qed.

Lemma payloadCall_inv s id : client_inv s → client_inv (fst (payloadCall s id)).
Proof.
  intros Hs. unfold payloadCall. destruct (rpc_block (ec_client s) id) as [w [[blk|]|e|m]]; try done.
  by destruct (rpcBlock_ExecutionPayload _ _).
Qed.

(** Headers that follow each other by their parent hashes. *)
Fixpoint linked_from (prev : BlockID) (infos : list HeaderInfo) : Prop :=
  match infos with
  | [] => True
  | info :: infos => id_Hash prev = hi_parentHash info ∧ linked_from (HeaderInfo_ID info) infos
  end.

Lemma rangeLoop_spec responses s prev out s' r :
  client_inv s → rangeLoop s prev out responses = (s', r) →
  client_inv s' ∧
  ∀ ids, r = Ok ids → ∃ infos, ids = out ++ (HeaderInfo_ID <$> infos) ∧
    linked_from prev infos ∧ Forall verified_info infos ∧ (length infos ≤ length responses)%nat.
Proof.
  revert s prev out. induction responses as [|[[hdr|]|e|m] responses IH]; intros s prev out Hs HR;
    cbn [rangeLoop] in HR.
  - injection HR as <- <-. split; [done|]. intros ids [= <-]. exists []. by rewrite app_nil_r.
  - pose proof Hs as (Ht & Hh & Hx). rewrite Ht in HR.
    destruct (rpcHeader_Info hdr false _) as [info|e|m] eqn:Ei; [|injection HR as <- <-; done..].
    pose proof (rpcHeader_Info_verified _ _ _ Ei) as Hv.
    assert (Hs1 : client_inv (set_headers (lru_Add (ec_headersCache s) (hi_hash info) info) s))
      by (split_and!; [done|by apply lru_Add_all|done]).
    destruct (negb _) eqn:Ep in HR; [injection HR as <- <-; done|]. bool_props.
    apply IH in HR as [Hs' HR]; [|done]. split; [done|]. intros ids Hids.
    destruct (HR ids Hids) as (infos & -> & Hl & Hf & Hn). exists (info :: infos).
    rewrite <- app_assoc. split_and!; try done; [by constructor|cbn; lia].
  - injection HR as <- <-. split; [done|]. intros ids [= <-]. exists []. rewrite app_nil_r. split_and!; try done. cbn. lia.
  - destruct (errors_Is _ _); injection HR as <- <-; (split; [done|]); [|done].
    intros ids [= <-]. exists []. rewrite app_nil_r. split_and!; try done. cbn. lia.
  - by injection HR as <- <-.
Qed.

Lemma BlockIDRange_inv s begin max s' r :
  client_inv s → BlockIDRange s begin max = (s', r) →
  client_inv s' ∧ ∀ ids, r = Ok ids → ∃ infos, ids = HeaderInfo_ID <$> infos ∧
    linked_from begin infos ∧ Forall verified_info infos.
Proof.
  intros Hs HR. unfold BlockIDRange in HR. destruct (rpc_headers (ec_client s) _) as [w [resp|e|m]];
    [|injection HR as <- <-; done..].
  apply rangeLoop_spec in HR as [Hs' HR]; [|done]. split; [done|]. intros ids Hids.
  destruct (HR ids Hids) as (infos & -> & Hl & Hf & _). by exists infos.
Qed.

(** ** The client over its lifetime *)

Inductive client_op :=
| OpInfo (q : BlockQuery) | OpInfoAndTxs (q : BlockQuery) | OpPayload (q : BlockQuery)
| OpRange (begin : BlockID) (max : Z).

Definition run_op (s : EthClient) (op : client_op) : EthClient :=
  match op with
  | OpInfo (QHash h) => fst (InfoByHash s h)
  | OpInfo (QNumber n) => fst (InfoByNumber s n)
  | OpInfo (QLabel l) => fst (InfoByLabel s l)
  | OpInfoAndTxs (QHash h) => fst (InfoAndTxsByHash s h)
  | OpInfoAndTxs (QNumber n) => fst (InfoAndTxsByNumber s n)
  | OpInfoAndTxs (QLabel l) => fst (InfoAndTxsByLabel s l)
  | OpPayload (QHash h) => fst (PayloadByHash s h)
  | OpPayload (QNumber n) => fst (PayloadByNumber s n)
  | OpPayload (QLabel l) => fst (PayloadByLabel s l)
  | OpRange b m => fst (BlockIDRange s b m)
  end.

Lemma run_op_inv s op : client_inv s → client_inv (run_op s op).
Proof.
  intros Hs.
  assert (Hfst : ∀ {A} (x : EthClient * A), (∀ s' a, x = (s', a) → client_inv s') → client_inv (fst x))
    by (intros A [s' a] Hx; by eapply Hx).
  destruct op as [[h|n|l]|[h|n|l]|[h|n|l]|b m]; cbn [run_op].
  1: apply Hfst; intros ? ? E; by apply InfoByHash_inv in E as [? _].
  1,2: apply Hfst; intros ? ? E; by apply headerCall_inv in E as [? _].
  1: apply Hfst; intros ? ? E; by apply InfoAndTxsByHash_inv in E as [? _].
  1,2: apply Hfst; intros ? ? E; by apply blockCall_inv in E as [? _].
  2,3: by apply payloadCall_inv.
  - unfold PayloadByHash. destruct (lru_Get (ec_payloadsCache s) h) as [c [p|]]; [done|].
    by apply payloadCall_inv.
  - apply Hfst. intros ? ? E. by apply BlockIDRange_inv in E as [? _].
Qed.

Lemma NewEthClient_inv w cfg s :
  ecc_TrustRPC cfg = false → NewEthClient w cfg = Ok s → client_inv s.
Proof.
  intros Ht HN. unfold NewEthClient in HN. destruct (EthClientConfig_Check cfg); [done|].
  apply bind_Ok in HN as (hs & Eh & HN). apply bind_Ok in HN as (txs & Et & HN).
  apply bind_Ok in HN as (ps & _ & [= <-]). unfold NewLRUCache in Eh, Et.
  destruct (lru_New (ecc_HeadersCacheSize cfg)) eqn:E1; [injection Eh as ->|done..].
  destruct (lru_New (ecc_TransactionsCacheSize cfg)) eqn:E2; [injection Et as ->|done..].
  apply lru_New_empty in E1, E2. split_and!; [done| |]; cbn; rewrite ?E1, ?E2; done.
Qed.

Lemma client_run_inv w cfg s ops :
  ecc_TrustRPC cfg = false → NewEthClient w cfg = Ok s → client_inv (foldl run_op s ops).
Proof.
  intros Ht HN. pose proof (NewEthClient_inv _ _ _ Ht HN) as Hs. clear HN. revert s Hs.
  induction ops as [|op ops IH]; intros s Hs; [done|]. cbn. apply IH. by apply run_op_inv.
Qed.

(** ** The L1 client *)

(** The reference of a verified header. *)
Definition verified_ref (ref : L1BlockRef) : Prop :=
  ∃ info, verified_info info ∧ ref = InfoToL1BlockRef (HeaderInfo_BlockInfo info).

Definition l1_client_inv (s : L1Client) : Prop :=
  client_inv (lc_eth s) ∧
  ∀ h ref, lru_contents (lc_l1BlockRefsCache s) !! h = Some ref → l1_Hash ref = h ∧ verified_ref ref.

Lemma cacheL1Ref_inv s eth msg r s' r' :
  l1_client_inv s → client_inv eth → (∀ info, r = Ok info → verified_info info) →
  cacheL1Ref s eth msg r = (s', r') →
  l1_client_inv s' ∧ ∀ ref, r' = Ok ref → verified_ref ref.
Proof.
  intros [_ Hc] He Hr HC. unfold cacheL1Ref in HC. destruct r as [info|e|m]; injection HC as <- <-; try done.
  assert (Hv : verified_ref (InfoToL1BlockRef (HeaderInfo_BlockInfo info))) by (exists info; by split; [apply Hr|]).
  split; [|by intros ? [= <-]]. split; [done|]. by apply lru_Add_all.
Qed.

(** Every lookup of the L1 client keeps the invariant and returns verified references. *)
Lemma L1BlockRefByHash_inv s hash s' r :
  l1_client_inv s → L1BlockRefByHash s hash = (s', r) →
  l1_client_inv s' ∧ ∀ ref, r = Ok ref → verified_ref ref.
Proof.
  intros [He Hc] HR. unfold L1BlockRefByHash in HR.
  destruct (lru_Get (lc_l1BlockRefsCache s) hash) as [c v] eqn:EG.
  destruct (lru_Get_all _ _ _ _ _ Hc EG) as [Hc' Hv]. destruct v as [ref|].
  - injection HR as <- <-. split; [done|]. intros ? [= <-]. by apply Hv.
  - cbn [lc_eth] in HR. destruct (InfoByHash (lc_eth s) hash) as [eth r1] eqn:EI.
    destruct (InfoByHash_inv _ _ _ _ He EI) as [He' Hi].
    by apply (cacheL1Ref_inv _ _ _ _ _ _ (conj He Hc' : l1_client_inv (mkL1Client (lc_eth s) c)) He' Hi) in HR.
Qed.

Lemma L1BlockRefByNumber_inv s num s' r :
  l1_client_inv s → L1BlockRefByNumber s num = (s', r) →
  l1_client_inv s' ∧ ∀ ref, r = Ok ref → verified_ref ref.
Proof.
  intros [He Hc] HR. unfold L1BlockRefByNumber, InfoByNumber in HR.
  destruct (headerCall (lc_eth s) (QNumber num)) as [eth r1] eqn:EI.
  destruct (headerCall_inv _ _ _ _ He EI) as [He' Hi].
  by apply (cacheL1Ref_inv _ _ _ _ _ _ (conj He Hc) He' Hi) in HR.
Qed.

Lemma L1BlockRefByLabel_inv s label s' r :
  l1_client_inv s → L1BlockRefByLabel s label = (s', r) →
  l1_client_inv s' ∧ ∀ ref, r = Ok ref → verified_ref ref.
Proof.
  intros [He Hc] HR. unfold L1BlockRefByLabel, InfoByLabel in HR.
  destruct (headerCall (lc_eth s) (QLabel label)) as [eth r1] eqn:EI.
  destruct (headerCall_inv _ _ _ _ He EI) as [He' Hi].
  eapply cacheL1Ref_inv; [done|done| |done]. intros info Hr1. apply Hi. by destruct r1.
Qed.

(** The L1 client is the L1 chain of the sync start and the traversal stage, and the
    source of the retrieval stage's transactions. *)
Definition L1Client_chain : L1Chain L1Client := {|
  l1_ByLabel := L1BlockRefByLabel;
  l1_ByNumber := L1BlockRefByNumber;
  l1_ByHash := L1BlockRefByHash |}.

Definition L1Client_InfoAndTxsByHash (s : L1Client) (hash : Hash)
  : L1Client * result (BlockInfo * list Transaction) :=
  let '(eth, r) := InfoAndTxsByHash (lc_eth s) hash in
  (mkL1Client eth (lc_l1BlockRefsCache s),
   '(info, txs) ← r; Ok (HeaderInfo_BlockInfo info, txs)).

Definition L1Client_fetcher : L1TransactionFetcher L1Client := {|
  tf_InfoAndTxsByHash := L1Client_InfoAndTxsByHash |}.

(** ** Theorems *)

(** No two headers have this hash. *)
Definition unique_preimage (hash : Hash) : Prop :=
  ∀ f g : Header, Header_Hash f = hash → Header_Hash g = hash → f = g.

(** A client that does not trust its RPC returns, after any use and from the cache
    or not, header data of a real header with the returned hash, and transactions that
    match the transactions root of that header, even when header and transactions were
    fetched by different requests. *)
Theorem untrusted_client_verified w cfg s ops hash s' info txs :
  ecc_TrustRPC cfg = false → NewEthClient w cfg = Ok s →
  InfoAndTxsByHash (foldl run_op s ops) hash = (s', Ok (info, txs)) →
  unique_preimage (hi_hash info) →
  (∃ f, Header_Hash f = hi_hash info ∧ h_ParentHash f = hi_parentHash info ∧
        h_Number f = hi_number info ∧ h_Time f = hi_time info ∧
        h_ReceiptHash f = hi_receiptHash info) ∧
  DeriveSha_Transactions txs = hi_txHash info.
Proof.
  intros Ht HN HI Hcf. pose proof (client_run_inv _ _ _ ops Ht HN) as Hs.
  destruct (InfoAndTxsByHash_inv _ _ _ _ Hs HI) as [_ HV].
  destruct (HV _ _ eq_refl) as [(f & Hf & Ei) (g & Hg & Et)].
  assert (g = f) as -> by by apply Hcf. split.
  - exists f. rewrite Ei. done.
  - rewrite <- Et, Ei. done.
Qed.

(** The identifiers of a block range are those of headers that follow each other,
    starting behind the given block, each checked against its hash. *)
Theorem BlockIDRange_linked w cfg s ops begin max s' ids :
  ecc_TrustRPC cfg = false → NewEthClient w cfg = Ok s →
  BlockIDRange (foldl run_op s ops) begin max = (s', Ok ids) →
  ∃ infos, ids = HeaderInfo_ID <$> infos ∧ linked_from begin infos ∧ Forall verified_info infos.
Proof.
  intros Ht HN HR. pose proof (client_run_inv _ _ _ ops Ht HN) as Hs.
  destruct (BlockIDRange_inv _ _ _ _ _ Hs HR) as [_ HV]. by apply HV.
Qed.

(** The L1 client, as the L1 chain of the derivation, only hands out references of
    headers it has checked against their hash, from the cache or the RPC. *)
Theorem L1Client_chain_verified s s' r :
  l1_client_inv s →
  (∃ h, @l1_ByHash _ L1Client_chain s h = (s', r)) ∨ (∃ n, @l1_ByNumber _ L1Client_chain s n = (s', r)) ∨
  (∃ l, @l1_ByLabel _ L1Client_chain s l = (s', r)) →
  l1_client_inv s' ∧ ∀ ref, r = Ok ref → ∃ f, Header_Hash f = l1_Hash ref ∧
    h_Number f = l1_Number ref ∧ h_ParentHash f = l1_ParentHash ref ∧ h_Time f = l1_Time ref.
Proof.
  intros Hs HR. assert (Hv : l1_client_inv s' ∧ ∀ ref, r = Ok ref → verified_ref ref).
  { destruct HR as [[h HR]|[[n HR]|[l HR]]];
      [by apply L1BlockRefByHash_inv in HR|by apply L1BlockRefByNumber_inv in HR|by apply L1BlockRefByLabel_inv in HR]. }
  destruct Hv as [Hs' Hv]. split; [done|]. intros ref Hr.
  destruct (Hv ref Hr) as (info & (f & Hf & ->) & ->). by exists f.
Qed.

(** The engine client reports a request the engine refuses, and only that, as an input
    error with the code of the response. *)
Theorem engineError_input codes e c i :
  as_input_error e = None →
  as_input_error (engineError codes e) = Some (c, i) ↔
  i = e ∧ c ∈ codes ∧ ∃ msg, e = RPCError c msg.
Proof.
  intros He. unfold engineError. destruct e; cbn in *; try (split; [done|naive_solver]); try (rewrite He; split; [done|naive_solver]).
  case_bool_decide as Hin; cbn; naive_solver.
Qed.

(** The setting [MustBePostMerge] has no effect: the client does not keep it, and
    returns a header the RPC serves with a matching hash whether or not it passes the
    post-merge checks. *)
Theorem post_merge_not_enforced w cfg s n w' hdr :
  NewEthClient w cfg = Ok s → rpc_header w (QNumber n) = (w', Ok (Some hdr)) →
  computeBlockHash hdr = rh_Hash hdr →
  ∃ s' info, InfoByNumber s n = (s', Ok info) ∧ hi_hash info = rh_Hash hdr ∧
    hi_mixDigest info = h_MixDigest (rh_fields hdr).
Proof.
  intros HN Hrpc Hh. unfold NewEthClient in HN. destruct (EthClientConfig_Check cfg); [done|].
  apply bind_Ok in HN as (hs & _ & HN). apply bind_Ok in HN as (txs & _ & HN).
  apply bind_Ok in HN as (ps & _ & [= <-]). unfold InfoByNumber, headerCall. cbn [ec_client].
  rewrite Hrpc. cbn [ec_trustRPC ec_mustBePostMerge set_client]. unfold rpcHeader_Info.
  rewrite Hh, bool_decide_eq_true_2, andb_false_r by done. by eexists _, _.
Qed.
End EthClient.

(** ** Witnesses *)

#[local] Existing Instance example_codec.

(** A header hash under which the example block's hash has one preimage. *)
#[local] Program Instance example_header_hasher : HeaderHasher := {
  Header_Hash h := example_hash (if bool_decide (h = example_header) then 12024 else 0);
  DeriveSha raw := example_hash (len (concat raw));
  DeriveSha_Transactions txs := example_hash (len (concat (marshalled txs)));
  DeriveSha_Receipts rs := example_hash (len rs);
  EmptyUncleHash := example_hash 7;
  EmptyRootHash := example_hash 8 }.
Next Obligation. intros txs raw Hr. cbn. by rewrite (marshalled_raw txs raw Hr). Qed.

(** A header with a difficulty, which no block has after the merge. *)
Definition pre_merge_header : rpcHeader :=
  mkRpcHeader (mkHeader (example_hash 1) (example_hash 7) (zeros 20) (example_hash 2) (example_hash 3)
    (example_hash 4) (zeros 256) 5 13 30000000 21000 24 [x01] (example_hash 5) zero_nonce
    (Some 1000000007)) (example_hash 0).

(** An RPC that counts its calls and serves the example block. *)
#[local] Instance example_rpc : RPC nat := {
  rpc_header w q := (S w, Ok (Some match q with
                                   | QNumber 13 => pre_merge_header
                                   | _ => rb_header example_rpc_block
                                   end));
  rpc_block w q := (S w, Ok (Some example_rpc_block));
  rpc_headers w ns := (S w, Ok ((λ n, if n =? 12 then Ok (Some (rb_header example_rpc_block))
                                     else Err ethereum_NotFound) <$> ns));
  rpc_forkchoiceUpdated w _ _ := (S w, Err ethereum_NotFound);
  rpc_newPayload w _ := (S w, Err ethereum_NotFound);
  rpc_getPayload w _ := (S w, Err ethereum_NotFound) }.

Definition example_client_cfg : EthClientConfig := mkEthClientConfig 20 10 8 8 8 8 false true.
Definition example_client : EthClient (W := nat) :=
  match NewEthClient 0%nat example_client_cfg with
  | Ok s => s
  | _ => mkEthClient 0%nat 0 true true (mkRecent 0 []) (mkRecent 0 []) (mkRecent 0 [])
  end.
Definition example_ops : list client_op := [OpInfo (QNumber 12); OpInfoAndTxs (QHash (example_hash 12024))].
Definition example_info : HeaderInfo :=
  mkHeaderInfo (example_hash 12024) (example_hash 1) (zeros 20) (example_hash 2) 12 24
    (example_hash 5) (Some 1000000007) (example_hash 3) (example_hash 4).

Lemma example_preimage : unique_preimage (example_hash 12024).
Proof.
  assert (Hone : ∀ h, Header_Hash h = example_hash 12024 → h = example_header).
  { intros h. cbn -[example_hash]. case_bool_decide; [done|]. by vm_compute. }
  intros f g Hf Hg. by rewrite (Hone f Hf), (Hone g Hg).
Qed.

Lemma pair_snd {A B} (p : A * B) (y : B) : snd p = y → p = (fst p, y).
Proof. by destruct p as [? ?]; intros [= <-]. Qed.

Lemma untrusted_client_verified_witness :
  (∃ f, Header_Hash f = example_hash 12024 ∧ h_ParentHash f = example_hash 1 ∧
        h_Number f = 12 ∧ h_Time f = 24 ∧ h_ReceiptHash f = example_hash 4) ∧
  DeriveSha_Transactions [example_tx [x01; x02]] = example_hash 3.
Proof.
  eapply (untrusted_client_verified 0%nat example_client_cfg example_client example_ops
    (example_hash 12024) _ example_info).
  - reflexivity.
  - reflexivity.
  - apply pair_snd. vm_compute. reflexivity.
  - apply example_preimage.
Defined.

Lemma BlockIDRange_linked_witness :
  ∃ infos, [mkBlockID (example_hash 12024) 12] = HeaderInfo_ID <$> infos ∧
    linked_from (mkBlockID (example_hash 1) 11) infos ∧ Forall verified_info infos.
Proof.
  eapply (BlockIDRange_linked 0%nat example_client_cfg example_client example_ops
    (mkBlockID (example_hash 1) 11) 3).
  - reflexivity.
  - reflexivity.
  - apply pair_snd. vm_compute. reflexivity.
Defined.

Definition example_l1_client : L1Client (W := nat) := mkL1Client example_client (mkRecent 3 []).

Lemma L1Client_chain_verified_witness :
  let r := l1_ByHash (L1Chain := L1Client_chain (λ _, false)) example_l1_client (example_hash 12024) in
  l1_client_inv (fst r) ∧ ∀ ref, snd r = Ok ref → ∃ f, Header_Hash f = l1_Hash ref ∧
    h_Number f = l1_Number ref ∧ h_ParentHash f = l1_ParentHash ref ∧ h_Time f = l1_Time ref.
Proof.
  intros r. eapply (L1Client_chain_verified (λ _, false) example_l1_client).
  - split; [by apply (NewEthClient_inv 0%nat example_client_cfg)|].
    intros h ref Href. by apply (lookup_empty_Some (M := gmap Hash) h ref) in Href.
  - left. exists (example_hash 12024). apply surjective_pairing.
Defined.

Lemma post_merge_not_enforced_witness :
  ecc_MustBePostMerge example_client_cfg = true ∧ is_Some (checkPostMerge pre_merge_header) ∧
  ∃ s' info, InfoByNumber example_client 13 = (s', Ok info) ∧ hi_hash info = example_hash 0 ∧
    hi_mixDigest info = example_hash 5.
Proof.
  split; [done|]. split; [by eexists|].
  apply (post_merge_not_enforced 0%nat example_client_cfg example_client 13 1%nat pre_merge_header).
  - reflexivity.
  - reflexivity.
  - vm_compute. reflexivity.
Defined.
