(* ===== verification/TxMgr.v ===== *)
(** * Transaction manager

    bss-core/txmgr (send_state.go, txmgr.go) and its copy op-proposer/txmgr, which the
    batch submitters and proposers publish their transactions with.  [SendState] is the
    state machine that decides when to give up on a nonce; [Send] starts goroutines that
    publish a transaction and wait for its confirmation, modelled as a step relation on
    the goroutines, the shared state and the loop that waits for them, with the answers
    of the node as inputs of the steps. *)

From S2P Require Import Prelude GoErrors EthTypes.

(** [types.Receipt], by the fields the manager reads. *)
Record TxReceipt := mkTxReceipt { tr_Status : Z; tr_BlockNumber : Z }.
#[export] Instance TxReceipt_eq_dec : EqDecision TxReceipt.
Proof. solve_decision. Defined.

Definition ReceiptStatusFailed : Z := 0.
Definition context_Canceled : error := ErrorNew "context canceled".
Definition ErrReverted : error := ErrorNew "transaction reverted".

(** ** SendState *)

Record SendState := mkSendState {
  ss_minedTxs : gset Hash; ss_nonceTooLowCount : Z; ss_safeAbortNonceTooLowCount : Z }.

Definition NewSendState (safeAbortNonceTooLowCount : Z) : result SendState :=
  if safeAbortNonceTooLowCount =? 0 then Panic "txmgr: safeAbortNonceTooLowCount cannot be zero"
  else Ok (mkSendState ∅ 0 safeAbortNonceTooLowCount).

Section TxMgr.
(** Whether the text of an error contains that of [core.ErrNonceTooLow], and whether it
    says that a context has been canceled. *)
Context (nonceTooLow canceled : error → bool).

Definition ProcessSendError (s : SendState) (err : option error) : SendState :=
  match err with
  | None => s
  | Some e =>
      if negb (nonceTooLow e) then s
      else mkSendState (ss_minedTxs s) (ss_nonceTooLowCount s ⊞ 1) (ss_safeAbortNonceTooLowCount s)
  end.

Definition TxMined (s : SendState) (txHash : Hash) : SendState :=
  mkSendState ({[txHash]} ∪ ss_minedTxs s) (ss_nonceTooLowCount s) (ss_safeAbortNonceTooLowCount s).

Definition TxNotMined (s : SendState) (txHash : Hash) : SendState :=
  let wasMined := bool_decide (txHash ∈ ss_minedTxs s) in
  let minedTxs := ss_minedTxs s ∖ {[txHash]} in
  mkSendState minedTxs
    (if bool_decide (minedTxs = ∅) && wasMined then 0 else ss_nonceTooLowCount s)
    (ss_safeAbortNonceTooLowCount s).

Definition ShouldAbortImmediately (s : SendState) : bool :=
  if negb (bool_decide (ss_minedTxs s = ∅)) then false
  else ss_safeAbortNonceTooLowCount s <=? ss_nonceTooLowCount s.

Definition IsWaitingForConfirmation (s : SendState) : bool :=
  negb (bool_decide (ss_minedTxs s = ∅)).

(** ** waitMined: the check of the confirmations *)

Definition isConfirmed (numConfirmations : Z) (receipt : TxReceipt) (tipHeight : Z) : bool :=
  u64 (tr_BlockNumber receipt) ⊞ numConfirmations <=? tipHeight ⊞ 1.

(** ** Goroutines *)

(** The points a goroutine [sendTxAsync] reaches: before [updateGasPrice], before
    [sendTx], at the two calls on the send state after it, in the loop of [waitMined]
    (before the receipt query, at [TxMined], before the block number query, at
    [TxNotMined], at the select), before handing over the receipt, done. *)
Inductive sender :=
| SUpdate
| SSend (tx : Hash)
| SSent (tx : Hash) (err : option error)
| SCheckAbort
| SQuery (tx : Hash)
| SMined (tx : Hash) (receipt : TxReceipt)
| STip (tx : Hash) (receipt : TxReceipt)
| SNotMined (tx : Hash)
| SSelect (tx : Hash)
| SDeliver (tx : Hash) (receipt : TxReceipt)
| SDone.

#[export] Instance sender_eq_dec : EqDecision sender.
Proof. solve_decision. Defined.

(** What happens in a step: the answers of the node, or a step of the code alone. *)
Inductive action :=
| AUpdate (r : result Hash)
| ASend (tx : Hash) (err : option error)
| AProcess (tx : Hash) (err : option error)
| AAbortCheck
| AReceipt (tx : Hash) (receipt : option TxReceipt) (err : option error)
| AMined (tx : Hash)
| ABlockNumber (tx : Hash) (r : result Z)
| ANotMined (tx : Hash)
| AQueryTick
| ACtxDone
| ADeliver (tx : Hash) (receipt : TxReceipt)
| AResubmit
| ACancel (err : error)
| ALoopDone
| ALoopReceipt
| AWait.

(** What the goroutines share: the send state, the context (the error once it is done)
    and the channel for one receipt. *)
Record shared := mkShared {
  sh_state : SendState; sh_ctx : option error; sh_chan : option TxReceipt }.

Definition set_state (s : SendState) (sh : shared) : shared := mkShared s (sh_ctx sh) (sh_chan sh).
(** [cancel] of the context: the first error stays. *)
Definition cancel (err : error) (sh : shared) : shared :=
  mkShared (sh_state sh) (match sh_ctx sh with None => Some err | e => e end) (sh_chan sh).

Context (numConfirmations : Z).

(** One step of [sendTxAsync] and the [waitMined] it calls. *)
Definition sender_step (a : action) (sh : shared) (t : sender) : option (shared * sender) :=
  match t, a with
  | SUpdate, AUpdate (Ok tx) => Some (sh, SSend tx)
  | SUpdate, AUpdate (Err _) => Some (sh, SDone)
  | SSend tx, ASend tx' err =>
      if bool_decide (tx = tx') then Some (sh, SSent tx err) else None
  | SSent tx err, AProcess tx' err' =>
      if bool_decide (tx = tx' ∧ err = err') then
        let sh := set_state (ProcessSendError (sh_state sh) err) sh in
        Some (sh, match err with
                  | None => SQuery tx
                  | Some e => if canceled e then SDone else SCheckAbort
                  end)
      else None
  | SCheckAbort, AAbortCheck =>
      Some (if ShouldAbortImmediately (sh_state sh) then cancel context_Canceled sh else sh, SDone)
  | SQuery tx, AReceipt tx' receipt err =>
      if bool_decide (tx = tx') then
        Some (sh, match receipt with
                  | Some receipt => SMined tx receipt
                  | None => match err with Some _ => SSelect tx | None => SNotMined tx end
                  end)
      else None
  | SMined tx receipt, AMined tx' =>
      if bool_decide (tx = tx') then
        Some (set_state (TxMined (sh_state sh) tx) sh, STip tx receipt)
      else None
  | STip tx receipt, ABlockNumber tx' r =>
      if bool_decide (tx = tx') then
        match r with
        | Ok tipHeight =>
            Some (sh, if isConfirmed numConfirmations receipt tipHeight then SDeliver tx receipt
                      else SSelect tx)
        | Err _ => Some (sh, SSelect tx)
        | Panic _ => None
        end
      else None
  | SNotMined tx, ANotMined tx' =>
      if bool_decide (tx = tx') then
        Some (set_state (TxNotMined (sh_state sh) tx) sh, SSelect tx)
      else None
  | SSelect tx, AQueryTick => Some (sh, SQuery tx)
  | SSelect tx, ACtxDone => if bool_decide (sh_ctx sh = None) then None else Some (sh, SDone)
  | SDeliver tx receipt, ADeliver tx' receipt' =>
      if bool_decide (tx = tx' ∧ receipt = receipt') then
        Some (match sh_chan sh with
              | None => mkShared (sh_state sh) (sh_ctx sh) (Some receipt)
              | Some _ => sh
              end, SDone)
      else None
  | _, _ => None
  end.

(** ** Send *)

(** The loop of [Send]: running, returned from but waiting for the goroutines, and
    returned to the caller. *)
Inductive sending :=
| Looping
| Leaving (receipt : option TxReceipt) (err : option error)
| Sent (receipt : option TxReceipt) (err : option error).

Record manager := mkManager { mg_shared : shared; mg_senders : list sender; mg_loop : sending }.

(** The two copies of the manager, which differ in the error they return with a receipt. *)
Inductive copy := BssCore | OpProposer.
Definition returnReceipt (receipt : TxReceipt) : option error :=
  if tr_Status receipt =? ReceiptStatusFailed then Some ErrReverted else None.
Definition returnReceipt_proposer (receipt : TxReceipt) : option error := None.

Context (manager_copy : copy).

Definition onReceipt (receipt : TxReceipt) : option error :=
  match manager_copy with
  | BssCore => returnReceipt receipt
  | OpProposer => returnReceipt_proposer receipt
  end.

(** The steps of the loop itself: a resubmission tick, the context, a receipt, and the
    wait group; and the caller's context, which is canceled from outside. *)
Definition loop_step (a : action) (m : manager) : option manager :=
  match mg_loop m, a with
  | Looping, AResubmit =>
      Some (if IsWaitingForConfirmation (sh_state (mg_shared m)) then m
            else mkManager (mg_shared m) (mg_senders m ++ [SUpdate]) Looping)
  | Looping, ALoopDone =>
      match sh_ctx (mg_shared m) with
      | Some e => Some (mkManager (mg_shared m) (mg_senders m) (Leaving None (Some e)))
      | None => None
      end
  | Looping, ALoopReceipt =>
      match sh_chan (mg_shared m) with
      | Some receipt =>
          let sh := mkShared (sh_state (mg_shared m)) (sh_ctx (mg_shared m)) None in
          Some (mkManager (cancel context_Canceled sh) (mg_senders m)
                  (Leaving (Some receipt) (onReceipt receipt)))
      | None => None
      end
  | Leaving r e, AWait =>
      if forallb (λ t, bool_decide (t = SDone)) (mg_senders m) then
        Some (mkManager (mg_shared m) (mg_senders m) (Sent r e))
      else None
  | _, ACancel err => Some (mkManager (cancel err (mg_shared m)) (mg_senders m) (mg_loop m))
  | _, _ => None
  end.

(** A goroutine or the loop takes a step. *)
Inductive mstep : manager → action → manager → Prop :=
| ms_sender m k t a sh t' :
    mg_senders m !! k = Some t → sender_step a (mg_shared m) t = Some (sh, t') →
    mstep m a (mkManager sh (<[k := t']> (mg_senders m)) (mg_loop m))
| ms_loop m a m' : loop_step a m = Some m' → mstep m a m'.

(** [Send] up to its loop: the first goroutine has been started. *)
Definition Send_init (s : SendState) : manager :=
  mkManager (mkShared s None None) [SUpdate] Looping.

(** The runs of [Send] with the actions they take. *)
Inductive sends (limit : Z) : list action → manager → Prop :=
| sends_init s : NewSendState limit = Ok s → sends limit [] (Send_init s)
| sends_step tr m a m' : sends limit tr m → mstep m a m' → sends limit (tr ++ [a]) m'.

(** ** SendState by its history *)

Definition state_action (s : SendState) (a : action) : SendState :=
  match a with
  | AProcess _ err => ProcessSendError s err
  | AMined tx => TxMined s tx
  | ANotMined tx => TxNotMined s tx
  | _ => s
  end.
Definition replay (limit : Z) (tr : list action) : SendState :=
  foldl state_action (mkSendState ∅ 0 limit) tr.

(** Reference definitions on a history, the newest action first: a transaction counts as
    mined if the last observation of it says so, and the errors that count are those
    since the last time the only mined transaction was lost. *)
Fixpoint mined_in (tx : Hash) (h : list action) : bool :=
  match h with
  | [] => false
  | AMined tx' :: h => bool_decide (tx' = tx) || mined_in tx h
  | ANotMined tx' :: h => negb (bool_decide (tx' = tx)) && mined_in tx h
  | _ :: h => mined_in tx h
  end.
Fixpoint mentioned (h : list action) : list Hash :=
  match h with
  | [] => []
  | AMined tx :: h => tx :: mentioned h
  | _ :: h => mentioned h
  end.
Definition none_mined (h : list action) : bool :=
  forallb (λ tx, negb (mined_in tx h)) (mentioned h).
Fixpoint too_low (h : list action) : Z :=
  match h with
  | [] => 0
  | AProcess _ (Some e) :: h => (if nonceTooLow e then 1 else 0) + too_low h
  | ANotMined tx :: h => if mined_in tx h && none_mined (ANotMined tx :: h) then 0 else too_low h
  | _ :: h => too_low h
  end.

Lemma mined_in_mentioned tx h : mined_in tx h = true → tx ∈ mentioned h.
Proof.
  induction h as [|[] h IH]; cbn; try done.
  - intros [Ht|Hm]%orb_true_iff; [apply bool_decide_eq_true in Ht as ->; left|right; auto].
  - intros [_ Hm]%andb_true_iff. auto.
Qed.

Lemma none_mined_spec h : none_mined h = true ↔ ∀ tx, mined_in tx h = false.
Proof.
  unfold none_mined. rewrite forallb_forall. split.
  - intros Hf tx. destruct (mined_in tx h) eqn:E; [|done].
    pose proof (mined_in_mentioned _ _ E) as Hm. apply list_elem_of_In in Hm. apply Hf in Hm. by rewrite E in Hm.
  - intros Hn tx _. by rewrite Hn.
Qed.

Lemma too_low_bounds h : 0 <= too_low h <= len h.
Proof.
  induction h as [|a h IH]; [by vm_compute|]. unfold len in *. cbn [length].
  destruct a as [| |tx [e|]| | | | | tx| | | | | | | |]; cbn [too_low]; repeat case_match; lia.
Qed.

Lemma replay_snoc limit tr a : replay limit (tr ++ [a]) = state_action (replay limit tr) a.
Proof. unfold replay. by rewrite foldl_app. Qed.

Lemma replay_history limit h :
  len h < 2 ^ 64 →
  let s := replay limit (reverse h) in
  (∀ tx, tx ∈ ss_minedTxs s ↔ mined_in tx h = true) ∧
  ss_nonceTooLowCount s = too_low h ∧ ss_safeAbortNonceTooLowCount s = limit.
Proof.
  induction h as [|a h IH]; intros Hl; [split; [set_solver|done]|].
  assert (Hl' : len h < 2 ^ 64) by (unfold len in *; cbn [length] in Hl; lia).
  destruct (IH Hl') as (Hm & Hc & Hs). clear IH. cbn zeta. rewrite reverse_cons, replay_snoc.
  pose proof (too_low_bounds h) as Hb.
  destruct a as [| |tx [e|]| | |tx| | tx| | | | | | | |]; cbn [state_action]; try done.
  - cbn [ProcessSendError mined_in too_low]. destruct (nonceTooLow e) eqn:En; [|done]. cbn.
    split_and!; [done| |done]. rewrite Hc. unfold len in *. cbn [length] in Hl. rewrite u64_small; [lia|unfold is_u64; lia].
  - split_and!; [|done..]. intros tx'. cbn. rewrite elem_of_union, elem_of_singleton, Hm, orb_true_iff, bool_decide_eq_true. naive_solver.
  - assert (Hm' : ∀ tx', tx' ∈ ss_minedTxs (replay limit (reverse h)) ∖ {[tx]} ↔ mined_in tx' (ANotMined tx :: h) = true).
    { intros tx'. cbn. rewrite elem_of_difference, elem_of_singleton, Hm, andb_true_iff, negb_true_iff, bool_decide_eq_false. naive_solver. }
    split_and!; [exact Hm'| |done]. cbn [TxNotMined ss_nonceTooLowCount too_low]. rewrite Hc.
    replace (bool_decide (tx ∈ _)) with (mined_in tx h)
      by (destruct (mined_in tx h) eqn:E; symmetry; [apply bool_decide_eq_true_2|apply bool_decide_eq_false_2]; rewrite Hm, E; done).
    replace (bool_decide (_ = ∅)) with (none_mined (ANotMined tx :: h)).
    { by rewrite andb_comm. }
    apply eq_true_iff_eq. rewrite none_mined_spec, bool_decide_eq_true. split.
    + intros Hn. apply set_eq. intros tx'. rewrite Hm', Hn. set_solver.
    + intros He tx'. destruct (mined_in _ _) eqn:E; [|done]. apply Hm' in E. set_solver.
Qed.

(** ** Invariants of a run *)

(** What the trace says about a transaction, in this order: it was published without an
    error; the node returned this receipt for it; and then a tip with enough
    confirmations. *)
Definition published (tr : list action) (tx : Hash) : Prop := ASend tx None ∈ tr.
Definition received (tr : list action) (tx : Hash) (r : TxReceipt) : Prop :=
  ∃ tr1 err tr2, tr = tr1 ++ AReceipt tx (Some r) err :: tr2 ∧ published tr1 tx.
Definition confirmed (tr : list action) (r : TxReceipt) : Prop :=
  ∃ tx tip tr1 tr2, tr = tr1 ++ ABlockNumber tx (Ok tip) :: tr2 ∧ received tr1 tx r ∧
    isConfirmed numConfirmations r tip = true.

Definition sender_inv (tr : list action) (t : sender) : Prop :=
  match t with
  | SSent tx None | SQuery tx | SSelect tx => published tr tx
  | SNotMined tx => published tr tx ∧ AReceipt tx None None ∈ tr
  | SMined tx r | STip tx r => published tr tx ∧ received tr tx r
  | SDeliver _ r => confirmed tr r
  | _ => True
  end.

Definition loop_inv (tr : list action) (m : manager) : Prop :=
  match mg_loop m with
  | Looping => True
  | Leaving r e | Sent r e =>
      is_Some (sh_ctx (mg_shared m)) ∧
      match r with
      | Some r => confirmed tr r ∧ e = onReceipt r
      | None => ∃ err, e = Some err ∧ sh_ctx (mg_shared m) = Some err
      end ∧
      (match mg_loop m with Sent _ _ => Forall (eq SDone) (mg_senders m) | _ => True end)
  end.

(** Why the context is done: the caller, the loop leaving with a receipt, or an abort. *)
Definition ctx_inv (limit : Z) (tr : list action) (m : manager) : Prop :=
  ∀ e, sh_ctx (mg_shared m) = Some e →
  ACancel e ∈ tr ∨ ALoopReceipt ∈ tr ∨
  (e = context_Canceled ∧ ∃ tr1 tr2, tr = tr1 ++ tr2 ∧ ShouldAbortImmediately (replay limit tr1) = true).

Definition manager_inv (limit : Z) (tr : list action) (m : manager) : Prop :=
  sh_state (mg_shared m) = replay limit tr ∧
  Forall (sender_inv tr) (mg_senders m) ∧
  (∀ r, sh_chan (mg_shared m) = Some r → confirmed tr r) ∧
  loop_inv tr m ∧ ctx_inv limit tr m ∧
  (ALoopReceipt ∈ tr → match mg_loop m with Looping => False | Leaving r _ | Sent r _ => is_Some r end).

Lemma received_mono tr a tx r : received tr tx r → received (tr ++ [a]) tx r.
Proof. intros (tr1 & err & tr2 & -> & Hp). exists tr1, err, (tr2 ++ [a]). by rewrite <- app_assoc. Qed.

Lemma confirmed_mono tr a r : confirmed tr r → confirmed (tr ++ [a]) r.
Proof.
  intros (tx & tip & tr1 & tr2 & -> & Hr & Hc). exists tx, tip, tr1, (tr2 ++ [a]). by rewrite <- app_assoc.
Qed.

Lemma sender_inv_mono tr a t : sender_inv tr t → sender_inv (tr ++ [a]) t.
Proof.
  destruct t as [| |tx [e|]| | | | | | | |]; cbn; unfold published; try set_solver;
    try (intros [Hp Hr]; split; [set_solver|by apply received_mono]).
  apply confirmed_mono.
Qed.

Lemma ctx_inv_mono limit tr a m m' :
  sh_ctx (mg_shared m') = sh_ctx (mg_shared m) → ctx_inv limit tr m → ctx_inv limit (tr ++ [a]) m'.
Proof.
  intros Hc Hi e He. rewrite Hc in He. destruct (Hi e He) as [Ha|[Ha|(-> & tr1 & tr2 & -> & Hs)]].
  - left. set_solver.
  - right; left. set_solver.
  - right; right. split; [done|]. exists tr1, (tr2 ++ [a]). by rewrite app_assoc.
Qed.

(** Canceling keeps the first error, so only the first reason counts. *)
Lemma cancel_ctx_inv limit tr a m e m' :
  sh_ctx (mg_shared m') = sh_ctx (cancel e (mg_shared m)) → ctx_inv limit tr m →
  (a = ACancel e ∨ a = ALoopReceipt ∨
   e = context_Canceled ∧ ShouldAbortImmediately (replay limit tr) = true) →
  ctx_inv limit (tr ++ [a]) m'.
Proof.
  intros Hc Hi Ha. unfold cancel in Hc. destruct (sh_ctx (mg_shared m)) as [e0|] eqn:E; cbn in Hc.
  - eapply ctx_inv_mono; [|done]. by rewrite E.
  - intros e' He'. rewrite Hc in He'. injection He' as <-.
    destruct Ha as [->|[->|[-> Hs]]]; [left; set_solver|right; left; set_solver|right; right].
    split; [done|]. by exists tr, [a].
Qed.

(** What a step of a goroutine does to the shared state. *)
Lemma sender_step_shared a sh t sh' t' :
  sender_step a sh t = Some (sh', t') →
  sh_state sh' = state_action (sh_state sh) a ∧
  (sh_ctx sh' = sh_ctx sh ∨
   sh_ctx sh' = sh_ctx (cancel context_Canceled sh) ∧ ShouldAbortImmediately (sh_state sh) = true) ∧
  (∀ r, sh_chan sh' = Some r → sh_chan sh = Some r ∨ ∃ tx, t = SDeliver tx r) ∧
  (∀ e, a ≠ ACancel e) ∧ a ≠ ALoopReceipt.
Proof.
  intros HS. destruct t, a; try done; cbn in HS; repeat case_match; simplify_eq; bool_props;
    destruct_and?; subst; split_and!; cbn; try done; try (by left); try (by eauto);
    intros r Hr; [left; congruence|right; injection Hr as <-; eauto].
Qed.

Lemma sender_step_inv tr a sh t sh' t' :
  sender_inv tr t → sender_step a sh t = Some (sh', t') → sender_inv (tr ++ [a]) t'.
Proof.
  intros Hold HS. assert (Ha : a ∈ tr ++ [a]) by set_solver. pose proof (sender_inv_mono _ a _ Hold) as Hi.
  destruct t, a; try done; cbn in HS; repeat case_match; simplify_eq; bool_props;
    destruct_and?; subst; cbn in *; try done.
  - by destruct err.
  - split; [done|]. by eexists tr, _, [].
  - destruct Hold as [_ Hr]. by eexists _, _, tr, [].
  - by destruct Hi.
  - by destruct Hi.
  - by destruct Hi.
Qed.

Lemma loop_inv_sender tr m a sh k t t' :
  loop_inv tr m → mg_senders m !! k = Some t → sender_step a (mg_shared m) t = Some (sh, t') →
  loop_inv (tr ++ [a]) (mkManager sh (<[k := t']> (mg_senders m)) (mg_loop m)).
Proof.
  intros Hl Hk HS. destruct (sender_step_shared _ _ _ _ _ HS) as (_ & E2 & _).
  assert (Hctx : sh_ctx sh = sh_ctx (mg_shared m) ∨ sh_ctx (mg_shared m) = None).
  { destruct E2 as [?|[E2 _]]; [by left|]. unfold cancel in E2. destruct (sh_ctx (mg_shared m)); auto. }
  unfold loop_inv in *. cbn [mg_shared mg_senders mg_loop]. destruct (mg_loop m) as [|r e|r e]; [done|..];
    destruct Hl as (Hx & Hr1 & Hr2); (destruct Hctx as [->|E]; [|destruct Hx; congruence]);
    (split_and!; [done| |]); try done;
    try (destruct r; [|done]; destruct Hr1; split; [by apply confirmed_mono|done]).
  apply Forall_insert; [done|]. rewrite Forall_lookup in Hr2. rewrite <- (Hr2 k t Hk) in HS. by destruct a.
Qed.

Lemma sender_manager_inv limit tr m k t a sh t' :
  manager_inv limit tr m → mg_senders m !! k = Some t → sender_step a (mg_shared m) t = Some (sh, t') →
  manager_inv limit (tr ++ [a]) (mkManager sh (<[k := t']> (mg_senders m)) (mg_loop m)).
Proof.
  intros (Hs & Hts & Hch & Hl & Hc & Hr) Hk HS.
  destruct (sender_step_shared _ _ _ _ _ HS) as (E1 & E2 & E3 & E4 & E5).
  assert (Ht : sender_inv tr t) by (rewrite Forall_lookup in Hts; by apply (Hts k)).
  split_and!; [| | |by eapply loop_inv_sender| |]; cbn [mg_shared mg_senders mg_loop].
  - by rewrite replay_snoc, E1, Hs.
  - apply Forall_insert; [|by eapply sender_step_inv].
    eapply Forall_impl; [done|]. intros ?. apply sender_inv_mono.
  - intros r Hsh. apply confirmed_mono. destruct (E3 r Hsh) as [?|[tx ->]]; [by apply Hch|done].
  - destruct E2 as [E2|[E2 E2']]; [by eapply ctx_inv_mono|].
    eapply cancel_ctx_inv; [exact E2|done|]. right; right. by rewrite <- Hs.
  - intros Hin. apply Hr. apply elem_of_app in Hin as [?|?%list_elem_of_singleton]; [done|congruence].
Qed.

Lemma loop_inv_mono tr a sh sh' ts lp :
  (is_Some (sh_ctx sh) → sh_ctx sh' = sh_ctx sh) →
  loop_inv tr (mkManager sh ts lp) → loop_inv (tr ++ [a]) (mkManager sh' ts lp).
Proof.
  unfold loop_inv. cbn [mg_shared mg_senders mg_loop].
  intros Hctx Hl. destruct lp as [|r e|r e]; [done|..]; destruct Hl as (Hx & Hr1 & Hr2);
    rewrite (Hctx Hx); (split_and!; [done| |done]);
    (destruct r; [|done]; destruct Hr1; split; [by apply confirmed_mono|done]).
Qed.

Lemma loop_manager_inv limit tr m a m' :
  manager_inv limit tr m → loop_step a m = Some m' → manager_inv limit (tr ++ [a]) m'.
Proof.
  intros (Hs & Hts & Hch & Hl & Hc & Hr) HL. destruct m as [sh ts lp].
  cbn [mg_shared mg_senders mg_loop] in *.
  assert (Hts' : Forall (sender_inv (tr ++ [a])) ts)
    by (eapply Forall_impl; [done|]; intros ?; apply sender_inv_mono).
  assert (Hch' : ∀ r, sh_chan sh = Some r → confirmed (tr ++ [a]) r)
    by (intros; by apply confirmed_mono, Hch).
  assert (Hr' : a ≠ ALoopReceipt → ALoopReceipt ∈ tr ++ [a] →
    match lp with Looping => False | Leaving r _ | Sent r _ => is_Some r end).
  { intros Ha Hin. apply Hr. apply elem_of_app in Hin as [?|?%list_elem_of_singleton]; [done|congruence]. }
  assert (Hcancel : ∀ e, a = ACancel e → m' = mkManager (cancel e sh) ts lp →
    manager_inv limit (tr ++ [a]) m').
  { intros e -> ->. split_and!; cbn; try done.
    - by rewrite replay_snoc, Hs.
    - eapply loop_inv_mono; [|exact Hl]. unfold cancel. cbn. intros [? ->]. done.
    - eapply (cancel_ctx_inv _ _ _ (mkManager sh ts lp) e); [reflexivity|exact Hc|by left].
    - by apply Hr'. }
  destruct lp as [|r e|r e], a; cbn in HL; try done;
    try (injection HL as <-; by eapply Hcancel).
  - injection HL as <-. destruct (IsWaitingForConfirmation _);
      (split_and!; cbn; [by rewrite replay_snoc| |done|done|by eapply ctx_inv_mono|by apply Hr']); [done|].
    apply Forall_app. by split; [|constructor].
  - destruct (sh_ctx sh) as [e|] eqn:Ex; [|done]. injection HL as <-.
    split_and!; cbn; [by rewrite replay_snoc|done|done| |by eapply ctx_inv_mono|by intros ?%Hr'].
    unfold loop_inv. cbn. rewrite Ex. split_and!; [done| |done]. by exists e.
  - destruct (sh_chan sh) as [r|] eqn:Ex; [|done]. injection HL as <-.
    split_and!; cbn; [by rewrite replay_snoc|done|done| 
      |eapply (cancel_ctx_inv _ _ _ (mkManager sh ts Looping) context_Canceled); [reflexivity|exact Hc|auto]|done].
    unfold loop_inv. cbn. split_and!; [by destruct (sh_ctx sh)|by apply Hch'|done|done].
  - destruct (forallb _ ts) eqn:Ef; [|done]. injection HL as <-.
    split_and!; cbn; [by rewrite replay_snoc|done|done| |by eapply ctx_inv_mono|by apply Hr'].
    destruct Hl as (Hx & Hr1 & _). unfold loop_inv. cbn. split_and!; [done| |].
    + destruct r; [|done]. destruct Hr1. split; [by apply confirmed_mono|done].
    + apply Forall_forall. intros t Ht. rewrite forallb_forall in Ef. apply list_elem_of_In, Ef in Ht. by bool_props.
Qed.

Lemma sends_inv limit tr m : sends limit tr m → manager_inv limit tr m.
Proof.
  induction 1 as [s HN|tr m a m' _ IH Hstep].
  - unfold NewSendState in HN. case_match; [done|]. injection HN as <-.
    split_and!; cbn; try done; [by constructor|set_solver].
  - destruct Hstep; [by eapply sender_manager_inv|by eapply loop_manager_inv].
Qed.

Lemma isConfirmed_spec r tip :
  is_u64 (tr_BlockNumber r) → is_u64 (tr_BlockNumber r + numConfirmations) → is_u64 (tip + 1) →
  isConfirmed numConfirmations r tip = true ↔ tr_BlockNumber r + numConfirmations - 1 <= tip.
Proof.
  intros H1 H2 H3. unfold isConfirmed. rewrite (u64_small (tr_BlockNumber r)), !u64_small by done.
  rewrite Z.leb_le. lia.
Qed.

Lemma ShouldAbort_history limit tr :
  len tr < 2 ^ 64 →
  ShouldAbortImmediately (replay limit tr) = true ↔
  (∀ tx, mined_in tx (reverse tr) = false) ∧ limit <= too_low (reverse tr).
Proof.
  intros Hl. destruct (replay_history limit (reverse tr)) as (Hm & Hc & Hs).
  { unfold len in *. by rewrite length_reverse. }
  rewrite reverse_involutive in *. unfold ShouldAbortImmediately. rewrite Hc, Hs.
  case_bool_decide as He; cbn; [|split; [done|]]; rewrite ?Z.leb_le.
  - split; [|tauto]. intros Hle. split; [|done]. intros tx. destruct (mined_in _ _) eqn:E; [|done].
    apply Hm in E. set_solver.
  - intros [Hn _]. exfalso. apply He, set_eq. intros tx. rewrite Hm, Hn. set_solver.
Qed.

(** ** Leaving the loop *)

(** The steps a goroutine takes at most until it is done, if it does not query again. *)
Definition sender_measure (t : sender) : nat :=
  match t with
  | SDone => 0
  | SSelect _ | SDeliver _ _ | SCheckAbort => 1
  | SNotMined _ | STip _ _ => 2
  | SMined _ _ => 3
  | SQuery _ => 4
  | SSent _ _ => 5
  | SSend _ => 6
  | SUpdate => 7
  end.
Definition senders_measure (ts : list sender) : nat :=
  foldr (λ t n, (sender_measure t + n)%nat) 0%nat ts.
Definition manager_measure (m : manager) : nat :=
  senders_measure (mg_senders m) + match mg_loop m with Sent _ _ => 0 | _ => 1 end.

(** A step other than waiting for another query or the caller canceling once more. *)
Definition settling (a : action) : Prop := a ≠ AQueryTick ∧ ∀ e, a ≠ ACancel e.

Lemma sender_step_measure a sh t sh' t' :
  settling a → sender_step a sh t = Some (sh', t') → (sender_measure t' < sender_measure t)%nat.
Proof.
  intros [Ha _] HS. destruct t, a; try done; cbn in HS; repeat case_match; simplify_eq; cbn; lia.
Qed.

(** With the context done no goroutine is stuck. *)
Lemma sender_progress sh t :
  is_Some (sh_ctx sh) → t ≠ SDone → ∃ a sh' t', settling a ∧ sender_step a sh t = Some (sh', t').
Proof.
  intros [e He] Ht.
  assert (Hset : ∀ a, (match a with AQueryTick | ACancel _ => false | _ => true end) = true → settling a)
    by (by intros []).
  destruct t as [|tx|tx err| |tx|tx r|tx r|tx|tx|tx r|]; try done.
  - by eexists (AUpdate (Err context_Canceled)), _, _; split; [apply Hset|].
  - eexists (ASend tx None), _, _. split; [by apply Hset|]. cbn. by rewrite bool_decide_eq_true_2.
  - eexists (AProcess tx err), _, _. split; [by apply Hset|]. cbn. by rewrite bool_decide_eq_true_2.
  - by eexists AAbortCheck, _, _; split; [apply Hset|].
  - eexists (AReceipt tx None None), _, _. split; [by apply Hset|]. cbn. by rewrite bool_decide_eq_true_2.
  - eexists (AMined tx), _, _. split; [by apply Hset|]. cbn. by rewrite bool_decide_eq_true_2.
  - eexists (ABlockNumber tx (Ok 0)), _, _. split; [by apply Hset|]. cbn. by rewrite bool_decide_eq_true_2.
  - eexists (ANotMined tx), _, _. split; [by apply Hset|]. cbn. by rewrite bool_decide_eq_true_2.
  - eexists ACtxDone, _, _. split; [by apply Hset|]. cbn. by rewrite He.
  - eexists (ADeliver tx r), _, _. split; [by apply Hset|]. cbn. by rewrite bool_decide_eq_true_2.
Qed.

Lemma senders_measure_insert ts (k : nat) t t' :
  ts !! k = Some t →
  (senders_measure (<[k := t']> ts) + sender_measure t = senders_measure ts + sender_measure t')%nat.
Proof.
  revert k. induction ts as [|t0 ts IH]; intros [|k] Hk; try done.
  - injection Hk as ->. unfold senders_measure. cbn. lia.
  - specialize (IH k Hk). change (<[S k := t']> (t0 :: ts)) with (t0 :: <[k := t']> ts).
    unfold senders_measure in *. cbn [foldr]. lia.
Qed.

Lemma mstep_measure m a m' :
  mg_loop m ≠ Looping → settling a → mstep m a m' → (manager_measure m' < manager_measure m)%nat.
Proof.
  intros Hl Ha HM. destruct HM as [m k t a sh t' Hk HS|m a m' HL]; unfold manager_measure; cbn [mg_senders mg_loop].
  - pose proof (sender_step_measure _ _ _ _ _ Ha HS). pose proof (senders_measure_insert _ _ _ t' Hk). lia.
  - destruct Ha as [_ Ha]. unfold loop_step in HL. destruct (mg_loop m), a; try done; try (exfalso; by eapply Ha).
    case_match; [|done]. injection HL as <-. cbn [mg_senders mg_loop]. lia.
Qed.

(** The loop stays left with the same result. *)
Lemma mstep_leaving m a m' r e :
  mg_loop m = Leaving r e ∨ mg_loop m = Sent r e → mstep m a m' →
  mg_loop m' = Leaving r e ∨ mg_loop m' = Sent r e.
Proof.
  intros Hl HM. destruct HM as [m k t a sh t' Hk HS|m a m' HL]; [done|]. unfold loop_step in HL.
  destruct Hl as [Hl|Hl]; rewrite Hl in HL; destruct a; try done; try (injection HL as <-; cbn; auto).
  case_match; [|done]. injection HL as <-. by right.
Qed.

Inductive msteps : manager → list action → manager → Prop :=
| msteps_nil m : msteps m [] m
| msteps_cons m a m1 acts m2 : mstep m a m1 → msteps m1 acts m2 → msteps m (a :: acts) m2.

Lemma sends_msteps limit tr m acts m' : sends limit tr m → msteps m acts m' → sends limit (tr ++ acts) m'.
Proof.
  intros HS HM. revert tr HS. induction HM as [m|m a m1 acts m2 H1 _ IH]; intros tr HS.
  - by rewrite app_nil_r.
  - rewrite cons_middle, app_assoc. apply IH. by eapply sends_step.
Qed.

(** ** Theorems *)

(** C37. When [Send] returns a receipt, all its goroutines are done, and in this order
    the transaction was published without an error, the node returned that receipt for
    it, and the node answered a later query for the tip with a height at which the receipt
    has at least the required number of confirmations (for heights that fit 64 bits). The
    copy in bss-core returns an error with the receipt exactly if the transaction
    reverted, [ErrReverted]; the copy in op-proposer never returns one. *)
Theorem Send_receipt limit tr m r e :
  sends limit tr m → mg_loop m = Sent (Some r) e →
  (e = match manager_copy with
       | BssCore => if tr_Status r =? ReceiptStatusFailed then Some ErrReverted else None
       | OpProposer => None
       end) ∧
  Forall (eq SDone) (mg_senders m) ∧
  ∃ tx tip err tr1 tr2 tr3 tr4,
    tr = tr1 ++ [ASend tx None] ++ tr2 ++ [AReceipt tx (Some r) err] ++ tr3 ++ [ABlockNumber tx (Ok tip)] ++ tr4 ∧
    (is_u64 (tr_BlockNumber r) → is_u64 (tr_BlockNumber r + numConfirmations) → is_u64 (tip + 1) →
     tr_BlockNumber r + numConfirmations - 1 <= tip).
Proof.
  intros (_ & _ & _ & Hl & _)%sends_inv Hsent. unfold loop_inv in Hl. rewrite Hsent in Hl.
  destruct Hl as (_ & [(tx & tip & tr' & tr4 & -> & (tr'' & err & tr3 & -> & Hp) & Hc) ->] & Hd).
  split_and!; [done..|]. apply list_elem_of_split in Hp as (tr1 & tr2 & ->).
  exists tx, tip, err, tr1, tr2, tr3, tr4. split; [by rewrite <- !app_assoc|]. intros. by apply isConfirmed_spec.
Qed.

(** When [Send] returns without a receipt, the caller canceled it, or at some moment
    no published transaction counted as mined while the node had refused the nonce as too
    low at least the configured number of times since the last mined transaction was
    lost in a reorganisation. *)
Theorem Send_gives_up limit tr m e :
  sends limit tr m → mg_loop m = Sent None e → len tr < 2 ^ 64 →
  ∃ err, e = Some err ∧
    (ACancel err ∈ tr ∨
     err = context_Canceled ∧ ∃ tr1 tr2, tr = tr1 ++ tr2 ∧
       (∀ tx, mined_in tx (reverse tr1) = false) ∧ limit <= too_low (reverse tr1)).
Proof.
  intros (_ & _ & _ & Hl & Hc & Hr)%sends_inv Hsent Hlen. unfold loop_inv in Hl. rewrite Hsent in Hl, Hr.
  destruct Hl as (_ & (err & -> & Hx) & _). exists err. split; [done|].
  destruct (Hc err Hx) as [Ha|[Ha|(-> & tr1 & tr2 & -> & Hs)]]; [by left|by destruct (Hr Ha)|].
  right. split; [done|]. exists tr1, tr2. split; [done|]. apply ShouldAbort_history; [|done].
  unfold len in *. rewrite length_app in Hlen. lia.
Qed.

(** Once the loop of [Send] is left, with whatever result, [Send] returns: as long as
    the goroutines do not start another receipt query instead of noticing the canceled
    context, there are at most seven more steps for each of them, and the steps end with
    [Send] returning that result. *)
Theorem Send_returns limit tr m r e acts m' :
  sends limit tr m → mg_loop m = Leaving r e → msteps m acts m' → Forall settling acts →
  (length acts ≤ 7 * length (mg_senders m) + 1)%nat ∧
  ((∀ a m'', settling a → ¬ mstep m' a m'') → mg_loop m' = Sent r e).
Proof.
  intros HS Hl HM Ha. split.
  - assert (Hm : (length acts + manager_measure m' ≤ manager_measure m)%nat).
    { assert (Hnl : mg_loop m = Leaving r e ∨ mg_loop m = Sent r e) by auto. clear Hl HS.
      induction HM as [m|m a m1 acts m2 H1 _ IH]; [done|]. apply Forall_cons in Ha as [Ha1 Ha2].
      pose proof (mstep_leaving _ _ _ _ _ Hnl H1) as Hnl1. specialize (IH Ha2 Hnl1).
      apply mstep_measure in H1; [cbn; lia| |done]. by destruct Hnl as [->| ->]. }
    assert (Hb : ∀ ts, (senders_measure ts ≤ 7 * length ts)%nat).
    { intros ts. induction ts as [|t ts IH]; [done|]. cbn [senders_measure foldr length] in *. unfold senders_measure in IH. destruct t; cbn [sender_measure]; lia. }
    specialize (Hb (mg_senders m)). unfold manager_measure at 2 in Hm. case_match; lia.
  - intros Hstuck.
    assert (Hnl : mg_loop m' = Leaving r e ∨ mg_loop m' = Sent r e).
    { assert (Hnl : mg_loop m = Leaving r e ∨ mg_loop m = Sent r e) by auto. clear Hl HS Ha Hstuck.
      induction HM as [m|m a m1 acts m2 H1 _ IH]; [done|]. apply IH. by eapply mstep_leaving. }
    destruct Hnl as [Hl'|]; [exfalso|done].
    pose proof (sends_msteps _ _ _ _ _ HS HM) as HS'. apply sends_inv in HS' as (_ & _ & _ & Hli & _).
    unfold loop_inv in Hli. rewrite Hl' in Hli. destruct Hli as (Hctx & _).
    destruct (forallb (λ t, bool_decide (t = SDone)) (mg_senders m')) eqn:Ef.
    + eapply (Hstuck AWait); [done|]. apply ms_loop. unfold loop_step. by rewrite Hl', Ef.
    + apply not_true_iff_false in Ef. apply Ef, forallb_forall. intros t Ht%list_elem_of_In.
      apply bool_decide_eq_true. destruct (decide (t = SDone)) as [|Hne]; [done|exfalso].
      apply list_elem_of_lookup in Ht as [k Hk].
      destruct (sender_progress _ _ Hctx Hne) as (a & sh & t' & Hset & Hst).
      by eapply (Hstuck a); [|eapply ms_sender].
Qed.

(** [TxNotMined] is only called after the node has returned two nil values. *)
Lemma sends_not_mined limit tr m tx : sends limit tr m → ANotMined tx ∈ tr → AReceipt tx None None ∈ tr.
Proof.
  induction 1 as [|tr m a m' HS IH Hstep]; [set_solver|]. intros Hin.
  apply elem_of_app in Hin as [Hin|<-%list_elem_of_singleton]; [set_solver|].
  apply elem_of_app. left. apply sends_inv in HS as (_ & Hts & _).
  inversion Hstep as [? k t ? sh t' Hk Hst|? ? ? HL]; subst.
  - rewrite Forall_lookup in Hts. specialize (Hts k t Hk). destruct t; try done.
    cbn in Hst. case_bool_decide; [|done]. subst. by destruct Hts.
  - unfold loop_step in HL. by destruct (mg_loop m).
Qed.

(** A node that answers the query for a missing receipt with an error, as ethclient does,
    instead of with two nil values: a transaction once seen as mined counts as mined for
    ever, and no resubmission tick publishes again, also when a reorganisation has
    removed the transaction. *)
Theorem reorg_stops_resubmission limit tr m tx :
  sends limit tr m → AMined tx ∈ tr → (∀ tx', AReceipt tx' None None ∉ tr) →
  ∀ m', loop_step AResubmit m = Some m' → m' = m.
Proof.
  intros HS Hin Hnone m' HL.
  assert (Hno : ∀ tx', ANotMined tx' ∉ tr) by (intros ? ?; by eapply Hnone, sends_not_mined).
  assert (Hw : IsWaitingForConfirmation (sh_state (mg_shared m)) = true).
  { apply sends_inv in HS as (-> & _). unfold IsWaitingForConfirmation.
    apply negb_true_iff, bool_decide_eq_false. intros He.
    assert (Hmem : tx ∈ ss_minedTxs (replay limit tr)); [|rewrite He in Hmem; set_solver].
    clear Hnone HL He. induction tr as [|a tr IH] using rev_ind; [set_solver|]. rewrite replay_snoc.
    apply elem_of_app in Hin as [Hin|<-%list_elem_of_singleton]; [|cbn; set_solver].
    assert (Hmem : tx ∈ ss_minedTxs (replay limit tr)) by (apply IH; set_solver).
    destruct a as [| |? [e|]| | | | | tx'| | | | | | | |]; try done; cbn; [by case_match|set_solver|].
    exfalso. apply (Hno tx'). set_solver. }
  unfold loop_step in HL. destruct (mg_loop m); try done. rewrite Hw in HL. by injection HL as <-.
Qed.

(** After [Send] has returned nothing happens any more. *)
Lemma sent_final m r e a m' :
  Forall (eq SDone) (mg_senders m) → mg_loop m = Sent r e → settling a → ¬ mstep m a m'.
Proof.
  intros Hd Hl [_ Ha] HM. destruct HM as [m k t a sh t' Hk HS|m a m' HL].
  - rewrite Forall_lookup in Hd. rewrite <- (Hd k t Hk) in HS. by destruct a.
  - unfold loop_step in HL. rewrite Hl in HL. destruct a; try done. by eapply Ha.
Qed.

(** ** Running a schedule *)

(** Who takes each step: a goroutine by its number, or the loop. *)
Fixpoint runSchedule (m : manager) (sched : list (option nat * action)) : option manager :=
  match sched with
  | [] => Some m
  | (Some k, a) :: sched =>
      match mg_senders m !! k with
      | Some t =>
          match sender_step a (mg_shared m) t with
          | Some (sh, t') => runSchedule (mkManager sh (<[k := t']> (mg_senders m)) (mg_loop m)) sched
          | None => None
          end
      | None => None
      end
  | (None, a) :: sched =>
      match loop_step a m with
      | Some m' => runSchedule m' sched
      | None => None
      end
  end.

Lemma runSchedule_msteps sched m m' : runSchedule m sched = Some m' → msteps m (snd <$> sched) m'.
Proof.
  revert m. induction sched as [|[[k|] a] sched IH]; intros m HR; cbn in HR.
  - injection HR as <-. constructor.
  - destruct (mg_senders m !! k) as [t|] eqn:Hk; [|done].
    destruct (sender_step a (mg_shared m) t) as [[sh t']|] eqn:Hs; [|done].
    econstructor; [by eapply ms_sender|by apply IH].
  - destruct (loop_step a m) as [m1|] eqn:Hl; [|done]. econstructor; [by apply ms_loop|by apply IH].
Qed.

Lemma runSchedule_sends limit s sched m :
  NewSendState limit = Ok s → runSchedule (Send_init s) sched = Some m →
  sends limit (snd <$> sched) m.
Proof.
  intros Hs HR. apply (sends_msteps limit [] (Send_init s)); [by constructor|by apply runSchedule_msteps].
Qed.
End TxMgr.

(** ** Fee cap *)

Definition CalcGasFeeCap (baseFee gasTipCap : Z) : Z := gasTipCap + baseFee * 2.

(** ** Witnesses *)

Definition example_tooLow (e : error) : bool := bool_decide (e = ErrorNew "nonce too low").
Definition example_canceled (e : error) : bool := bool_decide (e = context_Canceled).
Definition example_tx_receipt : TxReceipt := mkTxReceipt 1 100.

(** The first transaction is published and mined, lost in a reorganisation, published
    again with a higher price and confirmed at the second query. *)
Definition example_schedule : list (option nat * action) :=
  let tx1 := example_hash 1 in let tx2 := example_hash 2 in
  [(Some 0%nat, AUpdate (Ok tx1)); (Some 0%nat, ASend tx1 None); (Some 0%nat, AProcess tx1 None);
   (Some 0%nat, AReceipt tx1 (Some (mkTxReceipt 1 99)) None); (Some 0%nat, AMined tx1);
   (Some 0%nat, ABlockNumber tx1 (Ok 99)); (Some 0%nat, AQueryTick); (None, AResubmit);
   (Some 0%nat, AReceipt tx1 None None); (Some 0%nat, ANotMined tx1); (None, AResubmit);
   (Some 1%nat, AUpdate (Ok tx2)); (Some 1%nat, ASend tx2 None); (Some 1%nat, AProcess tx2 None);
   (Some 1%nat, AReceipt tx2 (Some example_tx_receipt) None); (Some 1%nat, AMined tx2);
   (Some 1%nat, ABlockNumber tx2 (Ok 102)); (Some 1%nat, ADeliver tx2 example_tx_receipt);
   (None, ALoopReceipt)].
Definition example_leave : list (option nat * action) := [(Some 0%nat, ACtxDone); (None, AWait)].

Definition run_example (sched : list (option nat * action)) : manager :=
  default (Send_init (mkSendState ∅ 0 2))
    (runSchedule example_tooLow example_canceled 3 BssCore (Send_init (mkSendState ∅ 0 2)) sched).

Definition completes (m : manager) (sched : list (option nat * action)) : bool :=
  match runSchedule example_tooLow example_canceled 3 BssCore m sched with
  | Some _ => true
  | None => false
  end.

Lemma run_example_sends sched :
  completes (Send_init (mkSendState ∅ 0 2)) sched = true →
  sends example_tooLow example_canceled 3 BssCore 2 (snd <$> sched) (run_example sched).
Proof.
  unfold completes, run_example. intros Hc. apply (runSchedule_sends _ _ _ _ 2 (mkSendState ∅ 0 2)); [done|].
  by destruct (runSchedule _ _ _ _ _ sched).
Qed.

Lemma Send_receipt_witness :
  let tr := snd <$> (example_schedule ++ example_leave) in
  None = returnReceipt example_tx_receipt ∧
  Forall (eq SDone) (mg_senders (run_example (example_schedule ++ example_leave))) ∧
  ∃ tx tip err tr1 tr2 tr3 tr4,
    tr = tr1 ++ [ASend tx None] ++ tr2 ++ [AReceipt tx (Some example_tx_receipt) err] ++ tr3 ++
         [ABlockNumber tx (Ok tip)] ++ tr4 ∧
    (is_u64 100 → is_u64 (100 + 3) → is_u64 (tip + 1) → 100 + 3 - 1 <= tip).
Proof.
  apply (Send_receipt example_tooLow example_canceled 3 BssCore 2
    _ (run_example (example_schedule ++ example_leave)) example_tx_receipt None).
  - apply run_example_sends. vm_compute. reflexivity.
  - vm_compute. reflexivity.
Defined.

(** The nonce is refused twice: the manager gives up. *)
Definition example_refused : list (option nat * action) :=
  let tx1 := example_hash 1 in let e := Some (ErrorNew "nonce too low") in
  [(Some 0%nat, AUpdate (Ok tx1)); (Some 0%nat, ASend tx1 e); (Some 0%nat, AProcess tx1 e);
   (Some 0%nat, AAbortCheck); (None, AResubmit);
   (Some 1%nat, AUpdate (Ok tx1)); (Some 1%nat, ASend tx1 e); (Some 1%nat, AProcess tx1 e);
   (Some 1%nat, AAbortCheck); (None, ALoopDone); (None, AWait)].

Lemma Send_gives_up_witness :
  let tr := snd <$> example_refused in
  ∃ err, Some context_Canceled = Some err ∧
    (ACancel err ∈ tr ∨
     err = context_Canceled ∧ ∃ tr1 tr2, tr = tr1 ++ tr2 ∧
       (∀ tx, mined_in tx (reverse tr1) = false) ∧ 2 <= too_low example_tooLow (reverse tr1)).
Proof.
  apply (Send_gives_up example_tooLow example_canceled 3 BssCore 2 _ (run_example example_refused)).
  - apply run_example_sends. vm_compute. reflexivity.
  - vm_compute. reflexivity.
  - by vm_compute.
Defined.

Lemma Send_returns_witness :
  (length (snd <$> example_leave) ≤ 7 * 2 + 1)%nat ∧
  mg_loop (run_example (example_schedule ++ example_leave)) = Sent (Some example_tx_receipt) None.
Proof.
  assert (HR := Send_returns example_tooLow example_canceled 3 BssCore 2 (snd <$> example_schedule)
    (run_example example_schedule) (Some example_tx_receipt) None (snd <$> example_leave)
    (run_example (example_schedule ++ example_leave))).
  destruct HR as [Hlen Hend].
  - apply run_example_sends. vm_compute. reflexivity.
  - vm_compute. reflexivity.
  - apply runSchedule_msteps. vm_compute. reflexivity.
  - repeat constructor; done.
  - split; [exact Hlen|]. apply Hend. intros a m'' Ha. eapply sent_final; [|vm_compute; reflexivity|done].
    vm_compute. repeat constructor.
Defined.
