(* ===== verification/RLPTypes.v ===== *)
(** * RLP: encoding and decoding of Go types

    The writers and decoders that l2geth/rlp/encode.go and decode.go select by
    reflection ([makeWriter], [makeDecoder] and the functions they return), for the types
    they support except raw values, interfaces and types with methods of their own.  A Go
    type is a [gotype], a [reflect.Value] a [goval], and struct tags are those of
    typecache.go.  Decoding a type inverts its encoding and accepts nothing else, with
    one exception: arrays of one byte, whose zero value is read without being consumed. *)

From S2P Require Import Prelude GoErrors RLP RLPStream.

(** ** Types and values *)

(** [tags] of a struct field; fields with the tag ["-"] are not part of a [gotype]. *)
Record tags := mkTags { tg_nilOK : bool; tg_nilKind : Kind; tg_tail : bool }.
Definition no_tags : tags := mkTags false Byte false.

#[warnings="-register-all"]
Inductive gotype :=
| TUint (bits : Z)
| TBool
| TString
| TBytes                                     (* slices of bytes *)
| TByteArray (n : nat)
| TBigInt                                    (* *big.Int *)
| TPtr (e : gotype)
| TSlice (e : gotype)
| TArray (n : nat) (e : gotype)
| TStruct (fs : list (tags * gotype)).

(** Values; strings and byte slices are [VStr], slices, arrays and structs [VList]. *)
#[warnings="-register-all"]
Inductive goval :=
| VUint (z : Z)
| VBool (b : bool)
| VStr (b : bytes)
| VBig (i : option Z)
| VPtr (o : option goval)
| VList (l : list goval).

(** [big.Int.Bytes] of a number that is not negative: the shortest big-endian form. *)
Definition big_Bytes (z : Z) : bytes :=
  be_encode (Z.to_nat (if z =? 0 then 0 else Z.log2 z / 8 + 1)) z.

(** [defaultNilKind] of typecache.go. *)
Definition defaultNilKind (t : gotype) : Kind :=
  match t with
  | TUint _ | TString | TBool | TBytes | TByteArray _ => String
  | _ => List
  end.

(** A value of another type than the writer's: reflection panics. *)
Definition bad_value {A} : result A := Panic "reflect: call of method on wrong Value".

(** ** Writers *)

Definition writeBool (b : bool) (w : encbuf) : encbuf :=
  append_str w [byte_of_Z (if b then 0x01 else 0x80)].

Definition writeString (s : bytes) (w : encbuf) : encbuf :=
  match s with
  | [b0] => if byte_val b0 <=? 0x7f then append_str w [b0]
            else append_str (encodeStringHeader w (len s)) s
  | _ => append_str (encodeStringHeader w (len s)) s
  end.

Definition writeBigInt (i : Z) (w : encbuf) : result encbuf :=
  if i <? 0 then Err (ErrorNew "rlp: cannot encode negative *big.Int")
  else if i =? 0 then Ok (append_str w [byte_of_Z 0x80])
  else Ok (encodeString w (big_Bytes i)).

Definition writeBigIntPtr (ptr : option Z) (w : encbuf) : result encbuf :=
  match ptr with
  | None => Ok (append_str w [byte_of_Z 0x80])
  | Some i => writeBigInt i w
  end.

Definition writer := goval → encbuf → result encbuf.

Definition writeElems (elem : writer) : list goval → encbuf → result encbuf :=
  fix go l w :=
    match l with
    | [] => Ok w
    | v :: l => w ← elem v w; go l w
    end.

(** Behind an error the buffer is not used any more. *)
Definition makeSliceWriter (ts : tags) (elem : writer) : writer := λ v w,
  match v with
  | VList l =>
      if tg_tail ts then writeElems elem l w
      else
        let '(w, lh) := encbuf_list w in
        w ← writeElems elem l w;
        Ok (listEnd w lh)
  | _ => bad_value
  end.

Fixpoint writeFields (fields : list writer) (l : list goval) (w : encbuf) : result encbuf :=
  match fields, l with
  | f :: fields, v :: l => w ← f v w; writeFields fields l w
  | [], [] => Ok w
  | _, _ => bad_value
  end.

Definition makeStructWriter (fields : list writer) : writer := λ v w,
  match v with
  | VList l =>
      let '(w, lh) := encbuf_list w in
      w ← writeFields fields l w;
      Ok (listEnd w lh)
  | _ => bad_value
  end.

Definition makePtrWriter (e : gotype) (ts : tags) (elem : writer) : writer := λ v w,
  let nilKind := if tg_nilOK ts then tg_nilKind ts else defaultNilKind e in
  match v with
  | VPtr None =>
      if bool_decide (nilKind = String) then Ok (append_str w [byte_of_Z 0x80])
      else let '(w, lh) := encbuf_list w in Ok (listEnd w lh)
  | VPtr (Some v) => elem v w
  | _ => bad_value
  end.

Fixpoint makeWriter (t : gotype) (ts : tags) : writer :=
  match t with
  | TBigInt => λ v w, match v with VBig i => writeBigIntPtr i w | _ => bad_value end
  | TPtr e => makePtrWriter e ts (makeWriter e no_tags)
  | TUint _ => λ v w, match v with VUint i => Ok (writeUint i w) | _ => bad_value end
  | TBool => λ v w, match v with VBool b => Ok (writeBool b w) | _ => bad_value end
  | TString => λ v w, match v with VStr s => Ok (writeString s w) | _ => bad_value end
  | TBytes | TByteArray _ =>
      λ v w, match v with VStr b => Ok (encodeString w b) | _ => bad_value end
  | TSlice e | TArray _ e => makeSliceWriter ts (makeWriter e no_tags)
  | TStruct fs => makeStructWriter (map (λ f : tags * gotype, makeWriter f.2 f.1) fs)
  end.

(** [EncodeToBytes] of a value. *)
Definition EncodeValue (t : gotype) (v : goval) : result bytes :=
  w ← makeWriter t no_tags v encbuf_reset;
  Ok (toBytes w).

(** ** Decoders *)

(** A decoder into a new value of the type. *)
Definition decoder := Stream → Stream * result goval.

(** The results of the stream's operations as values, errors wrapped with the type. *)
Definition wrap {A} (f : A → goval) (x : Stream * result A) : Stream * result goval :=
  (x.1, r ← map_err wrapStreamError x.2; Ok (f r)).

Definition decodeUint (bits : Z) : decoder := λ s, wrap VUint (Stream_uint bits s).
Definition decodeBool : decoder := λ s, wrap VBool (Stream_Bool s).
Definition decodeString : decoder := λ s, wrap VStr (Stream_Bytes s).
Definition decodeByteSlice : decoder := λ s, wrap VStr (Stream_Bytes s).

Definition decodeBigInt : decoder := λ s,
  let '(s, r) := Stream_Bytes s in
  (s, b ← map_err wrapStreamError r;
      if bool_decide (head b = Some x00) then Err (wrapStreamError ErrCanonInt)
      else Ok (VBig (Some (be_decode b)))).

(** [decodeByteArray]: the error of [Uint] on a single byte is ignored. *)
Definition decodeByteArray (vlen : nat) : decoder := λ s,
  let '(s, r) := Stream_Kind s in
  match r with
  | Err e => (s, Err e)
  | Panic m => (s, Panic m)
  | Ok (Byte, _) =>
      if bool_decide (vlen = 0%nat) then (s, Err (ErrorNew "rlp: input string too long"))
      else if bool_decide (1 < vlen)%nat then (s, Err (ErrorNew "rlp: input string too short"))
      else
        let '(s, r) := Stream_Uint s in
        (s, Ok (VStr [byte_of_Z (match r with Ok bv => bv | _ => 0 end)]))
  | Ok (String, size) =>
      if Z.of_nat vlen <? size then (s, Err (ErrorNew "rlp: input string too long"))
      else if size <? Z.of_nat vlen then (s, Err (ErrorNew "rlp: input string too short"))
      else
        let '(s, r) := readFull size s in
        (s, b ← r;
            if (size =? 1) && match b with [b0] => byte_val b0 <? 128 | _ => false end
            then Err (wrapStreamError ErrCanonSize) else Ok (VStr b))
  | Ok (List, _) => (s, Err (wrapStreamError ErrExpectedString))
  end.

(** [ListEnd] at the end of a value, its error wrapped with the type. *)
Definition endList (l : list goval) (s : Stream) : Stream * result goval :=
  wrap (λ _, VList l) (ListEnd s).

(** The loop of [decodeListArray] over the elements of the array and that of the struct
    decoder over the fields; they differ in the error for a list that is too short. *)
Fixpoint decodeEach (few : error) (decs : list decoder) (s : Stream) (acc : list goval)
  : Stream * result (list goval) :=
  match decs with
  | [] => (s, Ok acc)
  | dec :: decs =>
      let '(s, r) := dec s in
      match r with
      | Ok x => decodeEach few decs s (acc ++ [x])
      | Err e => (s, Err (if bool_decide (e = EOL) then few else e))
      | Panic m => (s, Panic m)
      end
  end.

Definition decodeSeq (few : error) (decs : list decoder) : decoder := λ s,
  let '(s, r) := Stream_List s in
  match r with
  | Err e => (s, Err (wrapStreamError e))
  | Panic m => (s, Panic m)
  | Ok _ =>
      let '(s, r) := decodeEach few decs s [] in
      match r with
      | Err e => (s, Err e)
      | Panic m => (s, Panic m)
      | Ok l => endList l s
      end
  end.

Definition decodeListArray (elemdec : decoder) (vlen : nat) : decoder :=
  decodeSeq (ErrorNew "rlp: input list has too few elements") (replicate vlen elemdec).

(** A slice: of the remaining elements for a tail, of a list otherwise. *)
Definition makeListDecoder (fuel : nat) (ts : tags) (elemdec : decoder) : decoder := λ s,
  let '(s, r) := if tg_tail ts then decodeSliceElems elemdec fuel s []
                 else decodeListSlice elemdec fuel s in
  (s, l ← r; Ok (VList l)).

Definition makeStructDecoder (fields : list decoder) : decoder :=
  decodeSeq (ErrorNew "rlp: too few elements") fields.

Definition makeSimplePtrDecoder (elemdec : decoder) : decoder := λ s,
  let '(s, r) := elemdec s in (s, v ← r; Ok (VPtr (Some v))).

Definition makeNilPtrDecoder (nilKind : Kind) (elemdec : decoder) : decoder := λ s,
  let '(s, r) := Stream_Kind s in
  match r with
  | Err e => (s, Err (wrapStreamError e))
  | Panic m => (s, Panic m)
  | Ok (kind, size) =>
      if negb (bool_decide (kind = Byte)) && (size =? 0) then
        if negb (bool_decide (kind = nilKind)) then
          (s, Err (ErrorNew "rlp: wrong kind of empty value"))
        else (set_kind None s, Ok (VPtr None))
      else makeSimplePtrDecoder elemdec s
  end.

Definition makePtrDecoder (ts : tags) (elemdec : decoder) : decoder :=
  if tg_nilOK ts then makeNilPtrDecoder (tg_nilKind ts) elemdec
  else makeSimplePtrDecoder elemdec.

(** [fuel] bounds the elements of a slice: each one consumes a byte of the input. *)
Fixpoint makeDecoder (fuel : nat) (t : gotype) (ts : tags) : decoder :=
  match t with
  | TBigInt => decodeBigInt
  | TPtr e => makePtrDecoder ts (makeDecoder fuel e no_tags)
  | TUint bits => decodeUint bits
  | TBool => decodeBool
  | TString => decodeString
  | TBytes => decodeByteSlice
  | TByteArray n => decodeByteArray n
  | TSlice e => makeListDecoder fuel ts (makeDecoder fuel e no_tags)
  | TArray n e => decodeListArray (makeDecoder fuel e no_tags) n
  | TStruct fs => makeStructDecoder (map (λ f : tags * gotype, makeDecoder fuel f.2 f.1) fs)
  end.

(** [DecodeBytes] into a value of the type. *)
Definition DecodeValue (t : gotype) (b : bytes) : result goval :=
  let '(s, r) := makeDecoder (S (length b)) t no_tags (ResetBytes b) in
  x ← r;
  if 0 <? len (s_r s) then Err ErrMoreThanOneValue else Ok x.

(** ** Reference encoding *)

(** The items of a struct's list that a field contributes: a tail its elements. *)
Definition field_items (ts : tags) (it : item) : list item :=
  match it with
  | Lst l => if tg_tail ts then l else [it]
  | _ => [it]
  end.
Definition enc_field (ts : tags) (it : item) : bytes := concat (rlp_enc <$> field_items ts it).

Fixpoint struct_items (fields : list (tags * (goval → item))) (l : list goval) : list item :=
  match fields, l with
  | (ts, f) :: fields, v :: l => field_items ts (f v) ++ struct_items fields l
  | _, _ => []
  end.

(** The item a value is encoded as. *)
Fixpoint to_item (t : gotype) (ts : tags) (v : goval) : item :=
  match t, v with
  | TUint _, VUint z => Str (big_Bytes z)
  | TBool, VBool b => Str (if b then [x01] else [])
  | (TString | TBytes | TByteArray _), VStr b => Str b
  | TBigInt, VBig i => Str (big_Bytes (default 0 i))
  | TPtr e, VPtr (Some v) => to_item e no_tags v
  | TPtr e, VPtr None =>
      if bool_decide ((if tg_nilOK ts then tg_nilKind ts else defaultNilKind e) = String)
      then Str [] else Lst []
  | (TSlice e | TArray _ e), VList l => Lst (to_item e no_tags <$> l)
  | TStruct fs, VList l => Lst (struct_items (map (λ f : tags * gotype, (f.1, to_item f.2 f.1)) fs) l)
  | _, _ => Str []
  end.

(** The types reflection can build: unsigned integers have their four widths, a slice or
    array of bytes is [TBytes] or [TByteArray], [nil] tags are on pointers and [tail] on a
    slice that is the last field.  Arrays of one byte are left out, see below. *)
Definition tags_ok (ts : tags) (t : gotype) : bool :=
  (negb (tg_tail ts) || match t with TSlice _ => true | _ => false end) &&
  (negb (tg_nilOK ts) || match t with TPtr _ => negb (bool_decide (tg_nilKind ts = Byte)) | _ => false end).
Definition is_elem (t : gotype) : bool :=
  match t with TUint bits => negb (bits =? 8) | _ => true end.
Fixpoint tail_last (fs : list (tags * gotype)) : bool :=
  match fs with
  | [] | [_] => true
  | (ts, _) :: fs => negb (tg_tail ts) && tail_last fs
  end.
Fixpoint rlp_type (t : gotype) : bool :=
  match t with
  | TUint bits => bool_decide (bits ∈ [8; 16; 32; 64])
  | TByteArray n => negb (bool_decide (n = 1%nat))
  | TPtr e => rlp_type e
  | TSlice e | TArray _ e => rlp_type e && is_elem e
  | TStruct fs =>
      forallb (λ f : tags * gotype, rlp_type f.2 && tags_ok f.1 f.2) fs && tail_last fs
  | _ => true
  end.

Definition empty_item (it : item) : bool :=
  match it with Str [] | Lst [] => true | _ => false end.

Fixpoint all_fields (ps : list (goval → Prop)) (l : list goval) : Prop :=
  match ps, l with
  | p :: ps, v :: l => p v ∧ all_fields ps l
  | [], [] => True
  | _, _ => False
  end.

(** The values of a type; a [*big.Int] is not negative, or it cannot be encoded. *)
Fixpoint has_type (t : gotype) (v : goval) : Prop :=
  match t, v with
  | TUint bits, VUint z => 0 <= z < 2 ^ bits
  | TBool, VBool _ => True
  | (TString | TBytes), VStr _ => True
  | TByteArray n, VStr b => length b = n
  | TBigInt, VBig i => 0 <= default 0 i
  | TPtr e, VPtr (Some v) => has_type e v
  | TPtr _, VPtr None => True
  | TSlice e, VList l => Forall (has_type e) l
  | TArray n e, VList l => length l = n ∧ Forall (has_type e) l
  | TStruct fs, VList l => all_fields (map (λ f : tags * gotype, has_type f.2) fs) l
  | _, _ => False
  end.

(** The values a decoder of the type produces: a nil pointer only where a tag allows it,
    and then no pointer to a value whose encoding stands for nil. *)
Fixpoint decodable (t : gotype) (ts : tags) (v : goval) : Prop :=
  match t, v with
  | TUint bits, VUint z => 0 <= z < 2 ^ bits
  | TBool, VBool _ => True
  | (TString | TBytes), VStr _ => True
  | TByteArray n, VStr b => length b = n
  | TBigInt, VBig (Some z) => 0 <= z
  | TPtr e, VPtr (Some v) =>
      decodable e no_tags v ∧ (tg_nilOK ts = true → empty_item (to_item e no_tags v) = false)
  | TPtr _, VPtr None => tg_nilOK ts = true
  | TSlice e, VList l => Forall (decodable e no_tags) l
  | TArray n e, VList l => length l = n ∧ Forall (decodable e no_tags) l
  | TStruct fs, VList l => all_fields (map (λ f : tags * gotype, decodable f.2 f.1) fs) l
  | _, _ => False
  end.

Lemma gotype_rect_nested (P : gotype → Prop) :
  (∀ bits, P (TUint bits)) → P TBool → P TString → P TBytes → (∀ n, P (TByteArray n)) → P TBigInt →
  (∀ e, P e → P (TPtr e)) → (∀ e, P e → P (TSlice e)) → (∀ n e, P e → P (TArray n e)) →
  (∀ fs, Forall (λ f : tags * gotype, P f.2) fs → P (TStruct fs)) → ∀ t, P t.
Proof.
  intros H1 H2 H3 H4 H5 H6 H7 H8 H9 H10. fix IH 1.
  intros [bits| | | |n| |e|e|n e|fs]; [apply H1|apply H2|apply H3|apply H4|apply H5|apply H6
    |apply H7, IH|apply H8, IH|apply H9, IH|].
  apply H10. induction fs as [|[ts f] fs IHfs]; constructor; [apply IH|apply IHfs].
Qed.

(** ** Integers *)

Lemma be_decode_lower b :
  b ≠ [] → head b ≠ Some x00 → 256 ^ (Z.of_nat (length b) - 1) <= be_decode b.
Proof.
  destruct b as [|x l]; [done|]. intros _ Hh. cbn [length].
  change (x :: l) with ([x] ++ l). rewrite be_decode_app.
  assert (Hx : be_decode [x] = byte_val x) by (unfold be_decode; cbn; lia).
  rewrite Hx. pose proof (byte_val_range x). pose proof (be_decode_bound l).
  assert (byte_val x ≠ 0).
  { intros Hz. apply Hh. cbn. f_equal. apply byte_val_inj. by rewrite Hz. }
  replace (Z.of_nat (S (length l)) - 1) with (Z.of_nat (length l)) by lia. nia.
Qed.

Lemma log2_bytes n z :
  0 < n → 256 ^ (n - 1) <= z < 256 ^ n → Z.log2 z / 8 + 1 = n.
Proof.
  intros Hn [Hlo Hhi]. assert (0 < 256 ^ (n - 1)) by (apply Z.pow_pos_nonneg; lia).
  assert (Hz : 0 < z) by lia.
  change 256 with (2 ^ 8) in Hlo, Hhi. rewrite <- Z.pow_mul_r in Hlo, Hhi by lia.
  apply Z.log2_le_pow2 in Hlo; [|lia]. apply Z.log2_lt_pow2 in Hhi; [|lia].
  enough (Z.log2 z / 8 = n - 1) by lia. symmetry. apply Z.div_unique with (Z.log2 z - 8 * (n - 1)); lia.
Qed.

(** The shortest form, characterised: no leading zero byte. *)
Lemma big_Bytes_decode b : head b ≠ Some x00 → big_Bytes (be_decode b) = b.
Proof.
  intros Hh. unfold big_Bytes. destruct (decide (b = [])) as [->|Hne]; [done|].
  pose proof (be_decode_lower b Hne Hh) as Hlo. pose proof (be_decode_bound b) as Hhi.
  assert (Hl : 0 < Z.of_nat (length b)) by (destruct b; [done|cbn; lia]).
  assert (0 < 256 ^ (Z.of_nat (length b) - 1)) by (apply Z.pow_pos_nonneg; lia).
  destruct (Z.eqb_spec (be_decode b) 0); [lia|]. rewrite (log2_bytes (Z.of_nat (length b))) by lia.
  rewrite Nat2Z.id. apply be_encode_decode.
Qed.

Lemma big_Bytes_size z :
  0 < z → let n := Z.log2 z / 8 + 1 in 0 < n ∧ 256 ^ (n - 1) <= z < 256 ^ n.
Proof.
  intros Hz n. pose proof (Z.log2_nonneg z). pose proof (Z.log2_spec z Hz) as [H1 H2].
  assert (Hd : 0 <= Z.log2 z / 8) by (apply Z.div_pos; lia).
  pose proof (Z.div_mod (Z.log2 z) 8 ltac:(lia)). pose proof (Z.mod_pos_bound (Z.log2 z) 8 ltac:(lia)).
  subst n. change 256 with (2 ^ 8). rewrite <- !Z.pow_mul_r by lia. split; [lia|]. split.
  - etrans; [|exact H1]. apply Z.pow_le_mono_r; lia.
  - eapply Z.lt_le_trans; [exact H2|]. apply Z.pow_le_mono_r; lia.
Qed.

Lemma be_decode_big_Bytes z : 0 <= z → be_decode (big_Bytes z) = z.
Proof.
  intros Hz. unfold big_Bytes. destruct (Z.eqb_spec z 0) as [->|]; [done|].
  destruct (big_Bytes_size z) as (Hn & Hlo & Hhi); [lia|].
  apply be_decode_encode_small. rewrite Z2Nat.id by lia. lia.
Qed.

Lemma big_Bytes_head z : 0 <= z → head (big_Bytes z) ≠ Some x00.
Proof.
  intros Hz Hh. destruct (decide (z = 0)) as [->|Hne]; [done|].
  destruct (big_Bytes_size z) as (Hn & Hlo & Hhi); [lia|].
  pose proof (be_decode_big_Bytes z Hz) as Hd.
  assert (Hl : length (big_Bytes z) = Z.to_nat (Z.log2 z / 8 + 1)).
  { unfold big_Bytes. rewrite (proj2 (Z.eqb_neq z 0)) by done. apply length_be_encode. }
  destruct (big_Bytes z) as [|x l]; [done|]. injection Hh as ->. cbn [length] in Hl.
  change (x00 :: l) with ([x00] ++ l) in Hd. rewrite be_decode_app in Hd. change (be_decode [x00]) with 0 in Hd.
  pose proof (be_decode_bound l) as Hb.
  replace (Z.log2 z / 8 + 1 - 1) with (Z.of_nat (length l)) in Hlo by lia. lia.
Qed.

Lemma big_Bytes_length bits z :
  bits ∈ [8; 16; 32; 64] → 0 <= z → z < 2 ^ bits ↔ len (big_Bytes z) <= bits / 8.
Proof.
  intros Hb Hz. assert (H8 : 2 ^ bits = 256 ^ (bits / 8) ∧ 1 <= bits / 8).
  { rewrite !elem_of_cons, elem_of_nil in Hb. destruct Hb as [->|[->|[->|[->|[]]]]]; by vm_compute. }
  destruct H8 as [-> H8]. unfold len, big_Bytes. rewrite length_be_encode.
  destruct (Z.eqb_spec z 0) as [->|Hne].
  { split; intros; [lia|]. apply Z.pow_pos_nonneg; lia. }
  destruct (big_Bytes_size z) as (Hn & Hlo & Hhi); [lia|]. rewrite Z2Nat.id by lia. split; intros Hx.
  - destruct (decide (Z.log2 z / 8 + 1 <= bits / 8)); [done|].
    assert (256 ^ (bits / 8) <= 256 ^ (Z.log2 z / 8 + 1 - 1)) by (apply Z.pow_le_mono_r; lia). lia.
  - eapply Z.lt_le_trans; [exact Hhi|]. apply Z.pow_le_mono_r; lia.
Qed.

(** ** Encoding *)

Lemma enc_field_single ts it : tg_tail ts = false → enc_field ts it = rlp_enc it.
Proof.
  intros Ht. unfold enc_field, field_items. rewrite Ht. destruct it; cbn [fmap list_fmap concat]; apply app_nil_r.
Qed.

Lemma enc_string_multi b : ¬ single_byte b → enc_string b = puthead 0x80 0xB7 (len b) ++ b.
Proof.
  intros Hs. destruct b as [|x [|y b]]; cbn [enc_string]; try done.
  destruct (Z.leb_spec (byte_val x) 0x7F); [|done]. destruct Hs. exists x. split; [done|lia].
Qed.

Lemma writeUint_enc z w : is_u64 z → writeUint z w = append_str w (enc_string (big_Bytes z)).
Proof.
  intros Hu. pose proof Hu as [Hz Hz2]. unfold writeUint. destruct (Z.eqb_spec z 0) as [->|Hne]; [done|].
  destruct (putint_min z Hu) as (n & Hn & Hp).
  assert (Hb : big_Bytes z = putint z).
  { rewrite Hp. rewrite <- (be_decode_encode_small n z) at 1 by apply Hn. rewrite big_Bytes_decode; [done|].
    apply min_bytes_head; [done|lia]. }
  rewrite Hb. destruct (length_putint z Hu) as [Hi Hl8]. destruct (Z.ltb_spec z 128) as [Hs|Hs].
  - assert (putint z = [byte_of_Z z]) as ->.
    { rewrite (putint_be 1); [|split; [lia|split; [by left|cbn; lia]]]. unfold be_encode. cbn. done. }
    cbn [enc_string]. rewrite byte_val_tag by lia. by rewrite (proj2 (Z.leb_le z 0x7F)) by lia.
  - rewrite enc_string_multi.
    + unfold puthead. rewrite (proj2 (Z.ltb_lt (len (putint z)) 56)) by (unfold len; lia). done.
    + intros (x & Hx & Hlt). rewrite Hp in Hx.
      pose proof (be_decode_encode_small n z ltac:(apply Hn)) as Hd. rewrite Hx in Hd.
      unfold be_decode in Hd. cbn in Hd. lia.
Qed.

Lemma writeString_enc b w : writeString b w = append_str w (enc_string b).
Proof.
  assert (Hh : append_str (encodeStringHeader w (len b)) b = append_str w (puthead 0x80 0xB7 (len b) ++ b)).
  { unfold encodeStringHeader, puthead, append_str. destruct (_ <? 56); cbn; by rewrite <- app_assoc. }
  unfold writeString. destruct b as [|x [|y b]]; try done. cbn [enc_string]. by destruct (byte_val x <=? 0x7f).
Qed.

Lemma writeBigInt_enc z w :
  0 <= z → writeBigInt z w = Ok (append_str w (enc_string (big_Bytes z))).
Proof.
  intros Hz. unfold writeBigInt. rewrite (proj2 (Z.ltb_ge z 0)) by lia.
  destruct (Z.eqb_spec z 0) as [->|]; [done|]. by rewrite encodeString_enc.
Qed.

(** What a writer promises. *)
Definition writes (wr : writer) (e : bytes) (v : goval) : Prop :=
  ∀ w, ∃ w' s hs, wr v w = Ok w' ∧ appends w w' e s hs.

Lemma writes_str (wr : writer) e v : (∀ w, wr v w = Ok (append_str w e)) → writes wr e v.
Proof. intros Hw w. eexists _, _, _. split; [apply Hw|apply appends_str]. Qed.

Lemma writes_elems (wr : writer) (enc : goval → bytes) l w :
  Forall (λ v, writes wr (enc v) v) l →
  ∃ w' s hs, writeElems wr l w = Ok w' ∧ appends w w' (concat (enc <$> l)) s hs.
Proof.
  intros Hl. revert w. induction Hl as [|v l Hv _ IH]; intros w.
  - eexists _, _, _. split; [done|apply appends_nil].
  - destruct (Hv w) as (w1 & s1 & h1 & E1 & A1). destruct (IH w1) as (w2 & s2 & h2 & E2 & A2).
    eexists _, _, _. cbn. rewrite E1. cbn. split; [exact E2|]. by eapply appends_trans.
Qed.

Lemma writes_list (body : encbuf → result encbuf) c :
  (∀ w, ∃ w' s hs, body w = Ok w' ∧ appends w w' c s hs) → len c < 2 ^ 64 →
  ∀ w, ∃ w' s hs,
    (let '(w, lh) := encbuf_list w in w ← body w; Ok (listEnd w lh)) = Ok w' ∧
    appends w w' (enc_list c) s hs.
Proof.
  intros Hb Hc w. destruct (encbuf_list w) as [w1 lh] eqn:E.
  assert (lh = length (w_lheads w)) as -> by (by injection E).
  destruct (Hb w1) as (w2 & s & hs & E2 & A). eexists _, _, _. rewrite E2. split; [done|].
  eapply appends_list; [done..|]. split; [apply len_nonneg|done].
Qed.

Lemma len_enc_list c : len c <= len (enc_list c).
Proof. unfold enc_list. rewrite len_app. pose proof (len_nonneg (puthead 0xC0 0xF7 (len c))). lia. Qed.

Lemma len_concat_elem (ls : list bytes) c : c ∈ ls → len c <= len (concat ls).
Proof.
  induction 1 as [c ls|c c' ls _ IH]; cbn [concat]; rewrite len_app.
  - pose proof (len_nonneg (concat ls)). lia.
  - pose proof (len_nonneg c'). lia.
Qed.

Lemma tags_ok_no_tags t : tags_ok no_tags t = true.
Proof. done. Qed.

(** The encodings of the fields one after another. *)
Lemma struct_items_enc ts f fields v l :
  concat (rlp_enc <$> struct_items ((ts, f) :: fields) (v :: l)) =
  enc_field ts (f v) ++ concat (rlp_enc <$> struct_items fields l).
Proof. cbn [struct_items]. by rewrite fmap_app, concat_app. Qed.

Lemma writes_fields (fs : list (tags * gotype)) l w :
  Forall (λ f : tags * gotype, ∀ ts v, rlp_type f.2 = true → tags_ok ts f.2 = true → has_type f.2 v →
    len (enc_field ts (to_item f.2 ts v)) < 2 ^ 64 →
    writes (makeWriter f.2 ts) (enc_field ts (to_item f.2 ts v)) v) fs →
  Forall (λ f : tags * gotype, rlp_type f.2 && tags_ok f.1 f.2 = true) fs →
  all_fields (map (λ f : tags * gotype, has_type f.2) fs) l →
  let c := concat (rlp_enc <$> struct_items (map (λ f : tags * gotype, (f.1, to_item f.2 f.1)) fs) l) in
  len c < 2 ^ 64 →
  ∃ w' s hs, writeFields (map (λ f : tags * gotype, makeWriter f.2 f.1) fs) l w = Ok w' ∧
             appends w w' c s hs.
Proof.
  intros IH. revert l w. induction IH as [|[ts t] fs Ht _ IHfs]; intros l w Hok Hl.
  - destruct l; [|done]. cbn zeta. intros _. eexists _, _, _. split; [done|apply appends_nil].
  - destruct l as [|v l]; [done|]. destruct Hl as [Hv Hl]. apply Forall_cons in Hok as [Ho Hok].
    cbn [fst snd] in *. apply andb_true_iff in Ho as [Ho1 Ho2]. cbn [map fst snd]. rewrite struct_items_enc, len_app. intros Hc.
    pose proof (len_nonneg (enc_field ts (to_item t ts v))).
    pose proof (len_nonneg (concat (rlp_enc <$> struct_items (map (λ f : tags * gotype, (f.1, to_item f.2 f.1)) fs) l))).
    destruct (Ht ts v Ho1 Ho2 Hv ltac:(lia) w) as (w1 & s1 & h1 & E1 & A1).
    destruct (IHfs l w1 Hok Hl ltac:(lia)) as (w2 & s2 & h2 & E2 & A2).
    eexists _, _, _. cbn [writeFields]. rewrite E1. cbn. split; [exact E2|]. by eapply appends_trans.
Qed.

(** The encoding of a slice, of its elements one after another for a tail. *)
Definition elems_enc (e : gotype) (l : list goval) : bytes :=
  concat ((λ v, rlp_enc (to_item e no_tags v)) <$> l).

Lemma slice_enc e ts l :
  enc_field ts (Lst (to_item e no_tags <$> l)) =
  if tg_tail ts then elems_enc e l else enc_list (elems_enc e l).
Proof.
  assert (Hc : concat (rlp_enc <$> (to_item e no_tags <$> l)) = elems_enc e l)
    by (unfold elems_enc; by rewrite <- list_fmap_compose).
  unfold enc_field, field_items. destruct (tg_tail ts); [done|]. cbn. by rewrite app_nil_r, Hc.
Qed.

Lemma writes_slice e ts l :
  (∀ ts v, rlp_type e = true → tags_ok ts e = true → has_type e v →
    len (enc_field ts (to_item e ts v)) < 2 ^ 64 →
    writes (makeWriter e ts) (enc_field ts (to_item e ts v)) v) →
  rlp_type e = true → Forall (has_type e) l →
  len (enc_field ts (Lst (to_item e no_tags <$> l))) < 2 ^ 64 →
  writes (makeSliceWriter ts (makeWriter e no_tags)) (enc_field ts (Lst (to_item e no_tags <$> l))) (VList l).
Proof.
  intros IH He Hl Hlen.
  rewrite slice_enc in *. set (c := elems_enc e l) in *. pose proof (len_enc_list c).
  assert (Hbody : ∀ w, ∃ w' s hs, writeElems (makeWriter e no_tags) l w = Ok w' ∧ appends w w' c s hs).
  { intros w. apply (writes_elems _ (λ v, rlp_enc (to_item e no_tags v))).
    apply Forall_forall. intros v Hv. rewrite Forall_forall in Hl.
    rewrite <- (enc_field_single no_tags) by done. apply IH; [done|done|by apply Hl|].
    rewrite enc_field_single by done.
    assert (len (rlp_enc (to_item e no_tags v)) <= len c).
    { apply len_concat_elem. by apply (list_elem_of_fmap_2 (λ v, rlp_enc (to_item e no_tags v))). }
    destruct (tg_tail ts); lia. }
  intros w. cbn [makeSliceWriter]. destruct (tg_tail ts); [apply Hbody|].
  apply (writes_list (writeElems (makeWriter e no_tags) l)); [done|lia].
Qed.

Lemma makeWriter_writes t : ∀ ts v,
  rlp_type t = true → tags_ok ts t = true → has_type t v →
  len (enc_field ts (to_item t ts v)) < 2 ^ 64 →
  writes (makeWriter t ts) (enc_field ts (to_item t ts v)) v.
Proof.
  induction t as [bits| | | |n| |e IH|e IH|n e IH|fs IH] using gotype_rect_nested;
    intros ts v Ht Hts Hv Hlen;
    (destruct (tg_tail ts) eqn:Etail;
      [unfold tags_ok in Hts; rewrite Etail in Hts; try done|
       rewrite ?(enc_field_single ts) in * by done]).
  - destruct v as [z| | | | |]; try done. apply writes_str. intros w. cbn [makeWriter to_item rlp_enc].
    rewrite writeUint_enc; [done|]. destruct Hv as [H1 H2]. cbn [rlp_type] in Ht. bool_props.
    rewrite !elem_of_cons, elem_of_nil in Ht. split; [done|].
    eapply Z.lt_le_trans; [exact H2|]. apply Z.pow_le_mono_r; [lia|]. naive_solver lia.
  - destruct v as [|[]| | | |]; try done; by apply writes_str.
  - destruct v as [| |b| | |]; try done. apply writes_str. intros w. cbn. by rewrite writeString_enc.
  - destruct v as [| |b| | |]; try done. apply writes_str. intros w. cbn. by rewrite encodeString_enc.
  - destruct v as [| |b| | |]; try done. apply writes_str. intros w. cbn. by rewrite encodeString_enc.
  - destruct v as [| | |[z|]| |]; try done; apply writes_str; intros w; cbn [makeWriter to_item default].
    + apply (writeBigInt_enc z w Hv).
    + done.
  - destruct v as [| | | |[v|]|]; try done.
    + cbn [makeWriter makePtrWriter to_item] in *. intros w. cbn [makePtrWriter].
      rewrite <- (enc_field_single no_tags) in * by done. by apply IH.
    + cbn [makeWriter to_item] in *. intros w. cbn [makePtrWriter].
      destruct (bool_decide _).
      * eexists _, _, _. split; [done|]. apply (appends_str w).
      * apply (writes_list (λ w, Ok w) []); [|done]. intros w0. eexists _, _, _. split; [done|apply appends_nil].
  - destruct v as [| | | | |l]; try done. cbn [rlp_type] in Ht. apply andb_true_iff in Ht as [Ht _].
    by apply writes_slice.
  - destruct v as [| | | | |l]; try done. cbn [rlp_type] in Ht. apply andb_true_iff in Ht as [Ht _].
    rewrite <- (enc_field_single ts) in * by done. by apply writes_slice.
  - destruct v as [| | | | |l]; try done. destruct Hv as [_ Hv]. cbn [rlp_type] in Ht. apply andb_true_iff in Ht as [Ht _].
    rewrite <- (enc_field_single ts) in * by done. by apply writes_slice.
  - destruct v as [| | | | |l]; try done. cbn [rlp_type] in Ht. apply andb_true_iff in Ht as [Ht _].
    cbn [makeWriter to_item rlp_enc makeStructWriter] in *.
    set (c := concat _) in *. pose proof (len_enc_list c).
    intros w. apply (writes_list (writeFields (map (λ f : tags * gotype, makeWriter f.2 f.1) fs) l)); [|lia].
    intros w0. apply writes_fields; [done| |done|fold c; lia].
    rewrite forallb_forall in Ht. apply Forall_forall. intros f Hf. by apply Ht, list_elem_of_In.
Qed.

(** ** Decoding strings *)

(** The decoder reads a string and accepts it exactly when it stands for a value. *)
Definition reads_string (Q : bytes → goval → Prop) (dec : decoder) : Prop :=
  ∀ s, wf_stream s → s_kind s = None →
  (∃ s1 s2 b v, Stream_Bytes s = (s1, Ok b) ∧ Q b v ∧ dec s = (s2, Ok v) ∧
     adv [] s1 s2 ∧ s_kind s2 = None) ∨
  ((∀ s1 b v, Stream_Bytes s = (s1, Ok b) → ¬ Q b v) ∧
   ∃ s2 e, dec s = (s2, Err e) ∧ (e = EOL → at_eol s = true)).

Lemma reads_string_decodes Q dec (enc : goval → bytes) b v :
  reads_string Q dec → (∀ v', Q b v' → v' = v) → Q b v → enc v = enc_string b → len b < 2 ^ 64 →
  decodes enc dec v.
Proof.
  intros Hd Hfun HQ He Hb s r Hwf Hk Hr Hroom. rewrite He in *.
  destruct (Stream_Bytes_complete b r s) as (s' & HB & Ha & Hk'); try done.
  destruct (Hd s Hwf Hk) as [(s1 & s2 & b' & v' & HB' & HQ' & HD & Ha2 & Hk2)|[Hno _]].
  - rewrite HB in HB'. injection HB' as <- <-. apply Hfun in HQ' as ->. exists s2. split; [done|].
    split; [|done]. rewrite <- (app_nil_r (enc_string b)). by eapply adv_trans.
  - by destruct (Hno _ _ v HB).
Qed.

Lemma reads_string_sound Q dec (enc : goval → bytes) (P : goval → Prop) :
  reads_string Q dec → (∀ b v, Q b v → P v ∧ enc v = enc_string b) → dec_sound enc P dec.
Proof.
  intros Hd HQ s s' r Hwf Hk HD.
  destruct (Hd s Hwf Hk) as [(s1 & s2 & b & v & HB & HQb & HD' & Ha & Hk2)|[_ (s2 & e & HD' & He)]];
    rewrite HD in HD'; injection HD' as -> ->; [|done].
  destruct (HQ b v HQb) as [HP ->]. pose proof (Stream_Bytes_sound _ _ _ Hwf Hk HB) as (HA & HR & _ & _).
  split_and!; try done. rewrite <- (app_nil_r (enc_string b)). by eapply adv_trans.
Qed.

Lemma reads_string_eol Q dec : reads_string Q dec → ∀ s, wf_stream s → s_kind s = None →
  ∀ s' m, dec s ≠ (s', Panic m).
Proof.
  intros Hd s Hwf Hk s' m HD. destruct (Hd s Hwf Hk) as [(? & ? & ? & ? & _ & _ & E & _)|[_ (? & ? & E & _)]];
    congruence.
Qed.

Lemma Stream_Bytes_byte s s1 x :
  Stream_Kind s = (s1, Ok (Byte, 0)) → announced Byte 0 x s s1 → Stream_Bytes s = (set_kind None s1, Ok [x]).
Proof. intros HK [[_ Hb] _]. unfold Stream_Bytes. by rewrite HK, Hb. Qed.

Lemma adv_set_kind k s : adv [] s (set_kind k s).
Proof. eapply adv_ext; [apply adv_nil|done..]. Qed.

Lemma be_decode_single x : be_decode [x] = byte_val x.
Proof. unfold be_decode. cbn. lia. Qed.

Lemma len_one (b : bytes) : len b = 1 → ∃ x, b = [x].
Proof. destruct b as [|x [|y b]]; [done|by exists x|]. rewrite !len_cons. pose proof (len_nonneg b). lia. Qed.

(** Reading an integer of at most eight bytes behind the tag of its string. *)
Lemma readUint_string n s1 :
  wf_stream s1 → 0 <= n <= 8 →
  (∃ c r s2, readFull n s1 = (moved n r s1, Ok c) ∧ len c = n ∧ adv [] (moved n r s1) s2 ∧ s_kind s2 = None ∧
     readUint n s1 = (s2, if bool_decide (head c = Some x00) && (1 <? n) then Err ErrCanonSize
                          else Ok (be_decode c))) ∨
  (∃ s2 s3 e e', readFull n s1 = (s2, Err e) ∧ readUint n s1 = (s3, Err e') ∧
     e ≠ EOL ∧ e' ≠ EOL).
Proof.
  intros Hwf Hn. unfold readUint.
  destruct (readFull_cases n s1 Hwf) as [(c & r & E & Hl & Hr & HF)|(Hno & s2 & e & HF & He)]; [lia| |].
  - left. destruct (Z.eqb_spec n 0) as [->|Hn0].
    { assert (c = []) as -> by (apply nil_length_inv; unfold len in Hl; lia).
      exists [], r, (set_kind None s1). rewrite HF. split_and!; try done.
      cbn in E. split; cbn; rewrite ?E; try done.
      - destruct (s_limited s1); unfold len; cbn; lia.
      - destruct (s_stack s1) as [|[p z] st]; cbn; [done|]. by rewrite !Z.add_0_r. }
    destruct (Z.eqb_spec n 1) as [->|Hn1].
    + destruct (len_one c Hl) as [x ->]. cbn [app] in E. destruct (readByte_cases s1 Hwf) as [(y & r' & E' & _ & ->)|([Hf|Hf] & _)];
        [|done|by rewrite E in Hf]. rewrite E in E'. injection E' as <- <-.
      exists [x], r, (moved 1 r s1). rewrite HF, andb_false_r. split_and!; try done; [apply adv_nil|].
      cbn. by rewrite be_decode_single.
    + exists c, r, (moved n r s1). rewrite HF. split_and!; try done; [apply adv_nil|].
      rewrite (proj2 (Z.ltb_lt 1 n)) by lia. rewrite andb_true_r. cbn. by case_bool_decide.
  - right. destruct (Z.eqb_spec n 0) as [->|Hn0].
    { destruct Hno as [Hno|Hno]; [|pose proof (len_nonneg (s_r s1)); lia]. exfalso. by apply Hno, room_zero. }
    destruct (Z.eqb_spec n 1) as [->|Hn1].
    + destruct (readByte_cases s1 Hwf) as [(y & r' & E' & Hroom & _)|(_ & s3 & e' & -> & He')].
      * destruct Hno as [Hno|Hno]; [done|]. rewrite E', len_cons in Hno. pose proof (len_nonneg r'). lia.
      * eexists _, _, _, _. split_and!; [done|done|done|]. done.
    + rewrite HF. eexists _, _, _, _. split_and!; done.
Qed.

Lemma single_lt128 (b : bytes) : (len b =? 1) = true → single_byte b ↔ be_decode b < 128.
Proof.
  intros Hl%Z.eqb_eq. destruct (len_one b Hl) as [x ->].
  rewrite be_decode_single. split; [by intros (y & [= <-] & ?)|by exists x].
Qed.

(** The numbers of a string: no leading zero byte, and at most [bits] bits. *)
Definition uint_string (bits : Z) (b : bytes) (z : Z) : Prop :=
  head b ≠ Some x00 ∧ len b <= bits / 8 ∧ z = be_decode b.

(** How an integer is read, compared with the string that is there. *)
Definition reads_uint_string (bits : Z) (s : Stream) : Prop :=
  (∃ s1 s2 b, Stream_Bytes s = (s1, Ok b) ∧ uint_string bits b (be_decode b) ∧
     Stream_uint bits s = (s2, Ok (be_decode b)) ∧ adv [] s1 s2 ∧ s_kind s2 = None) ∨
  ((∀ s1 b z, Stream_Bytes s = (s1, Ok b) → ¬ uint_string bits b z) ∧
   ∃ s2 e, Stream_uint bits s = (s2, Err e) ∧ (e = EOL → at_eol s = true)).

Lemma Stream_uint_string bits s s1 n x :
  1 <= bits / 8 <= 8 → wf_stream s1 → 0 <= n →
  Stream_Kind s = (s1, Ok (String, n)) → announced String n x s s1 → reads_uint_string bits s.
Proof.
  intros Hb8 Hwf1 Hu HK Ha. unfold reads_uint_string.
  assert (HB : Stream_Bytes s = let '(s, r) := readFull n s1 in
    (s, b ← r; if (n =? 1) && match b with [b0] => byte_val b0 <? 128 | _ => false end
               then Err ErrCanonSize else Ok b)) by (unfold Stream_Bytes; by rewrite HK).
  assert (HBl : ∀ s2 b, Stream_Bytes s = (s2, Ok b) → len b = n).
  { intros s2 b E. rewrite HB in E. destruct (readFull_cases n s1 Hwf1) as [(c & r & _ & Hl & _ & HF)|(_ & s3 & e & HF & _)];
      [lia| |]; rewrite HF in E; [|done]. cbn in E. case_match; [done|]. by injection E as <- <-. }
  unfold Stream_uint. rewrite HK. destruct (Z.ltb_spec (bits / 8) n) as [Hbig|Hsmall].
  { right. split; [|by eexists _, _]. intros s2 b z E%HBl (_ & Hl & _). lia. }
  destruct (readUint_string n s1 Hwf1) as [(c & r & s2 & HF & Hl & Ha2 & Hk2 & ->)|(s2 & s3 & e & e' & HF & -> & _ & He)];
    [lia| |right].
  + rewrite HF in HB. cbn [mbind result_bind] in HB. rewrite <- Hl in HB.
    destruct ((len c =? 1) && _) eqn:Es in HB.
    { right. apply small_head_single in Es as Hs. apply andb_true_iff in Es as [Es1 _].
      apply (single_lt128 c Es1) in Hs as Hlt. rewrite HB. split; [done|]. bool_props.
      assert (n = 1) as -> by lia. rewrite andb_false_r.
      cbn [mbind]. rewrite (proj2 (Z.ltb_lt (be_decode c) 128)) by done. by eexists _, _. }
    destruct (bool_decide (head c = Some x00)) eqn:Eh; bool_props.
    * right. rewrite HB. split; [by intros ? ? ? [= <- <-] [Hh _]|].
      destruct (Z.ltb_spec 1 n) as [Hn1|Hn1]; cbn; [by eexists _, _|].
      assert (n = 1) as Hn by (destruct c; [done|]; rewrite len_cons in Hl; pose proof (len_nonneg c); lia).
      rewrite <- Hl in Hn. destruct (len_one c Hn) as [y ->]. injection Eh as ->. by vm_compute in Es.
    * left. eexists _, s2, c. split_and!; [exact HB|split_and!; [done|lia|done]| |by rewrite <- Hl in Ha2|done].
      cbn [andb]. destruct (Z.ltb_spec 0 n) as [Hn0|Hn0]; [|done]. cbn [andb].
      destruct (Z.ltb_spec (be_decode c) 128) as [Hlt|]; [exfalso|done].
      destruct (Z.eqb_spec n 1) as [Hn1|Hn1].
      -- assert (Hc1 : (len c =? 1) = true) by (apply Z.eqb_eq; lia).
         apply (single_lt128 c Hc1), small_head_single in Hlt. congruence.
      -- assert (Hne : c ≠ []) by (intros ->; rewrite len_nil in Hl; lia).
         pose proof (be_decode_lower c Hne Eh) as Hlo. unfold len in Hl.
         assert (256 ^ 1 <= 256 ^ (Z.of_nat (length c) - 1)) by (apply Z.pow_le_mono_r; lia). lia.
  + rewrite HF in HB. cbn in HB. rewrite HB. split; [done|].
    case_bool_decide; by eexists _, _.
Qed.

Lemma Stream_uint_Bytes bits s :
  8 <= bits <= 64 → wf_stream s → s_kind s = None →
  reads_uint_string bits s.
Proof.
  intros Hbits Hwf Hk. unfold reads_uint_string.
  assert (Hb8 : 1 <= bits / 8 <= 8) by (split; [apply Z.div_le_lower_bound|apply Z.div_le_upper_bound]; lia).
  destruct (at_eol s) eqn:Heol.
  { right. unfold Stream_Bytes, Stream_uint. rewrite Stream_Kind_eol by done. split; [done|]. by eexists _, _. }
  destruct (Stream_Kind_cases s Hwf Hk Heol)
    as [(k & n & x & s1 & Hko & Hr & Hf & HK & Ha)|(s1 & e & HK & He)].
  2:{ right. unfold Stream_Bytes, Stream_uint. rewrite HK. split; [done|]. by eexists _, _. }
  pose proof (announced_wf _ _ _ _ _ Hwf Hr Ha) as Hwf1. destruct Hko as [Hu Hbyte]. unfold is_u64 in Hu.
  destruct k.
  - destruct (Hbyte eq_refl) as [-> Hx]. rewrite (Stream_Bytes_byte s s1 x HK Ha). unfold Stream_uint. rewrite HK.
    destruct Ha as [[_ Hb] _]. rewrite Hb by done. case_bool_decide as Hx0; [right|left].
    + subst x. split; [|by eexists _, _]. intros ? ? ? [= <- <-] [Hh _]. by apply Hh.
    + eexists _, _, [x]. rewrite be_decode_single. split_and!; try done; [|apply adv_nil].
      split; [|rewrite be_decode_single; split; [change (len [x]) with 1; lia|done]]. intros [= ->]. done.
  - assert (HS : reads_uint_string bits s) by (eapply (Stream_uint_string bits s s1 n x); [done|done|lia|done|done]).
    unfold reads_uint_string in HS. by rewrite Heol in HS.
  - right. unfold Stream_Bytes, Stream_uint. rewrite HK. split; [done|]. by eexists _, _.
Qed.

Lemma wrapStreamError_EOL e : wrapStreamError e = EOL → e = EOL.
Proof. unfold wrapStreamError. repeat case_match; done. Qed.

Lemma Stream_Bytes_total s s' m : wf_stream s → s_kind s = None → Stream_Bytes s ≠ (s', Panic m).
Proof. intros Hwf Hk HB. by apply (Stream_Bytes_sound _ _ _ Hwf Hk HB). Qed.

Lemma reads_uint bits :
  bits ∈ [8; 16; 32; 64] →
  reads_string (λ b v, ∃ z, v = VUint z ∧ uint_string bits b z) (decodeUint bits).
Proof.
  intros Hb s Hwf Hk. assert (Hbits : 8 <= bits <= 64).
  { rewrite !elem_of_cons, elem_of_nil in Hb. naive_solver lia. }
  unfold decodeUint, wrap.
  destruct (Stream_uint_Bytes bits s Hbits Hwf Hk) as [(s1 & s2 & b & HB & HQ & -> & Ha & Hk2)|[Hno (s2 & e & -> & He)]].
  - left. exists s1, s2, b, (VUint (be_decode b)). split_and!; try done. by exists (be_decode b).
  - right. split; [intros s1 b v HB (z & _ & HQ); by eapply Hno|].
    eexists _, _. split; [done|]. intros HE%wrapStreamError_EOL. by apply He.
Qed.

Lemma uint_string_small b z :
  uint_string 8 b z → z = 0 ∧ b = [] ∨ z = 1 ∧ b = [x01] ∨ 1 < z.
Proof.
  intros (Hh & Hl & ->). change (8 / 8) with 1 in Hl.
  destruct b as [|x [|y b]]; [by left|right|rewrite !len_cons in Hl; pose proof (len_nonneg b); lia].
  rewrite be_decode_single. destruct (decide (x = x01)) as [->|H1]; [by left|right].
  pose proof (byte_val_range x).
  assert (byte_val x ≠ 0) by (intros E; apply Hh; cbn; f_equal; by apply byte_val_inj).
  assert (byte_val x ≠ 1) by (intros E; by apply H1, byte_val_inj). lia.
Qed.

Lemma reads_bool :
  reads_string (λ b v, ∃ x : bool, v = VBool x ∧ b = if x then [x01] else []) decodeBool.
Proof.
  intros s Hwf Hk. unfold decodeBool, wrap, Stream_Bool.
  destruct (Stream_uint_Bytes 8 s ltac:(lia) Hwf Hk) as [(s1 & s2 & b & HB & HQ & -> & Ha & Hk2)|[Hno (s2 & e & -> & He)]].
  - cbn [fst snd mbind result_bind map_err]. destruct (uint_string_small _ _ HQ) as [[E Eb]|[[E Eb]|E]].
    + left. rewrite E. exists s1, s2, b, (VBool false). split_and!; try done. by exists false.
    + left. rewrite E. exists s1, s2, b, (VBool true). split_and!; try done. by exists true.
    + right. rewrite (proj2 (Z.eqb_neq (be_decode b) 0)), (proj2 (Z.eqb_neq (be_decode b) 1)) by lia.
      split; [|by eexists _, _]. intros s0 b0 v HB' (x & -> & ->). rewrite HB in HB'. injection HB' as _ ->.
      destruct x; by vm_compute in E.
  - right. split.
    + intros s1 b v HB (x & -> & ->). destruct x; eapply (Hno _ _ _ HB); (split_and!; [done|by vm_compute|reflexivity]).
    + eexists _, _. split; [done|]. intros HE%wrapStreamError_EOL. by apply He.
Qed.

Lemma reads_bytes : reads_string (λ b v, v = VStr b) (λ s, wrap VStr (Stream_Bytes s)).
Proof.
  intros s Hwf Hk. unfold wrap. destruct (Stream_Bytes s) as [s1 [b|e|m]] eqn:HB.
  - left. exists s1, s1, b, (VStr b). pose proof (Stream_Bytes_sound _ _ _ Hwf Hk HB) as (_ & _ & Hk1 & _).
    split_and!; try done. apply adv_nil.
  - right. split; [done|]. eexists _, _. split; [done|]. intros HE%wrapStreamError_EOL.
    by apply (Stream_Bytes_sound _ _ _ Hwf Hk HB).
  - by apply Stream_Bytes_total in HB.
Qed.

Lemma reads_bigint :
  reads_string (λ b v, head b ≠ Some x00 ∧ v = VBig (Some (be_decode b))) decodeBigInt.
Proof.
  intros s Hwf Hk. unfold decodeBigInt. destruct (Stream_Bytes s) as [s1 [b|e|m]] eqn:HB.
  - pose proof (Stream_Bytes_sound _ _ _ Hwf Hk HB) as (_ & _ & Hk1 & _). cbn. case_bool_decide as Hh.
    + right. split; [by intros ? ? ? [= <- <-] [? _]|]. by eexists _, _.
    + left. eexists s1, s1, b, _. split_and!; try done. apply adv_nil.
  - right. split; [done|]. eexists _, _. split; [done|]. intros HE%wrapStreamError_EOL.
    by apply (Stream_Bytes_sound _ _ _ Hwf Hk HB).
  - by apply Stream_Bytes_total in HB.
Qed.

(** Arrays of any length but one are read like byte slices of that length. *)
Lemma reads_byte_array n :
  n ≠ 1%nat → reads_string (λ b v, v = VStr b ∧ length b = n) (decodeByteArray n).
Proof.
  intros Hn s Hwf Hk. unfold decodeByteArray. destruct (at_eol s) eqn:Heol.
  { right. unfold Stream_Bytes. rewrite Stream_Kind_eol by done. split; [done|]. by eexists _, _. }
  destruct (Stream_Kind_cases s Hwf Hk Heol)
    as [(k & m & x & s1 & Hko & Hr & Hf & HK & Ha)|(s1 & e & HK & He)].
  2:{ right. unfold Stream_Bytes. rewrite HK. split; [done|]. by eexists _, _. }
  pose proof (announced_wf _ _ _ _ _ Hwf Hr Ha) as Hwf1. destruct Hko as [Hu Hbyte]. unfold is_u64 in Hu.
  destruct k; rewrite HK.
  - destruct (Hbyte eq_refl) as [-> Hx]. rewrite (Stream_Bytes_byte s s1 x HK Ha). right. split.
    + intros ? ? ? [= <- <-] [_ Hl]. by cbn in Hl.
    + case_bool_decide; [by eexists _, _|]. rewrite bool_decide_eq_true_2 by lia. by eexists _, _.
  - unfold Stream_Bytes. rewrite HK.
    destruct (readFull_cases m s1 Hwf1) as [(c & r & _ & Hl & _ & HF)|(_ & s3 & e & HF & He)]; [lia| |]; rewrite HF.
    + cbn [mbind result_bind]. destruct ((m =? 1) && _) eqn:Es.
      { right. split; [done|]. apply andb_true_iff in Es as [Es _]. bool_props.
        repeat case_match; bool_props; try (by eexists _, _); lia. }
      destruct (decide (Z.of_nat n = m)) as [<-|Hne].
      * left. rewrite !Z.ltb_irrefl. eexists _, _, c, _. split_and!; try done; [|apply adv_nil].
        unfold len in Hl. lia.
      * right. split; [intros ? ? ? [= <- <-] [_ Hl']; unfold len in Hl; lia|].
        destruct (Z.ltb_spec (Z.of_nat n) m), (Z.ltb_spec m (Z.of_nat n)); try (by eexists _, _); lia.
    + right. split; [done|]. cbn. repeat case_match; by eexists _, _.
  - right. unfold Stream_Bytes. rewrite HK. split; [done|]. by eexists _, _.
Qed.

(** ** Decoding values *)

(** Asking for the kind before decoding changes nothing. *)
Definition kind_first (dec : decoder) : Prop :=
  ∀ s s1 k n x, Stream_Kind s = (s1, Ok (k, n)) → announced k n x s s1 → dec s1 = dec s.

Lemma makeDecoder_kind_first fuel t ts : tg_tail ts = false → kind_first (makeDecoder fuel t ts).
Proof.
  intros Htail s s1 k n x HK Ha.
  assert (HK1 : Stream_Kind s1 = (s1, Ok (k, n))).
  { destruct Ha as (_ & Hk & <- & He). by apply Stream_Kind_cached. }
  assert (HB : Stream_Bytes s1 = Stream_Bytes s) by (by eapply Stream_Bytes_cached).
  assert (HL : Stream_List s1 = Stream_List s) by (by eapply Stream_List_cached).
  assert (HU : ∀ bits, Stream_uint bits s1 = Stream_uint bits s).
  { intros bits. unfold Stream_uint. by rewrite HK1, HK. }
  revert ts Htail. induction t as [bits| | | |m| |e IH|e IH|m e IH|fs IH] using gotype_rect_nested;
    intros ts Htail; cbn [makeDecoder];
    unfold decodeUint, decodeBool, decodeString, decodeByteSlice, decodeBigInt, decodeByteArray, Stream_Bool,
      makeListDecoder, decodeListSlice, decodeListArray, makeStructDecoder, decodeSeq; rewrite ?HU, ?HB, ?HL, ?Htail;
    try done.
  - by rewrite HK1, HK.
  - unfold makePtrDecoder, makeNilPtrDecoder, makeSimplePtrDecoder.
    destruct (tg_nilOK ts); [by rewrite HK1, HK|]. by rewrite IH.
Qed.

(** What the decoder of a field promises: it reads back the encoding of a decodable
    value, a tail to the end of the list, and nothing else. *)
Record type_ok (fuel : nat) (f : tags * gotype) : Prop := {
  ok_sound s s' r :
    wf_stream s → s_kind s = None → makeDecoder fuel f.2 f.1 s = (s', r) →
    match r with
    | Ok v => let c := enc_field f.1 (to_item f.2 f.1 v) in
        adv c s s' ∧ room (len c) s ∧ s_kind s' = None ∧ decodable f.2 f.1 v
    | Err e => e = EOL → tg_tail f.1 = false ∧ at_eol s = true
    | Panic _ => True
    end;
  ok_complete v s r :
    let c := enc_field f.1 (to_item f.2 f.1 v) in
    decodable f.2 f.1 v → len c < 2 ^ 64 → (length c < fuel)%nat →
    wf_stream s → s_kind s = None → s_r s = c ++ r → room (len c) s →
    (tg_tail f.1 = true → ∃ p st, s_stack s = (p, p + len c) :: st) →
    ∃ s', makeDecoder fuel f.2 f.1 s = (s', Ok v) ∧ adv c s s' ∧ s_kind s' = None;
  ok_eol : tg_tail f.1 = false → decodes_eol (makeDecoder fuel f.2 f.1) }.

Definition struct_enc (fs : list (tags * gotype)) (l : list goval) : bytes :=
  concat (rlp_enc <$> struct_items (map (λ f : tags * gotype, (f.1, to_item f.2 f.1)) fs) l).

Lemma struct_enc_cons f fs v l :
  struct_enc (f :: fs) (v :: l) = enc_field f.1 (to_item f.2 f.1 v) ++ struct_enc fs l.
Proof. unfold struct_enc. cbn [map]. by rewrite struct_items_enc. Qed.

Notation fields_decodable fs := (all_fields (map (λ f : tags * gotype, decodable f.2 f.1) fs)).
Notation field_decoders fuel fs := (map (λ f : tags * gotype, makeDecoder fuel f.2 f.1) fs).

Lemma tail_last_cons f fs : tail_last (f :: fs) = true → tail_last fs = true ∧ (fs ≠ [] → tg_tail f.1 = false).
Proof.
  destruct f as [ts t], fs as [|f' fs]; [done|]. cbn [tail_last fst].
  intros [H1 H2]%andb_true_iff. split; [done|]. intros _. by apply negb_true_iff.
Qed.

Lemma decodeEach_complete few fuel fs : ∀ l s r acc p st,
  Forall (type_ok fuel) fs → tail_last fs = true → fields_decodable fs l →
  let c := struct_enc fs l in
  len c < 2 ^ 64 → (length c < fuel)%nat → wf_stream s → s_kind s = None → s_r s = c ++ r →
  room (len c) s → s_stack s = (p, p + len c) :: st →
  ∃ s', decodeEach few (field_decoders fuel fs) s acc = (s', Ok (acc ++ l)) ∧ adv c s s' ∧ s_kind s' = None.
Proof.
  induction fs as [|f fs IH]; intros l s r acc p st Hok Htl Hd c Hlen Hfuel Hwf Hk Hr Hroom Hst.
  - destruct l; [|done]. exists s. rewrite app_nil_r. split_and!; [done|apply adv_nil|done].
  - destruct l as [|v l]; [done|]. destruct Hd as [Hv Hd]. apply Forall_cons in Hok as [Hf Hok].
    apply tail_last_cons in Htl as [Htl Htail]. subst c. rewrite struct_enc_cons in *.
    set (cf := enc_field f.1 (to_item f.2 f.1 v)) in *. set (c := struct_enc fs l) in *.
    rewrite len_app in Hlen, Hroom, Hst. rewrite length_app in Hfuel. rewrite <- app_assoc in Hr.
    pose proof (len_nonneg cf). pose proof (len_nonneg c).
    assert (Hroom1 : room (len cf) s) by (eapply room_le; [|done]; lia).
    destruct (ok_complete _ _ Hf v s (c ++ r)) as (s1 & HD & Ha & Hk1); try done; try lia.
    { fold cf. lia. } { fold cf. lia. }
    { intros Ht. exists p, st. destruct fs; [|by rewrite Htail in Ht]. destruct l; [|done].
      rewrite Hst. fold cf. do 2 f_equal. subst c. unfold struct_enc, len. cbn. lia. }
    fold cf in Ha. cbn [map decodeEach]. rewrite HD.
    destruct (IH l s1 r (acc ++ [v]) (p + len cf) st) as (s2 & HD2 & Ha2 & Hk2); try done; try lia.
    + fold c. lia.
    + fold c. lia.
    + by eapply wf_adv.
    + pose proof (adv_r _ _ _ Ha) as E. rewrite Hr in E. by apply app_inv_head in E.
    + by eapply room_adv.
    + rewrite (adv_stack _ _ _ Ha), Hst. cbn. by rewrite Z.add_assoc.
    + exists s2. rewrite HD2, <- app_assoc. split_and!; [done|by eapply adv_trans|done].
Qed.

Lemma decodeEach_sound few fuel fs : ∀ s s' acc r,
  few ≠ EOL → Forall (type_ok fuel) fs → wf_stream s → s_kind s = None →
  decodeEach few (field_decoders fuel fs) s acc = (s', r) →
  match r with
  | Ok l' => ∃ l, l' = acc ++ l ∧ fields_decodable fs l ∧ adv (struct_enc fs l) s s' ∧
      room (len (struct_enc fs l)) s ∧ s_kind s' = None
  | Err e => e ≠ EOL
  | Panic _ => True
  end.
Proof.
  induction fs as [|f fs IH]; intros s s' acc r Hfew Hok Hwf Hk HD; cbn [map decodeEach] in HD.
  - injection HD as <- <-. exists []. rewrite app_nil_r. split_and!; [done|done|apply adv_nil|by apply room_zero|done].
  - apply Forall_cons in Hok as [Hf Hok]. destruct (makeDecoder fuel f.2 f.1 s) as [s1 r1] eqn:E1.
    pose proof (ok_sound _ _ Hf _ _ _ Hwf Hk E1) as HS. destruct r1 as [v|e|m].
    + destruct HS as (Ha & Hr & Hk1 & Hv). pose proof (wf_adv _ _ _ Hwf Hr Ha) as Hwf1.
      pose proof (IH _ _ _ _ Hfew Hok Hwf1 Hk1 HD) as HS. destruct r as [l'|e|m]; [|done..].
      destruct HS as (l & -> & Hd & Ha2 & Hr2 & Hk2). exists (v :: l). rewrite <- app_assoc, struct_enc_cons, len_app.
      split_and!; [done|done|by eapply adv_trans|by eapply adv_room|done].
    + injection HD as <- <-. by case_bool_decide.
    + by injection HD as <- <-.
Qed.

Lemma decodeSeq_complete few fuel fs l s r :
  let c := struct_enc fs l in
  Forall (type_ok fuel) fs → tail_last fs = true → fields_decodable fs l →
  len (enc_list c) < 2 ^ 64 → (length (enc_list c) < fuel)%nat → wf_stream s → s_kind s = None →
  s_r s = enc_list c ++ r → room (len (enc_list c)) s →
  ∃ s', decodeSeq few (field_decoders fuel fs) s = (s', Ok (VList l)) ∧ adv (enc_list c) s s' ∧ s_kind s' = None.
Proof.
  intros c Hok Htl Hd Hlen Hfuel Hwf Hk Hr Hroom. pose proof (len_enc_list c) as Hle.
  destruct (Stream_List_complete c r s) as (s1 & s2 & HL & Ha & Hwf1 & Hwf2 & Hroom1 & Hop & Hr2 & Hroom2);
    try done; try lia.
  unfold decodeSeq. rewrite HL.
  destruct (decodeEach_complete few fuel fs l s2 r [] 0 (s_stack s1)) as (s3 & -> & Ha3 & Hk3); try done.
  - fold c. lia.
  - fold c. unfold len in Hle. lia.
  - apply Hop.
  - apply (op_stack _ _ _ Hop).
  - cbn [app]. destruct (ListEnd_opened c s1 s2 s3) as (s4 & HE & Ha4 & Hk4); [done|apply Hroom1|done|done|].
    exists s4. unfold endList, wrap. rewrite HE. cbn. split_and!; [done| |done].
    change (enc_list c) with (ktag List (len c) x00 ++ c). by eapply adv_trans.
Qed.

Lemma decodeSeq_sound few fuel fs s s' r :
  few ≠ EOL → Forall (type_ok fuel) fs → wf_stream s → s_kind s = None →
  decodeSeq few (field_decoders fuel fs) s = (s', r) →
  match r with
  | Ok v => ∃ l, v = VList l ∧ fields_decodable fs l ∧ adv (enc_list (struct_enc fs l)) s s' ∧
      room (len (enc_list (struct_enc fs l))) s ∧ s_kind s' = None
  | Err e => e = EOL → at_eol s = true
  | Panic _ => True
  end.
Proof.
  intros Hfew Hok Hwf Hk HD. unfold decodeSeq in HD. destruct (Stream_List s) as [s2 r2] eqn:HL.
  pose proof (Stream_List_sound _ _ _ Hwf Hk HL) as HS. destruct r2 as [n|e|m]; [| |done].
  2:{ injection HD as <- <-. intros HE%wrapStreamError_EOL. by apply HS. }
  destruct HS as (s1 & Ha & Hwf1 & Hwf2 & Hr & Hf & Hop & Hu).
  destruct (decodeEach few (field_decoders fuel fs) s2 []) as [s3 r3] eqn:ED.
  pose proof (decodeEach_sound _ _ _ _ _ _ _ Hfew Hok Hwf2 (op_kind _ _ _ Hop) ED) as HS.
  destruct r3 as [l'|e|m]; [|injection HD as <- <-; done..].
  destruct HS as (l & -> & Hd & Ha3 & Hr3 & Hk3). cbn [app] in HD. set (c := struct_enc fs l) in *.
  destruct (decide (n = len c)) as [->|Hne].
  - destruct (ListEnd_opened c s1 s2 s3) as (s4 & HE & Ha4 & Hk4); [done..|].
    unfold endList, wrap in HD. rewrite HE in HD. injection HD as <- <-. exists l.
    split_and!; [done|done| |by eapply list_end_room|done]. by eapply adv_trans.
  - unfold endList, wrap, ListEnd in HD. rewrite (adv_stack _ _ _ Ha3), (op_stack _ _ _ Hop) in HD.
    cbn [move_stack] in HD. rewrite (proj2 (Z.eqb_neq (0 + len c) n)) in HD by lia. cbn in HD.
    by injection HD as <- <-.
Qed.

(** ** The decoders of all types *)

Lemma atom_ok fuel t ts Q :
  tg_tail ts = false → reads_string Q (makeDecoder fuel t ts) →
  (∀ b v, Q b v → decodable t ts v ∧ to_item t ts v = Str b) →
  (∀ v, decodable t ts v → ∃ b, to_item t ts v = Str b ∧ Q b v) →
  (∀ b v v', Q b v → Q b v' → v' = v) →
  decodes_eol (makeDecoder fuel t ts) → type_ok fuel (ts, t).
Proof.
  intros Ht HQ H1 H2 H3 H4.
  assert (Henc : ∀ v, enc_field ts (to_item t ts v) = rlp_enc (to_item t ts v)) by (intros; by apply enc_field_single).
  split; cbn [fst snd].
  - intros s s' r Hwf Hk HD.
    assert (Hs : dec_sound (λ v, rlp_enc (to_item t ts v)) (decodable t ts) (makeDecoder fuel t ts)).
    { apply (reads_string_sound Q); [done|]. intros b v HQb. destruct (H1 b v HQb) as [? ->]. done. }
    specialize (Hs s s' r Hwf Hk HD). destruct r as [v|e|m]; [|auto|done]. cbn zeta. by rewrite Henc.
  - intros v s r; cbn zeta; intros Hd Hlen _ Hwf Hk Hr Hroom _. rewrite Henc in *.
    destruct (H2 v Hd) as (b & Hb & HQb).
    eapply (reads_string_decodes Q _ (λ v, rlp_enc (to_item t ts v)) b v); try done.
    + intros v' HQv. by eapply H3.
    + by rewrite Hb.
    + rewrite Hb in Hlen. by apply enc_ok_Str.
  - done.
Qed.

(** At the end of a list a decoder that asks for the kind reports it. *)
Lemma makeDecoder_eol fuel t ts : tg_tail ts = false → decodes_eol (makeDecoder fuel t ts).
Proof.
  intros Htail s Hk Heol.
  assert (HK : Stream_Kind s = (set_kindinfo None (s_size s) None s, Err EOL)) by by apply Stream_Kind_eol.
  set (s' := set_kindinfo None (s_size s) None s) in *.
  assert (Hs' : adv [] s s' ∧ s_kind s' = None) by (split; [eapply adv_ext; [apply adv_nil|done..]|done]).
  assert (HB : Stream_Bytes s = (s', Err EOL)) by (unfold Stream_Bytes; by rewrite HK).
  assert (HL : Stream_List s = (s', Err EOL)) by (unfold Stream_List; by rewrite HK).
  assert (HU : ∀ bits, Stream_uint bits s = (s', Err EOL)) by (intros; unfold Stream_uint; by rewrite HK).
  exists s'. split; [|done]. revert ts Htail.
  induction t as [bits| | | |m| |e IH|e IH|m e IH|fs IH] using gotype_rect_nested;
    intros ts Htail; cbn [makeDecoder];
    unfold decodeUint, decodeBool, decodeString, decodeByteSlice, decodeBigInt, decodeByteArray, Stream_Bool,
      makeListDecoder, decodeListSlice, decodeListArray, makeStructDecoder, decodeSeq, wrap;
    rewrite ?HU, ?HB, ?HL, ?Htail; try done.
  - by rewrite HK.
  - unfold makePtrDecoder, makeNilPtrDecoder, makeSimplePtrDecoder.
    destruct (tg_nilOK ts); [by rewrite HK|]. by rewrite IH.
Qed.

(** The facts about an element type, on encodings of single items. *)
Lemma elem_ok fuel e :
  type_ok fuel (no_tags, e) →
  dec_sound (λ v, rlp_enc (to_item e no_tags v)) (decodable e no_tags) (makeDecoder fuel e no_tags) ∧
  ∀ v, decodable e no_tags v → len (rlp_enc (to_item e no_tags v)) < 2 ^ 64 →
    (length (rlp_enc (to_item e no_tags v)) < fuel)%nat →
    decodes (λ v, rlp_enc (to_item e no_tags v)) (makeDecoder fuel e no_tags) v.
Proof.
  intros [Hs Hc _]. cbn [fst snd] in *. split.
  - intros s s' r Hwf Hk HD. specialize (Hs s s' r Hwf Hk HD). destruct r as [v|e0|m]; [|naive_solver|done].
    cbn zeta in Hs. by rewrite enc_field_single in Hs.
  - intros v Hd Hlen Hfuel s r Hwf Hk Hr Hroom. rewrite <- (enc_field_single no_tags) in * by done.
    by apply (Hc v s r).
Qed.

Lemma slice_ok fuel e ts :
  tags_ok ts (TSlice e) = true → type_ok fuel (no_tags, e) → type_ok fuel (ts, TSlice e).
Proof.
  intros Hts He. destruct (elem_ok fuel e He) as [Hsound Hdec].
  pose proof (ok_eol _ _ He eq_refl) as Heol. cbn [fst snd] in Heol.
  set (enc := λ v, rlp_enc (to_item e no_tags v)) in *.
  assert (Henc : ∀ l, enc_field ts (to_item (TSlice e) ts (VList l)) =
    if tg_tail ts then concat (enc <$> l) else enc_list (concat (enc <$> l))) by (intros; apply slice_enc).
  split; cbn [fst snd makeDecoder]; unfold makeListDecoder.
  - intros s s' r Hwf Hk HD. destruct (tg_tail ts) eqn:Et.
    + destruct (decodeSliceElems (makeDecoder fuel e no_tags) fuel s []) as [s1 [l|e0|m]] eqn:ED;
        cbn in HD; injection HD as <- <-; [| |done].
      * destruct (decodeSliceElems_sound enc (decodable e no_tags) _ _ _ _ _ _ Hsound Heol Hwf Hk ED)
          as (l0 & -> & Ha & Hr & _ & Hk1 & HP). cbn zeta. rewrite Henc, ?Et. by split_and!.
      * intros ->. by apply decodeSliceElems_ne in ED.
    + destruct (decodeListSlice (makeDecoder fuel e no_tags) fuel s) as [s1 r1] eqn:ED.
      pose proof (decodeListSlice_sound enc (decodable e no_tags) _ _ _ _ _ Hsound (λ _, Heol) Hwf Hk ED) as HS.
      destruct r1 as [l|e0|m]; cbn in HD; injection HD as <- <-; [|auto|done].
      cbn zeta. rewrite Henc, ?Et. by destruct HS as (Ha & Hr & Hk1 & HP).
  - intros v s r; cbn zeta; intros Hd Hlen Hfuel Hwf Hk Hr Hroom Hst.
    destruct v as [| | | | |l]; try done. rewrite Henc in *. cbn [decodable] in Hd.
    set (c := concat (enc <$> l)) in *.
    assert (Hc : len c < 2 ^ 64 ∧ (length c < fuel)%nat).
    { pose proof (len_enc_list c) as Hle. destruct (tg_tail ts); [done|]. unfold len in *. lia. }
    assert (Hl : Forall (decodes enc (makeDecoder fuel e no_tags)) l).
    { apply Forall_forall. intros v Hv. rewrite Forall_forall in Hd.
      assert (Hle : len (enc v) <= len c) by (apply len_concat_elem; by apply (list_elem_of_fmap_2 enc)).
      apply Hdec; [by apply Hd|unfold enc in Hle; lia|]. unfold len, enc in Hle. lia. }
    assert (Hne : ∀ v, v ∈ l → enc v ≠ []) by (intros; apply rlp_enc_nonempty).
    destruct (tg_tail ts) eqn:Et.
    + destruct (decodeSliceElems_complete enc (makeDecoder fuel e no_tags) l fuel s r [])
        as (s' & -> & Ha & Hk'); try done; [|by apply Hst|by exists s'].
      pose proof (length_concat_ne enc l Hne) as Hx. fold c in Hx. lia.
    + destruct (decodeListSlice_complete enc (makeDecoder fuel e no_tags) l fuel s r) as (s' & -> & Ha & Hk');
        try done; [apply Hc|apply Hc|by exists s'].
  - intros Et. by apply (makeDecoder_eol fuel (TSlice e)).
Qed.

(** An array is decoded like a struct with that many fields of its element type. *)
Lemma array_fields n e l :
  fields_decodable (replicate n (no_tags, e)) l ↔ length l = n ∧ Forall (decodable e no_tags) l.
Proof.
  revert l. induction n as [|n IH]; intros [|v l]; cbn.
  - split; [by intros _|done].
  - split; [done|by intros [? _]].
  - split; [done|by intros [? _]].
  - rewrite IH, Forall_cons. split; [intros (? & <- & ?); done|intros ([= ->] & ? & ?); done].
Qed.

Lemma array_enc n e l : length l = n → struct_enc (replicate n (no_tags, e)) l = elems_enc e l.
Proof.
  intros <-. induction l as [|v l IH]; [done|]. cbn [length replicate]. rewrite struct_enc_cons, IH.
  cbn [fst snd]. by rewrite enc_field_single.
Qed.

Lemma tail_last_replicate n e : tail_last (replicate n (no_tags, e)) = true.
Proof. induction n as [|[|n] IH]; done. Qed.

Lemma array_ok fuel n e ts :
  tags_ok ts (TArray n e) = true → type_ok fuel (no_tags, e) → type_ok fuel (ts, TArray n e).
Proof.
  intros Hts He.
  assert (Et : tg_tail ts = false) by (unfold tags_ok in Hts; by destruct (tg_tail ts)).
  assert (Hfs : Forall (type_ok fuel) (replicate n (no_tags, e))) by (by apply Forall_replicate).
  assert (Hdecs : replicate n (makeDecoder fuel e no_tags) = field_decoders fuel (replicate n (no_tags, e))).
  { clear. induction n as [|n IH]; cbn; [done|]. by rewrite IH. }
  assert (Henc : ∀ l, enc_field ts (to_item (TArray n e) ts (VList l)) = enc_list (elems_enc e l)).
  { intros l. cbn [to_item]. by rewrite slice_enc, Et. }
  split; cbn [fst snd makeDecoder]; unfold decodeListArray; rewrite Hdecs.
  - intros s s' r Hwf Hk HD.
    apply (decodeSeq_sound _ fuel (replicate n (no_tags, e)) s s' r) in HD as HS; [|done..].
    destruct r as [v|e0|m]; [|auto|done]. destruct HS as (l & -> & Hd & Ha & Hr & Hk').
    apply array_fields in Hd as [Hl Hd]. cbn zeta. rewrite Henc. rewrite array_enc in Ha, Hr by done. by split_and!.
  - intros v s r; cbn zeta; intros Hd Hlen Hfuel Hwf Hk Hr Hroom _.
    destruct v as [| | | | |l]; try done. rewrite Henc in *. rewrite <- (array_enc n) in * by apply Hd.
    apply (decodeSeq_complete _ fuel (replicate n (no_tags, e)) l s r); try done;
      [apply tail_last_replicate|by apply array_fields].
  - intros _. rewrite <- Hdecs. apply (makeDecoder_eol fuel (TArray n e) ts Et).
Qed.

Lemma struct_ok fuel fs ts :
  tags_ok ts (TStruct fs) = true → tail_last fs = true → Forall (type_ok fuel) fs →
  type_ok fuel (ts, TStruct fs).
Proof.
  intros Hts Htl Hfs.
  assert (Et : tg_tail ts = false) by (unfold tags_ok in Hts; by destruct (tg_tail ts)).
  assert (Henc : ∀ l, enc_field ts (to_item (TStruct fs) ts (VList l)) = enc_list (struct_enc fs l)).
  { intros l. by rewrite enc_field_single. }
  split; cbn [fst snd makeDecoder]; unfold makeStructDecoder.
  - intros s s' r Hwf Hk HD. apply (decodeSeq_sound _ fuel fs s s' r) in HD as HS; [|done..].
    destruct r as [v|e0|m]; [|auto|done]. destruct HS as (l & -> & Hd & Ha & Hr & Hk').
    cbn zeta. rewrite Henc. by split_and!.
  - intros v s r; cbn zeta; intros Hd Hlen Hfuel Hwf Hk Hr Hroom _.
    destruct v as [| | | | |l]; try done. rewrite Henc in *. by apply (decodeSeq_complete _ fuel fs l s r).
  - intros _. apply (makeDecoder_eol fuel (TStruct fs) ts Et).
Qed.

(** ** Pointers *)

Lemma nilptr_empty k x s s1 :
  Stream_Kind s = (s1, Ok (k, 0)) → announced k 0 x s s1 → k ≠ Byte →
  let it := if bool_decide (k = String) then Str [] else Lst [] in
  adv (rlp_enc it) s (set_kind None s1).
Proof.
  intros HK Ha Hk. pose proof (announced_rearm _ _ _ _ _ Ha) as HA. destruct k; [done|exact HA|exact HA].
Qed.

(** The announcement of an item. *)
Lemma Stream_Kind_item it r s :
  enc_ok it → wf_stream s → s_kind s = None → s_r s = rlp_enc it ++ r → room (len (rlp_enc it)) s →
  ∃ x s1, let k := item_kind it in let n := if bool_decide (k = Byte) then 0 else len (item_content it) in
    Stream_Kind s = (s1, Ok (k, n)) ∧ announced k n x s s1 ∧
    (negb (bool_decide (k = Byte)) && (n =? 0)) = empty_item it.
Proof.
  intros Hok Hwf Hk Hr Hroom. destruct (rlp_enc_tag it) as [E Hc]. cbn zeta.
  assert (Hn : len (item_content it) < 2 ^ 64).
  { unfold enc_ok in Hok. rewrite E, len_app in Hok. pose proof (len_nonneg (value_tag (item_kind it) (len (item_content it)))). lia. }
  pose proof (len_nonneg (item_content it)) as Hn0.
  assert (Hem : empty_item it = negb (bool_decide (item_kind it = Byte)) && (len (item_content it) =? 0)).
  { destruct it as [[|x [|y b]]|[|i l]]; cbn [empty_item item_kind item_content]; try done.
    - destruct (byte_val x <=? 0x7F); done.
    - rewrite (proj2 (Z.eqb_neq _ 0)); [done|]. cbn [fmap list_fmap concat]. rewrite len_app.
      pose proof (rlp_enc_nonempty i). destruct (rlp_enc i) as [|b0 b]; [done|]. rewrite len_cons.
      pose proof (len_nonneg b). pose proof (len_nonneg (concat (rlp_enc <$> l))). lia. }
  rewrite Hem. rewrite E in Hr, Hroom. destruct (item_kind it) eqn:Ek; cbn [value_tag] in *.
  - destruct Hc as (x & Hx & Hlt). rewrite Hx in *. cbn [app] in Hr.
    destruct (Stream_Kind_complete Byte 0 x r s) as (s1 & HK & Ha); try done. by exists x, s1.
  - rewrite <- app_assoc in Hr. rewrite len_app in Hroom.
    destruct (Stream_Kind_complete String (len (item_content it)) x00 (item_content it ++ r) s)
      as (s1 & HK & Ha); try done. by exists x00, s1.
  - rewrite <- app_assoc in Hr. rewrite len_app in Hroom.
    destruct (Stream_Kind_complete List (len (item_content it)) x00 (item_content it ++ r) s)
      as (s1 & HK & Ha); try done. by exists x00, s1.
Qed.

Lemma simple_ptr_ok fuel e ts :
  tags_ok ts (TPtr e) = true → tg_nilOK ts = false → type_ok fuel (no_tags, e) → type_ok fuel (ts, TPtr e).
Proof.
  intros Hts Hnil He. destruct (elem_ok fuel e He) as [Hsound Hdec].
  assert (Et : tg_tail ts = false) by (unfold tags_ok in Hts; by destruct (tg_tail ts)).
  assert (Henc : ∀ v, enc_field ts (to_item (TPtr e) ts (VPtr (Some v))) = rlp_enc (to_item e no_tags v)).
  { intros v. by rewrite enc_field_single. }
  split; cbn [fst snd makeDecoder]; unfold makePtrDecoder, makeSimplePtrDecoder; rewrite ?Hnil.
  - intros s s' r Hwf Hk HD. destruct (makeDecoder fuel e no_tags s) as [s1 r1] eqn:E1.
    pose proof (Hsound _ _ _ Hwf Hk E1) as HS.
    destruct r1 as [v|e0|m]; cbn in HD; injection HD as <- <-; [|auto|done].
    destruct HS as (Ha & Hr & Hk1 & Hv). cbn zeta. rewrite Henc. split_and!; try done. split; [done|by rewrite Hnil].
  - intros v s r; cbn zeta; intros Hd Hlen Hfuel Hwf Hk Hr Hroom _.
    destruct v as [| | | |[v|]|]; try done; [|cbn in Hd; congruence]. rewrite Henc in *. destruct Hd as [Hd _].
    destruct (Hdec v Hd Hlen Hfuel s r) as (s' & -> & Ha & Hk'); try done. by exists s'.
  - intros _. pose proof (makeDecoder_eol fuel (TPtr e) ts Et) as Heol. cbn [makeDecoder] in Heol.
    unfold makePtrDecoder in Heol. by rewrite Hnil in Heol.
Qed.

Lemma nil_ptr_ok fuel e ts :
  tags_ok ts (TPtr e) = true → tg_nilOK ts = true → type_ok fuel (no_tags, e) → type_ok fuel (ts, TPtr e).
Proof.
  intros Hts Hnil He. destruct (elem_ok fuel e He) as [Hsound Hdec].
  unfold tags_ok in Hts. rewrite Hnil in Hts. cbn in Hts. apply andb_true_iff in Hts as [Et Hkind].
  assert (tg_tail ts = false) as Et' by (by destruct (tg_tail ts)). clear Et. bool_props.
  assert (Henc : ∀ v, enc_field ts (to_item (TPtr e) ts v) = rlp_enc (to_item (TPtr e) ts v))
    by (intros v; by rewrite enc_field_single).
  assert (Hnone : to_item (TPtr e) ts (VPtr None) = if bool_decide (tg_nilKind ts = String) then Str [] else Lst [])
    by (cbn [to_item]; by rewrite Hnil).
  split; cbn [fst snd makeDecoder]; unfold makePtrDecoder; rewrite ?Hnil.
  - intros s s' r Hwf Hk HD. unfold makeNilPtrDecoder in HD. destruct (at_eol s) eqn:Heol.
    { rewrite Stream_Kind_eol in HD by done. by injection HD as <- <-. }
    destruct (Stream_Kind_cases s Hwf Hk Heol)
      as [(k & n & x & s1 & Hko & Hr & Hf & HK & Ha)|(s1 & e0 & HK & He0)]; rewrite HK in HD.
    2:{ injection HD as <- <-. intros HE%wrapStreamError_EOL. by rewrite HE in He0. }
    destruct (negb (bool_decide (k = Byte)) && (n =? 0)) eqn:Eempty.
    + apply andb_true_iff in Eempty as [Ek En]. bool_props. subst n.
      destruct (negb (bool_decide (k = tg_nilKind ts))) eqn:Ekk; injection HD as <- <-; [done|]. bool_props. subst k.
      cbn zeta. rewrite Henc, Hnone. split_and!; [by eapply nilptr_empty| |done|done].
      destruct (tg_nilKind ts); [done|exact Hr|exact Hr].
    + unfold makeSimplePtrDecoder in HD.
      rewrite (makeDecoder_kind_first fuel e no_tags eq_refl s s1 k n x HK Ha) in HD.
      destruct (makeDecoder fuel e no_tags s) as [s2 r2] eqn:E2. pose proof (Hsound _ _ _ Hwf Hk E2) as HS.
      destruct r2 as [v|e0|m]; cbn in HD; injection HD as <- <-; [|intros HE; by rewrite HS in Heol|done].
      destruct HS as (Ha2 & Hr2 & Hk2 & Hv). cbn zeta. rewrite Henc. split_and!; try done. split; [done|]. intros _.
      destruct (empty_item (to_item e no_tags v)) eqn:Ei; [exfalso|done].
      destruct (Stream_Kind_item (to_item e no_tags v) (s_r s2) s) as (y & s3 & HK' & _ & Hem);
        [by destruct (to_item e no_tags v) as [[]|[]]|done|done|apply Ha2|done|].
      rewrite HK in HK'. injection HK' as _ -> ->. congruence.
  - intros v s r; cbn zeta; intros Hd Hlen Hfuel Hwf Hk Hr Hroom _. rewrite Henc in *.
    destruct (Stream_Kind_item (to_item (TPtr e) ts v) r s) as (x & s1 & HK & Ha & Hem); try done.
    unfold makeNilPtrDecoder. rewrite HK, Hem. destruct v as [| | | |[v|]|]; try done.
    + destruct Hd as [Hd Hne]. cbn [to_item] in *. rewrite (Hne Hnil). unfold makeSimplePtrDecoder.
      rewrite (makeDecoder_kind_first fuel e no_tags eq_refl s s1 _ _ x HK Ha).
      destruct (Hdec v Hd Hlen Hfuel s r) as (s' & -> & Ha' & Hk'); try done. by exists s'.
    + rewrite Hnone in *. clear Hem. apply announced_rearm in Ha.
      destruct (tg_nilKind ts) eqn:Ek; [done|..]; cbn in *; by eexists.
  - intros _. pose proof (makeDecoder_eol fuel (TPtr e) ts Et') as Heol. cbn [makeDecoder] in Heol.
    unfold makePtrDecoder in Heol. by rewrite Hnil in Heol.
Qed.

Lemma tags_ok_tail ts t : tags_ok ts t = true → (∀ e, t ≠ TSlice e) → tg_tail ts = false.
Proof. unfold tags_ok. intros Ht Hne. destruct (tg_tail ts); [|done]. destruct t; try done. by destruct (Hne t). Qed.

Lemma uint_ok fuel bits ts :
  bits ∈ [8; 16; 32; 64] → tg_tail ts = false → type_ok fuel (ts, TUint bits).
Proof.
  intros Hb Ht. eapply atom_ok; [done|by apply reads_uint| | | |by apply makeDecoder_eol].
  - intros b v (z & -> & Hh & Hl & ->). cbn [decodable to_item]. rewrite big_Bytes_decode by done.
    split; [|done]. pose proof (be_decode_bound b). split; [lia|].
    apply (big_Bytes_length bits); [done|lia|]. by rewrite big_Bytes_decode.
  - intros v Hd. destruct v as [z| | | | |]; try done. exists (big_Bytes z). split; [done|]. exists z. split; [done|].
    destruct Hd as [H1 H2]. split_and!; [by apply big_Bytes_head|by apply big_Bytes_length|by rewrite be_decode_big_Bytes].
  - intros b v v' (z & -> & _ & _ & ->) (z' & -> & _ & _ & ->). done.
Qed.

Lemma makeDecoder_ok fuel t : ∀ ts, rlp_type t = true → tags_ok ts t = true → type_ok fuel (ts, t).
Proof.
  induction t as [bits| | | |n| |e IH|e IH|n e IH|fs IH] using gotype_rect_nested; intros ts Ht Hts;
    try (assert (Et : tg_tail ts = false) by (by eapply tags_ok_tail)); cbn [rlp_type] in Ht.
  - apply uint_ok; [|done]. by bool_props.
  - eapply atom_ok; [done|apply reads_bool| | | |by apply makeDecoder_eol].
    + by intros b v (x & -> & ->).
    + intros v Hd. destruct v as [|x| | | |]; try done. eexists. split; [done|]. by exists x.
    + intros b v v' (x & -> & ->) (x' & -> & Hx). by destruct x, x'.
  - eapply atom_ok; [done|apply reads_bytes| | | |by apply makeDecoder_eol]; [by intros b v ->| |by intros b v v' -> ->].
    intros v Hd. destruct v as [| |b| | |]; try done. by exists b.
  - eapply atom_ok; [done|apply reads_bytes| | | |by apply makeDecoder_eol]; [by intros b v ->| |by intros b v v' -> ->].
    intros v Hd. destruct v as [| |b| | |]; try done. by exists b.
  - bool_props. eapply atom_ok; [done|by apply reads_byte_array| | | |by apply makeDecoder_eol].
    + by intros b v [-> Hl].
    + intros v Hd. destruct v as [| |b| | |]; try done. by exists b.
    + by intros b v v' [-> _] [-> _].
  - eapply atom_ok; [done|apply reads_bigint| | | |by apply makeDecoder_eol].
    + intros b v [Hh ->]. split; [apply be_decode_bound|]. cbn. by rewrite big_Bytes_decode.
    + intros v Hd. destruct v as [| | |[z|]| |]; try done. exists (big_Bytes z). split; [done|].
      split; [by apply big_Bytes_head|by rewrite be_decode_big_Bytes].
    + by intros b v v' [_ ->] [_ ->].
  - destruct (tg_nilOK ts) eqn:Hnil; [apply nil_ptr_ok|apply simple_ptr_ok]; try done; by apply IH.
  - apply andb_true_iff in Ht as [Ht _]. apply slice_ok; [done|]. by apply IH.
  - apply andb_true_iff in Ht as [Ht _]. apply array_ok; [done|]. by apply IH.
  - apply andb_true_iff in Ht as [Ht Htl]. apply struct_ok; [done|done|].
    rewrite forallb_forall in Ht. rewrite Forall_forall in IH |- *. intros [ts' f] Hf.
    apply list_elem_of_In in Hf as Hin. apply Ht, andb_true_iff in Hin as [H1 H2]. by apply (IH (ts', f)).
Qed.

(** ** No run out of fuel *)

Definition dec_total (fuel : nat) (dec : decoder) : Prop :=
  ∀ s s' m, wf_stream s → s_kind s = None → (length (s_r s) < fuel)%nat → dec s ≠ (s', Panic m).

Lemma adv_length c s s' : adv c s s' → length (s_r s) = (length c + length (s_r s'))%nat.
Proof. intros Ha. rewrite (adv_r _ _ _ Ha). apply length_app. Qed.

Lemma decodeSliceElems_total fuel (enc : goval → bytes) P dec n : ∀ s acc s' m,
  dec_sound enc P dec → (∀ v, enc v ≠ []) → dec_total fuel dec →
  wf_stream s → s_kind s = None → (length (s_r s) < n)%nat → (length (s_r s) < fuel)%nat →
  decodeSliceElems dec n s acc ≠ (s', Panic m).
Proof.
  induction n as [|n IH]; intros s acc s' m Hs Hne Ht Hwf Hk Hn Hf; [lia|]. cbn [decodeSliceElems].
  destruct (dec s) as [s1 r1] eqn:E1. pose proof (Hs _ _ _ Hwf Hk E1) as HS. destruct r1 as [v|e|m'].
  - destruct HS as (Ha & Hr & Hk1 & _). pose proof (adv_length _ _ _ Ha) as Hl.
    assert (Hlen : (1 ≤ length (enc v))%nat) by (specialize (Hne v); destruct (enc v); [done|cbn; lia]).
    apply IH; try done; [by eapply wf_adv|lia|lia].
  - by case_bool_decide.
  - by apply Ht in E1.
Qed.

Lemma opened_shorter s s1 s2 n : adv (ktag List n x00) s s1 → opened n s1 s2 →
  (length (s_r s2) ≤ length (s_r s))%nat.
Proof. intros Ha Hop. rewrite (op_r _ _ _ Hop), (adv_length _ _ _ Ha). lia. Qed.

Lemma decodeEach_total few fuel fs : ∀ s acc s' m,
  Forall (λ f : tags * gotype, type_ok fuel f ∧ dec_total fuel (makeDecoder fuel f.2 f.1)) fs →
  wf_stream s → s_kind s = None → (length (s_r s) < fuel)%nat →
  decodeEach few (field_decoders fuel fs) s acc ≠ (s', Panic m).
Proof.
  induction fs as [|f fs IH]; intros s acc s' m Hfs Hwf Hk Hf; cbn [map decodeEach]; [done|].
  apply Forall_cons in Hfs as [[Hok Ht] Hfs]. destruct (makeDecoder fuel f.2 f.1 s) as [s1 r1] eqn:E1.
  pose proof (ok_sound _ _ Hok _ _ _ Hwf Hk E1) as HS. destruct r1 as [v|e|m'].
  - destruct HS as (Ha & Hr & Hk1 & _). pose proof (adv_length _ _ _ Ha).
    apply IH; try done; [by eapply wf_adv|lia].
  - done.
  - by apply Ht in E1.
Qed.

Lemma decodeSeq_total few fuel fs :
  Forall (λ f : tags * gotype, type_ok fuel f ∧ dec_total fuel (makeDecoder fuel f.2 f.1)) fs →
  dec_total fuel (decodeSeq few (field_decoders fuel fs)).
Proof.
  intros Hfs s s' m Hwf Hk Hf. unfold decodeSeq. destruct (Stream_List s) as [s2 r2] eqn:HL.
  pose proof (Stream_List_sound _ _ _ Hwf Hk HL) as HS. destruct r2 as [n|e|m']; [|done|done].
  destruct HS as (s1 & Ha & Hwf1 & Hwf2 & Hr & Hfit & Hop & Hu). pose proof (opened_shorter _ _ _ _ Ha Hop).
  destruct (decodeEach few (field_decoders fuel fs) s2 []) as [s3 [l|e|m']] eqn:ED; [|done|].
  - unfold endList, wrap, ListEnd. repeat case_match; done.
  - exfalso. eapply decodeEach_total; [exact Hfs|exact Hwf2|apply Hop| |exact ED]. lia.
Qed.

Lemma atom_total fuel Q dec : reads_string Q dec → dec_total fuel dec.
Proof. intros HQ s s' m Hwf Hk _. by eapply reads_string_eol. Qed.

Lemma slice_total fuel e ts :
  type_ok fuel (no_tags, e) → dec_total fuel (makeDecoder fuel e no_tags) →
  dec_total fuel (makeDecoder fuel (TSlice e) ts).
Proof.
  intros He Ht s s' m Hwf Hk Hf. destruct (elem_ok fuel e He) as [Hsound _]. cbn [makeDecoder]. unfold makeListDecoder.
  assert (Hel : ∀ s s' m, wf_stream s → s_kind s = None → (length (s_r s) < fuel)%nat →
    decodeSliceElems (makeDecoder fuel e no_tags) fuel s [] ≠ (s', Panic m)).
  { intros. eapply decodeSliceElems_total; try done. intros. apply rlp_enc_nonempty. }
  destruct (tg_tail ts).
  - destruct (decodeSliceElems _ _ _ _) as [s1 [l|e0|m']] eqn:ED; try done. by apply Hel in ED.
  - unfold decodeListSlice. destruct (Stream_List s) as [s2 r2] eqn:HL.
    pose proof (Stream_List_sound _ _ _ Hwf Hk HL) as HS. destruct r2 as [n|e0|m']; [|done|done].
    destruct HS as (s1 & Ha & Hwf1 & Hwf2 & Hr & Hfit & Hop & Hu). pose proof (opened_shorter _ _ _ _ Ha Hop).
    destruct (n =? 0); [unfold ListEnd_with, ListEnd; repeat case_match; by simplify_eq/=|].
    destruct (decodeSliceElems _ _ _ _) as [s3 [l|e0|m']] eqn:ED;
      [unfold ListEnd_with, ListEnd; repeat case_match; by simplify_eq/=|done|].
    apply Hel in ED; [done|done|apply Hop|lia].
Qed.

Lemma makeDecoder_total fuel t : ∀ ts,
  rlp_type t = true → tags_ok ts t = true → dec_total fuel (makeDecoder fuel t ts).
Proof.
  induction t as [bits| | | |n| |e IH|e IH|n e IH|fs IH] using gotype_rect_nested; intros ts Ht Hts; cbn [rlp_type] in Ht.
  - bool_props. eapply atom_total. by apply reads_uint.
  - eapply atom_total, reads_bool.
  - eapply atom_total, reads_bytes.
  - eapply atom_total, reads_bytes.
  - bool_props. eapply atom_total. by apply reads_byte_array.
  - eapply atom_total, reads_bigint.
  - specialize (IH no_tags Ht eq_refl). cbn [makeDecoder]. unfold makePtrDecoder, makeNilPtrDecoder, makeSimplePtrDecoder.
    assert (Hs : dec_total fuel (λ s, let '(s, r) := makeDecoder fuel e no_tags s in (s, v ← r; Ok (VPtr (Some v))))).
    { intros s s' m Hwf Hk Hf. destruct (makeDecoder fuel e no_tags s) as [s1 [v|e0|m']] eqn:E; try done. by apply IH in E. }
    destruct (tg_nilOK ts); [|exact Hs]. intros s s' m Hwf Hk Hf. destruct (at_eol s) eqn:Heol.
    { by rewrite Stream_Kind_eol by done. }
    destruct (Stream_Kind_cases s Hwf Hk Heol)
      as [(k & n & x & s1 & Hko & Hr & Hfit & HK & Ha)|(s1 & e0 & HK & He0)]; rewrite HK; [|done].
    destruct (negb _ && _); [by destruct (negb _)|].
    rewrite (makeDecoder_kind_first fuel e no_tags eq_refl s s1 k n x HK Ha). by apply Hs.
  - apply andb_true_iff in Ht as [Ht _]. apply slice_total; [by apply makeDecoder_ok|by apply IH].
  - apply andb_true_iff in Ht as [Ht _]. cbn [makeDecoder]. unfold decodeListArray.
    assert (replicate n (makeDecoder fuel e no_tags) = field_decoders fuel (replicate n (no_tags, e))) as ->.
    { clear. induction n as [|n IH]; cbn; [done|]. by rewrite IH. }
    apply decodeSeq_total. apply Forall_replicate. split; [by apply makeDecoder_ok|by apply IH].
  - apply andb_true_iff in Ht as [Ht Htl]. apply decodeSeq_total.
    rewrite forallb_forall in Ht. rewrite Forall_forall in IH |- *. intros [ts' f] Hf.
    apply list_elem_of_In in Hf as Hin. apply Ht, andb_true_iff in Hin as [H1 H2].
    split; [by apply makeDecoder_ok|by apply (IH (ts', f))].
Qed.

(** ** Theorems *)

Lemma decodable_has_type t : ∀ ts v, decodable t ts v → has_type t v.
Proof.
  induction t as [bits| | | |n| |e IH|e IH|n e IH|fs IH] using gotype_rect_nested; intros ts v Hd;
    destruct v as [z|x|b|[i|]|[v|]|l]; try done; cbn [decodable has_type] in *.
  - destruct Hd as [Hd _]. by eapply IH.
  - eapply Forall_impl; [exact Hd|]. intros. by eapply IH.
  - destruct Hd as [Hl Hd]. split; [done|]. eapply Forall_impl; [exact Hd|]. intros. by eapply IH.
  - revert l Hd. induction IH as [|f fs Hf _ IHfs]; intros [|v l] Hd; try done.
    destruct Hd as [Hv Hd]. split; [by eapply Hf|by apply IHfs].
Qed.

Lemma EncodeValue_enc t v :
  rlp_type t = true → has_type t v → enc_ok (to_item t no_tags v) →
  EncodeValue t v = Ok (rlp_enc (to_item t no_tags v)).
Proof.
  intros Ht Hv Hok. unfold enc_ok in Hok. rewrite <- (enc_field_single no_tags) in Hok by done.
  destruct (makeWriter_writes t no_tags v Ht eq_refl Hv Hok encbuf_reset) as (w & s & hs & E & A).
  unfold EncodeValue. rewrite E. cbn. f_equal. rewrite <- (enc_field_single no_tags) by done.
  destruct A as [S1 H1 _ _ _ R]. unfold toBytes. by rewrite S1, H1.
Qed.

(** The writer chosen for a Go type produces the RLP encoding of the value, for
    every value of the type, nil pointers and tails included, whose encoding is shorter
    than 2^64 bytes. *)
Theorem EncodeValue_reference t v :
  rlp_type t = true → has_type t v → enc_ok (to_item t no_tags v) →
  EncodeValue t v = Ok (rlp_enc (to_item t no_tags v)).
Proof. apply EncodeValue_enc. Qed.

Lemma DecodeValue_ok t b v :
  rlp_type t = true → len b < 2 ^ 64 →
  (DecodeValue t b = Ok v ↔
   decodable t no_tags v ∧ enc_ok (to_item t no_tags v) ∧ EncodeValue t v = Ok b) ∧
  ∀ m, DecodeValue t b ≠ Panic m.
Proof.
  intros Ht Hb. assert (Hwf : wf_stream (ResetBytes b)).
  { split_and!; [constructor|split; [apply len_nonneg|done]|done]. }
  pose proof (makeDecoder_ok (S (length b)) t no_tags Ht eq_refl) as Hok. unfold DecodeValue. split; [split|].
  - intros HD. destruct (makeDecoder _ _ _ _) as [s r] eqn:E. apply bind_Ok in HD as (x & -> & HD).
    destruct (0 <? len (s_r s)) eqn:El; [done|]. injection HD as ->. bool_props.
    destruct (ok_sound _ _ Hok _ _ _ Hwf eq_refl E) as (Ha & _ & _ & Hd). cbn [fst snd] in *.
    rewrite enc_field_single in Ha by done. pose proof (adv_r _ _ _ Ha) as Hr. cbn in Hr.
    assert (s_r s = []) as Hnil by (destruct (s_r s); [done|]; rewrite len_cons in El; pose proof (len_nonneg l); lia).
    rewrite Hnil, app_nil_r in Hr. assert (Hen : enc_ok (to_item t no_tags v)) by (unfold enc_ok; by rewrite <- Hr).
    split_and!; [done|done|]. rewrite EncodeValue_enc, Hr; [done|done|by eapply decodable_has_type|done].
  - intros (Hd & Hen & HE). rewrite EncodeValue_enc in HE; [|done|by eapply decodable_has_type|done].
    injection HE as <-. set (e := rlp_enc (to_item t no_tags v)) in *.
    destruct (ok_complete _ _ Hok v (ResetBytes e) []) as (s & HD & Ha & _); cbn [fst snd] in *;
      rewrite ?(enc_field_single no_tags) by done; fold e; try done; try lia.
    { by rewrite app_nil_r. }
    { rewrite HD. cbn [mbind result_bind]. rewrite enc_field_single in Ha by done. fold e in Ha.
      pose proof (adv_length _ _ _ Ha) as Hl. cbn in Hl. destruct (s_r s); [done|]. cbn in Hl. lia. }
  - intros m HD. destruct (makeDecoder _ _ _ _) as [s [x|e|m']] eqn:E; cbn in HD.
    + by destruct (0 <? len (s_r s)).
    + done.
    + by apply (makeDecoder_total _ t no_tags Ht eq_refl) in E; cbn; [|done|done|lia].
Qed.

(** C38. Decoding an input of less than 2^64 bytes into a Go type, other than one that
    contains an array of one byte, accepts exactly the encodings of the values of that type
    and returns the encoded value: every other input, non-canonical, too long or too short
    for the type, or with trailing data, is an error.  Pointers come back as they were
    wherever a nil pointer is allowed and not the encoding of the value itself.  Decoding
    terminates without a panic on every such input.  The types are those that are
    built from unsigned integers of 8 to 64 bits, booleans, strings, byte slices and
    arrays, [big.Int], pointers, slices, arrays and structs, with [nil] tags on pointers
    and [tail] on a last field that is a slice.  (An array of one byte diverges:
    [zero_byte_array_diverges].) *)
Theorem DecodeValue_iff t b v :
  rlp_type t = true → len b < 2 ^ 64 →
  (DecodeValue t b = Ok v ↔
   decodable t no_tags v ∧ enc_ok (to_item t no_tags v) ∧ EncodeValue t v = Ok b) ∧
  ∀ m, DecodeValue t b ≠ Panic m.
Proof. apply DecodeValue_ok. Qed.

(** An array of one byte that is zero is encoded, but decoding it leaves the stream
    at that byte: [decodeByteArray] ignores the error of [Uint], which keeps the byte
    announced.  The decoder of a slice of such arrays never gets to the end of the list,
    however many elements it decodes. *)
Theorem zero_byte_array_diverges :
  EncodeValue (TSlice (TByteArray 1)) (VList [VStr [x00]]) = Ok [byte_of_Z 0xC1; x00] ∧
  ∀ fuel, snd (makeDecoder fuel (TSlice (TByteArray 1)) no_tags (ResetBytes [byte_of_Z 0xC1; x00]))
          = Panic "out of fuel".
Proof.
  split; [reflexivity|]. intros fuel. cbn [makeDecoder]. unfold makeListDecoder. cbn [no_tags tg_tail].
  assert (Hloop : ∀ n acc s, s_kind s = Some Byte → s_kinderr s = None → s_byteval s = x00 →
    snd (decodeSliceElems (decodeByteArray 1) n s acc) = Panic "out of fuel").
  { induction n as [|n IH]; intros acc s Hk He Hb; [done|]. cbn [decodeSliceElems]. unfold decodeByteArray.
    rewrite (Stream_Kind_cached Byte) by done. cbn. unfold Stream_Uint, Stream_uint.
    rewrite (Stream_Kind_cached Byte), Hb by done. cbn. by apply IH. }
  unfold decodeListSlice. destruct (Stream_List _) as [s r] eqn:HL. vm_compute in HL. injection HL as <- <-.
  cbn [Z.eqb]. destruct fuel as [|n]; [done|]. cbn [decodeSliceElems].
  destruct (decodeByteArray 1 _) as [s r] eqn:HD. vm_compute in HD. injection HD as <- <-.
  match goal with |- context [decodeSliceElems ?d n ?s ?a] => pose proof (Hloop n a s) as Hl;
    destruct (decodeSliceElems d n s a) as [s' r'] end.
  cbn in Hl. rewrite (Hl eq_refl eq_refl eq_refl). done.
Qed.

(** ** Witnesses *)

(** A struct with a pointer that may be nil and a tail. *)
Definition example_struct : gotype :=
  TStruct [(no_tags, TUint 64); (mkTags true String false, TPtr (TByteArray 2)); (no_tags, TBigInt);
           (mkTags false Byte true, TSlice TBytes)].
Definition example_value : goval :=
  VList [VUint 1024; VPtr None; VBig (Some 70000); VList [VStr [x01; x02]; VStr []]].
Definition example_encoding : bytes :=
  map byte_of_Z [0xCC; 0x82; 4; 0; 0x80; 0x83; 1; 0x11; 0x70; 0x82; 1; 2; 0x80].

Lemma EncodeValue_reference_witness :
  EncodeValue example_struct example_value = Ok (rlp_enc (to_item example_struct no_tags example_value)).
Proof.
  apply EncodeValue_reference; [reflexivity| |reflexivity].
  cbn. repeat (split || constructor); lia.
Defined.

Lemma DecodeValue_iff_witness : DecodeValue example_struct example_encoding = Ok example_value.
Proof.
  apply (DecodeValue_iff example_struct example_encoding example_value); [reflexivity|reflexivity|].
  split; [|split; [reflexivity|vm_compute; reflexivity]]. cbn. repeat (split || constructor); lia.
Defined.
