(* ===== verification/SequencerBatch.v ===== *)
(** * Legacy sequencer batches

    batch-submitter/drivers/sequencer: the calldata format of [appendSequencerBatch]
    (encoding.go), the grouping of L2 blocks into batch contexts (batch.go,
    cached_tx.go) and the choice and pruning of the blocks of a batch (driver.go).
    Transactions are those of l2geth/core/types, encoded by the RLP codec of RLPTypes.
    zlib is a parameter, as is the way a buffered reader splits what it delivers. *)

From S2P Require Import Prelude GoErrors EthTypes RLP RLPStream RLPTypes.
From S2P Require Import Extern L1Info Batch ChannelInReader ChannelOut.

(** ** Transactions (l2geth/core/types/transaction.go, cached_tx.go) *)

(** The type [txdata]; its field [Hash] has the tag ["-"]. *)
Definition txdata : gotype :=
  TStruct [(no_tags, TUint 64); (no_tags, TBigInt); (no_tags, TUint 64);
           (mkTags true String false, TPtr (TByteArray 20)); (no_tags, TBigInt);
           (no_tags, TBytes); (no_tags, TBigInt); (no_tags, TBigInt); (no_tags, TBigInt)].

Record CachedTx := mkCachedTx { ct_tx : goval; ct_rawTx : bytes }.

Definition NewCachedTx (tx : goval) : result CachedTx :=
  match EncodeValue txdata tx with
  | Ok raw => Ok (mkCachedTx tx raw)
  | Err _ => Panic "Unable to encode tx"
  | Panic m => Panic m
  end.

Definition Size (t : CachedTx) : Z := len (ct_rawTx t).

(** ** Batch contexts (encoding.go) *)

Definition TxLenSize : nat := 3.
Definition ErrMalformedBatch : error := ErrorNew "malformed batch".

Record BatchContext := mkBatchContext {
  bc_NumSequencedTxs : Z; bc_NumSubsequentQueueTxs : Z; bc_Timestamp : Z; bc_BlockNumber : Z }.

#[export] Instance BatchContext_eq_dec : EqDecision BatchContext.
Proof. solve_decision. Defined.

Definition BatchType := Z.
Definition BatchTypeLegacy : BatchType := -1.
Definition BatchTypeZlib : BatchType := 0.

Definition IsMarkerContext (c : BatchContext) : bool := bc_Timestamp c =? 0.
Definition MarkerBatchType (c : BatchContext) : BatchType :=
  if bc_BlockNumber c =? 0 then BatchTypeZlib else BatchTypeLegacy.
Definition MarkerContext (b : BatchType) : option BatchContext :=
  if b =? BatchTypeLegacy then None
  else if b =? BatchTypeZlib then Some (mkBatchContext 0 0 0 0)
  else None.

(** [writeUint64], by the bytes it writes; [n] is between one and eight. *)
Definition writeUint64 (val : Z) (n : nat) : result bytes :=
  if Z.shiftr (2 ^ 64 - 1) (8 * (8 - Z.of_nat n)) <? val then Panic "cannot encode in n byte value"
  else Ok (be_encode n val).

Definition BatchContext_Write (c : BatchContext) : result bytes :=
  a ← writeUint64 (bc_NumSequencedTxs c) 3;
  b ← writeUint64 (bc_NumSubsequentQueueTxs c) 3;
  t ← writeUint64 (bc_Timestamp c) 5;
  n ← writeUint64 (bc_BlockNumber c) 5;
  Ok (a ++ b ++ t ++ n).

(** A reader: the pieces it delivers one at a time, never joining two in one [Read], the
    error it ends with, and whether it is a [bytes.Reader]. *)
Record reader := mkReader { rd_chunks : list bytes; rd_end : error; rd_bytesReader : bool }.

Definition bytes_NewReader (b : bytes) : reader :=
  mkReader (match b with [] => [] | _ => [b] end) io_EOF true.

Definition rd_set (r : reader) (chunks : list bytes) : reader :=
  mkReader chunks (rd_end r) (rd_bytesReader r).

(** [Read] into a buffer of [n] bytes: at most what is left of the current piece. *)
Definition rd_Read (n : nat) (r : reader) : reader * result bytes :=
  match rd_chunks r with
  | [] => (r, Err (rd_end r))
  | c :: cs => (rd_set r (match drop n c with [] => cs | c' => c' :: cs end), Ok (take n c))
  end.

(** [readUint64]: the bytes behind those read stay zero. *)
Definition readUint64 (n : nat) (r : reader) : reader * result Z :=
  let '(r, b) := rd_Read n r in
  (r, b ← b; Ok (be_decode (b ++ zeros (n - length b)))).

(** Sequencing of reads. *)
Definition rd_bind {A B} (x : reader * result A) (k : A → reader → reader * result B)
  : reader * result B :=
  match x with
  | (r, Ok a) => k a r
  | (r, Err e) => (r, Err e)
  | (r, Panic m) => (r, Panic m)
  end.

Definition BatchContext_Read (r : reader) : reader * result BatchContext :=
  rd_bind (readUint64 3 r) (λ a r, rd_bind (readUint64 3 r) (λ b r,
  rd_bind (readUint64 5 r) (λ t r, rd_bind (readUint64 5 r) (λ n r,
  (r, Ok (mkBatchContext a b t n)))))).

(** ** AppendSequencerBatchParams *)

Record AppendSequencerBatchParams := mkBatchParams {
  sp_ShouldStartAtElement : Z; sp_TotalElementsToAppend : Z;
  sp_Contexts : list BatchContext; sp_Txs : list CachedTx }.

Fixpoint writeContexts (cs : list BatchContext) : result bytes :=
  match cs with
  | [] => Ok []
  | c :: cs => b ← BatchContext_Write c; rest ← writeContexts cs; Ok (b ++ rest)
  end.

Fixpoint writeTxs (txs : list CachedTx) : result bytes :=
  match txs with
  | [] => Ok []
  | tx :: txs =>
      l ← writeUint64 (Size tx) TxLenSize;
      rest ← writeTxs txs;
      Ok (l ++ ct_rawTx tx ++ rest)
  end.

Section SequencerBatch.
Context `{ZlibReader} `{ZlibWriter}.

(** The loop over the transactions with a zlib writer, and [Close]. *)
Fixpoint writeTxsZlib (zw : ZW) (txs : list CachedTx) : result bytes :=
  match txs with
  | [] =>
      let '(_, out, err) := zw_Close zw in
      match err with Some e => Err e | None => Ok out end
  | tx :: txs =>
      l ← writeUint64 (Size tx) TxLenSize;
      let '(zw, out1, err) := zw_Write zw l in
      match err with
      | Some e => Err e
      | None =>
          let '(zw, out2, err) := zw_Write zw (ct_rawTx tx) in
          match err with
          | Some e => Err e
          | None => rest ← writeTxsZlib zw txs; Ok (out1 ++ out2 ++ rest)
          end
      end
  end.

(** [Write], by what it appends to the buffer. *)
Definition Params_Write (p : AppendSequencerBatchParams) (batchType : BatchType) : result bytes :=
  start ← writeUint64 (sp_ShouldStartAtElement p) 5;
  total ← writeUint64 (sp_TotalElementsToAppend p) 3;
  if bool_decide (sp_Contexts p = []) && negb (bool_decide (length (sp_Txs p) = 0%nat))
  then Err ErrMalformedBatch
  else
    let contexts := match MarkerContext batchType with
                    | Some m => m :: sp_Contexts p
                    | None => sp_Contexts p
                    end in
    num ← writeUint64 (len contexts) 3;
    cs ← writeContexts contexts;
    txs ← (if batchType =? BatchTypeLegacy then writeTxs (sp_Txs p)
           else if batchType =? BatchTypeZlib then writeTxsZlib zw_New (sp_Txs p)
           else Err (ErrorNew "Unknown batch type"));
    Ok (start ++ total ++ num ++ cs ++ txs).

Definition Serialize (p : AppendSequencerBatchParams) (batchType : BatchType) : result bytes :=
  Params_Write p batchType.

(** The loop over the contexts: the first one may be a marker. *)
Fixpoint readContexts (first : bool) (n : nat) (batchType : BatchType) (acc : list BatchContext)
  (r : reader) : reader * result (BatchType * list BatchContext) :=
  match n with
  | 0%nat => (r, Ok (batchType, acc))
  | S n =>
      rd_bind (BatchContext_Read r) (λ c r,
        if first && IsMarkerContext c then readContexts false n (MarkerBatchType c) acc r
        else readContexts false n batchType (acc ++ [c]) r)
  end.

(** Skipping what another reader has consumed. *)
Fixpoint skip (n : nat) (chunks : list bytes) : list bytes :=
  match chunks with
  | [] => []
  | c :: cs => if bool_decide (n < length c)%nat then drop n c :: cs else skip (n - length c) cs
  end.

(** [Transaction.DecodeRLP] on [NewStream(r, txLen)]. *)
Definition Tx_DecodeRLP (txLen : Z) (r : reader) : reader * result goval :=
  let data := concat (rd_chunks r) in
  let s := if (txLen =? 0) && rd_bytesReader r then ResetBytes data
           else NewStream data (rd_end r) txLen in
  let '(s, _) := Stream_Kind s in
  let '(s, v) := makeDecoder (S (length data)) txdata no_tags s in
  (rd_set r (skip (length data - length (s_r s)) (rd_chunks r)), v).

(** The loop that reads transactions until the end of the stream. *)
Fixpoint readTxs (fuel : nat) (contexts : list BatchContext) (acc : list CachedTx) (r : reader)
  : result (list CachedTx) :=
  match fuel with
  | 0%nat => Panic "out of fuel"
  | S fuel =>
      match readUint64 TxLenSize r with
      | (_, Err e) =>
          if bool_decide (e = io_EOF) then
            if bool_decide (contexts = []) && negb (bool_decide (length acc = 0%nat))
            then Err ErrMalformedBatch else Ok acc
          else Err e
      | (_, Panic m) => Panic m
      | (r, Ok txLen) =>
          match Tx_DecodeRLP txLen r with
          | (_, Err e) => Err e
          | (_, Panic m) => Panic m
          | (r, Ok tx) => c ← NewCachedTx tx; readTxs fuel contexts (acc ++ [c]) r
          end
      end
  end.

(** How the buffered reader of a decompressed stream splits it. *)
Context (bufio_chunks : bytes → list bytes).

(** Every round of the last loop consumes a byte. *)
Definition Params_Read (r : reader) : result AppendSequencerBatchParams :=
  match readUint64 5 r with
  | (_, Err e) => Err e
  | (_, Panic m) => Panic m
  | (r, Ok start) =>
    match readUint64 3 r with
    | (_, Err e) => Err e
    | (_, Panic m) => Panic m
    | (r, Ok total) =>
      match readUint64 3 r with
      | (_, Err e) => Err e
      | (_, Panic m) => Panic m
      | (r, Ok num) =>
        match readContexts true (Z.to_nat num) BatchTypeLegacy [] r with
        | (_, Err e) => Err e
        | (_, Panic m) => Panic m
        | (r, Ok (batchType, contexts)) =>
            r ← (if batchType =? BatchTypeZlib then
                   '(plain, e) ← zlib_NewReader (concat (rd_chunks r));
                   Ok (mkReader (bufio_chunks plain) e false)
                 else Ok r);
            txs ← readTxs (S (length (concat (rd_chunks r)))) contexts [] r;
            Ok (mkBatchParams start total contexts txs)
        end
      end
    end
  end.

(** ** Grouping blocks into contexts (batch.go) *)

Record BatchElement := mkBatchElement { el_Timestamp : Z; el_BlockNumber : Z; el_Tx : option CachedTx }.
Definition IsSequencerTx (el : BatchElement) : bool := match el_Tx el with Some _ => true | None => false end.

Inductive QueueOrigin := QueueOriginSequencer | QueueOriginL1ToL2.

(** An L2 block, by its time and its transactions with the metadata used here. *)
Record L2Tx := mkL2Tx { l2tx_L1BlockNumber : option Z; l2tx_QueueOrigin : QueueOrigin; l2tx_data : goval }.
Record L2Block := mkL2Block { lb_Time : Z; lb_Transactions : list L2Tx }.

Definition BatchElementFromBlock (block : L2Block) : result BatchElement :=
  match lb_Transactions block with
  | [tx] =>
      match l2tx_L1BlockNumber tx with
      | None => Panic "invalid memory address or nil pointer dereference"
      | Some l1BlockNumber =>
          cachedTx ← match l2tx_QueueOrigin tx with
                     | QueueOriginSequencer => c ← NewCachedTx (l2tx_data tx); Ok (Some c)
                     | QueueOriginL1ToL2 => Ok None
                     end;
          Ok (mkBatchElement (lb_Time block) (u64 l1BlockNumber) cachedTx)
      end
  | _ => Panic "attempting to create batch element from block, found txs instead of 1"
  end.

Record groupedBlock := mkGrouped { gb_sequenced : list BatchElement; gb_queued : list BatchElement }.

(** The state of the loop over the elements; the last group is the first of the list,
    which is reversed at the end. *)
Record grouping := mkGrouping {
  gr_groups : list groupedBlock; gr_txs : list CachedTx;
  gr_lastIsSequencerTx : bool; gr_lastTimestamp : Z; gr_lastBlockNumber : Z }.

Definition addElement (st : grouping) (el : BatchElement) : grouping :=
  let needsNewGroupOnSequencerTx :=
    negb (gr_lastIsSequencerTx st) || negb (el_BlockNumber el =? gr_lastBlockNumber st) in
  let groups :=
    if bool_decide (length (gr_groups st) = 0%nat) || negb (el_Timestamp el =? gr_lastTimestamp st) ||
       (IsSequencerTx el && needsNewGroupOnSequencerTx)
    then mkGrouped [] [] :: gr_groups st else gr_groups st in
  match groups with
  | [] => st
  | cur :: groups =>
      match el_Tx el with
      | Some tx =>
          mkGrouping (mkGrouped (gb_sequenced cur ++ [el]) (gb_queued cur) :: groups)
            (gr_txs st ++ [tx]) true (el_Timestamp el) (el_BlockNumber el)
      | None =>
          mkGrouping (mkGrouped (gb_sequenced cur) (gb_queued cur ++ [el]) :: groups)
            (gr_txs st) false (el_Timestamp el) (el_BlockNumber el)
      end
  end.

Definition ErrBlockWithInvalidContext : error :=
  ErrorNew "attempted to generate batch context with 0 queued and 0 sequenced txs".

Definition groupContext (block : groupedBlock) : result BatchContext :=
  let numSequencedTxs := len (gb_sequenced block) in
  let numSubsequentQueueTxs := len (gb_queued block) in
  match gb_sequenced block, gb_queued block with
  | [], [] => Err ErrBlockWithInvalidContext
  | el :: _, _ | [], el :: _ =>
      Ok (mkBatchContext numSequencedTxs numSubsequentQueueTxs (el_Timestamp el) (el_BlockNumber el))
  end.

Fixpoint groupContexts (l : list groupedBlock) : result (list BatchContext) :=
  match l with
  | [] => Ok []
  | g :: l => c ← groupContext g; rest ← groupContexts l; Ok (c :: rest)
  end.

Definition GenSequencerBatchParams (shouldStartAtElement blockOffset : Z) (batch : list BatchElement)
  : result AppendSequencerBatchParams :=
  let st := foldl addElement (mkGrouping [] [] false 0 0) batch in
  contexts ← groupContexts (reverse (gr_groups st));
  Ok (mkBatchParams (shouldStartAtElement ⊟ blockOffset) (len batch) contexts (gr_txs st)).

(** ** Choosing the blocks of a batch (driver.go) *)

Record DriverConfig := mkDriverConfig {
  dc_BlockOffset : Z; dc_MinTxSize : Z; dc_MaxTxSize : Z; dc_MaxPlaintextBatchSize : Z;
  dc_BatchType : BatchType }.

(** [GetBatchBlockRange]: the number of elements of the chain contract and the number of
    the latest L2 block give the range of blocks to submit. *)
Definition GetBatchBlockRange (cfg : DriverConfig) (totalElements : result Z) (latest : result Z)
  : result (Z * Z) :=
  start ← totalElements;
  let start := start + dc_BlockOffset cfg in
  latest ← latest;
  let finish := latest + 1 in
  if finish <? start then Err (ErrorNew "invalid range, end < start") else Ok (start, finish).

(** The loop over the blocks; each one is what [BlockByNumber] returns. *)
Fixpoint collectElements (cfg : DriverConfig) (blocks : list (result L2Block)) (acc : list BatchElement)
  (totalTxSize : Z) : result (list BatchElement * bool) :=
  match blocks with
  | [] => Ok (acc, false)
  | block :: blocks =>
      block ← block;
      el ← BatchElementFromBlock block;
      match el_Tx el with
      | Some tx =>
          let size := totalTxSize ⊞ (Z.of_nat TxLenSize + Size tx) in
          if dc_MaxPlaintextBatchSize cfg <? size then Ok (acc, totalTxSize <? dc_MinTxSize cfg)
          else collectElements cfg blocks (acc ++ [el]) size
      | None => collectElements cfg blocks (acc ++ [el]) totalTxSize
      end
  end.

Context (appendSequencerBatchID : bytes).

(** The calldata of a batch. *)
Definition batchCalldata (cfg : DriverConfig) (start : Z) (els : list BatchElement) : result bytes :=
  params ← GenSequencerBatchParams start (dc_BlockOffset cfg) els;
  args ← Serialize params (dc_BatchType cfg);
  Ok (appendSequencerBatchID ++ args).

(** The pruning loop; [None] is the nil transaction of a batch that is too small. *)
Fixpoint pruneLoop (cfg : DriverConfig) (start : Z) (hasLargeNextTx : bool) (fuel : nat) (pruneCount : nat)
  (els : list BatchElement) : result (option (bytes * list BatchElement)) :=
  match fuel with
  | 0%nat => Panic "out of fuel"
  | S fuel =>
      calldata ← batchCalldata cfg start els;
      if dc_MaxTxSize cfg <? len calldata then
        pruneLoop cfg start hasLargeNextTx fuel (S pruneCount) (take (length els * 9 / 10) els)
      else
        let ignoreMinTxSize := bool_decide (0 < pruneCount)%nat || hasLargeNextTx in
        if negb ignoreMinTxSize && (len calldata <? dc_MinTxSize cfg) then Ok None
        else Ok (Some (calldata, els))
  end.

(** [CraftBatchTx] up to the signing of the transaction with this calldata. *)
Definition CraftBatchTx (cfg : DriverConfig) (fuel : nat) (start : Z) (blocks : list (result L2Block))
  : result (option (bytes * list BatchElement)) :=
  '(els, hasLargeNextTx) ← collectElements cfg blocks [] 0;
  pruneLoop cfg (u64 start) hasLargeNextTx fuel 0 els.
End SequencerBatch.

(** ** Grouping loses nothing *)

(** The elements a context stands for: the sequenced ones take the next transactions and
    the context's block number, then the queued ones follow. *)
Definition expandContext (c : BatchContext) (txs : list CachedTx) : list (Z * option (Z * CachedTx)) :=
  ((λ tx, (bc_Timestamp c, Some (bc_BlockNumber c, tx))) <$> take (Z.to_nat (bc_NumSequencedTxs c)) txs) ++
  replicate (Z.to_nat (bc_NumSubsequentQueueTxs c)) (bc_Timestamp c, None).
Fixpoint expand (cs : list BatchContext) (txs : list CachedTx) : list (Z * option (Z * CachedTx)) :=
  match cs with
  | [] => []
  | c :: cs => expandContext c txs ++ expand cs (drop (Z.to_nat (bc_NumSequencedTxs c)) txs)
  end.

(** What the chain needs to know of an element; the block number of a queued transaction
    is known on L1. *)
Definition elementView (el : BatchElement) : Z * option (Z * CachedTx) :=
  (el_Timestamp el, (λ tx, (el_BlockNumber el, tx)) <$> el_Tx el).

Definition group_elements (g : groupedBlock) : list BatchElement := gb_sequenced g ++ gb_queued g.

Record good_group (g : groupedBlock) : Prop := {
  gg_ne : group_elements g ≠ [];
  gg_seq : Forall (λ el, is_Some (el_Tx el)) (gb_sequenced g);
  gg_queued : Forall (λ el, el_Tx el = None) (gb_queued g);
  gg_ts : ∃ ts, Forall (λ el, el_Timestamp el = ts) (group_elements g);
  gg_bn : ∃ bn, Forall (λ el, el_BlockNumber el = bn) (gb_sequenced g) }.

Definition grouping_inv (st : grouping) (done : list BatchElement) : Prop :=
  concat (group_elements <$> reverse (gr_groups st)) = done ∧
  Forall good_group (gr_groups st) ∧ gr_txs st = omap el_Tx done ∧
  match gr_groups st with
  | [] => True
  | cur :: _ =>
      Forall (λ el, el_Timestamp el = gr_lastTimestamp st) (group_elements cur) ∧
      (gr_lastIsSequencerTx st = true →
       gb_queued cur = [] ∧ Forall (λ el, el_BlockNumber el = gr_lastBlockNumber st) (gb_sequenced cur))
  end.

Lemma omap_snoc {A B} (f : A → option B) l x :
  omap f (l ++ [x]) = omap f l ++ match f x with Some y => [y] | None => [] end.
Proof. rewrite omap_app. cbn. by destruct (f x). Qed.

(** An element that opens a group of its own. *)
Lemma new_group_inv st done el :
  concat (group_elements <$> reverse (gr_groups st)) = done → Forall good_group (gr_groups st) →
  gr_txs st = omap el_Tx done →
  grouping_inv
    match el_Tx el with
    | Some tx => mkGrouping (mkGrouped [el] [] :: gr_groups st) (gr_txs st ++ [tx]) true
                   (el_Timestamp el) (el_BlockNumber el)
    | None => mkGrouping (mkGrouped [] [el] :: gr_groups st) (gr_txs st) false
                (el_Timestamp el) (el_BlockNumber el)
    end (done ++ [el]).
Proof.
  intros Hc Hg Ht.
  assert (Hone : ∀ P : BatchElement → Prop, P el → Forall P [el]) by (intros; by repeat constructor).
  destruct (el_Tx el) as [tx|] eqn:E; (split_and!; cbn [gr_groups gr_txs gr_lastTimestamp gr_lastIsSequencerTx gr_lastBlockNumber]).
  - rewrite reverse_cons, fmap_app, concat_app, Hc. cbn. by rewrite ?app_nil_r.
  - constructor; [|done]. split; cbn; [done|by apply Hone; rewrite E|constructor|eexists; by apply Hone|eexists; by apply Hone].
  - by rewrite omap_snoc, E, Ht.
  - split; [by apply Hone|]. intros _. split; [done|by apply Hone].
  - rewrite reverse_cons, fmap_app, concat_app, Hc. cbn. by rewrite ?app_nil_r.
  - constructor; [|done]. split; cbn; [done|constructor|by apply Hone|eexists; by apply Hone|by exists 0].
  - by rewrite omap_snoc, E, Ht, app_nil_r.
  - split; [by apply Hone|done].
Qed.

Lemma addElement_inv st done el : grouping_inv st done → grouping_inv (addElement st el) (done ++ [el]).
Proof.
  intros (Hc & Hg & Ht & Hcur). unfold addElement. destruct (_ || _ || _) eqn:Enew.
  { pose proof (new_group_inv st done el Hc Hg Ht) as HN. cbn [gb_sequenced gb_queued app]. exact HN. }
  apply orb_false_iff in Enew as [Enew Eseq]. apply orb_false_iff in Enew as [Ene Ets]. bool_props.
  destruct (gr_groups st) as [|cur gs] eqn:Egs; [done|]. destruct Hcur as [Hts Hlast].
  apply Forall_cons in Hg as [Hcg Hg]. rewrite reverse_cons, fmap_app, concat_app in Hc.
  cbn [fmap list_fmap concat] in Hc. rewrite app_nil_r in Hc.
  assert (Hone : ∀ P : BatchElement → Prop, P el → Forall P [el]) by (intros; by repeat constructor).
  unfold IsSequencerTx in Eseq. destruct (el_Tx el) as [tx|] eqn:Etx.
  - cbn in Eseq. apply orb_false_iff in Eseq as [El Ebn]. bool_props. destruct (Hlast El) as [Hq Hbn].
    assert (Hels : group_elements (mkGrouped (gb_sequenced cur ++ [el]) (gb_queued cur)) = group_elements cur ++ [el]).
    { unfold group_elements. cbn. by rewrite Hq, !app_nil_r. }
    split_and!; cbn [gr_groups gr_txs gr_lastTimestamp gr_lastIsSequencerTx gr_lastBlockNumber].
    + rewrite reverse_cons, fmap_app, concat_app. cbn [fmap list_fmap concat]. by rewrite app_nil_r, Hels, app_assoc, Hc.
    + constructor; [|done]. split; rewrite ?Hels; cbn [gb_sequenced gb_queued].
      * by destruct (group_elements cur).
      * apply Forall_app. split; [apply Hcg|]. by apply Hone; rewrite Etx.
      * apply Hcg.
      * exists (el_Timestamp el). apply Forall_app. rewrite Ets. split; [done|by apply Hone].
      * exists (el_BlockNumber el). apply Forall_app. rewrite Ebn. split; [done|by apply Hone].
    + by rewrite omap_snoc, Etx, Ht.
    + rewrite Hels. split.
      * apply Forall_app. rewrite Ets. split; [done|by apply Hone].
      * intros _. split; [done|]. apply Forall_app. rewrite Ebn. split; [done|by apply Hone].
  - assert (Hels : group_elements (mkGrouped (gb_sequenced cur) (gb_queued cur ++ [el])) = group_elements cur ++ [el]).
    { unfold group_elements. cbn. by rewrite app_assoc. }
    split_and!; cbn [gr_groups gr_txs gr_lastTimestamp gr_lastIsSequencerTx gr_lastBlockNumber].
    + rewrite reverse_cons, fmap_app, concat_app. cbn [fmap list_fmap concat]. by rewrite app_nil_r, Hels, app_assoc, Hc.
    + constructor; [|done]. split; rewrite ?Hels; cbn [gb_sequenced gb_queued].
      * by destruct (group_elements cur).
      * apply Hcg.
      * apply Forall_app. split; [apply Hcg|by apply Hone].
      * exists (el_Timestamp el). apply Forall_app. rewrite Ets. split; [done|by apply Hone].
      * apply Hcg.
    + by rewrite omap_snoc, Etx, Ht, app_nil_r.
    + rewrite Hels. split; [|done]. apply Forall_app. rewrite Ets. split; [done|by apply Hone].
Qed.

Lemma grouping_run_inv batch : grouping_inv (foldl addElement (mkGrouping [] [] false 0 0) batch) batch.
Proof.
  induction batch as [|el batch IH] using rev_ind; [split_and!; try done; apply Forall_nil_2|].
  rewrite foldl_app. by apply addElement_inv.
Qed.

Lemma omap_queued l : Forall (λ el, el_Tx el = None) l → omap el_Tx l = [].
Proof. induction 1 as [|x l Hx _ IH]; cbn; [done|]. by rewrite Hx. Qed.

Lemma omap_sequenced l : Forall (λ el, is_Some (el_Tx el)) l → length (omap el_Tx l) = length l.
Proof. induction 1 as [|x l [tx Hx] _ IH]; cbn; [done|]. rewrite Hx. cbn. by rewrite IH. Qed.

Lemma good_group_txs g :
  good_group g → omap el_Tx (group_elements g) = omap el_Tx (gb_sequenced g) ∧
  length (omap el_Tx (group_elements g)) = length (gb_sequenced g).
Proof.
  intros Hg. assert (E : omap el_Tx (group_elements g) = omap el_Tx (gb_sequenced g)).
  { unfold group_elements. by rewrite omap_app, (omap_queued (gb_queued g)), app_nil_r by apply Hg. }
  rewrite E. split; [done|apply omap_sequenced, Hg].
Qed.

(** The context of a group expands to the elements of the group. *)
Lemma good_group_context g rest :
  good_group g →
  ∃ c, groupContext g = Ok c ∧ bc_NumSequencedTxs c = len (gb_sequenced g) ∧
    bc_NumSubsequentQueueTxs c = len (gb_queued g) ∧
    expandContext c (omap el_Tx (group_elements g) ++ rest) = elementView <$> group_elements g.
Proof.
  intros Hg. destruct (good_group_txs g Hg) as [Hom Hlen]. rewrite Hom in Hlen.
  destruct Hg as [Hne Hseq Hq [ts Hts] [bn Hbn]].
  assert (Hfirst : ∃ el, groupContext g = Ok (mkBatchContext (len (gb_sequenced g)) (len (gb_queued g))
                           (el_Timestamp el) (el_BlockNumber el)) ∧ el ∈ group_elements g ∧
                         (gb_sequenced g ≠ [] → el ∈ gb_sequenced g)).
  { unfold groupContext, group_elements in *. destruct (gb_sequenced g) as [|el l]; [|exists el; set_solver].
    destruct (gb_queued g) as [|el l]; [done|]. exists el. set_solver. }
  destruct Hfirst as (el & HC & Hel & Helseq). eexists. split_and!; [exact HC|done|done|].
  rewrite Forall_forall in Hts. rewrite (Hts el Hel). unfold expandContext. cbn.
  rewrite Hom. unfold len. rewrite !Nat2Z.id, take_app_length' by done.
  unfold group_elements in *. rewrite fmap_app. f_equal.
  - destruct (decide (gb_sequenced g = [])) as [->|Hs]; [done|]. specialize (Helseq Hs).
    rewrite Forall_forall in Hbn. rewrite (Hbn el Helseq).
    assert (Hall : ∀ x, x ∈ gb_sequenced g → is_Some (el_Tx x) ∧ el_Timestamp x = ts ∧ el_BlockNumber x = bn).
    { intros x Hx. rewrite Forall_forall in Hseq. split_and!; [by apply Hseq|apply Hts; set_solver|by apply Hbn]. }
    clear -Hall. induction (gb_sequenced g) as [|x l IH]; [done|].
    destruct (Hall x ltac:(left)) as ([tx Htx] & Ets & Ebn). cbn. rewrite Htx. cbn. f_equal.
    + unfold elementView. by rewrite Htx, Ets, Ebn.
    + apply IH. intros y Hy. apply Hall. by right.
  - assert (Hall : ∀ x, x ∈ gb_queued g → el_Tx x = None ∧ el_Timestamp x = ts).
    { intros x Hx. rewrite Forall_forall in Hq. split; [by apply Hq|apply Hts; set_solver]. }
    clear -Hall. induction (gb_queued g) as [|x l IH]; [done|].
    destruct (Hall x ltac:(left)) as [Htx Ets]. cbn. f_equal.
    + unfold elementView. by rewrite Htx, Ets.
    + apply IH. intros y Hy. apply Hall. by right.
Qed.

Lemma groupContexts_expand gs :
  Forall good_group gs →
  ∃ cs, groupContexts gs = Ok cs ∧
    expand cs (omap el_Tx (concat (group_elements <$> gs))) = elementView <$> concat (group_elements <$> gs) ∧
    Forall (λ c, 0 < bc_NumSequencedTxs c + bc_NumSubsequentQueueTxs c) cs.
Proof.
  intros Hgs. induction Hgs as [|g gs Hg _ IH]; [by exists []|].
  destruct IH as (cs & HC & HE & HP).
  destruct (good_group_context g (omap el_Tx (concat (group_elements <$> gs))) Hg) as (c & HG & Hs & Hq & HX).
  exists (c :: cs). cbn. rewrite HG. cbn. rewrite HC. cbn. rewrite omap_app, HX, fmap_app.
  split_and!; [done| |].
  - f_equal. rewrite Hs.
    destruct (good_group_txs g Hg) as [_ Hlen].
    unfold len. rewrite Nat2Z.id, drop_app_length' by done. exact HE.
  - constructor; [|done]. rewrite Hs, Hq. pose proof (gg_ne g Hg) as Hne. unfold group_elements, len in *.
    destruct (gb_sequenced g), (gb_queued g); [done|cbn; lia..].
Qed.

(** ** Integers *)

Lemma writeUint64_spec v n :
  (1 ≤ n ≤ 8)%nat → writeUint64 v n = if v <? 256 ^ Z.of_nat n then Ok (be_encode n v)
                                      else Panic "cannot encode in n byte value".
Proof.
  intros Hn. unfold writeUint64.
  assert (E : Z.shiftr (2 ^ 64 - 1) (8 * (8 - Z.of_nat n)) = 256 ^ Z.of_nat n - 1).
  { destruct n as [|[|[|[|[|[|[|[|[|n]]]]]]]]]; try lia; reflexivity. }
  rewrite E. destruct (Z.ltb_spec (256 ^ Z.of_nat n - 1) v), (Z.ltb_spec v (256 ^ Z.of_nat n)); try done; lia.
Qed.

Lemma writeUint64_ok v n : (1 ≤ n ≤ 8)%nat → v < 256 ^ Z.of_nat n → writeUint64 v n = Ok (be_encode n v).
Proof. intros Hn Hv. rewrite writeUint64_spec by done. by rewrite (proj2 (Z.ltb_lt _ _)). Qed.

(** A reader that delivers what is left in one piece. *)
Definition whole (b : bytes) : list bytes := match b with [] => [] | _ => [b] end.

Lemma concat_whole b : concat (whole b) = b.
Proof. destruct b; cbn; [done|]. by rewrite app_nil_r. Qed.

Lemma readUint64_whole r n v rest :
  (1 ≤ n)%nat → 0 <= v < 256 ^ Z.of_nat n → rd_chunks r = whole (be_encode n v ++ rest) →
  readUint64 n r = (rd_set r (whole rest), Ok v).
Proof.
  intros Hn Hv Hr. pose proof (length_be_encode n v) as Hl. unfold readUint64, rd_Read. rewrite Hr.
  assert (Hw : whole (be_encode n v ++ rest) = [be_encode n v ++ rest]).
  { destruct (be_encode n v); [cbn in Hl; lia|done]. }
  rewrite Hw, drop_app_length', take_app_length' by done. cbn [mbind result_bind].
  rewrite Hl, Nat.sub_diag. cbn [zeros replicate]. rewrite app_nil_r, be_decode_encode_small by done.
  by destruct rest.
Qed.

Lemma rd_set_whole r b : rd_chunks (rd_set r b) = b ∧ rd_set (rd_set r b) = rd_set r.
Proof. done. Qed.

(** ** Contexts *)

Definition context_ok (c : BatchContext) : Prop :=
  0 <= bc_NumSequencedTxs c < 256 ^ 3 ∧ 0 <= bc_NumSubsequentQueueTxs c < 256 ^ 3 ∧
  0 <= bc_Timestamp c < 256 ^ 5 ∧ 0 <= bc_BlockNumber c < 256 ^ 5.

Definition context_bytes (c : BatchContext) : bytes :=
  be_encode 3 (bc_NumSequencedTxs c) ++ be_encode 3 (bc_NumSubsequentQueueTxs c) ++
  be_encode 5 (bc_Timestamp c) ++ be_encode 5 (bc_BlockNumber c).

Lemma BatchContext_Write_ok c : context_ok c → BatchContext_Write c = Ok (context_bytes c).
Proof.
  intros (H1 & H2 & H3 & H4). unfold BatchContext_Write.
  rewrite !writeUint64_ok by (lia || (cbn in *; lia)). done.
Qed.

Lemma BatchContext_Read_ok c r rest :
  context_ok c → rd_chunks r = whole (context_bytes c ++ rest) →
  BatchContext_Read r = (rd_set r (whole rest), Ok c).
Proof.
  intros (H1 & H2 & H3 & H4) Hr. unfold context_bytes in Hr. rewrite <- !app_assoc in Hr. unfold BatchContext_Read.
  rewrite (readUint64_whole r 3 _ _ ltac:(lia) H1 Hr). cbn [rd_bind].
  rewrite (readUint64_whole (rd_set r _) 3 _ _ ltac:(lia) H2 eq_refl). cbn [rd_bind].
  rewrite (readUint64_whole (rd_set (rd_set r _) _) 5 _ _ ltac:(lia) H3 eq_refl). cbn [rd_bind].
  rewrite (readUint64_whole (rd_set (rd_set (rd_set r _) _) _) 5 _ _ ltac:(lia) H4 eq_refl). cbn [rd_bind].
  by destruct c.
Qed.

Lemma writeContexts_ok cs :
  Forall context_ok cs → writeContexts cs = Ok (concat (context_bytes <$> cs)).
Proof.
  induction 1 as [|c cs Hc _ IH]; [done|]. cbn [writeContexts]. rewrite BatchContext_Write_ok by done.
  cbn [mbind result_bind]. by rewrite IH.
Qed.

(** Contexts that are not read as a marker. *)
Lemma readContexts_ok cs r rest bt acc first :
  Forall context_ok cs → (first = true → ∀ c, head cs = Some c → bc_Timestamp c ≠ 0) →
  rd_chunks r = whole (concat (context_bytes <$> cs) ++ rest) →
  readContexts first (length cs) bt acc r = (rd_set r (whole rest), Ok (bt, acc ++ cs)).
Proof.
  intros Hcs. revert r acc first. induction Hcs as [|c cs Hc _ IH]; intros r acc first Hm Hr.
  - cbn in *. rewrite app_nil_r. unfold rd_set. rewrite <- Hr. by destruct r.
  - cbn [length readContexts fmap list_fmap concat] in *. rewrite <- app_assoc in Hr.
    rewrite (BatchContext_Read_ok c r _ Hc Hr). cbn [rd_bind].
    assert (first && IsMarkerContext c = false) as ->.
    { destruct first; [|done]. cbn. unfold IsMarkerContext. apply Z.eqb_neq. by apply Hm. }
    rewrite IH by done. by rewrite <- app_assoc.
Qed.

(** ** Transactions *)

(** A transaction whose cached encoding is its encoding, short enough for its length
    prefix. *)
Definition tx_ok (c : CachedTx) : Prop :=
  decodable txdata no_tags (ct_tx c) ∧ NewCachedTx (ct_tx c) = Ok c ∧ Size c < 256 ^ 3 ∧
  enc_ok (to_item txdata no_tags (ct_tx c)).

Lemma tx_ok_raw c : tx_ok c → ct_rawTx c = rlp_enc (to_item txdata no_tags (ct_tx c)).
Proof.
  intros (Hd & HN & _ & Hok). unfold NewCachedTx in HN.
  rewrite EncodeValue_enc in HN; [|done|by eapply decodable_has_type|done]. by injection HN as <-.
Qed.

Definition tx_bytes (c : CachedTx) : bytes := be_encode TxLenSize (Size c) ++ ct_rawTx c.

Lemma writeTxs_ok txs : Forall tx_ok txs → writeTxs txs = Ok (concat (tx_bytes <$> txs)).
Proof.
  induction 1 as [|c txs Hc _ IH]; [done|]. cbn [writeTxs]. destruct Hc as (_ & _ & Hs & _).
  rewrite writeUint64_ok by (unfold TxLenSize; lia || (cbn in *; lia)). cbn [mbind result_bind].
  rewrite IH. cbn. unfold tx_bytes. by rewrite <- app_assoc.
Qed.

Lemma skip_whole b rest : skip (length b) (whole (b ++ rest)) = whole rest.
Proof.
  unfold whole. destruct (b ++ rest) as [|x l] eqn:E; [by apply app_nil in E as [-> ->]|]. rewrite <- E. cbn [skip].
  rewrite length_app. case_bool_decide as Hl.
  - rewrite drop_app_length. destruct rest; [cbn in Hl; lia|done].
  - destruct rest; [|cbn in Hl; lia]. done.
Qed.

Lemma Tx_DecodeRLP_ok c r rest :
  tx_ok c → rd_end r ≠ EOL → rd_chunks r = whole (ct_rawTx c ++ rest) →
  Tx_DecodeRLP (Size c) r = (rd_set r (whole rest), Ok (ct_tx c)).
Proof.
  intros Hc He Hr. pose proof (tx_ok_raw c Hc) as Hraw. destruct Hc as (Hd & HN & Hs & Hok).
  unfold Tx_DecodeRLP. rewrite Hr, concat_whole.
  remember (to_item txdata no_tags (ct_tx c)) as it eqn:Hit.
  assert (Hpos : 0 < Size c).
  { unfold Size, len. rewrite Hraw. pose proof (rlp_enc_nonempty it). destruct (rlp_enc it); [done|cbn; lia]. }
  rewrite (proj2 (Z.eqb_neq (Size c) 0)) by lia. cbn [andb].
  set (s := NewStream (ct_rawTx c ++ rest) (rd_end r) (Size c)).
  assert (Hwf : wf_stream s).
  { split_and!; [constructor|split; cbn; lia|done]. }
  assert (Hroom : room (len (rlp_enc it)) s) by (split; [done|]; intros _; cbn; unfold Size; by rewrite Hraw).
  assert (Hsr : s_r s = rlp_enc it ++ rest) by (cbn; by rewrite Hraw).
  destruct (Stream_Kind_item it rest s Hok Hwf eq_refl Hsr Hroom) as (x & s1 & HK & Ha & _). rewrite HK.
  rewrite (makeDecoder_kind_first _ txdata no_tags eq_refl s s1 _ _ x HK Ha).
  pose proof (makeDecoder_ok (S (length (ct_rawTx c ++ rest))) txdata no_tags eq_refl eq_refl) as Hm.
  destruct (ok_complete _ _ Hm (ct_tx c) s rest) as (s2 & HD & Ha2 & _); cbn [fst snd] in *;
    rewrite ?(enc_field_single no_tags) in * by done; rewrite <- ?Hit in *; try done.
  { rewrite Hraw, length_app. lia. }
  rewrite HD. pose proof (adv_length _ _ _ Ha2) as Hl. cbn [s_r NewStream s] in Hl. f_equal.
  rewrite length_app in Hl. rewrite Hraw in Hl |- *. rewrite length_app.
  replace (length (rlp_enc it) + length rest - length (s_r s2))%nat with (length (rlp_enc it)) by lia.
  by rewrite skip_whole.
Qed.

Lemma readTxs_ok txs : ∀ contexts acc r fuel,
  Forall tx_ok txs → (contexts = [] → acc ++ txs = []) → rd_end r = io_EOF →
  rd_chunks r = whole (concat (tx_bytes <$> txs)) → (length (concat (tx_bytes <$> txs)) < fuel)%nat →
  readTxs fuel contexts acc r = Ok (acc ++ txs).
Proof.
  induction txs as [|c txs IH]; intros contexts acc r fuel Htx Hm He Hr Hf; (destruct fuel as [|fuel]; [lia|]); cbn [readTxs].
  - unfold readUint64, rd_Read. rewrite Hr. cbn. rewrite He, bool_decide_eq_true_2 by done.
    rewrite app_nil_r in *. destruct (bool_decide (contexts = [])) eqn:Ec; [|done]. bool_props. by rewrite Hm.
  - apply Forall_cons in Htx as [Hc Htx]. cbn [fmap list_fmap concat] in *. unfold tx_bytes at 1 in Hr.
    rewrite <- !app_assoc in Hr. destruct Hc as (Hd & HN & Hs & Hok).
    assert (Hpos : 0 <= Size c) by apply len_nonneg.
    rewrite (readUint64_whole r TxLenSize (Size c) _ ltac:(unfold TxLenSize; lia) (conj Hpos Hs) Hr).
    rewrite (Tx_DecodeRLP_ok c (rd_set r _) (concat (tx_bytes <$> txs)));
      [|by split_and!|cbn; by rewrite He|done].
    rewrite HN. cbn [mbind result_bind]. rewrite (IH contexts (acc ++ [c])); [by rewrite <- app_assoc|done| |done|done|].
    + intros Hn. rewrite <- app_assoc. by apply Hm.
    + rewrite length_app in Hf. unfold tx_bytes at 1 in Hf. rewrite length_app, length_be_encode in Hf. unfold TxLenSize in Hf. lia.
Qed.

(** ** Theorems *)

Section Theorems.
Context `{HZ : ZlibLaws}.

Lemma zwritten_app ops1 ops2 : zwritten (ops1 ++ ops2) = zwritten ops1 ++ zwritten ops2.
Proof. induction ops1 as [|[b|] ops1 IH]; cbn; [done| |done]. by rewrite IH, app_assoc. Qed.

Lemma writeTxsZlib_ok txs : ∀ ops z out,
  Forall tx_ok txs → zsession ops z out →
  ∃ rest, writeTxsZlib z txs = Ok rest ∧
    zlib_NewReader (out ++ rest) = Ok (zwritten ops ++ concat (tx_bytes <$> txs), io_EOF).
Proof.
  induction txs as [|c txs IH]; intros ops z out Htx Hz; cbn [writeTxsZlib].
  - destruct (zclose_ok ops z out Hz) as (z' & o & HC & HR). rewrite HC. exists o. split; [done|].
    by rewrite app_nil_r.
  - apply Forall_cons in Htx as [(Hd & HN & Hs & Hok) Htx].
    rewrite writeUint64_ok by (unfold TxLenSize; lia || (cbn in *; lia)). cbn [mbind result_bind].
    set (l := be_encode TxLenSize (Size c)).
    destruct (zstep_ok ops z out (ZWrite l) Hz) as (z1 & o1 & E1). pose proof (zsession_snoc _ _ _ _ _ _ Hz E1) as Hz1.
    destruct (zstep_ok _ z1 _ (ZWrite (ct_rawTx c)) Hz1) as (z2 & o2 & E2).
    pose proof (zsession_snoc _ _ _ _ _ _ Hz1 E2) as Hz2. cbn [zstep] in E1, E2. rewrite E1, E2.
    destruct (IH _ _ _ Htx Hz2) as (rest & -> & HR). exists (o1 ++ o2 ++ rest). split; [done|].
    rewrite <- !app_assoc in HR. rewrite HR, !zwritten_app. cbn. unfold tx_bytes. fold l.
    by rewrite !app_nil_r, <- !app_assoc.
Qed.

(** The batches [Write] can represent: all numbers fit their fields, a batch with
    transactions has a context, and a legacy batch does not start with a marker. *)
Record params_ok (p : AppendSequencerBatchParams) (bt : BatchType) : Prop := {
  po_start : 0 <= sp_ShouldStartAtElement p < 256 ^ 5;
  po_total : 0 <= sp_TotalElementsToAppend p < 256 ^ 3;
  po_contexts : Forall context_ok (sp_Contexts p);
  po_number : len (sp_Contexts p) + 1 < 256 ^ 3;
  po_txs : Forall tx_ok (sp_Txs p);
  po_nonempty : sp_Contexts p = [] → sp_Txs p = [];
  po_type : bt = BatchTypeZlib ∨
            bt = BatchTypeLegacy ∧ ∀ c, head (sp_Contexts p) = Some c → bc_Timestamp c ≠ 0 }.

(** The contexts in front of the transactions, with the marker of a compressed batch. *)
Definition marked (p : AppendSequencerBatchParams) (bt : BatchType) : list BatchContext :=
  match MarkerContext bt with Some m => m :: sp_Contexts p | None => sp_Contexts p end.

Lemma marker_ok : context_ok (mkBatchContext 0 0 0 0).
Proof. unfold context_ok. cbn. lia. Qed.

Lemma readContexts_marked p bt r rest :
  params_ok p bt → rd_chunks r = whole (concat (context_bytes <$> marked p bt) ++ rest) →
  readContexts true (length (marked p bt)) BatchTypeLegacy [] r = (rd_set r (whole rest), Ok (bt, sp_Contexts p)).
Proof.
  intros [Hs Ht Hc Hn Htx Hne Hbt] Hr. destruct Hbt as [->|[-> Hfirst]]; unfold marked in *.
  - change (MarkerContext BatchTypeZlib) with (Some (mkBatchContext 0 0 0 0)) in *.
    cbn [length readContexts fmap list_fmap concat] in *. rewrite <- app_assoc in Hr. rewrite (BatchContext_Read_ok (mkBatchContext 0 0 0 0) r _ marker_ok Hr). cbn [rd_bind andb].
    change (IsMarkerContext (mkBatchContext 0 0 0 0)) with true. cbn [andb].
    by rewrite (readContexts_ok (sp_Contexts p) _ rest).
  - change (MarkerContext BatchTypeLegacy) with (@None BatchContext) in *.
    rewrite (readContexts_ok (sp_Contexts p) r rest); [done|done|by intros _|done].
Qed.

(** The next number of a reader in one piece. *)
Ltac read_whole n Hv :=
  match goal with |- context [readUint64 n ?r] => rewrite (readUint64_whole r n _ _ ltac:(lia) Hv eq_refl) end.

Lemma Params_Read_bytes bufio_chunks p bt body :
  params_ok p bt → bufio_chunks (concat (tx_bytes <$> sp_Txs p)) = whole (concat (tx_bytes <$> sp_Txs p)) →
  (bt = BatchTypeLegacy → body = concat (tx_bytes <$> sp_Txs p)) →
  (bt = BatchTypeZlib → zlib_NewReader body = Ok (concat (tx_bytes <$> sp_Txs p), io_EOF)) →
  len (marked p bt) < 256 ^ 3 →
  Params_Read bufio_chunks (bytes_NewReader
    (be_encode 5 (sp_ShouldStartAtElement p) ++ be_encode 3 (sp_TotalElementsToAppend p) ++
     be_encode 3 (len (marked p bt)) ++ concat (context_bytes <$> marked p bt) ++ body)) = Ok p.
Proof.
  intros Hp Hchunks Hlegacy Hzlib Hl. pose proof (len_nonneg (marked p bt)) as Hl0. unfold Params_Read.
  read_whole 5%nat (po_start _ _ Hp). read_whole 3%nat (po_total _ _ Hp). read_whole 3%nat (conj Hl0 Hl).
  replace (Z.to_nat (len (marked p bt))) with (length (marked p bt)) by (unfold len; lia).
  match goal with |- context [readContexts _ _ _ _ ?r] => rewrite (readContexts_marked p bt r body Hp eq_refl) end.
  assert (Htxs : ∀ r, rd_end r = io_EOF → rd_chunks r = whole (concat (tx_bytes <$> sp_Txs p)) →
    readTxs (S (length (concat (rd_chunks r)))) (sp_Contexts p) [] r = Ok (sp_Txs p)).
  { intros r He Hr. rewrite Hr, concat_whole. apply (readTxs_ok (sp_Txs p)); try done; [apply Hp| |lia].
    intros Hn. apply Hp, Hn. }
  destruct (po_type _ _ Hp) as [->|[-> _]]; cbn [Z.eqb BatchTypeLegacy BatchTypeZlib rd_chunks rd_set].
  - rewrite concat_whole, (Hzlib eq_refl). cbn [mbind result_bind]. rewrite Htxs by done. by destruct p.
  - rewrite (Hlegacy eq_refl). cbn [mbind result_bind]. rewrite Htxs by done. by destruct p.
Qed.

(** C39. A batch that can be represented is written without an error and read back, as a
    legacy batch or compressed, provided that the buffered reader delivers the
    decompressed transactions in one piece. *)
Theorem batch_params_roundtrip bufio_chunks p bt :
  params_ok p bt → bufio_chunks (concat (tx_bytes <$> sp_Txs p)) = whole (concat (tx_bytes <$> sp_Txs p)) →
  ∃ data, Serialize p bt = Ok data ∧ Params_Read bufio_chunks (bytes_NewReader data) = Ok p.
Proof.
  intros Hp Hchunks. pose proof Hp as [Hs Ht Hc Hn Htx Hne Hbt]. unfold Serialize, Params_Write.
  assert (Hempty : bool_decide (sp_Contexts p = []) && negb (bool_decide (length (sp_Txs p) = 0%nat)) = false).
  { destruct (bool_decide (sp_Contexts p = [])) eqn:E; [|done]. bool_props. by rewrite Hne. }
  rewrite (writeUint64_ok _ 5 ltac:(lia) (proj2 Hs)), (writeUint64_ok _ 3 ltac:(lia) (proj2 Ht)).
  cbn [mbind result_bind]. rewrite Hempty.
  pose proof (len_nonneg (sp_Contexts p)).
  change (match MarkerContext bt with Some m => m :: sp_Contexts p | None => sp_Contexts p end) with (marked p bt).
  assert (Hcs : Forall context_ok (marked p bt) ∧ len (marked p bt) < 256 ^ 3).
  { unfold marked. destruct Hbt as [->|[-> _]]; cbn; rewrite ?len_cons; (split; [|lia]); [|done].
    constructor; [apply marker_ok|done]. }
  destruct Hcs as [Hcs Hl]. rewrite (writeUint64_ok _ 3 ltac:(lia) Hl), writeContexts_ok by done.
  cbn [mbind result_bind].
  assert (Hbody : ∃ body, (if bt =? BatchTypeLegacy then writeTxs (sp_Txs p)
      else if bt =? BatchTypeZlib then writeTxsZlib zw_New (sp_Txs p) else Err (ErrorNew "Unknown batch type")) = Ok body ∧
    (bt = BatchTypeLegacy → body = concat (tx_bytes <$> sp_Txs p)) ∧
    (bt = BatchTypeZlib → zlib_NewReader body = Ok (concat (tx_bytes <$> sp_Txs p), io_EOF))).
  { destruct Hbt as [->|[-> _]]; cbn.
    - destruct (writeTxsZlib_ok (sp_Txs p) [] zw_New [] Htx zsession_nil) as (rest & HW & HR). by exists rest.
    - rewrite writeTxs_ok by done. by eexists. }
  destruct Hbody as (body & -> & Hlegacy & Hzlib). eexists. split; [done|].
  by apply (Params_Read_bytes bufio_chunks p bt).
Qed.

(** The batch generated for a list of elements always exists, and nothing about the
    elements is lost: expanding its contexts with its transactions gives back, in order,
    the timestamp of every element and the block number and transaction of every
    sequencer element; the total counts the elements and no context is empty. *)
Theorem GenSequencerBatchParams_expand start offset batch :
  ∃ p, GenSequencerBatchParams start offset batch = Ok p ∧
    expand (sp_Contexts p) (sp_Txs p) = elementView <$> batch ∧
    sp_TotalElementsToAppend p = len batch ∧ sp_ShouldStartAtElement p = start ⊟ offset ∧
    Forall (λ c, 0 < bc_NumSequencedTxs c + bc_NumSubsequentQueueTxs c) (sp_Contexts p).
Proof.
  unfold GenSequencerBatchParams. destruct (grouping_run_inv batch) as (Hc & Hg & Ht & _).
  destruct (groupContexts_expand (reverse (gr_groups (foldl addElement (mkGrouping [] [] false 0 0) batch))))
    as (cs & -> & HE & HP); [by apply Forall_reverse|].
  eexists. split; [done|]. rewrite Hc in HE. cbn. by rewrite Ht.
Qed.

(** ** The driver *)

Context (id : bytes) (cfg : DriverConfig).

Notation craft := (CraftBatchTx id cfg).
Notation calldata_of := (batchCalldata id cfg).

(** The elements of blocks. *)
Definition block_elements (blocks : list (result L2Block)) (els : list BatchElement) : Prop :=
  Forall2 (λ block el, (b ← block; BatchElementFromBlock b) = Ok el) blocks els.

(** The running total of the sizes of the sequencer transactions, with their lengths. *)
Definition plain_size (els : list BatchElement) : Z :=
  foldl (λ total el, match el_Tx el with
                     | Some tx => total ⊞ (Z.of_nat TxLenSize + Size tx)
                     | None => total
                     end) 0 els.

Lemma plain_size_snoc els el :
  plain_size (els ++ [el]) =
  match el_Tx el with Some tx => plain_size els ⊞ (Z.of_nat TxLenSize + Size tx) | None => plain_size els end.
Proof. unfold plain_size. by rewrite foldl_app. Qed.

(** Every sequencer transaction of the elements leaves the total within the limit. *)
Definition within_limit (els : list BatchElement) : Prop :=
  ∀ j el, els !! j = Some el → is_Some (el_Tx el) →
    plain_size (take (S j) els) <= dc_MaxPlaintextBatchSize cfg.

Lemma within_limit_snoc els el :
  within_limit els → (is_Some (el_Tx el) → plain_size (els ++ [el]) <= dc_MaxPlaintextBatchSize cfg) →
  within_limit (els ++ [el]).
Proof.
  intros Hels Hel j e Hj He. apply lookup_app_Some in Hj as [Hj|[Hl Hj]].
  - rewrite take_app_le; [by eapply Hels|]. apply lookup_lt_Some in Hj. lia.
  - apply list_lookup_singleton_Some in Hj as [Hj ->]. rewrite take_ge; [by apply Hel|]. rewrite length_app. cbn. lia.
Qed.

(** [els] are the elements of the first [k] blocks, all within the plaintext limit, and
    either these are all the blocks or the transaction of the next block exceeds it. *)
Record gathered (blocks : list (result L2Block)) (k : nat) (els : list BatchElement) : Prop := {
  ga_elements : block_elements (take k blocks) els;
  ga_limit : within_limit els;
  ga_end : k = length blocks ∨
    ∃ b el, blocks !! k = Some (Ok b) ∧ BatchElementFromBlock b = Ok el ∧ is_Some (el_Tx el) ∧
      dc_MaxPlaintextBatchSize cfg < plain_size (els ++ [el]) }.

Lemma collectElements_spec blocks : ∀ acc els large done,
  block_elements done acc → within_limit acc →
  collectElements cfg blocks acc (plain_size acc) = Ok (els, large) →
  ∃ k, gathered (done ++ blocks) k els ∧
    large = bool_decide (k < length (done ++ blocks))%nat && (plain_size els <? dc_MinTxSize cfg).
Proof.
  induction blocks as [|block blocks IH]; intros acc els large done Hacc Hlim HC; cbn [collectElements] in HC.
  - injection HC as <- <-. exists (length done). rewrite app_nil_r.
    rewrite bool_decide_eq_false_2 by lia. split; [|done]. split; [by rewrite take_ge|done|by left].
  - apply bind_Ok in HC as (b & -> & HC). apply bind_Ok in HC as (el & Hel & HC).
    assert (Hrec : (is_Some (el_Tx el) → plain_size (acc ++ [el]) <= dc_MaxPlaintextBatchSize cfg) →
      collectElements cfg blocks (acc ++ [el]) (plain_size (acc ++ [el])) = Ok (els, large) →
      ∃ k, gathered (done ++ Ok b :: blocks) k els ∧
        large = bool_decide (k < length (done ++ Ok b :: blocks))%nat && (plain_size els <? dc_MinTxSize cfg)).
    { intros Hfit HC'. rewrite cons_middle, app_assoc. apply (IH (acc ++ [el])); [|by apply within_limit_snoc|done].
      apply Forall2_app; [done|]. by repeat constructor. }
    rewrite plain_size_snoc in Hrec. destruct (el_Tx el) as [tx|] eqn:Etx; [|by apply Hrec].
    destruct (Z.ltb_spec (dc_MaxPlaintextBatchSize cfg) (plain_size acc ⊞ (Z.of_nat TxLenSize + Size tx))) as [Hbig|Hfit];
      [|by apply Hrec].
    injection HC as <- <-. exists (length done). rewrite bool_decide_eq_true_2 by (rewrite length_app; cbn; lia).
    split; [|done]. split; [by rewrite take_app_length|done|]. right. exists b, el.
    rewrite list_lookup_middle by done. split_and!; [done|done|by rewrite Etx|by rewrite plain_size_snoc, Etx].
Qed.

(** One round of pruning. *)
Definition prune (els : list BatchElement) : list BatchElement := take (length els * 9 / 10) els.

Lemma prune_shrinks els : els ≠ [] → (length (prune els) < length els)%nat.
Proof.
  intros Hne. unfold prune. rewrite length_take. destruct els as [|el els]; [done|].
  apply Nat.min_lt_iff. left. apply Nat.Div0.div_lt_upper_bound. cbn [length]. lia.
Qed.

Lemma prune_prefix n els : ∃ k, Nat.iter n prune els = take k els.
Proof.
  induction n as [|n [k Hk]]; [exists (length els); by rewrite take_ge|]. cbn [Nat.iter nat_rect].
  change (nat_rect _ els (λ _, prune) n) with (Nat.iter n prune els). unfold prune at 1. rewrite Hk, take_take. by eexists.
Qed.

(** The batch that [els] becomes by [n] rounds of pruning, each of them needed. *)
Definition pruned_to start els (n : nat) els' : Prop :=
  els' = Nat.iter n prune els ∧
  ∀ j, (j < n)%nat → ∃ calldata, calldata_of start (Nat.iter j prune els) = Ok calldata ∧
    dc_MaxTxSize cfg < len calldata.

Lemma pruned_to_succ start els n els' calldata :
  pruned_to start els n els' → calldata_of start els' = Ok calldata → dc_MaxTxSize cfg < len calldata →
  pruned_to start els (S n) (prune els').
Proof.
  intros [-> Hbig] HC Hl. split; [done|]. intros j Hj.
  destruct (decide (j = n)) as [->|]; [by eexists|]. apply Hbig. lia.
Qed.

Lemma pruneLoop_spec start els0 large fuel : ∀ n els d0,
  calldata_of start [] = Ok d0 → len d0 <= dc_MaxTxSize cfg → (length els < fuel)%nat →
  pruned_to start els0 n els →
  match pruneLoop id cfg start large fuel n els with
  | Ok (Some (calldata, els')) => ∃ n', pruned_to start els0 n' els' ∧ calldata_of start els' = Ok calldata ∧
      len calldata <= dc_MaxTxSize cfg ∧ (n' = 0%nat → large = true ∨ dc_MinTxSize cfg <= len calldata)
  | Ok None => n = 0%nat ∧ large = false ∧ ∃ calldata, calldata_of start els = Ok calldata ∧
      len calldata <= dc_MaxTxSize cfg ∧ len calldata < dc_MinTxSize cfg
  | Err e => ∃ n' els', pruned_to start els0 n' els' ∧ calldata_of start els' = Err e
  | Panic m => ∃ n' els', pruned_to start els0 n' els' ∧ calldata_of start els' = Panic m
  end.
Proof.
  induction fuel as [|fuel IH]; intros n els d0 He0 Hd0 Hf HP; [lia|]. cbn [pruneLoop].
  destruct (calldata_of start els) as [calldata|e|m] eqn:HC; cbn [mbind result_bind]; [|by exists n, els..].
  destruct (Z.ltb_spec (dc_MaxTxSize cfg) (len calldata)) as [Hbig|Hfit].
  - assert (Hne : els ≠ []) by (intros ->; rewrite He0 in HC; injection HC as ->; lia).
    pose proof (prune_shrinks els Hne) as Hlt. fold (prune els).
    specialize (IH (S n) (prune els) d0 He0 Hd0 ltac:(lia) (pruned_to_succ _ _ _ _ _ HP HC Hbig)).
    destruct (pruneLoop _ _ _ _ _ _ _) as [[[c' els']|]|e|m]; [done|by destruct IH|done..].
  - destruct (negb (bool_decide (0 < n)%nat || large) && (len calldata <? dc_MinTxSize cfg)) eqn:Emin.
    + apply andb_true_iff in Emin as [En Em]. apply negb_true_iff, orb_false_iff in En as [En ->]. bool_props.
      split_and!; [lia|done|]. by exists calldata.
    + exists n. split_and!; [done..|]. intros ->. rewrite bool_decide_eq_false_2 in Emin by lia.
      destruct large; [by left|right]. cbn in Emin. bool_props. lia.
Qed.

(** C40. If an empty batch fits the maximal size, crafting a batch ends after at most one
    round of pruning per block. It gathers the elements of the first blocks, up to the
    first one whose transaction exceeds the plaintext limit. A batch it returns encodes
    what is left of these elements after a number of rounds of pruning (to nine tenths),
    fits the maximal size, and no earlier stage did; if nothing was pruned it reaches the
    minimal size, unless a next transaction that exceeds the plaintext limit was left out
    and the gathered transactions are smaller than the minimal size. It returns no batch
    only when the batch of all gathered elements is smaller than the minimal size, and
    either these are the elements of all the blocks or the gathered transactions alone,
    uncompressed, reach the minimal size. An error or a panic is that of reading the
    blocks or of encoding such a batch. *)
Theorem CraftBatchTx_spec start blocks d0 fuel :
  calldata_of (u64 start) [] = Ok d0 → len d0 <= dc_MaxTxSize cfg → (length blocks < fuel)%nat →
  match craft fuel start blocks with
  | Ok (Some (calldata, els')) => ∃ k els n, gathered blocks k els ∧ pruned_to (u64 start) els n els' ∧
      calldata_of (u64 start) els' = Ok calldata ∧ len calldata <= dc_MaxTxSize cfg ∧
      (n = 0%nat → dc_MinTxSize cfg <= len calldata ∨
                   (k < length blocks)%nat ∧ plain_size els < dc_MinTxSize cfg)
  | Ok None => ∃ k els calldata, gathered blocks k els ∧ calldata_of (u64 start) els = Ok calldata ∧
      len calldata <= dc_MaxTxSize cfg ∧ len calldata < dc_MinTxSize cfg ∧
      (k = length blocks ∨ dc_MinTxSize cfg <= plain_size els)
  | Err e => collectElements cfg blocks [] 0 = Err e ∨
      ∃ k els n els', gathered blocks k els ∧ pruned_to (u64 start) els n els' ∧ calldata_of (u64 start) els' = Err e
  | Panic m => collectElements cfg blocks [] 0 = Panic m ∨
      ∃ k els n els', gathered blocks k els ∧ pruned_to (u64 start) els n els' ∧ calldata_of (u64 start) els' = Panic m
  end.
Proof.
  intros He0 Hd0 Hf. unfold CraftBatchTx.
  destruct (collectElements cfg blocks [] 0) as [[els large]|e|m] eqn:HC; [|by left..]. cbn [mbind result_bind].
  destruct (collectElements_spec blocks [] els large [] ltac:(constructor) ltac:(by intros ? ? ?) HC) as (k & Hk & Hlarge).
  cbn [app] in Hk, Hlarge. pose proof (Forall2_length _ _ _ (ga_elements _ _ _ Hk)) as Hlen. rewrite length_take in Hlen.
  assert (Hk' : (k ≤ length blocks)%nat).
  { destruct (ga_end _ _ _ Hk) as [->|(b & el & Hb & _)]; [done|]. apply lookup_lt_Some in Hb. lia. }
  pose proof (pruneLoop_spec (u64 start) els large fuel 0 els d0 He0 Hd0 ltac:(lia) ltac:(split; [done|lia])) as HP.
  destruct (pruneLoop _ _ _ _ _ _ _) as [[[calldata els']|]|e|m].
  - destruct HP as (n & Hn & Hc & Hl & Hmin). exists k, els, n. split_and!; [done..|].
    intros ->. destruct (Hmin eq_refl) as [->|?]; [|by left]. right. symmetry in Hlarge. by bool_props.
  - destruct HP as (_ & -> & calldata & Hc & Hl & Hmin). exists k, els, calldata. split_and!; [done..|].
    symmetry in Hlarge. apply andb_false_iff in Hlarge as [Hlarge|Hlarge]; bool_props; [left|right]; lia.
  - destruct HP as (n & els' & Hn & He). right. by exists k, els, n, els'.
  - destruct HP as (n & els' & Hn & He). right. by exists k, els, n, els'.
Qed.

Lemma collectElements_cut blocks more : ∀ acc total els large,
  collectElements cfg blocks acc total = Ok (els, large) → (length els < length acc + length blocks)%nat →
  collectElements cfg (blocks ++ more) acc total = Ok (els, large).
Proof.
  induction blocks as [|block blocks IH]; intros acc total els large HC Hl; cbn [collectElements app length] in *.
  - injection HC as <- <-. lia.
  - apply bind_Ok in HC as (b & -> & HC). apply bind_Ok in HC as (el & Hel & HC).
    cbn [mbind result_bind]. rewrite Hel. cbn [mbind result_bind].
    assert (Hl' : (length els < length (acc ++ [el]) + length blocks)%nat) by (rewrite length_app; cbn; lia).
    destruct (el_Tx el) as [tx|]; [|by apply IH]. case_match; [done|by apply IH].
Qed.

(** A batch that the plaintext limit cut off and that is too small for submission, as a
    compressed batch can be, is never submitted: whatever blocks follow, the driver
    crafts the same batch again and returns none. *)
Theorem compressed_batch_stuck fuel start blocks more els large :
  collectElements cfg blocks [] 0 = Ok (els, large) → (length els < length blocks)%nat →
  craft fuel start blocks = Ok None → craft fuel start (blocks ++ more) = Ok None.
Proof.
  intros HC Hl. unfold CraftBatchTx. by rewrite (collectElements_cut blocks more [] 0 els large HC Hl), HC.
Qed.

(** If not even an empty batch fits the maximal size, pruning never ends. *)
Theorem pruning_diverges start large n d0 fuel :
  calldata_of start [] = Ok d0 → dc_MaxTxSize cfg < len d0 →
  pruneLoop id cfg start large fuel n [] = Panic "out of fuel".
Proof.
  intros He0 Hd. revert n. induction fuel as [|fuel IH]; intros n; [done|]. cbn [pruneLoop]. rewrite He0. cbn.
  rewrite (proj2 (Z.ltb_lt _ _)) by done. apply IH.
Qed.

(** A first transaction that is too large for any batch does not stop the driver: it
    crafts, and then publishes, a batch without any element. *)
Theorem oversized_tx_empty_batch start block blocks el tx d0 fuel :
  BatchElementFromBlock block = Ok el → el_Tx el = Some tx →
  is_u64 (3 + Size tx) → dc_MaxPlaintextBatchSize cfg < 3 + Size tx → 0 < dc_MinTxSize cfg →
  calldata_of (u64 start) [] = Ok d0 → len d0 <= dc_MaxTxSize cfg →
  craft (S fuel) start (Ok block :: blocks) = Ok (Some (d0, [])).
Proof.
  intros Hb Ht Hu Hmax Hmin He0 Hd0. unfold CraftBatchTx. cbn [collectElements mbind result_bind]. rewrite Hb. cbn [mbind result_bind].
  rewrite Ht. unfold TxLenSize. change (Z.of_nat 3) with 3. rewrite Z.add_0_l, (u64_small (3 + Size tx)) by done.
  rewrite (proj2 (Z.ltb_lt _ _)) by done. cbn [mbind result_bind pruneLoop]. rewrite He0. cbn [mbind result_bind].
  rewrite (proj2 (Z.ltb_ge _ _)) by done. rewrite (proj2 (Z.ltb_lt 0 _)) by done. rewrite orb_true_r. done.
Qed.
End Theorems.

(** ** Short reads *)

Lemma readUint64_nonempty n b r :
  b ≠ [] → rd_chunks r = whole b → ∃ v, readUint64 n r = (rd_set r (whole (drop n b)), Ok v).
Proof.
  intros Hb Hr. unfold readUint64, rd_Read. rewrite Hr. destruct b as [|x b]; [done|]. cbn [whole].
  eexists. f_equal. by destruct (drop n (x :: b)).
Qed.

(** [BatchContext.Read] is documented to fail when fewer than 16 bytes remain, but a
    [Read] that returns fewer bytes than asked for is no error: every input of at least
    12 bytes is accepted, the missing bytes of the block number taken as zero. *)
Theorem truncated_context_accepted b :
  (12 ≤ length b)%nat → ∃ r c, BatchContext_Read (bytes_NewReader b) = (r, Ok c).
Proof.
  intros Hl. unfold BatchContext_Read.
  assert (Hne : ∀ k, (k ≤ 11)%nat → drop k b ≠ []).
  { intros k Hk E. apply (f_equal length) in E. rewrite length_drop in E. cbn in E. lia. }
  destruct (readUint64_nonempty 3 b (bytes_NewReader b)) as [a ->]; [by apply (Hne 0%nat); lia|done|].
  cbn [rd_bind].
  match goal with |- context [readUint64 3 ?r] => destruct (readUint64_nonempty 3 (drop 3 b) r) as [n ->] end;
    [by apply Hne; lia|done|]. cbn [rd_bind]. rewrite drop_drop.
  match goal with |- context [readUint64 5 ?r] => destruct (readUint64_nonempty 5 (drop (3 + 3) b) r) as [t ->] end;
    [by apply Hne; lia|done|]. cbn [rd_bind]. rewrite drop_drop.
  match goal with |- context [readUint64 5 ?r] => destruct (readUint64_nonempty 5 (drop (3 + 3 + 5) b) r) as [k ->] end;
    [by apply Hne; lia|done|]. cbn [rd_bind]. by eexists _, _.
Qed.

(** ** Witnesses *)

#[local] Existing Instance stored_writer.
#[local] Existing Instance stored_reader.
#[local] Existing Instance stored_laws.

Definition example_tx_value : goval :=
  VList [VUint 7; VBig (Some 1000000000); VUint 21000; VPtr (Some (VStr (replicate 20 x11)));
         VBig (Some 5); VStr [x01; x02; x03]; VBig (Some 37); VBig (Some 1234567); VBig (Some 7654321)].
Definition example_cached : CachedTx :=
  mkCachedTx example_tx_value (rlp_enc (to_item txdata no_tags example_tx_value)).

Lemma example_cached_ok : tx_ok example_cached.
Proof.
  split_and!; [|vm_compute; reflexivity|vm_compute; reflexivity|vm_compute; reflexivity].
  cbn. repeat (split || constructor); lia.
Qed.

Definition example_elements : list BatchElement :=
  [mkBatchElement 100 10 (Some example_cached); mkBatchElement 100 10 (Some example_cached);
   mkBatchElement 100 11 None; mkBatchElement 101 11 (Some example_cached)].
Definition example_params : AppendSequencerBatchParams :=
  mkBatchParams 4 4 [mkBatchContext 2 1 100 10; mkBatchContext 1 0 101 11]
    [example_cached; example_cached; example_cached].

Lemma example_params_ok bt : bt = BatchTypeZlib ∨ bt = BatchTypeLegacy → params_ok example_params bt.
Proof.
  intros Hbt. split; cbn; try lia; try done.
  - repeat constructor; cbn; lia.
  - repeat (constructor; [apply example_cached_ok|]). constructor.
  - destruct Hbt as [->| ->]; [by left|right]. split; [done|]. by intros c [= <-].
Qed.

Lemma batch_params_roundtrip_witness :
  GenSequencerBatchParams 5 1 example_elements = Ok example_params ∧
  ∃ data, Serialize example_params BatchTypeZlib = Ok data ∧
    Params_Read whole (bytes_NewReader data) = Ok example_params.
Proof.
  split; [vm_compute; reflexivity|].
  apply (batch_params_roundtrip whole example_params BatchTypeZlib); [|reflexivity].
  apply example_params_ok. by left.
Defined.

Lemma truncated_context_accepted_witness :
  ∃ r c, BatchContext_Read (bytes_NewReader (replicate 12 x01)) = (r, Ok c).
Proof. apply (truncated_context_accepted (replicate 12 x01)). cbn. lia. Defined.

(** A compressed batch is read wrongly when a piece that the buffered reader delivers
    ends inside the length of a transaction: the batch of the other examples is then
    rejected, though nothing of it is lost. *)
Theorem split_length_misread :
  let chunks b := match b with x :: b => [[x]; b] | [] => [] end in
  (∀ b, concat (chunks b) = b) ∧
  ∃ data e, Serialize example_params BatchTypeZlib = Ok data ∧
    Params_Read chunks (bytes_NewReader data) = Err e.
Proof.
  intros chunks. split; [by intros [|x b]; cbn; rewrite ?app_nil_r|].
  exists (match Serialize example_params BatchTypeZlib with Ok d => d | _ => [] end),
    (wrapStreamError ErrExpectedList). split; vm_compute; reflexivity.
Qed.

Definition example_driver : DriverConfig := mkDriverConfig 1 20 200 1000 BatchTypeLegacy.
Definition example_l2_block (t : Z) : result L2Block :=
  Ok (mkL2Block t [mkL2Tx (Some 10) QueueOriginSequencer example_tx_value]).

(** Five blocks are too large together and are pruned to the first three. *)
Lemma CraftBatchTx_spec_witness :
  let blocks := example_l2_block <$> [100; 100; 101; 101; 102] in
  match CraftBatchTx (zeros 4) example_driver 6 5 blocks with
  | Ok (Some (calldata, els')) => length els' = 3%nat ∧
      ∃ k els n, gathered example_driver blocks k els ∧
        pruned_to (zeros 4) example_driver 5 els n els' ∧
        batchCalldata (zeros 4) example_driver 5 els' = Ok calldata ∧ len calldata <= 200
  | _ => False
  end.
Proof.
  intros blocks.
  assert (HS := CraftBatchTx_spec (zeros 4) example_driver 5 blocks
    (match batchCalldata (zeros 4) example_driver 5 [] with Ok d => d | _ => [] end) 6
    eq_refl ltac:(vm_compute; congruence) ltac:(cbn; lia)).
  destruct (CraftBatchTx _ _ _ _ _) as [[[calldata els']|]|e|m] eqn:E; [|vm_compute in E; discriminate..].
  split; [vm_compute in E; injection E as <- <-; reflexivity|].
  destruct HS as (k & els & n & Hg & Hp & Hc & Hl & _). by exists k, els, n.
Defined.

(** *** A batch that is never submitted *)

(** A stream compressed by run lengths. *)
Fixpoint rle (b : bytes) : bytes :=
  match b with
  | [] => []
  | x :: b =>
      match rle b with
      | n :: y :: r =>
          if bool_decide (x = y) && (byte_val n <? 255) then byte_of_Z (byte_val n + 1) :: y :: r
          else x01 :: x :: n :: y :: r
      | _ => [x01; x]
      end
  end.
Definition rle_writer : ZlibWriter := {|
  ZW := bytes; zw_New := [];
  zw_Write z b := (z ++ b, [], None); zw_Flush z := (z, [], None); zw_Close z := (z, rle z, None) |}.

Fixpoint unrle (b : bytes) : bytes :=
  match b with n :: y :: r => replicate (Z.to_nat (byte_val n)) y ++ unrle r | _ => [] end.

Lemma unrle_rle b : unrle (rle b) = b ∧ (b ≠ [] → ∃ n y r, rle b = n :: y :: r).
Proof.
  induction b as [|x b [IH IHne]]; [done|]. cbn [rle].
  destruct (decide (b = [])) as [->|Hne]; [split; [done|intros _; by eexists _, _, _]|].
  destruct (IHne Hne) as (n & y & r & E). rewrite E in *. destruct (_ && _) eqn:Eb; (split; [|intros _; by eexists _, _, _]).
  - bool_props. subst y. pose proof (byte_val_range n). cbn [unrle] in *.
    rewrite byte_val_of_Z, Z.mod_small, Z2Nat.inj_add, Nat.add_comm by lia.
    change (Z.to_nat 1) with 1%nat. cbn [replicate Nat.add app]. by rewrite IH.
  - cbn [unrle] in *. change (Z.to_nat (byte_val x01)) with 1%nat. cbn [replicate app]. by rewrite IH.
Qed.

Definition rle_reader : ZlibReader := {| zlib_NewReader b := Ok (unrle b, io_EOF) |}.

Lemma rle_laws : @ZlibLaws rle_reader rle_writer.
Proof.
  split; [intros ops z out [b|] _; by eexists _, _|].
  intros ops z out HZ. exists z, (rle z). split; [done|]. cbn.
  assert (out = [] ∧ z = zwritten ops) as [-> ->]; [|cbn; by rewrite (proj1 (unrle_rle _))].
  induction HZ as [|ops z out op z' o _ IH Hs]; [done|]. destruct IH as [-> ->]. rewrite zwritten_app.
  destruct op; cbn in Hs; injection Hs as <- <-; cbn; by rewrite ?app_nil_r.
Qed.

Definition zero_tx_value : goval :=
  VList [VUint 7; VBig (Some 1000000000); VUint 21000; VPtr (Some (VStr (replicate 20 x00)));
         VBig (Some 5); VStr (replicate 200 x00); VBig (Some 37); VBig (Some 1234567); VBig (Some 7654321)].

(** Two blocks of which the plaintext limit admits one; compressed, it is smaller than
    the minimal size, and no batch is crafted however many blocks follow. *)
Example compressed_batch_stuck_example more :
  let block := Ok (mkL2Block 100 [mkL2Tx (Some 10) QueueOriginSequencer zero_tx_value]) in
  @CraftBatchTx rle_writer (zeros 4) (mkDriverConfig 1 200 1000 300 BatchTypeZlib) 9 5 (block :: block :: more)
  = Ok None.
Proof.
  intros block.
  set (cfg := mkDriverConfig 1 200 1000 300 BatchTypeZlib).
  destruct (collectElements cfg [block; block] [] 0) as [[els large]| |] eqn:HC; [|vm_compute in HC; discriminate..].
  refine (compressed_batch_stuck (zeros 4) cfg 9 5 [block; block] more els large HC _ _).
  - vm_compute in HC. injection HC as <- <-. cbn. lia.
  - vm_compute. reflexivity.
Qed.

Lemma oversized_tx_empty_batch_witness :
  ∃ d0, CraftBatchTx (zeros 4) (mkDriverConfig 1 20 200 40 BatchTypeLegacy) 1 5 [example_l2_block 100] =
        Ok (Some (d0, [])).
Proof.
  eexists. eapply (oversized_tx_empty_batch (zeros 4) (mkDriverConfig 1 20 200 40 BatchTypeLegacy) 5
    (mkL2Block 100 [mkL2Tx (Some 10) QueueOriginSequencer example_tx_value]) []
    (mkBatchElement 100 10 (Some example_cached)) example_cached _ 0%nat).
  - vm_compute. reflexivity.
  - reflexivity.
  - by vm_compute.
  - by vm_compute.
  - by vm_compute.
  - vm_compute. reflexivity.
  - by vm_compute.
Defined.
