(* ===== verification/Receipts.v ===== *)
(** * Receipts over RPC

    [EthClient.Fetch] of op-node/sources/eth_client.go and [NewReceiptsFetcher] of
    receipts.go: the block data of [EthClient], the checks of [BlockHash] and the
    iterative batch call of [BatchCall] put together.  Fetchers are shared objects: the
    receipts cache keeps a reference to a fetcher, and later calls continue with it.
    With an RPC that answers a request by hash with that block, the receipts a caller
    gets are those the block hash commits to; with one that does not, the cache can hand
    out the receipts of another block. *)

From S2P Require Import Prelude GoErrors EthTypes Extern L1Info Batch BatchQueue Deposits.
From S2P Require Import Attributes SyncStart L1Stages BlockHash LRU BatchCall EthClient.

(** [new(types.Receipt)]. *)
Definition makeReceiptRequest (txHash : Hash) : RpcReceipt :=
  mkRpcReceipt (mkReceipt 0 []) 0 None (zeros 32).

Section Receipts.
Context `{HeaderHasher} `{TxCodec} {W : Type} `{RPC W}.
Context `{!LRU Hash HeaderInfo} `{!LRU Hash (list Transaction)} `{!LRU Hash ExecutionPayload}
  `{!LRU Hash L1BlockRef} `{!LRU Hash L2BlockRef} `{!LRU Hash nat}.
(** The hash of a transaction, and the batch call for receipts. *)
Context (tx_Hash : Transaction → Hash).
Context (rpc_receipts : W → list Hash → W * result (nat → reply RpcReceipt)).

Notation batchCall := (IterativeBatchCall (V := RpcReceipt) (O := list RpcReceipt)).

(** A fetcher made by [NewReceiptsFetcher]: the arguments it is made with and the state
    of its batch call. *)
Record receiptsFetcher := mkReceiptsFetcher {
  rf_block : BlockID; rf_receiptHash : Hash; rf_txHashes : list Hash; rf_batchSize : Z;
  rf_call : batchCall }.

Definition NewReceiptsFetcher (block : BlockID) (receiptHash : Hash) (txHashes : list Hash)
  (batchSize : Z) : receiptsFetcher :=
  mkReceiptsFetcher block receiptHash txHashes (clampBatchSize txHashes batchSize)
    (NewIterativeBatchCall txHashes makeReceiptRequest).

Definition rf_set (call : batchCall) (rf : receiptsFetcher) : receiptsFetcher :=
  mkReceiptsFetcher (rf_block rf) (rf_receiptHash rf) (rf_txHashes rf) (rf_batchSize rf) call.

(** The check the fetcher applies to what it fetched: a fetched receipt is never nil. *)
Definition rf_makeResults (rf : receiptsFetcher) (txHashes : list Hash) (rs : list RpcReceipt)
  : result (list RpcReceipt) :=
  makeReceiptsFn (rf_block rf) (rf_receiptHash rf) txHashes (Some <$> rs).

(** The client with its receipts cache, which holds references to the fetchers. *)
Record ReceiptsClient := mkReceiptsClient {
  rcl_eth : EthClient (W := W); rcl_receiptsCache : lru Hash nat;
  rcl_fetchers : list receiptsFetcher }.

Definition Client_Fetch (s : ReceiptsClient) (blockHash : Hash)
  : ReceiptsClient * result (HeaderInfo * list Transaction * nat) :=
  let '(eth, r) := InfoAndTxsByHash (rcl_eth s) blockHash in
  let s := mkReceiptsClient eth (rcl_receiptsCache s) (rcl_fetchers s) in
  match r with
  | Err e => (s, Err e)
  | Panic m => (s, Panic m)
  | Ok (info, txs) =>
      let '(c, v) := lru_Get (rcl_receiptsCache s) blockHash in
      match v with
      | Some ptr => (mkReceiptsClient eth c (rcl_fetchers s), Ok (info, txs, ptr))
      | None =>
          let txHashes := tx_Hash <$> txs in
          let r := NewReceiptsFetcher (HeaderInfo_ID info) (hi_receiptHash info) txHashes
                     (ec_maxBatchSize eth) in
          let ptr := length (rcl_fetchers s) in
          (mkReceiptsClient eth (lru_Add c blockHash ptr) (rcl_fetchers s ++ [r]),
           Ok (info, txs, ptr))
      end
  end.

(** [Fetch], [Reset] and [Result] of the fetcher behind a reference. *)
Definition Fetcher_Fetch (s : ReceiptsClient) (ptr : nat) (cancel : option nat)
  : ReceiptsClient * outcome :=
  match rcl_fetchers s !! ptr with
  | None => (s, Returned (Panic "invalid memory address or nil pointer dereference"))
  | Some rf =>
      let '(w, call, o) := Fetch (rf_txHashes rf) rpc_receipts (rf_batchSize rf) cancel
                             (ec_client (rcl_eth s)) (rf_call rf) in
      (mkReceiptsClient (set_client w (rcl_eth s)) (rcl_receiptsCache s)
         (<[ptr := rf_set call rf]> (rcl_fetchers s)), o)
  end.

Definition Fetcher_Reset (s : ReceiptsClient) (ptr : nat) : result ReceiptsClient :=
  match rcl_fetchers s !! ptr with
  | None => Panic "invalid memory address or nil pointer dereference"
  | Some rf =>
      let call := Reset (rf_txHashes rf) makeReceiptRequest (rf_call rf) in
      Ok (mkReceiptsClient (rcl_eth s) (rcl_receiptsCache s)
            (<[ptr := rf_set call rf]> (rcl_fetchers s)))
  end.

Definition Fetcher_Result (s : ReceiptsClient) (ptr : nat)
  : ReceiptsClient * result (list RpcReceipt) :=
  match rcl_fetchers s !! ptr with
  | None => (s, Panic "invalid memory address or nil pointer dereference")
  | Some rf =>
      let '(call, r) := Result (rf_txHashes rf) makeReceiptRequest (rf_makeResults rf) (rf_call rf) in
      (mkReceiptsClient (rcl_eth s) (rcl_receiptsCache s) (<[ptr := rf_set call rf]> (rcl_fetchers s)), r)
  end.

(** ** Uses of the client *)

Inductive receipts_op :=
| ROpClient (op : client_op) | ROpFetch (blockHash : Hash)
| ROpMore (ptr : nat) (cancel : option nat) | ROpReset (ptr : nat) | ROpResult (ptr : nat).

Definition run_receipts_op (s : ReceiptsClient) (op : receipts_op) : ReceiptsClient :=
  match op with
  | ROpClient op => mkReceiptsClient (run_op (rcl_eth s) op) (rcl_receiptsCache s) (rcl_fetchers s)
  | ROpFetch h => fst (Client_Fetch s h)
  | ROpMore ptr c => fst (Fetcher_Fetch s ptr c)
  | ROpReset ptr => match Fetcher_Reset s ptr with Ok s => s | _ => s end
  | ROpResult ptr => fst (Fetcher_Result s ptr)
  end.

Definition NewReceiptsClient (w : W) (config : EthClientConfig) : result ReceiptsClient :=
  eth ← NewEthClient w config;
  receipts ← NewLRUCache (ecc_ReceiptsCacheSize config);
  Ok (mkReceiptsClient eth receipts []).

(** ** Invariant *)

(** Receipts that pass the checks for this block. *)
Definition receipts_of (block : BlockID) (receiptHash : Hash) (txHashes : list Hash)
  (rs : list RpcReceipt) : Prop :=
  makeReceiptsFn block receiptHash txHashes (Some <$> rs) = Ok rs.

(** The cached result of a fetcher passed its checks, and the fetcher is for the
    transactions of a header with the hash of its block. *)
Definition fetcher_inv (rf : receiptsFetcher) : Prop :=
  (∃ f txs, Header_Hash f = id_Hash (rf_block rf) ∧ h_ReceiptHash f = rf_receiptHash rf ∧
    h_Number f = id_Number (rf_block rf) ∧
    verified_txs (id_Hash (rf_block rf)) txs ∧ rf_txHashes rf = tx_Hash <$> txs) ∧
  ∀ rs, ibc_results (rf_call rf) = Some rs →
    receipts_of (rf_block rf) (rf_receiptHash rf) (rf_txHashes rf) rs.

(** The RPC answers a request by hash with a block that claims this hash. *)
Definition answers_by_hash : Prop := ∀ w h w' block,
  rpc_block w (QHash h) = (w', Ok (Some block)) → rh_Hash (rb_header block) = h.

Definition receipts_inv (s : ReceiptsClient) : Prop :=
  client_inv (rcl_eth s) ∧ Forall fetcher_inv (rcl_fetchers s) ∧
  ∀ h ptr, lru_contents (rcl_receiptsCache s) !! h = Some ptr →
    ∃ rf, rcl_fetchers s !! ptr = Some rf ∧ id_Hash (rf_block rf) = h.

Lemma makeReceiptsFn_some block receiptHash txHashes rs rs' :
  makeReceiptsFn block receiptHash txHashes (Some <$> rs) = Ok rs' → rs' = rs.
Proof.
  unfold makeReceiptsFn. intros HM. destruct (negb _); [done|]. destruct (_ && _); [done|].
  apply bind_Ok in HM as (? & _ & HM). rewrite omap_Some in HM. by destruct (negb _); [|injection HM as ->].
Qed.

(** A batch call changes its cached result in [Result] only. *)
Lemma sendAll_results (call call' : batchCall) b :
  sendAll call b = Ok call' → ibc_results call' = ibc_results call.
Proof.
  revert call. induction b as [|i b IH]; intros call; cbn [sendAll]; [by intros [= ->]|].
  intros (c & Hc & Hb)%bind_Ok. unfold send in Hc. destruct (ibc_closed call); [done|].
  injection Hc as <-. by apply IH in Hb.
Qed.

Lemma processBatch_results (keys : list Hash) (call : batchCall) e rs :
  ibc_results (fst (processBatch keys call e rs)) = ibc_results call.
Proof.
  revert call e. induction rs as [|[i [err|v|]] rs IH]; intros call e; [done|..]; cbn [processBatch].
  - unfold send. destruct (ibc_closed call); [done|]. by rewrite IH.
  - case_match; [by case_match|by rewrite IH].
  - case_match; [by case_match|by rewrite IH].
Qed.

Lemma Fetch_results keys n cancel w (call call' : batchCall) w' o :
  Fetch keys rpc_receipts n cancel w call = (w', call', o) → ibc_results call' = ibc_results call.
Proof.
  assert (Hq : ∀ (w : W) c b e w' c' o, requeue w c b e = (w', c', o) → ibc_results c' = ibc_results (c : batchCall)).
  { intros ??????? Hr. unfold requeue in Hr. destruct (sendAll _ _) eqn:E; injection Hr as <- <- <-; [|done..].
    by eapply sendAll_results. }
  assert (Hc : ∀ w c b w' c' o, callBatch keys rpc_receipts w c b = (w', c', o) → ibc_results c' = ibc_results (c : batchCall)).
  { intros ?????? Hr. unfold callBatch in Hr. destruct (rpc_receipts _ _) as [w1 [f|e|m]]; [|by apply Hq in Hr|by injection Hr as <- <- <-].
    destruct (processBatch _ _ _ _) as [c1 r1] eqn:E. injection Hr as <- <- <-.
    pose proof (processBatch_results keys (set_values (storeReplies (ibc_requestsValues c) (batchReplies b f)) c) None
      (batchReplies b f)) as HP. by rewrite E in HP. }
  unfold Fetch. intros HF.
  destruct cancel as [[|c]|]; [by injection HF as <- <- <-|..]; destruct (ibc_scheduled call) as [|i q];
    try (destruct (ibc_closed call); by injection HF as <- <- <-);
    repeat match type of HF with
           | (if ?b then _ else _) = _ => destruct b
           end; first [by apply Hq in HF | by apply Hc in HF | by injection HF as <- <- <-].
Qed.

Lemma fetcher_inv_set rf call :
  fetcher_inv rf → ibc_results call = ibc_results (rf_call rf) → fetcher_inv (rf_set call rf).
Proof. intros [Hb Hr] Hc. split; [done|]. cbn. by rewrite Hc. Qed.

Lemma Result_results rf call r :
  fetcher_inv rf →
  Result (rf_txHashes rf) makeReceiptRequest (rf_makeResults rf) (rf_call rf) = (call, r) →
  fetcher_inv (rf_set call rf) ∧
  ∀ rs, r = Ok rs → receipts_of (rf_block rf) (rf_receiptHash rf) (rf_txHashes rf) rs.
Proof.
  intros Hrf HR. pose proof Hrf as [Hb Hr]. unfold Result in HR.
  destruct (_ <? _); [injection HR as <- <-; by destruct rf|].
  destruct (ibc_results (rf_call rf)) as [out|] eqn:Eo.
  - injection HR as <- <-. split; [by apply fetcher_inv_set|]. intros ? [= <-]. by apply Hr.
  - destruct (rf_makeResults rf _ _) as [out|e|m] eqn:Em; injection HR as <- <-.
    + unfold rf_makeResults in Em. pose proof (makeReceiptsFn_some _ _ _ _ _ Em) as ->.
      split; [|by intros ? [= <-]]. split; [done|]. by intros ? [= <-].
    + by split; [apply fetcher_inv_set|].
    + by split; [apply fetcher_inv_set|].
Qed.

(** Replacing a fetcher by one for the same block. *)
Lemma receipts_inv_update s eth ptr rf rf' :
  receipts_inv s → client_inv eth → rcl_fetchers s !! ptr = Some rf → fetcher_inv rf' →
  rf_block rf' = rf_block rf →
  receipts_inv (mkReceiptsClient eth (rcl_receiptsCache s) (<[ptr := rf']> (rcl_fetchers s))).
Proof.
  intros (Hc & Hf & Hp) He Hptr Hrf Hb. split_and!; [done|by apply Forall_insert|].
  intros h p Hh. destruct (Hp h p Hh) as (rf0 & Hrf0 & Eh). cbn.
  destruct (decide (ptr = p)) as [<-|].
  - simplify_eq. exists rf'. rewrite list_lookup_insert_eq by (by eapply lookup_lt_Some). by rewrite Hb.
  - exists rf0. by rewrite list_lookup_insert_ne.
Qed.

Lemma blockCall_hash s h s' info txs :
  answers_by_hash → blockCall s (QHash h) = (s', Ok (info, txs)) → hi_hash info = h.
Proof.
  intros Ha HB. unfold blockCall in HB. destruct (rpc_block (ec_client s) (QHash h)) as [w [[b|]|e|m]] eqn:E; try done.
  apply Ha in E. destruct (rpcBlock_Info b _ _) as [[i t]|e|m] eqn:Ei; try done. injection HB as _ <- _.
  unfold rpcBlock_Info in Ei. do 2 (destruct (if _ : bool then _ else _); [done|]).
  apply bind_Ok in Ei as (i' & Hi & [= <- _]). unfold rpcHeader_Info in Hi.
  destruct (if _ : bool then _ else _); [done|]. destruct (_ && _) in Hi; [done|]. by injection Hi as <-.
Qed.

Lemma InfoAndTxsByHash_hash s h s' info txs :
  answers_by_hash → client_inv s → InfoAndTxsByHash s h = (s', Ok (info, txs)) → hi_hash info = h.
Proof.
  intros Ha (Ht & Hh & Hx) HI. unfold InfoAndTxsByHash in HI.
  destruct (lru_Get (ec_headersCache s) h) as [c v] eqn:EG.
  destruct (lru_Get_all _ _ _ _ _ Hh EG) as [Hc Hv].
  destruct v as [i|]; [|by eapply blockCall_hash].
  destruct (lru_Get (ec_transactionsCache (set_headers c s)) h) as [c' v'] eqn:EG'.
  destruct v' as [t|]; [|by eapply blockCall_hash]. injection HI as _ <- _. by apply Hv.
Qed.

Lemma Client_Fetch_inv s h s' r :
  answers_by_hash → receipts_inv s → Client_Fetch s h = (s', r) →
  receipts_inv s' ∧ ∀ info txs ptr, r = Ok (info, txs, ptr) →
    hi_hash info = h ∧ verified_info info ∧ verified_txs (hi_hash info) txs ∧
    ∃ rf, rcl_fetchers s' !! ptr = Some rf ∧ id_Hash (rf_block rf) = h.
Proof.
  intros Ha (Hc & Hf & Hp) HF. unfold Client_Fetch in HF.
  destruct (InfoAndTxsByHash (rcl_eth s) h) as [eth r1] eqn:EI.
  destruct (InfoAndTxsByHash_inv _ _ _ _ Hc EI) as [He HV].
  destruct r1 as [[info txs]|e|m]; [|by injection HF as <- <-..].
  pose proof (InfoAndTxsByHash_hash _ _ _ _ _ Ha Hc EI) as Eh. destruct (HV _ _ eq_refl) as [Hi Htx].
  cbn [rcl_receiptsCache rcl_fetchers] in HF. destruct (lru_Get (rcl_receiptsCache s) h) as [c v] eqn:EG.
  destruct (lru_Get_all _ _ _ _ _ Hp EG) as [Hc' Hv]. destruct v as [ptr|]; injection HF as <- <-.
  - split; [done|]. intros ??? [= <- <- <-]. split_and!; try done. by apply Hv.
  - assert (Hnew : (rcl_fetchers s ++ [NewReceiptsFetcher (HeaderInfo_ID info) (hi_receiptHash info) (tx_Hash <$> txs)
      (ec_maxBatchSize eth)]) !! length (rcl_fetchers s) = Some (NewReceiptsFetcher (HeaderInfo_ID info) (hi_receiptHash info)
      (tx_Hash <$> txs) (ec_maxBatchSize eth))) by by rewrite list_lookup_middle.
    split; [split_and!|].
    + done.
    + apply Forall_app_2; [done|]. apply Forall_singleton. split; [|done].
      destruct Hi as (f & Hf1 & Ei). exists f, txs. cbn. rewrite Ei in Hf1 |- *. cbn in *. split_and!; try done.
      by rewrite Ei in Htx.
    + apply lru_Add_all; [|by exists (NewReceiptsFetcher (HeaderInfo_ID info) (hi_receiptHash info)
        (tx_Hash <$> txs) (ec_maxBatchSize eth))].
      intros h' p Hh'. destruct (Hc' h' p Hh') as (rf & Hrf & Erf). exists rf. split; [|done].
      by apply lookup_app_l_Some.
    + intros ??? [= <- <- <-]. split_and!; try done. eexists. by split; [apply Hnew|].
Qed.

Lemma Fetcher_Fetch_inv s ptr cancel : receipts_inv s → receipts_inv (fst (Fetcher_Fetch s ptr cancel)).
Proof.
  intros Hs. unfold Fetcher_Fetch. destruct (rcl_fetchers s !! ptr) as [rf|] eqn:Hp; [|done].
  destruct (Fetch _ _ _ _ _ _) as [[w call] o] eqn:EF. pose proof Hs as (Hc & Hf & _).
  eapply receipts_inv_update; [done|done|done| |done].
  apply fetcher_inv_set; [by eapply Forall_lookup_1|by apply Fetch_results in EF].
Qed.

Lemma Fetcher_Reset_inv s ptr s' : receipts_inv s → Fetcher_Reset s ptr = Ok s' → receipts_inv s'.
Proof.
  intros Hs HR. unfold Fetcher_Reset in HR. pose proof Hs as (Hc & Hf & _).
  destruct (rcl_fetchers s !! ptr) as [rf|] eqn:Hp; [|done]. injection HR as <-.
  eapply receipts_inv_update; [done|done|done| |done].
  apply fetcher_inv_set; [by eapply Forall_lookup_1|done].
Qed.

Lemma Fetcher_Result_inv s ptr s' r :
  receipts_inv s → Fetcher_Result s ptr = (s', r) →
  receipts_inv s' ∧ ∀ rs, r = Ok rs → ∃ rf, rcl_fetchers s !! ptr = Some rf ∧ fetcher_inv rf ∧
    receipts_of (rf_block rf) (rf_receiptHash rf) (rf_txHashes rf) rs.
Proof.
  intros Hs HR. unfold Fetcher_Result in HR. pose proof Hs as (Hc & Hf & _).
  destruct (rcl_fetchers s !! ptr) as [rf|] eqn:Hp; [|by injection HR as <- <-].
  destruct (Result _ _ _ _) as [call r'] eqn:ER. injection HR as <- <-.
  assert (Hrf : fetcher_inv rf) by by eapply Forall_lookup_1.
  destruct (Result_results _ _ _ Hrf ER) as [Hrf' Hr]. split.
  - by eapply receipts_inv_update.
  - intros rs Hrs. exists rf. split_and!; try done. by apply Hr.
Qed.

(** A fetcher stays for its block. *)
Definition fetches_for (ptr : nat) (h : Hash) (s : ReceiptsClient) : Prop :=
  ∃ rf, rcl_fetchers s !! ptr = Some rf ∧ id_Hash (rf_block rf) = h.

Lemma fetches_for_insert ptr h s p rf rf' eth :
  fetches_for ptr h s → rcl_fetchers s !! p = Some rf → rf_block rf' = rf_block rf →
  fetches_for ptr h (mkReceiptsClient eth (rcl_receiptsCache s) (<[p := rf']> (rcl_fetchers s))).
Proof.
  intros (rf0 & Hrf0 & Eh) Hp Hb. unfold fetches_for. cbn. destruct (decide (p = ptr)) as [->|].
  - simplify_eq. exists rf'. rewrite list_lookup_insert_eq by (by eapply lookup_lt_Some). by rewrite Hb.
  - exists rf0. by rewrite list_lookup_insert_ne.
Qed.

Lemma run_receipts_op_for ptr h s op : fetches_for ptr h s → fetches_for ptr h (run_receipts_op s op).
Proof.
  intros Hs. destruct op as [op|h'|p c|p|p]; cbn [run_receipts_op].
  - done.
  - destruct Hs as (rf & Hrf & Eh). unfold Client_Fetch. destruct (InfoAndTxsByHash _ _) as [eth [[info txs]|e|m]]; try by exists rf.
    cbn [rcl_receiptsCache]. destruct (lru_Get _ _) as [c [q|]]; [by exists rf|].
    exists rf. split; [|done]. cbn. by apply lookup_app_l_Some.
  - unfold Fetcher_Fetch. destruct (rcl_fetchers s !! p) as [rf|] eqn:Hp; [|done].
    destruct (Fetch _ _ _ _ _ _) as [[w call] o]. by eapply fetches_for_insert.
  - unfold Fetcher_Reset. destruct (rcl_fetchers s !! p) as [rf|] eqn:Hp; [|done]. by eapply fetches_for_insert.
  - unfold Fetcher_Result. destruct (rcl_fetchers s !! p) as [rf|] eqn:Hp; [|done].
    destruct (Result _ _ _ _) as [call r]. by eapply fetches_for_insert.
Qed.

Lemma run_receipts_op_inv s op : answers_by_hash → receipts_inv s → receipts_inv (run_receipts_op s op).
Proof.
  intros Ha Hs. destruct op as [op|h|p c|p|p]; cbn [run_receipts_op].
  - destruct Hs as (Hc & Hf & Hp). by split; [apply run_op_inv|].
  - destruct (Client_Fetch s h) as [s' r] eqn:E. by apply Client_Fetch_inv in E as [? _].
  - by apply Fetcher_Fetch_inv.
  - destruct (Fetcher_Reset s p) eqn:E; [|done..]. by eapply Fetcher_Reset_inv.
  - destruct (Fetcher_Result s p) as [s' r] eqn:E. by apply Fetcher_Result_inv in E as [? _].
Qed.

Lemma NewReceiptsClient_inv w cfg s :
  ecc_TrustRPC cfg = false → NewReceiptsClient w cfg = Ok s → receipts_inv s.
Proof.
  intros Ht HN. apply bind_Ok in HN as (eth & He & HN). apply bind_Ok in HN as (c & Hc & [= <-]).
  unfold NewLRUCache in Hc. destruct (lru_New (ecc_ReceiptsCacheSize cfg)) eqn:E; [injection Hc as ->|done..].
  apply lru_New_empty in E. split_and!; [by eapply NewEthClient_inv|done|]. cbn. by rewrite E.
Qed.

Lemma run_receipts_inv s ops : answers_by_hash → receipts_inv s → receipts_inv (foldl run_receipts_op s ops).
Proof.
  intros Ha. revert s. induction ops as [|op ops IH]; intros s Hs; [done|]. by apply IH, run_receipts_op_inv.
Qed.

Lemma run_receipts_for ptr h s ops : fetches_for ptr h s → fetches_for ptr h (foldl run_receipts_op s ops).
Proof.
  revert s. induction ops as [|op ops IH]; intros s Hs; [done|]. by apply IH, run_receipts_op_for.
Qed.

(** ** Theorem *)

(** C35. Of a client that does not trust its RPC: if the RPC answers requests by hash with
    blocks of that hash, then the receipts a caller of [Fetch] gets, from a new fetcher or
    one that earlier callers have shared, and after whatever other use of the client,
    failed batches and resets, are those of the block with the requested hash: one per
    transaction and in order, with the block's hash and number, logs numbered
    consecutively, and the receipts root of the block's header. *)
Theorem receipts_verified w cfg s ops hash s1 info txs ptr ops' s2 rs :
  answers_by_hash → ecc_TrustRPC cfg = false → NewReceiptsClient w cfg = Ok s →
  Client_Fetch (foldl run_receipts_op s ops) hash = (s1, Ok (info, txs, ptr)) →
  Fetcher_Result (foldl run_receipts_op s1 ops') ptr = (s2, Ok rs) →
  unique_preimage hash → num_logs rs < 2 ^ 64 →
  ∃ f txs', Header_Hash f = hash ∧ h_Number f = hi_number info ∧
    h_TxHash f = DeriveSha_Transactions txs ∧ h_TxHash f = DeriveSha_Transactions txs' ∧
    h_ReceiptHash f = DeriveSha_Receipts (rr_Receipt <$> rs) ∧ length rs = length txs' ∧
    receipts_ok (mkBlockID hash (h_Number f)) 0 0 (tx_Hash <$> txs') rs.
Proof.
  intros Ha Ht HN HF HR Hu Hn. pose proof (NewReceiptsClient_inv _ _ _ Ht HN) as Hs.
  destruct (Client_Fetch_inv _ _ _ _ Ha (run_receipts_inv _ ops Ha Hs) HF) as [Hs1 Hr].
  destruct (Hr _ _ _ eq_refl) as (Eh & (f & Hf & Ei) & (g & Hg & Htx) & Hfor).
  destruct (run_receipts_for ptr hash s1 ops' Hfor) as (rf & Hrf & Erf).
  destruct (Fetcher_Result_inv _ _ _ _ (run_receipts_inv _ ops' Ha Hs1) HR) as [_ Hres].
  destruct (Hres _ eq_refl) as (rf' & Hrf' & [(f' & txs' & Hf' & Hrh & Hnum & (g' & Hg' & Htx') & Hth) _] & Hok).
  simplify_eq. rewrite Erf in *. assert (g = f) as -> by (apply Hu; congruence).
  assert (f' = f) as -> by (apply Hu; congruence). assert (g' = f) as -> by (apply Hu; congruence).
  apply makeReceipts_sound in Hok as (_ & Hl & Hrs & Hroot); [|by rewrite omap_Some].
  rewrite Hth, length_fmap in Hl. rewrite Hth in Hrs. exists f, txs'. split_and!; try done; try congruence.
  destruct (rf_block rf) as [bh bn] eqn:Eb. cbn in *. congruence.
Qed.
End Receipts.

(** ** Witnesses *)

#[local] Existing Instance example_codec.

(** Two blocks with one transaction each; the second one's transaction failed. *)
Definition header_at (n : Z) (receiptHash : Hash) : Header :=
  mkHeader (example_hash 1) (example_hash 7) (zeros 20) (example_hash 2) (example_hash 3)
    receiptHash (zeros 256) 0 n 30000000 21000 24 [x01] (example_hash 5) zero_nonce
    (Some 1000000007).
Definition good_block : rpcBlock :=
  mkRpcBlock (mkRpcHeader (header_at 12 (example_hash 1)) (example_hash 12)) [example_tx [x01; x02]].
Definition other_block : rpcBlock :=
  mkRpcBlock (mkRpcHeader (header_at 13 (example_hash 0)) (example_hash 13)) [example_tx [x03; x04]].

#[local] Program Instance two_blocks_hasher : HeaderHasher := {
  Header_Hash h := example_hash (if bool_decide (h = header_at 12 (example_hash 1)) then 12
                                 else if bool_decide (h = header_at 13 (example_hash 0)) then 13 else 0);
  DeriveSha raw := example_hash (len (concat raw));
  DeriveSha_Transactions txs := example_hash (len (concat (marshalled txs)));
  DeriveSha_Receipts rs := example_hash (foldr (λ r n, rec_Status r + n) 0 rs);
  EmptyUncleHash := example_hash 7;
  EmptyRootHash := example_hash 8 }.
Next Obligation. intros txs raw Hr. cbn. by rewrite (marshalled_raw txs raw Hr). Qed.

(** An RPC that counts its calls and serves both blocks, and one that serves the other
    block when it is first asked. *)
Definition serve_block (h : Hash) : option rpcBlock :=
  if bool_decide (h = example_hash 12) then Some good_block
  else if bool_decide (h = example_hash 13) then Some other_block else None.

Definition two_blocks_rpc (lies : bool) : RPC nat := {|
  rpc_header w q := (S w, Err ethereum_NotFound);
  rpc_block w q := (S w, match q with
                         | QHash h => if lies && bool_decide (w = 0%nat) then Ok (Some other_block)
                                      else Ok (serve_block h)
                         | _ => Err ethereum_NotFound
                         end);
  rpc_headers w ns := (S w, Err ethereum_NotFound);
  rpc_forkchoiceUpdated w _ _ := (S w, Err ethereum_NotFound);
  rpc_newPayload w _ := (S w, Err ethereum_NotFound);
  rpc_getPayload w _ := (S w, Err ethereum_NotFound) |}.

Definition data_hash (tx : Transaction) : Hash := example_hash (be_decode (tx_Data tx)).
Definition receipt_in (n status : Z) (txHash : Hash) : RpcReceipt :=
  mkRpcReceipt (mkReceipt status [mkLog (zeros 20) [] [] n txHash 0 (example_hash n) 0 false])
    0 (Some n) (example_hash n).
Definition serve_receipts (w : nat) (ks : list Hash) : nat * result (nat → reply RpcReceipt) :=
  (S w, Ok (λ j, match ks !! j with
                 | Some k => ReplyVal (if bool_decide (k = data_hash (example_tx [x01; x02]))
                                       then receipt_in 12 1 k else receipt_in 13 0 k)
                 | None => ReplyErr io_EOF
                 end)).

Definition receipts_cfg : EthClientConfig := mkEthClientConfig 20 10 8 8 8 8 false false.

Section Example.
Context (lies : bool).
#[local] Instance the_rpc : RPC nat := two_blocks_rpc lies.
Definition new_client : ReceiptsClient (W := nat) :=
  match NewReceiptsClient 0%nat receipts_cfg with
  | Ok s => s
  | _ => mkReceiptsClient (mkEthClient 0%nat 0 true true (mkRecent 0 []) (mkRecent 0 []) (mkRecent 0 []))
           (mkRecent 0 []) []
  end.
Definition client_fetch (s : ReceiptsClient (W := nat)) : ReceiptsClient (W := nat) * result (HeaderInfo * list Transaction * nat) :=
  Client_Fetch data_hash s (example_hash 12).
Definition client_use (s : ReceiptsClient (W := nat)) (ops : list receipts_op) : ReceiptsClient (W := nat) :=
  foldl (run_receipts_op data_hash serve_receipts) s ops.
End Example.

Lemma two_blocks_honest : answers_by_hash (H1 := two_blocks_rpc false).
Proof.
  intros w h w' block. cbn. unfold serve_block. intros [= _ Hb].
  case_bool_decide as E1; [by injection Hb as <-|]. case_bool_decide; [by injection Hb as <-|done].
Qed.

Lemma good_block_preimage : unique_preimage (example_hash 12).
Proof.
  assert (Hone : ∀ h, Header_Hash h = example_hash 12 → h = header_at 12 (example_hash 1)).
  { intros h. cbn -[example_hash]. case_bool_decide; [done|]. case_bool_decide; by vm_compute. }
  intros f g Hf Hg. by rewrite (Hone f Hf), (Hone g Hg).
Qed.

Lemma receipts_verified_witness :
  ∃ f txs', Header_Hash f = example_hash 12 ∧ h_Number f = 12 ∧
    h_TxHash f = DeriveSha_Transactions [example_tx [x01; x02]] ∧ h_TxHash f = DeriveSha_Transactions txs' ∧
    h_ReceiptHash f = DeriveSha_Receipts [rr_Receipt (receipt_in 12 1 (example_hash 258))] ∧
    1%nat = length txs' ∧
    receipts_ok (mkBlockID (example_hash 12) (h_Number f)) 0 0 (data_hash <$> txs')
      [receipt_in 12 1 (example_hash 258)].
Proof.
  eapply (receipts_verified (H1 := two_blocks_rpc false) data_hash serve_receipts 0%nat receipts_cfg
    (new_client) [ROpFetch (example_hash 13)] (example_hash 12) _
    (mkHeaderInfo (example_hash 12) (example_hash 1) (zeros 20) (example_hash 2) 12 24
      (example_hash 5) (Some 1000000007) (example_hash 3) (example_hash 1)) [example_tx [x01; x02]] 1%nat
    [ROpMore 1 None] _ [receipt_in 12 1 (example_hash 258)]).
  - apply two_blocks_honest.
  - reflexivity.
  - reflexivity.
  - apply pair_snd. vm_compute. reflexivity.
  - apply pair_snd. vm_compute. reflexivity.
  - apply good_block_preimage.
  - by vm_compute.
Defined.

(** The receipts cache is keyed by the requested hash but filled with a fetcher for the
    block that was returned: after an RPC has once answered with another block, [Fetch]
    returns the verified header of the requested block together with a fetcher whose
    result is the receipts of the other one. *)
Theorem receipts_of_another_block :
  let s1 := fst (client_fetch true new_client) in
  let s2 := fst (client_fetch true s1) in
  let s3 := client_use true s2 [ROpMore 0 None] in
  ∃ info txs rs, snd (client_fetch true s1) = Ok (info, txs, 0%nat) ∧ hi_hash info = example_hash 12 ∧
    snd (Fetcher_Result s3 0) = Ok rs ∧ DeriveSha_Receipts (rr_Receipt <$> rs) ≠ hi_receiptHash info.
Proof.
  intros s1 s2 s3. exists (mkHeaderInfo (example_hash 12) (example_hash 1) (zeros 20) (example_hash 2) 12 24
    (example_hash 5) (Some 1000000007) (example_hash 3) (example_hash 1)), [example_tx [x01; x02]],
    [receipt_in 13 0 (example_hash 772)].
  split_and!; [vm_compute; reflexivity..|]. by vm_compute.
Qed.
