(* ===== verification/TrieEncoding.v ===== *)
(** * Key encodings of the state trie

    l2geth/trie/encoding.go.  A key is written in three ways: its bytes; HEX, a byte per
    nibble with a terminator of value 16; and COMPACT, the hex prefix encoding of the
    nodes on disk.  The conversions are inverse to each other on the keys the trie uses,
    and no HEX key with a terminator is a prefix of another one. *)

From S2P Require Import Prelude GoErrors.

(** The nibble as an index, and the terminator. *)
Definition nib (b : byte) : nat := Z.to_nat (byte_val b).
Definition term : byte := byte_of_Z 16.

Definition hasTerm (s : bytes) : bool :=
  match last s with Some b => byte_val b =? 16 | None => false end.

(** [nibbles[ni]<<4 | nibbles[ni+1]]. *)
Definition joinNibbles (hi lo : byte) : byte :=
  byte_of_Z (Z.lor (Z.shiftl (byte_val hi) 4 mod 256) (byte_val lo)).

(** [decodeNibbles] into the buffer [buf], from index [bi] on. *)
Fixpoint decodeNibbles (nibbles : bytes) (bi : nat) (buf : bytes) : result bytes :=
  match nibbles with
  | [] => Ok buf
  | [_] => Panic "index out of range"
  | hi :: lo :: nibbles =>
      if (bi <? length buf)%nat then
        decodeNibbles nibbles (S bi) (<[bi := joinNibbles hi lo]> buf)
      else Panic "index out of range"
  end.

Definition hexToCompact (hex : bytes) : result bytes :=
  let terminator := if hasTerm hex then 1 else 0 in
  let hex := if hasTerm hex then take (length hex - 1) hex else hex in
  let flag := Z.shiftl terminator 5 in
  let size := (length hex / 2)%nat in
  match hex with
  | first :: rest =>
      if (Nat.odd (length hex)) then
        let flag := Z.lor (Z.lor flag (Z.shiftl 1 4)) (byte_val first) in
        buf ← decodeNibbles rest 0 (zeros size); Ok (byte_of_Z flag :: buf)
      else buf ← decodeNibbles hex 0 (zeros size); Ok (byte_of_Z flag :: buf)
  | [] => Ok (byte_of_Z flag :: zeros size)
  end.

Definition splitByte (b : byte) : bytes := [byte_of_Z (byte_val b / 16); byte_of_Z (byte_val b mod 16)].

Definition keybytesToHex (str : bytes) : bytes := concat (splitByte <$> str) ++ [term].

Definition compactToHex (compact : bytes) : bytes :=
  match compact with
  | [] => compact
  | _ =>
      let base := keybytesToHex compact in
      let b0 := byte_val (default x00 (head base)) in
      let base := if b0 <? 2 then take (length base - 1) base else base in
      drop (Z.to_nat (2 - Z.land b0 1)) base
  end.

Definition hexToKeybytes (hex : bytes) : result bytes :=
  let hex := if hasTerm hex then take (length hex - 1) hex else hex in
  if Nat.odd (length hex) then Panic "can't convert hex key of odd length"
  else decodeNibbles hex 0 (zeros (length hex / 2)).

Fixpoint prefixLen (a b : bytes) : nat :=
  match a, b with
  | x :: a, y :: b => if bool_decide (x = y) then S (prefixLen a b) else 0
  | _, _ => 0
  end.

(** ** Nibbles *)

(** Lists of nibbles, and the HEX form of a key. *)
Definition nibbles (k : bytes) : Prop := Forall (λ b, byte_val b < 16) k.
Definition hexkey (k : bytes) : Prop := ∃ ks, nibbles ks ∧ k = ks ++ [term].

Lemma byte_val_term : byte_val term = 16.
Proof. done. Qed.

Lemma nibbles_cons x k : nibbles (x :: k) ↔ byte_val x < 16 ∧ nibbles k.
Proof. unfold nibbles. by rewrite Forall_cons. Qed.

Lemma nibbles_app k1 k2 : nibbles (k1 ++ k2) ↔ nibbles k1 ∧ nibbles k2.
Proof. unfold nibbles. by rewrite Forall_app. Qed.

Lemma land_shift a b : 0 <= b < 16 → Z.land (Z.shiftl a 4) b = 0.
Proof.
  intros Hb. apply Z.bits_inj'. intros n Hn. rewrite Z.land_spec, Z.bits_0.
  destruct (Z.ltb_spec n 4); [by rewrite Z.shiftl_spec_low|].
  destruct (Z.eq_dec b 0) as [->|]; [by rewrite Z.bits_0, andb_false_r|].
  rewrite (Z.bits_above_log2 b n), andb_false_r; [done|lia|].
  apply Z.lt_le_trans with 4; [|done]. apply Z.log2_lt_pow2; lia.
Qed.

Lemma joinNibbles_val hi lo :
  byte_val hi < 16 → byte_val lo < 16 → byte_val (joinNibbles hi lo) = 16 * byte_val hi + byte_val lo.
Proof.
  intros Hh Hl. pose proof (byte_val_range hi). pose proof (byte_val_range lo). unfold joinNibbles.
  rewrite byte_val_of_Z, (Z.mod_small (Z.shiftl _ _)) by (rewrite Z.shiftl_mul_pow2; lia).
  pose proof (Z.add_lor_land (Z.shiftl (byte_val hi) 4) (byte_val lo)) as HE.
  rewrite land_shift in HE by lia. rewrite Z.shiftl_mul_pow2 in * by lia. rewrite Z.mod_small; lia.
Qed.

Lemma byte_val_small z : 0 <= z < 256 → byte_val (byte_of_Z z) = z.
Proof. intros Hz. by rewrite byte_val_of_Z, Z.mod_small. Qed.

Lemma splitByte_nibbles b : nibbles (splitByte b).
Proof.
  pose proof (byte_val_range b). pose proof (Z.mod_pos_bound (byte_val b) 16).
  assert (byte_val b / 16 < 16) by (apply Z.div_lt_upper_bound; lia).
  assert (0 <= byte_val b / 16) by (apply Z.div_pos; lia).
  repeat constructor; rewrite byte_val_small; lia.
Qed.

Lemma splitByte_join hi lo : nibbles [hi; lo] → splitByte (joinNibbles hi lo) = [hi; lo].
Proof.
  intros Hn. apply nibbles_cons in Hn as [Hh Hl]. apply nibbles_cons in Hl as [Hl _].
  pose proof (byte_val_range hi). pose proof (byte_val_range lo).
  unfold splitByte. rewrite joinNibbles_val by done.
  replace (16 * byte_val hi + byte_val lo) with (byte_val lo + byte_val hi * 16) by lia.
  rewrite Z.div_add, Z.mod_add, Z.div_small, Z.mod_small, Z.add_0_l by lia. by rewrite !byte_of_Z_val.
Qed.

Lemma joinNibbles_split b :
  joinNibbles (byte_of_Z (byte_val b / 16)) (byte_of_Z (byte_val b mod 16)) = b.
Proof.
  pose proof (splitByte_nibbles b) as Hn. apply nibbles_cons in Hn as [Hh Hl]. apply nibbles_cons in Hl as [Hl _].
  apply byte_val_inj. pose proof (byte_val_range b). pose proof (Z.mod_pos_bound (byte_val b) 16).
  assert (0 <= byte_val b / 16 < 16) by (split; [apply Z.div_pos|apply Z.div_lt_upper_bound]; lia).
  rewrite joinNibbles_val by done. rewrite !byte_val_small by lia. pose proof (Z.div_mod (byte_val b) 16). lia.
Qed.

(** The nibbles of a byte string. *)
Definition split (key : bytes) : bytes := concat (splitByte <$> key).

Lemma split_nibbles key : nibbles (split key).
Proof. induction key as [|b key IH]; [constructor|]. apply Forall_app_2; [apply splitByte_nibbles|done]. Qed.

Lemma length_split key : length (split key) = (2 * length key)%nat.
Proof. induction key as [|b key IH]; [done|]. unfold split in *. cbn in *. lia. Qed.

Lemma split_even_length ks : nibbles ks → Nat.even (length ks) = true → ∃ key, ks = split key.
Proof.
  induction ks as [ks IH] using (induction_ltof1 _ length). intros Hn He.
  destruct ks as [|hi [|lo ks]]; [by exists []|done|].
  apply nibbles_cons in Hn as [Hh Hn]. apply nibbles_cons in Hn as [Hl Hn].
  destruct (IH ks) as [key ->]; [unfold ltof; cbn; lia|done|done|].
  exists (joinNibbles hi lo :: key). unfold split. cbn [fmap list_fmap concat].
  by rewrite splitByte_join by (by repeat constructor).
Qed.

Lemma decodeNibbles_split key pre buf :
  (length key ≤ length buf)%nat →
  decodeNibbles (split key) (length pre) (pre ++ buf) = Ok (pre ++ key ++ drop (length key) buf).
Proof.
  revert pre buf. induction key as [|b key IH]; intros pre buf Hl; [done|].
  destruct buf as [|x buf]; [cbn in Hl; lia|]. unfold split. cbn [fmap list_fmap concat splitByte app decodeNibbles].
  rewrite (proj2 (Nat.ltb_lt _ _)) by (rewrite length_app; cbn; lia).
  rewrite joinNibbles_split, insert_app_r_alt, Nat.sub_diag by lia. cbn [insert list_insert].
  replace (S (length pre)) with (length (pre ++ [b])) by (rewrite length_app; cbn; lia).
  change (pre ++ b :: buf) with (pre ++ [b] ++ buf). rewrite app_assoc.
  rewrite IH by (cbn in Hl; lia). by rewrite <- app_assoc.
Qed.

Lemma decodeNibbles_zeros key : decodeNibbles (split key) 0 (zeros (length key)) = Ok key.
Proof.
  pose proof (decodeNibbles_split key [] (zeros (length key))) as HD. cbn [app length] in HD.
  unfold zeros in *. rewrite HD by (by rewrite length_replicate).
  by rewrite drop_ge, app_nil_r by (by rewrite length_replicate).
Qed.

Lemma hasTerm_app ks : hasTerm (ks ++ [term]) = true.
Proof. unfold hasTerm. by rewrite last_snoc. Qed.

Lemma hasTerm_nibbles ks : nibbles ks → hasTerm ks = false.
Proof.
  intros Hn. unfold hasTerm. destruct (last ks) as [b|] eqn:E; [|done].
  apply last_Some_elem_of in E. eapply Forall_forall in Hn; [|done]. apply Z.eqb_neq. lia.
Qed.

Lemma take_snoc {A} (l : list A) x : take (length (l ++ [x]) - 1) (l ++ [x]) = l.
Proof. rewrite length_app. cbn. rewrite Nat.add_sub. by rewrite take_app_length. Qed.

(** ** Round trips *)

Lemma keybytesToHex_split key : keybytesToHex key = split key ++ [term].
Proof. done. Qed.

Lemma keybytesToHex_hexkey key : hexkey (keybytesToHex key).
Proof. exists (split key). split; [apply split_nibbles|done]. Qed.

Lemma split_inj k1 k2 : split k1 = split k2 → k1 = k2.
Proof.
  intros E. pose proof (decodeNibbles_zeros k1) as H1. pose proof (decodeNibbles_zeros k2) as H2.
  assert (length k1 = length k2) as El by (apply (f_equal length) in E; rewrite !length_split in E; lia).
  rewrite E, El in H1. congruence.
Qed.

Lemma keybytesToHex_inj k1 k2 : keybytesToHex k1 = keybytesToHex k2 → k1 = k2.
Proof. rewrite !keybytesToHex_split. intros E. apply app_inv_tail in E. by apply split_inj. Qed.

(** The bytes of a key come back from its HEX form. *)
Theorem hexToKeybytes_keybytesToHex key : hexToKeybytes (keybytesToHex key) = Ok key.
Proof.
  unfold hexToKeybytes. rewrite keybytesToHex_split, hasTerm_app, take_snoc, length_split.
  rewrite Nat.odd_mul. cbn [Nat.odd Nat.even negb andb].
  rewrite Nat.mul_comm, Nat.div_mul by done. apply decodeNibbles_zeros.
Qed.

(** The compact form: the flag byte with the terminator flag and, for an odd number of
    nibbles, the first one, then the remaining nibbles in pairs. *)
Definition compact (t : bool) (odd : option byte) (key : bytes) : bytes :=
  byte_of_Z ((if t then 32 else 0) + match odd with Some b => 16 + byte_val b | None => 0 end) :: key.
Definition compact_hex (t : bool) (odd : option byte) (key : bytes) : bytes :=
  (match odd with Some b => [b] | None => [] end ++ split key) ++ (if t then [term] else []).

Lemma nibbles_cases ks : nibbles ks → ∃ odd key,
  ks = match odd with Some b => [b] | None => [] end ++ split key ∧ ∀ b, odd = Some b → byte_val b < 16.
Proof.
  intros Hn. destruct (Nat.even (length ks)) eqn:He.
  - destruct (split_even_length ks Hn He) as [key ->]. by exists None, key.
  - destruct ks as [|b ks]; [done|]. apply nibbles_cons in Hn as [Hb Hn].
    destruct (split_even_length ks Hn) as [key ->].
    { cbn [length] in He. rewrite Nat.even_succ in He. by rewrite <- Nat.negb_odd, He. }
    exists (Some b), key. split; [done|]. by intros ? [= <-].
Qed.

Lemma flag_or (t : bool) b :
  0 <= b < 16 → Z.lor (Z.lor (Z.shiftl (if t then 1 else 0) 5) (Z.shiftl 1 4)) b = (if t then 32 else 0) + (16 + b).
Proof.
  intros Hb. replace (Z.lor (Z.shiftl (if t then 1 else 0) 5) (Z.shiftl 1 4)) with (Z.shiftl (if t then 3 else 1) 4) by by destruct t.
  pose proof (Z.add_lor_land (Z.shiftl (if t then 3 else 1) 4) b) as HE. rewrite land_shift in HE by done.
  rewrite Z.shiftl_mul_pow2 in * by lia. destruct t; lia.
Qed.

Lemma hexToCompact_compact t odd key :
  (∀ b, odd = Some b → byte_val b < 16) → hexToCompact (compact_hex t odd key) = Ok (compact t odd key).
Proof.
  intros Ho. unfold hexToCompact, compact_hex. set (ks := match odd with Some b => [b] | None => [] end ++ split key).
  assert (Hn : nibbles ks).
  { unfold ks. destruct odd; cbn; [constructor; [by apply Ho|]|]; apply split_nibbles. }
  assert (Ht : hasTerm (ks ++ if t then [term] else []) = t).
  { destruct t; [apply hasTerm_app|]. rewrite app_nil_r. by apply hasTerm_nibbles. }
  rewrite Ht. replace (if t then take _ _ else _) with ks; [|by destruct t; rewrite ?take_snoc, ?app_nil_r].
  unfold ks, compact. destruct odd as [b|]; cbn [app].
  - assert (Hb : byte_val b < 16) by by apply Ho. pose proof (byte_val_range b). cbn [length].
    rewrite length_split. replace (S (2 * length key)) with (1 + length key * 2)%nat by lia.
    rewrite Nat.div_add by done. cbn [Nat.div]. rewrite Nat.odd_add, Nat.odd_mul. cbn [Nat.odd Nat.even negb].
    rewrite andb_false_r. cbn [xorb]. change (fst (Nat.divmod 1 1 0 1)) with 0%nat. cbn [Nat.add].
    rewrite decodeNibbles_zeros. cbn. by rewrite flag_or by lia.
  - rewrite length_split, Nat.mul_comm, Nat.div_mul by done. destruct (split key) as [|x xs] eqn:E.
    + destruct key; [|done]. by destruct t.
    + rewrite <- E, Nat.odd_mul. cbn [Nat.odd Nat.even negb]. rewrite andb_false_r, decodeNibbles_zeros.
      cbn. by destruct t.
Qed.

Lemma compactToHex_compact t odd key :
  (∀ b, odd = Some b → byte_val b < 16) → compactToHex (compact t odd key) = compact_hex t odd key.
Proof.
  intros Ho. unfold compactToHex, compact. set (fl := (_ + _)). rewrite keybytesToHex_split.
  unfold split. cbn [fmap list_fmap concat]. fold (split key). unfold splitByte. cbn [app head default from_option id].
  assert (Hfl : 0 <= fl < 64 ∧ fl / 16 = (if t then 2 else 0) + match odd with Some _ => 1 | None => 0 end ∧
                fl mod 16 = match odd with Some b => byte_val b | None => 0 end).
  { unfold fl. destruct odd as [b|]; [assert (byte_val b < 16) by (by apply Ho); pose proof (byte_val_range b)|].
    - assert (Z.lt (byte_val b) 16) by done. split; [destruct t; lia|].
      replace ((if t then 32 else 0) + (16 + byte_val b)) with (byte_val b + ((if t then 2 else 0) + 1) * 16) by (destruct t; lia).
      rewrite Z.div_add, Z.mod_add, Z.div_small, Z.mod_small by lia. by destruct t.
    - by destruct t. }
  destruct Hfl as (Hr & Hd & Hm). rewrite (byte_val_small fl) by lia. rewrite Hd, Hm.
  rewrite byte_val_small by (by destruct t, odd). unfold compact_hex.
  destruct t, odd as [b|]; cbn -[take drop byte_of_Z]; rewrite ?byte_of_Z_val.
  1,2: done.
  all: rewrite app_nil_r, length_app, Nat.add_1_r; cbn; by rewrite take_app_length.
Qed.

(** The hex prefix encoding loses nothing: a path of nibbles, with or without a
    terminator, is encoded without a panic and comes back. *)
Theorem compactToHex_hexToCompact ks (t : bool) :
  nibbles ks →
  ∃ c, hexToCompact (ks ++ if t then [term] else []) = Ok c ∧ c ≠ [] ∧
       compactToHex c = ks ++ if t then [term] else [].
Proof.
  intros Hn. destruct (nibbles_cases ks Hn) as (odd & key & -> & Ho). exists (compact t odd key).
  split_and!; [by apply (hexToCompact_compact t odd key)|done|by apply compactToHex_compact].
Qed.

(** ** Common prefixes *)

Lemma prefixLen_spec a b :
  ∃ p a' b', a = p ++ a' ∧ b = p ++ b' ∧ prefixLen a b = length p ∧
    (∀ x y xs ys, a' = x :: xs → b' = y :: ys → x ≠ y).
Proof.
  revert b. induction a as [|x a IH]; intros b; [by exists [], [], b|].
  destruct b as [|y b]; [by exists [], (x :: a), []|]. cbn. case_bool_decide as E.
  - subst. destruct (IH b) as (p & a' & b' & -> & -> & -> & Hne). by exists (y :: p), a', b'.
  - exists [], (x :: a), (y :: b). split_and!; try done. intros ???? [= <- _] [= <- _]. done.
Qed.

(** Keys in HEX form are prefix free. *)
Lemma hexkey_prefix k1 k2 : hexkey k1 → hexkey (k1 ++ k2) → k2 = [].
Proof.
  intros (ks1 & Hn1 & ->) (ks2 & Hn2 & E). destruct k2 as [|x k2] using rev_ind; [done|]. clear IHk2.
  rewrite app_assoc in E. apply app_inj_tail in E as [E _]. subst ks2.
  rewrite <- app_assoc in Hn2. apply Forall_app in Hn2 as [_ Hn2]. apply nibbles_cons in Hn2 as [Ht _].
  by rewrite byte_val_term in Ht.
Qed.

Lemma hexkey_cons x k : hexkey (x :: k) → (x = term ∧ k = []) ∨ (byte_val x < 16 ∧ hexkey k).
Proof.
  intros (ks & Hn & E). destruct ks as [|y ks]; cbn in E; injection E as -> ->; [by left|].
  apply nibbles_cons in Hn as [Hy Hn]. right. split; [done|]. by exists ks.
Qed.

Lemma hexkey_app ks k : nibbles ks → hexkey k → hexkey (ks ++ k).
Proof. intros Hn (ks' & Hn' & ->). exists (ks ++ ks'). rewrite <- app_assoc. split; [|done]. by apply Forall_app_2. Qed.

Lemma hexkey_nonempty k : hexkey k → k ≠ [].
Proof. intros (ks & _ & ->). by destruct ks. Qed.

Lemma hexkey_term : hexkey [term].
Proof. exists []. split; [constructor|done]. Qed.

Lemma nibbles_not_hexkey k : nibbles k → ¬ hexkey k.
Proof. intros Hn (ks & _ & ->). apply nibbles_app in Hn as [_ Hn]. by apply nibbles_cons in Hn as [? _]. Qed.
