(* ===== verification/Trie.v ===== *)
(** * The state trie

    l2geth/trie/trie.go and node.go: the Merkle Patricia trie that holds the accounts and
    the storage of the L2 state.  Nodes are kept in memory or, once committed, as hashes
    that are resolved in the node database when a path runs into them.  The operations
    are shown to act as those of a finite map from byte strings to byte strings, whatever
    part of the trie is loaded; tries are kept in a canonical form, so that what a trie
    looks like depends only on its contents and not on the operations that led to it. *)

From S2P Require Import Prelude GoErrors TrieEncoding.

(** ** Nodes *)

Record nodeFlag := mkFlag { fl_hash : option bytes; fl_dirty : bool }.

#[warnings="-register-all"]
Inductive node :=
| nilNode
| fullNode (Children : list node) (flags : nodeFlag)
| shortNode (Key : bytes) (Val : node) (flags : nodeFlag)
| hashNode (hash : bytes)
| valueNode (value : bytes).

#[export] Instance nilNode_dec n : Decision (n = nilNode).
Proof. destruct n; [by left|by right..]. Defined.

(** Results: a value, a [MissingNodeError] with the hash and the path, or a panic. *)
Inductive tres (A : Type) := TOk (a : A) | TMissing (hash path : bytes) | TPanic (msg : string).
Arguments TOk {A} a.
Arguments TMissing {A} hash path.
Arguments TPanic {A} msg.

#[export] Instance tres_bind : MBind tres := λ A B f r,
  match r with TOk a => f a | TMissing h p => TMissing h p | TPanic s => TPanic s end.

(** [common.BytesToHash]. *)
Definition BytesToHash (b : bytes) : bytes :=
  let b := drop (length b - 32) b in zeros (32 - length b) ++ b.

Definition newFlag : nodeFlag := mkFlag None true.

Definition getChild (cs : list node) (b : byte) : tres node :=
  match cs !! nib b with Some c => TOk c | None => TPanic "index out of range" end.
Definition setChild (cs : list node) (b : byte) (c : node) : tres (list node) :=
  if (nib b <? length cs)%nat then TOk (<[nib b := c]> cs) else TPanic "index out of range".
Definition keyAt (key : bytes) (pos : nat) : tres byte :=
  match key !! pos with Some b => TOk b | None => TPanic "index out of range" end.

(** The loop of [delete] over the children: the index of the only one, if there is
    exactly one. *)
Fixpoint onlyChild_loop (cs : list node) (i : nat) (pos : option nat) : option nat :=
  match cs with
  | [] => pos
  | nilNode :: cs => onlyChild_loop cs (S i) pos
  | _ :: cs => match pos with None => onlyChild_loop cs (S i) (Some i) | Some _ => None end
  end.
Definition onlyChild (cs : list node) : option nat := onlyChild_loop cs 0 None.

(** What the node database returns for a hash: a node, nothing, or a panic on a blob that
    cannot be decoded. *)
Inductive fetched := Found (n : node) | NotFound | Undecodable (msg : string).

Section Trie.
(** The node database. *)
Context (db_node : bytes → fetched).

Definition resolveHash (h prefix : bytes) : tres node :=
  match db_node (BytesToHash h) with
  | Found n => TOk n
  | NotFound => TMissing (BytesToHash h) prefix
  | Undecodable msg => TPanic msg
  end.

Definition resolve (n : node) (prefix : bytes) : tres node :=
  match n with hashNode h => resolveHash h prefix | _ => TOk n end.

(** The value, the node with what was loaded on the way, and whether anything was. *)
Fixpoint tryGet (fuel : nat) (origNode : node) (key : bytes) (pos : nat)
  : tres (option bytes * node * bool) :=
  match fuel with
  | O => TPanic "out of fuel"
  | S fuel =>
      match origNode with
      | nilNode => TOk (None, nilNode, false)
      | valueNode v => TOk (Some v, origNode, false)
      | shortNode nKey nVal flags =>
          if (length key - pos <? length nKey)%nat ||
             negb (bool_decide (nKey = slice pos (pos + length nKey) key)) then
            TOk (None, origNode, false)
          else
            '(value, newnode, didResolve) ← tryGet fuel nVal key (pos + length nKey);
            TOk (value, if didResolve : bool then shortNode nKey newnode flags else origNode, didResolve)
      | fullNode cs flags =>
          b ← keyAt key pos;
          c ← getChild cs b;
          '(value, newnode, didResolve) ← tryGet fuel c key (S pos);
          TOk (value, if didResolve : bool then fullNode (<[nib b := newnode]> cs) flags else origNode,
               didResolve)
      | hashNode h =>
          child ← resolveHash h (take pos key);
          '(value, newnode, _) ← tryGet fuel child key pos;
          TOk (value, newnode, true)
      end
  end.

(** Whether the trie has changed, and the new node. *)
Fixpoint insert (fuel : nat) (n : node) (prefix key : bytes) (value : node) : tres (bool * node) :=
  match fuel with
  | O => TPanic "out of fuel"
  | S fuel =>
      match key with
      | [] =>
          match n, value with
          | valueNode v, valueNode v' => TOk (negb (bool_decide (v = v')), value)
          | valueNode _, _ => TPanic "interface conversion"
          | _, _ => TOk (true, value)
          end
      | k0 :: krest =>
          match n with
          | shortNode nKey nVal flags =>
              let matchlen := prefixLen key nKey in
              if (matchlen =? length nKey)%nat then
                '(dirty, nn) ← insert fuel nVal (prefix ++ take matchlen key) (drop matchlen key) value;
                if negb dirty then TOk (false, n) else TOk (true, shortNode nKey nn newFlag)
              else
                nb ← keyAt nKey matchlen;
                '(_, c) ← insert fuel nilNode (prefix ++ take (S matchlen) nKey)
                            (drop (S matchlen) nKey) nVal;
                cs ← setChild (replicate 17 nilNode) nb c;
                kb ← keyAt key matchlen;
                '(_, c) ← insert fuel nilNode (prefix ++ take (S matchlen) key)
                            (drop (S matchlen) key) value;
                cs ← setChild cs kb c;
                let branch := fullNode cs newFlag in
                if (matchlen =? 0)%nat then TOk (true, branch)
                else TOk (true, shortNode (take matchlen key) branch newFlag)
          | fullNode cs flags =>
              c ← getChild cs k0;
              '(dirty, nn) ← insert fuel c (prefix ++ [k0]) krest value;
              if negb dirty then TOk (false, n)
              else TOk (true, fullNode (<[nib k0 := nn]> cs) newFlag)
          | nilNode => TOk (true, shortNode key value newFlag)
          | hashNode h =>
              rn ← resolveHash h prefix;
              '(dirty, nn) ← insert fuel rn prefix key value;
              if negb dirty then TOk (false, rn) else TOk (true, nn)
          | valueNode _ => TPanic "invalid node"
          end
      end
  end.

(** [delete] once the child has been removed from a full node: a full node with one
    child left becomes a short node, and is merged with the child if that is a short
    node, for which it may have to be loaded. *)
Definition reduceFull (cs : list node) (prefix : bytes) : tres (bool * node) :=
  match onlyChild cs with
  | Some pos =>
      let child := default nilNode (cs !! pos) in
      let one := shortNode [byte_of_Z (Z.of_nat pos)] child newFlag in
      if (pos =? 16)%nat then TOk (true, one)
      else
        cnode ← resolve child prefix;
        match cnode with
        | shortNode cKey cVal _ =>
            TOk (true, shortNode (byte_of_Z (Z.of_nat pos) :: cKey) cVal newFlag)
        | _ => TOk (true, one)
        end
  | None => TOk (true, fullNode cs newFlag)
  end.

Fixpoint delete (fuel : nat) (n : node) (prefix key : bytes) : tres (bool * node) :=
  match fuel with
  | O => TPanic "out of fuel"
  | S fuel =>
      match n with
      | shortNode nKey nVal flags =>
          let matchlen := prefixLen key nKey in
          if (matchlen <? length nKey)%nat then TOk (false, n)
          else if (matchlen =? length key)%nat then TOk (true, nilNode)
          else
            '(dirty, child) ← delete fuel nVal (prefix ++ take (length nKey) key)
                                (drop (length nKey) key);
            if negb dirty then TOk (false, n)
            else match child with
                 | shortNode cKey cVal _ => TOk (true, shortNode (nKey ++ cKey) cVal newFlag)
                 | _ => TOk (true, shortNode nKey child newFlag)
                 end
      | fullNode cs flags =>
          k0 ← keyAt key 0;
          c ← getChild cs k0;
          '(dirty, nn) ← delete fuel c (prefix ++ [k0]) (drop 1 key);
          if negb dirty then TOk (false, n)
          else
            reduceFull (<[nib k0 := nn]> cs) prefix
      | valueNode _ => TOk (true, nilNode)
      | nilNode => TOk (false, nilNode)
      | hashNode h =>
          rn ← resolveHash h prefix;
          '(dirty, nn) ← delete fuel rn prefix key;
          if negb dirty then TOk (false, rn) else TOk (true, nn)
      end
  end.

(** ** The trie *)

(** Recursion depth for a key: two steps per nibble, one of them to load a node. *)
Definition fuel_for (key : bytes) : nat := 2 * length key + 2.

Definition TryGet (root : node) (key : bytes) : tres (option bytes * node) :=
  let key := keybytesToHex key in
  '(value, newroot, didResolve) ← tryGet (fuel_for key) root key 0;
  TOk (value, if didResolve : bool then newroot else root).

Definition TryUpdate (root : node) (key value : bytes) : tres node :=
  let k := keybytesToHex key in
  '(_, n) ← insert (fuel_for k) root [] k (valueNode value); TOk n.

Definition TryDelete (root : node) (key : bytes) : tres node :=
  let k := keybytesToHex key in
  '(_, n) ← delete (fuel_for k) root [] k; TOk n.
End Trie.

(** The known root hash of an empty trie. *)
Definition emptyRoot : bytes :=
  be_encode 32 0x56e81f171bcc55a6ff8345e692c0f86e5b48e01b996cadc001622fb5e363b421.

(** [New]: the empty trie for the zero hash or the hash of the empty trie, else the node
    with that hash. *)
Definition New (db_node : bytes → fetched) (root : bytes) : tres node :=
  if bool_decide (root = zeros 32) || bool_decide (root = emptyRoot) then TOk nilNode
  else resolveHash db_node root [].

(** ** Contents *)

(** A trie with everything loaded and without cached hashes. *)
#[warnings="-register-all"]
Inductive ptrie :=
| PNil
| PFull (children : list ptrie)
| PShort (key : bytes) (child : ptrie)
| PValue (value : bytes).

(** What a trie holds under a HEX key. *)
Fixpoint pget (t : ptrie) (key : bytes) {struct t} : option bytes :=
  match t with
  | PNil => None
  | PValue v => match key with [] => Some v | _ => None end
  | PShort k c => if bool_decide (k = take (length k) key) then pget c (drop (length k) key) else None
  | PFull cs =>
      match key with
      | [] => None
      | b :: key =>
          (fix child (cs : list ptrie) (i : nat) : option bytes :=
             match cs, i with
             | [], _ => None
             | c :: _, O => pget c key
             | _ :: cs, S i => child cs i
             end) cs (nib b)
      end
  end.

Definition is_value (t : ptrie) : Prop := match t with PValue _ => True | _ => False end.
Definition is_full (t : ptrie) : Prop := match t with PFull _ => True | _ => False end.
Definition is_short (t : ptrie) : Prop := match t with PShort _ _ => True | _ => False end.

(** At least two children. *)
Definition two (cs : list ptrie) : Prop :=
  ∃ i j ci cj, i ≠ j ∧ cs !! i = Some ci ∧ cs !! j = Some cj ∧ ci ≠ PNil ∧ cj ≠ PNil.

(** The canonical form of a trie that is not empty: leaves have a key with terminator,
    other short nodes lead to a full node; full nodes have at least two children, and a
    value only in the last place. *)
Fixpoint wf (t : ptrie) : Prop :=
  match t with
  | PNil | PValue _ => False
  | PShort k c =>
      match c with
      | PValue _ => hexkey k
      | PFull _ => k ≠ [] ∧ nibbles k ∧ wf c
      | _ => False
      end
  | PFull cs =>
      length cs = 17%nat ∧ two cs ∧
      (fix children (i : nat) (cs : list ptrie) : Prop :=
         match cs with
         | [] => True
         | c :: cs => (c = PNil ∨ ((i < 16)%nat ∧ wf c) ∨ (i = 16%nat ∧ is_value c)) ∧ children (S i) cs
         end) 0%nat cs
  end.

Definition child_ok (i : nat) (c : ptrie) : Prop :=
  c = PNil ∨ ((i < 16)%nat ∧ wf c) ∨ (i = 16%nat ∧ is_value c).

Lemma ptrie_nested_ind (P : ptrie → Prop) :
  P PNil → (∀ v, P (PValue v)) → (∀ k c, P c → P (PShort k c)) →
  (∀ cs, Forall P cs → P (PFull cs)) → ∀ t, P t.
Proof.
  intros Hn Hv Hs Hf. fix IH 1. intros [|cs|k c|v]; [done| |by apply Hs|done].
  apply Hf. induction cs as [|c cs IHcs]; constructor; [apply IH|done].
Qed.

Lemma pget_full cs b key :
  pget (PFull cs) (b :: key) = match cs !! nib b with Some c => pget c key | None => None end.
Proof.
  cbn [pget]. generalize (nib b) as i. induction cs as [|c cs IH]; intros i; [done|].
  destruct i as [|i]; [done|]. apply IH.
Qed.

Lemma wf_full cs :
  wf (PFull cs) ↔ length cs = 17%nat ∧ two cs ∧ ∀ i c, cs !! i = Some c → child_ok i c.
Proof.
  cbn [wf]. match goal with |- context [?f 0%nat cs] => set (ch := f) end.
  assert (Hch : ∀ cs n, ch n cs ↔ ∀ i c, cs !! i = Some c → child_ok (n + i) c).
  { clear cs. induction cs as [|c cs IH]; intros n; cbn; [split; [done|by intros]|].
    rewrite IH. split.
    - intros [Hc Hcs] [|i] c' Hi; cbn in Hi; [injection Hi as <-; by rewrite Nat.add_0_r|].
      rewrite Nat.add_succ_r. by apply (Hcs i).
    - intros HA. split; [pose proof (HA 0%nat c eq_refl) as H0; by rewrite Nat.add_0_r in H0|].
      intros i c' Hi. pose proof (HA (S i) c' Hi) as HS. by rewrite Nat.add_succ_r in HS. }
  by rewrite (Hch cs 0%nat).
Qed.

(** Keys below a short node start with its key. *)
Lemma pget_short k c key v :
  pget (PShort k c) key = Some v ↔ ∃ rest, key = k ++ rest ∧ pget c rest = Some v.
Proof.
  cbn [pget]. case_bool_decide as E.
  - split; [intros Hg; exists (drop (length k) key); rewrite E at 1; by rewrite take_drop|].
    intros (rest & -> & Hg). by rewrite drop_app_length.
  - split; [done|]. intros (rest & -> & _). by rewrite take_app_length in E.
Qed.

Lemma pget_short_app k c rest : pget (PShort k c) (k ++ rest) = pget c rest.
Proof. cbn [pget]. rewrite take_app_length, drop_app_length. by rewrite bool_decide_eq_true_2. Qed.

Lemma pget_short_None k c key : (∀ rest, key ≠ k ++ rest) → pget (PShort k c) key = None.
Proof.
  intros Hne. cbn [pget]. case_bool_decide as E; [|done]. destruct (Hne (drop (length k) key)).
  rewrite E at 1. by rewrite take_drop.
Qed.

Lemma nib_term : nib term = 16%nat.
Proof. done. Qed.

Lemma nib_lt b : byte_val b < 16 ↔ (nib b < 16)%nat.
Proof. unfold nib. pose proof (byte_val_range b). lia. Qed.

Lemma nib_inj b1 b2 : nib b1 = nib b2 → b1 = b2.
Proof. unfold nib. pose proof (byte_val_range b1). pose proof (byte_val_range b2). intros. apply byte_val_inj. lia. Qed.

Lemma nib_of_nat i : (i < 17)%nat → nib (byte_of_Z (Z.of_nat i)) = i.
Proof. intros Hi. unfold nib. rewrite byte_val_small by lia. lia. Qed.

(** ** Canonicity *)

(** Every canonical trie holds something, under HEX keys only. *)
Lemma wf_hexkey t key v : wf t → pget t key = Some v → hexkey key.
Proof.
  revert key. induction t as [|v'|k c IH|cs IH] using ptrie_nested_ind; intros key Hw Hg; try done.
  - apply pget_short in Hg as (rest & -> & Hg). cbn [wf] in Hw. destruct c; try done.
    + destruct Hw as (_ & Hn & Hw). apply hexkey_app; [done|]. by apply IH.
    + destruct rest; [|done]. by rewrite app_nil_r.
  - apply wf_full in Hw as (_ & _ & Hc). destruct key as [|b key]; [done|]. rewrite pget_full in Hg.
    destruct (cs !! nib b) as [c|] eqn:Ec; [|done]. rewrite Forall_lookup in IH.
    destruct (Hc _ _ Ec) as [->|[[Hlt Hw]|[Hi Hv]]]; [done| |].
    + apply (hexkey_app [b]); [repeat constructor; by apply nib_lt|by eapply IH].
    + destruct c; try done. destruct key; [|done]. assert (b = term) as -> by (by apply nib_inj).
      apply hexkey_term.
Qed.

Lemma wf_nonempty t : wf t → ∃ key v, pget t key = Some v.
Proof.
  induction t as [|v'|k c IH|cs IH] using ptrie_nested_ind; intros Hw; try done.
  - cbn [wf] in Hw. destruct c as [|cs|k' c'|v]; try done.
    + destruct Hw as (_ & _ & Hw). destruct (IH Hw) as (key & v & Hg). exists (k ++ key), v. by rewrite pget_short_app.
    + exists (k ++ []), v. by rewrite pget_short_app.
  - apply wf_full in Hw as (Hl & (i & _ & ci & _ & _ & Hi & _ & Hn & _) & Hc). rewrite Forall_lookup in IH.
    assert (Hlt : (i < 17)%nat) by (rewrite <- Hl; by eapply lookup_lt_Some).
    assert (Hne : ∃ key v, pget ci key = Some v).
    { destruct (Hc _ _ Hi) as [?|[[_ Hw]|[_ Hv]]]; [done|by eapply IH|]. destruct ci; try done. by eexists [], _. }
    destruct Hne as (key & v & Hg). exists (byte_of_Z (Z.of_nat i) :: key), v.
    by rewrite pget_full, nib_of_nat, Hi.
Qed.

Lemma child_nonempty i c : child_ok i c → c ≠ PNil → ∃ key v, pget c key = Some v.
Proof.
  intros [?|[[_ Hw]|[_ Hv]]] Hn; [done|by apply wf_nonempty|]. destruct c; try done. by eexists [], _.
Qed.

(** A full node holds keys that differ in the first nibble. *)
Lemma full_two_keys cs : wf (PFull cs) → ∃ b1 b2 k1 k2 v1 v2,
  b1 ≠ b2 ∧ pget (PFull cs) (b1 :: k1) = Some v1 ∧ pget (PFull cs) (b2 :: k2) = Some v2.
Proof.
  intros (Hl & (i & j & ci & cj & Hij & Hi & Hj & Hni & Hnj) & Hc)%wf_full.
  destruct (child_nonempty _ _ (Hc _ _ Hi) Hni) as (k1 & v1 & H1).
  destruct (child_nonempty _ _ (Hc _ _ Hj) Hnj) as (k2 & v2 & H2).
  assert ((i < 17)%nat ∧ (j < 17)%nat) as [Hil Hjl] by (rewrite <- Hl; by split; eapply lookup_lt_Some).
  exists (byte_of_Z (Z.of_nat i)), (byte_of_Z (Z.of_nat j)), k1, k2, v1, v2.
  split; [|by rewrite !pget_full, !nib_of_nat, Hi, Hj by done].
  intros E. apply (f_equal nib) in E. by rewrite !nib_of_nat in E.
Qed.

(** If all keys of a trie start with [k1] and with [k2], and there are two that differ
    right after [k1], then [k2] is not longer than [k1]. *)
Lemma short_keys k1 cs k2 c2 :
  wf (PFull cs) → (∀ key, pget (PShort k1 (PFull cs)) key = pget (PShort k2 c2) key) → k2 `prefix_of` k1.
Proof.
  intros Hw He. destruct (full_two_keys cs Hw) as (b1 & b2 & r1 & r2 & v1 & v2 & Hne & H1 & H2).
  assert (Hp : ∀ b r v, pget (PFull cs) (b :: r) = Some v → ∃ rest, k1 ++ b :: r = k2 ++ rest).
  { intros b r v Hg. rewrite <- (pget_short_app k1) in Hg. rewrite He in Hg.
    apply pget_short in Hg as (rest & E & _). by exists rest. }
  destruct (Hp _ _ _ H1) as [s1 E1]. destruct (Hp _ _ _ H2) as [s2 E2].
  destruct (app_eq_inv _ _ _ _ E1) as [(k & Ek & _)|(k & Ek & Es)]; [by exists k|].
  destruct k as [|x k]; [exists []; by rewrite app_nil_r in *|].
  subst k2. rewrite <- app_assoc in E2. apply app_inv_head in E2. cbn in Es, E2. congruence.
Qed.

Lemma full_not_short cs k c :
  wf (PFull cs) → wf (PShort k c) → ¬ (∀ key, pget (PFull cs) key = pget (PShort k c) key).
Proof.
  intros Hw1 Hw2 He. destruct (full_two_keys cs Hw1) as (b1 & b2 & r1 & r2 & v1 & v2 & Hne & H1 & H2).
  rewrite He in H1, H2. apply pget_short in H1 as (s1 & E1 & _). apply pget_short in H2 as (s2 & E2 & _).
  destruct k as [|x k]; [|cbn in *; congruence].
  cbn [wf] in Hw2. destruct c; try done; [by destruct Hw2 as [? _]|]. by apply hexkey_nonempty in Hw2.
Qed.

Lemma ext_not_leaf k cs k' v :
  wf (PFull cs) → ¬ (∀ key, pget (PShort k (PFull cs)) key = pget (PShort k' (PValue v)) key).
Proof.
  intros Hw He. destruct (full_two_keys cs Hw) as (b1 & b2 & r1 & r2 & w1 & w2 & Hne & H1 & H2).
  rewrite <- (pget_short_app k) in H1, H2. rewrite He in H1, H2.
  apply pget_short in H1 as (s1 & E1 & G1). apply pget_short in H2 as (s2 & E2 & G2).
  destruct s1, s2; try done. rewrite <- E2 in E1. apply app_inv_head in E1. congruence.
Qed.

(** Short nodes with the same contents have the same key. *)
Lemma short_key_unique k1 c1 k2 c2 :
  wf (PShort k1 c1) → wf (PShort k2 c2) → (∀ key, pget (PShort k1 c1) key = pget (PShort k2 c2) key) → k1 = k2.
Proof.
  intros Hw1 Hw2 He. cbn [wf] in Hw1, Hw2.
  destruct c1 as [|cs1|?|v1]; try done; destruct c2 as [|cs2|?|v2]; try done.
  - destruct Hw1 as (_ & _ & Hw1), Hw2 as (_ & _ & Hw2). apply (anti_symm prefix).
    + eapply short_keys; [apply Hw2|]. intros key. by rewrite He.
    + by eapply short_keys; [apply Hw1|].
  - destruct Hw1 as (_ & _ & Hw1). by destruct (ext_not_leaf k1 cs1 k2 v2 Hw1).
  - destruct Hw2 as (_ & _ & Hw2). destruct (ext_not_leaf k2 cs2 k1 v1 Hw2). intros key. by rewrite He.
  - assert (Hg : pget (PShort k1 (PValue v1)) (k1 ++ []) = Some v1) by by rewrite pget_short_app.
    rewrite He in Hg. apply pget_short in Hg as (s & E & G). destruct s; [|done]. by rewrite !app_nil_r in E.
Qed.

(** Canonical tries with the same contents are the same trie. *)
Lemma wf_unique t1 t2 : wf t1 → wf t2 → (∀ key, pget t1 key = pget t2 key) → t1 = t2.
Proof.
  revert t2. induction t1 as [|v'|k1 c1 IH|cs1 IH] using ptrie_nested_ind; intros t2 Hw1 Hw2 He; try done.
  - destruct t2 as [|cs2|k2 c2|v2]; try done; [by destruct (full_not_short cs2 k1 c1)|].
    pose proof (short_key_unique _ _ _ _ Hw1 Hw2 He) as <-. f_equal.
    assert (Hc : ∀ key, pget c1 key = pget c2 key) by (intros key; by rewrite <- (pget_short_app k1), He, pget_short_app).
    cbn [wf] in Hw1, Hw2. destruct c1 as [|cs1|?|v1]; try done; destruct c2 as [|cs2|?|v2]; try done.
    + by apply IH; [apply Hw1|apply Hw2|].
    + destruct Hw1 as (_ & Hn & _). by apply nibbles_not_hexkey in Hn.
    + destruct Hw2 as (_ & Hn & _). by apply nibbles_not_hexkey in Hn.
    + specialize (Hc []). cbn in Hc. congruence.
  - destruct t2 as [|cs2|k2 c2|v2]; try done; [|by destruct (full_not_short cs1 k2 c2)].
    f_equal. apply wf_full in Hw1 as (Hl1 & _ & Hc1), Hw2 as (Hl2 & _ & Hc2). rewrite Forall_lookup in IH.
    apply list_eq. intros i. destruct (cs1 !! i) as [c1|] eqn:E1;
      [|symmetry; apply lookup_ge_None; apply lookup_ge_None in E1; lia].
    assert (Hi : (i < 17)%nat) by (rewrite <- Hl1; by eapply lookup_lt_Some).
    destruct (lookup_lt_is_Some_2 cs2 i) as [c2 E2]; [lia|]. rewrite E2. f_equal.
    assert (Hc : ∀ key, pget c1 key = pget c2 key).
    { intros key. pose proof (He (byte_of_Z (Z.of_nat i) :: key)) as Hk.
      by rewrite !pget_full, !nib_of_nat, E1, E2 in Hk. }
    destruct (Hc1 _ _ E1) as [->|[[Hlt Hw]|[-> Hv]]], (Hc2 _ _ E2) as [->|[[Hlt' Hw']|[? Hv']]]; try done; try lia.
    + destruct (wf_nonempty _ Hw') as (key & v & Hg). by rewrite <- Hc in Hg.
    + destruct c2; try done. by specialize (Hc []).
    + destruct (wf_nonempty _ Hw) as (key & v & Hg). by rewrite Hc in Hg.
    + by eapply IH.
    + destruct c1; try done. by specialize (Hc []).
    + destruct c1, c2; try done. specialize (Hc []). cbn in Hc. congruence.
Qed.

(** ** Updates of the contents *)

(** [t'] holds [r] under [key], and is like [t] everywhere else. *)
Definition updated (t : ptrie) (key : bytes) (r : option bytes) (t' : ptrie) : Prop :=
  ∀ k, pget t' k = if decide (k = key) then r else pget t k.

Lemma updated_same t key r : pget t key = r → updated t key r t.
Proof. intros Hg k. by destruct (decide (k = key)) as [->|]. Qed.

Lemma updated_short p c key r c' : updated c key r c' → updated (PShort p c) (p ++ key) r (PShort p c').
Proof.
  intros Hu k. destruct (decide (p `prefix_of` k)) as [[rest ->]|Hn].
  - rewrite !pget_short_app, Hu. destruct (decide (rest = key)) as [->|Hne].
    + by rewrite decide_True.
    + rewrite decide_False; [done|]. intros E. by apply app_inv_head in E.
  - assert (Hne : ∀ rest, k ≠ p ++ rest) by (intros rest ->; apply Hn; by exists rest).
    rewrite !pget_short_None by done. by rewrite decide_False.
Qed.

Lemma updated_leaf key v : updated PNil key (Some v) (PShort key (PValue v)).
Proof.
  intros k. assert (Hu : updated PNil [] (Some v) (PValue v)) by by intros [|x k'].
  apply (updated_short key) in Hu. rewrite app_nil_r in Hu. rewrite Hu. case_decide; [done|].
  destruct (pget (PShort key PNil) k) eqn:E; [|done]. by apply pget_short in E as (rest & _ & ?).
Qed.

Lemma updated_child ts b c key r c' :
  ts !! nib b = Some c → updated c key r c' → updated (PFull ts) (b :: key) r (PFull (<[nib b := c']> ts)).
Proof.
  intros Hb Hu [|x k]; [done|]. rewrite !pget_full. destruct (decide (x = b)) as [->|Hne].
  - rewrite list_lookup_insert_eq by (by eapply lookup_lt_Some). rewrite Hb, Hu.
    destruct (decide (k = key)) as [->|]; [by rewrite decide_True|rewrite decide_False; [done|congruence]].
  - rewrite list_lookup_insert_ne by (intros E; by apply nib_inj in E). rewrite decide_False; [done|congruence].
Qed.

(** A short node without a key stands for its child. *)
Definition mkShort (k : bytes) (t : ptrie) : ptrie := match k with [] => t | _ => PShort k t end.

Lemma pget_mkShort k t key : pget (mkShort k t) key = pget (PShort k t) key.
Proof. by destruct k. Qed.

Lemma pget_short_short p q c key : pget (PShort p (PShort q c)) key = pget (PShort (p ++ q) c) key.
Proof.
  apply option_eq. intros v. rewrite !pget_short. split.
  - intros (r & -> & (r' & -> & Hg)%pget_short). exists r'. by rewrite app_assoc.
  - intros (r & -> & Hg). exists (q ++ r). rewrite app_assoc. split; [done|]. by rewrite pget_short_app.
Qed.

(** The branch at the point where two keys part. *)
Definition branch2 (nb : byte) (c1 : ptrie) (kb : byte) (c2 : ptrie) : list ptrie :=
  <[nib kb := c2]> (<[nib nb := c1]> (replicate 17 PNil)).

Lemma branch2_lookup nb c1 kb c2 i :
  (nib nb < 17)%nat → (nib kb < 17)%nat →
  branch2 nb c1 kb c2 !! i =
  if decide (i = nib kb) then Some c2 else if decide (i = nib nb) then Some c1
  else if decide (i < 17)%nat then Some PNil else None.
Proof.
  intros Hn Hk. unfold branch2. destruct (decide (i = nib kb)) as [->|Hne].
  - by rewrite list_lookup_insert_eq by (rewrite length_insert, length_replicate; lia).
  - rewrite list_lookup_insert_ne by done. destruct (decide (i = nib nb)) as [->|Hne'].
    + by rewrite list_lookup_insert_eq by (rewrite length_replicate; lia).
    + rewrite list_lookup_insert_ne by done. destruct (decide (i < 17)%nat).
      * by rewrite lookup_replicate_2.
      * apply lookup_replicate_None. lia.
Qed.

Lemma updated_branch nb nr tv kb kr v :
  nb ≠ kb → (nib nb < 17)%nat → (nib kb < 17)%nat →
  updated (PShort (nb :: nr) tv) (kb :: kr) (Some v)
    (PFull (branch2 nb (mkShort nr tv) kb (mkShort kr (PValue v)))).
Proof.
  intros Hne Hn Hk [|x k]; [by cbn|]. rewrite pget_full, branch2_lookup by done.
  change (nb :: nr) with ([nb] ++ nr). rewrite <- pget_short_short.
  destruct (decide (nib x = nib kb)) as [Ex%nib_inj|Hx].
  - subst x. rewrite pget_mkShort. rewrite (pget_short_None [nb]) by (intros rest E; cbn in E; congruence).
    destruct (decide (kb :: k = kb :: kr)) as [[= ->]|Hne'].
    + rewrite <- (app_nil_r kr) at 2. by rewrite pget_short_app.
    + destruct (pget (PShort kr (PValue v)) k) eqn:E; [|done]. apply pget_short in E as (rest & -> & E).
      destruct rest; [|done]. by rewrite app_nil_r in Hne'.
  - rewrite (decide_False (P := x :: k = kb :: kr)) by (intros [= E _]; by rewrite E in Hx). destruct (decide (nib x = nib nb)) as [Ex%nib_inj|Hx'].
    + subst x. rewrite pget_mkShort. by rewrite (pget_short_app [nb] _ k).
    + rewrite pget_short_None by (intros rest [= E _]; by rewrite E in Hx'). by case_decide.
Qed.

(** ** Representation *)

Section Rep.
Context (db_node : bytes → fetched).
(** What is known of a stored hash and of the cached flags of a node, of the root and of
    a node below it. *)
Context (hash_ok : bool → bytes → ptrie → Prop) (flag_ok : bool → nodeFlag → ptrie → Prop).
Context (newFlag_ok : ∀ top t, flag_ok top newFlag t).

Definition is_loaded (n : node) : Prop :=
  match n with shortNode _ _ _ | fullNode _ _ => True | _ => False end.

(** The node stands for the trie, with hash nodes resolved in the database. *)
#[warnings="-register-all"]
Inductive rep (top : bool) : node → ptrie → Prop :=
| rep_nil : rep top nilNode PNil
| rep_value v : rep top (valueNode v) (PValue v)
| rep_short k n t fl :
    rep false n t → flag_ok top fl (PShort k t) → rep top (shortNode k n fl) (PShort k t)
| rep_full cs ts fl :
    Forall2 (rep false) cs ts → flag_ok top fl (PFull ts) → rep top (fullNode cs fl) (PFull ts)
| rep_hash h n t :
    db_node (BytesToHash h) = Found n → is_loaded n → hash_ok top h t → rep top n t →
    rep top (hashNode h) t.

(** What may stand in a place of a canonical trie with the remaining key. *)
Definition slot (t : ptrie) (rest : bytes) : Prop :=
  (hexkey rest ∧ (t = PNil ∨ wf t)) ∨ (rest = [] ∧ (t = PNil ∨ is_value t)).

Definition steps (n : node) (rest : bytes) : nat :=
  2 * length rest + match n with hashNode _ => 2 | _ => 1 end.

Lemma steps_loaded n h rest : is_loaded n → (steps n rest < steps (hashNode h) rest)%nat.
Proof. destruct n; cbn; try done; lia. Qed.

Lemma steps_short n m (k rest : bytes) : k ≠ [] → is_loaded m → (steps n rest < steps m (k ++ rest))%nat.
Proof.
  intros Hk Hm. unfold steps. rewrite length_app. destruct k as [|b k]; [done|]. cbn [length].
  destruct n, m; try done; lia.
Qed.

Lemma steps_full n m b rest : is_loaded m → (steps n rest < steps m (b :: rest))%nat.
Proof. intros Hm. unfold steps. cbn [length]. destruct n, m; try done; lia. Qed.

Lemma slot_child ts b rest :
  wf (PFull ts) → hexkey (b :: rest) → ∃ c, ts !! nib b = Some c ∧ slot c rest.
Proof.
  intros (Hl & _ & Hc)%wf_full Hk. destruct (hexkey_cons _ _ Hk) as [[-> ->]|[Hb Hr]].
  - destruct (lookup_lt_is_Some_2 ts 16) as [c E]; [lia|]. exists c. rewrite nib_term. split; [done|]. right.
    split; [done|]. destruct (Hc _ _ E) as [->|[[? _]|[_ ?]]]; [by left|lia|by right].
  - apply nib_lt in Hb. destruct (lookup_lt_is_Some_2 ts (nib b)) as [c E]; [lia|]. exists c. split; [done|].
    left. split; [done|]. destruct (Hc _ _ E) as [->|[[_ ?]|[? _]]]; [by left|by right|lia].
Qed.

Lemma wf_short_key k c : wf (PShort k c) → k ≠ [].
Proof. cbn [wf]. destruct c; try done; [by intros [? _]|]. apply hexkey_nonempty. Qed.

Lemma slot_short k c rest : wf (PShort k c) → hexkey (k ++ rest) → slot c rest ∧ c ≠ PNil.
Proof.
  cbn [wf]. intros Hw Hk. destruct c as [|cs|?|v]; try done.
  - destruct Hw as (_ & Hn & Hw). split; [|done]. left. split; [|by right].
    destruct Hk as (ks & Hks & E). destruct (app_eq_inv _ _ _ _ (eq_sym E)) as [(k' & -> & ->)|(k' & -> & E')].
    + apply nibbles_app in Hks as [_ Hks]. by exists k'.
    + destruct k' as [|x k']; [cbn in E'; subst; apply hexkey_term|].
      injection E' as <- E'. apply nibbles_app in Hn as [_ Hn]. by apply nibbles_cons in Hn as [? _].
  - pose proof (hexkey_prefix _ _ Hw Hk) as ->. split; [|done]. right. split; [done|]. by right.
Qed.

Lemma slot_hash top h t rest : rep top (hashNode h) t → slot t rest → hexkey rest ∧ wf t ∧
  ∃ n, db_node (BytesToHash h) = Found n ∧ is_loaded n ∧ rep top n t.
Proof.
  intros Hr Hs. inversion Hr as [| | | |? n ? Hdb Hl Hg Hn]; subst.
  inversion Hn; subst; try done; destruct Hs as [[? [?|?]]|[? [?|?]]]; try done; split_and!; eauto.
Qed.

(** ** Lookup *)

Lemma slice_drop {A} pos n (key : list A) : slice pos (pos + n) key = take n (drop pos key).
Proof. unfold slice. by replace (pos + n - pos)%nat with n by lia. Qed.

Lemma tryGet_spec fuel top n t key pos :
  rep top n t → slot t (drop pos key) → (pos ≤ length key)%nat → (steps n (drop pos key) ≤ fuel)%nat →
  ∃ n' dr, tryGet db_node fuel n key pos = TOk (pget t (drop pos key), n', dr) ∧
    (dr = true → rep top n' t) ∧ (dr = false → n' = n).
Proof.
  revert top n t pos. induction fuel as [|fuel IH]; intros top n t pos Hr Hs Hp Hf.
  { unfold steps in Hf. destruct n; lia. }
  cbn [tryGet]. inversion Hr as [|v|k c tc fl Hc Hfl|cs ts fl Hcs Hfl|h c ? Hdb Hl Hg Hn]; subst.
  - by eexists _, _.
  - destruct Hs as [[? [?|?]]|[E _]]; try done. rewrite E. by eexists _, _.
  - set (rest := drop pos key) in *. rewrite slice_drop. fold rest.
    assert (Hlen : (length key - pos)%nat = length rest) by (unfold rest; by rewrite length_drop). rewrite Hlen.
    destruct Hs as [[Hk [?|Hw]]|[_ [?|?]]]; try done.
    destruct ((length rest <? length k)%nat || negb (bool_decide (k = take (length k) rest))) eqn:E.
    + eexists _, _. split; [|done]. f_equal. f_equal. f_equal. cbn [pget]. case_bool_decide as Ek; [|done].
      rewrite orb_false_r in E. apply Nat.ltb_lt in E. apply (f_equal length) in Ek. rewrite length_take in Ek. lia.
    + apply orb_false_iff in E as [_ E]. apply negb_false_iff, bool_decide_eq_true in E.
      assert (Er : rest = k ++ drop (length k) rest) by (rewrite E at 1; by rewrite take_drop).
      assert (Ed : drop (pos + length k) key = drop (length k) rest) by (unfold rest; by rewrite drop_drop).
      rewrite Er in Hk. destruct (slot_short _ _ _ Hw Hk) as [Hsc _]. rewrite <- Ed in Hsc.
      assert (length k ≤ length rest)%nat by (apply (f_equal length) in Er; rewrite length_app in Er; lia).
      destruct (IH false c tc (pos + length k)%nat Hc Hsc) as (n' & dr & -> & Hd1 & Hd2); [lia| |].
      { rewrite Ed. pose proof (steps_short c (shortNode k c fl) k (drop (length k) rest) (wf_short_key _ _ Hw) I) as Hst.
        rewrite <- Er in Hst. lia. }
      cbn [mbind tres_bind]. exists (if dr then shortNode k n' fl else shortNode k c fl), dr. split_and!.
      * cbn [pget]. rewrite bool_decide_eq_true_2 by done. by rewrite Ed.
      * intros ->. by constructor; [apply Hd1|].
      * by intros ->.
  - destruct Hs as [[Hk [?|Hw]]|[_ [?|?]]]; try done. destruct (drop pos key) as [|b rest] eqn:Ed.
    { by apply hexkey_nonempty in Hk. }
    assert (Hb : key !! pos = Some b) by (rewrite <- (Nat.add_0_r pos), <- lookup_drop, Ed; done).
    assert (Ed' : drop (S pos) key = rest) by (rewrite <- Nat.add_1_r, <- drop_drop, Ed; done).
    destruct (slot_child _ _ _ Hw Hk) as (tc & Etc & Hsc).
    destruct (Forall2_lookup_r _ _ _ _ _ Hcs Etc) as (c & Ec & Hc).
    unfold keyAt, getChild. rewrite Hb. cbn [mbind tres_bind]. rewrite Ec. cbn [mbind tres_bind].
    rewrite <- Ed' in Hsc. apply lookup_lt_Some in Hb.
    destruct (IH false c tc (S pos) Hc Hsc) as (n' & dr & -> & Hd1 & Hd2); [lia| |].
    { rewrite Ed'. pose proof (steps_full c (fullNode cs fl) b rest I). lia. }
    cbn [mbind tres_bind]. exists (if dr then fullNode (<[nib b:=n']> cs) fl else fullNode cs fl), dr. split_and!.
    + by rewrite pget_full, Etc, Ed'.
    + intros ->. constructor; [|done]. rewrite <- (list_insert_id ts (nib b) tc) by done.
      apply Forall2_insert; [done|by apply Hd1].
    + by intros ->.
  - destruct (slot_hash _ _ _ _ Hr Hs) as (Hk & Hw & n' & Hdb' & Hl' & Hn'). unfold resolveHash. rewrite Hdb'. cbn [mbind tres_bind].
    destruct (IH top n' t pos Hn' Hs Hp) as (n'' & dr & -> & Hd1 & Hd2).
    { pose proof (steps_loaded n' h (drop pos key) Hl'). lia. }
    cbn [mbind tres_bind]. eexists _, _. split; [done|]. split; [|done]. intros _. destruct dr; [by apply Hd1|by rewrite Hd2].
Qed.

(** ** Insertion *)

(** What an insertion leaves in a place: something. *)
Definition filled (t : ptrie) (rest : bytes) : Prop := slot t rest ∧ t ≠ PNil.

Lemma filled_hexkey t rest : filled t rest → hexkey rest → wf t.
Proof. intros [[[_ [?|?]]|[-> _]] Hn] Hk; try done. by apply hexkey_nonempty in Hk. Qed.

(** Into an empty place. *)
Definition mkShortNode (k : bytes) (n : node) : node :=
  match k with [] => n | _ => shortNode k n newFlag end.

Lemma insert_empty fuel prefix k n :
  insert db_node (S fuel) nilNode prefix k n = TOk (true, mkShortNode k n).
Proof. by destruct k, n. Qed.

Lemma rep_mkShort top k n t : (∀ b, rep b n t) ∨ (top = false ∧ rep false n t) →
  rep top (mkShortNode k n) (mkShort k t).
Proof.
  intros [Hn|[-> Hn]]; (destruct k; [done|]); by constructor.
Qed.

Lemma rep_branch2 nb c1 t1 kb c2 t2 top :
  rep false c1 t1 → rep false c2 t2 →
  rep top (fullNode (<[nib kb := c2]> (<[nib nb := c1]> (replicate 17 nilNode))) newFlag) (PFull (branch2 nb t1 kb t2)).
Proof.
  intros H1 H2. constructor; [|done]. unfold branch2. apply Forall2_insert; [|done]. apply Forall2_insert; [|done].
  apply Forall2_replicate. constructor.
Qed.

(** The two sides of a branch. *)
Lemma child_ok_leaf b k v : hexkey (b :: k) → child_ok (nib b) (mkShort k (PValue v)) ∧ (nib b < 17)%nat.
Proof.
  intros [[-> ->]|[Hb Hk]]%hexkey_cons; [split; [right; by right|by vm_compute]|]. apply nib_lt in Hb.
  split; [|lia]. right. left. split; [done|]. destruct k; [by apply hexkey_nonempty in Hk|done].
Qed.

Lemma child_ok_rest p b k c : wf (PShort (p ++ b :: k) c) → child_ok (nib b) (mkShort k c) ∧ (nib b < 17)%nat.
Proof.
  cbn [wf]. intros Hw. destruct c as [|cs|?|v]; try done.
  - destruct Hw as (_ & Hn & Hw). apply nibbles_app in Hn as [_ Hn]. apply nibbles_cons in Hn as [Hb Hn].
    apply nib_lt in Hb. split; [|lia]. right. left. split; [done|]. destruct k; [done|]. by split; [|split].
  - apply child_ok_leaf. destruct Hw as (ks & Hn & E).
    destruct (app_eq_inv _ _ _ _ (eq_sym E)) as [(k' & -> & E')|(k' & -> & E')].
    + rewrite E'. apply nibbles_app in Hn as [_ Hn]. by exists k'.
    + destruct k'; [cbn in E'; rewrite <- E'; apply hexkey_term|]. by destruct k'.
Qed.

Lemma mkShort_nonnil k c : c ≠ PNil → mkShort k c ≠ PNil.
Proof. by destruct k. Qed.

Lemma wf_branch2 nb c1 kb c2 :
  nb ≠ kb → (nib nb < 17)%nat → (nib kb < 17)%nat → child_ok (nib nb) c1 → child_ok (nib kb) c2 →
  c1 ≠ PNil → c2 ≠ PNil → wf (PFull (branch2 nb c1 kb c2)).
Proof.
  intros Hne Hn Hk H1 H2 Hn1 Hn2. apply wf_full. split_and!.
  - unfold branch2. by rewrite !length_insert, length_replicate.
  - exists (nib nb), (nib kb), c1, c2. rewrite !branch2_lookup by done.
    rewrite (decide_False (P := nib nb = nib kb)) by (intros E; by apply nib_inj in E).
    rewrite !decide_True by done. split_and!; try done. intros E. by apply nib_inj in E.
  - intros i c. rewrite branch2_lookup by done. repeat case_decide; intros [= <-]; subst; try done. by left.
Qed.

(** The keys part after the common prefix [p]. *)
Lemma wf_split p nb nr tv kb kr v :
  nb ≠ kb → wf (PShort (p ++ nb :: nr) tv) → hexkey (p ++ kb :: kr) →
  let b := PFull (branch2 nb (mkShort nr tv) kb (mkShort kr (PValue v))) in
  wf b ∧ wf (mkShort p b) ∧ updated (PShort (p ++ nb :: nr) tv) (p ++ kb :: kr) (Some v) (mkShort p b).
Proof.
  intros Hne Hw Hk b.
  assert (Hkb : nibbles p ∧ hexkey (kb :: kr)).
  { clear -Hk. induction p as [|x p IH]; [split; [constructor|done]|].
    apply hexkey_cons in Hk as [[-> E]|[Hx Hk]]; [by destruct p|]. destruct (IH Hk) as [Hp Hkk].
    split; [by apply nibbles_cons|done]. }
  destruct Hkb as [Hp Hkb]. destruct (child_ok_leaf kb kr v Hkb) as [Hc2 Hl2].
  destruct (child_ok_rest p nb nr tv Hw) as [Hc1 Hl1].
  assert (Htv : tv ≠ PNil) by (intros ->; done).
  assert (Hb : wf b) by (apply wf_branch2; auto using mkShort_nonnil).
  split_and!; [done| |].
  - destruct p; [done|]. by split; [|split].
  - intros k. rewrite pget_mkShort, <- pget_short_short.
    by apply (updated_short p (PShort (nb :: nr) tv) (kb :: kr) (Some v)), updated_branch.
Qed.

Lemma keyAt_middle p b (k : bytes) : keyAt (p ++ b :: k) (length p) = TOk b.
Proof. unfold keyAt. by rewrite list_lookup_middle. Qed.

Lemma drop_middle {A} (p : list A) b k : drop (S (length p)) (p ++ b :: k) = k.
Proof. rewrite <- Nat.add_1_r, <- drop_drop, drop_app_length. done. Qed.

(** Branching out at the first difference. *)
Lemma insert_split fuel top prefix p nb nr nVal fl tv kb kr v :
  nb ≠ kb → (0 < fuel)%nat → rep false nVal tv → wf (PShort (p ++ nb :: nr) tv) → hexkey (p ++ kb :: kr) →
  ∃ n' t', insert db_node (S fuel) (shortNode (p ++ nb :: nr) nVal fl) prefix (p ++ kb :: kr) (valueNode v) =
    TOk (true, n') ∧ rep top n' t' ∧ wf t' ∧ updated (PShort (p ++ nb :: nr) tv) (p ++ kb :: kr) (Some v) t'.
Proof.
  intros Hne Hf Hr Hw Hk. destruct fuel as [|fuel]; [lia|].
  destruct (wf_split p nb nr tv kb kr v Hne Hw Hk) as (Hb & Hwm & Hu).
  destruct (child_ok_rest p nb nr tv Hw) as [_ Hl1].
  assert (Hl2 : (nib kb < 17)%nat).
  { destruct (hexkey_cons kb kr) as [[-> _]|[Hx _]]; [|by vm_compute|apply nib_lt in Hx; lia].
    clear -Hk. induction p as [|x p IH]; [done|]. apply hexkey_cons in Hk as [[_ E]|[_ Hk]]; [by destruct p|auto]. }
  assert (Hm : prefixLen (p ++ kb :: kr) (p ++ nb :: nr) = length p).
  { clear -Hne. induction p; cbn; [by rewrite bool_decide_eq_false_2 by congruence|].
    by rewrite bool_decide_eq_true_2, IHp by done. }
  remember (S fuel) as f0. cbn [insert]. destruct (p ++ kb :: kr) as [|k0 krest] eqn:Ekey; [by destruct p|].
  rewrite Hm. rewrite <- Ekey. rewrite (proj2 (Nat.eqb_neq (length p) _)) by (rewrite length_app; cbn; lia).
  subst f0. rewrite !keyAt_middle, !drop_middle, !insert_empty. cbn [mbind tres_bind].
  unfold setChild. rewrite (proj2 (Nat.ltb_lt (nib nb) _)) by (rewrite length_replicate; lia). cbn [mbind tres_bind].
  rewrite (proj2 (Nat.ltb_lt (nib kb) _)) by (rewrite length_insert, length_replicate; lia). cbn [mbind tres_bind].
  rewrite take_app_length.
  assert (Hrb := λ b, rep_branch2 nb (mkShortNode nr nVal) (mkShort nr tv) kb (mkShortNode kr (valueNode v)) (mkShort kr (PValue v)) b
     (rep_mkShort false _ _ _ (or_intror (conj eq_refl Hr))) (rep_mkShort false _ _ _ (or_introl (λ b, rep_value b v)))).
  rewrite <- Ekey in Hu. eexists (mkShortNode p (fullNode _ newFlag)), (mkShort p _).
  split; [|split; [apply rep_mkShort; left; apply Hrb|split; [apply Hwm|apply Hu]]]. by destruct p.
Qed.

(** How the key of a short node compares with a key to look for. *)
Lemma prefixLen_cases key k c :
  wf (PShort k c) → hexkey key →
  (∃ rest, key = k ++ rest ∧ prefixLen key k = length k) ∨
  (∃ p kb kr nb nr, key = p ++ kb :: kr ∧ k = p ++ nb :: nr ∧ nb ≠ kb ∧ (prefixLen key k < length k)%nat).
Proof.
  intros Hw Hk. destruct (prefixLen_spec key k) as (p & a & b & Ea & Eb & Em & Hne).
  destruct b as [|nb nr].
  { left. exists a. rewrite app_nil_r in Eb. by subst. }
  destruct a as [|kb kr].
  - exfalso. rewrite app_nil_r in Ea. subst p. rewrite Eb in Hw. cbn [wf] in Hw. destruct c; try done.
    + destruct Hw as (_ & Hn & _). apply nibbles_app in Hn as [Hn _]. by apply nibbles_not_hexkey in Hn.
    + by apply hexkey_prefix in Hw.
  - right. exists p, kb, kr, nb, nr. split_and!; try done; [intros ->; by eapply Hne|].
    rewrite Em, Eb, length_app. cbn. lia.
Qed.

Lemma wf_short_child k c c' : wf (PShort k c) → is_full c → wf c' → is_full c' → wf (PShort k c').
Proof. cbn [wf]. destruct c, c'; try done. intros (? & ? & _) _ Hc _. by split; [|split]. Qed.

(** Changing a child of a canonical full node. *)
Lemma child_ok_filled b t rest : hexkey (b :: rest) → slot t rest → child_ok (nib b) t.
Proof.
  intros [[-> ->]|[Hb Hr]]%hexkey_cons [[Hk Ht]|[E Ht]].
  - by apply hexkey_nonempty in Hk.
  - destruct Ht as [->|Ht]; [by left|]. right. by right.
  - destruct Ht as [->|Ht]; [by left|]. right. left. split; [by apply nib_lt|done].
  - subst. by apply hexkey_nonempty in Hr.
Qed.

Lemma wf_full_insert ts b rest t' :
  wf (PFull ts) → hexkey (b :: rest) → filled t' rest → wf (PFull (<[nib b := t']> ts)).
Proof.
  intros (Hl & (i & j & ci & cj & Hij & Hi & Hj & Hni & Hnj) & Hc)%wf_full Hk [Hs Hn]. apply wf_full.
  assert (Hb : (nib b < length ts)%nat).
  { rewrite Hl. destruct (hexkey_cons _ _ Hk) as [[-> _]|[Hb%nib_lt _]]; [by vm_compute|lia]. }
  assert (Hkeep : ∀ m cm, ts !! m = Some cm → cm ≠ PNil → ∃ cm', <[nib b:=t']> ts !! m = Some cm' ∧ cm' ≠ PNil).
  { intros m cm Hm Hnm. destruct (decide (nib b = m)) as [<-|]; [exists t'; by rewrite list_lookup_insert_eq|].
    exists cm. by rewrite list_lookup_insert_ne. }
  split_and!.
  - by rewrite length_insert.
  - destruct (Hkeep _ _ Hi Hni) as (ci' & ? & ?). destruct (Hkeep _ _ Hj Hnj) as (cj' & ? & ?). by exists i, j, ci', cj'.
  - intros m c Hm. apply list_lookup_insert_Some in Hm as [(<- & <- & _)|[_ Hm]]; [by eapply child_ok_filled|by apply Hc].
Qed.

(** What [insert] promises for a place with the trie [t] and the remaining key. *)
Definition inserted (top : bool) (t : ptrie) (key v : bytes) (r : tres (bool * node)) : Prop :=
  ∃ dirty n' t', r = TOk (dirty, n') ∧ rep top n' t' ∧ filled t' key ∧ (is_full t → is_full t') ∧
    updated t key (Some v) t' ∧ (dirty = false → t' = t).

Lemma inserted_value fuel top n t prefix v :
  rep top n t → slot t [] → inserted top t [] v (insert db_node (S fuel) n prefix [] (valueNode v)).
Proof.
  intros Hr [[Hk _]|[_ Ht]]; [by apply hexkey_nonempty in Hk|].
  assert (Hfl : filled (PValue v) []) by (split; [right; split; [done|by right]|done]).
  destruct Ht as [->|Hv].
  - inversion Hr as [| | | |? n' ? Hdb Hl Hg Hn]; subst; [|by inversion Hn; subst].
    exists true, (valueNode v), (PValue v). split_and!; try done; [constructor|]. by intros [|x k].
  - destruct t as [| | |v0]; try done.
    inversion Hr as [| | | |? n' ? Hdb Hl Hg Hn]; subst; [|by inversion Hn; subst].
    exists (negb (bool_decide (v0 = v))), (valueNode v), (PValue v).
    split_and!; try done; [constructor|by intros [|x k]|].
    intros Hd. apply negb_false_iff, bool_decide_eq_true in Hd. by subst.
Qed.

Lemma inserted_empty fuel top prefix key v :
  hexkey key → inserted top PNil key v (insert db_node (S fuel) nilNode prefix key (valueNode v)).
Proof.
  intros Hk. exists true, (shortNode key (valueNode v) newFlag), (PShort key (PValue v)). rewrite insert_empty.
  split_and!; try done; [by destruct key; [apply hexkey_nonempty in Hk|]|by constructor; [constructor|]| |apply updated_leaf].
  split; [left; split; [done|by right]|done].
Qed.

(** The child of a canonical short node keeps its place after an insertion. *)
Lemma wf_short_filled k tc t' rest :
  wf (PShort k tc) → slot tc rest → tc ≠ PNil → filled t' rest → (is_full tc → is_full t') → wf (PShort k t').
Proof.
  intros Hw Hsc Htc Hft' Hfull. destruct Hsc as [[Hr' [?|Hwc]]|[-> [?|Hv]]]; try done.
  - cbn [wf] in Hw. destruct tc; try done. eapply (wf_short_child k (PFull children)); try done; [|by apply Hfull].
    by eapply filled_hexkey.
  - destruct Hft' as [[[Hx _]|[_ [?|Hv']]] ?]; try done; [by apply hexkey_nonempty in Hx|].
    cbn [wf] in *. by destruct tc, t'.
Qed.

Lemma inserted_short fuel top k c tc fl prefix rest v :
  rep false c tc → flag_ok top fl (PShort k tc) → wf (PShort k tc) → hexkey (k ++ rest) →
  prefixLen (k ++ rest) k = length k →
  inserted false tc rest v (insert db_node fuel c (prefix ++ k) rest (valueNode v)) →
  inserted top (PShort k tc) (k ++ rest) v (insert db_node (S fuel) (shortNode k c fl) prefix (k ++ rest) (valueNode v)).
Proof.
  intros Hc Hfl Hw Hk Hm (dirty & n' & t' & HI & Hn' & Hft' & Hfull & Hu & Hd).
  destruct (slot_short _ _ _ Hw Hk) as [Hsc Htc].
  cbn [insert]. destruct (k ++ rest) as [|k0 krest] eqn:Ekey; [by apply hexkey_nonempty in Hk|].
  rewrite <- Ekey in *. rewrite Hm, Nat.eqb_refl, take_app_length, drop_app_length, HI. cbn [mbind tres_bind].
  exists dirty, (if dirty then shortNode k n' newFlag else shortNode k c fl), (PShort k t').
  split_and!; try done; [by destruct dirty| | | |].
  - destruct dirty; [by constructor|]. by rewrite Hd; [constructor|].
  - split; [|done]. left. split; [done|right]. by eapply wf_short_filled.
  - by apply updated_short.
  - intros Hd'. by rewrite Hd.
Qed.

Lemma inserted_full fuel top cs ts fl prefix b rest c tc v :
  Forall2 (rep false) cs ts → flag_ok top fl (PFull ts) → wf (PFull ts) → hexkey (b :: rest) →
  ts !! nib b = Some tc → cs !! nib b = Some c →
  inserted false tc rest v (insert db_node fuel c (prefix ++ [b]) rest (valueNode v)) →
  inserted top (PFull ts) (b :: rest) v (insert db_node (S fuel) (fullNode cs fl) prefix (b :: rest) (valueNode v)).
Proof.
  intros Hcs Hfl Hw Hk Etc Ec (dirty & n' & t' & HI & Hn' & Hft' & Hfull & Hu & Hd).
  cbn [insert]. unfold getChild. rewrite Ec. cbn [mbind tres_bind]. rewrite HI. cbn [mbind tres_bind].
  exists dirty, (if dirty then fullNode (<[nib b := n']> cs) newFlag else fullNode cs fl), (PFull (<[nib b := t']> ts)).
  split_and!; try done; [by destruct dirty| | | |].
  - destruct dirty; [constructor; [by apply Forall2_insert|done]|]. rewrite Hd, list_insert_id by done. by constructor.
  - split; [|done]. left. split; [done|]. right. by eapply wf_full_insert.
  - by eapply updated_child.
  - intros Hd'. by rewrite Hd, list_insert_id.
Qed.

Lemma inserted_hash fuel top h n t prefix b rest v :
  db_node (BytesToHash h) = Found n → rep top n t →
  inserted top t (b :: rest) v (insert db_node fuel n prefix (b :: rest) (valueNode v)) →
  inserted top t (b :: rest) v (insert db_node (S fuel) (hashNode h) prefix (b :: rest) (valueNode v)).
Proof.
  intros Hdb Hn (dirty & n' & t' & HI & Hn' & Hft' & Hfull & Hu & Hd).
  cbn [insert]. unfold resolveHash. rewrite Hdb. cbn [mbind tres_bind]. rewrite HI. cbn [mbind tres_bind].
  exists dirty, (if dirty then n' else n), t'. split_and!; try done; [by destruct dirty|].
  destruct dirty; [done|]. by rewrite Hd.
Qed.

Lemma insert_spec fuel top n t prefix key v :
  rep top n t → slot t key → (steps n key ≤ fuel)%nat →
  inserted top t key v (insert db_node fuel n prefix key (valueNode v)).
Proof.
  revert top n t prefix key. induction fuel as [|fuel IH]; intros top n t prefix key Hr Hs Hf.
  { unfold steps in Hf. destruct n; lia. }
  destruct (decide (key = [])) as [->|Hkey]; [by apply inserted_value|].
  destruct Hs as [[Hk Ht]|[? _]]; [|done].
  inversion Hr as [|v0|k c tc fl Hc Hfl|cs ts fl Hcs Hfl|h c ? Hdb Hl Hg Hn]; subst; [by apply inserted_empty|by destruct Ht|..].
  - destruct Ht as [?|Hw]; [done|].
    destruct (prefixLen_cases key k tc Hw Hk) as [(rest & -> & Hm)|(p & kb & kr & nb & nr & -> & -> & Hne & Hm)].
    + destruct (slot_short _ _ _ Hw Hk) as [Hsc Htc]. apply inserted_short; try done. apply IH; try done.
      pose proof (steps_short c (shortNode k c fl) k rest (wf_short_key _ _ Hw) I). lia.
    + destruct (insert_split fuel top prefix p nb nr c fl tc kb kr v Hne) as (n' & t' & HI & Hn' & Hw' & Hu); try done.
      { unfold steps in Hf. rewrite length_app in Hf. cbn in Hf. lia. }
      exists true, n', t'. split_and!; try done. split; [left; split; [done|by right]|]. by intros ->.
  - destruct Ht as [?|Hw]; [done|]. destruct key as [|b rest]; [done|].
    destruct (slot_child _ _ _ Hw Hk) as (tc & Etc & Hsc).
    destruct (Forall2_lookup_r _ _ _ _ _ Hcs Etc) as (c & Ec & Hc).
    eapply inserted_full; try done. apply IH; try done. pose proof (steps_full c (fullNode cs fl) b rest I). lia.
  - destruct key as [|b rest]; [done|]. eapply inserted_hash; try done. apply IH; [done|by left|].
    pose proof (steps_loaded c h (b :: rest) Hl). lia.
Qed.

(** ** Deletion *)

Definition no_hash (n : node) : Prop := match n with hashNode _ => False | _ => True end.

Lemma onlyChild_loop_Some cs i p :
  onlyChild_loop cs i (Some p) = if decide (Forall (λ c, c = nilNode) cs) then Some p else None.
Proof.
  revert i. induction cs as [|c cs IH]; intros i; [done|]. cbn [onlyChild_loop].
  destruct c; [rewrite IH; repeat case_decide; try done; rewrite Forall_cons in *; naive_solver|..];
    rewrite decide_False; try done; rewrite Forall_cons; naive_solver.
Qed.

Lemma onlyChild_loop_None cs i :
  match onlyChild_loop cs i None with
  | Some j => ∃ m c, j = (i + m)%nat ∧ cs !! m = Some c ∧ c ≠ nilNode ∧
      ∀ m' c', cs !! m' = Some c' → m' ≠ m → c' = nilNode
  | None => (∀ m c, cs !! m = Some c → c = nilNode) ∨
      ∃ m m' c c', m ≠ m' ∧ cs !! m = Some c ∧ cs !! m' = Some c' ∧ c ≠ nilNode ∧ c' ≠ nilNode
  end.
Proof.
  revert i. induction cs as [|c cs IH]; intros i; [by left|]. cbn [onlyChild_loop].
  destruct (decide (c = nilNode)) as [->|Hc].
  - specialize (IH (S i)). destruct (onlyChild_loop cs (S i) None) as [j|].
    + destruct IH as (m & c & -> & Hm & Hn & Ho). exists (S m), c. split_and!; try done; [lia|].
      intros [|m'] c' Hm' Hne; [by injection Hm'|]. apply (Ho m' c' Hm'). congruence.
    + destruct IH as [Ha|(m & m' & c & c' & Hne & Hm & Hm' & ? & ?)].
      * left. intros [|m] c Hm; [by injection Hm|by eapply Ha].
      * right. exists (S m), (S m'), c, c'. split_and!; try done. congruence.
  - assert (E : onlyChild_loop (c :: cs) i None = onlyChild_loop cs (S i) (Some i)) by by destruct c.
    cbn [onlyChild_loop] in E. rewrite E, onlyChild_loop_Some. case_decide as Hall.
    + exists 0%nat, c. split_and!; try done; try lia. intros [|m'] c' Hm' Hne; [done|].
      rewrite Forall_lookup in Hall. by eapply Hall.
    + right. apply not_Forall_Exists in Hall; [|apply _].
      apply Exists_exists in Hall as (c' & Hin & Hc'). apply list_elem_of_lookup in Hin as [m Hm].
      by exists 0%nat, (S m), c, c'.
Qed.

Lemma rep_nil_iff top n t : rep top n t → n = nilNode ↔ t = PNil.
Proof.
  intros Hr. inversion Hr as [| | | |? n' ? Hdb Hl Hg Hn]; subst; try done.
  inversion Hn; subst; done.
Qed.

Lemma wf_short_prefix p k c : nibbles p → wf (PShort k c) → wf (PShort (p ++ k) c).
Proof.
  cbn [wf]. intros Hp Hw. destruct c; try done.
  - destruct Hw as (Hk & Hn & Hw). split; [|by split; [apply nibbles_app|]].
    destruct k; [done|]. by destruct p.
  - by apply hexkey_app.
Qed.

Lemma pget_only ts i c :
  ts !! i = Some c → (i < 17)%nat → (∀ m c', ts !! m = Some c' → m ≠ i → c' = PNil) →
  ∀ key, pget (PShort [byte_of_Z (Z.of_nat i)] c) key = pget (PFull ts) key.
Proof.
  intros Hi Hlt Ho key. destruct key as [|b key]; [done|]. rewrite pget_full.
  destruct (decide (nib b = i)) as [<-|Hne].
  - assert (byte_of_Z (Z.of_nat (nib b)) = b) as -> by (apply nib_inj; by rewrite nib_of_nat).
    by rewrite Hi, <- (pget_short_app [b] c key).
  - rewrite pget_short_None.
    + destruct (ts !! nib b) as [c'|] eqn:E; [|done]. by rewrite (Ho _ _ E Hne).
    + intros rest [= -> _]. by rewrite nib_of_nat in Hne.
Qed.

Lemma reduceFull_spec top cs ts prefix :
  Forall2 (rep false) cs ts → length ts = 17%nat → (∀ i c, ts !! i = Some c → child_ok i c) →
  (∃ i c, ts !! i = Some c ∧ c ≠ PNil) →
  ∃ n' t', reduceFull db_node cs prefix = TOk (true, n') ∧ rep top n' t' ∧ wf t' ∧ no_hash n' ∧
    ∀ key, pget t' key = pget (PFull ts) key.
Proof.
  intros Hcs Hl Hok (i0 & c0 & Hi0 & Hn0). unfold reduceFull, onlyChild.
  pose proof (onlyChild_loop_None cs 0) as HO. destruct (onlyChild_loop cs 0 None) as [pos|].
  - destruct HO as (m & c & -> & Hm & Hn & Ho). cbn [Nat.add]. rewrite Hm. cbn [default from_option id]. cbv zeta.
    destruct (Forall2_lookup_l _ _ _ _ _ Hcs Hm) as (t & Ht & Hr).
    assert (Hlt : (m < 17)%nat) by (rewrite <- Hl; by eapply lookup_lt_Some).
    assert (Ho' : ∀ m' t', ts !! m' = Some t' → m' ≠ m → t' = PNil).
    { intros m' t' Ht' Hne. destruct (Forall2_lookup_r _ _ _ _ _ Hcs Ht') as (c' & Hc' & Hr').
      apply (rep_nil_iff _ _ _ Hr'). by eapply Ho. }
    assert (Hg := pget_only ts m t Ht Hlt Ho').
    assert (Htn : t ≠ PNil) by (intros E; apply Hn; by apply (rep_nil_iff _ _ _ Hr)).
    assert (Hone : rep top (shortNode [byte_of_Z (Z.of_nat m)] c newFlag) (PShort [byte_of_Z (Z.of_nat m)] t)) by by constructor.
    destruct (Hok _ _ Ht) as [?|[[Hm16 Hw]|[-> Hv]]]; [done| |].
    + rewrite (proj2 (Nat.eqb_neq m 16)) by lia.
      assert (Hb : nibbles [byte_of_Z (Z.of_nat m)]) by (repeat constructor; rewrite byte_val_small; lia).
      assert (Hres : ∃ c', resolve db_node c prefix = TOk c' ∧ rep false c' t ∧ is_loaded c').
      { inversion Hr as [|v0|? ? ? ? Hc Hfl|? ? ? Hcs' Hfl|h c' ? Hdb Hl' Hg' Hn']; subst; try done.
        - by eexists.
        - by eexists.
        - exists c'. cbn. unfold resolveHash. by rewrite Hdb. }
      destruct Hres as (c' & -> & Hc' & Hl'). cbn [mbind tres_bind].
      inversion Hc' as [|v0|k2 n2 t2 fl2 Hc2 Hfl2|cs2 ts2 fl2 Hcs2 Hfl2|h2 ? ? ? ? ? ?]; subst; try done.
      * eexists _, (PShort (byte_of_Z (Z.of_nat m) :: k2) t2). split_and!; try done.
        -- by constructor.
        -- by apply (wf_short_prefix [byte_of_Z (Z.of_nat m)]).
        -- intros key. rewrite <- Hg. by rewrite pget_short_short.
      * eexists _, _. split; [done|]. split; [apply Hone|]. split; [by split; [|split]|done].
    + cbn [Nat.eqb]. eexists _, _. split; [done|]. split; [apply Hone|]. destruct t; try done.
      split; [apply hexkey_term|done].
  - destruct HO as [Ha|(m & m' & c & c' & Hne & Hm & Hm' & Hn & Hn')].
    + exfalso. destruct (Forall2_lookup_r _ _ _ _ _ Hcs Hi0) as (c & Hc & Hr). apply Hn0, (rep_nil_iff _ _ _ Hr). by eapply Ha.
    + eexists _, (PFull ts). split; [done|]. split; [by constructor|]. split; [|done].
      destruct (Forall2_lookup_l _ _ _ _ _ Hcs Hm) as (t & Ht & Hr).
      destruct (Forall2_lookup_l _ _ _ _ _ Hcs Hm') as (t' & Ht' & Hr').
      apply wf_full. split; [done|]. split; [|done]. exists m, m', t, t'. split_and!; try done.
      * intros E. apply Hn. by apply (rep_nil_iff _ _ _ Hr).
      * intros E. apply Hn'. by apply (rep_nil_iff _ _ _ Hr').
Qed.

(** What [delete] promises for a place with the trie [t] and the remaining key. *)
Definition deleted (top : bool) (t : ptrie) (key : bytes) (r : tres (bool * node)) : Prop :=
  ∃ dirty n' t', r = TOk (dirty, n') ∧ rep top n' t' ∧ slot t' key ∧ (is_full t → t' ≠ PNil) ∧
    updated t key None t' ∧ (dirty = false → t' = t) ∧ (dirty = true → no_hash n').

(** Nothing to delete. *)
Lemma deleted_absent top n t key :
  rep top n t → hexkey key → wf t → pget t key = None → deleted top t key (TOk (false, n)).
Proof.
  intros Hr Hk Hw Hg. exists false, n, t. split_and!; try done; [left; split; [done|by right]|by intros ? ->|].
  by apply updated_same.
Qed.

Lemma deleted_leaf top k tc :
  wf (PShort k tc) → hexkey k → deleted top (PShort k tc) k (TOk (true, nilNode)).
Proof.
  intros Hw Hk. assert (Hk' : hexkey (k ++ [])) by by rewrite app_nil_r.
  destruct (slot_short k tc [] Hw Hk') as [[[Hx _]|[_ [?|Hv]]] ?]; try done; [by apply hexkey_nonempty in Hx|].
  exists true, nilNode, PNil. split; [done|]. split; [apply rep_nil|]. split; [left; split; [done|by left]|].
  split; [by destruct tc|]. split; [|done].
  intros k'. case_decide; [done|]. destruct (pget (PShort k tc) k') eqn:E; [|done].
  apply pget_short in E as (r & -> & E). destruct tc; try done. destruct r; [|done]. by rewrite app_nil_r in *.
Qed.

(** Below an extension node, whose child is a full node. *)
Lemma deleted_short fuel top k c tc fl prefix rest :
  rep top (shortNode k c fl) (PShort k tc) → wf (PShort k tc) → hexkey (k ++ rest) → rest ≠ [] →
  prefixLen (k ++ rest) k = length k →
  deleted false tc rest (delete db_node fuel c (prefix ++ k) rest) →
  deleted top (PShort k tc) (k ++ rest) (delete db_node (S fuel) (shortNode k c fl) prefix (k ++ rest)).
Proof.
  intros Hr Hw Hk Hne Hm (dirty & n' & t' & HI & Hn' & Hst' & Hfull & Hu & Hd & Hnh).
  destruct (slot_short _ _ _ Hw Hk) as [[[Hr' [?|Hwc]]|[? _]] Htc]; try done.
  assert (Hw0 := Hw). cbn [wf] in Hw. destruct tc as [|tcs|?|?]; try done. destruct Hw as (Hkn & Hnk & _).
  cbn [delete]. rewrite Hm, Nat.ltb_irrefl, length_app.
  rewrite (proj2 (Nat.eqb_neq (length k) _)) by (destruct rest; [done|cbn; lia]).
  rewrite take_app_length, drop_app_length, HI. cbn [mbind tres_bind]. destruct dirty; cbn [negb].
  - specialize (Hfull I). specialize (Hnh eq_refl). destruct Hst' as [[_ [?|Hw']]|[? _]]; try done.
    inversion Hn' as [| |k2 n2 t2 fl2 Hc2 Hfl2|cs2 ts2 fl2 Hcs2 Hfl2|]; subst; try done.
    + eexists true, _, (PShort (k ++ k2) t2). split_and!; try done; [by constructor| |].
      * left. split; [done|]. right. by apply wf_short_prefix.
      * intros k'. rewrite <- pget_short_short. by apply updated_short.
    + eexists true, _, (PShort k (PFull ts2)). split_and!; try done; [by constructor| |by apply updated_short].
      left. split; [done|]. right. by split; [|split].
  - apply deleted_absent; try done. rewrite pget_short_app. rewrite (Hd eq_refl) in Hu. by rewrite Hu, decide_True.
Qed.

Lemma deleted_full fuel top cs ts fl prefix b rest c tc :
  Forall2 (rep false) cs ts → flag_ok top fl (PFull ts) → wf (PFull ts) → hexkey (b :: rest) →
  ts !! nib b = Some tc → cs !! nib b = Some c →
  deleted false tc rest (delete db_node fuel c (prefix ++ [b]) rest) →
  deleted top (PFull ts) (b :: rest) (delete db_node (S fuel) (fullNode cs fl) prefix (b :: rest)).
Proof.
  intros Hcs Hfl Hw Hk Etc Ec (dirty & n' & t' & HI & Hn' & Hst' & Hfull & Hu & Hd & Hnh).
  cbn [delete]. unfold keyAt, getChild. cbn [lookup list_lookup mbind tres_bind drop]. rewrite Ec.
  cbn [mbind tres_bind]. rewrite drop_0, HI. cbn [mbind tres_bind]. destruct dirty; cbn [negb].
  - destruct (reduceFull_spec top (<[nib b:=n']> cs) (<[nib b:=t']> ts) prefix) as (n2 & t2 & -> & Hn2 & Hw2 & Hnh2 & Hg2).
    + by apply Forall2_insert.
    + rewrite length_insert. by apply wf_full in Hw as [? _].
    + intros m cm Hm. apply list_lookup_insert_Some in Hm as [(<- & <- & _)|[_ Hm]]; [by eapply child_ok_filled|].
      apply wf_full in Hw as (_ & _ & Hok). by apply Hok.
    + apply wf_full in Hw as (_ & (i & j & ci & cj & Hij & Hi & Hj & Hni & Hnj) & _).
      destruct (decide (nib b = i)) as [<-|Hne]; [exists j, cj|exists i, ci]; by rewrite list_lookup_insert_ne.
    + exists true, n2, t2. split_and!; try done; [left; split; [done|by right]|by intros _ ->|].
      intros k. rewrite Hg2. by apply (updated_child _ _ _ _ _ _ Etc).
  - apply deleted_absent; [by constructor|done..|]. rewrite pget_full, Etc. rewrite (Hd eq_refl) in Hu.
    by rewrite Hu, decide_True.
Qed.

Lemma deleted_hash fuel top h n t prefix key :
  db_node (BytesToHash h) = Found n → rep top n t →
  deleted top t key (delete db_node fuel n prefix key) →
  deleted top t key (delete db_node (S fuel) (hashNode h) prefix key).
Proof.
  intros Hdb Hn (dirty & n' & t' & HI & Hn' & Hst' & Hfull & Hu & Hd & Hnh).
  cbn [delete]. unfold resolveHash. rewrite Hdb. cbn [mbind tres_bind]. rewrite HI. cbn [mbind tres_bind].
  exists dirty, (if dirty then n' else n), t'. split_and!; try done; [by destruct dirty| |by destruct dirty].
  destruct dirty; [done|]. by rewrite Hd.
Qed.

Lemma delete_spec fuel top n t prefix key :
  rep top n t → slot t key → (steps n key ≤ fuel)%nat → deleted top t key (delete db_node fuel n prefix key).
Proof.
  revert top n t prefix key. induction fuel as [|fuel IH]; intros top n t prefix key Hr Hs Hf.
  { unfold steps in Hf. destruct n; lia. }
  inversion Hr as [|v0|k c tc fl Hc Hfl|cs ts fl Hcs Hfl|h c ? Hdb Hl Hg Hn]; subst.
  - exists false, nilNode, PNil. split_and!; try done. intros k. by case_decide.
  - destruct Hs as [[? [?|?]]|[-> _]]; try done.
    exists true, nilNode, PNil. split_and!; try done; [constructor|right; split; [done|by left]|]. by intros [|x k].
  - destruct Hs as [[Hk [?|Hw]]|[_ [?|?]]]; try done.
    destruct (prefixLen_cases key k tc Hw Hk) as [(rest & -> & Hm)|(p & kb & kr & nb & nr & -> & -> & Hne & Hm)].
    + destruct (decide (rest = [])) as [->|Hrest].
      * rewrite app_nil_r in *. cbn [delete]. rewrite Hm, Nat.ltb_irrefl, Nat.eqb_refl. by apply deleted_leaf.
      * destruct (slot_short _ _ _ Hw Hk) as [Hsc Htc]. apply deleted_short; try done. apply IH; try done.
        pose proof (steps_short c (shortNode k c fl) k rest (wf_short_key _ _ Hw) I). lia.
    + cbn [delete]. rewrite (proj2 (Nat.ltb_lt _ _)) by done. apply deleted_absent; try done.
      apply pget_short_None. intros rest E. rewrite <- app_assoc in E. apply app_inv_head in E. cbn in E. congruence.
  - destruct Hs as [[Hk [?|Hw]]|[_ [?|?]]]; try done. destruct key as [|b rest]; [by apply hexkey_nonempty in Hk|].
    destruct (slot_child _ _ _ Hw Hk) as (tc & Etc & Hsc).
    destruct (Forall2_lookup_r _ _ _ _ _ Hcs Etc) as (c & Ec & Hc).
    eapply deleted_full; try done. apply IH; try done. pose proof (steps_full c (fullNode cs fl) b rest I). lia.
  - destruct (slot_hash top h t key Hr) as (Hk & Hw & _); [done|].
    eapply deleted_hash; try done. apply IH; try done. pose proof (steps_loaded c h key Hl). lia.
Qed.

(** ** The trie as a map *)

(** A trie, empty or canonical, with the contents of a map from byte strings. *)
Record denotes (t : ptrie) (m : gmap bytes bytes) : Prop := {
  den_wf : t = PNil ∨ wf t;
  den_get key : pget t (keybytesToHex key) = m !! key;
  den_keys k v : pget t k = Some v → ∃ key, k = keybytesToHex key }.

Definition trie_inv (root : node) (m : gmap bytes bytes) : Prop := ∃ t, rep true root t ∧ denotes t m.

Lemma denotes_slot t m key : denotes t m → slot t (keybytesToHex key).
Proof. intros Hd. left. split; [apply keybytesToHex_hexkey|apply Hd]. Qed.

Lemma fuel_enough n k : (steps n k ≤ fuel_for k)%nat.
Proof. unfold steps, fuel_for. destruct n; lia. Qed.

Lemma denotes_update t m key r t' :
  denotes t m → slot t' (keybytesToHex key) → updated t (keybytesToHex key) r t' →
  denotes t' (partial_alter (λ _, r) key m).
Proof.
  intros Hd Hs Hu. split.
  - destruct Hs as [[_ ?]|[E _]]; [done|]. by destruct (hexkey_nonempty _ (keybytesToHex_hexkey key)).
  - intros key'. rewrite Hu. destruct (decide (key' = key)) as [->|Hne].
    + by rewrite decide_True, lookup_partial_alter_eq.
    + rewrite decide_False by (intros E; by apply keybytesToHex_inj in E). rewrite lookup_partial_alter_ne by done. apply Hd.
  - intros k v Hg. rewrite Hu in Hg. destruct (decide (k = keybytesToHex key)) as [->|]; [by exists key|]. by eapply den_keys.
Qed.

Lemma TryGet_spec root m key :
  trie_inv root m → ∃ root', TryGet db_node root key = TOk (m !! key, root') ∧ trie_inv root' m.
Proof.
  intros (t & Hr & Hd). unfold TryGet.
  destruct (tryGet_spec (fuel_for (keybytesToHex key)) true root t (keybytesToHex key) 0 Hr) as (n' & dr & -> & H1 & H2).
  - by eapply denotes_slot.
  - lia.
  - apply fuel_enough.
  - cbn [mbind tres_bind]. rewrite drop_0, (den_get _ _ Hd). eexists. split; [done|]. exists t. split; [|done].
    destruct dr; [by apply H1|done].
Qed.

Lemma TryUpdate_spec root m key value :
  trie_inv root m → ∃ root', TryUpdate db_node root key value = TOk root' ∧ trie_inv root' (<[key := value]> m).
Proof.
  intros (t & Hr & Hd). unfold TryUpdate.
  destruct (insert_spec (fuel_for (keybytesToHex key)) true root t [] (keybytesToHex key) value Hr)
    as (dirty & n' & t' & -> & Hn' & [Hs _] & _ & Hu & _).
  - by eapply denotes_slot.
  - apply fuel_enough.
  - cbn [mbind tres_bind]. eexists. split; [done|]. exists t'. split; [done|]. by apply (denotes_update t m key (Some value)).
Qed.

Lemma TryDelete_spec root m key :
  trie_inv root m → ∃ root', TryDelete db_node root key = TOk root' ∧ trie_inv root' (base.delete key m).
Proof.
  intros (t & Hr & Hd). unfold TryDelete.
  destruct (delete_spec (fuel_for (keybytesToHex key)) true root t [] (keybytesToHex key) Hr)
    as (dirty & n' & t' & -> & Hn' & Hs & _ & Hu & _).
  - by eapply denotes_slot.
  - apply fuel_enough.
  - cbn [mbind tres_bind]. eexists. split; [done|]. exists t'. split; [done|]. by apply (denotes_update t m key None).
Qed.

(** ** Sequences of operations *)

Inductive trie_op := OpGet (key : bytes) | OpUpdate (key value : bytes) | OpDelete (key : bytes).

(** The root after the operations and the values the lookups return. *)
Fixpoint run_trie (root : node) (ops : list trie_op) : tres (node * list (option bytes)) :=
  match ops with
  | [] => TOk (root, [])
  | OpGet key :: ops =>
      '(value, root) ← TryGet db_node root key;
      '(root, out) ← run_trie root ops; TOk (root, value :: out)
  | OpUpdate key value :: ops => root ← TryUpdate db_node root key value; run_trie root ops
  | OpDelete key :: ops => root ← TryDelete db_node root key; run_trie root ops
  end.

(** The same on a map. *)
Fixpoint run_map (m : gmap bytes bytes) (ops : list trie_op) : gmap bytes bytes * list (option bytes) :=
  match ops with
  | [] => (m, [])
  | OpGet key :: ops => let '(m', out) := run_map m ops in (m', m !! key :: out)
  | OpUpdate key value :: ops => run_map (<[key := value]> m) ops
  | OpDelete key :: ops => run_map (base.delete key m) ops
  end.

Lemma run_trie_spec root m ops :
  trie_inv root m → ∃ root', run_trie root ops = TOk (root', snd (run_map m ops)) ∧
    trie_inv root' (fst (run_map m ops)).
Proof.
  revert root m. induction ops as [|[key|key value|key] ops IH]; intros root m Hi; cbn [run_trie run_map].
  - by exists root.
  - destruct (TryGet_spec root m key Hi) as (root1 & -> & Hi1). cbn [mbind tres_bind].
    destruct (IH root1 m Hi1) as (root2 & -> & Hi2). cbn [mbind tres_bind].
    destruct (run_map m ops) as [m' out]. by exists root2.
  - destruct (TryUpdate_spec root m key value Hi) as (root1 & -> & Hi1). by apply IH.
  - destruct (TryDelete_spec root m key Hi) as (root1 & -> & Hi1). by apply IH.
Qed.

Lemma denotes_unique t1 t2 m : denotes t1 m → denotes t2 m → t1 = t2.
Proof.
  intros H1 H2.
  assert (Hg : ∀ ta tb, denotes ta m → denotes tb m → ∀ k v, pget ta k = Some v → pget tb k = Some v).
  { intros ta tb Ha Hb k v Hk. destruct (den_keys _ _ Ha _ _ Hk) as [key ->].
    by rewrite (den_get _ _ Hb), <- (den_get _ _ Ha). }
  assert (He : ∀ key, pget t1 key = pget t2 key).
  { intros key. apply option_eq. intros v. split; by eapply Hg. }
  destruct (den_wf _ _ H1) as [->|Hw1], (den_wf _ _ H2) as [->|Hw2]; try done.
  - destruct (wf_nonempty _ Hw2) as (k & v & Hk). by rewrite <- He in Hk.
  - destruct (wf_nonempty _ Hw1) as (k & v & Hk). by rewrite He in Hk.
  - by apply wf_unique.
Qed.

Lemma trie_inv_empty : trie_inv nilNode ∅.
Proof. exists PNil. split; [constructor|]. split; [by left|done|done]. Qed.

(** ** Theorems *)

(** Any sequence of lookups, updates and deletions on a trie, of which any part may
    still have to be loaded from the database, ends without an error or a panic, returns
    from every lookup what a map from byte strings to byte strings returns, and leaves a
    trie for the contents of that map. *)
Theorem trie_refines_map root m ops :
  trie_inv root m → ∃ root', run_trie root ops = TOk (root', snd (run_map m ops)) ∧
    trie_inv root' (fst (run_map m ops)).
Proof. apply run_trie_spec. Qed.

(** The structure of the trie depends on its contents only: if two sequences of
    operations, from two tries, lead to the same map, then the resulting nodes stand for
    one and the same trie. *)
Theorem trie_history_independent root1 m1 ops1 root2 m2 ops2 :
  trie_inv root1 m1 → trie_inv root2 m2 → fst (run_map m1 ops1) = fst (run_map m2 ops2) →
  ∃ n1 n2 out1 out2 t, run_trie root1 ops1 = TOk (n1, out1) ∧ run_trie root2 ops2 = TOk (n2, out2) ∧
    rep true n1 t ∧ rep true n2 t.
Proof.
  intros H1 H2 Em. destruct (run_trie_spec _ _ ops1 H1) as (n1 & E1 & t1 & Hr1 & Hd1).
  destruct (run_trie_spec _ _ ops2 H2) as (n2 & E2 & t2 & Hr2 & Hd2). rewrite Em in Hd1.
  pose proof (denotes_unique _ _ _ Hd1 Hd2) as ->. by eexists n1, n2, _, _, t2.
Qed.

(** An update with an empty value does not delete: the key stays, with an empty value. *)
Theorem empty_update_keeps_key root m key :
  trie_inv root m → ∃ root' root'', TryUpdate db_node root key [] = TOk root' ∧
    TryGet db_node root' key = TOk (Some [], root'').
Proof.
  intros Hi. destruct (TryUpdate_spec root m key [] Hi) as (r1 & E1 & Hi1).
  destruct (TryGet_spec r1 _ key Hi1) as (r2 & E2 & _). exists r1, r2. split; [done|].
  by rewrite E2, lookup_insert_eq.
Qed.
End Rep.
