(* ===== verification/TrieNode.v ===== *)
(** * Nodes of the state trie on disk

    l2geth/trie/node.go: the RLP form of trie nodes and its decoder.  The reference is
    the encoding of a whole trie as the protocol defines it, in which a node of 32 bytes
    or more is replaced by its Keccak-256 hash in its parent.  Decoding the encoding of a
    node gives back the node, with its children embedded or as hashes. *)

From stdpp Require Import pretty.
From S2P Require Import Prelude GoErrors EthTypes Extern RLP TrieEncoding Trie.

(** ** Encoding *)

(** What the encoder writes for a node: the exported fields of a short node, the children
    of a full node with an empty string for those that are nil, an empty list for a nil
    interface. *)
Fixpoint node_item (n : node) : item :=
  match n with
  | nilNode => Lst []
  | fullNode cs _ => Lst ((λ c, match c with nilNode => Str [] | _ => node_item c end) <$> cs)
  | shortNode k v _ => Lst [Str k; node_item v]
  | hashNode h => Str h
  | valueNode v => Str v
  end.

Definition encodeNode (n : node) : bytes := EncodeToBytes (node_item n).

(** ** Decoding *)

(** A node, an error with the path at which it occurred (an error that is not a
    [decodeError] has none), or a panic. *)
Inductive dres (A : Type) := DOk (a : A) | DErr (what : error) (stack : list string) | DPanic (msg : string).
Arguments DOk {A} a.
Arguments DErr {A} what stack.
Arguments DPanic {A} msg.

#[export] Instance dres_bind : MBind dres := λ A B f r,
  match r with DOk a => f a | DErr e st => DErr e st | DPanic s => DPanic s end.

Definition wrapError {A} (r : dres A) (ctx : string) : dres A :=
  match r with DErr e st => DErr e (st ++ [ctx]) | _ => r end.

(** The results of the rlp package. *)
Definition of_rlp {A} (r : result A) (f : error → error) : dres A :=
  match r with Ok a => DOk a | Err e => DErr (f e) [] | Panic s => DPanic s end.

Definition hashLen : Z := 32.

Section Decode.
(** [decodeNode] on embedded nodes. *)
Context (dec : bytes → dres node).

Definition decodeRef (buf : bytes) : dres (node * bytes) :=
  '(kind, val, rest) ← of_rlp (Split buf) id;
  if bool_decide (kind = List) then
    if len buf - len rest >? hashLen then DErr (ErrorNew "oversized embedded node") []
    else n ← dec buf; DOk (n, rest)
  else if bool_decide (kind = String) && (len val =? 0) then DOk (nilNode, rest)
  else if bool_decide (kind = String) && (len val =? 32) then DOk (hashNode val, rest)
  else DErr (ErrorNew "invalid RLP string size") [].

Definition decodeShort (hash : option bytes) (elems : bytes) : dres node :=
  '(kbuf, rest) ← of_rlp (SplitString elems) id;
  let flag := mkFlag hash false in
  let key := compactToHex kbuf in
  if hasTerm key then
    '(val, _) ← of_rlp (SplitString rest) (λ _, ErrorNew "invalid value node");
    DOk (shortNode key (valueNode val) flag)
  else
    '(r, _) ← wrapError (decodeRef rest) "val";
    DOk (shortNode key r flag).

(** The loop over the children, from number [i] on. *)
Fixpoint decodeChildren (n i : nat) (elems : bytes) : dres (list node * bytes) :=
  match n with
  | O => DOk ([], elems)
  | S n =>
      '(cld, rest) ← wrapError (decodeRef elems) ("[" +:+ pretty i +:+ "]");
      '(cs, rest) ← decodeChildren n (S i) rest;
      DOk (cld :: cs, rest)
  end.

Definition decodeFull (hash : option bytes) (elems : bytes) : dres node :=
  '(cs, elems) ← decodeChildren 16 0 elems;
  '(val, _) ← of_rlp (SplitString elems) id;
  DOk (fullNode (cs ++ [if len val >? 0 then valueNode val else nilNode]) (mkFlag hash false)).
End Decode.

Fixpoint decodeNode_loop (fuel : nat) (hash : option bytes) (buf : bytes) : dres node :=
  match fuel with
  | O => DPanic "out of fuel"
  | S fuel =>
      if len buf =? 0 then DErr io_ErrUnexpectedEOF []
      else
        '(elems, _) ← of_rlp (SplitList buf) (λ _, ErrorNew "decode error");
        let c := match CountValues elems with Ok c => c | _ => 0 end in
        if c =? 2 then wrapError (decodeShort (decodeNode_loop fuel None) hash elems) "short"
        else if c =? 17 then wrapError (decodeFull (decodeNode_loop fuel None) hash elems) "full"
        else DErr (ErrorNew "invalid number of list elements") []
  end.

(** An embedded node is shorter than the node that holds it. *)
Definition decodeNode (hash : option bytes) (buf : bytes) : dres node := decodeNode_loop (S (length buf)) hash buf.

Definition mustDecodeNode (hash buf : bytes) : fetched :=
  match decodeNode (Some hash) buf with
  | DOk n => Found n
  | DErr _ _ => Undecodable "node"
  | DPanic s => Undecodable s
  end.

(** ** The encoding of a trie *)

(** The hex prefix encoding of the key of a short node. *)
Definition HP (k : bytes) : bytes := match hexToCompact k with Ok c => c | _ => [] end.

Definition is_node (t : ptrie) : bool := match t with PShort _ _ | PFull _ => true | _ => false end.

Section Reference.
Context `{Keccak}.

(** How an item appears in the parent: nodes of 32 bytes and more as their hash. *)
Definition collapse (it : item) : item :=
  match it with
  | Lst _ => if 32 <=? len (rlp_enc it) then Str (Keccak256 (rlp_enc it)) else it
  | Str _ => it
  end.

Fixpoint ref_item (t : ptrie) : item :=
  match t with
  | PNil => Str []
  | PValue v => Str v
  | PShort k c => Lst [Str (HP k); collapse (ref_item c)]
  | PFull cs => Lst ((λ c, collapse (ref_item c)) <$> cs)
  end.

Definition ref_enc (t : ptrie) : bytes := rlp_enc (ref_item t).
Definition ref_hash (t : ptrie) : bytes := Keccak256 (ref_enc t).

(** Whether a trie is stored under its hash when it is not the root. *)
Definition hashed (t : ptrie) : bool := is_node t && (32 <=? len (ref_enc t)).

(** The node that the database returns for a trie: its children are embedded or hashes. *)
Fixpoint stored_node (h : option bytes) (t : ptrie) : node :=
  let child c := if hashed c then hashNode (ref_hash c) else stored_node None c in
  match t with
  | PNil => nilNode
  | PValue v => valueNode v
  | PShort k c => shortNode k (child c) (mkFlag h false)
  | PFull cs => fullNode (child <$> cs) (mkFlag h false)
  end.

Definition stored_child (c : ptrie) : node := if hashed c then hashNode (ref_hash c) else stored_node None c.

Lemma stored_full h cs : stored_node h (PFull cs) = fullNode (stored_child <$> cs) (mkFlag h false).
Proof. done. Qed.

Lemma ref_item_node t : is_node t = true → ∃ l, ref_item t = Lst l.
Proof. destruct t; try done; intros _; by eexists. Qed.

Lemma collapse_hashed t : hashed t = true → collapse (ref_item t) = Str (ref_hash t).
Proof.
  unfold hashed. intros [Hn Hl]%andb_prop. destruct (ref_item_node t Hn) as [l E].
  unfold collapse, ref_hash, ref_enc in *. rewrite E in *. by rewrite Hl.
Qed.

Lemma collapse_embedded t : hashed t = false → collapse (ref_item t) = ref_item t.
Proof.
  unfold hashed. intros Hh. destruct (is_node t) eqn:Hn; [|by destruct t].
  destruct (ref_item_node t Hn) as [l E]. unfold collapse, ref_enc in *. rewrite E in *. cbn [andb] in Hh. by rewrite Hh.
Qed.

(** ** Parts of a trie *)

#[warnings="-register-all"]
Inductive sub : ptrie → ptrie → Prop :=
| sub_refl t : sub t t
| sub_short s k c : sub s c → sub s (PShort k c)
| sub_full s cs i c : cs !! i = Some c → sub s c → sub s (PFull cs).

Definition everywhere (P : ptrie → Prop) (t : ptrie) : Prop := ∀ s, sub s t → P s.

Lemma everywhere_here P t : everywhere P t → P t.
Proof. intros HA. apply HA. constructor. Qed.
Lemma everywhere_short P k c : everywhere P (PShort k c) → everywhere P c.
Proof. intros HA s Hs. apply HA. by constructor. Qed.
Lemma everywhere_full P cs i c : everywhere P (PFull cs) → cs !! i = Some c → everywhere P c.
Proof. intros HA Hc s Hs. apply HA. by econstructor. Qed.

Definition below (P : ptrie → Prop) (t : ptrie) : Prop :=
  match t with
  | PShort _ c => everywhere P c
  | PFull cs => ∀ i c, cs !! i = Some c → everywhere P c
  | _ => True
  end.

Lemma everywhere_below P t : P t → below P t → everywhere P t.
Proof. intros Ht Hb s Hs. destruct Hs as [t|s k c Hs|s cs i c Hi Hs]; [done|by apply Hb|by eapply Hb]. Qed.

(** Keys and values within what the encoder can handle. *)
Definition sized : ptrie → Prop :=
  everywhere (λ s, match s with PShort k _ => len k < 2 ^ 32 | PValue v => len v < 2 ^ 32 | _ => True end).

(** No full node holds an empty value, which on disk is the same as none. *)
Definition solid : ptrie → Prop :=
  everywhere (λ s, match s with PFull cs => cs !! 16%nat ≠ Some (PValue []) | _ => True end).

(** ** Bounds on the encoding *)

Lemma HP_spec ks (t : bool) :
  nibbles ks → let k := ks ++ (if t then [term] else []) in
  hexToCompact k = Ok (HP k) ∧ HP k ≠ [] ∧ compactToHex (HP k) = k ∧ len (HP k) <= len k + 1.
Proof.
  intros Hn. destruct (nibbles_cases ks Hn) as (odd & key & -> & Ho). cbn zeta.
  change ((_ ++ split key) ++ _) with (compact_hex t odd key). unfold HP.
  rewrite hexToCompact_compact by done. split_and!; [done..|by apply compactToHex_compact|].
  unfold compact, compact_hex. rewrite len_cons, !len_app. unfold len. rewrite length_split.
  pose proof (Nat2Z.is_nonneg (length (match odd with Some b => [b] | None => [] end))).
  pose proof (Nat2Z.is_nonneg (length (if t then [term] else []))). lia.
Qed.

Lemma wf_key k c : wf (PShort k c) → ∃ ks (t : bool), nibbles ks ∧ k = ks ++ (if t then [term] else []) ∧ (t = true ↔ is_value c).
Proof.
  cbn [wf]. destruct c; try done.
  - intros (_ & Hn & _). exists k, false. by rewrite app_nil_r.
  - intros (ks & Hn & ->). by exists ks, true.
Qed.

Lemma size_enc_string b : len (enc_string b) <= len b + 9 ∨ 2 ^ 64 <= len b.
Proof.
  destruct (Z.lt_ge_cases (len b) (2 ^ 64)) as [Hb|]; [left|by right].
  assert (Hp : len (puthead 0x80 0xB7 (len b) ++ b) <= len b + 9).
  { rewrite len_app. pose proof (len_nonneg b). unfold puthead. destruct (len b <? 56) eqn:E; [unfold len; cbn [length]; lia|].
    rewrite len_cons. pose proof (putint_length_range (len b)) as Hr. unfold is_u64 in Hr. lia. }
  unfold enc_string. destruct b as [|b0 [|b1 b]]; try done. destruct (byte_val b0 <=? 0x7F); [unfold len; cbn [length]; lia|done].
Qed.

Lemma size_enc_list c : len c < 2 ^ 64 → len (enc_list c) <= len c + 9.
Proof.
  intros Hb. unfold enc_list. rewrite len_app. pose proof (len_nonneg c). unfold puthead. destruct (len c <? 56) eqn:E; [unfold len; cbn [length]; lia|].
  rewrite len_cons. pose proof (putint_length_range (len c)) as Hr. unfold is_u64 in Hr. lia.
Qed.

Lemma len_ref_hash t : len (ref_hash t) = 32.
Proof. unfold ref_hash, len. by rewrite Keccak256_length. Qed.

(** What a node contributes to its parent. *)
Lemma len_child c : sized c → len (rlp_enc (collapse (ref_item c))) <= 2 ^ 32 + 9.
Proof.
  intros Hs. destruct (hashed c) eqn:Hh.
  - rewrite collapse_hashed by done. cbn [rlp_enc]. destruct (size_enc_string (ref_hash c)) as [He|He]; rewrite len_ref_hash in He; lia.
  - rewrite collapse_embedded by done. unfold hashed in Hh. destruct (is_node c) eqn:Hn.
    + cbn [andb] in Hh. unfold ref_enc in Hh. lia.
    + destruct c as [| | |v]; try done; cbn [ref_item rlp_enc]. apply everywhere_here in Hs.
      destruct (size_enc_string v); lia.
Qed.

Lemma len_concat_le (l : list bytes) b : Forall (λ x, len x <= b) l → len (concat l) <= b * len l.
Proof.
  induction 1 as [|x l Hx Hl IH]; [unfold len; cbn [concat length]; lia|]. cbn [concat]. rewrite len_app, len_cons. lia.
Qed.

Lemma sized_enc t : wf t → sized t → len (ref_enc t) < 2 ^ 38.
Proof.
  intros Hw Hs. unfold ref_enc. destruct t as [|cs|k c|v]; try done; cbn [ref_item rlp_enc].
  - apply wf_full in Hw as (Hl & _ & _).
    assert (Hc : len (concat (rlp_enc <$> ((λ c, collapse (ref_item c)) <$> cs))) <= (2 ^ 32 + 9) * 17).
    { replace 17 with (len (rlp_enc <$> ((λ c, collapse (ref_item c)) <$> cs))) by (unfold len; rewrite !length_fmap; lia).
      apply len_concat_le, Forall_fmap, Forall_fmap, Forall_lookup. intros i c Hi. cbn. apply len_child.
      by eapply everywhere_full. }
    pose proof (size_enc_list _ (Z.le_lt_trans _ _ (2 ^ 64) Hc eq_refl)). lia.
  - destruct (wf_key _ _ Hw) as (ks & t & Hn & -> & _). destruct (HP_spec ks t Hn) as (_ & _ & _ & Hlen).
    pose proof (everywhere_here _ _ Hs) as Hk. cbn in Hk. apply everywhere_short in Hs.
    pose proof (len_child c Hs). cbn [fmap list_fmap concat rlp_enc]. rewrite app_nil_r.
    destruct (size_enc_string (HP (ks ++ if t then [term] else []))) as [He|He]; [|lia].
    assert (Hb : len (enc_string (HP (ks ++ if t then [term] else [])) ++ rlp_enc (collapse (ref_item c))) <= 2 ^ 34).
    { rewrite len_app. lia. }
    pose proof (size_enc_list _ (Z.le_lt_trans _ _ (2 ^ 64) Hb eq_refl)). lia.
Qed.

(** ** Decoding what was encoded *)

Lemma SplitString_enc b rest :
  len (enc_string b ++ rest) < 2 ^ 64 → SplitString (enc_string b ++ rest) = Ok (b, rest).
Proof.
  intros Hl. unfold SplitString. pose proof (Split_rlp_enc (Str b) rest Hl) as Hs. cbn [rlp_enc item_content] in Hs.
  rewrite Hs. cbn [mbind result_bind]. rewrite bool_decide_eq_false_2; [done|].
  cbn [item_kind]. destruct b as [|b0 [|b1 b]]; try done. by destruct (_ <=? _).
Qed.

Lemma SplitList_enc l rest :
  len (rlp_enc (Lst l) ++ rest) < 2 ^ 64 → SplitList (rlp_enc (Lst l) ++ rest) = Ok (concat (rlp_enc <$> l), rest).
Proof. intros Hl. unfold SplitList. by rewrite Split_rlp_enc. Qed.

Lemma item_kind_Str_long b : (1 < length b)%nat → item_kind (Str b) = String.
Proof. destruct b as [|b0 [|b1 b]]; cbn; try lia. done. Qed.

(** A child of a full node, or of an extension node, given that embedded nodes are decoded. *)
Lemma decodeRef_child dec c rest :
  c = PNil ∨ wf c → len (rlp_enc (collapse (ref_item c)) ++ rest) < 2 ^ 64 →
  (wf c → hashed c = false → dec (ref_enc c ++ rest) = DOk (stored_node None c)) →
  decodeRef dec (rlp_enc (collapse (ref_item c)) ++ rest) = DOk (stored_child c, rest).
Proof.
  intros Hc Hl Hdec. unfold decodeRef, stored_child. rewrite Split_rlp_enc by done. cbn [of_rlp mbind dres_bind id].
  destruct (hashed c) eqn:Hh.
  - rewrite collapse_hashed by done. rewrite item_kind_Str_long by (pose proof (len_ref_hash c); unfold len in *; lia).
    cbn [item_content]. rewrite (bool_decide_eq_false_2 (String = List)), (bool_decide_eq_true_2 (String = String)) by done.
    by rewrite len_ref_hash.
  - rewrite collapse_embedded by done. destruct Hc as [->|Hw]; [done|].
    assert (Hn : is_node c = true) by by destruct c. destruct (ref_item_node c Hn) as [l E].
    unfold hashed, ref_enc in *. rewrite Hn in Hh. cbn [andb] in Hh. rewrite E in *. cbn [item_kind].
    rewrite (bool_decide_eq_true_2 (List = List)) by done. rewrite len_app.
    rewrite Z.gtb_ltb, (proj2 (Z.ltb_ge _ _)) by (unfold hashLen; lia). rewrite Hdec by done. done.
Qed.

Lemma decodeChildren_enc dec cs i rest :
  (∀ j c r, cs !! j = Some c → len (rlp_enc (collapse (ref_item c)) ++ r) < 2 ^ 64 →
     decodeRef dec (rlp_enc (collapse (ref_item c)) ++ r) = DOk (stored_child c, r)) →
  len (concat (rlp_enc <$> ((λ c, collapse (ref_item c)) <$> cs)) ++ rest) < 2 ^ 64 →
  decodeChildren dec (length cs) i (concat (rlp_enc <$> ((λ c, collapse (ref_item c)) <$> cs)) ++ rest) =
    DOk (stored_child <$> cs, rest).
Proof.
  revert i. induction cs as [|c cs IH]; intros i Hd Hl; [done|].
  cbn [length decodeChildren fmap list_fmap concat] in *. rewrite <- app_assoc in *.
  rewrite (Hd 0%nat c) by done. cbn [wrapError mbind dres_bind].
  rewrite IH; [done| |].
  - intros j c' r Hj. by apply (Hd (S j)).
  - rewrite len_app in Hl. pose proof (len_nonneg (rlp_enc (collapse (ref_item c)))). lia.
Qed.

(** The list of the children of a full node, with the value last. *)
Lemma full_children cs : wf (PFull cs) → ∃ cs16 c, cs = cs16 ++ [c] ∧ length cs16 = 16%nat ∧
  (c = PNil ∨ is_value c) ∧ ∀ i c', cs16 !! i = Some c' → c' = PNil ∨ wf c'.
Proof.
  intros (Hl & _ & Hc)%wf_full. destruct cs as [|c cs16 _] using rev_ind; [done|].
  rewrite length_app in Hl. cbn in Hl. assert (Hl16 : length cs16 = 16%nat) by lia. exists cs16, c. split_and!; try done.
  - destruct (Hc 16%nat c) as [->|[[? _]|[_ ?]]]; [by rewrite list_lookup_middle|by left|lia|by right].
  - intros i c' Hi. assert (i < 16)%nat by (rewrite <- Hl16; by eapply lookup_lt_Some).
    destruct (Hc i c') as [->|[[_ ?]|[? _]]]; [by apply lookup_app_l_Some|by left|by right|lia].
Qed.

Lemma CountValues_items l : len (concat (rlp_enc <$> l)) < 2 ^ 64 → CountValues (concat (rlp_enc <$> l)) = Ok (len l).
Proof. intros Hl. unfold CountValues. by rewrite CountValues_loop_enc. Qed.

(** The header of a node and the number of its elements. *)
Lemma decodeNode_step fuel h l rest :
  len (rlp_enc (Lst l) ++ rest) < 2 ^ 64 →
  decodeNode_loop (S fuel) h (rlp_enc (Lst l) ++ rest) =
  let elems := concat (rlp_enc <$> l) in
  if len l =? 2 then wrapError (decodeShort (decodeNode_loop fuel None) h elems) "short"
  else if len l =? 17 then wrapError (decodeFull (decodeNode_loop fuel None) h elems) "full"
  else DErr (ErrorNew "invalid number of list elements") [].
Proof.
  intros Hl. cbn [decodeNode_loop].
  assert (Hne : rlp_enc (Lst l) ++ rest ≠ []) by (intros [E _]%app_eq_nil; by apply rlp_enc_nonempty in E).
  rewrite (proj2 (Z.eqb_neq (len _) 0)) by (unfold len; destruct (rlp_enc (Lst l) ++ rest); [done|cbn [length]; lia]).
  rewrite SplitList_enc by done. cbn [of_rlp mbind dres_bind]. rewrite CountValues_items; [done|].
  cbn [rlp_enc] in Hl. unfold enc_list in Hl. rewrite !len_app in Hl.
  pose proof (len_nonneg rest). pose proof (len_nonneg (puthead 0xC0 0xF7 (len (concat (rlp_enc <$> l))))). lia.
Qed.

Lemma length_enc_list l : (length (concat (rlp_enc <$> l)) < length (rlp_enc (Lst l)))%nat.
Proof.
  cbn [rlp_enc]. unfold enc_list. rewrite length_app.
  enough (puthead 0xC0 0xF7 (len (concat (rlp_enc <$> l))) ≠ []) as Hne.
  { destruct (puthead _ _ _); [done|]. cbn [length]. lia. }
  unfold puthead. by destruct (_ <? _).
Qed.

(** Embedded nodes up to a size are decoded. *)
Definition dec_ok (n : nat) (dec : bytes → dres node) : Prop := ∀ c rest,
  wf c → sized c → solid c → len (ref_enc c ++ rest) < 2 ^ 64 → (length (ref_enc c) ≤ n)%nat →
  dec (ref_enc c ++ rest) = DOk (stored_node None c).

Lemma dec_ok_child n dec c rest :
  dec_ok n dec → c = PNil ∨ wf c → sized c → solid c → len (rlp_enc (collapse (ref_item c)) ++ rest) < 2 ^ 64 →
  (length (rlp_enc (collapse (ref_item c))) ≤ n)%nat →
  decodeRef dec (rlp_enc (collapse (ref_item c)) ++ rest) = DOk (stored_child c, rest).
Proof.
  intros Hdec Hc Hs Hd Hl Hn. apply decodeRef_child; [done..|]. intros Hw Hh.
  rewrite collapse_embedded in * by done. by apply Hdec.
Qed.

Lemma decodeShort_ref n dec h k c :
  dec_ok n dec → wf (PShort k c) → sized (PShort k c) → solid (PShort k c) →
  let elems := concat (rlp_enc <$> [Str (HP k); collapse (ref_item c)]) in
  len elems < 2 ^ 64 → (length elems ≤ n)%nat →
  decodeShort dec h elems = DOk (stored_node h (PShort k c)).
Proof.
  intros Hdec Hw Hs Hd elems Hl Hn. subst elems. cbn [fmap list_fmap concat] in *.
  cbn [rlp_enc] in *. fold (rlp_enc (collapse (ref_item c))) in *.
  destruct (wf_key _ _ Hw) as (ks & t & Hks & -> & Ht). destruct (HP_spec ks t Hks) as (_ & _ & Hhp & _).
  set (k := ks ++ if t then [term] else []) in *. unfold decodeShort. rewrite SplitString_enc by done.
  cbn [of_rlp mbind dres_bind]. rewrite Hhp. rewrite len_app in Hl. pose proof (len_nonneg (enc_string (HP k))).
  assert (Hh : hasTerm k = t) by (unfold k; destruct t; [apply hasTerm_app|rewrite app_nil_r; by apply hasTerm_nibbles]).
  rewrite Hh. destruct t.
  - destruct c as [| | |v]; try (by destruct (proj1 Ht eq_refl)). cbn [ref_item collapse rlp_enc] in *.
    by rewrite SplitString_enc by lia.
  - cbn [wf] in Hw. destruct c as [|cs| |v]; try done; [|by pose proof (proj2 Ht I)].
    destruct Hw as (_ & _ & Hwc). rewrite length_app, app_nil_r in Hn.
    rewrite (dec_ok_child n); [done|done|by right|by eapply everywhere_short|by eapply everywhere_short|lia|lia].
Qed.

Lemma decodeFull_ref n dec h cs :
  dec_ok n dec → wf (PFull cs) → sized (PFull cs) → solid (PFull cs) →
  let elems := concat (rlp_enc <$> ((λ c, collapse (ref_item c)) <$> cs)) in
  len elems < 2 ^ 64 → (length elems ≤ n)%nat →
  decodeFull dec h elems = DOk (stored_node h (PFull cs)).
Proof.
  intros Hdec Hw Hs Hd elems Hl Hn. subst elems.
  destruct (full_children cs Hw) as (cs16 & c & -> & Hl16 & Hc & Hok).
  rewrite !fmap_app, concat_app in *. unfold decodeFull. rewrite <- Hl16.
  rewrite decodeChildren_enc; [|intros j c' r Hj Hr; eapply (dec_ok_child n); try done|done].
  - cbn [mbind dres_bind fmap list_fmap concat]. cbn [fmap list_fmap concat] in Hl. rewrite len_app in Hl.
    pose proof (len_nonneg (concat (rlp_enc <$> ((λ c, collapse (ref_item c)) <$> cs16)))).
    assert (Ev : ∃ v, ref_item c = Str v ∧ stored_child c = if len v >? 0 then valueNode v else nilNode).
    { destruct c as [| | |v]; try (by destruct Hc); [by exists []|]. exists v. split; [done|]. cbn.
      destruct v as [|b v]; [|done]. apply everywhere_here in Hd. cbn in Hd. destruct Hd.
      by rewrite list_lookup_middle. }
    destruct Ev as (v & Ev & Es). rewrite Ev in *. cbn [collapse rlp_enc] in *.
    rewrite SplitString_enc by lia. cbn [of_rlp mbind dres_bind].
    rewrite stored_full, fmap_app. cbn [fmap list_fmap]. by rewrite Es.
  - by eapply Hok.
  - eapply everywhere_full; [apply Hs|]. by apply lookup_app_l_Some.
  - eapply everywhere_full; [apply Hd|]. by apply lookup_app_l_Some.
  - rewrite length_app in Hn. apply list_elem_of_split_length in Hj as (l1 & l2 & -> & _).
    rewrite !fmap_app, concat_app, length_app in Hn. cbn [fmap list_fmap concat] in Hn. rewrite length_app in Hn. lia.
Qed.

(** [decodeNode] on the encoding of a trie gives the stored form of its root. *)
Lemma decodeNode_ref fuel h t rest :
  wf t → sized t → solid t → len (ref_enc t ++ rest) < 2 ^ 64 → (length (ref_enc t) ≤ fuel)%nat →
  decodeNode_loop fuel h (ref_enc t ++ rest) = DOk (stored_node h t).
Proof.
  revert h t rest. induction fuel as [|fuel IH]; intros h t rest Hw Hs Hd Hl Hf.
  { pose proof (rlp_enc_nonempty (ref_item t)). unfold ref_enc in Hf. destruct (rlp_enc (ref_item t)); [done|cbn in Hf; lia]. }
  assert (Hdec : dec_ok fuel (decodeNode_loop fuel None)) by (intros c r; apply IH).
  unfold ref_enc in *. destruct t as [|cs|k c|v]; try done; cbn [ref_item] in *; rewrite decodeNode_step by done;
    match goal with |- context [concat (rlp_enc <$> ?l)] => pose proof (length_enc_list l) as Hlt;
      assert (Hll : len (concat (rlp_enc <$> l)) < 2 ^ 64) by (rewrite len_app in Hl; unfold len in *; lia) end.
  - cbn zeta. replace (len _) with 17 by (unfold len; rewrite length_fmap; apply wf_full in Hw as [-> _]; done).
    cbn [Z.eqb Pos.eqb]. rewrite (decodeFull_ref fuel) by (done || lia). done.
  - cbn zeta. replace (len _) with 2 by done. cbn [Z.eqb Pos.eqb]. rewrite (decodeShort_ref fuel) by (done || lia). done.
Qed.

Lemma decodeNode_enc h t : wf t → sized t → solid t → decodeNode (Some h) (ref_enc t) = DOk (stored_node (Some h) t).
Proof.
  intros Hw Hs Hd. unfold decodeNode. rewrite <- (app_nil_r (ref_enc t)) at 2. apply decodeNode_ref; try done.
  - rewrite app_nil_r. pose proof (sized_enc t Hw Hs). lia.
  - lia.
Qed.

(** Tries with the same encoding are stored in the same way. *)
Lemma ref_enc_stored h t1 t2 :
  wf t1 → sized t1 → solid t1 → wf t2 → sized t2 → solid t2 → ref_enc t1 = ref_enc t2 →
  stored_node (Some h) t1 = stored_node (Some h) t2.
Proof.
  intros Hw1 Hs1 Hd1 Hw2 Hs2 Hd2 E. pose proof (decodeNode_enc h t1 Hw1 Hs1 Hd1) as H1.
  rewrite E, decodeNode_enc in H1 by done. congruence.
Qed.

(** ** Collapsed nodes *)

Definition child_item (n : node) : item := match n with nilNode => Str [] | _ => node_item n end.

(** A node as it is encoded, and as it appears in its parent: keys are in compact form, large
    children are hashes. *)
#[warnings="-register-all"]
Inductive collapsed : bool → node → ptrie → Prop :=
| col_nil : collapsed false nilNode PNil
| col_value v : collapsed false (valueNode v) (PValue v)
| col_hash t : hashed t = true → collapsed false (hashNode (ref_hash t)) t
| col_embedded n t : hashed t = false → collapsed true n t → collapsed false n t
| col_short k n c fl : c ≠ PNil → collapsed false n c → collapsed true (shortNode (HP k) n fl) (PShort k c)
| col_full ns cs fl : Forall2 (collapsed false) ns cs → collapsed true (fullNode ns fl) (PFull cs).

Lemma collapsed_loaded n t : collapsed true n t → is_loaded n.
Proof. by inversion 1. Qed.

Lemma collapsed_item b n t : collapsed b n t →
  if b then node_item n = ref_item t else child_item n = collapse (ref_item t) ∧ (n = nilNode → t = PNil).
Proof.
  revert b n t. fix IH 4. intros b n t Hc. destruct Hc as [|v|t Hh|n t Hh Hc|k n c fl Hn Hc|ns cs fl Hcs].
  - done.
  - done.
  - by rewrite collapse_hashed.
  - pose proof (IH _ _ _ Hc) as E. cbn in E. rewrite collapse_embedded by done. pose proof (collapsed_loaded _ _ Hc). by destruct n.
  - cbn [node_item ref_item]. destruct (IH _ _ _ Hc) as [E Hnil]. rewrite <- E. destruct n; try done. by destruct Hn; apply Hnil.
  - cbn [node_item ref_item]. f_equal. induction Hcs as [|n c ns cs Hc Hcs IHcs]; [done|].
    cbn [fmap list_fmap]. f_equal; [|done]. by destruct (IH _ _ _ Hc).
Qed.
End Reference.
