(* ===== verification/TrieHash.v ===== *)
(** * Hashing and committing the state trie

    l2geth/trie/hasher.go, and [Hash] and [Commit] of l2geth/trie/trie.go.  The hasher
    walks the nodes that have no cached hash, collapses them to what their parent holds
    and, when it commits, writes them to the node database.  The root hash it returns is
    shown to be the hash of the reference encoding of the contents, whatever hashes are
    cached and whatever part of the trie is loaded, and a committed trie can be loaded
    again from its root hash. *)

From S2P Require Import Prelude GoErrors EthTypes Extern RLP TrieEncoding Trie TrieNode.

(** ** The node database *)

(** What the trie uses of the database: a store of blobs under their hash, from which
    nodes are fetched and to which nodes of a trie are added. *)
Class NodeDB `{Keccak} (D : Type) := {
  db_node : D → bytes → fetched;
  db_insert : D → bytes → bytes → node → tres D;
  (** the blobs it holds, its invariant, and which nodes are still in memory *)
  db_blobs : D → gmap bytes bytes;
  db_wf : D → Prop;
  db_live : D → bytes → Prop;
  db_node_blob d h b : db_wf d → db_blobs d !! h = Some b → db_node d h = mustDecodeNode h b;
  db_keys d h b : db_wf d → db_blobs d !! h = Some b → h = Keccak256 b;
  db_insert_blob d n t :
    db_wf d → wf t → sized t → solid t → collapsed true n t → ref_hash t ≠ zeros 32 →
    db_blobs d !! ref_hash t = None ∨ db_blobs d !! ref_hash t = Some (ref_enc t) →
    ∃ d', db_insert d (ref_hash t) (ref_enc t) n = TOk d' ∧ db_wf d' ∧
          db_blobs d' = <[ref_hash t := ref_enc t]> (db_blobs d) ∧ db_live d' (ref_hash t) }.

Section Hasher.
Context `{!Keccak} {D : Type} `{!NodeDB D}.
(** The callback on the values of leaves, with the hash of the node. *)
Context (onleaf : option (bytes → bytes → D → tres D)).

(** ** The hasher *)

(** The cached hash and the dirty flag. *)
Definition cache (n : node) : option bytes * bool :=
  match n with
  | fullNode _ fl | shortNode _ _ fl => (fl_hash fl, fl_dirty fl)
  | _ => (None, true)
  end.

(** The callbacks for the values a node holds. *)
Fixpoint onleaf_children (f : bytes → bytes → D → tres D) (hash : bytes) (cs : list node) (d : D) : tres D :=
  match cs with
  | [] => TOk d
  | valueNode v :: cs => d ← f v hash d; onleaf_children f hash cs d
  | _ :: cs => onleaf_children f hash cs d
  end.

Definition call_onleaf (n : node) (hash : bytes) (d : D) : tres D :=
  match onleaf, n with
  | Some f, shortNode _ (valueNode v) _ => f v hash d
  | Some f, fullNode cs _ => onleaf_children f hash (take 16 cs) d
  | _, _ => TOk d
  end.

(** With a database, the node is written to it. *)
Definition store (n : node) (db : option D) (force : bool) : tres (node * option D) :=
  match n with
  | nilNode | hashNode _ => TOk (n, db)
  | _ =>
      let tmp := encodeNode n in
      if (len tmp <? 32) && negb force then TOk (n, db)
      else
        let hash := match fst (cache n) with Some h => h | None => Keccak256 tmp end in
        match db with
        | None => TOk (hashNode hash, None)
        | Some d =>
            d ← db_insert d (BytesToHash hash) tmp n;
            d ← call_onleaf n (BytesToHash hash) d;
            TOk (hashNode hash, Some d)
        end
  end.

(** The children of a full node, those with number below 16 that are not nil: collapsed
    and with their hashes cached. *)
Fixpoint hashList (rec : node → option D → tres (node * node * option D)) (i : nat) (cs : list node)
    (db : option D) : tres (list node * list node * option D) :=
  match cs with
  | [] => TOk ([], [], db)
  | c :: cs =>
      '(col, cac, db) ←
        match c with
        | nilNode => TOk (c, c, db)
        | _ => if (i <? 16)%nat then rec c db else TOk (c, c, db)
        end;
      '(cols, cacs, db) ← hashList rec (S i) cs db;
      TOk (col :: cols, cac :: cacs, db)
  end.

Definition hashChildren_with (rec : node → option D → tres (node * node * option D)) (original : node)
    (db : option D) : tres (node * node * option D) :=
  match original with
  | shortNode k v fl =>
      match hexToCompact k with
      | Ok ck =>
          match v with
          | valueNode _ => TOk (shortNode ck v fl, shortNode k v fl, db)
          | _ => '(col, cac, db) ← rec v db; TOk (shortNode ck col fl, shortNode k cac fl, db)
          end
      | Err _ => TPanic "error"
      | Panic s => TPanic s
      end
  | fullNode cs fl =>
      '(cols, cacs, db) ← hashList rec 0 cs db; TOk (fullNode cols fl, fullNode cacs fl, db)
  | _ => TOk (original, original, db)
  end.

(** The flags of the cached copy. *)
Definition setFlags (n : node) (hash : option bytes) (commit : bool) : node :=
  let upd fl := mkFlag hash (if commit then false else fl_dirty fl) in
  match n with
  | shortNode k v fl => shortNode k v (upd fl)
  | fullNode cs fl => fullNode cs (upd fl)
  | _ => n
  end.

(** What takes the place of the node in its parent, and the node with its hash cached. *)
Fixpoint hash (n : node) (db : option D) (force : bool) : tres (node * node * option D) :=
  match n, fst (cache n), db with
  | nilNode, _, _ => TPanic "nil pointer dereference"
  | _, Some h, None => TOk (hashNode h, n, db)
  | _, ch, _ =>
      match ch, snd (cache n) with
      | Some h, false => TOk (hashNode h, hashNode h, db)
      | _, _ =>
          '(collapsed, cached, db) ← hashChildren_with (λ c db, hash c db false) n db;
          '(hashed, db) ← store collapsed db force;
          let cachedHash := match hashed with hashNode h => Some h | _ => None end in
          TOk (hashed, setFlags cached cachedHash (bool_decide (is_Some db)), db)
      end
  end.

Definition hashChildren (original : node) (db : option D) : tres (node * node * option D) :=
  hashChildren_with (λ c db, hash c db false) original db.

(** ** The trie *)

Definition hashRoot (root : node) (db : option D) : tres (node * node * option D) :=
  match root with
  | nilNode => TOk (hashNode emptyRoot, nilNode, db)
  | _ => hash root db true
  end.

(** ** What the nodes in memory and in the database stand for *)

(** Every part of the trie that is stored under its hash is in the database. *)
Definition held (B : gmap bytes bytes) (s : ptrie) : Prop := hashed s = true → B !! ref_hash s = Some (ref_enc s).
Definition stored (B : gmap bytes bytes) : ptrie → Prop := everywhere (held B).

(** The root is stored whatever its size. *)
Definition rooted (B : gmap bytes bytes) (t : ptrie) : Prop :=
  B !! ref_hash t = Some (ref_enc t) ∧ stored B t.

(** A hash in memory is that of the trie, which is in the database. *)
Definition hash_ok (d : D) (top : bool) (h : bytes) (t : ptrie) : Prop :=
  h = ref_hash t ∧ (top = false → hashed t = true) ∧ rooted (db_blobs d) t.

(** So is a cached one, and the trie is in the database unless the node is dirty; a clean
    node without a hash is embedded in its parent. *)
Definition flag_ok (d : D) (top : bool) (fl : nodeFlag) (t : ptrie) : Prop :=
  match fl_hash fl with
  | Some h => h = ref_hash t ∧ (top = false → hashed t = true) ∧ (fl_dirty fl = false → rooted (db_blobs d) t)
  | None => fl_dirty fl = true ∨ (top = false ∧ hashed t = false)
  end.

Lemma newFlag_ok d top t : flag_ok d top newFlag t.
Proof. by left. Qed.

(** Tries the encoder and the decoder handle. *)
Definition good (t : ptrie) : Prop := wf t ∧ sized t ∧ solid t.

Lemma good_short k c : good (PShort k c) → is_value c ∨ good c.
Proof.
  intros (Hw & Hs & Hd). cbn [wf] in Hw. destruct c; try done; [right|by left].
  split; [by destruct Hw as (_ & _ & ?)|]. split; by eapply everywhere_short.
Qed.

Lemma good_full cs i c : good (PFull cs) → cs !! i = Some c → c = PNil ∨ ((i < 16)%nat ∧ good c) ∨ (i = 16%nat ∧ is_value c).
Proof.
  intros (Hw & Hs & Hd) Hi. pose proof Hw as (_ & _ & Hc)%wf_full. destruct (Hc _ _ Hi) as [->|[[? Hwc]|[? ?]]]; [by left| |by auto].
  right. left. split; [done|]. split; [done|]. split; by eapply everywhere_full.
Qed.

Lemma BytesToHash_32 h : length h = 32%nat → BytesToHash h = h.
Proof. intros E. unfold BytesToHash. rewrite E. cbn [Nat.sub]. rewrite drop_0, E. done. Qed.

Lemma BytesToHash_ref t : BytesToHash (ref_hash t) = ref_hash t.
Proof. apply BytesToHash_32. unfold ref_hash. by rewrite Keccak256_length. Qed.

Notation rep d := (Trie.rep (db_node d) (hash_ok d) (flag_ok d)).

Lemma db_node_rooted d t : db_wf d → good t → rooted (db_blobs d) t →
  db_node d (ref_hash t) = Found (stored_node (Some (ref_hash t)) t).
Proof.
  intros Hd (Hw & Hs & Hso) [Hr _]. rewrite (db_node_blob _ _ _ Hd Hr). unfold mustDecodeNode. by rewrite decodeNode_enc.
Qed.

Lemma stored_here B t : stored B t → hashed t = true → rooted B t.
Proof. intros Hs Hh. split; [by apply everywhere_here in Hs; apply Hs|done]. Qed.

Lemma rep_stored_child d c :
  db_wf d → good c → stored (db_blobs d) c →
  (∀ top h, flag_ok d top (mkFlag h false) c → rep d top (stored_node h c) c) → rep d false (stored_child c) c.
Proof.
  intros Hd Hg Hst HI. unfold stored_child. destruct (hashed c) eqn:Hh; [|by apply HI; right].
  pose proof (stored_here _ _ Hst Hh) as Hr.
  eapply rep_hash; [rewrite BytesToHash_ref; by apply db_node_rooted| |by split|].
  - by destruct Hg as [Hw _]; destruct c.
  - apply HI. split; [done|]. by split.
Qed.

(** What is in the database stands for the trie. *)
Lemma rep_stored_node d top h t :
  db_wf d → good t → stored (db_blobs d) t → flag_ok d top (mkFlag h false) t → rep d top (stored_node h t) t.
Proof.
  intros Hd. revert top h. induction t as [|v|k c IH|cs IH] using ptrie_nested_ind; intros top h Hg Hst Hfl; [constructor|constructor|..].
  - change (rep d top (shortNode k (stored_child c) (mkFlag h false)) (PShort k c)). constructor; [|done].
    destruct (good_short _ _ Hg) as [Hv|Hgc]; [destruct c; try done; constructor|].
    apply everywhere_short in Hst. apply rep_stored_child; auto.
  - rewrite stored_full. constructor; [|done]. apply Forall2_fmap_l, Forall_Forall2_diag, Forall_lookup. intros i c Hi.
    rewrite Forall_lookup in IH. destruct (good_full _ _ _ Hg Hi) as [->|[[_ Hgc]|[_ Hv]]]; [constructor| |destruct c; try done; constructor].
    pose proof (everywhere_full _ _ _ _ Hst Hi). apply rep_stored_child; [done..|]. intros top' h' Hfl'. by eapply IH.
Qed.

(** Nothing changes when the database grows. *)
Lemma rooted_mono B B' t : B ⊆ B' → rooted B t → rooted B' t.
Proof.
  intros Hsub [Hr Hs]. split; [by eapply lookup_weaken|]. intros s Hsu Hh. by eapply lookup_weaken; [apply Hs|].
Qed.

Lemma flag_ok_mono d d' top fl t : db_blobs d ⊆ db_blobs d' → flag_ok d top fl t → flag_ok d' top fl t.
Proof.
  unfold flag_ok. destruct (fl_hash fl); [|done]. intros Hsub (-> & Hh & Hd). split_and!; [done..|].
  intros Hf. by eapply rooted_mono; [|apply Hd].
Qed.

Lemma rep_mono d d' top n t :
  db_wf d → db_wf d' → db_blobs d ⊆ db_blobs d' → rep d top n t → rep d' top n t.
Proof.
  intros Hd Hd' Hsub. revert top n t. fix IH 4. intros top n t Hr.
  destruct Hr as [|v|k n t fl Hn Hfl|cs ts fl Hcs Hfl|h n t Hdb Hl Hh Hn].
  - constructor.
  - constructor.
  - constructor; [by apply IH|by eapply flag_ok_mono].
  - constructor; [|by eapply flag_ok_mono]. clear Hfl. induction Hcs; constructor; [by apply IH|done].
  - destruct Hh as (-> & Htop & Hroot). eapply rep_hash; [|done| |by apply IH].
    + rewrite BytesToHash_ref in *. destruct Hroot as [Hb _]. rewrite (db_node_blob _ _ _ Hd Hb) in Hdb.
      by rewrite (db_node_blob _ _ _ Hd' (lookup_weaken _ _ _ _ Hb Hsub)).
    + split; [done|]. split; [done|]. by eapply rooted_mono.
Qed.

(** ** The hasher computes the reference encoding *)

(** No two different blobs of a set have the same hash, and none has the zero hash, which
    the database uses for itself. *)
Record coll_free (U : bytes → Prop) : Prop := {
  hash_unique a b : U a → U b → Keccak256 a = Keccak256 b → a = b;
  hash_nonzero a : U a → Keccak256 a ≠ zeros 32 }.

(** The blobs of a database and of a trie. *)
Definition blobs_in (U : bytes → Prop) (d : D) : Prop := ∀ h b, db_blobs d !! h = Some b → U b.
Definition covers (U : bytes → Prop) : ptrie → Prop := everywhere (λ s, is_node s = true → U (ref_enc s)).

(** The callback leaves the blobs alone and works for nodes in memory. *)
Definition onleaf_ok : Prop := ∀ f, onleaf = Some f → ∀ v h d, db_wf d → db_live d h →
  ∃ d', f v h d = TOk d' ∧ db_wf d' ∧ db_blobs d' = db_blobs d ∧ db_live d' h.

(** What stands for the trie in its parent, or for the root: the hash, or the node. *)
Definition shows (top : bool) (t : ptrie) (hn : node) : Prop :=
  if top || hashed t then hn = hashNode (ref_hash t) else collapsed true hn t.

Section Spec.
(** Hashing only, or committing to a database whose blobs, with those of the trie, are
    in a set without collisions. *)
Context (commit : bool) (U : bytes → Prop) (U_free : commit = true → coll_free U) (leaf_ok : onleaf_ok).

Definition dbo (d : D) : option D := if commit then Some d else None.

Definition ext (d d' : D) : Prop :=
  db_wf d' ∧ db_blobs d ⊆ db_blobs d' ∧ if commit then blobs_in U d → blobs_in U d' else d' = d.

Lemma ext_refl d : db_wf d → ext d d.
Proof. intros Hd. split_and!; [done..|]. by destruct commit. Qed.

Lemma ext_trans d1 d2 d3 : ext d1 d2 → ext d2 d3 → ext d1 d3.
Proof.
  intros (H1 & H2 & H3) (H4 & H5 & H6). split_and!; [done|by etrans|]. destruct commit; [auto|congruence].
Qed.

(** What is known of a database and a trie before. *)
Definition ready (d : D) (t : ptrie) : Prop := db_wf d ∧ (commit = true → blobs_in U d ∧ covers U t).

Lemma ready_ext d d' t : ready d t → ext d d' → ready d' t.
Proof.
  intros [Hd Hr] (Hd' & _ & He). split; [done|]. intros Hc. destruct (Hr Hc) as [Hb Hcov]. rewrite Hc in He. auto.
Qed.

(** What is known after committing. *)
Definition done_ok (d : D) (top : bool) (t : ptrie) : Prop :=
  commit = true → stored (db_blobs d) t ∧ (top || hashed t = true → rooted (db_blobs d) t).

Definition hash_result (top : bool) (t : ptrie) (d : D) (r : tres (node * node * option D)) : Prop :=
  ∃ hn n' d', r = TOk (hn, n', dbo d') ∧ ext d d' ∧ rep d' top n' t ∧ shows top t hn ∧ done_ok d' top t.

(** *** Storing a collapsed node *)

Lemma encode_ref n t : good t → collapsed true n t → encodeNode n = ref_enc t.
Proof.
  intros (Hw & Hs & _) E%collapsed_item. cbn in E. unfold encodeNode. rewrite E. apply EncodeToBytes_enc. unfold enc_ok.
  pose proof (sized_enc t Hw Hs) as Hl. unfold ref_enc in Hl. lia.
Qed.

Lemma call_onleaf_ok n h d :
  db_wf d → db_live d h → ∃ d', call_onleaf n h d = TOk d' ∧ db_wf d' ∧ db_blobs d' = db_blobs d ∧ db_live d' h.
Proof.
  intros Hd Hl. unfold call_onleaf. destruct onleaf as [f|] eqn:Ef; [|by exists d].
  destruct n as [|cs fl|k v fl|h'|v]; try (by exists d).
  - generalize (take 16 cs) as l. intros l. revert d Hd Hl. induction l as [|c l IH]; intros d Hd Hl; [by exists d|].
    cbn [onleaf_children]. destruct c; try (by apply IH). destruct (leaf_ok f Ef value h d Hd Hl) as (d1 & -> & Hd1 & Hb1 & Hl1).
    cbn [mbind tres_bind]. destruct (IH d1 Hd1 Hl1) as (d2 & -> & Hd2 & Hb2 & Hl2). exists d2. split_and!; try done. congruence.
  - destruct v; try (by exists d). by apply (leaf_ok f Ef).
Qed.

(** The database has no other blob under the hash of the trie. *)
Lemma no_clash d t : commit = true → ready d t → is_node t = true → ref_hash t ≠ zeros 32 ∧
  (db_blobs d !! ref_hash t = None ∨ db_blobs d !! ref_hash t = Some (ref_enc t)).
Proof.
  intros Hc [Hd Hr] Hn. destruct (Hr Hc) as [Hb Hcov].
  split; [apply (hash_nonzero _ (U_free Hc)); by apply (everywhere_here _ _ Hcov)|]. destruct (db_blobs d !! ref_hash t) as [b|] eqn:E; [right|by left].
  f_equal. apply (hash_unique _ (U_free Hc)); [by eapply Hb|by apply (everywhere_here _ _ Hcov)|]. symmetry. by apply (db_keys d).
Qed.

Lemma store_spec d top n t fl :
  good t → ready d t → collapsed true n t → fst (cache n) = fl_hash fl → flag_ok d top fl t →
  ∃ hn d', store n (dbo d) top = TOk (hn, dbo d') ∧ ext d d' ∧ shows top t hn ∧
    (commit = true → top || hashed t = true → db_blobs d' !! ref_hash t = Some (ref_enc t)).
Proof.
  intros Hg Hr En Ec Hfl. pose proof (collapsed_loaded _ _ En) as Hl. pose proof Hg as (Hw & Hs & Hso). pose proof Hr as [Hd Hr'].
  assert (Hnode : is_node t = true) by by destruct t.
  assert (Hst : store n (dbo d) top = if top || hashed t then
      match dbo d with
      | None => TOk (hashNode (ref_hash t), None)
      | Some d => d ← db_insert d (ref_hash t) (ref_enc t) n; d ← call_onleaf n (ref_hash t) d;
                  TOk (hashNode (ref_hash t), Some d)
      end else TOk (n, dbo d)).
  { assert (Hh : match fst (cache n) with Some h => h | None => Keccak256 (encodeNode n) end = ref_hash t).
    { rewrite Ec. unfold flag_ok in Hfl. destruct (fl_hash fl); [by destruct Hfl|]. by rewrite (encode_ref n t). }
    assert (Hb : (len (encodeNode n) <? 32) && negb top = negb (top || hashed t)).
    { rewrite (encode_ref n t) by done. unfold hashed. rewrite Hnode, negb_orb, andb_comm. cbn [andb].
      by rewrite Z.leb_antisym, negb_involutive. }
    unfold store. destruct n; try done; rewrite Hh, Hb, BytesToHash_ref, (encode_ref _ t) by done; by destruct (top || hashed t). }
  rewrite Hst. unfold shows. destruct (top || hashed t) eqn:Etop; [|exists n, d; split_and!; try done; by apply ext_refl].
  pose proof (λ Hc, no_clash d t Hc Hr Hnode) as Hclash.
  unfold dbo, ext. destruct commit; [|by exists (hashNode (ref_hash t)), d]. destruct (Hclash eq_refl) as [Hnz Hcl].
  destruct (db_insert_blob d n t Hd Hw Hs Hso En Hnz Hcl) as (d1 & -> & Hd1 & Hb1 & Hl1). cbn [mbind tres_bind].
  destruct (call_onleaf_ok n (ref_hash t) d1 Hd1 Hl1) as (d2 & -> & Hd2 & Hb2 & _). cbn [mbind tres_bind].
  eexists _, d2. split; [done|]. rewrite Hb2, Hb1. destruct (Hr' eq_refl) as [HB Hcov]. split_and!; try done.
  - destruct Hcl as [E|E]; [by apply insert_subseteq|by rewrite insert_id].
  - intros _ h b. rewrite Hb2, Hb1. intros [[_ <-]|[_ Hx]]%lookup_insert_Some; [by apply (everywhere_here _ _ Hcov)|by eapply HB].
  - intros _ _. apply lookup_insert_eq.
Qed.

(** *** Collapsing the children *)

Lemma shows_child c hn : shows false c hn → collapsed false hn c.
Proof. unfold shows. cbn [orb]. destruct (hashed c) eqn:Hh; [intros ->; by constructor|by apply col_embedded]. Qed.

(** The hasher on the nodes below, for the trie [c]. *)
Definition rec_ok (rec : node → option D → tres (node * node * option D)) (c : ptrie) : Prop :=
  ∀ d n, ready d c → rep d false n c → hash_result false c d (rec n (dbo d)).

(** What is known of a child with number [i]. *)
Definition child_good (i : nat) (c : ptrie) : Prop :=
  c = PNil ∨ ((i < 16)%nat ∧ good c) ∨ (i = 16%nat ∧ is_value c).

Lemma rep_value_node d top n v : rep d top n (PValue v) → n = valueNode v.
Proof. inversion 1 as [| | | |? n' ? ? Hl ? Hn]; subst; [done|]. by inversion Hn; subst. Qed.

Lemma hashList_spec rec i d cs ts :
  Forall2 (rep d false) cs ts → db_wf d → Forall (ready d) ts →
  (∀ j c, ts !! j = Some c → child_good (i + j) c ∧ (good c → rec_ok rec c)) →
  ∃ cols cacs d', hashList rec i cs (dbo d) = TOk (cols, cacs, dbo d') ∧ ext d d' ∧
    Forall2 (collapsed false) cols ts ∧ Forall2 (rep d' false) cacs ts ∧
    (commit = true → Forall (stored (db_blobs d')) ts).
Proof.
  revert i d ts. induction cs as [|n cs IH]; intros i d ts Hcs Hd Hr Hok.
  { inversion Hcs; subst. exists [], [], d. split_and!; [done|by apply ext_refl|done..]. }
  apply Forall2_cons_inv_l in Hcs as (c & ts' & Hn & Hcs & ->). apply Forall_cons in Hr as [Hrc Hr].
  destruct (Hok 0%nat c eq_refl) as [Hcg Hrec]. rewrite Nat.add_0_r in Hcg.
  assert (Hhead : ∃ col cac d1, match n with nilNode => TOk (n, n, dbo d)
      | _ => if (i <? 16)%nat then rec n (dbo d) else TOk (n, n, dbo d) end = TOk (col, cac, dbo d1) ∧
      ext d d1 ∧ collapsed false col c ∧ rep d1 false cac c ∧ (commit = true → stored (db_blobs d1) c)).
  { assert (Hsame : ∀ c', is_node c' = false → ∀ B, stored B c').
    { intros c' Hc' B s Hs Hh. inversion Hs; subst; try done. unfold hashed in Hh. by rewrite Hc' in Hh. }
    destruct Hcg as [->|[[Hi Hg]|[-> Hv]]].
    - apply rep_nil_iff in Hn as [_ Hn]. rewrite Hn by done. exists nilNode, nilNode, d.
      split_and!; [done|by apply ext_refl|constructor|constructor|intros _; by apply Hsame].
    - destruct (Hrec Hg d n Hrc Hn) as (hn & n' & d1 & E & Hext & Hn' & Hsh & Hdn). rewrite E.
      exists hn, n', d1. rewrite (proj2 (Nat.ltb_lt _ _)) by done.
      split_and!; [|done|by apply shows_child|done|intros Hc; by destruct (Hdn Hc)].
      destruct n; try done. apply rep_nil_iff in Hn as [Hn _]. destruct Hg as [Hw _]. by rewrite Hn in Hw.
    - destruct c as [| | |v]; try done. pose proof (rep_value_node _ _ _ _ Hn) as ->. exists (valueNode v), (valueNode v), d.
      split_and!; [done|by apply ext_refl|constructor|constructor|intros _; by apply Hsame]. }
  destruct Hhead as (col & cac & d1 & Ehd & Hext & Ecol & Hcac & Hst). cbn [hashList]. rewrite Ehd. cbn [mbind tres_bind].
  destruct (IH (S i) d1 ts') as (cols & cacs & d2 & -> & Hext2 & Ecols & Hcacs & Hst2).
  - eapply Forall2_impl; [done|]. intros ? ? Hx. eapply rep_mono; [..|done]; [done|by destruct Hext|by destruct Hext as (_ & ? & _)].
  - by destruct Hext.
  - eapply Forall_impl; [done|]. intros ? Hx. by eapply ready_ext.
  - intros j c' Hj. destruct (Hok (S j) c' Hj) as [Hcg' Hrec']. rewrite Nat.add_succ_r in Hcg'. done.
  - cbn [mbind tres_bind]. exists (col :: cols), (cac :: cacs), d2. pose proof Hext as (Hd1 & _). pose proof Hext2 as (Hd2 & Hsub2 & _).
    split_and!; [done|by eapply ext_trans|by constructor| |].
    + constructor; [|done]. by eapply rep_mono; [..|done].
    + intros Hc. constructor; [|by apply Hst2]. intros s Hs Hh. eapply lookup_weaken; [by apply (Hst Hc)|done].
Qed.

(** *** Whole nodes *)

(** A hash is its own result. *)
Lemma hash_hashNode d top h t :
  db_wf d → rep d top (hashNode h) t → hash_result top t d (hash (hashNode h) (dbo d) top).
Proof.
  intros Hd Hr. inversion Hr as [| | | |? n ? Hdb Hl Hh Hn]; subst. destruct Hh as (-> & Htop & Hroot).
  exists (hashNode (ref_hash t)), (hashNode (ref_hash t)), d. split_and!; [|by apply ext_refl|done| |].
  - cbn. by destruct (dbo d).
  - unfold shows. destruct top; [done|]. by rewrite (Htop eq_refl).
  - intros _. split; [by destruct Hroot|done].
Qed.

(** A clean node with a cached hash is replaced by the hash when committing. *)
Lemma rep_clean d top t :
  db_wf d → good t → (top = false → hashed t = true) → rooted (db_blobs d) t → rep d top (hashNode (ref_hash t)) t.
Proof.
  intros Hd Hg Htop Hr. eapply rep_hash; [rewrite BytesToHash_ref; by apply db_node_rooted| |by split|].
  - by destruct Hg as [Hw _]; destruct t.
  - apply rep_stored_node; [done..|by destruct Hr|]. split; [done|]. by split.
Qed.

(** The steps after the cached hash has been found of no use. *)
Definition hash_walk (n : node) (db : option D) (force : bool) : tres (node * node * option D) :=
  '(collapsed, cached, db) ← hashChildren n db;
  '(hashed, db) ← store collapsed db force;
  let cachedHash := match hashed with hashNode h => Some h | _ => None end in
  TOk (hashed, setFlags cached cachedHash (bool_decide (is_Some db)), db).

Lemma hash_eq n db force : is_loaded n → hash n db force =
  match fst (cache n), db, snd (cache n) with
  | Some h, None, _ => TOk (hashNode h, n, None)
  | Some h, _, false => TOk (hashNode h, hashNode h, db)
  | _, _, _ => hash_walk n db force
  end.
Proof. by destruct n as [|cs [[h|] []]|k v [[h|] []]| |], db. Qed.

(** A loaded node of which the walk gives a good result gives a good result. *)
Lemma hash_loaded d top n t fl :
  good t → db_wf d → is_loaded n → cache n = (fl_hash fl, fl_dirty fl) → flag_ok d top fl t → rep d top n t →
  (fl_hash fl = None ∨ commit = true → hash_result top t d (hash_walk n (dbo d) top)) →
  hash_result top t d (hash n (dbo d) top).
Proof.
  intros Hg Hd Hl Hc Hfl Hr HW. rewrite hash_eq, Hc by done. cbn [fst snd]. unfold flag_ok in Hfl.
  destruct (fl_hash fl) as [h|]; [|by apply HW; left]. destruct Hfl as (-> & Htop & Hroot).
  assert (Hsh : shows top t (hashNode (ref_hash t))) by (unfold shows; destruct top; [done|by rewrite (Htop eq_refl)]).
  unfold hash_result, dbo, done_ok, ext in *. destruct commit.
  - destruct (fl_dirty fl); [by apply HW; right|]. specialize (Hroot eq_refl).
    exists (hashNode (ref_hash t)), (hashNode (ref_hash t)), d. split_and!; try done; [by apply rep_clean|].
    intros _. split; [by destruct Hroot|done].
  - by exists (hashNode (ref_hash t)), n, d.
Qed.

(** What [hashChildren] promises for a loaded node with flags [fl]; the database is complete
    below the node when committing. *)
Definition children_result (top : bool) (t : ptrie) (fl : nodeFlag) (d : D) (r : tres (node * node * option D)) : Prop :=
  ∃ col cac d', r = TOk (col, cac, dbo d') ∧ ext d d' ∧ collapsed true col t ∧
    fst (cache col) = fl_hash fl ∧
    (∀ d2 h b, db_wf d2 → db_blobs d' ⊆ db_blobs d2 →
       flag_ok d2 top (mkFlag h (if b : bool then false else fl_dirty fl)) t → rep d2 top (setFlags cac h b) t) ∧
    (commit = true → below (held (db_blobs d')) t).

Lemma hashChildren_short d top k c tc fl :
  good (PShort k tc) → ready d (PShort k tc) → rep d false c tc → (good tc → rec_ok (λ c db, hash c db false) tc) →
  children_result top (PShort k tc) fl d (hashChildren (shortNode k c fl) (dbo d)).
Proof.
  intros Hg Hr Hc Hrec. pose proof Hg as (Hw & _ & _). destruct (wf_key _ _ Hw) as (ks & tt & Hks & Ek & _).
  destruct (HP_spec ks tt Hks) as (Ehp & _). rewrite <- Ek in Ehp. unfold hashChildren. cbn [hashChildren_with]. rewrite Ehp.
  destruct (good_short _ _ Hg) as [Hv|Hgc].
  - destruct tc as [| | |v]; try done. pose proof (rep_value_node _ _ _ _ Hc) as ->.
    exists (shortNode (HP k) (valueNode v) fl), (shortNode k (valueNode v) fl), d.
    split_and!; try done; [by apply ext_refl; destruct Hr|constructor; [done|constructor]|by constructor; [constructor|]|].
    intros _ s Hs Hh. by inversion Hs; subst.
  - destruct (Hrec Hgc d c) as (hn & n' & d' & E & Hext & Hn' & Hsh & Hdn); [|done|].
    { split; [apply Hr|]. intros Hcm. destruct (proj2 Hr Hcm) as [? ?]. split; [done|by eapply everywhere_short]. }
    assert (Em : ∀ r : tres (node * node * option D), match c with valueNode _ => r
       | _ => '(col, cac, db) ← hash c (dbo d) false; TOk (shortNode (HP k) col fl, shortNode k cac fl, db) end =
       TOk (shortNode (HP k) hn fl, shortNode k n' fl, dbo d')).
    { intros r. rewrite E. destruct c; try done. inversion Hc; subst. by destruct Hgc. }
    rewrite Em. exists (shortNode (HP k) hn fl), (shortNode k n' fl), d'. split_and!; try done.
    + constructor; [by intros ->; destruct Hgc|by apply shows_child].
    + intros d2 h b Hd2 Hsub Hfl. constructor; [|done]. eapply rep_mono; [..|done]; [by destruct Hext|done..].
    + intros Hcm. by destruct (Hdn Hcm).
Qed.

Lemma hashChildren_full d top cs ts fl :
  good (PFull ts) → ready d (PFull ts) → Forall2 (rep d false) cs ts →
  (∀ i c, ts !! i = Some c → good c → rec_ok (λ c db, hash c db false) c) →
  children_result top (PFull ts) fl d (hashChildren (fullNode cs fl) (dbo d)).
Proof.
  intros Hg Hr Hcs Hrec. unfold hashChildren. cbn [hashChildren_with].
  destruct (hashList_spec (λ c db, hash c db false) 0 d cs ts Hcs) as (cols & cacs & d' & -> & Hext & Ecols & Hcacs & Hst).
  - apply Hr.
  - apply Forall_lookup. intros i c Hi. split; [apply Hr|]. intros Hcm. destruct (proj2 Hr Hcm) as [? ?].
    split; [done|by eapply everywhere_full].
  - intros j c Hj. split; [by eapply good_full|by eapply Hrec].
  - exists (fullNode cols fl), (fullNode cacs fl), d'. split_and!; try done.
    + by constructor.
    + intros d2 h b Hd2 Hsub Hfl. constructor; [|done]. eapply Forall2_impl; [done|].
      intros ? ? Hx. eapply rep_mono; [..|done]; [by destruct Hext|done..].
    + intros Hcm i c Hi. specialize (Hst Hcm). rewrite Forall_lookup in Hst. by eapply Hst.
Qed.

(** The flags of the cached copy are right. *)
Lemma flags_after d d' top t fl hn :
  flag_ok d top fl t → fl_hash fl = None ∨ commit = true → ext d d' → is_loaded hn ∨ hn = hashNode (ref_hash t) →
  shows top t hn → (commit = true → top || hashed t = true → rooted (db_blobs d') t) →
  flag_ok d' top (mkFlag (match hn with hashNode h => Some h | _ => None end)
                    (if commit then false else fl_dirty fl)) t.
Proof.
  intros Hfl Hc Hext Hhn Hsh Hroot. unfold shows in Hsh. destruct (top || hashed t) eqn:Et.
  - subst hn. split; [done|]. split; [intros ->; done|]. intros Hd. destruct commit; [by apply Hroot|].
    destruct Hc as [Hc|Hc]; [|done]. unfold flag_ok in Hfl. rewrite Hc in Hfl. cbn in Hd.
    destruct Hfl as [Hfl|[-> Hh]]; [congruence|]. by rewrite Hh in Et.
  - apply collapsed_loaded in Hsh. destruct hn; try done; (right; by apply orb_false_iff in Et).
Qed.

Lemma hash_walk_spec d top n t fl :
  good t → ready d t → flag_ok d top fl t → fl_hash fl = None ∨ commit = true →
  children_result top t fl d (hashChildren n (dbo d)) → hash_result top t d (hash_walk n (dbo d) top).
Proof.
  intros Hg Hr Hfl Hc (col & cac & d1 & E & Hext & Ei & Ec & Hrep & Hbelow). unfold hash_walk. rewrite E. cbn [mbind tres_bind].
  destruct (store_spec d1 top col t fl) as (hn & d2 & -> & Hext2 & Hsh & Hput); try done.
  { by eapply ready_ext. } { eapply flag_ok_mono; [|done]. by destruct Hext as (_ & ? & _). }
  cbn [mbind tres_bind].
  assert (Hst : commit = true → stored (db_blobs d2) t ∧ (top || hashed t = true → rooted (db_blobs d2) t)).
  { intros Hcm. assert (stored (db_blobs d2) t); [|by split; [|intros Ht; split; [apply Hput|]]].
    apply everywhere_below; [intros Hh; apply Hput; [done|rewrite Hh; apply orb_true_r]|].
    pose proof Hext2 as (_ & Hsub & _). specialize (Hbelow Hcm). destruct t as [|cs|k c|v]; try done.
    - intros i c Hi s Hs Hh. eapply lookup_weaken; [by eapply Hbelow|done].
    - intros s Hs Hh. eapply lookup_weaken; [by eapply Hbelow|done]. }
  pose proof (ext_trans _ _ _ Hext Hext2) as Hext3.
  assert (Hhn : is_loaded hn ∨ hn = hashNode (ref_hash t)).
  { unfold shows in Hsh. destruct (top || hashed t); [by right|left; by eapply collapsed_loaded]. }
  pose proof (flags_after d d2 top t fl hn Hfl Hc Hext3 Hhn Hsh (λ Hcm, proj2 (Hst Hcm))) as Hfl2.
  assert (Hb : bool_decide (is_Some (dbo d2)) = commit) by by (unfold dbo; destruct commit).
  rewrite Hb. eexists hn, _, d2. split; [done|]. split; [done|]. split; [|by split].
  apply Hrep; [by destruct Hext2|by destruct Hext2 as (_ & ? & _)|done].
Qed.

Lemma hash_spec t : good t → ∀ d top n, ready d t → rep d top n t → hash_result top t d (hash n (dbo d) top).
Proof.
  induction t as [|v|k c IH|cs IH] using ptrie_nested_ind; intros Hg d top n Hr Hn; [by destruct Hg..| |].
  - inversion Hn as [| |? nc ? fl Hc Hfl| |h]; subst; [|apply hash_hashNode; [apply Hr|done]].
    eapply (hash_loaded d top _ _ fl); try done; [apply Hr|]. intros Hw. eapply hash_walk_spec; try done.
    apply hashChildren_short; try done. intros Hgc d' n' Hr' Hn'. by apply IH.
  - inversion Hn as [| | |ncs ? fl Hcs Hfl|h]; subst; [|apply hash_hashNode; [apply Hr|done]].
    eapply (hash_loaded d top _ _ fl); try done; [apply Hr|]. intros Hw. eapply hash_walk_spec; try done.
    apply hashChildren_full; try done. intros i c Hi Hgc d' n' Hr' Hn'. rewrite Forall_lookup in IH. by eapply IH.
Qed.
End Spec.

(** ** The contents of a trie *)

(** Maps that survive being stored: keys and values of a sensible length, and no empty
    value under a key that another key extends.  The trie accepts such a value, but
    [decodeFull] of node.go reads it back as no value: [empty_value_lost] in [TrieEvents]. *)
Record map_ok (m : gmap bytes bytes) : Prop := {
  map_sizes key v : m !! key = Some v → len key < 2 ^ 31 ∧ len v < 2 ^ 32;
  map_solid key key' v : m !! key = Some [] → m !! key' = Some v → key `prefix_of` key' → key' = key }.

(** Where a part of a trie sits. *)
Lemma sub_path s t : wf t → sub s t →
  (∃ p, ∀ key, pget t (p ++ key) = pget s key) ∧ (s = PNil ∨ wf s ∨ is_value s).
Proof.
  intros Hw Hs. revert Hw. induction Hs as [t|s k c Hs IH|s cs i c Hi Hs IH]; intros Hw.
  - split; [by exists []|by auto].
  - assert (Hc : is_value c ∨ wf c) by (cbn [wf] in Hw; destruct c; try done; [right; by destruct Hw as (_ & _ & ?)|by left]).
    destruct Hc as [Hv|Hwc].
    + destruct c; try done. inversion Hs; subst. split; [exists k; intros key; by rewrite pget_short_app|by auto].
    + destruct (IH Hwc) as [[p Hp] Hor]. split; [|done]. exists (k ++ p). intros key. by rewrite <- app_assoc, pget_short_app.
  - apply wf_full in Hw as (Hl & _ & Hok).
    assert (Hlt : (i < 17)%nat) by (rewrite <- Hl; by eapply lookup_lt_Some).
    assert (Hp : ∀ key, pget (PFull cs) (byte_of_Z (Z.of_nat i) :: key) = pget c key)
      by (intros key; by rewrite pget_full, nib_of_nat, Hi).
    destruct (Hok _ _ Hi) as [->|[[_ Hwc]|[_ Hv]]].
    + inversion Hs; subst. split; [by exists [byte_of_Z (Z.of_nat i)]|by auto].
    + destruct (IH Hwc) as [[p Hp'] Hor]. split; [|done]. exists (byte_of_Z (Z.of_nat i) :: p). intros key.
      by rewrite <- app_comm_cons, Hp.
    + destruct c; try done. inversion Hs; subst. split; [by exists [byte_of_Z (Z.of_nat i)]|by auto].
Qed.

Lemma split_prefix key key2 r : split key ++ r = split key2 → key `prefix_of` key2.
Proof.
  revert key2. induction key as [|a key IH]; intros key2 E; [by apply prefix_nil|].
  destruct key2 as [|b key2]; [done|]. unfold split in E. cbn [fmap list_fmap concat] in E. rewrite <- app_assoc in E.
  apply app_inj_1 in E as [Eab E]; [|done]. apply prefix_cons_alt; [|by apply (IH key2)].
  rewrite <- (joinNibbles_split a), <- (joinNibbles_split b). unfold splitByte in Eab. by injection Eab as -> ->.
Qed.

Lemma denotes_sized t m : denotes t m → map_ok m → wf t → sized t.
Proof.
  intros Hd Hm Hw s Hs. destruct (sub_path s t Hw Hs) as [[p Hp] Hor].
  assert (Hfind : ∀ r v, pget s r = Some v → ∃ key, p ++ r = keybytesToHex key ∧ m !! key = Some v).
  { intros r v Hg. rewrite <- Hp in Hg. destruct (den_keys _ _ Hd _ _ Hg) as [key E]. exists key.
    by rewrite <- (den_get _ _ Hd), <- E. }
  destruct s as [| |k c|v]; try done.
  - assert (Hws : wf (PShort k c)) by (by destruct Hor as [?|[?|?]]).
    destruct (wf_nonempty _ Hws) as (r & v & Hg). pose proof Hg as (r' & -> & _)%pget_short.
    destruct (Hfind _ _ Hg) as (key & E & Hk). destruct (map_sizes _ Hm _ _ Hk) as [Hl _].
    apply (f_equal len) in E. rewrite keybytesToHex_split, !len_app in E. unfold len in *. rewrite length_split in E.
    cbn [length] in E. lia.
  - destruct (Hfind [] v eq_refl) as (key & _ & Hk). by destruct (map_sizes _ Hm _ _ Hk).
Qed.

Lemma denotes_solid t m : denotes t m → map_ok m → wf t → solid t.
Proof.
  intros Hd Hm Hw s Hs. destruct (sub_path s t Hw Hs) as [[p Hp] Hor]. destruct s as [|cs| |]; try done. intros H16.
  assert (Hws : wf (PFull cs)) by (by destruct Hor as [?|[?|?]]).
  assert (Hfind : ∀ r v, pget (PFull cs) r = Some v → ∃ key, p ++ r = keybytesToHex key ∧ m !! key = Some v).
  { intros r v Hg. rewrite <- Hp in Hg. destruct (den_keys _ _ Hd _ _ Hg) as [key E]. exists key.
    by rewrite <- (den_get _ _ Hd), <- E. }
  destruct (Hfind [term] []) as (key & E & Hk); [rewrite pget_full, nib_term; by rewrite H16|].
  destruct (full_two_keys cs Hws) as (b1 & b2 & k1 & k2 & v1 & v2 & Hne & G1 & G2).
  assert (Hother : ∃ b k v, b ≠ term ∧ pget (PFull cs) (b :: k) = Some v).
  { destruct (decide (b1 = term)) as [->|]; [by exists b2, k2, v2|by exists b1, k1, v1]. }
  destruct Hother as (b & k & v & Hb & G). destruct (Hfind _ _ G) as (key2 & E2 & Hk2).
  rewrite keybytesToHex_split in E, E2. apply app_inj_tail in E as [-> _].
  assert (Hpre : key `prefix_of` key2).
  { destruct k as [|x k _] using rev_ind.
    - pose proof (wf_hexkey _ _ _ Hws G) as [[? _]|[_ Hx]]%hexkey_cons; [done|]. by apply hexkey_nonempty in Hx.
    - rewrite app_comm_cons, app_assoc in E2. apply app_inj_tail in E2 as [E2 _]. by eapply split_prefix. }
  pose proof (map_solid _ Hm _ _ _ Hk Hk2 Hpre) as ->. clear -E2 Hb.
  apply app_inv_head in E2. congruence.
Qed.

Lemma denotes_good t m : denotes t m → map_ok m → t = PNil ∨ good t.
Proof.
  intros Hd Hm. destruct (den_wf _ _ Hd) as [->|Hw]; [by left|right].
  split; [done|]. split; [by eapply denotes_sized|by eapply denotes_solid].
Qed.
End Hasher.

(** ** Root hashes *)

(** The root hash and the root with the hashes cached. *)
Definition Hash `{!Keccak, !NodeDB D} (root : node) : tres (bytes * node) :=
  '(h, cached, _) ← hashRoot (D := D) None root None;
  match h with hashNode h => TOk (BytesToHash h, cached) | _ => TPanic "interface conversion" end.

Definition Commit `{!Keccak, !NodeDB D} (onleaf : option (bytes → bytes → D → tres D)) (d : D) (root : node)
    : tres (bytes * node * D) :=
  '(h, cached, db) ← hashRoot onleaf root (Some d);
  match h, db with
  | hashNode h, Some d => TOk (BytesToHash h, cached, d)
  | _, _ => TPanic "interface conversion"
  end.
