(* ===== verification/TrieRoot.v ===== *)
(** * The state trie as an authenticated map

    The trie of l2geth/trie/trie.go with its hasher and its node database, as one machine
    with the operations [TryGet], [TryUpdate], [TryDelete], [Hash], [Commit] and [New].  It
    implements a finite map with a root hash that depends on the contents only; without
    hash collisions among the blobs involved the root hash determines the contents. *)

From S2P Require Import Prelude GoErrors EthTypes Extern RLP TrieEncoding Trie TrieNode TrieHash.

Section Root.
Context `{!Keccak}.

(** ** The root hash of a map *)

Definition root_hash (t : ptrie) : bytes := match t with PNil => emptyRoot | _ => ref_hash t end.

Definition map_root (m : gmap bytes bytes) (h : bytes) : Prop := ∃ t, denotes t m ∧ h = root_hash t.

Lemma map_root_unique m h h' : map_root m h → map_root m h' → h = h'.
Proof. intros (t & Ht & ->) (t' & Ht' & ->). by rewrite (denotes_unique _ _ _ Ht Ht'). Qed.

(** *** The hash determines the contents *)

Definition part_ok (t : ptrie) : Prop := t = PNil ∨ is_value t ∨ good t.

Lemma hashed_good t : part_ok t → hashed t = true → good t ∧ is_node t = true.
Proof. intros Hp Hh. unfold hashed in Hh. apply andb_prop in Hh as [Hn _]. destruct Hp as [->|[Hv|Hg]]; [done|by destruct t|done]. Qed.

Lemma hash_inj U t1 t2 :
  coll_free U → covers U t1 → covers U t2 → is_node t1 = true → is_node t2 = true →
  ref_hash t1 = ref_hash t2 → ref_enc t1 = ref_enc t2.
Proof. intros HU H1 H2 N1 N2. apply (hash_unique _ HU); [by apply (everywhere_here _ _ H1)|by apply (everywhere_here _ _ H2)]. Qed.

Lemma stored_child_inj U c1 c2 :
  coll_free U → covers U c1 → covers U c2 → part_ok c1 → part_ok c2 →
  (∀ h, stored_node h c1 = stored_node h c2 → c1 = c2) → stored_child c1 = stored_child c2 → c1 = c2.
Proof.
  intros HU H1 H2 P1 P2 HI E. unfold stored_child in E. destruct (hashed c1) eqn:E1, (hashed c2) eqn:E2.
  - destruct (hashed_good _ P1 E1) as [G1 N1], (hashed_good _ P2 E2) as [G2 N2]. injection E as E.
    apply (hash_inj U) in E; try done. destruct G1 as (? & ? & ?), G2 as (? & ? & ?).
    apply (HI (Some [])). by apply ref_enc_stored.
  - by destruct c2.
  - by destruct c1.
  - by apply (HI None).
Qed.

(** Tries that are stored as the same node are the same. *)
Lemma stored_node_inj U t1 t2 h :
  coll_free U → covers U t1 → covers U t2 → part_ok t1 → part_ok t2 → stored_node h t1 = stored_node h t2 → t1 = t2.
Proof.
  intros HU. revert t2 h. induction t1 as [|v|k c IH|cs IH] using ptrie_nested_ind; intros t2 h H1 H2 P1 P2 E.
  - by destruct t2.
  - destruct t2; try done. cbn in E. congruence.
  - destruct t2 as [| |k2 c2|]; try done.
    change (shortNode k (stored_child c) (mkFlag h false) = shortNode k2 (stored_child c2) (mkFlag h false)) in E.
    injection E as -> E. f_equal. destruct P1 as [?|[?|G1]], P2 as [?|[?|G2]]; try done.
    assert (part_ok c) by (destruct (good_short _ _ G1); [right; by left|right; by right]).
    assert (part_ok c2) by (destruct (good_short _ _ G2); [right; by left|right; by right]).
    apply everywhere_short in H1, H2. apply (stored_child_inj U); auto. intros h'. by apply IH.
  - destruct t2 as [|cs2| |]; try done. rewrite !stored_full in E. injection E as E. f_equal.
    destruct P1 as [?|[?|G1]], P2 as [?|[?|G2]]; try done.
    assert (Hpart : ∀ cs i c, good (PFull cs) → cs !! i = Some c → part_ok c).
    { intros cs0 i c Hg Hi. destruct (good_full _ _ _ Hg Hi) as [->|[[_ ?]|[_ ?]]]; [by left|by right; right|by right; left]. }
    apply list_eq. intros i. apply (f_equal (lookup i)) in E. rewrite !list_lookup_fmap in E. rewrite Forall_lookup in IH.
    destruct (cs !! i) as [c|] eqn:E1, (cs2 !! i) as [c2|] eqn:E2; try done. f_equal. injection E as E.
    pose proof (everywhere_full _ _ _ _ H1 E1). pose proof (everywhere_full _ _ _ _ H2 E2).
    apply (stored_child_inj U); eauto.
Qed.

(** The root hashes of good tries are different unless the tries are equal. *)
Lemma ref_hash_inj U t1 t2 :
  coll_free U → covers U t1 → covers U t2 → good t1 → good t2 → ref_hash t1 = ref_hash t2 → t1 = t2.
Proof.
  intros HU H1 H2 G1 G2 E. pose proof G1 as (Hw1 & Hs1 & Hd1). pose proof G2 as (Hw2 & Hs2 & Hd2).
  assert (is_node t1 = true ∧ is_node t2 = true) as [? ?] by (by destruct t1, t2). apply (hash_inj U) in E; try done.
  eapply (stored_node_inj U _ _ (Some [])); [done..|by right; right|by right; right|by apply ref_enc_stored].
Qed.

Lemma denotes_nil m : denotes PNil m → m = ∅.
Proof. intros Hd. apply map_eq. intros k. rewrite lookup_empty. symmetry. apply (den_get _ _ Hd). Qed.

(** The trie of a single entry. *)
Lemma denotes_single key v : denotes (PShort (keybytesToHex key) (PValue v)) {[ key := v ]}.
Proof.
  assert (Hget : ∀ k, pget (PShort (keybytesToHex key) (PValue v)) k = if decide (k = keybytesToHex key) then Some v else None).
  { intros k. cbn [pget]. case_decide as E.
    - rewrite E. rewrite bool_decide_eq_true_2 by (by rewrite firstn_all). by rewrite drop_all.
    - case_bool_decide as Ep; [|done]. destruct (drop (length (keybytesToHex key)) k) eqn:Ed; [|done]. destruct E.
      rewrite <- (take_drop (length (keybytesToHex key)) k), Ed, app_nil_r. done. }
  split.
  - right. apply keybytesToHex_hexkey.
  - intros key'. rewrite Hget. destruct (decide (key' = key)) as [->|Hne].
    + by rewrite decide_True, lookup_singleton_eq.
    + rewrite decide_False by (intros E; by apply keybytesToHex_inj in E). by rewrite lookup_singleton_ne.
  - intros k w. rewrite Hget. case_decide; [|done]. by exists key.
Qed.

(** ** The operations *)

Context {D : Type} `{!NodeDB D}.
(** The callback on leaves that [Commit] is given. *)
Context (onleaf : option (bytes → bytes → D → tres D)) (leaf_ok : onleaf_ok onleaf).

(** The nodes in memory and in the database stand for the map. *)
Definition inv (d : D) (root : node) (m : gmap bytes bytes) : Prop :=
  Trie.trie_inv (db_node d) (hash_ok d) (flag_ok d) root m.

(** The trie of the map can be loaded from the database. *)
Definition committed (d : D) (m : gmap bytes bytes) : Prop := ∀ t, denotes t m → t = PNil ∨ rooted (db_blobs d) t.

(** The blobs of the trie of the map. *)
Definition map_covers (U : bytes → Prop) (m : gmap bytes bytes) : Prop := ∀ t, denotes t m → covers U t.

Lemma root_hash_good t : good t → root_hash t = ref_hash t.
Proof. intros (Hw & _). by destruct t. Qed.

Lemma hashRoot_good f root db t d top : good t → Trie.rep (db_node d) (hash_ok d) (flag_ok d) top root t →
  hashRoot (D := D) f root db = hash f root db true.
Proof.
  intros (Hw & _) Hr. destruct root; try done. apply rep_nil_iff in Hr as [Hr _]. by rewrite Hr in Hw.
Qed.

Lemma inv_empty d root : inv d root ∅ → root = nilNode.
Proof.
  intros (t & Hr & Hd). destruct (trie_inv_empty (db_node d) (hash_ok d) (flag_ok d)) as (t0 & Hr0 & Hd0).
  rewrite (denotes_unique _ _ _ Hd Hd0) in Hr. inversion Hr0; subst. by apply rep_nil_iff in Hr as [_ ->].
Qed.

Lemma Hash_spec d root m :
  db_wf d → inv d root m → map_ok m →
  ∃ h root', Hash (D := D) root = TOk (h, root') ∧ map_root m h ∧ inv d root' m.
Proof.
  intros Hd Hi Hm. pose proof Hi as (t & Hr & Hden). unfold Hash. destruct (denotes_good _ _ Hden Hm) as [->|Hg].
  - pose proof (denotes_nil _ Hden) as ->. pose proof (inv_empty _ _ Hi) as ->. exists emptyRoot, nilNode.
    split; [by vm_compute|]. split; [by exists PNil|done].
  - destruct (hash_spec None false (λ _, False) (λ E, False_ind _ (diff_false_true E)) ltac:(by intros f Hf) t Hg d true root)
      as (hn & n' & d' & E & Hext & Hn' & Hsh & _); [by split|done|].
    rewrite (hashRoot_good None root None t d true) by done. unfold dbo in E. rewrite E. cbn [mbind tres_bind].
    unfold shows in Hsh. cbn [orb] in Hsh. subst hn. rewrite BytesToHash_ref. destruct Hext as (_ & _ & ->).
    eexists _, n'. split; [done|]. split; [exists t; by rewrite root_hash_good|by exists t].
Qed.

Lemma Commit_spec U d root m :
  db_wf d → inv d root m → map_ok m → coll_free U → blobs_in U d → map_covers U m →
  ∃ h root' d', Commit onleaf d root = TOk (h, root', d') ∧ map_root m h ∧ inv d' root' m ∧
    db_wf d' ∧ db_blobs d ⊆ db_blobs d' ∧ blobs_in U d' ∧ committed d' m.
Proof.
  intros Hd Hi Hm HU HB Hcov. pose proof Hi as (t & Hr & Hden). unfold Commit. destruct (denotes_good _ _ Hden Hm) as [->|Hg].
  - pose proof (denotes_nil _ Hden) as ->. pose proof (inv_empty _ _ Hi) as ->. exists emptyRoot, nilNode, d.
    split; [by vm_compute|]. split; [by exists PNil|]. split_and!; try done.
    intros t Ht. left. by apply (denotes_unique t PNil ∅).
  - destruct (hash_spec onleaf true U (λ _, HU) leaf_ok t Hg d true root)
      as (hn & n' & d' & E & Hext & Hn' & Hsh & Hdn); [by split; [|intros _; split; [|apply Hcov]]|done|].
    rewrite (hashRoot_good onleaf root (Some d) t d true) by done. unfold dbo in E. rewrite E. cbn [mbind tres_bind].
    unfold shows in Hsh. cbn [orb] in Hsh. subst hn. rewrite BytesToHash_ref. destruct Hext as (Hd' & Hsub & HB').
    destruct (Hdn eq_refl) as [_ Hroot]. eexists _, n', d'. split; [done|].
    split; [exists t; by rewrite root_hash_good|]. split; [by exists t|]. split_and!; try done; [by apply HB'|].
    intros t' Ht'. right. rewrite (denotes_unique _ _ _ Ht' Hden). by apply Hroot.
Qed.

(** The hash is not one of the two that stand for the empty trie. *)
Definition proper (m : gmap bytes bytes) : Prop :=
  ∀ t, denotes t m → t = PNil ∨ (ref_hash t ≠ zeros 32 ∧ ref_hash t ≠ emptyRoot).

Lemma denotes_map t m1 m2 : denotes t m1 → denotes t m2 → m1 = m2.
Proof. intros H1 H2. apply map_eq. intros key. by rewrite <- (den_get _ _ H1), <- (den_get _ _ H2). Qed.

(** Without collisions the root hash determines the map. *)
Lemma map_root_inj U m1 m2 h :
  coll_free U → map_ok m1 → map_ok m2 → map_covers U m1 → map_covers U m2 → proper m1 → proper m2 →
  map_root m1 h → map_root m2 h → m1 = m2.
Proof.
  intros HU Hm1 Hm2 Hc1 Hc2 Hp1 Hp2 (t1 & Ht1 & ->) (t2 & Ht2 & E). assert (t1 = t2) as ->; [|by eapply denotes_map].
  destruct (denotes_good _ _ Ht1 Hm1) as [->|G1], (denotes_good _ _ Ht2 Hm2) as [->|G2]; [done|..].
  - rewrite (root_hash_good t2) in E by done. destruct (Hp2 t2 Ht2) as [->|[_ Hn]]; [done|]. by destruct Hn.
  - rewrite (root_hash_good t1) in E by done. destruct (Hp1 t1 Ht1) as [->|[_ Hn]]; [done|]. by destruct Hn.
  - rewrite !root_hash_good in E by done. eapply (ref_hash_inj U); eauto.
Qed.

Lemma New_spec d m h :
  db_wf d → map_ok m → committed d m → proper m → map_root m h → ∃ root, New (db_node d) h = TOk root ∧ inv d root m.
Proof.
  intros Hd Hm Hc Hp (t & Hden & ->). unfold New. destruct (denotes_good _ _ Hden Hm) as [->|Hg].
  - exists nilNode. rewrite (bool_decide_eq_true_2 (root_hash PNil = emptyRoot)), orb_true_r by done.
    split; [done|]. exists PNil. split; [constructor|done].
  - rewrite root_hash_good by done. destruct (Hp t Hden) as [->|[Hz He]]; [by destruct Hg|].
    rewrite !bool_decide_eq_false_2 by done. cbn [orb]. destruct (Hc t Hden) as [->|Hroot]; [by destruct Hg|].
    unfold resolveHash. rewrite BytesToHash_ref, db_node_rooted by done. eexists. split; [done|]. exists t. split; [|done].
    apply rep_stored_node; [done..|by destruct Hroot|]. split; [done|]. by split.
Qed.

(** ** The machine *)

Inductive op := Get (key : bytes) | Update (key value : bytes) | Delete (key : bytes) | Hash' | Commit' | Reopen.
Inductive out := OutValue (v : option bytes) | OutNone | OutHash (h : bytes).

(** [Reopen] commits and loads the trie again from its root hash. *)
Definition step (o : op) (d : D) (root : node) : tres (D * node * out) :=
  match o with
  | Get key => '(v, root) ← TryGet (db_node d) root key; TOk (d, root, OutValue v)
  | Update key value => root ← TryUpdate (db_node d) root key value; TOk (d, root, OutNone)
  | Delete key => root ← TryDelete (db_node d) root key; TOk (d, root, OutNone)
  | Hash' => '(h, root) ← Hash (D := D) root; TOk (d, root, OutHash h)
  | Commit' => '(h, root, d) ← Commit onleaf d root; TOk (d, root, OutHash h)
  | Reopen => '(h, _, d) ← Commit onleaf d root; root ← New (db_node d) h; TOk (d, root, OutHash h)
  end.

Fixpoint run (ops : list op) (d : D) (root : node) : tres (D * node * list out) :=
  match ops with
  | [] => TOk (d, root, [])
  | o :: ops =>
      '(d, root, x) ← step o d root;
      '(d, root, outs) ← run ops d root; TOk (d, root, x :: outs)
  end.

(** The map with a root hash that it implements. *)
Definition map_step (o : op) (m : gmap bytes bytes) : gmap bytes bytes :=
  match o with
  | Update key value => <[key := value]> m
  | Delete key => base.delete key m
  | _ => m
  end.
Definition map_out (o : op) (m : gmap bytes bytes) (x : out) : Prop :=
  match o, x with
  | Get key, OutValue v => v = m !! key
  | (Update _ _ | Delete _), OutNone => True
  | (Hash' | Commit' | Reopen), OutHash h => map_root m h
  | _, _ => False
  end.
Fixpoint map_run (ops : list op) (m : gmap bytes bytes) (outs : list out) (m' : gmap bytes bytes) : Prop :=
  match ops, outs with
  | [], [] => m' = m
  | o :: ops, x :: outs => map_out o m x ∧ map_run ops (map_step o m) outs m'
  | _, _ => False
  end.

(** The maps that are hashed can be encoded, their blobs are in a set. *)
Definition op_ok (U : bytes → Prop) (o : op) (m : gmap bytes bytes) : Prop :=
  match o with
  | Get _ | Update _ _ | Delete _ => True
  | Hash' => map_ok m
  | Commit' => map_ok m ∧ map_covers U m
  | Reopen => map_ok m ∧ map_covers U m ∧ proper m
  end.
Fixpoint ops_ok (U : bytes → Prop) (ops : list op) (m : gmap bytes bytes) : Prop :=
  match ops with
  | [] => True
  | o :: ops => op_ok U o m ∧ ops_ok U ops (map_step o m)
  end.


Lemma step_spec U o d root m :
  coll_free U → db_wf d → blobs_in U d → inv d root m → op_ok U o m →
  ∃ d' root' x, step o d root = TOk (d', root', x) ∧ map_out o m x ∧ inv d' root' (map_step o m) ∧
    db_wf d' ∧ blobs_in U d'.
Proof.
  intros HU Hd HB Hi Hok. destruct o as [key|key value|key| | |]; cbn [step map_step map_out op_ok] in *.
  - destruct (TryGet_spec _ _ _ root m key Hi) as (root' & -> & Hi'). by exists d, root', (OutValue (m !! key)).
  - destruct (TryUpdate_spec _ _ _ (newFlag_ok d) root m key value Hi) as (root' & -> & Hi'). by exists d, root', OutNone.
  - destruct (TryDelete_spec _ _ _ (newFlag_ok d) root m key Hi) as (root' & -> & Hi'). by exists d, root', OutNone.
  - destruct (Hash_spec d root m Hd Hi Hok) as (h & root' & -> & Hh & Hi'). by exists d, root', (OutHash h).
  - destruct Hok as [Hm Hcov].
    destruct (Commit_spec U d root m Hd Hi Hm HU HB Hcov) as (h & root' & d' & -> & Hh & Hi' & Hd' & _ & HB' & _).
    by exists d', root', (OutHash h).
  - destruct Hok as (Hm & Hcov & Hp).
    destruct (Commit_spec U d root m Hd Hi Hm HU HB Hcov) as (h & root1 & d' & -> & Hh & _ & Hd' & _ & HB' & Hc).
    cbn [mbind tres_bind]. destruct (New_spec d' m h Hd' Hm Hc Hp Hh) as (root' & -> & Hi').
    by exists d', root', (OutHash h).
Qed.

Lemma run_spec U ops d root m :
  coll_free U → db_wf d → blobs_in U d → inv d root m → ops_ok U ops m →
  ∃ d' root' outs m', run ops d root = TOk (d', root', outs) ∧ map_run ops m outs m' ∧ inv d' root' m' ∧
    db_wf d' ∧ blobs_in U d'.
Proof.
  intros HU. revert d root m. induction ops as [|o ops IH]; intros d root m Hd HB Hi Hok; cbn [run].
  - by exists d, root, [], m.
  - destruct Hok as [Ho Hok]. destruct (step_spec U o d root m HU Hd HB Hi Ho) as (d1 & root1 & x & -> & Hx & Hi1 & Hd1 & HB1).
    cbn [mbind tres_bind]. destruct (IH d1 root1 _ Hd1 HB1 Hi1 Hok) as (d2 & root2 & outs & m' & -> & Hm & Hi2 & Hd2 & HB2).
    by exists d2, root2, (x :: outs), m'.
Qed.

(** C9. The trie with its hasher and its database is a map with a root hash: for a sequence
    of reads, updates, deletions, hashes, commits and reloads from the root hash, starting
    from an empty trie over any well-formed database, no operation fails; reads return the
    value of the map, and every hash is the one that the contents of the map determine,
    whatever the order of the operations, the hashes cached in nodes and the part of the
    trie that is loaded.  This holds if the nodes of the maps that are committed and the
    blobs of the database have no hash collision; if whenever the trie is hashed, committed
    or reloaded its keys are shorter than 2^31 and its values shorter than 2^32 bytes and
    no key with an empty value is extended by another key (such a value is lost when the
    node is loaded from disk, [empty_value_lost]; keys of one length, as the state has
    them, never extend each other); and if at a reload the hash of a non-empty map is
    neither zero nor that of the empty trie, which [New] does not load. *)
Theorem trie_is_authenticated_map U ops d :
  coll_free U → db_wf d → blobs_in U d → ops_ok U ops ∅ →
  ∃ d' root outs m, run ops d nilNode = TOk (d', root, outs) ∧ map_run ops ∅ outs m.
Proof.
  intros HU Hd HB Hops. destruct (run_spec U ops d nilNode ∅ HU Hd HB) as (d' & root & outs & m & E & Hm & _); [|done|].
  - apply trie_inv_empty.
  - by exists d', root, outs, m.
Qed.

(** The root hash binds the contents: two tries, over any databases and however they
    were built, have the same [Hash] exactly when they hold the same map, as long as no
    two of the node encodings involved collide under Keccak256. *)
Theorem Hash_binds U d1 d2 root1 root2 m1 m2 :
  coll_free U → db_wf d1 → db_wf d2 → inv d1 root1 m1 → inv d2 root2 m2 → map_ok m1 → map_ok m2 →
  map_covers U m1 → map_covers U m2 → proper m1 → proper m2 →
  ∃ h1 h2 r1 r2, Hash (D := D) root1 = TOk (h1, r1) ∧ Hash (D := D) root2 = TOk (h2, r2) ∧ (h1 = h2 ↔ m1 = m2).
Proof.
  intros HU Hd1 Hd2 Hi1 Hi2 Hm1 Hm2 Hc1 Hc2 Hp1 Hp2.
  destruct (Hash_spec d1 root1 m1 Hd1 Hi1 Hm1) as (h1 & r1 & E1 & Hh1 & _).
  destruct (Hash_spec d2 root2 m2 Hd2 Hi2 Hm2) as (h2 & r2 & E2 & Hh2 & _).
  exists h1, h2, r1, r2. split_and!; [done..|]. split; [intros <-|intros <-]; [by eapply map_root_inj|by eapply map_root_unique].
Qed.
End Root.
