(* ===== verification/TrieDB.v ===== *)
(** * The node database of the state trie

    l2geth/trie/database.go: the write layer between the tries and the disk.  Committed
    nodes are kept in memory with the number of their parents, in a doubly linked list in
    the order of insertion; [Cap] moves the oldest to disk, [Commit] moves a whole trie to
    disk, and [Dereference] deletes the nodes of a trie that no other trie uses.  The
    database is shown to be a store of blobs under their hash, in which moving nodes
    between memory, disk and the cache of clean nodes cannot be seen. *)

From S2P Require Import Prelude GoErrors EthTypes Extern RLP TrieEncoding Trie TrieNode TrieHash.

(** ** The key-value store *)

(** Writes of a batch that have not been written yet. *)
Definition Batch := list (bytes * bytes).
Definition ValueSize (b : Batch) : Z := foldr (λ kv n, len kv.2 + n) 0 b.
Definition IdealBatchSize : Z := 100 * 1024.

(** The store; [kv_faults] says which of the next writes fail. *)
Record KVStore := mkKV { kv_data : gmap bytes bytes; kv_faults : list bool }.

(** [Batch.Write]: all of the batch, or nothing and an error. *)
Definition batch_Write (b : Batch) (s : KVStore) : option error * KVStore :=
  match kv_faults s with
  | true :: fs => (Some (ErrorNew "write failed"), mkKV (kv_data s) fs)
  | fs => (None, mkKV (foldl (λ m kv, <[kv.1 := kv.2]> m) (kv_data s) b) (tail fs))
  end.

(** [fastcache.Cache]: what it returns was put there before, and it may forget. *)
Class Fastcache (C : Type) := {
  fc_Get : C → bytes → option bytes;
  fc_Set : C → bytes → bytes → C;
  fc_Get_Set c k v k' v' : fc_Get (fc_Set c k v) k' = Some v' → (k' = k ∧ v' = v) ∨ fc_Get c k' = Some v' }.

(** ** Nodes in the database *)

#[warnings="-register-all"]
Inductive raw :=
| rawNil
| rawNode (blob : bytes)
| rawFullNode (children : list raw)
| rawShortNode (Key : bytes) (Val : raw)
| rawHash (hash : bytes)
| rawValue (value : bytes).

(** What the encoder writes for them. *)
Fixpoint raw_item (r : raw) : item :=
  match r with
  | rawNil => Lst []
  | rawNode b => Str b
  | rawFullNode cs => Lst ((λ c, match c with rawNil => Str [] | _ => raw_item c end) <$> cs)
  | rawShortNode k v => Lst [Str k; raw_item v]
  | rawHash h => Str h
  | rawValue v => Str v
  end.

Fixpoint simplifyNode (n : node) : tres raw :=
  match n with
  | shortNode k v _ => v ← simplifyNode v; TOk (rawShortNode k v)
  | fullNode cs _ =>
      cs ← (fix children (cs : list node) : tres (list raw) :=
              match cs with
              | [] => TOk []
              | nilNode :: cs => cs ← children cs; TOk (rawNil :: cs)
              | c :: cs => c ← simplifyNode c; cs ← children cs; TOk (c :: cs)
              end) cs;
      TOk (rawFullNode cs)
  | valueNode v => TOk (rawValue v)
  | hashNode h => TOk (rawHash h)
  | nilNode => TPanic "unknown node type"
  end.

Fixpoint expandNode (hash : option bytes) (r : raw) : tres node :=
  match r with
  | rawShortNode k v => v ← expandNode None v; TOk (shortNode (compactToHex k) v (mkFlag hash false))
  | rawFullNode cs =>
      cs ← (fix children (cs : list raw) : tres (list node) :=
              match cs with
              | [] => TOk []
              | rawNil :: cs => cs ← children cs; TOk (nilNode :: cs)
              | c :: cs => c ← expandNode None c; cs ← children cs; TOk (c :: cs)
              end) cs;
      TOk (fullNode cs (mkFlag hash false))
  | rawValue v => TOk (valueNode v)
  | rawHash h => TOk (hashNode h)
  | rawNil | rawNode _ => TPanic "unknown node type"
  end.

(** The hashes a node refers to, in order; a [rawNode] does not occur inside a node. *)
Fixpoint forGatherChildren (r : raw) : list bytes :=
  match r with
  | rawShortNode _ v => forGatherChildren v
  | rawFullNode cs => concat (take 16 (forGatherChildren <$> cs))
  | rawHash h => [BytesToHash h]
  | rawValue _ | rawNil | rawNode _ => []
  end.

Record cachedNode := mkCached {
  cn_node : raw;
  cn_size : Z;
  cn_parents : Z;
  cn_children : option (gmap bytes Z);
  cn_flushPrev : bytes;
  cn_flushNext : bytes }.

(** [rlp] and [obj] of a cached node. *)
Definition raw_blob (r : raw) : bytes := match r with rawNode b => b | r => EncodeToBytes (raw_item r) end.
Definition cachedNode_rlp (n : cachedNode) : bytes := raw_blob (cn_node n).

Definition cachedNode_obj (n : cachedNode) (hash : bytes) : fetched :=
  match cn_node n with
  | rawNode b => mustDecodeNode hash b
  | r => match expandNode (Some hash) r with TOk n => Found n | TPanic s => Undecodable s | TMissing _ _ => NotFound end
  end.

(** [forChilds]: the explicit children, then those inside the node. *)
Definition forChilds (n : cachedNode) : list bytes :=
  match cn_children n with Some ch => (map_to_list ch).*1 | None => [] end ++
  match cn_node n with rawNode _ => [] | r => forGatherChildren r end.

(** The children of a full node. *)
Definition simplify_child (n : node) : tres raw := match n with nilNode => TOk rawNil | _ => simplifyNode n end.
Definition expand_child (r : raw) : tres node := match r with rawNil => TOk nilNode | _ => expandNode None r end.

Fixpoint mapT {A B} (f : A → tres B) (l : list A) : tres (list B) :=
  match l with [] => TOk [] | x :: l => y ← f x; ys ← mapT f l; TOk (y :: ys) end.

Lemma simplify_full cs fl : simplifyNode (fullNode cs fl) = (cs ← mapT simplify_child cs; TOk (rawFullNode cs)).
Proof.
  cbn [simplifyNode]. match goal with |- (?f cs ≫= _) = _ => assert (E : f cs = mapT simplify_child cs) end.
  { induction cs as [|c cs IH]; [done|]. cbn [mapT]. rewrite <- IH. by destruct c. }
  by rewrite E.
Qed.

Lemma expand_full h cs : expandNode h (rawFullNode cs) = (cs ← mapT expand_child cs; TOk (fullNode cs (mkFlag h false))).
Proof.
  cbn [expandNode]. match goal with |- (?f cs ≫= _) = _ => assert (E : f cs = mapT expand_child cs) end.
  { induction cs as [|c cs IH]; [done|]. cbn [mapT]. rewrite <- IH. by destruct c. }
  by rewrite E.
Qed.

Definition raw_child (r : raw) : item := match r with rawNil => Str [] | _ => raw_item r end.
Definition is_raw (r : raw) : Prop := match r with rawShortNode _ _ | rawFullNode _ => True | _ => False end.

Section Forms.
Context `{!Keccak}.

(** The form of a collapsed node in the database has the same encoding, and expands to
    the node that is decoded from disk. *)
Definition form_ok (b : bool) (n : node) (t : ptrie) : Prop :=
  if b then wf t → ∃ r, simplifyNode n = TOk r ∧ is_raw r ∧ raw_item r = node_item n ∧
    ∀ h, expandNode h r = TOk (stored_node h t)
  else t = PNil ∨ is_value t ∨ wf t → ∃ r, simplify_child n = TOk r ∧ raw_child r = child_item n ∧
    (n ≠ nilNode → simplifyNode n = TOk r ∧ raw_item r = node_item n) ∧ expand_child r = TOk (stored_child t) ∧
    (t ≠ PNil → expandNode None r = TOk (stored_child t)).

Lemma mapT_Forall2 {A B} (f : A → tres B) l l' : Forall2 (λ x y, f x = TOk y) l l' → mapT f l = TOk l'.
Proof. induction 1 as [|x y l l' E _ IH]; [done|]. cbn [mapT]. by rewrite E, IH. Qed.

Lemma forms_full ns cs : Forall2 (form_ok false) ns cs → (∀ i c, cs !! i = Some c → child_ok i c) →
  ∃ rs, mapT simplify_child ns = TOk rs ∧ raw_child <$> rs = child_item <$> ns ∧ mapT expand_child rs = TOk (stored_child <$> cs).
Proof.
  intros HF Hok. assert (Hp : Forall (λ c, c = PNil ∨ is_value c ∨ wf c) cs).
  { apply Forall_lookup. intros i c Hi. destruct (Hok i c Hi) as [->|[[_ ?]|[_ ?]]]; auto. }
  clear Hok. induction HF as [|n c ns cs Hn HF IH]; [by exists []|]. apply Forall_cons in Hp as [Hc Hp].
  destruct (Hn Hc) as (r & E1 & E2 & _ & E3 & _). destruct (IH Hp) as (rs & E4 & E5 & E6).
  exists (r :: rs). cbn [mapT fmap list_fmap]. by rewrite E1, E4, E2, E5, E3, E6.
Qed.

Lemma collapsed_form b n t : collapsed b n t → form_ok b n t.
Proof.
  revert b n t. fix IH 4. intros b n t Hc. destruct Hc as [|v|t Hh|n t Hh Hc|k n c fl Hn Hc|ns cs fl Hcs]; cbn [form_ok].
  - intros _. by exists rawNil.
  - intros _. by exists (rawValue v).
  - intros _. exists (rawHash (ref_hash t)). unfold stored_child. by rewrite Hh.
  - intros Hp. pose proof (collapsed_loaded _ _ Hc) as Hl.
    assert (Hw : wf t) by (destruct Hp as [->|[?|?]]; [inversion Hc|destruct t; try done; inversion Hc|done]).
    destruct (IH _ _ _ Hc Hw) as (r & E1 & Hr & E2 & E3). exists r. unfold stored_child. rewrite Hh.
    split_and!; [by destruct n|destruct r; try done; by destruct n|done|destruct r; try done; apply E3|done].
  - intros Hw. assert (Hcc : c = PNil ∨ is_value c ∨ wf c).
    { cbn [wf] in Hw. destruct c; try done; [right; right; by destruct Hw as (_ & _ & ?)|right; by left]. }
    destruct (IH _ _ _ Hc Hcc) as (r & E1 & E2 & E3 & _ & E4).
    assert (Hnn : n ≠ nilNode) by (intros ->; apply Hn; by apply (collapsed_item _ _ _ Hc)).
    destruct (E3 Hnn) as [E5 E6]. exists (rawShortNode (HP k) r). cbn [simplifyNode raw_item node_item expandNode].
    rewrite E5, E6, (E4 Hn). split_and!; [done..|]. intros h. cbn [mbind tres_bind].
    destruct (wf_key _ _ Hw) as (ks & tt & Hks & -> & _). destruct (HP_spec ks tt Hks) as (_ & _ & -> & _). done.
  - intros (_ & _ & Hok)%wf_full. assert (HF : Forall2 (form_ok false) ns cs).
    { clear Hok. induction Hcs; constructor; [by apply IH|done]. }
    destruct (forms_full ns cs HF Hok) as (rs & E1 & E2 & E3). exists (rawFullNode rs). rewrite simplify_full, E1.
    split_and!; [done..| |].
    + cbn [raw_item node_item]. f_equal. exact E2.
    + intros h. by rewrite expand_full, E3.
Qed.
End Forms.

(** ** The database *)

Section Database.
Context `{!Keccak} {C : Type} `{!Fastcache C}.

Record Database := mkDB {
  diskdb : KVStore;
  cleans : option C;
  dirties : gmap bytes cachedNode;
  oldest : bytes;
  newest : bytes;
  preimages : gmap bytes bytes;
  dirtiesSize : Z;
  childrenSize : Z;
  preimagesSize : Z }.

Definition zeroHash : bytes := zeros 32.
(** The size of the struct: an interface, two counters, a map pointer and two hashes. *)
Definition cachedNodeSize : Z := 96.
Definition cachedNodeChildrenSize : Z := 48.
Definition secureKeyPrefix : bytes := String.list_byte_of_string "secure-key-".
Definition secureKey (key : bytes) : bytes := secureKeyPrefix ++ key.

Definition NewDatabase (disk : KVStore) (cache : option C) : Database :=
  mkDB disk cache {[ zeroHash := mkCached rawNil 0 0 (Some ∅) zeroHash zeroHash ]} zeroHash zeroHash ∅ 0 0 0.

(** *** Assignments to fields *)

Definition with_dirties (db : Database) (m : gmap bytes cachedNode) : Database :=
  mkDB (diskdb db) (cleans db) m (oldest db) (newest db) (preimages db) (dirtiesSize db) (childrenSize db) (preimagesSize db).
Definition with_list (db : Database) (old new : bytes) : Database :=
  mkDB (diskdb db) (cleans db) (dirties db) old new (preimages db) (dirtiesSize db) (childrenSize db) (preimagesSize db).
Definition with_sizes (db : Database) (ds cs : Z) : Database :=
  mkDB (diskdb db) (cleans db) (dirties db) (oldest db) (newest db) (preimages db) ds cs (preimagesSize db).
Definition with_disk (db : Database) (d : KVStore) : Database :=
  mkDB d (cleans db) (dirties db) (oldest db) (newest db) (preimages db) (dirtiesSize db) (childrenSize db) (preimagesSize db).
Definition with_cleans (db : Database) (c : option C) : Database :=
  mkDB (diskdb db) c (dirties db) (oldest db) (newest db) (preimages db) (dirtiesSize db) (childrenSize db) (preimagesSize db).
Definition with_preimages (db : Database) (p : gmap bytes bytes) (sz : Z) : Database :=
  mkDB (diskdb db) (cleans db) (dirties db) (oldest db) (newest db) p (dirtiesSize db) (childrenSize db) sz.

Definition set_prev (h : bytes) (n : cachedNode) : cachedNode :=
  mkCached (cn_node n) (cn_size n) (cn_parents n) (cn_children n) h (cn_flushNext n).
Definition set_next (h : bytes) (n : cachedNode) : cachedNode :=
  mkCached (cn_node n) (cn_size n) (cn_parents n) (cn_children n) (cn_flushPrev n) h.
Definition set_parents (k : Z) (n : cachedNode) : cachedNode :=
  mkCached (cn_node n) (cn_size n) k (cn_children n) (cn_flushPrev n) (cn_flushNext n).
Definition set_children (ch : option (gmap bytes Z)) (n : cachedNode) : cachedNode :=
  mkCached (cn_node n) (cn_size n) (cn_parents n) ch (cn_flushPrev n) (cn_flushNext n).

(** [db.dirties[h]], which must not be nil, with a field changed. *)
Definition at_dirty (h : bytes) (f : cachedNode → cachedNode) (db : Database) : tres Database :=
  match dirties db !! h with
  | Some n => TOk (with_dirties db (<[h := f n]> (dirties db)))
  | None => TPanic "nil pointer dereference"
  end.

(** *** Adding nodes *)

(** [c.parents++] for a child in memory, on 32 bits. *)
Definition add_parent (m : gmap bytes cachedNode) (child : bytes) : gmap bytes cachedNode :=
  match m !! child with
  | Some c => <[child := set_parents ((cn_parents c + 1) mod 2 ^ 32) c]> m
  | None => m
  end.

(** [insert] with the node already in the form of the database; the size of the entry is
    added on 16 bits. *)
Definition insert_raw (hash blob : bytes) (r : raw) (db : Database) : tres Database :=
  match dirties db !! hash with
  | Some _ => TOk db
  | None =>
      let entry := mkCached r (len blob mod 2 ^ 16) 0 None (newest db) zeroHash in
      let m := foldl add_parent (dirties db) (forChilds entry) in
      let db := with_dirties db (<[hash := entry]> m) in
      db ← (if bool_decide (oldest db = zeroHash) then TOk (with_list db hash hash)
            else db ← at_dirty (newest db) (set_next hash) db; TOk (with_list db (oldest db) hash));
      TOk (with_sizes db (dirtiesSize db + (32 + cn_size entry) mod 2 ^ 16) (childrenSize db))
  end.

Definition insert (db : Database) (hash blob : bytes) (n : node) : tres Database :=
  match dirties db !! hash with
  | Some _ => TOk db
  | None => r ← simplifyNode n; insert_raw hash blob r db
  end.

Definition InsertBlob (hash blob : bytes) (db : Database) : tres Database := insert_raw hash blob (rawNode blob) db.

Definition insertPreimage (hash preimage : bytes) (db : Database) : Database :=
  match preimages db !! hash with
  | Some _ => db
  | None => with_preimages db (<[hash := preimage]> (preimages db)) (preimagesSize db + (32 + len preimage))
  end.

(** *** Reading *)

(** What the clean cache, the memory and the disk hold, and the database after the clean
    cache has been filled. *)
Definition clean_Get (db : Database) (hash : bytes) : option bytes := c ← cleans db; fc_Get c hash.
Definition clean_Set (db : Database) (hash enc : bytes) : Database :=
  match cleans db with Some c => with_cleans db (Some (fc_Set c hash enc)) | None => db end.

Definition node (db : Database) (hash : bytes) : Database * fetched :=
  match clean_Get db hash with
  | Some enc => (db, mustDecodeNode hash enc)
  | None =>
      match dirties db !! hash with
      | Some dirty => (db, cachedNode_obj dirty hash)
      | None =>
          match kv_data (diskdb db) !! hash with
          | Some enc => (clean_Set db hash enc, mustDecodeNode hash enc)
          | None => (db, NotFound)
          end
      end
  end.

Definition Node (db : Database) (hash : bytes) : Database * option bytes :=
  if bool_decide (hash = zeroHash) then (db, None)
  else
    match clean_Get db hash with
    | Some enc => (db, Some enc)
    | None =>
        match dirties db !! hash with
        | Some dirty => (db, Some (cachedNode_rlp dirty))
        | None =>
            match kv_data (diskdb db) !! hash with
            | Some enc => (clean_Set db hash enc, Some enc)
            | None => (db, None)
            end
        end
    end.

Definition preimage (db : Database) (hash : bytes) : option bytes :=
  match preimages db !! hash with
  | Some p => Some p
  | None => kv_data (diskdb db) !! secureKey hash
  end.

(** *** References *)

Definition reference (child parent : bytes) (db : Database) : tres Database :=
  match dirties db !! child, dirties db !! parent with
  | None, _ => TOk db
  | Some _, None => TPanic "nil pointer dereference"
  | Some n, Some p =>
      let '(ch, extra, dup) := match cn_children p with
                               | None => (∅, cachedNodeChildrenSize, false)
                               | Some ch => (ch, 0, bool_decide (is_Some (ch !! child)) && bool_decide (parent ≠ zeroHash))
                               end in
      if dup : bool then TOk db
      else
        let count := (default 0 (ch !! child) + 1) mod 2 ^ 16 in
        db ← at_dirty child (set_parents ((cn_parents n + 1) mod 2 ^ 32)) db;
        db ← at_dirty parent (set_children (Some (<[child := count]> ch))) db;
        TOk (with_sizes db (dirtiesSize db) (childrenSize db + extra + if count =? 1 then 32 + 2 else 0))
  end.

Definition Reference := reference.

(** Taking a node out of the flush-list; the switch of [dereference] and of the cleaner. *)
Definition unlink (h : bytes) (n : cachedNode) (db : Database) : tres Database :=
  if bool_decide (h = oldest db) then
    at_dirty (cn_flushNext n) (set_prev zeroHash) (with_list db (cn_flushNext n) (newest db))
  else if bool_decide (h = newest db) then
    at_dirty (cn_flushPrev n) (set_next zeroHash) (with_list db (oldest db) (cn_flushPrev n))
  else
    db ← at_dirty (cn_flushPrev n) (set_next (cn_flushNext n)) db;
    at_dirty (cn_flushNext n) (set_prev (cn_flushPrev n)) db.

(** The count of the child at its parent. *)
Definition drop_child (child parent : bytes) (db : Database) : tres Database :=
  match dirties db !! parent with
  | None => TPanic "nil pointer dereference"
  | Some p =>
      match cn_children p with
      | Some ch =>
          match ch !! child with
          | Some c =>
              if 0 <? c then
                let ch' := if c - 1 =? 0 then base.delete child ch else <[child := c - 1]> ch in
                db ← at_dirty parent (set_children (Some ch')) db;
                TOk (with_sizes db (dirtiesSize db) (childrenSize db - if c - 1 =? 0 then 32 + 2 else 0))
              else TOk db
          | None => TOk db
          end
      | None => TOk db
      end
  end.

(** The rest of [dereference]: the child has one parent less, and is deleted with its
    references when it was the last one. *)
Definition release (deref : bytes → bytes → Database → tres Database) (child : bytes) (db : Database) : tres Database :=
  match dirties db !! child with
  | None => TOk db
  | Some n =>
      let parents := if 0 <? cn_parents n then cn_parents n - 1 else cn_parents n in
      db ← at_dirty child (set_parents parents) db;
      if parents =? 0 then
        db ← unlink child n db;
        db ← foldl (λ r h, r ≫= deref h child) (TOk db) (forChilds n);
        let db := with_dirties db (base.delete child (dirties db)) in
        TOk (with_sizes db (dirtiesSize db - (32 + cn_size n))
               (childrenSize db - match cn_children n with Some _ => cachedNodeChildrenSize | None => 0 end))
      else TOk db
  end.

Fixpoint dereference (fuel : nat) (child parent : bytes) (db : Database) : tres Database :=
  match fuel with
  | O => TPanic "out of fuel"
  | S fuel => db ← drop_child child parent db; release (dereference fuel) child db
  end.

(** A chain of nodes that are deleted is not longer than the number of nodes. *)
Definition Dereference (root : bytes) (db : Database) : tres Database :=
  if bool_decide (root = zeroHash) then TOk db
  else dereference (S (size (dirties db))) root zeroHash db.

(** *** Moving nodes to disk *)

(** Writing the batch when it has reached its size; the error of a write is returned. *)
Definition flush_if (full : bool) (batch : Batch) (db : Database) : Batch * Database * option error :=
  if full then
    let '(err, disk) := batch_Write batch (diskdb db) in
    (match err with Some _ => batch | None => [] end, with_disk db disk, err)
  else (batch, db, None).

(** The loop over the preimages. *)
Fixpoint put_preimages (l : list (bytes * bytes)) (batch : Batch) (db : Database) : Batch * Database * option error :=
  match l with
  | [] => (batch, db, None)
  | (hash, preimage) :: l =>
      let batch := batch ++ [(secureKey hash, preimage)] in
      let '(batch, db, err) := flush_if (IdealBatchSize <? ValueSize batch) batch db in
      match err with Some e => (batch, db, Some e) | None => put_preimages l batch db end
  end.

(** What a node takes with its metadata, as [Cap] counts it. *)
Definition flushedSize (n : cachedNode) : Z :=
  32 + cn_size n + cachedNodeSize +
  match cn_children n with Some ch => cachedNodeChildrenSize + Z.of_nat (size ch) * (32 + 2) | None => 0 end.

(** The loop of [Cap] over the flush-list: where it stopped. *)
Fixpoint cap_loop (fuel : nat) (sz limit : Z) (old : bytes) (batch : Batch) (db : Database)
    : tres (bytes * Batch * Database * option error) :=
  if negb (limit <? sz) || bool_decide (old = zeroHash) then TOk (old, batch, db, None)
  else
    match fuel with
    | O => TPanic "out of fuel"
    | S fuel =>
        match dirties db !! old with
        | None => TPanic "nil pointer dereference"
        | Some n =>
            let batch := batch ++ [(old, cachedNode_rlp n)] in
            let '(batch, db, err) := flush_if (IdealBatchSize <=? ValueSize batch) batch db in
            match err with
            | Some e => TOk (old, batch, db, Some e)
            | None => cap_loop fuel (sz - flushedSize n) limit (cn_flushNext n) batch db
            end
        end
    end.

(** The loop that removes what has been written from memory. *)
Fixpoint uncache_loop (fuel : nat) (stop : bytes) (db : Database) : tres Database :=
  if bool_decide (oldest db = stop) then TOk db
  else
    match fuel with
    | O => TPanic "out of fuel"
    | S fuel =>
        match dirties db !! oldest db with
        | None => TPanic "nil pointer dereference"
        | Some n =>
            let db' := with_dirties db (base.delete (oldest db) (dirties db)) in
            let db' := with_list db' (cn_flushNext n) (newest db) in
            let db' := with_sizes db' (dirtiesSize db - (32 + cn_size n))
                         (childrenSize db - match cn_children n with
                                            | Some ch => cachedNodeChildrenSize + Z.of_nat (size ch) * (32 + 2)
                                            | None => 0
                                            end) in
            uncache_loop fuel stop db'
        end
    end.

(** What is in memory with its metadata. *)
Definition total_size (db : Database) : tres Z :=
  match dirties db !! zeroHash with
  | None => TPanic "nil pointer dereference"
  | Some meta =>
      TOk (dirtiesSize db + (Z.of_nat (size (dirties db)) - 1) * cachedNodeSize +
           (childrenSize db - Z.of_nat (size (default ∅ (cn_children meta))) * (32 + 2)))
  end.

(** The last part of [Cap]: the rest of the batch is written, then what has been written
    is removed from memory. *)
Definition cap_finish (flushPreimages : bool) (old : bytes) (batch : Batch) (db : Database) : tres (Database * option error) :=
  let '(err, disk) := batch_Write batch (diskdb db) in
  let db := with_disk db disk in
  match err with
  | Some e => TOk (db, Some e)
  | None =>
      let db := if flushPreimages then with_preimages db ∅ 0 else db in
      db ← uncache_loop (size (dirties db)) old db;
      db ← (if bool_decide (oldest db = zeroHash) then TOk db else at_dirty (oldest db) (set_prev zeroHash) db);
      TOk (db, None)
  end.

Definition Cap (limit : Z) (db : Database) : tres (Database * option error) :=
  sz ← total_size db;
  let flushPreimages := 4 * 1024 * 1024 <? preimagesSize db in
  let '(batch, db, err) :=
    if flushPreimages then put_preimages (map_to_list (preimages db)) [] db else ([], db, None) in
  match err with
  | Some e => TOk (db, Some e)
  | None =>
      '(old, batch, db, err) ← cap_loop (size (dirties db)) sz limit (oldest db) batch db;
      match err with
      | Some e => TOk (db, Some e)
      | None => cap_finish flushPreimages old batch db
      end
  end.

(** [cleaner.Put]. *)
Definition cleaner_Put (key rlp : bytes) (db : Database) : tres Database :=
  let hash := BytesToHash key in
  match dirties db !! hash with
  | None => TOk db
  | Some n =>
      db ← unlink hash n db;
      let db := with_dirties db (base.delete hash (dirties db)) in
      let db := with_sizes db
                  (dirtiesSize db - (32 + cn_size n) -
                   match cn_children n with Some ch => cachedNodeChildrenSize + Z.of_nat (size ch) * (32 + 2) | None => 0 end)
                  (childrenSize db) in
      TOk (clean_Set db hash rlp)
  end.

(** [batch.Replay] with the cleaner. *)
Definition replay (batch : Batch) (db : Database) : tres Database :=
  foldl (λ r kv, r ≫= cleaner_Put kv.1 kv.2) (TOk db) batch.

(** The private [commit]: children first. *)
Fixpoint commit (fuel : nat) (hash : bytes) (batch : Batch) (db : Database) : tres (Batch * Database * option error) :=
  match fuel with
  | O => TPanic "out of fuel"
  | S fuel =>
      match dirties db !! hash with
      | None => TOk (batch, db, None)
      | Some n =>
          '(batch, db, err) ←
            foldl (λ r child, '(batch, db, err) ← r;
                     match err with Some e => TOk (batch, db, Some e) | None => commit fuel child batch db end)
              (TOk (batch, db, None)) (forChilds n);
          match err with
          | Some e => TOk (batch, db, Some e)
          | None =>
              let batch := batch ++ [(hash, cachedNode_rlp n)] in
              if IdealBatchSize <=? ValueSize batch then
                let '(err, disk) := batch_Write batch (diskdb db) in
                let db := with_disk db disk in
                match err with
                | Some e => TOk (batch, db, Some e)
                | None => db ← replay batch db; TOk ([], db, None)
                end
              else TOk (batch, db, None)
          end
      end
  end.

(** [Database.Commit]. *)
Definition DB_Commit (node : bytes) (db : Database) : tres (Database * option error) :=
  let '(batch, db, err) := put_preimages (map_to_list (preimages db)) [] db in
  match err with
  | Some e => TOk (db, Some e)
  | None =>
      let '(err, disk) := batch_Write batch (diskdb db) in
      let db := with_disk db disk in
      match err with
      | Some e => TOk (db, Some e)
      | None =>
          '(batch, db, err) ← commit (S (size (dirties db))) node [] db;
          match err with
          | Some e => TOk (db, Some e)
          | None =>
              let '(err, disk) := batch_Write batch (diskdb db) in
              let db := with_disk db disk in
              match err with
              | Some e => TOk (db, Some e)
              | None => db ← replay batch db; TOk (with_preimages db ∅ 0, None)
              end
          end
      end
  end.

(** The memory the nodes take, and the preimages. *)
Definition Size (db : Database) : tres (Z * Z) := sz ← total_size db; TOk (sz, preimagesSize db).
End Database.
