(* ===== verification/TrieStore.v ===== *)
(** * The node database is a store of blobs

    Invariants of l2geth/trie/database.go: the flush-list is a well-formed doubly linked
    list of the nodes in memory, every node in memory has the form and the hash of the
    blob it stands for, and what the cache of clean nodes returns is on disk.  No
    operation panics, and reading, [Cap] and [Commit] leave the blobs of the database as
    they are, also when a write to disk fails. *)

From S2P Require Import Prelude GoErrors EthTypes Extern RLP TrieEncoding Trie TrieNode TrieHash TrieDB.

(** ** The flush-list *)

(** A segment of the list: every node points to the next one, the last to [nxt], and back
    to the one before. *)
Fixpoint chain (m : gmap bytes cachedNode) (prev : option bytes) (l : list bytes) (nxt : bytes) : Prop :=
  match l with
  | [] => True
  | h :: l =>
      ∃ n, m !! h = Some n ∧ cn_flushNext n = hd nxt l ∧ (∀ p, prev = Some p → cn_flushPrev n = p) ∧
           chain m (Some h) l nxt
  end.

Definition last_or (prev : option bytes) (l : list bytes) : option bytes :=
  match last l with Some x => Some x | None => prev end.

Lemma chain_app m prev l1 l2 nxt :
  chain m prev (l1 ++ l2) nxt ↔ chain m prev l1 (hd nxt l2) ∧ chain m (last_or prev l1) l2 nxt.
Proof.
  revert prev. induction l1 as [|h l1 IH]; intros prev; [cbn; tauto|]. cbn [app chain].
  assert (El : last_or prev (h :: l1) = last_or (Some h) l1) by (unfold last_or; rewrite last_cons; by destruct (last l1)).
  assert (Eh : hd nxt (l1 ++ l2) = hd (hd nxt l2) l1) by by destruct l1.
  rewrite El. split.
  - intros (n & ? & ? & ? & [? ?]%IH). split; [exists n; by rewrite <- Eh|done].
  - intros [(n & ? & ? & ? & ?) ?]. exists n. rewrite Eh. split_and!; [done..|]. by apply IH.
Qed.

(** Only the links matter. *)
Definition links (n : cachedNode) : bytes * bytes := (cn_flushPrev n, cn_flushNext n).

Lemma chain_links m m' prev l nxt :
  (∀ h, h ∈ l → links <$> m' !! h = links <$> m !! h) → chain m prev l nxt → chain m' prev l nxt.
Proof.
  revert prev. induction l as [|h l IH]; intros prev Hm; [done|]. intros (n & Hn & Hx & Hp & Hch).
  pose proof (Hm h ltac:(by left)) as Hh. rewrite Hn in Hh. destruct (m' !! h) as [n'|] eqn:Hn'; [|done].
  cbn in Hh. unfold links in Hh. injection Hh as E1 E2. exists n'. rewrite E1, E2. split_and!; try done.
  apply IH; [|done]. intros h' ?. apply Hm. by right.
Qed.

Lemma chain_frame m m' prev l nxt : (∀ h, h ∈ l → m' !! h = m !! h) → chain m prev l nxt → chain m' prev l nxt.
Proof. intros Hm. apply chain_links. intros h Hh. by rewrite Hm. Qed.

Lemma chain_insert m prev l nxt x n : x ∉ l → chain m prev l nxt → chain (<[x := n]> m) prev l nxt.
Proof. intros Hx. apply chain_frame. intros h Hh. apply lookup_insert_ne. by intros ->. Qed.

(** The fields other than the links. *)
Definition core (n : cachedNode) : raw * Z * Z * option (gmap bytes Z) :=
  (cn_node n, cn_size n, cn_parents n, cn_children n).

Definition same_core (m m' : gmap bytes cachedNode) : Prop := core <$> m' = core <$> m.

Lemma same_core_refl m : same_core m m.
Proof. done. Qed.
Lemma same_core_trans m1 m2 m3 : same_core m1 m2 → same_core m2 m3 → same_core m1 m3.
Proof. unfold same_core. congruence. Qed.

Lemma same_core_insert m x n f : m !! x = Some n → core (f n) = core n → same_core m (<[x := f n]> m).
Proof. intros Hx Hc. unfold same_core. rewrite fmap_insert, Hc. apply insert_id. by rewrite lookup_fmap, Hx. Qed.

Lemma same_core_lookup m m' x n : same_core m m' → m !! x = Some n → ∃ n', m' !! x = Some n' ∧ core n' = core n.
Proof.
  intros Hs Hx. apply (f_equal (lookup x)) in Hs. rewrite !lookup_fmap, Hx in Hs. cbn in Hs.
  destruct (m' !! x) as [n'|]; [|done]. apply (inj Some) in Hs. by exists n'.
Qed.

Lemma same_core_None m m' x : same_core m m' → m !! x = None → m' !! x = None.
Proof.
  intros Hs Hx. apply (f_equal (lookup x)) in Hs. rewrite !lookup_fmap, Hx in Hs. by destruct (m' !! x).
Qed.

Lemma same_core_is_Some m m' x : same_core m m' → is_Some (m' !! x) ↔ is_Some (m !! x).
Proof.
  intros Hs. apply (f_equal (lookup x)) in Hs. rewrite !lookup_fmap in Hs.
  destruct (m' !! x), (m !! x); try done; split; intros _; by eexists.
Qed.

Section Store.
Context `{!Keccak} {C : Type} `{!Fastcache C}.
Implicit Types db : Database (C := C).

(** The nodes in memory are the meta root, the nodes [dead] that are being deleted and
    those in the flush-list [l]. *)
Record flush_ok db (l dead : list bytes) : Prop := {
  fl_nodup : NoDup (zeroHash :: dead ++ l);
  fl_dom h : is_Some (dirties db !! h) ↔ h ∈ zeroHash :: dead ++ l;
  fl_old : oldest db = hd zeroHash l;
  fl_new x : last l = Some x → newest db = x;
  fl_chain : chain (dirties db) None l zeroHash }.

(** The same database but for the links of the flush-list. *)
Record links_only db db' : Prop := {
  lo_core : same_core (dirties db) (dirties db');
  lo_disk : diskdb db' = diskdb db;
  lo_cleans : cleans db' = cleans db;
  lo_pre : preimages db' = preimages db;
  lo_sizes : dirtiesSize db' = dirtiesSize db ∧ childrenSize db' = childrenSize db ∧ preimagesSize db' = preimagesSize db }.

Lemma at_dirty_ok h f db n : dirties db !! h = Some n →
  at_dirty h f db = TOk (with_dirties db (<[h := f n]> (dirties db))).
Proof. unfold at_dirty. by intros ->. Qed.

Lemma flush_lookup db l dead h : flush_ok db l dead → h ∈ zeroHash :: dead ++ l → ∃ n, dirties db !! h = Some n.
Proof. intros Hf Hh. by apply (fl_dom _ _ _ Hf) in Hh. Qed.

(** *** Taking a node out of the list *)

Lemma dead_nodup (h : bytes) dead l1 l2 :
  NoDup (zeroHash :: dead ++ l1 ++ h :: l2) → NoDup (zeroHash :: (h :: dead) ++ l1 ++ l2).
Proof.
  intros Hn. eapply NoDup_Permutation_proper; [|exact Hn]. constructor. cbn [app].
  rewrite !app_assoc. by rewrite <- Permutation_middle.
Qed.

Lemma dead_elem (h x : bytes) dead l1 l2 :
  x ∈ zeroHash :: dead ++ l1 ++ h :: l2 ↔ x ∈ zeroHash :: (h :: dead) ++ l1 ++ l2.
Proof. set_solver. Qed.

Lemma nodup_list (z : bytes) dead l : NoDup (z :: dead ++ l) → NoDup l.
Proof. rewrite NoDup_cons, NoDup_app. by intros (_ & _ & _ & ?). Qed.

Lemma unlink_oldest db l2 dead h n :
  flush_ok db (h :: l2) dead → dirties db !! h = Some n →
  ∃ db', unlink h n db = TOk db' ∧ flush_ok db' l2 (h :: dead) ∧ links_only db db'.
Proof.
  intros Hf Hn. pose proof Hf as [Hnd Hdom Hold Hnew Hch]. destruct Hch as (n0 & Hn0 & Hnext & _ & Hch).
  rewrite Hn in Hn0. injection Hn0 as <-. unfold unlink. rewrite bool_decide_eq_true_2 by (by rewrite Hold). rewrite Hnext.
  pose proof (dead_nodup h dead [] l2 Hnd) as Hnd'. pose proof (nodup_list _ _ _ Hnd') as Hl2.
  destruct (flush_lookup _ _ _ (hd zeroHash l2) Hf) as [y Hy]; [destruct l2; cbn; set_solver|].
  rewrite (at_dirty_ok _ _ _ y) by done. eexists. split; [done|]. split; [|by split; [apply same_core_insert|..]]. split; cbn.
  - done.
  - intros x. rewrite lookup_insert_is_Some, Hdom. destruct (decide (hd zeroHash l2 = x)) as [<-|]; [|set_solver].
    destruct l2; set_solver.
  - done.
  - intros x Hx. apply Hnew. rewrite last_cons, Hx. done.
  - destruct l2 as [|q l2]; [done|]. cbn [hd chain] in *. destruct Hch as (nq & Hq & Hnq & _ & Hch). rewrite Hq in Hy. injection Hy as <-.
    exists (set_prev zeroHash nq). rewrite lookup_insert_eq. split_and!; [done..|].
    apply chain_insert; [|done]. by apply NoDup_cons in Hl2 as [? _].
Qed.

(** The list around a node that is not the first one. *)
Lemma chain_prev m l1 p h l2 n :
  chain m None ((l1 ++ [p]) ++ h :: l2) zeroHash → m !! h = Some n → cn_flushPrev n = p.
Proof.
  rewrite chain_app. intros [_ Hch] Hn. unfold last_or in Hch. rewrite last_snoc in Hch.
  destruct Hch as (n0 & Hn0 & _ & Hp & _). rewrite Hn in Hn0. injection Hn0 as <-. by apply Hp.
Qed.

Lemma chain_next m prev l1 h l2 n nxt :
  chain m prev (l1 ++ h :: l2) nxt → m !! h = Some n → cn_flushNext n = hd nxt l2.
Proof.
  rewrite chain_app. intros [_ (n0 & Hn0 & Hx & _)] Hn. rewrite Hn in Hn0. by injection Hn0 as <-.
Qed.

(** Pointing the last node of a segment elsewhere. *)
Lemma chain_set_next m prev l p n nxt nxt' :
  chain m prev (l ++ [p]) nxt → NoDup (l ++ [p]) → m !! p = Some n → chain (<[p := set_next nxt' n]> m) prev (l ++ [p]) nxt'.
Proof.
  rewrite !chain_app. intros [Hch (n0 & Hn0 & _ & Hp & _)] Hnd Hn. rewrite Hn in Hn0. injection Hn0 as <-. split.
  - apply chain_insert; [|done]. apply NoDup_app in Hnd as (_ & Hnd & _). intros Hin. apply (Hnd _ Hin). by left.
  - exists (set_next nxt' n). by rewrite lookup_insert_eq.
Qed.

(** Pointing the first node of a segment back elsewhere. *)
Lemma chain_set_prev m prev q l n nxt p :
  chain m prev (q :: l) nxt → NoDup (q :: l) → m !! q = Some n → chain (<[q := set_prev p n]> m) (Some p) (q :: l) nxt.
Proof.
  intros (n0 & Hn0 & Hx & _ & Hch) Hnd Hn. rewrite Hn in Hn0. injection Hn0 as <-. exists (set_prev p n).
  rewrite lookup_insert_eq. split_and!; [done..|by intros ? [= ->]|]. apply chain_insert; [|done]. by apply NoDup_cons in Hnd as [? _].
Qed.

Lemma unlink_newest db l1 p dead h n :
  flush_ok db ((l1 ++ [p]) ++ [h]) dead → dirties db !! h = Some n →
  ∃ db', unlink h n db = TOk db' ∧ flush_ok db' (l1 ++ [p]) (h :: dead) ∧ links_only db db'.
Proof.
  intros Hf Hn. pose proof Hf as [Hnd Hdom Hold Hnew Hch]. pose proof (nodup_list _ _ _ Hnd) as Hl.
  pose proof (dead_nodup h dead (l1 ++ [p]) [] Hnd) as Hnd'. rewrite app_nil_r in Hnd'. pose proof (nodup_list _ _ _ Hnd') as Hl'.
  pose proof (chain_prev _ _ _ _ _ _ Hch Hn) as Hprev. pose proof (Hnew h (last_snoc _ _)) as Hnew'.
  unfold unlink. rewrite bool_decide_eq_false_2; [|].
  2:{ rewrite Hold. intros E. apply NoDup_app in Hl as (_ & Hl & _). apply (Hl h); [rewrite E; destruct l1; by left|by left]. }
  rewrite (bool_decide_eq_true_2 (h = newest db)) by done. rewrite Hprev.
  destruct (flush_lookup _ _ _ p Hf) as [y Hy]; [set_solver|].
  rewrite (at_dirty_ok _ _ _ y) by done. eexists. split; [done|]. split; [|by split; [apply same_core_insert|..]]. split; cbn [dirties oldest newest with_list with_dirties].
  - done.
  - intros x. rewrite lookup_insert_is_Some, Hdom. destruct (decide (p = x)) as [<-|]; set_solver.
  - rewrite Hold. by destruct l1.
  - intros x. rewrite last_snoc. by intros [= ->].
  - apply chain_app in Hch as [Hch _]. cbn [hd] in Hch. by eapply chain_set_next.
Qed.


Lemma unlink_middle db l1 p q l2 dead h n :
  flush_ok db ((l1 ++ [p]) ++ h :: q :: l2) dead → dirties db !! h = Some n →
  ∃ db', unlink h n db = TOk db' ∧ flush_ok db' ((l1 ++ [p]) ++ q :: l2) (h :: dead) ∧ links_only db db'.
Proof.
  intros Hf Hn. pose proof Hf as [Hnd Hdom Hold Hnew Hch]. pose proof (nodup_list _ _ _ Hnd) as Hl.
  pose proof (dead_nodup h dead (l1 ++ [p]) (q :: l2) Hnd) as Hnd'. pose proof (nodup_list _ _ _ Hnd') as Hl'.
  pose proof (chain_prev _ _ _ _ _ _ Hch Hn) as Hprev. pose proof (chain_next _ _ _ _ _ _ _ Hch Hn) as Hnext. cbn [hd] in Hnext.
  pose proof Hl as (Hl1 & Hdis & Hl2)%NoDup_app. pose proof Hl' as (_ & Hdis' & Hl2')%NoDup_app.
  assert (Hpq : p ≠ q) by (intros ->; apply (Hdis' q); [set_solver|by left]).
  destruct (flush_lookup _ _ _ p Hf) as [np Hp]; [set_solver|]. destruct (flush_lookup _ _ _ q Hf) as [nq Hq]; [set_solver|].
  unfold unlink. rewrite bool_decide_eq_false_2; [|].
  2:{ rewrite Hold. intros E. apply (Hdis h); [rewrite E; destruct l1; by left|by left]. }
  rewrite bool_decide_eq_false_2; [|].
  2:{ intros E. assert (Hlast : ∃ x, last (q :: l2) = Some x) by (rewrite last_cons; destruct (last l2); by eexists).
      destruct Hlast as [x Hx]. rewrite (Hnew x) in E by (rewrite last_app, last_cons, Hx; done). subst x.
      apply NoDup_cons in Hl2 as [Hl2 _]. apply Hl2. apply last_Some in Hx as [l' ->]. set_solver. }
  rewrite Hprev, Hnext, (at_dirty_ok _ _ _ np) by done. cbn [mbind tres_bind].
  rewrite (at_dirty_ok _ _ _ nq) by (cbn; by rewrite lookup_insert_ne).
  eexists. split; [done|]. split; [split; cbn [dirties oldest newest with_dirties]|].
  - done.
  - intros x. rewrite !lookup_insert_is_Some, Hdom. destruct (decide (q = x)), (decide (p = x)); set_solver.
  - rewrite Hold. by destruct l1.
  - intros x. rewrite last_app, last_cons. intros Hx. apply Hnew. rewrite last_app, !last_cons. by destruct (last l2).
  - apply chain_app in Hch as [Hch1 (n0 & _ & _ & _ & Hch2)]. apply chain_app. cbn [hd] in *. split.
    + apply chain_insert; [intros Hin; by apply (Hdis' q Hin); left|]. by eapply chain_set_next.
    + unfold last_or. rewrite last_snoc. eapply chain_set_prev; [|done|by rewrite lookup_insert_ne].
      apply chain_insert; [|done]. intros Hin. apply (Hdis' p); [set_solver|done].
  - split; [|done..]. cbn [dirties with_dirties]. eapply same_core_trans; [by apply (same_core_insert _ p np (set_next q))|].
    apply (same_core_insert _ q nq (set_prev p)); [by rewrite lookup_insert_ne|done].
Qed.

Lemma unlink_ok db l1 l2 dead h n :
  flush_ok db (l1 ++ h :: l2) dead → dirties db !! h = Some n →
  ∃ db', unlink h n db = TOk db' ∧ flush_ok db' (l1 ++ l2) (h :: dead) ∧ links_only db db'.
Proof.
  destruct l1 as [|p l1 _] using rev_ind; [by apply unlink_oldest|]. destruct l2 as [|q l2].
  - rewrite app_nil_r. by apply unlink_newest.
  - by apply unlink_middle.
Qed.

(** Deleting a node that is out of the list. *)
Lemma flush_delete db l h dead :
  flush_ok db l (h :: dead) → flush_ok (with_dirties db (base.delete h (dirties db))) l dead.
Proof.
  intros [Hnd Hdom Hold Hnew Hch]. cbn [app] in *.
  assert (Hh : h ≠ zeroHash ∧ (h ∉ dead ++ l) ∧ NoDup (zeroHash :: dead ++ l)).
  { apply NoDup_cons in Hnd as [Hz Hnd]. apply NoDup_cons in Hnd as [Hh Hnd]. split_and!; [set_solver|done|].
    apply NoDup_cons. split; [set_solver|done]. }
  destruct Hh as (Hhz & Hh & Hnd'). split; cbn; try done.
  - intros x. rewrite lookup_delete_is_Some, Hdom. set_solver.
  - eapply chain_frame; [|done]. intros x Hx. apply lookup_delete_ne. intros ->. set_solver.
Qed.

(** *** Adding a node *)

(** What [add_parent] leaves alone. *)
Definition body (n : cachedNode) : raw * Z * option (gmap bytes Z) * (bytes * bytes) :=
  (cn_node n, cn_size n, cn_children n, links n).

Lemma add_parents_body cs m x : body <$> foldl add_parent m cs !! x = body <$> m !! x.
Proof.
  revert m. induction cs as [|c cs IH]; intros m; [done|]. cbn [foldl]. rewrite IH. unfold add_parent.
  destruct (m !! c) as [n|] eqn:E; [|done]. destruct (decide (c = x)) as [->|]; [by rewrite lookup_insert_eq, E|by rewrite lookup_insert_ne].
Qed.

Lemma body_is_Some (m m' : gmap bytes cachedNode) x :
  body <$> m' !! x = body <$> m !! x → is_Some (m' !! x) ↔ is_Some (m !! x).
Proof. destruct (m' !! x), (m !! x); try done; split; intros _; by eexists. Qed.

Lemma body_links (m m' : gmap bytes cachedNode) x :
  body <$> m' !! x = body <$> m !! x → links <$> m' !! x = links <$> m !! x.
Proof. destruct (m' !! x), (m !! x); try done. cbn. unfold body. intros [= ? ? ? ?]. by unfold links; f_equal; f_equal. Qed.

(** A new entry, and its children with one parent more. *)
Definition new_entry (r : raw) (blob prev : bytes) : cachedNode := mkCached r (len blob mod 2 ^ 16) 0 None prev zeroHash.
Definition add_entry (hash : bytes) (e : cachedNode) (m : gmap bytes cachedNode) : gmap bytes cachedNode :=
  <[hash := e]> (foldl add_parent m (forChilds e)).

Lemma chain_snoc m prev l h n nxt :
  chain m prev l h → m !! h = Some n → cn_flushNext n = nxt → (∀ p, last_or prev l = Some p → cn_flushPrev n = p) →
  chain m prev (l ++ [h]) nxt.
Proof. intros Hl Hn Hx Hp. apply chain_app. split; [done|]. by exists n. Qed.

Lemma hd_elem (z o : bytes) l : hd z (l ++ [o]) ∈ l ++ [o].
Proof. destruct l; by left. Qed.

Lemma insert_raw_ok db l hash blob r :
  flush_ok db l [] → dirties db !! hash = None →
  ∃ db', insert_raw hash blob r db = TOk db' ∧ flush_ok db' (l ++ [hash]) [] ∧
    same_core (add_entry hash (new_entry r blob (newest db)) (dirties db)) (dirties db') ∧
    diskdb db' = diskdb db ∧ cleans db' = cleans db ∧ preimages db' = preimages db.
Proof.
  intros Hf Hnone. pose proof Hf as [Hnd Hdom Hold Hnew Hch]. cbn [app] in *. unfold insert_raw. rewrite Hnone.
  change (mkCached r _ 0 None _ _) with (new_entry r blob (newest db)). set (e := new_entry r blob (newest db)).
  fold (add_entry hash e (dirties db)). set (m := add_entry hash e (dirties db)).
  assert (Hh : hash ∉ zeroHash :: l) by (intros Hin; apply Hdom in Hin as [? E]; by rewrite E in Hnone).
  assert (Hother : ∀ x, x ≠ hash → body <$> m !! x = body <$> dirties db !! x).
  { intros x Hx. unfold m, add_entry. rewrite lookup_insert_ne by done. apply add_parents_body. }
  assert (He : m !! hash = Some e) by (unfold m, add_entry; by rewrite lookup_insert_eq).
  assert (Hndm : NoDup (zeroHash :: l ++ [hash])).
  { rewrite app_comm_cons. apply NoDup_app. split_and!; [done| |by apply NoDup_singleton]. set_solver. }
  assert (Hdomm : ∀ x, is_Some (m !! x) ↔ x ∈ zeroHash :: l ++ [hash]).
  { intros x. rewrite app_comm_cons, elem_of_app, list_elem_of_singleton. destruct (decide (x = hash)) as [->|Hx].
    - rewrite He. split; [by right|by eexists].
    - rewrite (body_is_Some _ _ _ (Hother x Hx)), Hdom. tauto. }
  assert (Hchm : chain m None l zeroHash).
  { eapply chain_links; [|done]. intros x Hx. apply body_links, Hother. intros ->. set_solver. }
  cbn [oldest newest with_dirties dirties]. destruct l as [|o l' _] using rev_ind.
  - rewrite bool_decide_eq_true_2 by (by rewrite Hold). cbn [mbind tres_bind]. eexists. split; [done|].
    split; [|by split_and!]. split; cbn; try done; [by intros x [= ->]|]. by exists e.
  - rewrite bool_decide_eq_false_2 by (rewrite Hold; intros E; apply NoDup_cons in Hnd as [Hz _]; apply Hz; rewrite <- E at 1; apply hd_elem).
    rewrite (Hnew o (last_snoc _ _)). assert (Ho : is_Some (m !! o)) by (apply Hdomm; set_solver). destruct Ho as [no Ho].
    rewrite (at_dirty_ok _ _ _ no) by done. cbn [mbind tres_bind]. eexists. split; [done|]. split; [|split_and!; try done; by apply same_core_insert].
    assert (Hoh : o ≠ hash) by (intros ->; set_solver).
    split; cbn [dirties oldest newest with_dirties with_list with_sizes app]; try done.
    + intros x. rewrite lookup_insert_is_Some, Hdomm. destruct (decide (o = x)); set_solver.
    + rewrite Hold. by destruct l'.
    + intros x. rewrite last_snoc. by intros [= ->].
    + eapply chain_snoc; [eapply chain_set_next; [done|by apply NoDup_cons in Hnd as [_ ?]|done]|by rewrite lookup_insert_ne|done|].
      unfold last_or. rewrite last_snoc. intros p [= <-]. cbn. by apply Hnew, last_snoc.
Qed.

(** ** Blobs *)

(** The nodes in memory. *)
Definition nodes (db : Database (C := C)) : gmap bytes raw := base.delete zeroHash (cn_node <$> dirties db).

(** The blobs on disk: what is stored under a hash. *)
Definition disk_blobs (db : Database (C := C)) : gmap bytes bytes :=
  filter (λ kv, length kv.1 = 32%nat ∧ kv.1 ≠ zeroHash) (kv_data (diskdb db)).

(** What the database holds. *)
Definition blobs (db : Database (C := C)) : gmap bytes bytes := (raw_blob <$> nodes db) ∪ disk_blobs db.

(** A node in memory has the hash of its blob, and is the node that is decoded from it. *)
Definition raw_ok (h : bytes) (r : raw) : Prop :=
  h = Keccak256 (raw_blob r) ∧
  match r with
  | rawNode b => True
  | r => match expandNode (Some h) r with TOk n => Found n | TPanic s => Undecodable s | TMissing _ _ => NotFound end =
         mustDecodeNode h (raw_blob r)
  end.

Record db_ok db (l dead : list bytes) : Prop := {
  ok_flush : flush_ok db l dead;
  ok_nodes h r : nodes db !! h = Some r → raw_ok h r;
  ok_disk h b : disk_blobs db !! h = Some b → h = Keccak256 b;
  ok_agree h r b : nodes db !! h = Some r → disk_blobs db !! h = Some b → b = raw_blob r;
  ok_cleans h b : clean_Get db h = Some b → kv_data (diskdb db) !! h = Some b ∧ length h = 32%nat;
  ok_pre h p : preimages db !! h = Some p → length h = 32%nat }.

Definition store_wf db : Prop := ∃ l, db_ok db l [].

Lemma nodes_dirty db h r : nodes db !! h = Some r ↔ h ≠ zeroHash ∧ ∃ n, dirties db !! h = Some n ∧ cn_node n = r.
Proof.
  unfold nodes. rewrite lookup_delete_Some, lookup_fmap, fmap_Some. naive_solver.
Qed.

Lemma disk_lookup db h b :
  disk_blobs db !! h = Some b ↔ kv_data (diskdb db) !! h = Some b ∧ length h = 32%nat ∧ h ≠ zeroHash.
Proof. unfold disk_blobs. by rewrite map_lookup_filter_Some. Qed.

Lemma blobs_lookup db h b : blobs db !! h = Some b ↔
  (∃ r, nodes db !! h = Some r ∧ b = raw_blob r) ∨ (nodes db !! h = None ∧ disk_blobs db !! h = Some b).
Proof.
  unfold blobs. rewrite lookup_union_Some_raw, lookup_fmap. destruct (nodes db !! h) as [r|]; cbn; naive_solver.
Qed.

Lemma blobs_key db l dead h b : db_ok db l dead → blobs db !! h = Some b → h = Keccak256 b ∧ h ≠ zeroHash.
Proof.
  intros Hok [(r & Hr & ->)|[_ Hd]]%blobs_lookup.
  - split; [by apply (ok_nodes _ _ _ Hok)|]. by apply nodes_dirty in Hr as [? _].
  - split; [by eapply ok_disk|]. by apply disk_lookup in Hd as (_ & _ & ?).
Qed.

(** Changes in memory that add no node and leave the rest alone. *)
Lemma ok_transfer db db' l dead l' dead' :
  db_ok db l dead → flush_ok db' l' dead' → nodes db' ⊆ nodes db →
  diskdb db' = diskdb db → cleans db' = cleans db → preimages db' = preimages db → db_ok db' l' dead'.
Proof.
  intros [Hf Hn Hd Ha Hc Hp] Hf' Hsub Ed Ec Ep. assert (Eb : disk_blobs db' = disk_blobs db) by (unfold disk_blobs; by rewrite Ed).
  assert (Hl : ∀ h r, nodes db' !! h = Some r → nodes db !! h = Some r) by (intros h r Hr; by eapply lookup_weaken).
  split; rewrite ?Eb, ?Ed; unfold clean_Get; rewrite ?Ec, ?Ep; eauto.
Qed.

Lemma blobs_same db db' : nodes db' = nodes db → diskdb db' = diskdb db → blobs db' = blobs db.
Proof. intros En Ed. unfold blobs, disk_blobs. by rewrite En, Ed. Qed.

Lemma same_core_nodes m m' : same_core m m' → cn_node <$> m' = cn_node <$> m.
Proof.
  intros Hs. apply map_eq. intros x. apply (f_equal (lookup x)) in Hs. rewrite !lookup_fmap in *.
  destruct (m' !! x), (m !! x); try done. cbn in *. apply (inj Some) in Hs. unfold core in Hs. congruence.
Qed.

Lemma links_only_nodes db db' : links_only db db' → nodes db' = nodes db.
Proof. intros Hl. unfold nodes. by rewrite (same_core_nodes _ _ (lo_core _ _ Hl)). Qed.

(** *** Reading *)

Lemma obj_ok h n : raw_ok h (cn_node n) → cachedNode_obj n h = mustDecodeNode h (raw_blob (cn_node n)).
Proof. intros [_ Ho]. unfold cachedNode_obj. by destruct (cn_node n). Qed.

Lemma zero_length : length zeroHash = 32%nat.
Proof. done. Qed.

(** Reading gives the blob, decoded or as it is, whether it is in the clean cache, in
    memory or on disk. *)
Lemma node_blob db l dead h b : db_ok db l dead → blobs db !! h = Some b → snd (node db h) = mustDecodeNode h b.
Proof.
  intros Hok Hb. pose proof (blobs_key _ _ _ _ _ Hok Hb) as [Hk Hz]. unfold node.
  assert (Hlen : length h = 32%nat) by (rewrite Hk; apply Keccak256_length).
  apply blobs_lookup in Hb as [(r & Hr & ->)|[Hn Hd]].
  - pose proof Hr as (_ & n & Hn & <-)%nodes_dirty. destruct (clean_Get db h) as [enc|] eqn:Ec.
    + apply (ok_cleans _ _ _ Hok) in Ec as [Ec _]. rewrite (ok_agree _ _ _ Hok h (cn_node n) enc); [done|done|]. by apply disk_lookup.
    + rewrite Hn. by apply obj_ok, (ok_nodes _ _ _ Hok).
  - pose proof Hd as (Hkv & _)%disk_lookup. destruct (clean_Get db h) as [enc|] eqn:Ec.
    + apply (ok_cleans _ _ _ Hok) in Ec as [Ec _]. by rewrite Hkv in Ec; injection Ec as <-.
    + destruct (dirties db !! h) as [n|] eqn:En; [|by rewrite Hkv].
      by rewrite (proj2 (nodes_dirty db h (cn_node n))) in Hn by eauto.
Qed.

Lemma Node_blob db l dead h b : db_ok db l dead → blobs db !! h = Some b → snd (Node db h) = Some b.
Proof.
  intros Hok Hb. pose proof (blobs_key _ _ _ _ _ Hok Hb) as [Hk Hz]. unfold Node. rewrite bool_decide_eq_false_2 by done.
  assert (Hlen : length h = 32%nat) by (rewrite Hk; apply Keccak256_length).
  apply blobs_lookup in Hb as [(r & Hr & ->)|[Hn Hd]].
  - pose proof Hr as (_ & n & Hn & <-)%nodes_dirty. destruct (clean_Get db h) as [enc|] eqn:Ec; [|rewrite Hn; reflexivity].
    apply (ok_cleans _ _ _ Hok) in Ec as [Ec _]. cbn. f_equal. apply (ok_agree _ _ _ Hok h (cn_node n) enc); [done|]. by apply disk_lookup.
  - pose proof Hd as (Hkv & _)%disk_lookup. destruct (clean_Get db h) as [enc|] eqn:Ec.
    + apply (ok_cleans _ _ _ Hok) in Ec as [Ec _]. by rewrite Hkv in Ec; injection Ec as <-.
    + destruct (dirties db !! h) as [n|] eqn:En; [|by rewrite Hkv].
      by rewrite (proj2 (nodes_dirty db h (cn_node n))) in Hn by eauto.
Qed.

(** Filling the clean cache from disk changes nothing else. *)
Lemma clean_Set_ok db l dead h b :
  db_ok db l dead → kv_data (diskdb db) !! h = Some b → length h = 32%nat →
  db_ok (clean_Set db h b) l dead ∧ blobs (clean_Set db h b) = blobs db.
Proof.
  intros Hok Hb Hlen. unfold clean_Set. destruct (cleans db) as [c|] eqn:Ec; [|done]. split; [|done].
  destruct Hok as [[] Hn Hd Ha Hc Hp]. split; try done. intros h' b'. unfold clean_Get. cbn.
  intros [[-> ->]|Hg]%fc_Get_Set; [done|]. apply Hc. unfold clean_Get. by rewrite Ec.
Qed.

Lemma node_ok db l dead h : db_ok db l dead → length h = 32%nat → db_ok (fst (node db h)) l dead ∧ blobs (fst (node db h)) = blobs db.
Proof.
  intros Hok Hlen. unfold node. destruct (clean_Get db h); [done|]. destruct (dirties db !! h); [done|].
  destruct (kv_data (diskdb db) !! h) as [b|] eqn:E; [|done]. by apply clean_Set_ok.
Qed.

(** *** Inserting *)

Lemma body_node (m m' : gmap bytes cachedNode) x :
  body <$> m' !! x = body <$> m !! x → cn_node <$> m' !! x = cn_node <$> m !! x.
Proof. destruct (m' !! x), (m !! x); try done. cbn. unfold body. congruence. Qed.

Lemma insert_raw_store db l hash blob r :
  db_ok db l [] → hash ≠ zeroHash → dirties db !! hash = None → raw_ok hash r →
  (∀ b, disk_blobs db !! hash = Some b → b = raw_blob r) →
  ∃ db', insert_raw hash blob r db = TOk db' ∧ db_ok db' (l ++ [hash]) [] ∧
    same_core (add_entry hash (new_entry r blob (newest db)) (dirties db)) (dirties db') ∧
    nodes db' = <[hash := r]> (nodes db) ∧ diskdb db' = diskdb db.
Proof.
  intros Hok Hz Hnone Hr Hd. pose proof Hok as [Hf Hn Hdk Ha Hc Hp].
  destruct (insert_raw_ok db l hash blob r Hf Hnone) as (db' & E & Hf' & Hs & Ed & Ec & Ep). exists db'.
  assert (En : nodes db' = <[hash := r]> (nodes db)).
  { unfold nodes. rewrite (same_core_nodes _ _ Hs). unfold add_entry. rewrite fmap_insert, delete_insert_ne by done. f_equal. f_equal.
    apply map_eq. intros x. rewrite !lookup_fmap. apply body_node, add_parents_body. }
  split_and!; try done. assert (Eb : disk_blobs db' = disk_blobs db) by (unfold disk_blobs; by rewrite Ed).
  split; rewrite ?Eb, ?En; unfold clean_Get; rewrite ?Ed, ?Ec, ?Ep; try done.
  - intros h r' [[<- <-]|[_ Hx]]%lookup_insert_Some; [done|by apply Hn].
  - intros h r' b [[<- <-]|[_ Hx]]%lookup_insert_Some Hb; [by apply Hd|by eapply Ha].
Qed.

Lemma blobs_insert db db' hash r :
  nodes db' = <[hash := r]> (nodes db) → diskdb db' = diskdb db → blobs db' = <[hash := raw_blob r]> (blobs db).
Proof. intros En Ed. unfold blobs, disk_blobs. rewrite En, Ed, fmap_insert. by rewrite insert_union_l. Qed.

(** A collapsed node of a trie. *)
Lemma insert_node_ok db n t :
  store_wf db → wf t → sized t → solid t → collapsed true n t → ref_hash t ≠ zeros 32 →
  blobs db !! ref_hash t = None ∨ blobs db !! ref_hash t = Some (ref_enc t) →
  ∃ db', insert db (ref_hash t) (ref_enc t) n = TOk db' ∧ store_wf db' ∧
    blobs db' = <[ref_hash t := ref_enc t]> (blobs db) ∧ is_Some (dirties db' !! ref_hash t).
Proof.
  intros [l Hok] Hw Hs Hso Hc Hz Hcl. unfold insert. destruct (dirties db !! ref_hash t) as [e|] eqn:Ed.
  - exists db. split; [done|]. split; [by exists l|]. split; [|by eexists]. symmetry. apply insert_id.
    destruct Hcl as [Hcl|]; [|done]. assert (Hin : blobs db !! ref_hash t = Some (raw_blob (cn_node e))); [|by rewrite Hin in Hcl].
    apply blobs_lookup. left. exists (cn_node e). split; [|done]. apply nodes_dirty. eauto.
  - destruct (collapsed_form _ _ _ Hc Hw) as (r & Er & Hraw & Ei & Ex). rewrite Er. cbn [mbind tres_bind].
    assert (Eb : raw_blob r = ref_enc t).
    { transitivity (encodeNode n); [unfold encodeNode; rewrite <- Ei; by destruct r|]. by apply encode_ref. }
    assert (Hrok : raw_ok (ref_hash t) r).
    { unfold raw_ok. rewrite Eb. split; [done|]. destruct r; try done; rewrite Ex; unfold mustDecodeNode; by rewrite decodeNode_enc. }
    destruct (insert_raw_store db l (ref_hash t) (ref_enc t) r Hok) as (db' & E & Hok' & Hsc & En & Edk); try done.
    { intros b Hb. rewrite Eb. assert (Hin : blobs db !! ref_hash t = Some b).
      { apply blobs_lookup. right. split; [|done]. unfold nodes. apply lookup_delete_None. right. by rewrite lookup_fmap, Ed. }
      destruct Hcl; congruence. }
    exists db'. split; [done|]. split; [by eexists|]. split; [rewrite <- Eb; by apply blobs_insert|].
    apply (same_core_is_Some _ _ _ Hsc). unfold add_entry. rewrite lookup_insert_eq. by eexists.
Qed.

(** The database gives the tries what they need. *)
#[export] Program Instance store_NodeDB : NodeDB (Database (C := C)) := {
  db_node db h := snd (node db h);
  db_insert := insert;
  db_blobs := blobs;
  db_wf := store_wf;
  db_live db h := is_Some (dirties db !! h) ∧ h ≠ zeroHash }.
Next Obligation. intros db h b [l Hok] Hb. by eapply node_blob. Qed.
Next Obligation. intros db h b [l Hok] Hb. by eapply blobs_key in Hb as [? _]. Qed.
Next Obligation.
  intros db n t Hd Hw Hs Hso Hc Hz Hcl. destruct (insert_node_ok db n t Hd Hw Hs Hso Hc Hz Hcl) as (db' & ? & ? & ? & ?).
  exists db'. split_and!; done.
Qed.

(** ** Moving nodes to disk *)

(** What is written: nodes that the database holds, and preimages under their longer keys. *)
Definition write_ok db (kv : bytes * bytes) : Prop := length kv.1 ≠ 32%nat ∨ blobs db !! kv.1 = Some kv.2.
Definition batch_ok db (b : Batch) : Prop := Forall (write_ok db) b.

Lemma batch_ok_blobs db db' b : blobs db' = blobs db → batch_ok db b → batch_ok db' b.
Proof. intros E Hb. eapply Forall_impl; [exact Hb|]. intros kv. unfold write_ok. by rewrite E. Qed.

Lemma nodes_length db l dead h r : db_ok db l dead → nodes db !! h = Some r → length h = 32%nat.
Proof. intros Hok Hr. destruct (ok_nodes _ _ _ Hok _ _ Hr) as [-> _]. apply Keccak256_length. Qed.

(** One write. *)
Definition put (kv : bytes * bytes) db : Database :=
  with_disk db (mkKV (<[kv.1 := kv.2]> (kv_data (diskdb db))) (kv_faults (diskdb db))).

Lemma put_nodes db kv : nodes (put kv db) = nodes db.
Proof. done. Qed.

Lemma disk_put db kv :
  disk_blobs (put kv db) = if decide (length kv.1 = 32%nat ∧ kv.1 ≠ zeroHash) then <[kv.1 := kv.2]> (disk_blobs db) else disk_blobs db.
Proof.
  unfold disk_blobs, put. cbn. case_decide as Hd; [by rewrite map_filter_insert_True|].
  rewrite map_filter_insert_False by done. apply map_eq. intros x. destruct (decide (x = kv.1)) as [->|].
  - transitivity (@None bytes); [|symmetry]; apply map_lookup_filter_None; right; intros ? ?; cbn; tauto.
  - rewrite !map_lookup_filter. destruct (decide (kv.1 = x)); [done|]. by rewrite lookup_delete_ne.
Qed.

Lemma put_ok db l dead kv :
  db_ok db l dead → write_ok db kv →
  db_ok (put kv db) l dead ∧ blobs (put kv db) = blobs db ∧ disk_blobs db ⊆ disk_blobs (put kv db) ∧
  (∀ h, is_Some (disk_blobs (put kv db) !! h) ↔ is_Some (disk_blobs db !! h) ∨ (length h = 32%nat ∧ ∃ v, (h, v) ∈ [kv])).
Proof.
  assert (Hsing : ∀ h, (∃ v, (h, v) ∈ [kv]) ↔ h = kv.1).
  { intros h. split; [by intros (v & <-%list_elem_of_singleton)|]. intros ->. exists kv.2. apply list_elem_of_singleton. by destruct kv. }
  intros Hok Hw. pose proof Hok as [[] Hn Hd Ha Hc Hp]. destruct Hw as [Hlen|Hv].
  - assert (Eb : disk_blobs (put kv db) = disk_blobs db) by (rewrite disk_put, decide_False; [done|tauto]).
    split_and!; [|unfold blobs; by rewrite Eb|by rewrite Eb|].
    2:{ intros h. rewrite Eb, Hsing. split; [by left|]. intros [?|[? ->]]; done. }
    split; rewrite ?Eb; try done.
    intros h b Hg. destruct (Hc h b Hg) as [Hkv Hl]. split; [|done]. unfold put. cbn. rewrite lookup_insert_ne; [done|congruence].
  - destruct (blobs_key _ _ _ _ _ Hok Hv) as [Hk Hz]. assert (Hlen : length kv.1 = 32%nat) by (rewrite Hk; apply Keccak256_length).
    assert (Eb : disk_blobs (put kv db) = <[kv.1 := kv.2]> (disk_blobs db)) by (by rewrite disk_put, decide_True).
    assert (Hagree : ∀ b, disk_blobs db !! kv.1 = Some b → b = kv.2) 
      by (intros b Hb; apply blobs_lookup in Hv as [(r & Hr & ->)|[_ Hv]]; [by eapply Ha|congruence]).
    split_and!.
    + split; rewrite ?Eb, ?put_nodes; try done.
      * intros h b [[<- <-]|[_ Hx]]%lookup_insert_Some; [done|by apply Hd].
      * intros h r' b Hr' [[<- <-]|[_ Hx]]%lookup_insert_Some; [|by eapply Ha].
        apply blobs_lookup in Hv as [(r & Hr & ->)|[Hr _]]; congruence.
      * intros h b Hg. destruct (Hc h b Hg) as [Hkv Hl]. split; [|done]. unfold put. cbn.
        destruct (decide (h = kv.1)) as [->|]; [|by rewrite lookup_insert_ne]. rewrite lookup_insert_eq. f_equal. symmetry.
        apply Hagree. by apply disk_lookup.
    + unfold blobs. rewrite Eb. change (nodes (put kv db)) with (nodes db). apply map_eq. intros x.
      destruct (decide (x = kv.1)) as [->|]; [|by rewrite !lookup_union, lookup_insert_ne].
      fold (blobs db). rewrite Hv. apply blobs_lookup in Hv as [(r & Hr & ->)|[Hr _]].
      * apply lookup_union_Some_l. by rewrite lookup_fmap, Hr.
      * rewrite lookup_union_r by (by rewrite lookup_fmap, Hr). apply lookup_insert_eq.
    + rewrite Eb. destruct (disk_blobs db !! kv.1) as [b|] eqn:E; [|by apply insert_subseteq].
      rewrite insert_id; [done|]. by rewrite E, (Hagree b eq_refl).
    + intros h. rewrite Eb, Hsing, lookup_insert_is_Some. destruct (decide (kv.1 = h)) as [<-|]; [|naive_solver]. tauto.
Qed.

(** A batch, written or not. *)
Lemma batch_Write_ok db l dead b err disk :
  db_ok db l dead → batch_ok db b → batch_Write b (diskdb db) = (err, disk) →
  db_ok (with_disk db disk) l dead ∧ blobs (with_disk db disk) = blobs db ∧
  disk_blobs db ⊆ disk_blobs (with_disk db disk) ∧
  match err with
  | None => ∀ h, is_Some (disk_blobs (with_disk db disk) !! h) ↔
      is_Some (disk_blobs db !! h) ∨ (length h = 32%nat ∧ ∃ v, (h, v) ∈ b)
  | Some _ => disk_blobs (with_disk db disk) = disk_blobs db
  end.
Proof.
  intros Hok Hb E.
  assert (Hput : ∀ b db, db_ok db l dead → batch_ok db b →
    let db' := with_disk db (mkKV (foldl (λ m kv, <[kv.1 := kv.2]> m) (kv_data (diskdb db)) b) (kv_faults (diskdb db))) in
    db_ok db' l dead ∧ blobs db' = blobs db ∧ disk_blobs db ⊆ disk_blobs db' ∧
    ∀ h, is_Some (disk_blobs db' !! h) ↔ is_Some (disk_blobs db !! h) ∨ (length h = 32%nat ∧ ∃ v, (h, v) ∈ b)).
  { clear. induction b as [|kv b IH]; intros db Hok Hb; cbn zeta.
    - destruct db as [[data faults]]. split_and!; [done..|]. intros h. split; [by left|]. intros [?|(_ & v & ?%elem_of_nil)]; done.
    - apply Forall_cons in Hb as [Hkv Hb]. destruct (put_ok db l dead kv Hok Hkv) as (Hok1 & Eb1 & Hs1 & Hin1).
      destruct (IH (put kv db) Hok1 (batch_ok_blobs _ _ _ Eb1 Hb)) as (Hok2 & Eb2 & Hs2 & Hin2). split_and!; [exact Hok2|exact (eq_trans Eb2 Eb1)|etrans; [exact Hs1|exact Hs2]|].
      intros h. etrans; [exact (Hin2 h)|]. rewrite Hin1. set_solver. }
  unfold batch_Write in E. assert (Hfaults : ∀ data fs l dead,
    (db_ok (with_disk db (mkKV data (kv_faults (diskdb db)))) l dead → db_ok (with_disk db (mkKV data fs)) l dead)).
  { intros data fs l0 dead0 [[] ? ? ? ? ?]. by split; [split|..]. }
  destruct (Hput b db Hok Hb) as (Hok' & Eb' & Hs' & Hin').
  destruct (kv_faults (diskdb db)) as [|[] fs] eqn:Ef; injection E as <- <-; cbn [fst snd].
  - split_and!; [eapply Hfaults; exact Hok'|done..].
  - split_and!; [|done..]. apply Hfaults. destruct db as [[data faults]]. cbn in *. by subst.
  - split_and!; [eapply Hfaults; exact Hok'|done..].
Qed.

(** Only the disk has changed, and the blobs are the same. *)
Record moved db db' : Prop := {
  mv_disk : ∃ disk, db' = with_disk db disk;
  mv_blobs : blobs db' = blobs db;
  mv_grow : disk_blobs db ⊆ disk_blobs db' }.

Lemma moved_refl db : moved db db.
Proof. split; [exists (diskdb db); by destruct db|done..]. Qed.

Lemma moved_trans db1 db2 db3 : moved db1 db2 → moved db2 db3 → moved db1 db3.
Proof.
  intros [[d1 E1] B1 G1] [[d2 E2] B2 G2]. split; [exists d2; by rewrite E2, E1|congruence|by etrans].
Qed.

Lemma moved_dirties db db' : moved db db' →
  dirties db' = dirties db ∧ nodes db' = nodes db ∧ oldest db' = oldest db ∧ newest db' = newest db ∧ preimages db' = preimages db.
Proof. by intros [[disk ->] _ _]. Qed.

(** On disk, or in the batch. *)
Definition written db (b : Batch) (h : bytes) : Prop :=
  is_Some (disk_blobs db !! h) ∨ (length h = 32%nat ∧ ∃ v, (h, v) ∈ b).

Lemma written_moved db db' b h : moved db db' → written db b h → written db' b h.
Proof. intros Hm [Hd|?]; [left|by right]. eapply lookup_weaken_is_Some; [done|apply Hm]. Qed.

Lemma written_app db b b' h : written db b h → written db (b ++ b') h.
Proof. intros [?|(? & v & Hv)]; [by left|right]. split; [done|]. exists v. apply elem_of_app. by left. Qed.

(** The state of a loop that writes: the database is fine and so is the batch. *)
Definition writing db l dead (b : Batch) : Prop := db_ok db l dead ∧ batch_ok db b.

Lemma flush_if_ok full b db l dead b' db' err :
  writing db l dead b → flush_if full b db = (b', db', err) →
  writing db' l dead b' ∧ moved db db' ∧ (b' = [] ∨ b' = b) ∧
  match err with
  | None => (∀ h, written db' b' h ↔ written db b h) ∧ (b' = [] ∨ db' = db)
  | Some _ => disk_blobs db' = disk_blobs db
  end.
Proof.
  intros [Hok Hb] E. unfold flush_if in E. destruct full.
  - destruct (batch_Write b (diskdb db)) as [err0 disk] eqn:Ew. injection E as <- <- <-.
    destruct (batch_Write_ok _ _ _ _ _ _ Hok Hb Ew) as (Hok' & Eb & Hs & Hin).
    split_and!; [split; [done|destruct err0; [by eapply batch_ok_blobs|constructor]]|by split; [eexists|..]|destruct err0; auto|].
    destruct err0; [done|]. split; [|by left]. intros h. unfold written. rewrite Hin. set_solver.
  - injection E as <- <- <-. split_and!; [done|apply moved_refl|by right|done|by right].
Qed.

Lemma writing_snoc db l dead b kv : writing db l dead b → write_ok db kv → writing db l dead (b ++ [kv]).
Proof. intros [Hok Hb] Hkv. split; [done|]. apply Forall_app. by split; [|constructor]. Qed.

Lemma secureKey_length h : length (secureKey h) = (11 + length h)%nat.
Proof. unfold secureKey. by rewrite length_app. Qed.

Definition preimage_batch (b : Batch) : Prop := Forall (λ kv, length kv.1 ≠ 32%nat) b.

Lemma written_preimages db b h : preimage_batch b → written db b h ↔ is_Some (disk_blobs db !! h).
Proof.
  intros Hb. unfold written. split; [|by left]. intros [?|(Hl & v & Hv)]; [done|].
  unfold preimage_batch in Hb. rewrite Forall_forall in Hb. by apply Hb in Hv.
Qed.

Lemma put_preimages_ok lp b db l dead b' db' err :
  writing db l dead b → preimage_batch b → Forall (λ kv, length kv.1 = 32%nat) lp → put_preimages lp b db = (b', db', err) →
  writing db' l dead b' ∧ moved db db' ∧ preimage_batch b' ∧
  (∀ h, is_Some (disk_blobs db' !! h) ↔ is_Some (disk_blobs db !! h)).
Proof.
  revert b db. induction lp as [|[h p] lp IH]; intros b db Hw Hb Hl E; cbn [put_preimages] in E.
  - injection E as <- <- <-. split_and!; [done|apply moved_refl|done..].
  - apply Forall_cons in Hl as [Hh Hl]. destruct (flush_if _ (b ++ [(secureKey h, p)]) db) as [[b1 db1] err1] eqn:E1.
    assert (Hk : length (secureKey h) ≠ 32%nat) by (rewrite secureKey_length; cbn in Hh; lia).
    assert (Hb1 : preimage_batch (b ++ [(secureKey h, p)])) by (apply Forall_app; by split; [|constructor]).
    assert (Hw1 : writing db l dead (b ++ [(secureKey h, p)])) by (apply writing_snoc; [done|by left]).
    destruct (flush_if_ok _ _ _ _ _ _ _ _ Hw1 E1) as (Hw2 & Hm & Hor & Hwr).
    assert (Hb2 : preimage_batch b1) by (by destruct Hor as [->| ->]; [constructor|]).
    destruct err1.
    + injection E as <- <- <-. split_and!; try done. intros x. by rewrite Hwr.
    + destruct Hwr as [Hwr _]. destruct (IH _ _ Hw2 Hb2 Hl E) as (Hw3 & Hm3 & Hb3 & Hd3).
      split_and!; [done|by eapply moved_trans|done|]. intros x. rewrite Hd3.
      by rewrite <- (written_preimages db1 b1 x Hb2), Hwr, (written_preimages db _ x Hb1).
Qed.

Lemma preimages_length db l dead : db_ok db l dead → Forall (λ kv, length kv.1 = 32%nat) (map_to_list (preimages db)).
Proof. intros Hok. apply Forall_forall. intros [h p] Hin%elem_of_map_to_list. by eapply ok_pre. Qed.

(** *** Cap *)

Lemma chain_head m prev h l nxt : chain m prev (h :: l) nxt → ∃ n, m !! h = Some n ∧ cn_flushNext n = hd nxt l.
Proof. intros (n & ? & ? & _). by exists n. Qed.

Lemma flush_elem db l dead h : flush_ok db l dead → h ∈ l → h ≠ zeroHash.
Proof. intros Hf Hh ->. pose proof (fl_nodup _ _ _ Hf) as [Hz _]%NoDup_cons. apply Hz, elem_of_app. by right. Qed.

(** The children [K] of what is on disk are on disk, and of what is in the batch too. *)
Definition closed (K : bytes → list bytes) db (b : Batch) : Prop :=
  ∀ p h, written db b p → h ∈ K p → written db b h.
Definition disk_closed (K : bytes → list bytes) db : Prop := closed K db [].

Lemma written_nil db h : written db [] h ↔ is_Some (disk_blobs db !! h).
Proof. unfold written. split; [|by left]. by intros [?|(_ & v & ?%elem_of_nil)]. Qed.

Lemma disk_closed_closed K db db' b b' :
  (∀ h, written db' b' h ↔ written db b h) → closed K db b → closed K db' b'.
Proof. intros Hw Hc p h. rewrite !Hw. apply Hc. Qed.

Lemma closed_snoc K db b o v :
  closed K db b → length o = 32%nat → (∀ h, h ∈ K o → written db b h) → closed K db (b ++ [(o, v)]).
Proof.
  intros Hc Ho HK p h [Hd|(Hl & w & Hw)] Hh.
  - apply written_app. eapply Hc; [by left|done].
  - apply elem_of_app in Hw as [Hw|Hw]; [apply written_app; eapply Hc; [right; by eauto|done]|].
    apply list_elem_of_singleton in Hw as [= -> ->]. by apply written_app, HK.
Qed.

(** A node in the list comes after its children, unless they are on disk. *)
Definition ordered (K : bytes → list bytes) db (l : list bytes) : Prop :=
  ∀ l1 o l2 h, l = l1 ++ o :: l2 → h ∈ K o → h ∈ l1 ∨ is_Some (disk_blobs db !! h).

Lemma ordered_moved K db db' l : moved db db' → ordered K db l → ordered K db' l.
Proof.
  intros Hm Ho l1 o l2 h E Hh. destruct (Ho l1 o l2 h E Hh) as [?|Hd]; [by left|right].
  eapply lookup_weaken_is_Some; [done|apply Hm].
Qed.

(** The loop writes a part [l1] of the list from its beginning and stops at the next node;
    the disk is closed at every write. *)
Lemma cap_loop_ok K l2 fuel sz limit l1 dead b db :
  writing db (l1 ++ l2) dead b → (∀ h, h ∈ l1 → written db b h) → (length l2 ≤ fuel)%nat →
  closed K db b → disk_closed K db → ordered K db (l1 ++ l2) →
  ∃ old b' db' err, cap_loop fuel sz limit (hd zeroHash l2) b db = TOk (old, b', db', err) ∧
    writing db' (l1 ++ l2) dead b' ∧ moved db db' ∧ disk_closed K db' ∧
    (err = None → closed K db' b' ∧
       ∃ l1' l2', l1 ++ l2 = l1' ++ l2' ∧ old = hd zeroHash l2' ∧ ∀ h, h ∈ l1' → written db' b' h).
Proof.
  revert fuel sz l1 b db. induction l2 as [|o l2 IH]; intros fuel sz l1 b db Hw Hl1 Hf Hcl Hdc Hord.
  - exists zeroHash, b, db, None. split_and!; [|done|apply moved_refl|done|intros _; split; [done|by exists l1, []]].
    destruct fuel; cbn; by rewrite (bool_decide_eq_true_2 (zeroHash = zeroHash)), orb_true_r.
  - pose proof (proj1 Hw) as Hok. pose proof (ok_flush _ _ _ Hok) as Hfl. cbn [hd].
    assert (Ho : o ≠ zeroHash) by (eapply flush_elem; [done|set_solver]).
    destruct fuel as [|fuel]; [cbn in Hf; lia|]. cbn [cap_loop]. destruct (negb (limit <? sz) || _) eqn:Estop.
    + exists o, b, db, None. split_and!; [done..|apply moved_refl|done|]. intros _. split; [done|]. by exists l1, (o :: l2).
    + pose proof (fl_chain _ _ _ Hfl) as [_ Hch]%chain_app. destruct (chain_head _ _ _ _ _ Hch) as (n & Hn & Hnext). rewrite Hn.
      destruct (flush_if _ (b ++ [(o, cachedNode_rlp n)]) db) as [[b1 db1] err1] eqn:E1.
      assert (Hr : nodes db !! o = Some (cn_node n)) by (apply nodes_dirty; eauto).
      pose proof (nodes_length _ _ _ _ _ Hok Hr) as Hlen.
      assert (Hw1 : writing db (l1 ++ o :: l2) dead (b ++ [(o, cachedNode_rlp n)])) by (apply writing_snoc; [done|right; apply blobs_lookup; left; by exists (cn_node n)]).
      assert (Hcl1 : closed K db (b ++ [(o, cachedNode_rlp n)])).
      { apply closed_snoc; [done..|]. intros h Hh. destruct (Hord l1 o l2 h eq_refl Hh) as [?|?]; [by apply Hl1|by left]. }
      destruct (flush_if_ok _ _ _ _ _ _ _ _ Hw1 E1) as (Hw2 & Hm & _ & Hwr).
      destruct err1 as [e|].
      { exists o, b1, db1, (Some e). split_and!; try done. intros p h. rewrite !written_nil, Hwr, <- !written_nil. apply Hdc. }
      destruct Hwr as [Hwr Hor]. assert (Hcl2 : closed K db1 b1) by (by eapply disk_closed_closed).
      rewrite Hnext. pose proof (ordered_moved _ _ _ _ Hm Hord) as Hord1. rewrite (cons_middle o l1 l2), app_assoc in *.
      destruct (IH fuel (sz - flushedSize n) (l1 ++ [o]) b1 db1 Hw2) as (old & b2 & db2 & err & -> & Hw3 & Hm3 & Hdc3 & Hfin);
        [|cbn in Hf; lia|done| |done|].
      * intros h Hh. apply Hwr. apply elem_of_app in Hh as [Hh|Hh]; [by apply written_app, Hl1|].
        apply list_elem_of_singleton in Hh as ->. right. split; [done|]. exists (cachedNode_rlp n). apply elem_of_app. right. by left.
      * by destruct Hor as [->| ->].
      * exists old, b2, db2, err. split_and!; [done..|by eapply moved_trans|done|done].
Qed.

(** Removing from memory what is on disk. *)
Lemma uncache_one db l dead h n db' :
  db_ok db (h :: l) dead → dirties db !! h = Some n → is_Some (disk_blobs db !! h) →
  dirties db' = base.delete h (dirties db) → oldest db' = hd zeroHash l → newest db' = newest db →
  diskdb db' = diskdb db → cleans db' = cleans db → preimages db' = preimages db →
  db_ok db' l dead ∧ blobs db' = blobs db ∧ nodes db' = base.delete h (nodes db).
Proof.
  intros Hok Hn [b Hb] Ed Eo Enw Edk Ec Ep. pose proof (ok_flush _ _ _ Hok) as Hf. pose proof Hf as [Hnd Hdom Hold Hnew Hch].
  assert (En : nodes db' = base.delete h (nodes db)) by (unfold nodes; rewrite Ed, fmap_delete; apply delete_delete).
  assert (Hz : h ≠ zeroHash) by (eapply flush_elem; [done|by left]).
  split_and!; [|..|done].
  - eapply ok_transfer; [done| |rewrite En; apply delete_subseteq|done..].
    pose proof (dead_nodup h dead [] l Hnd) as Hnd'. cbn [app] in Hnd'. apply NoDup_cons in Hnd' as [Hz' Hnd'].
    apply NoDup_cons in Hnd' as [Hh Hnd']. split.
    + apply NoDup_cons. split; [set_solver|done].
    + intros x. rewrite Ed, lookup_delete_is_Some, Hdom. set_solver.
    + done.
    + intros x Hx. rewrite Enw. apply Hnew. by rewrite last_cons, Hx.
    + destruct Hch as (n0 & _ & _ & _ & Hch). rewrite Ed. destruct l as [|q l]; [done|].
      destruct Hch as (nq & Hq & Hx & _ & Hch). exists nq. rewrite lookup_delete_ne by (intros ->; set_solver).
      split_and!; [done..|]. eapply chain_frame; [|done]. intros x Hx'. apply lookup_delete_ne. intros ->. set_solver.
  - unfold blobs, disk_blobs. rewrite En, Edk. fold (disk_blobs db). apply map_eq. intros x. rewrite fmap_delete.
    destruct (decide (x = h)) as [->|]; [|by rewrite !lookup_union, lookup_delete_ne].
    assert (Hr : nodes db !! h = Some (cn_node n)) by (apply nodes_dirty; eauto).
    rewrite lookup_union_r by (apply lookup_delete_eq). rewrite Hb, (ok_agree _ _ _ Hok _ _ _ Hr Hb). symmetry.
    apply lookup_union_Some_l. by rewrite lookup_fmap, Hr.
Qed.

Lemma uncache_loop_ok l1 fuel l2 dead db :
  db_ok db (l1 ++ l2) dead → (∀ h, h ∈ l1 → is_Some (disk_blobs db !! h)) → (length l1 ≤ fuel)%nat →
  ∃ db', uncache_loop fuel (hd zeroHash l2) db = TOk db' ∧ db_ok db' l2 dead ∧ blobs db' = blobs db ∧
    diskdb db' = diskdb db ∧ nodes db' ⊆ nodes db ∧ (∀ h, h ∉ l1 → dirties db' !! h = dirties db !! h).
Proof.
  revert fuel db. induction l1 as [|o l1 IH]; intros fuel db Hok Hd Hf.
  - exists db. split_and!; try done. pose proof (fl_old _ _ _ (ok_flush _ _ _ Hok)) as Hold. cbn [app] in Hold.
    destruct fuel; cbn; by rewrite bool_decide_eq_true_2.
  - pose proof (ok_flush _ _ _ Hok) as Hfl. pose proof (fl_old _ _ _ Hfl) as Hold. cbn [app hd] in *.
    pose proof (fl_chain _ _ _ Hfl) as Hch. destruct (chain_head _ _ _ _ _ Hch) as (n & Hn & Hnext).
    assert (Hne : oldest db ≠ hd zeroHash l2).
    { rewrite Hold. pose proof (fl_nodup _ _ _ Hfl) as Hnd. intros E. destruct l2 as [|q l2]; [by eapply flush_elem; [..|exact E]; [done|by left]|].
      apply nodup_list, NoDup_cons in Hnd as [Hnd _]. apply Hnd. cbn in E. rewrite E. apply elem_of_app. right. by left. }
    destruct fuel as [|fuel]; [cbn in Hf; lia|]. cbn [uncache_loop]. rewrite bool_decide_eq_false_2 by done. rewrite Hold, Hn, Hnext.
    match goal with |- context [uncache_loop fuel _ ?d] => set (db1 := d) end.
    destruct (uncache_one db (l1 ++ l2) dead o n db1 Hok Hn) as (Hok1 & Eb1 & En1); try done; [by apply Hd; left|].
    destruct (IH fuel db1 Hok1) as (db' & -> & Hok' & Eb' & Edk' & Hs' & Hsame); [intros h Hh; apply Hd; by right|cbn in Hf; lia|].
    exists db'. split_and!; try done; [congruence| |].
    + etrans; [done|]. rewrite En1. apply delete_subseteq.
    + intros h Hh. rewrite Hsame by set_solver. apply lookup_delete_ne. intros ->. set_solver.
Qed.

Lemma size_list db l dead : flush_ok db l dead → size (dirties db) = S (length dead + length l).
Proof.
  intros Hf. assert (E : dom (dirties db) = list_to_set (zeroHash :: dead ++ l)).
  { apply set_eq. intros x. rewrite elem_of_dom, elem_of_list_to_set. apply Hf. }
  rewrite <- size_dom, E, size_list_to_set by apply Hf. cbn [length]. by rewrite length_app.
Qed.

(** The first node of the list has no predecessor that matters. *)
Lemma set_prev_ok db l dead h n p :
  db_ok db (h :: l) dead → dirties db !! h = Some n →
  db_ok (with_dirties db (<[h := set_prev p n]> (dirties db))) (h :: l) dead ∧
  blobs (with_dirties db (<[h := set_prev p n]> (dirties db))) = blobs db ∧
  nodes (with_dirties db (<[h := set_prev p n]> (dirties db))) = nodes db.
Proof.
  intros Hok Hn. pose proof (ok_flush _ _ _ Hok) as Hf. pose proof Hf as [Hnd Hdom Hold Hnew Hch].
  assert (En : nodes (with_dirties db (<[h := set_prev p n]> (dirties db))) = nodes db).
  { unfold nodes. cbn. f_equal. by apply same_core_nodes, same_core_insert. }
  split_and!; [|by apply blobs_same|done]. eapply ok_transfer; [done| |by rewrite En|done..]. split; cbn; try done.
  - intros x. rewrite lookup_insert_is_Some, Hdom. destruct (decide (h = x)); set_solver.
  - destruct Hch as (n0 & Hn0 & Hx & _ & Hch). rewrite Hn in Hn0. injection Hn0 as <-. exists (set_prev p n).
    rewrite lookup_insert_eq. split_and!; [done..|]. apply chain_insert; [|done].
    apply nodup_list, NoDup_cons in Hnd as [? _]. done.
Qed.

(** Nodes have left the memory that are on disk; what is left is as it was. *)
Record evicted db db' (l l' : list bytes) : Prop := {
  ev_blobs : blobs db' = blobs db;
  ev_grow : disk_blobs db ⊆ disk_blobs db';
  ev_keep h n' : dirties db' !! h = Some n' → ∃ n, dirties db !! h = Some n ∧ core n' = core n;
  ev_gone h : is_Some (dirties db !! h) → dirties db' !! h = None → is_Some (disk_blobs db' !! h);
  ev_list : l' `sublist_of` l }.

Lemma moved_evicted db db' l : moved db db' → evicted db db' l l.
Proof.
  intros Hm. pose proof (moved_dirties _ _ Hm) as (Ed & _). split; [apply Hm|apply Hm|rewrite Ed; eauto| |done].
  intros h [n Hn] E. by rewrite Ed, Hn in E.
Qed.

(** The second half of [Cap]: the first nodes of the list are on disk. *)
Lemma cap_uncache db l1 l2 fuel :
  db_ok db (l1 ++ l2) [] → (∀ h, h ∈ l1 → is_Some (disk_blobs db !! h)) → (length l1 ≤ fuel)%nat →
  ∃ db', (db ← uncache_loop fuel (hd zeroHash l2) db;
          if bool_decide (oldest db = zeroHash) then TOk db else at_dirty (oldest db) (set_prev zeroHash) db) = TOk db' ∧
    db_ok db' l2 [] ∧ evicted db db' (l1 ++ l2) l2 ∧ diskdb db' = diskdb db.
Proof.
  intros Hok Hd Hf. destruct (uncache_loop_ok l1 fuel l2 [] db Hok Hd Hf) as (db1 & -> & Hok1 & Eb1 & Ed1 & _ & Hsame).
  cbn [mbind tres_bind]. pose proof (ok_flush _ _ _ Hok1) as Hf1. pose proof (fl_old _ _ _ Hf1) as Hold1.
  pose proof (fl_nodup _ _ _ (ok_flush _ _ _ Hok)) as Hnd.
  assert (Hgone : ∀ h, is_Some (dirties db !! h) → dirties db1 !! h = None → is_Some (disk_blobs db !! h)).
  { intros h Hin Hnone. destruct (decide (h ∈ l1)) as [|Hn]; [by apply Hd|]. rewrite Hsame in Hnone by done.
    by rewrite Hnone in Hin; destruct Hin. }
  assert (Hkeep : ∀ h n', dirties db1 !! h = Some n' → dirties db !! h = Some n').
  { intros h n' Hn'. destruct (decide (h ∈ l1)) as [Hin|Hn]; [|by rewrite <- Hsame]. exfalso.
    assert (Hx : h ∈ zeroHash :: [] ++ l2) by (apply (fl_dom _ _ _ Hf1); by eexists). cbn [app] in *.
    apply NoDup_cons in Hnd as [Hz Hnd]. apply NoDup_app in Hnd as (_ & Hnd & _).
    apply elem_of_cons in Hx as [->|Hx]; [apply Hz, elem_of_app; by left|by eapply Hnd]. }
  assert (Hev : evicted db db1 (l1 ++ l2) l2).
  { split; [done|unfold disk_blobs; by rewrite Ed1|eauto|unfold disk_blobs in *; by rewrite Ed1|by apply sublist_inserts_l]. }
  destruct l2 as [|q l2].
  - rewrite bool_decide_eq_true_2 by done. by exists db1.
  - rewrite bool_decide_eq_false_2 by (rewrite Hold1; eapply flush_elem; [done|by left]). rewrite Hold1. cbn [hd].
    destruct (flush_lookup _ _ _ q Hf1) as [nq Hq]; [set_solver|]. rewrite (at_dirty_ok _ _ _ nq) by done.
    destruct (set_prev_ok db1 l2 [] q nq zeroHash Hok1 Hq) as (Hok2 & Eb2 & _). eexists. split; [done|]. split; [done|]. split; [|done].
    destruct Hev as [_ ? _ _ ?]. split; [congruence|done| | |done].
    + intros h n' Hn'. cbn in Hn'. apply lookup_insert_Some in Hn' as [[<- <-]|[_ Hn']]; [exists nq; split; [by apply Hkeep|done]|eauto].
    + intros h Hin Hnone. cbn in Hnone. apply lookup_insert_None in Hnone as [Hnone _]. change (is_Some (disk_blobs db1 !! h)).
      unfold disk_blobs in *. rewrite Ed1. by apply Hgone.
Qed.

Lemma evicted_trans db1 db2 db3 l1 l2 l3 : evicted db1 db2 l1 l2 → evicted db2 db3 l2 l3 → evicted db1 db3 l1 l3.
Proof.
  intros [B1 G1 K1 N1 L1] [B2 G2 K2 N2 L2]. split; [congruence|by etrans| | |by etrans].
  - intros h n3 Hn3. destruct (K2 h n3 Hn3) as (n2 & Hn2 & ?). destruct (K1 h n2 Hn2) as (n1 & Hn1 & ?). exists n1. split; [done|congruence].
  - intros h Hin Hnone. destruct (dirties db2 !! h) as [n2|] eqn:E; [apply N2; [by eexists|done]|].
    eapply lookup_weaken_is_Some; [by apply N1|done].
Qed.

Lemma cap_finish_ok K fp l1 l2 b db :
  writing db (l1 ++ l2) [] b → (∀ h, h ∈ l1 → written db b h) → closed K db b → disk_closed K db →
  ∃ db' l' err, cap_finish fp (hd zeroHash l2) b db = TOk (db', err) ∧ db_ok db' l' [] ∧
    evicted db db' (l1 ++ l2) l' ∧ disk_closed K db'.
Proof.
  intros [Hok Hb] Hwr Hcl Hdc. unfold cap_finish. destruct (batch_Write b (diskdb db)) as [err disk] eqn:E.
  destruct (batch_Write_ok _ _ _ _ _ _ Hok Hb E) as (Hok1 & Eb1 & Hs1 & Hin1). set (db1 := with_disk db disk) in *.
  assert (Hev1 : evicted db db1 (l1 ++ l2) (l1 ++ l2)) by (apply moved_evicted; by split; [exists disk|..]).
  destruct err as [e|].
  { exists db1, (l1 ++ l2), (Some e). split_and!; [done..|]. intros p h. rewrite !written_nil, Hin1, <- !written_nil. apply Hdc. }
  set (db2 := if fp then with_preimages db1 ∅ 0 else db1).
  assert (H2 : db_ok db2 (l1 ++ l2) [] ∧ evicted db1 db2 (l1 ++ l2) (l1 ++ l2) ∧ disk_blobs db2 = disk_blobs db1).
  { pose proof (moved_evicted _ _ (l1 ++ l2) (moved_refl db1)) as []. unfold db2. destruct fp; [|by split_and!].
    split_and!; [destruct Hok1 as [[] ? ? ? ? ?]; by split; [split|..]|by split|done]. }
  destruct H2 as (Hok2 & Hev2 & Ed2).
  destruct (cap_uncache db2 l1 l2 (size (dirties db2)) Hok2) as (db3 & E3 & Hok3 & Hev3 & Ed3).
  { intros h Hh. rewrite Ed2. apply Hin1. by apply Hwr. }
  { pose proof (size_list _ _ _ (ok_flush _ _ _ Hok2)) as Hs. rewrite length_app in Hs. lia. }
  exists db3, l2, None. destruct (uncache_loop _ _ db2) as [d| |]; try done. cbn [mbind tres_bind] in *. rewrite E3.
  split_and!; [done..|eapply evicted_trans; [exact Hev1|by eapply evicted_trans]|].
  assert (Edk : disk_blobs db3 = disk_blobs db1) by (rewrite <- Ed2; unfold disk_blobs; by rewrite Ed3).
  intros p h. rewrite !written_nil, !Edk, !Hin1. apply Hcl.
Qed.

(** [Cap] never panics; the blobs stay the same and the disk stays closed, whether it
    succeeds or a write fails. *)
Lemma Cap_ok K limit db l :
  db_ok db l [] → disk_closed K db → ordered K db l →
  ∃ db' l' err, Cap limit db = TOk (db', err) ∧ db_ok db' l' [] ∧ evicted db db' l l' ∧ disk_closed K db'.
Proof.
  intros Hok Hdc Hord. destruct (flush_lookup _ _ _ zeroHash (ok_flush _ _ _ Hok)) as [meta Hmeta]; [by left|].
  unfold Cap, total_size. rewrite Hmeta. cbn [mbind tres_bind].
  match goal with |- context [cap_loop _ ?x limit] => generalize x; intros sz end.
  destruct (if 4 * 1024 * 1024 <? preimagesSize db then _ else _) as [[b1 db1] err1] eqn:E1.
  assert (H1 : writing db1 l [] b1 ∧ moved db db1 ∧ preimage_batch b1 ∧ ∀ h, is_Some (disk_blobs db1 !! h) ↔ is_Some (disk_blobs db !! h)).
  { destruct (4 * 1024 * 1024 <? preimagesSize db).
    - eapply put_preimages_ok; [|by constructor|by eapply preimages_length|exact E1]. by split; [|constructor].
    - injection E1 as <- <- <-. split_and!; [by split; [|constructor]|apply moved_refl|by constructor|done]. }
  destruct H1 as (Hw1 & Hm1 & Hb1 & Hd1). assert (Hdc1 : disk_closed K db1) by (intros p h; rewrite !written_nil, !Hd1, <- !written_nil; apply Hdc).
  destruct err1 as [e|]; [exists db1, l, (Some e); split_and!; [done|apply Hw1|by apply moved_evicted|done]|].
  pose proof (fl_old _ _ _ (ok_flush _ _ _ (proj1 Hw1))) as ->.
  destruct (cap_loop_ok K l (size (dirties db1)) sz limit [] [] b1 db1) as (old & b2 & db2 & err2 & -> & Hw2 & Hm2 & Hdc2 & Hfin);
    [done|set_solver| | |done|by eapply ordered_moved|].
  { pose proof (size_list _ _ _ (ok_flush _ _ _ (proj1 Hw1))). lia. }
  { intros p h. rewrite !(written_preimages _ b1) by done. rewrite <- !written_nil. apply Hdc1. }
  cbn [mbind tres_bind app] in *. pose proof (moved_evicted _ _ l (moved_trans _ _ _ Hm1 Hm2)) as Hev.
  destruct err2 as [e|]; [exists db2, l, (Some e); split_and!; [done|apply Hw2|done|done]|].
  destruct (Hfin eq_refl) as (Hcl2 & l1' & l2' & -> & -> & Hwr).
  destruct (cap_finish_ok K (4 * 1024 * 1024 <? preimagesSize db) l1' l2' b2 db2) as (db3 & l3 & err & -> & Hok3 & Hev3 & Hdc3); try done.
  exists db3, l3, err. split_and!; try done. by eapply evicted_trans.
Qed.

(** *** The cleaner *)

Lemma flush_split db l dead h : flush_ok db l dead → is_Some (dirties db !! h) → h ≠ zeroHash → (h ∉ dead) →
  ∃ l1 l2, l = l1 ++ h :: l2.
Proof.
  intros Hf Hin Hz Hd. apply Hf in Hin. apply list_elem_of_split. set_solver.
Qed.

(** Removing a node from the list and from memory. *)
Lemma remove_ok db l1 l2 h n :
  db_ok db (l1 ++ h :: l2) [] → dirties db !! h = Some n →
  ∃ db', unlink h n db = TOk db' ∧ links_only db db' ∧
    let db'' := with_dirties db' (base.delete h (dirties db')) in
    db_ok db'' (l1 ++ l2) [] ∧ nodes db'' = base.delete h (nodes db) ∧
    same_core (base.delete h (dirties db)) (dirties db'').
Proof.
  intros Hok Hn. destruct (unlink_ok db l1 l2 [] h n (ok_flush _ _ _ Hok) Hn) as (db' & E & Hf' & Hl).
  exists db'. split; [done|]. split; [done|]. cbn zeta. pose proof (flush_delete _ _ _ _ Hf') as Hf''.
  assert (En : nodes (with_dirties db' (base.delete h (dirties db'))) = base.delete h (nodes db)).
  { unfold nodes. cbn. rewrite fmap_delete, (same_core_nodes _ _ (lo_core _ _ Hl)). apply delete_delete. }
  split_and!; [|done|].
  - eapply ok_transfer; [done..| |apply Hl|apply Hl|apply Hl]. rewrite En. apply delete_subseteq.
  - unfold same_core. cbn. rewrite !fmap_delete. f_equal. apply Hl.
Qed.

Lemma blobs_delete db db' h l dead :
  db_ok db l dead → is_Some (disk_blobs db !! h) → nodes db' = base.delete h (nodes db) → diskdb db' = diskdb db → blobs db' = blobs db.
Proof.
  intros Hok [b Hb] En Ed. unfold blobs, disk_blobs. rewrite En, Ed. fold (disk_blobs db). apply map_eq. intros x. rewrite fmap_delete.
  destruct (decide (x = h)) as [->|]; [|by rewrite !lookup_union, lookup_delete_ne].
  rewrite lookup_union_r by (apply lookup_delete_eq). rewrite Hb. symmetry.
  destruct (nodes db !! h) as [r|] eqn:Hr.
  - rewrite (ok_agree _ _ _ Hok _ _ _ Hr Hb). apply lookup_union_Some_l. by rewrite lookup_fmap, Hr.
  - rewrite lookup_union_r; [done|]. by rewrite lookup_fmap, Hr.
Qed.

Lemma cleaner_Put_ok db l h v :
  db_ok db l [] → disk_blobs db !! h = Some v →
  ∃ db' l', cleaner_Put h v db = TOk db' ∧ db_ok db' l' [] ∧ blobs db' = blobs db ∧ diskdb db' = diskdb db ∧
    preimages db' = preimages db ∧ same_core (base.delete h (dirties db)) (dirties db') ∧ l' `sublist_of` l.
Proof.
  intros Hok Hd. pose proof Hd as (Hkv & Hl & Hz)%disk_lookup. unfold cleaner_Put. rewrite BytesToHash_32 by done.
  destruct (dirties db !! h) as [n|] eqn:Hn.
  2:{ exists db, l. split_and!; try done. unfold same_core. by rewrite delete_id. }
  destruct (flush_split db l [] h (ok_flush _ _ _ Hok)) as (l1 & l2 & ->); [by eexists|done|set_solver|].
  destruct (remove_ok db l1 l2 h n Hok Hn) as (db1 & -> & Hlo & Hok1 & En1 & Hs1). cbn [mbind tres_bind].
  match goal with |- context [clean_Set ?d h v] => set (db2 := d) end.
  assert (Hok2 : db_ok db2 (l1 ++ l2) []).
  { destruct Hok1 as [[] ? ? ? ? ?]. by split; [split|..]. }
  assert (Ed2 : diskdb db2 = diskdb db) by apply Hlo. destruct (clean_Set_ok db2 (l1 ++ l2) [] h v Hok2) as [Hok3 Eb3]; [by rewrite Ed2|done|].
  exists (clean_Set db2 h v), (l1 ++ l2). assert (Ec : dirties (clean_Set db2 h v) = dirties db2 ∧ diskdb (clean_Set db2 h v) = diskdb db2 ∧
    preimages (clean_Set db2 h v) = preimages db2) by (unfold clean_Set; by destruct (cleans db2)). destruct Ec as (-> & -> & ->).
  split_and!; [done..| | |apply Hlo| |by apply sublist_app, sublist_cons].
  - rewrite Eb3. eapply blobs_delete; [done|by eexists|exact En1|done].
  - done.
  - done.
Qed.

Lemma same_core_delete m m' x : same_core m m' → same_core (base.delete x m) (base.delete x m').
Proof. unfold same_core. rewrite !fmap_delete. by intros ->. Qed.

(** Replaying a batch that has been written. *)
Lemma replay_ok b db l :
  db_ok db l [] → Forall (λ kv, disk_blobs db !! kv.1 = Some kv.2) b →
  ∃ db' l', replay b db = TOk db' ∧ db_ok db' l' [] ∧ blobs db' = blobs db ∧ diskdb db' = diskdb db ∧
    preimages db' = preimages db ∧ same_core (foldl (λ m kv, base.delete kv.1 m) (dirties db) b) (dirties db') ∧ l' `sublist_of` l.
Proof.
  unfold replay. revert db l. induction b as [|[h v] b IH]; intros db l Hok Hb; cbn [foldl].
  - by exists db, l.
  - apply Forall_cons in Hb as [Hh Hb]. cbn [fst snd] in *.
    destruct (cleaner_Put_ok db l h v Hok Hh) as (db1 & l1 & E1 & Hok1 & Eb1 & Ed1 & Ep1 & Hs1 & Hl1). cbn [mbind tres_bind]. rewrite E1.
    destruct (IH db1 l1 Hok1) as (db2 & l2 & E2 & Hok2 & Eb2 & Ed2 & Ep2 & Hs2 & Hl2); [unfold disk_blobs in *; by rewrite Ed1|].
    exists db2, l2. split_and!; [done|done|congruence..| |by etrans]. eapply same_core_trans; [|exact Hs2].
    clear -Hs1. revert Hs1. generalize (base.delete h (dirties db)), (dirties db1). induction b as [|kv b IH]; intros m m' Hs; [done|].
    cbn [foldl]. by apply IH, same_core_delete.
Qed.
End Store.
