(* ===== verification/TrieGC.v ===== *)
(** * Garbage collection in the node database

    Reference counting in l2geth/trie/database.go: [Reference] and [Dereference] keep the
    number of the parents of every node in memory, and a node whose last parent is gone is
    deleted with its own references.  No node that can be reached from a root that is still
    referenced is ever lost: it is in memory or on disk. *)

From Stdlib Require Import Sorting.Sorted.
From S2P Require Import Prelude GoErrors EthTypes Extern RLP TrieEncoding Trie TrieNode TrieHash TrieDB TrieStore.

(** ** Counting references *)

Definition occ (h : bytes) (l : list bytes) : nat := length (filter (λ x, x = h) l).

Lemma occ_nil h : occ h [] = 0%nat.
Proof. done. Qed.
Lemma occ_cons h x l : occ h (x :: l) = ((if decide (x = h) then 1 else 0) + occ h l)%nat.
Proof. unfold occ. rewrite filter_cons. by case_decide. Qed.
Lemma occ_app h l1 l2 : occ h (l1 ++ l2) = (occ h l1 + occ h l2)%nat.
Proof. unfold occ. by rewrite filter_app, length_app. Qed.
Lemma occ_elem h l : (0 < occ h l)%nat ↔ h ∈ l.
Proof.
  induction l as [|x l IH]; [rewrite occ_nil; split; [lia|by intros ?%elem_of_nil]|].
  rewrite occ_cons, elem_of_cons. case_decide; [subst; split; [by left|lia]|]. rewrite Nat.add_0_l, IH.
  split; [by right|by intros [->|]].
Qed.

(** How often the entry [p] refers to [h]: the meta root counts its references, other nodes
    hold each of theirs once. *)
Definition weight (p : bytes) (n : cachedNode) (h : bytes) : nat :=
  if decide (p = zeroHash) then Z.to_nat (default 0 (default ∅ (cn_children n) !! h)) else occ h (forChilds n).

(** The references to [h] from the nodes in memory that are not being deleted. *)
Definition live_weight (dead : list bytes) (p : bytes) (n : cachedNode) (h : bytes) : nat :=
  if decide (p ∈ dead) then 0%nat else weight p n h.
Definition refs (m : gmap bytes cachedNode) (dead : list bytes) (h : bytes) : nat :=
  map_fold (λ p n s, live_weight dead p n h + s)%nat 0%nat m.

Lemma refs_insert m dead h p n : m !! p = None →
  refs (<[p := n]> m) dead h = (live_weight dead p n h + refs m dead h)%nat.
Proof. intros Hp. unfold refs. rewrite map_fold_insert_L; [done| |done]. intros. lia. Qed.

Lemma refs_lookup m dead h p n : m !! p = Some n →
  refs m dead h = (live_weight dead p n h + refs (base.delete p m) dead h)%nat.
Proof. intros Hp. rewrite <- refs_insert by apply lookup_delete_eq. by rewrite insert_delete_id. Qed.

Lemma refs_update m dead h p n n' : m !! p = Some n →
  (refs (<[p := n']> m) dead h + live_weight dead p n h =
   refs m dead h + live_weight dead p n' h)%nat.
Proof.
  intros Hp. rewrite (refs_lookup m dead h p n Hp). rewrite <- insert_delete_eq, refs_insert by apply lookup_delete_eq. lia.
Qed.

(** The sum depends on the weights only. *)
Lemma refs_ext m m' dead dead' h :
  (∀ p, m !! p = None ↔ m' !! p = None) →
  (∀ p n n', m !! p = Some n → m' !! p = Some n' →
     live_weight dead p n h = live_weight dead' p n' h) →
  refs m dead h = refs m' dead' h.
Proof.
  revert m'. induction m as [|p n m Hp IH] using map_ind; intros m' Hd Hw.
  - assert (m' = ∅) as -> by (apply map_empty; intros p; apply Hd, lookup_empty). done.
  - destruct (m' !! p) as [n'|] eqn:Hp'; [|by apply Hd in Hp'; rewrite lookup_insert_eq in Hp'].
    rewrite refs_insert by done. rewrite (refs_lookup m' dead' h p n') by done.
    rewrite (Hw p n n') by (done || apply lookup_insert_eq). f_equal. apply IH.
    + intros q. destruct (decide (q = p)) as [->|]; [by rewrite lookup_delete_eq|].
      rewrite lookup_delete_ne by done. by rewrite <- (Hd q), lookup_insert_ne.
    + intros q nq nq' Hq Hq'. destruct (decide (q = p)) as [->|]; [by rewrite lookup_delete_eq in Hq'|].
      rewrite lookup_delete_ne in Hq' by done. apply (Hw q); [by rewrite lookup_insert_ne|done].
Qed.

Lemma refs_zero m dead h : (∀ p n, m !! p = Some n → p ∉ dead → weight p n h = 0%nat) → refs m dead h = 0%nat.
Proof.
  induction m as [|p n m Hp IH] using map_ind; intros Hw; [done|]. rewrite refs_insert by done.
  unfold live_weight. rewrite IH; [case_decide; [done|]; rewrite (Hw p n); [done|by rewrite lookup_insert_eq|done]|].
  intros q nq Hq. apply (Hw q). rewrite lookup_insert_ne; [done|]. by intros ->; rewrite Hp in Hq.
Qed.

Lemma refs_weight m dead h p n : m !! p = Some n → (p ∉ dead) → (weight p n h ≤ refs m dead h)%nat.
Proof. intros Hp Hd. rewrite (refs_lookup m dead h p n Hp). unfold live_weight. rewrite decide_False by done. lia. Qed.

Lemma refs_die m dead h p n : m !! p = Some n → (p ∉ dead) →
  refs m dead h = (weight p n h + refs m (p :: dead) h)%nat.
Proof.
  intros Hp Hd. rewrite (refs_lookup m dead h p n Hp), (refs_lookup m (p :: dead) h p n Hp).
  unfold live_weight. rewrite decide_False by done. rewrite decide_True by (by left). f_equal. apply refs_ext; [done|].
  intros q nq nq' Hq Hq'. assert (nq = nq') as -> by congruence.
  assert (q ≠ p) by (intros ->; by rewrite lookup_delete_eq in Hq). unfold live_weight; repeat case_decide; set_solver.
Qed.

Lemma refs_delete m dead h p n : m !! p = Some n → refs (base.delete p m) dead h = refs m (p :: dead) h.
Proof.
  intros Hp. rewrite (refs_lookup m (p :: dead) h p n Hp). unfold live_weight at 1. rewrite decide_True by (by left). apply refs_ext; [done|].
  intros q nq nq' Hq Hq'. assert (nq = nq') as -> by congruence.
  assert (q ≠ p) by (intros ->; by rewrite lookup_delete_eq in Hq). unfold live_weight; repeat case_decide; set_solver.
Qed.

(** The weight depends on the contents of the entry. *)
Lemma weight_core p n n' h : core n = core n' → weight p n h = weight p n' h.
Proof. unfold core, weight, forChilds. intros [= -> _ _ ->]. done. Qed.

Lemma refs_same_core m m' dead h : same_core m m' → refs m' dead h = refs m dead h.
Proof.
  intros Hs. apply refs_ext.
  - intros p. apply (f_equal (lookup p)) in Hs. rewrite !lookup_fmap in Hs. by destruct (m !! p), (m' !! p).
  - intros p n n' Hn Hn'. apply (f_equal (lookup p)) in Hs. rewrite !lookup_fmap, Hn, Hn' in Hs.
    apply (inj Some) in Hs. unfold live_weight. case_decide; [done|]. by apply weight_core.
Qed.

Section GC.
Context `{!Keccak} {C : Type} `{!Fastcache C}.
Implicit Types db : Database (C := C).
(** A measure that decreases from a node to the nodes it refers to: hashes do not form
    cycles. *)
Context (rank : bytes → nat).

(** A node is in memory and not being deleted, or on disk. *)
Definition avail db (dead : list bytes) (h : bytes) : Prop :=
  (is_Some (dirties db !! h) ∧ h ∉ dead) ∨ is_Some (disk_blobs db !! h).

(** The nodes [dead] are being deleted, the references in [pending] are still counted. *)
Record gc db (dead pending : list bytes) : Prop := {
  gc_count h n : dirties db !! h = Some n → h ∉ dead → h ≠ zeroHash → disk_blobs db !! h = None →
    Z.of_nat (refs (dirties db) dead h + occ h pending) <= cn_parents n;
  gc_avail p n h : dirties db !! p = Some n → p ∉ dead → (0 < weight p n h)%nat → avail db dead h;
  gc_acyclic p n h : dirties db !! p = Some n → h ∈ forChilds n → h ≠ zeroHash ∧ (p ≠ zeroHash → (rank h < rank p)%nat);
  gc_range h n : dirties db !! h = Some n → 0 <= cn_parents n < 2 ^ 32 }.

(** A change of an entry that is being deleted, which loses references. *)
Lemma gc_dead_update db dead pending p n n' :
  gc db dead pending → dirties db !! p = Some n → p ∈ dead →
  cn_parents n' = cn_parents n → (∀ h, h ∈ forChilds n' → h ∈ forChilds n) →
  gc (with_dirties db (<[p := n']> (dirties db))) dead pending.
Proof.
  intros [Hc Ha Hac Hr] Hp Hd Epar Hsub.
  assert (Hrefs : ∀ h, refs (<[p := n']> (dirties db)) dead h = refs (dirties db) dead h).
  { intros h. pose proof (refs_update (dirties db) dead h p n n' Hp) as E. unfold live_weight in E.
    rewrite !decide_True in E by done. lia. }
  split; cbn [dirties with_dirties].
  - intros h x Hx Hnd Hz Hdk. rewrite Hrefs. rewrite lookup_insert_ne in Hx by (by intros ->). by apply Hc.
  - intros q x h Hx Hnd Hw. rewrite lookup_insert_ne in Hx by (by intros ->).
    destruct (Ha q x h Hx Hnd Hw) as [[Hin Hnd']|Hdk]; [left|by right]. split; [|done]. cbn.
    rewrite lookup_insert_is_Some. destruct (decide (p = h)); auto.
  - intros q x h [[<- <-]|[_ Hx]]%lookup_insert_Some Hin; [by eapply Hac; [done|apply Hsub]|by eapply Hac].
  - intros h x [[<- <-]|[_ Hx]]%lookup_insert_Some; [rewrite Epar; by eapply Hr|by eapply Hr].
Qed.

Lemma forChilds_children n ch ch' h :
  cn_children n = Some ch → (∀ x, is_Some (ch' !! x) → is_Some (ch !! x)) →
  h ∈ forChilds (set_children (Some ch') n) → h ∈ forChilds n.
Proof.
  intros E Hsub. unfold forChilds. cbn [cn_children set_children cn_node]. rewrite E, !elem_of_app. intros [Hin|Hin]; [left|by right].
  apply list_elem_of_fmap in Hin as ((x & v) & -> & Hin%elem_of_map_to_list). cbn.
  destruct (Hsub x) as [v' Hv']; [by eexists|]. apply list_elem_of_fmap. exists (x, v'). split; [done|]. by apply elem_of_map_to_list.
Qed.

(** Changing an entry without touching its node and its links. *)
Lemma flush_update db l dead h n n' :
  flush_ok db l dead → dirties db !! h = Some n → links n' = links n →
  flush_ok (with_dirties db (<[h := n']> (dirties db))) l dead.
Proof.
  intros [Hnd Hdom Hold Hnew Hch] Hn El. split; cbn; try done.
  - intros x. rewrite lookup_insert_is_Some, <- Hdom. destruct (decide (h = x)) as [->|]; [|tauto].
    rewrite Hn. split; [by eexists|by left].
  - eapply chain_links; [|done]. intros x _. destruct (decide (h = x)) as [->|]; [|by rewrite lookup_insert_ne].
    rewrite lookup_insert_eq, Hn. cbn. by rewrite El.
Qed.

Lemma nodes_update db h n n' :
  dirties db !! h = Some n → cn_node n' = cn_node n → nodes (with_dirties db (<[h := n']> (dirties db))) = nodes db.
Proof.
  intros Hn E. unfold nodes. cbn. f_equal. rewrite fmap_insert, E. apply insert_id. by rewrite lookup_fmap, Hn.
Qed.

Lemma update_ok db l dead h n n' :
  db_ok db l dead → dirties db !! h = Some n → links n' = links n → cn_node n' = cn_node n →
  db_ok (with_dirties db (<[h := n']> (dirties db))) l dead.
Proof.
  intros Hok Hn El En. eapply ok_transfer; [done|by eapply flush_update; [apply Hok|..]| |done..]. by erewrite nodes_update.
Qed.

Lemma sizes_ok db l dead a b : db_ok db l dead → db_ok (with_sizes db a b) l dead.
Proof. intros [[] ? ? ? ? ?]. by split; [split|..]. Qed.
Lemma gc_sizes db dead pending a b : gc db dead pending → gc (with_sizes db a b) dead pending.
Proof. by intros []. Qed.

(** What a step of the collection leaves: nodes may be gone, the rest is as it was. *)
Record collected (dead : list bytes) db db' : Prop := {
  col_nodes : nodes db' ⊆ nodes db;
  col_disk : diskdb db' = diskdb db;
  col_dom h : is_Some (dirties db' !! h) → is_Some (dirties db !! h);
  col_keep h n' : dirties db' !! h = Some n' → h ∉ dead →
    ∃ n, dirties db !! h = Some n ∧ cn_node n' = cn_node n ∧ cn_children n' = cn_children n }.

Lemma collected_refl dead db : collected dead db db.
Proof. split; try done. eauto. Qed.
Lemma collected_trans dead db1 db2 db3 : collected dead db1 db2 → collected dead db2 db3 → collected dead db1 db3.
Proof.
  intros [? ? ? K1] [? ? ? K2]. split; [by etrans|congruence|auto|]. intros h n3 H3 Hd.
  destruct (K2 h n3 H3 Hd) as (n2 & Hn2 & ? & ?). destruct (K1 h n2 Hn2 Hd) as (n1 & Hn1 & ? & ?). exists n1. split_and!; congruence.
Qed.

Lemma links_collected dead db db' : links_only db db' → collected dead db db'.
Proof.
  intros Hlo. split; [by rewrite (links_only_nodes _ _ Hlo)|apply Hlo|intros h; by rewrite (same_core_is_Some _ _ _ (lo_core _ _ Hlo))|].
  intros h n' Hn' _. destruct (same_core_lookup _ _ _ _ (eq_sym (lo_core _ _ Hlo)) Hn') as (n & Hn & E). exists n.
  unfold core in E. split_and!; congruence.
Qed.

(** What a step of the collection establishes. *)
Definition gc_result db (l dead pending : list bytes) (r : tres (Database (C := C))) : Prop :=
  ∃ db' l', r = TOk db' ∧ db_ok db' l' dead ∧ gc db' dead pending ∧ collected dead db db' ∧ l' `sublist_of` l.

Lemma gc_result_same db l dead pending : db_ok db l dead → gc db dead pending → gc_result db l dead pending (TOk db).
Proof. intros. exists db, l. split_and!; try done. apply collected_refl. Qed.

(** Dropping the count at a parent that is being deleted. *)
Lemma drop_child_dead child parent db l dead pending :
  db_ok db l dead → gc db dead pending → parent ∈ dead → gc_result db l dead pending (drop_child child parent db).
Proof.
  intros Hok Hgc Hd. pose proof (fl_nodup _ _ _ (ok_flush _ _ _ Hok)) as [Hz _]%NoDup_cons.
  assert (Hpz : parent ≠ zeroHash) by (intros ->; apply Hz, elem_of_app; by left).
  destruct (flush_lookup _ _ _ parent (ok_flush _ _ _ Hok)) as [p Hp]; [set_solver|]. unfold drop_child. rewrite Hp.
  destruct (cn_children p) as [ch|] eqn:Ech; [|by eapply gc_result_same].
  destruct (ch !! child) as [c|] eqn:Ec; [|by eapply gc_result_same]. destruct (0 <? c); [|by eapply gc_result_same].
  set (ch' := if c - 1 =? 0 then base.delete child ch else <[child := c - 1]> ch). rewrite (at_dirty_ok _ _ _ p) by done.
  cbn [mbind tres_bind]. assert (Hsub : ∀ x, is_Some (ch' !! x) → is_Some (ch !! x)).
  { intros x. unfold ch'. destruct (c - 1 =? 0); [by rewrite lookup_delete_is_Some; intros [_ ?]|].
    rewrite lookup_insert_is_Some. intros [<-|[_ ?]]; [by eexists|done]. }
  eexists _, l. split; [done|]. split; [apply sizes_ok; by eapply update_ok|]. split.
  - apply gc_sizes. eapply gc_dead_update; [done..|]. intros h. by eapply forChilds_children.
  - split; [|done]. split; cbn [dirties diskdb with_sizes with_dirties].
    + change (nodes (with_sizes _ _ _)) with (nodes (with_dirties db (<[parent := set_children (Some ch') p]> (dirties db)))).
      by erewrite nodes_update.
    + done.
    + intros h. rewrite lookup_insert_is_Some. intros [<-|[_ ?]]; [by eexists|done].
    + intros h n' [[<- _]|[_ Hx]]%lookup_insert_Some Hnd; [done|eauto].
Qed.

(** One parent less. *)
Lemma gc_unparent db l dead pending child n :
  let parents := if 0 <? cn_parents n then cn_parents n - 1 else cn_parents n in
  db_ok db l dead → gc db dead (child :: pending) → dirties db !! child = Some n → child ∉ dead → child ≠ zeroHash →
  let db' := with_dirties db (<[child := set_parents parents n]> (dirties db)) in
  db_ok db' l dead ∧ gc db' dead pending ∧ collected dead db db'.
Proof.
  intros parents Hok Hgc Hn Hnd Hz db'. pose proof Hgc as [Hc Ha Hac Hr].
  assert (Hrefs : ∀ h, refs (dirties db') dead h = refs (dirties db) dead h).
  { intros h. pose proof (refs_update (dirties db) dead h child n (set_parents parents n) Hn) as E.
    unfold live_weight in E. rewrite !decide_False in E by done. assert (Ew : weight child (set_parents parents n) h = weight child n h) by done.
    cbn. lia. }
  assert (Hnodes : nodes db' = nodes db) by (by apply (nodes_update db child n)).
  split_and!; [by eapply update_ok| |].
  - split; [intros h x Hx Hhd Hhz Hdk; rewrite Hrefs|..]; cbn [dirties with_dirties db'] in *.
    + apply lookup_insert_Some in Hx as [[<- <-]|[Hne Hx]].
      * cbn. pose proof (Hc child n Hn Hhd Hhz Hdk) as Hcc. rewrite occ_cons, decide_True in Hcc by done. unfold parents.
        destruct (0 <? cn_parents n) eqn:E; lia.
      * pose proof (Hc h x Hx Hhd Hhz Hdk) as Hcc. rewrite occ_cons, decide_False in Hcc by done. lia.
    + intros p x h Hx Hpd Hw. assert (Hx' : ∃ x', dirties db !! p = Some x' ∧ weight p x' h = weight p x h).
      { apply lookup_insert_Some in Hx as [[<- <-]|[_ Hx]]; eauto. }
      destruct Hx' as (x' & Hx' & Ew). rewrite <- Ew in Hw. destruct (Ha p x' h Hx' Hpd Hw) as [[Hin Hhd]|Hdk]; [left|by right].
      split; [|done]. cbn. rewrite lookup_insert_is_Some. destruct (decide (child = h)); auto.
    + intros p x h [[<- <-]|[_ Hx]]%lookup_insert_Some Hin; [by eapply Hac|by eapply Hac].
    + intros h x [[<- <-]|[_ Hx]]%lookup_insert_Some; [|by eapply Hr]. cbn. unfold parents.
      pose proof (Hr child n Hn). destruct (0 <? cn_parents n) eqn:E; lia.
  - split; [by rewrite Hnodes|done| |].
    + intros h. cbn. rewrite lookup_insert_is_Some. intros [<-|[_ ?]]; [by eexists|done].
    + intros h x Hx _. cbn in Hx. apply lookup_insert_Some in Hx as [[<- <-]|[_ Hx]]; eauto.
Qed.

(** Invariance under changes of the links. *)
Lemma core_parents n n' : core n' = core n → cn_parents n' = cn_parents n ∧ forChilds n' = forChilds n ∧ cn_children n' = cn_children n.
Proof. unfold core, forChilds. by intros [= -> _ -> ->]. Qed.

Lemma same_core_lookup_l m m' x n' : same_core m m' → m' !! x = Some n' → ∃ n, m !! x = Some n ∧ core n' = core n.
Proof.
  intros Hs Hx. destruct (same_core_lookup m' m x n' (eq_sym Hs) Hx) as (n & ? & ?). by exists n.
Qed.

Lemma gc_links db db' dead pending : links_only db db' → gc db dead pending → gc db' dead pending.
Proof.
  intros Hl [Hc Ha Hac Hr]. pose proof (lo_core _ _ Hl) as Hs.
  assert (Hdk : disk_blobs db' = disk_blobs db) by (unfold disk_blobs; by rewrite (lo_disk _ _ Hl)).
  split.
  - intros h n Hn Hd Hz Hnd. destruct (same_core_lookup_l _ _ _ _ Hs Hn) as (n0 & Hn0 & E).
    destruct (core_parents _ _ E) as (-> & _). rewrite (refs_same_core _ _ _ _ Hs). rewrite Hdk in Hnd. by apply Hc.
  - intros p n h Hn Hd Hw. destruct (same_core_lookup_l _ _ _ _ Hs Hn) as (n0 & Hn0 & E). rewrite (weight_core p n n0 h E) in Hw.
    unfold avail. rewrite Hdk, (same_core_is_Some _ _ _ Hs). by apply (Ha p n0 h).
  - intros p n h Hn Hin. destruct (same_core_lookup_l _ _ _ _ Hs Hn) as (n0 & Hn0 & E).
    destruct (core_parents _ _ E) as (_ & Ef & _). rewrite Ef in Hin. by eapply Hac.
  - intros h n Hn. destruct (same_core_lookup_l _ _ _ _ Hs Hn) as (n0 & Hn0 & E). destruct (core_parents _ _ E) as (-> & _). by eapply Hr.
Qed.

(** A node without parents starts to be deleted. *)
Lemma gc_die db dead pending child n :
  gc db dead pending → dirties db !! child = Some n → cn_parents n = 0 → child ∉ dead → child ≠ zeroHash →
  gc db (child :: dead) (forChilds n ++ pending).
Proof.
  intros [Hc Ha Hac Hr] Hn H0 Hd Hz. assert (Hw : ∀ h, weight child n h = occ h (forChilds n)) by (intros h; unfold weight; by rewrite decide_False).
  split; [| |done|done].
  - intros h x Hx Hhd Hhz Hdk. apply not_elem_of_cons in Hhd as [Hne Hhd]. pose proof (Hc h x Hx Hhd Hhz Hdk) as Hcc.
    rewrite (refs_die _ _ _ _ _ Hn Hd), Hw in Hcc. rewrite occ_app. lia.
  - intros p x h Hx Hpd Hwp. apply not_elem_of_cons in Hpd as [Hne Hpd].
    destruct (Ha p x h Hx Hpd Hwp) as [[Hin Hhd]|Hdk]; [|by right]. destruct (decide (h = child)) as [->|Hhc].
    + destruct (disk_blobs db !! child) as [b|] eqn:Edk; [right; by eexists|]. exfalso.
      pose proof (Hc child n Hn Hd Hz Edk) as Hcc. pose proof (refs_weight _ dead child p x Hx Hpd). lia.
    + left. split; [done|]. by apply not_elem_of_cons.
Qed.

(** A node that has been deleted. *)
Lemma gc_dead_delete db dead pending child n :
  gc db (child :: dead) pending → dirties db !! child = Some n →
  gc (with_dirties db (base.delete child (dirties db))) dead pending.
Proof.
  intros [Hc Ha Hac Hr] Hn. split; cbn [dirties with_dirties].
  - intros h x [Hne Hx]%lookup_delete_Some Hhd Hhz Hdk. rewrite (refs_delete _ _ _ _ _ Hn). apply Hc; [done| |done..].
    by apply not_elem_of_cons.
  - intros p x h [Hne Hx]%lookup_delete_Some Hpd Hw. destruct (Ha p x h Hx) as [[Hin Hhd]|Hdk]; [by apply not_elem_of_cons|done| |by right].
    apply not_elem_of_cons in Hhd as [Hhc Hhd]. left. split; [|done]. cbn. by rewrite lookup_delete_is_Some.
  - intros p x h [_ Hx]%lookup_delete_Some. by eapply Hac.
  - intros h x [_ Hx]%lookup_delete_Some. by eapply Hr.
Qed.

(** ** Dereferencing *)

(** What the recursive calls promise for the references of a node that is being deleted. *)
Definition deref_ok (deref : bytes → bytes → Database (C := C) → tres (Database (C := C))) (dead : list bytes) (sz : nat) : Prop :=
  ∀ child parent db l pending, db_ok db l dead → gc db dead (child :: pending) → parent ∈ dead → child ≠ zeroHash →
    (∀ x, x ∈ dead → (rank child < rank x)%nat) → (size (dirties db) ≤ sz)%nat →
    gc_result db l dead pending (deref child parent db).

Lemma collected_size dead db db' : collected dead db db' → (size (dirties db') ≤ size (dirties db))%nat.
Proof.
  intros Hc. rewrite <- !size_dom. apply subseteq_size. intros h. rewrite !elem_of_dom. apply Hc.
Qed.

Lemma deref_loop deref dead sz child ks db l pending :
  deref_ok deref (child :: dead) sz → (∀ h, h ∈ ks → h ≠ zeroHash ∧ (rank h < rank child)%nat) →
  (∀ x, x ∈ dead → (rank child < rank x)%nat) →
  db_ok db l (child :: dead) → gc db (child :: dead) (ks ++ pending) → (size (dirties db) ≤ sz)%nat →
  gc_result db l (child :: dead) pending (foldl (λ r h, r ≫= deref h child) (TOk db) ks).
Proof.
  intros Hder. revert db l. induction ks as [|h ks IH]; intros db l Hks Hrk Hok Hgc Hsz; cbn [foldl app] in *.
  - by eapply gc_result_same.
  - destruct (Hks h) as [Hz Hr]; [by left|].
    destruct (Hder h child db l (ks ++ pending)) as (db1 & l1 & E1 & Hok1 & Hgc1 & Hcol1 & Hl1); try done; [by left| |].
    { intros x [->|Hx]%elem_of_cons; [done|]. pose proof (Hrk x Hx). lia. }
    cbn [mbind tres_bind]. rewrite E1. destruct (IH db1 l1) as (db2 & l2 & E2 & Hok2 & Hgc2 & Hcol2 & Hl2); try done.
    { intros x Hx. apply Hks. by right. } { pose proof (collected_size _ _ _ Hcol1). lia. }
    exists db2, l2. split_and!; try done; [by eapply collected_trans|by etrans].
Qed.

Lemma release_ok deref dead sz child db l pending :
  deref_ok deref (child :: dead) sz → db_ok db l dead → gc db dead (child :: pending) → child ≠ zeroHash →
  (∀ x, x ∈ dead → (rank child < rank x)%nat) → (size (dirties db) ≤ sz)%nat →
  gc_result db l dead pending (release deref child db).
Proof.
  intros Hder Hok Hgc Hz Hrk Hsz. unfold release. destruct (dirties db !! child) as [n|] eqn:Hn.
  2:{ eapply gc_result_same; [done|]. destruct Hgc as [Hc Ha Hac Hr]. split; try done. intros h x Hx Hd Hhz Hdk.
      pose proof (Hc h x Hx Hd Hhz Hdk) as Hcc. rewrite occ_cons in Hcc. lia. }
  assert (Hnd : child ∉ dead) by (intros Hx; apply Hrk in Hx; lia).
  set (parents := if 0 <? cn_parents n then cn_parents n - 1 else cn_parents n).
  destruct (gc_unparent db l dead pending child n Hok Hgc Hn Hnd Hz) as (Hok1 & Hgc1 & Hcol1). fold parents in Hok1, Hgc1, Hcol1.
  rewrite (at_dirty_ok _ _ _ n) by done. cbn [mbind tres_bind].
  set (db1 := with_dirties db (<[child := set_parents parents n]> (dirties db))) in *.
  destruct (Z.eqb_spec parents 0) as [H0|H0]; [|exists db1, l; by split_and!].
  assert (Hn1 : dirties db1 !! child = Some (set_parents parents n)) by (cbn; by rewrite lookup_insert_eq).
  destruct (flush_split db1 l dead child (ok_flush _ _ _ Hok1)) as (l1 & l2 & ->); [by eexists|done..|].
  destruct (unlink_ok db1 l1 l2 dead child _ (ok_flush _ _ _ Hok1) Hn1) as (db2 & E2 & Hf2 & Hlo).
  change (unlink child (set_parents parents n) db1) with (unlink child n db1) in E2. rewrite E2. cbn [mbind tres_bind].
  assert (Hok2 : db_ok db2 (l1 ++ l2) (child :: dead)).
  { eapply ok_transfer; [exact Hok1|done|by rewrite (links_only_nodes _ _ Hlo)|apply Hlo..]. }
  assert (Hgc2 : gc db2 (child :: dead) (forChilds n ++ pending)).
  { eapply gc_links; [done|]. change (forChilds n) with (forChilds (set_parents parents n)). by apply gc_die. }
  pose proof (links_collected (child :: dead) db1 db2 Hlo) as Hcol2.
  destruct (deref_loop deref dead sz child (forChilds n) db2 (l1 ++ l2) pending Hder) as (db3 & l3 & E3 & Hok3 & Hgc3 & Hcol3 & Hl3); try done.
  { intros h Hh. destruct (gc_acyclic _ _ _ Hgc child n h Hn Hh) as [? Hlt]. split; [done|by apply Hlt]. }
  { pose proof (collected_size _ _ _ Hcol1). pose proof (collected_size _ _ _ Hcol2). lia. }
  rewrite E3. cbn [mbind tres_bind]. eexists _, l3. split; [done|].
  pose proof (flush_delete _ _ _ _ (ok_flush _ _ _ Hok3)) as Hf4.
  destruct (flush_lookup _ _ _ child (ok_flush _ _ _ Hok3)) as [n3 Hn3]; [by right; left|].
  assert (En4 : nodes (with_dirties db3 (base.delete child (dirties db3))) ⊆ nodes db3).
  { unfold nodes. cbn. rewrite fmap_delete. apply delete_mono, delete_subseteq. }
  split; [apply sizes_ok; eapply ok_transfer; [exact Hok3|done..]|]. split; [apply gc_sizes; by eapply gc_dead_delete|].
  split; [|etrans; [exact Hl3|]; apply sublist_app; [done|by constructor]].
  eapply collected_trans; [exact Hcol1|]. destruct (collected_trans _ _ _ _ Hcol2 Hcol3) as [Kn Kd Kdom Kkeep].
  split; [by etrans|done| |].
  - intros h. cbn. rewrite lookup_delete_is_Some. intros [_ Hx]. by apply Kdom.
  - intros h x Hx Hd. cbn in Hx. apply lookup_delete_Some in Hx as [Hne Hx]. apply Kkeep; [done|]. by apply not_elem_of_cons.
Qed.

(** The fuel is enough: the nodes being deleted are different nodes in memory. *)
Lemma dereference_ok fuel dead sz : (sz < fuel + length dead)%nat → deref_ok (dereference fuel) dead sz.
Proof.
  revert dead. induction fuel as [|fuel IH]; intros dead Hf child parent db l pending Hok Hgc Hp Hz Hrk Hsz.
  { pose proof (size_list _ _ _ (ok_flush _ _ _ Hok)). lia. }
  cbn [dereference]. destruct (drop_child_dead child parent db l dead _ Hok Hgc Hp) as (db1 & l1 & -> & Hok1 & Hgc1 & Hcol1 & Hl1).
  cbn [mbind tres_bind]. pose proof (collected_size _ _ _ Hcol1).
  destruct (release_ok (dereference fuel) dead sz child db1 l1 pending) as (db2 & l2 & E & Hok2 & Hgc2 & Hcol2 & Hl2); try done; [|lia|].
  { apply IH. cbn [length]. lia. }
  exists db2, l2. split_and!; try done; [by eapply collected_trans|by etrans].
Qed.

(** ** Roots *)

(** The references to a root. *)
Definition root_refs db (h : bytes) : Z := default 0 (n ← dirties db !! zeroHash; ch ← cn_children n; ch !! h).

Lemma root_weight db n h : dirties db !! zeroHash = Some n → weight zeroHash n h = Z.to_nat (root_refs db h).
Proof.
  intros Hn. unfold weight, root_refs. rewrite Hn, decide_True by done. cbn. by destruct (cn_children n).
Qed.

(** Taking a reference from the meta root. *)
Lemma drop_root db l root :
  db_ok db l [] → gc db [] [] → 0 < root_refs db root →
  ∃ db', drop_child root zeroHash db = TOk db' ∧ db_ok db' l [] ∧ gc db' [] [root] ∧
    nodes db' = nodes db ∧ diskdb db' = diskdb db ∧
    (∀ h, h ≠ zeroHash → dirties db' !! h = dirties db !! h) ∧
    (∀ h, root_refs db' h = root_refs db h - if decide (h = root) then 1 else 0).
Proof.
  intros Hok Hgc Hroot. destruct (flush_lookup _ _ _ zeroHash (ok_flush _ _ _ Hok)) as [meta Hm]; [by left|].
  unfold drop_child, root_refs in *. rewrite Hm in *. cbn [mbind option_bind] in Hroot |- *.
  destruct (cn_children meta) as [ch|] eqn:Ech; [|cbn in Hroot; lia]. cbn in Hroot.
  destruct (ch !! root) as [c|] eqn:Ec; [|cbn in Hroot; lia]. cbn in Hroot. rewrite (proj2 (Z.ltb_lt 0 c)) by done.
  set (ch' := if c - 1 =? 0 then base.delete root ch else <[root := c - 1]> ch). rewrite (at_dirty_ok _ _ _ meta) by done.
  cbn [mbind tres_bind]. set (meta' := set_children (Some ch') meta).
  assert (Hch' : ∀ h, default 0 (ch' !! h) = default 0 (ch !! h) - if decide (h = root) then 1 else 0).
  { intros h. unfold ch'. destruct (Z.eqb_spec (c - 1) 0), (decide (h = root)) as [->|].
    - rewrite lookup_delete_eq, Ec. cbn. lia.
    - rewrite lookup_delete_ne by done. lia.
    - rewrite lookup_insert_eq, Ec. cbn. lia.
    - rewrite lookup_insert_ne by done. lia. }
  assert (Hsub : ∀ x, is_Some (ch' !! x) → is_Some (ch !! x)).
  { intros x. unfold ch'. destruct (c - 1 =? 0); [by rewrite lookup_delete_is_Some; intros [_ ?]|].
    rewrite lookup_insert_is_Some. intros [<-|[_ ?]]; [by eexists|done]. }
  assert (Hw : ∀ h, (weight zeroHash meta' h + occ h [root] = weight zeroHash meta h)%nat).
  { intros h. unfold weight, meta'. rewrite !decide_True by done. cbn [cn_children set_children default from_option id]. rewrite Ech, Hch'. cbn [default from_option id].
    rewrite occ_cons, occ_nil. destruct (decide (h = root)) as [E|E], (decide (root = h)); try congruence; [rewrite E, Ec; cbn; lia|lia]. }
  eexists. split; [done|]. split; [apply sizes_ok; by eapply update_ok|]. split; [apply gc_sizes|].
  - destruct Hgc as [Hc Ha Hac Hr]. split; cbn [dirties with_dirties].
    + intros h x Hx Hd Hz Hdk. rewrite lookup_insert_ne in Hx by done. pose proof (Hc h x Hx Hd Hz Hdk) as Hcc. rewrite occ_nil in Hcc.
      pose proof (refs_update (dirties db) [] h zeroHash meta meta' Hm) as E. unfold live_weight in E.
      rewrite !decide_False in E by (by intros ?%elem_of_nil). specialize (Hw h). lia.
    + intros p x h Hx Hd Hwx. unfold avail. cbn. rewrite lookup_insert_is_Some.
      assert (Hx' : ∃ x', dirties db !! p = Some x' ∧ (0 < weight p x' h)%nat).
      { apply lookup_insert_Some in Hx as [[<- <-]|[_ Hx]]; [exists meta; split; [done|]; specialize (Hw h); lia|eauto]. }
      destruct Hx' as (x' & Hx' & Hwx'). destruct (Ha p x' h Hx' Hd Hwx') as [[Hin Hhd]|Hdk]; [left|by right].
      split; [|done]. destruct (decide (zeroHash = h)); auto.
    + intros p x h [[<- <-]|[_ Hx]]%lookup_insert_Some Hin; [|by eapply Hac]. eapply Hac; [done|]. by eapply forChilds_children.
    + intros h x [[<- <-]|[_ Hx]]%lookup_insert_Some; [by eapply (Hr zeroHash meta)|by eapply Hr].
  - split_and!; [by apply (nodes_update db zeroHash meta)|done| |].
    + intros h Hh. cbn. by rewrite lookup_insert_ne.
    + intros h. cbn [dirties with_dirties with_sizes]. rewrite lookup_insert_eq. cbn. apply Hch'.
Qed.

(** The root is referenced, or it does not have to stay in memory. *)
Definition may_release db (root : bytes) : Prop :=
  0 < root_refs db root ∨ is_Some (disk_blobs db !! root) ∨ dirties db !! root = None.

Lemma drop_any db l root :
  db_ok db l [] → gc db [] [] → may_release db root →
  ∃ db', drop_child root zeroHash db = TOk db' ∧ db_ok db' l [] ∧ gc db' [] [root] ∧ nodes db' = nodes db ∧ diskdb db' = diskdb db ∧
    (∀ h, h ≠ zeroHash → dirties db' !! h = dirties db !! h) ∧
    (∀ h, root_refs db' h = root_refs db h - if decide (h = root ∧ 0 < root_refs db root) then 1 else 0).
Proof.
  intros Hok Hgc Hmay. destruct (decide (0 < root_refs db root)) as [Hpos|Hneg].
  - destruct (drop_root db l root Hok Hgc Hpos) as (db' & ? & ? & ? & ? & ? & ? & Hr). exists db'. split_and!; [done..|].
    intros h. rewrite Hr. destruct (decide (h = root)), (decide (h = root ∧ 0 < root_refs db root)); tauto || lia.
  - exists db. split_and!; try done.
    + unfold drop_child, root_refs in *. destruct (flush_lookup _ _ _ zeroHash (ok_flush _ _ _ Hok)) as [m Hm]; [by left|]. rewrite Hm in *.
      cbn in Hneg. destruct (cn_children m) as [ch|]; [|done]. cbn in Hneg. destruct (ch !! root) as [c|]; [|done]. cbn in Hneg.
      by rewrite (proj2 (Z.ltb_ge 0 c)) by lia.
    + destruct Hgc as [Hc Ha Hac Hr]. split; try done. intros h n Hn Hd Hz Hdk. pose proof (Hc h n Hn Hd Hz Hdk) as Hcc.
      rewrite occ_cons. destruct (decide (root = h)) as [->|]; [|done]. destruct Hmay as [?|[[b Hb]|Hnone]]; [lia|congruence|congruence].
    + intros h. rewrite decide_False by tauto. lia.
Qed.

(** ** The invariant of the database *)

(** All the references of a node, those inside it and those from outside, which its hash
    determines. *)
Context (K : bytes → list bytes).

(** A node does not need one that comes later in the list. *)
Definition not_before db (x y : bytes) : Prop :=
  ∀ n, dirties db !! x = Some n → y ∈ forChilds n → is_Some (disk_blobs db !! y).

(** The invariant; the nodes [exc] do not have all their references yet. *)
Record whole db (l exc : list bytes) : Prop := {
  w_ok : db_ok db l [];
  w_gc : gc db [] [];
  w_complete p n h : dirties db !! p = Some n → p ≠ zeroHash → p ∉ exc → h ∈ K p →
    h ∈ forChilds n ∨ is_Some (disk_blobs db !! h);
  w_closed : disk_closed K db;
  w_order : StronglySorted (not_before db) l }.

Lemma sorted_sublist {A} (R : A → A → Prop) l l' : l' `sublist_of` l → StronglySorted R l → StronglySorted R l'.
Proof.
  induction 1 as [|x l' l Hs IH|x l' l Hs IH]; intros HS; [constructor|..]; inversion HS as [|? ? HS' HF]; subst; [|by apply IH].
  constructor; [by apply IH|]. rewrite Forall_forall in *. intros y Hy. apply HF. eapply sublist_subseteq; done.
Qed.

Lemma sorted_app_inv {A} (R : A → A → Prop) l1 x l2 y : StronglySorted R (l1 ++ x :: l2) → y ∈ l2 → R x y.
Proof.
  induction l1 as [|z l1 IH]; cbn; intros HS; inversion HS as [|? ? HS' HF]; subst; [|by apply IH].
  rewrite Forall_forall in HF. apply HF.
Qed.

Lemma sorted_snoc {A} (R : A → A → Prop) l x : StronglySorted R l → (∀ y, y ∈ l → R y x) → StronglySorted R (l ++ [x]).
Proof.
  induction 1 as [|y l HS IH HF]; intros Hx; cbn; [by repeat constructor|]. constructor; [apply IH; intros z Hz; apply Hx; by right|].
  apply Forall_app. split; [done|]. constructor; [apply Hx; by left|constructor].
Qed.

Lemma sorted_impl {A} (R R' : A → A → Prop) l :
  (∀ l1 x l2 y, l = l1 ++ x :: l2 → y ∈ l2 → R x y → R' x y) → StronglySorted R l → StronglySorted R' l.
Proof.
  intros HR HS. induction HS as [|x l HS IH HF]; constructor.
  - apply IH. intros l1 z l2 y -> . by apply (HR (x :: l1)).
  - rewrite Forall_forall in *. intros y Hy. by apply (HR [] x l y), HF.
Qed.

(** Children come first in the list, unless they are on disk. *)
Lemma whole_ordered db l : whole db l [] → ordered K db l.
Proof.
  intros [Hok Hgc Hcom _ Hord] l1 o l2 h E Hh. pose proof (ok_flush _ _ _ Hok) as Hf.
  assert (Ho : o ∈ l) by (subst; apply elem_of_app; right; by left).
  assert (Hoz : o ≠ zeroHash) by by eapply flush_elem.
  destruct (flush_lookup _ _ _ o Hf) as [n Hn]; [by right; cbn|].
  destruct (Hcom o n h Hn Hoz ltac:(by intros ?%elem_of_nil) Hh) as [Hin|?]; [|by right].
  destruct (gc_acyclic _ _ _ Hgc o n h Hn Hin) as [Hz Hrk]. specialize (Hrk Hoz).
  destruct (gc_avail _ _ _ Hgc o n h Hn) as [[Hd _]|?]; [by intros ?%elem_of_nil| |  |by right].
  { unfold weight. rewrite decide_False by done. by apply occ_elem. }
  apply (fl_dom _ _ _ Hf) in Hd. cbn [app] in Hd. apply elem_of_cons in Hd as [?|Hd]; [done|].
  subst l. apply elem_of_app in Hd as [?|Hd]; [by left|]. apply elem_of_cons in Hd as [->|Hd]; [lia|]. right.
  by apply (sorted_app_inv _ _ _ _ _ Hord Hd n).
Qed.

Lemma collected_root_refs db db' l l' h :
  db_ok db l [] → db_ok db' l' [] → collected [] db db' → root_refs db' h = root_refs db h.
Proof.
  intros Hok Hok' Hc. destruct (flush_lookup _ _ _ zeroHash (ok_flush _ _ _ Hok')) as [m' Hm']; [by left|].
  destruct (col_keep _ _ _ Hc zeroHash m' Hm') as (m & Hm & _ & E); [by intros ?%elem_of_nil|].
  unfold root_refs. rewrite Hm, Hm'. cbn. by rewrite E.
Qed.

Lemma forChilds_same n n' : cn_node n' = cn_node n → cn_children n' = cn_children n → forChilds n' = forChilds n.
Proof. unfold forChilds. by intros -> ->. Qed.

Lemma Dereference_ok root db l :
  whole db l [] → root ≠ zeroHash → may_release db root →
  ∃ db' l', Dereference root db = TOk db' ∧ whole db' l' [] ∧ diskdb db' = diskdb db ∧ nodes db' ⊆ nodes db ∧
    ∀ h, root_refs db' h = root_refs db h - if decide (h = root ∧ 0 < root_refs db root) then 1 else 0.
Proof.
  intros [Hok Hgc Hcom Hcl Hord] Hz Hroot. unfold Dereference. rewrite bool_decide_eq_false_2 by done. cbn [dereference].
  destruct (drop_any db l root Hok Hgc Hroot) as (db1 & -> & Hok1 & Hgc1 & En1 & Ed1 & Hsame & Href). cbn [mbind tres_bind].
  assert (Hsz : size (dirties db1) = size (dirties db)).
  { by rewrite (size_list _ _ _ (ok_flush _ _ _ Hok1)), (size_list _ _ _ (ok_flush _ _ _ Hok)). }
  destruct (release_ok (dereference (size (dirties db))) [] (size (dirties db)) root db1 l [])
    as (db2 & l2 & -> & Hok2 & Hgc2 & Hcol & Hl2); try done.
  { apply dereference_ok. cbn. lia. } { by intros x ?%elem_of_nil. } { lia. }
  assert (Ed2 : disk_blobs db2 = disk_blobs db) by (unfold disk_blobs; by rewrite (col_disk _ _ _ Hcol), Ed1).
  assert (Hkeep : ∀ p n, dirties db2 !! p = Some n → p ≠ zeroHash → ∃ n0, dirties db !! p = Some n0 ∧ forChilds n = forChilds n0).
  { intros p n Hn Hpz. destruct (col_keep _ _ _ Hcol p n Hn) as (n0 & Hn0 & E1 & E2); [by intros ?%elem_of_nil|].
    rewrite Hsame in Hn0 by done. exists n0. split; [done|by apply forChilds_same]. }
  exists db2, l2. split; [done|]. split; [split; try done|].
  - intros p n h Hn Hpz Hexc Hh. destruct (Hkeep p n Hn Hpz) as (n0 & Hn0 & ->). rewrite Ed2. by eapply Hcom.
  - intros p h. rewrite !written_nil, Ed2, <- !written_nil. apply Hcl.
  - eapply sorted_impl; [|by eapply sorted_sublist]. intros la x lb y El _ Hxy n Hn Hy.
    destruct (Hkeep x n Hn) as (n0 & Hn0 & E); [eapply flush_elem; [apply Hok2|rewrite El; apply elem_of_app; right; by left]|]. rewrite Ed2. rewrite E in Hy. by eapply Hxy.
  - split_and!; [by rewrite (col_disk _ _ _ Hcol)|rewrite <- En1; apply Hcol|].
    intros h. rewrite <- Href. by eapply collected_root_refs.
Qed.

(** ** Adding references *)

Lemma occ_perm h l l' : l ≡ₚ l' → occ h l = occ h l'.
Proof. intros Hp. unfold occ. by rewrite Hp. Qed.

(** A new reference from [parent] to [child]. *)
Lemma gc_add_ref db child parent n p p' :
  gc db [] [] → dirties db !! child = Some n → dirties db !! parent = Some p → child ≠ parent → child ≠ zeroHash →
  cn_parents n + 1 < 2 ^ 32 → cn_parents p' = cn_parents p →
  (∀ h, weight parent p' h = (weight parent p h + if decide (child = h) then 1 else 0)%nat) →
  (∀ h, h ∈ forChilds p' → h ∈ forChilds p ∨ h = child) → (parent ≠ zeroHash → (rank child < rank parent)%nat) →
  gc (with_dirties db (<[parent := p']> (<[child := set_parents (cn_parents n + 1) n]> (dirties db)))) [] [].
Proof.
  intros [Hc Ha Hac Hr] Hn Hp Hne Hz Hroom Epar Hw Hk Hrk. set (n' := set_parents (cn_parents n + 1) n).
  assert (Hnil : ∀ x : bytes, x ∉ []) by (intros x ?%elem_of_nil; done).
  assert (Hrefs : ∀ h, refs (<[parent := p']> (<[child := n']> (dirties db))) [] h =
    (refs (dirties db) [] h + if decide (child = h) then 1 else 0)%nat).
  { intros h. pose proof (refs_update (dirties db) [] h child n n' Hn) as E1.
    pose proof (refs_update (<[child := n']> (dirties db)) [] h parent p p') as E2. rewrite lookup_insert_ne in E2 by done.
    specialize (E2 Hp). unfold live_weight in *. rewrite !decide_False in E1 by done. rewrite !decide_False in E2 by done.
    assert (Ew : weight child n' h = weight child n h) by done. rewrite Hw in E2. lia. }
  assert (Hlook : ∀ x y, <[parent := p']> (<[child := n']> (dirties db)) !! x = Some y →
    (x = parent ∧ y = p') ∨ (x = child ∧ y = n') ∨ (x ≠ child ∧ dirties db !! x = Some y)).
  { intros x y [[<- <-]|[_ [[<- <-]|[? ?]]%lookup_insert_Some]]%lookup_insert_Some; auto. }
  split; cbn [dirties with_dirties].
  - intros h x Hx Hd Hhz Hdk. rewrite Hrefs, occ_nil. change (disk_blobs db !! h = None) in Hdk.
    assert (Hx' : ∃ x', dirties db !! h = Some x' ∧ cn_parents x = cn_parents x' + if decide (child = h) then 1 else 0).
    { destruct (Hlook h x Hx) as [[-> ->]|[[-> ->]|[? ?]]].
      - exists p. rewrite decide_False by done. split; [done|lia].
      - exists n. by rewrite decide_True.
      - exists x. rewrite decide_False by congruence. split; [done|lia]. }
    destruct Hx' as (x' & Hx' & ->). pose proof (Hc h x' Hx' Hd Hhz Hdk) as Hcc. rewrite occ_nil in Hcc. case_decide; lia.
  - intros q x h Hx Hd Hwx. assert (Hav : avail db [] h).
    { destruct (Hlook q x Hx) as [[-> ->]|[[-> ->]|[? Hq]]]; [|exact (Ha child n h Hn Hd Hwx)|by eapply Ha].
      rewrite Hw in Hwx. destruct (decide (child = h)) as [<-|]; [left; split; [by eexists|done]|]. eapply Ha; [exact Hp|done|lia]. }
    destruct Hav as [[Hin _]|Hdk]; [left|by right]. split; [|done]. cbn. rewrite !lookup_insert_is_Some.
    destruct (decide (parent = h)), (decide (child = h)); auto.
  - intros q x h Hx Hin. destruct (Hlook q x Hx) as [[-> ->]|[[-> ->]|[? Hq]]]; [|exact (Hac child n h Hn Hin)|by eapply Hac].
    destruct (Hk h Hin) as [Hin'| ->]; [by eapply Hac|done].
  - intros h x Hx. destruct (Hlook h x Hx) as [[-> ->]|[[-> ->]|[? Hq]]]; [rewrite Epar; by eapply Hr| |by eapply Hr].
    cbn. pose proof (Hr child n Hn). lia.
Qed.

(** The children of an entry with a new external reference. *)
Lemma forChilds_add p ch child c h :
  (cn_children p = Some ch ∨ (cn_children p = None ∧ ch = ∅)) → ch !! child = None →
  occ h (forChilds (set_children (Some (<[child := c]> ch)) p)) = (occ h (forChilds p) + if decide (child = h) then 1 else 0)%nat.
Proof.
  intros Hch Hnew. unfold forChilds. cbn [cn_children set_children cn_node]. rewrite !occ_app.
  rewrite (occ_perm h _ (child :: (map_to_list ch).*1)) by (rewrite map_to_list_insert by done; done). rewrite occ_cons.
  destruct Hch as [->|[-> ->]]; [lia|]. rewrite map_to_list_empty. cbn. lia.
Qed.

(** The whole state after [reference]. *)
Lemma reference_eq child parent db n p :
  dirties db !! child = Some n → dirties db !! parent = Some p → child ≠ parent →
  let ch := default ∅ (cn_children p) in
  (parent = zeroHash ∨ ch !! child = None) →
  ∃ a b, reference child parent db = TOk (with_sizes (with_dirties db
    (<[parent := set_children (Some (<[child := (default 0 (ch !! child) + 1) mod 2 ^ 16]> ch)) p]>
     (<[child := set_parents ((cn_parents n + 1) mod 2 ^ 32) n]> (dirties db)))) a b).
Proof.
  intros Hn Hp Hne ch Hdup. unfold reference. rewrite Hn, Hp.
  assert (Hd : ∀ e : Z, (match cn_children p with
    | None => (∅ : gmap bytes Z, e, false)
    | Some ch => (ch, 0, bool_decide (is_Some (ch !! child)) && bool_decide (parent ≠ zeroHash))
    end) = (ch, match cn_children p with None => e | Some _ => 0 end, false)).
  { intros e. unfold ch in *. destruct (cn_children p) as [ch0|]; [|done]. cbn in *. f_equal.
    destruct Hdup as [->|E]; [by rewrite (bool_decide_eq_false_2 (zeroHash ≠ zeroHash)), andb_false_r by auto|].
    rewrite E. by rewrite bool_decide_eq_false_2 by (by intros []). }
  rewrite Hd. rewrite (at_dirty_ok _ _ _ n) by done. cbn [mbind tres_bind].
  rewrite (at_dirty_ok _ _ _ p) by (cbn; by rewrite lookup_insert_ne). cbn [mbind tres_bind]. by eexists _, _.
Qed.

(** Two entries changed, but for their nodes and links. *)
Lemma update2_ok db l child parent n n' p p' :
  db_ok db l [] → dirties db !! child = Some n → dirties db !! parent = Some p → child ≠ parent →
  links n' = links n → cn_node n' = cn_node n → links p' = links p → cn_node p' = cn_node p →
  let db' := with_dirties db (<[parent := p']> (<[child := n']> (dirties db))) in
  db_ok db' l [] ∧ nodes db' = nodes db.
Proof.
  intros Hok Hn Hp Hne L1 N1 L2 N2 db'. set (db1 := with_dirties db (<[child := n']> (dirties db))).
  assert (Hp1 : dirties db1 !! parent = Some p) by (cbn; by rewrite lookup_insert_ne).
  pose proof (update_ok db l [] child n n' Hok Hn L1 N1) as Hok1.
  split; [exact (update_ok db1 l [] parent p p' Hok1 Hp1 L2 N2)|].
  change (nodes db') with (nodes (with_dirties db1 (<[parent := p']> (dirties db1)))).
  rewrite (nodes_update db1 parent p p') by done. exact (nodes_update db child n n' Hn N1).
Qed.

Lemma whole_add_ref db l exc child parent n p c :
  let ch := default ∅ (cn_children p) in
  whole db l exc → dirties db !! child = Some n → dirties db !! parent = Some p → child ≠ parent → child ≠ zeroHash →
  cn_parents n + 1 < 2 ^ 32 → (parent = zeroHash → 0 <= default 0 (ch !! child) ∧ c = default 0 (ch !! child) + 1) →
  (parent ≠ zeroHash → (rank child < rank parent)%nat ∧ ch !! child = None ∧
     (last l = Some parent ∨ is_Some (disk_blobs db !! child) ∨ child ∈ forChilds p)) →
  let db' := with_dirties db (<[parent := set_children (Some (<[child := c]> ch)) p]>
               (<[child := set_parents (cn_parents n + 1) n]> (dirties db))) in
  whole db' l exc ∧ nodes db' = nodes db ∧ (∀ h, h ∈ forChilds p ∨ h = child → h ∈ forChilds (set_children (Some (<[child := c]> ch)) p)).
Proof.
  intros ch [Hok Hgc Hcom Hcl Hord] Hn Hp Hne Hz Hroom Hroot Hext db'.
  set (n' := set_parents (cn_parents n + 1) n) in *. set (p' := set_children (Some (<[child := c]> ch)) p) in *.
  destruct (update2_ok db l child parent n n' p p' Hok Hn Hp Hne eq_refl eq_refl eq_refl eq_refl) as [Hok' En].
  assert (Hch : cn_children p = Some ch ∨ (cn_children p = None ∧ ch = ∅)) by (unfold ch; destruct (cn_children p); auto).
  assert (Hkids : ∀ h, h ∈ forChilds p' → h ∈ forChilds p ∨ h = child).
  { intros h. unfold forChilds, p'. cbn [cn_children set_children cn_node]. rewrite !elem_of_app. intros [Hin|Hin]; [|by left; right].
    apply list_elem_of_fmap in Hin as ((x & v) & -> & Hin%elem_of_map_to_list). cbn.
    apply lookup_insert_Some in Hin as [[<- _]|[_ Hin]]; [by right|left; left].
    destruct Hch as [->|[_ ->]]; [|by rewrite lookup_empty in Hin]. apply list_elem_of_fmap. exists (x, v).
    split; [done|]. by apply elem_of_map_to_list. }
  assert (Hnew : child ∈ forChilds p').
  { unfold forChilds, p'. cbn [cn_children set_children]. apply elem_of_app. left. apply list_elem_of_fmap. exists (child, c).
    split; [done|]. apply elem_of_map_to_list, lookup_insert_eq. }
  assert (Hmore : ∀ h, h ∈ forChilds p → h ∈ forChilds p').
  { intros h. unfold forChilds, p'. cbn [cn_children set_children cn_node]. rewrite !elem_of_app. intros [Hin|Hin]; [|by right].
    left. destruct Hch as [E|[E _]]; rewrite E in Hin; [|by apply elem_of_nil in Hin].
    apply list_elem_of_fmap in Hin as ((x & v) & -> & Hin%elem_of_map_to_list). apply list_elem_of_fmap. cbn.
    destruct (decide (child = x)) as [<-|]; [exists (child, c)|exists (x, v)]; (split; [done|apply elem_of_map_to_list]);
      [apply lookup_insert_eq|by rewrite lookup_insert_ne]. }
  assert (Hlook : ∀ x y, dirties db' !! x = Some y →
    (x = parent ∧ y = p') ∨ (∃ y0, dirties db !! x = Some y0 ∧ forChilds y = forChilds y0)).
  { intros x y Hx. cbn in Hx. apply lookup_insert_Some in Hx as [[<- <-]|[_ Hx]]; [by left|right].
    apply lookup_insert_Some in Hx as [[<- <-]|[_ Hx]]; eauto. }
  split; [|split; [exact En|intros h [?| ->]; [by apply Hmore|done]]]. split; [done| | |done|].
  - apply (gc_add_ref db child parent n p p'); try done; [|by intros Hpz; apply Hext].
    intros h. unfold weight. destruct (decide (parent = zeroHash)) as [E|E].
    + destruct (Hroot E) as [H0 Hc]. unfold p'. cbn [cn_children set_children default from_option id]. fold ch.
      destruct (decide (child = h)) as [<-|]; [rewrite lookup_insert_eq; cbn; lia|by rewrite lookup_insert_ne, Nat.add_0_r].
    + destruct (Hext E) as (_ & Hfresh & _). by apply forChilds_add.
  - intros x y h Hx Hxz Hexc Hh. destruct (Hlook x y Hx) as [[-> ->]|(y0 & Hy0 & ->)]; [|by eapply Hcom].
    destruct (Hcom parent p h Hp Hxz Hexc Hh) as [?|?]; [left; by apply Hmore|by right].
  - eapply sorted_impl; [|done]. intros l1 x l2 y El Hy Hxy m Hm Hin. change (is_Some (disk_blobs db !! y)).
    destruct (Hlook x m Hm) as [[-> ->]|(y0 & Hy0 & E)]; [|rewrite E in Hin; by eapply Hxy].
    destruct (Hkids y Hin) as [?| ->]; [by eapply Hxy|].
    assert (Hpl : parent ∈ l) by (rewrite El; apply elem_of_app; right; by left).
    destruct (Hext (flush_elem _ _ _ _ (ok_flush _ _ _ Hok) Hpl)) as (_ & _ & [Hlast|[?|?]]); [|done|by eapply Hxy]. exfalso.
    pose proof (nodup_list _ _ _ (fl_nodup _ _ _ (ok_flush _ _ _ Hok))) as Hnd. rewrite El in Hlast, Hnd.
    apply NoDup_app in Hnd as (_ & _ & Hnd). apply NoDup_cons in Hnd as [Hnd _]. apply Hnd.
    rewrite last_app, last_cons in Hlast. destruct (last l2) as [z|] eqn:Ez; [injection Hlast as ->; by apply last_Some_elem_of|].
    apply last_None in Ez as ->. by apply elem_of_nil in Hy.
Qed.

(** Referencing a root. *)
Lemma Reference_root_ok root db l :
  whole db l [] → root ≠ zeroHash → 0 <= root_refs db root < 2 ^ 16 - 1 →
  (∀ n, dirties db !! root = Some n → cn_parents n + 1 < 2 ^ 32) → is_Some (dirties db !! root) →
  ∃ db', Reference root zeroHash db = TOk db' ∧ whole db' l [] ∧ blobs db' = blobs db ∧ diskdb db' = diskdb db ∧
    ∀ h, root_refs db' h = root_refs db h + if decide (h = root) then 1 else 0.
Proof.
  intros Hw Hz Hcnt Hroom [n Hn]. destruct (flush_lookup _ _ _ zeroHash (ok_flush _ _ _ (w_ok _ _ _ Hw))) as [p Hp]; [by left|].
  set (ch := default ∅ (cn_children p)).
  assert (Ecnt : ∀ h, root_refs db h = default 0 (ch !! h)).
  { intros h. unfold root_refs, ch. rewrite Hp. cbn. by destruct (cn_children p). }
  destruct (reference_eq root zeroHash db n p Hn Hp Hz (or_introl eq_refl)) as (a & b & E). unfold Reference. rewrite E. fold ch.
  pose proof (gc_range _ _ _ (w_gc _ _ _ Hw) root n Hn) as Hr. rewrite Ecnt in Hcnt. specialize (Hroom n Hn).
  rewrite !Z.mod_small by lia.
  destruct (whole_add_ref db l [] root zeroHash n p (default 0 (ch !! root) + 1) Hw Hn Hp Hz Hz Hroom) as ([Hok Hgc Hcom Hcl Hord] & En & _); [intros _; fold ch; split; [lia|done]|done|].
  eexists. split; [done|]. split_and!.
  - split; [by apply sizes_ok|by apply gc_sizes|exact Hcom|exact Hcl|exact Hord].
  - by apply blobs_same.
  - done.
  - intros h. rewrite Ecnt. unfold root_refs. cbn [dirties with_sizes with_dirties]. rewrite lookup_insert_eq. cbn [mbind option_bind cn_children set_children].
    destruct (decide (h = root)) as [->|]; [by rewrite lookup_insert_eq|rewrite lookup_insert_ne by done; lia].
Qed.

(** ** Storing a node *)

(** No counter of parents is near its limit. *)
Definition room db (k : nat) : Prop := ∀ h n, dirties db !! h = Some n → cn_parents n + Z.of_nat k < 2 ^ 32.

Lemma add_parents_lookup ks m h n :
  m !! h = Some n → 0 <= cn_parents n → cn_parents n + Z.of_nat (length ks) < 2 ^ 32 →
  ∃ n', foldl add_parent m ks !! h = Some n' ∧ body n' = body n ∧ cn_parents n' = cn_parents n + Z.of_nat (occ h ks).
Proof.
  revert m n. induction ks as [|k ks IH]; intros m n Hn H0 Hr; cbn [foldl].
  - exists n. rewrite occ_nil. split_and!; [done..|lia].
  - unfold add_parent at 2. cbn [length] in Hr. destruct (decide (k = h)) as [->|Hne].
    + rewrite Hn. destruct (IH (<[h := set_parents ((cn_parents n + 1) mod 2 ^ 32) n]> m) (set_parents ((cn_parents n + 1) mod 2 ^ 32) n))
        as (n' & Hn' & Hb & Hp); [apply lookup_insert_eq|cbn [cn_parents set_parents]; by apply Z.mod_pos_bound|cbn [cn_parents set_parents]; rewrite Z.mod_small; lia|].
      exists n'. split_and!; [done..|]. rewrite Hp. cbn [cn_parents set_parents]. rewrite Z.mod_small by lia.
      rewrite occ_cons, decide_True by done. lia.
    + destruct (IH (match m !! k with Some c => <[k := set_parents ((cn_parents c + 1) mod 2 ^ 32) c]> m | None => m end) n)
        as (n' & Hn' & Hb & Hp); [destruct (m !! k); [by rewrite lookup_insert_ne|done]|done|lia|].
      exists n'. split_and!; [done..|]. by rewrite Hp, occ_cons, decide_False.
Qed.

Lemma body_kids n n' : body n' = body n → forChilds n' = forChilds n ∧ cn_children n' = cn_children n ∧ cn_node n' = cn_node n.
Proof. unfold body, forChilds. by intros [= -> _ -> _ _]. Qed.

Lemma refs_add_entry m hash e h :
  m !! hash = None → hash ≠ zeroHash → refs (add_entry hash e m) [] h = (occ h (forChilds e) + refs m [] h)%nat.
Proof.
  intros Hnone Hz. unfold add_entry. assert (Hnil : ∀ x : bytes, x ∉ []) by (intros x ?%elem_of_nil; done).
  assert (Hb : ∀ x, body <$> foldl add_parent m (forChilds e) !! x = body <$> m !! x) by (intros x; apply add_parents_body).
  rewrite refs_insert.
  2:{ pose proof (Hb hash) as E. rewrite Hnone in E. by destruct (foldl add_parent m (forChilds e) !! hash). }
  unfold live_weight at 1. rewrite decide_False by done. unfold weight at 1. rewrite decide_False by done. f_equal. apply refs_ext.
  - intros p. pose proof (Hb p) as E. by destruct (m !! p), (foldl add_parent m (forChilds e) !! p).
  - intros p n n' Hn Hn'. pose proof (Hb p) as E. rewrite Hn, Hn' in E. apply (inj Some) in E. unfold live_weight, weight.
    destruct (body_kids _ _ E) as (-> & -> & _). done.
Qed.

(** The entries after a new one was added at the end of the list. *)
Lemma inserted_entry db db' hash e x n' :
  gc db [] [] → room db (length (forChilds e)) → same_core (add_entry hash e (dirties db)) (dirties db') →
  dirties db' !! x = Some n' →
  (x = hash ∧ forChilds n' = forChilds e ∧ cn_children n' = cn_children e ∧ cn_parents n' = cn_parents e) ∨
  (x ≠ hash ∧ ∃ n, dirties db !! x = Some n ∧ forChilds n' = forChilds n ∧ cn_children n' = cn_children n ∧
     cn_parents n' = cn_parents n + Z.of_nat (occ x (forChilds e))).
Proof.
  intros Hgc Hroom Hs Hx. destruct (same_core_lookup_l _ _ _ _ Hs Hx) as (n1 & Hn1 & E). destruct (core_parents _ _ E) as (-> & -> & ->).
  unfold add_entry in Hn1. apply lookup_insert_Some in Hn1 as [[<- <-]|[Hne Hn1]]; [left; by split_and!|right; split; [done|]].
  pose proof (add_parents_body (forChilds e) (dirties db) x) as Hb. rewrite Hn1 in Hb. destruct (dirties db !! x) as [n|] eqn:Hn; [|done].
  destruct (add_parents_lookup (forChilds e) _ _ _ Hn (proj1 (gc_range _ _ _ Hgc x n Hn)) (Hroom x n Hn)) as (n2 & Hn2 & Hb2 & Hp2).
  rewrite Hn1 in Hn2. injection Hn2 as <-. destruct (body_kids _ _ Hb2) as (? & ? & _). exists n. by split_and!.
Qed.

Lemma inserted_in db db' hash e x :
  same_core (add_entry hash e (dirties db)) (dirties db') → is_Some (dirties db !! x) → is_Some (dirties db' !! x).
Proof.
  intros Hs [n Hn]. apply (same_core_is_Some _ _ _ Hs).
  unfold add_entry. rewrite lookup_insert_is_Some. destruct (decide (hash = x)); [by left|right; split; [done|]].
  pose proof (add_parents_body (forChilds e) (dirties db) x) as Hb. apply body_is_Some in Hb. apply Hb. by eexists.
Qed.

Lemma inserted_avail db db' hash e h :
  same_core (add_entry hash e (dirties db)) (dirties db') → diskdb db' = diskdb db → avail db [] h → avail db' [] h.
Proof.
  intros Hs Ed [[Hn ?]|Hd]; [left; split; [by eapply inserted_in|done]|right]. unfold disk_blobs in *. by rewrite Ed.
Qed.

(** A new node whose children are there. *)
Lemma gc_insert db db' hash e :
  gc db [] [] → dirties db !! hash = None → hash ≠ zeroHash → room db (length (forChilds e)) →
  cn_parents e = 0 → (∀ h, h ∈ forChilds e → h ≠ zeroHash ∧ (rank h < rank hash)%nat ∧ avail db [] h) →
  same_core (add_entry hash e (dirties db)) (dirties db') → diskdb db' = diskdb db → gc db' [] [].
Proof.
  intros Hgc Hnone Hz Hroom H0 Hkids Hs Ed. pose proof Hgc as [Hc Ha Hac Hr].
  assert (Hnil : ∀ x : bytes, x ∉ []) by (intros x ?%elem_of_nil; done).
  assert (Hdk : disk_blobs db' = disk_blobs db) by (unfold disk_blobs; by rewrite Ed).
  pose proof (λ x n', inserted_entry db db' hash e x n' Hgc Hroom Hs) as Hlook. rewrite H0 in Hlook.
  pose proof (λ h, inserted_avail db db' hash e h Hs Ed) as Hin.
  split.
  - intros h n' Hn' _ Hhz Hnd. rewrite Hdk in Hnd. rewrite (refs_same_core _ _ _ _ Hs), refs_add_entry, occ_nil by done.
    destruct (Hlook h n' Hn') as [(-> & _ & _ & ->)|(Hne & n & Hn & _ & _ & ->)].
    + assert (E1 : occ hash (forChilds e) = 0%nat).
      { destruct (occ hash (forChilds e)) eqn:E; [done|]. exfalso. assert (Hx : hash ∈ forChilds e) by (apply occ_elem; lia).
        destruct (Hkids hash Hx) as (_ & ? & _). lia. }
      assert (E2 : refs (dirties db) [] hash = 0%nat).
      { apply refs_zero. intros p n Hn Hp. destruct (weight p n hash) eqn:E; [done|]. exfalso.
        destruct (Ha p n hash Hn Hp) as [[Hx _]|[b Hx]]; [lia|by rewrite Hnone in Hx; destruct Hx|congruence]. }
      lia.
    + pose proof (Hc h n Hn (Hnil h) Hhz Hnd) as Hcc. rewrite occ_nil in Hcc. lia.
  - intros p n' h Hn' Hp Hw. apply Hin. destruct (Hlook p n' Hn') as [(-> & E & _)|(Hne & n & Hn & E & E' & _)].
    + apply Hkids. rewrite <- E. apply occ_elem. unfold weight in Hw. by rewrite decide_False in Hw.
    + eapply Ha; [exact Hn|done|]. unfold weight in *. by rewrite E, E' in Hw.
  - intros p n' h Hn' Hh. destruct (Hlook p n' Hn') as [(-> & E & _)|(Hne & n & Hn & E & _)]; rewrite E in Hh; [|by eapply Hac].
    destruct (Hkids h Hh) as (? & ? & _). by split.
  - intros h n' Hn'. destruct (Hlook h n' Hn') as [(_ & _ & _ & ->)|(_ & n & Hn & _ & _ & ->)]; [lia|].
    pose proof (Hr h n Hn). pose proof (Hroom h n Hn). assert (occ h (forChilds e) ≤ length (forChilds e))%nat by apply length_filter. lia.
Qed.

Lemma whole_sizes db l exc a b : whole db l exc → whole (with_sizes db a b) l exc.
Proof. intros [Hok Hgc Hcom Hcl Hord]. split; [by apply sizes_ok|by apply gc_sizes|exact Hcom|exact Hcl|exact Hord]. Qed.

(** A reference from a node to an external child. *)
Lemma reference_ok db l exc c hash p k :
  whole db l exc → dirties db !! hash = Some p → hash ≠ zeroHash → room db (S k) →
  c ≠ zeroHash → (rank c < rank hash)%nat → avail db [] c →
  (last l = Some hash ∨ is_Some (disk_blobs db !! c) ∨ c ∈ forChilds p) →
  ∃ db' p', Reference c hash db = TOk db' ∧ whole db' l exc ∧ room db' k ∧ nodes db' = nodes db ∧ diskdb db' = diskdb db ∧
    dirties db' !! hash = Some p' ∧ (∀ h, h ∈ forChilds p → h ∈ forChilds p') ∧
    (c ∈ forChilds p' ∨ is_Some (disk_blobs db' !! c)) ∧ (∀ h, avail db [] h → avail db' [] h) ∧
    (∀ h, root_refs db' h = root_refs db h).
Proof.
  intros Hw Hp Hz Hroom Hcz Hrk Hav Hord. assert (Hroom' : room db k) by (intros h n Hn; pose proof (Hroom h n Hn); lia).
  unfold Reference. destruct (dirties db !! c) as [n|] eqn:Hn.
  2:{ exists db, p. unfold reference. rewrite Hn. split_and!; try done. right. destruct Hav as [[[? ?] _]|?]; [congruence|done]. }
  assert (Hne : c ≠ hash) by (intros ->; lia).
  destruct (default ∅ (cn_children p) !! c) as [v|] eqn:Edup.
  - exists db, p. unfold reference. rewrite Hn, Hp. destruct (cn_children p) as [ch|] eqn:Ech; [|done]. cbn in Edup. rewrite Edup.
    rewrite bool_decide_eq_true_2 by (by eexists). rewrite bool_decide_eq_true_2 by done. split_and!; try done. left.
    unfold forChilds. rewrite Ech. apply elem_of_app. left. apply list_elem_of_fmap. exists (c, v). split; [done|]. by apply elem_of_map_to_list.
  - destruct (reference_eq c hash db n p Hn Hp Hne (or_intror Edup)) as (a & b & ->).
    pose proof (gc_range _ _ _ (w_gc _ _ _ Hw) c n Hn) as Hr. pose proof (Hroom c n Hn) as Hrm. rewrite Edup. cbn [default from_option id Z.add].
    rewrite (Z.mod_small (cn_parents n + 1)) by lia. rewrite (Z.mod_small 1) by lia.
    destruct (whole_add_ref db l exc c hash n p 1 Hw Hn Hp Hne Hcz) as (Hw' & En & Hk); [lia|done|done|].
    eexists _, _. split; [done|]. split; [by apply whole_sizes|]. split_and!; [|exact En|done| | | | |].
    + intros h m Hm. cbn in Hm. apply lookup_insert_Some in Hm as [[<- <-]|[_ Hm]]; [cbn; pose proof (Hroom hash p Hp); lia|].
      apply lookup_insert_Some in Hm as [[<- <-]|[_ Hm]]; [cbn; lia|by apply Hroom' in Hm].
    + cbn. apply lookup_insert_eq.
    + intros h Hh. apply Hk. by left.
    + left. apply Hk. by right.
    + intros h [[Hx Hd]|?]; [left|by right]. split; [|done]. cbn. rewrite !lookup_insert_is_Some.
      destruct (decide (hash = h)), (decide (c = h)); auto.
    + intros h. unfold root_refs. cbn. by rewrite !lookup_insert_ne.
Qed.

Definition references (hash : bytes) (ext : list bytes) (db : Database (C := C)) : tres (Database (C := C)) :=
  foldl (λ d c, d ≫= Reference c hash) (TOk db) ext.

Lemma references_ok ext db l exc hash p :
  whole db l exc → dirties db !! hash = Some p → hash ≠ zeroHash → room db (length ext) →
  (∀ c, c ∈ ext → c ≠ zeroHash ∧ (rank c < rank hash)%nat ∧ avail db [] c ∧
     (last l = Some hash ∨ is_Some (disk_blobs db !! c) ∨ c ∈ forChilds p)) →
  ∃ db' p', references hash ext db = TOk db' ∧ whole db' l exc ∧ nodes db' = nodes db ∧ diskdb db' = diskdb db ∧
    dirties db' !! hash = Some p' ∧ (∀ h, h ∈ forChilds p → h ∈ forChilds p') ∧
    (∀ c, c ∈ ext → c ∈ forChilds p' ∨ is_Some (disk_blobs db' !! c)) ∧ (∀ h, root_refs db' h = root_refs db h).
Proof.
  unfold references. revert db p. induction ext as [|c ext IH]; intros db p Hw Hp Hz Hroom Hext; cbn [foldl].
  - exists db, p. split_and!; try done. by intros c ?%elem_of_nil.
  - destruct (Hext c) as (Hcz & Hrk & Hav & Hord); [by left|].
    destruct (reference_ok db l exc c hash p (length ext) Hw Hp Hz Hroom Hcz Hrk Hav Hord)
      as (db1 & p1 & E1 & Hw1 & Hroom1 & En1 & Ed1 & Hp1 & Hk1 & Hc1 & Hav1 & Hr1). cbn [mbind tres_bind]. rewrite E1.
    assert (Edk : disk_blobs db1 = disk_blobs db) by (unfold disk_blobs; by rewrite Ed1).
    destruct (IH db1 p1 Hw1 Hp1 Hz Hroom1) as (db2 & p2 & -> & Hw2 & En2 & Ed2 & Hp2 & Hk2 & Hc2 & Hr2).
    { intros x Hx. destruct (Hext x) as (? & ? & ? & Ho); [by right|]. split_and!; [done..|by apply Hav1|].
      rewrite Edk. destruct Ho as [?|[?|?]]; auto. }
    exists db2, p2. split_and!; try done; [congruence|congruence|auto| |intros h; by rewrite Hr2].
    intros x [->|Hx]%elem_of_cons; [|by apply Hc2]. destruct Hc1 as [?|?]; [left; by apply Hk2|right].
    unfold disk_blobs in *. by rewrite Ed2.
Qed.

(** [hasher.store] on the database: the node is inserted, then its external references. *)
Definition store_entry (hash blob : bytes) (r : raw) (ext : list bytes) (db : Database (C := C)) : tres (Database (C := C)) :=
  db ← insert_raw hash blob r db; references hash ext db.

(** What the caller of [store_entry] provides: a blob with this hash, the same one if the
    hash is known, and references that are exactly those of [K], all stored before. *)
Record storable db (hash : bytes) (r : raw) (ext : list bytes) : Prop := {
  st_zero : hash ≠ zeroHash;
  st_raw : raw_ok hash r;
  st_blob b : blobs db !! hash = Some b → b = raw_blob r;
  st_room : room db (length (match r with rawNode _ => [] | r => forGatherChildren r end) + length ext);
  st_kids h : h ∈ K hash ↔ h ∈ match r with rawNode _ => [] | r => forGatherChildren r end ∨ h ∈ ext;
  st_there h : h ∈ K hash → h ≠ zeroHash ∧ (rank h < rank hash)%nat ∧ avail db [] h }.

Lemma whole_complete db l hash p :
  whole db l [hash] → dirties db !! hash = Some p →
  (∀ h, h ∈ K hash → h ∈ forChilds p ∨ is_Some (disk_blobs db !! h)) → whole db l [].
Proof.
  intros [Hok Hgc Hcom Hcl Hord] Hp Hk. split; try done. intros q n h Hn Hz _ Hh.
  destruct (decide (q = hash)) as [->|]; [rewrite Hp in Hn; injection Hn as <-; by apply Hk|].
  eapply Hcom; [done..| |done]. by intros ?%list_elem_of_singleton.
Qed.

Lemma forChilds_new r blob prev :
  forChilds (new_entry r blob prev) = match r with rawNode _ => [] | r => forGatherChildren r end.
Proof. unfold forChilds, new_entry. cbn. by destruct r. Qed.

(** A node that is not in memory is added at the end of the list. *)
Lemma insert_whole db l hash blob r ext :
  whole db l [] → storable db hash r ext → dirties db !! hash = None →
  ∃ db' p, insert_raw hash blob r db = TOk db' ∧ whole db' (l ++ [hash]) [hash] ∧ dirties db' !! hash = Some p ∧
    forChilds p = forChilds (new_entry r blob (newest db)) ∧ room db' (length ext) ∧
    nodes db' = <[hash := r]> (nodes db) ∧ diskdb db' = diskdb db ∧ (∀ h, avail db [] h → avail db' [] h) ∧
    (∀ h, root_refs db' h = root_refs db h).
Proof.
  intros [Hok Hgc Hcom Hcl Hord] [Hz Hraw Hblob Hroom Hkids Hthere] Hnone. set (e := new_entry r blob (newest db)).
  assert (Hdisk : ∀ b, disk_blobs db !! hash = Some b → b = raw_blob r).
  { intros b Hb. apply Hblob, blobs_lookup. right. split; [|done]. unfold nodes. apply lookup_delete_None. right. by rewrite lookup_fmap, Hnone. }
  destruct (insert_raw_store db l hash blob r Hok Hz Hnone Hraw Hdisk) as (db' & E & Hok' & Hs & En & Ed). fold e in Hs.
  assert (Edk : disk_blobs db' = disk_blobs db) by (unfold disk_blobs; by rewrite Ed).
  assert (Hgc' : gc db' [] []).
  { eapply (gc_insert db db' hash e); try done.
    - intros h n Hn. pose proof (Hroom h n Hn). unfold e. rewrite forChilds_new. lia.
    - intros h Hh. apply Hthere, Hkids. left. unfold e in Hh; by rewrite forChilds_new in Hh. }
  destruct (same_core_lookup (add_entry hash e (dirties db)) (dirties db') hash e Hs) as (p & Hp & Ecp).
  { unfold add_entry. apply lookup_insert_eq. }
  assert (Hroom' : room db (length (forChilds e))) by (intros h n Hn; pose proof (Hroom h n Hn); unfold e; rewrite forChilds_new; lia).
  pose proof (λ x n', inserted_entry db db' hash e x n' Hgc Hroom' Hs) as Hlook.
  destruct (core_parents _ _ Ecp) as (Epp & Epc & _).
  exists db', p. split; [done|]. split; [split; [done|done| | |]|split; [done|split; [done|split_and!; [|done|done| |]]]].
  - intros q n h Hn Hqz Hexc Hh. rewrite Edk. destruct (Hlook q n Hn) as [[-> _]|(_ & n0 & Hn0 & -> & _)]; [by destruct Hexc; left|].
    eapply Hcom; [done..| |done]. by intros ?%elem_of_nil.
  - intros q h. rewrite !written_nil, Edk, <- !written_nil. apply Hcl.
  - apply sorted_snoc.
    + eapply sorted_impl; [|done]. intros l1 x l2 y El Hy Hxy n Hn Hin. rewrite Edk.
      destruct (Hlook x n Hn) as [(-> & _)|(_ & n0 & Hn0 & E0 & _)]; [|rewrite E0 in Hin; by eapply Hxy].
      destruct (flush_lookup _ _ _ hash (ok_flush _ _ _ Hok)) as [? ?]; [|congruence]. right. cbn. rewrite El. apply elem_of_app. right. by left.
    + intros x Hx n Hn Hin. rewrite Edk. assert (Hxz : x ≠ zeroHash) by (eapply flush_elem; [by apply Hok|done]).
      destruct (Hlook x n Hn) as [(-> & _)|(_ & n0 & Hn0 & E0 & _)].
      * destruct (flush_lookup _ _ _ hash (ok_flush _ _ _ Hok)) as [? ?]; [|congruence]. by right.
      * rewrite E0 in Hin. destruct (gc_avail _ _ _ Hgc x n0 hash Hn0) as [[[? ?] _]|?]; [by intros ?%elem_of_nil| |congruence|done].
        unfold weight. rewrite decide_False by done. by apply occ_elem.
  - intros h n Hn. destruct (flush_lookup _ _ _ zeroHash (ok_flush _ _ _ Hok)) as [m Hm]; [by left|].
    pose proof (Hroom zeroHash m Hm). pose proof (gc_range _ _ _ Hgc _ _ Hm).
    destruct (Hlook h n Hn) as [(_ & _ & _ & ->)|(_ & n0 & Hn0 & _ & _ & ->)]; [unfold e; cbn [cn_parents new_entry]; lia|].
    pose proof (Hroom h n0 Hn0). assert (occ h (forChilds e) ≤ length (forChilds e))%nat as Hocc by apply length_filter.
    unfold e in Hocc at 2. rewrite forChilds_new in Hocc. lia.
  - intros h. by apply (inserted_avail db db' hash e).
  - intros h. destruct (flush_lookup _ _ _ zeroHash (ok_flush _ _ _ Hok)) as [m Hm]; [by left|].
    destruct (inserted_in db db' hash e zeroHash Hs) as [m' Hm']; [by eexists|].
    destruct (Hlook _ _ Hm') as [(? & _)|(_ & n0 & Hn0 & _ & E0 & _)]; [congruence|]. unfold root_refs. rewrite Hm', Hn0. cbn. by rewrite E0.
Qed.

Lemma store_entry_ok db l hash blob r ext :
  whole db l [] → storable db hash r ext →
  ∃ db' l', store_entry hash blob r ext db = TOk db' ∧ whole db' l' [] ∧ blobs db' = <[hash := raw_blob r]> (blobs db) ∧
    diskdb db' = diskdb db ∧ ∀ h, root_refs db' h = root_refs db h.
Proof.
  intros Hw Hst. pose proof Hst as [Hz Hraw Hblob Hroom Hkids Hthere]. unfold store_entry.
  destruct (dirties db !! hash) as [p|] eqn:Hp.
  - unfold insert_raw. rewrite Hp. cbn [mbind tres_bind].
    destruct (references_ok ext db l [] hash p Hw Hp Hz) as (db' & p' & -> & Hw' & En & Ed & _ & _ & _ & Hr).
    { intros h n Hn. pose proof (Hroom h n Hn). lia. }
    { intros c Hc. assert (Hk : c ∈ K hash) by (apply Hkids; by right). destruct (Hthere c Hk) as (? & ? & ?). split_and!; try done.
      right. destruct (w_complete _ _ _ Hw hash p c Hp Hz) as [?|?]; auto. by intros ?%elem_of_nil. }
    exists db', l. split_and!; try done. rewrite (blobs_same _ _ En Ed), insert_id; [done|].
    assert (Hb : blobs db !! hash = Some (raw_blob (cn_node p))) by (apply blobs_lookup; left; exists (cn_node p); split; [apply nodes_dirty; eauto|done]).
    by rewrite Hb, (Hblob _ Hb).
  - destruct (insert_whole db l hash blob r ext Hw Hst Hp) as (db1 & p & -> & Hw1 & Hp1 & Ec1 & Hroom1 & En1 & Ed1 & Hav1 & Hr1).
    cbn [mbind tres_bind]. rewrite forChilds_new in Ec1.
    destruct (references_ok ext db1 (l ++ [hash]) [hash] hash p Hw1 Hp1 Hz Hroom1) as (db' & p' & -> & Hw' & En & Ed & Hp' & Hk' & Hc' & Hr).
    { intros c Hc. assert (Hk : c ∈ K hash) by (apply Hkids; by right). destruct (Hthere c Hk) as (? & ? & ?). split_and!; [done..|by apply Hav1|].
      left. apply last_snoc. }
    exists db', (l ++ [hash]). split_and!; [done|eapply whole_complete; [done..|]| |congruence|intros h; by rewrite Hr, Hr1].
    + intros h [Hh|Hh]%Hkids; [left; apply Hk'; by rewrite Ec1|by apply Hc'].
    + unfold blobs, disk_blobs. rewrite En, Ed, En1, Ed1, fmap_insert. symmetry. apply insert_union_l.
Qed.

(** ** Moving nodes to disk *)

Lemma refs_sub m m' h :
  (∀ p n', m' !! p = Some n' → ∃ n, m !! p = Some n ∧ core n' = core n) → (refs m' [] h ≤ refs m [] h)%nat.
Proof.
  revert m. induction m' as [|p n' m' Hp IH] using map_ind; intros m Hsub; [cbn; unfold refs; rewrite map_fold_empty; lia|].
  destruct (Hsub p n') as (n & Hn & Ec); [apply lookup_insert_eq|]. rewrite refs_insert by done.
  rewrite (refs_lookup m [] h p n) by done. assert (refs m' [] h ≤ refs (base.delete p m) [] h)%nat.
  { apply IH. intros q nq Hq. assert (Hne : q ≠ p) by (intros ->; congruence). rewrite lookup_delete_ne by done.
    apply Hsub. by rewrite lookup_insert_ne. }
  unfold live_weight. rewrite !decide_False by (by intros ?%elem_of_nil). rewrite (weight_core p n' n) by done. lia.
Qed.

(** Eviction keeps the invariant. *)
Lemma whole_evict db db' l l' :
  whole db l [] → db_ok db' l' [] → evicted db db' l l' → disk_closed K db' →
  whole db' l' [] ∧ ∀ h, root_refs db' h = root_refs db h.
Proof.
  intros [Hok Hgc Hcom Hcl Hord] Hok' [Eb Hgrow Hkeep Hgone Hsub] Hcl'.
  assert (Hdk : ∀ h, is_Some (disk_blobs db !! h) → is_Some (disk_blobs db' !! h)).
  { intros h Hh. by eapply lookup_weaken_is_Some. }
  assert (Hnil : ∀ x : bytes, x ∉ []) by (intros x ?%elem_of_nil; done).
  assert (Hcore : ∀ h n', dirties db' !! h = Some n' → ∃ n, dirties db !! h = Some n ∧ cn_parents n' = cn_parents n ∧
    forChilds n' = forChilds n ∧ cn_children n' = cn_children n).
  { intros h n' Hn'. destruct (Hkeep h n' Hn') as (n & Hn & Ec). exists n. split; [done|]. by apply core_parents. }
  split; [split; [done|split| |done|]|].
  - intros h n' Hn' _ Hz Hnd. destruct (Hcore h n' Hn') as (n & Hn & -> & _).
    pose proof (gc_count _ _ _ Hgc h n Hn (Hnil h) Hz) as Hc. pose proof (refs_sub (dirties db) (dirties db') h Hkeep). rewrite occ_nil in *.
    assert (Hnd0 : disk_blobs db !! h = None); [|specialize (Hc Hnd0); lia].
    destruct (disk_blobs db !! h) as [b|] eqn:E; [|done]. destruct (Hdk h) as [? ?]; [by eexists|congruence].
  - intros p n' h Hn' _ Hwt. destruct (Hcore p n' Hn') as (n & Hn & _ & E1 & E2).
    destruct (gc_avail _ _ _ Hgc p n h Hn (Hnil p)) as [[Hin _]|?]; [unfold weight in *; by rewrite <- E1, <- E2| |right; by apply Hdk].
    destruct (dirties db' !! h) as [x|] eqn:Hx; [left; split; [by eexists|done]|right; by apply Hgone].
  - intros p n' h Hn' Hh. destruct (Hcore p n' Hn') as (n & Hn & _ & E1 & _). rewrite E1 in Hh. by eapply (gc_acyclic _ _ _ Hgc).
  - intros h n' Hn'. destruct (Hcore h n' Hn') as (n & Hn & -> & _). by eapply (gc_range _ _ _ Hgc).
  - intros p n' h Hn' Hz Hexc Hh. destruct (Hcore p n' Hn') as (n & Hn & _ & -> & _).
    destruct (Hcom p n h Hn Hz Hexc Hh); [by left|right; by apply Hdk].
  - eapply sorted_impl; [|by eapply sorted_sublist]. intros l1 x l2 y _ _ Hxy n' Hn' Hy.
    destruct (Hcore x n' Hn') as (n & Hn & _ & E1 & _). rewrite E1 in Hy. apply Hdk. by eapply Hxy.
  - intros h. destruct (flush_lookup _ _ _ zeroHash (ok_flush _ _ _ Hok')) as [m' Hm']; [by left|].
    destruct (Hcore _ _ Hm') as (m & Hm & _ & _ & E). unfold root_refs. rewrite Hm, Hm'. cbn. by rewrite E.
Qed.

Lemma Cap_whole limit db l :
  whole db l [] → ∃ db' l' err, Cap limit db = TOk (db', err) ∧ whole db' l' [] ∧ blobs db' = blobs db ∧
    disk_blobs db ⊆ disk_blobs db' ∧ ∀ h, root_refs db' h = root_refs db h.
Proof.
  intros Hw. destruct (Cap_ok K limit db l (w_ok _ _ _ Hw) (w_closed _ _ _ Hw) (whole_ordered _ _ Hw))
    as (db' & l' & err & E & Hok & Hev & Hcl).
  exists db', l', err. destruct (whole_evict _ _ _ _ Hw Hok Hev Hcl). split_and!; [done..|apply Hev|apply Hev|done].
Qed.

(** *** Commit *)

(** A batch of nodes that the database holds. *)
Definition node_batch db (b : Batch) : Prop := Forall (λ kv, blobs db !! kv.1 = Some kv.2) b.

Lemma node_batch_ok db b : node_batch db b → batch_ok db b.
Proof. intros Hb. eapply Forall_impl; [exact Hb|]. by right. Qed.

Lemma node_batch_blobs db db' b : blobs db' = blobs db → node_batch db b → node_batch db' b.
Proof. intros E. unfold node_batch. by rewrite E. Qed.

Lemma disk_blob db l dead h b : db_ok db l dead → blobs db !! h = Some b → is_Some (disk_blobs db !! h) → disk_blobs db !! h = Some b.
Proof.
  intros Hok Hb [b' Hd]. apply blobs_lookup in Hb as [(r & Hr & ->)|[_ ?]]; [|done]. by rewrite Hd, (ok_agree _ _ _ Hok _ _ _ Hr Hd).
Qed.

Lemma deletes_lookup (b : Batch) (m : gmap bytes cachedNode) h :
  foldl (λ m kv, base.delete kv.1 m) m b !! h = if decide (h ∈ b.*1) then None else m !! h.
Proof.
  revert m. induction b as [|kv b IH]; intros m; cbn [foldl fmap list_fmap]; [done|]. rewrite IH.
  destruct (decide (h = kv.1)) as [->|Hne].
  - rewrite lookup_delete_eq. rewrite (decide_True (P := kv.1 ∈ kv.1 :: b.*1)) by (by left). by case_decide.
  - rewrite lookup_delete_ne by done. destruct (decide (h ∈ b.*1)); [rewrite decide_True by (by right); done|].
    rewrite decide_False; [done|]. by intros [?|?]%elem_of_cons.
Qed.

Lemma with_disk_evicted db l disk :
  blobs (with_disk db disk) = blobs db → disk_blobs db ⊆ disk_blobs (with_disk db disk) → evicted db (with_disk db disk) l l.
Proof. intros Eb Hs. apply moved_evicted. split; [by exists disk|done..]. Qed.

(** A batch of nodes, closed under references, is written and replayed. *)
Lemma write_replay db l b err disk :
  whole db l [] → node_batch db b → closed K db b → batch_Write b (diskdb db) = (err, disk) →
  match err with
  | Some _ => whole (with_disk db disk) l [] ∧ evicted db (with_disk db disk) l l
  | None => ∃ db' l', replay b (with_disk db disk) = TOk db' ∧ whole db' l' [] ∧ evicted db db' l l' ∧
      (∀ h, written db b h → is_Some (disk_blobs db' !! h))
  end.
Proof.
  intros Hw Hb Hcl Ew. destruct (batch_Write_ok db l [] b err disk (w_ok _ _ _ Hw) (node_batch_ok _ _ Hb) Ew) as (Hok1 & Eb1 & Hs1 & Hin1).
  set (db1 := with_disk db disk) in *. pose proof (with_disk_evicted db l disk Eb1 Hs1) as Hev1. fold db1 in Hev1.
  destruct err as [e|].
  { split; [|done]. eapply whole_evict; [done..|]. intros p h. rewrite !written_nil, Hin1, <- !written_nil. apply (w_closed _ _ _ Hw). }
  assert (Hdk : Forall (λ kv, disk_blobs db1 !! kv.1 = Some kv.2) b).
  { apply Forall_forall. intros [k v] Hkv. unfold node_batch in Hb. rewrite Forall_forall in Hb. pose proof (Hb _ Hkv) as Hkb. cbn in *.
    eapply disk_blob; [done|by rewrite Eb1|]. apply Hin1. right. split; [|by exists v].
    destruct (blobs_key _ _ _ _ _ (w_ok _ _ _ Hw) Hkb) as [-> _]. apply Keccak256_length. }
  destruct (replay_ok b db1 l Hok1 Hdk) as (db2 & l2 & E2 & Hok2 & Eb2 & Ed2 & _ & Hs2 & Hl2).
  assert (Edk : disk_blobs db2 = disk_blobs db1) by (unfold disk_blobs; by rewrite Ed2).
  assert (Hcl2 : disk_closed K db2) by (intros p h; rewrite !written_nil, !Edk, !Hin1; apply Hcl).
  assert (Hev2 : evicted db1 db2 l l2).
  { split; [done|by rewrite Edk| | |done].
    - intros h n' Hn'. destruct (same_core_lookup_l _ _ _ _ Hs2 Hn') as (n & Hn & Ec). rewrite deletes_lookup in Hn.
      case_decide; [done|]. by exists n.
    - intros h Hin Hnone. rewrite Edk. apply (f_equal (lookup h)) in Hs2. rewrite !lookup_fmap, Hnone, deletes_lookup in Hs2.
      case_decide as Hx; [|destruct Hin as [n Hn]; by rewrite Hn in Hs2]. apply list_elem_of_fmap in Hx as (kv & -> & Hkv).
      rewrite Forall_forall in Hdk. by eexists; apply Hdk. }
  pose proof (evicted_trans _ _ _ _ _ _ Hev1 Hev2) as Hev. exists db2, l2. split_and!; [done|by eapply whole_evict|done|].
  intros h Hh. rewrite Edk. by apply Hin1.
Qed.

(** What committing the nodes [hs] does. *)
Definition commit_result db l (b : Batch) (hs : list bytes) (r : tres (Batch * Database (C := C) * option error)) : Prop :=
  ∃ b' db' l' err, r = TOk (b', db', err) ∧ whole db' l' [] ∧ evicted db db' l l' ∧ node_batch db' b' ∧
    (err = None → closed K db' b' ∧ (∀ h, written db b h → written db' b' h) ∧ ∀ h, h ∈ hs → written db' b' h).

(** The nodes in memory that a node may depend on. *)
Definition beneath db (h : bytes) : gset bytes := filter (λ x, rank x <= rank h)%nat (dom (dirties db)).

Lemma evicted_avail db db' l l' h : evicted db db' l l' → avail db [] h → avail db' [] h.
Proof.
  intros [_ Hg _ Hn _] [[Hin ?]|Hd]; [|right; by eapply lookup_weaken_is_Some].
  destruct (dirties db' !! h) eqn:E; [left; split; [by eexists|done]|right; by apply Hn].
Qed.

Lemma evicted_dom db db' l l' : evicted db db' l l' → dom (dirties db') ⊆ dom (dirties db).
Proof. intros Hev h [n Hn]%elem_of_dom. destruct (ev_keep _ _ _ _ Hev h n Hn) as (n0 & Hn0 & _). apply elem_of_dom. by eexists. Qed.

Lemma beneath_evicted db db' l l' h : evicted db db' l l' → (size (beneath db' h) ≤ size (beneath db h))%nat.
Proof. intros Hev. apply subseteq_size. unfold beneath. pose proof (evicted_dom _ _ _ _ Hev). set_solver. Qed.

Lemma beneath_child db p c : is_Some (dirties db !! p) → (rank c < rank p)%nat → (size (beneath db c) < size (beneath db p))%nat.
Proof.
  intros Hp Hr. apply subset_size. unfold beneath. split.
  - intros x. rewrite !elem_of_filter. intros [? ?]. split; [lia|done].
  - intros Hs. assert (p ∈ filter (λ x, rank x <= rank c)%nat (dom (dirties db))) as [? _]%elem_of_filter; [|lia].
    apply Hs, elem_of_filter. split; [lia|]. by apply elem_of_dom.
Qed.

Definition commit_ok (f : bytes → Batch → Database (C := C) → tres (Batch * Database (C := C) * option error)) (fuel : nat) : Prop :=
  ∀ h b db l, whole db l [] → node_batch db b → closed K db b → h ≠ zeroHash → avail db [] h → (size (beneath db h) < fuel)%nat →
    commit_result db l b [h] (f h b db).

Lemma commit_loop f fuel ks b db l :
  commit_ok f fuel → whole db l [] → node_batch db b → closed K db b →
  (∀ c, c ∈ ks → c ≠ zeroHash ∧ avail db [] c ∧ (size (beneath db c) < fuel)%nat) →
  commit_result db l b ks
    (foldl (λ r child, '(batch, db, err) ← r; match err with Some e => TOk (batch, db, Some e) | None => f child batch db end)
       (TOk (b, db, None)) ks).
Proof.
  intros Hf. revert b db l. induction ks as [|k ks IH]; intros b db l Hw Hb Hcl Hks; cbn [foldl mbind tres_bind].
  - exists b, db, l, None. split_and!; [done|done|apply moved_evicted, moved_refl|done|]. intros _. split_and!; try done. by intros h ?%elem_of_nil.
  - destruct (Hks k) as (Hz & Hav & Hsz); [by left|].
    destruct (Hf k b db l Hw Hb Hcl Hz Hav Hsz) as (b1 & db1 & l1 & err1 & -> & Hw1 & Hev1 & Hb1 & Hp1). destruct err1 as [e|].
    + exists b1, db1, l1, (Some e). split_and!; try done. clear. induction ks as [|k ks IH]; [done|]. cbn [foldl mbind tres_bind]. apply IH.
    + destruct (Hp1 eq_refl) as (Hcl1 & Hwr1 & Hk1).
      destruct (IH b1 db1 l1 Hw1 Hb1 Hcl1) as (b2 & db2 & l2 & err2 & -> & Hw2 & Hev2 & Hb2 & Hp2).
      { intros c Hc. destruct (Hks c) as (? & ? & ?); [by right|]. pose proof (beneath_evicted _ _ _ _ c Hev1).
        split_and!; [done|by eapply evicted_avail|lia]. }
      exists b2, db2, l2, err2. split_and!; [done|done|by eapply evicted_trans|done|]. intros E. destruct (Hp2 E) as (Hcl2 & Hwr2 & Hk2).
      split_and!; [done|auto|]. intros h [->|?]%elem_of_cons; [|by apply Hk2]. apply Hwr2, Hk1. by left.
Qed.

Lemma commit_spec fuel : commit_ok (commit fuel) fuel.
Proof.
  induction fuel as [|fuel IH]; intros h b db l Hw Hb Hcl Hz Hav Hsz; [lia|]. cbn [commit].
  destruct (dirties db !! h) as [n|] eqn:Hn.
  2:{ exists b, db, l, None. split_and!; [done|done|apply moved_evicted, moved_refl|done|]. intros _. split_and!; try done.
      intros x ->%list_elem_of_singleton. left. destruct Hav as [[[? ?] _]|?]; [congruence|done]. }
  assert (Hbl : blobs db !! h = Some (raw_blob (cn_node n))) by (apply blobs_lookup; left; exists (cn_node n); split; [apply nodes_dirty; eauto|done]).
  destruct (commit_loop (commit fuel) fuel (forChilds n) b db l IH Hw Hb Hcl) as (b1 & db1 & l1 & err1 & -> & Hw1 & Hev1 & Hb1 & Hp1).
  { intros c Hc. destruct (gc_acyclic _ _ _ (w_gc _ _ _ Hw) h n c Hn Hc) as [Hcz Hrk]. split_and!; [done| |].
    - apply (gc_avail _ _ _ (w_gc _ _ _ Hw) h n c Hn); [by intros ?%elem_of_nil|]. unfold weight. rewrite decide_False by done. by apply occ_elem.
    - pose proof (beneath_child db h c (mk_is_Some _ _ Hn) (Hrk Hz)). lia. }
  cbn [mbind tres_bind]. destruct err1 as [e|]; [by exists b1, db1, l1, (Some e)|].
  destruct (Hp1 eq_refl) as (Hcl1 & Hwr1 & Hk1). rewrite <- (ev_blobs _ _ _ _ Hev1) in Hbl. set (b2 := b1 ++ [(h, cachedNode_rlp n)]).
  assert (Hlen : length h = 32%nat) by (destruct (blobs_key _ _ _ _ _ (w_ok _ _ _ Hw1) Hbl) as [-> _]; apply Keccak256_length).
  assert (Hb2 : node_batch db1 b2) by (apply Forall_app; by split; [|constructor]).
  assert (Hcl2 : closed K db1 b2).
  { apply closed_snoc; [done..|]. intros x Hx. destruct (w_complete _ _ _ Hw h n x Hn Hz) as [?|?]; [by intros ?%elem_of_nil|done|by apply Hk1|].
    apply Hwr1. by left. }
  assert (Hwr2 : ∀ x, x ∈ [h] → written db1 b2 x).
  { intros x ->%list_elem_of_singleton. right. split; [done|]. eexists. apply elem_of_app. right. by left. }
  destruct (IdealBatchSize <=? ValueSize b2).
  - destruct (batch_Write b2 (diskdb db1)) as [err disk] eqn:Ew. pose proof (write_replay db1 l1 b2 err disk Hw1 Hb2 Hcl2 Ew) as Hr.
    destruct err as [e|].
    + destruct Hr as [Hw3 Hev3]. exists b2, (with_disk db1 disk), l1, (Some e). split_and!; [done..|by eapply evicted_trans| |done].
      eapply node_batch_blobs; [apply Hev3|done].
    + destruct Hr as (db3 & l3 & -> & Hw3 & Hev3 & Hd3). exists [], db3, l3, None. split_and!; [done|done|by eapply evicted_trans|constructor|].
      intros _. split; [exact (w_closed _ _ _ Hw3)|]. split; intros x Hx; left; apply Hd3; [by apply written_app, Hwr1|by apply Hwr2].
  - exists b2, db1, l1, None. split_and!; [done..|]. intros _. split; [done|]. split; [|done]. intros x Hx. by apply written_app, Hwr1.
Qed.

Lemma with_preimages_ok db l dead sz : db_ok db l dead → db_ok (with_preimages db ∅ sz) l dead.
Proof. intros [[] Hn Hd Ha Hc Hp]. split; try done. Qed.

Lemma whole_preimages db l sz : whole db l [] → whole (with_preimages db ∅ sz) l [].
Proof.
  intros Hw. refine (proj1 (whole_evict db _ l l _ _ _ _)); [done|by apply with_preimages_ok, Hw| |exact (w_closed _ _ _ Hw)].
  destruct (moved_evicted _ _ l (moved_refl db)). by split.
Qed.

(** The first part of [Commit]: the preimages. *)
Lemma commit_preimages db l b db' err :
  whole db l [] → put_preimages (map_to_list (preimages db)) [] db = (b, db', err) →
  whole db' l [] ∧ evicted db db' l l ∧
  (∀ err' disk, batch_Write b (diskdb db') = (err', disk) → whole (with_disk db' disk) l [] ∧ evicted db' (with_disk db' disk) l l).
Proof.
  intros Hw E. pose proof (w_ok _ _ _ Hw) as Hok.
  destruct (put_preimages_ok (map_to_list (preimages db)) [] db l [] b db' err) as ([Hok' Hb'] & Hm & Hpb & Hd);
    [by split; [|constructor]|by constructor|by eapply preimages_length|done|].
  pose proof (moved_evicted _ _ l Hm) as Hev.
  assert (Hw' : whole db' l []).
  { eapply whole_evict; [done..|]. intros p h. rewrite !written_nil, !Hd, <- !written_nil. apply (w_closed _ _ _ Hw). }
  split_and!; [done..|]. intros err' disk Ew. destruct (batch_Write_ok db' l [] b err' disk Hok' Hb' Ew) as (Hok2 & Eb2 & Hs2 & Hin2).
  pose proof (with_disk_evicted db' l disk Eb2 Hs2) as Hev2. split; [|done]. eapply whole_evict; [done..|].
  intros p h. rewrite !written_nil. assert (Hx : ∀ x, is_Some (disk_blobs (with_disk db' disk) !! x) ↔ is_Some (disk_blobs db' !! x)).
  { intros x. destruct err'; [by rewrite Hin2|]. rewrite Hin2. exact (written_preimages db' b x Hpb). }
  rewrite !Hx, <- !written_nil. apply (w_closed _ _ _ Hw').
Qed.

(** [Commit] keeps what the database holds; when it succeeds, the node is on disk. *)
Lemma Commit_whole h db l :
  whole db l [] → h ≠ zeroHash → avail db [] h →
  ∃ db' l' err, DB_Commit h db = TOk (db', err) ∧ whole db' l' [] ∧ evicted db db' l l' ∧
    (err = None → is_Some (disk_blobs db' !! h)).
Proof.
  intros Hw Hz Hav. unfold DB_Commit. destruct (put_preimages _ [] db) as [[b1 db1] err1] eqn:E1.
  destruct (commit_preimages db l b1 db1 err1 Hw E1) as (Hw1 & Hev1 & H2). destruct err1 as [e|]; [by exists db1, l, (Some e)|].
  destruct (batch_Write b1 (diskdb db1)) as [err2 disk2]. destruct (H2 err2 disk2 eq_refl) as [Hw2 Hev2].
  pose proof (evicted_trans _ _ _ _ _ _ Hev1 Hev2) as Hev12. set (db2 := with_disk db1 disk2) in *.
  destruct err2 as [e|]; [by exists db2, l, (Some e)|].
  destruct (commit_spec (S (size (dirties db2))) h [] db2 l Hw2) as (b3 & db3 & l3 & err3 & -> & Hw3 & Hev3 & Hb3 & Hp3);
    [constructor|exact (w_closed _ _ _ Hw2)|done|by eapply evicted_avail| |].
  { rewrite <- size_dom. apply Nat.lt_succ_r, subseteq_size. unfold beneath. set_solver. }
  pose proof (evicted_trans _ _ _ _ _ _ Hev12 Hev3) as Hev13. cbn [mbind tres_bind].
  destruct err3 as [e|]; [by exists db3, l3, (Some e)|]. destruct (Hp3 eq_refl) as (Hcl3 & _ & Hh3).
  destruct (batch_Write b3 (diskdb db3)) as [err4 disk4] eqn:E4. pose proof (write_replay db3 l3 b3 err4 disk4 Hw3 Hb3 Hcl3 E4) as Hr.
  destruct err4 as [e|].
  - destruct Hr as [Hw4 Hev4]. exists (with_disk db3 disk4), l3, (Some e). split_and!; [done..|by eapply evicted_trans|done].
  - destruct Hr as (db5 & l5 & -> & Hw5 & Hev5 & Hd5). cbn [mbind tres_bind]. exists (with_preimages db5 ∅ 0), l5, None.
    split_and!; [done|by apply whole_preimages| |intros _; apply Hd5, Hh3; by left].
    eapply evicted_trans; [by eapply evicted_trans|]. destruct (moved_evicted _ _ l5 (moved_refl db5)). by split.
Qed.

(** ** Reachability *)

(** The nodes that can be reached through references. *)
Inductive reach : bytes → bytes → Prop :=
  | reach_refl h : reach h h
  | reach_step p c h : c ∈ K p → reach c h → reach p h.

Lemma disk_reach db l p h : whole db l [] → is_Some (disk_blobs db !! p) → reach p h → is_Some (disk_blobs db !! h).
Proof.
  intros Hw Hp Hr. revert Hp. induction Hr as [|p c h Hc Hr IH]; intros Hp; [done|]. apply IH.
  apply written_nil. apply (w_closed _ _ _ Hw p); [by apply written_nil|done].
Qed.

Lemma avail_reach db l p h : whole db l [] → p ≠ zeroHash → avail db [] p → reach p h → h ≠ zeroHash ∧ avail db [] h.
Proof.
  intros Hw Hz Hp Hr. revert Hz Hp. induction Hr as [|p c h Hc Hr IH]; intros Hz Hp; [done|].
  assert (Hdisk : ∀ x, is_Some (disk_blobs db !! x) → x ≠ zeroHash).
  { intros x [b Hb]. by apply disk_lookup in Hb as (_ & _ & ?). }
  assert (Hcd : is_Some (disk_blobs db !! c) → c ≠ zeroHash ∧ avail db [] c) by (intros Hd; split; [by apply Hdisk|by right]).
  assert (Hcc : c ≠ zeroHash ∧ avail db [] c); [|destruct Hcc; by apply IH]. destruct Hp as [[[n Hn] _]|Hp].
  - destruct (w_complete _ _ _ Hw p n c Hn Hz) as [Hin|Hd]; [by intros ?%elem_of_nil|done| |by apply Hcd].
    destruct (gc_acyclic _ _ _ (w_gc _ _ _ Hw) p n c Hn Hin) as [? _]. split; [done|].
    apply (gc_avail _ _ _ (w_gc _ _ _ Hw) p n c Hn); [by intros ?%elem_of_nil|]. unfold weight. rewrite decide_False by done. by apply occ_elem.
  - apply Hcd, (disk_reach db l p); [done..|]. eapply reach_step; [done|apply reach_refl].
Qed.

Lemma avail_blob db l h : whole db l [] → h ≠ zeroHash → avail db [] h → is_Some (blobs db !! h).
Proof.
  intros Hw Hz Hav. unfold blobs. destruct (nodes db !! h) as [r|] eqn:Hr.
  - exists (raw_blob r). apply lookup_union_Some_l. by rewrite lookup_fmap, Hr.
  - rewrite lookup_union_r by (by rewrite lookup_fmap, Hr). destruct Hav as [[[n Hn] _]|?]; [|done].
    by rewrite (proj2 (nodes_dirty db h (cn_node n))) in Hr by eauto.
Qed.

(** A root that is referenced, and all that can be reached from it, is there. *)
Lemma root_reach db l root h :
  whole db l [] → root ≠ zeroHash → 0 < root_refs db root → reach root h → is_Some (blobs db !! h).
Proof.
  intros Hw Hz Hroot Hr. assert (Hav : avail db [] root).
  { destruct (flush_lookup _ _ _ zeroHash (ok_flush _ _ _ (w_ok _ _ _ Hw))) as [m Hm]; [by left|].
    apply (gc_avail _ _ _ (w_gc _ _ _ Hw) zeroHash m root Hm); [by intros ?%elem_of_nil|]. rewrite (root_weight _ _ _ Hm). lia. }
  destruct (avail_reach db l root h Hw Hz Hav Hr). by eapply avail_blob.
Qed.
End GC.
