(* ===== verification/TrieEvents.v ===== *)
(** * The node database over time

    The operations that the chain performs on the node database of l2geth/trie/database.go,
    in any order: nodes are stored with their references, roots are referenced and
    dereferenced, the memory is capped and states are committed to disk, while writes to
    the disk may fail.  No operation panics; a root that is referenced more often than it is
    dereferenced can be read completely; what is on disk is complete at all times, so that
    a crash leaves every state on disk usable. *)

From S2P Require Import Prelude GoErrors EthTypes Extern RLP TrieEncoding Trie TrieNode TrieHash TrieRoot TrieDB TrieStore TrieGC.

Section Events.
Context `{!Keccak} {C : Type} `{!Fastcache C}.
Implicit Types db : Database (C := C).
Context (rank : bytes → nat) (K : bytes → list bytes).

(** ** Events *)

Inductive event :=
| Store (hash blob : bytes) (r : raw) (ext : list bytes)
| Ref (root : bytes)
| Deref (root : bytes)
| Read (hash : bytes)
| CapTo (limit : Z)
| CommitTo (node : bytes).

(** The error of a failed write goes to the caller, which may go on. *)
Definition perform (e : event) (db : Database (C := C)) : tres (Database (C := C)) :=
  match e with
  | Store hash blob r ext => store_entry hash blob r ext db
  | Ref root => Reference root zeroHash db
  | Deref root => Dereference root db
  | Read hash => TOk (fst (node db hash))
  | CapTo limit => '(db, _) ← Cap limit db; TOk db
  | CommitTo node => '(db, _) ← DB_Commit node db; TOk db
  end.

(** How often each root is referenced. *)
Definition balance (e : event) (bal : bytes → Z) : bytes → Z := λ h,
  match e with
  | Ref root => if decide (h = root) then bal h + 1 else bal h
  | Deref root => if decide (h = root) then bal h - 1 else bal h
  | _ => bal h
  end.

(** What the caller sees to.  The references of a hash are those of [K], whoever stores it
    ([storable]): this leaves out a contract code that is equal to the encoding of a trie
    node with children, with which the database goes wrong, see [code_hides_children]. *)
Definition guard (e : event) (bal : bytes → Z) (db : Database (C := C)) : Prop :=
  match e with
  | Store hash blob r ext => storable rank K db hash r ext
  | Ref root => root ≠ zeroHash ∧ avail db [] root ∧ bal root < 2 ^ 16 - 1 ∧
      ∀ n, dirties db !! root = Some n → cn_parents n + 1 < 2 ^ 32
  | Deref root => root ≠ zeroHash ∧ 0 < bal root
  | Read hash => length hash = 32%nat
  | CapTo _ => True
  | CommitTo node => node ≠ zeroHash ∧ avail db [] node
  end.

(** The states that can be reached from an empty database, with a disk whose writes fail
    as [faults] says. *)
Inductive reached : (bytes → Z) → Database (C := C) → Prop :=
| reached_new faults cache :
    (∀ c h, cache = Some c → fc_Get c h = None) → reached (λ _, 0) (NewDatabase (mkKV ∅ faults) cache)
| reached_step bal db e db' :
    reached bal db → guard e bal db → perform e db = TOk db' → reached (balance e bal) db'.

(** ** The invariant *)

Record steady (bal : bytes → Z) db : Prop := {
  sd_whole : ∃ l, whole rank K db l [];
  sd_refs h : 0 <= root_refs db h <= bal h;
  sd_held h : bal h <= root_refs db h ∨ is_Some (disk_blobs db !! h) }.

Lemma steady_new faults cache : (∀ c h, cache = Some c → fc_Get c h = None) → steady (λ _, 0) (NewDatabase (mkKV ∅ faults) cache).
Proof.
  intros Hcache. set (db := NewDatabase (mkKV ∅ faults) cache).
  assert (Ed : disk_blobs db = ∅) by apply map_filter_empty. assert (Hz : ∀ h n, dirties db !! h = Some n →
    h = zeroHash ∧ n = mkCached rawNil 0 0 (Some ∅) zeroHash zeroHash) by (intros h n Hn; unfold db in Hn; cbn [dirties NewDatabase] in Hn; apply lookup_singleton_Some in Hn as [<- <-]; done).
  assert (Er : ∀ h, root_refs db h = 0).
  { intros h. unfold root_refs. replace (dirties db !! zeroHash) with (Some (mkCached rawNil 0 0 (Some ∅) zeroHash zeroHash)); [done|].
    symmetry. apply lookup_singleton_eq. }
  assert (Hkids : ∀ h n x, dirties db !! h = Some n → x ∉ forChilds n).
  { intros h n x [_ ->]%Hz. unfold forChilds. cbn [cn_children cn_node forGatherChildren]. rewrite map_to_list_empty. by intros ?%elem_of_nil. }
  assert (En : nodes db = ∅) by (unfold nodes, db; cbn [dirties NewDatabase]; rewrite map_fmap_singleton; apply delete_singleton_eq).
  split; [exists []|by intros h; rewrite Er|by intros h; left; rewrite Er].
  split; [split| | | |].
  - split; [repeat constructor; by intros ?%elem_of_nil| |done|done|done].
    intros h. unfold db. cbn [dirties NewDatabase app]. rewrite lookup_singleton_is_Some, list_elem_of_singleton. done.
  - by rewrite En.
  - by rewrite Ed.
  - by rewrite En.
  - intros h b. unfold clean_Get. cbn. destruct cache as [c|]; [|done]. cbn. by rewrite (Hcache c h eq_refl).
  - done.
  - split.
    + intros h n [-> _]%Hz _ []. done.
    + intros p n h [-> ->]%Hz _. unfold weight. rewrite decide_True by done. cbn [cn_children default from_option id]. rewrite lookup_empty. cbn. lia.
    + intros p n h Hn Hin. by destruct (Hkids p n h Hn).
    + by intros h n [_ ->]%Hz.
  - intros p n h [-> _]%Hz []. done.
  - intros p h. rewrite !written_nil, Ed. by intros [b Hb].
  - constructor.
Qed.

Lemma steady_evict bal db db' l l' :
  steady bal db → whole rank K db' l' [] → evicted db db' l l' → (∀ h, root_refs db' h = root_refs db h) → steady bal db'.
Proof.
  intros [_ Hr Hh] Hw Hev Er. split; [by exists l'|intros h; by rewrite Er|].
  intros h. rewrite Er. destruct (Hh h); [by left|right]. eapply lookup_weaken_is_Some; [done|apply Hev].
Qed.

(** Reading fills the clean cache only. *)
Lemma steady_read bal db h : steady bal db → length h = 32%nat → steady bal (fst (node db h)).
Proof.
  intros [[l Hw] Hr Hh] Hlen. destruct (node_ok db l [] h (w_ok _ _ _ _ _ Hw) Hlen) as [Hok Eb].
  assert (E : dirties (fst (node db h)) = dirties db ∧ diskdb (fst (node db h)) = diskdb db).
  { unfold node, clean_Set. destruct (clean_Get db h); [done|]. destruct (dirties db !! h); [done|].
    destruct (kv_data (diskdb db) !! h); [|done]. by destruct (cleans db). }
  destruct E as [Ed Ek]. assert (Edk : disk_blobs (fst (node db h)) = disk_blobs db) by (unfold disk_blobs; by rewrite Ek).
  assert (Hev : evicted db (fst (node db h)) l l).
  { split; [done|by rewrite Edk|rewrite Ed; eauto| |done]. intros x [n Hn] Hx. by rewrite Ed, Hn in Hx. }
  destruct (whole_evict rank K _ _ _ _ Hw Hok Hev) as [Hw' Er].
  { intros p x. rewrite !written_nil, Edk, <- !written_nil. apply (w_closed _ _ _ _ _ Hw). }
  split; [by exists l|intros x; by rewrite Er|intros x; by rewrite Er, Edk].
Qed.

(** Every event that the caller may perform succeeds and keeps the invariant. *)
Lemma steady_step bal db e : steady bal db → guard e bal db → ∃ db', perform e db = TOk db' ∧ steady (balance e bal) db'.
Proof.
  intros Hs Hg. pose proof Hs as [[l Hw] Hr Hh]. destruct e as [hash blob r ext|root|root|hash|limit|node]; cbn [perform guard balance] in *.
  - destruct (store_entry_ok rank K db l hash blob r ext Hw Hg) as (db' & l' & -> & Hw' & _ & Ed & Er).
    exists db'. split; [done|]. split; [by exists l'|intros h; by rewrite Er|]. intros h. rewrite Er. unfold disk_blobs. by rewrite Ed.
  - destruct Hg as (Hz & Hav & Hlt & Hroom). destruct (dirties db !! root) as [n|] eqn:Hn.
    + destruct (Reference_root_ok rank K root db l Hw Hz) as (db' & -> & Hw' & _ & Ed & Er); [specialize (Hr root); lia|by rewrite Hn|by eexists|].
      exists db'. split; [done|]. split; [by exists l| |]; intros h; unfold balance; rewrite Er; specialize (Hr h); specialize (Hh h); [case_decide; lia|].
      unfold disk_blobs in *. rewrite Ed. case_decide; destruct Hh; [left; lia|by right|left; lia|by right].
    + exists db. unfold Reference, reference. rewrite Hn. split; [done|]. split; [by exists l| |]; intros h; unfold balance; specialize (Hr h); specialize (Hh h).
      * case_decide; lia.
      * case_decide as Eh; [subst h; right|done]. destruct Hav as [[[? ?] _]|?]; [congruence|done].
  - destruct Hg as [Hz Hpos]. destruct (Dereference_ok rank K root db l Hw Hz) as (db' & l' & -> & Hw' & Ed & _ & Er).
    { destruct (Hh root) as [?|?]; [left; lia|right; by left]. }
    exists db'. split; [done|]. split; [by exists l'| |]; intros h; unfold balance; rewrite Er; specialize (Hr h); specialize (Hh h).
    + destruct (decide (h = root ∧ 0 < root_refs db root)) as [[Eh ?]|Hn], (decide (h = root)) as [Eh'|]; try tauto; rewrite ?Eh' in *; try lia; assert (¬ 0 < root_refs db root) by tauto; lia.
    + unfold disk_blobs in *. rewrite Ed. destruct Hh as [Hle|?]; [left|by right].
      destruct (decide (h = root ∧ 0 < root_refs db root)) as [[Eh ?]|Hn], (decide (h = root)) as [Eh'|]; try tauto; rewrite ?Eh' in *; try lia; assert (¬ 0 < root_refs db root) by tauto; lia.
  - exists (fst (node db hash)). split; [done|]. by apply steady_read.
  - destruct (Cap_ok K limit db l (w_ok _ _ _ _ _ Hw) (w_closed _ _ _ _ _ Hw) (whole_ordered rank K _ _ Hw)) as (db' & l' & err & -> & Hok & Hev & Hcl).
    destruct (whole_evict rank K _ _ _ _ Hw Hok Hev Hcl) as [Hw' Er]. exists db'. split; [done|]. by eapply steady_evict.
  - destruct Hg as [Hz Hav]. destruct (Commit_whole rank K node db l Hw Hz Hav) as (db' & l' & err & -> & Hw' & Hev & _).
    destruct (whole_evict rank K _ _ _ _ Hw (w_ok _ _ _ _ _ Hw') Hev (w_closed _ _ _ _ _ Hw')) as [_ Er].
    exists db'. split; [done|]. by eapply steady_evict.
Qed.

Lemma reached_steady bal db : reached bal db → steady bal db.
Proof.
  induction 1 as [faults cache Hc|bal db e db' _ IH Hg E]; [by apply steady_new|].
  destruct (steady_step bal db e IH Hg) as (db1 & E1 & Hs). rewrite E in E1. by injection E1 as ->.
Qed.

(** A root that is referenced can be read completely. *)
Lemma referenced_blob bal db root h :
  steady bal db → root ≠ zeroHash → 0 < bal root → reach K root h → is_Some (blobs db !! h).
Proof.
  intros [[l Hw] Hr Hh] Hz Hpos Hre. destruct (Hh root) as [Hle|Hd]; [eapply root_reach; [done..|lia|done]|].
  destruct (disk_reach rank K db l root h Hw Hd Hre) as [b Hb]. eapply avail_blob; [done| |right; by eexists].
  by apply disk_lookup in Hb as (_ & _ & ?).
Qed.

(** ** Tries in the database *)

(** The hashes in the blob of a trie. *)
Fixpoint ref_kids (t : ptrie) : list bytes :=
  let child c := if hashed c then [ref_hash c] else ref_kids c in
  match t with
  | PShort _ c => child c
  | PFull cs => concat (child <$> cs)
  | _ => []
  end.

(** The references in [K] have them. *)
Definition linked (t : ptrie) : Prop := ∀ h, h ∈ ref_kids t → h ∈ K (ref_hash t).
Definition trie_linked (t : ptrie) : Prop := linked t ∧ everywhere (λ s, hashed s = true → linked s) t.

Lemma kids_reach t p s :
  sub s t → (∀ h, h ∈ ref_kids t → h ∈ K p) → everywhere (λ s, hashed s = true → linked s) t →
  hashed s = true → s = t ∨ reach K p (ref_hash s).
Proof.
  intros Hs. revert p.
  assert (Hstep : ∀ c p s, (∀ p, (∀ h, h ∈ ref_kids c → h ∈ K p) → everywhere (λ s, hashed s = true → linked s) c →
      hashed s = true → s = c ∨ reach K p (ref_hash s)) →
    (∀ h, h ∈ (if hashed c then [ref_hash c] else ref_kids c) → h ∈ K p) → everywhere (λ s, hashed s = true → linked s) c →
    hashed s = true → reach K p (ref_hash s)).
  { intros c p s0 IH Hk Hl Hh. destruct (hashed c) eqn:Hc.
    - assert (Hcp : ref_hash c ∈ K p) by (apply Hk; by left). eapply reach_step; [exact Hcp|].
      destruct (IH (ref_hash c)) as [->|?]; [by apply (everywhere_here _ _ Hl)|done|done|apply reach_refl|done].
    - destruct (IH p Hk Hl Hh) as [->|?]; [congruence|done]. }
  induction Hs as [t|s k c Hs IH|s cs i c Hi Hs IH]; intros p Hk Hl Hh; [by left|right|right].
  - eapply Hstep; [exact IH|exact Hk|by eapply everywhere_short|done].
  - eapply Hstep; [exact IH| |by eapply everywhere_full|done]. intros h Hin. apply Hk. cbn [ref_kids]. apply list_elem_of_In, in_concat.
    eexists. split; [|by apply list_elem_of_In, Hin]. apply list_elem_of_In, list_elem_of_fmap. exists c. split; [done|]. by eapply list_elem_of_lookup_2.
Qed.

Lemma referenced_rooted U bal db t :
  steady bal db → coll_free U → blobs_in U db → covers U t → is_node t = true → trie_linked t → 0 < bal (ref_hash t) →
  rooted (blobs db) t.
Proof.
  intros Hs HU HB Hcov Hn [Hl Hls] Hpos. pose proof (everywhere_here _ _ Hcov Hn) as Ht.
  assert (Hat : ∀ s, U (ref_enc s) → reach K (ref_hash t) (ref_hash s) → blobs db !! ref_hash s = Some (ref_enc s)).
  { intros s Hu Hr. destruct (referenced_blob bal db (ref_hash t) (ref_hash s) Hs (hash_nonzero _ HU _ Ht) Hpos Hr) as [b Hb].
    rewrite Hb. f_equal. destruct (sd_whole _ _ Hs) as [l Hw]. apply (hash_unique _ HU); [by apply (HB (ref_hash s))|done|].
    by destruct (blobs_key _ _ _ _ _ (w_ok _ _ _ _ _ Hw) Hb) as [<- _]. }
  split; [apply Hat; [done|apply reach_refl]|]. intros s Hsub Hh.
  pose proof (Hcov s Hsub) as Hus. unfold hashed in Hh. pose proof Hh as [Hns _]%andb_prop. apply Hat; [by apply Hus|].
  destruct (kids_reach t (ref_hash t) s Hsub Hl Hls Hh) as [->|?]; [apply reach_refl|done].
Qed.

(** ** What holds at all times *)

(** C10. Take any sequence of operations on the node database -- storing nodes with their
    references, referencing and dereferencing roots, reading, capping the memory and
    committing, with disk writes that fail at any time -- in which every hash has one fixed
    set of references that each store of it brings along, with all of them stored before
    (so no contract code is equal to the encoding of a node with children), the blob stored
    under a hash is always the same and has that hash, only available roots other than the
    zero hash are referenced (each fewer than 65535 times more often than dereferenced) or
    committed, only referenced roots are dereferenced, and the counters of parents stay
    below 2^32.  Then the next such operation does not panic; every node that can be
    reached from a root that was referenced more often than dereferenced is returned by
    [Node], and its hash is the one asked for; and the nodes on disk are closed under
    references, so that a crash leaves no dangling hash.  (A contract whose code is the
    encoding of a node with children breaks the last: [code_hides_children].) *)
Theorem node_db_safe bal db :
  reached bal db →
  (∀ e, guard e bal db → ∃ db', perform e db = TOk db') ∧
  (∀ root h, root ≠ zeroHash → 0 < bal root → reach K root h → ∃ b, snd (Node db h) = Some b ∧ h = Keccak256 b) ∧
  (∀ p h, is_Some (disk_blobs db !! p) → reach K p h → is_Some (disk_blobs db !! h)).
Proof.
  intros Hr%reached_steady. pose proof (sd_whole _ _ Hr) as [l Hw]. split_and!.
  - intros e Hg. destruct (steady_step bal db e Hr Hg) as (db' & ? & _). by exists db'.
  - intros root h Hz Hpos Hre. destruct (referenced_blob bal db root h Hr Hz Hpos Hre) as [b Hb]. exists b.
    split; [by eapply Node_blob; [apply Hw|]|]. by destruct (blobs_key _ _ _ _ _ (w_ok _ _ _ _ _ Hw) Hb).
  - intros p h. by eapply disk_reach.
Qed.

(** C11. After a sequence of database operations that satisfy [guard] (a hash always
    stored with the same blob and the same references, all of them stored before; only
    available roots referenced or committed and only referenced ones dereferenced;
    counters that do not overflow), a state whose root was referenced more often than
    dereferenced can be opened from its root hash, and every key reads as the value of the
    map that was committed.  The references of the hashes of its nodes include the links of
    its trie; its keys are shorter than 2^31 and its values shorter than 2^32 bytes; no key
    with an empty value is extended by another key; its hash, if it is not empty, is
    neither zero nor that of the empty trie; and its nodes and the blobs of the database
    have no hash collision. *)
Theorem referenced_state_opens U bal db m h :
  reached bal db → coll_free U → blobs_in U db → map_ok m → map_covers U m → proper m → map_root m h →
  (∀ t, denotes t m → t = PNil ∨ trie_linked t) → h = emptyRoot ∨ 0 < bal h →
  ∃ root, New (db_node db) h = TOk root ∧ ∀ key, ∃ root', TryGet (db_node db) root key = TOk (m !! key, root').
Proof.
  intros Hr%reached_steady HU HB Hm Hcov Hp Hroot Hl Hpos. pose proof (sd_whole _ _ Hr) as [l Hw].
  assert (Hwf : db_wf db) by (exists l; apply Hw).
  destruct (New_spec db m h Hwf Hm) as (root & E & Hinv); [|done..|].
  - intros t Ht. destruct (denotes_good _ _ Ht Hm) as [->|Hg]; [by left|right]. destruct Hroot as (t' & Ht' & ->).
    rewrite (denotes_unique _ _ _ Ht' Ht), root_hash_good in Hpos by done. destruct Hpos as [E|Hpos].
    { destruct (Hp t Ht) as [->|[_ ?]]; [by destruct Hg|done]. }
    assert (Hn : is_node t = true) by (destruct Hg as [? _]; by destruct t).
    destruct (Hl t Ht) as [->|?]; [done|]. eapply referenced_rooted; try done. by apply Hcov.
  - exists root. split; [done|]. intros key. destruct (TryGet_spec _ _ _ root m key Hinv) as (root' & E' & _). by exists root'.
Qed.
End Events.

(** ** An example *)

Module Example.
#[local] Existing Instance example_keccak.
#[local] Program Instance example_cache : Fastcache (gmap bytes bytes) := {
  fc_Get c k := c !! k;
  fc_Set c k v := <[k := v]> c }.
Next Obligation. intros c k v k' v' [[-> ->]|[_ ?]]%lookup_insert_Some; auto. Qed.

(** A contract's code, and an account with that code as the only entry of the state. *)
Definition code : bytes := replicate 32 x01.
Definition key : bytes := [x61].
Definition account : bytes := replicate 40 x07.
Definition account2 : bytes := replicate 40 x08.
Definition leaf : ptrie := PShort (keybytesToHex key) (PValue account).
Definition state : gmap bytes bytes := {[ key := account ]}.
Definition codeHash : bytes := Eval vm_compute in Keccak256 code.
Definition stateRoot : bytes := Eval vm_compute in ref_hash leaf.

Definition K (h : bytes) : list bytes := if decide (h = stateRoot) then [codeHash] else [].
Definition rank (h : bytes) : nat := if decide (h = stateRoot) then 1 else 0.

(** The code and the leaf are stored, the root is referenced, a first write to disk fails
    and the next one succeeds. *)
Definition storeCode : event := Store codeHash code (rawNode code) [].
Definition storeLeaf : event := Store stateRoot (ref_enc leaf) (rawShortNode (HP (keybytesToHex key)) (rawValue account)) [codeHash].

Definition db0 : Database (C := gmap bytes bytes) := NewDatabase (mkKV ∅ [true]) (Some ∅).
Definition after (e : event) (db : Database (C := gmap bytes bytes)) : Database := match perform e db with TOk db => db | _ => db0 end.
Definition db1 := after storeCode db0.
Definition db2 := after storeLeaf db1.
Definition db3 := after (Ref stateRoot) db2.
Definition db4 := after (CapTo 0) db3.
Definition db5 := after (CapTo 0) db4.

Lemma after_ok e db : (if perform e db is TOk _ then true else false) = true → perform e db = TOk (after e db).
Proof. unfold after. by destruct (perform e db). Qed.

Lemma room_check (db : Database (C := gmap bytes bytes)) k :
  bool_decide (map_Forall (λ _ n, cn_parents n + Z.of_nat k < 2 ^ 32) (dirties db)) = true → room db k.
Proof. intros Hb%bool_decide_eq_true h n Hn. exact (Hb h n Hn). Qed.

Lemma storeCode_ok : guard rank K storeCode (λ _, 0) db0.
Proof.
  split; [by vm_compute|by split; [vm_compute|]| |by apply room_check; vm_compute| |].
  - intros b. replace (blobs db0 !! codeHash) with (@None bytes) by (by vm_compute). done.
  - intros h. unfold K. rewrite decide_False by (by vm_compute). split; [by intros ?%elem_of_nil|by intros [?%elem_of_nil|?%elem_of_nil]].
  - intros h. unfold K. rewrite decide_False by (by vm_compute). by intros ?%elem_of_nil.
Qed.

Lemma in_memory (db : Database (C := gmap bytes bytes)) h : bool_decide (is_Some (dirties db !! h)) = true → avail db [] h.
Proof. intros Hb%bool_decide_eq_true. left. split; [done|by intros ?%elem_of_nil]. Qed.

Lemma storeLeaf_ok : guard rank K storeLeaf (λ _, 0) db1.
Proof.
  assert (EK : K stateRoot = [codeHash]) by (unfold K; by rewrite decide_True).
  split; [by vm_compute|split; by vm_compute| |by apply room_check; vm_compute| |].
  - intros b. replace (blobs db1 !! stateRoot) with (@None bytes) by (by vm_compute). done.
  - intros h. rewrite EK. cbn [forGatherChildren]. rewrite elem_of_nil. tauto.
  - intros h. rewrite EK. intros ->%list_elem_of_singleton. split_and!; [by vm_compute|vm_compute; lia|by apply in_memory; vm_compute].
Qed.

Definition owed : bytes → Z := balance (CapTo 0) (balance (CapTo 0) (balance (Ref stateRoot) (balance storeLeaf (balance storeCode (λ _, 0))))).

Lemma db5_reached : reached rank K owed db5.
Proof.
  assert (H0 : reached rank K (λ _, 0) db0) by (apply reached_new; by intros c h [= <-]).
  assert (H1 : reached rank K (balance storeCode (λ _, 0)) db1).
  { eapply reached_step; [exact H0|exact storeCode_ok|apply after_ok; by vm_compute]. }
  assert (H2 : reached rank K (balance storeLeaf (balance storeCode (λ _, 0))) db2).
  { eapply reached_step; [exact H1|exact storeLeaf_ok|apply after_ok; by vm_compute]. }
  assert (H3 : reached rank K (balance (Ref stateRoot) (balance storeLeaf (balance storeCode (λ _, 0)))) db3).
  { eapply reached_step; [exact H2| |apply after_ok; by vm_compute]. split_and!; [by vm_compute|by apply in_memory; vm_compute|by vm_compute|].
    assert (Hr : room db2 1) by (by apply room_check; vm_compute). intros n Hn. exact (Hr _ n Hn). }
  eapply reached_step; [eapply reached_step; [exact H3|done|]|done|]; apply after_ok; by vm_compute.
Qed.

Lemma node_db_safe_witness :
  (∃ b, snd (Node db5 codeHash) = Some b ∧ codeHash = Keccak256 b) ∧ is_Some (disk_blobs db5 !! codeHash).
Proof.
  destruct (node_db_safe rank K owed db5 db5_reached) as (_ & Hread & Hdisk).
  assert (Hr : reach K stateRoot codeHash).
  { eapply reach_step; [unfold K; rewrite decide_True by done; by left|apply reach_refl]. }
  split; [apply (Hread stateRoot); [by vm_compute|by vm_compute|exact Hr]|].
  apply (Hdisk stateRoot); [|exact Hr]. exists (ref_enc leaf). by vm_compute.
Defined.

(** *** The state *)

Definition U (b : bytes) : Prop := b ∈ [code; ref_enc leaf; ref_enc (PShort (keybytesToHex [x62]) (PValue account2))].

Lemma U_free : coll_free U.
Proof.
  split.
  - intros a b Ha Hb. unfold U in *. rewrite !elem_of_cons, elem_of_nil in Ha, Hb.
    destruct Ha as [->|[->|[->|[]]]], Hb as [->|[->|[->|[]]]];
      match goal with |- _ → ?x = ?x => intros; exact eq_refl | _ => intros E; exfalso; revert E; vm_compute; discriminate end.
  - intros a Ha. unfold U in *. rewrite !elem_of_cons, elem_of_nil in Ha. destruct Ha as [->|[->|[->|[]]]]; vm_compute; discriminate.
Qed.

Lemma single_ok k v : len k < 2 ^ 31 → len v < 2 ^ 32 → map_ok {[ k := v ]}.
Proof.
  intros Hk Hv. split; [by intros k' v' [<- <-]%lookup_singleton_Some|].
  by intros k1 k2 v' [<- _]%lookup_singleton_Some [<- _]%lookup_singleton_Some.
Qed.

Lemma single_trie k v t : denotes t {[ k := v ]} → t = PShort (keybytesToHex k) (PValue v).
Proof. intros Ht. eapply denotes_unique; [done|apply denotes_single]. Qed.

Lemma single_covers k v : U (ref_enc (PShort (keybytesToHex k) (PValue v))) → map_covers U {[ k := v ]}.
Proof. intros Hu t ->%single_trie s Hs Hn. inversion Hs as [|? ? ? Hs'|]; subst; [done|]. inversion Hs'; by subst. Qed.

Lemma state_proper : proper state.
Proof. intros t ->%single_trie. right. split; by vm_compute. Qed.

Lemma referenced_state_opens_witness :
  ∃ root, New (db_node db5) stateRoot = TOk root ∧ ∀ k, ∃ root', TryGet (db_node db5) root k = TOk (state !! k, root').
Proof.
  apply (referenced_state_opens rank K U owed db5 state stateRoot db5_reached U_free).
  - assert (Hb : bool_decide (map_Forall (λ _ b, b ∈ [code; ref_enc leaf; ref_enc (PShort (keybytesToHex [x62]) (PValue account2))]) (blobs db5)) = true) by (by vm_compute).
    apply bool_decide_eq_true in Hb. intros h b Hh. exact (Hb h b Hh).
  - by apply single_ok; vm_compute.
  - apply single_covers. right. by left.
  - apply state_proper.
  - exists leaf. split; [apply denotes_single|by vm_compute].
  - intros t ->%single_trie. right. split; [by intros h ?%elem_of_nil|]. intros s Hs Hh h. inversion Hs as [|? ? ? Hs'|]; subst; [by intros ?%elem_of_nil|]. inversion Hs'; by subst.
  - right. by vm_compute.
Defined.

(** *** The trie *)

Definition ops : list op :=
  [Update key account; Hash'; Update [x62] [x01]; Get [x62]; Delete [x62]; Commit'; Reopen; Get key].

Lemma db0_wf : db_wf db0.
Proof. destruct (steady_new rank K [true] (Some ∅)) as [[l Hw] _ _]; [by intros c h [= <-]|]. exists l. apply Hw. Qed.

Lemma db0_blobs : blobs_in U db0.
Proof. intros h b. replace (db_blobs db0) with (∅ : gmap bytes bytes) by (by vm_compute). by rewrite lookup_empty. Qed.

Lemma trie_is_authenticated_map_witness :
  ops_ok U ops ∅ ∧ ∃ d root outs m, run None ops db0 nilNode = TOk (d, root, outs) ∧ map_run ops ∅ outs m.
Proof.
  assert (Hops : ops_ok U ops ∅).
  { unfold ops. cbn [ops_ok op_ok map_step]. replace (<[key := account]> ∅ : gmap bytes bytes) with state by done.
    replace (base.delete [x62] (<[[x62] := [x01]]> state)) with state by (by rewrite delete_insert_id).
    assert (map_ok state) by (by apply single_ok; vm_compute). assert (map_covers U state) by (apply single_covers; right; by left).
    split_and!; try done; apply state_proper. }
  split; [exact Hops|]. apply (trie_is_authenticated_map None ltac:(by intros f Hf) U ops db0 U_free db0_wf db0_blobs Hops).
Defined.

(** A second state, and the nodes in memory of the two. *)
Definition state2 : gmap bytes bytes := {[ [x62] := account2 ]}.
Definition root1 : Trie.node := Eval vm_compute in match TryUpdate (db_node db0) nilNode key account with TOk n => n | _ => nilNode end.
Definition root2 : Trie.node := Eval vm_compute in match TryUpdate (db_node db0) nilNode [x62] account2 with TOk n => n | _ => nilNode end.

Lemma single_inv k v root : TryUpdate (db_node db0) nilNode k v = TOk root → inv db0 root {[ k := v ]}.
Proof.
  intros E. destruct (TryUpdate_spec (db_node db0) (hash_ok db0) (flag_ok db0) (newFlag_ok db0) nilNode ∅ k v (trie_inv_empty _ _ _)) as (root' & E' & Hi).
  rewrite E in E'. injection E' as ->. exact Hi.
Qed.

Lemma Hash_binds_witness :
  ∃ h1 h2 r1 r2, Hash (D := Database (C := gmap bytes bytes)) root1 = TOk (h1, r1) ∧ Hash (D := Database (C := gmap bytes bytes)) root2 = TOk (h2, r2) ∧
    (h1 = h2 ↔ state = state2).
Proof.
  apply (Hash_binds U db0 db0 root1 root2 state state2 U_free db0_wf db0_wf).
  - apply single_inv. by vm_compute.
  - apply single_inv. by vm_compute.
  - by apply single_ok; vm_compute.
  - by apply single_ok; vm_compute.
  - apply single_covers. right. by left.
  - apply single_covers. right. right. by left.
  - apply state_proper.
  - intros t ->%single_trie. right. split; by vm_compute.
Defined.

(** *** Where the conditions matter *)

(** A trie is committed to memory, possibly after a contract with a given code, its root is
    referenced and written to disk; then the node restarts and reads a key. *)
Definition restart_read (code : option bytes) (ops : list op) (key : bytes) : tres (option bytes) :=
  let db : Database := db0 in
  match match code with Some b => InsertBlob (Keccak256 b) b db | None => TOk db end with
  | TOk db =>
      match run None (ops ++ [Commit']) db nilNode with
      | TOk (db, _, outs) =>
          let hash := match last outs with Some (OutHash h) => h | _ => zeroHash end in
          match perform (CommitTo hash) (after (Ref hash) (with_disk db (mkKV ∅ []))) with
          | TOk db =>
              let db : Database (C := gmap bytes bytes) := NewDatabase (diskdb db) (Some ∅) in
              match New (db_node db) hash with
              | TOk root =>
                  match TryGet (db_node db) root key with
                  | TOk (v, _) => TOk v
                  | TMissing h p => TMissing h p
                  | TPanic m => TPanic m
                  end
              | TMissing h p => TMissing h p
              | TPanic m => TPanic m
              end
          | _ => TPanic "commit"
          end
      | _ => TPanic "run"
      end
  | _ => TPanic "insert"
  end.

(** An empty value under a key that another key extends is lost when the trie is loaded
    from disk: [decodeFull] reads it as no value. *)
Theorem empty_value_lost :
  restart_read None [Update [x61] []] [x61] = TOk (Some []) ∧
  restart_read None [Update [x61] []; Update [x61; x62] [x78]] [x61] = TOk None.
Proof. split; vm_compute; reflexivity. Qed.

(** A storage trie of two long values: its root is a full node with two children. *)
Definition storage_ops : list op := [Update [x61] account; Update [x71] account2].
Definition storage_blob : bytes := Eval vm_compute in
  match run None (storage_ops ++ [Commit']) db0 nilNode with
  | TOk (db, _, [_; _; OutHash h]) => default [] (blobs db !! h)
  | _ => []
  end.

(** A contract whose code is the encoding of the root node makes [insert] skip that node:
    the entry of the code has no children, and [Commit] writes the root without them. *)
Theorem code_hides_children :
  restart_read None storage_ops [x61] = TOk (Some account) ∧
  restart_read (Some code) storage_ops [x61] = TOk (Some account) ∧
  ∃ missing path, restart_read (Some storage_blob) storage_ops [x61] = TMissing missing path.
Proof. split; [vm_compute; reflexivity|]. split; [vm_compute; reflexivity|]. eexists _, _. vm_compute. reflexivity. Qed.
End Example.
