(* ===== verification/TrieProof.v ===== *)
(** * Merkle proofs

    l2geth/trie/proof.go: [Prove] collects the encodings of the nodes on the path to a key,
    [VerifyProof] follows the path again from a root hash.  A proof that verifies, wherever
    it comes from, gives the value of the map with that root hash, and the proof that
    [Prove] builds verifies. *)

From stdpp Require Import pretty.
From S2P Require Import Prelude GoErrors EthTypes Extern RLP TrieEncoding TrieDB TrieStore TrieEvents Trie TrieNode TrieHash TrieRoot.

(** ** Verification *)

(** [get] walks through the nodes that are embedded in a node: the rest of the key and
    what it ends at. *)
Fixpoint get (tn : node) (key : bytes) {struct tn} : tres (bytes * node) :=
  match tn with
  | shortNode k v _ =>
      if (length key <? length k)%nat || negb (bool_decide (k = take (length k) key)) then TOk ([], nilNode)
      else get v (drop (length k) key)
  | fullNode cs _ =>
      match key with
      | [] => TPanic "index out of range"
      | b :: key =>
          (fix child (cs : list node) (i : nat) : tres (bytes * node) :=
             match cs, i with
             | [], _ => TPanic "index out of range"
             | c :: _, O => get c key
             | _ :: cs, S i => child cs i
             end) cs (nib b)
      end
  | hashNode h => TOk (key, tn)
  | nilNode => TOk (key, nilNode)
  | valueNode v => TOk ([], tn)
  end.

Lemma get_full cs fl b key : get (fullNode cs fl) (b :: key) = match cs !! nib b with Some c => get c key | None => TPanic "index out of range" end.
Proof.
  cbn [get]. generalize (nib b) as i. induction cs as [|c cs IH]; intros i; [by destruct i|]. destruct i; [done|]. apply IH.
Qed.

(** The value, the number of nodes looked at, and the error. *)
Inductive verdict := Verified (value : option bytes) (nodes : nat) | Rejected (nodes : nat) (err : error) | Crashed (msg : string).

Definition missing_node (i : nat) : error := ErrorNew ("proof node " +:+ pretty i +:+ " missing").
Definition bad_node (i : nat) : error := ErrorNew ("bad proof node " +:+ pretty i).

(** [copy(wantHash[:], cld)]. *)
Definition copy_hash (want cld : bytes) : bytes := take (length want) cld ++ drop (length cld) want.

Fixpoint verify_loop (fuel i : nat) (wantHash key : bytes) (proofDb : gmap bytes bytes) : verdict :=
  match fuel with
  | O => Crashed "out of fuel"
  | S fuel =>
      match proofDb !! wantHash with
      | None => Rejected i (missing_node i)
      | Some buf =>
          match decodeNode (Some wantHash) buf with
          | DErr _ _ => Rejected i (bad_node i)
          | DPanic s => Crashed s
          | DOk n =>
              match get n key with
              | TOk (keyrest, cld) =>
                  match cld with
                  | nilNode => Verified None i
                  | hashNode h => verify_loop fuel (S i) (copy_hash wantHash h) keyrest proofDb
                  | valueNode v => Verified (Some v) (S i)
                  | _ => Crashed "not reached"
                  end
              | TMissing _ _ => Crashed "not reached"
              | TPanic s => Crashed s
              end
          end
      end
  end.

(** Every node that is followed takes a part of the key. *)
Definition VerifyProof (rootHash key : bytes) (proofDb : gmap bytes bytes) : verdict :=
  verify_loop (S (length (keybytesToHex key))) 0 rootHash (keybytesToHex key) proofDb.

(** ** Construction *)

Section Prove.
Context (db_node : bytes → fetched).

(** The loop that collects the nodes on the path. *)
Fixpoint prove_walk (fuel : nat) (key : bytes) (tn : node) : tres (list node) :=
  match fuel with
  | O => TPanic "out of fuel"
  | S fuel =>
      match key, tn with
      | [], _ | _, nilNode => TOk []
      | _, shortNode k v _ =>
          if (length key <? length k)%nat || negb (bool_decide (k = take (length k) key)) then TOk [tn]
          else ns ← prove_walk fuel (drop (length k) key) v; TOk (tn :: ns)
      | b :: key, fullNode cs _ => c ← getChild cs b; ns ← prove_walk fuel key c; TOk (tn :: ns)
      | _, hashNode h => tn ← resolveHash db_node h []; prove_walk fuel key tn
      | _, valueNode _ => TPanic "invalid node"
      end
  end.
End Prove.

Section Elements.
Context `{!Keccak} {D : Type} `{!NodeDB D}.

(** The loop that turns them into proof elements; [first] at the root. *)
Fixpoint prove_elements (first : bool) (fromLevel : nat) (ns : list node) (proofDb : gmap bytes bytes) : tres (gmap bytes bytes) :=
  match ns with
  | [] => TOk proofDb
  | n :: ns =>
      '(n, _, _) ← hashChildren (D := D) None n None;
      '(hn, _) ← store (D := D) None n None false;
      let hash := match hn with hashNode h => Some h | _ => None end in
      if bool_decide (is_Some hash) || first then
        match fromLevel with
        | S level => prove_elements false level ns proofDb
        | O => let enc := encodeNode n in
               prove_elements false 0 ns (<[default (Keccak256 enc) hash := enc]> proofDb)
        end
      else prove_elements false fromLevel ns proofDb
  end.

Definition Prove (d : D) (root : node) (key : bytes) (fromLevel : nat) (proofDb : gmap bytes bytes) : tres (gmap bytes bytes) :=
  let key := keybytesToHex key in
  ns ← prove_walk (db_node d) (fuel_for key) key root;
  prove_elements true fromLevel ns proofDb.
End Elements.

(** ** The path in the reference trie *)

Fixpoint path (t : ptrie) (key : bytes) {struct t} : list ptrie :=
  match t with
  | PShort k c => t :: if bool_decide (k = take (length k) key) then path c (drop (length k) key) else []
  | PFull cs =>
      match key with
      | [] => []
      | b :: key =>
          t :: (fix child (cs : list ptrie) (i : nat) : list ptrie :=
                  match cs, i with
                  | [], _ => []
                  | c :: _, O => path c key
                  | _ :: cs, S i => child cs i
                  end) cs (nib b)
      end
  | _ => []
  end.

Lemma path_full cs b key : path (PFull cs) (b :: key) = PFull cs :: match cs !! nib b with Some c => path c key | None => [] end.
Proof.
  cbn [path]. f_equal. generalize (nib b) as i. induction cs as [|c cs IH]; intros i; [by destruct i|]. destruct i; [done|]. apply IH.
Qed.

Section Verify.
Context `{!Keccak}.

(** Where [get] ends in the node that is decoded from the blob of a trie; less than
    [bound] is left of the key. *)
Definition get_ends (bound : nat) (t : ptrie) (key : bytes) (r : tres (bytes * node)) : Prop :=
  match r with
  | TOk (_, nilNode) => pget t key = None
  | TOk (_, valueNode v) => pget t key = Some v
  | TOk (rest, hashNode h) => ∃ s, h = ref_hash s ∧ hashed s = true ∧ good s ∧ hexkey rest ∧ sub s t ∧ pget t key = pget s rest ∧
      (length rest < bound)%nat ∧ (∀ x, x ∈ path s rest → x ∈ path t key)
  | _ => False
  end.

Definition part (t : ptrie) : Prop := t = PNil ∨ is_value t ∨ good t.

Lemma short_miss k key c : pget (PShort k c) key = if bool_decide (k = take (length k) key) then pget c (drop (length k) key) else None.
Proof. done. Qed.

Lemma short_test (k key : bytes) : (length key <? length k)%nat || negb (bool_decide (k = take (length k) key)) = negb (bool_decide (k = take (length k) key)).
Proof.
  case_bool_decide as E; [|by rewrite orb_true_r]. rewrite orb_false_r. apply Nat.ltb_ge.
  apply (f_equal length) in E. rewrite length_take in E. lia.
Qed.

Lemma get_child c key :
  part c → slot c key → (∀ h, get_ends (length key) c key (get (stored_node h c) key)) →
  get_ends (S (length key)) c key (get (stored_child c) key).
Proof.
  intros Hp Hs HI. unfold stored_child. destruct (hashed c) eqn:Hh.
  2:{ specialize (HI None). destruct (get (stored_node None c) key) as [[rest []]| |]; try done. cbn [get_ends] in *.
      destruct HI as (s & ? & ? & ? & ? & ? & ? & ? & ?). exists s. split_and!; try done. lia. }
  cbn [get get_ends].
  destruct (hashed_good c Hp Hh) as [Hg Hn]. exists c. split_and!; try done; [|constructor|lia].
  destruct Hs as [[? _]|[-> [->|?]]]; [done..|by destruct c].
Qed.

Lemma get_stored t key h : part t → slot t key → get_ends (length key) t key (get (stored_node h t) key).
Proof.
  revert key h. induction t as [|v|k c IH|cs IH] using ptrie_nested_ind; intros key h Hp Hs.
  - done.
  - destruct Hs as [[_ [?|?]]|[-> _]]; done.
  - change (get_ends (length key) (PShort k c) key (get (shortNode k (stored_child c) (mkFlag h false)) key)). cbn [get]. rewrite short_test.
    destruct Hp as [?|[?|Hg]]; [done..|]. destruct Hs as [[Hk [?|Hw]]|[_ [?|?]]]; try done.
    case_bool_decide as E; cbn [negb]; [|cbn [get_ends]; by rewrite short_miss, bool_decide_eq_false_2].
    assert (Ek : key = k ++ drop (length k) key) by (rewrite E at 1; by rewrite take_drop).
    assert (Hlen : (0 < length k ≤ length key)%nat).
    { apply wf_short_key in Hw. apply (f_equal length) in Ek. rewrite length_app in Ek. destruct k; [done|]. cbn [length] in *. lia. }
    rewrite Ek in Hk. destruct (slot_short _ _ _ Hw Hk) as [Hsc _].
    assert (Hpc : part c) by (destruct (good_short _ _ Hg); [right; by left|right; by right]).
    pose proof (get_child c _ Hpc Hsc (λ h, IH _ h Hpc Hsc)) as Hc. revert Hc.
    destruct (get (stored_child c) (drop (length k) key)) as [[rest []]| |]; cbn [get_ends]; rewrite ?short_miss, ?bool_decide_eq_true_2 by done; try done.
    intros (s & ? & ? & ? & ? & ? & ? & Hl & Hx). exists s. split_and!; try done; [by constructor|rewrite length_drop in Hl; lia|].
    intros x Hin. cbn [path]. rewrite bool_decide_eq_true_2 by done. right. by apply Hx.
  - rewrite stored_full. destruct Hp as [?|[?|Hg]]; [done..|]. destruct Hs as [[Hk [?|Hw]]|[_ [?|?]]]; try done.
    destruct key as [|b key]; [by apply hexkey_nonempty in Hk|]. rewrite get_full, list_lookup_fmap.
    destruct (slot_child _ _ _ Hw Hk) as (c & Ec & Hsc). rewrite Ec. cbn [fmap option_fmap option_map].
    assert (Hpc : part c) by (destruct (good_full _ _ _ Hg Ec) as [->|[[_ ?]|[_ ?]]]; [by left|by right; right|by right; left]).
    rewrite Forall_lookup in IH. pose proof (get_child c _ Hpc Hsc (λ h, IH _ _ Ec _ h Hpc Hsc)) as Hc. revert Hc.
    destruct (get (stored_child c) key) as [[rest []]| |]; cbn [get_ends]; rewrite ?pget_full, ?Ec; try done.
    intros (s & ? & ? & ? & ? & ? & ? & Hl & Hx). exists s. split_and!; try done; [by econstructor|].
    intros x Hin. rewrite path_full, Ec. right. by apply Hx.
Qed.


(** *** The loop *)

(** The blobs of a proof, each under its hash and in a set without collisions. *)
Context (U : bytes → Prop) (U_free : coll_free U).
Definition proof_ok (proofDb : gmap bytes bytes) : Prop := ∀ h b, proofDb !! h = Some b → h = Keccak256 b ∧ U b.

Lemma proof_blob proofDb t b : proof_ok proofDb → covers U t → is_node t = true → proofDb !! ref_hash t = Some b → b = ref_enc t.
Proof.
  intros Hp Hc Hn Hb. destruct (Hp _ _ Hb) as [Hk Hu]. symmetry. apply (hash_unique _ U_free); [by apply (everywhere_here _ _ Hc)|done|done].
Qed.

Lemma copy_hash_32 want h : length want = 32%nat → length h = 32%nat → copy_hash want h = h.
Proof. intros Hw Hh. unfold copy_hash. rewrite take_ge, drop_ge by lia. apply app_nil_r. Qed.

Lemma ref_hash_length t : length (ref_hash t) = 32%nat.
Proof. apply Keccak256_length. Qed.

Lemma sub_trans a b c : sub a b → sub b c → sub a c.
Proof. intros Hab Hbc. induction Hbc as [|s k c _ IH|s cs i c Hi _ IH]; [done|constructor; auto|econstructor; eauto]. Qed.

Lemma verify_spec fuel i t key proofDb :
  proof_ok proofDb → good t → covers U t → hexkey key → (length key < fuel)%nat →
  (∃ n, verify_loop fuel i (ref_hash t) key proofDb = Verified (pget t key) n) ∨
  (∃ n s, verify_loop fuel i (ref_hash t) key proofDb = Rejected n (missing_node n) ∧
     (s = t ∨ hashed s = true) ∧ s ∈ path t key ∧ proofDb !! ref_hash s = None).
Proof.
  intros Hp. revert i t key. induction fuel as [|fuel IH]; intros i t key Hg Hc Hk Hf; [lia|]. cbn [verify_loop].
  pose proof Hg as (Hw & Hs & Hso). assert (Hn : is_node t = true) by by destruct t.
  destruct (proofDb !! ref_hash t) as [b|] eqn:Hb.
  2:{ right. exists i, t. split_and!; [done|by left| |done]. destruct t as [|cs|k c|v]; try done; [|by left].
      destruct key as [|x key]; [by apply hexkey_nonempty in Hk|]. rewrite path_full. by left. }
  rewrite (proof_blob _ _ _ Hp Hc Hn Hb), decodeNode_enc by done.
  assert (Hslot : slot t key) by (left; split; [done|by right]).
  pose proof (get_stored t key (Some (ref_hash t)) (or_intror (or_intror Hg)) Hslot) as He. revert He.
  destruct (get (stored_node (Some (ref_hash t)) t) key) as [[rest []]| |]; cbn [get_ends]; try done.
  - intros ->. left. by exists i.
  - intros (s & -> & Hh & Hgs & Hr & Hsub & -> & Hl & Hpath). rewrite copy_hash_32 by apply ref_hash_length.
    destruct (IH (S i) s rest Hgs) as [(n & ->)|(n & x & -> & Hx & Hin & Hnone)]; [|done|lia|left; by exists n|right].
    { intros x Hx. apply Hc. by eapply sub_trans. }
    exists n, x. split_and!; [done| |by apply Hpath|done]. destruct Hx as [->|?]; by right.
  - intros ->. left. by exists (S i).
Qed.
End Verify.

(** ** Construction *)

Lemma path_good t key x : part t → slot t key → x ∈ path t key → good x ∧ sub x t.
Proof.
  revert key. induction t as [|v|k c IH|cs IH] using ptrie_nested_ind; intros key Hp Hs Hx; try (by apply elem_of_nil in Hx).
  - destruct Hp as [?|[?|Hg]]; [done..|]. destruct Hs as [[Hk [?|Hw]]|[_ [?|?]]]; try done. cbn [path] in Hx.
    apply elem_of_cons in Hx as [->|Hx]; [split; [done|constructor]|]. case_bool_decide as E; [|by apply elem_of_nil in Hx].
    assert (Ek : key = k ++ drop (length k) key) by (rewrite E at 1; by rewrite take_drop).
    rewrite Ek in Hk. destruct (slot_short _ _ _ Hw Hk) as [Hsc _].
    assert (Hpc : part c) by (destruct (good_short _ _ Hg); [right; by left|right; by right]).
    destruct (IH _ Hpc Hsc Hx). split; [done|by constructor].
  - destruct Hp as [?|[?|Hg]]; [done..|]. destruct Hs as [[Hk [?|Hw]]|[_ [?|?]]]; try done.
    destruct key as [|b key]; [by apply hexkey_nonempty in Hk|]. rewrite path_full in Hx.
    apply elem_of_cons in Hx as [->|Hx]; [split; [done|constructor]|].
    destruct (slot_child _ _ _ Hw Hk) as (c & Ec & Hsc). rewrite Ec in Hx.
    assert (Hpc : part c) by (destruct (good_full _ _ _ Hg Ec) as [->|[[_ ?]|[_ ?]]]; [by left|by right; right|by right; left]).
    rewrite Forall_lookup in IH. destruct (IH _ _ Ec key Hpc Hsc Hx). split; [done|by econstructor].
Qed.

Section Build.
Context `{!Keccak} {D : Type} `{!NodeDB D} (d : D) (d_wf : db_wf d).
Notation rep := (Trie.rep (db_node d) (hash_ok d) (flag_ok d)).

Definition on_path (n : node) (s : ptrie) : Prop := is_loaded n ∧ ∃ top, rep top n s.

Lemma prove_walk_spec fuel top n t key :
  rep top n t → slot t key → (steps n key ≤ fuel)%nat →
  ∃ ns, prove_walk (db_node d) fuel key n = TOk ns ∧ Forall2 on_path ns (path t key).
Proof.
  revert top n t key. induction fuel as [|fuel IH]; intros top n t key Hr Hs Hf; [unfold steps in Hf; destruct n; lia|].
  cbn [prove_walk]. destruct Hs as [[Hk Ht]|[-> Ht]].
  2:{ exists []. split; [done|]. destruct Ht as [->|?]; [constructor|]. by destruct t. }
  destruct key as [|b key]; [by apply hexkey_nonempty in Hk|].
  inversion Hr as [|v|k c tc fl Hc Hfl|cs ts fl Hcs Hfl|h c ? Hdb Hl Hg Hn]; subst.
  - exists []. split; [done|constructor].
  - by destruct Ht.
  - destruct Ht as [?|Hw]; [done|]. rewrite short_test. cbn [path]. case_bool_decide as E; cbn [negb].
    + assert (Ek : b :: key = k ++ drop (length k) (b :: key)) by (rewrite E at 1; by rewrite take_drop).
      rewrite Ek in Hk. destruct (slot_short _ _ _ Hw Hk) as [Hsc _].
      destruct (IH false c tc (drop (length k) (b :: key)) Hc Hsc) as (ns & -> & Hns).
      { pose proof (steps_short c (shortNode k c fl) k (drop (length k) (b :: key)) (wf_short_key _ _ Hw) I) as Hst. rewrite <- Ek in Hst. lia. }
      eexists. split; [done|]. constructor; [by split; [|eexists]|done].
    + eexists. split; [done|]. constructor; [by split; [|eexists]|constructor].
  - destruct Ht as [?|Hw]; [done|]. destruct (slot_child _ _ _ Hw Hk) as (tc & Etc & Hsc).
    destruct (Forall2_lookup_r _ _ _ _ _ Hcs Etc) as (c & Ec & Hc). unfold getChild. rewrite Ec. cbn [mbind tres_bind].
    destruct (IH false c tc key Hc Hsc) as (ns & -> & Hns); [pose proof (steps_full c (fullNode cs fl) b key I); lia|].
    cbn [mbind tres_bind]. eexists. split; [done|]. rewrite path_full, Etc. constructor; [by split; [|eexists]|done].
  - unfold resolveHash. rewrite Hdb. cbn [mbind tres_bind]. apply (IH top); [done|by left|].
    pose proof (steps_loaded c h (b :: key) Hl). lia.
Qed.

(** One node becomes the encoding of its trie. *)
Lemma element_spec n s :
  on_path n s → good s →
  ∃ col cac, hashChildren (D := D) None n None = TOk (col, cac, None) ∧ encodeNode col = ref_enc s ∧
    store (D := D) None col None false = TOk (if hashed s then hashNode (ref_hash s) else col, None) ∧ is_loaded col.
Proof.
  intros [Hl [top Hr]] Hg.
  assert (Hch : ∃ fl, flag_ok d top fl s ∧ children_result false (λ _, False) top s fl d (hashChildren (D := D) None n None)).
  { pose proof (hash_spec (D := D) None false (λ _, False) (λ E, False_ind _ (diff_false_true E)) ltac:(by intros f Hf)) as Hspec.
    assert (Hrec : ∀ c, good c → rec_ok false (λ _, False) (λ c db, hash (D := D) None c db false) c).
    { intros c Hgc d' n' Hrd Hn'. by apply Hspec. }
    inversion Hr as [|v|k c tc fl Hc Hfl|cs ts fl Hcs Hfl|h c ? Hdb Hl' Hh Hn]; subst; try done.
    - exists fl. split; [done|]. apply (hashChildren_short None false (λ _, False)); [discriminate|done|split; [done|discriminate]|done|eauto].
    - exists fl. split; [done|]. apply (hashChildren_full None false (λ _, False)); [discriminate|done|split; [done|discriminate]|done|eauto]. }
  destruct Hch as (fl & Hfl & col & cac & d' & E & _ & Hcol & Ecache & _). exists col, cac. split; [exact E|].
  pose proof (encode_ref col s Hg Hcol) as Henc. pose proof (collapsed_loaded _ _ Hcol) as Hlc. split_and!; [done| |done].
  assert (Hn : is_node s = true) by (destruct Hg as [? _]; by destruct s).
  assert (Hh : match fst (cache col) with Some h => h | None => Keccak256 (encodeNode col) end = ref_hash s).
  { rewrite Ecache. unfold flag_ok in Hfl. destruct (fl_hash fl); [by destruct Hfl|]. by rewrite Henc. }
  unfold store. destruct col; try done; rewrite Hh, Henc, andb_true_r; unfold hashed; rewrite Hn, Z.leb_antisym; cbn [andb]; by destruct (len (ref_enc s) <? 32).
Qed.

(** The elements of a proof, and those that were there before. *)
Lemma prove_elements_spec U first ns ss P :
  coll_free U → Forall2 on_path ns ss → Forall (λ s, good s ∧ U (ref_enc s)) ss → proof_ok U P →
  ∃ P', prove_elements (D := D) first 0 ns P = TOk P' ∧ proof_ok U P' ∧ (∀ h, is_Some (P !! h) → is_Some (P' !! h)) ∧
    (∀ s, s ∈ ss → hashed s = true ∨ (first = true ∧ head ss = Some s) → is_Some (P' !! ref_hash s)).
Proof.
  intros HU HF. revert first P. induction HF as [|n s ns ss Hn HF IH]; intros first P Hg HP.
  - exists P. split_and!; try done. by intros s ?%elem_of_nil.
  - apply Forall_cons in Hg as [[Hgs Hu] Hg]. destruct (element_spec n s Hn Hgs) as (col & cac & E1 & E2 & E3 & Hl).
    cbn [prove_elements]. rewrite E1. cbn [mbind tres_bind]. rewrite E3. cbn [mbind tres_bind]. rewrite E2.
    assert (Eh : (match (if hashed s then hashNode (ref_hash s) else col) with hashNode h => Some h | _ => None end) =
                 if hashed s then Some (ref_hash s) else None) by (destruct (hashed s); [done|by destruct col]).
    rewrite Eh.
    assert (Ek : default (Keccak256 (ref_enc s)) (if hashed s then Some (ref_hash s) else None) = ref_hash s) by by destruct (hashed s).
    rewrite Ek. assert (Hb : bool_decide (is_Some (if hashed s then Some (ref_hash s) else None)) = hashed s).
    { destruct (hashed s); [by apply bool_decide_eq_true_2; eexists|by apply bool_decide_eq_false_2; intros []]. }
    rewrite Hb. destruct (hashed s || first) eqn:Ein.
    + destruct (IH false (<[ref_hash s := ref_enc s]> P) Hg) as (P' & -> & HP' & Hmono & Hin).
      { intros h b [[<- <-]|[_ Hx]]%lookup_insert_Some; [done|by apply HP]. }
      exists P'. split_and!; [done|done|intros h Hh; apply Hmono|].
      * apply lookup_insert_is_Some. destruct (decide (ref_hash s = h)); auto.
      * intros x [->|Hx]%elem_of_cons Hor; [apply Hmono; rewrite lookup_insert_eq; by eexists|].
        destruct Hor as [Hh|[-> [= <-]]]; [by apply Hin; [|left]|apply Hmono; rewrite lookup_insert_eq; by eexists].
    + apply orb_false_iff in Ein as [Eh' ->]. destruct (IH false P Hg HP) as (P' & -> & HP' & Hmono & Hin).
      exists P'. split_and!; try done. intros x [->|Hx]%elem_of_cons [Hh|[? _]]; try done; [congruence|by apply Hin; [|left]].
Qed.
End Build.

(** ** Theorems *)

(** C12. Merkle proofs are sound: for any collection of blobs stored under their hashes,
    whoever made it, [VerifyProof] against the root hash of a non-empty state either
    returns the value of the key in that state, absence included, or reports a missing
    node; it does not panic and does not run on.  Two blobs that collide under Keccak256
    are excluded. *)
Theorem VerifyProof_sound `{!Keccak} U m h key proofDb :
  coll_free U → map_ok m → m ≠ ∅ → map_covers U m → map_root m h → proof_ok U proofDb →
  (∃ n, VerifyProof h key proofDb = Verified (m !! key) n) ∨ (∃ n, VerifyProof h key proofDb = Rejected n (missing_node n)).
Proof.
  intros HU Hm Hne Hc (t & Ht & ->) Hp. destruct (denotes_good _ _ Ht Hm) as [->|Hg]; [by apply denotes_nil in Ht|].
  rewrite root_hash_good by done. unfold VerifyProof. rewrite <- (den_get _ _ Ht).
  destruct (verify_spec U HU (S (length (keybytesToHex key))) 0 t (keybytesToHex key) proofDb Hp Hg (Hc t Ht) (keybytesToHex_hexkey key)) as [?|(n & s & ? & _)];
    [lia|by left|right; by exists n].
Qed.

(** C13. Merkle proofs are complete: for a trie that holds a non-empty map, whatever part
    of it is loaded from a well-formed database, [Prove] succeeds, and [VerifyProof]
    accepts its elements against the root hash and returns the value of the key, or its
    absence.  The keys are shorter than 2^31 and the values shorter than 2^32 bytes, no key
    with an empty value is extended by another key (its value would be read as absent), and
    the nodes of the trie have no hash collision. *)
Theorem Prove_verifies `{!Keccak, !NodeDB D} U (d : D) root m h key :
  coll_free U → db_wf d → inv d root m → map_ok m → m ≠ ∅ → map_covers U m → map_root m h →
  ∃ proofDb n, Prove d root key 0 ∅ = TOk proofDb ∧ VerifyProof h key proofDb = Verified (m !! key) n.
Proof.
  intros HU Hd (t & Hr & Ht) Hm Hne Hc (t' & Ht' & ->). rewrite (denotes_unique _ _ _ Ht' Ht).
  destruct (denotes_good _ _ Ht Hm) as [->|Hg]; [by apply denotes_nil in Ht|]. pose proof (keybytesToHex_hexkey key) as Hk.
  assert (Hs : slot t (keybytesToHex key)) by (by apply (denotes_slot t m)). specialize (Hc t Ht).
  assert (Hpart : part t) by (by right; right).
  destruct (prove_walk_spec d (fuel_for (keybytesToHex key)) true root t _ Hr Hs (fuel_enough _ _)) as (ns & Ew & Hns).
  assert (Hall : Forall (λ s, good s ∧ U (ref_enc s)) (path t (keybytesToHex key))).
  { apply Forall_forall. intros s Hin. destruct (path_good _ _ _ Hpart Hs Hin) as [Hgs Hsub]. split; [done|].
    apply Hc; [done|]. destruct Hgs as [? _]. by destruct s. }
  assert (Hemp : proof_ok U ∅) by (intros x b; by rewrite lookup_empty).
  destruct (prove_elements_spec d Hd U true ns _ ∅ HU Hns Hall Hemp) as (P & Ep & HP & _ & Hin).
  rewrite root_hash_good by done. exists P. unfold Prove, VerifyProof. rewrite Ew. cbn [mbind tres_bind]. rewrite Ep, <- (den_get _ _ Ht).
  destruct (verify_spec U HU (S (length (keybytesToHex key))) 0 t (keybytesToHex key) P HP Hg Hc Hk) as [(n & ?)|(n & s & _ & Hor & Hpath & Hnone)];
    [lia|by exists n|]. exfalso. destruct (Hin s Hpath) as [b Hb]; [|congruence].
  destruct Hor as [->|?]; [right|by left]. split; [done|]. destruct t as [|cs|k c|v]; try by destruct Hg.
  destruct (keybytesToHex key) as [|b k]; [by apply hexkey_nonempty in Hk|]. by rewrite path_full.
Qed.

(** ** An example: the state with one account *)

#[local] Existing Instance example_keccak.
#[local] Existing Instance Example.example_cache.

Definition example_proof : gmap bytes bytes := {[ Example.stateRoot := ref_enc Example.leaf ]}.

Lemma example_root : map_root Example.state Example.stateRoot.
Proof. exists Example.leaf. split; [apply denotes_single|by vm_compute]. Qed.

Lemma example_covers : map_covers Example.U Example.state.
Proof. apply Example.single_covers. right. by left. Qed.

Lemma VerifyProof_sound_witness :
  (∃ n, VerifyProof Example.stateRoot Example.key example_proof = Verified (Some Example.account) n) ∨
  (∃ n, VerifyProof Example.stateRoot Example.key example_proof = Rejected n (missing_node n)).
Proof.
  apply (VerifyProof_sound Example.U Example.state Example.stateRoot Example.key example_proof Example.U_free).
  - by apply Example.single_ok; vm_compute.
  - apply map_non_empty_singleton.
  - exact example_covers.
  - exact example_root.
  - intros h b Hb. unfold example_proof in Hb. apply lookup_singleton_Some in Hb as [<- <-]. split; [by vm_compute|right; by left].
Defined.

Lemma Prove_verifies_witness :
  ∃ proofDb n, Prove Example.db0 Example.root1 Example.key 0 ∅ = TOk proofDb ∧
    VerifyProof Example.stateRoot Example.key proofDb = Verified (Example.state !! Example.key) n.
Proof.
  apply (Prove_verifies Example.U Example.db0 Example.root1 Example.state Example.stateRoot Example.key Example.U_free Example.db0_wf).
  - apply Example.single_inv. by vm_compute.
  - by apply Example.single_ok; vm_compute.
  - apply map_non_empty_singleton.
  - exact example_covers.
  - exact example_root.
Defined.
