(* ===== verification/TxMeta.v ===== *)
(** * Transaction metadata

    What l2geth keeps with a transaction of the rollup
    (l2geth/core/types/transaction_meta.go) and its encoding on disk with the variable
    length integers and byte strings of l2geth/common/varbytes.go. *)

From S2P Require Import Prelude GoErrors Frame RLP RLPTypes.

(** ** Variable length integers *)

(** Reading from a [bytes.Reader]: the value and the rest. *)
Definition readFull (n : nat) (r : bytes) : result (bytes * bytes) :=
  let '(b, rest, err) := read_full n r in match err with Some e => Err e | None => Ok (b, rest) end.

Definition messageError (f desc : string) : error := ErrorNew (f +:+ ": " +:+ desc).

(** The width of the integer that follows the discriminant, and the least value it stands for. *)
Definition varint_width (d : Z) : option (nat * Z) :=
  if d =? 0xff then Some (8%nat, 0x100000000)
  else if d =? 0xfe then Some (4%nat, 0x10000)
  else if d =? 0xfd then Some (2%nat, 0xfd)
  else None.

Definition ReadVarInt (r : bytes) : result (Z * bytes) :=
  '(d, r) ← readFull 1 r;
  let discriminant := byte_val (default x00 (head d)) in
  match varint_width discriminant with
  | Some (width, min) =>
      '(b, r) ← readFull width r;
      let rv := le_decode b in
      if rv <? min then Err (messageError "ReadVarInt" "non-canonical varint") else Ok (rv, r)
  | None => Ok (discriminant, r)
  end.

Definition WriteVarInt (val : Z) : bytes :=
  if val <? 0xfd then [byte_of_Z val]
  else if val <=? 0xffff then byte_of_Z 0xfd :: le_encode 2 val
  else if val <=? 0xffffffff then byte_of_Z 0xfe :: le_encode 4 val
  else byte_of_Z 0xff :: le_encode 8 val.

Definition ReadVarBytes (maxAllowed : Z) (r : bytes) : result (bytes * bytes) :=
  '(count, r) ← ReadVarInt r;
  if maxAllowed <? count then Err (messageError "ReadVarBytes" "larger than the max allowed size")
  else readFull (Z.to_nat count) r.

Definition WriteVarBytes (b : bytes) : bytes := WriteVarInt (len b) ++ b.

Definition VarIntSerializeSize (val : Z) : Z :=
  if val <? 0xfd then 1 else if val <=? 0xffff then 3 else if val <=? 0xffffffff then 5 else 9.

(** ** Metadata *)

Definition QueueOriginSequencer : Z := 0.
Definition QueueOriginL1ToL2 : Z := 1.

Record TransactionMeta := mkMeta {
  L1BlockNumber : option Z;
  L1Timestamp : Z;
  L1MessageSender : option bytes;
  QueueOrigin : Z;
  Index : option Z;
  QueueIndex : option Z;
  RawTransaction : option bytes }.

Definition getNullValue : bytes := [x00].
Definition isNullValue (b : bytes) : bool := bool_decide (b = getNullValue).

Definition TxMetaEncode (meta : TransactionMeta) : bytes :=
  WriteVarBytes (match L1BlockNumber meta with None => getNullValue | Some n => big_Bytes n end) ++
  WriteVarBytes (match L1MessageSender meta with None => getNullValue | Some a => a end) ++
  WriteVarBytes [byte_of_Z (QueueOrigin meta)] ++
  WriteVarBytes (le_encode 8 (L1Timestamp meta)) ++
  WriteVarBytes (match Index meta with None => getNullValue | Some i => big_Bytes i end) ++
  WriteVarBytes (match QueueIndex meta with None => getNullValue | Some i => big_Bytes i end) ++
  WriteVarBytes (match RawTransaction meta with None => getNullValue | Some r => r end).

(** A field that is nil when it holds the null value. *)
Definition nullable {A} (f : bytes → A) (b : bytes) : option A := if isNullValue b then None else Some (f b).

(** [binary.Read] into a variable that keeps its zero value when the data is too short. *)
Definition binary_Read (n : nat) (b : bytes) : bytes := if (length b <? n)%nat then zeros n else take n b.

Definition TxMetaDecode (input : bytes) : result TransactionMeta :=
  '(lb, b) ← ReadVarBytes 1024 input;
  '(mb, b) ← ReadVarBytes 1024 b;
  '(qo, b) ← ReadVarBytes 1024 b;
  '(l, b) ← ReadVarBytes 1024 b;
  '(i, b) ← ReadVarBytes 1024 b;
  '(qi, b) ← ReadVarBytes 1024 b;
  '(raw, b) ← ReadVarBytes 130000 b;
  Ok (mkMeta (nullable be_decode lb) (le_decode (binary_Read 8 l)) (nullable (binary_Read 20) mb)
        (default 0 (nullable (λ q, u64 (be_decode q) mod 256) qo))
        (nullable (λ x, u64 (be_decode x)) i) (nullable (λ x, u64 (be_decode x)) qi) (nullable id raw)).

(** ** Variable length integers, both ways *)

Lemma readFull_Ok n r b rest : readFull n r = Ok (b, rest) ↔ r = b ++ rest ∧ length b = n.
Proof.
  unfold readFull, read_full. destruct (Nat.ltb_spec (length r) n) as [Hl|Hl].
  - split; [by destruct r|]. intros [-> <-]. rewrite length_app in Hl. lia.
  - split; [intros [= <- <-]; rewrite take_drop, length_take; split; [done|lia]|].
    intros [-> <-]. by rewrite take_app_length, drop_app_length.
Qed.

Lemma readFull_app n b rest : length b = n → readFull n (b ++ rest) = Ok (b, rest).
Proof. intros Hb. by apply readFull_Ok. Qed.

(** An integer that follows its discriminant. *)
Lemma ReadVarInt_wide d w min r :
  0 <= d < 256 → varint_width d = Some (w, min) →
  ReadVarInt (byte_of_Z d :: r) = '(b, r) ← readFull w r; if le_decode b <? min then Err (messageError "ReadVarInt" "non-canonical varint") else Ok (le_decode b, r).
Proof.
  intros Hd Hw. unfold ReadVarInt. change (byte_of_Z d :: r) with ([byte_of_Z d] ++ r). rewrite readFull_app by done. cbn [mbind result_bind head default from_option id].
  by rewrite byte_val_of_Z, Z.mod_small, Hw by done.
Qed.

Lemma ReadVarInt_wide_Ok d w min r v rest :
  0 <= d < 256 → varint_width d = Some (w, min) →
  ReadVarInt (byte_of_Z d :: r) = Ok (v, rest) ↔ min <= v < 256 ^ Z.of_nat w ∧ 0 <= v ∧ r = le_encode w v ++ rest.
Proof.
  intros Hd Hw. rewrite (ReadVarInt_wide d w min) by done. split.
  - destruct (readFull w r) as [[b r2]|e|s] eqn:E; try done. apply readFull_Ok in E as [-> Hb]. cbn [mbind result_bind].
    destruct (Z.ltb_spec (le_decode b) min); [done|]. intros [= <- <-]. pose proof (le_decode_bound b) as Hbd. rewrite Hb in Hbd.
    split; [lia|]. split; [lia|]. by rewrite le_encode_decode_len.
  - intros (Hv & H0 & ->). rewrite readFull_app by apply length_le_encode. cbn [mbind result_bind].
    rewrite le_decode_encode_small by lia. by rewrite (proj2 (Z.ltb_ge v min)) by lia.
Qed.

(** The encoding is canonical: an integer has one encoding, and no other bytes are read as
    an integer. *)
Lemma ReadVarInt_iff r v rest : ReadVarInt r = Ok (v, rest) ↔ is_u64 v ∧ r = WriteVarInt v ++ rest.
Proof.
  destruct r as [|d r].
  { split; [done|]. intros [_ E]. apply (f_equal length) in E. revert E. unfold WriteVarInt. rewrite length_app. repeat case_match; cbn; lia. }
  rewrite <- (byte_of_Z_val d). pose proof (byte_val_range d) as Hr. generalize dependent (byte_val d). clear d. intros d Hr.
  assert (Hinj : ∀ x y : Z, 0 <= x < 256 → 0 <= y < 256 → byte_of_Z x = byte_of_Z y → x = y).
  { intros x y Hx Hy E%(f_equal byte_val). rewrite !byte_val_of_Z, !Z.mod_small in E by done. done. }
  assert (Hout : ∀ x rest', byte_of_Z d :: r = WriteVarInt x ++ rest' → is_u64 x →
    (x < 0xfd ∧ d = x ∧ r = rest') ∨ (0xfd <= x <= 0xffff ∧ d = 0xfd ∧ r = le_encode 2 x ++ rest') ∨
    (0xffff < x <= 0xffffffff ∧ d = 0xfe ∧ r = le_encode 4 x ++ rest') ∨ (0xffffffff < x ∧ d = 0xff ∧ r = le_encode 8 x ++ rest')).
  { intros x rest' E Hx. unfold is_u64, WriteVarInt in *. destruct (Z.ltb_spec x 0xfd); [left|right].
    { cbn in E. injection E as E ->. apply Hinj in E; [|lia..]. done. }
    destruct (Z.leb_spec x 0xffff); [left|right; destruct (Z.leb_spec x 0xffffffff); [left|right]];
      cbn [app] in E; injection E as E ->; apply Hinj in E; try lia; split_and!; done || lia. }
  destruct (decide (0xfd <= d)) as [Hbig|Hsmall].
  - assert (Hcase : d = 0xfd ∨ d = 0xfe ∨ d = 0xff) by lia. unfold is_u64.
    destruct Hcase as [-> |[-> | ->]]; rewrite (ReadVarInt_wide_Ok _ _ _ _ _ _ Hr eq_refl); cbn [Z.of_nat Pos.of_succ_nat Pos.succ];
      (split; [intros (Hv & H0 & ->); split; [cbn in Hv; lia|]|intros [Hv E]]).
    all: try (destruct (Hout v rest E Hv) as [(? & ? & ?)|[(? & ? & ?)|[(? & ? & ?)|(? & ? & ?)]]]; try lia; split_and!; try done; cbn; lia).
    all: unfold WriteVarInt; repeat (match goal with |- context [Z.ltb ?a ?b] => destruct (Z.ltb_spec a b); [cbn in *; lia|] | |- context [Z.leb ?a ?b] => destruct (Z.leb_spec a b); try (cbn in *; lia) end); done.
  - assert (Hw : ReadVarInt (byte_of_Z d :: r) = Ok (d, r)).
    { unfold ReadVarInt. change (byte_of_Z d :: r) with ([byte_of_Z d] ++ r). rewrite readFull_app by done. cbn [mbind result_bind head default from_option id].
      rewrite byte_val_of_Z, Z.mod_small by done. unfold varint_width.
      rewrite !(proj2 (Z.eqb_neq _ _)) by lia. done. }
    rewrite Hw. split.
    + intros [= <- <-]. unfold is_u64. split; [lia|]. unfold WriteVarInt. by rewrite (proj2 (Z.ltb_lt d 0xfd)) by lia.
    + intros [Hv E]. destruct (Hout v rest E Hv) as [(? & -> & ->)|[(? & ? & ?)|[(? & ? & ?)|(? & ? & ?)]]]; [done|lia..].
Qed.

Lemma VarIntSerializeSize_spec v : VarIntSerializeSize v = len (WriteVarInt v).
Proof.
  unfold VarIntSerializeSize, WriteVarInt, len.
  repeat case_match; cbn [length]; rewrite ?length_le_encode; done.
Qed.

Lemma ReadVarBytes_Write max b rest : len b <= max → len b < 2 ^ 64 → ReadVarBytes max (WriteVarBytes b ++ rest) = Ok (b, rest).
Proof.
  intros Hm Hl. unfold ReadVarBytes, WriteVarBytes. rewrite <- app_assoc.
  rewrite (proj2 (ReadVarInt_iff _ (len b) (b ++ rest))) by (split; [unfold is_u64, len in *; lia|done]). cbn [mbind result_bind].
  rewrite (proj2 (Z.ltb_ge max (len b))) by lia. apply readFull_app. unfold len. by rewrite Nat2Z.id.
Qed.

Lemma ReadVarBytes_long max b rest : max < len b → len b < 2 ^ 64 →
  ReadVarBytes max (WriteVarBytes b ++ rest) = Err (messageError "ReadVarBytes" "larger than the max allowed size").
Proof.
  intros Hm Hl. unfold ReadVarBytes, WriteVarBytes. rewrite <- app_assoc.
  rewrite (proj2 (ReadVarInt_iff _ (len b) (b ++ rest))) by (split; [unfold is_u64, len in *; lia|done]). cbn [mbind result_bind].
  by rewrite (proj2 (Z.ltb_lt max (len b))) by lia.
Qed.

(** ** Metadata that can be stored *)

Record meta_ok (m : TransactionMeta) : Prop := {
  mo_number n : L1BlockNumber m = Some n → 0 <= n ∧ len (big_Bytes n) <= 1024;
  mo_time : is_u64 (L1Timestamp m);
  mo_sender a : L1MessageSender m = Some a → length a = 20%nat;
  mo_origin : 0 <= QueueOrigin m < 256;
  mo_index i : Index m = Some i → is_u64 i;
  mo_queue i : QueueIndex m = Some i → is_u64 i;
  mo_raw r : RawTransaction m = Some r → r ≠ getNullValue ∧ len r < 2 ^ 64 }.

Lemma nullable_null {A} (f : bytes → A) : nullable f getNullValue = None.
Proof. done. Qed.

Lemma nullable_value {A} (f : bytes → A) b : b ≠ getNullValue → nullable f b = Some (f b).
Proof. intros Hb. unfold nullable, isNullValue. by rewrite bool_decide_eq_false_2. Qed.

Lemma big_Bytes_not_null n : 0 <= n → big_Bytes n ≠ getNullValue.
Proof. intros Hn E. apply (big_Bytes_head n Hn). by rewrite E. Qed.

Lemma big_Bytes_u64 i : is_u64 i → len (big_Bytes i) <= 8.
Proof.
  intros [Hlo Hhi]. unfold big_Bytes. destruct (Z.eqb_spec i 0); [done|]. unfold len. rewrite length_be_encode.
  assert (Z.log2 i < 64) by (apply Z.log2_lt_pow2; lia). pose proof (Z.log2_nonneg i).
  assert (Z.log2 i / 8 < 8) by (apply Z.div_lt_upper_bound; lia). assert (0 <= Z.log2 i / 8) by (apply Z.div_pos; lia). lia.
Qed.

(** A field that may be nil: what is written is short, and read back. *)
Lemma optional_index i :
  (∀ x, i = Some x → is_u64 x) → let b := match i with None => getNullValue | Some x => big_Bytes x end in
  len b <= 1024 ∧ nullable (λ x, u64 (be_decode x)) b = i.
Proof.
  intros Hi. destruct i as [x|]; [|done]. specialize (Hi x eq_refl). pose proof (big_Bytes_u64 x Hi). pose proof Hi as [? ?].
  split; [lia|]. rewrite nullable_value by (by apply big_Bytes_not_null). rewrite be_decode_big_Bytes by done. by rewrite u64_small.
Qed.

(** All but the last field. *)
Lemma decode_fields m :
  meta_ok m → ∃ rest, TxMetaEncode m = rest ++ WriteVarBytes (match RawTransaction m with None => getNullValue | Some r => r end) ∧
  ∀ tail, TxMetaDecode (rest ++ tail) = '(raw, _) ← ReadVarBytes 130000 tail;
    Ok (mkMeta (L1BlockNumber m) (L1Timestamp m) (L1MessageSender m) (QueueOrigin m) (Index m) (QueueIndex m) (nullable id raw)).
Proof.
  intros [Hn Ht Hs Ho Hi Hq Hr]. unfold TxMetaEncode.
  set (nb := match L1BlockNumber m with None => getNullValue | Some n => big_Bytes n end).
  set (sb := match L1MessageSender m with None => getNullValue | Some a => a end).
  destruct (optional_index (Index m) Hi) as [Hil Ei]. destruct (optional_index (QueueIndex m) Hq) as [Hql Eq].
  assert (Hnb : len nb <= 1024 ∧ nullable be_decode nb = L1BlockNumber m).
  { unfold nb. destruct (L1BlockNumber m) as [n|]; [|done]. destruct (Hn n eq_refl) as [H0 Hl]. split; [done|].
    rewrite nullable_value by (by apply big_Bytes_not_null). by rewrite be_decode_big_Bytes. }
  assert (Hsb : len sb <= 1024 ∧ nullable (binary_Read 20) sb = L1MessageSender m).
  { unfold sb. destruct (L1MessageSender m) as [a|]; [|done]. specialize (Hs a eq_refl). split; [unfold len; lia|].
    rewrite nullable_value by (intros ->; done). unfold binary_Read. rewrite Hs. cbn [Nat.ltb Nat.leb]. by rewrite <- Hs, firstn_all. }
  assert (Hob : default 0 (nullable (λ q, u64 (be_decode q) mod 256) [byte_of_Z (QueueOrigin m)]) = QueueOrigin m).
  { destruct (decide (QueueOrigin m = 0)) as [->|]; [done|]. rewrite nullable_value.
    - cbn [default from_option id]. assert (E1 : be_decode [byte_of_Z (QueueOrigin m)] = QueueOrigin m).
      { change (be_decode [byte_of_Z (QueueOrigin m)]) with (byte_val (byte_of_Z (QueueOrigin m)) + 256 * 0). rewrite byte_val_of_Z, Z.mod_small by lia. lia. }
      rewrite E1, u64_small by (unfold is_u64; lia). apply Z.mod_small. lia.
    - intros [= E]. apply (f_equal byte_val) in E. rewrite byte_val_of_Z, Z.mod_small in E by lia. done. }
  assert (Htb : le_decode (binary_Read 8 (le_encode 8 (L1Timestamp m))) = L1Timestamp m).
  { unfold binary_Read. rewrite length_le_encode. cbn [Nat.ltb Nat.leb]. rewrite take_ge by (rewrite length_le_encode; lia).
    apply le_decode_encode_small. exact Ht. }
  eexists. split; [rewrite !app_assoc; reflexivity|]. intros tail. rewrite <- !app_assoc. unfold TxMetaDecode.
  assert (Hlt : len (le_encode 8 (L1Timestamp m)) = 8) by (unfold len; by rewrite length_le_encode).
  assert (Hlo : len [byte_of_Z (QueueOrigin m)] = 1) by done.
  repeat (rewrite ReadVarBytes_Write by lia; cbn [mbind result_bind]).
  destruct (ReadVarBytes 130000 tail) as [[raw ?]|e|s]; try done.
  cbn [mbind result_bind]. rewrite Hob, Htb, Ei, Eq. destruct Hnb as [_ ->], Hsb as [_ ->]. done.
Qed.

(** Metadata comes back from disk, for raw transactions of up to 130000 bytes. *)
Theorem TxMeta_roundtrip m :
  meta_ok m → (∀ r, RawTransaction m = Some r → len r <= 130000) → TxMetaDecode (TxMetaEncode m) = Ok m.
Proof.
  intros Hok Hlen. destruct (decode_fields m Hok) as (rest & -> & E). rewrite E, <- (app_nil_r (WriteVarBytes _)).
  pose proof (mo_raw _ Hok) as Hr. destruct m as [n t s o i q [r|]]; cbn [RawTransaction] in *.
  - specialize (Hlen r eq_refl). destruct (Hr r eq_refl) as [Hnull Hl]. rewrite ReadVarBytes_Write by lia. cbn [mbind result_bind].
    by rewrite nullable_value.
  - by rewrite ReadVarBytes_Write.
Qed.

(** A longer raw transaction is written but its metadata cannot be read any more. *)
Theorem TxMeta_lost m r :
  meta_ok m → RawTransaction m = Some r → 130000 < len r → ∃ e, TxMetaDecode (TxMetaEncode m) = Err e.
Proof.
  intros Hok Er Hlen. destruct (decode_fields m Hok) as (rest & -> & E). rewrite E, Er, <- (app_nil_r (WriteVarBytes _)).
  destruct (mo_raw _ Hok r Er) as [_ Hl]. rewrite ReadVarBytes_long by done. by eexists.
Qed.
