(* ===== verification/LegacyTx.v ===== *)
(** * Transactions of the legacy L2 node

    l2geth/core/types/transaction.go and transaction_signing.go: a transaction with its
    metadata and its caches, the three signers, and the message the state transition
    executes.  The elliptic curve is a parameter ([Secp256k1]); hashes are taken of the
    encodings of RLPTypes.  What a key signs is recovered as sent by its address, on the
    chain it was signed for and on no other, and the cached sender is the one the
    signature gives. *)

From S2P Require Import Prelude GoErrors EthTypes Extern RLP RLPStream RLPTypes TxMeta.

(** ** Data *)

Record txdata := mkTxdata {
  AccountNonce : Z;
  Price : Z;
  GasLimit : Z;
  Recipient : option Address;
  Amount : Z;
  Payload : bytes;
  sig_V : Z; sig_R : Z; sig_S : Z }.

(** The signers; [chainIdMul] is twice the chain id. *)
Inductive Signer := FrontierSigner | HomesteadSigner | EIP155Signer (chainId : Z).

(** [Equal] of the signers. *)
#[export] Instance Signer_eq_dec : EqDecision Signer.
Proof. solve_decision. Defined.

Definition NewEIP155Signer (chainId : option Z) : Signer := EIP155Signer (default 0 chainId).

(** The caches of the hash and of the sender are fields of the transaction. *)
Record Transaction := mkTx {
  data : txdata;
  meta : TransactionMeta;
  hash : option Hash;
  from : option (Signer * Address) }.

Definition newTransaction (nonce : Z) (to : option Address) (amount : option Z) (gasLimit : Z)
    (gasPrice : option Z) (payload : bytes) : Transaction :=
  mkTx (mkTxdata nonce (default 0 gasPrice) gasLimit to (default 0 amount) payload 0 0 0)
       (mkMeta None 0 None QueueOriginSequencer None None None) None None.
Definition NewTransaction (nonce : Z) (to : Address) := newTransaction nonce (Some to).
Definition NewContractCreation (nonce : Z) := newTransaction nonce None.

(** ** Accessors that write *)

Definition with_meta (tx : Transaction) (m : TransactionMeta) : Transaction :=
  mkTx (data tx) m (hash tx) (from tx).
Definition SetTransactionMeta (m : option TransactionMeta) (tx : Transaction) : Transaction :=
  match m with None => tx | Some m => with_meta tx m end.
Definition SetIndex (index : Z) (tx : Transaction) : Transaction :=
  let m := meta tx in
  with_meta tx (mkMeta (L1BlockNumber m) (L1Timestamp m) (L1MessageSender m) (QueueOrigin m) (Some index) (QueueIndex m) (RawTransaction m)).
Definition SetL1Timestamp (ts : Z) (tx : Transaction) : Transaction :=
  let m := meta tx in
  with_meta tx (mkMeta (L1BlockNumber m) ts (L1MessageSender m) (QueueOrigin m) (Index m) (QueueIndex m) (RawTransaction m)).
Definition SetL1BlockNumber (bn : Z) (tx : Transaction) : Transaction :=
  let m := meta tx in
  with_meta tx (mkMeta (Some bn) (L1Timestamp m) (L1MessageSender m) (QueueOrigin m) (Index m) (QueueIndex m) (RawTransaction m)).
Definition SetNonce (nonce : Z) (tx : Transaction) : Transaction :=
  let d := data tx in
  mkTx (mkTxdata nonce (Price d) (GasLimit d) (Recipient d) (Amount d) (Payload d) (sig_V d) (sig_R d) (sig_S d)) (meta tx) (hash tx) (from tx).

(** [Cost]. *)
Definition Cost (tx : Transaction) : Z := Price (data tx) * GasLimit (data tx) + Amount (data tx).

(** ** Chain ids *)

(** [big.Int.BitLen] and [Uint64]: of the absolute value. *)
Definition BitLen (z : Z) : Z := if z =? 0 then 0 else Z.log2 (Z.abs z) + 1.
Definition big_Uint64 (z : Z) : Z := u64 (Z.abs z).

Definition isProtectedV (v : Z) : bool :=
  if BitLen v <=? 8 then negb (big_Uint64 v =? 27) && negb (big_Uint64 v =? 28) else true.

Definition deriveChainId (v : Z) : Z :=
  if BitLen v <=? 64 then
    let v := big_Uint64 v in
    if (v =? 27) || (v =? 28) then 0 else (v ⊟ 35) / 2
  else (v - 35) / 2.

Definition Protected (tx : Transaction) : bool := isProtectedV (sig_V (data tx)).
Definition ChainId (tx : Transaction) : Z := deriveChainId (sig_V (data tx)).

(** ** Encodings and hashes *)

Definition txdata_type : gotype :=
  TStruct [(no_tags, TUint 64); (no_tags, TBigInt); (no_tags, TUint 64);
           (mkTags true String false, TPtr (TByteArray 20)); (no_tags, TBigInt);
           (no_tags, TBytes); (no_tags, TBigInt); (no_tags, TBigInt); (no_tags, TBigInt)].

Definition unsigned_fields (d : txdata) : list goval :=
  [VUint (AccountNonce d); VBig (Some (Price d)); VUint (GasLimit d); VPtr (VStr <$> Recipient d);
   VBig (Some (Amount d)); VStr (Payload d)].
Definition txdata_value (d : txdata) : goval :=
  VList (unsigned_fields d ++ [VBig (Some (sig_V d)); VBig (Some (sig_R d)); VBig (Some (sig_S d))]).

Definition EncodeRLP (tx : Transaction) : result bytes := EncodeValue txdata_type (txdata_value (data tx)).

(** The slices of interfaces that are hashed for a signature; each element is written by
    its dynamic type, so that the slice is written like a struct of these types. *)
Definition unsigned_types : list (tags * gotype) :=
  [(no_tags, TUint 64); (no_tags, TBigInt); (no_tags, TUint 64); (no_tags, TPtr (TByteArray 20));
   (no_tags, TBigInt); (no_tags, TBytes)].
Definition frontier_sig_type : gotype := TStruct unsigned_types.
Definition eip155_sig_type : gotype :=
  TStruct (unsigned_types ++ [(no_tags, TBigInt); (no_tags, TUint 64); (no_tags, TUint 64)]).

(** ** Signature values *)

Definition SignatureLength : nat := 65.
Definition secp256k1N : Z := 0xfffffffffffffffffffffffffffffffebaaedce6af48a03bbfd25e8cd0364141.
Definition secp256k1halfN : Z := secp256k1N / 2.

Definition ErrInvalidSig : error := ErrorNew "invalid transaction v, r, s values".
Definition ErrInvalidChainId : error := ErrorNew "invalid chain id for signer".

Definition ValidateSignatureValues (v r s : Z) (homestead : bool) : bool :=
  if (r <? 1) || (s <? 1) then false
  else if homestead && (secp256k1halfN <? s) then false
  else (r <? secp256k1N) && (s <? secp256k1N) && ((v =? 0) || (v =? 1)).

(** The values of a signature [R || S || V], whose last byte is zero or one. *)
Definition Frontier_SignatureValues (sig : bytes) : result (Z * Z * Z) :=
  if negb (length sig =? SignatureLength)%nat then Panic "wrong size for signature"
  else Ok (be_decode (slice 0 32 sig), be_decode (slice 32 64 sig), (byte_val (nth 64 sig x00) + 27) mod 256).

Definition SignatureValues (sg : Signer) (sig : bytes) : result (Z * Z * Z) :=
  '(r, s, v) ← Frontier_SignatureValues sig;
  match sg with
  | EIP155Signer chainId =>
      Ok (r, s, if chainId =? 0 then v else (byte_val (nth 64 sig x00) + 35) mod 256 + 2 * chainId)
  | _ => Ok (r, s, v)
  end.

(** [WithSignature]: a copy without the caches. *)
Definition WithSignature (sg : Signer) (sig : bytes) (tx : Transaction) : result Transaction :=
  '(r, s, v) ← SignatureValues sg sig;
  let d := data tx in
  Ok (mkTx (mkTxdata (AccountNonce d) (Price d) (GasLimit d) (Recipient d) (Amount d) (Payload d) v r s) (meta tx) None None).

(** ** Senders *)

(** The curve (crypto/secp256k1): recovery of the public key from a digest and a
    signature, and signing.  A signature has 65 bytes, its values are in range, the
    second in the lower half, and it recovers the key that signed. *)
Class Secp256k1 := {
  PrivateKey : Type;
  PublicKey : PrivateKey → bytes;
  Ecrecover : Hash → bytes → result bytes;
  Sign : Hash → PrivateKey → result bytes;
  PublicKey_format : ∀ k, ∃ xy, PublicKey k = x04 :: xy;
  Sign_values : ∀ h k sig, Sign h k = Ok sig →
    length sig = SignatureLength ∧ byte_val (nth 64 sig x00) <= 1 ∧
    0 < be_decode (slice 0 32 sig) < secp256k1N ∧ 0 < be_decode (slice 32 64 sig) <= secp256k1halfN;
  Ecrecover_Sign : ∀ h k sig, Sign h k = Ok sig → Ecrecover h sig = Ok (PublicKey k) }.

Section Signing.
Context `{Keccak} `{Secp256k1}.

(** [rlpHash] ignores the error of an encoding, which is then empty. *)
Definition rlpHash (t : gotype) (v : goval) : Hash :=
  Keccak256 (match EncodeValue t v with Ok b => b | _ => [] end).

(** [Hash] of a signer: what is signed. *)
Definition sigHash (sg : Signer) (d : txdata) : Hash :=
  match sg with
  | EIP155Signer chainId =>
      rlpHash eip155_sig_type (VList (unsigned_fields d ++ [VBig (Some chainId); VUint 0; VUint 0]))
  | _ => rlpHash frontier_sig_type (VList (unsigned_fields d))
  end.

(** [Hash] of a transaction, cached. *)
Definition tx_Hash (tx : Transaction) : Transaction * Hash :=
  match hash tx with
  | Some h => (tx, h)
  | None => let h := rlpHash txdata_type (txdata_value (data tx)) in (mkTx (data tx) (meta tx) (Some h) (from tx), h)
  end.

Definition pub_address (pub : bytes) : Address := drop 12 (Keccak256 (tail pub)).

Definition recoverPlain (sighash : Hash) (r s vb : Z) (homestead : bool) : result Address :=
  if 8 <? BitLen vb then Err ErrInvalidSig
  else let v := (big_Uint64 vb ⊟ 27) mod 256 in
       if negb (ValidateSignatureValues v r s homestead) then Err ErrInvalidSig
       else pub ← Ecrecover sighash (be_encode 32 r ++ be_encode 32 s ++ [byte_of_Z v]);
            if bool_decide (head pub = Some x04) then Ok (pub_address pub) else Err (ErrorNew "invalid public key").

(** [Sender] of the signers. *)
Definition Signer_Sender (sg : Signer) (d : txdata) : result Address :=
  let homestead := recoverPlain (sigHash HomesteadSigner d) (sig_R d) (sig_S d) (sig_V d) true in
  match sg with
  | FrontierSigner => recoverPlain (sigHash FrontierSigner d) (sig_R d) (sig_S d) (sig_V d) false
  | HomesteadSigner => homestead
  | EIP155Signer chainId =>
      if negb (isProtectedV (sig_V d)) then homestead
      else if negb (deriveChainId (sig_V d) =? chainId) then Err ErrInvalidChainId
      else recoverPlain (sigHash sg d) (sig_R d) (sig_S d) (sig_V d - 2 * chainId - 8) true
  end.

(** [types.Sender]: the address of the cache if it is of an equal signer. *)
Definition Sender (sg : Signer) (tx : Transaction) : Transaction * result Address :=
  let derive :=
    match Signer_Sender sg (data tx) with
    | Ok a => (mkTx (data tx) (meta tx) (hash tx) (Some (sg, a)), Ok a)
    | r => (tx, r)
    end in
  match from tx with
  | Some (sg', a) => if bool_decide (sg' = sg) then (tx, Ok a) else derive
  | None => derive
  end.

Definition SignTx (tx : Transaction) (sg : Signer) (prv : PrivateKey) : result Transaction :=
  sig ← Sign (sigHash sg (data tx)) prv; WithSignature sg sig tx.

Definition PubkeyToAddress (k : PrivateKey) : Address := pub_address (PublicKey k).

(** ** Messages *)

Record Message := mkMessage {
  msg_to : option Address; msg_from : Address; msg_nonce : Z; msg_amount : Z; msg_gasLimit : Z;
  msg_gasPrice : Z; msg_data : bytes; msg_checkNonce : bool;
  msg_l1Timestamp : Z; msg_l1BlockNumber : option Z; msg_queueOrigin : Z }.

(** [AsMessage]; with an error it also returns the message, from the zero address. *)
Definition AsMessage (usingOVM : bool) (sg : Signer) (tx : Transaction) : Transaction * Message * result () :=
  let d := data tx in let m := meta tx in
  let msg f := mkMessage (Recipient d) f (AccountNonce d) (Amount d) (GasLimit d) (Price d) (Payload d) true
                         (L1Timestamp m) (L1BlockNumber m) (QueueOrigin m) in
  let sender := let '(tx, r) := Sender sg tx in
    (tx, msg (match r with Ok a => a | _ => zero_address end), _ ← r; Ok ()) in
  match L1MessageSender m with
  | Some a => if usingOVM && (QueueOrigin m =? QueueOriginL1ToL2) then (tx, msg a, Ok ()) else sender
  | None => sender
  end.

(** ** Signature values *)

Lemma BitLen_le v n : 0 <= v → 0 <= n → BitLen v <= n ↔ v < 2 ^ n.
Proof.
  intros Hv Hn. unfold BitLen. destruct (Z.eqb_spec v 0) as [->|Hz].
  - split; [|lia]. intros _. by apply Z.pow_pos_nonneg.
  - rewrite Z.abs_eq by done. rewrite Z.log2_lt_pow2 by lia. lia.
Qed.

(** The recovery value of an EIP-155 signature names its chain. *)
Lemma deriveChainId_eip155 c v :
  0 < c → 0 <= v <= 1 → deriveChainId (v + 35 + 2 * c) = c ∧ isProtectedV (v + 35 + 2 * c) = true.
Proof.
  intros Hc Hv. set (w := v + 35 + 2 * c). assert (Hw : 0 <= w) by lia.
  assert (Hdiv : (w - 35) / 2 = c) by (symmetry; apply Z.div_unique with v; lia). split.
  - unfold deriveChainId. destruct (Z.leb_spec (BitLen w) 64) as [Hl|]; [|done].
    apply BitLen_le in Hl; [|lia..]. unfold big_Uint64. rewrite Z.abs_eq, !u64_small by (unfold is_u64; lia).
    rewrite (proj2 (Z.eqb_neq w 27)), (proj2 (Z.eqb_neq w 28)) by lia. done.
  - unfold isProtectedV. destruct (Z.leb_spec (BitLen w) 8) as [Hl|]; [|done].
    apply BitLen_le in Hl; [|lia..]. unfold big_Uint64. rewrite Z.abs_eq, u64_small by (unfold is_u64; lia).
    rewrite (proj2 (Z.eqb_neq w 27)), (proj2 (Z.eqb_neq w 28)) by lia. done.
Qed.

Lemma isProtectedV_plain v : 0 <= v <= 1 → isProtectedV (v + 27) = false.
Proof. intros Hv. assert (v = 0 ∨ v = 1) as [-> | ->] by lia; done. Qed.

(** A signature of 65 bytes is its three values. *)
Lemma signature_split sig :
  length sig = SignatureLength →
  be_encode 32 (be_decode (slice 0 32 sig)) ++ be_encode 32 (be_decode (slice 32 64 sig)) ++ [byte_of_Z (byte_val (nth 64 sig x00))] = sig.
Proof.
  unfold SignatureLength, slice. intros Hl. rewrite !be_encode_decode_len by (rewrite length_take, length_drop, Hl; lia).
  rewrite byte_of_Z_val, drop_0. change (32 - 0)%nat with 32%nat. change (64 - 32)%nat with 32%nat.
  rewrite <- (take_drop 32 sig) at 4. f_equal. rewrite <- (take_drop 32 (drop 32 sig)) at 2. f_equal.
  rewrite drop_drop. change (32 + 32)%nat with 64%nat.
  destruct (drop 64 sig) as [|x l] eqn:E; [apply (f_equal length) in E; rewrite length_drop, Hl in E; done|].
  assert (l = []) as -> by (apply (f_equal length) in E; rewrite length_drop, Hl in E; destruct l; [done|cbn in E; lia]).
  f_equal. rewrite <- (take_drop 64 sig), E, app_nth2 by (rewrite length_take, Hl; lia). by rewrite length_take, Hl.
Qed.

(** The transaction with other signature values. *)
Definition signed (d : txdata) (v r s : Z) : txdata :=
  mkTxdata (AccountNonce d) (Price d) (GasLimit d) (Recipient d) (Amount d) (Payload d) v r s.

Lemma sigHash_signed sg d v r s : sigHash sg (signed d v r s) = sigHash sg d.
Proof. done. Qed.

Lemma SignTx_inv tx sg k tx' :
  SignTx tx sg k = Ok tx' →
  ∃ sig v, Sign (sigHash sg (data tx)) k = Ok sig ∧ v = byte_val (nth 64 sig x00) ∧ 0 <= v <= 1 ∧
    meta tx' = meta tx ∧ from tx' = None ∧ hash tx' = None ∧
    data tx' = signed (data tx) (match sg with EIP155Signer c => if c =? 0 then v + 27 else v + 35 + 2 * c | _ => v + 27 end)
                      (be_decode (slice 0 32 sig)) (be_decode (slice 32 64 sig)).
Proof.
  unfold SignTx. destruct (Sign _ k) as [sig| |] eqn:E; try done. destruct (Sign_values _ _ _ E) as (Hl & Hv & _).
  cbn [mbind result_bind]. unfold WithSignature, SignatureValues, Frontier_SignatureValues. rewrite Hl, Nat.eqb_refl. cbn [negb mbind result_bind].
  pose proof (byte_val_range (nth 64 sig x00)) as Hr.
  rewrite (Z.mod_small (_ + 27)), (Z.mod_small (_ + 35)) by lia.
  intros Htx. exists sig, (byte_val (nth 64 sig x00)). split; [done|]. split; [done|]. split; [lia|].
  destruct sg as [| |c]; [injection Htx as <-; done..|]. destruct (c =? 0); injection Htx as <-; done.
Qed.

Lemma recoverPlain_Sign h k sig v hs :
  Sign h k = Ok sig → v = byte_val (nth 64 sig x00) →
  recoverPlain h (be_decode (slice 0 32 sig)) (be_decode (slice 32 64 sig)) (v + 27) hs = Ok (PubkeyToAddress k).
Proof.
  intros E ->. destruct (Sign_values _ _ _ E) as (Hl & Hv & Hr & Hs). pose proof (byte_val_range (nth 64 sig x00)) as Hb.
  unfold recoverPlain. set (v := byte_val _) in *.
  assert (HB : BitLen (v + 27) <= 8) by (apply BitLen_le; lia). rewrite (proj2 (Z.ltb_ge _ _) HB).
  unfold big_Uint64. rewrite Z.abs_eq by lia. rewrite (u64_small (v + 27)) by (unfold is_u64; lia).
  replace (v + 27 - 27) with v by lia. rewrite u64_small, Z.mod_small by (unfold is_u64; lia).
  assert (Hhalf : secp256k1halfN < secp256k1N) by done.
  assert (Hval : ValidateSignatureValues v (be_decode (slice 0 32 sig)) (be_decode (slice 32 64 sig)) hs = true).
  { unfold ValidateSignatureValues. rewrite !(proj2 (Z.ltb_ge _ 1)) by lia. cbn [orb].
    rewrite (proj2 (Z.ltb_ge _ _)) by lia. rewrite andb_false_r. rewrite !(proj2 (Z.ltb_lt _ secp256k1N)) by lia.
    assert (v = 0 ∨ v = 1) as [-> | ->] by lia; done. }
  rewrite Hval. cbn [negb]. unfold v. rewrite signature_split by done. rewrite (Ecrecover_Sign _ _ _ E). cbn [mbind result_bind].
  unfold PubkeyToAddress. destruct (PublicKey_format k) as [xy ->]. by rewrite bool_decide_eq_true_2.
Qed.

Lemma Sender_of_SignTx tx sg k tx' c' :
  (∀ c, sg = EIP155Signer c → 0 < c) → SignTx tx sg k = Ok tx' →
  (Sender sg tx').2 = Ok (PubkeyToAddress k) ∧
  (Sender (EIP155Signer c') tx').2 = match sg with
    | EIP155Signer c => if bool_decide (c = c') then Ok (PubkeyToAddress k) else Err ErrInvalidChainId
    | _ => Ok (PubkeyToAddress k)
    end.
Proof.
  intros Hc Htx. destruct (SignTx_inv _ _ _ _ Htx) as (sig & v & E & Ev & Hv & Hm & Hf & Hh & Hd).
  assert (Hplain : ∀ sg2, (Sender sg2 tx').2 = Signer_Sender sg2 (data tx')).
  { intros sg2. unfold Sender. rewrite Hf. by destruct (Signer_Sender _ _). }
  rewrite !Hplain, Hd. clear Hplain Hd. destruct sg as [| |c].
  - cbn [Signer_Sender signed sig_V sig_R sig_S]. rewrite isProtectedV_plain by done. cbn [negb].
    change (sigHash HomesteadSigner) with (sigHash FrontierSigner). rewrite !sigHash_signed. split; by eapply recoverPlain_Sign.
  - cbn [Signer_Sender signed sig_V sig_R sig_S]. rewrite isProtectedV_plain by done. cbn [negb].
    rewrite !sigHash_signed. split; by eapply recoverPlain_Sign.
  - specialize (Hc c eq_refl). rewrite (proj2 (Z.eqb_neq c 0)) by lia.
    destruct (deriveChainId_eip155 c v Hc Hv) as [Hd Hp]. cbn [Signer_Sender signed sig_V sig_R sig_S].
    rewrite Hp, Hd. cbn [negb]. rewrite Z.eqb_refl. cbn [negb]. rewrite !sigHash_signed.
    replace (v + 35 + 2 * c - 2 * c - 8) with (v + 27) by lia.
    assert (Hr : recoverPlain (sigHash (EIP155Signer c) (data tx)) (be_decode (slice 0 32 sig)) (be_decode (slice 32 64 sig)) (v + 27) true = Ok (PubkeyToAddress k))
      by (by eapply recoverPlain_Sign).
    split; [done|]. case_bool_decide as Hcc; [subst c'; rewrite Z.eqb_refl; cbn [negb]|by rewrite (proj2 (Z.eqb_neq c c'))].
    by replace (v + 35 + 2 * c - 2 * c - 8) with (v + 27) by lia.
Qed.
(** C19. What a key signs is sent by the key's address; with the chain in the signature every
    other chain rejects it, and without it every chain accepts it. *)
Theorem Sender_SignTx tx sg k tx' c' :
  (∀ c, sg = EIP155Signer c → 0 < c) → SignTx tx sg k = Ok tx' →
  (Sender sg tx').2 = Ok (PubkeyToAddress k) ∧
  (Sender (EIP155Signer c') tx').2 = match sg with
    | EIP155Signer c => if bool_decide (c = c') then Ok (PubkeyToAddress k) else Err ErrInvalidChainId
    | _ => Ok (PubkeyToAddress k)
    end.
Proof. apply Sender_of_SignTx. Qed.

(** ** What an address stands for *)

Lemma recoverPlain_Ok h r s vb hs a :
  recoverPlain h r s vb hs = Ok a →
  ∃ v pub, 0 <= v <= 1 ∧ 0 < r < secp256k1N ∧ 0 < s < secp256k1N ∧ (hs = true → s <= secp256k1halfN) ∧
    Ecrecover h (be_encode 32 r ++ be_encode 32 s ++ [byte_of_Z v]) = Ok pub ∧ head pub = Some x04 ∧ a = pub_address pub.
Proof.
  unfold recoverPlain. destruct (8 <? BitLen vb); [done|]. set (v := _ mod 256).
  destruct (ValidateSignatureValues v r s hs) eqn:E; [|done]. cbn [negb].
  destruct (Ecrecover _ _) as [pub| |] eqn:Ep; try done. cbn [mbind result_bind]. intros Ha.
  exists v, pub. unfold ValidateSignatureValues in E.
  destruct (Z.ltb_spec r 1), (Z.ltb_spec s 1); cbn [orb] in E; try done.
  assert (Hs : hs = true → s <= secp256k1halfN) by (intros ->; destruct (Z.ltb_spec secp256k1halfN s); [done|lia]).
  destruct (hs && (secp256k1halfN <? s)); [done|]. apply andb_true_iff in E as [E Ev]. apply andb_true_iff in E as [Er Es].
  apply Z.ltb_lt in Er, Es. apply orb_true_iff in Ev as [Ev|Ev]; apply Z.eqb_eq in Ev; split_and!; try done; try lia.
  all: case_bool_decide; [|done]; try done; by injection Ha as <-.
Qed.

(** A sender is the address of a key that signed the fields of the transaction, and the
    chain id unless the signature carries none; the values are canonical. *)
Theorem Sender_sound sg d a :
  Signer_Sender sg d = Ok a →
  ∃ sg' v pub, Ecrecover (sigHash sg' d) (be_encode 32 (sig_R d) ++ be_encode 32 (sig_S d) ++ [byte_of_Z v]) = Ok pub ∧
    0 <= v <= 1 ∧ head pub = Some x04 ∧ a = pub_address pub ∧
    0 < sig_R d < secp256k1N ∧ 0 < sig_S d < secp256k1N ∧ (sg ≠ FrontierSigner → sig_S d <= secp256k1halfN) ∧
    sg' = (if isProtectedV (sig_V d) then sg else match sg with FrontierSigner => FrontierSigner | _ => HomesteadSigner end) ∧
    (∀ c, sg' = EIP155Signer c → deriveChainId (sig_V d) = c).
Proof.
  match goal with |- _ → ?G => assert (Hpack : ∀ sg' vb hs, recoverPlain (sigHash sg' d) (sig_R d) (sig_S d) vb hs = Ok a →
    (sg ≠ FrontierSigner → hs = true) →
    sg' = (if isProtectedV (sig_V d) then sg else match sg with FrontierSigner => FrontierSigner | _ => HomesteadSigner end) →
    (∀ c, sg' = EIP155Signer c → deriveChainId (sig_V d) = c) → G) end.
  { intros sg' vb hs (v & pub & ? & ? & ? & ? & ? & ? & ?)%recoverPlain_Ok ? ? ?; exists sg', v, pub; split_and!; try done; try lia; auto. }
  destruct sg as [| |c]; cbn [Signer_Sender].
  - intros E. eapply (Hpack FrontierSigner); [done..| |done]. by destruct (isProtectedV _).
  - intros E. eapply (Hpack HomesteadSigner); [done..| |done]. by destruct (isProtectedV _).
  - destruct (isProtectedV (sig_V d)) eqn:Hp; cbn [negb].
    + destruct (Z.eqb_spec (deriveChainId (sig_V d)) c) as [Hd|]; [|done]. cbn [negb]. intros E.
      eapply (Hpack (EIP155Signer c)); [done..|]. by intros ? [= <-].
    + intros E. eapply (Hpack HomesteadSigner); done.
Qed.

(** ** The caches *)

(** The transactions the program builds. *)
Inductive built : Transaction → Prop :=
| built_new nonce to amount gas price payload : built (newTransaction nonce to amount gas price payload)
| built_signature sg sig tx tx' : built tx → WithSignature sg sig tx = Ok tx' → built tx'
| built_sender sg tx : built tx → built (Sender sg tx).1
| built_hash tx : built tx → built (tx_Hash tx).1
| built_message ovm sg tx : built tx → built (AsMessage ovm sg tx).1.1
| built_meta m tx : built tx → built (SetTransactionMeta m tx)
| built_index i tx : built tx → built (SetIndex i tx)
| built_timestamp ts tx : built tx → built (SetL1Timestamp ts tx)
| built_number bn tx : built tx → built (SetL1BlockNumber bn tx).

Definition coherent (tx : Transaction) : Prop :=
  (∀ sg a, from tx = Some (sg, a) → Signer_Sender sg (data tx) = Ok a) ∧
  (∀ h, hash tx = Some h → h = rlpHash txdata_type (txdata_value (data tx))).

Lemma Sender_step sg tx : coherent tx →
  (Sender sg tx).2 = Signer_Sender sg (data tx) ∧ coherent (Sender sg tx).1 ∧ data (Sender sg tx).1 = data tx.
Proof.
  intros Hc. pose proof Hc as [Hf Hh]. unfold Sender.
  set (derive := match Signer_Sender sg (data tx) with Ok _ => _ | _ => _ end).
  assert (Hd : derive.2 = Signer_Sender sg (data tx) ∧ coherent derive.1 ∧ data derive.1 = data tx).
  { subst derive. destruct (Signer_Sender sg (data tx)) as [a|e|m] eqn:E; try done. split_and!; [done| |done].
    split; [|done]. cbn. by intros ? ? [= <- <-]. }
  destruct (from tx) as [[sg' a]|] eqn:E; [|done]. case_bool_decide as Hs; [|done]. subst sg'.
  split_and!; [|done..]. symmetry. by apply Hf.
Qed.

Lemma built_coherent tx : built tx → coherent tx.
Proof.
  induction 1 as [|sg sig tx tx' _ _ E|sg tx _ IH|tx _ IH|ovm sg tx _ IH|[m|] tx _ IH|i tx _ IH|ts tx _ IH|bn tx _ IH]; try done.
  - unfold WithSignature in E. destruct (SignatureValues sg sig) as [[[r s] v]| |]; try done. by injection E as <-.
  - by apply Sender_step.
  - unfold tx_Hash. destruct (hash tx) eqn:E; [done|]. destruct IH as [Hf _]. split; [done|]. cbn. by intros ? [= <-].
  - unfold AsMessage. pose proof (Sender_step sg tx IH) as (_ & Hc & _). destruct (Sender sg tx) as [tx1 r].
    destruct (L1MessageSender _); [destruct (ovm && _)|]; done.
Qed.

(** Caching is transparent: hash and sender are always those of the data. *)
Theorem caches_transparent tx sg :
  built tx → (Sender sg tx).2 = Signer_Sender sg (data tx) ∧ (tx_Hash tx).2 = rlpHash txdata_type (txdata_value (data tx)).
Proof.
  intros Hc%built_coherent. split; [by apply Sender_step|]. unfold tx_Hash. destruct (hash tx) as [h|] eqn:E; [|done].
  cbn. by apply Hc.
Qed.

(** The sender of a message: the L1 sender for a deposit, the signer otherwise. *)
Theorem AsMessage_from ovm sg tx :
  built tx → let '(_, msg, err) := AsMessage ovm sg tx in
  match L1MessageSender (meta tx) with
  | Some a => if ovm && (QueueOrigin (meta tx) =? QueueOriginL1ToL2) then err = Ok () ∧ msg_from msg = a
              else err = Ok () → Signer_Sender sg (data tx) = Ok (msg_from msg)
  | None => err = Ok () → Signer_Sender sg (data tx) = Ok (msg_from msg)
  end.
Proof.
  intros Hb. unfold AsMessage. destruct (Sender_step sg tx (built_coherent tx Hb)) as (<- & _ & _). destruct (Sender sg tx) as [tx1 r].
  destruct (L1MessageSender (meta tx)) as [a|]; [destruct (ovm && _); [done|]|]; by destruct r.
Qed.
End Signing.

(** ** An instance *)

Module TxExample.

Definition toy_point (k : Z) : Z := k mod 2 ^ 128 + 1.
Definition toy_sign (k : Z) : bytes := be_encode 32 (toy_point k) ++ be_encode 32 1 ++ [x00].

Lemma toy_point_range k : 0 < toy_point k < 2 ^ 200.
Proof. unfold toy_point. pose proof (Z.mod_pos_bound k (2 ^ 128) eq_refl). lia. Qed.

Lemma toy_sign_r k : be_decode (slice 0 32 (toy_sign k)) = toy_point k.
Proof.
  unfold slice, toy_sign. rewrite drop_0. change (32 - 0)%nat with 32%nat. rewrite take_app_length' by (by rewrite length_be_encode).
  apply be_decode_encode_small. pose proof (toy_point_range k). cbn. lia.
Qed.

Lemma toy_sign_s k : slice 32 64 (toy_sign k) = be_encode 32 1.
Proof.
  unfold slice, toy_sign. rewrite drop_app_length' by (by rewrite length_be_encode). change (64 - 32)%nat with 32%nat.
  by rewrite take_app_length' by (by rewrite length_be_encode).
Qed.

(** A curve for examples: the key is written into the signature. *)
#[local] Program Instance example_curve : Secp256k1 := {
  PrivateKey := Z;
  PublicKey k := x04 :: be_encode 64 (toy_point k);
  Ecrecover h sig := Ok (x04 :: be_encode 64 (be_decode (slice 0 32 sig)));
  Sign h k := Ok (toy_sign k) }.
Next Obligation. intros k. by eexists. Qed.
Next Obligation.
  intros h k sig [= <-]. rewrite toy_sign_r, toy_sign_s. pose proof (toy_point_range k).
  assert (2 ^ 200 < secp256k1N) by done. split_and!; try done; try lia.
Qed.
Next Obligation. intros h k sig [= <-]. by rewrite toy_sign_r. Qed.

Definition transfer : Transaction := NewTransaction 3 (zeros 20) (Some 10) 21000 (Some 1) [].

#[local] Existing Instance example_keccak.

Definition key7 : PrivateKey := 7.
Definition signed_transfer : Transaction := match SignTx transfer (EIP155Signer 10) key7 with Ok tx => tx | _ => transfer end.

Lemma Sender_SignTx_witness :
  (Sender (EIP155Signer 10) signed_transfer).2 = Ok (PubkeyToAddress key7) ∧
  (Sender (EIP155Signer 69) signed_transfer).2 = Err ErrInvalidChainId.
Proof.
  apply (Sender_SignTx transfer (EIP155Signer 10) key7 signed_transfer 69); [|vm_compute; reflexivity].
  intros c [= <-]. reflexivity.
Defined.

End TxExample.
