(* ===== verification/RollupFee.v ===== *)
(** * Fees of the legacy L2 node

    l2geth/rollup/fees/rollup_fee.go, the price cache of l2geth/eth/gasprice/rollup_gasprice.go
    and the fee check of l2geth/rollup/sync_service.go.  A transaction pays for the L1 data it
    causes, by the bytes of its encoding without signature, and for its L2 gas.  The L1 part is
    scaled by a [big.Float] and goes through a float64; both are modelled with their
    rounding. *)

From S2P Require Import Prelude GoErrors EthTypes Extern RLP RLPStream RLPTypes TxMeta LegacyTx.

(** ** Floating point numbers *)

(** A [big.Float]: precision, and the value [fm * 2 ^ fe].  The exponent of the library has
    32 bits, which no value here comes near. *)
Record Float := mkFloat { fprec : Z; fm : Z; fe : Z }.

(** Division with rounding to the nearest, ties to even. *)
Definition div_ne (a b : Z) : Z :=
  let q := a / b in let r := a mod b in
  if (2 * r <? b) || ((2 * r =? b) && Z.even q) then q else q + 1.

(** A mantissa rounded to [p] bits, but not below the position [lo]. *)
Definition round_at (p lo m : Z) : Z :=
  let k := Z.max 0 (Z.max lo (Z.log2 (Z.abs m) - p + 1)) in
  Z.sgn m * (div_ne (Z.abs m) (2 ^ k) * 2 ^ k).

Definition SetUint64 (x : Z) : Float := mkFloat 64 x 0.
Definition SetInt (x : Z) : Float := mkFloat (Z.max (BitLen x) 64) x 0.

(** [Mul] into a float with a precision. *)
Definition Float_Mul (prec : Z) (x y : Float) : Float :=
  mkFloat prec (round_at prec 0 (fm x * fm y)) (fe x + fe y).

(** [Quo] into a new float, for a positive divisor: the quotient to the larger precision. *)
Definition Float_Quo (x y : Float) : Float :=
  let prec := Z.max (fprec x) (fprec y) in
  let a := Z.abs (fm x) in let b := fm y in
  let k := Z.log2 a - Z.log2 b - prec + 1 in
  let k := if a * 2 ^ Z.max 0 (- k) <? 2 ^ (prec - 1) * (b * 2 ^ Z.max 0 k) then k - 1 else k in
  if fm x =? 0 then mkFloat prec 0 0
  else mkFloat prec (Z.sgn (fm x) * div_ne (a * 2 ^ Z.max 0 (- k)) (b * 2 ^ Z.max 0 k)) (k + fe x - fe y).

(** [Float64]: 53 bits, no position below [2 ^ -1074], and infinity ([None]) from [2 ^ 1024]. *)
Definition Float64 (x : Float) : option (Z * Z) :=
  let m := round_at 53 (-1074 - fe x) (fm x) in
  if 2 ^ (1024 + Z.max 0 (- fe x)) <=? Z.abs m * 2 ^ Z.max 0 (fe x) then None else Some (m, fe x).

(** [math.Ceil] of a finite float64. *)
Definition Ceil (x : Z * Z) : Z :=
  let '(m, e) := x in if 0 <=? e then m * 2 ^ e else - (- m / 2 ^ (- e)).

(** ** Gas of the L1 data *)

Definition TxDataZeroGas : Z := 4.
Definition TxDataNonZeroGasEIP2028 : Z := 16.

Definition zeroesAndOnes (data : bytes) : Z * Z :=
  foldl (λ c b, if bool_decide (b = x00) then (c.1 ⊞ 1, c.2) else (c.1, c.2 ⊞ 1)) (0, 0) data.

Definition CalculateL1GasUsed (data : bytes) (overhead : Z) : Z :=
  let '(zeroes, ones) := zeroesAndOnes data in
  let zeroesGas := zeroes ⊠ TxDataZeroGas in
  let onesGas := (ones ⊞ 68) ⊠ TxDataNonZeroGasEIP2028 in
  (zeroesGas ⊞ onesGas) + overhead.

Definition ScaleDecimals (scalar decimals : Z) : Float := Float_Quo (SetInt scalar) (SetInt (10 ^ decimals)).

(** ** Errors *)

Definition ErrGasPriceTooLow : error := ErrorNew "gas price too low".
Definition ErrGasPriceTooHigh : error := ErrorNew "gas price too high".
Definition errMissingInput : error := ErrorNew "missing input".
Definition errTransactionSigned : error := ErrorNew "transaction is signed".

(** ** Encodings *)

(** [copyTransaction]: without the signature. *)
Definition copyTransaction (tx : Transaction) : Transaction :=
  let d := data tx in
  match Recipient d with
  | None => NewContractCreation (AccountNonce d) (Some (Amount d)) (GasLimit d) (Some (Price d)) (Payload d)
  | Some to => NewTransaction (AccountNonce d) to (Some (Amount d)) (GasLimit d) (Some (Price d)) (Payload d)
  end.

Definition asTransaction (msg : Message) : Transaction :=
  match msg_to msg with
  | None => NewContractCreation (msg_nonce msg) (Some (msg_amount msg)) (msg_gasLimit msg) (Some (msg_gasPrice msg)) (msg_data msg)
  | Some to => NewTransaction (msg_nonce msg) to (Some (msg_amount msg)) (msg_gasLimit msg) (Some (msg_gasPrice msg)) (msg_data msg)
  end.

(** [rlpEncode]: the encoding less the three bytes of an empty signature. *)
Definition rlpEncode (tx : Transaction) : result bytes :=
  raw ← EncodeRLP tx;
  let d := data tx in
  if negb (sig_R d =? 0) || negb (sig_V d =? 0) || negb (sig_S d =? 0) then Err errTransactionSigned
  else Ok (take (length raw - 3) raw).

(** ** The price cache *)

Record RollupOracle := mkOracle { l1GasPrice : Z; l2GasPrice : Z; overhead : Z; scalar : Float }.
Definition NewRollupOracle : RollupOracle := mkOracle 0 0 0 (mkFloat 0 0 0).
Definition SetL1GasPrice (p : Z) (o : RollupOracle) : RollupOracle := mkOracle p (l2GasPrice o) (overhead o) (scalar o).
Definition SetL2GasPrice (p : Z) (o : RollupOracle) : RollupOracle := mkOracle (l1GasPrice o) p (overhead o) (scalar o).
Definition SetOverhead (v : Z) (o : RollupOracle) : RollupOracle := mkOracle (l1GasPrice o) (l2GasPrice o) v (scalar o).
Definition SetScalar (s decimals : Z) (o : RollupOracle) : RollupOracle :=
  mkOracle (l1GasPrice o) (l2GasPrice o) (overhead o) (ScaleDecimals s decimals).

(** The storage slots of the gas price oracle contract (rollup/rcfg/config.go). *)
Definition L2GasPriceOracleOwnerSlot : Z := 0.
Definition L2GasPriceSlot : Z := 1.
Definition L1GasPriceSlot : Z := 2.
Definition OverheadSlot : Z := 3.
Definition ScalarSlot : Z := 4.
Definition DecimalsSlot : Z := 5.

(** [readGPOStorageSlots], for the storage of the contract. *)
Definition readGPOStorageSlots (GetState : Z → Z) : Z * Z * Float :=
  (GetState L1GasPriceSlot, GetState OverheadSlot, ScaleDecimals (GetState ScalarSlot) (GetState DecimalsSlot)).

(** ** Fees *)

Record PaysEnoughOpts := mkOpts {
  UserGasPrice : option Z; ExpectedGasPrice : option Z;
  ThresholdUp : option Float; ThresholdDown : option Float }.

Section Fees.
(** The conversion of a float64 to uint64 outside its range is up to the machine; [None] is
    an infinity. *)
Context (convert : option Z → Z).

Definition to_uint64 (x : option Z) : Z :=
  match x with
  | Some c => if (0 <=? c) && (c <? 2 ^ 64) then c else convert x
  | None => convert None
  end.

Definition mulByFloat (num : Z) (float : Float) : Z :=
  let n := SetUint64 (big_Uint64 num) in
  let product := Float_Mul 64 n float in
  to_uint64 (Ceil <$> Float64 product).

Definition CalculateL1Fee (data : bytes) (overhead l1GasPrice : Z) (scalar : Float) : Z :=
  mulByFloat (CalculateL1GasUsed data overhead * l1GasPrice) scalar.

Definition CalculateTotalFee (tx : Transaction) (gpo : RollupOracle) : result Z :=
  raw ← rlpEncode (copyTransaction tx);
  let l1Fee := CalculateL1Fee raw (overhead gpo) (l1GasPrice gpo) (scalar gpo) in
  Ok (l1Fee + Price (data tx) * GasLimit (data tx)).

Definition CalculateL1MsgFee (msg : Message) (GetState : Z → Z) : result Z :=
  raw ← rlpEncode (asTransaction msg);
  let '(l1GasPrice, overhead, scalar) := readGPOStorageSlots GetState in
  Ok (CalculateL1Fee raw overhead l1GasPrice scalar).

Definition CalculateTotalMsgFee (msg : Message) (GetState : Z → Z) (gasUsed : Z) : result Z :=
  l1Fee ← CalculateL1MsgFee msg GetState; Ok (l1Fee + msg_gasPrice msg * gasUsed).

Definition DeriveL1GasInfo (msg : Message) (GetState : Z → Z) : result (Z * Z * Z * Float) :=
  raw ← rlpEncode (asTransaction msg);
  let '(l1GasPrice, overhead, scalar) := readGPOStorageSlots GetState in
  Ok (CalculateL1Fee raw overhead l1GasPrice scalar, l1GasPrice, CalculateL1GasUsed raw overhead, scalar).

Definition PaysEnough (opts : PaysEnoughOpts) : result () :=
  match UserGasPrice opts, ExpectedGasPrice opts with
  | None, _ => Err (Errorf "no user fee" errMissingInput)
  | _, None => Err (Errorf "no expected fee" errMissingInput)
  | Some user, Some expected =>
      let fee := match ThresholdDown opts with Some t => mulByFloat expected t | None => expected end in
      if user <? fee then Err ErrGasPriceTooLow
      else match ThresholdUp opts with
           | Some t => if mulByFloat expected t <? user - expected then Err ErrGasPriceTooHigh else Ok ()
           | None => Ok ()
           end
  end.
End Fees.

(** ** Rounding *)

Lemma div_ne_bounds a b : 0 < b → a / b <= div_ne a b <= a / b + 1.
Proof. intros Hb. unfold div_ne. case_match; lia. Qed.

(** No multiple of the divisor is nearer. *)
Lemma div_ne_near a b : 0 < b → 2 * Z.abs (div_ne a b * b - a) <= b.
Proof.
  intros Hb. unfold div_ne. pose proof (Z.div_mod a b ltac:(lia)) as Hd. pose proof (Z.mod_pos_bound a b Hb).
  destruct (Z.ltb_spec (2 * (a mod b)) b); cbn [orb]; [lia|].
  destruct (Z.eqb_spec (2 * (a mod b)) b); cbn [andb]; [case_match; lia|lia].
Qed.

Lemma div_ne_mono a a' b : 0 < b → a <= a' → div_ne a b <= div_ne a' b.
Proof.
  intros Hb Ha. pose proof (Z.div_le_mono a a' b Hb Ha) as Hq. pose proof (div_ne_bounds a b Hb). pose proof (div_ne_bounds a' b Hb).
  destruct (decide (a / b = a' / b)) as [E|]; [|lia]. unfold div_ne. rewrite <- E.
  pose proof (Z.div_mod a b ltac:(lia)). pose proof (Z.div_mod a' b ltac:(lia)).
  assert (a mod b <= a' mod b) by (rewrite E in *; lia).
  destruct (Z.even (a / b)); destruct (Z.ltb_spec (2 * (a mod b)) b), (Z.ltb_spec (2 * (a' mod b)) b),
    (Z.eqb_spec (2 * (a mod b)) b), (Z.eqb_spec (2 * (a' mod b)) b); cbn [orb andb]; lia.
Qed.

Lemma div_ne_exact q b : 0 < b → div_ne (q * b) b = q.
Proof. intros Hb. unfold div_ne. rewrite Z.div_mul, Z.mod_mul by lia. by rewrite (proj2 (Z.ltb_lt _ _)). Qed.

Section round_at.
Context (p lo : Z) (Hp : 0 < p).
Local Notation pos m := (Z.max 0 (Z.max lo (Z.log2 m - p + 1))).

Lemma round_at_nonneg m : 0 <= m → round_at p lo m = div_ne m (2 ^ pos m) * 2 ^ pos m.
Proof.
  intros Hm. unfold round_at. rewrite Z.abs_eq by done. destruct (decide (m = 0)) as [->|].
  - rewrite Z.sgn_0. assert (Hz : ∀ k, 0 <= k → div_ne 0 (2 ^ k) = 0); [|rewrite Hz by lia; lia].
    intros k Hk. apply (div_ne_exact 0). by apply Z.pow_pos_nonneg.
  - rewrite Z.sgn_pos by lia. lia.
Qed.

(** A mantissa that fits is kept. *)
Lemma round_at_exact m : lo <= 0 → 0 <= m < 2 ^ p → round_at p lo m = m.
Proof.
  intros Hlo Hm. rewrite round_at_nonneg by lia. assert (Hk : pos m = 0).
  { destruct (decide (m = 0)) as [->|]; [cbn; lia|]. assert (Z.log2 m < p) by (apply Z.log2_lt_pow2; lia). lia. }
  rewrite Hk, Z.pow_0_r. rewrite <- (Z.mul_1_r m) at 1. rewrite div_ne_exact by lia. lia.
Qed.

Lemma round_at_binade m : 0 < m → pos m <= Z.log2 m → 2 ^ Z.log2 m <= round_at p lo m <= 2 ^ (Z.log2 m + 1).
Proof.
  intros Hm Hk. rewrite round_at_nonneg by lia. set (k := pos m) in *. assert (0 <= k) by lia.
  assert (Hpk : 0 < 2 ^ k) by (by apply Z.pow_pos_nonneg).
  assert (Hsp : ∀ n, k <= n → 2 ^ n = 2 ^ (n - k) * 2 ^ k) by (intros n Hn; rewrite <- Z.pow_add_r by lia; f_equal; lia).
  pose proof (Z.log2_spec m Hm) as [Hl Hu]. rewrite <- Z.add_1_r in Hu.
  rewrite (Hsp (Z.log2 m)) by lia. rewrite (Hsp (Z.log2 m + 1)) by lia. split; apply Z.mul_le_mono_nonneg_r; try lia.
  - rewrite <- (div_ne_exact (2 ^ (Z.log2 m - k)) (2 ^ k)) by done. apply div_ne_mono; [done|]. rewrite <- Hsp by lia. lia.
  - rewrite <- (div_ne_exact (2 ^ (Z.log2 m + 1 - k)) (2 ^ k)) by done. apply div_ne_mono; [done|]. rewrite <- Hsp by lia. lia.
Qed.

Lemma round_at_mono m m' : 0 <= m <= m' → round_at p lo m <= round_at p lo m'.
Proof.
  intros [H0 Hm]. pose proof (Z.log2_le_mono m m' Hm) as Hlog.
  destruct (decide (pos m = pos m')) as [E|Hne].
  - rewrite !round_at_nonneg by lia. rewrite <- E. apply Z.mul_le_mono_nonneg_r; [apply Z.pow_nonneg; lia|].
    apply div_ne_mono; [apply Z.pow_pos_nonneg; lia|done].
  - assert (Hlt : Z.log2 m < Z.log2 m') by lia. assert (Hk' : pos m' = Z.log2 m' - p + 1) by lia.
    assert (Hpos' : 0 < m') by (destruct (decide (m' = 0)) as [->|]; [cbn in Hlt; pose proof (Z.log2_nonneg m); lia|lia]).
    destruct (round_at_binade m' Hpos' ltac:(lia)) as [Hlo _].
    destruct (decide (m = 0)) as [->|].
    { assert (round_at p lo 0 = 0) as -> by done. pose proof (Z.pow_nonneg 2 (Z.log2 m')). lia. }
    pose proof (Z.log2_nonneg m). destruct (decide (pos m <= Z.log2 m)) as [Hk|Hk].
    2:{ rewrite (round_at_nonneg m) by lia. assert (Hsm : m < 2 ^ pos m) by (apply Z.log2_lt_pow2; lia).
        pose proof (div_ne_bounds m (2 ^ pos m) ltac:(lia)) as Hb. rewrite Z.div_small in Hb by lia.
        assert (2 ^ pos m <= 2 ^ Z.log2 m') by (apply Z.pow_le_mono_r; lia). nia. }
    destruct (round_at_binade m ltac:(lia) Hk) as [_ Hhi].
    assert (2 ^ (Z.log2 m + 1) <= 2 ^ Z.log2 m') by (apply Z.pow_le_mono_r; lia). lia.
Qed.

(** The error is below one unit in [2 ^ p]. *)
Lemma round_at_error m : lo <= 0 → 0 <= m → 2 ^ p * Z.abs (round_at p lo m - m) <= m.
Proof.
  intros Hlo Hm. destruct (decide (m < 2 ^ p)) as [Hs|Hs]; [rewrite round_at_exact by lia; rewrite Z.sub_diag; cbn; lia|].
  rewrite round_at_nonneg by lia. pose proof (Z.pow_pos_nonneg 2 p eq_refl ltac:(lia)).
  assert (Hl : p <= Z.log2 m) by (apply Z.log2_le_pow2; lia). replace (pos m) with (Z.log2 m - p + 1) by lia.
  set (k := Z.log2 m - p + 1). pose proof (div_ne_near m (2 ^ k) ltac:(apply Z.pow_pos_nonneg; lia)) as Hn.
  destruct (Z.log2_spec m ltac:(lia)) as [Hlow _]. assert (E : 2 ^ p * 2 ^ k = 2 * 2 ^ Z.log2 m).
  { rewrite <- Z.pow_add_r, <- Z.pow_succ_r by lia. f_equal. lia. }
  set (err := Z.abs _) in *. nia.
Qed.
End round_at.

(** ** Scaling by a float *)

Lemma big_Uint64_small n : is_u64 n → big_Uint64 n = n.
Proof. intros [Hl Hh]. unfold big_Uint64. rewrite Z.abs_eq by done. by apply u64_small. Qed.

Lemma Ceil_mono m m' e : m <= m' → Ceil (m, e) <= Ceil (m', e).
Proof.
  intros Hm. unfold Ceil. destruct (Z.leb_spec 0 e).
  - apply Z.mul_le_mono_nonneg_r; [apply Z.pow_nonneg; lia|done].
  - pose proof (Z.div_le_mono (- m') (- m) (2 ^ (- e)) ltac:(apply Z.pow_pos_nonneg; lia)). lia.
Qed.

Lemma Ceil_nonneg m e : 0 <= m → 0 <= Ceil (m, e).
Proof. intros Hm. rewrite <- (Ceil_mono 0 m e Hm). unfold Ceil. case_match; [lia|]. change (- 0) with 0. rewrite Z.div_0_l; [lia|]. apply Z.pow_nonzero; lia. Qed.

(** The mantissa after both roundings. *)
Definition scaled (num : Z) (f : Float) : Z := round_at 53 (-1074 - fe f) (round_at 64 0 (num * fm f)).

(** The product is below [2 ^ 64]; then the conversion is defined. *)
Definition fits (num : Z) (f : Float) : Prop := 0 <= fm f ∧ is_u64 num ∧ Ceil (scaled num f, fe f) < 2 ^ 64.

#[export] Instance fits_dec num f : Decision (fits num f).
Proof. unfold fits. apply _. Defined.

Lemma round_at_pos p lo m : 0 < p → 0 <= m → 0 <= round_at p lo m.
Proof. intros Hp Hm. rewrite <- (round_at_mono p lo Hp 0 m) by lia. done. Qed.

Lemma scaled_nonneg num f : 0 <= num → 0 <= fm f → 0 <= scaled num f.
Proof. intros Hn Hf. unfold scaled. repeat apply round_at_pos; try done. by apply Z.mul_nonneg_nonneg. Qed.

Section mulByFloat.
Context (convert : option Z → Z).

Lemma mulByFloat_fits num f : fits num f → mulByFloat convert num f = Ceil (scaled num f, fe f).
Proof.
  intros (Hf & Hn & Hc). pose proof (proj1 Hn) as H0. unfold mulByFloat. rewrite big_Uint64_small by done.
  unfold Float64, Float_Mul, SetUint64. cbn [fm fe]. rewrite Z.add_0_l. fold (scaled num f).
  pose proof (scaled_nonneg num f H0 Hf) as Hs. rewrite Z.abs_eq by done.
  assert (Hlt : scaled num f * 2 ^ Z.max 0 (fe f) < 2 ^ (1024 + Z.max 0 (- fe f))).
  { unfold Ceil in Hc. destruct (Z.leb_spec 0 (fe f)).
    - replace (Z.max 0 (fe f)) with (fe f) by lia. replace (1024 + Z.max 0 (- fe f)) with 1024 by lia.
      assert (2 ^ 64 < 2 ^ 1024) by done. lia.
    - replace (Z.max 0 (fe f)) with 0 by lia. replace (Z.max 0 (- fe f)) with (- fe f) by lia. rewrite Z.pow_0_r, Z.mul_1_r.
      set (E := 2 ^ (- fe f)) in *. assert (HE : 0 < E) by (apply Z.pow_pos_nonneg; lia).
      rewrite Z.pow_add_r by lia. fold E. pose proof (Z.div_mod (- scaled num f) E ltac:(lia)). pose proof (Z.mod_pos_bound (- scaled num f) E HE).
      assert (2 ^ 64 < 2 ^ 1024) by done. nia. }
  rewrite (proj2 (Z.leb_gt _ _)) by lia. cbn [fmap option_fmap option_map to_uint64].
  rewrite (proj2 (Z.leb_le 0 _)) by (by apply Ceil_nonneg). by rewrite (proj2 (Z.ltb_lt _ _)).
Qed.

Lemma scaled_mono n n' f : 0 <= fm f → 0 <= n <= n' → scaled n f <= scaled n' f.
Proof.
  intros Hf Hn. unfold scaled. apply round_at_mono; [done|]. split; [apply round_at_pos; [done|nia]|]. apply round_at_mono; [done|]. nia.
Qed.

(** A larger amount is never scaled to a smaller one. *)
Lemma mulByFloat_mono n n' f : fits n' f → 0 <= n <= n' → mulByFloat convert n f <= mulByFloat convert n' f.
Proof.
  intros Hfit Hn. pose proof Hfit as (Hf & Hu & Hc). pose proof (scaled_mono n n' f Hf Hn) as Hs.
  pose proof (Ceil_mono _ _ (fe f) Hs). rewrite !mulByFloat_fits; [done|done|]. unfold fits, is_u64 in *. split_and!; lia.
Qed.

(** The result is the product rounded up, up to one part in [2 ^ 52]; [d] is the denominator
    of the factor. *)
Lemma mulByFloat_error n f : let d := 2 ^ (- fe f) in
  fits n f → -1074 <= fe f <= 0 → let r := mulByFloat convert n f in
  (2 ^ 52 - 1) * (n * fm f) <= 2 ^ 52 * (r * d) ∧ 2 ^ 52 * ((r - 1) * d) < (2 ^ 52 + 1) * (n * fm f) + 1.
Proof.
  intros d Hfit He r. subst r. rewrite mulByFloat_fits by done. destruct Hfit as (Hf & [Hn _] & _).
  set (m := n * fm f). assert (Hm : 0 <= m) by (by apply Z.mul_nonneg_nonneg).
  assert (Hd : 0 < d) by (apply Z.pow_pos_nonneg; lia).
  pose proof (round_at_error 64 0 ltac:(done) m ltac:(lia) Hm) as H1. pose proof (round_at_pos 64 0 m ltac:(done) Hm) as H1p.
  pose proof (round_at_error 53 (-1074 - fe f) ltac:(done) _ ltac:(lia) H1p) as H2. unfold scaled. fold m. set (m1 := round_at 64 0 m) in *.
  set (m2 := round_at 53 _ m1) in *.
  assert (Hc : (Ceil (m2, fe f) - 1) * d < m2 <= Ceil (m2, fe f) * d).
  { unfold Ceil. destruct (Z.leb_spec 0 (fe f)).
    - assert (fe f = 0) as E by lia. subst d. rewrite E. cbn. lia.
    - fold d. pose proof (Z.div_mod (- m2) d ltac:(lia)). pose proof (Z.mod_pos_bound (- m2) d Hd). nia. }
  set (c := Ceil (m2, fe f)) in *. clearbody m1 m2 c d. lia.
Qed.
End mulByFloat.

(** ** Gas *)

Definition zeroes (b : bytes) : Z := len (filter (λ x, x = x00) b).

Lemma zeroesAndOnes_spec b : len b < 2 ^ 64 → zeroesAndOnes b = (zeroes b, len b - zeroes b).
Proof.
  intros Hl. unfold zeroesAndOnes. enough (Hgen : ∀ z o, 0 <= z → 0 <= o → z + o + len b < 2 ^ 64 →
    foldl (λ c x, if bool_decide (x = x00) then (c.1 ⊞ 1, c.2) else (c.1, c.2 ⊞ 1)) (z, o) b = (z + zeroes b, o + (len b - zeroes b))).
  { rewrite Hgen by lia. f_equal; lia. }
  clear Hl. unfold zeroes, len. induction b as [|x b IH]; intros z o Hz Ho Hb; cbn [foldl length] in *; [rewrite filter_nil; cbn [length]; f_equal; lia|].
  rewrite filter_cons. destruct (decide (x = x00)) as [E|E].
  - rewrite bool_decide_eq_true_2 by done. cbn [fst snd]. rewrite u64_small by (unfold is_u64; lia). rewrite IH by lia. cbn [length]. f_equal; lia.
  - rewrite bool_decide_eq_false_2 by done. cbn [fst snd]. rewrite u64_small by (unfold is_u64; lia). rewrite IH by lia. f_equal; lia.
Qed.

Lemma zeroes_range b : 0 <= zeroes b <= len b.
Proof. unfold zeroes, len. pose proof (length_filter (λ x, x = x00) b). lia. Qed.

Lemma L1GasUsed_spec b o : len b < 2 ^ 56 →
  CalculateL1GasUsed b o = 4 * zeroes b + 16 * (len b - zeroes b + 68) + o.
Proof.
  intros Hl. pose proof (zeroes_range b). unfold CalculateL1GasUsed. rewrite zeroesAndOnes_spec by lia.
  unfold TxDataZeroGas, TxDataNonZeroGasEIP2028.
  rewrite (u64_small (len b - zeroes b + 68)) by (unfold is_u64; lia).
  rewrite (u64_small (_ * 4)), (u64_small (_ * 16)) by (unfold is_u64; lia). rewrite u64_small by (unfold is_u64; lia). lia.
Qed.

Lemma L1GasUsed_mono b b' o o' : b ⊆+ b' → len b' < 2 ^ 56 → 0 <= o <= o' → CalculateL1GasUsed b o <= CalculateL1GasUsed b' o'.
Proof.
  intros Hsub Hl Ho. pose proof (submseteq_length _ _ Hsub) as Hlen. assert (len b <= len b') by (unfold len; lia).
  rewrite !L1GasUsed_spec by lia.
  assert (Hz : ∀ P `{∀ x : byte, Decision (P x)}, (length (filter P b) <= length (filter P b'))%nat).
  { intros P HP. destruct (submseteq_Permutation _ _ Hsub) as [k Hk]. rewrite (Permutation_length (filter_Permutation P _ _ Hk)).
    rewrite filter_app, length_app. lia. }
  assert (Hc : ∀ l : bytes, len l - zeroes l = len (filter (λ x, ¬ x = x00) l)).
  { intros l. unfold zeroes, len. induction l as [|x l IH]; [done|]. rewrite !filter_cons. destruct (decide (x = x00)), (decide (¬ x = x00)); cbn [length]; try done; lia. }
  rewrite !Hc. pose proof (Hz (λ x, x = x00) _). pose proof (Hz (λ x, ¬ x = x00) _). unfold zeroes, len in *. lia.
Qed.

(** ** What is charged for *)

Lemma tx_value_type d :
  is_u64 (AccountNonce d) → 0 <= Price d → is_u64 (GasLimit d) → (∀ a, Recipient d = Some a → length a = 20%nat) → 0 <= Amount d →
  0 <= sig_V d → 0 <= sig_R d → 0 <= sig_S d → has_type txdata_type (txdata_value d).
Proof.
  unfold is_u64. intros Hn Hp Hg Ha Hm Hv Hr Hs. cbn. split_and!; try done; try lia.
  destruct (Recipient d) as [a|]; [by apply Ha|done].
Qed.

Lemma headsize_le n : headsize n <= 10.
Proof.
  unfold headsize, intsize. case_match; [lia|]. enough (∀ fuel s i, intsize_loop fuel s i <= s + Z.of_nat fuel) as Hl by (specialize (Hl 8%nat 1 n); lia).
  intros fuel. induction fuel as [|fuel IH]; intros s i; cbn [intsize_loop]; [lia|]. case_match; [lia|]. specialize (IH (s + 1) (Z.shiftr i 8)). lia.
Qed.

Record tx_ok (d : txdata) : Prop := {
  to_nonce : is_u64 (AccountNonce d); to_price : 0 <= Price d; to_gas : is_u64 (GasLimit d);
  to_recipient a : Recipient d = Some a → length a = 20%nat; to_amount : 0 <= Amount d }.

(** The six fields of a transaction as they are encoded. *)
Definition tx_content (d : txdata) : bytes :=
  concat (rlp_enc <$> [Str (big_Bytes (AccountNonce d)); Str (big_Bytes (Price d)); Str (big_Bytes (GasLimit d));
    Str (default [] (Recipient d)); Str (big_Bytes (Amount d)); Str (Payload d)]).

Lemma copyTransaction_data tx : let d := data tx in
  data (copyTransaction tx) = mkTxdata (AccountNonce d) (Price d) (GasLimit d) (Recipient d) (Amount d) (Payload d) 0 0 0.
Proof. unfold copyTransaction. by destruct (Recipient (data tx)). Qed.

(** The bytes charged for are the fields behind the header of the list with an empty
    signature, whatever the signature of the transaction. *)
Lemma rlpEncode_copy tx : tx_ok (data tx) → len (tx_content (data tx)) < 2 ^ 56 →
  rlpEncode (copyTransaction tx) = Ok (puthead 0xC0 0xF7 (len (tx_content (data tx)) + 3) ++ tx_content (data tx)).
Proof.
  intros [Hn Hp Hg Hr Ha] Hlen. unfold rlpEncode, EncodeRLP. rewrite copyTransaction_data. set (d := data tx) in *.
  set (u := mkTxdata _ _ _ _ _ _ _ _ _). assert (Hi : rlp_enc (to_item txdata_type no_tags (txdata_value u)) =
    puthead 0xC0 0xF7 (len (tx_content d) + 3) ++ tx_content d ++ [x80; x80; x80]).
  { assert (Hc : concat (rlp_enc <$> match to_item txdata_type no_tags (txdata_value u) with Lst l => l | Str _ => [] end) = tx_content d ++ [x80; x80; x80]).
    { unfold tx_content. subst u. destruct (Recipient d); cbn; rewrite <- !app_assoc; done. }
    cbn [txdata_type to_item txdata_value] in *. cbn [rlp_enc]. unfold enc_list. rewrite Hc. f_equal. f_equal.
    unfold len. rewrite length_app. cbn [length]. lia. }
  rewrite EncodeValue_enc; [|done| |].
  - cbn [mbind result_bind u sig_R sig_V sig_S]. cbn [Z.eqb negb orb]. rewrite Hi, app_assoc. f_equal.
    rewrite length_app. cbn [length]. by rewrite Nat.add_sub, take_app_length.
  - by apply tx_value_type.
  - unfold enc_ok. rewrite Hi. unfold len in *. rewrite !length_app. cbn [length].
    pose proof (headsize_le (Z.of_nat (length (tx_content d)) + 3)) as Hh.
    pose proof (length_puthead 0xC0 0xF7 (Z.of_nat (length (tx_content d)) + 3) ltac:(unfold is_u64; lia)). unfold len in *. lia.
Qed.

(** A mantissa of at most [p] bits, shifted, is kept. *)
Lemma round_at_shift p lo j x : 0 < p → 0 <= j → 0 <= x < 2 ^ p → lo <= j → round_at p lo (x * 2 ^ j) = x * 2 ^ j.
Proof.
  intros Hp Hj Hx Hlo. rewrite round_at_nonneg by (try done; apply Z.mul_nonneg_nonneg; [lia|apply Z.pow_nonneg; lia]).
  set (k := Z.max 0 _). assert (Hk : k <= j).
  { subst k. destruct (decide (x = 0)) as [->|]; [rewrite Z.mul_0_l; change (Z.log2 0) with 0; lia|]. rewrite Z.log2_mul_pow2 by lia.
    assert (Z.log2 x < p) by (apply Z.log2_lt_pow2; lia). lia. }
  replace (2 ^ j) with (2 ^ (j - k) * 2 ^ k) by (rewrite <- Z.pow_add_r by lia; f_equal; lia).
  rewrite Z.mul_assoc, div_ne_exact; [done|]. apply Z.pow_pos_nonneg; lia.
Qed.

Section FeeTheorems.
Context (convert : option Z → Z).

(** More data, a larger overhead or a higher price never make the L1 fee smaller. *)
Theorem L1Fee_mono b b' o o' p p' f :
  b ⊆+ b' → len b' < 2 ^ 56 → 0 <= o <= o' → 0 <= p <= p' → fits (CalculateL1GasUsed b' o' * p') f →
  CalculateL1Fee convert b o p f <= CalculateL1Fee convert b' o' p' f.
Proof.
  intros Hsub Hl Ho Hp Hfit. apply mulByFloat_mono; [done|]. pose proof (L1GasUsed_mono b b' o o' Hsub Hl Ho).
  assert (0 <= CalculateL1GasUsed b o); [|nia].
  assert (len b <= len b') by (pose proof (submseteq_length _ _ Hsub); unfold len; lia).
  rewrite L1GasUsed_spec by lia. pose proof (zeroes_range b). lia.
Qed.

(** The cache holds the prices of the contract's storage, as it does right after an
    update; it is updated with the transactions of the oracle's owner. *)
Definition prices_agree (gpo : RollupOracle) (GetState : Z → Z) : Prop :=
  l1GasPrice gpo = GetState L1GasPriceSlot ∧ overhead gpo = GetState OverheadSlot ∧
  scalar gpo = ScaleDecimals (GetState ScalarSlot) (GetState DecimalsSlot).

(** The bytes a transaction is charged for: its six fields behind the header of the list
    that ends with an empty signature. *)
Definition charged_bytes (d : txdata) : bytes := puthead 0xC0 0xF7 (len (tx_content d) + 3) ++ tx_content d.

(** Their price on L1 before scaling: 4 gas for a zero byte, 16 for another one and for
    each of 68 bytes more, and the overhead. *)
Definition l1_amount (d : txdata) (overhead price : Z) : Z :=
  (4 * zeroes (charged_bytes d) + 16 * (len (charged_bytes d) - zeroes (charged_bytes d) + 68) + overhead) * price.

Lemma CalculateL1Fee_charged d o p f :
  len (charged_bytes d) < 2 ^ 56 → CalculateL1Fee convert (charged_bytes d) o p f = mulByFloat convert (l1_amount d o p) f.
Proof. intros Hl. unfold CalculateL1Fee. by rewrite L1GasUsed_spec. Qed.

Lemma AsMessage_charged `{Keccak} `{Secp256k1} ovm sg tx :
  let msg := (AsMessage ovm sg tx).1.2 in asTransaction msg = copyTransaction tx ∧ msg_gasPrice msg = Price (data tx).
Proof.
  intros msg. subst msg. unfold AsMessage. destruct (Sender sg tx) as [tx1 r].
  destruct (L1MessageSender (meta tx)); [destruct (ovm && _)|]; done.
Qed.

(** C20. The fee a transaction is checked against before it is accepted is the gas limit
    at its gas price plus the L1 fee of its bytes without the signature at the cached
    prices, and the fee its message is charged is the gas used at its gas price plus the
    L1 fee of the same bytes at the prices of the state: 4 gas for each zero byte and 16
    for each other one and for 68 more, plus the overhead, at the L1 gas price, scaled. As
    long as the amount and the scaled amount fit 64 bits and the scalar is not negative,
    with a binary exponent from -1074 to 0, the L1 fee is the scaled amount rounded up to a
    whole number, up to one part in 2^52. If the cache holds the prices of the state,
    the charged fee is the checked one less the price of the gas that is not used. The
    transaction is any one with 64-bit nonce and gas limit, no negative price or amount, a
    20-byte recipient or none, and less than 2^56 bytes. *)
Theorem TotalFee_charged `{Keccak} `{Secp256k1} ovm sg tx gpo GetState gasUsed :
  let d := data tx in let msg := (AsMessage ovm sg tx).1.2 in
  let scale := ScaleDecimals (GetState ScalarSlot) (GetState DecimalsSlot) in
  let checkedL1 := mulByFloat convert (l1_amount d (overhead gpo) (l1GasPrice gpo)) (scalar gpo) in
  let chargedL1 := mulByFloat convert (l1_amount d (GetState OverheadSlot) (GetState L1GasPriceSlot)) scale in
  tx_ok d → len (charged_bytes d) < 2 ^ 56 →
  CalculateTotalFee convert tx gpo = Ok (checkedL1 + Price d * GasLimit d) ∧
  CalculateTotalMsgFee convert msg GetState gasUsed = Ok (chargedL1 + Price d * gasUsed) ∧
  (∀ amount f, fits amount f → -1074 <= fe f <= 0 →
     (2 ^ 52 - 1) * (amount * fm f) <= 2 ^ 52 * (mulByFloat convert amount f * 2 ^ (- fe f)) ∧
     2 ^ 52 * ((mulByFloat convert amount f - 1) * 2 ^ (- fe f)) < (2 ^ 52 + 1) * (amount * fm f) + 1) ∧
  (prices_agree gpo GetState →
     chargedL1 + Price d * gasUsed = checkedL1 + Price d * GasLimit d - Price d * (GasLimit d - gasUsed)).
Proof.
  intros d msg scale checkedL1 chargedL1 Hok Hl.
  assert (Hraw : rlpEncode (copyTransaction tx) = Ok (charged_bytes d)).
  { apply rlpEncode_copy; [done|]. unfold charged_bytes, len in *. rewrite length_app in Hl. fold d. lia. }
  destruct (AsMessage_charged ovm sg tx) as [Hmsg Hprice]. fold msg in Hmsg, Hprice. split_and!.
  - unfold CalculateTotalFee. rewrite Hraw. cbn [mbind result_bind]. by rewrite CalculateL1Fee_charged.
  - unfold CalculateTotalMsgFee, CalculateL1MsgFee. rewrite Hmsg, Hprice, Hraw. cbn [mbind result_bind readGPOStorageSlots].
    by rewrite CalculateL1Fee_charged.
  - intros amount f Hfit Hfe. by apply mulByFloat_error.
  - intros (E1 & E2 & E3). subst checkedL1 chargedL1 scale. rewrite E1, E2, E3. ring.
Qed.

(** Which prices are accepted. *)
Theorem PaysEnough_spec user expected up down :
  PaysEnough convert (mkOpts (Some user) (Some expected) up down) = Ok () ↔
  match down with Some t => mulByFloat convert expected t | None => expected end <= user ∧
  match up with Some t => user <= expected + mulByFloat convert expected t | None => True end.
Proof.
  unfold PaysEnough. cbn [UserGasPrice ExpectedGasPrice ThresholdUp ThresholdDown].
  destruct (Z.ltb_spec user (match down with Some t => mulByFloat convert expected t | None => expected end)) as [Hl|Hl].
  - split; [done|]. intros [? _]. lia.
  - destruct up as [t|]; [|done]. destruct (Z.ltb_spec (mulByFloat convert expected t) (user - expected)); split; try done; try lia.
Qed.

(** With a lower threshold of at most one, paying the suggested price is always enough,
    up to the precision of a float64. *)
Theorem PaysEnough_suggested expected t :
  is_u64 expected → expected < 2 ^ 53 → 0 <= fm t → -1074 <= fe t <= 0 → fm t <= 2 ^ (- fe t) →
  PaysEnough convert (mkOpts (Some expected) (Some expected) None (Some t)) = Ok ().
Proof.
  intros Hu He Hf Hfe Ht. apply PaysEnough_spec. split; [|done].
  assert (Hs1 : round_at 64 0 (expected * 2 ^ (- fe t)) = expected * 2 ^ (- fe t)) by (apply round_at_shift; [done|lia|unfold is_u64 in Hu; lia..]).
  assert (Hs2 : round_at 53 (-1074 - fe t) (expected * 2 ^ (- fe t)) = expected * 2 ^ (- fe t)) by (apply round_at_shift; [done|lia|unfold is_u64 in Hu; lia..]).
  assert (Hle : scaled expected t <= expected * 2 ^ (- fe t)).
  { unfold scaled, is_u64 in *. rewrite <- Hs2. apply round_at_mono; [done|]. split; [apply round_at_pos; [done|nia]|].
    rewrite <- Hs1. apply round_at_mono; [done|]. nia. }
  assert (Hc : Ceil (scaled expected t, fe t) <= expected).
  { pose proof (Z.pow_pos_nonneg 2 (- fe t) eq_refl ltac:(lia)). unfold Ceil. destruct (Z.leb_spec 0 (fe t)) as [|].
    - replace (fe t) with 0 in * by lia. change (2 ^ 0) with 1 in *. change (2 ^ (- 0)) with 1 in *. lia.
    - assert (- expected <= - scaled expected t / 2 ^ (- fe t)); [|lia]. apply Z.div_le_lower_bound; [done|]. lia. }
  rewrite mulByFloat_fits; [done|]. unfold fits, is_u64 in *. split_and!; lia.
Qed.
End FeeTheorems.

(** ** Where it goes wrong *)

(** Only the low 64 bits of the amount are scaled: an L1 fee of 2^64 wei or more is charged
    as if it were that much smaller. *)
Theorem mulByFloat_wraps convert n f : 0 <= n → mulByFloat convert n f = mulByFloat convert (n mod 2 ^ 64) f.
Proof.
  intros Hn. unfold mulByFloat, big_Uint64. pose proof (Z.mod_pos_bound n (2 ^ 64) eq_refl). rewrite !Z.abs_eq by lia.
  unfold u64. by rewrite Z.mod_mod.
Qed.

(** With the factor one the result can be below the amount: it is rounded to a float64
    before it is rounded up. *)
Theorem mulByFloat_below convert : mulByFloat convert (2 ^ 53 + 1) (mkFloat 53 1 0) = 2 ^ 53.
Proof. reflexivity. Qed.

(** An upper threshold of 3/2 accepts prices up to 5/2 of the expected one. *)
Theorem threshold_up_added convert : PaysEnough convert (mkOpts (Some 250) (Some 100) (Some (mkFloat 53 3 (-1))) None) = Ok ().
Proof. reflexivity. Qed.

(** ** Examples *)

Module FeeExample.
Definition gpo_storage (slot : Z) : Z := if slot =? L1GasPriceSlot then 100 else if slot =? OverheadSlot then 2100 else if slot =? ScalarSlot then 1500000 else if slot =? DecimalsSlot then 6 else 1.
Definition no_convert (x : option Z) : Z := 0.

Lemma L1Fee_mono_witness :
  CalculateL1Fee no_convert [x01] 0 50 (ScaleDecimals 1500000 6) <= CalculateL1Fee no_convert [x00; x01] 2100 100 (ScaleDecimals 1500000 6).
Proof.
  apply (L1Fee_mono no_convert [x01] [x00; x01] 0 2100 50 100); [apply submseteq_cons, submseteq_skip, submseteq_nil_l|reflexivity|lia|lia|].
  apply (bool_decide_unpack _). vm_compute. exact I.
Defined.

#[local] Existing Instance example_keccak.
#[local] Existing Instance TxExample.example_curve.

Definition gpo_cache : RollupOracle := mkOracle 100 1 2100 (ScaleDecimals 1500000 6).

Lemma TotalFee_charged_witness :
  let msg := (AsMessage true (EIP155Signer 10) TxExample.signed_transfer).1.2 in
  CalculateTotalFee no_convert TxExample.signed_transfer gpo_cache = Ok 532800 ∧
  CalculateTotalMsgFee no_convert msg gpo_storage 20000 = Ok (532800 - 1 * (21000 - 20000)).
Proof.
  intros msg.
  destruct (TotalFee_charged no_convert true (EIP155Signer 10) TxExample.signed_transfer gpo_cache gpo_storage 20000)
    as (E1 & E2 & _ & E3).
  - split; [vm_compute; by split|vm_compute; discriminate|vm_compute; by split| |vm_compute; discriminate].
    intros a Ha. vm_compute in Ha. injection Ha as <-. reflexivity.
  - vm_compute. reflexivity.
  - split; [rewrite E1; vm_compute; reflexivity|].
    subst msg. rewrite E2, E3 by (split_and!; reflexivity). vm_compute. reflexivity.
Defined.
End FeeExample.
