(* ===== verification/RollupClient.v ===== *)
(** * The rollup client of the legacy L2 node

    l2geth/rollup/client.go: transactions, [enqueue] transactions and batches as the remote
    indexer delivers them, their conversion into transactions of the node, and the client.
    The HTTP library is a parameter with a state of its own, so that two requests may be
    answered differently. *)

From S2P Require Import Prelude GoErrors EthTypes Extern RLP RLPStream RLPTypes TxMeta LegacyTx.

(** ** What the remote server delivers *)

Definition errElementNotFound : error := ErrorNew "element not found".
Definition errHTTPError : error := ErrorNew "http error".

Inductive Backend := BackendL1 | BackendL2.
#[export] Instance Backend_eq_dec : EqDecision Backend.
Proof. solve_decision. Defined.

Definition Backend_String (b : Backend) : string := match b with BackendL1 => "l1" | BackendL2 => "l2" end.
Definition NewBackend (typ : string) : result Backend :=
  if bool_decide (typ = "l1") then Ok BackendL1
  else if bool_decide (typ = "l2") then Ok BackendL2
  else Err (ErrorNew "Unknown Backend").

Record Batch := mkBatch {
  b_Index : Z; b_Root : Hash; b_Size : Z; b_PrevTotalElements : Z; b_ExtraData : bytes;
  b_BlockNumber : Z; b_Timestamp : Z; b_Submitter : Address }.

Record EthContext := mkEthContext { ec_BlockNumber : Z; ec_BlockHash : Hash; ec_Timestamp : Z }.

Record SyncStatus := mkSyncStatus { ss_Syncing : bool; ss_Highest : Z; ss_Current : Z }.

Record signature := mkSig { sg_R : bytes; sg_S : bytes; sg_V : Z }.

Record decoded := mkDecoded {
  dc_Signature : signature; dc_Value : option Z; dc_GasLimit : Z; dc_GasPrice : Z; dc_Nonce : Z;
  dc_Target : option Address; dc_Data : bytes }.

Record transaction := mkRemoteTx {
  rt_Index : Z; rt_BatchIndex : Z; rt_BlockNumber : Z; rt_Timestamp : Z; rt_Value : option Z;
  rt_GasLimit : Z; rt_Target : Address; rt_Origin : option Address; rt_Data : bytes;
  rt_QueueOrigin : string; rt_QueueIndex : option Z; rt_Decoded : option decoded }.

Record Enqueue := mkEnqueue {
  eq_Index : option Z; eq_Target : option Address; eq_Data : option bytes; eq_GasLimit : option Z;
  eq_Origin : option Address; eq_BlockNumber : option Z; eq_Timestamp : option Z; eq_QueueIndex : option Z }.

Record TransactionResponse := mkTxResponse { tr_Transaction : option transaction; tr_Batch : option Batch }.
Record TransactionBatchResponse := mkBatchResponse { br_Batch : option Batch; br_Transactions : list (option transaction) }.

(** ** Conversion *)

(** A field that must be there. *)
Definition field {A} (o : option A) (name : string) : result A :=
  match o with Some x => Ok x | None => Err (ErrorNew (name +:+ " not found for enqueue tx")) end.

Definition enqueueToTransaction (enqueue : option Enqueue) : result Transaction :=
  match enqueue with
  | None => Err errElementNotFound
  | Some enqueue =>
      match eq_QueueIndex enqueue with
      | None => Err errElementNotFound
      | Some nonce =>
          target ← field (eq_Target enqueue) "Target";
          gasLimit ← field (eq_GasLimit enqueue) "Gas limit";
          origin ← field (eq_Origin enqueue) "Origin";
          blockNumber ← field (eq_BlockNumber enqueue) "Blocknumber";
          timestamp ← field (eq_Timestamp enqueue) "Timestamp";
          payload ← field (eq_Data enqueue) "Data";
          let tx := NewTransaction nonce target (Some 0) gasLimit (Some 0) payload in
          let txMeta := mkMeta (Some blockNumber) timestamp (Some origin) QueueOriginL1ToL2 (eq_Index enqueue) (eq_QueueIndex enqueue) (Some payload) in
          Ok (SetTransactionMeta (Some txMeta) tx)
      end
  end.

(** [copy(sig[end-len(b):end], b)] of a buffer. *)
Definition copy_before (stop : nat) (b sig : bytes) : result bytes :=
  if (stop <? length b)%nat then Panic "slice bounds out of range"
  else Ok (take (stop - length b) sig ++ b ++ drop stop sig).

(** The signature and the signer it is for. *)
Definition decodeSignature (chainID : Z) (sig : signature) : result (Signer * bytes) :=
  buf ← copy_before 32 (sg_R sig) (zeros SignatureLength);
  buf ← copy_before 64 (sg_S sig) buf;
  if (sg_V sig =? 27) || (sg_V sig =? 28) then Ok (HomesteadSigner, take 64 buf ++ [byte_of_Z (sg_V sig - 27)])
  else Ok (NewEIP155Signer (Some chainID), take 64 buf ++ [byte_of_Z (sg_V sig)]).

Definition batchedTransactionToTransaction (res : option transaction) (chainID : Z) : result Transaction :=
  match res with
  | None => Err errElementNotFound
  | Some res =>
      queueOrigin ← (if bool_decide (rt_QueueOrigin res = "sequencer") then Ok QueueOriginSequencer
                     else if bool_decide (rt_QueueOrigin res = "l1") then Ok QueueOriginL1ToL2
                     else Err (ErrorNew "Unknown queue origin"));
      let txMeta := mkMeta (Some (rt_BlockNumber res)) (rt_Timestamp res) (rt_Origin res) queueOrigin
                           (Some (rt_Index res)) (rt_QueueIndex res) (Some (rt_Data res)) in
      match rt_Decoded res with
      | Some d =>
          let tx := newTransaction (dc_Nonce d) (dc_Target d) (dc_Value d) (dc_GasLimit d) (Some (dc_GasPrice d)) (dc_Data d) in
          let tx := SetTransactionMeta (Some txMeta) tx in
          '(signer, sig) ← decodeSignature chainID (dc_Signature d);
          map_err (Errorf "Cannot add signature to transaction") (WithSignature signer sig tx)
      | None =>
          nonce ← (if bool_decide (rt_QueueOrigin res = "l1") then
                     match rt_QueueIndex res with
                     | None => Err (ErrorNew "Queue origin L1 to L2 without a queue index")
                     | Some q => Ok q
                     end
                   else Ok 0);
          let tx := NewTransaction nonce (rt_Target res) (rt_Value res) (rt_GasLimit res) (Some 0) (rt_Data res) in
          Ok (SetTransactionMeta (Some txMeta) tx)
      end
  end.

Fixpoint parseTransactions (l : list (option transaction)) (chainID : Z) : result (list Transaction) :=
  match l with
  | [] => Ok []
  | tx :: l =>
      t ← map_err (Errorf "Cannot parse transaction batch") (batchedTransactionToTransaction tx chainID);
      ts ← parseTransactions l chainID; Ok (t :: ts)
  end.

Definition parseTransactionBatchResponse (txBatch : option TransactionBatchResponse) (chainID : Z) : result (Batch * list Transaction) :=
  match txBatch with
  | Some (mkBatchResponse (Some batch) l) => txs ← parseTransactions l chainID; Ok (batch, txs)
  | _ => Err errElementNotFound
  end.

(** ** The client *)

(** The answers of the HTTP library: an error, a result of another type ([None]), or a
    pointer to the result, which may be nil. *)
Definition answer (A : Type) : Type := option (option A).

Class HTTP (W : Type) := {
  get_enqueue_index : Z → M W (answer Enqueue);               (* /enqueue/index/{index} *)
  get_enqueue_latest : M W (answer Enqueue);                  (* /enqueue/latest *)
  get_transaction_index : Z → Backend → M W (option TransactionResponse);   (* /transaction/index/{index} *)
  get_transaction_latest : Backend → M W (option TransactionResponse);      (* /transaction/latest *)
  get_context_number : Z → M W (option EthContext);           (* /eth/context/blocknumber/{blocknumber} *)
  get_context_latest : M W (option EthContext);               (* /eth/context/latest *)
  get_syncing : Backend → M W (option SyncStatus);            (* /eth/syncing *)
  get_batch_latest : M W (answer TransactionBatchResponse);   (* /batch/transaction/latest *)
  get_batch_index : Z → M W (answer TransactionBatchResponse) (* /batch/transaction/index/{index} *) }.

Section Client.
Context `{HTTP W} (chainID : Z).

Definition GetEnqueue (index : Z) : M W Transaction :=
  response ← wrapped "cannot fetch enqueue" (get_enqueue_index index);
  match response with
  | None => throw (ErrorNew "Cannot fetch enqueue")
  | Some None => throw (ErrorNew "Cannot deserialize enqueue")
  | Some (Some enqueue) => lift (enqueueToTransaction (Some enqueue))
  end.

Definition GetLatestEnqueue : M W Transaction :=
  response ← wrapped "cannot fetch latest enqueue" get_enqueue_latest;
  match response with
  | None => throw (ErrorNew "Cannot fetch latest enqueue")
  | Some enqueue => wrapped "Cannot parse enqueue tx" (lift (enqueueToTransaction enqueue))
  end.

Definition GetLatestEnqueueIndex : M W (option Z) :=
  tx ← GetLatestEnqueue;
  match QueueIndex (meta tx) with
  | None => throw (ErrorNew "Latest queue index is nil")
  | Some i => mret (Some i)
  end.

Definition GetRawTransaction (index : Z) (backend : Backend) : M W TransactionResponse :=
  response ← wrapped "cannot fetch transaction" (get_transaction_index index backend);
  match response with
  | None => throw (ErrorNew "could not get tx with index")
  | Some res => mret res
  end.

Definition GetTransaction (index : Z) (backend : Backend) : M W Transaction :=
  res ← GetRawTransaction index backend;
  lift (batchedTransactionToTransaction (tr_Transaction res) chainID).

Definition GetLatestTransaction (backend : Backend) : M W Transaction :=
  response ← wrapped "cannot fetch latest transactions" (get_transaction_latest backend);
  match response with
  | None => throw (ErrorNew "Cannot get latest transaction")
  | Some res => lift (batchedTransactionToTransaction (tr_Transaction res) chainID)
  end.

Definition GetLatestTransactionIndex (backend : Backend) : M W (option Z) :=
  tx ← GetLatestTransaction backend;
  match Index (meta tx) with
  | None => throw (ErrorNew "Latest index is nil")
  | Some i => mret (Some i)
  end.

Definition parse_context (response : option EthContext) : M W EthContext :=
  match response with
  | None => throw (ErrorNew "Cannot parse EthContext")
  | Some context => mret context
  end.
Definition GetEthContext (blockNumber : Z) : M W EthContext := get_context_number blockNumber ≫= parse_context.
Definition GetLatestEthContext : M W EthContext := wrapped "Cannot fetch eth context" get_context_latest ≫= parse_context.

Definition GetSyncStatus (backend : Backend) : M W SyncStatus :=
  response ← wrapped "Cannot fetch sync status" (get_syncing backend);
  match response with
  | None => throw (ErrorNew "Cannot parse sync status")
  | Some status => mret status
  end.

Definition GetLatestTransactionBatch : M W (Batch * list Transaction) := λ w,
  let '(w, r) := get_batch_latest w in
  match r with
  | Err _ => (w, Err (ErrorNew "Cannot get latest transaction batch"))
  | Panic p => (w, Panic p)
  | Ok None => (w, Err (ErrorNew "Cannot parse transaction batch response"))
  | Ok (Some txBatch) => (w, parseTransactionBatchResponse txBatch chainID)
  end.

Definition GetLatestTransactionBatchIndex : M W (option Z) :=
  '(batch, _) ← GetLatestTransactionBatch; mret (Some (b_Index batch)).

Definition GetTransactionBatch (index : Z) : M W (Batch * list Transaction) :=
  response ← wrapped "Cannot get transaction batch" (get_batch_index index);
  match response with
  | None => throw (ErrorNew "Cannot parse transaction batch response")
  | Some txBatch => lift (parseTransactionBatchResponse txBatch chainID)
  end.

(** The loop of [GetLastConfirmedEnqueue].  When a fetch fails, the message of the error
    dereferences the index of the transaction before, which is nil. *)
Fixpoint confirmedLoop (fuel : nat) (enqueue : Transaction) : M W Transaction :=
  let m := meta enqueue in
  match Index m, QueueIndex m with
  | Some _, _ => mret enqueue
  | None, None => throw (ErrorNew "queue index is nil")
  | None, Some q =>
      if q =? 0 then throw errElementNotFound
      else match fuel with
           | O => panic "out of fuel"
           | S fuel => λ w,
               let '(w, r) := GetEnqueue (q ⊟ 1) w in
               match r with
               | Ok next => confirmedLoop fuel next w
               | Err _ => (w, Panic "runtime error: invalid memory address or nil pointer dereference")
               | Panic p => (w, Panic p)
               end
           end
  end.

(** The fuel is the queue index of the latest transaction. *)
Definition GetLastConfirmedEnqueue : M W Transaction :=
  enqueue ← wrapped "Cannot get latest enqueue" GetLatestEnqueue;
  confirmedLoop (Z.to_nat (default 0 (QueueIndex (meta enqueue)))) enqueue.
End Client.

(** ** Enqueued transactions *)

(** What an [enqueue] becomes: an unsigned transaction without value or price, whose nonce
    is the queue index and whose sender is the L1 origin. *)
Record is_enqueue (e : Enqueue) (tx : Transaction) : Prop := {
  ie_index : Index (meta tx) = eq_Index e;
  ie_queue : QueueIndex (meta tx) = eq_QueueIndex e ∧ eq_QueueIndex e = Some (AccountNonce (data tx));
  ie_origin : QueueOrigin (meta tx) = QueueOriginL1ToL2 ∧ L1MessageSender (meta tx) = eq_Origin e;
  ie_context : L1BlockNumber (meta tx) = eq_BlockNumber e ∧ eq_Timestamp e = Some (L1Timestamp (meta tx));
  ie_call : Recipient (data tx) = eq_Target e ∧ eq_GasLimit e = Some (GasLimit (data tx)) ∧ eq_Data e = Some (Payload (data tx)) ∧
    RawTransaction (meta tx) = eq_Data e;
  ie_free : Amount (data tx) = 0 ∧ Price (data tx) = 0 ∧ sig_V (data tx) = 0 ∧ sig_R (data tx) = 0 ∧ sig_S (data tx) = 0 }.

Lemma enqueueToTransaction_is e tx : enqueueToTransaction (Some e) = Ok tx → is_enqueue e tx.
Proof.
  destruct e as [i [t|] [d|] [g|] [o|] [b|] [ts|] [q|]]; try done. cbn. intros [= <-]. by split.
Qed.

Lemma enqueueToTransaction_complete e q :
  eq_QueueIndex e = Some q → is_Some (eq_Target e) → is_Some (eq_GasLimit e) → is_Some (eq_Origin e) →
  is_Some (eq_BlockNumber e) → is_Some (eq_Timestamp e) → is_Some (eq_Data e) → ∃ tx, enqueueToTransaction (Some e) = Ok tx.
Proof. destruct e. cbn. intros -> [? ->] [? ->] [? ->] [? ->] [? ->] [? ->]. by eexists. Qed.

(** ** The last confirmed one *)

Section Queue.
Context `{HTTP W}.

(** The server's queue. *)
Record serves_queue (q : list Enqueue) : Prop := {
  sq_latest w : (get_enqueue_latest w).2 = Ok (Some (last q));
  sq_index i w : (get_enqueue_index i w).2 = Ok (Some (q !! Z.to_nat i));
  sq_short : len q < 2 ^ 64;
  sq_complete i e : q !! i = Some e → eq_QueueIndex e = Some (Z.of_nat i) ∧ is_Some (eq_Target e) ∧ is_Some (eq_GasLimit e) ∧
    is_Some (eq_Origin e) ∧ is_Some (eq_BlockNumber e) ∧ is_Some (eq_Timestamp e) ∧ is_Some (eq_Data e) }.

Definition confirmed (e : Enqueue) : Prop := is_Some (eq_Index e).
#[global] Instance confirmed_dec e : Decision (confirmed e).
Proof. unfold confirmed. apply _. Defined.

(** The last confirmed element among the first [n]. *)
Definition last_confirmed (q : list Enqueue) : option Enqueue := last (filter confirmed q).

Lemma filter_confirmed e : filter confirmed [e] = match eq_Index e with Some _ => [e] | None => [] end.
Proof.
  rewrite filter_cons, filter_nil. destruct (decide (confirmed e)) as [[x E]|E]; [by rewrite E|].
  destruct (eq_Index e) eqn:Ei; [|done]. exfalso. apply E. unfold confirmed. by rewrite Ei.
Qed.

Lemma serves_tx q i e : serves_queue q → q !! i = Some e → ∃ tx, enqueueToTransaction (Some e) = Ok tx ∧
  Index (meta tx) = eq_Index e ∧ QueueIndex (meta tx) = Some (Z.of_nat i).
Proof.
  intros Hq Hi. destruct (sq_complete _ Hq i e Hi) as (Hqi & ? & ? & ? & ? & ? & ?).
  destruct (enqueueToTransaction_complete e _ Hqi) as [tx Htx]; [done..|]. exists tx. split; [done|].
  destruct (enqueueToTransaction_is e tx Htx) as [Ha [Hb Hc] _ _ _ _]. split; [done|]. by rewrite Hb.
Qed.

Lemma confirmedLoop_spec q : serves_queue q → ∀ fuel i e tx w,
  q !! i = Some e → enqueueToTransaction (Some e) = Ok tx → (i <= fuel)%nat →
  (confirmedLoop fuel tx w).2 = match last_confirmed (take (S i) q) with
    | Some e => enqueueToTransaction (Some e) | None => Err errElementNotFound end.
Proof.
  intros Hq fuel i. revert fuel. induction i as [|i IH]; intros fuel e tx w Hi Htx Hf.
  - destruct (serves_tx q 0 e Hq Hi) as (tx0 & E & Hx & Hqi). rewrite Htx in E. injection E as <-. unfold last_confirmed.
    rewrite (take_S_r q 0 e Hi). change (take 0 q ++ [e]) with [e]. rewrite filter_confirmed.
    destruct fuel; cbn [confirmedLoop]; rewrite Hx, Hqi; by destruct (eq_Index e).
  - destruct (serves_tx q (S i) e Hq Hi) as (tx0 & E & Hx & Hqi). rewrite Htx in E. injection E as <-. destruct fuel as [|fuel]; [lia|].
    unfold last_confirmed. rewrite (take_S_r q (S i) e Hi), filter_app, filter_confirmed.
    cbn [confirmedLoop]. rewrite Hx, Hqi. destruct (eq_Index e) as [x|] eqn:Ex.
    + rewrite last_snoc. done.
    + rewrite app_nil_r. rewrite (proj2 (Z.eqb_neq _ 0)) by lia.
      destruct (q !! i) as [e'|] eqn:Ei; [|apply lookup_ge_None in Ei; apply lookup_lt_Some in Hi; lia].
      destruct (serves_tx q i e' Hq Ei) as (tx' & E' & _).
      assert (Hg : (GetEnqueue (Z.of_nat (S i) ⊟ 1) w).2 = Ok tx').
      { pose proof (sq_short _ Hq). apply lookup_lt_Some in Hi. unfold len in *. rewrite u64_small by (unfold is_u64; lia).
        unfold GetEnqueue, wrapped. pose proof (sq_index _ Hq (Z.of_nat (S i) - 1) w) as Ha.
        replace (Z.to_nat (Z.of_nat (S i) - 1)) with i in Ha by lia. rewrite Ei in Ha. unfold mbind, M_bind.
        destruct (get_enqueue_index _ w) as [w1 r]. cbn [snd] in Ha. subst r. cbn [map_err]. done. }
      destruct (GetEnqueue _ w) as [w1 r]. cbn [snd] in Hg. subst r. apply (IH fuel e'); [done..|lia].
Qed.

(** With a consistent server the client finds the last [enqueue] that is in the canonical
    chain; otherwise it says that there is none. *)
Theorem GetLastConfirmedEnqueue_spec q w :
  serves_queue q →
  match last_confirmed q with
  | Some e => (GetLastConfirmedEnqueue w).2 = enqueueToTransaction (Some e)
  | None => ∃ err, (GetLastConfirmedEnqueue w).2 = Err err ∧ errors_Is err errElementNotFound = true
  end.
Proof.
  intros Hq. unfold GetLastConfirmedEnqueue, wrapped, GetLatestEnqueue, mbind, M_bind, wrapped. pose proof (sq_latest _ Hq w) as Hl.
  destruct (get_enqueue_latest w) as [w1 r]. cbn [snd] in Hl. subst r. cbn [map_err lift].
  destruct (last q) as [e|] eqn:El.
  - rewrite last_lookup in El. destruct (serves_tx q _ e Hq El) as (tx & E & _ & Hqi). rewrite E. cbn [map_err].
    rewrite Hqi. cbn [default from_option id]. rewrite Nat2Z.id.
    pose proof (confirmedLoop_spec q Hq _ _ e tx w1 El E (Nat.le_refl _)) as Hs. rewrite take_ge in Hs by lia.
    destruct (last_confirmed q); [done|]. by eexists.
  - apply last_None in El as ->. cbn. by eexists.
Qed.

(** When the server fails on an element behind the latest, the client does not report it:
    the error message dereferences a nil index. *)
Theorem GetLastConfirmedEnqueue_panics w w1 tx q :
  GetLatestEnqueue w = (w1, Ok tx) → Index (meta tx) = None → QueueIndex (meta tx) = Some q → 0 < q →
  (∃ e, (GetEnqueue (q ⊟ 1) w1).2 = Err e) → ∃ p, (GetLastConfirmedEnqueue w).2 = Panic p.
Proof.
  intros Hl Hi Hq Hpos [e He]. unfold GetLastConfirmedEnqueue, wrapped, mbind, M_bind. rewrite Hl. cbn [map_err].
  rewrite Hq. cbn [default from_option id]. destruct (Z.to_nat q) as [|n] eqn:En; [lia|]. cbn [confirmedLoop]. rewrite Hi, Hq.
  rewrite (proj2 (Z.eqb_neq q 0)) by lia. destruct (GetEnqueue (q ⊟ 1) w1) as [w2 r]. cbn [snd] in He. subst r. by eexists.
Qed.
End Queue.

(** ** Signed transactions *)

Lemma big_Bytes_pad n z : 0 <= z < 256 ^ Z.of_nat n →
  (length (big_Bytes z) <= n)%nat ∧ zeros (n - length (big_Bytes z)) ++ big_Bytes z = be_encode n z.
Proof.
  intros Hz. assert (Hl : (length (big_Bytes z) <= n)%nat).
  { unfold big_Bytes. rewrite length_be_encode. destruct (Z.eqb_spec z 0); [cbn; lia|].
    destruct (big_Bytes_size z ltac:(lia)) as (Hp & Hlo & _). enough (Z.log2 z / 8 < Z.of_nat n) by lia.
    destruct (decide (Z.log2 z / 8 < Z.of_nat n)); [done|]. exfalso.
    assert (256 ^ Z.of_nat n <= 256 ^ (Z.log2 z / 8 + 1 - 1)) by (apply Z.pow_le_mono_r; lia). lia. }
  split; [done|]. apply be_decode_inj.
  - rewrite length_app, length_be_encode. unfold zeros. rewrite length_replicate. lia.
  - rewrite be_decode_app, be_decode_zeros, be_decode_big_Bytes, be_decode_encode_small by lia. lia.
Qed.

Lemma decodeSignature_values c r s v :
  0 <= r < 256 ^ 32 → 0 <= s < 256 ^ 32 → 0 <= v <= 1 →
  decodeSignature c (mkSig (big_Bytes r) (big_Bytes s) v) = Ok (EIP155Signer c, be_encode 32 r ++ be_encode 32 s ++ [byte_of_Z v]).
Proof.
  intros Hr Hs Hv. destruct (big_Bytes_pad 32 r Hr) as [Hlr Er]. destruct (big_Bytes_pad 32 s Hs) as [Hls Es].
  unfold decodeSignature, copy_before. cbn [sg_R sg_S sg_V].
  rewrite (proj2 (Nat.ltb_ge 32 _)) by lia. cbn [mbind result_bind]. rewrite (proj2 (Nat.ltb_ge 64 _)) by lia. cbn [mbind result_bind].
  rewrite (proj2 (Z.eqb_neq v 27)), (proj2 (Z.eqb_neq v 28)) by lia. cbn [orb]. f_equal. f_equal.
  unfold zeros, SignatureLength. rewrite take_replicate, drop_replicate. rewrite Nat.min_l by lia.
  change (replicate (32 - length (big_Bytes r)) x00) with (zeros (32 - length (big_Bytes r))).
  rewrite (app_assoc (zeros _)), Er. rewrite (take_app_ge (be_encode 32 r)) by (rewrite length_be_encode; lia). rewrite length_be_encode.
  replace (64 - length (big_Bytes s) - 32)%nat with (32 - length (big_Bytes s))%nat by lia.
  rewrite take_replicate, Nat.min_l by lia. rewrite <- app_assoc. rewrite (app_assoc (replicate _ _)).
  change (replicate (32 - length (big_Bytes s)) x00) with (zeros (32 - length (big_Bytes s))). rewrite Es.
  rewrite app_assoc. rewrite take_app_length' by (by rewrite length_app, !length_be_encode). by rewrite <- app_assoc.
Qed.

(** The decoded form the indexer keeps of a transaction signed for the chain. *)
Definition decoded_of (c : Z) (d : txdata) : decoded :=
  mkDecoded (mkSig (big_Bytes (sig_R d)) (big_Bytes (sig_S d)) (sig_V d - 35 - 2 * c)) (Some (Amount d)) (GasLimit d) (Price d)
            (AccountNonce d) (Recipient d) (Payload d).

(** A transaction that was signed, batched and decoded again is the same transaction, so
    that its hash and its sender are. *)
Theorem batched_signed `{Keccak} `{Secp256k1} tx k c tx' res :
  0 < c → SignTx tx (EIP155Signer c) k = Ok tx' → rt_QueueOrigin res = "sequencer" → rt_Decoded res = Some (decoded_of c (data tx')) →
  ∃ t, batchedTransactionToTransaction (Some res) c = Ok t ∧ data t = data tx' ∧
    meta t = mkMeta (Some (rt_BlockNumber res)) (rt_Timestamp res) (rt_Origin res) QueueOriginSequencer (Some (rt_Index res)) (rt_QueueIndex res) (Some (rt_Data res)) ∧
    (Sender (EIP155Signer c) t).2 = Ok (PubkeyToAddress k) ∧ (tx_Hash t).2 = rlpHash txdata_type (txdata_value (data tx')).
Proof.
  intros Hc Htx Ho Hd. pose proof (SignTx_inv _ _ _ _ Htx) as (sig & v & Es & Ev & Hv & _ & _ & _ & Edata).
  destruct (Sign_values _ _ _ Es) as (Hl & _ & Hr & Hs). assert (Hbig : secp256k1N < 256 ^ 32 ∧ secp256k1halfN < 256 ^ 32) by done.
  rewrite (proj2 (Z.eqb_neq c 0)) in Edata by lia.
  unfold batchedTransactionToTransaction. rewrite Ho, Hd. rewrite bool_decide_eq_true_2 by done. cbn [mbind result_bind].
  assert (Hsig : decodeSignature c (dc_Signature (decoded_of c (data tx'))) = Ok (EIP155Signer c, sig)).
  { cbn [decoded_of dc_Signature]. rewrite Edata. cbn [signed sig_R sig_S sig_V]. replace (v + 35 + 2 * c - 35 - 2 * c) with v by lia.
    rewrite decodeSignature_values by lia. subst v. by rewrite signature_split. }
  rewrite Hsig. cbn [mbind result_bind]. unfold WithSignature, SignatureValues, Frontier_SignatureValues. rewrite Hl, Nat.eqb_refl.
  cbn [negb mbind result_bind]. rewrite <- Ev. rewrite (proj2 (Z.eqb_neq c 0)) by lia. rewrite (Z.mod_small (v + 35)) by lia. cbn [mbind result_bind map_err].
  match goal with |- ∃ t, Ok ?u = Ok t ∧ _ => set (t := u) end.
  assert (Hdata : data t = data tx') by (subst t; cbn; rewrite !Edata; done). exists t. split; [done|]. split; [done|]. split; [done|].
  destruct (SignTx_inv _ _ _ _ Htx) as (_ & _ & _ & _ & _ & _ & Hf & _).
  split; [|unfold tx_Hash; cbn [t hash snd]; by rewrite Hdata].
  assert (Hsend : ∀ u, from u = None → (Sender (EIP155Signer c) u).2 = Signer_Sender (EIP155Signer c) (data u)).
  { intros u Hu. unfold Sender. rewrite Hu. by destruct (Signer_Sender _ _). }
  rewrite Hsend by done. rewrite Hdata, <- Hsend by done. exact (proj1 (Sender_of_SignTx tx (EIP155Signer c) k tx' c ltac:(by intros ? [= <-]) Htx)).
Qed.

(** ** A server *)

Module ClientExample.
Definition element (i : Z) (ctc : option Z) : Enqueue :=
  mkEnqueue ctc (Some (zeros 20)) (Some [x01]) (Some 1000000) (Some (zeros 20)) (Some 7) (Some 1000) (Some i).
Definition queue : list Enqueue := [element 0 (Some 3); element 1 (Some 5); element 2 None].

#[local] Instance server : HTTP () := {
  get_enqueue_index i w := (w, Ok (Some (queue !! Z.to_nat i)));
  get_enqueue_latest w := (w, Ok (Some (last queue)));
  get_transaction_index _ _ w := (w, Ok None);
  get_transaction_latest _ w := (w, Ok None);
  get_context_number _ w := (w, Ok None);
  get_context_latest w := (w, Ok None);
  get_syncing _ w := (w, Ok None);
  get_batch_latest w := (w, Ok None);
  get_batch_index _ w := (w, Ok None) }.

Lemma server_queue : serves_queue queue.
Proof.
  split; try done. intros [|[|[|i]]] e E; cbn in E; try done; injection E as <-; cbn; split_and!; done || by eexists.
Qed.

Lemma GetLastConfirmedEnqueue_spec_witness :
  (GetLastConfirmedEnqueue tt).2 = enqueueToTransaction (Some (element 1 (Some 5))).
Proof. exact (GetLastConfirmedEnqueue_spec queue tt server_queue). Defined.

#[local] Existing Instance example_keccak.
#[local] Existing Instance TxExample.example_curve.

Definition remote : transaction :=
  mkRemoteTx 4 1 7 1000 None 0 (zeros 20) None [x01] "sequencer" None (Some (decoded_of 10 (data TxExample.signed_transfer))).

Lemma batched_signed_witness :
  ∃ t, batchedTransactionToTransaction (Some remote) 10 = Ok t ∧ data t = data TxExample.signed_transfer ∧
    meta t = mkMeta (Some 7) 1000 None QueueOriginSequencer (Some 4) None (Some [x01]) ∧
    (Sender (EIP155Signer 10) t).2 = Ok (PubkeyToAddress TxExample.key7) ∧ (tx_Hash t).2 = rlpHash txdata_type (txdata_value (data TxExample.signed_transfer)).
Proof.
  apply (batched_signed TxExample.transfer TxExample.key7 10 TxExample.signed_transfer remote); [done|vm_compute; reflexivity|done|done].
Defined.
End ClientExample.
