(* ===== verification/SyncService.v ===== *)
(** * The sync service of the legacy L2 node

    l2geth/rollup/sync_service.go and types.go, with the indices of
    l2geth/core/rawdb/rollup_indexes.go.  The service pulls transactions from the remote
    indexer, or takes them from users as the sequencer, gives them their L1 context and their
    place in the canonical transaction chain, and hands them to the miner one by one.  The
    indexer is the interface [RollupClient] (the client of [RollupClient] is an instance);
    miner, clock, transaction pool and the state of the chain are the environment. *)

From S2P Require Import Prelude GoErrors EthTypes Extern RLP RLPStream RLPTypes.
From S2P Require Import TxMeta LegacyTx RollupFee RollupClient.

(** ** Indices on disk *)

Notation DB := (gmap string bytes).

Definition headIndexKey : string := "LastIndex".
Definition headQueueIndexKey : string := "LastQueueIndex".
Definition headVerifiedIndexKey : string := "LastVerifiedIndex".
Definition headBatchKey : string := "LastBatch".

(** The body the four readers share, and that of the writers. *)
Definition read_index (key : string) (db : DB) : option Z :=
  let data := default [] (db !! key) in
  if (length data =? 0)%nat then None else Some (u64 (be_decode data)).
Definition write_index (key : string) (index : Z) (db : DB) : DB :=
  let value := if index =? 0 then [x00] else big_Bytes index in
  <[key := value]> db.

Definition ReadHeadIndex : DB → option Z := read_index headIndexKey.
Definition WriteHeadIndex : Z → DB → DB := write_index headIndexKey.
Definition ReadHeadQueueIndex : DB → option Z := read_index headQueueIndexKey.
Definition WriteHeadQueueIndex : Z → DB → DB := write_index headQueueIndexKey.
Definition ReadHeadVerifiedIndex : DB → option Z := read_index headVerifiedIndexKey.
Definition WriteHeadVerifiedIndex : Z → DB → DB := write_index headVerifiedIndexKey.
Definition ReadHeadBatchIndex : DB → option Z := read_index headBatchKey.
Definition WriteHeadBatchIndex : Z → DB → DB := write_index headBatchKey.

(** ** Interfaces *)

(** The remote indexer. *)
Class RollupClient (W : Type) := {
  rc_GetEnqueue : Z → M W Transaction;
  rc_GetLatestEnqueueIndex : M W (option Z);
  rc_GetRawTransaction : Z → Backend → M W TransactionResponse;
  rc_GetTransaction : Z → Backend → M W Transaction;
  rc_GetLatestTransactionIndex : Backend → M W (option Z);
  rc_GetEthContext : Z → M W EthContext;
  rc_GetLatestEthContext : M W EthContext;
  rc_GetLastConfirmedEnqueue : M W Transaction;
  rc_GetLatestTransactionBatchIndex : M W (option Z);
  rc_GetTransactionBatch : Z → M W (Batch * list Transaction) }.

#[export] Instance HTTP_client `{HTTP W} (chainID : Z) : RollupClient W := {
  rc_GetEnqueue := GetEnqueue;
  rc_GetLatestEnqueueIndex := GetLatestEnqueueIndex;
  rc_GetRawTransaction := GetRawTransaction;
  rc_GetTransaction := GetTransaction chainID;
  rc_GetLatestTransactionIndex := GetLatestTransactionIndex chainID;
  rc_GetEthContext := GetEthContext;
  rc_GetLatestEthContext := GetLatestEthContext;
  rc_GetLastConfirmedEnqueue := GetLastConfirmedEnqueue;
  rc_GetLatestTransactionBatchIndex := GetLatestTransactionBatchIndex chainID;
  rc_GetTransactionBatch := GetTransactionBatch chainID }.

(** A block is the list of its transactions, its number its place in the chain. *)
Notation Block := (list Transaction).

Record StateDB := mkStateDB { GetBalance : Address → Z; GetGPOState : Z → Z }.

(** The rest of the node: the clock (nanoseconds), the miner, which adds a block with the
    transaction or reports an error, the state after the chain, and the checks of the pool. *)
Class Environment (W : Type) := {
  time_Now : W → W * Z;
  mine : Transaction → W → W * option error;
  bc_State : list Block → W → result StateDB;
  txpool_ValidateTx : list Block → Transaction → W → result () }.

(** ** The service *)

Record Config := mkConfig {
  verifier : bool;
  backend : Backend;
  timestampRefreshThreshold : Z;
  enforceFees : bool;
  signer : Signer;
  feeThresholdUp : option Float;
  feeThresholdDown : option Float;
  enable : bool;
  ctcDeployHeight : option Z }.

Record OVMContext := mkOVM { blockNumber : Z; timestamp : Z }.

Record SyncService (W : Type) := mkService {
  db : DB;
  chain : list Block;
  ovm : OVMContext;
  RollupGpo : RollupOracle;
  gasPriceOracleOwnerAddress : Address;
  syncing : option bool;
  world : W }.
Arguments mkService {W}. Arguments db {W}. Arguments chain {W}. Arguments ovm {W}. Arguments RollupGpo {W}.
Arguments gasPriceOracleOwnerAddress {W}. Arguments syncing {W}. Arguments world {W}.

Definition errShortRemoteTip : error := ErrorNew "unexpected remote less than tip".
Definition errZeroGasPriceTx : error := ErrorNew "cannot accept 0 gas price transaction".
Definition errBadConfig : error := ErrorNew "bad config".
Definition ErrInvalidSender : error := ErrorNew "invalid sender".
Definition ErrInsufficientFunds : error := ErrorNew "insufficient funds for gas * price + value".

(** The transactions the canonical chain considers equal: [isCtcTxEqual]. *)
Definition isCtcTxEqual (a b : Transaction) : bool :=
  let to_equal := match Recipient (data a), Recipient (data b) with
    | None, Some t => bool_decide (t = zero_address)
    | Some _, None => false
    | Some t, Some t' => bool_decide (t = t')
    | None, None => true
    end in
  to_equal && bool_decide (Payload (data a) = Payload (data b)) &&
  bool_decide (L1MessageSender (meta a) = L1MessageSender (meta b)) && (GasLimit (data a) =? GasLimit (data b)).

Section Service.
Context {W : Type} `{RollupClient W} `{Environment W} `{Keccak} `{Secp256k1} (convert : option Z → Z) (cfg : Config).
Local Notation service := (SyncService W).

Definition with_db (f : DB → DB) : M service () := λ s,
  (mkService (f (db s)) (chain s) (ovm s) (RollupGpo s) (gasPriceOracleOwnerAddress s) (syncing s) (world s), Ok ()).
Definition with_ovm (f : OVMContext → OVMContext) : M service () := λ s,
  (mkService (db s) (chain s) (f (ovm s)) (RollupGpo s) (gasPriceOracleOwnerAddress s) (syncing s) (world s), Ok ()).
Definition with_gpo (f : RollupOracle → RollupOracle) : M service () := λ s,
  (mkService (db s) (chain s) (ovm s) (f (RollupGpo s)) (gasPriceOracleOwnerAddress s) (syncing s) (world s), Ok ()).
Definition with_owner (a : Address) : M service () := λ s,
  (mkService (db s) (chain s) (ovm s) (RollupGpo s) a (syncing s) (world s), Ok ()).
Definition setSyncStatus (status : bool) : M service () := λ s,
  (mkService (db s) (chain s) (ovm s) (RollupGpo s) (gasPriceOracleOwnerAddress s) (Some status) (world s), Ok ()).
Definition IsSyncing (s : service) : bool := default false (syncing s).

(** What is read from the state. *)
Definition gets {A} (f : service → A) : M service A := λ s, (s, Ok (f s)).
(** A call of the indexer. *)
Definition remote {A} (m : M W A) : M service A := λ s,
  let '(w, r) := m (world s) in
  (mkService (db s) (chain s) (ovm s) (RollupGpo s) (gasPriceOracleOwnerAddress s) (syncing s) w, r).

(** ** Getters and setters *)

Definition GetLatestL1Timestamp (s : service) : Z := timestamp (ovm s).
Definition GetLatestL1BlockNumber (s : service) : Z := blockNumber (ovm s).
Definition SetLatestL1Timestamp (ts : Z) : M service () := with_ovm (λ o, mkOVM (blockNumber o) ts).
Definition SetLatestL1BlockNumber (bn : Z) : M service () := with_ovm (λ o, mkOVM bn (timestamp o)).

Definition next_index (latest : option Z) : Z := match latest with None => 0 | Some l => l ⊞ 1 end.
Definition set_index (write : Z → DB → DB) (index : option Z) : M service () :=
  match index with None => mret () | Some i => with_db (write i) end.

Definition GetLatestEnqueueIndex (s : service) : option Z := ReadHeadQueueIndex (db s).
Definition GetNextEnqueueIndex (s : service) : Z := next_index (GetLatestEnqueueIndex s).
Definition SetLatestEnqueueIndex : option Z → M service () := set_index WriteHeadQueueIndex.
Definition GetLatestIndex (s : service) : option Z := ReadHeadIndex (db s).
Definition GetNextIndex (s : service) : Z := next_index (GetLatestIndex s).
Definition SetLatestIndex : option Z → M service () := set_index WriteHeadIndex.
Definition GetLatestVerifiedIndex (s : service) : option Z := ReadHeadVerifiedIndex (db s).
Definition GetNextVerifiedIndex (s : service) : Z := next_index (GetLatestVerifiedIndex s).
Definition SetLatestVerifiedIndex : option Z → M service () := set_index WriteHeadVerifiedIndex.
Definition GetLatestBatchIndex (s : service) : option Z := ReadHeadBatchIndex (db s).
Definition GetNextBatchIndex (s : service) : Z := next_index (GetLatestBatchIndex s).
Definition SetLatestBatchIndex : option Z → M service () := set_index WriteHeadBatchIndex.

(** [GetBlockByNumber] and [CurrentBlock], with its number. *)
Definition GetBlockByNumber (n : Z) (s : service) : option Block := chain s !! Z.to_nat n.
Definition CurrentBlock (s : service) : option (Z * Block) :=
  b ← last (chain s); Some (len (chain s) - 1, b).

(** ** The gas price oracle *)

Definition bc_state (s : service) : service * result StateDB := (s, bc_State (chain s) (world s)).

Definition cacheGasPriceOracleOwner (st : StateDB) : M service () :=
  with_owner (be_encode 20 (GetGPOState st L2GasPriceOracleOwnerSlot)).
Definition updateL2GasPrice (st : StateDB) : M service () := with_gpo (RollupFee.SetL2GasPrice (GetGPOState st L2GasPriceSlot)).
Definition updateL1GasPrice (st : StateDB) : M service () := with_gpo (RollupFee.SetL1GasPrice (GetGPOState st L1GasPriceSlot)).
Definition updateOverhead (st : StateDB) : M service () := with_gpo (RollupFee.SetOverhead (GetGPOState st OverheadSlot)).
Definition updateScalar (st : StateDB) : M service () :=
  with_gpo (RollupFee.SetScalar (GetGPOState st ScalarSlot) (GetGPOState st DecimalsSlot)).

(** [updateGasPriceOracleCache] at the tip. *)
Definition updateGasPriceOracleCache : M service () :=
  st ← bc_state;
  _ ← cacheGasPriceOracleOwner st; _ ← updateL2GasPrice st; _ ← updateL1GasPrice st; _ ← updateOverhead st; updateScalar st.

Definition updateL1BlockNumber : M service () :=
  context ← wrapped "Cannot get eth context" (remote rc_GetLatestEthContext);
  latest ← gets GetLatestL1BlockNumber;
  if latest <? ec_BlockNumber context then SetLatestL1BlockNumber (ec_BlockNumber context) else mret ().

(** ** Applying transactions *)

(** A uint64 as an int64, and durations, which saturate. *)
Definition int64 (z : Z) : Z := if z <? 2 ^ 63 then z else z - 2 ^ 64.
Definition duration (d : Z) : Z := Z.max (- 2 ^ 63) (Z.min (2 ^ 63 - 1) d).

(** The timestamp of a transaction: its own, or, when it has none or when the sequencer
    takes it from L1, the latest one or the clock when that is too old. *)
Definition assignTimestamp (ts : Z) (tx : Transaction) : M service Transaction := λ s,
  let shouldMalleateTimestamp := negb (verifier cfg) && (QueueOrigin (meta tx) =? QueueOriginL1ToL2) in
  if (L1Timestamp (meta tx) =? 0) || shouldMalleateTimestamp then
    let '(w, now) := time_Now (world s) in
    let current := int64 ts in
    let current := if timestampRefreshThreshold cfg <? duration (now - current * 10 ^ 9) then now / 10 ^ 9 else current in
    (mkService (db s) (chain s) (ovm s) (RollupGpo s) (gasPriceOracleOwnerAddress s) (syncing s) w, Ok (SetL1Timestamp (u64 current) tx))
  else (s, Ok tx).

(** The L1 block number: its own, which may move the latest one forward. *)
Definition assignBlockNumber (bn : Z) (tx : Transaction) : M service Transaction :=
  match L1BlockNumber (meta tx) with
  | None => mret (SetL1BlockNumber bn tx)
  | Some n => if bn <? big_Uint64 n then _ ← SetLatestL1BlockNumber (big_Uint64 n); mret tx else mret tx
  end.

Definition assignIndex (index : option Z) (tx : Transaction) : Transaction :=
  match Index (meta tx) with
  | Some _ => tx
  | None => SetIndex (next_index index) tx
  end.

(** What is undone when a transaction fails. *)
Definition rollback {A} (ts bn : Z) (index : option Z) (e : error) : M service A :=
  _ ← SetLatestL1Timestamp ts; _ ← SetLatestL1BlockNumber bn; _ ← SetLatestIndex index; throw e.

(** The transaction gets its context and its indices, which are stored; the index before is
    returned with it. *)
Definition prepareTransaction (ts bn : Z) (tx : Transaction) : M service (Transaction * option Z) :=
  tx ← assignTimestamp ts tx;
  tx ← assignBlockNumber bn tx;
  _ ← (if ts <? L1Timestamp (meta tx) then SetLatestL1Timestamp (L1Timestamp (meta tx)) else mret ());
  index ← gets GetLatestIndex;
  let tx := assignIndex index tx in
  _ ← SetLatestIndex (Index (meta tx));
  _ ← SetLatestEnqueueIndex (QueueIndex (meta tx));
  mret (tx, index).

(** The transaction is sent to the miner; the service waits for an error or for the block. *)
Definition sendToMiner (tx : Transaction) : M service () := λ s,
  let '(w, r) := mine tx (world s) in
  let chain' := match r with None => chain s ++ [[tx]] | Some _ => chain s end in
  (mkService (db s) chain' (ovm s) (RollupGpo s) (gasPriceOracleOwnerAddress s) (syncing s) w, match r with None => Ok () | Some e => Err e end).

(** A method whose errors are handled. *)
Definition try_catch {A} (m : M service A) (handle : error → M service A) : M service A := λ s,
  let '(s, r) := m s in
  match r with Err e => handle e s | _ => (s, r) end.

Definition includeTransaction (ts bn : Z) (index : option Z) (tx : Transaction) : M service () :=
  _ ← try_catch (sendToMiner tx) (rollback ts bn index);
  owner ← gets gasPriceOracleOwnerAddress;
  let sender := match (Sender (signer cfg) tx).2 with Ok a => a | _ => zero_address end in
  if bool_decide (sender = owner) then try_catch updateGasPriceOracleCache (rollback ts bn index) else mret ().

Definition applyTransactionToTip (tx : option Transaction) : M service () :=
  match tx with
  | None => throw (ErrorNew "nil transaction passed to applyTransactionToTip")
  | Some tx =>
      if (QueueOrigin (meta tx) =? QueueOriginL1ToL2) && (L1Timestamp (meta tx) =? 0)
      then throw (ErrorNew "Queue origin L1 to L2 transaction without a timestamp")
      else
        ts ← gets GetLatestL1Timestamp;
        bn ← gets GetLatestL1BlockNumber;
        '(tx, index) ← prepareTransaction ts bn tx;
        includeTransaction ts bn index tx
  end.

Definition applyHistoricalTransaction (tx : option Transaction) : M service () :=
  match tx with
  | None => throw (ErrorNew "Transaction is nil in applyHistoricalTransaction")
  | Some tx =>
      match Index (meta tx) with
      | None => throw (ErrorNew "No index is found in applyHistoricalTransaction")
      | Some index =>
          block ← gets (GetBlockByNumber (index ⊞ 1));
          match block with
          | None => throw (ErrorNew "Block is not found")
          | Some [_] => mret ()
          | Some _ => throw (ErrorNew "More than one transaction found in block")
          end
      end
  end.

(** Whether the comparison of a historical transaction logs a mismatch; it does no more. *)
Definition historicalMismatch (tx : Transaction) (s : service) : bool :=
  match Index (meta tx) with
  | Some index => match GetBlockByNumber (index ⊞ 1) s with Some [t] => negb (isCtcTxEqual tx t) | _ => false end
  | None => false
  end.

Definition applyIndexedTransaction (tx : option Transaction) : M service () :=
  match tx with
  | None => throw (ErrorNew "Transaction is nil in applyIndexedTransaction")
  | Some t =>
      match Index (meta t) with
      | None => throw (ErrorNew "No index found in applyIndexedTransaction")
      | Some index =>
          next ← gets GetNextIndex;
          if index =? next then applyTransactionToTip tx
          else if index <? next then applyHistoricalTransaction tx
          else throw (ErrorNew "Received tx at index when looking for")
      end
  end.

Definition applyTransaction (tx : Transaction) : M service () :=
  match Index (meta tx) with
  | Some _ => applyIndexedTransaction (Some tx)
  | None => applyTransactionToTip (Some tx)
  end.

Definition applyBatchedTransaction (tx : option Transaction) : M service () :=
  match tx with
  | None => throw (ErrorNew "nil transaction passed into applyBatchedTransaction")
  | Some t =>
      match Index (meta t) with
      | None => throw (ErrorNew "No index found on transaction")
      | Some index =>
          _ ← wrapped "Cannot apply batched transaction" (applyIndexedTransaction tx);
          SetLatestVerifiedIndex (Some index)
      end
  end.

Definition IngestTransaction : Transaction → M service () := applyTransaction.

(** ** Transactions of users *)

Definition verifyFee (tx : Transaction) : M service Transaction :=
  oracle ← gets RollupGpo;
  fee ← wrapped "invalid transaction" (lift (CalculateTotalFee convert tx oracle));
  let cost := if Price (data tx) =? 0 then Amount (data tx) else Amount (data tx) + fee in
  state ← bc_state;
  let '(tx, r) := Sender (signer cfg) tx in
  match r with
  | Ok from =>
      if GetBalance state from <? cost then throw (Errorf "invalid transaction" ErrInsufficientFunds)
      else if Price (data tx) =? 0 then
        owner ← gets gasPriceOracleOwnerAddress;
        if bool_decide (from = owner) then mret tx
        else if enforceFees cfg then throw errZeroGasPriceTx else mret tx
      else
        match PaysEnough convert (mkOpts (Some (Price (data tx))) (Some (l2GasPrice oracle)) (feeThresholdUp cfg) (feeThresholdDown cfg)) with
        | Ok _ => mret tx
        | Err e =>
            if errors_Is e ErrGasPriceTooLow then throw (Errorf "use at least tx.gasPrice" ErrGasPriceTooLow)
            else if errors_Is e ErrGasPriceTooHigh then throw (Errorf "use at most tx.gasPrice" ErrGasPriceTooHigh)
            else throw e
        | Panic p => panic p
        end
  | Err _ => throw (Errorf "invalid transaction" ErrInvalidSender)
  | Panic p => panic p
  end.

Definition validatePool (tx : Transaction) : M service () := λ s, (s, txpool_ValidateTx (chain s) tx (world s)).

Definition ValidateAndApplySequencerTransaction (tx : option Transaction) : M service () :=
  if verifier cfg then throw (ErrorNew "Verifier does not accept transactions out of band")
  else match tx with
  | None => throw (ErrorNew "nil transaction passed to ValidateAndApplySequencerTransaction")
  | Some tx =>
      tx ← verifyFee tx;
      if negb (QueueOrigin (meta tx) =? QueueOriginSequencer) then throw (ErrorNew "invalid transaction with queue origin")
      else _ ← wrapped "invalid transaction" (validatePool tx); applyTransaction tx
  end.

(** ** Synchronisation *)

Definition isAtTip (index : option Z) (get : M service (option Z)) : M service bool := λ s,
  let '(s, r) := get s in
  match r with
  | Err e => if errors_Is e errElementNotFound then (s, Ok (bool_decide (index = None))) else (s, Err e)
  | Panic p => (s, Panic p)
  | Ok latest =>
      match latest, index with
      | None, None => (s, Ok true)
      | Some l, Some i =>
          if l =? i then (s, Ok true)
          else if l <? i then (s, Err (Errorf "is at tip mismatch" errShortRemoteTip))
          else (s, Ok false)
      | _, _ => (s, Ok false)
      end
  end.

(** The loop of [syncToTip]; the rounds are bounded by fuel. *)
Fixpoint syncToTip (fuel : nat) (sync : M service (option Z)) (getTip : M service (option Z)) : M service () := λ s,
  match fuel with
  | O => (s, Panic "out of fuel")
  | S fuel =>
      let '(s, r) := sync s in
      match r with
      | Err e => if errors_Is e errElementNotFound then (s, Ok ()) else (s, Err e)
      | Panic p => (s, Panic p)
      | Ok index =>
          let '(s, r) := isAtTip index getTip s in
          match r with
          | Err e => (s, Err e)
          | Panic p => (s, Panic p)
          | Ok true => (s, Ok ())
          | Ok false => syncToTip fuel sync getTip s
          end
      end
  end.

Definition sync (getLatest : M service (option Z)) (getNext : service → Z) (syncer : Z → Z → M service ()) : M service (option Z) :=
  latestIndex ← wrapped "Cannot sync" getLatest;
  match latestIndex with
  | None => throw (ErrorNew "Latest index is not defined")
  | Some latest =>
      nextIndex ← gets getNext;
      if nextIndex =? latest ⊞ 1 then mret (Some latest)
      else _ ← syncer nextIndex latest; mret (Some latest)
  end.

(** [for i := start; i <= end; i++]; with the last index there is, the loop does not end. *)
Fixpoint forRange (fuel : nat) (i stop : Z) (body : Z → M service ()) : M service () :=
  if stop <? i then mret ()
  else match fuel with
       | O => panic "out of fuel"
       | S fuel => _ ← body i; forRange fuel (i ⊞ 1) stop body
       end.
Definition range_fuel (start stop : Z) : nat := Z.to_nat (stop + 1 - start).

(** The transactions of a batch in turn. *)
Fixpoint applyBatch (txs : list Transaction) : M service () :=
  match txs with
  | [] => mret ()
  | tx :: txs => _ ← wrapped "cannot apply batched transaction" (applyBatchedTransaction (Some tx)); applyBatch txs
  end.

Definition syncTransactionBatchRange (start stop : Z) : M service () :=
  forRange (range_fuel start stop) start stop (λ i,
    '(_, txs) ← wrapped "Cannot get transaction batch" (remote (rc_GetTransactionBatch i));
    _ ← applyBatch txs; SetLatestBatchIndex (Some i)).

Definition syncBatches : M service (option Z) :=
  wrapped "Cannot sync batches" (sync (remote rc_GetLatestTransactionBatchIndex) GetNextBatchIndex syncTransactionBatchRange).

Definition syncQueueTransactionRange (start stop : Z) : M service () :=
  forRange (range_fuel start stop) start stop (λ i,
    tx ← wrapped "Canot get enqueue transaction" (remote (rc_GetEnqueue i));
    wrapped "Cannot apply transaction" (applyTransaction tx)).

Definition syncQueue : M service (option Z) :=
  wrapped "Cannot sync queue" (sync (remote rc_GetLatestEnqueueIndex) GetNextEnqueueIndex syncQueueTransactionRange).

Definition syncTransactionRange (start stop : Z) (b : Backend) : M service () :=
  forRange (range_fuel start stop) start stop (λ i,
    tx ← wrapped "cannot fetch transaction" (remote (rc_GetTransaction i b));
    wrapped "Cannot apply transaction" (applyTransaction tx)).

Definition syncTransactions (b : Backend) : M service (option Z) :=
  wrapped "Cannot sync transactions with backend"
    (sync (remote (rc_GetLatestTransactionIndex b)) GetNextIndex (λ start stop, syncTransactionRange start stop b)).

Definition syncQueueToTip (fuel : nat) : M service () :=
  wrapped "Cannot sync queue to tip" (syncToTip fuel syncQueue (remote rc_GetLatestEnqueueIndex)).
Definition syncBatchesToTip (fuel : nat) : M service () :=
  wrapped "Cannot sync transaction batches to tip" (syncToTip fuel syncBatches (remote rc_GetLatestTransactionBatchIndex)).
Definition syncTransactionsToTip (fuel : nat) : M service () :=
  wrapped "Verifier cannot sync transactions with backend"
    (syncToTip fuel (syncTransactions (backend cfg)) (remote (rc_GetLatestTransactionIndex (backend cfg)))).

(** One round of the verifier's and of the sequencer's loop. *)
Definition verify (fuel : nat) : M service () :=
  match backend cfg with
  | BackendL1 => wrapped "Verifier cannot sync transaction batches to tip" (syncBatchesToTip fuel)
  | BackendL2 => wrapped "Verifier cannot sync transactions with BackendL2" (syncTransactionsToTip fuel)
  end.
Definition sequence (fuel : nat) : M service () := wrapped "Sequencer cannot sequence queue" (syncQueueToTip fuel).

(** A round's errors are logged. *)
Definition logged (m : M service ()) : M service () := try_catch m (λ _, mret ()).
Definition VerifierRound (fuel : nat) : M service () := logged (verify fuel).
Definition SequencerRound (fuel : nat) : M service () := _ ← logged (sequence fuel); logged updateL1BlockNumber.

(** ** Start *)

(** The loop that looks for the last queue index in the chain, from the block [num]. *)
Fixpoint fixQueueIndex (num : nat) (queueIndex : Z) (s : service) : option Z :=
  match chain s !! num with
  | None => Some queueIndex
  | Some block =>
      match num with
      | O => None
      | S prev =>
          match block with
          | [tx] => match QueueIndex (meta tx) with
                    | Some qi => Some qi
                    | None => fixQueueIndex prev queueIndex s
                    end
          | _ => Some queueIndex
          end
      end
  end.

Definition recoverBatchIndex (index : Z) : M service () :=
  if verifier cfg && bool_decide (backend cfg = BackendL1) then
    tx ← wrapped "Cannot fetch transaction from dtl at index" (remote (rc_GetRawTransaction index (backend cfg)));
    match tr_Transaction tx with
    | None => panic "runtime error: invalid memory address or nil pointer dereference"
    | Some t => SetLatestBatchIndex (Some (if 0 <? rt_BatchIndex t then rt_BatchIndex t - 1 else rt_BatchIndex t))
    end
  else mret ().

(** The block of the latest index; without it the index is reset to the tip. *)
Definition recoverTip (index : Z) : M service Block :=
  block ← gets (GetBlockByNumber (index ⊞ 1));
  match block with
  | Some b => mret b
  | None =>
      cur ← gets CurrentBlock;
      match cur with
      | None => panic "runtime error: invalid memory address or nil pointer dereference"
      | Some (blockNum, b) =>
          if index <? blockNum then throw (ErrorNew "Current block height greater than index")
          else _ ← SetLatestIndex (if 0 <? blockNum then Some (blockNum - 1) else None); mret b
      end
  end.

Definition initializeContext : M service () :=
  index ← gets GetLatestIndex;
  match index with
  | None =>
      match ctcDeployHeight cfg with
      | None => throw (ErrorNew "Must configure with canonical transaction chain deploy height")
      | Some h =>
          context ← wrapped "Cannot fetch ctc deploy block" (remote (rc_GetEthContext (big_Uint64 h)));
          _ ← SetLatestL1Timestamp (ec_Timestamp context); SetLatestL1BlockNumber (ec_BlockNumber context)
      end
  | Some index =>
      _ ← recoverBatchIndex index;
      block ← recoverTip index;
      match block with
      | [tx] =>
          _ ← SetLatestL1Timestamp (L1Timestamp (meta tx));
          match L1BlockNumber (meta tx) with
          | Some n => SetLatestL1BlockNumber (big_Uint64 n)
          | None => panic "runtime error: invalid memory address or nil pointer dereference"
          end
      | _ => panic "Cannot recover OVM Context"
      end
  end.

Definition initializeQueueIndex : M service () := λ s,
  match GetLatestEnqueueIndex s with
  | None =>
      let '(s, r) := remote rc_GetLastConfirmedEnqueue s in
      match r with
      | Err e => if errors_Is e errElementNotFound then (s, Ok ()) else (s, Err (Errorf "Cannot fetch last confirmed queue tx" e))
      | Panic p => (s, Panic p)
      | Ok enqueue => SetLatestEnqueueIndex (QueueIndex (meta enqueue)) s
      end
  | Some queueIndex => SetLatestEnqueueIndex (fixQueueIndex (length (chain s) - 1) queueIndex s) s
  end.

Definition initializeLatestL1 : M service () := _ ← initializeContext; initializeQueueIndex.

(** [Start] up to the loops; the sequencer catches up before it accepts transactions. *)
Definition Start (fuel : nat) : M service () :=
  if negb (enable cfg) then mret ()
  else
    _ ← updateGasPriceOracleCache;
    if verifier cfg then mret ()
    else
      _ ← syncTransactionsToTip fuel;
      _ ← syncQueueToTip fuel;
      setSyncStatus false.

(** ** Indices *)

Lemma read_write key i db : is_u64 i → read_index key (write_index key i db) = Some i.
Proof.
  intros Hi. unfold read_index, write_index. rewrite lookup_insert_eq. cbn [default from_option id].
  destruct (Z.eqb_spec i 0) as [->|Hne]; [done|]. destruct (Nat.eqb_spec (length (big_Bytes i)) 0) as [Hl|Hl].
  - apply nil_length_inv in Hl. pose proof (be_decode_big_Bytes i ltac:(unfold is_u64 in Hi; lia)) as E. rewrite Hl in E. change (be_decode []) with 0 in E. lia.
  - rewrite be_decode_big_Bytes by (unfold is_u64 in Hi; lia). by rewrite u64_small.
Qed.

Lemma read_write_ne key key' i db : key ≠ key' → read_index key (write_index key' i db) = read_index key db.
Proof. intros Hne. unfold read_index, write_index. by rewrite lookup_insert_ne. Qed.

(** ** Runs *)

Lemma bind_eq {St A B} (m : M St A) (k : A → M St B) s : (m ≫= k) s =
  match m s with (s', Ok a) => k a s' | (s', Err e) => (s', Err e) | (s', Panic p) => (s', Panic p) end.
Proof. unfold mbind, M_bind. by destruct (m s) as [s' []]. Qed.

(** The clock shows a time after 1970 that fits, and the threshold is not negative. *)
Definition clock_ok : Prop := (∀ w, 0 <= (time_Now w).2 < 2 ^ 63 * 10 ^ 9) ∧ 0 <= timestampRefreshThreshold cfg.

(** The context a transaction is given. *)
Record placed (ts bn i : Z) (tx tx' : Transaction) : Prop := {
  pl_data : data tx' = data tx;
  pl_kept : L1MessageSender (meta tx') = L1MessageSender (meta tx) ∧ QueueOrigin (meta tx') = QueueOrigin (meta tx) ∧
    QueueIndex (meta tx') = QueueIndex (meta tx) ∧ RawTransaction (meta tx') = RawTransaction (meta tx);
  pl_index : Index (meta tx') = Some i;
  pl_number : L1BlockNumber (meta tx') = Some (default bn (L1BlockNumber (meta tx)));
  pl_time : L1Timestamp (meta tx) ≠ 0 → verifier cfg = true ∨ QueueOrigin (meta tx) ≠ QueueOriginL1ToL2 →
    L1Timestamp (meta tx') = L1Timestamp (meta tx) ∧
    (is_Some (Index (meta tx)) → is_Some (L1BlockNumber (meta tx)) → tx' = tx);
  pl_mono : clock_ok → 0 <= ts < 2 ^ 63 → L1Timestamp (meta tx) = 0 ∨ verifier cfg = false ∧ QueueOrigin (meta tx) = QueueOriginL1ToL2 →
    ts <= L1Timestamp (meta tx') }.

Definition with_queue (q : option Z) (d : DB) : DB := match q with Some q => WriteHeadQueueIndex q d | None => d end.

(** The place of a transaction. *)
Definition place (tx : Transaction) (s : service) : Z := default (GetNextIndex s) (Index (meta tx)).

Lemma assignTimestamp_spec ts tx s : ∃ tx1 w,
  assignTimestamp ts tx s = (mkService (db s) (chain s) (ovm s) (RollupGpo s) (gasPriceOracleOwnerAddress s) (syncing s) w, Ok tx1) ∧
  (tx1 = tx ∧ ¬ (L1Timestamp (meta tx) = 0 ∨ verifier cfg = false ∧ QueueOrigin (meta tx) = QueueOriginL1ToL2) ∨
   (L1Timestamp (meta tx) = 0 ∨ verifier cfg = false ∧ QueueOrigin (meta tx) = QueueOriginL1ToL2) ∧ ∃ t, tx1 = SetL1Timestamp t tx ∧ (clock_ok → 0 <= ts < 2 ^ 63 → ts <= t)).
Proof.
  unfold assignTimestamp. destruct ((L1Timestamp (meta tx) =? 0) || _) eqn:E.
  - destruct (time_Now (world s)) as [w now] eqn:En. eexists _, _. split; [done|]. right. split; [|eexists; split; [done|]].
    2:{ intros [Hclock Hth] Hts. specialize (Hclock (world s)). rewrite En in Hclock. cbn [snd] in Hclock.
        unfold int64. rewrite (proj2 (Z.ltb_lt ts (2 ^ 63))) by lia.
        destruct (Z.ltb_spec (timestampRefreshThreshold cfg) (duration (now - ts * 10 ^ 9))) as [Hd|Hd].
        - assert (ts * 10 ^ 9 <= now) by (unfold duration in Hd; lia). assert (now / 10 ^ 9 < 2 ^ 63) by (apply Z.div_lt_upper_bound; lia).
          assert (ts <= now / 10 ^ 9) by (apply Z.div_le_lower_bound; lia). rewrite u64_small; [done|]. unfold is_u64. lia.
        - rewrite u64_small; [lia|]. unfold is_u64. lia. }
    apply orb_true_iff in E as [E|E]; [left; lia|right]. apply andb_true_iff in E as [E1 E2]. apply Z.eqb_eq in E2.
    by destruct (verifier cfg).
  - exists tx, (world s). split; [by destruct s|left]. split; [done|]. apply orb_false_iff in E as [E1 E2]. apply Z.eqb_neq in E1.
    intros [?|[Hv Ho]]; [done|]. by rewrite Hv, Ho, Z.eqb_refl in E2.
Qed.

Lemma assignBlockNumber_spec bn tx s : ∃ tx1 o,
  assignBlockNumber bn tx s = (mkService (db s) (chain s) o (RollupGpo s) (gasPriceOracleOwnerAddress s) (syncing s) (world s), Ok tx1) ∧
  (timestamp o = timestamp (ovm s) ∧ (bn = blockNumber (ovm s) → bn <= blockNumber o)) ∧
  (is_Some (L1BlockNumber (meta tx)) ∧ tx1 = tx ∨ L1BlockNumber (meta tx) = None ∧ tx1 = SetL1BlockNumber bn tx).
Proof.
  unfold assignBlockNumber. destruct (L1BlockNumber (meta tx)) as [n|].
  - destruct (Z.ltb_spec bn (big_Uint64 n)).
    + eexists tx, (mkOVM (big_Uint64 n) (timestamp (ovm s))). split; [done|]. split; [split; [done|cbn; lia]|]. left. by split.
    + exists tx, (ovm s). split; [by destruct s|]. split; [split; [done|lia]|]. left. by split.
  - exists (SetL1BlockNumber bn tx), (ovm s). split; [by destruct s|]. split; [split; [done|lia]|]. by right.
Qed.

Lemma prepare_spec tx s : let ts := GetLatestL1Timestamp s in let bn := GetLatestL1BlockNumber s in
  ∃ tx' o w, placed ts bn (place tx s) tx tx' ∧
    timestamp o = Z.max ts (L1Timestamp (meta tx')) ∧ bn <= blockNumber o ∧
    prepareTransaction ts bn tx s =
      (mkService (with_queue (QueueIndex (meta tx)) (WriteHeadIndex (place tx s) (db s))) (chain s) o (RollupGpo s) (gasPriceOracleOwnerAddress s) (syncing s) w,
       Ok (tx', GetLatestIndex s)).
Proof.
  intros ts bn. unfold prepareTransaction. rewrite bind_eq.
  destruct (assignTimestamp_spec ts tx s) as (tx1 & w & -> & Hst). rewrite bind_eq.
  set (s1 := mkService _ _ _ _ _ _ w). destruct (assignBlockNumber_spec bn tx1 s1) as (tx2 & o & -> & Ho & Hbn). rewrite bind_eq.
  set (s2 := mkService _ _ _ _ _ _ _).
  assert (Hs3 : ∃ o3, timestamp o3 = Z.max ts (L1Timestamp (meta tx2)) ∧ blockNumber o3 = blockNumber o ∧
    (if ts <? L1Timestamp (meta tx2) then SetLatestL1Timestamp (L1Timestamp (meta tx2)) else mret ()) s2 =
    (mkService (db s) (chain s) o3 (RollupGpo s) (gasPriceOracleOwnerAddress s) (syncing s) w, Ok ())).
  { destruct (Z.ltb_spec ts (L1Timestamp (meta tx2))).
    - exists (mkOVM (blockNumber o) (L1Timestamp (meta tx2))). cbn. split_and!; [lia|done..].
    - exists o. destruct Ho as [Ho _]. split_and!; [rewrite Ho; change (timestamp (ovm s1)) with ts; lia|done..]. }
  destruct Hs3 as (o3 & Ht3 & Hb3 & ->). set (s3 := mkService _ _ o3 _ _ _ _). set (tx3 := assignIndex (GetLatestIndex s) tx2).
  assert (Hi : Index (meta tx3) = Some (place tx s) ∧ QueueIndex (meta tx3) = QueueIndex (meta tx)).
  { subst tx3. unfold assignIndex, place. assert (E : Index (meta tx2) = Index (meta tx) ∧ QueueIndex (meta tx2) = QueueIndex (meta tx)).
    { destruct Hst as [[-> Hno]|(_ & t & -> & _)]; destruct Hbn as [[_ ->]|[_ ->]]; done. }
    destruct E as [E1 E2]. rewrite E1. destruct (Index (meta tx)) eqn:Ei; [by rewrite E1, E2|]. cbn. by rewrite E2. }
  destruct Hi as [Hi Hq]. exists tx3, o3, w. split; [|split; [|split]].
  - subst tx3. unfold assignIndex. split; try (destruct Hst as [[-> Hno]|(_ & t & -> & _)]; destruct Hbn as [[_ ->]|[_ ->]]; cbn; by destruct (Index (meta tx))).
    + exact Hi.
    + destruct Hst as [[-> Hno]|(_ & t & -> & _)]; destruct Hbn as [[Hn ->]|[Hn ->]]; cbn in *; destruct (Index (meta tx)); cbn; try done;
        try (by rewrite Hn); try (by destruct Hn as [n En]; rewrite En).
    + intros Hz Hv. destruct Hst as [[-> Hno]|(Hc & t & -> & _)]; [|exfalso; destruct Hc as [?|[Hc1 Hc2]]; [done|]; destruct Hv as [Hv|Hv]; [by rewrite Hv in Hc1|done]].
      destruct Hbn as [[Hn ->]|[Hn ->]]; cbn; (split; [by destruct (Index (meta tx))|]); intros [i ->] Hb; [done|by rewrite Hn in Hb; destruct Hb].
    + intros Hclock Hts Hc. destruct Hst as [[-> Hno]|(_ & t & -> & Ht)]; destruct Hbn as [[_ ->]|[_ ->]]; cbn; (destruct (Index (meta tx)); cbn).
      all: try (by apply Ht). all: by destruct Hno.
  - destruct Hst as [[-> Hno]|(_ & t & -> & _)]; destruct Hbn as [[_ ->]|[_ ->]]; rewrite Ht3; subst tx3; unfold assignIndex; cbn; by destruct (Index (meta tx)).
  - rewrite Hb3. by apply Ho.
  - rewrite bind_eq. cbn [gets]. change (GetLatestIndex s3) with (GetLatestIndex s). cbv zeta. fold tx3. rewrite Hi, Hq.
    unfold SetLatestIndex, SetLatestEnqueueIndex. rewrite bind_eq. cbn [set_index with_db]. rewrite bind_eq. by destruct (QueueIndex (meta tx)).
Qed.

(** ** The index is the chain's *)

(** Block [n + 1] holds the transaction with index [n], and the latest index is the one of
    the last block. *)
Record aligned (s : service) : Prop := {
  al_length : 2 <= len (chain s);
  al_index : GetLatestIndex s = Some (len (chain s) - 2);
  al_blocks n b : chain s !! S n = Some b → ∃ tx, b = [tx] ∧ Index (meta tx) = Some (Z.of_nat n) }.

(** Chains whose numbers fit. *)
Definition good (s : service) : Prop := len (chain s) < 2 ^ 63 → aligned s.

(** What every operation guarantees: blocks are only added, and the index follows. *)
Definition evolves (s s' : service) : Prop := chain s `prefix_of` chain s' ∧ (good s → good s').

#[global] Instance evolves_preorder : PreOrder evolves.
Proof.
  split; [by intros s|]. intros s1 s2 s3 [Hp1 Hg1] [Hp2 Hg2]. split; [by trans (chain s2)|auto].
Qed.

Definition keeps {A} (m : M service A) : Prop := ∀ s, evolves s (m s).1.

Lemma evolves_same s s' : chain s' = chain s → ReadHeadIndex (db s') = ReadHeadIndex (db s) → evolves s s'.
Proof.
  intros Hc Hi. split; [by rewrite Hc|]. unfold good. rewrite Hc. intros Hg Hl. destruct (Hg Hl) as [H3 H4 H5].
  split; rewrite ?Hc; [done| |done]. unfold GetLatestIndex in *. by rewrite Hi.
Qed.

Lemma keeps_bind {A B} (m : M service A) (k : A → M service B) : keeps m → (∀ a, keeps (k a)) → keeps (m ≫= k).
Proof.
  intros Hm Hk s. rewrite bind_eq. specialize (Hm s). destruct (m s) as [s1 [a|e|p]]; [|done..]. etrans; [done|apply Hk].
Qed.
Lemma keeps_ret {A} (a : A) : keeps (mret a). Proof. by intros s. Qed.
Lemma keeps_throw {A} e : keeps (throw e : M service A). Proof. by intros s. Qed.
Lemma keeps_panic {A} e : keeps (panic e : M service A). Proof. by intros s. Qed.
Lemma keeps_lift {A} (r : result A) : keeps (lift r). Proof. by intros s. Qed.
Lemma keeps_gets {A} (f : service → A) : keeps (gets f). Proof. by intros s. Qed.
Lemma keeps_bc_state : keeps bc_state. Proof. by intros s. Qed.
Lemma keeps_validatePool tx : keeps (validatePool tx). Proof. by intros s. Qed.
Lemma keeps_with_ovm f : keeps (with_ovm f). Proof. intros s. by apply evolves_same. Qed.
Lemma keeps_with_gpo f : keeps (with_gpo f). Proof. intros s. by apply evolves_same. Qed.
Lemma keeps_with_owner a : keeps (with_owner a). Proof. intros s. by apply evolves_same. Qed.
Lemma keeps_setSyncStatus b : keeps (setSyncStatus b). Proof. intros s. by apply evolves_same. Qed.
Lemma keeps_remote {A} (m : M W A) : keeps (remote m).
Proof. intros s. unfold remote. destruct (m (world s)). by apply evolves_same. Qed.
Lemma keeps_wrapped {A} msg (m : M service A) : keeps m → keeps (wrapped msg m).
Proof. intros Hm s. unfold wrapped. specialize (Hm s). by destruct (m s). Qed.
Lemma keeps_try {A} (m : M service A) h : keeps m → (∀ e, keeps (h e)) → keeps (try_catch m h).
Proof. intros Hm Hh s. unfold try_catch. specialize (Hm s). destruct (m s) as [s1 [a|e|p]]; [done| |done]. etrans; [done|apply Hh]. Qed.

Lemma keeps_other key o : key ≠ headIndexKey → keeps (set_index (write_index key) o).
Proof.
  intros Hk. destruct o as [i|]; [|apply keeps_ret]. intros s. apply evolves_same; [done|]. cbn. unfold ReadHeadIndex. by apply read_write_ne.
Qed.
Lemma keeps_enqueue o : keeps (SetLatestEnqueueIndex o). Proof. by apply keeps_other. Qed.
Lemma keeps_verified o : keeps (SetLatestVerifiedIndex o). Proof. by apply keeps_other. Qed.
Lemma keeps_batch o : keeps (SetLatestBatchIndex o). Proof. by apply keeps_other. Qed.

Create HintDb keeps.
#[local] Hint Resolve keeps_bind keeps_ret keeps_throw keeps_panic keeps_lift keeps_gets keeps_bc_state keeps_validatePool keeps_with_ovm
  keeps_with_gpo keeps_with_owner keeps_setSyncStatus keeps_remote keeps_wrapped keeps_try keeps_enqueue keeps_verified keeps_batch : keeps.

(** Follows the structure of a method. *)
Ltac keeps := repeat (match goal with
  | |- ∀ _, _ => intros ?
  | |- keeps (mbind _ _) => apply keeps_bind
  | |- keeps (if ?b then _ else _) => destruct b
  | |- keeps (match ?x with _ => _ end) => destruct x
  | |- keeps _ => solve [auto with keeps]
  | |- keeps (wrapped _ _) => apply keeps_wrapped
  | |- keeps (try_catch _ _) => apply keeps_try
  end).

Lemma keeps_gpo_cache : keeps updateGasPriceOracleCache.
Proof. unfold updateGasPriceOracleCache, cacheGasPriceOracleOwner, updateL2GasPrice, updateL1GasPrice, updateOverhead, updateScalar. keeps. Qed.

Lemma keeps_updateL1BlockNumber : keeps updateL1BlockNumber.
Proof. unfold updateL1BlockNumber, SetLatestL1BlockNumber. keeps. Qed.

(** ** One transaction *)

(** The state after the last block can be read. *)
Definition state_available : Prop := ∀ c w, ∃ st, bc_State c w = Ok st.

(** After an update the cache holds the prices and the owner of the state at the tip. *)
Lemma gpo_cache_agrees s s' :
  updateGasPriceOracleCache s = (s', Ok ()) →
  ∃ st, bc_State (chain s) (world s) = Ok st ∧ prices_agree (RollupGpo s') (GetGPOState st) ∧
    l2GasPrice (RollupGpo s') = GetGPOState st L2GasPriceSlot ∧
    gasPriceOracleOwnerAddress s' = be_encode 20 (GetGPOState st L2GasPriceOracleOwnerSlot).
Proof.
  unfold updateGasPriceOracleCache. rewrite bind_eq. unfold bc_state. destruct (bc_State (chain s) (world s)) as [st|e|p]; [|done..].
  intros [= <-]. exists st. by split_and!.
Qed.

Lemma gpo_cache_ok s : state_available →
  ∃ g a, updateGasPriceOracleCache s = (mkService (db s) (chain s) (ovm s) g a (syncing s) (world s), Ok ()).
Proof.
  intros Hst. unfold updateGasPriceOracleCache. rewrite bind_eq. unfold bc_state. destruct (Hst (chain s) (world s)) as [st ->].
  by eexists _, _.
Qed.

Definition rolled_back (idx : option Z) (d : DB) : DB := match idx with Some i => WriteHeadIndex i d | None => d end.

(** Included, with the state as prepared, or not, with the index and the context rolled back. *)
Lemma include_cases ts bn idx tx s : state_available →
  (mine tx (world s)).2 = None ∧
    (∃ g a, includeTransaction ts bn idx tx s = (mkService (db s) (chain s ++ [[tx]]) (ovm s) g a (syncing s) (mine tx (world s)).1, Ok ())) ∨
  (∃ e, (mine tx (world s)).2 = Some e ∧ includeTransaction ts bn idx tx s =
     (mkService (rolled_back idx (db s)) (chain s) (mkOVM bn ts) (RollupGpo s) (gasPriceOracleOwnerAddress s) (syncing s) (mine tx (world s)).1, Err e)).
Proof.
  intros Hst. assert (E : try_catch (sendToMiner tx) (rollback ts bn idx) s = match mine tx (world s) with
    | (w, Some e) => (mkService (rolled_back idx (db s)) (chain s) (mkOVM bn ts) (RollupGpo s) (gasPriceOracleOwnerAddress s) (syncing s) w, Err e)
    | (w, None) => (mkService (db s) (chain s ++ [[tx]]) (ovm s) (RollupGpo s) (gasPriceOracleOwnerAddress s) (syncing s) w, Ok ()) end).
  { unfold try_catch, sendToMiner. destruct (mine tx (world s)) as [w [e|]]; [|done].
    unfold rollback, SetLatestIndex. destruct idx; done. }
  unfold includeTransaction. rewrite bind_eq, E. destruct (mine tx (world s)) as [w [e|]]; cbn [fst snd].
  - right. by exists e.
  - left. split; [done|]. rewrite bind_eq. cbn [gets]. case_bool_decide.
    + unfold try_catch. match goal with |- context [updateGasPriceOracleCache ?s1] => destruct (gpo_cache_ok s1 Hst) as (g & a & ->) end. by eexists _, _.
    + by eexists _, _.
Qed.

(** What the service does with the next transaction. *)
Lemma tip_cases tx s : state_available →
  (L1Timestamp (meta tx) = 0 ∧ ∃ e, applyTransactionToTip (Some tx) s = (s, Err e)) ∨
  ∃ tx' o w, placed (GetLatestL1Timestamp s) (GetLatestL1BlockNumber s) (place tx s) tx tx' ∧
    timestamp o = Z.max (GetLatestL1Timestamp s) (L1Timestamp (meta tx')) ∧ GetLatestL1BlockNumber s <= blockNumber o ∧
    let d := with_queue (QueueIndex (meta tx)) (WriteHeadIndex (place tx s) (db s)) in
    ((mine tx' w).2 = None ∧ (∃ g a, applyTransactionToTip (Some tx) s =
        (mkService d (chain s ++ [[tx']]) o g a (syncing s) (mine tx' w).1, Ok ())) ∨
     ∃ e, (mine tx' w).2 = Some e ∧ applyTransactionToTip (Some tx) s =
        (mkService (rolled_back (GetLatestIndex s) d) (chain s) (ovm s) (RollupGpo s) (gasPriceOracleOwnerAddress s) (syncing s) (mine tx' w).1, Err e)).
Proof.
  intros Hst. unfold applyTransactionToTip. destruct (_ && _) eqn:Eg; [left; apply andb_true_iff in Eg as [_ Eg]; split; [lia|by eexists]|right].
  rewrite bind_eq. cbn [gets]. rewrite bind_eq. cbn [gets]. rewrite bind_eq.
  destruct (prepare_spec tx s) as (tx' & o & w & Hp & Ht & Hb & ->). exists tx', o, w. split; [done|]. split; [done|]. split; [done|].
  match goal with |- context [includeTransaction ?ts ?bn ?i tx' ?s1] => destruct (include_cases ts bn i tx' s1 Hst) as [(Hm & g & a & E)|(e & Hm & E)] end.
  - left. split; [done|]. by eexists g, a.
  - right. exists e. split; [done|]. rewrite E. cbn. unfold GetLatestL1BlockNumber, GetLatestL1Timestamp. by destruct (ovm s).
Qed.

Lemma read_with_queue q d : ReadHeadIndex (with_queue q d) = ReadHeadIndex d.
Proof. destruct q; [|done]. cbn. by apply read_write_ne. Qed.

Lemma good_next s : aligned s → len (chain s) < 2 ^ 63 → GetNextIndex s = len (chain s) - 1.
Proof. intros [Hl Hi _] Hlt. unfold GetNextIndex. rewrite Hi. cbn. rewrite u64_small; [lia|]. unfold is_u64. lia. Qed.

Lemma tip_evolves tx s : state_available → (∀ i, Index (meta tx) = Some i → i = GetNextIndex s) →
  evolves s (applyTransactionToTip (Some tx) s).1.
Proof.
  intros Hst Hi. destruct (tip_cases tx s Hst) as [[_ [e ->]]|(tx' & o & w & Hp & _ & _ & [(_ & g & a & ->)|(e & _ & ->)])]; [done|..]; cbn [fst].
  - split; [by apply prefix_app_r|]. intros Hg Hl. cbn [chain] in Hl. unfold len in Hl. rewrite length_app in Hl. cbn in Hl.
    destruct (Hg ltac:(unfold len; lia)) as [H3 H4 H5] eqn:Eal. clear Eal. unfold len in *.
    assert (Hn : GetNextIndex s = Z.of_nat (length (chain s)) - 1) by (apply good_next; [done|unfold len; lia]).
    assert (Hplace : place tx s = GetNextIndex s) by (unfold place; destruct (Index (meta tx)) as [i|]; [by rewrite (Hi i)|done]).
    split; unfold len; cbn [chain]; rewrite ?length_app; cbn [length].
    + lia.
    + unfold GetLatestIndex. cbn [db]. rewrite read_with_queue, Hplace, Hn. unfold ReadHeadIndex, WriteHeadIndex. rewrite read_write by (unfold is_u64; lia). f_equal. lia.
    + intros n b Hb. apply lookup_app_Some in Hb as [Hb|[Hge Hb]]; [by eapply H5|].
      apply list_lookup_singleton_Some in Hb as [Hz <-]. exists tx'. split; [done|]. rewrite (pl_index _ _ _ _ _ Hp), Hplace, Hn. f_equal. lia.
  - split; [done|]. intros Hg Hl. destruct (Hg Hl) as [H3 H4 H5]. cbn [chain] in *. split; cbn [chain]; [done| |done].
    rewrite H4. unfold GetLatestIndex. cbn [db rolled_back]. unfold ReadHeadIndex, WriteHeadIndex. apply read_write. unfold is_u64, len in *. lia.
Qed.

(** ** All operations *)

Section keeps_all.
Context (Hst : state_available).

Lemma keeps_historical tx : keeps (applyHistoricalTransaction tx).
Proof. unfold applyHistoricalTransaction. keeps. Qed.

Lemma keeps_indexed tx : keeps (applyIndexedTransaction tx).
Proof.
  intros s. unfold applyIndexedTransaction. destruct tx as [t|]; [|apply keeps_throw]. destruct (Index (meta t)) as [i|] eqn:Ei; [|apply keeps_throw].
  rewrite bind_eq. cbn [gets]. destruct (Z.eqb_spec i (GetNextIndex s)) as [->|].
  - apply tip_evolves; [done|]. intros j. rewrite Ei. congruence.
  - destruct (i <? GetNextIndex s); [apply keeps_historical|apply keeps_throw].
Qed.

Lemma keeps_applyTransaction tx : keeps (applyTransaction tx).
Proof.
  unfold applyTransaction. destruct (Index (meta tx)) eqn:Ei; [apply keeps_indexed|]. intros s. apply tip_evolves; [done|]. intros j. by rewrite Ei.
Qed.

Lemma keeps_batched tx : keeps (applyBatchedTransaction tx).
Proof. unfold applyBatchedTransaction. pose proof keeps_indexed. keeps. Qed.

Lemma keeps_verifyFee tx : keeps (verifyFee tx).
Proof. unfold verifyFee. keeps. Qed.

Lemma keeps_user tx : keeps (ValidateAndApplySequencerTransaction tx).
Proof. unfold ValidateAndApplySequencerTransaction. pose proof keeps_verifyFee. pose proof keeps_applyTransaction. keeps. Qed.

Lemma keeps_range fuel i stop body : (∀ i, keeps (body i)) → keeps (forRange fuel i stop body).
Proof. intros Hb. revert i. induction fuel as [|fuel IH]; intros i; cbn [forRange]; keeps. Qed.

Lemma keeps_applyBatch txs : keeps (applyBatch txs).
Proof. pose proof keeps_batched. induction txs as [|tx txs IH]; cbn [applyBatch]; keeps. Qed.

Lemma keeps_sync getLatest getNext syncer : keeps getLatest → (∀ a b, keeps (syncer a b)) → keeps (sync getLatest getNext syncer).
Proof. intros. unfold sync. keeps. Qed.

Lemma keeps_syncBatches : keeps syncBatches.
Proof.
  pose proof keeps_applyBatch. apply keeps_wrapped, keeps_sync; [apply keeps_remote|]. intros a b. apply keeps_range. keeps.
Qed.
Lemma keeps_syncQueue : keeps syncQueue.
Proof.
  pose proof keeps_applyTransaction. apply keeps_wrapped, keeps_sync; [apply keeps_remote|]. intros a b. apply keeps_range. keeps.
Qed.
Lemma keeps_syncTransactions bk : keeps (syncTransactions bk).
Proof.
  pose proof keeps_applyTransaction. apply keeps_wrapped, keeps_sync; [apply keeps_remote|]. intros a b. apply keeps_range. keeps.
Qed.

Lemma keeps_isAtTip i get : keeps get → keeps (isAtTip i get).
Proof. intros Hg s. unfold isAtTip. specialize (Hg s). destruct (get s) as [s1 [[l|]|e|p]]; [destruct i..| |]; repeat case_match; done. Qed.

Lemma keeps_syncToTip fuel m get : keeps m → keeps get → keeps (syncToTip fuel m get).
Proof.
  intros Hm Hg. induction fuel as [|fuel IH]; intros s; cbn [syncToTip]; [done|]. specialize (Hm s).
  destruct (m s) as [s1 [i|e|p]]; [|by case_match|done]. pose proof (keeps_isAtTip i get Hg s1) as Ht.
  destruct (isAtTip i get s1) as [s2 [[]|e|p]]; cbn [fst] in *; [by trans s1| |by trans s1..]. etrans; [exact Hm|]. etrans; [exact Ht|]. apply IH.
Qed.

(** What the service reacts to. *)
Inductive event :=
| EvUser (tx : option Transaction)      (* a transaction from the RPC *)
| EvIngest (tx : Transaction)           (* a transaction from a trusted party *)
| EvVerifier (fuel : nat)               (* a round of the verifier *)
| EvSequencer (fuel : nat).             (* a round of the sequencer *)

Definition perform (e : event) : M service () :=
  match e with
  | EvUser tx => ValidateAndApplySequencerTransaction tx
  | EvIngest tx => IngestTransaction tx
  | EvVerifier fuel => VerifierRound fuel
  | EvSequencer fuel => SequencerRound fuel
  end.

Lemma keeps_perform e : keeps (perform e).
Proof.
  assert (Hl : ∀ m, keeps m → keeps (logged m)) by (intros m Hm; apply keeps_try; [done|keeps]).
  destruct e as [tx|tx|fuel|fuel]; cbn [perform]; [apply keeps_user|apply keeps_applyTransaction| |].
  - apply Hl. unfold verify. destruct (backend cfg); repeat apply keeps_wrapped; apply keeps_syncToTip;
      [apply keeps_syncBatches|apply keeps_remote|apply keeps_syncTransactions|apply keeps_remote].
  - apply keeps_bind; intros; apply Hl; [|apply keeps_updateL1BlockNumber]. repeat apply keeps_wrapped. apply keeps_syncToTip;
      [apply keeps_syncQueue|apply keeps_remote].
Qed.
End keeps_all.

(** The states a service goes through. *)
Inductive runs : service → service → Prop :=
| runs_nil s : runs s s
| runs_step s e s' : runs (perform e s).1 s' → runs s s'.

(** C15. Provided the state after a block can always be read, and starting from a chain of
    at least two blocks whose block [n + 1] holds the one transaction with index [n], with
    the index of the last one stored: whatever transactions users and a trusted party
    send, in whatever order rounds of the verifier and the sequencer run, and whatever the
    indexer, the clock, the pool and the miner answer, errors included, the chain is only
    extended and, as long as it is shorter than 2^63 blocks, the same holds of it and of
    the stored index. (When the state cannot be read after a block was added, or before
    there is an index, a failure leaves the index wrong: [cache_failure_misaligns] and
    [failed_transaction_indices].) *)
Theorem service_invariant s s' :
  state_available → aligned s → runs s s' → len (chain s') < 2 ^ 63 → aligned s' ∧ chain s `prefix_of` chain s'.
Proof.
  intros Hst Ha Hr Hl. assert (He : evolves s s').
  { clear Ha Hl. induction Hr as [s|s e s' _ IH]; [done|]. etrans; [apply (keeps_perform Hst e)|done]. }
  destruct He as [Hp Hg]. split; [|done]. apply Hg; [by intros _|done].
Qed.

(** ** Replication *)

(** A loop over a range, by its invariant. *)
Lemma forRange_iter (P : Z → service → Prop) body stop : stop < 2 ^ 64 - 1 →
  ∀ i s, 0 <= i <= stop + 1 → (∀ j s, i <= j <= stop → P j s → ∃ s', body j s = (s', Ok ()) ∧ P (j + 1) s') → P i s →
  ∃ s', forRange (range_fuel i stop) i stop body s = (s', Ok ()) ∧ P (stop + 1) s'.
Proof.
  intros Hstop i s Hi. unfold range_fuel. remember (Z.to_nat (stop + 1 - i)) as fuel eqn:Ef. revert i s Hi Ef.
  induction fuel as [|fuel IH]; intros i s Hi Ef Hbody HP; cbn [forRange].
  - rewrite (proj2 (Z.ltb_lt _ _)) by lia. exists s. split; [done|]. by replace (stop + 1) with i by lia.
  - rewrite (proj2 (Z.ltb_ge _ _)) by lia. rewrite bind_eq. destruct (Hbody i s ltac:(lia) HP) as (s1 & -> & HP1).
    rewrite u64_small by (unfold is_u64; lia). apply IH; [lia|lia| |done]. intros j s2 Hj. apply Hbody. lia.
Qed.

(** A transaction of the canonical chain as the indexer delivers it. *)
Record canonical (i : nat) (tx : Transaction) : Prop := {
  ca_index : Index (meta tx) = Some (Z.of_nat i);
  ca_number : is_Some (L1BlockNumber (meta tx));
  ca_time : L1Timestamp (meta tx) ≠ 0 }.

(** The chain of the service is the first [n] transactions of the list. *)
Record replica (L : list Transaction) (n : nat) (s : service) : Prop := {
  re_chain : ∃ g, chain s = g :: ((λ tx, [tx]) <$> take n L);
  re_index : GetLatestIndex s = match n with O => None | S k => Some (Z.of_nat k) end }.

Section Replica.
Context (L : list Transaction).
Context (Hst : state_available) (Hver : verifier cfg = true).
Context (Hmine : ∀ tx w, (mine tx w).2 = None).
Context (Hcan : ∀ i tx, L !! i = Some tx → canonical i tx) (Hlen : 0 < len L < 2 ^ 63).

Lemma replica_next n s : (n <= length L)%nat → replica L n s → GetNextIndex s = Z.of_nat n.
Proof.
  intros Hn [_ Hi]. unfold GetNextIndex. rewrite Hi. destruct n as [|k]; [done|]. cbn [next_index]. unfold len in Hlen.
  rewrite u64_small by (unfold is_u64; lia). lia.
Qed.

(** The next transaction is added as it is. *)
Lemma replica_apply n tx s : L !! n = Some tx → replica L n s →
  ∃ s', applyIndexedTransaction (Some tx) s = (s', Ok ()) ∧ replica L (S n) s' ∧ GetLatestBatchIndex s' = GetLatestBatchIndex s.
Proof.
  intros Hn Hr. destruct (Hcan n tx Hn) as [Hi Hb Ht]. pose proof (lookup_lt_Some _ _ _ Hn) as Hlt.
  assert (Hnext : GetNextIndex s = Z.of_nat n) by (apply replica_next; [lia|done]).
  unfold applyIndexedTransaction. rewrite Hi, bind_eq. cbn [gets]. rewrite Hnext, Z.eqb_refl.
  destruct (tip_cases tx s Hst) as [[Hz _]|(tx' & o & w & Hp & _ & _ & Hcases)]; [done|].
  assert (Etx : tx' = tx) by (apply (proj2 (pl_time _ _ _ _ _ Hp Ht (or_introl Hver))); [by rewrite Hi; eexists|done]). subst tx'.
  destruct Hcases as [(_ & g & a & ->)|(e & He & _)]; [|by rewrite Hmine in He].
  eexists. split; [done|]. destruct Hr as [[gen Hc] Hx]. unfold len in Hlen. split; [split|]; cbn [chain].
  - exists gen. rewrite Hc. rewrite (take_S_r L n tx Hn), fmap_app. done.
  - unfold GetLatestIndex. cbn [db]. rewrite read_with_queue. unfold place. rewrite Hi. cbn [default from_option id].
    unfold ReadHeadIndex, WriteHeadIndex. rewrite read_write by (unfold is_u64; lia). done.
  - unfold GetLatestBatchIndex, ReadHeadBatchIndex. cbn [db]. unfold with_queue, WriteHeadQueueIndex, WriteHeadIndex.
    destruct (QueueIndex (meta tx)); rewrite !read_write_ne by done; done.
Qed.

(** The indexer of the sequencer's transactions. *)
Record serves_transactions (b : Backend) : Prop := {
  st_latest w : (rc_GetLatestTransactionIndex b w).2 = Ok (Some (len L - 1));
  st_tx i tx w : L !! i = Some tx → (rc_GetTransaction (Z.of_nat i) b w).2 = Ok tx }.

Lemma remote_result {A} (m : M W A) s a : (∀ w, (m w).2 = Ok a) →
  ∃ w, remote m s = (mkService (db s) (chain s) (ovm s) (RollupGpo s) (gasPriceOracleOwnerAddress s) (syncing s) w, Ok a).
Proof. intros Hm. unfold remote. specialize (Hm (world s)). destruct (m (world s)) as [w r]. cbn in Hm. subst r. by eexists. Qed.

Lemma replica_world n s w : replica L n s →
  replica L n (mkService (db s) (chain s) (ovm s) (RollupGpo s) (gasPriceOracleOwnerAddress s) (syncing s) w).
Proof. intros [Hc Hi]. by split. Qed.

Lemma range_replica b n s : serves_transactions b → (n <= length L)%nat → replica L n s →
  ∃ s', syncTransactionRange (Z.of_nat n) (len L - 1) b s = (s', Ok ()) ∧ replica L (length L) s'.
Proof.
  intros Hsv Hn Hr. unfold syncTransactionRange.
  destruct (forRange_iter (λ i s, replica L (Z.to_nat i) s) (λ i, tx ← wrapped "cannot fetch transaction" (remote (rc_GetTransaction i b));
    wrapped "Cannot apply transaction" (applyTransaction tx)) (len L - 1) ltac:(lia) (Z.of_nat n) s) as (s' & -> & Hs').
  - unfold len. lia.
  - intros j sj Hj Hrj. unfold len in Hj, Hlen. destruct (L !! Z.to_nat j) as [tx|] eqn:Ej; [|apply lookup_ge_None in Ej; lia].
    assert (Hrem : ∀ w, (rc_GetTransaction j b w).2 = Ok tx) by (intros w; pose proof (st_tx b Hsv (Z.to_nat j) tx w Ej) as E; by rewrite Z2Nat.id in E by lia).
    rewrite bind_eq. unfold wrapped at 1. destruct (remote_result _ sj tx Hrem) as [w ->]. cbn [map_err].
    destruct (replica_apply _ tx _ Ej (replica_world _ _ w Hrj)) as (s1 & E1 & Hr1 & _). unfold wrapped, applyTransaction.
    rewrite (ca_index _ _ (Hcan _ _ Ej)), E1. exists s1. split; [done|]. by replace (Z.to_nat (j + 1)) with (S (Z.to_nat j)) by lia.
  - by rewrite Nat2Z.id.
  - exists s'. split; [done|]. unfold len in Hs'. by replace (Z.to_nat (Z.of_nat (length L) - 1 + 1)) with (length L) in Hs' by lia.
Qed.

(** A verifier that follows the sequencer ends with exactly the sequencer's transactions, in
    one round, from any part of them. *)
Lemma syncTransactions_replica fuel n s : serves_transactions (backend cfg) → (n <= length L)%nat → replica L n s →
  ∃ s', syncTransactionsToTip (S fuel) s = (s', Ok ()) ∧ replica L (length L) s'.
Proof.
  intros Hsv Hn Hr. unfold syncTransactionsToTip, wrapped. cbn [syncToTip].
  assert (Hsync : ∃ s', syncTransactions (backend cfg) s = (s', Ok (Some (len L - 1))) ∧ replica L (length L) s').
  { unfold syncTransactions, wrapped, sync. rewrite bind_eq. unfold wrapped.
    destruct (remote_result _ s _ (st_latest _ Hsv)) as [w ->]. cbn [map_err]. rewrite bind_eq. cbn [gets].
    pose proof (replica_world n s w Hr) as Hr1. rewrite (replica_next n _ Hn Hr1). unfold len in Hlen |- *.
    rewrite u64_small by (unfold is_u64; lia). destruct (Z.eqb_spec (Z.of_nat n) (Z.of_nat (length L) - 1 + 1)) as [E|E].
    - eexists. split; [done|]. by replace (length L) with n by lia.
    - rewrite bind_eq. destruct (range_replica (backend cfg) n _ Hsv Hn Hr1) as (s2 & E2 & Hr2). unfold len in E2. rewrite E2. by eexists. }
  destruct Hsync as (s1 & -> & Hr1). unfold isAtTip. destruct (remote_result _ s1 _ (st_latest _ Hsv)) as [w ->]. rewrite Z.eqb_refl.
  eexists. split; [done|]. by apply replica_world.
Qed.

(** *** From batches *)

Lemma historical_ok j tx n s : L !! j = Some tx → (j < n)%nat → replica L n s → applyHistoricalTransaction (Some tx) s = (s, Ok ()).
Proof.
  intros Hj Hn [[g Hc] _]. pose proof (lookup_lt_Some _ _ _ Hj). unfold applyHistoricalTransaction. rewrite (ca_index _ _ (Hcan j tx Hj)), bind_eq. cbn [gets].
  unfold GetBlockByNumber. unfold len in Hlen. rewrite u64_small by (unfold is_u64; lia). replace (Z.to_nat (Z.of_nat j + 1)) with (S j) by lia.
  rewrite Hc, lookup_cons_ne_0 by done. cbn [pred]. by rewrite list_lookup_fmap, lookup_take_lt, Hj.
Qed.

(** A batched transaction that is known already is compared, the next one is added. *)
Lemma replica_batched j tx n s : L !! j = Some tx → (j <= n <= length L)%nat → replica L n s →
  ∃ s', applyBatchedTransaction (Some tx) s = (s', Ok ()) ∧ replica L (Nat.max n (S j)) s' ∧
    GetLatestBatchIndex s' = GetLatestBatchIndex s ∧ GetLatestVerifiedIndex s' = Some (Z.of_nat j).
Proof.
  intros Hj Hn Hr. pose proof (lookup_lt_Some _ _ _ Hj). pose proof (ca_index _ _ (Hcan j tx Hj)) as Hi. unfold len in Hlen.
  assert (Ha : ∃ s1, applyIndexedTransaction (Some tx) s = (s1, Ok ()) ∧ replica L (Nat.max n (S j)) s1 ∧ GetLatestBatchIndex s1 = GetLatestBatchIndex s).
  { destruct (decide (j = n)) as [->|Hne].
    - destruct (replica_apply n tx s Hj Hr) as (s1 & E & Hr1 & Hb). exists s1. split; [done|]. split; [by replace (n `max` S n)%nat with (S n) by lia|done].
    - exists s. split; [|split; [by replace (n `max` S j)%nat with n by lia|done]].
      unfold applyIndexedTransaction. rewrite Hi, bind_eq. cbn [gets]. rewrite (replica_next n s) by (done || lia).
      rewrite (proj2 (Z.eqb_neq _ _)) by lia. rewrite (proj2 (Z.ltb_lt _ _)) by lia. apply (historical_ok j tx n); [done|lia|done]. }
  destruct Ha as (s1 & E & [Hc Hx] & Hb). unfold applyBatchedTransaction. rewrite Hi, bind_eq. unfold wrapped. rewrite E. cbn [map_err].
  unfold SetLatestVerifiedIndex. cbn [set_index with_db]. eexists. split; [done|]. split; [split; [done|]|split].
  - rewrite <- Hx. unfold GetLatestIndex, ReadHeadIndex. cbn [db]. by apply read_write_ne.
  - rewrite <- Hb. unfold GetLatestBatchIndex, ReadHeadBatchIndex. cbn [db]. by apply read_write_ne.
  - unfold GetLatestVerifiedIndex, ReadHeadVerifiedIndex. cbn [db]. apply read_write. unfold is_u64. lia.
Qed.

(** The index of the last of [k] things. *)
Definition last_index (k : nat) : option Z := match k with O => None | S k => Some (Z.of_nat k) end.

Lemma applyBatch_replica txs : ∀ k n s, (∀ i tx, txs !! i = Some tx → L !! (k + i)%nat = Some tx) → (k <= n <= length L)%nat →
  replica L n s → GetLatestVerifiedIndex s = last_index k →
  ∃ s', applyBatch txs s = (s', Ok ()) ∧ replica L (Nat.max n (k + length txs)) s' ∧
    GetLatestBatchIndex s' = GetLatestBatchIndex s ∧ GetLatestVerifiedIndex s' = last_index (k + length txs).
Proof.
  induction txs as [|tx txs IH]; intros k n s Htxs Hk Hr Hv; cbn [applyBatch length].
  - exists s. rewrite Nat.add_0_r. split; [done|]. by replace (n `max` k)%nat with n by lia.
  - assert (Hj : L !! k = Some tx) by (rewrite <- (Htxs 0%nat tx eq_refl); f_equal; lia). pose proof (lookup_lt_Some _ _ _ Hj).
    destruct (replica_batched k tx n s Hj Hk Hr) as (s1 & E1 & Hr1 & Hb1 & Hv1). rewrite bind_eq. unfold wrapped. rewrite E1. cbn [map_err].
    destruct (IH (S k) (n `max` S k)%nat s1) as (s2 & E2 & Hr2 & Hb2 & Hv2); [|lia|done|done|].
    + intros i t Ht. rewrite <- (Htxs (S i) t Ht). f_equal. lia.
    + exists s2. split; [done|]. rewrite Nat.add_succ_r in *. split; [|split; [congruence|done]].
      by replace (n `max` S (k + length txs))%nat with ((n `max` S k) `max` (S k + length txs))%nat by lia.
Qed.

Context (B : list (list Transaction)) (HB : concat B = L) (HlenB : 0 < len B < 2 ^ 63).

Record serves_batches : Prop := {
  sb_latest w : (rc_GetLatestTransactionBatchIndex w).2 = Ok (Some (len B - 1));
  sb_batch i txs w : B !! i = Some txs → ∃ batch, (rc_GetTransactionBatch (Z.of_nat i) w).2 = Ok (batch, txs) }.

(** The first [m] batches are processed; transactions of the next may be known already. *)
Record batches_done (m : nat) (s : service) : Prop := {
  bd_replica : ∃ n, replica L n s ∧ (length (concat (take m B)) <= n <= length L)%nat;
  bd_batch : GetLatestBatchIndex s = last_index m;
  bd_verified : GetLatestVerifiedIndex s = last_index (length (concat (take m B))) }.

Lemma batches_world m s w : batches_done m s →
  batches_done m (mkService (db s) (chain s) (ovm s) (RollupGpo s) (gasPriceOracleOwnerAddress s) (syncing s) w).
Proof. intros [(n & Hr & Hn) Hb Hv]. split; [|done..]. exists n. split; [by apply replica_world|done]. Qed.

Lemma batch_step m txs s : serves_batches → B !! m = Some txs → batches_done m s → ∃ s',
  ('(_, txs) ← wrapped "Cannot get transaction batch" (remote (rc_GetTransactionBatch (Z.of_nat m)));
    _ ← applyBatch txs; SetLatestBatchIndex (Some (Z.of_nat m))) s = (s', Ok ()) ∧ batches_done (S m) s'.
Proof.
  intros Hsv Hm Hd. pose proof (lookup_lt_Some _ _ _ Hm) as Hlt. unfold len in HlenB.
  assert (Hseg : L = concat (take m B) ++ txs ++ concat (drop (S m) B)).
  { rewrite <- HB. rewrite <- (take_drop_middle B m txs Hm) at 1. by rewrite concat_app. }
  set (k := length (concat (take m B))). assert (Hk' : length (concat (take (S m) B)) = (k + length txs)%nat).
  { rewrite (take_S_r B m txs Hm), concat_app. cbn [concat]. by rewrite app_nil_r, length_app. }
  assert (Hcl : (k + length txs <= length L)%nat) by (rewrite Hseg, !length_app; lia).
  rewrite bind_eq. unfold wrapped at 1, remote. destruct (sb_batch Hsv m txs (world s) Hm) as [batch Eb].
  destruct (rc_GetTransactionBatch (Z.of_nat m) (world s)) as [w r]. cbn [snd] in Eb. subst r. cbn [map_err].
  destruct (batches_world m s w Hd) as [(n & Hr & Hn) Hb Hv]. rewrite bind_eq.
  destruct (applyBatch_replica txs k n _ ltac:(intros i tx Hi; rewrite Hseg; rewrite lookup_app_r by lia; rewrite Nat.add_comm, Nat.add_sub; by apply lookup_app_l_Some)
    Hn Hr Hv) as (s1 & -> & Hr1 & Hb1 & Hv1). unfold SetLatestBatchIndex. cbn [set_index with_db]. eexists. split; [done|]. split.
  - exists (n `max` (k + length txs))%nat. split; [|lia]. destruct Hr1 as [Hc Hx]. split; [done|]. rewrite <- Hx.
    unfold GetLatestIndex, ReadHeadIndex. cbn [db]. by apply read_write_ne.
  - unfold GetLatestBatchIndex, ReadHeadBatchIndex. cbn [db]. apply read_write. unfold is_u64. lia.
  - rewrite Hk', <- Hv1. unfold GetLatestVerifiedIndex, ReadHeadVerifiedIndex. cbn [db]. by apply read_write_ne.
Qed.

Lemma syncBatches_replica fuel m s : serves_batches → (m <= length B)%nat → batches_done m s →
  ∃ s', syncBatchesToTip (S fuel) s = (s', Ok ()) ∧ batches_done (length B) s'.
Proof.
  intros Hsv Hm Hd. pose proof HlenB as HlB. unfold len in HlB. unfold syncBatchesToTip, wrapped. cbn [syncToTip].
  assert (Hsync : ∃ s', syncBatches s = (s', Ok (Some (len B - 1))) ∧ batches_done (length B) s').
  { unfold syncBatches, wrapped, sync. rewrite bind_eq. unfold wrapped.
    destruct (remote_result _ s _ (sb_latest Hsv)) as [w ->]. cbn [map_err]. rewrite bind_eq. cbn [gets]. set (s1 := mkService _ _ _ _ _ _ w).
    assert (Hd1 : batches_done m s1) by (by apply batches_world). assert (Hnext : GetNextBatchIndex s1 = Z.of_nat m).
    { unfold GetNextBatchIndex. rewrite (bd_batch _ _ Hd1). destruct m as [|k]; [done|]. cbn [next_index last_index]. rewrite u64_small by (unfold is_u64; lia). lia. }
    rewrite Hnext. unfold len. rewrite u64_small by (unfold is_u64; lia). destruct (Z.eqb_spec (Z.of_nat m) (Z.of_nat (length B) - 1 + 1)).
    - eexists. split; [done|]. by replace (length B) with m by lia.
    - rewrite bind_eq. unfold syncTransactionBatchRange.
      match goal with |- context [forRange _ _ _ ?body] => destruct (forRange_iter (λ i s, batches_done (Z.to_nat i) s) body (Z.of_nat (length B) - 1) ltac:(lia) (Z.of_nat m) s1) as (s' & -> & Hs') end.
      + lia.
      + intros j sj Hj Hdj. destruct (B !! Z.to_nat j) as [txs|] eqn:Ej; [|apply lookup_ge_None in Ej; lia].
        destruct (batch_step _ txs sj Hsv Ej Hdj) as (s2 & E2 & Hd2). rewrite Z2Nat.id in E2 by lia. exists s2. split; [exact E2|].
        by replace (Z.to_nat (j + 1)) with (S (Z.to_nat j)) by lia.
      + by rewrite Nat2Z.id.
      + exists s'. split; [done|]. by replace (Z.to_nat (Z.of_nat (length B) - 1 + 1)) with (length B) in Hs' by lia. }
  destruct Hsync as (s1 & -> & Hd1). unfold isAtTip. destruct (remote_result _ s1 _ (sb_latest Hsv)) as [w ->]. rewrite Z.eqb_refl.
  eexists. split; [done|]. by apply batches_world.
Qed.

(** C14. Let the indexer always answer with the same list of canonical transactions (not
    empty, fewer than 2^63, each with its index, an L1 block number and a timestamp), for
    the L1 backend in a list of batches that concatenate to it; let the node be a verifier
    whose miner accepts every transaction and whose state can always be read; and let its
    chain be a genesis block and the first transactions of the list, for the L1 backend
    with the stored batch and verified indices those of the first batches. Then a round of
    the verifier succeeds and ends with exactly the canonical transactions in its chain,
    one to a block and unchanged, and with the index of the last one stored; with batches
    from L1 the verified index and the batch index are those of the last ones. *)
Theorem verifier_replicates fuel s :
  match backend cfg with
  | BackendL1 => serves_batches ∧ ∃ m, (m <= length B)%nat ∧ batches_done m s
  | BackendL2 => serves_transactions BackendL2 ∧ ∃ n, (n <= length L)%nat ∧ replica L n s
  end →
  ∃ s', verify (S fuel) s = (s', Ok ()) ∧ replica L (length L) s' ∧
    (backend cfg = BackendL1 → GetLatestVerifiedIndex s' = Some (len L - 1) ∧ GetLatestBatchIndex s' = Some (len B - 1)).
Proof.
  unfold verify, wrapped. destruct (backend cfg) eqn:Eb; intros (Hsv & n & Hn & Hs).
  - destruct (syncBatches_replica fuel n s Hsv Hn Hs) as (s1 & -> & [(k & Hr & Hk) Hbi Hv]). exists s1. split; [done|].
    rewrite firstn_all, HB in Hk, Hv. unfold len in *. split; [by replace (length L) with k by lia|]. intros _. rewrite Hv, Hbi.
    destruct (length L), (length B); cbn [last_index]; try lia. split; f_equal; lia.
  - rewrite <- Eb in Hsv. destruct (syncTransactions_replica fuel n s Hsv Hn Hs) as (s1 & -> & Hr). exists s1. split; [done|]. done.
Qed.
End Replica.

(** ** The sequencer *)

(** The transactions the sequencer stamps are in the order of time: their timestamp is at
    least the latest one, and becomes it. *)
Theorem sequencer_timestamps tx s s' :
  state_available → clock_ok → 0 <= GetLatestL1Timestamp s < 2 ^ 63 →
  L1Timestamp (meta tx) = 0 ∨ verifier cfg = false ∧ QueueOrigin (meta tx) = QueueOriginL1ToL2 →
  applyTransactionToTip (Some tx) s = (s', Ok ()) →
  ∃ tx', chain s' = chain s ++ [[tx']] ∧ GetLatestL1Timestamp s <= L1Timestamp (meta tx') ∧ GetLatestL1Timestamp s' = L1Timestamp (meta tx').
Proof.
  intros Hst Hclock Hts Hc Happ.
  destruct (tip_cases tx s Hst) as [[_ [e E]]|(tx' & o & w & Hp & Ht & _ & [(_ & g & a & E)|(e & _ & E)])]; rewrite Happ in E; try done.
  injection E as ->. exists tx'. pose proof (pl_mono _ _ _ _ _ Hp Hclock Hts Hc). split; [done|]. split; [done|].
  unfold GetLatestL1Timestamp at 1. cbn [ovm]. lia.
Qed.

Section QueueSync.
Context (Q : list Transaction) (Hst : state_available) (Hmine : ∀ tx w, (mine tx w).2 = None) (HlenQ : 0 < len Q < 2 ^ 63).

(** The queue as the indexer delivers it: elements that are not in the canonical chain. *)
Record queued (i : nat) (tx : Transaction) : Prop := {
  qu_index : Index (meta tx) = None;
  qu_queue : QueueIndex (meta tx) = Some (Z.of_nat i);
  qu_time : L1Timestamp (meta tx) ≠ 0 }.
Context (Hqueue : ∀ i tx, Q !! i = Some tx → queued i tx).

Record serves_enqueues : Prop := {
  se_latest w : (rc_GetLatestEnqueueIndex w).2 = Ok (Some (len Q - 1));
  se_tx i tx w : Q !! i = Some tx → (rc_GetEnqueue (Z.of_nat i) w).2 = Ok tx }.

(** The same transaction, with another context. *)
Definition same_call (tx tx' : Transaction) : Prop :=
  data tx' = data tx ∧ L1MessageSender (meta tx') = L1MessageSender (meta tx) ∧ QueueOrigin (meta tx') = QueueOrigin (meta tx) ∧
  QueueIndex (meta tx') = QueueIndex (meta tx).

(** [n] elements are applied, since the state [s0] where it were [n0]. *)
Record dequeued (s0 : service) (n0 n : nat) (s : service) : Prop := {
  dq_chain : ∃ txs, chain s = chain s0 ++ ((λ tx, [tx]) <$> txs) ∧ Forall2 same_call (take (n - n0) (drop n0 Q)) txs;
  dq_index : GetLatestEnqueueIndex s = last_index n }.

Lemma dequeued_world s0 n0 n s w : dequeued s0 n0 n s →
  dequeued s0 n0 n (mkService (db s) (chain s) (ovm s) (RollupGpo s) (gasPriceOracleOwnerAddress s) (syncing s) w).
Proof. intros [Hc Hi]. by split. Qed.

Lemma dequeue_step s0 n0 n tx s : (n0 <= n)%nat → Q !! n = Some tx → dequeued s0 n0 n s →
  ∃ s', applyTransaction tx s = (s', Ok ()) ∧ dequeued s0 n0 (S n) s'.
Proof.
  intros Hn Hq [(txs & Hc & HF) Hi]. destruct (Hqueue n tx Hq) as [Hix Hqx Ht]. unfold applyTransaction. rewrite Hix.
  destruct (tip_cases tx s Hst) as [[Hz _]|(tx' & o & w & Hp & _ & _ & [(_ & g & a & ->)|(e & He & _)])]; [done| |by rewrite Hmine in He].
  eexists. split; [done|]. pose proof (lookup_lt_Some _ _ _ Hq). unfold len in HlenQ. split; cbn [chain].
  - exists (txs ++ [tx']). split; [by rewrite Hc, fmap_app, app_assoc|]. replace (S n - n0)%nat with (S (n - n0)) by lia.
    rewrite (take_S_r _ _ tx) by (rewrite lookup_drop; rewrite <- Hq; f_equal; lia). apply Forall2_app; [done|]. constructor; [|done].
    destruct Hp as [Hd (Hk1 & Hk2 & Hk3 & _) _ _ _ _]. by split_and!.
  - unfold GetLatestEnqueueIndex. cbn [db]. rewrite Hqx. cbn [with_queue last_index]. unfold ReadHeadQueueIndex, WriteHeadQueueIndex.
    apply read_write. unfold is_u64. lia.
Qed.

(** C17. Let the indexer always answer with the same queue (not empty, fewer than 2^63
    elements, each with its queue index and a timestamp, and none of them with an index in
    the canonical chain), let the miner accept every transaction and the state always be
    readable. Then a round of the sequencer, whose stored queue index says that the first
    [n] elements are applied, succeeds and applies exactly the others, in order and each
    once: each becomes the one transaction of a new block with the call, origin, sender
    and queue index of the element, and the index of the last element is stored. *)
Theorem queue_synced fuel n s :
  serves_enqueues → (n <= length Q)%nat → GetLatestEnqueueIndex s = last_index n →
  ∃ s' txs, sequence (S fuel) s = (s', Ok ()) ∧ chain s' = chain s ++ ((λ tx, [tx]) <$> txs) ∧
    Forall2 same_call (drop n Q) txs ∧ GetLatestEnqueueIndex s' = Some (len Q - 1).
Proof.
  intros Hsv Hn Hi. pose proof HlenQ as HlQ. unfold len in HlQ. unfold sequence, syncQueueToTip, wrapped. cbn [syncToTip].
  assert (Hsync : ∃ s', syncQueue s = (s', Ok (Some (len Q - 1))) ∧ dequeued s n (length Q) s').
  { unfold syncQueue, wrapped, sync. rewrite bind_eq. unfold wrapped.
    destruct (remote_result _ s _ (se_latest Hsv)) as [w ->]. cbn [map_err]. rewrite bind_eq. cbn [gets]. set (s1 := mkService _ _ _ _ _ _ w).
    assert (Hd1 : dequeued s n n s1). { split; [|done]. exists []. rewrite Nat.sub_diag. by rewrite app_nil_r. }
    assert (Hnext : GetNextEnqueueIndex s1 = Z.of_nat n).
    { unfold GetNextEnqueueIndex. rewrite (dq_index _ _ _ _ Hd1). destruct n as [|k]; [done|]. cbn [next_index last_index]. rewrite u64_small by (unfold is_u64; lia). lia. }
    rewrite Hnext. unfold len. rewrite u64_small by (unfold is_u64; lia). destruct (Z.eqb_spec (Z.of_nat n) (Z.of_nat (length Q) - 1 + 1)).
    - eexists. split; [done|]. by replace (length Q) with n by lia.
    - rewrite bind_eq. unfold syncQueueTransactionRange.
      match goal with |- context [forRange _ _ _ ?body] => destruct (forRange_iter (λ i t, dequeued s n (Z.to_nat i) t) body (Z.of_nat (length Q) - 1) ltac:(lia) (Z.of_nat n) s1) as (s' & -> & Hs') end.
      + lia.
      + intros j sj Hj Hdj. destruct (Q !! Z.to_nat j) as [tx|] eqn:Ej; [|apply lookup_ge_None in Ej; lia].
        assert (Hrem : ∀ w, (rc_GetEnqueue j w).2 = Ok tx) by (intros w2; pose proof (se_tx Hsv (Z.to_nat j) tx w2 Ej) as E; by rewrite Z2Nat.id in E by lia).
        rewrite bind_eq. unfold wrapped. cbv beta. destruct (remote_result _ sj tx Hrem) as [w2 ->]. cbn [map_err].
        destruct (dequeue_step s n (Z.to_nat j) tx _ ltac:(lia) Ej (dequeued_world _ _ _ _ w2 Hdj)) as (s2 & -> & Hd2). exists s2. split; [done|].
        by replace (Z.to_nat (j + 1)) with (S (Z.to_nat j)) by lia.
      + by rewrite Nat2Z.id.
      + exists s'. split; [done|]. by replace (Z.to_nat (Z.of_nat (length Q) - 1 + 1)) with (length Q) in Hs' by lia. }
  destruct Hsync as (s1 & -> & Hd1). unfold isAtTip. destruct (remote_result _ s1 _ (se_latest Hsv)) as [w ->]. rewrite Z.eqb_refl.
  destruct (dequeued_world _ _ _ _ w Hd1) as [(txs & Hc & HF) Hx]. rewrite take_ge in HF by (rewrite length_drop; lia).
  eexists _, txs. split; [done|]. split; [done|]. split; [done|]. rewrite Hx. unfold len. destruct (length Q); [lia|]. cbn [last_index]. f_equal. lia.
Qed.
End QueueSync.

(** ** The queue index after a restart *)

(** The queue indices of the transactions of a chain whose blocks have one each. *)
Definition queue_indices (c : list Block) : list Z := omap (λ b : Block, tx ← head b; QueueIndex (meta tx)) c.

(** Working backwards from the tip finds the last transaction of the queue. *)
Lemma fixQueueIndex_spec num q s : (num < length (chain s))%nat → (∀ n b, chain s !! S n = Some b → ∃ tx, b = [tx]) →
  fixQueueIndex num q s = last (queue_indices (take num (tail (chain s)))).
Proof.
  intros Hn Hb. assert (Hc : ∃ g rest, chain s = g :: rest) by (destruct (chain s); [cbn in Hn; lia|by eexists _, _]).
  destruct Hc as (g & rest & Hc). rewrite Hc in *. cbn [length tail] in *. induction num as [|num IH]; cbn [fixQueueIndex]; rewrite Hc; [done|].
  rewrite lookup_cons_ne_0 by done. cbn [pred]. destruct (rest !! num) as [b|] eqn:Eb; [|apply lookup_ge_None in Eb; lia].
  destruct (Hb num b) as [tx ->]; [by rewrite lookup_cons_ne_0 by done|].
  unfold queue_indices. rewrite (take_S_r rest num [tx] Eb), omap_app. cbn [omap list_omap head mbind option_bind].
  destruct (QueueIndex (meta tx)); [by rewrite last_snoc|]. rewrite app_nil_r. apply IH. lia.
Qed.

(** When no block has a queue transaction the wrong index is not repaired: setting no index
    does nothing. *)
Theorem stale_queue_index s q :
  1 <= len (chain s) → GetLatestEnqueueIndex s = Some q → (∀ n b, chain s !! S n = Some b → ∃ tx, b = [tx]) →
  queue_indices (tail (chain s)) = [] → initializeQueueIndex s = (s, Ok ()).
Proof.
  intros Hl Hq Hb Hno. unfold initializeQueueIndex. rewrite Hq. rewrite fixQueueIndex_spec; [|unfold len in Hl; lia|done].
  rewrite take_ge by (destruct (chain s); cbn; lia). by rewrite Hno.
Qed.

(** ** Restart *)

(** After a crash the stored index may be one ahead of the chain: it is written before the
    block is added. *)
Record crashed (s : service) : Prop := {
  cr_length : 2 <= len (chain s) < 2 ^ 63;
  cr_index : GetLatestIndex s = Some (len (chain s) - 2) ∨ GetLatestIndex s = Some (len (chain s) - 1);
  cr_blocks n b : chain s !! S n = Some b → ∃ tx, b = [tx] ∧ Index (meta tx) = Some (Z.of_nat n) }.

(** What a restart needs beside the chain: the last transaction knows its L1 block, the
    queue indices of the chain are 64-bit numbers, and the indexer answers: to a verifier
    of batches with the batch of the transaction at the stored index, and to a service
    without a queue index with the last confirmed element of the queue, or that there is
    none. *)
Record restartable (batch : Z) (enqueue : result Transaction) (s : service) : Prop := {
  rs_number tx : last (chain s) = Some [tx] → is_Some (L1BlockNumber (meta tx));
  rs_queue : Forall is_u64 (queue_indices (tail (chain s)));
  rs_batch i w : verifier cfg = true → backend cfg = BackendL1 → GetLatestIndex s = Some i →
    ∃ resp t, (rc_GetRawTransaction i BackendL1 w).2 = Ok resp ∧ tr_Transaction resp = Some t ∧ rt_BatchIndex t = batch;
  rs_batch_u64 : is_u64 batch;
  rs_enqueue w : GetLatestEnqueueIndex s = None → (rc_GetLastConfirmedEnqueue w).2 = enqueue;
  rs_confirmed : match enqueue with
                 | Ok t => ∀ q, QueueIndex (meta t) = Some q → is_u64 q
                 | Err e => errors_Is e errElementNotFound = true
                 | Panic _ => False
                 end }.

(** The queue index and the batch index after a restart. *)
Definition restartedQueueIndex (enqueue : result Transaction) (s : service) : option Z :=
  match GetLatestEnqueueIndex s with
  | Some q => Some (default q (last (queue_indices (tail (chain s)))))
  | None => match enqueue with Ok t => QueueIndex (meta t) | _ => None end
  end.
Definition restartedBatchIndex (batch : Z) (s : service) : option Z :=
  if verifier cfg && bool_decide (backend cfg = BackendL1) then Some (Z.max 0 (batch - 1)) else GetLatestBatchIndex s.

Lemma recoverBatchIndex_spec batch enqueue i s :
  restartable batch enqueue s → GetLatestIndex s = Some i →
  ∃ s', recoverBatchIndex i s = (s', Ok ()) ∧ chain s' = chain s ∧ GetLatestIndex s' = GetLatestIndex s ∧
    GetLatestEnqueueIndex s' = GetLatestEnqueueIndex s ∧ GetLatestBatchIndex s' = restartedBatchIndex batch s.
Proof.
  intros Hr Hi. unfold recoverBatchIndex, restartedBatchIndex. destruct (_ && _) eqn:Ev; [|by exists s].
  apply andb_true_iff in Ev as [Hv Hb]. bool_props. rewrite Hb, bind_eq. unfold wrapped, remote.
  destruct (rs_batch _ _ _ Hr i (world s) Hv Hb Hi) as (resp & t & E1 & E2 & E3).
  destruct (rc_GetRawTransaction i BackendL1 (world s)) as [w r]. cbn [snd] in E1. subst r. cbn [map_err]. rewrite E2, E3.
  pose proof (rs_batch_u64 _ _ _ Hr) as [Hb0 Hb1]. eexists. split; [done|]. cbn [chain].
  unfold GetLatestIndex, GetLatestEnqueueIndex, GetLatestBatchIndex, ReadHeadIndex, ReadHeadQueueIndex, ReadHeadBatchIndex.
  cbn [db]. unfold WriteHeadBatchIndex. rewrite !read_write_ne by done. split_and!; [done..|].
  destruct (Z.ltb_spec 0 batch); rewrite read_write by (unfold is_u64; lia); f_equal; lia.
Qed.

Lemma recoverTip_spec s i : crashed s → GetLatestIndex s = Some i →
  ∃ s' tx, recoverTip i s = (s', Ok [tx]) ∧ aligned s' ∧ chain s' = chain s ∧ last (chain s) = Some [tx] ∧
    GetLatestEnqueueIndex s' = GetLatestEnqueueIndex s ∧ GetLatestBatchIndex s' = GetLatestBatchIndex s.
Proof.
  intros [Hl Hi Hb] Ei. unfold len in *.
  destruct (chain s !! S (length (chain s) - 2)) as [b|] eqn:El; [|apply lookup_ge_None in El; lia].
  destruct (Hb _ _ El) as (tx & -> & Etx). assert (Hlast : last (chain s) = Some [tx]) by (rewrite last_lookup; replace (pred _) with (S (length (chain s) - 2)) by lia; done).
  unfold recoverTip. rewrite bind_eq. cbn [gets]. unfold GetBlockByNumber. destruct Hi as [Hi|Hi]; rewrite Hi in Ei; injection Ei as <-.
  - rewrite u64_small by (unfold is_u64; lia). replace (Z.to_nat _) with (S (length (chain s) - 2)) by lia. rewrite El.
    exists s, tx. split; [done|]. split; [|done]. split; unfold len; [lia|done|done].
  - rewrite u64_small by (unfold is_u64; lia). replace (Z.to_nat _) with (length (chain s)) by lia. rewrite lookup_ge_None_2 by lia.
    rewrite bind_eq. cbn [gets]. unfold CurrentBlock. rewrite Hlast. cbn [mbind option_bind]. unfold len.
    rewrite (proj2 (Z.ltb_ge _ _)) by lia. rewrite bind_eq. rewrite (proj2 (Z.ltb_lt 0 _)) by lia. unfold SetLatestIndex. cbn [set_index with_db].
    eexists _, tx. split; [done|]. cbn [chain]. split_and!; [|done|done|by apply read_write_ne|by apply read_write_ne].
    split; unfold len; cbn [chain]; [lia| |done].
    unfold GetLatestIndex. cbn [db]. unfold ReadHeadIndex, WriteHeadIndex. rewrite read_write by (unfold is_u64; lia). f_equal. lia.
Qed.

(** Only the indices of the database count. *)
Lemma aligned_same s s' :
  aligned s → chain s' = chain s → GetLatestIndex s' = GetLatestIndex s → aligned s'.
Proof. intros [Hl Hi Hb] Ec Ei. split; rewrite ?Ec, ?Ei; done. Qed.

Lemma initializeContext_spec batch enqueue s :
  crashed s → restartable batch enqueue s →
  ∃ s' tx n, initializeContext s = (s', Ok ()) ∧ aligned s' ∧ chain s' = chain s ∧
    last (chain s) = Some [tx] ∧ L1BlockNumber (meta tx) = Some n ∧ ovm s' = mkOVM (big_Uint64 n) (L1Timestamp (meta tx)) ∧
    GetLatestEnqueueIndex s' = GetLatestEnqueueIndex s ∧ GetLatestBatchIndex s' = restartedBatchIndex batch s.
Proof.
  intros Hc Hr. unfold initializeContext. rewrite bind_eq. cbn [gets].
  destruct (GetLatestIndex s) as [i|] eqn:Ei; [|by destruct (cr_index _ Hc) as [E|E]; rewrite E in Ei]. rewrite bind_eq.
  destruct (recoverBatchIndex_spec batch enqueue i s Hr Ei) as (s1 & -> & Hch1 & Hix1 & Hq1 & Hb1).
  assert (Hc1 : crashed s1) by (destruct Hc; split; rewrite ?Hch1, ?Hix1; done). rewrite bind_eq.
  destruct (recoverTip_spec s1 i Hc1 ltac:(by rewrite Hix1)) as (s2 & tx & -> & Ha & Hch2 & Hlast & Hq2 & Hb2). rewrite bind_eq.
  rewrite Hch1 in Hlast. destruct (rs_number _ _ _ Hr tx Hlast) as [n Hn].
  unfold SetLatestL1Timestamp, SetLatestL1BlockNumber, with_ovm. rewrite Hn. cbn [ovm blockNumber timestamp].
  eexists _, tx, n. split; [done|]. cbn [ovm chain].
  split_and!; [by eapply aligned_same|congruence|done|done|done|by rewrite <- Hq1, <- Hq2|by rewrite <- Hb1, <- Hb2].
Qed.

Lemma initializeQueueIndex_spec enqueue s :
  aligned s → Forall is_u64 (queue_indices (tail (chain s))) →
  (∀ w, GetLatestEnqueueIndex s = None → (rc_GetLastConfirmedEnqueue w).2 = enqueue) →
  match enqueue with
  | Ok t => ∀ q, QueueIndex (meta t) = Some q → is_u64 q
  | Err e => errors_Is e errElementNotFound = true
  | Panic _ => False
  end →
  ∃ s', initializeQueueIndex s = (s', Ok ()) ∧ chain s' = chain s ∧ ovm s' = ovm s ∧
    GetLatestIndex s' = GetLatestIndex s ∧ GetLatestBatchIndex s' = GetLatestBatchIndex s ∧
    GetLatestEnqueueIndex s' = restartedQueueIndex enqueue s.
Proof.
  intros [Hl _ Hb] Hu Henq Hconf. unfold len in Hl.
  assert (Hset : ∀ o t, (∀ q, o = Some q → is_u64 q) → ∃ s', SetLatestEnqueueIndex o t = (s', Ok ()) ∧
    chain s' = chain t ∧ ovm s' = ovm t ∧ GetLatestIndex s' = GetLatestIndex t ∧ GetLatestBatchIndex s' = GetLatestBatchIndex t ∧
    GetLatestEnqueueIndex s' = match o with Some q => Some q | None => GetLatestEnqueueIndex t end).
  { intros [q|] t Hq; [|by exists t]. eexists. split; [done|]. cbn [chain ovm]. split_and!; [done|done| | |].
    - by apply read_write_ne.
    - by apply read_write_ne.
    - by apply read_write, Hq. }
  unfold initializeQueueIndex, restartedQueueIndex. destruct (GetLatestEnqueueIndex s) as [q|] eqn:Eq.
  - rewrite fixQueueIndex_spec; [|lia|intros n b Hn; by destruct (Hb n b Hn) as (tx & -> & _); eauto].
    rewrite take_ge by (destruct (chain s); cbn; lia).
    destruct (Hset (last (queue_indices (tail (chain s)))) s) as (s' & -> & E1 & E2 & E3 & E4 & E5).
    { intros q' Hq'. rewrite Forall_forall in Hu. apply Hu. by apply last_Some_elem_of. }
    exists s'. split_and!; [done..|]. rewrite E5, Eq. by destruct (last _).
  - unfold remote. specialize (Henq (world s) eq_refl). destruct (rc_GetLastConfirmedEnqueue (world s)) as [w r]. cbn [snd] in Henq. subst r.
    set (t := mkService _ _ _ _ _ _ w). destruct enqueue as [tx|e|p]; [| |done].
    + destruct (Hset (QueueIndex (meta tx)) t Hconf) as (s' & -> & E1 & E2 & E3 & E4 & E5).
      exists s'. split_and!; [done..|]. rewrite E5. destruct (QueueIndex (meta tx)); [done|exact Eq].
    + rewrite Hconf. by exists t.
Qed.

(** C16. A service that crashed between storing the index of a transaction and adding its
    block (at least one block above genesis, block [n + 1] holding the one transaction
    with index [n], the stored index that of the last block or one more) restarts without
    an error, provided the last transaction knows its L1 block and the indexer answers
    the queries of the restart. Then the stored index is that of the last block again,
    the chain is unchanged and the L1 context is that of its last transaction. A stored
    queue index becomes the one of the last queue transaction of the chain, and is kept
    as it is if the chain has none; without a stored one it is the last confirmed element
    according to the indexer, if there is any. A verifier that reads batches from L1 goes
    back to the batch before the one the indexer gives for the stored index. *)
Theorem restart_recovers batch enqueue s :
  crashed s → restartable batch enqueue s →
  ∃ s', initializeLatestL1 s = (s', Ok ()) ∧ aligned s' ∧ chain s' = chain s ∧
    (∃ tx n, last (chain s) = Some [tx] ∧ L1BlockNumber (meta tx) = Some n ∧
       ovm s' = mkOVM (big_Uint64 n) (L1Timestamp (meta tx))) ∧
    GetLatestEnqueueIndex s' = match GetLatestEnqueueIndex s with
                               | Some q => Some (default q (last (queue_indices (tail (chain s)))))
                               | None => match enqueue with Ok t => QueueIndex (meta t) | _ => None end
                               end ∧
    GetLatestBatchIndex s' = (if verifier cfg && bool_decide (backend cfg = BackendL1) then Some (Z.max 0 (batch - 1))
                              else GetLatestBatchIndex s).
Proof.
  intros Hc Hr. unfold initializeLatestL1. rewrite bind_eq.
  destruct (initializeContext_spec batch enqueue s Hc Hr) as (s1 & tx & n & -> & Ha & Hch & Hlast & Hn & Ho & Hq & Hb).
  destruct (initializeQueueIndex_spec enqueue s1 Ha ltac:(by rewrite Hch; apply Hr)) as (s2 & -> & E1 & E2 & E3 & E4 & E5).
  { intros w. rewrite Hq. apply Hr. }
  { apply Hr. }
  exists s2. split_and!; [done|by eapply aligned_same|congruence|exists tx, n; by rewrite E2| |by rewrite E4].
  rewrite E5. unfold restartedQueueIndex. by rewrite Hq, Hch.
Qed.

(** ** What is not rolled back *)

(** A transaction the miner rejects: the queue index stays, so that this element of the
    queue is not tried again, and without an index before, the index stays too. *)
Theorem failed_transaction_indices tx s s' e q :
  state_available → is_u64 q → L1Timestamp (meta tx) ≠ 0 → QueueIndex (meta tx) = Some q → Index (meta tx) = None → GetLatestIndex s = None →
  applyTransactionToTip (Some tx) s = (s', Err e) →
  chain s' = chain s ∧ GetLatestEnqueueIndex s' = Some q ∧ GetLatestIndex s' = Some 0.
Proof.
  intros Hst Hqu Ht Hq Hi Hn Happ.
  destruct (tip_cases tx s Hst) as [[Hz _]|(tx' & o & w & Hp & _ & _ & [(_ & g & a & E)|(e' & _ & E)])]; [done|by rewrite Happ in E|].
  rewrite Happ in E. injection E as -> _. rewrite Hn. split; [done|]. unfold GetLatestEnqueueIndex, GetLatestIndex. cbn [db rolled_back]. rewrite Hq.
  cbn [with_queue]. unfold place. rewrite Hi. unfold GetNextIndex. rewrite Hn. cbn [default from_option next_index]. split.
  - by apply read_write.
  - unfold ReadHeadIndex, WriteHeadQueueIndex, WriteHeadIndex. rewrite read_write_ne by done. by apply read_write.
Qed.

(** When the price cache cannot be updated after the block was added, the index is rolled
    back although the transaction is in the chain. *)
Theorem cache_failure_misaligns ts bn i tx s e w :
  is_u64 i → mine tx (world s) = (w, None) → (Sender (signer cfg) tx).2 = Ok (gasPriceOracleOwnerAddress s) →
  bc_State (chain s ++ [[tx]]) w = Err e →
  ∃ s', includeTransaction ts bn (Some i) tx s = (s', Err e) ∧ chain s' = chain s ++ [[tx]] ∧ GetLatestIndex s' = Some i.
Proof.
  intros Hi Hm Hs He. unfold includeTransaction. rewrite bind_eq. unfold try_catch, sendToMiner. rewrite Hm. rewrite bind_eq. cbn [gets].
  rewrite Hs. cbn [gasPriceOracleOwnerAddress]. rewrite bool_decide_eq_true_2 by done.
  unfold updateGasPriceOracleCache. rewrite bind_eq. unfold bc_state. cbn [chain world]. rewrite He.
  eexists. split; [done|]. split; [done|]. unfold GetLatestIndex. cbn [db]. by apply read_write.
Qed.

(** A verifier that gets a transaction without timestamp stamps it with its own clock. *)
Theorem verifier_uses_clock ts tx s w now :
  L1Timestamp (meta tx) = 0 → time_Now (world s) = (w, now) → timestampRefreshThreshold cfg < duration (now - int64 ts * 10 ^ 9) →
  (assignTimestamp ts tx s).2 = Ok (SetL1Timestamp (u64 (now / 10 ^ 9)) tx).
Proof. intros Ht Hn Hd. unfold assignTimestamp. rewrite Ht, Hn. cbn [Z.eqb orb]. by rewrite (proj2 (Z.ltb_lt _ _)). Qed.

(** ** Transactions of users *)

(** What a transaction must satisfy. *)
Record pays (tx : Transaction) (s : service) : Prop := {
  pa_state : ∃ st from fee, bc_State (chain s) (world s) = Ok st ∧ (Sender (signer cfg) tx).2 = Ok from ∧
    CalculateTotalFee convert tx (RollupGpo s) = Ok fee ∧
    (if Price (data tx) =? 0 then Amount (data tx) else Amount (data tx) + fee) <= GetBalance st from ∧
    (Price (data tx) = 0 → from = gasPriceOracleOwnerAddress s ∨ enforceFees cfg = false);
  pa_price : Price (data tx) ≠ 0 →
    PaysEnough convert (mkOpts (Some (Price (data tx))) (Some (l2GasPrice (RollupGpo s))) (feeThresholdUp cfg) (feeThresholdDown cfg)) = Ok () }.

Lemma Sender_fields sg tx : data (Sender sg tx).1 = data tx ∧ meta (Sender sg tx).1 = meta tx.
Proof. unfold Sender. destruct (from tx) as [[sg' a]|]; [case_bool_decide; [done|]|]; by destruct (Signer_Sender sg (data tx)). Qed.

Lemma verifyFee_Ok tx s s' tx' : verifyFee tx s = (s', Ok tx') → s' = s ∧ tx' = (Sender (signer cfg) tx).1 ∧ pays tx s.
Proof.
  unfold verifyFee. rewrite bind_eq. cbn [gets]. rewrite bind_eq. unfold wrapped, lift.
  destruct (CalculateTotalFee convert tx (RollupGpo s)) as [fee|e|p] eqn:Ef; cbn [map_err]; try done.
  rewrite bind_eq. unfold bc_state. destruct (bc_State (chain s) (world s)) as [st|e|p] eqn:Es; try done.
  pose proof (Sender_fields (signer cfg) tx) as [Hd Hm]. destruct (Sender (signer cfg) tx) as [t r] eqn:Esd. cbn [fst] in *. rewrite Hd.
  destruct r as [from|e|p]; try done. destruct (Z.ltb_spec (GetBalance st from) (if Price (data tx) =? 0 then Amount (data tx) else Amount (data tx) + fee)) as [|Hbal]; [done|].
  destruct (Z.eqb_spec (Price (data tx)) 0) as [Hz|Hz].
  - rewrite bind_eq. cbn [gets]. intros Hgo. assert (Hres : s' = s ∧ tx' = t ∧ (from = gasPriceOracleOwnerAddress s ∨ enforceFees cfg = false)).
    { case_bool_decide; [injection Hgo as <- <-; split_and!; [done..|by left]|]. destruct (enforceFees cfg); [done|]. injection Hgo as <- <-. split_and!; [done..|by right]. }
    destruct Hres as (-> & -> & Hor). split_and!; [done..|]. split; [|done]. exists st, from, fee. rewrite Esd, Hz. cbn [Z.eqb]. by split_and!.
  - destruct (PaysEnough convert _) as [[]|e|p] eqn:Ep; [|by repeat case_match|done]. intros [= <- <-]. split_and!; [done..|]. split; [|done].
    exists st, from, fee. rewrite Esd. rewrite (proj2 (Z.eqb_neq _ _)) by done. by split_and!.
Qed.

(** C18. A user's transaction without an index that is accepted, provided the state can be
    read: the node is a sequencer; the transaction has the sequencer's origin, a sender
    that can be recovered, and is valid for the pool; with a gas price other than zero, the
    balance of the sender covers the value and the total fee at the cached prices, and the
    price is within the thresholds of the suggested one; with gas price zero, the balance
    covers the value, and the sender is the owner of the gas price oracle or fees are not
    enforced. It becomes the one transaction of the next block, unchanged but for its
    context, with the next index. *)
Theorem user_transaction_accepted tx s s' :
  state_available → Index (meta tx) = None → ValidateAndApplySequencerTransaction (Some tx) s = (s', Ok ()) →
  verifier cfg = false ∧ QueueOrigin (meta tx) = QueueOriginSequencer ∧ pays tx s ∧
  txpool_ValidateTx (chain s) (Sender (signer cfg) tx).1 (world s) = Ok () ∧
  ∃ tx', chain s' = chain s ++ [[tx']] ∧ data tx' = data tx ∧ Index (meta tx') = Some (GetNextIndex s).
Proof.
  intros Hst Hi. unfold ValidateAndApplySequencerTransaction. destruct (verifier cfg) eqn:Ev; [done|]. rewrite bind_eq.
  destruct (verifyFee tx s) as [s1 [t|e|p]] eqn:Evf; try done. apply verifyFee_Ok in Evf as (-> & -> & Hpay).
  destruct (Sender_fields (signer cfg) tx) as [Hd Hm]. rewrite Hm. destruct (Z.eqb_spec (QueueOrigin (meta tx)) QueueOriginSequencer) as [Hq|]; [|done]. cbn [negb].
  rewrite bind_eq. unfold wrapped, validatePool. destruct (txpool_ValidateTx (chain s) _ (world s)) as [[]|e|p] eqn:Epool; cbn [map_err]; try done.
  unfold applyTransaction. rewrite Hm, Hi. set (u := (Sender (signer cfg) tx).1) in *. intros Happ. split_and!; try done.
  destruct (tip_cases u s Hst) as [[_ [e E]]|(tx' & o & w & Hp & _ & _ & [(_ & g & a & E)|(e & _ & E)])]; rewrite Happ in E; try done.
  injection E as ->. exists tx'. split; [done|]. split; [by rewrite (pl_data _ _ _ _ _ Hp)|]. rewrite (pl_index _ _ _ _ _ Hp). unfold place. by rewrite Hm, Hi.
Qed.
End Service.

(** ** Configuration *)

(** Comparison of a float with one. *)
Definition Float_cmp1 (f : Float) : comparison :=
  if 0 <=? fe f then (fm f * 2 ^ fe f ?= 1) else (fm f ?= 2 ^ (- fe f)).

(** The thresholds [NewSyncService] accepts. *)
Definition checkThresholds (cfg : Config) : result () :=
  _ ← match feeThresholdDown cfg with
      | Some t => if bool_decide (Float_cmp1 t = Lt) then Ok () else Err (Errorf "fee threshold down not lower than 1" errBadConfig)
      | None => Ok ()
      end;
  match feeThresholdUp cfg with
  | Some t => if bool_decide (Float_cmp1 t = Gt) then Ok () else Err (Errorf "fee threshold up not larger than 1" errBadConfig)
  | None => Ok ()
  end.

(** The transaction that pays the suggested price is not rejected by an accepted lower
    threshold that is not negative. *)
Lemma checkThresholds_suggested convert cfg t p :
  checkThresholds cfg = Ok () → feeThresholdDown cfg = Some t → 0 <= fm t → -1074 <= fe t <= 0 → 0 <= p < 2 ^ 53 →
  PaysEnough convert (mkOpts (Some p) (Some p) None (Some t)) = Ok ().
Proof.
  unfold checkThresholds. intros Hc Ht Hm He Hp. rewrite Ht in Hc. case_bool_decide as Hlt; [|done].
  apply PaysEnough_suggested; try done; [unfold is_u64; lia|lia|]. unfold Float_cmp1 in Hlt. destruct (Z.leb_spec 0 (fe t)) as [H0|H0].
  - replace (fe t) with 0 in * by lia. change (2 ^ 0) with 1 in Hlt. change (2 ^ (- 0)) with 1. apply (proj1 (Z.compare_lt_iff _ _)) in Hlt. lia.
  - apply (proj1 (Z.compare_lt_iff _ _)) in Hlt. lia.
Qed.

(** ** An example *)

Module ServiceExample.

Definition canonical_tx (i : Z) : Transaction :=
  mkTx (mkTxdata i 1 21000 (Some (zeros 20)) 10 [] 0 0 0) (mkMeta (Some 7) (1000 + i) None QueueOriginSequencer (Some i) None None) None None.
Definition queue_tx (i : Z) : Transaction :=
  mkTx (mkTxdata i 0 21000 (Some (zeros 20)) 0 [] 0 0 0) (mkMeta (Some 7) 900 (Some (zeros 20)) QueueOriginL1ToL2 None (Some i) None) None None.
Definition txs : list Transaction := [canonical_tx 0; canonical_tx 1; canonical_tx 2].
Definition batches : list (list Transaction) := [[canonical_tx 0; canonical_tx 1]; [canonical_tx 2]].
Definition queue : list Transaction := [queue_tx 0; queue_tx 1].

Definition found {A} (o : option A) : result A := match o with Some a => Ok a | None => Err errElementNotFound end.

#[local] Instance indexer : RollupClient () := {
  rc_GetEnqueue i w := (w, found (queue !! Z.to_nat i));
  rc_GetLatestEnqueueIndex w := (w, Ok (Some 1));
  rc_GetRawTransaction _ _ w := (w, Ok (mkTxResponse (Some (mkRemoteTx 0 1 7 1000 None 0 [] None [] "sequencer" None None)) None));
  rc_GetTransaction i _ w := (w, found (txs !! Z.to_nat i));
  rc_GetLatestTransactionIndex _ w := (w, Ok (Some 2));
  rc_GetEthContext _ w := (w, Err errElementNotFound);
  rc_GetLatestEthContext w := (w, Err errElementNotFound);
  rc_GetLastConfirmedEnqueue w := (w, Err errElementNotFound);
  rc_GetLatestTransactionBatchIndex w := (w, Ok (Some 1));
  rc_GetTransactionBatch i w := (w, txs ← found (batches !! Z.to_nat i); Ok (mkBatch i [] 0 0 [] 0 0 [], txs)) }.

#[local] Instance node : Environment () := {
  time_Now w := (w, 2000 * 10 ^ 9);
  mine _ w := (w, None);
  bc_State _ _ := Ok (mkStateDB (λ _, 10 ^ 18) (λ _, 1));
  txpool_ValidateTx _ _ _ := Ok () }.

#[local] Existing Instance example_keccak.
#[local] Existing Instance TxExample.example_curve.

Definition config (v : bool) : Config := mkConfig v BackendL1 (180 * 10 ^ 9) true (EIP155Signer 10) None None true (Some 1).
Definition oracle : RollupOracle := mkOracle 1 1 2100 (mkFloat 64 1 0).
Definition start (d : DB) (c : list Block) : SyncService () := mkService d c (mkOVM 7 1000) oracle (zeros 20) None tt.

Lemma available : state_available.
Proof. intros c w. by eexists. Qed.

Lemma txs_canonical i tx : txs !! i = Some tx → canonical i tx.
Proof. destruct i as [|[|[|i]]]; cbn; intros [= <-]; split; try done; by eexists. Qed.

Lemma verifier_replicates_witness : ∃ s', verify (config true) 1 (start ∅ [[]]) = (s', Ok ()) ∧ replica txs 3 s' ∧
  (BackendL1 = BackendL1 → GetLatestVerifiedIndex s' = Some 2 ∧ GetLatestBatchIndex s' = Some 1).
Proof.
  apply (verifier_replicates (config true) txs available eq_refl ltac:(done) txs_canonical ltac:(vm_compute; done) batches eq_refl ltac:(vm_compute; done) 0 (start ∅ [[]])).
  cbn [backend config]. split.
  - split; [done|]. intros [|[|i]] l w; cbn; intros [= <-]; by eexists.
  - exists 0%nat. split; [lia|]. split; [|done..]. exists 0%nat. split; [|cbn; lia]. split; [by exists []|done].
Defined.

Definition one_block : SyncService () := start (WriteHeadIndex 0 ∅) [[]; [canonical_tx 0]].

Lemma one_block_aligned : aligned one_block.
Proof. split; [done|done|]. intros [|n] b; cbn; [|done]. intros [= <-]. by eexists. Qed.

Lemma service_invariant_witness :
  aligned (perform (λ _, 0) (config false) (EvIngest (canonical_tx 1)) one_block).1 ∧
  chain one_block `prefix_of` chain (perform (λ _, 0) (config false) (EvIngest (canonical_tx 1)) one_block).1.
Proof.
  apply (service_invariant (λ _, 0) (config false)); [exact available|exact one_block_aligned| |vm_compute; done].
  eapply runs_step. apply runs_nil.
Defined.

(** The index is ahead of the chain, and the queue index is wrong. *)
Definition after_crash : SyncService () :=
  start (WriteHeadQueueIndex 5 (WriteHeadIndex 2 ∅))
    [[]; [canonical_tx 0]; [mkTx (data (queue_tx 0)) (mkMeta (Some 7) 900 (Some (zeros 20)) QueueOriginL1ToL2 (Some 1) (Some 0) None) None None]].

Lemma restart_recovers_witness : ∃ s', initializeLatestL1 (config true) after_crash = (s', Ok ()) ∧ aligned s' ∧
  chain s' = chain after_crash ∧ GetLatestEnqueueIndex s' = Some 0 ∧ GetLatestBatchIndex s' = Some 0.
Proof.
  destruct (restart_recovers (config true) 1 (Err errElementNotFound) after_crash) as (s' & E & Ha & Hc & _ & Hq & Hb).
  - split; [done|by right|]. intros [|[|n]] b; cbn; [| |done]; intros [= <-]; by eexists.
  - split; [|by repeat constructor|by intros i w _ _ _; eexists _, _|done|done|done].
    cbn. intros tx [= <-]. by eexists.
  - exists s'. split; [exact E|]. split; [exact Ha|]. split; [exact Hc|]. split; [exact Hq|exact Hb].
Defined.

Lemma queue_synced_witness : ∃ s' l, sequence (config false) 1 one_block = (s', Ok ()) ∧ chain s' = chain one_block ++ ((λ tx, [tx]) <$> l) ∧
  Forall2 same_call queue l ∧ GetLatestEnqueueIndex s' = Some 1.
Proof.
  apply (queue_synced (config false) queue available ltac:(done) ltac:(vm_compute; done) ltac:(intros [|[|i]] tx; cbn; intros [= <-]; by split) 0 0 one_block); [|cbn; lia|done].
  split; [done|]. intros [|[|i]] tx w; cbn; by intros [= <-].
Defined.

Lemma user_transaction_accepted_witness :
  let s' := (ValidateAndApplySequencerTransaction (λ _, 0) (config false) (Some TxExample.signed_transfer) one_block).1 in
  false = false ∧ QueueOrigin (meta TxExample.signed_transfer) = QueueOriginSequencer ∧ pays (λ _, 0) (config false) TxExample.signed_transfer one_block ∧
  txpool_ValidateTx (chain one_block) (Sender (EIP155Signer 10) TxExample.signed_transfer).1 tt = Ok () ∧
  ∃ tx', chain s' = chain one_block ++ [[tx']] ∧ data tx' = data TxExample.signed_transfer ∧ Index (meta tx') = Some (GetNextIndex one_block).
Proof.
  apply (user_transaction_accepted (λ _, 0) (config false) TxExample.signed_transfer one_block); [exact available|reflexivity|vm_compute; reflexivity].
Defined.
End ServiceExample.
