(* ===== verification/AccessList.v ===== *)
(** * The access list of a transaction

    l2geth/core/state/access_list.go: the addresses and storage slots that a transaction has
    touched, as a map from addresses to positions in a list of slot sets.  The journal of
    the state takes additions back in reverse order; taking one back restores the list as
    it was, positions included. *)

From S2P Require Import Prelude GoErrors EthTypes.

Record accessList := mkAccessList { addresses : gmap Address Z; slots : list (gset Hash) }.

Definition newAccessList : accessList := mkAccessList ∅ [].

Definition ContainsAddress (al : accessList) (address : Address) : bool :=
  bool_decide (is_Some (addresses al !! address)).

(** [al.slots[idx]]. *)
Definition slots_at (al : accessList) (idx : Z) : result (gset Hash) :=
  if idx <? 0 then Panic "index out of range"
  else match slots al !! Z.to_nat idx with Some m => Ok m | None => Panic "index out of range" end.

Definition Contains (al : accessList) (address : Address) (slot : Hash) : result (bool * bool) :=
  match addresses al !! address with
  | None => Ok (false, false)
  | Some idx =>
      if idx =? -1 then Ok (true, false)
      else m ← slots_at al idx; Ok (true, bool_decide (slot ∈ m))
  end.

Definition AddAddress (al : accessList) (address : Address) : accessList * bool :=
  match addresses al !! address with
  | Some _ => (al, false)
  | None => (mkAccessList (<[address := -1]> (addresses al)) (slots al), true)
  end.

Definition AddSlot (al : accessList) (address : Address) (slot : Hash) : result (accessList * (bool * bool)) :=
  let fresh (present : bool) :=
    Ok (mkAccessList (<[address := len (slots al)]> (addresses al)) (slots al ++ [{[slot]}]), (negb present, true)) in
  match addresses al !! address with
  | None => fresh false
  | Some idx =>
      if idx =? -1 then fresh true
      else
        slotmap ← slots_at al idx;
        if bool_decide (slot ∈ slotmap) then Ok (al, (false, false))
        else Ok (mkAccessList (addresses al) (<[Z.to_nat idx := {[slot]} ∪ slotmap]> (slots al)), (false, true))
  end.

Definition DeleteSlot (al : accessList) (address : Address) (slot : Hash) : result accessList :=
  match addresses al !! address with
  | None => Panic "reverting slot change, address not present in list"
  | Some idx =>
      slotmap ← slots_at al idx;
      let slotmap := slotmap ∖ {[slot]} in
      if bool_decide (slotmap = ∅)
      then Ok (mkAccessList (<[address := -1]> (addresses al)) (take (Z.to_nat idx) (slots al)))
      else Ok (mkAccessList (addresses al) (<[Z.to_nat idx := slotmap]> (slots al)))
  end.

Definition DeleteAddress (al : accessList) (address : Address) : accessList :=
  mkAccessList (base.delete address (addresses al)) (slots al).

(** ** The list as a set of slots per address *)

(** Positions are in range, no set of slots is empty, no position is shared. *)
Record al_ok (al : accessList) : Prop := {
  al_range a i : addresses al !! a = Some i → i = -1 ∨ 0 <= i < len (slots al);
  al_nonempty m : m ∈ slots al → m ≠ ∅;
  al_owner a b i : addresses al !! a = Some i → addresses al !! b = Some i → i ≠ -1 → a = b }.

(** The slots of an address that is in the list. *)
Definition slots_of (al : accessList) (a : Address) : option (gset Hash) :=
  idx ← addresses al !! a; Some (if idx =? -1 then ∅ else default ∅ (slots al !! Z.to_nat idx)).

Lemma newAccessList_ok : al_ok newAccessList.
Proof. split; cbn; intros *; [by rewrite lookup_empty|by intros ?%not_elem_of_nil|by rewrite lookup_empty]. Qed.

Lemma slots_at_ok al a i : al_ok al → addresses al !! a = Some i → i ≠ -1 →
  ∃ m, slots_at al i = Ok m ∧ slots al !! Z.to_nat i = Some m ∧ m ≠ ∅ ∧ 0 <= i < len (slots al).
Proof.
  intros Hok Ha Hi. destruct (al_range _ Hok _ _ Ha) as [|Hr]; [done|].
  destruct (lookup_lt_is_Some_2 (slots al) (Z.to_nat i)) as [m Hm]; [unfold len in *; lia|].
  exists m. unfold slots_at. rewrite Hm, (proj2 (Z.ltb_ge i 0)) by lia. split_and!; try done; try lia.
  apply (al_nonempty _ Hok). by eapply list_elem_of_lookup_2.
Qed.

Lemma ContainsAddress_spec al a : ContainsAddress al a = bool_decide (is_Some (slots_of al a)).
Proof. unfold ContainsAddress, slots_of. by destruct (addresses al !! a). Qed.

Lemma Contains_spec al a s : al_ok al →
  Contains al a s = Ok (match slots_of al a with None => (false, false) | Some m => (true, bool_decide (s ∈ m)) end).
Proof.
  intros Hok. unfold Contains, slots_of. destruct (addresses al !! a) as [i|] eqn:Ha; [|done]. cbn.
  destruct (Z.eqb_spec i (-1)) as [->|Hi].
  - by rewrite bool_decide_eq_false_2 by set_solver.
  - destruct (slots_at_ok al a i Hok Ha Hi) as (m & -> & -> & _). done.
Qed.

Lemma AddAddress_spec al a : al_ok al →
  al_ok (fst (AddAddress al a)) ∧ snd (AddAddress al a) = bool_decide (slots_of al a = None) ∧
  ∀ b, slots_of (fst (AddAddress al a)) b = if decide (b = a) then Some (default ∅ (slots_of al a)) else slots_of al b.
Proof.
  intros Hok. unfold AddAddress, slots_of. destruct (addresses al !! a) as [i|] eqn:Ha; cbn.
  - split_and!; [done|done|]. intros b. case_decide as E; [subst b; by rewrite Ha|done].
  - split_and!; [|done|].
    + split; cbn; [intros b i|apply Hok|intros b c i].
      * rewrite lookup_insert. case_decide; [intros [= <-]; by left|apply Hok].
      * rewrite !lookup_insert. repeat case_decide; subst; intros; simplify_eq; try done. by eapply al_owner.
    + intros b. case_decide as E; [subst b; by rewrite lookup_insert_eq|by rewrite lookup_insert_ne by done].
Qed.

(** The two ways a slot is added. *)
Lemma AddSlot_new al a s : addresses al !! a = None ∨ addresses al !! a = Some (-1) →
  AddSlot al a s = Ok (mkAccessList (<[a := len (slots al)]> (addresses al)) (slots al ++ [{[s]}]),
                       (bool_decide (addresses al !! a = None), true)).
Proof. intros [E|E]; unfold AddSlot; by rewrite E. Qed.

Lemma AddSlot_old al a s i m : al_ok al → addresses al !! a = Some i → i ≠ -1 → slots al !! Z.to_nat i = Some m →
  AddSlot al a s = Ok (if bool_decide (s ∈ m) then (al, (false, false))
    else (mkAccessList (addresses al) (<[Z.to_nat i := {[s]} ∪ m]> (slots al)), (false, true))).
Proof.
  intros Hok Ha Hi Hm. unfold AddSlot. rewrite Ha, (proj2 (Z.eqb_neq _ _)) by done.
  destruct (slots_at_ok al a i Hok Ha Hi) as (m' & -> & Hm' & _). simplify_eq. cbn. by case_bool_decide.
Qed.

Lemma slot_cases al a : al_ok al →
  (addresses al !! a = None ∨ addresses al !! a = Some (-1)) ∨
  ∃ i m, addresses al !! a = Some i ∧ i ≠ -1 ∧ slots al !! Z.to_nat i = Some m.
Proof.
  intros Hok. destruct (addresses al !! a) as [i|] eqn:Ha; [|by left; left].
  destruct (decide (i = -1)) as [->|Hi]; [by left; right|].
  destruct (slots_at_ok al a i Hok Ha Hi) as (m & _ & Hm & _). right. by exists i, m.
Qed.

Lemma al_ok_new al a s : al_ok al → addresses al !! a = None ∨ addresses al !! a = Some (-1) →
  al_ok (mkAccessList (<[a := len (slots al)]> (addresses al)) (slots al ++ [{[s]}])).
Proof.
  intros Hok Ha. pose proof (len_nonneg (slots al)). split; cbn.
  - intros b i. rewrite len_app, lookup_insert. change (len [_]) with 1. case_decide; [intros [= <-]; right; lia|].
    intros Hb. destruct (al_range _ Hok _ _ Hb); [by left|right; lia].
  - intros m [Hm|Hm]%elem_of_app; [by apply (al_nonempty _ Hok)|]. apply list_elem_of_singleton in Hm as ->; set_solver.
  - assert (Hfresh : ∀ b i, addresses al !! b = Some i → i ≠ -1 → i ≠ len (slots al)).
    { intros b i Hb Hi. destruct (al_range _ Hok _ _ Hb); [done|lia]. }
    intros b c i. rewrite !lookup_insert. repeat case_decide; subst; intros; simplify_eq; try done.
    + by destruct (Hfresh c (len (slots al))).
    + by destruct (Hfresh b (len (slots al))).
    + by eapply al_owner.
Qed.

Lemma al_ok_old al a s i m : al_ok al → addresses al !! a = Some i → slots al !! Z.to_nat i = Some m →
  al_ok (mkAccessList (addresses al) (<[Z.to_nat i := {[s]} ∪ m]> (slots al))).
Proof.
  intros Hok Ha Hm. split; cbn; [|intros m'|apply Hok].
  - intros b j Hb. unfold len. rewrite length_insert. by eapply al_range.
  - intros [j Hj]%list_elem_of_lookup. rewrite list_lookup_insert in Hj. case_decide; [simplify_eq; set_solver|].
    apply (al_nonempty _ Hok). by eapply list_elem_of_lookup_2.
Qed.

(** Adding a slot inserts it in the set of its address; the flags tell what was new. *)
Theorem AddSlot_spec al a s :
  al_ok al → ∃ al' addrMod slotMod, AddSlot al a s = Ok (al', (addrMod, slotMod)) ∧ al_ok al' ∧
  (addrMod = bool_decide (slots_of al a = None)) ∧ (slotMod = bool_decide (s ∉ default ∅ (slots_of al a))) ∧
  ∀ b, slots_of al' b = if decide (b = a) then Some ({[s]} ∪ default ∅ (slots_of al a)) else slots_of al b.
Proof.
  intros Hok. destruct (slot_cases al a Hok) as [Ha|(i & m & Ha & Hi & Hm)].
  - rewrite AddSlot_new by done. eexists _, _, _. split; [done|]. split; [by apply al_ok_new|].
    assert (Hs : default ∅ (slots_of al a) = ∅) by (unfold slots_of; by destruct Ha as [-> | ->]).
    split_and!.
    + apply bool_decide_ext. unfold slots_of. by destruct Ha as [-> | ->].
    + rewrite Hs. symmetry. apply bool_decide_eq_true_2. set_solver.
    + rewrite Hs. intros b. unfold slots_of. cbn. pose proof (len_nonneg (slots al)).
      case_decide as Eb; [subst b; rewrite lookup_insert_eq|rewrite lookup_insert_ne by done].
      * cbn. rewrite (proj2 (Z.eqb_neq _ _)) by lia. unfold len. rewrite Nat2Z.id, lookup_app_r, Nat.sub_diag by lia.
        cbn. f_equal. set_solver.
      * destruct (addresses al !! b) as [j|] eqn:Hb; [|done]. cbn. destruct (Z.eqb_spec j (-1)); [done|].
        destruct (al_range _ Hok _ _ Hb) as [|Hr]; [done|]. rewrite lookup_app_l; [done|unfold len in *; lia].
  - rewrite (AddSlot_old al a s i m) by done.
    assert (Hs : slots_of al a = Some m) by (unfold slots_of; rewrite Ha; cbn; by rewrite (proj2 (Z.eqb_neq _ _)), Hm).
    rewrite Hs. cbn. case_bool_decide as E; eexists _, _, _; (split; [done|]).
    + split_and!; [done|done|by rewrite bool_decide_eq_false_2 by set_solver|].
      intros b. case_decide; [subst b; rewrite Hs; f_equal; set_solver|done].
    + split_and!; [by eapply al_ok_old|done|by rewrite bool_decide_eq_true_2|].
      intros b. unfold slots_of. cbn. case_decide as Eb.
      * subst b. rewrite Ha. cbn. rewrite (proj2 (Z.eqb_neq _ _)), list_lookup_insert, decide_True by eauto using lookup_lt_Some. done.
      * destruct (addresses al !! b) as [j|] eqn:Hb; [|done]. cbn. destruct (Z.eqb_spec j (-1)); [done|].
        rewrite list_lookup_insert_ne; [done|]. intros E'. apply Eb.
        destruct (al_range _ Hok _ _ Hb), (al_range _ Hok _ _ Ha); try done. eapply (al_owner al); [done| |by eauto|done].
        rewrite Hb. f_equal. lia.
Qed.

(** ** Taking additions back *)

Lemma DeleteAddress_undoes al a : addresses al !! a = None →
  DeleteAddress (fst (AddAddress al a)) a = al.
Proof.
  intros Ha. unfold AddAddress, DeleteAddress. rewrite Ha. cbn. rewrite delete_insert_id by done. by destruct al.
Qed.

Lemma DeleteSlot_new al a s : al_ok al → addresses al !! a = Some (-1) →
  DeleteSlot (mkAccessList (<[a := len (slots al)]> (addresses al)) (slots al ++ [{[s]}])) a s = Ok al.
Proof.
  intros Hok Ha. unfold DeleteSlot, slots_at. cbn. rewrite lookup_insert_eq, (proj2 (Z.ltb_ge _ _)) by apply len_nonneg.
  unfold len. rewrite Nat2Z.id, lookup_app_r, Nat.sub_diag by lia. cbn.
  rewrite bool_decide_eq_true_2 by set_solver. rewrite take_app_length, insert_insert_eq, insert_id by done. by destruct al.
Qed.

Lemma DeleteSlot_old al a s i m : al_ok al → addresses al !! a = Some i → i ≠ -1 → slots al !! Z.to_nat i = Some m →
  s ∉ m → DeleteSlot (mkAccessList (addresses al) (<[Z.to_nat i := {[s]} ∪ m]> (slots al))) a s = Ok al.
Proof.
  intros Hok Ha Hi Hm Hs. unfold DeleteSlot, slots_at. cbn. rewrite Ha.
  destruct (al_range _ Hok _ _ Ha) as [|Hr]; [done|]. rewrite (proj2 (Z.ltb_ge _ _)) by lia.
  rewrite list_lookup_insert, decide_True by (split; [done|by eapply lookup_lt_Some]). cbn.
  assert (Em : ({[s]} ∪ m) ∖ {[s]} = m) by set_solver. rewrite Em.
  rewrite bool_decide_eq_false_2 by (apply (al_nonempty _ Hok); by eapply list_elem_of_lookup_2).
  rewrite list_insert_insert_eq, list_insert_id by done. by destruct al.
Qed.
