(* ===== verification/StateDB.v ===== *)
(** * The state of the legacy L2 node

    l2geth/core/state state_object.go, journal.go and statedb.go: accounts loaded lazily from
    the account trie, their storage in layers of caches, the journal of changes with
    snapshots, and the writing of all of it back to the tries.

    The database and its tries are the interface [StateDatabase] (database.go).  A pointer to
    a live [stateObject] is its entry in [stateObjects]: a method that changes an object
    writes it back with [setStateObject]; an object that was replaced lives on only in the
    journal, by value.  The journal's entries are kept newest first.  A loop over a Go map
    visits the keys in the order that [RangeOrder] gives, which may be any. *)

From S2P Require Import Prelude GoErrors EthTypes Extern RLP RLPStream RLPTypes Trie AccessList.

(** ** The database *)

(** The interfaces [Database] and [Trie] of database.go, with what the state uses of the
    node database.  A trie that reads loads nodes, so reading returns it as well. *)
Class StateDatabase (D T : Type) := {
  OpenTrie : D → Hash → result T;
  OpenStorageTrie : D → Hash → Hash → result T;
  CopyTrie : D → T → T;
  ContractCode : D → Hash → Hash → D * result bytes;
  ContractCodeSize : D → Hash → Hash → D * result Z;
  tr_TryGet : D → T → bytes → T * result bytes;
  tr_TryUpdate : D → T → bytes → bytes → T * result ();
  tr_TryDelete : D → T → bytes → T * result ();
  tr_Hash : T → T * result Hash;
  tr_Commit : option (bytes → Hash → D → result D) → D → T → D * T * result Hash;
  db_InsertBlob : Hash → bytes → D → result D;
  db_Reference : Hash → Hash → D → result D }.

(** The order in which a [range] over a map visits its keys. *)
Class RangeOrder := {
  range : gset bytes → list bytes;
  range_perm X : range X ≡ₚ elements X }.

(** [rcfg.UsingOVM]: balances are kept in the storage of the OVM_ETH contract. *)
Class Rcfg := { UsingOVM : bool }.

Definition OvmEthAddress : Address := be_encode 20 0xDeadDeAddeAddEAddeadDEaDDEAdDeaDDeAD0000.
Definition ripemd : Address := be_encode 20 3.

(** [common.BigToHash]: the bytes of the absolute value, cropped from the left. *)
Definition BigToHash (b : Z) : Hash := BytesToHash (big_Bytes (Z.abs b)).
Definition Hash_Big (h : Hash) : Z := be_decode h.

Fixpoint TrimLeftZeroes (s : bytes) : bytes :=
  match s with
  | x00 :: s => TrimLeftZeroes s
  | _ => s
  end.

(** [sort.Search]: the binary search for the smallest index where a predicate holds. *)
Fixpoint sort_Search_loop (fuel i j : nat) (f : nat → bool) : nat :=
  match fuel with
  | O => i
  | S fuel =>
      if (i <? j)%nat then
        let h := ((i + j) / 2)%nat in
        if f h then sort_Search_loop fuel i h f else sort_Search_loop fuel (S h) j f
      else i
  end.
Definition sort_Search (n : nat) (f : nat → bool) : nat := sort_Search_loop (S n) 0 n f.

Definition modify {St} (f : St → St) : M St () := λ s, (f s, Ok ()).
Definition gets {St A} (f : St → A) : M St A := λ s, (s, Ok (f s)).

(** ** Accounts *)

Record Account := mkAccount { acc_Nonce : Z; acc_Balance : Z; acc_Root : Hash; acc_CodeHash : bytes }.

(** The Go struct behind [Account]. *)
Definition account_type : gotype :=
  TStruct [(no_tags, TUint 64); (no_tags, TBigInt); (no_tags, TByteArray 32); (no_tags, TBytes)].

Definition encodeAccount (a : Account) : result bytes :=
  EncodeValue account_type
    (VList [VUint (acc_Nonce a); VBig (Some (acc_Balance a)); VStr (acc_Root a); VStr (acc_CodeHash a)]).

(** The decoder returns a value of the type or an error. *)
Definition decodeAccount (enc : bytes) : result Account :=
  match DecodeValue account_type enc with
  | Ok (VList [VUint n; VBig (Some b); VStr r; VStr c]) => Ok (mkAccount n b r c)
  | Err e => Err e
  | _ => Err (ErrorNew "does not happen")
  end.

Notation Storage := (gmap Hash Hash).

Record stateObject {T : Type} := mkObject {
  address : Address;
  data : Account;
  so_dbErr : option error;
  so_trie : option T;                (* nil before the first access *)
  code : option bytes;               (* nil before it is loaded *)
  originStorage : Storage;
  pendingStorage : Storage;
  dirtyStorage : Storage;
  fakeStorage : option Storage;
  dirtyCode : bool;
  suicided : bool;
  deleted : bool }.
Arguments stateObject : clear implicits.

Section Objects.
Context `{!Keccak} {D T : Type} `{!StateDatabase D T} `{!RangeOrder}.
Notation stateObject := (stateObject T).
Implicit Types o : stateObject.

Definition emptyCodeHash : Hash := Keccak256 [].
Definition addrHash o : Hash := Keccak256 (address o).

Definition with_data o (x : Account) : stateObject :=
  mkObject T (address o) x (so_dbErr o) (so_trie o) (code o) (originStorage o) (pendingStorage o) (dirtyStorage o)
    (fakeStorage o) (dirtyCode o) (suicided o) (deleted o).
Definition with_storages o (origin pending dirty : Storage) : stateObject :=
  mkObject T (address o) (data o) (so_dbErr o) (so_trie o) (code o) origin pending dirty
    (fakeStorage o) (dirtyCode o) (suicided o) (deleted o).
Definition with_so_trie o (t : T) : stateObject :=
  mkObject T (address o) (data o) (so_dbErr o) (Some t) (code o) (originStorage o) (pendingStorage o) (dirtyStorage o)
    (fakeStorage o) (dirtyCode o) (suicided o) (deleted o).
Definition with_code o (c : option bytes) (dirty : bool) : stateObject :=
  mkObject T (address o) (data o) (so_dbErr o) (so_trie o) c (originStorage o) (pendingStorage o) (dirtyStorage o)
    (fakeStorage o) dirty (suicided o) (deleted o).
Definition with_fake o (f : option Storage) : stateObject :=
  mkObject T (address o) (data o) (so_dbErr o) (so_trie o) (code o) (originStorage o) (pendingStorage o) (dirtyStorage o)
    f (dirtyCode o) (suicided o) (deleted o).
Definition with_flags o (sui del : bool) : stateObject :=
  mkObject T (address o) (data o) (so_dbErr o) (so_trie o) (code o) (originStorage o) (pendingStorage o) (dirtyStorage o)
    (fakeStorage o) (dirtyCode o) sui del.

(** The first error is remembered. *)
Definition so_setError (err : option error) o : stateObject :=
  mkObject T (address o) (data o) (match so_dbErr o with None => err | e => e end) (so_trie o) (code o)
    (originStorage o) (pendingStorage o) (dirtyStorage o) (fakeStorage o) (dirtyCode o) (suicided o) (deleted o).

Definition empty o : bool :=
  (acc_Nonce (data o) =? 0) && (acc_Balance (data o) =? 0) && bool_decide (acc_CodeHash (data o) = emptyCodeHash).

(** [None] is [Account{}], the only value with nil fields: the decoder sets all of them. *)
Definition newObject (addr : Address) (d : option Account) : stateObject :=
  let d := match d with
    | None => mkAccount 0 0 emptyRoot emptyCodeHash
    | Some a => mkAccount (acc_Nonce a) (acc_Balance a)
                  (if bool_decide (acc_Root a = zero_hash) then emptyRoot else acc_Root a) (acc_CodeHash a)
    end in
  mkObject T addr d None None None ∅ ∅ ∅ None false false false.

Definition setBalance (amount : Z) o : stateObject :=
  with_data o (mkAccount (acc_Nonce (data o)) amount (acc_Root (data o)) (acc_CodeHash (data o))).
Definition setNonce (nonce : Z) o : stateObject :=
  with_data o (mkAccount nonce (acc_Balance (data o)) (acc_Root (data o)) (acc_CodeHash (data o))).
Definition setRoot (root : Hash) o : stateObject :=
  with_data o (mkAccount (acc_Nonce (data o)) (acc_Balance (data o)) root (acc_CodeHash (data o))).
Definition setCode (codeHash : Hash) (c : option bytes) o : stateObject :=
  with_code (with_data o (mkAccount (acc_Nonce (data o)) (acc_Balance (data o)) (acc_Root (data o)) codeHash)) c true.
Definition setState (key value : Hash) o : stateObject :=
  with_storages o (originStorage o) (pendingStorage o) (<[key := value]> (dirtyStorage o)).
Definition markSuicided o : stateObject := with_flags o true (deleted o).

(** The storage trie is opened on first use; when that fails an empty one takes its place. *)
Definition getTrie (d : D) : M stateObject T := λ o,
  match so_trie o with
  | Some t => (o, Ok t)
  | None =>
      match OpenStorageTrie d (addrHash o) (acc_Root (data o)) with
      | Ok t => (with_so_trie o t, Ok t)
      | Panic p => (o, Panic p)
      | Err err =>
          match OpenStorageTrie d (addrHash o) zero_hash with
          | Ok t => (so_setError (Some (Errorf "can't create storage trie" err)) (with_so_trie o t), Ok t)
          | Err _ => (o, Panic "nil pointer dereference")
          | Panic p => (o, Panic p)
          end
      end
  end.

(** The value that a storage trie holds under a key: what [rlp.Split] finds, as a hash. *)
Definition storage_value (enc : bytes) : Hash * option error :=
  match enc with
  | [] => (zero_hash, None)
  | _ => match Split enc with
         | Ok (_, content, _) => (BytesToHash content, None)
         | Err e => (zero_hash, Some e)
         | Panic _ => (zero_hash, None)   (* does not happen *)
         end
  end.

(** Loading from the trie, the end of [GetCommittedState]. *)
Definition loadSlot (d : D) (key : Hash) (tr : T) : M stateObject Hash := λ o,
  let '(tr, r) := tr_TryGet d tr key in
  let o := with_so_trie o tr in
  match r with
  | Panic p => (o, Panic p)
  | Err err => (so_setError (Some err) o, Ok zero_hash)
  | Ok enc =>
      let '(value, err) := storage_value enc in
      let o := so_setError err o in
      (with_storages o (<[key := value]> (originStorage o)) (pendingStorage o) (dirtyStorage o), Ok value)
  end.

Definition so_GetCommittedState (d : D) (key : Hash) : M stateObject Hash := λ o,
  match fakeStorage o with
  | Some f => (o, Ok (default zero_hash (f !! key)))
  | None =>
  match pendingStorage o !! key with
  | Some value => (o, Ok value)
  | None =>
  match originStorage o !! key with
  | Some value => (o, Ok value)
  | None => (getTrie d ≫= loadSlot d key) o
  end end end.

Definition so_GetState (d : D) (key : Hash) : M stateObject Hash := λ o,
  match fakeStorage o with
  | Some f => (o, Ok (default zero_hash (f !! key)))
  | None =>
  match dirtyStorage o !! key with
  | Some value => (o, Ok value)
  | None => so_GetCommittedState d key o
  end end.

Definition so_SetStorage (storage : Storage) o : stateObject :=
  with_fake o (Some (storage ∪ default ∅ (fakeStorage o))).

Definition finalise o : stateObject := with_storages o (originStorage o) (dirtyStorage o ∪ pendingStorage o) ∅.

(** One round of the loop of [updateTrie]. *)
Definition updateSlot (d : D) (key : Hash) : M stateObject () := λ o,
  let value := default zero_hash (pendingStorage o !! key) in
  if bool_decide (value = default zero_hash (originStorage o !! key)) then (o, Ok ())
  else
    let o := with_storages o (<[key := value]> (originStorage o)) (pendingStorage o) (dirtyStorage o) in
    match so_trie o with
    | None => (o, Panic "nil pointer dereference")
    | Some tr =>
        let '(tr, r) :=
          if bool_decide (value = zero_hash) then tr_TryDelete d tr key
          else tr_TryUpdate d tr key (EncodeToBytes (Str (TrimLeftZeroes value))) in
        let o := with_so_trie o tr in
        match r with
        | Ok _ => (o, Ok ())
        | Err err => (so_setError (Some err) o, Ok ())
        | Panic p => (o, Panic p)
        end
    end.

Fixpoint for_keys {St} (body : bytes → M St ()) (keys : list bytes) : M St () :=
  match keys with
  | [] => mret ()
  | k :: keys => body k;; for_keys body keys
  end.

Definition updateTrie (d : D) : M stateObject () :=
  modify finalise;;
  getTrie d;;
  pending ← gets pendingStorage;
  for_keys (updateSlot d) (range (dom pending));;
  modify (λ o, with_storages o (originStorage o) ∅ (dirtyStorage o)).

Definition hashRoot : M stateObject () := λ o,
  match so_trie o with
  | None => (o, Panic "nil pointer dereference")
  | Some tr =>
      let '(tr, r) := tr_Hash tr in
      match r with
      | Ok root => (setRoot root (with_so_trie o tr), Ok ())
      | Err e => (o, Panic "hash failed")
      | Panic p => (o, Panic p)
      end
  end.

Definition updateRoot (d : D) : M stateObject () := updateTrie d;; hashRoot.

(** The new database is returned with the error. *)
Definition CommitTrie (d : D) (o : stateObject) : stateObject * D * result () :=
  let '(o, r) := updateTrie d o in
  match r with
  | Err e => (o, d, Err e)
  | Panic p => (o, d, Panic p)
  | Ok _ =>
      match so_dbErr o, so_trie o with
      | Some e, _ => (o, d, Err e)
      | None, None => (o, d, Panic "nil pointer dereference")
      | None, Some tr =>
          let '(d, tr, r) := tr_Commit None d tr in
          let o := with_so_trie o tr in
          match r with
          | Ok root => (setRoot root o, d, Ok ())
          | Err e => (o, d, Err e)
          | Panic p => (o, d, Panic p)
          end
      end
  end.

(** The copy has no fake storage and no error. *)
Definition deepCopy (d : D) o : stateObject :=
  let n := newObject (address o) (Some (data o)) in
  mkObject T (address o) (data n) None (CopyTrie d <$> so_trie o) (code o) (originStorage o) (pendingStorage o) (dirtyStorage o)
    None (dirtyCode o) (suicided o) (deleted o).
End Objects.

(** ** The journal *)

Inductive journalEntry {T : Type} :=
| createObjectChange (account : Address)
| resetObjectChange (prev : stateObject T)
| suicideChange (account : Address) (prev : bool) (prevbalance : Z)
| balanceChange (account : Address) (prev : Z)
| nonceChange (account : Address) (prev : Z)
| storageChange (account : Address) (key prevalue : Hash)
| codeChange (account : Address) (prevcode : option bytes) (prevhash : bytes)
| refundChange (prev : Z)
| addLogChange (txhash : Hash)
| addPreimageChange (hash : Hash)
| touchChange (account : Address)
| accessListAddAccountChange (addr : Address)
| accessListAddSlotChange (addr : Address) (slot : Hash).
Arguments journalEntry : clear implicits.

Definition dirtied {T} (e : journalEntry T) : option Address :=
  match e with
  | createObjectChange a | suicideChange a _ _ | balanceChange a _ | nonceChange a _ | storageChange a _ _
  | codeChange a _ _ | touchChange a => Some a
  | _ => None
  end.

Record journal {T : Type} := mkJournal { entries : list (journalEntry T); dirties : gmap Address Z }.
Arguments journal : clear implicits.

Definition newJournal {T} : journal T := mkJournal T [] ∅.

Definition journal_dirty {T} (addr : Address) (j : journal T) : journal T :=
  mkJournal T (entries j) (<[addr := default 0 (dirties j !! addr) + 1]> (dirties j)).
Definition journal_append {T} (e : journalEntry T) (j : journal T) : journal T :=
  let j := mkJournal T (e :: entries j) (dirties j) in
  match dirtied e with Some addr => journal_dirty addr j | None => j end.

(** The end of a round of [journal.revert]. *)
Definition journal_undirty {T} (e : journalEntry T) (j : journal T) : journal T :=
  match dirtied e with
  | None => j
  | Some addr =>
      let n := default 0 (dirties j !! addr) - 1 in
      mkJournal T (entries j) (if n =? 0 then base.delete addr (dirties j) else <[addr := n]> (dirties j))
  end.

(** ** The state *)

Record revision := mkRevision { rev_id : nat; rev_journalIndex : nat }.

Record StateDB {D T : Type} := mkStateDB {
  st_db : D;
  st_trie : T;
  stateObjects : gmap Address (stateObject T);
  stateObjectsPending : gset Address;
  stateObjectsDirty : gset Address;
  st_dbErr : option error;
  refund : Z;
  thash : Hash; bhash : Hash; txIndex : Z;
  logs : gmap Hash (list Log);
  logSize : Z;
  preimages : gmap Hash bytes;
  st_accessList : accessList;
  st_journal : journal T;
  validRevisions : list revision;
  nextRevisionId : nat }.
Arguments StateDB : clear implicits.

Section State.
Context `{!Keccak} {D T : Type} `{!StateDatabase D T} `{!RangeOrder} `{!Rcfg}.
Notation stateObject := (stateObject T).
Notation StateDB := (StateDB D T).
Implicit Types (o : stateObject) (s : StateDB).

Definition with_db s (d : D) : StateDB :=
  mkStateDB D T d (st_trie s) (stateObjects s) (stateObjectsPending s) (stateObjectsDirty s) (st_dbErr s) (refund s)
    (thash s) (bhash s) (txIndex s) (logs s) (logSize s) (preimages s) (st_accessList s) (st_journal s)
    (validRevisions s) (nextRevisionId s).
Definition with_trie s (t : T) : StateDB :=
  mkStateDB D T (st_db s) t (stateObjects s) (stateObjectsPending s) (stateObjectsDirty s) (st_dbErr s) (refund s)
    (thash s) (bhash s) (txIndex s) (logs s) (logSize s) (preimages s) (st_accessList s) (st_journal s)
    (validRevisions s) (nextRevisionId s).
Definition with_objects s (m : gmap Address stateObject) : StateDB :=
  mkStateDB D T (st_db s) (st_trie s) m (stateObjectsPending s) (stateObjectsDirty s) (st_dbErr s) (refund s)
    (thash s) (bhash s) (txIndex s) (logs s) (logSize s) (preimages s) (st_accessList s) (st_journal s)
    (validRevisions s) (nextRevisionId s).
Definition with_sets s (pending dirty : gset Address) : StateDB :=
  mkStateDB D T (st_db s) (st_trie s) (stateObjects s) pending dirty (st_dbErr s) (refund s)
    (thash s) (bhash s) (txIndex s) (logs s) (logSize s) (preimages s) (st_accessList s) (st_journal s)
    (validRevisions s) (nextRevisionId s).
Definition with_refund s (r : Z) : StateDB :=
  mkStateDB D T (st_db s) (st_trie s) (stateObjects s) (stateObjectsPending s) (stateObjectsDirty s) (st_dbErr s) r
    (thash s) (bhash s) (txIndex s) (logs s) (logSize s) (preimages s) (st_accessList s) (st_journal s)
    (validRevisions s) (nextRevisionId s).
Definition with_logs s (l : gmap Hash (list Log)) (n : Z) : StateDB :=
  mkStateDB D T (st_db s) (st_trie s) (stateObjects s) (stateObjectsPending s) (stateObjectsDirty s) (st_dbErr s) (refund s)
    (thash s) (bhash s) (txIndex s) l n (preimages s) (st_accessList s) (st_journal s)
    (validRevisions s) (nextRevisionId s).
Definition with_preimages s (p : gmap Hash bytes) : StateDB :=
  mkStateDB D T (st_db s) (st_trie s) (stateObjects s) (stateObjectsPending s) (stateObjectsDirty s) (st_dbErr s) (refund s)
    (thash s) (bhash s) (txIndex s) (logs s) (logSize s) p (st_accessList s) (st_journal s)
    (validRevisions s) (nextRevisionId s).
Definition with_accessList s (al : accessList) : StateDB :=
  mkStateDB D T (st_db s) (st_trie s) (stateObjects s) (stateObjectsPending s) (stateObjectsDirty s) (st_dbErr s) (refund s)
    (thash s) (bhash s) (txIndex s) (logs s) (logSize s) (preimages s) al (st_journal s)
    (validRevisions s) (nextRevisionId s).
Definition with_journal s (j : journal T) : StateDB :=
  mkStateDB D T (st_db s) (st_trie s) (stateObjects s) (stateObjectsPending s) (stateObjectsDirty s) (st_dbErr s) (refund s)
    (thash s) (bhash s) (txIndex s) (logs s) (logSize s) (preimages s) (st_accessList s) j
    (validRevisions s) (nextRevisionId s).
Definition with_revisions s (l : list revision) (next : nat) : StateDB :=
  mkStateDB D T (st_db s) (st_trie s) (stateObjects s) (stateObjectsPending s) (stateObjectsDirty s) (st_dbErr s) (refund s)
    (thash s) (bhash s) (txIndex s) (logs s) (logSize s) (preimages s) (st_accessList s) (st_journal s) l next.

(** The first error is remembered. *)
Definition setError (err : option error) s : StateDB :=
  mkStateDB D T (st_db s) (st_trie s) (stateObjects s) (stateObjectsPending s) (stateObjectsDirty s)
    (match st_dbErr s with None => err | e => e end) (refund s)
    (thash s) (bhash s) (txIndex s) (logs s) (logSize s) (preimages s) (st_accessList s) (st_journal s)
    (validRevisions s) (nextRevisionId s).

Definition New (root : Hash) (d : D) : result StateDB :=
  tr ← OpenTrie d root;
  Ok (mkStateDB D T d tr ∅ ∅ ∅ None 0 zero_hash zero_hash 0 ∅ 0 ∅ newAccessList newJournal [] 0).

Definition append (e : journalEntry T) : M StateDB () := modify (λ s, with_journal s (journal_append e (st_journal s))).

(** *** Objects *)

Definition setStateObject o : M StateDB () := modify (λ s, with_objects s (<[address o := o]> (stateObjects s))).

(** A method of an object that reads from the database. *)
Definition on_object {A} o (m : D → M stateObject A) : M StateDB (stateObject * A) := λ s,
  let '(o, r) := m (st_db s) o in
  (with_objects s (<[address o := o]> (stateObjects s)), x ← r; Ok (o, x)).

Definition getDeletedStateObject (addr : Address) : M StateDB (option stateObject) := λ s,
  match stateObjects s !! addr with
  | Some obj => (s, Ok (Some obj))
  | None =>
      let '(tr, r) := tr_TryGet (st_db s) (st_trie s) addr in
      let s := with_trie s tr in
      match r with
      | Panic p => (s, Panic p)
      | Err err => (setError (Some err) s, Ok None)
      | Ok [] => (s, Ok None)
      | Ok enc =>
          match decodeAccount enc with
          | Panic p => (s, Panic p)
          | Err _ => (s, Ok None)
          | Ok d =>
              let obj := newObject addr (Some d) in
              (with_objects s (<[address obj := obj]> (stateObjects s)), Ok (Some obj))
          end
      end
  end.

Definition getStateObject (addr : Address) : M StateDB (option stateObject) :=
  obj ← getDeletedStateObject addr;
  mret (match obj with Some o => if deleted o then None else Some o | None => None end).

Definition createObject (addr : Address) : M StateDB (stateObject * option stateObject) :=
  prev ← getDeletedStateObject addr;
  let newobj := setNonce 0 (newObject addr None) in
  append (match prev with None => createObjectChange addr | Some p => resetObjectChange p end);;
  setStateObject newobj;;
  mret (newobj, prev).

Definition GetOrNewStateObject (addr : Address) : M StateDB stateObject :=
  obj ← getStateObject addr;
  match obj with
  | Some o => mret o
  | None => '(o, _) ← createObject addr; mret o
  end.

Definition CreateAccount (addr : Address) : M StateDB () :=
  '(newObj, prev) ← createObject addr;
  match prev with
  | Some p => setStateObject (setBalance (acc_Balance (data p)) newObj)
  | None => mret ()
  end.

(** *** Methods of objects that write to the journal *)

Definition touch o : M StateDB () :=
  append (touchChange (address o));;
  if bool_decide (address o = ripemd)
  then modify (λ s, with_journal s (journal_dirty (address o) (st_journal s)))
  else mret ().

Definition so_SetBalance o (amount : Z) : M StateDB () :=
  append (balanceChange (address o) (acc_Balance (data o)));;
  setStateObject (setBalance amount o).

Definition so_AddBalance o (amount : Z) : M StateDB () :=
  if amount =? 0 then (if empty o then touch o else mret ())
  else so_SetBalance o (acc_Balance (data o) + amount).

Definition so_SubBalance o (amount : Z) : M StateDB () :=
  if amount =? 0 then mret () else so_SetBalance o (acc_Balance (data o) - amount).

Definition so_SetNonce o (nonce : Z) : M StateDB () :=
  append (nonceChange (address o) (acc_Nonce (data o)));;
  setStateObject (setNonce nonce o).

(** The code, loaded from the database when it is not known yet. *)
Definition so_Code o : M StateDB (stateObject * option bytes) := λ s,
  match code o with
  | Some c => (s, Ok (o, Some c))
  | None =>
      if bool_decide (acc_CodeHash (data o) = emptyCodeHash) then (s, Ok (o, None))
      else
        let '(d, r) := ContractCode (st_db s) (addrHash o) (BytesToHash (acc_CodeHash (data o))) in
        let put o (c : option bytes) :=
          (with_objects (with_db s d) (<[address o := o]> (stateObjects s)), Ok (o, c)) in
        match r with
        | Ok c => put (with_code o (Some c) (dirtyCode o)) (Some c)
        | Err err => put (so_setError (Some (Errorf "can't load code hash" err)) o) None
        | Panic p => (with_db s d, Panic p)
        end
  end.

Definition so_SetCode o (codeHash : Hash) (c : option bytes) : M StateDB () :=
  '(o, prevcode) ← so_Code o;
  append (codeChange (address o) prevcode (acc_CodeHash (data o)));;
  setStateObject (setCode codeHash c o).

Definition so_SetState o (key value : Hash) : M StateDB () :=
  match fakeStorage o with
  | Some f => setStateObject (with_fake o (Some (<[key := value]> f)))
  | None =>
      '(o, prev) ← on_object o (λ d, so_GetState d key);
      if bool_decide (prev = value) then mret ()
      else
        append (storageChange (address o) key prev);;
        setStateObject (setState key value o)
  end.

(** *** Reading *)

Definition Exist (addr : Address) : M StateDB bool :=
  o ← getStateObject addr; mret (bool_decide (is_Some o)).

Definition Empty (addr : Address) : M StateDB bool :=
  o ← getStateObject addr; mret (match o with None => true | Some o => empty o end).

Definition GetNonce (addr : Address) : M StateDB Z :=
  o ← getStateObject addr; mret (match o with None => 0 | Some o => acc_Nonce (data o) end).

Definition GetCode (addr : Address) : M StateDB (option bytes) :=
  o ← getStateObject addr;
  match o with
  | None => mret None
  | Some o => '(_, c) ← so_Code o; mret c
  end.

(** The size alone, the end of [GetCodeSize]. *)
Definition so_CodeSize o : M StateDB Z := λ s,
  match code o with
  | Some c => (s, Ok (len c))
  | None =>
      let '(d, r) := ContractCodeSize (st_db s) (addrHash o) (BytesToHash (acc_CodeHash (data o))) in
      let s := with_db s d in
      match r with
      | Ok size => (s, Ok size)
      | Err err => (setError (Some err) s, Ok 0)
      | Panic p => (s, Panic p)
      end
  end.
Definition GetCodeSize (addr : Address) : M StateDB Z :=
  o ← getStateObject addr;
  match o with None => mret 0 | Some o => so_CodeSize o end.

Definition GetCodeHash (addr : Address) : M StateDB Hash :=
  o ← getStateObject addr;
  mret (match o with None => zero_hash | Some o => BytesToHash (acc_CodeHash (data o)) end).

Definition GetState (addr : Address) (key : Hash) : M StateDB Hash :=
  o ← getStateObject addr;
  match o with
  | None => mret zero_hash
  | Some o => '(_, v) ← on_object o (λ d, so_GetState d key); mret v
  end.

Definition GetCommittedState (addr : Address) (key : Hash) : M StateDB Hash :=
  o ← getStateObject addr;
  match o with
  | None => mret zero_hash
  | Some o => '(_, v) ← on_object o (λ d, so_GetCommittedState d key); mret v
  end.

Definition HasSuicided (addr : Address) : M StateDB bool :=
  o ← getStateObject addr; mret (match o with None => false | Some o => suicided o end).

Definition GetOVMBalanceKey (addr : Address) : Hash := Keccak256 (zeros (32 - length addr) ++ addr ++ zeros 32).

Definition GetBalance (addr : Address) : M StateDB Z :=
  if UsingOVM then v ← GetState OvmEthAddress (GetOVMBalanceKey addr); mret (Hash_Big v)
  else o ← getStateObject addr; mret (match o with None => 0 | Some o => acc_Balance (data o) end).

Definition GetRefund : M StateDB Z := gets refund.
Definition GetLogs (hash : Hash) : M StateDB (list Log) := gets (λ s, default [] (logs s !! hash)).
Definition Logs s : list Log := concat ((λ h, default [] (logs s !! h)) <$> range (dom (logs s))).
Definition AddressInAccessList (addr : Address) : M StateDB bool := gets (λ s, ContainsAddress (st_accessList s) addr).
Definition SlotInAccessList (addr : Address) (slot : Hash) : M StateDB (bool * bool) := λ s,
  (s, Contains (st_accessList s) addr slot).

(** *** Writing *)

Definition SetState (addr : Address) (key value : Hash) : M StateDB () :=
  o ← GetOrNewStateObject addr; so_SetState o key value.

Definition AddBalance (addr : Address) (amount : Z) : M StateDB () :=
  if UsingOVM then
    let key := GetOVMBalanceKey addr in
    value ← GetState OvmEthAddress key;
    SetState OvmEthAddress key (BigToHash (Hash_Big value + amount))
  else o ← GetOrNewStateObject addr; so_AddBalance o amount.

Definition SubBalance (addr : Address) (amount : Z) : M StateDB () :=
  if UsingOVM then
    let key := GetOVMBalanceKey addr in
    value ← GetState OvmEthAddress key;
    SetState OvmEthAddress key (BigToHash (Hash_Big value - amount))
  else o ← GetOrNewStateObject addr; so_SubBalance o amount.

Definition SetBalance (addr : Address) (amount : Z) : M StateDB () :=
  if UsingOVM then SetState OvmEthAddress (GetOVMBalanceKey addr) (BigToHash amount)
  else o ← GetOrNewStateObject addr; so_SetBalance o amount.

Definition SetNonce (addr : Address) (nonce : Z) : M StateDB () :=
  o ← GetOrNewStateObject addr; so_SetNonce o nonce.

Definition SetCode (addr : Address) (c : option bytes) : M StateDB () :=
  o ← GetOrNewStateObject addr; so_SetCode o (Keccak256 (default [] c)) c.

Definition SetStorage (addr : Address) (storage : Storage) : M StateDB () :=
  o ← GetOrNewStateObject addr; setStateObject (so_SetStorage storage o).

Definition Suicide (addr : Address) : M StateDB bool :=
  o ← getStateObject addr;
  match o with
  | None => mret false
  | Some o =>
      append (suicideChange addr (suicided o) (acc_Balance (data o)));;
      setStateObject (setBalance 0 (markSuicided o));;
      mret true
  end.

Definition AddRefund (gas : Z) : M StateDB () :=
  r ← gets refund; append (refundChange r);; modify (λ s, with_refund s (r ⊞ gas)).

Definition SubRefund (gas : Z) : M StateDB () :=
  r ← gets refund; append (refundChange r);;
  if r <? gas then panic "Refund counter below zero" else modify (λ s, with_refund s (r ⊟ gas)).

Definition AddLog (l : Log) : M StateDB () := λ s,
  let s := with_journal s (journal_append (addLogChange (thash s)) (st_journal s)) in
  let l := mkLog (log_Address l) (log_Topics l) (log_Data l) (log_BlockNumber l) (thash s) (u64 (txIndex s)) (bhash s)
             (logSize s) (log_Removed l) in
  (with_logs s (<[thash s := default [] (logs s !! thash s) ++ [l]]> (logs s)) (logSize s ⊞ 1), Ok ()).

Definition AddPreimage (hash : Hash) (preimage : bytes) : M StateDB () :=
  p ← gets preimages;
  match p !! hash with
  | Some _ => mret ()
  | None => append (addPreimageChange hash);; modify (λ s, with_preimages s (<[hash := preimage]> (preimages s)))
  end.

Definition AddAddressToAccessList (addr : Address) : M StateDB () :=
  al ← gets st_accessList;
  let '(al, added) := AddAddress al addr in
  modify (λ s, with_accessList s al);;
  if added : bool then append (accessListAddAccountChange addr) else mret ().

Definition AddSlotToAccessList (addr : Address) (slot : Hash) : M StateDB () :=
  al ← gets st_accessList;
  '(al, (addrMod, slotMod)) ← lift (AddSlot al addr slot);
  modify (λ s, with_accessList s al);;
  (if addrMod : bool then append (accessListAddAccountChange addr) else mret ());;
  (if slotMod : bool then append (accessListAddSlotChange addr slot) else mret ()).

Definition PrepareAccessList (sender : Address) (dst : option Address) (precompiles : list Address)
    (list : list (Address * list Hash)) : M StateDB () :=
  AddAddressToAccessList sender;;
  (match dst with Some a => AddAddressToAccessList a | None => mret () end);;
  for_keys AddAddressToAccessList precompiles;;
  foldr (λ el k, AddAddressToAccessList el.1;; for_keys (AddSlotToAccessList el.1) el.2;; k) (mret ()) list.

(** Set before every transaction. *)
Definition Prepare (th bh : Hash) (ti : Z) : M StateDB () := modify (λ s,
  mkStateDB D T (st_db s) (st_trie s) (stateObjects s) (stateObjectsPending s) (stateObjectsDirty s) (st_dbErr s) (refund s)
    th bh ti (logs s) (logSize s) (preimages s) newAccessList (st_journal s) (validRevisions s) (nextRevisionId s)).

(** *** Reverting *)

Definition nil_deref {A} : M StateDB A := panic "nil pointer dereference".

(** What an entry does to an account that must exist. *)
Definition revert_object (addr : Address) (f : stateObject → stateObject) : M StateDB () :=
  o ← getStateObject addr;
  match o with Some o => setStateObject (f o) | None => nil_deref end.

Definition revert_entry (e : journalEntry T) : M StateDB () :=
  match e with
  | createObjectChange a => modify (λ s,
      with_sets (with_objects s (base.delete a (stateObjects s))) (stateObjectsPending s) (stateObjectsDirty s ∖ {[a]}))
  | resetObjectChange prev => setStateObject prev
  | suicideChange a prev prevbalance =>
      o ← getStateObject a;
      match o with
      | Some o => setStateObject (setBalance prevbalance (with_flags o prev (deleted o)))
      | None => mret ()
      end
  | balanceChange a prev => revert_object a (setBalance prev)
  | nonceChange a prev => revert_object a (setNonce prev)
  | storageChange a key prevalue => revert_object a (setState key prevalue)
  | codeChange a prevcode prevhash => revert_object a (setCode (BytesToHash prevhash) prevcode)
  | refundChange prev => modify (λ s, with_refund s prev)
  | addLogChange txhash => modify (λ s,
      let l := default [] (logs s !! txhash) in
      with_logs s (if (length l =? 1)%nat then base.delete txhash (logs s)
                   else <[txhash := take (length l - 1) l]> (logs s)) (logSize s ⊟ 1))
  | addPreimageChange hash => modify (λ s, with_preimages s (base.delete hash (preimages s)))
  | touchChange _ => mret ()
  | accessListAddAccountChange a => modify (λ s, with_accessList s (DeleteAddress (st_accessList s) a))
  | accessListAddSlotChange a slot =>
      al ← gets st_accessList; al ← lift (DeleteSlot al a slot); modify (λ s, with_accessList s al)
  end.

(** The loop of [journal.revert] over the newest entries. *)
Fixpoint revert_entries (es : list (journalEntry T)) : M StateDB () :=
  match es with
  | [] => mret ()
  | e :: es =>
      revert_entry e;;
      modify (λ s, with_journal s (journal_undirty e (st_journal s)));;
      revert_entries es
  end.

Definition journal_revert (snapshot : nat) : M StateDB () :=
  es ← gets (λ s, entries (st_journal s));
  if (length es <? snapshot)%nat then panic "slice bounds out of range" else
  revert_entries (take (length es - snapshot) es);;
  modify (λ s, with_journal s (mkJournal T (drop (length es - snapshot) (entries (st_journal s))) (dirties (st_journal s)))).

Definition Snapshot : M StateDB nat := λ s,
  let id := nextRevisionId s in
  (with_revisions s (validRevisions s ++ [mkRevision id (length (entries (st_journal s)))]) (S id), Ok id).

Definition RevertToSnapshot (revid : nat) : M StateDB () :=
  revs ← gets validRevisions;
  let idx := sort_Search (length revs) (λ i, default false ((λ r, (revid <=? rev_id r)%nat) <$> (revs !! i))) in
  match revs !! idx with
  | Some r =>
      if (rev_id r =? revid)%nat then
        journal_revert (rev_journalIndex r);;
        modify (λ s, with_revisions s (take idx (validRevisions s)) (nextRevisionId s))
      else panic "revision id cannot be reverted"
  | None => panic "revision id cannot be reverted"
  end.

(** *** Finalising and writing to the tries *)

Definition clearJournalAndRefund s : StateDB :=
  let s := match entries (st_journal s) with [] => s | _ => with_refund (with_journal s newJournal) 0 end in
  with_revisions s [] (nextRevisionId s).

Definition finaliseObject (deleteEmptyObjects : bool) (addr : Address) s : StateDB :=
  match stateObjects s !! addr with
  | None => s
  | Some obj =>
      let obj := if suicided obj || (deleteEmptyObjects && empty obj) then with_flags obj (suicided obj) true
                 else finalise obj in
      with_sets (with_objects s (<[addr := obj]> (stateObjects s)))
        ({[addr]} ∪ stateObjectsPending s) ({[addr]} ∪ stateObjectsDirty s)
  end.

Definition Finalise (deleteEmptyObjects : bool) : M StateDB () := λ s,
  (clearJournalAndRefund (foldl (λ s a, finaliseObject deleteEmptyObjects a s) s (range (dom (dirties (st_journal s))))),
   Ok ()).

Definition after_write (p : T * result ()) : M StateDB () := λ s,
  let s := with_trie s p.1 in
  match p.2 with
  | Ok _ => (s, Ok ())
  | Err err => (setError (Some err) s, Ok ())
  | Panic p => (s, Panic p)
  end.

Definition updateStateObject o : M StateDB () := λ s,
  match encodeAccount (data o) with
  | Ok enc => after_write (tr_TryUpdate (st_db s) (st_trie s) (address o) enc) s
  | Err _ => (s, Panic "can't encode object")
  | Panic p => (s, Panic p)
  end.

Definition deleteStateObject o : M StateDB () := λ s,
  after_write (tr_TryDelete (st_db s) (st_trie s) (address o)) s.

Definition flushObject (addr : Address) : M StateDB () :=
  objs ← gets stateObjects;
  match objs !! addr with
  | None => nil_deref
  | Some obj =>
      if deleted obj then deleteStateObject obj
      else '(obj, _) ← on_object obj updateRoot; updateStateObject obj
  end.

Definition hashTrie : M StateDB Hash := λ s,
  let '(tr, r) := tr_Hash (st_trie s) in (with_trie s tr, r).

Definition IntermediateRoot (deleteEmptyObjects : bool) : M StateDB Hash :=
  Finalise deleteEmptyObjects;;
  pending ← gets stateObjectsPending;
  for_keys flushObject (range pending);;
  modify (λ s, with_sets s ∅ (stateObjectsDirty s));;
  hashTrie.

(** The code and the storage of one object; the code is written once. *)
Definition commitObject (addr : Address) : M StateDB () := λ s,
  match stateObjects s !! addr with
  | None => nil_deref s
  | Some obj =>
      if deleted obj then (s, Ok ())
      else
        let write (d : D) o : StateDB * result () :=
          let '(o, d, r) := CommitTrie d o in
          (with_objects (with_db s d) (<[addr := o]> (stateObjects s)), r) in
        match code obj with
        | Some c =>
            if dirtyCode obj then
              match db_InsertBlob (BytesToHash (acc_CodeHash (data obj))) c (st_db s) with
              | Ok d => write d (with_code obj (Some c) false)
              | Err e => (s, Err e)
              | Panic p => (s, Panic p)
              end
            else write (st_db s) obj
        | None => write (st_db s) obj
        end
  end.

(** The callback on the leaves of the account trie. *)
Definition account_leaf (leaf : bytes) (parent : Hash) (d : D) : result D :=
  match decodeAccount leaf with
  | Panic p => Panic p
  | Err _ => Ok d
  | Ok a =>
      d ← (if bool_decide (acc_Root a = emptyRoot) then Ok d else db_Reference (acc_Root a) parent d);
      let c := BytesToHash (acc_CodeHash a) in
      if bool_decide (c = emptyCodeHash) then Ok d else db_Reference c parent d
  end.

Definition commitTrie : M StateDB Hash := λ s,
  let '(d, tr, r) := tr_Commit (Some account_leaf) (st_db s) (st_trie s) in (with_trie (with_db s d) tr, r).

Definition Commit (deleteEmptyObjects : bool) : M StateDB Hash :=
  IntermediateRoot deleteEmptyObjects;;
  dirty ← gets stateObjectsDirty;
  for_keys commitObject (range dirty);;
  modify (λ s, with_sets s (stateObjectsPending s) ∅);;
  commitTrie.

(** *** Copies *)

Definition Reset (root : Hash) : M StateDB () := λ s,
  match OpenTrie (st_db s) root with
  | Err e => (s, Err e)
  | Panic p => (s, Panic p)
  | Ok tr =>
      (clearJournalAndRefund
        (mkStateDB D T (st_db s) tr ∅ ∅ ∅ (st_dbErr s) (refund s) zero_hash zero_hash 0 ∅ 0 ∅ newAccessList
           (st_journal s) (validRevisions s) (nextRevisionId s)), Ok ())
  end.

(** The loop over the dirty accounts of the journal, then those over the two sets. *)
Definition copy_dirty s (addr : Address) (c : StateDB) : StateDB :=
  match stateObjects s !! addr with
  | None => c
  | Some o => with_sets (with_objects c (<[addr := deepCopy (st_db s) o]> (stateObjects c)))
                ({[addr]} ∪ stateObjectsPending c) ({[addr]} ∪ stateObjectsDirty c)
  end.
Definition copy_object s (addr : Address) (c : StateDB) : result StateDB :=
  match stateObjects c !! addr, stateObjects s !! addr with
  | Some _, _ => Ok c
  | None, None => Panic "nil pointer dereference"
  | None, Some o => Ok (with_objects c (<[addr := deepCopy (st_db s) o]> (stateObjects c)))
  end.
Definition copy_in (mark : Address → StateDB → StateDB) s (keys : list Address) (c : StateDB) : result StateDB :=
  foldl (λ r a, c ← r; c ← copy_object s a c; Ok (mark a c)) (Ok c) keys.

Definition Copy s : result StateDB :=
  let c := mkStateDB D T (st_db s) (CopyTrie (st_db s) (st_trie s)) ∅ ∅ ∅ None (refund s) zero_hash zero_hash 0 (logs s) (logSize s)
             (preimages s) (st_accessList s) newJournal [] 0 in
  let c := foldl (λ c a, copy_dirty s a c) c (range (dom (dirties (st_journal s)))) in
  c ← copy_in (λ a c, with_sets c ({[a]} ∪ stateObjectsPending c) (stateObjectsDirty c)) s (range (stateObjectsPending s)) c;
  copy_in (λ a c, with_sets c (stateObjectsPending c) ({[a]} ∪ stateObjectsDirty c)) s (range (stateObjectsDirty s)) c.
End State.

(** ** Encodings of accounts and slots *)

Definition valid_account (a : Account) : Prop :=
  0 <= acc_Nonce a < 2 ^ 64 ∧ 0 <= acc_Balance a < 2 ^ 256 ∧ length (acc_Root a) = HashLength ∧
  length (acc_CodeHash a) = HashLength.

Lemma len_puthead s l size : 0 <= size < 2 ^ 64 → len (puthead s l size) <= 9.
Proof.
  intros Hs. unfold puthead. case_match; [change (len [_]) with 1; lia|]. destruct (length_putint size Hs) as [_ Hput]. unfold len. cbn [length]. lia.
Qed.

Lemma len_enc_string_le b : len b < 2 ^ 32 → len (enc_string b) <= 9 + len b.
Proof.
  intros Hb. pose proof (len_nonneg b). pose proof (len_puthead 0x80 0xB7 (len b)) as Hp.
  assert (Hlong : len (puthead 0x80 0xB7 (len b) ++ b) <= 9 + len b) by (rewrite len_app; lia).
  unfold enc_string. destruct b as [|b0 [|]]; try done. case_match; [change (len [b0]) with 1; lia|done].
Qed.

Lemma len_big_Bytes z n : 0 <= z < 256 ^ n → 0 <= n → len (big_Bytes z) <= n.
Proof.
  intros Hz Hn. unfold big_Bytes. destruct (Z.eqb_spec z 0); [subst z; change (len _) with 0; lia|].
  destruct (big_Bytes_size z) as (Hp & Hlo & _); [lia|]. unfold len. rewrite length_be_encode, Z2Nat.id by lia.
  assert (Z.log2 z / 8 + 1 - 1 < n); [|lia]. apply (Z.pow_lt_mono_r_iff 256); lia.
Qed.

Lemma decode_encodeAccount a : valid_account a →
  ∃ e, encodeAccount a = Ok e ∧ decodeAccount e = Ok a ∧ 0 < len e < 2 ^ 32.
Proof.
  intros ((Hn1 & Hn2) & (Hb1 & Hb2) & Hr & Hc).
  set (v := VList [VUint (acc_Nonce a); VBig (Some (acc_Balance a)); VStr (acc_Root a); VStr (acc_CodeHash a)]).
  assert (Hlen : len (rlp_enc (to_item account_type no_tags v)) < 2 ^ 32).
  { cbn [to_item account_type v map fst snd struct_items field_items no_tags tg_tail app default rlp_enc fmap list_fmap concat].
    pose proof (len_big_Bytes (acc_Nonce a) 8 ltac:(lia) ltac:(lia)) as L1.
    pose proof (len_big_Bytes (acc_Balance a) 32 ltac:(lia) ltac:(lia)) as L2.
    pose proof (len_enc_string_le (big_Bytes (acc_Nonce a)) ltac:(lia)) as E1.
    pose proof (len_enc_string_le (big_Bytes (acc_Balance a)) ltac:(lia)) as E2.
    assert (L3 : len (acc_Root a) = 32) by (unfold len; by rewrite Hr).
    assert (L4 : len (acc_CodeHash a) = 32) by (unfold len; by rewrite Hc).
    pose proof (len_enc_string_le (acc_Root a) ltac:(lia)) as E3.
    pose proof (len_enc_string_le (acc_CodeHash a) ltac:(lia)) as E4.
    unfold enc_list. match goal with |- len (puthead _ _ (len ?c) ++ _) < _ => assert (len c < 1000) end.
    { rewrite !len_app, len_nil. unfold id. lia. }
    rewrite len_app. match goal with |- len (puthead ?x ?y (len ?c)) + _ < _ =>
      pose proof (len_nonneg c); pose proof (len_puthead x y (len c) ltac:(lia)); lia end. }
  assert (Hd : decodable account_type no_tags v) by (cbn; split_and!; try done; lia).
  assert (HE : EncodeValue account_type v = Ok (rlp_enc (to_item account_type no_tags v))).
  { apply EncodeValue_enc; [done|by eapply decodable_has_type|unfold enc_ok; lia]. }
  eexists. split; [exact HE|]. split.
  - unfold decodeAccount. destruct (DecodeValue_ok account_type (rlp_enc (to_item account_type no_tags v)) v) as [[_ Hdec] _];
      [done|lia|]. rewrite Hdec by (split_and!; [done|unfold enc_ok; lia|done]). cbn. by destruct a.
  - split; [|done]. pose proof (rlp_enc_nonempty (to_item account_type no_tags v)) as Hne.
    destruct (rlp_enc _); [done|]. rewrite len_cons. pose proof (len_nonneg l). lia.
Qed.

(** The value of a slot as the storage trie holds it. *)
Definition slot_enc (v : Hash) : bytes := EncodeToBytes (Str (TrimLeftZeroes v)).

Lemma TrimLeftZeroes_spec v : ∃ n, v = zeros n ++ TrimLeftZeroes v.
Proof.
  induction v as [|b v [n IH]]; [by exists O|]. destruct b; try by exists O.
  exists (S n). cbn [TrimLeftZeroes]. by rewrite IH at 1.
Qed.

Lemma slot_enc_value v : length v = HashLength →
  slot_enc v = rlp_enc (Str (TrimLeftZeroes v)) ∧ 0 < len (slot_enc v) < 2 ^ 32 ∧ storage_value (slot_enc v) = (v, None).
Proof.
  intros Hv. destruct (TrimLeftZeroes_spec v) as [n Hn]. set (c := TrimLeftZeroes v) in *.
  assert (Hl : (n + length c)%nat = 32%nat) by (change 32%nat with HashLength; rewrite <- Hv, Hn; unfold zeros; by rewrite length_app, length_replicate).
  pose proof (len_enc_string_le c ltac:(unfold len; lia)) as Hlen. unfold len in Hlen at 2.
  assert (HE : slot_enc v = rlp_enc (Str c)) by (apply EncodeToBytes_enc; unfold enc_ok; cbn [rlp_enc]; lia).
  rewrite HE. split; [done|]. pose proof (rlp_enc_nonempty (Str c)) as Hne. split.
  - cbn [rlp_enc] in *. destruct (enc_string c) eqn:E; [done|]. rewrite len_cons in *. pose proof (len_nonneg l). lia.
  - pose proof (Split_rlp_enc (Str c) []) as Hs. rewrite app_nil_r in Hs. unfold storage_value.
    destruct (rlp_enc (Str c)) eqn:E; [done|]. rewrite Hs by (rewrite <- E; cbn [rlp_enc]; lia). cbn [item_content].
    f_equal. etrans; [|symmetry; exact Hn]. unfold BytesToHash.
    replace (length c - 32)%nat with O by lia. rewrite drop_0. do 2 f_equal. lia.
Qed.
