(* ===== verification/StateSpec.v ===== *)
(** * The state as a machine with saved copies

    What l2geth/core/state promises its users, without caches, lazy loading and journal: an
    account per address, and snapshots that are copies of everything.  [StateRefines] shows
    that the state database implements it. *)

From S2P Require Import Prelude GoErrors EthTypes Extern Trie AccessList StateDB.

(** ** Accounts *)

(** Storage is a total function of the slot; [a_committed] is its value before the current
    transaction, [a_written] the slots that were set. *)
Record aobj := mkA {
  a_nonce : Z; a_balance : Z; a_codehash : Hash; a_code : bytes; a_root : Hash;
  a_storage : Hash → Hash; a_committed : Hash → Hash; a_written : gset Hash; a_suicided : bool; a_deleted : bool }.

(** The state that a snapshot saves: the accounts, the results of the transaction, which
    accounts were changed, which were overwritten without being changed, and whether
    nothing was recorded since the last transaction. *)
Record AState := mkAState {
  a_accounts : Address → option aobj;
  a_refund : Z; a_thash : Hash; a_bhash : Hash; a_txIndex : Z;
  a_logs : Hash → list Log; a_logSize : Z;
  a_preimages : gmap Hash bytes;
  a_al : accessList;
  a_dirty : gset Address; a_resets : gset Address; a_clean : bool }.

Definition upd {A} (k : bytes) (v : A) (f : bytes → A) : bytes → A := λ x, if decide (x = k) then v else f x.

Section Spec.
Context `{!Keccak} `{!Rcfg}.
Implicit Types (ao : aobj) (a : AState).

Definition fresh : aobj :=
  mkA 0 0 emptyCodeHash [] emptyRoot (λ _, zero_hash) (λ _, zero_hash) ∅ false false.

Definition a_empty ao : bool := (a_nonce ao =? 0) && (a_balance ao =? 0) && bool_decide (a_codehash ao = emptyCodeHash).

Definition a_with_balance (x : Z) ao : aobj :=
  mkA (a_nonce ao) x (a_codehash ao) (a_code ao) (a_root ao) (a_storage ao) (a_committed ao) (a_written ao) (a_suicided ao) (a_deleted ao).
Definition a_with_nonce (x : Z) ao : aobj :=
  mkA x (a_balance ao) (a_codehash ao) (a_code ao) (a_root ao) (a_storage ao) (a_committed ao) (a_written ao) (a_suicided ao) (a_deleted ao).
Definition a_with_code (c : bytes) ao : aobj :=
  mkA (a_nonce ao) (a_balance ao) (Keccak256 c) c (a_root ao) (a_storage ao) (a_committed ao) (a_written ao) (a_suicided ao) (a_deleted ao).
Definition a_with_slot (k v : Hash) ao : aobj :=
  mkA (a_nonce ao) (a_balance ao) (a_codehash ao) (a_code ao) (a_root ao) (upd k v (a_storage ao)) (a_committed ao)
    ({[k]} ∪ a_written ao) (a_suicided ao) (a_deleted ao).
Definition a_with_suicided (b : bool) ao : aobj :=
  mkA (a_nonce ao) (a_balance ao) (a_codehash ao) (a_code ao) (a_root ao) (a_storage ao) (a_committed ao) (a_written ao) b (a_deleted ao).

(** ** Changes *)

Definition a_write (addr : Address) (ao : option aobj) a : AState :=
  mkAState (upd addr ao (a_accounts a)) (a_refund a) (a_thash a) (a_bhash a) (a_txIndex a) (a_logs a) (a_logSize a)
    (a_preimages a) (a_al a) (a_dirty a) (a_resets a) (a_clean a).
(** Something is recorded, about the account if there is one. *)
Definition a_record (addr : option Address) a : AState :=
  mkAState (a_accounts a) (a_refund a) (a_thash a) (a_bhash a) (a_txIndex a) (a_logs a) (a_logSize a)
    (a_preimages a) (a_al a) (match addr with Some x => {[x]} ∪ a_dirty a | None => a_dirty a end) (a_resets a) false.
Definition a_reset (addr : Address) a : AState :=
  mkAState (a_accounts a) (a_refund a) (a_thash a) (a_bhash a) (a_txIndex a) (a_logs a) (a_logSize a)
    (a_preimages a) (a_al a) (a_dirty a) ({[addr]} ∪ a_resets a) (a_clean a).
Definition a_with_refund (r : Z) a : AState :=
  mkAState (a_accounts a) r (a_thash a) (a_bhash a) (a_txIndex a) (a_logs a) (a_logSize a)
    (a_preimages a) (a_al a) (a_dirty a) (a_resets a) (a_clean a).
Definition a_with_logs (l : Hash → list Log) (n : Z) a : AState :=
  mkAState (a_accounts a) (a_refund a) (a_thash a) (a_bhash a) (a_txIndex a) l n
    (a_preimages a) (a_al a) (a_dirty a) (a_resets a) (a_clean a).
Definition a_with_preimages (p : gmap Hash bytes) a : AState :=
  mkAState (a_accounts a) (a_refund a) (a_thash a) (a_bhash a) (a_txIndex a) (a_logs a) (a_logSize a)
    p (a_al a) (a_dirty a) (a_resets a) (a_clean a).
Definition a_with_al (al : accessList) a : AState :=
  mkAState (a_accounts a) (a_refund a) (a_thash a) (a_bhash a) (a_txIndex a) (a_logs a) (a_logSize a)
    (a_preimages a) al (a_dirty a) (a_resets a) (a_clean a).

(** ** Operations on accounts *)

Definition a_get (addr : Address) : M AState (option aobj) := gets (λ a, a_accounts a addr).

Definition a_live (addr : Address) : M AState (option aobj) :=
  o ← a_get addr; mret (match o with Some ao => if a_deleted ao then None else Some ao | None => None end).

(** A new account; one that was there before, deleted or not, is overwritten. *)
Definition created (addr : Address) (prev : option aobj) ao a : AState :=
  a_write addr (Some ao) (match prev with None => a_record (Some addr) a | Some _ => a_reset addr (a_record None a) end).
Definition a_create (addr : Address) ao : M AState () := modify (λ a, created addr (a_accounts a addr) ao a).

Definition a_live_or_new (addr : Address) : M AState aobj :=
  o ← a_live addr;
  match o with
  | Some ao => mret ao
  | None => a_create addr fresh;; mret fresh
  end.

Definition a_update (addr : Address) (ao : aobj) : M AState () := modify (λ a, a_write addr (Some ao) (a_record (Some addr) a)).

(** A new account keeps the balance of the one it overwrites. *)
Definition a_CreateAccount (addr : Address) : M AState () :=
  prev ← a_get addr;
  a_create addr (a_with_balance (match prev with Some p => a_balance p | None => 0 end) fresh).

Definition a_GetState (addr : Address) (k : Hash) : M AState Hash :=
  o ← a_live addr; mret (match o with Some ao => a_storage ao k | None => zero_hash end).
Definition a_GetCommittedState (addr : Address) (k : Hash) : M AState Hash :=
  o ← a_live addr; mret (match o with Some ao => a_committed ao k | None => zero_hash end).
Definition a_SetState (addr : Address) (k v : Hash) : M AState () :=
  ao ← a_live_or_new addr;
  if bool_decide (a_storage ao k = v) then mret () else a_update addr (a_with_slot k v ao).

Definition a_GetBalance (addr : Address) : M AState Z :=
  if UsingOVM then v ← a_GetState OvmEthAddress (GetOVMBalanceKey addr); mret (Hash_Big v)
  else o ← a_live addr; mret (match o with Some ao => a_balance ao | None => 0 end).

Definition a_AddBalance (addr : Address) (amount : Z) : M AState () :=
  if UsingOVM then
    v ← a_GetState OvmEthAddress (GetOVMBalanceKey addr);
    a_SetState OvmEthAddress (GetOVMBalanceKey addr) (BigToHash (Hash_Big v + amount))
  else
    ao ← a_live_or_new addr;
    if amount =? 0 then (if a_empty ao then modify (a_record (Some addr)) else mret ())
    else a_update addr (a_with_balance (a_balance ao + amount) ao).

Definition a_SubBalance (addr : Address) (amount : Z) : M AState () :=
  if UsingOVM then
    v ← a_GetState OvmEthAddress (GetOVMBalanceKey addr);
    a_SetState OvmEthAddress (GetOVMBalanceKey addr) (BigToHash (Hash_Big v - amount))
  else
    ao ← a_live_or_new addr;
    if amount =? 0 then mret () else a_update addr (a_with_balance (a_balance ao - amount) ao).

Definition a_SetBalance (addr : Address) (amount : Z) : M AState () :=
  if UsingOVM then a_SetState OvmEthAddress (GetOVMBalanceKey addr) (BigToHash amount)
  else ao ← a_live_or_new addr; a_update addr (a_with_balance amount ao).

Definition a_SetNonce (addr : Address) (nonce : Z) : M AState () :=
  ao ← a_live_or_new addr; a_update addr (a_with_nonce nonce ao).
Definition a_SetCode (addr : Address) (c : bytes) : M AState () :=
  ao ← a_live_or_new addr; a_update addr (a_with_code c ao).

Definition a_Suicide (addr : Address) : M AState bool :=
  o ← a_live addr;
  match o with
  | None => mret false
  | Some ao => a_update addr (a_with_balance 0 (a_with_suicided true ao));; mret true
  end.

(** ** The rest of the state *)

Definition a_AddRefund (gas : Z) : M AState () := modify (λ a, a_with_refund (a_refund a ⊞ gas) (a_record None a)).
Definition a_SubRefund (gas : Z) : M AState () :=
  r ← gets a_refund;
  if r <? gas then panic "Refund counter below zero" else modify (λ a, a_with_refund (r ⊟ gas) (a_record None a)).

Definition a_AddLog (l : Log) : M AState () := modify (λ a,
  let l := mkLog (log_Address l) (log_Topics l) (log_Data l) (log_BlockNumber l) (a_thash a) (u64 (a_txIndex a)) (a_bhash a)
             (a_logSize a) (log_Removed l) in
  a_with_logs (upd (a_thash a) (a_logs a (a_thash a) ++ [l]) (a_logs a)) (a_logSize a ⊞ 1) (a_record None a)).

Definition a_AddPreimage (hash : Hash) (p : bytes) : M AState () := modify (λ a,
  match a_preimages a !! hash with
  | Some _ => a
  | None => a_with_preimages (<[hash := p]> (a_preimages a)) (a_record None a)
  end).

Definition a_AddAddress (addr : Address) : M AState () := modify (λ a,
  let '(al, added) := AddAddress (a_al a) addr in if added : bool then a_with_al al (a_record None a) else a).

Definition a_AddSlot (addr : Address) (slot : Hash) : M AState () := modify (λ a,
  match AddSlot (a_al a) addr slot with
  | Ok (al, (_, true)) => a_with_al al (a_record None a)
  | _ => a
  end).

(** The end of a transaction: accounts that were changed and are destructed, or empty if
    that matters, are deleted; the storage of the others is committed. *)
Definition a_settle (deleteEmpty : bool) ao : aobj :=
  if a_suicided ao || (deleteEmpty && a_empty ao)
  then mkA (a_nonce ao) (a_balance ao) (a_codehash ao) (a_code ao) (a_root ao) (a_storage ao) (a_committed ao) (a_written ao) (a_suicided ao) true
  else mkA (a_nonce ao) (a_balance ao) (a_codehash ao) (a_code ao) (a_root ao) (a_storage ao) (a_storage ao) (a_written ao) (a_suicided ao) (a_deleted ao).

Definition a_finalise (deleteEmpty : bool) a : AState :=
  mkAState (λ x, if decide (x ∈ a_dirty a) then a_settle deleteEmpty <$> a_accounts a x else a_accounts a x)
    0 (a_thash a) (a_bhash a) (a_txIndex a) (a_logs a) (a_logSize a)
    (a_preimages a) (a_al a) ∅ (a_resets a ∖ a_dirty a) true.

(** A transaction starts. *)
Definition a_prepare (th bh : Hash) (ti : Z) a : AState :=
  mkAState (a_accounts a) (a_refund a) th bh ti (a_logs a) (a_logSize a)
    (a_preimages a) newAccessList (a_dirty a) (a_resets a) (a_clean a).
End Spec.

(** ** Calls *)

(** The addresses and the slots that are used, which may be all.  What is written to a trie
    is found again when no two of them have the same hash. *)
Class Keyspace `{!Keccak} := {
  is_addr : Address → Prop;
  is_slot : Hash → Prop;
  is_addr_length x : is_addr x → length x = AddressLength;
  is_slot_length k : is_slot k → length k = HashLength;
  ovm_is_addr : is_addr OvmEthAddress;
  ovm_is_slot x : is_addr x → is_slot (GetOVMBalanceKey x) }.

Inductive call :=
| CExist (addr : Address) | CEmpty (addr : Address) | CGetBalance (addr : Address) | CGetNonce (addr : Address)
| CGetCode (addr : Address) | CGetCodeSize (addr : Address) | CGetCodeHash (addr : Address)
| CGetState (addr : Address) (key : Hash) | CGetCommittedState (addr : Address) (key : Hash)
| CHasSuicided (addr : Address) | CGetRefund | CGetLogs (hash : Hash) | CGetPreimage (hash : Hash)
| CAddressInAccessList (addr : Address) | CSlotInAccessList (addr : Address) (slot : Hash)
| CAddBalance (addr : Address) (amount : Z) | CSubBalance (addr : Address) (amount : Z)
| CSetBalance (addr : Address) (amount : Z) | CSetNonce (addr : Address) (nonce : Z)
| CSetCode (addr : Address) (code : option bytes) | CSetState (addr : Address) (key value : Hash)
| CSuicide (addr : Address) | CCreateAccount (addr : Address)
| CAddRefund (gas : Z) | CSubRefund (gas : Z) | CAddLog (l : Log) | CAddPreimage (hash : Hash) (preimage : bytes)
| CAddAddress (addr : Address) | CAddSlot (addr : Address) (slot : Hash)
| CPrepare (th bh : Hash) (ti : Z)
| CSnapshot | CRevertToSnapshot (id : nat) | CFinalise (deleteEmpty : bool).

Inductive answer := ANone | AZ (z : Z) | ABool (b : bool) | ABytes (b : bytes) | ABools (p : bool * bool)
| ALogs (l : list Log) | AOpt (o : option bytes) | AId (n : nat).

Section Machine.
Context `{!Keccak} `{!Rcfg}.

(** The state with the copies that were saved, oldest first. *)
Record machine := mkMachine { now : AState; saved : list (nat * AState); next : nat }.

Definition on_now {A} (f : A → answer) (m : M AState A) : M machine answer := λ k,
  let '(a, r) := m (now k) in (mkMachine a (saved k) (next k), x ← r; Ok (f x)).

(** Reverting restores the copy and forgets the later ones. *)
Definition restore (id : nat) : M machine answer := λ k,
  match list_find (λ p, p.1 = id) (saved k) with
  | Some (i, (_, a)) => (mkMachine a (take i (saved k)) (next k), Ok ANone)
  | None => (k, Panic "revision id cannot be reverted")
  end.

Definition none : () → answer := λ _, ANone.

Definition spec (c : call) : M machine answer :=
  match c with
  | CExist x => on_now ABool (o ← a_live x; mret (bool_decide (is_Some o)))
  | CEmpty x => on_now ABool (o ← a_live x; mret (match o with Some ao => a_empty ao | None => true end))
  | CGetBalance x => on_now AZ (a_GetBalance x)
  | CGetNonce x => on_now AZ (o ← a_live x; mret (match o with Some ao => a_nonce ao | None => 0 end))
  | CGetCode x => on_now ABytes (o ← a_live x; mret (match o with Some ao => a_code ao | None => [] end))
  | CGetCodeSize x => on_now AZ (o ← a_live x; mret (match o with Some ao => len (a_code ao) | None => 0 end))
  | CGetCodeHash x => on_now ABytes (o ← a_live x; mret (match o with Some ao => a_codehash ao | None => zero_hash end))
  | CGetState x k => on_now ABytes (a_GetState x k)
  | CGetCommittedState x k => on_now ABytes (a_GetCommittedState x k)
  | CHasSuicided x => on_now ABool (o ← a_live x; mret (match o with Some ao => a_suicided ao | None => false end))
  | CGetRefund => on_now AZ (gets a_refund)
  | CGetLogs h => on_now ALogs (gets (λ a, a_logs a h))
  | CGetPreimage h => on_now AOpt (gets (λ a, a_preimages a !! h))
  | CAddressInAccessList x => on_now ABool (gets (λ a, bool_decide (is_Some (slots_of (a_al a) x))))
  | CSlotInAccessList x s => on_now ABools (gets (λ a,
      match slots_of (a_al a) x with None => (false, false) | Some m => (true, bool_decide (s ∈ m)) end))
  | CAddBalance x n => on_now none (a_AddBalance x n)
  | CSubBalance x n => on_now none (a_SubBalance x n)
  | CSetBalance x n => on_now none (a_SetBalance x n)
  | CSetNonce x n => on_now none (a_SetNonce x n)
  | CSetCode x c => on_now none (a_SetCode x (default [] c))
  | CSetState x k v => on_now none (a_SetState x k v)
  | CSuicide x => on_now ABool (a_Suicide x)
  | CCreateAccount x => on_now none (a_CreateAccount x)
  | CAddRefund n => on_now none (a_AddRefund n)
  | CSubRefund n => on_now none (a_SubRefund n)
  | CAddLog l => on_now none (a_AddLog l)
  | CAddPreimage h p => on_now none (a_AddPreimage h p)
  | CAddAddress x => on_now none (a_AddAddress x)
  | CAddSlot x s => on_now none (a_AddSlot x s)
  | CPrepare th bh ti => on_now none (modify (a_prepare th bh ti))
  | CSnapshot => λ k, (mkMachine (now k) (saved k ++ [(next k, now k)]) (S (next k)), Ok (AId (next k)))
  | CRevertToSnapshot id => restore id
  | CFinalise b => λ k, (mkMachine (a_finalise b (now k)) [] (next k), Ok ANone)
  end.

Fixpoint runs {St} (step : call → M St answer) (cs : list call) : M St (list answer) :=
  match cs with
  | [] => mret []
  | c :: cs => x ← step c; l ← runs step cs; mret (x :: l)
  end.

(** The same calls on the state database. *)
Context {D T : Type} `{!StateDatabase D T} `{!RangeOrder}.

Definition answered {A} (f : A → answer) (m : M (StateDB D T) A) : M (StateDB D T) answer := x ← m; mret (f x).

Definition exec (c : call) : M (StateDB D T) answer :=
  match c with
  | CExist x => answered ABool (Exist x)
  | CEmpty x => answered ABool (Empty x)
  | CGetBalance x => answered AZ (GetBalance x)
  | CGetNonce x => answered AZ (GetNonce x)
  | CGetCode x => answered (λ c, ABytes (default [] c)) (GetCode x)
  | CGetCodeSize x => answered AZ (GetCodeSize x)
  | CGetCodeHash x => answered ABytes (GetCodeHash x)
  | CGetState x k => answered ABytes (GetState x k)
  | CGetCommittedState x k => answered ABytes (GetCommittedState x k)
  | CHasSuicided x => answered ABool (HasSuicided x)
  | CGetRefund => answered AZ GetRefund
  | CGetLogs h => answered ALogs (GetLogs h)
  | CGetPreimage h => answered AOpt (gets (λ s, preimages s !! h))
  | CAddressInAccessList x => answered ABool (AddressInAccessList x)
  | CSlotInAccessList x s => answered ABools (SlotInAccessList x s)
  | CAddBalance x n => answered none (AddBalance x n)
  | CSubBalance x n => answered none (SubBalance x n)
  | CSetBalance x n => answered none (SetBalance x n)
  | CSetNonce x n => answered none (SetNonce x n)
  | CSetCode x c => answered none (SetCode x c)
  | CSetState x k v => answered none (SetState x k v)
  | CSuicide x => answered ABool (Suicide x)
  | CCreateAccount x => answered none (CreateAccount x)
  | CAddRefund n => answered none (AddRefund n)
  | CSubRefund n => answered none (SubRefund n)
  | CAddLog l => answered none (AddLog l)
  | CAddPreimage h p => answered none (AddPreimage h p)
  | CAddAddress x => answered none (AddAddressToAccessList x)
  | CAddSlot x s => answered none (AddSlotToAccessList x s)
  | CPrepare th bh ti => answered none (Prepare th bh ti)
  | CSnapshot => answered AId Snapshot
  | CRevertToSnapshot id => answered none (RevertToSnapshot id)
  | CFinalise b => answered none (Finalise b)
  end.

Context `{!Keyspace}.

(** Calls as Go's types allow them, and as the chain makes them: [Prepare] between
    transactions (inside of one it would drop the access list that the journal still refers
    to), and without OVM_ETH no zero transfer to the RIPEMD precompile, whose mark in the
    journal survives a revert: [touch] and [Finalise] treat that account specially, see
    [ripemd_mark_survives] in [StateExamples]. *)
Definition call_ok (k : machine) (c : call) : Prop :=
  match c with
  | CExist x | CEmpty x | CGetBalance x | CGetNonce x | CGetCode x | CGetCodeSize x | CGetCodeHash x | CHasSuicided x
  | CSetNonce x _ | CSetCode x _ | CSuicide x | CCreateAccount x | CSubBalance x _ | CSetBalance x _ =>
      is_addr x
  | CAddBalance x n => is_addr x ∧ (x = ripemd → n = 0 → UsingOVM = true)
  | CGetState x k | CGetCommittedState x k => is_addr x ∧ is_slot k
  | CSetState x k v => is_addr x ∧ is_slot k ∧ length v = HashLength
  | CPrepare _ _ _ => a_clean (now k) = true ∧ saved k = []
  | _ => True
  end.

Fixpoint calls_ok (k : machine) (cs : list call) : Prop :=
  match cs with
  | [] => True
  | c :: cs => call_ok k c ∧ (let '(k, r) := spec c k in match r with Ok _ => calls_ok k cs | _ => True end)
  end.
End Machine.
