(* ===== verification/StateRefines.v ===== *)
(** * The state database implements the machine with saved copies

    Every call on the [StateDB] answers what the specification of [StateSpec] answers, for
    every sequence of calls: loading accounts and slots lazily is invisible, and undoing the
    journal is the same as restoring a copy.  The database is any that satisfies
    [StateReads]; the theorem on calls is [statedb_refines]. *)

From S2P Require Import Prelude GoErrors EthTypes Extern RLP RLPStream RLPTypes Trie AccessList StateDB StateSpec.

(** ** What is assumed of the database *)

(** The contents that the database and its tries stand for: a trie holds a map from hashed
    keys, a root can be opened as one, the code of a hash is known, a map has a root. *)
Class StateContents (D T : Type) := {
  sound : D → Prop;
  holds : D → T → gmap bytes bytes → Prop;
  opens : D → Hash → gmap bytes bytes → Prop;
  has_code : D → Hash → bytes → Prop;
  root_of : gmap bytes bytes → Hash → Prop }.

(** Everything known of the first database is true of the second. *)
Record grows {D T} `{!StateContents D T} (d d' : D) : Prop := {
  gr_sound : sound (T := T) d → sound (T := T) d';
  gr_holds t m : holds (T := T) d t m → holds d' t m;
  gr_opens r m : opens (T := T) d r m → opens (T := T) d' r m;
  gr_code h c : has_code (T := T) d h c → has_code (T := T) d' h c }.

Class StateReads `{!Keccak} (D T : Type) `{!StateDatabase D T} `{!StateContents D T} := {
  TryGet_holds d t m k : holds d t m →
    ∃ t', tr_TryGet d t k = (t', Ok (default [] (m !! Keccak256 k))) ∧ holds d t' m;
  OpenTrie_opens d r m : opens (T := T) d r m → ∃ t, OpenTrie d r = Ok t ∧ holds d t m;
  OpenStorageTrie_opens d a r m : opens (T := T) d r m → ∃ t, OpenStorageTrie d a r = Ok t ∧ holds d t m;
  opens_empty d : sound (T := T) d → opens (T := T) d emptyRoot ∅;
  opens_root d r m : opens (T := T) d r m → r ≠ zero_hash → root_of (D := D) (T := T) m r;
  ContractCode_has d a h c : sound (T := T) d → has_code (T := T) d h c →
    ∃ d', ContractCode d a h = (d', Ok c) ∧ grows (T := T) d d';
  ContractCodeSize_has d a h c : sound (T := T) d → has_code (T := T) d h c →
    ∃ d', ContractCodeSize d a h = (d', Ok (len c)) ∧ grows (T := T) d d';
  (** the code of accounts without code need not be there *)
  ContractCodeSize_empty d a : sound (T := T) d →
    ∃ d' r, ContractCodeSize d a (Keccak256 []) = (d', r) ∧ grows (T := T) d d' ∧ (r = Ok 0 ∨ ∃ e, r = Err e) }.

Section Refines.
Context `{!Keccak} `{!Rcfg} {D T : Type} `{!StateDatabase D T} `{!StateContents D T} `{!StateReads D T} `{!RangeOrder} `{!Keyspace}.
Notation stateObject := (stateObject T).
Notation StateDB := (StateDB D T).
Notation grows := (grows (D := D) (T := T)).
Notation opens := (opens (D := D) (T := T)).
Notation has_code := (has_code (D := D) (T := T)).
Notation sound := (sound (D := D) (T := T)).
Implicit Types (d : D) (o : stateObject) (s : StateDB) (ao : aobj) (a : AState).

#[local] Instance grows_preorder : PreOrder grows.
Proof. split; [by split|]. intros d1 d2 d3 [] []. split; eauto. Qed.

(** ** The contents of tries *)

(** A storage trie holds the values that are not zero, an account trie valid accounts. *)
Definition slot_map (sm : gmap bytes bytes) : Prop :=
  ∀ h e, sm !! h = Some e →
    ∃ k v, is_slot k ∧ h = Keccak256 k ∧ length v = HashLength ∧ v ≠ zero_hash ∧ e = slot_enc v.
Definition acct_map (m : gmap bytes bytes) : Prop :=
  ∀ h e, m !! h = Some e → ∃ x acc, is_addr x ∧ h = Keccak256 x ∧ valid_account acc ∧ encodeAccount acc = Ok e.

Definition slot_val (sm : gmap bytes bytes) (k : Hash) : Hash := fst (storage_value (default [] (sm !! Keccak256 k))).
Definition load (m : gmap bytes bytes) (addr : Address) : option Account :=
  e ← m !! Keccak256 addr; match decodeAccount e with Ok acc => Some acc | _ => None end.

Lemma storage_value_slot sm k : slot_map sm →
  storage_value (default [] (sm !! Keccak256 k)) = (slot_val sm k, None) ∧ length (slot_val sm k) = HashLength.
Proof.
  intros Hs. unfold slot_val. destruct (sm !! Keccak256 k) as [e|] eqn:E; cbn [default from_option id].
  - destruct (Hs _ _ E) as (k' & v & _ & _ & Hv & _ & ->). by destruct (slot_enc_value v Hv) as (_ & _ & ->).
  - done.
Qed.

Lemma load_valid m addr e acc : acct_map m → m !! Keccak256 addr = Some e → load m addr = Some acc →
  valid_account acc ∧ decodeAccount e = Ok acc ∧ 0 < len e.
Proof.
  intros Hm E. unfold load. rewrite E. cbn. destruct (Hm _ _ E) as (x' & acc' & _ & _ & Hv & He).
  destruct (decode_encodeAccount acc' Hv) as (e' & He' & Hd & Hl). rewrite He in He'. injection He' as <-. rewrite Hd. intros [= <-]. split_and!; [done|done|lia].
Qed.

Lemma load_None m addr : acct_map m → load m addr = None → m !! Keccak256 addr = None.
Proof.
  intros Hm. unfold load. destruct (m !! Keccak256 addr) as [e|] eqn:E; [|done]. cbn. destruct (Hm _ _ E) as (x' & acc & _ & _ & Hv & He).
  destruct (decode_encodeAccount acc Hv) as (e' & He' & Hd & _). rewrite He in He'. injection He' as <-. by rewrite Hd.
Qed.

(** ** Objects and accounts *)

(** The constants between two writes to the account trie: its contents, the accounts that
    have yet to be written and those whose storage has yet to be committed. *)
Context (m : gmap bytes bytes) (P Q : gset Address).

Definition committed_val sm o (k : Hash) : Hash := default (slot_val sm k) (pendingStorage o !! k).
Definition current_val sm o (k : Hash) : Hash := default (committed_val sm o k) (dirtyStorage o !! k).

Definition is_word (x : Hash) : Prop := length x = HashLength.

(** The layers of the storage of an object over the contents of its trie. *)
Record storage_ok d (addr : Address) o (sm : gmap bytes bytes) : Prop := {
  sk_slots : slot_map sm;
  sk_trie : match so_trie o with Some t => holds d t sm | None => opens d (acc_Root (data o)) sm end;
  sk_opens : addr ∉ Q → deleted o = false → opens d (acc_Root (data o)) sm;
  sk_origin k v : originStorage o !! k = Some v → v = slot_val sm k ∧ is_slot k;
  sk_pending k v : pendingStorage o !! k = Some v → is_Some (originStorage o !! k) ∧ is_slot k ∧ is_word v;
  sk_dirty k v : dirtyStorage o !! k = Some v → is_Some (originStorage o !! k) ∧ is_slot k ∧ is_word v;
  sk_flushed : addr ∉ P → deleted o = false → pendingStorage o = ∅;
  sk_root : addr ∉ P → deleted o = false → root_of (D := D) (T := T) sm (acc_Root (data o)) }.

(** The code is empty or the database has it. *)
Definition persisted d ao : Prop :=
  (a_codehash ao = emptyCodeHash ∧ a_code ao = []) ∨ has_code d (a_codehash ao) (a_code ao).

(** Code in memory that was not set is in the database. *)
Definition code_ok d o ao : Prop :=
  match code o with
  | Some c => c = a_code ao ∧ (dirtyCode o = false → persisted d ao)
  | None => (a_codehash ao = emptyCodeHash ∧ a_code ao = []) ∨
            (a_codehash ao ≠ emptyCodeHash ∧ has_code d (a_codehash ao) (a_code ao))
  end.

Record object_ok d (addr : Address) o ao : Prop := {
  ok_addr : address o = addr;
  ok_data : data o = mkAccount (a_nonce ao) (a_balance ao) (a_root ao) (a_codehash ao);
  ok_hash : a_codehash ao = Keccak256 (a_code ao);
  ok_code : code_ok d o ao;
  ok_suicided : suicided o = a_suicided ao;
  ok_deleted : deleted o = a_deleted ao;
  ok_fake : fakeStorage o = None;
  ok_err : so_dbErr o = None;
  ok_written k : k ∈ a_written ao → is_Some (originStorage o !! k);
  ok_storage : ∃ sm, storage_ok d addr o sm ∧
    ∀ k, is_slot k → current_val sm o k = a_storage ao k ∧ committed_val sm o k = a_committed ao k }.

Lemma storage_ok_grows d d' addr o sm : grows d d' → storage_ok d addr o sm → storage_ok d' addr o sm.
Proof.
  intros Hg []. split; eauto using gr_opens. destruct (so_trie o); eauto using gr_holds, gr_opens.
Qed.

Lemma object_ok_grows d d' addr o ao : grows d d' → object_ok d addr o ao → object_ok d' addr o ao.
Proof.
  intros Hg [? ? ? Hc ? ? ? ? ? (sm & Hs & Hv)]. split; try done.
  - unfold code_ok, persisted in *. destruct (code o).
    + destruct Hc as [? Hp]. split; [done|]. intros Hf. destruct (Hp Hf); [by left|right; eauto using gr_code].
    + destruct Hc as [|[]]; [by left|right]. eauto using gr_code.
  - exists sm. split; [by eapply storage_ok_grows|done].
Qed.

(** Values of slots are words. *)
Lemma current_word d addr o sm k : storage_ok d addr o sm → is_word (current_val sm o k) ∧ is_word (committed_val sm o k).
Proof.
  intros Hs. destruct (storage_value_slot sm k (sk_slots _ _ _ _ Hs)) as [_ Hw].
  assert (Hc : is_word (committed_val sm o k)).
  { unfold committed_val. destruct (pendingStorage o !! k) eqn:E; [|done]. by apply (sk_pending _ _ _ _ Hs) in E as (_ & _ & ?). }
  split; [|done]. unfold current_val. destruct (dirtyStorage o !! k) eqn:E; [|done].
  by apply (sk_dirty _ _ _ _ Hs) in E as (_ & _ & ?).
Qed.

(** ** Reading storage *)

Lemma getTrie_ok d addr o ao : object_ok d addr o ao →
  ∃ o' t, getTrie d o = (o', Ok t) ∧ so_trie o' = Some t ∧ object_ok d addr o' ao ∧
    originStorage o' = originStorage o ∧ pendingStorage o' = pendingStorage o ∧ dirtyStorage o' = dirtyStorage o.
Proof.
  intros [? Hd ? ? ? ? ? ? ? (sm & Hs & Hv)]. unfold getTrie. destruct (so_trie o) as [t|] eqn:E.
  - exists o, t. split_and!; try done. split; try done. by exists sm.
  - pose proof (sk_trie _ _ _ _ Hs) as Ht. rewrite E in Ht.
    destruct (OpenStorageTrie_opens d (addrHash o) _ _ Ht) as (t & -> & Hh). exists (with_so_trie o t), t.
    split_and!; try done. split; try done. exists sm. split; [|done]. destruct Hs. by split.
Qed.

Lemma so_GetCommittedState_ok d addr o ao k : object_ok d addr o ao → is_slot k →
  ∃ o', so_GetCommittedState d k o = (o', Ok (a_committed ao k)) ∧ object_ok d addr o' ao ∧
    is_Some (originStorage o' !! k) ∧ dirtyStorage o' = dirtyStorage o.
Proof.
  intros Ho Hk. unfold so_GetCommittedState. rewrite (ok_fake _ _ _ _ Ho).
  pose proof (ok_storage _ _ _ _ Ho) as (sm & Hs & Hv). destruct (Hv k Hk) as [_ Hc]. unfold committed_val in Hc.
  destruct (pendingStorage o !! k) as [v|] eqn:Ep.
  { cbn in Hc. subst v. exists o. split_and!; try done. by apply (sk_pending _ _ _ _ Hs) in Ep as [? _]. }
  cbn in Hc. destruct (originStorage o !! k) as [v|] eqn:Eo.
  { destruct (sk_origin _ _ _ _ Hs _ _ Eo) as [-> _]. rewrite Hc. exists o. by rewrite Eo. }
  destruct (getTrie_ok d addr o ao Ho) as (o1 & t & E1 & Et & Ho1 & O1 & O2 & O3).
  unfold mbind, M_bind. rewrite E1. unfold loadSlot.
  pose proof (ok_storage _ _ _ _ Ho1) as (sm1 & Hs1 & Hv1). pose proof (sk_trie _ _ _ _ Hs1) as Ht. rewrite Et in Ht.
  destruct (TryGet_holds d t sm1 k Ht) as (t' & -> & Ht').
  destruct (storage_value_slot sm1 k (sk_slots _ _ _ _ Hs1)) as [-> Hw].
  destruct (Hv1 k Hk) as [_ Hc1]. unfold committed_val in Hc1. rewrite O2, Ep in Hc1. cbn in Hc1. rewrite Hc1.
  eexists. split; [done|]. cbn. split; [|by rewrite lookup_insert_eq].
  destruct Ho1. split; cbn; try done; [by rewrite ok_err0|..].
  { intros k' Hk'. destruct (ok_written0 k' Hk') as [x Hx]. rewrite lookup_insert. case_decide; eauto. }
  exists sm1. split; [|done].
  destruct Hs1. split; cbn; try done.
  - intros k' v'. rewrite lookup_insert. case_decide; [intros [= <-]; by subst|eauto].
  - intros k' v' E'. destruct (sk_pending0 _ _ E') as [[x Hx] ?]. rewrite lookup_insert. case_decide; eauto.
  - intros k' v' E'. destruct (sk_dirty0 _ _ E') as [[x Hx] ?]. rewrite lookup_insert. case_decide; eauto.
Qed.

Lemma so_GetState_ok d addr o ao k : object_ok d addr o ao → is_slot k →
  ∃ o', so_GetState d k o = (o', Ok (a_storage ao k)) ∧ object_ok d addr o' ao ∧ is_Some (originStorage o' !! k).
Proof.
  intros Ho Hk. unfold so_GetState. rewrite (ok_fake _ _ _ _ Ho).
  pose proof (ok_storage _ _ _ _ Ho) as (sm & Hs & Hv). destruct (Hv k Hk) as [Hc Hcc]. unfold current_val in Hc.
  destruct (dirtyStorage o !! k) as [v|] eqn:Ed; cbn in Hc.
  - subst v. exists o. split_and!; try done. by apply (sk_dirty _ _ _ _ Hs) in Ed as [? _].
  - destruct (so_GetCommittedState_ok d addr o ao k Ho Hk) as (o' & -> & Ho' & Hi & _). exists o'. by rewrite <- Hc, <- Hcc.
Qed.

(** ** The state *)

Context (m_accounts : acct_map m).

Definition lookup_obj s (addr : Address) : option stateObject :=
  match stateObjects s !! addr with
  | Some o => Some o
  | None => (λ acc, newObject addr (Some acc)) <$> load m addr
  end.

(** Live objects, and those that the trie would give, stand for the accounts. *)
Record core s a : Prop := {
  co_sound : sound (st_db s);
  co_trie : holds (st_db s) (st_trie s) m;
  co_keys addr o : stateObjects s !! addr = Some o → is_addr addr;
  co_objs addr : is_addr addr →
    option_Forall2 (object_ok (st_db s) addr) (lookup_obj s addr) (a_accounts a addr);
  co_pending : stateObjectsPending s = P;
  co_dirty : stateObjectsDirty s = Q;
  co_sets : P ∪ Q ⊆ dom (stateObjects s);
  co_sub : P ⊆ Q;
  co_changed : a_dirty a ⊆ dom (stateObjects s);
  co_refund : refund s = a_refund a;
  co_thash : thash s = a_thash a;
  co_bhash : bhash s = a_bhash a;
  co_txIndex : txIndex s = a_txIndex a;
  co_logs h : default [] (logs s !! h) = a_logs a h;
  co_logSize : logSize s = a_logSize a;
  co_u64 : is_u64 (logSize s);
  co_preimages : preimages s = a_preimages a;
  co_al : st_accessList s = a_al a;
  co_al_ok : al_ok (a_al a) }.

(** An account that was not changed since the trie was written agrees with it. *)
Definition synced (l : option Account) (r : option aobj) : Prop :=
  match r with
  | None => l = None
  | Some ao =>
      if a_deleted ao then l = None
      else ∃ acc, l = Some acc ∧
        data (T := T) (newObject [] (Some acc)) = mkAccount (a_nonce ao) (a_balance ao) (a_root ao) (a_codehash ao)
  end.

(** Nothing of the account waits for the end of the transaction. *)
Definition quiet ao : Prop := a_suicided ao = false ∧ ∀ k, is_slot k → a_storage ao k = a_committed ao k.

Record a_ok d a : Prop := {
  ao_dirty x : x ∈ a_dirty a → is_Some (a_accounts a x);
  ao_quiet x ao : is_addr x → x ∉ a_dirty a → a_accounts a x = Some ao → a_deleted ao = false → quiet ao;
  ao_codes x ao : is_addr x → x ∉ Q → x ∉ a_dirty a → x ∉ a_resets a → a_accounts a x = Some ao →
    a_deleted ao = false → persisted d ao;
  ao_synced x : is_addr x → x ∉ P → x ∉ a_dirty a → x ∉ a_resets a → synced (load m x) (a_accounts a x) }.

Record frame s s' : Prop := {
  fr_journal : st_journal s' = st_journal s;
  fr_revisions : validRevisions s' = validRevisions s;
  fr_next : nextRevisionId s' = nextRevisionId s;
  fr_grows : grows (st_db s) (st_db s') }.

#[local] Instance frame_preorder : PreOrder frame.
Proof.
  split; [by split|]. intros s1 s2 s3 [] []. split; [congruence..|by etrans].
Qed.

Lemma core_objs_obj s a addr o : core s a → stateObjects s !! addr = Some o →
  ∃ ao, a_accounts a addr = Some ao ∧ object_ok (st_db s) addr o ao.
Proof.
  intros Hc E. pose proof (co_objs _ _ Hc addr (co_keys _ _ Hc _ _ E)) as HF. unfold lookup_obj in HF. rewrite E in HF.
  inversion HF; subst; eauto.
Qed.

Lemma core_absent s a addr : core s a → is_addr addr → a_accounts a addr = None →
  stateObjects s !! addr = None ∧ load m addr = None.
Proof.
  intros Hc Hl E. pose proof (co_objs _ _ Hc addr Hl) as HF. rewrite E in HF. unfold lookup_obj in HF.
  destruct (stateObjects s !! addr); [inversion HF|]. split; [done|]. destruct (load m addr); [inversion HF|done].
Qed.

(** Only what is visible of the specification's state matters. *)
Lemma core_same s a a' : core s a →
  (∀ x, is_addr x → a_accounts a' x = a_accounts a x) → a_refund a' = a_refund a → a_thash a' = a_thash a →
  a_bhash a' = a_bhash a → a_txIndex a' = a_txIndex a → (∀ h, a_logs a' h = a_logs a h) → a_logSize a' = a_logSize a →
  a_preimages a' = a_preimages a → a_al a' = a_al a → a_dirty a' ⊆ dom (stateObjects s) → core s a'.
Proof.
  intros [] Ha Er Et Eb Ei El En Ep Eal Hd. split; try done; try congruence.
  intros x Hx. rewrite Ha by done. by apply co_objs0.
Qed.

(** Everything but the objects is as before. *)
Lemma core_objects s a s' : core s a → frame s s' →
  holds (st_db s') (st_trie s') m → sound (st_db s') →
  (∀ addr o, stateObjects s' !! addr = Some o → is_addr addr) →
  (∀ addr, is_addr addr → option_Forall2 (object_ok (st_db s') addr) (lookup_obj s' addr) (a_accounts a addr)) →
  dom (stateObjects s) ⊆ dom (stateObjects s') →
  stateObjectsPending s' = stateObjectsPending s → stateObjectsDirty s' = stateObjectsDirty s → refund s' = refund s →
  thash s' = thash s → bhash s' = bhash s → txIndex s' = txIndex s → logs s' = logs s → logSize s' = logSize s →
  preimages s' = preimages s → st_accessList s' = st_accessList s → core s' a.
Proof.
  intros [] Hf Ht Hs Hk Ho Hdom. intros. split; try done; try congruence; set_solver.
Qed.

(** Writing an account. *)
Lemma core_write s a addr o ao : core s a → is_addr addr → object_ok (st_db s) addr o ao →
  core (with_objects s (<[addr := o]> (stateObjects s))) (a_write addr (Some ao) a).
Proof.
  intros [] Hl Ho. split; cbn; try done.
  - intros x o'. rewrite lookup_insert. case_decide; [by subst|eauto].
  - intros x Hx. unfold lookup_obj, upd. cbn. rewrite lookup_insert. case_decide as E.
    + subst x. rewrite decide_True by done. by constructor.
    + rewrite decide_False by done. by apply co_objs0.
  - rewrite dom_insert. set_solver.
  - rewrite dom_insert. set_solver.
Qed.

Lemma load_object s a addr acc : core s a → is_addr addr → stateObjects s !! addr = None →
  load m addr = Some acc → ∃ ao, a_accounts a addr = Some ao ∧ object_ok (st_db s) addr (newObject addr (Some acc)) ao.
Proof.
  intros Hc Hl E1 E2. pose proof (co_objs _ _ Hc addr Hl) as HF. unfold lookup_obj in HF. rewrite E1, E2 in HF.
  inversion HF; subst; eauto.
Qed.

(** Looking an account up loads it if there is one. *)
Lemma getDeleted_ok s a addr : core s a → is_addr addr →
  ∃ s', getDeletedStateObject addr s = (s', Ok (stateObjects s' !! addr)) ∧ core s' a ∧ frame s s' ∧
    option_Forall2 (object_ok (st_db s') addr) (stateObjects s' !! addr) (a_accounts a addr).
Proof.
  intros Hc Hl. unfold getDeletedStateObject. destruct (stateObjects s !! addr) as [o|] eqn:E.
  { exists s. rewrite E. split_and!; try done. destruct (core_objs_obj s a addr o Hc E) as (ao & -> & Ho). by constructor. }
  destruct (TryGet_holds _ _ _ addr (co_trie _ _ Hc)) as (t & -> & Ht).
  assert (Hc1 : core (with_trie s t) a) by (destruct Hc; by split).
  destruct (load m addr) as [acc|] eqn:El.
  - destruct (m !! Keccak256 addr) as [e|] eqn:Em; [|unfold load in El; by rewrite Em in El].
    destruct (load_valid m addr e acc m_accounts Em El) as (_ & Hdec & Hne). cbn [default from_option id].
    destruct (load_object s a addr acc Hc Hl E El) as (ao & Ha & Ho).
    destruct e as [|b e]; [done|]. rewrite Hdec.
    exists (with_objects (with_trie s t) (<[addr := newObject addr (Some acc)]> (stateObjects s))). split; [|split].
    + cbn. by rewrite lookup_insert_eq.
    + eapply core_same; [apply (core_write (with_trie s t) a addr _ ao Hc1 Hl Ho)|..]; try done.
      * intros x Hx. cbn. unfold upd. by case_decide; [subst|].
      * cbn. rewrite dom_insert. pose proof (co_changed _ _ Hc). set_solver.
    + split; [by split|]. cbn. rewrite lookup_insert_eq, Ha. by constructor.
  - rewrite (load_None m addr m_accounts El). cbn [default from_option id]. exists (with_trie s t). cbn. rewrite E.
    split_and!; try done. pose proof (co_objs _ _ Hc addr Hl) as HF. unfold lookup_obj in HF. rewrite E, El in HF. exact HF.
Qed.

(** ** Undoing *)

(** Undoing the entry leads from a state that stands for the second to one that stands
    for the first, whatever was loaded in between. *)
Definition undoes d (e : journalEntry T) a0 a1 : Prop := ∀ s, grows d (st_db s) → core s a1 →
  ∃ s', revert_entry e s = (s', Ok ()) ∧ core s' a0 ∧ frame s s'.

Lemma undoes_grows d d' e a0 a1 : grows d d' → undoes d e a0 a1 → undoes d' e a0 a1.
Proof. intros Hg Hu s Hs. apply Hu. by etrans. Qed.

Lemma getStateObject_ok s a addr : core s a → is_addr addr →
  ∃ s' r, getStateObject addr s = (s', Ok r) ∧ core s' a ∧ frame s s' ∧
    match r with
    | Some o => ∃ ao, stateObjects s' !! addr = Some o ∧ a_accounts a addr = Some ao ∧ object_ok (st_db s') addr o ao ∧
                      a_deleted ao = false
    | None => ∀ ao, a_accounts a addr = Some ao → a_deleted ao = true
    end.
Proof.
  intros Hc Hl. destruct (getDeleted_ok s a addr Hc Hl) as (s' & E & Hc' & Hf & HF). unfold getStateObject, mbind, M_bind.
  rewrite E. eexists s', _. split; [done|]. split_and!; try done.
  destruct (stateObjects s' !! addr) as [o|] eqn:Eo; inversion HF as [? ao Ho|]; subst; [|by intros].
  rewrite (ok_deleted _ _ _ _ Ho). destruct (a_deleted ao) eqn:Ed; [congruence|]. exists ao. by split_and!.
Qed.

(** Entries about one account that exists afterwards. *)
Lemma undoes_update d e addr g k ao ao' a0 a1 :
  is_addr addr →
  revert_entry e = (o ← getStateObject addr; match o with Some o => setStateObject (g o) | None => k end) →
  (∀ o, address (g o) = address o) →
  (∀ d' o, grows d d' → object_ok d' addr o ao' → object_ok d' addr (g o) ao) →
  a_accounts a0 addr = Some ao → a_deleted ao' = false →
  a1 = a_write addr (Some ao') (a_record (Some addr) a0) → undoes d e a0 a1.
Proof.
  intros Hl He Ha Hg E0 Hd -> s Hs Hc. rewrite He. unfold mbind, M_bind.
  destruct (getStateObject_ok s _ addr Hc Hl) as (s' & r & -> & Hc' & Hf & Hr). cbn in Hr. unfold upd in Hr.
  rewrite decide_True in Hr by done. destruct r as [o|]; [|rewrite (Hr _ eq_refl) in Hd; done].
  destruct Hr as (ao1 & Eo & [= <-] & Ho & _). eexists. split; [done|].
  assert (Hao : object_ok (st_db s') addr (g o) ao) by (apply Hg; [etrans; [done|apply Hf]|done]).
  rewrite Ha, (ok_addr _ _ _ _ Ho). split.
  - eapply core_same; [apply (core_write s' _ addr (g o) ao Hc' Hl Hao)|..]; try done.
    + intros x Hx. cbn. unfold upd. by case_decide; [subst|].
    + cbn. rewrite dom_insert. pose proof (co_changed _ _ Hc') as Hch. cbn in Hch. set_solver.
  - etrans; [exact Hf|]. by split.
Qed.

(** ** The journal *)

Definition dirt : list (journalEntry T) → gmap Address Z :=
  foldr (λ e acc, match dirtied e with Some x => <[x := default 0 (acc !! x) + 1]> acc | None => acc end) ∅.

Lemma dirt_pos es x n : dirt es !! x = Some n → 0 < n.
Proof.
  revert n. induction es as [|e es IH]; intros n; cbn [dirt foldr]; [by rewrite lookup_empty|]. fold (dirt es).
  destruct (dirtied e) as [y|]; [|apply IH]. rewrite lookup_insert. case_decide as E; [|apply IH]. intros [= <-]. subst y.
  destruct (dirt es !! x) as [k|] eqn:Ek; cbn; [|lia]. specialize (IH k eq_refl). lia.
Qed.

Lemma journal_append_dirt e (j : journal T) : dirties j = dirt (entries j) →
  dirties (journal_append e j) = dirt (entries (journal_append e j)) ∧ entries (journal_append e j) = e :: entries j.
Proof.
  intros E. unfold journal_append. destruct (dirtied e) as [x|] eqn:Ee; cbn; rewrite ?Ee; [|done]. by rewrite E.
Qed.

Lemma journal_undirty_dirt e es (j : journal T) : dirties j = dirt (e :: es) →
  dirties (journal_undirty e j) = dirt es ∧ entries (journal_undirty e j) = entries j.
Proof.
  intros E. unfold journal_undirty. cbn [dirt foldr] in E. fold (dirt es) in E. destruct (dirtied e) as [x|]; [|done]. cbn.
  split; [|done]. rewrite E, lookup_insert_eq. cbn. replace (default 0 (dirt es !! x) + 1 - 1) with (default 0 (dirt es !! x)) by lia.
  destruct (dirt es !! x) as [n|] eqn:En; cbn.
  - pose proof (dirt_pos es x n En). destruct (Z.eqb_spec n 0); [lia|]. by rewrite insert_insert_eq, insert_id.
  - by rewrite delete_insert_id.
Qed.

(** The entries with the states before each of them. *)
Fixpoint chain d (es : list (journalEntry T)) a (hist : list AState) : Prop :=
  match es, hist with
  | [], [] => a_dirty a = ∅ ∧ a_clean a = true ∧ a_refund a = 0
  | e :: es, h :: hist =>
      undoes d e h a ∧ a_dirty a = match dirtied e with Some x => {[x]} ∪ a_dirty h | None => a_dirty h end ∧
      a_clean a = false ∧ chain d es h hist
  | _, _ => False
  end.

Lemma chain_grows d d' es a hist : grows d d' → chain d es a hist → chain d' es a hist.
Proof.
  intros Hg. revert a hist. induction es as [|e es IH]; intros a [|h hist]; try done. cbn.
  intros (Hu & ? & ? & Hc). split_and!; eauto using undoes_grows.
Qed.

Lemma chain_dirty d es a hist : chain d es a hist → dom (dirt es) = a_dirty a.
Proof.
  revert a hist. induction es as [|e es IH]; intros a [|h hist]; try done; cbn.
  - intros (-> & _). by rewrite dom_empty_L.
  - intros (_ & -> & _ & Hc). fold (dirt es). rewrite <- (IH _ _ Hc). destruct (dirtied e); [|done]. by rewrite dom_insert_L.
Qed.

Lemma chain_length d es a hist : chain d es a hist → length hist = length es.
Proof.
  revert a hist. induction es as [|e es IH]; intros a [|h hist]; try done; cbn. intros (_ & _ & _ & Hc). f_equal. eauto.
Qed.

(** Undoing the newest entries. *)
Lemma revert_entries_ok n s a hist es : core s a → chain (st_db s) es a hist → dirties (st_journal s) = dirt es →
  (n ≤ length es)%nat →
  ∃ s' a', revert_entries (take n es) s = (s', Ok ()) ∧ core s' a' ∧ (a :: hist) !! n = Some a' ∧
    chain (st_db s') (drop n es) a' (drop n hist) ∧ dirties (st_journal s') = dirt (drop n es) ∧
    entries (st_journal s') = entries (st_journal s) ∧ validRevisions s' = validRevisions s ∧
    nextRevisionId s' = nextRevisionId s ∧ grows (st_db s) (st_db s').
Proof.
  revert s a hist es. induction n as [|n IH]; intros s a hist es Hc Hch Hd Hn.
  { exists s, a. rewrite !drop_0. by split_and!. }
  destruct es as [|e es], hist as [|h hist]; cbn in Hn; try done; [lia|]. cbn in Hch. destruct Hch as (Hu & _ & _ & Hch).
  destruct (Hu s) as (s1 & E1 & Hc1 & Hf1); [done..|]. cbn [take revert_entries]. unfold mbind, M_bind. rewrite E1. cbn [modify].
  destruct (journal_undirty_dirt e es (st_journal s1)) as [Hd1 He1]; [by rewrite (fr_journal _ _ Hf1)|].
  set (s2 := with_journal s1 (journal_undirty e (st_journal s1))).
  destruct (IH s2 h hist es) as (s' & a' & -> & Hc' & Ha' & Hch' & Hd' & He' & Hv' & Hx' & Hg'); [|..].
  - destruct Hc1. by split.
  - eapply chain_grows; [apply Hf1|]. done.
  - done.
  - lia.
  - exists s', a'. split_and!; try done.
    + rewrite He'. cbn. by rewrite He1, (fr_journal _ _ Hf1).
    + by rewrite Hv', <- (fr_revisions _ _ Hf1).
    + by rewrite Hx', <- (fr_next _ _ Hf1).
    + etrans; [apply Hf1|done].
Qed.

(** ** Simulation *)

Record Inv s a (hist : list AState) : Prop := {
  iv_core : core s a;
  iv_chain : chain (st_db s) (entries (st_journal s)) a hist;
  iv_ok : Forall (a_ok (st_db s)) (a :: hist);
  iv_dirties : dirties (st_journal s) = dirt (entries (st_journal s)) }.

(** A step: the specification's earlier states are still there, the snapshots untouched. *)
Record steps s s' (l l' : list AState) : Prop := {
  sp_suffix : l `suffix_of` l';
  sp_revisions : validRevisions s' = validRevisions s;
  sp_next : nextRevisionId s' = nextRevisionId s }.

Definition sim {A B} (Pre : StateDB → AState → Prop) (c : M StateDB A) (f : M AState B)
    (Post : StateDB → A → AState → B → Prop) : Prop :=
  ∀ s a hist, Inv s a hist → Pre s a →
  match f a with
  | (a', Ok y) => ∃ s' x hist', c s = (s', Ok x) ∧ Inv s' a' hist' ∧ steps s s' (a :: hist) (a' :: hist') ∧ Post s' x a' y
  | (_, Panic p) => ∃ s', c s = (s', Panic p)
  | (_, Err e) => ∃ s', c s = (s', Err e)
  end.

Lemma sim_bind {A B A' B'} Pre (c : M StateDB A) (f : M AState B) (R : StateDB → A → AState → B → Prop)
    (k : A → M StateDB A') (fk : B → M AState B') Post :
  sim Pre c f R → (∀ x y, sim (λ s a, R s x a y) (k x) (fk y) Post) → sim Pre (c ≫= k) (f ≫= fk) Post.
Proof.
  intros Hc Hk s a hist HI HP. specialize (Hc s a hist HI HP). unfold mbind, M_bind.
  destruct (f a) as [a1 [y|e|p]]; [|destruct Hc as [s' ->]; by eexists..].
  destruct Hc as (s1 & x & hist1 & -> & HI1 & Hs1 & HR). specialize (Hk x y s1 a1 hist1 HI1 HR).
  destruct (fk y a1) as [a2 [z|e|p]]; try done. destruct Hk as (s2 & w & hist2 & -> & HI2 & Hs2 & HP2).
  exists s2, w, hist2. split_and!; try done. destruct Hs1, Hs2. split; [by etrans|congruence..].
Qed.

Lemma sim_ret {A B} (x : A) (y : B) (Pre : StateDB → AState → Prop) Post :
  (∀ s a, Pre s a → Post s x a y) → sim Pre (mret x) (mret y) Post.
Proof. intros Hp s a hist HI HP. exists s, x, hist. split_and!; [done|done|by split|by apply Hp]. Qed.

Lemma sim_weaken {A B} (Pre Pre' : StateDB → AState → Prop) (c : M StateDB A) (f : M AState B) (Post Post' : _ → _ → _ → _ → Prop) :
  sim Pre c f Post → (∀ s a, Pre' s a → Pre s a) → (∀ s x a y, Post s x a y → Post' s x a y) → sim Pre' c f Post'.
Proof.
  intros Hc HP HQ s a hist HI HP'. specialize (Hc s a hist HI (HP _ _ HP')). destruct (f a) as [a1 [y|e|p]]; try done.
  destruct Hc as (s1 & x & h1 & ? & ? & ? & ?). exists s1, x, h1. split_and!; eauto.
Qed.

Lemma a_ok_grows d d' a : grows d d' → a_ok d a → a_ok d' a.
Proof.
  intros Hg [O1 O2 O3 O4]. split; eauto. intros x ao ? ? ? ? ? ?. destruct (O3 x ao) as [|]; try done; [by left|right; by apply Hg].
Qed.

Lemma Forall_ok_grows d d' l : grows d d' → Forall (a_ok d) l → Forall (a_ok d') l.
Proof. intros Hg Hl. eapply Forall_impl; [exact Hl|]. intros a. by apply a_ok_grows. Qed.

(** Steps that record nothing. *)
Lemma Inv_silent s s' a hist : Inv s a hist → core s' a → frame s s' →
  Inv s' a hist ∧ steps s s' (a :: hist) (a :: hist).
Proof.
  intros [Hc Hch Hok Hd] Hc' Hf. split.
  - split; [done| |eapply Forall_ok_grows; [apply Hf|done]|]; rewrite (fr_journal _ _ Hf); [|done].
    eapply chain_grows; [apply Hf|done].
  - split; [done|apply Hf..].
Qed.

(** Steps that record an entry. *)
Lemma Inv_record s s' e a a' hist : Inv s a hist → core s' a' → undoes (st_db s') e a a' → a_ok (st_db s') a' →
  st_journal s' = journal_append e (st_journal s) → validRevisions s' = validRevisions s →
  nextRevisionId s' = nextRevisionId s → grows (st_db s) (st_db s') →
  a_dirty a' = match dirtied e with Some x => {[x]} ∪ a_dirty a | None => a_dirty a end → a_clean a' = false →
  Inv s' a' (a :: hist) ∧ steps s s' (a :: hist) (a' :: a :: hist).
Proof.
  intros [Hc Hch Hok Hd] Hc' Hu Hok' Ej Hv Hn Hg Hdirty Hcl. destruct (journal_append_dirt e _ Hd) as [Hd' He']. split.
  - split; [done| |constructor; [done|by eapply Forall_ok_grows]|by rewrite Ej]. rewrite Ej, He'. cbn. split_and!; try done. by eapply chain_grows.
  - split; [by exists [a']|done..].
Qed.

(** The account of an address as the code and the specification see it. *)
Definition at_addr (addr : Address) o ao s a : Prop :=
  stateObjects s !! addr = Some o ∧ a_accounts a addr = Some ao.

Lemma at_addr_ok addr o ao s a : core s a → at_addr addr o ao s a → object_ok (st_db s) addr o ao ∧ is_addr addr.
Proof.
  intros Hc [E1 E2]. destruct (core_objs_obj s a addr o Hc E1) as (ao' & E & Ho). simplify_eq.
  split; [done|by eapply co_keys].
Qed.

Definition found (addr : Address) s (x : option stateObject) a (y : option aobj) : Prop :=
  match x, y with
  | Some o, Some ao => at_addr addr o ao s a ∧ a_deleted ao = false
  | None, None => ∀ ao, a_accounts a addr = Some ao → a_deleted ao = true
  | _, _ => False
  end.

Lemma sim_live addr Pre : is_addr addr → sim Pre (getStateObject addr) (a_live addr) (found addr).
Proof.
  intros Hl s a hist HI _. destruct (getStateObject_ok s a addr (iv_core _ _ _ HI) Hl) as (s' & r & E & Hc & Hf & Hr).
  cbn. destruct (Inv_silent _ _ _ _ HI Hc Hf) as [HI' Hs]. exists s', r, hist. split_and!; try done.
  destruct r as [o|].
  - destruct Hr as (ao & E1 & E2 & Ho & Hdel). rewrite E2, Hdel. by split.
  - destruct (a_accounts a addr) as [ao|] eqn:Ea; [|by intros ao ?; simplify_eq].
    rewrite (Hr ao eq_refl). intros ao' E'. apply Hr. congruence.
Qed.

(** Reading from an account. *)
Lemma sim_read {A B} addr (f : option stateObject → A) (g : option aobj → B) Pre (R : A → B → Prop) :
  is_addr addr → R (f None) (g None) →
  (∀ d o ao, object_ok d addr o ao → R (f (Some o)) (g (Some ao))) →
  sim Pre (o ← getStateObject addr; mret (f o)) (o ← a_live addr; mret (g o)) (λ _ x _ y, R x y).
Proof.
  intros Hl Hn Hs. eapply sim_bind; [by apply sim_live|]. intros x y s a hist HI HF. cbn.
  exists s, (f x), hist. split_and!; [done|done|by split|]. destruct x as [o|], y as [ao|]; try done.
  destruct HF as [Hat _]. destruct (at_addr_ok _ _ _ _ _ (iv_core _ _ _ HI) Hat) as [Ho _]. by eapply Hs.
Qed.

Lemma emptyRoot_ne : emptyRoot ≠ zero_hash.
Proof. vm_compute. congruence. Qed.

Lemma fresh_ok d addr : sound d → is_addr addr → object_ok d addr (setNonce 0 (newObject addr None)) fresh.
Proof.
  intros Hd Hl. split; try done. { by left. } exists ∅. split.
  - pose proof (opens_empty (T := T) d Hd) as Hop. pose proof (opens_root d _ _ Hop emptyRoot_ne).
    split; cbn; try done; intros ? ?; by rewrite lookup_empty.
  - intros k Hk. unfold current_val, committed_val, slot_val. cbn. by rewrite !lookup_empty.
Qed.

(** An account stays as the trie has it, or it is marked. *)
Lemma a_ok_write d addr ao a : a_ok d a → a_ok d (a_write addr (Some ao) (a_record (Some addr) a)).
Proof.
  intros [O1 O2 O3 O4]. split; cbn; unfold upd.
  - intros x Hx. case_decide; [done|]. apply O1. set_solver.
  - intros x y Hx HD. rewrite decide_False by set_solver. apply O2; [done|set_solver].
  - intros x y Hx HQ HD HR. rewrite decide_False by set_solver. apply O3; [done|done|set_solver|done].
  - intros x Hx HP HD HR. rewrite decide_False by set_solver. apply O4; [done|done|set_solver|done].
Qed.
Lemma a_ok_same d a a' : a_ok d a → a_accounts a' = a_accounts a → a_dirty a' = a_dirty a → a_resets a' = a_resets a → a_ok d a'.
Proof. intros [O1 O2 O3 O4] E1 E2 E3. split; rewrite ?E1, ?E2, ?E3; done. Qed.

(** ** Changing an account *)

Lemma sim_update addr o ao o' ao' e g k (Post : _ → _ → _ → _ → Prop) :
  address o' = addr → dirtied e = Some addr → a_deleted ao' = false →
  (∀ d, object_ok d addr o ao → object_ok d addr o' ao') →
  revert_entry e = (o ← getStateObject addr; match o with Some o => setStateObject (g o) | None => k end) →
  (∀ o, address (g o) = address o) →
  (∀ d d' o1, object_ok d addr o ao → grows d d' → object_ok d' addr o1 ao' → object_ok d' addr (g o1) ao) →
  (∀ s a, at_addr addr o' ao' s a → Post s () a ()) →
  sim (at_addr addr o ao) (append e;; setStateObject o') (a_update addr ao') Post.
Proof.
  intros Ha He Hdel Hnew Hrev Hg Hold HP s a hist HI Hat. cbn.
  destruct (at_addr_ok _ _ _ _ _ (iv_core _ _ _ HI) Hat) as [Ho Hl]. destruct Hat as [E1 E2].
  set (s1 := with_journal s (journal_append e (st_journal s))).
  set (a' := a_write addr (Some ao') (a_record (Some addr) a)).
  assert (Hc' : core (with_objects s1 (<[address o' := o']> (stateObjects s1))) a').
  { rewrite Ha. eapply core_same; [apply (core_write s1 a addr o' ao')|..]; try done.
    - destruct (iv_core _ _ _ HI). by split.
    - by apply Hnew.
    - cbn. rewrite dom_insert. pose proof (co_changed _ _ (iv_core _ _ _ HI)). set_solver. }
  destruct (Inv_record s (with_objects s1 (<[address o' := o']> (stateObjects s1))) e a a' hist HI Hc') as [HI' Hs]; try done.
  - eapply (undoes_update _ e addr g k ao ao'); try done. intros d' o1 Hgr. by eapply Hold.
  - apply a_ok_write. by pose proof (iv_ok _ _ _ HI) as ?%Forall_inv.
  - by rewrite He.
  - eexists _, (), (a :: hist). split; [done|]. split; [exact HI'|]. split; [exact Hs|]. apply HP. split.
    + cbn. by rewrite Ha, lookup_insert_eq.
    + cbn. unfold upd. by rewrite decide_True.
Qed.

(** ** Methods of objects *)

Lemma ok_setBalance d addr o ao x : object_ok d addr o ao → object_ok d addr (setBalance x o) (a_with_balance x ao).
Proof.
  intros [? Hd ? ? ? ? ? ? ? (sm & [] & Hv)]. split; cbn; try done; [by rewrite Hd|].
  exists sm. split; [|exact Hv]. by split.
Qed.

Lemma ok_setNonce d addr o ao x : object_ok d addr o ao → object_ok d addr (setNonce x o) (a_with_nonce x ao).
Proof.
  intros [? Hd ? ? ? ? ? ? ? (sm & [] & Hv)]. split; cbn; try done; [by rewrite Hd|].
  exists sm. split; [|exact Hv]. by split.
Qed.

Lemma ok_suicide d addr o ao x b : object_ok d addr o ao →
  object_ok d addr (setBalance x (with_flags o b (deleted o))) (a_with_balance x (a_with_suicided b ao)).
Proof.
  intros [? Hd ? ? ? ? ? ? ? (sm & [] & Hv)]. split; cbn; try done; [by rewrite Hd|].
  exists sm. split; [|exact Hv]. by split.
Qed.

Lemma ok_setCode d addr o ao c : object_ok d addr o ao →
  object_ok d addr (setCode (Keccak256 (default [] c)) c o) (a_with_code (default [] c) ao).
Proof.
  intros [? Hd ? ? ? ? ? ? ? (sm & [] & Hv)]. split; cbn; try done; [by rewrite Hd|..].
  - unfold code_ok. cbn. destruct c; [by split|by left].
  - exists sm. split; [|exact Hv]. by split.
Qed.

(** Code that is put back. *)
Lemma ok_undoCode d d' addr o o1 ao c prev : object_ok d addr o ao → grows d d' → object_ok d' addr o1 (a_with_code c ao) →
  match prev with Some x => x = a_code ao | None => a_codehash ao = emptyCodeHash ∧ a_code ao = [] end →
  object_ok d' addr (setCode (BytesToHash (acc_CodeHash (data o))) prev o1) ao.
Proof.
  intros Ho Hg [? Hd ? ? ? ? ? ? ? (sm & [] & Hv)] Hp. pose proof (ok_hash _ _ _ _ Ho) as Hh.
  assert (Hb : BytesToHash (acc_CodeHash (data o)) = a_codehash ao).
  { rewrite (ok_data _ _ _ _ Ho). cbn. rewrite Hh. unfold BytesToHash. rewrite Keccak256_length, drop_0. by rewrite Keccak256_length. }
  rewrite Hb. cbn in *. split; cbn; try done; [by rewrite Hd|..].
  - unfold code_ok. cbn. destruct prev; [by split|by left].
  - exists sm. split; [|exact Hv]. by split.
Qed.

Lemma ok_setState d addr o ao ao' k v : object_ok d addr o ao → is_slot k → is_word v → is_Some (originStorage o !! k) →
  a_nonce ao' = a_nonce ao → a_balance ao' = a_balance ao → a_codehash ao' = a_codehash ao → a_code ao' = a_code ao →
  a_root ao' = a_root ao → a_suicided ao' = a_suicided ao → a_deleted ao' = a_deleted ao →
  a_written ao' ⊆ {[k]} ∪ a_written ao → (∀ x, a_storage ao' x = upd k v (a_storage ao) x) →
  (∀ x, a_committed ao' x = a_committed ao x) →
  object_ok d addr (setState k v o) ao'.
Proof.
  intros [? Hd Hh Hc ? ? ? ? Hw (sm & [] & Hv)] Hk Hvw Hor E1 E2 E3 E4 E5 E6 E7 Hwr Est Eco.
  split; cbn; try done; try congruence.
  - unfold code_ok, persisted in *. cbn. by rewrite E3, E4.
  - intros x Hx. apply Hwr in Hx. destruct (decide (x = k)) as [->|]; [done|]. apply Hw. set_solver.
  - exists sm. split.
    + split; cbn; try done. intros x y. rewrite lookup_insert. case_decide; [intros [= <-]; by subst|eauto].
    + intros x Hx. rewrite Est, Eco. destruct (Hv x Hx) as [Hv1 Hv2]. split; [|done].
      unfold current_val, upd. cbn. rewrite lookup_insert. destruct (decide (x = k)) as [->|]; [by rewrite decide_True|].
      rewrite decide_False by done. done.
Qed.

(** Overwriting or creating an account. *)
Lemma undoes_create d addr a0 a1 :
  is_addr addr → addr ∉ a_dirty a0 → (∃ s, core s a0) → a_accounts a0 addr = None → is_Some (a_accounts a1 addr) →
  (∀ x, x ≠ addr → a_accounts a1 x = a_accounts a0 x) →
  a1 = mkAState (a_accounts a1) (a_refund a0) (a_thash a0) (a_bhash a0) (a_txIndex a0) (a_logs a0) (a_logSize a0)
    (a_preimages a0) (a_al a0) ({[addr]} ∪ a_dirty a0) (a_resets a0) false →
  undoes d (createObjectChange addr) a0 a1.
Proof.
  intros Hl Hnd [s0 Hc0] E0 [ao1 E1] Hx Ea s Hg Hc. destruct (core_absent s0 a0 addr Hc0 Hl E0) as [Es0 Elo].
  assert (HPQ : addr ∉ P ∪ Q).
  { intros Hin%(co_sets _ _ Hc0). apply elem_of_dom in Hin as [? Hin]. congruence. }
  cbn. eexists. split; [done|]. split; [|by split].
  destruct Hc. rewrite Ea in *. cbn in *. split; cbn; try done.
  - intros x o. rewrite lookup_delete_Some. intros [_ ?]. eauto.
  - intros x Hlx. unfold lookup_obj. cbn. destruct (decide (x = addr)) as [->|Hne].
    + rewrite lookup_delete_eq, Elo, E0. constructor.
    + rewrite lookup_delete_ne, <- Hx by done. specialize (co_objs0 x Hlx). exact co_objs0.
  - rewrite co_dirty0. set_solver.
  - rewrite dom_delete. set_solver.
  - rewrite dom_delete. set_solver.
Qed.

Lemma undoes_reset d addr prev ao0 a0 a1 :
  is_addr addr → object_ok d addr prev ao0 → a_accounts a0 addr = Some ao0 →
  (∀ x, x ≠ addr → a_accounts a1 x = a_accounts a0 x) →
  (∃ l, a1 = mkAState (a_accounts a1) (a_refund a0) (a_thash a0) (a_bhash a0) (a_txIndex a0) (a_logs a0) (a_logSize a0)
    (a_preimages a0) (a_al a0) (a_dirty a0) l false) →
  undoes d (resetObjectChange prev) a0 a1.
Proof.
  intros Hl Hp E0 Hx [l Ea] s Hg Hc. cbn. eexists. split; [done|]. split; [|by split].
  rewrite (ok_addr _ _ _ _ Hp). eapply core_same.
  { apply (core_write s a1 addr prev ao0 Hc Hl). by eapply object_ok_grows. }
  all: try by rewrite Ea.
  - intros x Hlx. cbn. unfold upd. case_decide; [by subst|]. by rewrite Hx.
  - cbn. rewrite dom_insert. pose proof (co_changed _ _ Hc) as Hch. rewrite Ea in Hch. cbn in Hch. set_solver.
Qed.

Lemma Inv_create addr o ao s a hist : is_addr addr → Inv s a hist →
  (∀ d, sound d → object_ok d addr o ao) → quiet ao →
  ∃ s', getDeletedStateObject addr s = (s', Ok (stateObjects s' !! addr)) ∧
    option_Forall2 (object_ok (st_db s') addr) (stateObjects s' !! addr) (a_accounts a addr) ∧
    let e := match stateObjects s' !! addr with None => createObjectChange addr | Some p => resetObjectChange p end in
    let s1 := with_journal s' (journal_append e (st_journal s')) in
    let s2 := with_objects s1 (<[addr := o]> (stateObjects s1)) in
    let a' := created addr (a_accounts a addr) ao a in
    Inv s2 a' (a :: hist) ∧ steps s s2 (a :: hist) (a' :: a :: hist) ∧ at_addr addr o ao s2 a'.
Proof.
  intros Hl HI Ho Hq. destruct (getDeleted_ok s a addr (iv_core _ _ _ HI) Hl) as (s' & E & Hc & Hf & HF).
  exists s'. split; [done|]. split; [done|]. cbn zeta.
  set (e := match stateObjects s' !! addr with None => createObjectChange addr | Some p => resetObjectChange p end).
  set (s1 := with_journal s' (journal_append e (st_journal s'))).
  set (s2 := with_objects s1 (<[addr := o]> (stateObjects s1))). set (a' := created addr (a_accounts a addr) ao a).
  pose proof (iv_ok _ _ _ HI) as Hok%Forall_inv.
  assert (Hc2 : core s2 a').
  { eapply core_same; [apply (core_write s1 a addr o ao)|..].
    { destruct Hc. by split. }
    { done. }
    { apply Ho. apply Hc. }
    all: try (subst a'; unfold created; by destruct (a_accounts a addr)).
    subst a' s2 s1. unfold created. cbn. rewrite dom_insert. pose proof (co_changed _ _ Hc).
    destruct (a_accounts a addr); cbn; set_solver. }
  assert (Hother : ∀ x, x ≠ addr → a_accounts a' x = a_accounts a x).
  { intros x Hx. subst a'. unfold created. destruct (a_accounts a addr); cbn; unfold upd; by rewrite decide_False. }
  assert (Hhere : a_accounts a' addr = Some ao).
  { subst a'. unfold created. destruct (a_accounts a addr); cbn; unfold upd; by rewrite decide_True. }
  assert (Hrec : Inv s2 a' (a :: hist) ∧ steps s s2 (a :: hist) (a' :: a :: hist)).
  { apply (Inv_record s s2 e a a' hist HI Hc2).
    - subst e. destruct (stateObjects s' !! addr) as [p|] eqn:Ep; destruct (a_accounts a addr) as [ao0|] eqn:Ea;
        inversion HF as [? ? Hp|]; subst.
      + eapply (undoes_reset _ addr p ao0); try done. by exists ({[addr]} ∪ a_resets a).
      + eapply undoes_create; try done; [|exists s; apply HI]. intros Hin%(ao_dirty _ _ Hok). rewrite Ea in Hin. by destruct Hin.
    - subst a'. unfold created. destruct (a_accounts a addr) as [ao0|] eqn:Ea.
      + eapply a_ok_grows in Hok as [O1 O2 O3 O4]; [|apply Hf]. split; cbn; unfold upd.
        * intros x Hx. case_decide; [done|]. by apply O1.
        * intros x y Hx HD. case_decide; [by intros [= <-]|by apply O2].
        * intros x y Hx HQ HD HR. rewrite decide_False by set_solver. apply O3; try done. set_solver.
        * intros x Hx HP HD HR. rewrite decide_False by set_solver. apply O4; try done. set_solver.
      + apply a_ok_write. eapply a_ok_grows; [apply Hf|done].
    - subst s2 s1. cbn. by rewrite (fr_journal _ _ Hf).
    - apply Hf.
    - apply Hf.
    - apply Hf.
    - subst a' e. unfold created. destruct (stateObjects s' !! addr), (a_accounts a addr); by inversion HF.
    - subst a'. unfold created. by destruct (a_accounts a addr). }
  destruct Hrec as [HI' Hs]. split_and!; try done. split; [cbn; by rewrite lookup_insert_eq|done].
Qed.

(** ** The operations on accounts *)

Lemma core_put s a addr o ao : core s a → is_addr addr → a_accounts a addr = Some ao →
  object_ok (st_db s) addr o ao → core (with_objects s (<[addr := o]> (stateObjects s))) a.
Proof.
  intros Hc Hl E Ho. eapply core_same; [by apply (core_write s a addr o ao)|..]; try done.
  - intros x Hx. cbn. unfold upd. by case_decide; [subst|].
  - cbn. rewrite dom_insert. pose proof (co_changed _ _ Hc). set_solver.
Qed.

(** A method that only fills the caches of an object. *)
Lemma sim_object {A B} addr o ao (c : M StateDB A) (y : B) (Post : StateDB → A → AState → B → Prop) :
  (∀ s a, core s a → at_addr addr o ao s a → ∃ s' x, c s = (s', Ok x) ∧ core s' a ∧ frame s s' ∧ Post s' x a y) →
  sim (at_addr addr o ao) c (mret y) Post.
Proof.
  intros Hc s a hist HI Hat. destruct (Hc s a (iv_core _ _ _ HI) Hat) as (s' & x & E & Hc' & Hf & HP). cbn.
  destruct (Inv_silent _ _ _ _ HI Hc' Hf) as [HI' Hs]. by exists s', x, hist.
Qed.

Lemma sim_on_object {A} addr o ao (get : D → M stateObject A) (y : A) (K : stateObject → Prop) :
  (∀ d, object_ok d addr o ao → ∃ o', get d o = (o', Ok y) ∧ object_ok d addr o' ao ∧ K o') →
  sim (at_addr addr o ao) (on_object o get) (mret y) (λ s x a z, x.2 = z ∧ K x.1 ∧ at_addr addr x.1 ao s a).
Proof.
  intros Hg. apply sim_object. intros s a Hc Hat. destruct (at_addr_ok _ _ _ _ _ Hc Hat) as [Ho Hl]. destruct Hat as [E1 E2].
  destruct (Hg _ Ho) as (o' & E & Ho' & HK). unfold on_object. rewrite E. cbn. eexists _, _. split; [done|].
  rewrite (ok_addr _ _ _ _ Ho'). split; [by eapply core_put|]. split; [by split|]. split_and!; try done.
  split; [|done]. cbn. by rewrite lookup_insert_eq.
Qed.

Lemma sim_create addr Pre : is_addr addr →
  sim Pre (createObject addr) (a_create addr fresh) (λ s x a y, at_addr addr x.1 fresh s a).
Proof.
  intros Hl s a hist HI _. destruct (Inv_create addr (setNonce 0 (newObject addr None)) fresh s a hist Hl HI)
    as (s' & E & HF & HI' & Hs & Hat); [by intros; apply fresh_ok|done|].
  unfold createObject, mbind, M_bind. rewrite E. cbn in *. eexists _, _, (a :: hist). split; [done|]. by split_and!.
Qed.

Lemma sim_live_or_new addr Pre : is_addr addr →
  sim Pre (GetOrNewStateObject addr) (a_live_or_new addr) (λ s o a ao, at_addr addr o ao s a ∧ a_deleted ao = false).
Proof.
  intros Hl. eapply sim_bind; [by apply sim_live|]. intros [o|] [ao|].
  - apply sim_ret. by intros s a [? ?].
  - by intros s a hist _ ?.
  - by intros s a hist _ ?.
  - eapply sim_bind; [by apply sim_create|]. intros [o prev] y. apply sim_ret. by intros s a Hat.
Qed.

Lemma sim_CreateAccount addr Pre : is_addr addr →
  sim Pre (CreateAccount addr) (a_CreateAccount addr) (λ _ _ _ _, True).
Proof.
  intros Hl s a hist HI _. set (b := match a_accounts a addr with Some p => a_balance p | None => 0 end).
  destruct (Inv_create addr (setBalance b (setNonce 0 (newObject addr None))) (a_with_balance b fresh) s a hist Hl HI)
    as (s' & E & HF & HI' & Hs & Hat).
  { intros d Hd. by apply ok_setBalance, fresh_ok. }
  { done. }
  assert (Es : a_CreateAccount addr a = (created addr (a_accounts a addr) (a_with_balance b fresh) a, Ok ())) by done.
  rewrite Es. clear Es. unfold CreateAccount, createObject, mbind, M_bind. rewrite E. cbn in *. subst b.
  destruct (stateObjects s' !! addr) as [p|], (a_accounts a addr) as [ao0|]; inversion HF as [? ? Hp|]; subst; cbn.
  - eexists _, (), (a :: hist). split; [|split; [exact HI'|by split]]. unfold setStateObject, modify, with_objects, with_journal.
    cbn. by rewrite insert_insert_eq, (ok_data _ _ _ _ Hp).
  - eexists _, (), (a :: hist). split; [done|]. by split_and!.
Qed.

Definition same {A} (_ : StateDB) (x : A) (_ : AState) (y : A) : Prop := x = y.

(** The code does something first that the specification does not see. *)
Lemma sim_first {A A' B B'} Pre (c : M StateDB A) (y : B) (R : StateDB → A → AState → B → Prop)
    (k : A → M StateDB A') (f : M AState B') Post :
  sim Pre c (mret y) R → (∀ x, sim (λ s a, R s x a y) (k x) f Post) → sim Pre (c ≫= k) f Post.
Proof.
  intros Hc Hk s a hist HI HP. destruct (Hc s a hist HI HP) as (s1 & x & hist1 & E & HI1 & Hs1 & HR).
  unfold mbind, M_bind. rewrite E. specialize (Hk x s1 a hist1 HI1 HR). destruct (f a) as [a2 [z|e|p]]; try done.
  destruct Hk as (s2 & w & hist2 & -> & HI2 & Hs2 & HP2). exists s2, w, hist2. split_and!; try done.
  destruct Hs1, Hs2. split; [by etrans|congruence..].
Qed.

Lemma sim_live_then {A B} addr Pre (f : stateObject → M StateDB A) (n : A) (g : aobj → B) (z : B) (R : A → B → Prop) :
  is_addr addr → R n z →
  (∀ o ao, sim (at_addr addr o ao) (f o) (mret (g ao)) (λ _ x _ y, R x y)) →
  sim Pre (o ← getStateObject addr; match o with Some o => f o | None => mret n end)
          (o ← a_live addr; mret (match o with Some ao => g ao | None => z end)) (λ _ x _ y, R x y).
Proof.
  intros Hl Hn Hf. eapply sim_bind; [by apply sim_live|]. intros [o|] [ao|].
  - eapply sim_weaken; [apply Hf| |done]. by intros s a [? _].
  - by intros s a hist _ ?.
  - by intros s a hist _ ?.
  - by apply sim_ret.
Qed.

Lemma match_swap {A B} (f : A → B) (z : B) (o : option A) :
  match o with None => z | Some x => f x end = match o with Some x => f x | None => z end.
Proof. by destruct o. Qed.

Lemma sim_GetState addr k Pre : is_addr addr → is_slot k →
  sim Pre (GetState addr k) (a_GetState addr k) same.
Proof.
  intros Hl Hk. apply (sim_live_then addr Pre (λ o, '(_, v) ← on_object o (λ d, so_GetState d k); mret v) zero_hash
    (λ ao, a_storage ao k) zero_hash eq Hl eq_refl). intros o ao.
  eapply (sim_first _ _ (a_storage ao k)).
  - apply (sim_on_object _ _ _ _ _ (λ _, True)). intros d Ho.
    destruct (so_GetState_ok d addr o ao k Ho Hk) as (o' & E & Ho' & _). by exists o'.
  - intros [o' v]. apply sim_ret. by intros s a [? _].
Qed.

Lemma sim_GetCommittedState addr k Pre : is_addr addr → is_slot k →
  sim Pre (GetCommittedState addr k) (a_GetCommittedState addr k) same.
Proof.
  intros Hl Hk. apply (sim_live_then addr Pre (λ o, '(_, v) ← on_object o (λ d, so_GetCommittedState d k); mret v) zero_hash
    (λ ao, a_committed ao k) zero_hash eq Hl eq_refl). intros o ao.
  eapply (sim_first _ _ (a_committed ao k)).
  - apply (sim_on_object _ _ _ _ _ (λ _, True)). intros d Ho.
    destruct (so_GetCommittedState_ok d addr o ao k Ho Hk) as (o' & E & Ho' & _). by exists o'.
  - intros [o' v]. apply sim_ret. by intros s a [? _].
Qed.

Lemma BytesToHash_code d addr o ao : object_ok d addr o ao → BytesToHash (acc_CodeHash (data o)) = a_codehash ao.
Proof.
  intros Ho. rewrite (ok_data _ _ _ _ Ho). cbn. rewrite (ok_hash _ _ _ _ Ho). unfold BytesToHash.
  rewrite Keccak256_length, drop_0. by rewrite Keccak256_length.
Qed.

Lemma core_db s a d' : core s a → grows (st_db s) d' → core (with_db s d') a.
Proof.
  intros [] Hg. split; try done; [by apply Hg|by apply Hg|]. intros x Hx. unfold lookup_obj. cbn.
  specialize (co_objs0 x Hx). unfold lookup_obj in co_objs0. inversion co_objs0; constructor. by eapply object_ok_grows.
Qed.

Lemma sim_Code addr o ao :
  sim (at_addr addr o ao) (so_Code o) (mret (a_code ao)) (λ s x a y, at_addr addr x.1 ao s a ∧ default [] x.2 = y ∧
    match x.2 with Some c => c = a_code ao | None => a_codehash ao = emptyCodeHash ∧ a_code ao = [] end).
Proof.
  apply sim_object. intros s a Hc Hat. destruct (at_addr_ok _ _ _ _ _ Hc Hat) as [Ho Hl]. pose proof (ok_code _ _ _ _ Ho) as Hco.
  unfold so_Code. unfold code_ok in Hco. destruct (code o) as [c|] eqn:Ec.
  { destruct Hco as [-> _]. exists s, (o, Some (a_code ao)). by split_and!. }
  assert (Eh0 : acc_CodeHash (data o) = a_codehash ao) by (by rewrite (ok_data _ _ _ _ Ho)).
  destruct Hco as [[Eh Hn]|[Hne Hh]].
  - rewrite bool_decide_eq_true_2 by congruence. exists s, (o, None). by split_and!.
  - rewrite bool_decide_eq_false_2, (BytesToHash_code _ _ _ _ Ho) by congruence.
    destruct (ContractCode_has (T := T) (st_db s) (addrHash o) _ _ (co_sound _ _ Hc) Hh) as (d' & -> & Hg).
    set (o' := with_code o (Some (a_code ao)) (dirtyCode o)).
    pose proof (core_db s a d' Hc Hg) as Hc'.
    assert (Ho' : object_ok d' addr o' ao).
    { eapply object_ok_grows in Ho as [? ? ? ? ? ? ? ? ? (sm & [] & ?)]; [|exact Hg]. split; try done.
      - split; [done|]. intros _. right. by apply Hg.
      - exists sm. by split. }
    eexists _, _. split; [done|]. cbn [address o' with_code]. rewrite (ok_addr _ _ _ _ Ho).
    split; [by apply (core_put (with_db s d') a addr o' ao Hc' Hl); [apply Hat|]|]. split; [by split|].
    split_and!; try done. split; [|apply Hat]. cbn. by rewrite lookup_insert_eq.
Qed.

Lemma sim_CodeSize addr o ao : sim (at_addr addr o ao) (so_CodeSize o) (mret (len (a_code ao))) same.
Proof.
  apply sim_object. intros s a Hc Hat. destruct (at_addr_ok _ _ _ _ _ Hc Hat) as [Ho Hl]. pose proof (ok_code _ _ _ _ Ho) as Hco.
  unfold so_CodeSize. unfold code_ok in Hco. destruct (code o) as [c|] eqn:Ec.
  { destruct Hco as [-> _]. exists s, (len (a_code ao)). by split_and!. }
  rewrite (BytesToHash_code _ _ _ _ Ho).
  destruct Hco as [[Eh Hn]|[Hne Hh]].
  - rewrite Eh, Hn. unfold emptyCodeHash. destruct (ContractCodeSize_empty (T := T) (st_db s) (addrHash o) (co_sound _ _ Hc)) as (d' & r & -> & Hg & Hr).
    destruct Hr as [->|[e ->]]; eexists _, _; (split; [done|]); (split; [|split; [by split|done]]); [by apply core_db|].
    destruct (core_db s a d' Hc Hg). by split.
  - destruct (ContractCodeSize_has (T := T) (st_db s) (addrHash o) _ _ (co_sound _ _ Hc) Hh) as (d' & -> & Hg).
    eexists _, _. split; [done|]. split; [by apply core_db|]. by split.
Qed.

Definition done_ : StateDB → () → AState → () → Prop := λ _ _ _ _, True.

(** Operations that start by getting or creating the account. *)
Lemma sim_on_new {A B} addr Pre (f : stateObject → M StateDB A) (g : aobj → M AState B) Post :
  is_addr addr → (∀ o ao, a_deleted ao = false → sim (at_addr addr o ao) (f o) (g ao) Post) →
  sim Pre (o ← GetOrNewStateObject addr; f o) (ao ← a_live_or_new addr; g ao) Post.
Proof.
  intros Hl Hf. eapply sim_bind; [by apply sim_live_or_new|]. intros o ao s a hist HI [Hat Hd]. by apply (Hf o ao Hd).
Qed.

(** The object and the account have the same fields. *)
Lemma at_addr_data {A B} addr o ao (c : M StateDB A) (f : M AState B) Post :
  (address o = addr → data o = mkAccount (a_nonce ao) (a_balance ao) (a_root ao) (a_codehash ao) →
   suicided o = a_suicided ao → fakeStorage o = None → is_addr addr → sim (at_addr addr o ao) c f Post) →
  sim (at_addr addr o ao) c f Post.
Proof.
  intros Hc s a hist HI Hat. destruct (at_addr_ok _ _ _ _ _ (iv_core _ _ _ HI) Hat) as [[] ?]. by apply Hc.
Qed.

Lemma M_bind_assoc {St A B C} (c : M St A) (k : A → M St B) (l : B → M St C) σ :
  (c ≫= λ x, k x ≫= l) σ = ((c ≫= k) ≫= l) σ.
Proof. unfold mbind, M_bind. by destruct (c σ) as [s1 [x|e|p]]. Qed.

Lemma sim_assoc {A A' A'' B} Pre (c : M StateDB A) (k : A → M StateDB A') (l : A' → M StateDB A'') (f : M AState B) Post :
  sim Pre ((c ≫= k) ≫= l) f Post → sim Pre (c ≫= λ x, k x ≫= l) f Post.
Proof.
  intros Hc s a hist HI HP. specialize (Hc s a hist HI HP). rewrite <- M_bind_assoc in Hc. exact Hc.
Qed.

Lemma sim_SetBalance_obj addr o ao x : a_deleted ao = false →
  sim (at_addr addr o ao) (so_SetBalance o x) (a_update addr (a_with_balance x ao)) done_.
Proof.
  intros Hd. apply at_addr_data. intros Ha E _ _ _. unfold so_SetBalance. rewrite Ha, E. cbn.
  apply (sim_update addr o ao _ _ _ (setBalance (a_balance ao)) nil_deref); try done.
  - intros d. apply ok_setBalance.
  - intros d d' o1 _ _ Ho. apply (ok_setBalance _ _ _ _ (a_balance ao)) in Ho. by destruct ao.
Qed.

Lemma sim_SetNonce addr n Pre : is_addr addr → sim Pre (SetNonce addr n) (a_SetNonce addr n) done_.
Proof.
  intros Hl. apply sim_on_new; [done|]. intros o ao Hd. apply at_addr_data. intros Ha E _ _ _. unfold so_SetNonce.
  rewrite Ha, E. cbn. apply (sim_update addr o ao _ _ _ (setNonce (a_nonce ao)) nil_deref); try done.
  - intros d. apply ok_setNonce.
  - intros d d' o1 _ _ Ho. apply (ok_setNonce _ _ _ _ (a_nonce ao)) in Ho. by destruct ao.
Qed.

Lemma sim_Suicide addr Pre : is_addr addr → sim Pre (Suicide addr) (a_Suicide addr) same.
Proof.
  intros Hl. eapply sim_bind; [by apply sim_live|]. intros [o|] [ao|]; [|by intros ? ? ? ? ?..|by apply sim_ret].
  intros s a hist HI [Hat Hd]. revert s a hist HI Hat. change (sim (at_addr addr o ao)
    (append (suicideChange addr (suicided o) (acc_Balance (data o)));; setStateObject (setBalance 0 (markSuicided o));; mret true)
    (a_update addr (a_with_balance 0 (a_with_suicided true ao));; mret true) same).
  apply at_addr_data. intros Ha E Esu _ _. rewrite E, Esu. cbn [acc_Balance].
  apply sim_assoc. eapply (sim_bind _ _ _ done_); [|intros ? ?; by apply sim_ret].
  apply (sim_update addr o ao _ _ _ (λ o, setBalance (a_balance ao) (with_flags o (a_suicided ao) (deleted o))) (mret ())); try done.
  - intros d Ho. by apply ok_suicide.
  - intros d d' o1 _ _ Ho. apply (ok_suicide _ _ _ _ (a_balance ao) (a_suicided ao)) in Ho. by destruct ao.
Qed.

Lemma sim_SetCode addr c Pre : is_addr addr → sim Pre (SetCode addr c) (a_SetCode addr (default [] c)) done_.
Proof.
  intros Hl. apply sim_on_new; [done|]. intros o0 ao Hd. unfold so_SetCode. eapply (sim_first _ _ (a_code ao)); [apply sim_Code|].
  intros [o prev]. cbn [fst snd]. intros s a hist HI (Hat & _ & Hp). revert s a hist HI Hat.
  apply at_addr_data. intros Ha E _ _ _. rewrite Ha.
  apply (sim_update addr o ao _ _ _ (setCode (BytesToHash (acc_CodeHash (data o))) prev) nil_deref); try done.
  - intros d Ho. by apply ok_setCode.
  - intros d d' o1 Ho Hg Ho1. by eapply ok_undoCode.
Qed.

Lemma sim_SetState addr k v Pre : is_addr addr → is_slot k → is_word v →
  sim Pre (SetState addr k v) (a_SetState addr k v) done_.
Proof.
  intros Hl Hk Hv. apply sim_on_new; [done|]. intros o0 ao Hd. apply at_addr_data. intros _ _ _ Hfa _. unfold so_SetState. rewrite Hfa.
  eapply (sim_first _ _ (a_storage ao k)).
  { apply (sim_on_object _ _ _ _ _ (λ o, is_Some (originStorage o !! k))). intros d Ho. by apply so_GetState_ok. }
  intros [o prev]. cbn [fst snd]. intros s a hist HI (-> & Hor & Hat). revert s a hist HI Hat.
  case_bool_decide; [by apply sim_ret|].
  apply at_addr_data. intros Ha E _ _ _. rewrite Ha.
  apply (sim_update addr o ao _ _ _ (setState k (a_storage ao k)) nil_deref); try done.
  - intros d Ho. by apply (ok_setState d addr o ao).
  - intros d d' o1 Ho Hg Ho1. apply (ok_setState d' addr o1 (a_with_slot k v ao)); try done.
    + destruct Ho as [? ? ? ? ? ? ? ? ? (sm & Hs & Hval)]. destruct (Hval k Hk) as [<- _]. by eapply current_word.
    + apply (ok_written _ _ _ _ Ho1). cbn. set_solver.
    + cbn. set_solver.
    + intros x. cbn. unfold upd. case_decide; [by subst|done].
Qed.

Lemma is_word_big z : is_word (BigToHash z).
Proof.
  unfold is_word, BigToHash, BytesToHash, zeros. rewrite length_app, length_replicate, length_drop. unfold HashLength. lia.
Qed.

Lemma sim_GetBalance addr Pre : is_addr addr → sim Pre (GetBalance addr) (a_GetBalance addr) same.
Proof.
  intros Hl. unfold GetBalance, a_GetBalance. destruct UsingOVM.
  - eapply sim_bind; [apply sim_GetState; [apply ovm_is_addr|by apply ovm_is_slot]|]. intros x y. apply sim_ret. by intros ? ? ->.
  - apply (sim_read addr (λ x, match x with None => 0 | Some o => acc_Balance (data o) end)
      (λ x, match x with Some ao => a_balance ao | None => 0 end) Pre eq Hl eq_refl).
    intros d o ao Ho. by rewrite (ok_data _ _ _ _ Ho).
Qed.

(** The balance slot of the account in OVM_ETH is replaced. *)
Lemma sim_ovm addr (f : Z → Z) Pre : is_addr addr →
  sim Pre (v ← GetState OvmEthAddress (GetOVMBalanceKey addr);
           SetState OvmEthAddress (GetOVMBalanceKey addr) (BigToHash (f (Hash_Big v))))
          (v ← a_GetState OvmEthAddress (GetOVMBalanceKey addr);
           a_SetState OvmEthAddress (GetOVMBalanceKey addr) (BigToHash (f (Hash_Big v)))) done_.
Proof.
  intros Hl. eapply sim_bind; [apply sim_GetState; [apply ovm_is_addr|by apply ovm_is_slot]|]. intros x y s a hist HI <-.
  by apply (sim_SetState OvmEthAddress _ _ (λ _ _, True) ovm_is_addr (ovm_is_slot addr Hl) (is_word_big _)).
Qed.

Lemma sim_SubBalance addr n Pre : is_addr addr → sim Pre (SubBalance addr n) (a_SubBalance addr n) done_.
Proof.
  intros Hl. unfold SubBalance, a_SubBalance. destruct UsingOVM; [by apply (sim_ovm addr (λ b, b - n))|].
  apply sim_on_new; [done|]. intros o ao Hd. unfold so_SubBalance. destruct (n =? 0); [by apply sim_ret|].
  apply at_addr_data. intros Ha E _ _ _. rewrite E. by apply sim_SetBalance_obj.
Qed.

Lemma sim_SetBalance addr n Pre : is_addr addr → sim Pre (SetBalance addr n) (a_SetBalance addr n) done_.
Proof.
  intros Hl. unfold SetBalance, a_SetBalance. destruct UsingOVM.
  - apply sim_SetState; [apply ovm_is_addr|by apply ovm_is_slot|apply is_word_big].
  - apply sim_on_new; [done|]. intros o ao Hd. by apply sim_SetBalance_obj.
Qed.

(** ** The rest of the state *)

(** Operations that record one entry and change [s] and the specification's state by a
    function each. *)
Lemma sim_entry (e : StateDB → journalEntry T) (f : StateDB → StateDB) (g : AState → AState) (c : M StateDB ()) Pre :
  (∀ s, c s = (f (with_journal s (journal_append (e s) (st_journal s))), Ok ())) →
  (∀ s, st_journal (f s) = st_journal s ∧ validRevisions (f s) = validRevisions s ∧ nextRevisionId (f s) = nextRevisionId s ∧
        st_db (f s) = st_db s) →
  (∀ s a j, Pre s a → core s a → a_ok (st_db s) a →
    core (f (with_journal s j)) (g a) ∧ undoes (st_db s) (e s) a (g a) ∧ a_ok (st_db s) (g a) ∧
    a_dirty (g a) = match dirtied (e s) with Some x => {[x]} ∪ a_dirty a | None => a_dirty a end ∧ a_clean (g a) = false) →
  sim Pre c (modify g) done_.
Proof.
  intros Hc Hf Hg s a hist HI HP. pose proof (iv_ok _ _ _ HI) as Hok%Forall_inv.
  destruct (Hg s a (journal_append (e s) (st_journal s)) HP (iv_core _ _ _ HI) Hok) as (Hc' & Hu & Hok' & Hd & Hcl). cbn.
  set (s1 := with_journal s (journal_append (e s) (st_journal s))) in *. destruct (Hf s1) as (F1 & F2 & F3 & F4).
  destruct (Inv_record s (f s1) (e s) a (g a) hist HI Hc') as [HI' Hs]; try done.
  - by rewrite F4.
  - by rewrite F4.
  - by rewrite F4.
  - exists (f s1), (), (a :: hist). by rewrite Hc.
Qed.

Ltac core_fields := let Hc := fresh in intros Hc; destruct Hc; split; cbn in *; try done.

Lemma sim_AddRefund gas Pre : sim Pre (AddRefund gas) (a_AddRefund gas) done_.
Proof.
  apply (sim_entry (λ s, refundChange (refund s)) (λ s, with_refund s (refund s ⊞ gas))); try done.
  intros s a j _ Hc Hok. split_and!; try done; [|..|by eapply a_ok_same].
  - revert Hc. core_fields. by rewrite co_refund0.
  - intros s1 Hg Hc1. eexists. split; [done|]. split; [|by split]. revert Hc1. core_fields. apply Hc.
Qed.

Lemma sim_SubRefund gas Pre : sim Pre (SubRefund gas) (a_SubRefund gas) done_.
Proof.
  intros s a hist HI HP. pose proof (iv_core _ _ _ HI) as Hc. unfold SubRefund, a_SubRefund, mbind, M_bind. cbn -[Z.ltb].
  rewrite (co_refund _ _ Hc). destruct (a_refund a <? gas) eqn:E; [by eexists|].
  assert (Hsim : sim (λ s a, refund s = refund s) (λ s, (with_refund (with_journal s (journal_append (refundChange (refund s)) (st_journal s))) (refund s ⊟ gas), Ok ()))
    (modify (λ a, a_with_refund (a_refund a ⊟ gas) (a_record None a))) done_).
  { apply (sim_entry (λ s, refundChange (refund s)) (λ s, with_refund s (refund s ⊟ gas))); try done.
    intros s1 a1 j _ Hc1 Hok. split_and!; try done; [|..|by eapply a_ok_same].
    - revert Hc1. core_fields. by rewrite co_refund0.
    - intros s2 Hg Hc2. eexists. split; [done|]. split; [|by split]. revert Hc2. core_fields. apply Hc1. }
  specialize (Hsim s a hist HI eq_refl). cbv beta iota delta [modify] in Hsim. rewrite (co_refund _ _ Hc) in Hsim. exact Hsim.
Qed.

Lemma sim_AddLog l Pre : sim Pre (AddLog l) (a_AddLog l) done_.
Proof.
  set (mk := λ s, mkLog (log_Address l) (log_Topics l) (log_Data l) (log_BlockNumber l) (thash s) (u64 (txIndex s)) (bhash s)
             (logSize s) (log_Removed l)).
  apply (sim_entry (λ s, addLogChange (thash s))
    (λ s, with_logs s (<[thash s := default [] (logs s !! thash s) ++ [mk s]]> (logs s)) (logSize s ⊞ 1))); try done.
  intros s a j _ Hc Hok. split_and!; try done; [|..|by eapply a_ok_same].
  - subst mk. revert Hc. core_fields.
    + intros h. rewrite lookup_insert. unfold upd. rewrite <- co_thash0, <- co_bhash0, <- co_txIndex0, <- co_logSize0.
      destruct (decide (thash s = h)) as [<-|]; [rewrite decide_True by done; by rewrite <- co_logs0|].
      rewrite decide_False by done. by rewrite co_logs0.
    + by rewrite co_logSize0.
    + apply u64_range.
  - intros s1 Hg Hc1. eexists. split; [done|]. split; [|by split]. pose proof (co_u64 _ _ Hc) as Hu. rewrite (co_logSize _ _ Hc) in Hu.
    revert Hc1. core_fields; try by apply Hc.
    + intros h. rewrite (co_thash _ _ Hc) in *. pose proof (co_logs0 (a_thash a)) as Hl. unfold upd in Hl. rewrite decide_True in Hl by done.
      rewrite Hl, length_app. cbn [length]. destruct (decide (h = a_thash a)) as [->|Hne].
      * destruct (Nat.eqb_spec (length (a_logs a (a_thash a)) + 1) 1) as [E|E].
        -- rewrite lookup_delete_eq. cbn. destruct (a_logs a (a_thash a)); [done|cbn in E; lia].
        -- rewrite lookup_insert_eq. cbn. rewrite Nat.add_sub. by rewrite take_app_length.
      * specialize (co_logs0 h). unfold upd in co_logs0. rewrite decide_False in co_logs0 by done.
        destruct (_ =? 1)%nat; [by rewrite lookup_delete_ne|by rewrite lookup_insert_ne].
    + rewrite co_logSize0, u64_sub_idemp_l. replace (a_logSize a + 1 - 1) with (a_logSize a) by lia. by apply u64_small.
    + apply u64_range.
Qed.

Lemma sim_AddPreimage h p Pre : sim Pre (AddPreimage h p) (a_AddPreimage h p) done_.
Proof.
  intros s a hist HI HP. pose proof (iv_core _ _ _ HI) as Hc. unfold AddPreimage, mbind, M_bind. cbn. rewrite (co_preimages _ _ Hc).
  destruct (a_preimages a !! h) as [p'|] eqn:Ep.
  { exists s, (), hist. split_and!; [done|done|by split|done]. }
  assert (Hsim : sim (λ s a, a_preimages a !! h = None)
      (λ s, (with_preimages (with_journal s (journal_append (addPreimageChange h) (st_journal s))) (<[h := p]> (preimages s)), Ok ()))
      (modify (λ a, a_with_preimages (<[h := p]> (a_preimages a)) (a_record None a))) done_).
  { apply (sim_entry (λ _, addPreimageChange h) (λ s, with_preimages s (<[h := p]> (preimages s)))); try done.
    intros s1 a1 j E1 Hc1 Hok. split_and!; try done; [|..|by eapply a_ok_same].
    - revert Hc1. core_fields. by rewrite co_preimages0.
    - intros s2 Hg Hc2. eexists. split; [done|]. split; [|by split]. revert Hc2. core_fields; try by apply Hc1.
      rewrite co_preimages0. by rewrite delete_insert_id. }
  exact (Hsim s a hist HI Ep).
Qed.

Lemma sim_touch addr o ao : a_deleted ao = false → addr ≠ ripemd →
  sim (at_addr addr o ao) (touch o) (modify (a_record (Some addr))) done_.
Proof.
  intros Hd Hr. apply at_addr_data. intros Ha E _ _ Hl. unfold touch. rewrite Ha, bool_decide_eq_false_2 by done.
  apply (sim_entry (λ _, touchChange addr) id); try done. intros s a j [E1 E2] Hc Hok. split_and!; try done.
  - assert (core (with_journal s j) a) as Hcj by (revert Hc; core_fields).
    eapply core_same; [exact Hcj|..]; try done. cbn. pose proof (co_changed _ _ Hc). apply elem_of_dom_2 in E1. set_solver.
  - intros s1 Hg Hc1. exists s1. split; [done|]. split; [|done]. eapply core_same; [exact Hc1|..]; try done.
    pose proof (co_changed _ _ Hc1) as Hch. cbn in Hch. set_solver.
  - destruct Hok as [O1 O2 O3 O4]. split; cbn.
    + intros x [->%elem_of_singleton|]%elem_of_union; [by rewrite E2|by apply O1].
    + intros x y Hx HD. apply O2; [done|set_solver].
    + intros x y Hx HQ HD HR. apply O3; try done. set_solver.
    + intros x Hx HP HD HR. apply O4; try done. set_solver.
Qed.

Lemma sim_AddBalance addr n Pre : is_addr addr → (addr = ripemd → n = 0 → UsingOVM = true) →
  sim Pre (AddBalance addr n) (a_AddBalance addr n) done_.
Proof.
  intros Hl Hr. unfold AddBalance, a_AddBalance. destruct UsingOVM; [by apply (sim_ovm addr (λ b, b + n))|].
  apply sim_on_new; [done|]. intros o ao Hd. unfold so_AddBalance. destruct (Z.eqb_spec n 0) as [->|].
  - apply at_addr_data. intros Ha E _ _ _. assert (He : empty o = a_empty ao) by (unfold empty, a_empty; by rewrite E).
    rewrite He. destruct (a_empty ao); [|by apply sim_ret]. apply sim_touch; [done|]. intros ->. by specialize (Hr eq_refl eq_refl).
  - apply at_addr_data. intros Ha E _ _ _. rewrite E. by apply sim_SetBalance_obj.
Qed.

(** ** The access list *)

Lemma sim_al (c : M StateDB ()) e al (g : AState → AState) s a hist :
  Inv s a hist → c s = (with_accessList (with_journal s (journal_append e (st_journal s))) al, Ok ()) →
  g a = a_with_al al (a_record None a) → al_ok al → dirtied e = None → undoes (st_db s) e a (g a) →
  ∃ s' x hist', c s = (s', Ok x) ∧ Inv s' (g a) hist' ∧ steps s s' (a :: hist) (g a :: hist') ∧ done_ s' x (g a) ().
Proof.
  intros HI Ec Eg Hal He Hu. rewrite Ec, Eg in *. eexists _, (), (a :: hist). split; [done|].
  pose proof (iv_ok _ _ _ HI) as Hok%Forall_inv.
  edestruct (Inv_record s (with_accessList (with_journal s (journal_append e (st_journal s))) al) e a
    (a_with_al al (a_record None a)) hist HI) as [HI' Hs]; try done.
  - pose proof (iv_core _ _ _ HI) as Hc. revert Hc. core_fields.
  - by eapply a_ok_same.
  - by rewrite He.
Qed.

Lemma undoes_al d e al a : al_ok (a_al a) →
  (∀ s, st_accessList s = al → revert_entry e s = (with_accessList s (a_al a), Ok ())) →
  undoes d e a (a_with_al al (a_record None a)).
Proof.
  intros Hok Hr s Hg Hc. rewrite Hr by apply Hc. eexists. split; [done|]. split; [|by split]. revert Hc. core_fields.
Qed.

Lemma undo_addr d a al addr : al_ok al → addresses al !! addr = None → a_al a = al →
  undoes d (accessListAddAccountChange addr) a (a_with_al (fst (AddAddress al addr)) (a_record None a)).
Proof.
  intros Hok E Ea. apply undoes_al; [by rewrite Ea|]. intros s Es. unfold revert_entry, modify. rewrite Es, Ea, DeleteAddress_undoes by done. done.
Qed.

Lemma sim_AddAddress addr Pre : sim Pre (AddAddressToAccessList addr) (a_AddAddress addr) done_.
Proof.
  intros s a hist HI _. pose proof (iv_core _ _ _ HI) as Hc. unfold a_AddAddress. cbv beta iota delta [modify].
  pose proof (co_al_ok _ _ Hc) as Hal. destruct (AddAddress_spec (a_al a) addr Hal) as (Hok & Hadd & _).
  unfold AddAddressToAccessList, mbind, M_bind. cbn [gets]. rewrite (co_al _ _ Hc).
  pose proof (undo_addr (st_db s) a (a_al a) addr Hal) as Hu. destruct (AddAddress (a_al a) addr) as [al added] eqn:E. cbn [fst snd] in *.
  subst added. case_bool_decide as Hn; cbn [modify].
  - apply (sim_al (λ s, append (accessListAddAccountChange addr) (with_accessList s al)) (accessListAddAccountChange addr) al
      (λ a, a_with_al al (a_record None a))); try done.
    apply Hu; [|done]. unfold slots_of in Hn. by destruct (addresses (a_al a) !! addr).
  - exists s, (), hist. split_and!; [|done|by split|done]. cbn. unfold AddAddress in E.
    destruct (addresses (a_al a) !! addr) eqn:Ex; [|by destruct Hn; unfold slots_of; rewrite Ex].
    simplify_eq. rewrite <- (co_al _ _ Hc). by destruct s.
Qed.

(** A new address and its first slot are two entries. *)
Lemma sim_AddSlot addr slot Pre : sim Pre (AddSlotToAccessList addr slot) (a_AddSlot addr slot) done_.
Proof.
  intros s a hist HI _. pose proof (iv_core _ _ _ HI) as Hc. pose proof (co_al_ok _ _ Hc) as Hal.
  unfold AddSlotToAccessList, a_AddSlot, mbind, M_bind. cbv beta iota delta [modify gets lift]. rewrite (co_al _ _ Hc).
  destruct (slot_cases (a_al a) addr Hal) as [Hn|(i & sl & Ha & Hi & Hs)].
  - rewrite AddSlot_new by done. set (al2 := mkAccessList _ _).
    assert (Hal2 : al_ok al2) by (by apply al_ok_new). case_bool_decide as En.
    + rewrite En in Hn. set (al1 := fst (AddAddress (a_al a) addr)). set (a1 := a_with_al al1 (a_record None a)).
      assert (E1 : al1 = mkAccessList (<[addr := -1]> (addresses (a_al a))) (slots (a_al a))) by (subst al1; unfold AddAddress; by rewrite En).
      assert (Hal1 : al_ok al1) by (by destruct (AddAddress_spec (a_al a) addr Hal) as (? & _)).
      destruct (sim_al (λ s, append (accessListAddAccountChange addr) (with_accessList s al1)) (accessListAddAccountChange addr) al1
        (λ a, a_with_al al1 (a_record None a)) s a hist HI) as (s1 & [] & hist1 & Es1 & HI1 & Hs1 & _); try done.
      { by apply undo_addr. }
      destruct (sim_al (λ s, append (accessListAddSlotChange addr slot) (with_accessList s al2)) (accessListAddSlotChange addr slot) al2
        (λ a, a_with_al al2 (a_record None a)) s1 a1 hist1 HI1) as (s2 & [] & hist2 & Es2 & HI2 & Hs2 & _); try done.
      { apply undoes_al; [done|]. intros s' Es'. unfold revert_entry, mbind, M_bind. cbv beta iota delta [modify gets lift]. rewrite Es'.
        pose proof (DeleteSlot_new al1 addr slot Hal1) as Hdel. rewrite E1 in Hdel. cbn in Hdel. rewrite lookup_insert_eq, insert_insert_eq in Hdel.
        subst al2. rewrite Hdel by done. cbn. by rewrite <- E1. }
      exists s2, (), hist2. split_and!; [|done| |done].
      * cbn in Es1, Es2. injection Es1 as <-. injection Es2 as <-. done.
      * destruct Hs1, Hs2. split; [by etrans|congruence..].
    + destruct Hn as [Hn|Hn]; [done|].
      apply (sim_al (λ s, append (accessListAddSlotChange addr slot) (with_accessList s al2)) (accessListAddSlotChange addr slot) al2
        (λ a, a_with_al al2 (a_record None a)) s a hist HI); try done.
      apply undoes_al; [done|]. intros s' Es'. unfold revert_entry, mbind, M_bind. cbv beta iota delta [modify gets lift]. rewrite Es'.
      subst al2. by rewrite DeleteSlot_new.
  - rewrite (AddSlot_old (a_al a) addr slot i sl) by done. case_bool_decide as Ein.
    + exists s, (), hist. split_and!; [|done|by split|done]. rewrite <- (co_al _ _ Hc). by destruct s.
    + set (al2 := mkAccessList _ _). assert (Hal2 : al_ok al2) by (by apply (al_ok_old (a_al a) addr slot i sl)).
      apply (sim_al (λ s, append (accessListAddSlotChange addr slot) (with_accessList s al2)) (accessListAddSlotChange addr slot) al2
        (λ a, a_with_al al2 (a_record None a)) s a hist HI); try done.
      apply undoes_al; [done|]. intros s' Es'. unfold revert_entry, mbind, M_bind. cbv beta iota delta [modify gets lift]. rewrite Es'.
      subst al2. by rewrite (DeleteSlot_old (a_al a) addr slot i sl).
Qed.

(** ** Snapshots *)

Lemma sort_Search_loop_spec f n fuel i j :
  (∀ x y, x ≤ y → y < n → f x = true → f y = true)%nat → (i ≤ j ≤ n)%nat → (j - i < fuel)%nat →
  (∀ x, x < i → f x = false)%nat → (∀ x, j ≤ x → x < n → f x = true)%nat →
  let r := sort_Search_loop fuel i j f in (r ≤ n)%nat ∧ (∀ x, x < r → f x = false)%nat ∧ (∀ x, r ≤ x → x < n → f x = true)%nat.
Proof.
  intros Hmono. revert i j. induction fuel as [|fuel IH]; intros i j Hij Hf Hlo Hhi; [lia|]. cbn [sort_Search_loop].
  destruct (Nat.ltb_spec i j) as [Hlt|Hge].
  - pose proof (Nat.Div0.div_le_mono (i + i) (i + j) 2 ltac:(lia)) as H1'. pose proof (Nat.Div0.div_lt_upper_bound (i + j) 2 j ltac:(lia)) as H2'.
    replace (i + i)%nat with (i * 2)%nat in H1' by lia. rewrite Nat.div_mul in H1' by lia. set (h := ((i + j) / 2)%nat) in *.
    destruct (f h) eqn:E; apply IH; try lia; try done.
    + intros x Hx Hn. destruct (decide (x < j)%nat); [by eapply (Hmono h)|apply Hhi; lia].
    + intros x Hx. destruct (f x) eqn:Ex; [|done]. rewrite (Hmono x h) in E; [done|lia|lia|done].
  - cbn. split; [lia|]. split; [done|]. intros x Hx Hn. apply Hhi; lia.
Qed.

Lemma sort_Search_spec f n : (∀ x y, x ≤ y → y < n → f x = true → f y = true)%nat →
  let r := sort_Search n f in (r ≤ n)%nat ∧ (∀ x, x < r → f x = false)%nat ∧ (∀ x, r ≤ x → x < n → f x = true)%nat.
Proof. intros Hm. apply (sort_Search_loop_spec f n); [done|lia..]. Qed.

(** The revisions point to the states that the machine saved. *)
Record snaps s (k : machine) (hist : list AState) : Prop := {
  sn_saved : Forall2 (λ r p, rev_id r = p.1 ∧ reverse (now k :: hist) !! rev_journalIndex r = Some p.2) (validRevisions s) (saved k);
  sn_next : nextRevisionId s = next k;
  sn_ids i r : validRevisions s !! i = Some r → (rev_id r < next k)%nat;
  sn_sorted i j r1 r2 : (i < j)%nat → validRevisions s !! i = Some r1 → validRevisions s !! j = Some r2 →
    (rev_id r1 < rev_id r2)%nat ∧ (rev_journalIndex r1 ≤ rev_journalIndex r2)%nat }.

Lemma snaps_steps s s' k a' hist hist' : snaps s k hist → steps s s' (now k :: hist) (a' :: hist') →
  snaps s' (mkMachine a' (saved k) (next k)) hist'.
Proof.
  intros [] [[l Hl] Hv Hn]. split; cbn; rewrite ?Hv; try done; [|congruence].
  eapply Forall2_impl; [exact sn_saved0|]. intros r p [? E]. split; [done|]. change (reverse (a' :: hist') !! rev_journalIndex r = Some p.2). rewrite Hl, reverse_app. by apply lookup_app_l_Some.
Qed.

(** Reverting finds the saved copy or fails. *)
Lemma find_revision s k hist id : snaps s k hist →
  let idx := sort_Search (length (validRevisions s)) (λ i, default false ((λ r, (id <=? rev_id r)%nat) <$> (validRevisions s !! i))) in
  match list_find (λ p, p.1 = id) (saved k) with
  | Some (i, (_, a)) => idx = i ∧ ∃ r, validRevisions s !! i = Some r ∧ rev_id r = id ∧ reverse (now k :: hist) !! rev_journalIndex r = Some a
  | None => ∀ r, validRevisions s !! idx = Some r → rev_id r ≠ id
  end.
Proof.
  intros Hs. set (revs := validRevisions s). set (f := λ i, default false ((λ r, (id <=? rev_id r)%nat) <$> (revs !! i))). cbn zeta.
  destruct (sort_Search_spec f (length revs)) as (Hle & Hlo & Hhi).
  { intros x y Hxy Hy. unfold f. destruct (lookup_lt_is_Some_2 revs y Hy) as [r2 E2]. rewrite E2.
    destruct (decide (x = y)) as [->|Hne]; [by rewrite E2|]. destruct (lookup_lt_is_Some_2 revs x) as [r1 E1]; [lia|]. rewrite E1. cbn.
    destruct (sn_sorted _ _ _ Hs x y r1 r2) as [? _]; [lia|done..|]. rewrite !Nat.leb_le. lia. }
  set (idx := sort_Search (length revs) f) in *. destruct (list_find _ (saved k)) as [[i [id' a]]|] eqn:E.
  - apply list_find_Some in E as (Ei & Hid & _). cbn in Hid. subst id'.
    destruct (Forall2_lookup_r _ _ _ _ _ (sn_saved _ _ _ Hs) Ei) as (r & Er & Eid & Ea). cbn in Eid, Ea.
    assert (idx = i) as Hi.
    { destruct (Nat.lt_trichotomy idx i) as [Hlt|[?|Hgt]]; [|done|].
      - destruct (lookup_lt_is_Some_2 revs idx) as [r' E']; [apply lookup_lt_Some in Er; unfold revs; lia|].
        specialize (Hhi idx ltac:(lia) ltac:(by eapply lookup_lt_Some)). unfold f in Hhi. rewrite E' in Hhi. cbn in Hhi. apply Nat.leb_le in Hhi.
        destruct (sn_sorted _ _ _ Hs idx i r' r Hlt E' Er). lia.
      - specialize (Hlo i Hgt). unfold f in Hlo. unfold revs in Hlo. rewrite Er in Hlo. cbn in Hlo. apply Nat.leb_gt in Hlo. lia. }
    split; [done|]. by exists r.
  - intros r Er Hid. apply list_find_None in E. destruct (Forall2_lookup_l _ _ _ _ _ (sn_saved _ _ _ Hs) Er) as (p & Ep & Eid & _).
    rewrite Forall_lookup in E. apply (E idx p Ep). congruence.
Qed.

Lemma revert_ok s k hist id : Inv s (now k) hist → snaps s k hist →
  match restore id k with
  | (k', Ok _) => ∃ s' hist', RevertToSnapshot id s = (s', Ok ()) ∧ Inv s' (now k') hist' ∧ snaps s' k' hist'
  | (_, Panic p) => ∃ s', RevertToSnapshot id s = (s', Panic p)
  | _ => False
  end.
Proof.
  intros HI Hs. pose proof (find_revision s k hist id Hs) as Hf. unfold restore, RevertToSnapshot, mbind, M_bind.
  cbv beta iota delta [gets]. cbn zeta in Hf. set (idx := sort_Search _ _) in *.
  destruct (list_find _ (saved k)) as [[i [id' a]]|] eqn:Efind.
  2:{ destruct (validRevisions s !! idx) as [r|]; [|by eexists]. destruct (Nat.eqb_spec (rev_id r) id); [|by eexists].
      by destruct (Hf r eq_refl). }
  destruct Hf as (-> & r & Er & Hid & Ha). rewrite Er, Hid, Nat.eqb_refl. unfold journal_revert, mbind, M_bind.
  cbv beta iota delta [gets modify]. set (es := entries (st_journal s)). pose proof (chain_length _ _ _ _ (iv_chain _ _ _ HI)) as Hlen.
  fold es in Hlen. pose proof Ha as Hlt%lookup_lt_Some. rewrite length_reverse in Hlt. cbn in Hlt. rewrite Hlen in Hlt.
  destruct (Nat.ltb_spec (length es) (rev_journalIndex r)); [lia|].
  destruct (revert_entries_ok (length es - rev_journalIndex r) s (now k) hist es) as
    (s1 & a1 & -> & Hc1 & Ha1 & Hch1 & Hd1 & He1 & Hv1 & Hx1 & Hg1); [apply HI|apply HI|apply HI|lia|].
  set (n := (length es - rev_journalIndex r)%nat) in *.
  assert (a1 = a) as ->.
  { rewrite reverse_lookup in Ha by (cbn; lia). cbn [length] in Ha. rewrite Hlen in Ha.
    replace (S (length es) - S (rev_journalIndex r))%nat with n in Ha by lia. congruence. }
  assert (Hdrop : drop n (now k :: hist) = a :: drop n hist).
  { rewrite (drop_S _ a n) by done. by destruct n. }
  rewrite He1. fold es. eexists _, (drop n hist). split; [done|]. cbn [now]. split; [split|].
  - destruct Hc1. by split.
  - done.
  - pose proof (iv_ok _ _ _ HI) as Hok. rewrite <- Hdrop. apply Forall_drop. by eapply Forall_ok_grows.
  - done.
  - destruct Hs. split; cbn; rewrite ?Hv1, ?Hx1; try done.
    + apply Forall2_same_length_lookup. split.
      { rewrite !length_take. by rewrite (Forall2_length _ _ _ sn_saved0). }
      intros j r' p Er' Ep. rewrite lookup_take_Some in Er'. rewrite lookup_take_Some in Ep. destruct Er' as [Er' Hj], Ep as [Ep _].
      destruct (Forall2_lookup_lr _ _ _ _ _ _ sn_saved0 Er' Ep) as [? Eold]. split; [done|].
      destruct (sn_sorted0 j i r' r Hj Er' Er) as [_ Hji].
      change (reverse (a :: drop n hist) !! rev_journalIndex r' = Some p.2). rewrite <- Hdrop.
      rewrite <- (take_drop n (now k :: hist)), reverse_app in Eold.
      rewrite lookup_app_l in Eold; [done|]. rewrite length_reverse, length_drop. cbn [length]. lia.
    + intros j r' E'. rewrite lookup_take_Some in E'. destruct E' as [E' _]. eauto.
    + intros j1 j2 r1 r2 Hj E1 E2. rewrite lookup_take_Some in E1. rewrite lookup_take_Some in E2. destruct E1 as [E1 _], E2 as [E2 _]. eauto.
Qed.

Lemma snapshot_ok s k hist : Inv s (now k) hist → snaps s k hist →
  ∃ s', Snapshot s = (s', Ok (next k)) ∧ Inv s' (now k) hist ∧
    snaps s' (mkMachine (now k) (saved k ++ [(next k, now k)]) (S (next k))) hist.
Proof.
  intros HI Hs. unfold Snapshot. rewrite (sn_next _ _ _ Hs). eexists. split; [done|]. split.
  - destruct HI as [[] ? ? ?]. split; [by split|done..].
  - pose proof (chain_length _ _ _ _ (iv_chain _ _ _ HI)) as Hlen. destruct Hs. split; cbn.
    + apply Forall2_app; [done|]. constructor; [|done]. split; [done|].
      change (reverse (now k :: hist) !! length (entries (st_journal s)) = Some (now k)).
      rewrite <- Hlen, <- (length_reverse hist), reverse_cons. by apply list_lookup_middle.
    + done.
    + intros i r. rewrite lookup_app. destruct (validRevisions s !! i) eqn:E.
      * intros [= <-]. apply sn_ids0 in E. lia.
      * destruct (i - _)%nat; cbn; [intros [= <-]; cbn; lia|done].
    + assert (Hidx : ∀ j r, validRevisions s !! j = Some r → (rev_journalIndex r ≤ length (entries (st_journal s)))%nat).
      { intros j r E. destruct (Forall2_lookup_l _ _ _ _ _ sn_saved0 E) as (p & _ & _ & El). apply lookup_lt_Some in El.
        rewrite length_reverse in El. cbn in El. lia. }
      intros i j r1 r2 Hij E1 E2. apply lookup_app_Some in E2 as [E2|[Hge E2]].
      * rewrite lookup_app_l in E1 by (apply lookup_lt_Some in E2; lia). eauto.
      * pose proof E2 as Hl2%lookup_lt_Some. cbn in Hl2. assert (j = length (validRevisions s)) as -> by lia.
        rewrite Nat.sub_diag in E2. injection E2 as <-. rewrite lookup_app_l in E1 by lia. cbn. split; [by eapply sn_ids0|by eapply Hidx].
Qed.
End Refines.

(** ** The end of a transaction *)

Section Machine.
Context `{!Keccak} `{!Rcfg} {D T : Type} `{!StateDatabase D T} `{!StateContents D T} `{!StateReads D T} `{!RangeOrder} `{!Keyspace}.
Notation stateObject := (stateObject T).
Notation StateDB := (StateDB D T).
Implicit Types (d : D) (o : stateObject) (s : StateDB) (ao : aobj) (a : AState).

Definition settle (b : bool) o : stateObject :=
  if suicided o || (b && empty o) then with_flags o (suicided o) true else finalise o.

Lemma settle_ok P Q P' Q' b d addr o ao : object_ok P Q d addr o ao → addr ∈ P' → addr ∈ Q' →
  object_ok P' Q' d addr (settle b o) (a_settle b ao).
Proof.
  intros Ho HP HQ. unfold settle, a_settle. destruct Ho as [? Hd Hh Hc Hsu Hdel ? ? ? (sm & [] & Hv)].
  assert (He : empty o = a_empty ao) by (unfold empty, a_empty; by rewrite Hd). rewrite Hsu, He.
  destruct (a_suicided ao || (b && a_empty ao)).
  - split; try done. exists sm. split; [split; try done; intros Hn; by destruct Hn|done].
  - split; cbn; try done. exists sm. split.
    + split; cbn; try done; try (intros Hn; by destruct Hn).
      intros k v [Hk|[_ Hk]]%lookup_union_Some_raw; eauto.
    + intros k Hk. destruct (Hv k Hk) as [Hv1 Hv2]. unfold current_val, committed_val in *. cbn. rewrite lookup_empty, lookup_union.
      cbn. destruct (dirtyStorage o !! k), (pendingStorage o !! k); done.
Qed.

Lemma object_ok_sets P Q P' Q' d addr o ao : object_ok P Q d addr o ao → (addr ∈ P → addr ∈ P') → (addr ∈ Q → addr ∈ Q') →
  object_ok P' Q' d addr o ao.
Proof.
  intros [? ? ? ? ? ? ? ? ? (sm & [] & ?)] HP HQ. split; try done. exists sm. split; [|done]. 
  split; try done; intros Hn; [apply sk_opens0|apply sk_flushed0|apply sk_root0]; auto.
Qed.

Lemma fold_finalise b l s : NoDup l →
  let s' := foldl (λ s x, finaliseObject b x s) s l in
  (∀ x, stateObjects s' !! x = if decide (x ∈ l) then settle b <$> stateObjects s !! x else stateObjects s !! x) ∧
  (∀ x, x ∈ stateObjectsPending s' ↔ x ∈ stateObjectsPending s ∨ (x ∈ l ∧ is_Some (stateObjects s !! x))) ∧
  (∀ x, x ∈ stateObjectsDirty s' ↔ x ∈ stateObjectsDirty s ∨ (x ∈ l ∧ is_Some (stateObjects s !! x))) ∧
  s' = with_sets (with_objects s (stateObjects s')) (stateObjectsPending s') (stateObjectsDirty s').
Proof.
  revert s. induction l as [|y l IH]; intros s Hnd; cbn [foldl].
  { split_and!; [|set_solver..|by destruct s]. intros x. by rewrite decide_False by set_solver. }
  apply NoDup_cons in Hnd as [Hy Hnd]. specialize (IH (finaliseObject b y s) Hnd). cbn zeta in IH.
  set (s' := foldl _ _ l) in *. destruct IH as (I1 & I2 & I3 & I4). unfold finaliseObject in *.
  destruct (stateObjects s !! y) as [o|] eqn:Ey.
  - fold (settle b o) in *. cbn in I1, I2, I3. split_and!.
    + intros x. rewrite I1, lookup_insert. destruct (decide (y = x)) as [<-|Hne].
      * rewrite decide_False, decide_True by set_solver. by rewrite Ey.
      * destruct (decide (x ∈ l)); [rewrite decide_True by set_solver|rewrite decide_False by set_solver]; done.
    + intros x. rewrite I2, lookup_insert. destruct (decide (y = x)) as [<-|Hne]; [rewrite Ey|]; set_solver.
    + intros x. rewrite I3, lookup_insert. destruct (decide (y = x)) as [<-|Hne]; [rewrite Ey|]; set_solver.
    + rewrite I4 at 1. by destruct s.
  - split_and!.
    + intros x. rewrite I1. destruct (decide (x = y)) as [->|Hne].
      * rewrite decide_False, decide_True by set_solver. by rewrite Ey.
      * destruct (decide (x ∈ l)); [rewrite decide_True by set_solver|rewrite decide_False by set_solver]; done.
    + intros x. rewrite I2. destruct (decide (x = y)) as [->|Hne]; [rewrite Ey|]; set_solver.
    + intros x. rewrite I3. destruct (decide (x = y)) as [->|Hne]; [rewrite Ey|]; set_solver.
    + done.
Qed.

Lemma finalise_ok m P Q b s a hist : Inv m P Q s a hist →
  ∃ s', Finalise b s = (s', Ok ()) ∧ Inv m (P ∪ a_dirty a) (Q ∪ a_dirty a) s' (a_finalise b a) [] ∧
    validRevisions s' = [] ∧ nextRevisionId s' = nextRevisionId s.
Proof.
  intros HI. pose proof (iv_core _ _ _ _ _ _ HI) as Hc. unfold Finalise. set (l := range (dom (dirties (st_journal s)))).
  assert (Hl : ∀ x, x ∈ l ↔ x ∈ a_dirty a).
  { intros x. unfold l. rewrite range_perm, elem_of_elements, (iv_dirties _ _ _ _ _ _ HI).
    by rewrite (chain_dirty _ _ _ _ _ _ _ (iv_chain _ _ _ _ _ _ HI)). }
  assert (Hnd : NoDup l) by (unfold l; rewrite range_perm; apply NoDup_elements).
  destruct (fold_finalise b l s Hnd) as (I1 & I2 & I3 & I4). set (s1 := foldl _ s l) in *.
  assert (Hdom : ∀ x, x ∈ a_dirty a → is_Some (stateObjects s !! x)).
  { intros x Hx. apply elem_of_dom. by apply (co_changed _ _ _ _ _ Hc). }
  assert (Hd1 : dom (stateObjects s1) = dom (stateObjects s)).
  { apply set_eq. intros x. rewrite !elem_of_dom, I1. destruct (decide _); [apply fmap_is_Some|done]. }
  assert (HP : stateObjectsPending s1 = P ∪ a_dirty a).
  { apply set_eq. intros x. rewrite I2, (co_pending _ _ _ _ _ Hc), Hl, elem_of_union. naive_solver. }
  assert (HQ : stateObjectsDirty s1 = Q ∪ a_dirty a).
  { apply set_eq. intros x. rewrite I3, (co_dirty _ _ _ _ _ Hc), Hl, elem_of_union. naive_solver. }
  set (s2 := clearJournalAndRefund s1).
  assert (Hj : entries (st_journal s2) = [] ∧ dirties (st_journal s2) = ∅ ∧ refund s2 = 0).
  { pose proof (iv_chain _ _ _ _ _ _ HI) as Hch. pose proof (iv_dirties _ _ _ _ _ _ HI) as Hdi. subst s2. unfold clearJournalAndRefund. rewrite I4. cbn.
    destruct (entries (st_journal s)) as [|e es] eqn:Ee; cbn; [|done]. rewrite Ee, Hdi. split_and!; try done.
    destruct hist; [|done]. destruct Hch as (_ & _ & <-). apply Hc. }
  destruct Hj as (J1 & J2 & J3).
  assert (F : st_db s2 = st_db s ∧ st_trie s2 = st_trie s ∧ stateObjects s2 = stateObjects s1 ∧
    stateObjectsPending s2 = stateObjectsPending s1 ∧ stateObjectsDirty s2 = stateObjectsDirty s1 ∧ thash s2 = thash s ∧
    bhash s2 = bhash s ∧ txIndex s2 = txIndex s ∧ logs s2 = logs s ∧ logSize s2 = logSize s ∧ preimages s2 = preimages s ∧
    st_accessList s2 = st_accessList s ∧ validRevisions s2 = [] ∧ nextRevisionId s2 = nextRevisionId s).
  { subst s2. unfold clearJournalAndRefund. rewrite I4. cbn. by destruct (entries (st_journal s)). }
  destruct F as (F1 & F2 & F3 & F4 & F5 & F6 & F7 & F8 & F9 & F10 & F11 & F12 & F13 & F14).
  exists s2. split; [done|]. split; [|done]. split.
  - destruct Hc. split; rewrite ?F1, ?F2, ?F3, ?F4, ?F5, ?F6, ?F7, ?F8, ?F9, ?F10, ?F11, ?F12, ?HP, ?HQ, ?Hd1; try done.
    + intros x o. rewrite I1. case_decide; [|eauto]. intros (o' & Eo & _)%fmap_Some. eauto.
    + intros x Hx. specialize (co_objs0 x Hx). unfold lookup_obj in *. rewrite F3, I1. cbn [a_finalise a_accounts].
      destruct (decide (x ∈ l)) as [Hin|Hin].
      * rewrite decide_True by (by apply Hl). destruct (Hdom x ltac:(by apply Hl)) as [o Eo]. rewrite Eo in *. cbn.
        inversion co_objs0 as [? ao Ho Eo1 Ea|]. cbn. constructor.
        eapply settle_ok; [exact Ho|apply elem_of_union; right; by apply Hl..].
      * rewrite decide_False by (by rewrite <- Hl). inversion co_objs0 as [o ao Ho E1 E2|E1 E2]; constructor.
        eapply object_ok_sets; [done|set_solver..].
    + set_solver.
    + set_solver.
  - rewrite J1. by split_and!.
  - constructor; [|done]. rewrite F1. pose proof (iv_ok _ _ _ _ _ _ HI) as [O1 O2 O3 O4]%Forall_inv. split; cbn; [set_solver|..].
    + intros x ao Hx _. case_decide; [|by apply O2]. destruct (a_accounts a x) as [ao0|]; [|done]. intros [= <-]. unfold a_settle.
      destruct (a_suicided ao0) eqn:Es; cbn [orb]; [done|]. destruct (b && a_empty ao0); [done|]. intros _. by split.
    + intros x ao Hx HQx _ HR. rewrite decide_False by set_solver. apply O3; [done|set_solver..].
    + intros x Hx HPx _ HR. rewrite decide_False by set_solver. apply O4; [done|set_solver..].
  - by rewrite J1, J2.
Qed.

(** ** Calls *)

(** The state database stands for the machine. *)
Definition Rel s (k : machine) : Prop := ∃ m P Q hist, acct_map m ∧ Inv m P Q s (now k) hist ∧ snaps s k hist.

Definition agrees (c : M StateDB answer) s (p : machine * result answer) : Prop :=
  match p with
  | (k, Ok y) => ∃ s', c s = (s', Ok y) ∧ Rel s' k
  | (_, Panic e) => ∃ s', c s = (s', Panic e)
  | (_, Err e) => ∃ s', c s = (s', Err e)
  end.

Lemma sim_agrees {A B} (c : M StateDB A) (f : M AState B) (g : A → answer) (h : B → answer) (Post : StateDB → A → AState → B → Prop) s k :
  Rel s k → (∀ m P Q, acct_map m → sim m P Q (λ _ _, True) c f Post) → (∀ s x a y, Post s x a y → g x = h y) →
  agrees (answered g c) s (on_now h f k).
Proof.
  intros (m & P & Q & hist & Hm & HI & Hs) Hc Hgh. specialize (Hc m P Q Hm s (now k) hist HI I). unfold agrees, on_now, answered.
  unfold mbind, M_bind. destruct (f (now k)) as [a' [y|e|p]]; cbn; [|destruct Hc as [s' ->]; by eexists..].
  destruct Hc as (s' & x & hist' & -> & HI' & Hst & HP). exists s'. split; [by rewrite (Hgh _ _ _ _ HP)|].
  exists m, P, Q, hist'. split_and!; [done|done|by eapply snaps_steps].
Qed.

Lemma read_agrees {A} addr s k (f : option stateObject → A) (g : option aobj → A) (h : A → answer) :
  Rel s k → is_addr addr → f None = g None →
  (∀ P Q d o ao, object_ok P Q d addr o ao → f (Some o) = g (Some ao)) →
  agrees (answered h (o ← getStateObject addr; mret (f o))) s (on_now h (o ← a_live addr; mret (g o)) k).
Proof.
  intros Hr Hl Hn Hs. apply (sim_agrees _ _ _ _ (λ _ x _ y, x = y)); [done| |congruence].
  intros m P Q Hm. apply sim_read; eauto.
Qed.

Lemma query_agrees {A} (f : StateDB → A) (g : AState → A) (h : A → answer) s k : Rel s k →
  (∀ m P Q s a, core m P Q s a → f s = g a) → agrees (answered h (gets f)) s (on_now h (gets g) k).
Proof.
  intros Hr Hf. apply (sim_agrees _ _ _ _ (λ _ x _ y, x = y)); [done| |congruence].
  intros m P Q Hm s' a hist HI _. exists s', (f s'), hist. split_and!; [done|done|by split|]. eapply Hf, HI.
Qed.

Lemma calls_agree s k c : Rel s k → call_ok k c → agrees (exec c) s (spec c k).
Proof.
  intros Hr Hok. destruct c; cbn [exec spec]; cbn [call_ok] in Hok.
  - apply (read_agrees _ s k (λ x, bool_decide (is_Some x)) (λ x, bool_decide (is_Some x))); try done.
  - apply (read_agrees _ s k (λ x, match x with None => true | Some o => empty o end)
      (λ x, match x with Some ao => a_empty ao | None => true end)); try done.
    intros P Q d o ao Ho. unfold empty, a_empty. by rewrite (ok_data _ _ _ _ _ _ Ho).
  - apply (sim_agrees _ _ _ _ same); [done| |by intros ? ? ? ? ->].
    intros. by apply sim_GetBalance.
  - apply (read_agrees _ s k (λ x, match x with None => 0 | Some o => acc_Nonce (data o) end)
      (λ x, match x with Some ao => a_nonce ao | None => 0 end)); try done.
    intros P Q d o ao Ho. by rewrite (ok_data _ _ _ _ _ _ Ho).
  - apply (sim_agrees _ _ _ _ (λ _ x _ y, default [] x = y)); [done| |by intros ? ? ? ? ->].
    intros m P Q Hm. apply (sim_live_then m P Q Hm _ _ (λ o, '(_, c) ← so_Code o; mret c) None a_code [] (λ x y, default [] x = y)); try done.
    intros o ao. eapply (sim_first _ _ _ _ _ (a_code ao)); [by apply sim_Code|]. intros [o' c]. apply sim_ret. by intros ? ? (_ & ? & _).
  - apply (sim_agrees _ _ _ _ same); [done| |by intros ? ? ? ? ->].
    intros m P Q Hm. apply (sim_live_then m P Q Hm _ _ so_CodeSize 0 (λ ao, len (a_code ao)) 0 eq); try done.
    intros o ao. by apply sim_CodeSize.
  - apply (read_agrees _ s k (λ x, match x with None => zero_hash | Some o => BytesToHash (acc_CodeHash (data o)) end)
      (λ x, match x with Some ao => a_codehash ao | None => zero_hash end)); try done.
    intros P Q d o ao Ho. by eapply BytesToHash_code.
  - destruct Hok. apply (sim_agrees _ _ _ _ same); [done| |by intros ? ? ? ? ->]. intros. by apply sim_GetState.
  - destruct Hok. apply (sim_agrees _ _ _ _ same); [done| |by intros ? ? ? ? ->]. intros. by apply sim_GetCommittedState.
  - apply (read_agrees _ s k (λ x, match x with None => false | Some o => suicided o end)
      (λ x, match x with Some ao => a_suicided ao | None => false end)); try done.
    intros P Q d o ao Ho. apply Ho.
  - apply query_agrees; [done|]. intros. by eapply co_refund.
  - apply query_agrees; [done|]. intros. by eapply co_logs.
  - apply query_agrees; [done|]. intros m P Q s' a Hc. by rewrite (co_preimages _ _ _ _ _ Hc).
  - apply query_agrees; [done|]. intros m P Q s' a Hc. by rewrite (co_al _ _ _ _ _ Hc), ContainsAddress_spec.
  - apply (sim_agrees _ _ _ _ same); [done| |by intros ? ? ? ? ->]. intros m P Q Hm s' a hist HI _. cbn.
    pose proof (iv_core _ _ _ _ _ _ HI) as Hc. unfold SlotInAccessList. rewrite (co_al _ _ _ _ _ Hc), Contains_spec by apply Hc.
    eexists s', _, hist. split_and!; [done|done|by split|done].
  - destruct Hok. apply (sim_agrees _ _ _ _ done_); [done|intros; by apply sim_AddBalance|done].
  - apply (sim_agrees _ _ _ _ done_); [done|intros; by apply sim_SubBalance|done].
  - apply (sim_agrees _ _ _ _ done_); [done|intros; by apply sim_SetBalance|done].
  - apply (sim_agrees _ _ _ _ done_); [done|intros; by apply sim_SetNonce|done].
  - apply (sim_agrees _ _ _ _ done_); [done|intros; by apply sim_SetCode|done].
  - destruct Hok as (? & ? & ?). apply (sim_agrees _ _ _ _ done_); [done|intros; by apply sim_SetState|done].
  - apply (sim_agrees _ _ _ _ same); [done|intros; by apply sim_Suicide|by intros ? ? ? ? ->].
  - apply (sim_agrees _ _ _ _ (λ _ _ _ _, True)); [done|intros; by apply sim_CreateAccount|done].
  - apply (sim_agrees _ _ _ _ done_); [done|intros; by apply sim_AddRefund|done].
  - apply (sim_agrees _ _ _ _ done_); [done|intros; by apply sim_SubRefund|done].
  - apply (sim_agrees _ _ _ _ done_); [done|intros; by apply sim_AddLog|done].
  - apply (sim_agrees _ _ _ _ done_); [done|intros; by apply sim_AddPreimage|done].
  - apply (sim_agrees _ _ _ _ done_); [done|intros; by apply sim_AddAddress|done].
  - apply (sim_agrees _ _ _ _ done_); [done|intros; by apply sim_AddSlot|done].
  - destruct Hr as (m & P & Q & hist & Hm & HI & Hs). destruct Hok as [Hcl Hsv]. cbn. eexists. split; [done|].
    destruct HI as [Hc Hch Hao Hd], Hs. rewrite Hsv in *. inversion sn_saved0 as [Hv|]. unfold Prepare.
    destruct (entries (st_journal s)) as [|e es] eqn:Ee, hist as [|h hist]; try done; cbn in Hch; [|by destruct Hch as (_ & _ & ? & _); congruence].
    exists m, P, Q, []. split; [done|]. split; [split|]; cbn; rewrite ?Ee; try done.
    + destruct Hc. split; cbn; try done. apply newAccessList_ok.
    + constructor; [|done]. apply Forall_inv in Hao. by eapply a_ok_same.
  - destruct Hr as (m & P & Q & hist & Hm & HI & Hs). destruct (snapshot_ok _ _ _ s k hist HI Hs) as (s' & E & HI' & Hs').
    cbn. unfold answered, mbind, M_bind. rewrite E. eexists. split; [done|]. by exists m, P, Q, hist.
  - destruct Hr as (m & P & Q & hist & Hm & HI & Hs). pose proof (revert_ok _ _ _ s k hist id HI Hs) as Hrev. unfold agrees.
    destruct (restore id k) as [k' [y|e|p]] eqn:E; [|done|].
    + destruct Hrev as (s' & hist' & E' & HI' & Hs'). exists s'. unfold answered, mbind, M_bind. rewrite E'.
      assert (y = ANone) as -> by (unfold restore in E; by destruct (list_find _ _) as [[? []]|]; simplify_eq). split; [done|].
      by exists m, P, Q, hist'.
    + destruct Hrev as [s' E']. exists s'. unfold answered, mbind, M_bind. by rewrite E'.
  - destruct Hr as (m & P & Q & hist & Hm & HI & Hs). destruct (finalise_ok m P Q deleteEmpty s (now k) hist HI) as (s' & E & HI' & Hv & Hn).
    exists s'. unfold answered, mbind, M_bind. rewrite E. split; [done|]. eexists m, _, _, []. split; [done|]. split; [exact HI'|].
    split; cbn; rewrite ?Hv; try done. by rewrite Hn, (sn_next _ _ _ Hs).
Qed.

Lemma runs_agree s k cs : Rel s k → calls_ok k cs →
  match runs spec cs k with
  | (k', Ok l) => ∃ s', runs exec cs s = (s', Ok l) ∧ Rel s' k'
  | (_, Panic p) => ∃ s', runs exec cs s = (s', Panic p)
  | (_, Err e) => ∃ s', runs exec cs s = (s', Err e)
  end.
Proof.
  revert s k. induction cs as [|c cs IH]; intros s k Hr Hok; cbn [runs]; [by exists s|]. destruct Hok as [Hc Hok].
  pose proof (calls_agree s k c Hr Hc) as Ha. unfold mbind, M_bind. destruct (spec c k) as [k1 [y|e|p]]; cbn [agrees] in Ha;
    [|destruct Ha as [s' ->]; by eexists..].
  destruct Ha as (s1 & -> & Hr1). specialize (IH s1 k1 Hr1 Hok). destruct (runs spec cs k1) as [k2 [l|e|p]]; cbn;
    [|destruct IH as [s' ->]; by eexists..].
  destruct IH as (s2 & -> & Hr2). by exists s2.
Qed.

(** ** The state of a root *)

(** What an account of the trie stands for: the database has its storage and its code. *)
Record stored d (acc : Account) ao : Prop := {
  sd_data : data (T := T) (newObject [] (Some acc)) = mkAccount (a_nonce ao) (a_balance ao) (a_root ao) (a_codehash ao);
  sd_hash : a_codehash ao = Keccak256 (a_code ao);
  sd_code : (a_codehash ao = emptyCodeHash ∧ a_code ao = []) ∨
            (a_codehash ao ≠ emptyCodeHash ∧ has_code (T := T) d (a_codehash ao) (a_code ao));
  sd_storage : ∃ sm, slot_map sm ∧ opens (T := T) d (a_root ao) sm ∧
    ∀ k, is_slot k → slot_val sm k = a_storage ao k ∧ slot_val sm k = a_committed ao k;
  sd_written : a_written ao = ∅;
  sd_suicided : a_suicided ao = false;
  sd_deleted : a_deleted ao = false }.

Record world d (m : gmap bytes bytes) (accounts : Address → option aobj) : Prop := {
  wd_map : acct_map m;
  wd_accounts x : is_addr x → option_Forall2 (stored d) (load m x) (accounts x) }.

Definition a_init (accounts : Address → option aobj) : AState :=
  mkAState accounts 0 zero_hash zero_hash 0 (λ _, []) 0 ∅ newAccessList ∅ ∅ true.

Lemma newObject_root addr acc : acc_Root (data (T := T) (newObject addr (Some acc))) ≠ zero_hash.
Proof. cbn. case_bool_decide; [apply emptyRoot_ne|done]. Qed.

Lemma stored_object d addr acc ao : stored d acc ao → object_ok ∅ ∅ d addr (newObject addr (Some acc)) ao.
Proof.
  intros [S1 S2 S3 (sm & M1 & M2 & M3) S5 S6 S7]. assert (Er : acc_Root (data (T := T) (newObject addr (Some acc))) = a_root ao).
  { change (acc_Root (data (T := T) (newObject [] (Some acc))) = a_root ao). by rewrite S1. }
  split; try done; [by rewrite S5|]. exists sm. split; [|intros k Hk; by destruct (M3 k Hk)].
  split; try done; intros; rewrite ?Er; try done. apply (opens_root d); [done|]. rewrite <- Er. apply newObject_root.
Qed.

Lemma init_Inv root m accounts d s : sound (T := T) d → opens (T := T) d root m → world d m accounts → New root d = Ok s →
  Rel s (mkMachine (a_init accounts) [] 0).
Proof.
  intros Hd Ho [Hm Hw]. destruct (OpenTrie_opens d root m Ho) as (t & Et & Ht). unfold New. rewrite Et. intros [= <-].
  exists m, ∅, ∅, []. split; [done|]. split; [split|].
  - split; cbn; try done.
    + intros addr Hl. unfold lookup_obj. cbn. rewrite lookup_empty. destruct (Hw addr Hl); constructor. by apply stored_object.
    + apply newAccessList_ok.
  - done.
  - constructor; [|done]. split; cbn; [set_solver|..].
    + intros x ao Hx _ E. pose proof (Hw x Hx) as HF. rewrite E in HF. inversion HF as [acc ? [? ? ? (sm & _ & _ & Hv) ? ? ?]|]; subst.
      intros _. split; [done|]. intros k Hk. by destruct (Hv k Hk) as [<- <-].
    + intros x ao Hx _ _ _ E. pose proof (Hw x Hx) as HF. rewrite E in HF. inversion HF as [acc ? Hs|]; subst. intros _.
      destruct (sd_code _ _ _ Hs) as [?|[_ ?]]; [by left|by right].
    + intros x Hx _ _ _. destruct (Hw x Hx) as [acc ao Hs|]; [|done]. cbn. rewrite (sd_deleted _ _ _ Hs). exists acc. split; [done|]. apply Hs.
  - done.
  - by split.
Qed.

(** C6. The state database is the machine with saved copies: opened at a root of a sound
    database it answers a sequence of calls as the specification does, errors included --
    whatever was loaded lazily, cached or written to the journal, and however snapshots
    and reverts are nested -- provided [Prepare] is called only between transactions (no
    change since the last [Finalise] and no open snapshot) and, when balances are kept in
    the accounts and not in OVM_ETH, no zero amount is added to the RIPEMD precompile: its
    mark in the journal survives a revert, on purpose, and the specification does not have
    it ([ripemd_mark_survives]).  The calls use addresses and slots of the Go
    sizes, and at the root a trie of decodable accounts can be opened, whose code and
    storage tries can be read too. *)
Theorem statedb_refines root d m accounts cs :
  sound (T := T) d → opens (T := T) d root m → world d m accounts → calls_ok (mkMachine (a_init accounts) [] 0) cs →
  ∃ s, New root d = Ok s ∧ snd (runs exec cs s) = snd (runs spec cs (mkMachine (a_init accounts) [] 0)).
Proof.
  intros Hd Ho Hw Hok. destruct (OpenTrie_opens d root m Ho) as (t & Et & Ht).
  assert (∃ s, New root d = Ok s) as [s Es] by (unfold New; rewrite Et; by eexists). exists s. split; [done|].
  pose proof (runs_agree s _ cs (init_Inv root m accounts d s Hd Ho Hw Es) Hok) as Hr.
  destruct (runs spec cs _) as [k [l|e|p]]; [destruct Hr as (s' & -> & _)|destruct Hr as [s' ->]..]; done.
Qed.

(** ** Reverting *)

(** Calls between a snapshot and its revert. *)
Definition inner (id : nat) (c : call) : Prop :=
  match c with
  | CRevertToSnapshot i => (id < i)%nat
  | CFinalise _ | CPrepare _ _ _ => False
  | _ => True
  end.

Definition reads (c : call) : Prop :=
  match c with
  | CExist _ | CEmpty _ | CGetBalance _ | CGetNonce _ | CGetCode _ | CGetCodeSize _ | CGetCodeHash _ | CGetState _ _
  | CGetCommittedState _ _ | CHasSuicided _ | CGetRefund | CGetLogs _ | CGetPreimage _ | CAddressInAccessList _
  | CSlotInAccessList _ _ => True
  | _ => False
  end.

Lemma spec_keeps id c (k k' : machine) y l : inner id c → l `prefix_of` saved k → Forall (λ p, p.1 ≤ id)%nat l →
  spec c k = (k', Ok y) → l `prefix_of` saved k'.
Proof.
  intros Hi Hp Hl. assert (Hnow : ∀ A (f : A → answer) (m : M AState A), on_now f m k = (k', Ok y) → l `prefix_of` saved k').
  { intros A f m. unfold on_now. destruct (m (now k)) as [a r]. by intros [= <- _]. }
  destruct c; cbn [spec]; try apply Hnow; try done.
  - intros [= <- _]. cbn. by apply prefix_app_r.
  - unfold restore. destruct (list_find _ (saved k)) as [[i [id' a]]|] eqn:E; [|done]. intros [= <- _]. cbn.
    apply list_find_Some in E as (Ei & Hid & _). cbn in Hid, Hi. subst id'. destruct Hp as [l' Hp]. rewrite Hp in *.
    assert (length l ≤ i)%nat.
    { destruct (decide (length l ≤ i)%nat); [done|]. rewrite lookup_app_l in Ei by lia. rewrite Forall_lookup in Hl.
      apply Hl in Ei. cbn in Ei. lia. }
    rewrite take_app_ge by done. by apply prefix_app_r.
Qed.

Lemma runs_keeps id cs (k k' : machine) ys l : Forall (inner id) cs → l `prefix_of` saved k → Forall (λ p, p.1 ≤ id)%nat l →
  runs spec cs k = (k', Ok ys) → l `prefix_of` saved k'.
Proof.
  intros Hi. revert k ys. induction Hi as [|c cs Hc Hi IH]; intros k ys Hp Hl; cbn [runs]; [by intros [= <- _]|].
  unfold mbind, M_bind. destruct (spec c k) as [k1 [y|e|p]] eqn:E; [|done..]. destruct (runs spec cs k1) as [k2 [l2|e|p]] eqn:E2; [|done..].
  intros [= <- _]. eapply IH; [|done|done]. by eapply spec_keeps.
Qed.

Lemma on_now_snd {A} (f : A → answer) (m : M AState A) k : snd (on_now f m k) = (x ← snd (m (now k)); Ok (f x)).
Proof. unfold on_now. by destruct (m (now k)). Qed.

Lemma reads_now c k k' : reads c → now k' = now k → snd (spec c k') = snd (spec c k).
Proof.
  intros Hr En. destruct c; try done; cbn [spec]; by rewrite !on_now_snd, En.
Qed.

Lemma snd_agrees c s k : Rel s k → call_ok k c → snd (exec c s) = snd (spec c k).
Proof.
  intros Hr Hok. pose proof (calls_agree s k c Hr Hok) as Ha. unfold agrees in Ha.
  destruct (spec c k) as [k' [y|e|p]]; [destruct Ha as (s' & -> & _)|destruct Ha as [s' ->]..]; done.
Qed.

Lemma reads_ok c k k' : reads c → call_ok k c → call_ok k' c.
Proof. by destruct c. Qed.

(** C8. After a snapshot, whatever calls were made -- transfers, writes to storage and code,
    creations and destructions of accounts, logs, refunds, access lists, further snapshots
    and their reverts -- reverting to the snapshot succeeds, and every query answers as it
    did when the snapshot was taken. *)
Theorem revert_restores s k cs s1 l :
  Rel s k → calls_ok k (CSnapshot :: cs) → Forall (inner (nextRevisionId s)) cs →
  runs exec (CSnapshot :: cs) s = (s1, Ok l) →
  ∃ s2, RevertToSnapshot (nextRevisionId s) s1 = (s2, Ok ()) ∧
    ∀ c, reads c → call_ok k c → snd (exec c s2) = snd (exec c s).
Proof.
  intros Hr Hok Hi E. pose proof (runs_agree s k _ Hr Hok) as Ha. rewrite E in Ha.
  destruct (runs spec (CSnapshot :: cs) k) as [k1 [ys|e|p]] eqn:Ek; [|destruct Ha; congruence..]. destruct Ha as (s' & [= <- <-] & Hr1).
  assert (Hn : nextRevisionId s = next k) by (destruct Hr as (? & ? & ? & ? & _ & _ & Hs); apply Hs). rewrite Hn in *.
  assert (Hids : Forall (λ p, p.1 < next k)%nat (saved k)).
  { destruct Hr as (? & ? & ? & ? & _ & _ & []). apply Forall_lookup. intros i p Ep.
    destruct (Forall2_lookup_r _ _ _ _ _ sn_saved0 Ep) as (r & Er & <- & _). by eapply sn_ids0. }
  cbn [runs spec] in Ek. unfold mbind, M_bind in Ek. destruct (runs spec cs _) as [k2 [l2|e|p]] eqn:Er; [|done..]. injection Ek as <- _.
  destruct (runs_keeps (next k) cs (mkMachine (now k) (saved k ++ [(next k, now k)]) (S (next k))) k2 l2
    (saved k ++ [(next k, now k)]) Hi) as [rest Hrest]; [done| |exact Er|].
  { apply Forall_app. split; [|by constructor]. eapply Forall_impl; [exact Hids|]. cbn. intros. lia. }
  assert (Hfind : list_find (λ p, p.1 = next k) (saved k2) = Some (length (saved k), (next k, now k))).
  { apply list_find_Some. rewrite Hrest, <- app_assoc. split; [by apply list_lookup_middle|]. split; [done|].
    intros j p Ej Hj. rewrite lookup_app_l in Ej by done. rewrite Forall_lookup in Hids. apply Hids in Ej. lia. }
  pose proof (calls_agree s1 k2 (CRevertToSnapshot (next k)) Hr1 I) as Hv. cbn [spec exec] in Hv. unfold restore in Hv. rewrite Hfind in Hv.
  cbn [agrees] in Hv. destruct Hv as (s2 & E2 & Hr2). unfold answered, mbind, M_bind in E2.
  destruct (RevertToSnapshot (next k) s1) as [s2' [[]|e|p]]; [|done..]. injection E2 as ->. exists s2. split; [done|].
  intros c Hc Hck. erewrite !snd_agrees; [|done..|by eapply reads_ok]. by apply reads_now.
Qed.
End Machine.
