(* ===== verification/StateCommit.v ===== *)
(** * Writing the state to the tries

    [IntermediateRoot] and [Commit] of l2geth/core/state/statedb.go with the writing of
    storage of state_object.go: after a commit the new root opens as the same accounts,
    [commit_reopens].  The database is any that also satisfies [StateWrites]. *)

From S2P Require Import Prelude GoErrors EthTypes Extern RLP RLPStream RLPTypes Trie AccessList StateDB StateSpec StateRefines.

(** ** What is assumed of the database *)

(** Maps with keys and values of the sizes that occur. *)
Definition small (m : gmap bytes bytes) : Prop := ∀ k v, m !! k = Some v → length k = HashLength ∧ 0 < len v < 2 ^ 32.

(** A callback that only adds references to the node it is called for. *)
Definition refs_only {D T} `{!StateDatabase D T} (f : bytes → Hash → D → result D) : Prop :=
  ∀ v, ∃ l, ∀ h d, f v h d = foldl (λ r c, d ← r; db_Reference (T := T) c h d) (Ok d) l.

(** [fits] and [fits_code] say that hashing a map or a code gives no collision. *)
Class StateWrites `{!Keccak} (D T : Type) `{!StateDatabase D T} `{!StateContents D T} := {
  fits : gmap bytes bytes → Prop;
  fits_code : bytes → Prop;
  holds_keys (d : D) (t : T) m k v : holds d t m → m !! k = Some v → length k = HashLength;
  TryUpdate_holds (d : D) (t : T) m k v : holds d t m → v ≠ [] →
    ∃ t', tr_TryUpdate d t k v = (t', Ok ()) ∧ holds d t' (<[Keccak256 k := v]> m);
  TryDelete_holds (d : D) (t : T) m k : holds d t m →
    ∃ t', tr_TryDelete d t k = (t', Ok ()) ∧ holds d t' (base.delete (Keccak256 k) m);
  Hash_holds (d : D) (t : T) m : holds d t m → small m → fits m →
    ∃ t' h, tr_Hash (D := D) t = (t', Ok h) ∧ holds d t' m ∧ root_of (D := D) (T := T) m h;
  Commit_holds leaf (d : D) (t : T) m : sound (T := T) d → holds d t m → small m → fits m →
    (∀ f, leaf = Some f → refs_only (T := T) f) →
    ∃ d' t' h, tr_Commit leaf d t = (d', t', Ok h) ∧ grows (T := T) d d' ∧ holds d' t' m ∧ opens (T := T) d' h m ∧
      root_of (D := D) (T := T) m h;
  root_of_unique m h h' : root_of (D := D) (T := T) m h → root_of (D := D) (T := T) m h' → h = h';
  root_of_hash m h : root_of (D := D) (T := T) m h → fits m → length h = HashLength ∧ h ≠ zero_hash;
  fits_code_empty c : fits_code c → Keccak256 c = emptyCodeHash → c = [];
  InsertBlob_has (d : D) c : sound (T := T) d → fits_code c →
    ∃ d', db_InsertBlob (T := T) (Keccak256 c) c d = Ok d' ∧ grows (T := T) d d' ∧ has_code (T := T) d' (Keccak256 c) c }.

Section Commit.
Context `{!Keccak} `{!Rcfg} {D T : Type} `{!StateDatabase D T} `{!StateContents D T} `{!StateReads D T} `{!StateWrites D T} `{!RangeOrder} `{!Keyspace}.
Notation stateObject := (stateObject T).
Notation StateDB := (StateDB D T).
Implicit Types (d : D) (o : stateObject) (s : StateDB) (ao : aobj) (a : AState).

(** No two addresses and no two slots that are used have the same hash. *)
Context (addr_inj : ∀ x y, is_addr x → is_addr y → Keccak256 x = Keccak256 y → x = y).
Context (slot_inj : ∀ x y, is_slot x → is_slot y → Keccak256 x = Keccak256 y → x = y).

(** ** Storage *)

(** The layers of the storage of an object whose trie is open. *)
Record layers d o (t : T) (sm : gmap bytes bytes) : Prop := {
  ly_slots : slot_map sm;
  ly_trie : so_trie o = Some t;
  ly_holds : holds d t sm;
  ly_origin k v : originStorage o !! k = Some v → v = slot_val sm k ∧ is_slot k;
  ly_pending k v : pendingStorage o !! k = Some v → is_Some (originStorage o !! k) ∧ is_slot k ∧ is_word v }.

(** Everything but the layers. *)
Record same_account o o' : Prop := {
  sa_address : address o' = address o;
  sa_data : data o' = data o;
  sa_err : so_dbErr o' = so_dbErr o;
  sa_code : code o' = code o;
  sa_fake : fakeStorage o' = fakeStorage o;
  sa_dirtyCode : dirtyCode o' = dirtyCode o;
  sa_suicided : suicided o' = suicided o;
  sa_deleted : deleted o' = deleted o }.

#[local] Instance same_account_preorder : PreOrder same_account.
Proof. split; [by split|]. intros o1 o2 o3 [] []. split; congruence. Qed.

Lemma slot_val_insert sm k v k' : is_slot k → is_slot k' → is_word v →
  slot_val (<[Keccak256 k := slot_enc v]> sm) k' = if decide (k' = k) then v else slot_val sm k'.
Proof.
  intros Hk Hk' Hv. unfold slot_val. destruct (decide (k' = k)) as [->|Hne].
  - rewrite lookup_insert_eq. cbn. by destruct (slot_enc_value v Hv) as (_ & _ & ->).
  - rewrite lookup_insert_ne; [done|]. intros E. by apply slot_inj in E.
Qed.

Lemma slot_val_delete sm k k' : is_slot k → is_slot k' →
  slot_val (base.delete (Keccak256 k) sm) k' = if decide (k' = k) then zero_hash else slot_val sm k'.
Proof.
  intros Hk Hk'. unfold slot_val. destruct (decide (k' = k)) as [->|Hne].
  - by rewrite lookup_delete_eq.
  - rewrite lookup_delete_ne; [done|]. intros E. by apply slot_inj in E.
Qed.

Lemma slot_map_insert sm k v : slot_map sm → is_slot k → is_word v → v ≠ zero_hash → slot_map (<[Keccak256 k := slot_enc v]> sm).
Proof. intros Hs Hk Hv Hn h e. rewrite lookup_insert. case_decide; [intros [= <-]; subst; eauto 10|apply Hs]. Qed.
Lemma slot_map_delete sm k : slot_map sm → slot_map (base.delete k sm).
Proof. intros Hs h e. rewrite lookup_delete_Some. intros [_ ?]. by apply (Hs h). Qed.
Lemma slot_map_small d t sm : slot_map sm → holds d t sm → small sm.
Proof.
  intros Hs Hh k v E. split; [by eapply holds_keys|]. destruct (Hs k v E) as (k' & w & _ & _ & Hw & _ & ->). by destruct (slot_enc_value w Hw) as (_ & ? & _).
Qed.

(** One slot of [updateTrie]. *)
Lemma updateSlot_ok d o t sm k v : layers d o t sm → so_dbErr o = None → pendingStorage o !! k = Some v →
  ∃ o' t' sm', updateSlot d k o = (o', Ok ()) ∧ layers d o' t' sm' ∧ same_account o o' ∧
    pendingStorage o' = pendingStorage o ∧ dirtyStorage o' = dirtyStorage o ∧
    (∀ k', is_Some (originStorage o !! k') → is_Some (originStorage o' !! k')) ∧
    (∀ k', is_slot k' → slot_val sm' k' = if decide (k' = k) then v else slot_val sm k') ∧
    (v = slot_val sm k → sm' = sm).
Proof.
  intros [Hs Ht Hh Ho Hp] Herr Ep. destruct (Hp k v Ep) as ([w Ew] & Hk & Hv). destruct (Ho k w Ew) as [-> _].
  unfold updateSlot. rewrite Ep, Ew. cbn [default from_option id]. case_bool_decide as Ev.
  { exists o, t, sm. split_and!; try done. intros k' Hk'. case_decide; [by subst|done]. }
  cbn [so_trie with_storages]. rewrite Ht. set (o1 := with_storages o (<[k := v]> (originStorage o)) (pendingStorage o) (dirtyStorage o)).
  assert (Hor : ∀ k' : Hash, is_Some (originStorage o !! k') → is_Some (<[k := v]> (originStorage o) !! k')).
  { intros k' [x Ex]. rewrite lookup_insert. case_decide; eauto. }
  assert (Hlay : ∀ t' sm', holds d t' sm' → slot_map sm' → (∀ k', is_slot k' → slot_val sm' k' = if decide (k' = k) then v else slot_val sm k') →
    layers d (with_so_trie o1 t') t' sm').
  { intros t' sm' Hh' Hs' Hval. split; cbn; try done.
    - intros k' v'. rewrite lookup_insert. case_decide as E; [intros [= <-]; subst k'; by rewrite Hval, decide_True|].
      intros E'. destruct (Ho k' v' E') as [-> Hw]. by rewrite Hval, decide_False.
    - intros k' v' E'. destruct (Hp k' v' E') as [? ?]. split; [by apply Hor|done]. }
  case_bool_decide as Ez.
  - subst v. destruct (TryDelete_holds d t sm k Hh) as (t' & -> & Hh').
    assert (Hval : ∀ k', is_slot k' → slot_val (base.delete (Keccak256 k) sm) k' = if decide (k' = k) then zero_hash else slot_val sm k')
      by (intros; by apply slot_val_delete).
    eexists _, t', _. split; [done|]. split; [by apply Hlay; [|apply slot_map_delete|]|]. by split_and!.
  - destruct (TryUpdate_holds d t sm k (slot_enc v) Hh) as (t' & E & Hh').
    { destruct (slot_enc_value v Hv) as (_ & Hl & _). destruct Hl as [Hl _]. intros E0. rewrite E0 in Hl. unfold len in Hl. cbn in Hl. lia. }
    unfold slot_enc in E. rewrite E. fold (slot_enc v) in Hh'.
    assert (Hval : ∀ k', is_slot k' → slot_val (<[Keccak256 k := slot_enc v]> sm) k' = if decide (k' = k) then v else slot_val sm k')
      by (intros; by apply slot_val_insert).
    eexists _, t', _. split; [done|]. split; [by apply Hlay; [|apply slot_map_insert|]|]. by split_and!.
Qed.

Lemma updateSlots_ok d keys o t sm : NoDup keys → layers d o t sm → so_dbErr o = None →
  (∀ k, k ∈ keys → is_Some (pendingStorage o !! k)) →
  ∃ o' t' sm', for_keys (updateSlot d) keys o = (o', Ok ()) ∧ layers d o' t' sm' ∧ same_account o o' ∧
    pendingStorage o' = pendingStorage o ∧ dirtyStorage o' = dirtyStorage o ∧
    (∀ k, is_Some (originStorage o !! k) → is_Some (originStorage o' !! k)) ∧
    (∀ k, is_slot k → slot_val sm' k = if decide (k ∈ keys) then default (slot_val sm k) (pendingStorage o !! k) else slot_val sm k) ∧
    ((∀ k v, pendingStorage o !! k = Some v → v = slot_val sm k) → sm' = sm).
Proof.
  revert o t sm. induction keys as [|k keys IH]; intros o t sm Hnd Hl Herr Hk; cbn [for_keys].
  { exists o, t, sm. split_and!; try done. }
  apply NoDup_cons in Hnd as [Hni Hnd]. destruct (Hk k) as [v Ev]; [set_solver|].
  destruct (updateSlot_ok d o t sm k v Hl Herr Ev) as (o1 & t1 & sm1 & E1 & Hl1 & Hs1 & Hp1 & Hd1 & Ho1 & Hv1 & Hsm1).
  destruct (IH o1 t1 sm1) as (o2 & t2 & sm2 & E2 & Hl2 & Hs2 & Hp2 & Hd2 & Ho2 & Hv2 & Hsm2); [done|done| |..].
  { by rewrite (sa_err _ _ Hs1). }
  { intros k' Hk'. rewrite Hp1. apply Hk. set_solver. }
  unfold mbind, M_bind. rewrite E1, E2. exists o2, t2, sm2. split_and!; try done.
  - by etrans.
  - by rewrite Hp2.
  - by rewrite Hd2.
  - eauto.
  - intros k' Hw. rewrite Hv2, Hp1, Hv1 by done. destruct (decide (k' = k)) as [->|Hne].
    + rewrite decide_False, decide_True by set_solver. by rewrite Ev.
    + destruct (decide (k' ∈ keys)); [by rewrite decide_True by set_solver|by rewrite decide_False by set_solver].
  - intros Hall. rewrite (Hsm1 (Hall k v Ev)) in *. apply Hsm2. intros k' v'. rewrite Hp1. apply Hall.
Qed.

(** The storage of an object after it was written to its trie. *)
Record written d o (t : T) (sm : gmap bytes bytes) : Prop := {
  wr_layers : layers d o t sm;
  wr_pending : pendingStorage o = ∅;
  wr_dirty : dirtyStorage o = ∅ }.

Lemma updateTrie_ok P Q d addr o ao : object_ok P Q d addr o ao → (∀ k, is_slot k → a_storage ao k = a_committed ao k) →
  ∃ o' t sm, updateTrie d o = (o', Ok ()) ∧ written d o' t sm ∧ same_account o o' ∧
    (∀ k, k ∈ a_written ao → is_Some (originStorage o' !! k)) ∧ (∀ k, is_slot k → slot_val sm k = a_storage ao k) ∧
    (addr ∉ P → deleted o = false → root_of (D := D) (T := T) sm (acc_Root (data o)) ∧
       (addr ∉ Q → opens (T := T) d (acc_Root (data o)) sm)).
Proof.
  intros Ho Hq. pose proof (ok_storage _ _ _ _ _ _ Ho) as (sm & Hs & Hv).
  assert (Hval : ∀ k, is_slot k → default (slot_val sm k) ((dirtyStorage o ∪ pendingStorage o) !! k) = a_storage ao k).
  { intros k Hk. destruct (Hv k Hk) as [<- _]. unfold current_val, committed_val. rewrite lookup_union.
    by destruct (dirtyStorage o !! k), (pendingStorage o !! k). }
  unfold updateTrie, mbind, M_bind. cbv beta iota delta [modify]. set (o1 := finalise o).
  assert (Ht : ∃ o2 t, getTrie d o1 = (o2, Ok t) ∧ layers d o2 t sm ∧ same_account o1 o2 ∧ pendingStorage o2 = dirtyStorage o ∪ pendingStorage o ∧
    dirtyStorage o2 = ∅ ∧ originStorage o2 = originStorage o).
  { unfold getTrie. destruct Hs. cbn [so_trie finalise with_storages o1]. subst o1.
    assert (Hpend : ∀ k v, (dirtyStorage o ∪ pendingStorage o) !! k = Some v → is_Some (originStorage o !! k) ∧ is_slot k ∧ is_word v).
    { intros k v [E|[_ E]]%lookup_union_Some_raw; eauto. }
    destruct (so_trie o) as [t|] eqn:Et.
    - exists (finalise o), t. split_and!; try done.
    - destruct (OpenStorageTrie_opens d (addrHash o) _ _ sk_trie) as (t & E & Hh). cbn. unfold addrHash in E |- *. cbn. rewrite E.
      eexists _, t. split; [done|]. split; [|by split_and!]. by split. }
  destruct Ht as (o2 & t & -> & Hl2 & Hs2 & Hp2 & Hd2 & Ho2). cbv beta iota delta [gets].
  destruct (updateSlots_ok d (range (dom (pendingStorage o2))) o2 t sm) as (o3 & t3 & sm3 & -> & Hl3 & Hs3 & Hp3 & Hd3 & Ho3 & Hv3 & Hsm3).
  { rewrite range_perm. apply NoDup_elements. }
  { done. }
  { rewrite (sa_err _ _ Hs2). apply Ho. }
  { intros k. by rewrite range_perm, elem_of_elements, elem_of_dom. }
  eexists _, t3, sm3. split; [done|]. split; [|split; [|split_and!]].
  - split; cbn; [|done|by rewrite Hd3, Hd2]. destruct Hl3. by split.
  - etrans; [|etrans; [exact Hs2|etrans; [exact Hs3|]]]; by split.
  - intros k Hk. cbn. apply Ho3. rewrite Ho2. by apply (ok_written _ _ _ _ _ _ Ho).
  - intros k Hk. rewrite Hv3, Hp2, <- (Hval k Hk) by done. destruct (decide _) as [Hin|Hin]; [done|].
    rewrite range_perm, elem_of_elements, not_elem_of_dom in Hin. by rewrite Hin.
  - intros HP Hdel. assert (sm3 = sm) as ->.
    { apply Hsm3. intros k v E. rewrite Hp2, (sk_flushed _ _ _ _ _ _ Hs HP Hdel), map_union_empty in E.
      destruct (sk_dirty _ _ _ _ _ _ Hs k v E) as (_ & Hw & _). destruct (Hv k Hw) as [Hc1 Hc2]. rewrite Hq in Hc1 by done.
      unfold current_val in Hc1. rewrite E in Hc1. cbn in Hc1. rewrite <- Hc2 in Hc1. unfold committed_val in Hc1.
      rewrite (sk_flushed _ _ _ _ _ _ Hs HP Hdel) in Hc1. done. }
    destruct Hs. split; [by apply sk_root|]. intros HQ. by apply sk_opens.
Qed.

(** ** Accounts after a write *)

Definition a_with_root (r : Hash) ao : aobj :=
  mkA (a_nonce ao) (a_balance ao) (a_codehash ao) (a_code ao) r (a_storage ao) (a_committed ao) (a_written ao) (a_suicided ao) (a_deleted ao).

(** The contents that a storage trie should have. *)
Definition represents (sm : gmap bytes bytes) (f : Hash → Hash) : Prop := slot_map sm ∧ ∀ k, is_slot k → slot_val sm k = f k.

Lemma slot_val_Some sm k e : slot_map sm → sm !! Keccak256 k = Some e → slot_val sm k ≠ zero_hash ∧ e = slot_enc (slot_val sm k).
Proof.
  intros Hs E. unfold slot_val. rewrite E. destruct (Hs _ _ E) as (k' & v & _ & _ & Hv & Hz & ->). cbn.
  by destruct (slot_enc_value v Hv) as (_ & _ & ->).
Qed.

Lemma represents_sub sm sm' f h e : represents sm f → represents sm' f → sm !! h = Some e → sm' !! h = Some e.
Proof.
  intros [Hs Hf] [Hs' Hf'] E. destruct (Hs h e E) as (k & v & Hk & -> & _). destruct (slot_val_Some sm k e Hs E) as [Hz ->].
  rewrite Hf in * by done. rewrite <- Hf' in * by done. destruct (sm' !! Keccak256 k) as [e'|] eqn:E'.
  - by destruct (slot_val_Some sm' k e' Hs' E') as [_ ->].
  - unfold slot_val in Hz. by rewrite E' in Hz.
Qed.

(** The values of the slots determine the contents. *)
Lemma represents_unique sm sm' f : represents sm f → represents sm' f → sm = sm'.
Proof.
  intros H1' H2'. apply map_eq. intros h. destruct (sm !! h) as [e|] eqn:E; [symmetry; by apply (represents_sub sm sm' f)|].
  destruct (sm' !! h) as [e|] eqn:E'; [|done]. rewrite <- E. by apply (represents_sub sm' sm f).
Qed.

Lemma written_ok P Q P' Q' d d' addr o o1 t sm r ao : object_ok P Q d addr o ao → grows (T := T) d d' → same_account o o1 →
  written d' o1 t sm → (∀ k, k ∈ a_written ao → is_Some (originStorage o1 !! k)) →
  (∀ k, is_slot k → slot_val sm k = a_storage ao k) → (∀ k, is_slot k → a_storage ao k = a_committed ao k) →
  root_of (D := D) (T := T) sm r → (addr ∉ Q' → opens (T := T) d' r sm) →
  object_ok P' Q' d' addr (setRoot r o1) (a_with_root r ao).
Proof.
  intros Ho Hg Hsa [[Hs Ht Hh Hor Hp] Epend Edirty] Hw Hv Hq Hr Hop. pose proof (object_ok_grows P Q d d' addr o ao Hg Ho) as Ho'.
  destruct Ho', Hsa. split; cbn; try done; try congruence.
  - by rewrite sa_data0, ok_data.
  - unfold code_ok in *. cbn. by rewrite sa_code0, sa_dirtyCode0.
  - exists sm. split.
    + split; cbn; rewrite ?Epend, ?Edirty; try done; [by rewrite Ht|by auto].
    + intros k Hk. unfold current_val, committed_val. cbn. rewrite Epend, Edirty, !lookup_empty. cbn. by rewrite <- (Hq k Hk), Hv.
Qed.

(** Storage that was written has a root. *)
Lemma updateRoot_ok P Q P' Q' d addr o ao : object_ok P Q d addr o ao → addr ∈ Q' → quiet ao → 
  (∀ sm, represents sm (a_storage ao) → fits sm) →
  ∃ o' r sm, updateRoot d o = (o', Ok ()) ∧ object_ok P' Q' d addr o' (a_with_root r ao) ∧
    represents sm (a_storage ao) ∧ root_of (D := D) (T := T) sm r.
Proof.
  intros Ho HQ [_ Hq] Hfit. destruct (updateTrie_ok P Q d addr o ao Ho Hq) as (o1 & t & sm & E1 & Hw & Hsa & Hor & Hv & _).
  assert (Hrep : represents sm (a_storage ao)) by (split; [apply Hw|done]).
  unfold updateRoot, mbind, M_bind. rewrite E1. unfold hashRoot. destruct Hw as [[W1 W2 W3 W4 W5] W6 W7]. rewrite W2.
  destruct (Hash_holds d t sm W3) as (t' & r & -> & Hh' & Hr); [by eapply slot_map_small|by apply Hfit|].
  eexists _, r, sm. split; [done|]. split; [|done]. eapply (written_ok P Q P' Q' d d addr o (with_so_trie o1 t') t'); try done.
  by destruct Hsa; split.
Qed.

(** ** The accounts that are written *)

(** Only the roots of storage differ. *)
Definition rerooted a a' : Prop :=
  (∀ x, option_Forall2 (λ ao ao', ao' = a_with_root (a_root ao') ao) (a_accounts a x) (a_accounts a' x)) ∧
  a' = mkAState (a_accounts a') (a_refund a) (a_thash a) (a_bhash a) (a_txIndex a) (a_logs a) (a_logSize a)
    (a_preimages a) (a_al a) (a_dirty a) (a_resets a) (a_clean a).

#[local] Instance rerooted_preorder : PreOrder rerooted.
Proof.
  split.
  - intros a. split; [|by destruct a]. intros x. destruct (a_accounts a x) as [[]|]; by constructor.
  - intros a1 a2 a3 [R1 E1] [R2 E2]. rewrite E1 in E2. split; [|exact E2]. intros x. specialize (R1 x). specialize (R2 x).
    destruct R1 as [ao1 ao2 E|]; inversion R2 as [? ao3 E'|]; constructor. subst. rewrite E', E. done.
Qed.

(** The contents that the account trie should have. *)
Definition account_trie (m : gmap bytes bytes) a : Prop := acct_map m ∧ ∀ x, is_addr x →
  synced (T := T) (load m x) (a_accounts a x) ∧
  ∀ ao, a_accounts a x = Some ao → a_deleted ao = false → ∃ sm, represents sm (a_storage ao) ∧ root_of (D := D) (T := T) sm (a_root ao).

(** Everything was finalised, and the accounts can be encoded and hashed. *)
Record settled a : Prop := {
  se_dirty : a_dirty a = ∅;
  se_resets : a_resets a = ∅;
  se_nonce x ao : is_addr x → a_accounts a x = Some ao → a_deleted ao = false → 0 <= a_nonce ao < 2 ^ 64;
  se_balance x ao : is_addr x → a_accounts a x = Some ao → a_deleted ao = false → 0 <= a_balance ao < 2 ^ 256;
  se_storage x ao sm : is_addr x → a_accounts a x = Some ao → a_deleted ao = false → represents sm (a_storage ao) → fits sm;
  se_code x ao : is_addr x → a_accounts a x = Some ao → a_deleted ao = false → fits_code (a_code ao);
  se_trie m a' : rerooted a a' → account_trie m a' → fits m }.

Lemma settled_rerooted a a' : rerooted a a' → settled a → settled a'.
Proof.
  intros Hra. pose proof Hra as [Hr E]. intros [S1 S2 S3 S4 S5 S6 S7]. assert (Hat : ∀ x ao', a_accounts a' x = Some ao' → ∃ ao, a_accounts a x = Some ao ∧
    a_nonce ao' = a_nonce ao ∧ a_balance ao' = a_balance ao ∧ a_storage ao' = a_storage ao ∧ a_code ao' = a_code ao ∧
    a_deleted ao' = a_deleted ao).
  { intros x ao' Ex. specialize (Hr x). rewrite Ex in Hr. inversion Hr as [ao ? Eo|]; subst. exists ao. by rewrite Eo. }
  split; [by rewrite E|by rewrite E|..|intros m' a2 Ha2; apply S7; by etrans]; intros x ao' **; destruct (Hat x ao') as (ao & Ea & En & Eb & Es & Ec & Ed);
    rewrite ?En, ?Eb, ?Es, ?Ec, ?Ed in *; eauto.
Qed.

(** The state while accounts are written, [P] yet to be written. *)
Record flushing (m : gmap bytes bytes) (P Q : gset Address) s a : Prop := {
  fl_map : acct_map m;
  fl_core : core m P Q (with_sets s P Q) a;
  fl_ok : a_ok m P Q (st_db s) a }.

Record flow s s' : Prop := {
  fw_frame : frame s s';
  fw_pending : stateObjectsPending s' = stateObjectsPending s;
  fw_dirty : stateObjectsDirty s' = stateObjectsDirty s }.

#[local] Instance flow_preorder : PreOrder flow.
Proof.
  split; [by do 2 split|]. intros s1 s2 s3 [[] ? ?] [[] ? ?]. split; [split; try congruence|congruence..]. 
  destruct fr_grows, fr_grows0. split; eauto.
Qed.

Lemma flush_write m P Q s a addr o' ao ao' m' t' : flushing m P Q s a → is_addr addr → a_dirty a = ∅ → addr ∈ P →
  a_accounts a addr = Some ao → acct_map m' → (∀ x, is_addr x → x ≠ addr → m' !! Keccak256 x = m !! Keccak256 x) →
  holds (st_db s) t' m' → object_ok (P ∖ {[addr]}) Q (st_db s) addr o' ao' → ao' = a_with_root (a_root ao') ao →
  synced (T := T) (load m' addr) (Some ao') →
  flushing m' (P ∖ {[addr]}) Q (with_trie (with_objects s (<[addr := o']> (stateObjects s))) t') (a_write addr (Some ao') a).
Proof.
  intros [_ Hc [O1 O2 O3 O4]] Hl Hd HP Ea Hm' Hsame Ht Ho' Er Hsy. pose proof (co_sub _ _ _ _ _ Hc) as HPQ. 
  assert (Hload : ∀ x, is_addr x → x ≠ addr → load m' x = load m x) by (intros x Hx Hne; unfold load; by rewrite Hsame).
  split; [done|..].
  - destruct Hc. cbn in *. split; cbn; try done.
    + intros x o. rewrite lookup_insert. case_decide; [by subst|eauto].
    + intros x Hx. unfold lookup_obj, upd. cbn. rewrite lookup_insert. destruct (decide (addr = x)) as [<-|Hne].
      { rewrite decide_True by done. by constructor. }
      rewrite decide_False, Hload by done. specialize (co_objs x Hx). unfold lookup_obj in co_objs. cbn in co_objs.
      destruct co_objs; constructor. eapply object_ok_sets; [done|set_solver..].
    + rewrite dom_insert. set_solver.
    + set_solver.
    + rewrite dom_insert. set_solver.
  - split; cbn; unfold upd.
    + intros x Hx. case_decide; [done|by apply O1].
    + intros x y Hx HD. case_decide; [intros [= <-]|by apply O2]. rewrite Er. cbn. intros Hdel.
      apply (O2 addr ao) in Hdel; [done|done|set_solver|done].
    + intros x y Hx HQ HD HR. rewrite decide_False by set_solver. by apply O3.
    + intros x Hx HnP HD HR. case_decide as E; [by subst x|]. rewrite Hload by done. apply O4; [done|set_solver..].
Qed.

Lemma reroot_one a addr ao ao' : a_accounts a addr = Some ao → ao' = a_with_root (a_root ao') ao →
  rerooted a (a_write addr (Some ao') a).
Proof.
  intros Ea Er. split; [|done]. intros x. cbn. unfold upd. case_decide as E; [subst x; rewrite Ea; by constructor|].
  destruct (a_accounts a x) as [[]|]; by constructor.
Qed.

Lemma acct_map_insert m x acc e : acct_map m → is_addr x → valid_account acc → encodeAccount acc = Ok e →
  acct_map (<[Keccak256 x := e]> m).
Proof. intros Hm Hx Hv He h e'. rewrite lookup_insert. case_decide; [intros [= <-]; subst; eauto 10|apply Hm]. Qed.
Lemma acct_map_delete m h : acct_map m → acct_map (base.delete h m).
Proof. intros Hm h' e. rewrite lookup_delete_Some. intros [_ ?]. by apply Hm. Qed.

Lemma load_insert m x acc e : encodeAccount acc = Ok e → valid_account acc → load (<[Keccak256 x := e]> m) x = Some acc.
Proof.
  intros He Hv. destruct (decode_encodeAccount acc Hv) as (e' & He' & Hd & _). rewrite He in He'. injection He' as <-.
  unfold load. rewrite lookup_insert_eq. cbn. by rewrite Hd.
Qed.

(** The account of a live object is written, that of a deleted one removed. *)
Lemma flush_step m P Q s a addr : flushing m P Q s a → settled a → addr ∈ P →
  ∃ s' m' a', flushObject addr s = (s', Ok ()) ∧ flushing m' (P ∖ {[addr]}) Q s' a' ∧ flow s s' ∧ rerooted a a'.
Proof.
  intros HF Hse HP. pose proof HF as [Hm Hc Hok].
  assert (is_Some (stateObjects s !! addr)) as [o Eo].
  { apply elem_of_dom. apply (co_sets _ _ _ _ _ Hc). set_solver. }
  destruct (core_objs_obj m P Q (with_sets s P Q) a addr o Hc Eo) as (ao & Ea & Ho). cbn in Ho.
  pose proof (co_keys _ _ _ _ _ Hc addr o Eo) as Hl.
  assert (Hne : ∀ x, is_addr x → x ≠ addr → Keccak256 addr ≠ Keccak256 x) by (intros x Hx Hxa E; apply Hxa; symmetry; by apply addr_inj).
  unfold flushObject, mbind, M_bind. cbv beta iota delta [gets]. rewrite Eo, (ok_deleted _ _ _ _ _ _ Ho).
  pose proof (co_trie _ _ _ _ _ Hc) as Ht. cbn in Ht. destruct (a_deleted ao) eqn:Hdel.
  - unfold deleteStateObject. rewrite (ok_addr _ _ _ _ _ _ Ho). destruct (TryDelete_holds _ _ _ addr Ht) as (t' & -> & Ht').
    exists (with_trie s t'), (base.delete (Keccak256 addr) m), (a_write addr (Some ao) a). split; [done|]. split; [|split].
    + assert (Es : with_objects s (<[addr := o]> (stateObjects s)) = s) by (rewrite insert_id by done; by destruct s).
      replace (with_trie s t') with (with_trie (with_objects s (<[addr := o]> (stateObjects s))) t') by (by rewrite Es). eapply flush_write; try done.
      * apply Hse.
      * by apply acct_map_delete.
      * intros x Hx Hxa. rewrite lookup_delete_ne; [done|by apply Hne].
      * destruct Ho as [? ? ? ? ? ? ? ? ? (sm & [] & Hv)]. split; try done. exists sm. split; [|done]. split; try done; congruence.
      * by destruct ao.
      * cbn. rewrite Hdel. unfold load. by rewrite lookup_delete_eq.
    + by do 2 split.
    + apply (reroot_one _ _ ao); [done|by destruct ao].
  - destruct (updateRoot_ok P Q (P ∖ {[addr]}) Q (st_db s) addr o ao Ho) as (o' & r & sm & E & Ho' & Hrep & Hr).
    { apply (co_sub _ _ _ _ _ Hc). done. }
    { apply (ao_quiet _ _ _ _ _ Hok addr ao); try done. rewrite (se_dirty _ Hse). set_solver. }
    { intros sm. by eapply se_storage. }
    destruct (root_of_hash sm r Hr) as [Hr1 Hr2]; [by eapply se_storage|].
    set (acc := mkAccount (a_nonce ao) (a_balance ao) r (a_codehash ao)).
    assert (Hva : valid_account acc).
    { split_and!; cbn; try done; try by eapply se_nonce. 1-2: by eapply se_balance. rewrite (ok_hash _ _ _ _ _ _ Ho). apply Keccak256_length. }
    destruct (decode_encodeAccount acc Hva) as (e & He & _ & Hlen).
    destruct (TryUpdate_holds _ _ _ addr e Ht) as (t' & E' & Ht'). { intros ->. by destruct Hlen. }
    assert (EU : ∀ s1, st_db s1 = st_db s → st_trie s1 = st_trie s → updateStateObject o' s1 = (with_trie s1 t', Ok ())).
    { intros s1 E1 E2. unfold updateStateObject. rewrite (ok_addr _ _ _ _ _ _ Ho'), (ok_data _ _ _ _ _ _ Ho').
      change (mkAccount _ _ _ _) with acc. by rewrite He, E1, E2, E'. }
    unfold on_object. rewrite E, (ok_addr _ _ _ _ _ _ Ho'). cbn [mbind result_bind]. rewrite EU by done. eexists _, (<[Keccak256 addr := e]> m), _. split; [done|]. split; [|split].
    + eapply (flush_write _ _ _ _ _ _ _ ao (a_with_root r ao)); try done.
      * apply Hse.
      * by eapply acct_map_insert.
      * intros x Hx Hxa. rewrite lookup_insert_ne; [done|by apply Hne].
      * cbn. rewrite Hdel. exists acc. split; [by apply load_insert|]. cbn. by rewrite bool_decide_eq_false_2.
    + by do 2 split.
    + by apply (reroot_one _ _ ao).
Qed.

Lemma flush_loop l m P Q s a : NoDup l → (∀ x, x ∈ l ↔ x ∈ P) → flushing m P Q s a → settled a →
  ∃ s' m' a', for_keys flushObject l s = (s', Ok ()) ∧ flushing m' ∅ Q s' a' ∧ flow s s' ∧ rerooted a a'.
Proof.
  intros Hnd. revert m P s a. induction Hnd as [|x l Hx Hnd IH]; intros m P s a Hl HF Hse; cbn [for_keys].
  { exists s, m, a. split; [done|]. split; [|done]. assert (P = ∅) as -> by set_solver. done. }
  destruct (flush_step m P Q s a x HF Hse) as (s1 & m1 & a1 & E1 & HF1 & Hw1 & Hr1); [apply Hl; set_solver|].
  destruct (IH m1 (P ∖ {[x]}) s1 a1) as (s2 & m2 & a2 & E2 & HF2 & Hw2 & Hr2).
  { intros y. rewrite elem_of_difference, <- Hl. set_solver. }
  { done. }
  { by eapply settled_rerooted. }
  unfold mbind, M_bind. rewrite E1, E2. exists s2, m2, a2. split_and!; try done; by etrans.
Qed.

(** When everything was written, the trie holds the accounts and their roots. *)
Lemma flushed_trie m Q s a : flushing m ∅ Q s a → settled a → account_trie m a.
Proof.
  intros [Hm Hc Hok] Hse. split; [done|]. intros x Hx.
  assert (Hnd : (x ∉ a_dirty a) ∧ (x ∉ a_resets a)) by (rewrite (se_dirty _ Hse), (se_resets _ Hse); set_solver). destruct Hnd as [Hnd Hnr].
  split; [apply (ao_synced _ _ _ _ _ Hok); [done|set_solver|done..]|]. intros ao Ea Hdel.
  destruct (ao_quiet _ _ _ _ _ Hok x ao Hx Hnd Ea Hdel) as [_ Hq].
  pose proof (co_objs _ _ _ _ _ Hc x Hx) as HF. rewrite Ea in HF. inversion HF as [o ? Ho|]; subst.
  pose proof Ho as [_ Hd _ _ _ Hdl _ _ _ (sm & Hs & Hv)]. rewrite Hdel in Hdl.
  pose proof (sk_flushed _ _ _ _ _ _ Hs ltac:(set_solver) Hdl) as Hp. pose proof (sk_root _ _ _ _ _ _ Hs ltac:(set_solver) Hdl) as Hr.
  rewrite Hd in Hr. exists sm. split; [|done]. split; [apply Hs|]. intros k Hk. destruct (Hv k Hk) as [_ Hcv].
  unfold committed_val in Hcv. rewrite Hp, lookup_empty in Hcv. cbn in Hcv. by rewrite Hq.
Qed.

Lemma account_trie_small d t m a : account_trie m a → holds d t m → small m.
Proof.
  intros [Hm _] Hh k v E. split; [by eapply holds_keys|]. destruct (Hm k v E) as (x & acc & _ & _ & Hva & He).
  destruct (decode_encodeAccount acc Hva) as (e & He' & _ & ?). congruence.
Qed.

(** The trie may change while its contents stay. *)
Lemma flushing_trie m P Q s a t : flushing m P Q s a → holds (st_db s) t m → flushing m P Q (with_trie s t) a.
Proof. intros [Hm [] Hok] Ht. by split; [|split|]. Qed.

Lemma flushing_sets m P Q s a P' Q' : flushing m P Q s a → flushing m P Q (with_sets s P' Q') a.
Proof. intros [Hm [] Hok]. by split; [|split|]. Qed.

(** The root of the state. *)
Lemma IntermediateRoot_ok m P Q b s a hist : acct_map m → Inv m P Q s a hist → settled (a_finalise b a) →
  ∃ s' root m' a', IntermediateRoot b s = (s', Ok root) ∧ rerooted (a_finalise b a) a' ∧ flushing m' ∅ (Q ∪ a_dirty a) s' a' ∧
    account_trie m' a' ∧ root_of (D := D) (T := T) m' root ∧ st_journal s' = newJournal ∧ validRevisions s' = [] ∧
    nextRevisionId s' = nextRevisionId s ∧ stateObjectsPending s' = ∅ ∧ stateObjectsDirty s' = Q ∪ a_dirty a.
Proof.
  intros Hm HI Hse. destruct (finalise_ok m P Q b s a hist HI) as (s1 & E1 & HI1 & Hv1 & Hn1). destruct HI1 as [Hc1 Hch1 Hao1 Hd1].
  assert (Hj1 : st_journal s1 = newJournal).
  { destruct (st_journal s1) as [[|e es] di] eqn:Ej; cbn in *; [by rewrite Hd1|done]. }
  pose proof (co_pending _ _ _ _ _ Hc1) as HP1. pose proof (co_dirty _ _ _ _ _ Hc1) as HQ1.
  assert (HF1 : flushing m (P ∪ a_dirty a) (Q ∪ a_dirty a) s1 (a_finalise b a)).
  { split; [done| |by eapply Forall_inv]. destruct Hc1. by split. }
  destruct (flush_loop (range (P ∪ a_dirty a)) m (P ∪ a_dirty a) (Q ∪ a_dirty a) s1 (a_finalise b a)) as (s2 & m2 & a2 & E2 & HF2 & Hw2 & Hr2); try done.
  { rewrite range_perm. apply NoDup_elements. }
  { intros x. by rewrite range_perm, elem_of_elements. }
  pose proof (settled_rerooted _ _ Hr2 Hse) as Hse2. pose proof (flushed_trie _ _ _ _ HF2 Hse2) as Htr.
  pose proof (co_trie _ _ _ _ _ (fl_core _ _ _ _ _ HF2)) as Ht2. cbn in Ht2.
  destruct (Hash_holds _ _ _ Ht2) as (t & root & Eh & Ht & Hroot).
  { by eapply account_trie_small. }
  { by apply (se_trie _ Hse m2 a2). }
  unfold IntermediateRoot, mbind, M_bind. rewrite E1. cbv beta iota delta [gets modify]. rewrite HP1, E2. unfold hashTrie. cbn.
  rewrite Eh. eexists _, root, m2, a2. split; [done|]. destruct Hw2 as [[] Hp2 Hq2]. split_and!; cbn; try done; try congruence.
  apply flushing_trie; [by apply flushing_sets|done].
Qed.

(** ** Committing *)

Lemma flushing_put m Q s a addr o ao d : flushing m ∅ Q s a → is_addr addr → a_accounts a addr = Some ao →
  grows (T := T) (st_db s) d → object_ok ∅ (Q ∖ {[addr]}) d addr o ao → (a_deleted ao = false → persisted (T := T) d ao) →
  flushing m ∅ (Q ∖ {[addr]}) (with_objects (with_db s d) (<[addr := o]> (stateObjects s))) a.
Proof.
  intros [Hm [] Hok] Hl Ea Hg Ho Hp. cbn in *. split; [done|split; cbn|]; try done.
  - by apply (gr_sound _ _ Hg).
  - by apply (gr_holds _ _ Hg).
  - intros x o'. rewrite lookup_insert. case_decide; [by subst|eauto].
  - intros x Hx. unfold lookup_obj. cbn. rewrite lookup_insert. destruct (decide (addr = x)) as [<-|Hne].
    { rewrite Ea. by constructor. }
    specialize (co_objs x Hx). unfold lookup_obj in co_objs. cbn in co_objs. destruct co_objs; constructor.
    eapply object_ok_grows; [done|]. eapply object_ok_sets; [done|set_solver..].
  - rewrite dom_insert. set_solver.
  - rewrite dom_insert. set_solver.
  - destruct Hok as [O1 O2 O3 O4]. split; cbn; try done. intros x ao' Hx HQ HD HR Ex Hdel. destruct (decide (x = addr)) as [->|Hne].
    + simplify_eq. by apply Hp.
    + destruct (O3 x ao') as [|]; try done; [set_solver|by left|right]. by apply (gr_code _ _ Hg).
Qed.

(** The storage of a live object is written, its root stays. *)
Lemma CommitTrie_ok Q Q' d addr o ao : object_ok ∅ Q d addr o ao → a_deleted ao = false → quiet ao → sound (T := T) d →
  (∀ sm, represents sm (a_storage ao) → fits sm) →
  ∃ o' d', CommitTrie d o = (o', d', Ok ()) ∧ grows (T := T) d d' ∧ object_ok ∅ Q' d' addr o' ao.
Proof.
  intros Ho Hdel [_ Hq] Hd Hfit. destruct (updateTrie_ok ∅ Q d addr o ao Ho Hq) as (o1 & t & sm & E1 & Hw & Hsa & Hor & Hv & Hroot).
  assert (Hrep : represents sm (a_storage ao)) by (split; [apply Hw|done]).
  destruct Hroot as [Hroot _]; [set_solver|by rewrite (ok_deleted _ _ _ _ _ _ Ho)|].
  unfold CommitTrie. rewrite E1, (sa_err _ _ Hsa), (ok_err _ _ _ _ _ _ Ho). destruct Hw as [[W1 W2 W3 W4 W5] W6 W7]. rewrite W2.
  destruct (Commit_holds None d t sm Hd W3) as (d' & t' & h & -> & Hg & Hh' & Hop & Hh); [by eapply slot_map_small|by apply Hfit|done|].
  rewrite (ok_data _ _ _ _ _ _ Ho) in Hroot. cbn in Hroot. pose proof (root_of_unique _ _ _ Hh Hroot) as ->.
  eexists _, d'. split; [done|]. split; [done|]. assert (ao = a_with_root (a_root ao) ao) as -> by (by destruct ao).
  eapply (written_ok ∅ Q ∅ Q' d d' addr o (with_so_trie o1 t') t'); try done. by destruct Hsa; split.
Qed.

Lemma ok_code_written P Q d addr o ao c : object_ok P Q d addr o ao → code o = Some c → persisted (T := T) d ao →
  object_ok P Q d addr (with_code o (Some c) false) ao.
Proof.
  intros [? ? ? Hc ? ? ? ? ? (sm & [] & Hv)] Ec Hp. split; try done.
  - unfold code_ok in *. rewrite Ec in Hc. destruct Hc as [-> _]. by split.
  - by exists sm.
Qed.

Lemma commit_step m Q s a addr : flushing m ∅ Q s a → settled a → addr ∈ Q →
  ∃ s', commitObject addr s = (s', Ok ()) ∧ flushing m ∅ (Q ∖ {[addr]}) s' a ∧ flow s s'.
Proof.
  intros HF Hse HQ. pose proof HF as [Hm Hc Hok]. assert (is_Some (stateObjects s !! addr)) as [o Eo].
  { apply elem_of_dom. apply (co_sets _ _ _ _ _ Hc). set_solver. }
  destruct (core_objs_obj m ∅ Q (with_sets s ∅ Q) a addr o Hc Eo) as (ao & Ea & Ho). cbn in Ho.
  pose proof (co_keys _ _ _ _ _ Hc addr o Eo) as Hl. pose proof (co_sound _ _ _ _ _ Hc) as Hd. cbn in Hd.
  unfold commitObject. rewrite Eo, (ok_deleted _ _ _ _ _ _ Ho). destruct (a_deleted ao) eqn:Hdel.
  { exists s. split; [done|]. split; [|done].
    assert (Es : with_objects (with_db s (st_db s)) (<[addr := o]> (stateObjects s)) = s) by (rewrite insert_id by done; by destruct s).
    assert (Hput := flushing_put m Q s a addr o ao (st_db s) HF Hl Ea). rewrite Es in Hput. apply Hput; [by split| |by rewrite Hdel].
    destruct Ho as [? ? ? ? ? Hdl ? ? ? (sm & [] & Hv)]. rewrite Hdel in Hdl. split; try done; [by rewrite Hdel|].
    exists sm. split; [|done]. split; try done; congruence. }
  assert (Hq : quiet ao) by (apply (ao_quiet _ _ _ _ _ Hok addr ao); try done; rewrite (se_dirty _ Hse); set_solver).
  assert (Hfin : ∀ d o1, grows (T := T) (st_db s) d → object_ok ∅ Q d addr o1 ao → persisted (T := T) d ao →
    ∃ s', (let '(o, d, r) := CommitTrie d o1 in (with_objects (with_db s d) (<[addr := o]> (stateObjects s)), r)) = (s', Ok ()) ∧
      flushing m ∅ (Q ∖ {[addr]}) s' a ∧ flow s s').
  { intros d o1 Hg Ho1 Hp. destruct (CommitTrie_ok Q (Q ∖ {[addr]}) d addr o1 ao Ho1 Hdel Hq) as (o2 & d2 & -> & Hg2 & Ho2).
    { by apply (gr_sound _ _ Hg). } { intros sm. by eapply se_storage. }
    assert (Hg' : grows (T := T) (st_db s) d2) by (destruct Hg, Hg2; split; eauto).
    eexists. split; [done|]. split; [|by do 2 split]. eapply flushing_put; try done. intros _. destruct Hp; [by left|right; by apply (gr_code _ _ Hg2)]. }
  pose proof (ok_code _ _ _ _ _ _ Ho) as Hco. unfold code_ok in Hco. destruct (code o) as [c|] eqn:Ec.
  - destruct Hco as [-> Hper]. destruct (dirtyCode o) eqn:Edc; [|by apply Hfin; [split|..|apply Hper]].
    rewrite (BytesToHash_code ∅ Q _ _ _ _ Ho), (ok_hash _ _ _ _ _ _ Ho).
    destruct (InsertBlob_has (st_db s) (a_code ao) Hd) as (d1 & -> & Hg1 & Hh1); [by eapply se_code|].
    assert (Hp1 : persisted (T := T) d1 ao) by (right; by rewrite (ok_hash _ _ _ _ _ _ Ho)).
    apply Hfin; [done| |done]. eapply ok_code_written; [by eapply object_ok_grows|done|done].
  - apply Hfin; [by split|done|]. destruct Hco as [?|[_ ?]]; [by left|by right].
Qed.

Lemma commit_objects_loop l m Q s a : NoDup l → (∀ x, x ∈ l ↔ x ∈ Q) → flushing m ∅ Q s a → settled a →
  ∃ s', for_keys commitObject l s = (s', Ok ()) ∧ flushing m ∅ ∅ s' a ∧ flow s s'.
Proof.
  intros Hnd. revert Q s. induction Hnd as [|x l Hx Hnd IH]; intros Q s Hl HF Hse; cbn [for_keys].
  { exists s. split; [done|]. split; [|done]. assert (Q = ∅) as -> by set_solver. done. }
  destruct (commit_step m Q s a x HF Hse) as (s1 & E1 & HF1 & Hw1); [apply Hl; set_solver|].
  destruct (IH (Q ∖ {[x]}) s1) as (s2 & E2 & HF2 & Hw2); [|done|done|].
  { intros y. rewrite elem_of_difference, <- Hl. set_solver. }
  unfold mbind, M_bind. rewrite E1, E2. exists s2. split_and!; try done; by etrans.
Qed.

Lemma account_leaf_refs : refs_only (T := T) (account_leaf (D := D) (T := T)).
Proof.
  intros v. unfold account_leaf. destruct (decodeAccount v) as [acc|e|p] eqn:Ed; [|by exists []|].
  - exists ((if bool_decide (acc_Root acc = emptyRoot) then [] else [acc_Root acc]) ++
      (if bool_decide (BytesToHash (acc_CodeHash acc) = emptyCodeHash) then [] else [BytesToHash (acc_CodeHash acc)])).
    intros h d. rewrite foldl_app. case_bool_decide; case_bool_decide; cbn; try done. by destruct (db_Reference (acc_Root acc) h d).
  - unfold decodeAccount in Ed. repeat case_match; congruence.
Qed.

(** The account as a state opened at the new root has it. *)
Definition reopened ao : option aobj :=
  if a_deleted ao then None
  else Some (mkA (a_nonce ao) (a_balance ao) (a_codehash ao) (a_code ao) (a_root ao) (a_storage ao) (a_storage ao) ∅ false false).

Lemma committed_world m s a : flushing m ∅ ∅ s a → settled a → account_trie m a → world (st_db s) m (λ x, a_accounts a x ≫= reopened).
Proof.
  intros [Hm Hc Hok] Hse [_ Htr]. split; [done|]. intros x Hx. destruct (Htr x Hx) as [Hsy _].
  assert (Hnd : (x ∉ a_dirty a) ∧ (x ∉ a_resets a)) by (rewrite (se_dirty _ Hse), (se_resets _ Hse); set_solver). destruct Hnd as [Hnd Hnr].
  pose proof (co_objs _ _ _ _ _ Hc x Hx) as HF. destruct (a_accounts a x) as [ao|] eqn:Ea; cbn in *; [|rewrite Hsy; constructor].
  unfold reopened. destruct (a_deleted ao) eqn:Hdel; [rewrite Hsy; constructor|]. destruct Hsy as (acc & -> & Hdata). constructor.
  inversion HF as [o ? Ho|]; subst. destruct (ao_quiet _ _ _ _ _ Hok x ao Hx Hnd Ea Hdel) as [_ Hq].
  pose proof (ok_hash _ _ _ _ _ _ Ho) as Hh. split; cbn; try done.
  - destruct (decide (a_codehash ao = emptyCodeHash)) as [E|E].
    + left. split; [done|]. apply fits_code_empty; [by eapply se_code|congruence].
    + right. split; [done|]. by destruct (ao_codes _ _ _ _ _ Hok x ao Hx ltac:(set_solver) Hnd Hnr Ea Hdel) as [[? _]|?].
  - pose proof Ho as [_ Hd _ _ _ Hdl _ _ _ (sm & Hs & Hv)]. rewrite Hdel in Hdl. exists sm. split; [apply Hs|]. split.
    + pose proof (sk_opens _ _ _ _ _ _ Hs ltac:(set_solver) Hdl) as Hop. by rewrite Hd in Hop.
    + intros k Hk. destruct (Hv k Hk) as [_ Hcv]. unfold committed_val in Hcv.
      rewrite (sk_flushed _ _ _ _ _ _ Hs ltac:(set_solver) Hdl), lookup_empty in Hcv. cbn in Hcv. by rewrite Hq.
Qed.

(** C7. A commit loses nothing: after any transactions it succeeds, the state goes on as it
    was, and a state opened at the root that it returns has the same accounts -- nonces,
    balances, code and every slot of storage -- without those that were deleted.  This holds
    when no account was overwritten without being changed, the numbers fit their encodings
    and hashing is free of collisions on what is written. *)
Theorem commit_reopens b s k : Rel s k → settled (a_finalise b (now k)) →
  ∃ s' root a' s2, Commit b s = (s', Ok root) ∧ rerooted (a_finalise b (now k)) a' ∧ Rel s' (mkMachine a' [] (next k)) ∧
    New root (st_db s') = Ok s2 ∧ Rel s2 (mkMachine (a_init (λ x, a_accounts a' x ≫= reopened)) [] 0).
Proof.
  intros (m & P & Q & hist & Hm & HI & Hs) Hse.
  destruct (IntermediateRoot_ok m P Q b s (now k) hist Hm HI Hse) as (s1 & r1 & m1 & a1 & E1 & Hr1 & HF1 & Htr & Hroot & Hj & Hv & Hn & HP1 & HQ1).
  pose proof (settled_rerooted _ _ Hr1 Hse) as Hse1.
  destruct (commit_objects_loop (range (Q ∪ a_dirty (now k))) m1 (Q ∪ a_dirty (now k)) s1 a1) as (s2 & E2 & HF2 & [Hf2 Hp2 Hq2]); try done.
  { rewrite range_perm. apply NoDup_elements. }
  { intros x. by rewrite range_perm, elem_of_elements. }
  pose proof (co_trie _ _ _ _ _ (fl_core _ _ _ _ _ HF2)) as Ht2. pose proof (co_sound _ _ _ _ _ (fl_core _ _ _ _ _ HF2)) as Hd2. cbn in Ht2, Hd2.
  destruct (Commit_holds (Some account_leaf) (st_db s2) (st_trie s2) m1 Hd2 Ht2) as (d3 & t3 & root & E3 & Hg3 & Ht3 & Hop3 & _).
  { by eapply account_trie_small. }
  { by apply (se_trie _ Hse m1 a1). }
  { intros f [= <-]. apply account_leaf_refs. }
  set (s3 := with_trie (with_db (with_sets s2 ∅ ∅) d3) t3).
  assert (Ec : Commit b s = (s3, Ok root)).
  { unfold Commit, mbind, M_bind. rewrite E1. cbv beta iota delta [gets modify]. rewrite HQ1, E2. unfold commitTrie. cbn [st_db st_trie with_sets].
    rewrite E3, Hp2, HP1. done. }
  assert (HF3 : flushing m1 ∅ ∅ s3 a1).
  { destruct HF2 as [Hm2 Hc2 Hok2]. split; [done| |by eapply a_ok_grows]. pose proof (core_db m1 ∅ ∅ (with_sets s2 ∅ ∅) a1 d3 Hc2 Hg3) as Hc3.
    destruct Hc3. by split. }
  destruct (OpenTrie_opens d3 root m1 Hop3) as (t4 & Et4 & _).
  exists s3, root, a1. assert (∃ s4, New root (st_db s3) = Ok s4) as [s4 Es4] by (unfold New; cbn; rewrite Et4; by eexists).
  exists s4. split_and!; try done.
  - exists m1, ∅, ∅, []. destruct HF3 as [Hm3 Hc3 Hok3]. split; [done|]. split; [split|].
    + destruct Hc3. by split.
    + cbn. rewrite (fr_journal _ _ Hf2), Hj. destruct Hr1 as [_ ->]. done.
    + by constructor.
    + cbn. by rewrite (fr_journal _ _ Hf2), Hj.
    + split; cbn; rewrite ?(fr_revisions _ _ Hf2), ?Hv; try done. by rewrite (fr_next _ _ Hf2), Hn, (sn_next _ _ _ Hs).
  - eapply init_Inv; [|exact Hop3| |exact Es4]; [by apply (gr_sound _ _ Hg3)|]. by apply (committed_world m1 s3 a1).
Qed.
End Commit.
