(* ===== verification/SecureTrie.v ===== *)
(** * Tries with hashed keys as the database of the state

    l2geth/trie/secure_trie.go over trie.go and database.go of l2geth/trie, and the
    [cachingDB] of l2geth/core/state/database.go: what the state database runs on.  The
    instances at the end discharge the interfaces of [StateDB], [StateRefines] and
    [StateCommit] with the trie, its hasher and its node database. *)

From S2P Require Import Prelude GoErrors LRU RLP TrieEncoding Trie TrieNode TrieHash TrieRoot TrieDB TrieStore.
From S2P Require Import EthTypes Extern StateDB StateSpec StateRefines StateCommit.

(** A [MissingNodeError] as an error value. *)
Definition failed {A B} (r : tres A) : result B :=
  match r with
  | TMissing _ _ => Err (ErrorNew "missing trie node")
  | TPanic p => Panic p
  | TOk _ => Panic "no failure"
  end.
Definition of_tres {A} (r : tres A) : result A := match r with TOk a => Ok a | r => failed r end.

(** ** Secure tries *)

(** [secKeyCache] is [None] while [secKeyCacheOwner] is not the trie itself: a new trie and
    a copy, which shares the map of the original without using it. *)
Record SecureTrie := mkSecure { sec_root : Trie.node; secKeyCache : option (gmap bytes bytes) }.

Section Secure.
Context `{!Keccak} {C : Type} `{!Fastcache C} `{!RangeOrder}.
Notation Database := (Database (C := C)).
Implicit Types (t : SecureTrie) (db : Database).

Definition hashKey (key : bytes) : bytes := Keccak256 key.
Definition getSecKeyCache t : gmap bytes bytes := default ∅ (secKeyCache t).

Definition NewSecure (root : Hash) (db : Database) : result SecureTrie :=
  match Trie.New (db_node db) root with
  | TOk n => Ok (mkSecure n None)
  | r => failed r
  end.

(** The value of an absent key is nil. *)
Definition sec_TryGet (db : Database) t (key : bytes) : SecureTrie * result bytes :=
  match TryGet (db_node db) (sec_root t) (hashKey key) with
  | TOk (v, n) => (mkSecure n (secKeyCache t), Ok (default [] v))
  | r => (t, failed r)
  end.

Definition sec_TryUpdate (db : Database) t (key value : bytes) : SecureTrie * result () :=
  let hk := hashKey key in
  match TryUpdate (db_node db) (sec_root t) hk value with
  | TOk n => (mkSecure n (Some (<[hk := key]> (getSecKeyCache t))), Ok ())
  | r => (t, failed r)
  end.

Definition sec_TryDelete (db : Database) t (key : bytes) : SecureTrie * result () :=
  let hk := hashKey key in
  let cache := Some (base.delete hk (getSecKeyCache t)) in
  match TryDelete (db_node db) (sec_root t) hk with
  | TOk n => (mkSecure n cache, Ok ())
  | r => (mkSecure (sec_root t) cache, failed r)
  end.

Definition sec_GetKey (db : Database) t (shaKey : bytes) : option bytes :=
  match getSecKeyCache t !! shaKey with
  | Some key => Some key
  | None => preimage db (BytesToHash shaKey)
  end.

Definition sec_Hash t : SecureTrie * result Hash :=
  match TrieHash.Hash (D := Database) (sec_root t) with
  | TOk (h, n) => (mkSecure n (secKeyCache t), Ok h)
  | r => (t, failed r)
  end.

(** The preimages of the keys go to the database, then the nodes. *)
Definition insertPreimages (cache : gmap bytes bytes) db : Database :=
  foldl (λ db hk, insertPreimage (BytesToHash hk) (default [] (cache !! hk)) db) db (range (dom cache)).

Definition sec_Commit (onleaf : option (bytes → bytes → Database → tres Database)) db t : Database * SecureTrie * result Hash :=
  let cache := getSecKeyCache t in
  let db := insertPreimages cache db in
  let t := mkSecure (sec_root t) (Some ∅) in
  match TrieHash.Commit onleaf db (sec_root t) with
  | TOk (h, n, db) => (db, mkSecure n (Some ∅), Ok h)
  | r => (db, t, failed r)
  end.

Definition sec_Copy t : SecureTrie := mkSecure (sec_root t) None.
End Secure.

(** ** The database of the state *)

Section Caching.
Context `{!Keccak} {C : Type} `{!Fastcache C} `{!RangeOrder} `{!LRU Hash Z}.
Notation Database := (Database (C := C)).

Record cachingDB := mkCaching { cdb : Database; codeSizeCache : lru Hash Z }.
Implicit Types (d : cachingDB).

Definition codeSizeCacheSize : Z := 100000.

Definition NewDatabaseWithCache (disk : KVStore) (cache : option C) : result cachingDB :=
  csc ← lru_New codeSizeCacheSize; Ok (mkCaching (NewDatabase disk cache) csc).

Definition cdb_ContractCode d (ah codeHash : Hash) : cachingDB * result bytes :=
  let '(db, r) := Node (cdb d) codeHash in
  match r with
  | Some code => (mkCaching db (lru_Add (codeSizeCache d) codeHash (len code)), Ok code)
  | None => (mkCaching db (codeSizeCache d), Err (ErrorNew "not found"))
  end.

Definition cdb_ContractCodeSize d (ah codeHash : Hash) : cachingDB * result Z :=
  let '(csc, cached) := lru_Get (codeSizeCache d) codeHash in
  let d := mkCaching (cdb d) csc in
  match cached with
  | Some n => (d, Ok n)
  | None => let '(d, r) := cdb_ContractCode d ah codeHash in (d, code ← r; Ok (len code))
  end.

(** The callback works on the node database; the hasher drops its error. *)
Definition leaf_callback (csc : lru Hash Z) (f : bytes → Hash → cachingDB → result cachingDB)
    (v h : bytes) (db : Database) : tres Database :=
  match f v h (mkCaching db csc) with
  | Ok d => TOk (cdb d)
  | Err _ => TOk db
  | Panic p => TPanic p
  end.

Definition on_cdb (d : cachingDB) (r : tres Database) : result cachingDB :=
  db ← of_tres r; Ok (mkCaching db (codeSizeCache d)).

#[export] Instance caching_StateDatabase : StateDatabase cachingDB SecureTrie := {
  OpenTrie d root := NewSecure root (cdb d);
  OpenStorageTrie d _ root := NewSecure root (cdb d);
  CopyTrie _ := sec_Copy;
  ContractCode := cdb_ContractCode;
  ContractCodeSize := cdb_ContractCodeSize;
  tr_TryGet d := sec_TryGet (cdb d);
  tr_TryUpdate d := sec_TryUpdate (cdb d);
  tr_TryDelete d := sec_TryDelete (cdb d);
  tr_Hash := sec_Hash (C := C);
  tr_Commit leaf d t :=
    let '(db, t, r) := sec_Commit (leaf_callback (codeSizeCache d) <$> leaf) (cdb d) t in
    (mkCaching db (codeSizeCache d), t, r);
  db_InsertBlob h blob d := on_cdb d (InsertBlob h blob (cdb d));
  db_Reference child parent d := on_cdb d (Reference child parent (cdb d)) }.
End Caching.

(** ** The node database under references and preimages *)

Section Store.
Context `{!Keccak} {C : Type} `{!Fastcache C}.
Notation Database := (Database (C := C)).
Implicit Types db : Database.

(** Changes to a node in memory that keep its blob and its links. *)
Lemma at_dirty_keeps h f db n l : db_ok db l [] → TrieDB.dirties db !! h = Some n →
  cn_node (f n) = cn_node n → links (f n) = links n →
  ∃ db', at_dirty h f db = TOk db' ∧ db_ok db' l [] ∧ blobs db' = blobs db ∧
    TrieDB.dirties db' = <[h := f n]> (TrieDB.dirties db).
Proof.
  intros Hok Hn En El. rewrite (at_dirty_ok h f db n Hn). eexists. split; [done|].
  assert (Enodes : nodes (with_dirties db (<[h := f n]> (TrieDB.dirties db))) = nodes db).
  { unfold nodes. cbn. rewrite fmap_insert, En, insert_id; [done|]. by rewrite lookup_fmap, Hn. }
  split; [|split; [by apply blobs_same|done]]. eapply ok_transfer; [exact Hok| |by rewrite Enodes|done..].
  destruct (ok_flush _ _ _ Hok) as [F1 F2 F3 F4 F5]. split; cbn; try done.
  - intros x. rewrite <- F2, lookup_insert_is_Some. destruct (decide (h = x)) as [<-|]; [rewrite Hn|]; naive_solver.
  - eapply chain_links; [|exact F5]. intros x _. rewrite lookup_insert. case_decide; [subst; by rewrite Hn; cbn; rewrite El|done].
Qed.

Lemma reference_keeps child parent db : store_wf db → is_Some (TrieDB.dirties db !! parent) →
  ∃ db', Reference child parent db = TOk db' ∧ store_wf db' ∧ blobs db' = blobs db ∧
    ∀ x, is_Some (TrieDB.dirties db !! x) → is_Some (TrieDB.dirties db' !! x).
Proof.
  intros [l Hok] [p Hp]. unfold Reference, reference. destruct (TrieDB.dirties db !! child) as [n|] eqn:Hn.
  2:{ exists db. split_and!; try done. by exists l. }
  rewrite Hp. destruct (match cn_children p with Some _ => _ | None => _ end) as [[ch extra] dup]. destruct dup.
  { exists db. split_and!; try done. by exists l. }
  destruct (at_dirty_keeps child (set_parents ((cn_parents n + 1) mod 2 ^ 32)) db n l Hok Hn) as (db1 & -> & Hok1 & Eb1 & Ed1); [done..|].
  cbn [mbind tres_bind]. assert (∃ p1, TrieDB.dirties db1 !! parent = Some p1) as [p1 Hp1].
  { rewrite Ed1, lookup_insert. case_decide; eauto. }
  destruct (at_dirty_keeps parent (set_children (Some (<[child := (default 0 (ch !! child) + 1) mod 2 ^ 16]> ch))) db1 p1 l Hok1 Hp1)
    as (db2 & -> & Hok2 & Eb2 & Ed2); [done..|]. cbn [mbind tres_bind]. eexists. split; [done|]. split_and!.
  - exists l. destruct Hok2 as [[] ? ? ? ? ?]. by split; [split|..].
  - by rewrite <- Eb1, <- Eb2.
  - intros x Hx. cbn. rewrite Ed2, Ed1. rewrite !lookup_insert_is_Some. destruct (decide (parent = x)), (decide (child = x)); naive_solver.
Qed.

Lemma insertPreimage_keeps h p db : store_wf db → length h = 32%nat →
  store_wf (insertPreimage h p db) ∧ blobs (insertPreimage h p db) = blobs db.
Proof.
  intros [l Hok] Hh. unfold insertPreimage. destruct (TrieDB.preimages db !! h); [split; [by exists l|done]|].
  split; [|done]. exists l. destruct Hok as [[] ? ? ? ? Hpre]. split; [by split|..]; try done.
  intros h' p'. cbn. rewrite lookup_insert. case_decide; [by subst|apply Hpre].
Qed.

Lemma insertPreimages_keeps `{!RangeOrder} cache db : store_wf db →
  store_wf (insertPreimages cache db) ∧ blobs (insertPreimages cache db) = blobs db.
Proof.
  unfold insertPreimages. generalize (range (dom cache)). intros l. revert db. induction l as [|hk l IH]; intros db Hw; [done|]. cbn [foldl].
  destruct (insertPreimage_keeps (BytesToHash hk) (default [] (cache !! hk)) db Hw) as [Hw1 Eb1].
  { unfold BytesToHash, zeros. rewrite length_app, length_replicate, length_drop. lia. }
  destruct (IH _ Hw1) as [Hw2 Eb2]. split; [done|congruence].
Qed.

Lemma Node_keeps db h : store_wf db → length h = 32%nat → store_wf (fst (Node db h)) ∧ blobs (fst (Node db h)) = blobs db.
Proof.
  intros [l Hok] Hh. assert (Hsame : store_wf db ∧ blobs db = blobs db) by (split; [by exists l|done]).
  unfold Node. case_bool_decide; [done|]. destruct (clean_Get db h); [done|]. destruct (TrieDB.dirties db !! h); [done|].
  destruct (kv_data (diskdb db) !! h) as [b|] eqn:E; [|done]. cbn. destruct (clean_Set_ok db l [] h b Hok E Hh) as [Hok' Eb'].
  split; [by exists l|done].
Qed.

Lemma InsertBlob_keeps U c db : coll_free U → store_wf db → blobs_in U db → U c →
  ∃ db', InsertBlob (Keccak256 c) c db = TOk db' ∧ store_wf db' ∧ blobs db' = <[Keccak256 c := c]> (blobs db).
Proof.
  intros HU [l Hok] HB Hc. assert (Hz : Keccak256 c ≠ zeroHash) by by apply (hash_nonzero _ HU).
  unfold InsertBlob. destruct (TrieDB.dirties db !! Keccak256 c) as [n|] eqn:Hn.
  - unfold insert_raw. rewrite Hn. exists db. split; [done|]. split; [by exists l|]. symmetry. apply insert_id.
    assert (Hb : blobs db !! Keccak256 c = Some (raw_blob (cn_node n))).
    { apply blobs_lookup. left. exists (cn_node n). split; [|done]. apply nodes_dirty. eauto. }
    rewrite Hb. f_equal. apply (hash_unique _ HU); [by eapply HB|done|]. by destruct (blobs_key _ _ _ _ _ Hok Hb) as [<- _].
  - destruct (insert_raw_store db l (Keccak256 c) c (rawNode c) Hok Hz Hn) as (db' & E & Hok' & _ & En & Ed).
    + by split.
    + intros b Hb. cbn. assert (Hin : blobs db !! Keccak256 c = Some b).
      { apply blobs_lookup. right. split; [|done]. unfold nodes. apply lookup_delete_None. right. by rewrite lookup_fmap, Hn. }
      apply (hash_unique _ HU); [by eapply HB|done|]. by destruct (blobs_key _ _ _ _ _ Hok Hin) as [<- _].
    + exists db'. split; [done|]. split; [by eexists|]. by apply (blobs_insert db db' _ (rawNode c)).
Qed.
End Store.

(** ** What the database holds *)

(** A set of blobs without collisions, the empty one among them: the nodes of tries and the
    code that the database may hold. *)
Class Blobs `{!Keccak} := {
  blob : bytes → Prop;
  blob_free : coll_free blob;
  blob_nil : blob [] }.

Section Contents.
Context `{!Keccak} {C : Type} `{!Fastcache C} `{!RangeOrder} `{!LRU Hash Z} `{!Blobs}.
Notation Database := (Database (C := C)).
Notation cachingDB := (cachingDB (C := C)).
Implicit Types (d : cachingDB) (db : Database) (t : SecureTrie) (m : gmap bytes bytes).

Definition hash_keys m : Prop := ∀ k v, m !! k = Some v → length k = HashLength.

(** Sizes in the cache are those of blobs. *)
Definition sizes_ok d : Prop := ∀ h n, lru_contents (codeSizeCache d) !! h = Some n → ∃ c, blobs (cdb d) !! h = Some c ∧ n = len c.

Record caching_sound d : Prop := {
  cs_wf : store_wf (cdb d);
  cs_in : blobs_in blob (cdb d);
  cs_sizes : sizes_ok d }.
Record caching_holds d t m : Prop := {
  ch_wf : store_wf (cdb d);
  ch_inv : inv (cdb d) (sec_root t) m;
  ch_keys : hash_keys m }.
Record caching_opens d (r : Hash) m : Prop := {
  cp_wf : store_wf (cdb d);
  cp_keys : hash_keys m;
  cp_map : map_ok m;
  cp_committed : committed (cdb d) m;
  cp_proper : proper m;
  cp_root : map_root m r ∨ (r = zero_hash ∧ m = ∅) }.

#[export] Instance caching_contents : StateContents cachingDB SecureTrie := {
  sound := caching_sound;
  holds := caching_holds;
  opens := caching_opens;
  has_code d h c := blobs (cdb d) !! h = Some c;
  root_of := map_root }.

(** More blobs are more contents. *)
Lemma grows_blobs d d' : store_wf (cdb d') → blobs (cdb d) ⊆ blobs (cdb d') → (caching_sound d → caching_sound d') →
  grows (T := SecureTrie) d d'.
Proof.
  intros Hw Hsub Hs. split; cbn; [done|..].
  - intros t m [Hw0 (pt & Hr & Hd) Hk]. split; [done| |done]. exists pt. split; [|done]. by eapply rep_mono; [..|exact Hr].
  - intros r m [Hw0 Hk Hm Hc Hp Hr]. split; try done. intros pt Hpt. destruct (Hc pt Hpt) as [|Hroot]; [by left|right]. by eapply rooted_mono.
  - intros h c Hc. by eapply lookup_weaken.
Qed.

Lemma sizes_same d db : blobs (cdb d) ⊆ blobs db → sizes_ok d → sizes_ok (mkCaching db (codeSizeCache d)).
Proof. intros Hsub Hs h n E. destruct (Hs h n E) as (c & Hc & ->). exists c. split; [by eapply lookup_weaken|done]. Qed.

Lemma denotes_PNil : denotes PNil ∅.
Proof. by destruct (trie_inv_empty (λ _, NotFound) (λ _ _ _, False) (λ _ _ _, False)) as (t & Hr & Hd); inversion Hr; subst. Qed.

Lemma opens_nil d : store_wf (cdb d) → caching_opens d emptyRoot ∅.
Proof.
  intros Hw. assert (Hnil : ∀ pt, denotes pt ∅ → pt = PNil) by (intros pt Ht; exact (denotes_unique _ _ _ Ht denotes_PNil)).
  split; [done|..|by left; exists PNil; split; [apply denotes_PNil|]].
  - intros k v. by rewrite lookup_empty.
  - split; intros *; by rewrite lookup_empty.
  - intros pt Ht. left. by apply Hnil.
  - intros pt Ht. left. by apply Hnil.
Qed.

Lemma NewSecure_opens d r m : caching_opens d r m → ∃ t, NewSecure r (cdb d) = Ok t ∧ caching_holds d t m.
Proof.
  intros [Hw Hk Hm Hc Hp [Hr|[-> ->]]].
  - destruct (New_spec (D := Database) (NodeDB0 := store_NodeDB) (cdb d) m r Hw Hm Hc Hp Hr) as (root & E & Hi). unfold NewSecure. rewrite E. by eexists.
  - exists (mkSecure nilNode None). split; [done|]. split; [done| |by intros]. exists PNil. split; [constructor|apply denotes_PNil].
Qed.

Lemma Node_Some db h c : store_wf db → length h = 32%nat → snd (Node db h) = Some c → blobs db !! h = Some c.
Proof.
  intros [l Hok] Hh. unfold Node. case_bool_decide as Hz; [done|]. rewrite blobs_lookup.
  assert (Hdisk : kv_data (diskdb db) !! h = Some c → (∃ r, nodes db !! h = Some r ∧ c = raw_blob r) ∨ (nodes db !! h = None ∧ disk_blobs db !! h = Some c)).
  { intros Hkv. assert (Hd : disk_blobs db !! h = Some c) by (by apply disk_lookup). destruct (nodes db !! h) as [r|] eqn:Er; [left|by right].
    exists r. split; [done|]. by eapply ok_agree. }
  destruct (clean_Get db h) as [enc|] eqn:Ec.
  - intros [= ->]. apply (ok_cleans _ _ _ Hok) in Ec as [Ec _]. by apply Hdisk.
  - destruct (TrieDB.dirties db !! h) as [n|] eqn:En.
    + intros [= <-]. left. exists (cn_node n). split; [|done]. apply nodes_dirty. eauto.
    + destruct (kv_data (diskdb db) !! h) as [b|] eqn:Eb; [|done]. intros [= ->]. by apply Hdisk.
Qed.

(** Reading code fills the cache of sizes. *)
Lemma ContractCode_ok d ah h : caching_sound d → length h = HashLength →
  ∃ d' r, cdb_ContractCode d ah h = (d', r) ∧ grows (T := SecureTrie) d d' ∧
    match r with Ok c => blobs (cdb d) !! h = Some c | Err _ => blobs (cdb d) !! h = None | Panic _ => False end.
Proof.
  intros [Hw Hin Hs] Hh. unfold cdb_ContractCode. destruct (Node_keeps (cdb d) h Hw Hh) as [Hw' Eb].
  pose proof (Node_Some (cdb d) h) as Hsome. destruct (Node (cdb d) h) as [db [c|]] eqn:E; cbn [fst snd] in *.
  - specialize (Hsome c Hw Hh eq_refl). eexists _, _. split; [done|]. split; [|done]. apply grows_blobs; cbn; [done|by rewrite Eb|].
    intros _. split; cbn; [done|intros x y; cbn; rewrite Eb; apply Hin|]. intros x n Ex. cbn in Ex |- *. rewrite Eb.
    eapply lookup_weaken in Ex; [|apply lru_Add_evicts]. rewrite lookup_insert in Ex. case_decide; [|by apply Hs]. simplify_eq. eauto.
  - eexists _, _. split; [done|]. split.
    + apply grows_blobs; cbn; [done|by rewrite Eb|]. intros _. split; cbn; [done|intros x y; cbn; rewrite Eb; apply Hin|].
      apply sizes_same; [by rewrite Eb|done].
    + destruct (blobs (cdb d) !! h) as [c|] eqn:Ec; [|done]. destruct Hw as [l Hok]. pose proof (Node_blob _ _ _ _ _ Hok Ec) as En.
      by rewrite E in En.
Qed.

Lemma ContractCodeSize_ok d ah h : caching_sound d → length h = HashLength →
  ∃ d' r, cdb_ContractCodeSize d ah h = (d', r) ∧ grows (T := SecureTrie) d d' ∧
    match r with Ok n => ∃ c, blobs (cdb d) !! h = Some c ∧ n = len c | Err _ => blobs (cdb d) !! h = None | Panic _ => False end.
Proof.
  intros [Hw Hin Hs] Hh. unfold cdb_ContractCodeSize.
  pose proof (lru_Get_value (codeSizeCache d) h) as Hv. pose proof (lru_Get_contents (codeSizeCache d) h) as Hc.
  destruct (lru_Get (codeSizeCache d) h) as [csc [n|]] eqn:E; cbn [fst snd] in *;
    assert (Hd1 : caching_sound (mkCaching (cdb d) csc)) by (split; try done; intros x y; cbn; rewrite Hc; apply Hs);
    assert (Hg1 : grows (T := SecureTrie) d (mkCaching (cdb d) csc)) by (by apply grows_blobs).
  - eexists _, _. split; [done|]. split; [done|]. by apply Hs.
  - destruct (ContractCode_ok _ ah h Hd1 Hh) as (d2 & r & -> & Hg2 & Hr). eexists _, _. split; [done|]. split.
    + destruct Hg1, Hg2. split; eauto.
    + destruct r as [c|e|p]; cbn in *; eauto.
Qed.

#[export] Instance caching_reads : StateReads cachingDB SecureTrie.
Proof.
  split.
  - intros d t m k [Hw Hi Hk]. cbn. unfold sec_TryGet, hashKey.
    destruct (TryGet_spec _ _ _ (sec_root t) m (Keccak256 k) Hi) as (n & -> & Hi'). eexists. by split.
  - intros d r m Ho. by apply NewSecure_opens.
  - intros d a r m Ho. by apply NewSecure_opens.
  - intros d [Hw _ _]. by apply opens_nil.
  - intros d r m [Hw Hk Hm Hc Hp [Hr|[-> ->]]] Hz; done.
  - intros d a h c Hd Hc. assert (Hh : length h = HashLength).
    { destruct Hd as [[l Hok] _ _]. destruct (blobs_key _ _ _ _ _ Hok Hc) as [-> _]. apply Keccak256_length. }
    cbn in *. destruct (ContractCode_ok d a h Hd Hh) as (d' & r & -> & Hg & Hr). exists d'. split; [|done].
    destruct r; simplify_eq; try done; congruence.
  - intros d a h c Hd Hc. assert (Hh : length h = HashLength).
    { destruct Hd as [[l Hok] _ _]. destruct (blobs_key _ _ _ _ _ Hok Hc) as [-> _]. apply Keccak256_length. }
    cbn in *. destruct (ContractCodeSize_ok d a h Hd Hh) as (d' & r & -> & Hg & Hr). exists d'. split; [|done].
    destruct r as [n|e|p]; [|congruence|done]. destruct Hr as (c' & Hc' & ->). by simplify_eq.
  - intros d a Hd. cbn in *. destruct (ContractCodeSize_ok d a (Keccak256 []) Hd (Keccak256_length _)) as (d' & r & -> & Hg & Hr).
    exists d', r. split_and!; try done. destruct r as [n|e|p]; [left|right; eauto|done]. destruct Hr as (c & Hc & ->).
    assert (c = []) as ->; [|done]. destruct Hd as [[l Hok] Hin _]. apply (hash_unique _ blob_free); [by eapply Hin|apply blob_nil|].
    by destruct (blobs_key _ _ _ _ _ Hok Hc) as [<- _].
Qed.

Lemma small_map_ok m : small m → map_ok m.
Proof.
  intros Hs. split.
  - intros k v E. destruct (Hs k v E) as [Hk Hv]. split; [|lia]. unfold len. rewrite Hk. done.
  - intros k k' v E. destruct (Hs k [] E) as [_ Hv]. unfold len in Hv. cbn in Hv. lia.
Qed.

(** A callback that only adds references works for the hasher. *)
Lemma leaf_callback_ok csc f : refs_only (T := SecureTrie) f → onleaf_ok (D := Database) (Some (leaf_callback csc f)).
Proof.
  intros Hf g [= <-] v h db Hw [Hl Hz]. unfold leaf_callback. destruct (Hf v) as [l Hfl]. rewrite Hfl.
  assert (∃ db', foldl (λ r c, d ← r; db_Reference (T := SecureTrie) c h d) (Ok (mkCaching db csc)) l = Ok (mkCaching db' csc) ∧
    store_wf db' ∧ blobs db' = blobs db ∧ is_Some (TrieDB.dirties db' !! h)) as (db' & -> & Hw' & Eb & Hl').
  { clear Hfl. revert db Hw Hl. induction l as [|c l IH]; intros db Hw Hl; cbn [foldl]; [by exists db|]. cbn [mbind result_bind].
    destruct (reference_keeps c h db Hw Hl) as (db1 & E1 & Hw1 & Eb1 & Hl1). cbn. unfold on_cdb. cbn. rewrite E1. cbn.
    destruct (IH db1 Hw1 (Hl1 h Hl)) as (db2 & E2 & Hw2 & Eb2 & Hl2). exists db2. rewrite <- Eb1. by split_and!. }
  exists db'. by split_and!.
Qed.

Lemma caching_Commit leaf d t m : caching_sound d → caching_holds d t m → small m → map_covers blob m → proper m →
  (∀ f, leaf = Some f → refs_only (T := SecureTrie) f) →
  ∃ d' t' h, tr_Commit leaf d t = (d', t', Ok h) ∧ grows (T := SecureTrie) d d' ∧ caching_holds d' t' m ∧ caching_opens d' h m ∧ map_root m h.
Proof.
  intros [Hw Hin Hs] [_ Hi Hk] Hsm Hcov Hp Hleaf. cbn. unfold sec_Commit. cbn.
  destruct (insertPreimages_keeps (getSecKeyCache t) (cdb d) Hw) as [Hw1 Eb1]. set (db1 := insertPreimages (getSecKeyCache t) (cdb d)) in *.
  assert (Hi1 : inv db1 (sec_root t) m).
  { destruct Hi as (pt & Hr & Hd). exists pt. split; [|done]. eapply rep_mono; [exact Hw|done| |done]. cbn. by rewrite Eb1. }
  assert (Hok : onleaf_ok (D := Database) (leaf_callback (codeSizeCache d) <$> leaf)).
  { destruct leaf as [f|]; [|by intros g]. by apply leaf_callback_ok, Hleaf. }
  destruct (Commit_spec (D := Database) (leaf_callback (codeSizeCache d) <$> leaf) Hok blob db1 (sec_root t) m Hw1 Hi1)
    as (h & n & db2 & E & Hr & Hi2 & Hw2 & Hsub & Hin2 & Hc); [by apply small_map_ok|apply blob_free|intros x y; cbn; rewrite Eb1; apply Hin|done|].
  rewrite E. eexists _, _, h. split; [done|]. cbn in Hsub. rewrite Eb1 in Hsub. split_and!; try done.
  - apply grows_blobs; cbn; [done..|]. intros _. split; cbn; [done..|by apply sizes_same].
  - split; try done. by apply small_map_ok. by left.
Qed.

(** What is hashed is in the set, and no hash is one of the two of the empty trie. *)
#[export] Program Instance caching_writes : StateWrites cachingDB SecureTrie := {
  fits m := map_covers blob m ∧ proper m;
  fits_code := blob }.
Next Obligation. intros d t m k v [_ _ Hk]. apply Hk. Qed.
Next Obligation.
  intros d t m k v [Hw Hi Hk] _. cbn. unfold sec_TryUpdate, hashKey.
  destruct (TryUpdate_spec _ _ _ (newFlag_ok (cdb d)) (sec_root t) m (Keccak256 k) v Hi) as (n & -> & Hi'). eexists. split; [done|].
  split; [done|done|]. intros x y. rewrite lookup_insert. case_decide; [intros _; subst; apply Keccak256_length|apply Hk].
Qed.
Next Obligation.
  intros d t m k [Hw Hi Hk]. cbn. unfold sec_TryDelete, hashKey.
  destruct (TryDelete_spec _ _ _ (newFlag_ok (cdb d)) (sec_root t) m (Keccak256 k) Hi) as (n & -> & Hi'). eexists. split; [done|].
  split; [done|done|]. intros x y. rewrite lookup_delete_Some. intros [_ ?]. by eapply Hk.
Qed.
Next Obligation.
  intros d t m [Hw Hi Hk] Hs _. cbn. unfold sec_Hash.
  destruct (Hash_spec (D := Database) (NodeDB0 := store_NodeDB) (cdb d) (sec_root t) m Hw Hi (small_map_ok m Hs)) as (h & n & -> & Hr & Hi'). eexists _, h. by split_and!.
Qed.
Next Obligation. intros leaf d t m Hd Hh Hs [Hc Hp] Hl. by apply caching_Commit. Qed.
Next Obligation. intros m h h'. apply map_root_unique. Qed.
Next Obligation.
  intros m h (pt & Hd & ->) [_ Hp]. destruct (Hp pt Hd) as [->|[Hz He]]; [split; [done|apply emptyRoot_ne]|].
  unfold root_hash. destruct pt; [split; [done|apply emptyRoot_ne]|..]; (split; [apply Keccak256_length|done]).
Qed.
Next Obligation. intros c Hc. apply (hash_unique _ blob_free); [done|apply blob_nil]. Qed.
Next Obligation.
  intros d c [Hw Hin Hs] Hc. destruct (InsertBlob_keeps blob c (cdb d) blob_free Hw Hin Hc) as (db & E & Hw' & Eb). cbn. unfold on_cdb.
  rewrite E. cbn. eexists. split; [done|]. cbn. rewrite Eb. split; [|by rewrite lookup_insert_eq].
  assert (Hsub : blobs (cdb d) ⊆ <[Keccak256 c := c]> (blobs (cdb d))).
  { apply map_subseteq_spec. intros x y Hx. rewrite lookup_insert. case_decide; [subst|done]. f_equal. apply (hash_unique _ blob_free); [done|by eapply Hin|].
    destruct Hw as [l Hok]. by destruct (blobs_key _ _ _ _ _ Hok Hx) as [-> _]. }
  apply grows_blobs; cbn; [done|by rewrite Eb|]. intros _. split; cbn; [done| |apply sizes_same; [by rewrite Eb|done]].
  intros x y. cbn. rewrite Eb, lookup_insert. case_decide; [by intros [= <-]|apply Hin].
Qed.
End Contents.
