(* ===== verification/StateExamples.v ===== *)
(** * The state database on concrete inputs

    The state over secure tries and an empty node database, with a digest that can be
    computed: the theorems of [StateRefines] and [StateCommit] applied to calls, and what
    the code does where its comments promise something else. *)

From S2P Require Import Prelude GoErrors LRU RLP TrieEncoding Trie TrieNode TrieHash TrieRoot TrieDB TrieStore.
From S2P Require Import EthTypes Extern AccessList StateDB StateSpec StateRefines StateCommit SecureTrie.

(** ** Instances *)

(** The last 32 bytes as a number, plus one: different for the words and addresses used. *)
#[local] Instance state_keccak : Keccak := {
  Keccak256 b := be_encode 32 ((be_decode b + 1) mod 2 ^ 256);
  Keccak256_length b := length_be_encode 32 _ }.

#[local] Program Instance map_cache : Fastcache (gmap bytes bytes) := { fc_Get c k := c !! k; fc_Set c k v := <[k := v]> c }.
Next Obligation. intros c k v k' v' E. cbn in E. apply lookup_insert_Some in E. naive_solver. Qed.

#[local] Program Instance in_order : RangeOrder := { range := elements }.
Next Obligation. done. Qed.

#[local] Instance with_ovm : Rcfg := { UsingOVM := true }.

Definition ex_db : cachingDB (C := gmap bytes bytes) := mkCaching (NewDatabase (mkKV ∅ []) None) (mkRecent 8 []).
Definition alice : Address := be_encode 20 0xA11CE.
Definition bob : Address := be_encode 20 0xB0B.
Definition word (n : Z) : Hash := be_encode 32 n.

(** The empty database. *)
Section Empty.
Context `{!Blobs} `{!Keyspace}.

Lemma ex_db_sound : sound (T := SecureTrie) ex_db.
Proof.
  assert (En : nodes (cdb ex_db) = ∅) by (unfold nodes, ex_db; cbn [cdb TrieDB.dirties NewDatabase]; rewrite map_fmap_singleton; apply delete_singleton_eq).
  assert (Eb : blobs (cdb ex_db) = ∅) by (unfold blobs; by rewrite En).
  split.
  - exists []. split; try done.
    + split; try done; [by apply NoDup_singleton|]. intros h. unfold ex_db. cbn [cdb TrieDB.dirties NewDatabase app]. rewrite lookup_singleton_is_Some, list_elem_of_singleton. naive_solver.
  - intros h b E. change (blobs (cdb ex_db) !! h = Some b) in E. by rewrite Eb in E.
  - by intros h n E.
Qed.

Lemma ex_opens : opens (T := SecureTrie) ex_db emptyRoot ∅.
Proof. apply opens_nil, ex_db_sound. Qed.

Lemma ex_world : world (T := SecureTrie) ex_db ∅ (λ _, None).
Proof.
  split; [intros h e; by rewrite lookup_empty|]. intros x _. unfold load. rewrite lookup_empty. constructor.
Qed.
End Empty.

(** All addresses and all slots. *)
#[local] Program Instance all_keys : Keyspace := { is_addr x := length x = AddressLength; is_slot k := length k = HashLength }.
Solve Obligations with done.

#[local] Program Instance no_code : Blobs := { blob b := b = [] }.
Next Obligation. split; [congruence|]. intros b -> E. by vm_compute in E. Qed.
Next Obligation. done. Qed.

(** A transfer and a write to storage are undone, what was done before stays. *)
Definition ex_calls : list call :=
  [CSetNonce alice 1; CSetState alice (word 7) (word 3); CAddBalance alice 5;
   CSnapshot; CSetState alice (word 7) (word 4); CSubBalance alice 5; CAddBalance bob 5; CSuicide alice;
   CRevertToSnapshot 0; CGetState alice (word 7); CGetBalance alice; CExist bob; CHasSuicided alice;
   CFinalise true; CGetCommittedState alice (word 7); CGetNonce alice].

Lemma statedb_refines_witness :
  ∃ s : StateDB (cachingDB (C := gmap bytes bytes)) SecureTrie, StateDB.New emptyRoot ex_db = Ok s ∧
    snd (runs exec ex_calls s) =
      Ok [ANone; ANone; ANone; AId 0; ANone; ANone; ANone; ABool true; ANone; ABytes (word 3); AZ 5; ABool false; ABool false; ANone;
          ABytes (word 3); AZ 1].
Proof.
  destruct (statedb_refines emptyRoot ex_db ∅ (λ _, None) ex_calls ex_db_sound ex_opens ex_world) as (s & Es & Er).
  { vm_compute. repeat split; intros; discriminate. }
  exists s. split; [exact Es|]. etransitivity; [exact Er|]. vm_compute. reflexivity.
Defined.

Definition ex_state : StateDB (cachingDB (C := gmap bytes bytes)) SecureTrie :=
  mkStateDB _ _ ex_db (mkSecure nilNode None) ∅ ∅ ∅ None 0 zero_hash zero_hash 0 ∅ 0 ∅ newAccessList newJournal [] 0.

Lemma ex_New : StateDB.New emptyRoot ex_db = Ok ex_state.
Proof. reflexivity. Qed.

Definition ex_machine : machine := mkMachine (a_init (λ _, None)) [] 0.

Lemma ex_Rel : Rel ex_state ex_machine.
Proof. exact (init_Inv emptyRoot ∅ _ ex_db _ ex_db_sound ex_opens ex_world ex_New). Qed.

(** Everything after the snapshot is undone, an inner snapshot and its revert included. *)
Definition ex_inner : list call :=
  [CCreateAccount alice; CSetNonce alice 1; CSetCode alice (Some [x60; x00]); CSetState alice (word 7) (word 3); CAddBalance alice 5;
   CSnapshot; CSuicide alice; CRevertToSnapshot 1; CAddAddress alice; CAddRefund 4800].

Lemma revert_restores_witness : ∃ s1 l s2,
  runs exec (CSnapshot :: ex_inner) ex_state = (s1, Ok l) ∧ RevertToSnapshot 0 s1 = (s2, Ok ()) ∧
  snd (exec (CGetState alice (word 7)) s1) = Ok (ABytes (word 3)) ∧
  snd (exec (CGetState alice (word 7)) s2) = Ok (ABytes zero_hash).
Proof.
  destruct (runs exec (CSnapshot :: ex_inner) ex_state) as [s1 r] eqn:E.
  assert (Hr : snd (runs exec (CSnapshot :: ex_inner) ex_state) =
    Ok [AId 0; ANone; ANone; ANone; ANone; ANone; AId 1; ABool true; ANone; ANone; ANone]) by (vm_compute; reflexivity).
  assert (H1 : snd (exec (CGetState alice (word 7)) (fst (runs exec (CSnapshot :: ex_inner) ex_state))) = Ok (ABytes (word 3)))
    by (vm_compute; reflexivity).
  rewrite E in Hr, H1. cbn [fst snd] in Hr, H1. rewrite Hr in E.
  assert (Hi : Forall (inner (nextRevisionId ex_state)) ex_inner) by (repeat constructor).
  assert (Hc : calls_ok ex_machine (CSnapshot :: ex_inner)) by (vm_compute; repeat split; intros; discriminate).
  destruct (revert_restores ex_state ex_machine ex_inner s1 _ ex_Rel Hc Hi E) as (s2 & E2 & Hq).
  eexists s1, _, s2. split; [rewrite Hr; reflexivity|]. split; [exact E2|]. split; [exact H1|].
  rewrite Hq; [vm_compute; reflexivity|exact I|vm_compute; split; reflexivity].
Defined.

(** ** A commit *)

Module Commit_example.
(** One account with a nonce and a slot of storage. *)
Definition slots : list Hash := [word 7; GetOVMBalanceKey alice; GetOVMBalanceKey OvmEthAddress].

#[local] Program Instance used_keys : Keyspace := { is_addr x := x ∈ [alice; OvmEthAddress]; is_slot k := k ∈ slots }.
Next Obligation. intros x Hx. repeat (apply elem_of_cons in Hx as [->|Hx]; [reflexivity|]). by apply elem_of_nil in Hx. Qed.
Next Obligation. intros x Hx. repeat (apply elem_of_cons in Hx as [->|Hx]; [vm_compute; reflexivity|]). by apply elem_of_nil in Hx. Qed.
Next Obligation. repeat constructor. Qed.
Next Obligation. intros x Hx. unfold slots. repeat (apply elem_of_cons in Hx as [->|Hx]; [repeat constructor|]). by apply elem_of_nil in Hx. Qed.

Definition slot_trie : ptrie := PShort (keybytesToHex (Keccak256 (word 7))) (PValue (slot_enc (word 3))).
Definition storage_root : Hash := Eval vm_compute in ref_hash slot_trie.
Definition account : Account := mkAccount 1 0 storage_root emptyCodeHash.
Definition account_enc : bytes := Eval vm_compute in match encodeAccount account with Ok e => e | _ => [] end.
Definition account_ptrie : ptrie := PShort (keybytesToHex (Keccak256 alice)) (PValue account_enc).
Definition all_blobs : list bytes := Eval vm_compute in [[]; ref_enc slot_trie; ref_enc account_ptrie].

Lemma coll_free_check l :
  bool_decide (Forall (λ a, Forall (λ b, Keccak256 a = Keccak256 b → a = b) l ∧ Keccak256 a ≠ zeros 32) l) = true → coll_free (λ b, b ∈ l).
Proof.
  intros Hl%bool_decide_eq_true. rewrite Forall_forall in Hl. split; intros a; [intros b Ha Hb|intros Ha].
  - destruct (Hl a Ha) as [Hu _]. rewrite Forall_forall in Hu. by apply Hu.
  - by destruct (Hl a Ha).
Qed.

Lemma all_blobs_free : coll_free (λ b, b ∈ all_blobs).
Proof. apply coll_free_check. vm_compute. reflexivity. Qed.

#[local] Program Instance two_blobs : Blobs := { blob b := b ∈ all_blobs; blob_free := all_blobs_free }.
Next Obligation. constructor. Qed.

(** A trie with one value. *)
Lemma single_fits key v : let t := PShort (keybytesToHex key) (PValue v) in
  ref_enc t ∈ all_blobs → ref_hash t ≠ zero_hash → ref_hash t ≠ emptyRoot → fits (D := cachingDB (C := gmap bytes bytes)) (T := SecureTrie) {[key := v]}.
Proof.
  intros t Hin Hz He. assert (Ht : ∀ t', denotes t' {[key := v]} → t' = t) by (intros t' Hd; exact (denotes_unique _ _ _ Hd (denotes_single key v))).
  split.
  - intros t' ->%Ht s Hs. inversion Hs as [|? ? ? Hs1|]; subst; [done|]. by inversion Hs1; subst.
  - intros t' ->%Ht. by right.
Qed.

(** *** The state before the commit *)

Definition calls : list call := [CSetNonce alice 1; CSetState alice (word 7) (word 3)].
Definition before : machine := fst (runs spec calls ex_machine).
Definition entry : aobj :=
  mkA 1 0 emptyCodeHash [] emptyRoot (upd (word 7) (word 3) (λ _, zero_hash)) (upd (word 7) (word 3) (λ _, zero_hash)) {[word 7]} false false.

Lemma before_accounts x : is_addr x → a_accounts (a_finalise true (now before)) x = if decide (x = alice) then Some entry else None.
Proof.
  intros Hx. cbn in Hx. apply elem_of_cons in Hx as [->|Hx]; [|apply elem_of_cons in Hx as [->|Hx]; [|by apply elem_of_nil in Hx]].
  - rewrite decide_True by done. vm_compute. reflexivity.
  - vm_compute. reflexivity.
Qed.


Lemma is_alice : is_addr alice.
Proof. constructor. Qed.
Lemma elem_slots (P : Hash → Prop) : P (word 7) → P (GetOVMBalanceKey alice) → P (GetOVMBalanceKey OvmEthAddress) → ∀ k, is_slot k → P k.
Proof. intros P1 P2 P3 k Hk. cbn in Hk. unfold slots in Hk. rewrite !elem_of_cons, elem_of_nil in Hk. naive_solver. Qed.
Lemma elem_addrs (P : Address → Prop) : P alice → P OvmEthAddress → ∀ x, is_addr x → P x.
Proof. intros P1 P2 x Hx. cbn in Hx. rewrite !elem_of_cons, elem_of_nil in Hx. naive_solver. Qed.

Lemma entry_storage : represents {[Keccak256 (word 7) := slot_enc (word 3)]} (a_storage entry).
Proof.
  split.
  - intros h e [<- <-]%lookup_singleton_Some. exists (word 7), (word 3). split; [constructor|]. split_and!; [done..| |done].
    vm_compute. discriminate.
  - apply elem_slots; vm_compute; reflexivity.
Qed.

Lemma storage_fits sm : represents sm (a_storage entry) → fits (D := cachingDB (C := gmap bytes bytes)) (T := SecureTrie) sm.
Proof.
  intros Hr. rewrite (represents_unique _ _ _ Hr entry_storage). apply single_fits.
  - change (ref_enc slot_trie ∈ all_blobs). apply (bool_decide_eq_true_1 _); vm_compute; reflexivity.
  - vm_compute. discriminate.
  - vm_compute. discriminate.
Qed.

Lemma storage_rooted r sm : represents sm (a_storage entry) →
  root_of (D := cachingDB (C := gmap bytes bytes)) (T := SecureTrie) sm r → r = storage_root.
Proof.
  intros Hr Hroot. rewrite (represents_unique _ _ _ Hr entry_storage) in Hroot. eapply map_root_unique; [exact Hroot|].
  exists slot_trie. split; [apply denotes_single|vm_compute; reflexivity].
Qed.

Lemma account_valid : valid_account account ∧ encodeAccount account = Ok account_enc.
Proof. split; [|vm_compute; reflexivity]. unfold valid_account. cbn. split_and!; try done. Qed.

Lemma newObject_data acc n b r c :
  data (T := SecureTrie) (newObject [] (Some acc)) = mkAccount n b r c → r ≠ emptyRoot → acc = mkAccount n b r c.
Proof. destruct acc as [n0 b0 r0 c0]. cbn [newObject data acc_Nonce acc_Balance acc_Root acc_CodeHash]. case_bool_decide; congruence. Qed.

Lemma trie_unique m a' : rerooted (a_finalise true (now before)) a' →
  account_trie (D := cachingDB (C := gmap bytes bytes)) (T := SecureTrie) m a' → m = {[Keccak256 alice := account_enc]}.
Proof.
  intros [Hre _] [Hm Htr]. pose proof (Hre alice) as Ha. rewrite before_accounts in Ha by apply is_alice.
  rewrite decide_True in Ha by done. inversion Ha as [? ao' Eo Ex Ey|]; subst. symmetry in Ey.
  pose proof (Hre OvmEthAddress) as Hv. rewrite before_accounts in Hv by apply ovm_is_addr.
  rewrite decide_False in Hv by (vm_compute; discriminate). assert (Ev : a_accounts a' OvmEthAddress = None) by (by inversion Hv).
  destruct (Htr alice) as [Hs Hroot]; [apply is_alice|]. rewrite Ey in Hs. unfold synced in Hs.
  destruct (Hroot ao' Ey) as (sm & Hrep & Hr); [by rewrite Eo|]. 
  assert (a_root ao' = storage_root) as Er by (eapply storage_rooted; [|exact Hr]; by rewrite Eo in Hrep).
  destruct (Htr OvmEthAddress) as [Hs' _]; [apply ovm_is_addr|]. rewrite Ev in Hs'. cbn in Hs'. apply load_None in Hs'; [|done].
  assert (Edel : a_deleted ao' = false) by (by rewrite Eo). rewrite Edel in Hs. destruct Hs as (acc & Hl & Hd).
  apply newObject_data in Hd; [|rewrite Er; vm_compute; discriminate].
  assert (acc = account) as -> by (rewrite Hd, Er, Eo; reflexivity).
  apply map_eq. intros h. destruct (decide (h = Keccak256 alice)) as [->|Hne].
  - rewrite lookup_singleton_eq. destruct (m !! Keccak256 alice) as [e|] eqn:E; [|unfold load in Hl; by rewrite E in Hl].
    destruct (Hm _ _ E) as (x & acc' & _ & _ & Hv' & He). destruct (decode_encodeAccount acc' Hv') as (e' & He' & Hdec & _).
    rewrite He in He'. injection He' as <-. unfold load in Hl. rewrite E in Hl. cbn in Hl. rewrite Hdec in Hl. injection Hl as ->.
    destruct account_valid as [_ Ea]. congruence.
  - rewrite lookup_singleton_ne by done. destruct (m !! h) as [e|] eqn:E; [|done]. destruct (Hm _ _ E) as (x & acc' & Hx & -> & _).
    revert x Hx Hne E. apply (elem_addrs (λ x, Keccak256 x ≠ Keccak256 alice → m !! Keccak256 x = Some e → Some e = None)); [done|].
    intros _ E. congruence.
Qed.

Lemma trie_fits m a' : rerooted (a_finalise true (now before)) a' →
  account_trie (D := cachingDB (C := gmap bytes bytes)) (T := SecureTrie) m a' → fits (D := cachingDB (C := gmap bytes bytes)) (T := SecureTrie) m.
Proof.
  intros Hr Ht. rewrite (trie_unique m a' Hr Ht). apply single_fits.
  - change (ref_enc account_ptrie ∈ all_blobs). apply (bool_decide_eq_true_1 _); vm_compute; reflexivity.
  - vm_compute. discriminate.
  - vm_compute. discriminate.
Qed.

Lemma before_settled : settled (D := cachingDB (C := gmap bytes bytes)) (T := SecureTrie) (a_finalise true (now before)).
Proof.
  assert (He : ∀ x ao, is_addr x → a_accounts (a_finalise true (now before)) x = Some ao → ao = entry).
  { intros x ao Hx. rewrite before_accounts by done. case_decide; [by intros [= <-]|done]. }
  split; [vm_compute; reflexivity|vm_compute; reflexivity|..|apply trie_fits].
  - intros x ao Hx Ha _. by rewrite (He x ao Hx Ha).
  - intros x ao Hx Ha _. by rewrite (He x ao Hx Ha).
  - intros x ao sm Hx Ha _. rewrite (He x ao Hx Ha). apply storage_fits.
  - intros x ao Hx Ha _. rewrite (He x ao Hx Ha). apply blob_nil.
Qed.

Lemma reads_back a' : rerooted (a_finalise true (now before)) a' →
  (a_accounts a' alice ≫= reopened) = Some (mkA 1 0 emptyCodeHash [] (default zero_hash (a_root <$> a_accounts a' alice)) (a_storage entry) (a_storage entry) ∅ false false).
Proof.
  intros [Hre _]. pose proof (Hre alice) as Ha. rewrite before_accounts in Ha by apply is_alice. rewrite decide_True in Ha by done.
  inversion Ha as [? ao' Eo Ex Ey|]; subst. rewrite Eo. reflexivity.
Qed.

(** The account is written, and a state opened at the new root has the slot. *)
Lemma commit_reopens_witness : ∃ (s s' s2 : StateDB (cachingDB (C := gmap bytes bytes)) SecureTrie) root,
  runs exec calls ex_state = (s, Ok [ANone; ANone]) ∧ StateDB.Commit true s = (s', Ok root) ∧ StateDB.New root (st_db s') = Ok s2 ∧
  snd (exec (CGetState alice (word 7)) s2) = Ok (ABytes (word 3)).
Proof.
  assert (Hrel : Rel ex_state ex_machine) by (exact (init_Inv emptyRoot ∅ _ ex_db _ ex_db_sound ex_opens ex_world ex_New)).
  assert (Hok : calls_ok ex_machine calls) by (vm_compute; repeat split; repeat constructor).
  pose proof (runs_agree ex_state ex_machine calls Hrel Hok) as Hrun.
  assert (Es : runs spec calls ex_machine = (before, Ok [ANone; ANone])) by (unfold before; vm_compute; reflexivity).
  rewrite Es in Hrun. destruct Hrun as (s & Er & Hrel1).
  assert (Ha : ∀ x y, is_addr x → is_addr y → Keccak256 x = Keccak256 y → x = y).
  { intros x y Hx. revert x Hx y. apply (elem_addrs (λ x, ∀ y, is_addr y → Keccak256 x = Keccak256 y → x = y)); (refine (elem_addrs (λ y, Keccak256 _ = Keccak256 y → _ = y) _ _)); try reflexivity;
      intros E; vm_compute in E; discriminate. }
  assert (Hs : ∀ x y, is_slot x → is_slot y → Keccak256 x = Keccak256 y → x = y).
  { intros x y Hx. revert x Hx y. apply (elem_slots (λ x, ∀ y, is_slot y → Keccak256 x = Keccak256 y → x = y)); (refine (elem_slots (λ y, Keccak256 _ = Keccak256 y → _ = y) _ _ _)); try reflexivity;
      intros E; vm_compute in E; discriminate. }
  destruct (commit_reopens Ha Hs true s before Hrel1 before_settled) as (s' & root & a' & s2 & Ec & Hre & _ & En & Hrel2).
  exists s, s', s2, root. split; [exact Er|]. split; [exact Ec|]. split; [exact En|].
  rewrite (snd_agrees _ _ _ Hrel2) by (vm_compute; repeat split; repeat constructor).
  change (Ok (ABytes (match match a_accounts a' alice ≫= reopened with Some ao => if a_deleted ao then None else Some ao | None => None end with
    Some ao => a_storage ao (word 7) | None => zero_hash end)) = Ok (ABytes (word 3))). rewrite (reads_back a' Hre). vm_compute. reflexivity.
Defined.
End Commit_example.

(** ** What the comments say *)

Section Divergences.
Context `{!Keccak} `{!Rcfg} {D T : Type} `{!StateDatabase D T}.
Implicit Types (s : StateDB D T) (o : stateObject T).

(** [CreateAccount] over a loaded account: the new one takes its balance, also when it was
    deleted, and the journal marks nothing as changed. *)
Lemma CreateAccount_over s addr o : stateObjects s !! addr = Some o →
  let n := setBalance (acc_Balance (data o)) (newObject addr None) in
  CreateAccount addr s =
    (with_objects (with_journal s (StateDB.mkJournal T (resetObjectChange o :: entries (st_journal s)) (StateDB.dirties (st_journal s))))
      (<[addr := n]> (stateObjects s)), Ok ()).
Proof.
  intros E. unfold CreateAccount, createObject, getDeletedStateObject, mbind, M_bind. rewrite E. cbn.
  unfold setStateObject, modify. cbn. by rewrite insert_insert_eq.
Qed.
End Divergences.

(** The calls, a commit, and the state at the new root. *)
Definition commit_calls (cs : list call) (s : StateDB (cachingDB (C := gmap bytes bytes)) SecureTrie) : option (Hash * StateDB (cachingDB (C := gmap bytes bytes)) SecureTrie) :=
  match runs exec cs s with
  | (s, Ok _) => match StateDB.Commit true s with
                 | (s, Ok root) => match StateDB.New root (st_db s) with Ok s => Some (root, s) | _ => None end
                 | _ => None
                 end
  | _ => None
  end.

(** An account that is only created again is not written: the comment on [createObject]
    says that it sets the object to dirty. *)
Lemma create_not_written :
  match commit_calls [CSetNonce alice 1; CSetState alice (word 7) (word 3)] ex_state with
  | Some (root, s) =>
      snd (runs exec [CCreateAccount alice; CGetNonce alice] s) = Ok [ANone; AZ 0] ∧
      match commit_calls [CCreateAccount alice] s with
      | Some (root', s') => root' = root ∧ snd (runs exec [CGetNonce alice] s') = Ok [AZ 1]
      | None => False
      end
  | None => False
  end.
Proof. vm_compute. split_and!; reflexivity. Qed.

(** An error of the database that was recorded is not returned by [Commit]. *)
Lemma error_not_returned : snd (StateDB.Commit true (setError (Some io_EOF) ex_state)) = Ok emptyRoot.
Proof. vm_compute. reflexivity. Qed.

(** Asking for the size of the code of an account without code records one. *)
Lemma no_code_error : st_dbErr (fst (runs exec [CSetNonce alice 1; CGetCodeSize alice] ex_state)) = Some (ErrorNew "not found").
Proof. vm_compute. reflexivity. Qed.

(** [Suicide] does not clear a balance that is kept in OVM_ETH. *)
Lemma suicide_keeps_balance :
  snd (runs exec [CSetNonce alice 1; CAddBalance alice 5; CSuicide alice; CGetBalance alice] ex_state) =
    Ok [ANone; ANone; ABool true; AZ 5].
Proof. vm_compute. reflexivity. Qed.

(** Without OVM_ETH, a balance that was deleted with its account comes back when the account
    is created again. *)
Lemma deleted_balance_returns :
  snd (runs (@exec _ {| UsingOVM := false |} _ _ _ _) [CAddBalance alice 10; CSuicide alice; CAddBalance alice 5; CFinalise true; CExist alice;
       CGetBalance alice; CCreateAccount alice; CGetBalance alice] ex_state) =
    Ok [ANone; ABool true; ANone; ANone; ABool false; AZ 0; ANone; AZ 5].
Proof. vm_compute. reflexivity. Qed.

(** A copy that is taken within a transaction forgets that an account was destructed: the
    comment says that what the journal would cause during a commit is applied to it. *)
Lemma copy_forgets_suicide :
  match runs exec [CSetNonce alice 1; CFinalise true; CSuicide alice] ex_state with
  | (s, Ok _) =>
      match StateDB.Copy s with
      | Ok c => match commit_calls [] s, commit_calls [] c with
                | Some (_, s), Some (_, c) =>
                    snd (runs exec [CExist alice] s) = Ok [ABool false] ∧ snd (runs exec [CExist alice] c) = Ok [ABool true]
                | _, _ => False
                end
      | _ => False
      end
  | _ => False
  end.
Proof. vm_compute. split; reflexivity. Qed.

(** ** The RIPEMD precompile *)

Module Ripemd_example.
#[local] Instance without_ovm : Rcfg := { UsingOVM := false }.

(** With balances in the accounts, a zero transfer to the precompile leaves its mark in the
    journal also when it is reverted: an empty account there is deleted by the next
    [Finalise], which the specification, where a revert restores everything, does not do.
    The code keeps the mark on purpose (journal.go, [dirty]). *)
Definition calls : list call :=
  [CCreateAccount ripemd; CFinalise false; CExist ripemd; CSnapshot; CAddBalance ripemd 0; CRevertToSnapshot 0;
   CFinalise true; CExist ripemd].

Theorem ripemd_mark_survives :
  snd (runs exec calls ex_state) = Ok [ANone; ANone; ABool true; AId 0; ANone; ANone; ANone; ABool false] ∧
  snd (runs spec calls ex_machine) = Ok [ANone; ANone; ABool true; AId 0; ANone; ANone; ANone; ABool true].
Proof. split; vm_compute; reflexivity. Qed.
End Ripemd_example.
